(* ===== verification/_CoqProject ===== *)
-Q . S2P
Prelude.v
Effects.v
Logs.v
GoFloat.v
GoStrings.v
NutProtocol.v
NutClient.v
NutOps.v
NutSafety.v
UpsControl.v
UpsFeed.v
ProxmoxApi.v
Crs.v
DrsRules.v
DrsPlanner.v
DrsEngine.v
DrsExecutor.v
RollingDb.v
RollingHa.v
RollingCapacity.v
RollingOps.v
RollingRelease.v
RollingDrain.v
RollingUpgrade.v
RollingHandlers.v
RollingPrograms.v
RollingExample.v
RollingSafety.v
RollingLife.v
RollingGuards.v
RollingRecords.v
AlertRules.v
AlertEngine.v
AlertDispatch.v
AlertUps.v
AlertInventory.v
AuthLockout.v
AuthDb.v
AuthOps.v
AuthHandlers.v
AuthInvariant.v
AuthSafety.v
AuthFinal.v
AuthHistory.v
AuthExample.v
RbacDb.v
RbacEngine.v
RbacHandlers.v
RbacGrants.v
RbacHistory.v
RbacSafety.v
RbacExample.v
MigrationOps.v
MigrationChecks.v
MigrationRun.v
MigrationHandlers.v
MigrationHistory.v
MigrationSafety.v
MigrationRecord.v
MigrationExample.v
WsMessage.v
WsHub.v
WsEvents.v
BackupCoverage.v
NetGuard.v
CredsOps.v
ClientCache.v
CredsRoutes.v
CredsHistory.v
CredsSafety.v
CredsExample.v
SchedDb.v
SchedRun.v
SchedCollect.v
SchedRoutes.v
SchedHistory.v
SchedSafety.v
SchedTraces.v
SchedSync.v
SchedExample.v
