(* ===== verification/Prelude.v ===== *)
(** * Nexara: a verification development

    Nexara is a Go server that manages Proxmox VE clusters: it polls them,
    balances their guests (DRS), migrates guests within and between clusters,
    updates nodes one after another (rolling updates), watches the UPSes that
    power them through NUT, raises alerts, pushes what happens to browsers, and
    lets users in by sessions and roles. This development models those parts as
    executable functions and programs and proves what makes them safe to leave
    running. File and function names below are under src/internal/.

    ** Parts, and the files that model them

    - [Prelude] (this file): results of fallible calls, 64- and 32-bit
      integers ([safeconv.Int32]), maps ranged over in an unspecified order
      ([MapRange]), [sort.Slice] ([SortSlice]), tactics and the hint database
      [nexara]. [GoFloat]: [float64] as the Standard Library's executable IEEE
      754 specification. [GoStrings]: the [strings], [strconv] and
      [fmt] functions the source calls, on bytes. [Effects]: programs that call
      the outside, their executions, and the rules to verify them. [Logs]: those
      rules for a system that keeps a log, and histories by evaluation.
    - NUT (nut/, upscontrol/, upsfeed/). [NutProtocol]: parse.go, status.go.
      [NutClient]: the connection of client.go as a state record, its only
      writer [write] and the two reply shapes. [NutOps]: the exported
      operations of client.go and commands.go. [NutSafety]: histories of a
      connection. [UpsControl]: tier.go, validate.go, upscontrol.go.
      [UpsFeed]: upsfeed.go.
    - Proxmox (proxmox/). [ProxmoxApi]: the records and error classes read by
      the other parts (types.go, errors.go), and endpoint.go, the choice of the
      node a client talks to. [Crs]: crs.go.
    - DRS (drs/). [DrsRules]: rules.go. [DrsPlanner]: planner.go and the scores
      of engine.go. [DrsEngine]: the evaluation of engine.go. [DrsExecutor]:
      executor.go and proxmox/task.go.
    - Rolling updates (rolling/, api/handlers/rolling_update.go). [RollingHa]:
      ha_check.go, reboot_policy.go and hasPassthrough of types.go.
      [RollingCapacity]: capacity_check.go. [RollingDb]: the tables and their
      queries. [RollingOps]: the calls of orchestrator.go and what they may be
      answered. [RollingRelease], [RollingDrain], [RollingUpgrade]:
      orchestrator.go, up to [Tick]. [RollingHandlers]: the operator's routes.
      [RollingPrograms], [RollingSafety], [RollingLife], [RollingGuards],
      [RollingRecords]: theorems. [RollingExample]: runs.
    - Alerts (notifications/). [AlertRules]: the judgement of readings in
      alert_engine.go. [AlertEngine]: handleRuleResult, checkEscalations and
      the node, VM and cluster evaluation, with the alert_history queries of
      db/generated/alerts.sql.go. [AlertDispatch]: ratelimit.go, retry.go and
      the dispatch, dead-letter and replay functions of alert_engine.go.
      [AlertUps]: alert_ups.go and nut/reading.go. [AlertInventory]: the
      snapshot rule, alert_veeam.go, alert_tasks.go, and the routing of
      [evaluateRule] and [Evaluate] over every kind of rule.
    - Signing in (auth/session.go, api/handlers/auth.go and its neighbours).
      [AuthLockout]: password_lockout.go, both its stores. [AuthDb]: accounts,
      sessions and their queries. [AuthOps]: the calls, the database they are
      made on, and session.go. [AuthHandlers]: the handlers.
      [AuthInvariant], [AuthSafety], [AuthFinal], [AuthHistory]: any number of
      requests at once. [AuthExample]: a history.
    - Permissions (auth/rbac.go, api/handlers/permission.go,
      permission_middleware.go, rbac.go). [RbacDb]: roles, accounts and their
      queries. [RbacEngine]: the engine, its cache and the gates. [RbacHandlers]:
      all that changes roles: the routes, the directory logins, the removal of a
      cluster and the registration of auth.go. [RbacGrants], [RbacHistory], [RbacSafety]:
      theorems. [RbacExample]: histories.
    - Migrations (migration/, api/handlers/migrations.go, proxmox/diskmove.go).
      [MigrationOps]: jobs, queries, requests and calls. [MigrationChecks]:
      checks.go. [MigrationRun]: orchestrator.go. [MigrationHandlers]: the
      routes. [MigrationHistory], [MigrationSafety], [MigrationRecord]:
      theorems. [MigrationExample]: runs.
    - Live updates (ws/). [WsMessage]: message.go and the gate of client.go.
      [WsEvents]: events/publisher.go, and the way of an event to the browser.
      [WsHub]: hub.go, the clients around it and subscriber.go, as a step
      relation, with its theorems.
    - Scheduled tasks and the tasks of Proxmox (scheduler/, cronspec/,
      collector/task_*.go, api/handlers/schedules.go, tasks.go). [SchedDb]: the
      tables and their queries, cron.go, requests and calls. [SchedRun]:
      scheduler.go, as far as it runs scheduled tasks.
      [SchedCollect]: task_ingest.go, task_mapping.go, task_reconcile.go and
      auditkey's ValidID. [SchedRoutes]: the routes. [SchedHistory],
      [SchedSafety], [SchedTraces], [SchedSync]: theorems. [SchedExample]:
      histories.
    - Backup coverage (backupcoverage/, its route in api/handlers/backup.go).
      [BackupCoverage]: which guests can be restored, by PBS and by Veeam.
    - Addresses (netguard/, api/handlers/url_policy.go). [NetGuard]: what may be
      connected to.
    - Stored credentials (api/handlers/clusters.go, clusters_bootstrap.go,
      pbs_servers.go, credential_redirect.go, crypto/encrypt.go,
      proxmox/cache.go). [CredsOps]: rows, clients, encryption and calls.
      [ClientCache]: the cache of clients, and every way to a client of a row
      (ws/, collector/sync.go, migration/ and rolling/ with their failover).
      [CredsRoutes]: the routes. [CredsHistory]: any number of them at once, over
      the tables and the memory of the processes. [CredsSafety]: theorems.
      [CredsExample]: histories.

    How they meet: an evaluation of DRS reads the cluster ([Reads]), refuses to
    run beside an active native balancer ([Crs]), turns database and HA rules
    into [DrsRules.Rule]s, and hands the placement to [Plan], whose
    recommendations [Execute] carries out. A rolling update loads the same HA
    data, gates on [AnalyzeHAConstraints] and [AnalyzeCapacity], places drained
    guests with [SelectTarget], pauses DRS and the native balancer through
    [Crs], and picks the node it talks to with [SelectClusterEndpoint]. A rule's
    readings are judged by [AlertRules], its verdict moves an alert in
    [AlertEngine], and what that logs is delivered by [AlertDispatch]. A session
    made by [AuthHandlers] is what a request of [RbacHandlers] or
    [MigrationHandlers] comes with; the permission checks of the latter are those
    of [RbacEngine], by their answers, and so are those of a subscription in
    [WsHub]. A schedule of [SchedRoutes] is run by [SchedRun], the task it starts is
    followed by [SchedCollect], and its end settles the schedule; the UPIDs of
    [MigrationRun]'s jobs are withheld from that. Whoever talks to Proxmox has its
    client from [ClientCache], which builds it from a row of [CredsRoutes] and picks
    the member with [SelectClusterEndpoint]; an address is stored only if [NetGuard]
    admits it.

    ** How the code is modelled

    A function that only computes is a function. A handler that reads the
    outside once takes its answers as the fields of a record ([Reads], [ExecEnv],
    [ClusterReads], [Tick], [Outside], the turns of a NUT connection), errors
    included, so that a theorem holds for every answer; what it does to the
    outside is a list of effects or calls, in order. A handler that goes back and
    forth with the database, Proxmox, Redis and the clock is a program of
    [Effects], a tree of calls; the calls of a component are an inductive type
    ([RollingOps.Op], [AuthOps.Op], [ROp], [MOp], [SOp], [COp]) and a relation says what they
    may be answered and what they change. Programs run interleaved call by call,
    may be cut off at any call, and a theorem about them holds for every
    interleaving and every answer the relation allows: a write whose answer is an
    error may have been made. Four calls of a rolling update stand for a whole loop
    of requests that only reads ([PollTask], [PollGuest], [ReadWorkloads], [ListHA]):
    their answer is the list of the answers in that loop. State that outlives a handler is explicit: a NUT
    connection, the simulated placement of the planner, the tables a component
    keeps (with the SQL of its queries as functions on them), the entries of Redis
    with their expiry, the buckets of the rate limiter, the rooms and buffers of
    the hub, the client caches of the processes. Log lines are left out.

    Bounds and fuel. The loop bounds are the code's own: twenty planner
    iterations, the retry budgets, the length of a slice. Fuel is taken by the
    trimming, splitting and replacing of strings and by the batches of a drain,
    where it is the length of the input, and the lemmas about them show it is
    enough; the search for a free VMID has the 999,900 numbers of the source. A
    loop that waits for another system takes the number of times it is woken
    ([beats] of a rolling drain's heartbeat, [n] of [pollTaskStatus] and
    [waitForTask], of [runSubscriber]); it says so when it has used them up, and the
    theorems hold for every number.

    Libraries the source calls and that are not part of it are parameters: the
    address parser and TLS handshake of a NUT connection, netip.ParseAddr,
    url.Parse, the text of addresses, the parser of cron expressions, the decoding
    of an escalation chain (json with google/uuid), the text of a UUID, AES-GCM and
    base64, templates, the dispatchers, the directory and the second factor of a
    login, and strconv.ParseFloat. What is asked of them is named: that the text of a
    UUID reads back ([UuidTextLaws]), that what was encrypted and encoded is decoded
    and decrypted to what it was ([AeadLaws]), that the database
    refuses a query on an ended context ([cancelled_send_leaves_no_row]), that it
    hands out fresh identifiers and, between two insertions of alerts, later times
    ([supplies], [cycle_ok]), that PostgreSQL keeps READ COMMITTED as [AuthOps]
    says it, and that a Redis command takes effect, if it does, before its answer.
    Histories begin in a state nobody has worked on ([initial], [at_start],
    [untouched], [fresh_start]); their hypotheses are met by the examples.

    ** What the theorems show

    - NUT: over any history of a connection every line on the wire is one
      whole, allowed command, and a broken connection is silent
      ([wire_safety], [broken_is_silent]); replies and listings are read back
      as sent ([roundTrip_reply], [list_cmd_rows]); a setting that was sent
      reaches the driver whole ([SetVar_reaches_driver]); which commands need
      which confirmation, and that an accepted value passes every later check
      ([command_gate], [Validate_sound]); which node an address stands for and
      whether a node is protected ([NewNodes_unshared], [Judge_spec]).
    - DRS: recommendations move only guests that nothing that was read forbids to
      move, between healthy nodes that were read ([Evaluate_recommendations], [Plan_recommendations]), break no
      rule that held ([Plan_keeps_rules], [Evaluate_keeps_rules],
      [allowed_migration_keeps_rules]), gain each time ([plan_loop_gain]), and
      are merged without changing where guests end up ([collapseHops_net]); an
      evaluation fails closed ([Evaluate_fails_closed]); each recommendation is
      carried out at most once and ends in one status ([Execute_spec],
      [waitForTask_verdict]); pausing the native balancer can be undone
      ([PausedAutoRebalance_roundtrip]); a client fails over only where it may
      ([SelectClusterEndpoint_spec]).
    - Rolling updates: a clean pre-flight means every drained guest has
      somewhere to go ([AnalyzeHAConstraints_gate], [AnalyzeCapacity_gate]);
      targets respect the hard constraints ([SelectTarget_spec]); constraints
      that were not read are never taken for none ([loadHAConstraints_read],
      [retryHAListing_spec]); only confirmed nodes are contacted
      ([contacts_confirmed_nodes]); an in-place job disturbs no guest
      ([in_place_disrupts_nothing]); a disabled HA rule is on record as
      long as nobody else takes rules off the records
      ([disabled_rules_recorded]); the status of a job is a small machine
      ([job_lifecycle]), a step past its limit ends ([overdue_step_ends]); no
      reboot under a running guest ([reboot_guard], [decideReboot_spec]); what is
      run over SSH ([ssh_commands]); how often a migration is tried
      ([migrate_retries]).
    - Alerts: the engine implements a five-phase machine
      ([handleRuleResult_refines]); one active alert per rule and node, and
      one without a node for a rule that has none, whatever happens to rules and
      nodes ([one_active_alert]); no notification about an alert that never fired
      ([notification_order]); escalation and maintenance windows
      ([checkEscalations_spec], [maintenance_suspends]); a whole evaluation over
      every kind of rule is a run of that machine ([Evaluate_history]); counters,
      windows and memory readings ([nodeRuleOutcome_counter],
      [nodeRuleOutcome_level], [vmRuleOutcome_memory]); a UPS that cannot be read,
      or that a window covers, never ends an outage ([upsRuleValue_sound],
      [upsRuleVerdict_window]); every notification leaves a record
      ([dispatchToChannel_recorded], [ReplayDLQ_spec]), stored errors are short
      and well encoded ([truncateError_spec]), and bursts are bounded
      ([Allow_burst]).
    - Signing in: whatever runs at the same time, ending all sessions of an
      account is final ([ending_is_final]), a refresh token is exchanged once
      ([refresh_once]), a revoked session stays revoked ([revoked_stays]); the two
      stores of the lockout agree ([stores_agree]) and bound the guesses
      ([guess_ceiling]).
    - Permissions: who was let through held the permission when the tables were
      read ([admitted_means_granted]); a revocation is seen by later requests
      ([revocation_takes_effect]); what grants are held changes only by
      who may manage roles, by a directory login, with its cluster or account, or by
      a registration, which gives the first account the administrator's role and any
      other, which an administrator makes, the viewer's
      ([role_changes_authorised]); the check in Go, the check in SQL and the
      filter of a listing agree ([permissions_agree]).
    - Migrations: only confirmed nodes are contacted
      ([migration_contacts_confirmed]); only who manages both clusters changes a
      job ([migration_changes_authorised]); completed means moved
      ([completed_means_moved]); an execution closes its job once
      ([execution_recorded]); the token of the target cluster, of the form
      Proxmox gives tokens, is not written to the database ([secret_not_persisted]); a report passes exactly when no
      check of it failed ([preflight_verdict]).
    - Live updates: a client is sent the data of a room only after the permission
      engine has said that its user may see it ([only_approved_receive]), and an
      event only if that was said of what it is about ([events_confined]); the
      books of the hub agree with one another ([hub_consistent]); a client in a
      room misses no message unless it is cut off ([no_silent_gap]); each room is
      fed by one Redis channel ([channel_bijection]).
    - Scheduled tasks: a success is one that Proxmox reported, of a task that this
      very schedule was given ([success_is_reported]); two claims of a schedule
      without a record between them are ten minutes apart ([claims_exclusive]);
      wherever a run is cut off, Proxmox was asked at most once for each claimed
      row, on a confirmed node ([Run_at_most_once]), and a run that returns has
      recorded each of them once ([Run_records_each]); a task of Proxmox is
      ingested only when three lookups do not know it ([ingested_once_new]), and
      the high-water mark covers what it passes ([mark_covers]).
    - Backup coverage: a guest that is called recent has a backup younger than the
      limit, on a datastore of the name of one its cluster mounts or in Veeam
      ([recent_means_restorable]); the answer depends only on
      what the caller may see ([GetBackupCoverage_confined]); the maps and loops give
      what a direct reading of the listings says ([Compute_reference]).
    - Addresses: which are refused, by their ranges, when an address is entered and
      when it is dialled ([address_policy]).
    - Stored credentials: a secret is the credential only of requests to where it was
      saved for ([secret_stays_home]); a client was made by the thread that uses it of a row it
      had read, or found by it in the cache, neither invalidated nor ten minutes old,
      or handed to it by a flight it had joined ([clients_are_current]); the address of
      a cluster is moved only with no SSH trust left from the old one
      ([move_clears_trust]); a certificate is pinned unasked only where the cluster
      attests it ([pin_attested]).

    Some examples record behaviour the code does not mean; the findings of the
    manifest tell their stories: [unread_node_counts_as_empty],
    [cancelled_send_leaves_no_row], the third verdict of [waitForTask_verdict],
    [rule_lost_by_cancel], [skip_undone], [drs_left_off], [deleted_role_admits],
    [half_update_admits], [cancelled_job_runs], [job_run_twice],
    [completed_job_runs_again], [wait_never_ends], [version_ten_refused],
    [token_name_with_equals], [connection_leaked], [limit_passed],
    [claimed_batch_runs_twice], [lost_record_runs_again],
    [mark_passes_failed_insert], [stale_fill], [lost_move], [unannounced_change],
    [two_without_node].

    ** Not modelled

    The web interface, the SQL schema, the channel clients, Veeam, reports,
    syslog, SSH, consoles and the other I/O around these parts; of the HTTP API
    only the handlers named above; bcrypt, TOTP, LDAP and OpenID Connect behind
    the answers the login handlers get. Of the scheduler the
    ticks that only call other engines, reports and imports; of the collector what
    polls and stores inventory and metrics; the scanner's scores and the small
    parsers (changelog, virtiowin, guest tools). These parts fetch, store and render
    what others decide on; what they share with the parts above (rows, clients,
    addresses, tasks) is modelled there. Of the cluster and PBS routes those that
    only list. *)

From Stdlib Require Export Ascii ZArith Lia.
From stdpp Require Export base list strings gmap fin_maps.

(** ** Results of fallible Go calls

    A Go function returning [(T, error)] becomes a function into [result E T];
    the error values are constructors of an inductive type of each component. *)

Inductive result (E A : Type) : Type :=
| Ok (a : A)
| Err (e : E).
Arguments Ok {E A} a.
Arguments Err {E A} e.

Declare Scope go_scope.
Delimit Scope go_scope with go.
Open Scope go_scope.

Notation "'let?' x ':=' c 'in' k" :=
  (match c with Ok x => k | Err e => Err e end)
  (at level 10, x pattern, c at level 100, k at level 200) : go_scope.

Definition result_map {E A B} (f : A → B) (r : result E A) : result E B :=
  match r with Ok a => Ok (f a) | Err e => Err e end.

Definition is_ok {E A} (r : result E A) : bool :=
  match r with Ok _ => true | Err _ => false end.

(** ** Machine integers

    Go's [int] and [int64] are 64 bits wide on every platform Nexara is built
    for; arithmetic on them wraps around. *)

Definition int64 (z : Z) : Z := ((z + 2 ^ 63) `mod` 2 ^ 64 - 2 ^ 63)%Z.
Definition maxInt64 : Z := (2 ^ 63 - 1)%Z.
Definition minInt64 : Z := (- 2 ^ 63)%Z.

Lemma int64_id z : (minInt64 ≤ z ≤ maxInt64)%Z → int64 z = z.
Proof. unfold int64, minInt64, maxInt64. intros. rewrite Z.mod_small; lia. Qed.

Lemma int64_range z : (minInt64 ≤ int64 z ≤ maxInt64)%Z.
Proof.
  unfold int64, minInt64, maxInt64.
  pose proof (Z.mod_pos_bound (z + 2 ^ 63) (2 ^ 64)). lia.
Qed.

(** [safeconv.Int32]: a 64-bit value clamped into a 32-bit column. *)
Definition maxInt32 : Z := (2 ^ 31 - 1)%Z.
Definition minInt32 : Z := (- 2 ^ 31)%Z.
Definition Int32 (v : Z) : Z :=
  if (maxInt32 <? v)%Z then maxInt32 else if (v <? minInt32)%Z then minInt32 else v.

(** ** Identifiers, times and durations

    A [uuid.UUID] is a number, [pgtype.UUID] an optional one. Times and
    durations are nanoseconds; a duration is 64 bits wide, and
    [time.Time.Sub] saturates. *)

Abbreviation uuid := Z (only parsing).
Definition uuid_Nil : uuid := 0%Z.
Definition uuidFromPgtype (p : option uuid) : uuid := default uuid_Nil p.

Definition second : Z := (10 ^ 9)%Z.
Definition minute : Z := (60 * second)%Z.

(** [t.Sub(u)] *)
Definition Sub (t u : Z) : Z :=
  (if t - u <? minInt64 then minInt64 else if maxInt64 <? t - u then maxInt64 else t - u)%Z.

(** ** Maps iterated in an unspecified order

    Go's [range] over a map visits every entry once, in an order the runtime
    picks. The order is an instance of [MapRange]; the theorems hold for every
    instance, and [map_to_list] is the one the examples run with. *)

Class MapRange := {
  go_range : ∀ {K V} `{Countable K}, gmap K V → list (K * V);
  go_range_perm : ∀ {K V} `{Countable K} (m : gmap K V), go_range m ≡ₚ map_to_list m;
}.

Definition map_to_list_range : MapRange.
Proof.
  refine {| go_range := λ K V _ _ m, map_to_list m |}. done.
Defined.

Section map_range.
Context `{MR : MapRange} {K V : Type} `{Countable K}.
Implicit Types m : gmap K V.

Lemma elem_of_go_range m k v : (k, v) ∈ go_range m ↔ m !! k = Some v.
Proof. rewrite go_range_perm. apply elem_of_map_to_list. Qed.

Lemma NoDup_go_range m : NoDup ((go_range m).*1).
Proof. rewrite go_range_perm. apply NoDup_fst_map_to_list. Qed.

Lemma go_range_length m : length (go_range m) = size m.
Proof. by rewrite go_range_perm, length_map_to_list. Qed.
End map_range.

(** ** Sorting with [sort.Slice]

    [sort.Slice] permutes its slice, and the result is ordered when [less] is a
    strict weak order on the elements. It is not stable, so nothing is promised
    about ties. *)

Definition strict_weak {A} (less : A → A → bool) (l : list A) : Prop :=
  (∀ x, x ∈ l → less x x = false) ∧
  (∀ x y z, x ∈ l → y ∈ l → z ∈ l → less x y = true → less y z = true → less x z = true) ∧
  (∀ x y z, x ∈ l → y ∈ l → z ∈ l → less x y = false → less y z = false → less x z = false).

(** No later element is less than an earlier one. *)
Definition ordered_by {A} (less : A → A → bool) (l : list A) : Prop :=
  ∀ i j x y, i < j → l !! i = Some x → l !! j = Some y → less y x = false.

Class SortSlice := {
  sort_slice : ∀ {A}, (A → A → bool) → list A → list A;
  sort_slice_perm : ∀ {A} (less : A → A → bool) l, sort_slice less l ≡ₚ l;
  sort_slice_ordered : ∀ {A} (less : A → A → bool) l,
    strict_weak less l → ordered_by less (sort_slice less l);
}.

(** Insertion sort, which is what [sort.Slice] runs on up to twelve elements. *)
Fixpoint insert_sorted {A} (less : A → A → bool) (x : A) (l : list A) : list A :=
  match l with
  | [] => [x]
  | y :: l' => if less x y then x :: l else y :: insert_sorted less x l'
  end.

Definition insertion_sort {A} (less : A → A → bool) (l : list A) : list A :=
  foldl (λ acc x, insert_sorted less x acc) [] l.

Lemma insert_sorted_perm {A} (less : A → A → bool) x l :
  insert_sorted less x l ≡ₚ x :: l.
Proof.
  induction l as [|y l IH]; simpl; [done|].
  destruct (less x y); [done|]. rewrite IH. apply Permutation_swap.
Qed.

Lemma insertion_sort_perm {A} (less : A → A → bool) l : insertion_sort less l ≡ₚ l.
Proof.
  unfold insertion_sort.
  cut (∀ acc, foldl (λ acc x, insert_sorted less x acc) acc l ≡ₚ acc ++ l).
  { intros H. by rewrite H. }
  induction l as [|x l IH]; intros acc; simpl; [by rewrite app_nil_r|].
  rewrite IH, insert_sorted_perm. by rewrite <-Permutation_middle.
Qed.

Lemma ordered_by_cons {A} (less : A → A → bool) x l :
  ordered_by less (x :: l) ↔ (∀ y, y ∈ l → less y x = false) ∧ ordered_by less l.
Proof.
  split.
  - intros Ho. split.
    + intros y [j Hj]%list_elem_of_lookup. apply (Ho 0 (S j)); [lia|done|done].
    + intros i j u v Hij Hu Hv. apply (Ho (S i) (S j)); [lia|done|done].
  - intros [Hx Ho] [|i] [|j] u v Hij Hu Hv; simplify_eq/=; try lia.
    + apply Hx, list_elem_of_lookup. eauto.
    + apply (Ho i j); [lia|done|done].
Qed.

Lemma strict_weak_asym {A} (less : A → A → bool) l x y :
  strict_weak less l → x ∈ l → y ∈ l → less x y = true → less y x = false.
Proof.
  intros (Hirr & Htr & _) Hx Hy Hxy. destruct (less y x) eqn:E; [|done].
  specialize (Htr _ _ _ Hx Hy Hx Hxy E). by rewrite Hirr in Htr.
Qed.

Lemma insert_sorted_ordered {A} (less : A → A → bool) x l k :
  strict_weak less k → x ∈ k → l ⊆ k →
  ordered_by less l → ordered_by less (insert_sorted less x l).
Proof.
  intros Hsw Hxk. pose proof Hsw as (_ & Htr & Hntr).
  induction l as [|y l IH]; simpl; intros Hk Ho.
  { by apply ordered_by_cons; split; [intros ? ?%not_elem_of_nil|]. }
  apply ordered_by_cons in Ho as [Hy Ho].
  assert (y ∈ k ∧ l ⊆ k) as [Hyk Hlk] by set_solver.
  destruct (less x y) eqn:Hxy.
  - apply ordered_by_cons. split; [|by apply ordered_by_cons].
    intros z [->|Hz]%elem_of_cons; [by eapply strict_weak_asym|].
    destruct (less z x) eqn:E; [|done].
    specialize (Htr _ _ _ (Hlk _ Hz) Hxk Hyk E Hxy). by rewrite (Hy z Hz) in Htr.
  - apply ordered_by_cons. split; [|by apply IH].
    intros z. rewrite insert_sorted_perm. intros [->|Hz]%elem_of_cons; [done|by apply Hy].
Qed.

Lemma insertion_sort_ordered {A} (less : A → A → bool) l :
  strict_weak less l → ordered_by less (insertion_sort less l).
Proof.
  intros Hsw. unfold insertion_sort.
  cut (∀ rest acc, rest ⊆ l → acc ⊆ l → ordered_by less acc →
    ordered_by less (foldl (λ acc x, insert_sorted less x acc) acc rest)).
  { intros H. apply H; [done|set_solver|]. intros ???? _ Hn. by rewrite lookup_nil in Hn. }
  induction rest as [|x rest IH]; intros acc Hr Ha Ho; simpl; [done|].
  assert (x ∈ l ∧ rest ⊆ l) as [Hx Hr'] by set_solver.
  apply IH; [done| |by eapply insert_sorted_ordered].
  intros y. rewrite insert_sorted_perm. intros [->|?]%elem_of_cons; [done|by apply Ha].
Qed.

Definition insertion_sort_slice : SortSlice := {|
  sort_slice := @insertion_sort;
  sort_slice_perm := @insertion_sort_perm;
  sort_slice_ordered := @insertion_sort_ordered;
|}.

(** ** Automation *)

Create HintDb nexara.
Create Rewrite HintDb nexara.

(** Case analysis on every [match] and [if] of the goal, with its equation. *)
Ltac go_cases :=
  repeat match goal with
  | |- context [match ?x with _ => _ end] => destruct x eqn:?
  end.

(** Boolean tests of the code as the propositions they decide. *)
Ltac to_prop :=
  repeat match goal with
  | H : negb _ = true |- _ => apply negb_true_iff in H
  | H : negb _ = false |- _ => apply negb_false_iff in H
  | H : _ && _ = true |- _ => apply andb_true_iff in H as [? ?]
  | H : _ || _ = false |- _ => apply orb_false_iff in H as [? ?]
  | H : bool_decide _ = true |- _ => apply bool_decide_eq_true in H
  | H : bool_decide _ = false |- _ => apply bool_decide_eq_false in H
  | H : Z.eqb _ _ = true |- _ => apply Z.eqb_eq in H
  | H : Z.eqb _ _ = false |- _ => apply Z.eqb_neq in H
  | H : Z.leb _ _ = true |- _ => apply Z.leb_le in H
  | H : Z.leb _ _ = false |- _ => apply Z.leb_gt in H
  | H : Z.ltb _ _ = true |- _ => apply Z.ltb_lt in H
  | H : Z.ltb _ _ = false |- _ => apply Z.ltb_ge in H
  | H : Nat.eqb _ _ = true |- _ => apply Nat.eqb_eq in H
  | H : Nat.eqb _ _ = false |- _ => apply Nat.eqb_neq in H
  | H : Nat.leb _ _ = true |- _ => apply Nat.leb_le in H
  | H : Nat.leb _ _ = false |- _ => apply Nat.leb_gt in H
  | H : Nat.ltb _ _ = true |- _ => apply Nat.ltb_lt in H
  | H : Nat.ltb _ _ = false |- _ => apply Nat.ltb_ge in H
  end.

(** ** Go's [for range] over a slice with an early [return true] *)

Lemma existsb_elem_of {A} (f : A → bool) l :
  existsb f l = true ↔ ∃ x, x ∈ l ∧ f x = true.
Proof. rewrite existsb_exists. setoid_rewrite list_elem_of_In. done. Qed.

Lemma existsb_false {A} (f : A → bool) l :
  existsb f l = false ↔ ∀ x, x ∈ l → f x = false.
Proof.
  rewrite <-not_true_iff_false, existsb_elem_of. split.
  - intros Hn x Hx. apply not_true_is_false. naive_solver.
  - intros H (x & Hx & Hf). by rewrite H in Hf.
Qed.

Lemma forallb_elem_of {A} (f : A → bool) l :
  forallb f l = true ↔ ∀ x, x ∈ l → f x = true.
Proof. rewrite forallb_forall. setoid_rewrite list_elem_of_In. done. Qed.

(** Keeping the elements a Go condition accepts. *)
Lemma elem_of_bfilter {A} (f : A → bool) l x : x ∈ List.filter f l ↔ x ∈ l ∧ f x = true.
Proof. rewrite !list_elem_of_In. apply filter_In. Qed.

(** Membership in a slice ([slices.Contains] and the [containsX] helpers). *)
Definition contains `{EqDecision A} (l : list A) (x : A) : bool :=
  existsb (λ y, bool_decide (y = x)) l.
Arguments contains {_ _} l x : simpl never.

Lemma contains_spec `{EqDecision A} (l : list A) x : contains l x = true ↔ x ∈ l.
Proof.
  unfold contains. rewrite existsb_elem_of. split.
  - intros (y & Hy & ->%bool_decide_eq_true). done.
  - intros Hx. exists x. split; [done|]. by apply bool_decide_eq_true.
Qed.

Lemma contains_false `{EqDecision A} (l : list A) x : contains l x = false ↔ x ∉ l.
Proof. rewrite <-contains_spec. by rewrite not_true_iff_false. Qed.

#[export] Hint Rewrite @contains_spec @contains_false : nexara.
