(* ===== verification/Effects.v ===== *)
(** * Programs that call the outside

    A handler that talks to the database, to Proxmox and to the clock in the
    middle of its work is a tree of calls: [Vis e k] makes the call [e] and goes
    on with its answer. The tree says nothing about the answers, so a theorem
    about it holds for every one of them.

    - [calls_ok]: what a program calls, whatever it is answered; [trace]: its
      calls and answers; [returns]: those of a program that has returned.
    - [runs]: the executions of a program, cut off at any point (a crash, a
      restart), with anything [rely] allows happening between two calls.
    - [wp]: what has to hold for the program to be safe; [wp_adequate] connects
      the two.
    - [keeps_log]: a program alone, with what has to hold of its log.
    - [pool]: several programs at once, one call at a time ([pool_calls_ok]).
    - [threads]: the same with an identity for each program, and a rule that
      verifies each program against what the others may do ([threads_safe]).
    - [run]: a program run against a concrete outside. *)

From S2P Require Import Prelude.

(** A property of every entry of a log (newest first) and the entries before it. *)
Fixpoint ForallTail {A} (P : A → list A → Prop) (l : list A) : Prop :=
  match l with
  | [] => True
  | a :: earlier => P a earlier ∧ ForallTail P earlier
  end.

Lemma ForallTail_intro {A} (P : A → list A → Prop) l :
  (∀ later a earlier, l = later ++ a :: earlier → P a earlier) → ForallTail P l.
Proof.
  induction l as [|a l IH]; intros H; simpl; [done|]. split; [by apply (H [])|].
  apply IH. intros later b earlier ->. by apply (H (a :: later)).
Qed.

Lemma ForallTail_at {A} (P : A → list A → Prop) la a lb : ForallTail P (la ++ a :: lb) → P a lb.
Proof. induction la as [|x la IH]; simpl; [by intros [? _]|]. intros [_ ?]. by apply IH. Qed.

Section prog.
Context {E : Type → Type}.

Inductive prog (A : Type) : Type :=
| Ret (a : A)
| Vis {X : Type} (e : E X) (k : X → prog A).
Arguments Ret {A} a.
Arguments Vis {A X} e k.

Definition call {X} (e : E X) : prog X := Vis e Ret.

Fixpoint bind {A B} (p : prog A) (f : A → prog B) : prog B :=
  match p with
  | Ret a => f a
  | Vis e k => Vis e (λ x, bind (k x) f)
  end.

(** A loop over a slice that carries a state; [inr] is a [return] of the
    enclosing function from inside the loop. *)
Fixpoint for_range {A T R} (l : list A) (body : T → A → prog (T + R)) (t : T) : prog (T + R) :=
  match l with
  | [] => Ret (inl t)
  | a :: l => bind (body t a) (λ r,
      match r with
      | inl t => for_range l body t
      | inr r => Ret (inr r)
      end)
  end.

(** A loop over a slice without state or early return. *)
Fixpoint for_each {A} (l : list A) (body : A → prog unit) : prog unit :=
  match l with
  | [] => Ret tt
  | a :: l => bind (body a) (λ _, for_each l body)
  end.

(** ** What a program calls, whatever it is answered

    [calls_ok P G p Q]: as long as every answer satisfies [G], every call of [p]
    satisfies [P] and its result satisfies [Q]. *)
Section calls.
Variable P : ∀ X, E X → Prop.
Variable G : ∀ X, E X → X → Prop.

Fixpoint calls_ok {A} (p : prog A) (Q : A → Prop) : Prop :=
  match p with
  | Ret a => Q a
  | Vis e k => P _ e ∧ ∀ x, G _ e x → calls_ok (k x) Q
  end.

Lemma calls_ret {A} (a : A) (Q : A → Prop) : Q a → calls_ok (Ret a) Q.
Proof. done. Qed.

Lemma calls_mono {A} (p : prog A) (Q Q' : A → Prop) :
  (∀ a, Q a → Q' a) → calls_ok p Q → calls_ok p Q'.
Proof. intros HQ. induction p as [a|X e k IH]; simpl; naive_solver. Qed.

Lemma calls_bind {A B} (p : prog A) (f : A → prog B) Q :
  calls_ok p (λ a, calls_ok (f a) Q) → calls_ok (bind p f) Q.
Proof. induction p as [a|X e k IH]; simpl; naive_solver. Qed.

Lemma calls_call {X} (e : E X) (Q : X → Prop) :
  P _ e → (∀ x, G _ e x → Q x) → calls_ok (call e) Q.
Proof. simpl. naive_solver. Qed.

Lemma calls_for_range {A T R} (l : list A) (body : T → A → prog (T + R)) (Q : T + R → Prop) t :
  (∀ t, Q (inl t)) → (∀ a t, a ∈ l → calls_ok (body t a) Q) → calls_ok (for_range l body t) Q.
Proof.
  intros HQ. revert t. induction l as [|a l IH]; intros t Hb; simpl; [done|].
  apply calls_bind. eapply calls_mono; [|apply Hb; left].
  intros [t'|r] H; simpl; [|done]. apply IH. intros. apply Hb. by right.
Qed.

Lemma calls_for_each {A} (l : list A) (body : A → prog unit) (Q : unit → Prop) :
  Q tt → (∀ a, a ∈ l → calls_ok (body a) (λ _, True)) → calls_ok (for_each l body) Q.
Proof.
  intros HQ Hb. induction l as [|a l IH]; simpl; [done|].
  apply calls_bind. eapply calls_mono; [|apply Hb; left].
  intros _ _. apply IH. intros. apply Hb. by right.
Qed.
End calls.

(** ** Traces

    The calls and answers of a program cut off at any point, oldest first. *)
Inductive event : Type :=
| Ev {X : Type} (e : E X) (x : X).

Inductive trace {A} : prog A → list event → Prop :=
| trace_nil p : trace p []
| trace_call X (e : E X) k x t : trace (k x) t → trace (Vis e k) (Ev e x :: t).

(** The same of a program that has returned, with its result. *)
Inductive returns {A} : prog A → list event → A → Prop :=
| returns_ret a : returns (Ret a) [] a
| returns_call X (e : E X) k x t a : returns (k x) t a → returns (Vis e k) (Ev e x :: t) a.

Section logic.
Context {S : Type}.
Variable step : ∀ X, E X → S → X → S → Prop.
Variable rely : S → S → Prop.
Variable I : S → Prop.
Arguments step {X} _ _ _ _.

Inductive runs {A} : prog A → S → prog A → S → Prop :=
| runs_refl p s : runs p s p s
| runs_env p s s1 q s2 : rely s s1 → runs p s1 q s2 → runs p s q s2
| runs_call X (e : E X) k s x s1 q s2 :
    step e s x s1 → runs (k x) s1 q s2 → runs (Vis e k) s q s2.

Fixpoint wp {A} (p : prog A) (Q : A → S → Prop) (s : S) : Prop :=
  match p with
  | Ret a => ∀ s', rely s s' → Q a s'
  | Vis e k => ∀ s1, rely s s1 → ∀ x s2, step e s1 x s2 → I s2 ∧ wp (k x) Q s2
  end.

Context `{!PreOrder rely}.

Lemma wp_ret {A} (a : A) Q s : (∀ s', rely s s' → Q a s') → wp (Ret a) Q s.
Proof. done. Qed.

Lemma wp_mono {A} (p : prog A) Q Q' s :
  (∀ a s', Q a s' → Q' a s') → wp p Q s → wp p Q' s.
Proof.
  intros HQ. revert s. induction p as [a|X e k IH]; simpl; intros s H.
  - eauto.
  - intros s1 Hr x s2 Hs. destruct (H s1 Hr x s2 Hs). eauto.
Qed.

Lemma wp_rely {A} (p : prog A) Q s s' : rely s s' → wp p Q s → wp p Q s'.
Proof.
  intros Hr. destruct p as [a|X e k]; simpl; intros H.
  - intros s'' Hr'. apply H. by etransitivity.
  - intros s1 Hr1. apply H. by etransitivity.
Qed.

Lemma wp_bind {A B} (p : prog A) (f : A → prog B) Q s :
  wp p (λ a, wp (f a) Q) s → wp (bind p f) Q s.
Proof.
  revert s. induction p as [a|X e k IH]; simpl; intros s H; [by apply H|].
  intros s1 Hr x s2 Hs. destruct (H s1 Hr x s2 Hs). eauto.
Qed.

(** The rule for a loop: an invariant of its state. *)
Lemma wp_for_range {A T R} (l : list A) (body : T → A → prog (T + R))
    (J : T → S → Prop) (Q : T + R → S → Prop) t s :
  (∀ t s s', rely s s' → J t s → J t s') →
  (∀ t s, J t s → Q (inl t) s) →
  (∀ a t s, a ∈ l → J t s →
     wp (body t a) (λ r s, match r with inl t => J t s | inr _ => ∀ s', rely s s' → Q r s' end) s) →
  J t s → wp (for_range l body t) Q s.
Proof.
  intros HJ HQ. revert t s. induction l as [|a l IH]; intros t s Hb Ht; simpl.
  - intros s' Hr. eauto.
  - apply wp_bind. eapply wp_mono; [|apply (Hb a t s); [left|done]].
    intros [t'|r] s' H; simpl.
    + apply IH; [|done]. intros. apply Hb; [by right|done].
    + done.
Qed.

Lemma wp_for_each {A} (l : list A) (body : A → prog unit) (J : S → Prop) Q s :
  (∀ s s', rely s s' → J s → J s') →
  (∀ s, J s → Q tt s) →
  (∀ a s, a ∈ l → J s → wp (body a) (λ _, J) s) →
  J s → wp (for_each l body) Q s.
Proof.
  intros HJ HQ. revert s. induction l as [|a l IH]; intros s Hb Hs; simpl.
  - intros s' Hr. eauto.
  - apply wp_bind. eapply wp_mono; [|apply (Hb a s); [left|done]].
    intros [] s' H. apply IH; [|done]. intros. apply Hb; [by right|done].
Qed.

Lemma wp_adequate {A} (p : prog A) Q s q s' :
  runs p s q s' → wp p Q s → wp q Q s'.
Proof.
  induction 1 as [| |X e k s x s1 q s2 Hs Hr IH]; intros Hwp; [done| |].
  - apply IHruns. by eapply wp_rely.
  - apply IH. apply (Hwp s); [done|done].
Qed.

(** What [wp] gives for an execution: the invariant at every point, and the
    postcondition at the end. *)
Lemma wp_invariant {A} (p : prog A) Q s q s' :
  (∀ s s', rely s s' → I s → I s') →
  I s → wp p Q s → runs p s q s' → I s'.
Proof.
  intros HI Hs Hwp Hr. induction Hr as [| |X e k s x s1 q s2 Hst Hr IH]; [done| |].
  - apply IHHr; [by eapply HI|by eapply wp_rely].
  - destruct (Hwp s (reflexivity s) x s1 Hst). by apply IH.
Qed.

Lemma wp_result {A} (p : prog A) Q s a s' :
  wp p Q s → runs p s (Ret a) s' → Q a s'.
Proof. intros Hwp Hr. by apply (wp_adequate _ _ _ _ _ Hr Hwp). Qed.

Lemma runs_bind {A B} (p q : prog A) (f : A → prog B) s s' r s'' :
  runs p s q s' → runs (bind q f) s' r s'' → runs (bind p f) s r s''.
Proof.
  induction 1; intros H'; [done| |].
  - econstructor 2; eauto.
  - simpl. econstructor 3; eauto.
Qed.

(** ** Several programs at once *)

Variable spawned : ∀ X, E X → list (prog unit).
Arguments spawned {X} _.
Variable entry : prog unit → Prop.

Inductive pool : list (prog unit) * S → list (prog unit) * S → Prop :=
| pool_call before X (e : E X) k after s x s' :
    step e s x s' →
    pool (before ++ Vis e k :: after, s) (before ++ k x :: after ++ spawned e, s')
| pool_start ts p s : entry p → pool (ts, s) (p :: ts, s)
| pool_stop before p after s : pool (before ++ p :: after, s) (before ++ after, s).

(** Programs whose calls are fine whatever they are answered, run together, keep
    an invariant that fine calls keep. *)
Lemma pool_calls_ok (P : ∀ X, E X → Prop) (G : ∀ X, E X → X → Prop) ts s ts' s' :
  (∀ X (e : E X) s x s', step e s x s' → I s → P X e → I s' ∧ G X e x) →
  (∀ p, entry p → calls_ok P G p (λ _, True)) →
  (∀ X (e : E X), P X e → Forall (λ p, calls_ok P G p (λ _, True)) (spawned e)) →
  rtc pool (ts, s) (ts', s') →
  I s → Forall (λ p, calls_ok P G p (λ _, True)) ts →
  I s' ∧ Forall (λ p, calls_ok P G p (λ _, True)) ts'.
Proof.
  intros Hstep Hentry Hspawn Hr.
  remember (ts, s) as c eqn:Hc. remember (ts', s') as c' eqn:Hc'.
  revert ts s Hc Hc'. induction Hr as [c|c c1 c' Hp Hr IH]; intros ts s -> Hc'.
  { by simplify_eq. }
  intros HI Hts. destruct c1 as [ts1 s1].
  cut (I s1 ∧ Forall (λ p, calls_ok P G p (λ _, True)) ts1).
  { intros [? ?]. by eapply IH. }
  inversion Hp as [before X e k after s0 x s1' Hst|ts0 p s0 He|before p after s0]; simplify_eq.
  - apply Forall_app in Hts as [Hb Ha]. apply Forall_cons in Ha as [Hv Ha].
    destruct Hv as [He Hk]. destruct (Hstep _ _ _ _ _ Hst HI He) as [HI1 HG]. split; [done|].
    rewrite Forall_app, Forall_cons, Forall_app. split_and!; eauto.
  - split; [done|]. constructor; [eauto|done].
  - split; [done|]. apply Forall_app in Hts as [? Hts]. apply Forall_cons in Hts as [_ ?].
    by apply Forall_app.
Qed.
End logic.

(** ** Logs

    A program alone, its answers free, with its calls and answers on a log,
    newest first. *)
Section logs.
Variable I : list event → Prop.

Definition logged (X : Type) (e : E X) (l : list event) (x : X) (l' : list event) : Prop :=
  l' = Ev e x :: l.

Definition keeps_log {A} (p : prog A) (Q : A → list event → Prop) (l : list event) : Prop :=
  wp logged eq I p Q l.

Lemma keeps_trace {A} (p : prog A) Q l t :
  keeps_log p Q l → I l → trace p t → I (rev t ++ l).
Proof.
  intros Hp Hl Ht. revert l Hp Hl. induction Ht as [p|X e k x t Ht IH]; intros l Hp Hl; [done|].
  destruct (Hp l eq_refl x (Ev e x :: l) eq_refl) as [HI Hk].
  simpl. rewrite <-(assoc_L (++)). by apply IH.
Qed.

Lemma keeps_returns {A} (p : prog A) Q l t a :
  keeps_log p Q l → returns p t a → Q a (rev t ++ l).
Proof.
  intros Hp Ht. revert l Hp. induction Ht as [a|X e k x t a Ht IH]; intros l Hp; [by apply Hp|].
  destruct (Hp l eq_refl x (Ev e x :: l) eq_refl) as [_ Hk].
  simpl. rewrite <-(assoc_L (++)). by apply IH.
Qed.

Lemma keeps_ret {A} (a : A) (Q : A → list event → Prop) l : Q a l → keeps_log (Ret a) Q l.
Proof. by intros ? ? <-. Qed.

Lemma keeps_call {X} (e : E X) (Q : X → list event → Prop) l :
  (∀ x, I (Ev e x :: l) ∧ Q x (Ev e x :: l)) → keeps_log (call e) Q l.
Proof. intros H l1 <- x l2 ->. destruct (H x). split; [done|]. by intros ? <-. Qed.

Lemma keeps_mono {A} (p : prog A) Q Q' l :
  (∀ a l', Q a l' → Q' a l') → keeps_log p Q l → keeps_log p Q' l.
Proof. apply wp_mono. Qed.

Lemma keeps_bind {A B} (p : prog A) (f : A → prog B) Q l :
  keeps_log p (λ a, keeps_log (f a) Q) l → keeps_log (bind p f) Q l.
Proof. apply (wp_bind logged eq I). Qed.

(** A program whose calls all keep the invariant. *)
Lemma keeps_calls (P : ∀ X, E X → Prop) {A} (p : prog A) (Q : A → Prop) l :
  (∀ X (e : E X) x l, P X e → I l → I (Ev e x :: l)) →
  calls_ok P (λ _ _ _, True) p Q → I l → keeps_log p (λ a l', Q a ∧ I l') l.
Proof.
  intros HP. revert l. induction p as [a|X e k IH]; simpl; intros l Hp Hl.
  - by intros ? <-.
  - intros l1 <- x l2 ->. destruct Hp as [He Hk].
    assert (I (Ev e x :: l)) by by apply HP. split; [done|]. apply IH; [by apply Hk|done].
Qed.
End logs.

(** ** Programs with an identity

    Each program has a number, its calls are made under it, and [pre] is what a
    program owes the others at a call. A program is verified alone ([safe])
    against every call the others may make under [pre] and the invariant. *)
Section threads.
Context {S : Type}.
Variable step : nat → ∀ X, E X → S → X → S → Prop.
Variable pre : nat → ∀ X, E X → S → Prop.
Variable I : S → Prop.

Definition other_step (i : nat) (s s' : S) : Prop :=
  I s ∧ I s' ∧ ∃ j X (e : E X) x, j ≠ i ∧ pre j X e s ∧ step j X e s x s'.

Definition stable (i : nat) (A : S → Prop) : Prop := ∀ s s', other_step i s s' → A s → A s'.

Fixpoint safe (i : nat) {A} (p : prog A) (Q : A → S → Prop) (s : S) : Prop :=
  match p with
  | Ret a => ∀ s', rtc (other_step i) s s' → Q a s'
  | Vis e k => ∀ s1, rtc (other_step i) s s1 → I s1 →
      pre i _ e s1 ∧ ∀ x s2, step i _ e s1 x s2 → I s2 → safe i (k x) Q s2
  end.

Lemma stable_rtc i A s s' : stable i A → rtc (other_step i) s s' → A s → A s'.
Proof. intros HA. induction 1; eauto. Qed.

Lemma safe_ret i {A} (a : A) (Q : A → S → Prop) s : stable i (Q a) → Q a s → safe i (Ret a) Q s.
Proof. intros HQ Hs s' Hr. by eapply stable_rtc. Qed.

Lemma safe_mono i {A} (p : prog A) (Q Q' : A → S → Prop) s :
  (∀ a s', Q a s' → Q' a s') → safe i p Q s → safe i p Q' s.
Proof.
  intros HQ. revert s. induction p as [a|X e k IH]; simpl; intros s H; [eauto|].
  intros s1 Hr HI. destruct (H s1 Hr HI) as [Hp Hk]. split; [done|]. eauto.
Qed.

Lemma safe_other i {A} (p : prog A) Q s s' : rtc (other_step i) s s' → safe i p Q s → safe i p Q s'.
Proof.
  intros Hr. destruct p as [a|X e k]; simpl; intros H.
  - intros s'' Hr'. apply H. by etransitivity.
  - intros s1 Hr1. apply H. by etransitivity.
Qed.

Lemma safe_bind i {A B} (p : prog A) (f : A → prog B) Q s :
  safe i p (λ a, safe i (f a) Q) s → safe i (bind p f) Q s.
Proof.
  revert s. induction p as [a|X e k IH]; simpl; intros s H; [by apply H|].
  intros s1 Hr HI. destruct (H s1 Hr HI) as [Hp Hk]. split; [done|]. eauto.
Qed.

Lemma safe_and i {A} (p : prog A) (Q R : A → S → Prop) s :
  safe i p Q s → safe i p R s → safe i p (λ a s, Q a s ∧ R a s) s.
Proof.
  revert s. induction p as [a|X e k IH]; simpl; intros s HQ HR; [eauto|].
  intros s1 Hr HI. destruct (HQ s1 Hr HI) as [Hp HkQ], (HR s1 Hr HI) as [_ HkR]. split; [done|]. eauto.
Qed.

(** A call made where the stable [A] holds. *)
Lemma safe_call i {X} (e : E X) (A : S → Prop) (Q : X → S → Prop) s :
  stable i A → A s → (∀ x, stable i (Q x)) →
  (∀ s1, I s1 → A s1 → pre i _ e s1) →
  (∀ s1 x s2, I s1 → A s1 → step i _ e s1 x s2 → I s2 → Q x s2) →
  safe i (call e) Q s.
Proof.
  intros HA Hs HQ Hp Hk s1 Hr HI. assert (A s1) by by eapply stable_rtc.
  split; [by apply Hp|]. intros x s2 Hst HI2. apply safe_ret; [done|]. by eapply (Hk s1).
Qed.

(** What every call keeps. *)
Definition persistent (A : S → Prop) : Prop :=
  ∀ j X (e : E X) s x s', I s → pre j X e s → step j X e s x s' → A s → A s'.

Lemma persistent_stable i A : persistent A → stable i A.
Proof. intros HA s s' (HI & _ & j & X & e & x & _ & Hp & Hs). by apply (HA j X e s x). Qed.

Lemma safe_frame i {A} (p : prog A) (Q : A → S → Prop) (P : S → Prop) s :
  persistent P → P s → safe i p Q s → safe i p (λ a s, Q a s ∧ P s) s.
Proof.
  intros HP. pose proof (persistent_stable i P HP) as Hst. revert s.
  induction p as [a|X e k IH]; simpl; intros s Hs H.
  - intros s' Hr. split; [by apply H|by eapply stable_rtc].
  - intros s1 Hr HI. destruct (H s1 Hr HI) as [Hp Hk]. split; [done|]. intros x s2 Hstep HI2.
    apply IH; [|by apply Hk]. apply (HP i X e s1 x); try done. by eapply stable_rtc.
Qed.

(** A program whose calls owe nothing, by its answers. *)
Lemma safe_calls (G : ∀ X, E X → X → Prop) i {A} (p : prog A) (Q : A → Prop) s :
  (∀ X (e : E X) s x s', step i X e s x s' → G X e x) →
  calls_ok (λ X e, ∀ s, pre i X e s) G p Q → safe i p (λ a _, Q a) s.
Proof.
  intros HG. revert s. induction p as [a|X e k IH]; simpl; intros s H; [by intros ? _|].
  destruct H as [He Hk]. intros s1 Hr HI. split; [done|]. intros x s2 Hst _. apply IH, Hk. by eapply HG.
Qed.

(** The same where each of its calls also keeps the stable [P]. *)
Lemma safe_calls_keep (G : ∀ X, E X → X → Prop) (P : S → Prop) i {A} (p : prog A) (Q : A → Prop) s :
  stable i P → (∀ X (e : E X) s x s', step i X e s x s' → G X e x) →
  calls_ok (λ X e, (∀ s, pre i X e s) ∧ ∀ s x s', step i X e s x s' → P s → P s') G p Q →
  P s → safe i p (λ a s, Q a ∧ P s) s.
Proof.
  intros HP HG. revert s. induction p as [a|X e k IH]; simpl; intros s H Hs.
  - intros s' Hr. split; [done|by eapply stable_rtc].
  - destruct H as [[He Hkeep] Hk]. intros s1 Hr HI. split; [done|]. intros x s2 Hst _.
    apply IH; [apply Hk; by eapply HG|]. eapply Hkeep; [done|]. by eapply stable_rtc.
Qed.

Variable idle : nat → S → Prop.
Variable entry : prog unit → Prop.

Inductive threads : list (nat * prog unit) * S → list (nat * prog unit) * S → Prop :=
| thread_call before i X (e : E X) k after s x s' :
    step i X e s x s' →
    threads (before ++ (i, Vis e k) :: after, s) (before ++ (i, k x) :: after, s')
| thread_start ts i p s : i ∉ ts.*1 → idle i s → entry p → threads (ts, s) ((i, p) :: ts, s)
| thread_stop before i p after s : threads (before ++ (i, p) :: after, s) (before ++ after, s).

Definition all_safe (c : list (nat * prog unit) * S) : Prop :=
  I c.2 ∧ NoDup c.1.*1 ∧ Forall (λ t, safe t.1 t.2 (λ _ _, True) c.2) c.1.

Lemma Forall_others (i : nat) (before : list (nat * prog unit)) s s' :
  i ∉ before.*1 → (∀ j, j ≠ i → other_step j s s') →
  Forall (λ t, safe t.1 t.2 (λ _ _, True) s) before →
  Forall (λ t, safe t.1 t.2 (λ _ _, True) s') before.
Proof.
  intros Hi Hs. rewrite !Forall_forall. intros H t Ht.
  eapply safe_other; [|by apply H]. apply rtc_once, Hs. intros Hj.
  apply Hi. rewrite <-Hj. by apply list_elem_of_fmap_2.
Qed.

Lemma threads_step c c' :
  (∀ i X (e : E X) s x s', I s → pre i X e s → step i X e s x s' → I s') →
  (∀ i p s, entry p → idle i s → I s → safe i p (λ _ _, True) s) →
  threads c c' → all_safe c → all_safe c'.
Proof.
  intros Hstep Hentry Hc. unfold all_safe.
  destruct Hc as [before i X e k after s x s' Hst|ts i p s Hi Hidle He|before i p after s]; simpl.
  - rewrite !fmap_app, !fmap_cons, !Forall_app, !Forall_cons. simpl.
    intros (HI & Hnd & Hb & Hv & Ha). destruct (Hv s (rtc_refl _ _) HI) as [Hp Hk].
    pose proof (Hstep _ _ _ _ _ _ HI Hp Hst) as HI'.
    assert (∀ j, j ≠ i → other_step j s s').
    { intros j Hj. split_and!; [done..|]. exists i, X, e, x. by auto. }
    apply NoDup_app in Hnd as Hnd'. destruct Hnd' as (_ & Hdis & Hnd2).
    apply NoDup_cons in Hnd2 as [Hia _].
    split_and!; [done|done| |by apply Hk|by eapply Forall_others].
    eapply Forall_others; [|done..]. intros Hin. by eapply Hdis; [|left].
  - intros (HI & Hnd & Hts). split_and!; [done| |].
    + by apply NoDup_cons.
    + apply Forall_cons. split; [by apply Hentry|done].
  - rewrite !fmap_app, !fmap_cons, !Forall_app, !Forall_cons.
    intros (HI & Hnd & Hb & _ & Ha). split_and!; [done| |done|done].
    apply NoDup_app in Hnd as (? & Hdis & Hnd2). apply NoDup_cons in Hnd2 as [_ ?].
    apply NoDup_app. split_and!; [done| |done]. intros j Hj Hj'. by eapply Hdis; [|right].
Qed.

(** Whatever the others do, every program stays safe and the invariant holds. *)
Lemma threads_safe c c' :
  (∀ i X (e : E X) s x s', I s → pre i X e s → step i X e s x s' → I s') →
  (∀ i p s, entry p → idle i s → I s → safe i p (λ _ _, True) s) →
  rtc threads c c' → all_safe c → all_safe c'.
Proof. intros Hstep Hentry. induction 1; eauto using threads_step. Qed.
End threads.

(** ** Running a program *)

Section run.
Context {S : Type} (answer : ∀ X, E X → S → X * S).
Arguments answer {X} _ _.

Fixpoint run {A} (p : prog A) (s : S) : A * S :=
  match p with
  | Ret a => (a, s)
  | Vis e k => let '(x, s) := answer e s in run (k x) s
  end.

Lemma run_runs (step : ∀ X, E X → S → X → S → Prop) (rely : S → S → Prop) {A} (p : prog A) s :
  (∀ X (e : E X) s, step X e s (answer e s).1 (answer e s).2) →
  runs step rely p s (Ret (run p s).1) (run p s).2.
Proof.
  intros Ha. revert s. induction p as [a|X e k IH]; intros s; simpl; [constructor|].
  specialize (Ha X e s). destruct (answer e s) as [x s']. simpl in Ha. econstructor 3; eauto.
Qed.

(** A run against an outside that keeps a log is a trace. *)
Lemma run_trace (log : S → list event) {A} (p : prog A) s :
  (∀ X (e : E X) s, log (answer e s).2 = Ev e (answer e s).1 :: log s) →
  ∃ t, trace p t ∧ log (run p s).2 = rev t ++ log s.
Proof.
  intros Ha. revert s. induction p as [a|X e k IH]; intros s; simpl.
  { exists []. split; [constructor|done]. }
  specialize (Ha X e s). destruct (answer e s) as [x s'] eqn:He. simpl in Ha.
  destruct (IH x s') as (t & Ht & Hl). exists (Ev e x :: t). split; [by constructor|].
  rewrite Hl, Ha. simpl. by rewrite <-(assoc_L (++)).
Qed.

Lemma run_returns (log : S → list event) {A} (p : prog A) s :
  (∀ X (e : E X) s, log (answer e s).2 = Ev e (answer e s).1 :: log s) →
  ∃ t, returns p t (run p s).1 ∧ log (run p s).2 = rev t ++ log s.
Proof.
  intros Ha. revert s. induction p as [a|X e k IH]; intros s; simpl.
  { exists []. split; [constructor|done]. }
  specialize (Ha X e s). destruct (answer e s) as [x s'] eqn:He. simpl in Ha.
  destruct (IH x s') as (t & Ht & Hl). exists (Ev e x :: t). split; [by constructor|].
  rewrite Hl, Ha. simpl. by rewrite <-(assoc_L (++)).
Qed.

(** A program that is started and runs to its end is a history of the pool. *)
Lemma pool_run (step : ∀ X, E X → S → X → S → Prop) spawned (entry : prog unit → Prop) p ts s :
  (∀ X (e : E X) s, step X e s (answer e s).1 (answer e s).2) → entry p →
  ∃ ts', rtc (pool step spawned entry) (ts, s) (ts', (run p s).2).
Proof.
  intros Ha He.
  assert (∀ ts s, ∃ ts', rtc (pool step spawned entry) (p :: ts, s) (ts', (run p s).2)) as Hr.
  { clear He ts s. induction p as [a|X e k IH]; intros ts s; simpl; [by eexists|].
    specialize (Ha X e s). destruct (answer e s) as [x s'] eqn:Hx. simpl in Ha.
    destruct (IH x (ts ++ spawned X e) s') as [ts' Hts']. exists ts'.
    eapply rtc_l; [apply (pool_call step spawned entry [] X e k ts s x s' Ha)|]. done. }
  destruct (Hr ts s) as [ts' H]. exists ts'. eapply rtc_l; [by apply pool_start|]. done.
Qed.
End run.
End prog.

Arguments prog E A : clear implicits.
Arguments Ret {E A} a.
Arguments Vis {E A X} e k.
Arguments bind {E A B} p f : simpl never.
Arguments calls_ok {E} P G {A} p Q : simpl never.
Arguments keeps_log {E} I {A} p Q l : simpl never.
Arguments wp {E S} step rely I {A} p Q s : simpl never.
Arguments safe {E S} step pre I i {A} p Q s : simpl never.
Arguments call {E X} e : simpl never.
Arguments event E : clear implicits.
Arguments Ev {E X} e x.

Notation "'let!' x ':=' p 'in' k" := (bind p (λ x, k))
  (at level 10, x pattern, p at level 100, k at level 200) : go_scope.
Notation "'do!' p 'in' k" := (bind p (λ _, k)) (at level 10, p at level 100, k at level 200) : go_scope.
