(* ===== verification/Logs.v ===== *)
(** * Programs over a system that keeps a log

    The rules of [Effects.threads] for a system whose every call puts one entry on
    a log, newest first, so that what was once on it stays: [grows] are the facts
    about a log that more entries keep, and a program is verified against them
    without looking at what the others do. *)

From S2P Require Import Prelude Effects.

Lemma ForallTail_app {A} (P : A → list A → Prop) la lb : ForallTail P (la ++ lb) → ForallTail P lb.
Proof. induction la as [|x la IH]; simpl; [done|]. by intros [_ ?%IH]. Qed.

(** A loop of a program alone, by what holds with the rest of it still to come. *)
Lemma keeps_each {E : Type → Type} (I : list (event E) → Prop) {A} (as_ : list A) (body : A → prog E unit)
    (J : list A → list (event E) → Prop) l :
  (∀ a rest l, J (a :: rest) l → keeps_log I (body a) (λ _, J rest) l) → J as_ l →
  keeps_log I (for_each as_ body) (λ _, J []) l.
Proof.
  intros Hb. revert l. induction as_ as [|a as_ IH]; intros l Hl; simpl; [by apply keeps_ret|].
  apply keeps_bind. eapply keeps_mono; [|by apply Hb]. intros [] l' Hl'. by apply IH.
Qed.

Section logs.
Context {E : Type → Type} {S L : Type}.
Variable step : nat → ∀ X, E X → S → X → S → Prop.
Variable pre : nat → ∀ X, E X → S → Prop.
Variable I : S → Prop.
Variable log : S → list L.
Variable entry : nat → ∀ X, E X → X → S → L.
Hypothesis step_log : ∀ i X (e : E X) s x s', step i X e s x s' → log s' = entry i X e x s' :: log s.

Definition grows (P : list L → Prop) : Prop := ∀ e l, P l → P (e :: l).

Lemma grows_elem (P : L → Prop) : grows (λ l, ∃ e, e ∈ l ∧ P e).
Proof. intros e l (e0 & He & HP). exists e0. split; [by right|done]. Qed.

Lemma grows_and P Q : grows P → grows Q → grows (λ l, P l ∧ Q l).
Proof. intros HP HQ e l [? ?]. split; auto. Qed.

Lemma grows_const (P : Prop) : grows (λ _, P).
Proof. by intros e l. Qed.

Lemma grows_impl (P : Prop) Q : grows Q → grows (λ l, P → Q l).
Proof. intros HQ e l Hl Hp. by apply HQ, Hl. Qed.

Lemma grows_forall {A} (P : A → list L → Prop) : (∀ a, grows (P a)) → grows (λ l, ∀ a, P a l).
Proof. intros HP e l Hl a. apply HP, Hl. Qed.

Lemma grows_exists {A} (P : A → list L → Prop) : (∀ a, grows (P a)) → grows (λ l, ∃ a, P a l).
Proof. intros HP e l [a Hl]. exists a. by apply HP. Qed.

Lemma grows_Forall {A} (P : A → list L → Prop) (as_ : list A) : (∀ a, grows (P a)) → grows (λ l, Forall (λ a, P a l) as_).
Proof. intros HP e l Hl. eapply Forall_impl; [exact Hl|]. intros a. apply HP. Qed.

Lemma grows_app P l l' : grows P → P l → P (l' ++ l).
Proof. intros HP Hl. induction l' as [|e l' IH]; [done|]. by apply HP. Qed.

Lemma grows_stable i P : grows P → stable step pre I i (λ s, P (log s)).
Proof.
  intros HP s s' (_ & _ & j & X & e & x & _ & _ & Hs) Hl. rewrite (step_log _ _ _ _ _ _ Hs). by apply HP.
Qed.

Abbreviation lsafe := (safe step pre I).

Lemma lsafe_next i {A B} (p : prog E A) (f : A → prog E B) R Q s :
  lsafe i p R s → (∀ a s', R a s' → lsafe i (f a) Q s') → lsafe i (bind p f) Q s.
Proof. intros Hp Hf. apply safe_bind. by eapply safe_mono. Qed.

Lemma lsafe_ret i {A} (a : A) (Q : A → list L → Prop) s :
  grows (Q a) → Q a (log s) → lsafe i (Ret a) (λ a s, Q a (log s)) s.
Proof. intros HQ Hs. apply safe_ret; [by apply (grows_stable i (Q a))|done]. Qed.

(** A call made where [P] holds, and what its answer adds to the log. *)
Lemma lsafe_ask i {X} (e : E X) (P : list L → Prop) (Q : X → list L → Prop) s :
  grows P → P (log s) → (∀ x, grows (Q x)) →
  (∀ s, I s → P (log s) → pre i X e s) →
  (∀ s x s', I s → P (log s) → step i X e s x s' → I s' → Q x (log s')) →
  lsafe i (call e) (λ x s, Q x (log s)) s.
Proof.
  intros HP Hs HQ Hpre Hpost. apply (safe_call _ _ _ _ _ (λ s, P (log s))); [by apply grows_stable|done| |done|done].
  intros x. by apply (grows_stable i (Q x)).
Qed.

(** A part of a program that owes nothing and whose answers do not matter. *)
Lemma lsafe_under i {A} (p : prog E A) (P : list L → Prop) (Q : A → Prop) s :
  grows P → calls_ok (λ X e, ∀ s, P (log s) → pre i X e s) (λ _ _ _, True) p Q → P (log s) →
  lsafe i p (λ a s, Q a ∧ P (log s)) s.
Proof.
  intros HP. revert s. induction p as [a|X e k IH]; simpl; intros s Hp Hs.
  - apply (lsafe_ret i a (λ a l, Q a ∧ P l)); [|done]. by apply grows_and; [apply grows_const|].
  - destruct Hp as [He Hk]. intros s1 Hr _.
    assert (P (log s1)) by by eapply (stable_rtc _ _ _ i (λ s, P (log s))); [apply grows_stable| |].
    split; [by apply He|]. intros x s2 Hst _. apply IH; [by apply Hk|].
    rewrite (step_log _ _ _ _ _ _ Hst). by apply HP.
Qed.

(** A program that owes nothing, whatever it is answered. *)
Definition free {A} (p : prog E A) : Prop := calls_ok (λ X e, ∀ i s, pre i X e s) (λ _ _ _, True) p (λ _, True).

Lemma free_ret {A} (a : A) : free (Ret a).
Proof. done. Qed.

Lemma free_bind {A B} (p : prog E A) (f : A → prog E B) : free p → (∀ a, free (f a)) → free (bind p f).
Proof. intros Hp Hf. apply calls_bind. eapply calls_mono; [|exact Hp]. intros a _. apply Hf. Qed.

Lemma free_call {X} (e : E X) : (∀ i s, pre i X e s) → free (call e).
Proof. intros He. by apply calls_call. Qed.

Lemma free_each {A} (l : list A) (body : A → prog E unit) : (∀ a, free (body a)) → free (for_each l body).
Proof. intros Hb. apply calls_for_each; [done|]. intros a _. apply Hb. Qed.

Lemma lsafe_free i {A} (p : prog E A) (P : list L → Prop) s :
  grows P → free p → P (log s) → lsafe i p (λ _ s, P (log s)) s.
Proof.
  intros HP Hp Hs. eapply safe_mono; [|apply (lsafe_under i p P (λ _, True)); [done| |done]].
  - by intros a s' [_ ?].
  - unfold free in Hp. clear -Hp. induction p as [a|X e k IH]; [done|]. destruct Hp as [He Hk]. split; [by intros|].
    intros x Hx. apply IH, Hk, Hx.
Qed.

(** A loop, each turn of which is safe where [P] holds and leaves it. *)
Lemma lsafe_each i {A} (l : list A) (body : A → prog E unit) (P : list L → Prop) s :
  grows P → (∀ a s, a ∈ l → P (log s) → lsafe i (body a) (λ _ _, True) s) → P (log s) →
  lsafe i (for_each l body) (λ _ s, P (log s)) s.
Proof.
  intros HP. revert s. induction l as [|a l IH]; intros s Hb Hs; simpl.
  { by apply (lsafe_ret i tt (λ _, P)). }
  assert (persistent step pre I (λ s, P (log s))) as Hper.
  { intros j X e s1 x s2 _ _ Hst Hl. rewrite (step_log _ _ _ _ _ _ Hst). by apply HP. }
  eapply lsafe_next; [apply (safe_frame _ _ _ i _ (λ _ _, True) _ _ Hper Hs)|]; [apply Hb; [left|done]|].
  intros [] s1 [_ Hs1]. apply IH; [|done]. intros. apply Hb; [by right|done].
Qed.
End logs.

(** * Playing histories

    A history of [Effects.threads] by evaluation: threads are started and make their
    calls in a given order, against an outside that answers each call in one way,
    which [O] chooses turn by turn. *)

Section play.
Context {E : Type → Type} {S O : Type}.
Variable step : nat → ∀ X, E X → S → X → S → Prop.
Variable idle : nat → S → Prop.
Variable entry : prog E unit → Prop.
Variable answer : O → nat → ∀ X, E X → S → option (X * S).
Variable idleb : nat → S → bool.
Hypothesis answer_step : ∀ o i X (e : E X) s x s', answer o i X e s = Some (x, s') → step i X e s x s'.
Hypothesis idleb_idle : ∀ i s, idleb i s = true → idle i s.

(** [Start i p]: a thread [i] begins. [Calls i n o]: it makes [n] calls, or all it
    has left if there are fewer. [Stop i]: it is cut off. *)
Inductive turn := Start (i : nat) (p : prog E unit) | Calls (i n : nat) (o : O) | Stop (i : nat).

Fixpoint make_calls {A} (i n : nat) (o : O) (p : prog E A) (s : S) : option (prog E A * S) :=
  match n, p with
  | Datatypes.S n, Vis e k => '(x, s) ← answer o i _ e s; make_calls i n o (k x) s
  | _, _ => Some (p, s)
  end.

Fixpoint take_turns (turns : list turn) (ts : list (nat * prog E unit)) (s : S) : option S :=
  match turns with
  | [] => Some s
  | Start i p :: turns =>
      if decide (i ∈ ts.*1) then None else if idleb i s then take_turns turns ((i, p) :: ts) s else None
  | Calls i n o :: turns =>
      '(j, (_, p)) ← list_find (λ x, x.1 = i) ts;
      '(p, s) ← make_calls i n o p s;
      take_turns turns (<[j := (i, p)]> ts) s
  | Stop i :: turns =>
      '(j, _) ← list_find (λ x, x.1 = i) ts;
      take_turns turns (delete j ts) s
  end.

Definition turn_ok (t : turn) : Prop := match t with Start _ p => entry p | _ => True end.

Abbreviation in_threads := (rtc (threads step idle entry)).

Lemma make_calls_threads i n o p s p' s' before after :
  make_calls i n o p s = Some (p', s') → in_threads (before ++ (i, p) :: after, s) (before ++ (i, p') :: after, s').
Proof.
  revert p s. induction n as [|n IH]; intros [a|X e k] s; simpl; try (by intros [= <- <-]).
  destruct (answer o i X e s) as [[x s1]|] eqn:Ha; [simpl|done]. intros Hc.
  eapply rtc_l; [|by apply IH]. apply (thread_call _ _ _ before i X e k after). by eapply answer_step.
Qed.

Lemma take_turns_threads turns ts s s' :
  Forall turn_ok turns → take_turns turns ts s = Some s' → ∃ ts', in_threads (ts, s) (ts', s').
Proof.
  intros Ht. revert ts s. induction Ht as [|[i p|i n o|i] turns Hp _ IH]; intros ts s; simpl.
  - intros [= <-]. by exists ts.
  - case_decide as Hts; [done|]. destruct (idleb i s) eqn:Hi; [|done]. intros Hpl.
    destruct (IH _ _ Hpl) as [ts' Hr]. exists ts'. eapply rtc_l; [|exact Hr]. apply thread_start; auto.
  - rewrite bind_Some. intros ([j [j' p]] & Hf & Hpl). apply list_find_Some in Hf as (Hj & Heq & _).
    simpl in Heq. subst j'. apply bind_Some in Hpl as ([p1 s1] & Hc & Hpl).
    destruct (IH _ _ Hpl) as [ts' Hr]. exists ts'. etransitivity; [|exact Hr].
    rewrite <-(take_drop_middle _ _ _ Hj) at 1. rewrite insert_take_drop by by eapply lookup_lt_Some.
    by eapply make_calls_threads.
  - rewrite bind_Some. intros ([j [j' p]] & Hf & Hpl). apply list_find_Some in Hf as (Hj & _ & _).
    destruct (IH _ _ Hpl) as [ts' Hr]. exists ts'. eapply rtc_l; [|exact Hr].
    rewrite <-(take_drop_middle _ _ _ Hj) at 1. rewrite delete_take_drop. apply thread_stop.
Qed.

(** The calls of one thread are a trace of its program. *)
Lemma make_calls_trace {L} (log : S → list L) (ev : L → event E) {A} i n o (p p' : prog E A) s s' :
  (∀ i X (e : E X) s x s', step i X e s x s' → ∃ en, log s' = en :: log s ∧ ev en = Ev e x) →
  make_calls i n o p s = Some (p', s') →
  ∃ t l, trace p t ∧ log s' = l ++ log s ∧ ev <$> l = rev t ∧ ∀ a, p' = Ret a → returns p t a.
Proof.
  intros Hlog. revert p s. induction n as [|n IH]; intros [a|X e k] s; simpl;
    try (intros [= <- <-]; exists [], []; split_and!; [constructor|done|done|]; by intros ? [= <-]; constructor).
  destruct (answer o i X e s) as [[x s1]|] eqn:Ha; [simpl|done]. intros Hc.
  destruct (IH _ _ Hc) as (t & l & Ht & Hl & Hev & Hret).
  destruct (Hlog i X e s x s1) as (en & Hen & Hee); [by eapply answer_step|].
  exists (Ev e x :: t), (l ++ [en]). split_and!; [by constructor| | |].
  - by rewrite Hl, Hen, <-(assoc_L (++)).
  - by rewrite fmap_app, Hev, fmap_cons, Hee.
  - intros a Ha'. constructor. by apply Hret.
Qed.
End play.

Arguments turn E O : clear implicits.
Arguments Start {E O} i p.
Arguments Calls {E O} i n o.
Arguments Stop {E O} i.
Arguments turn_ok {E O} entry t.
