(* ===== verification/GoFloat.v ===== *)
(** * Go's [float64]

    IEEE 754 binary64, through the executable specification of the Standard
    Library ([SpecFloat], 53 bits of precision, exponents below 1024, rounding
    to nearest even). It computes every operation of the source bit for bit on
    a platform that does not fuse multiply and add (amd64), and it has no
    axioms. The order of the non-NaN floats is proved a strict weak order
    through [frank], a lexicographic key. *)

From Corelib Require Export SpecFloat.
From S2P Require Import Prelude.

Local Open Scope Z_scope.

Definition float64 := spec_float.

Definition fadd : float64 → float64 → float64 := SFadd 53 1024.
Definition fsub : float64 → float64 → float64 := SFsub 53 1024.
Definition fmul : float64 → float64 → float64 := SFmul 53 1024.
Definition fdiv : float64 → float64 → float64 := SFdiv 53 1024.
Definition fsqrt : float64 → float64 := SFsqrt 53 1024.

(** The conversion [float64(i)] of an integer, rounding to nearest even. *)
Definition f_of_Z (z : Z) : float64 := binary_normalize 53 1024 z 0 false.

Definition f0 : float64 := S754_zero false.
Definition f1 : float64 := f_of_Z 1.
Definition f100 : float64 := f_of_Z 100.

(** A decimal literal [n / 10^d], correctly rounded: the quotient of two
    integers that are exact as floats. *)
Definition f_lit (n d : Z) : float64 := fdiv (f_of_Z n) (f_of_Z (10 ^ d)).

Definition flt (x y : float64) : bool := SFltb x y.
Definition fle (x y : float64) : bool := SFleb x y.
Definition fgt (x y : float64) : bool := SFltb y x.
Definition fge (x y : float64) : bool := SFleb y x.
Definition feq (x y : float64) : bool := SFeqb x y.
Definition fne (x y : float64) : bool := negb (SFeqb x y).

Definition IsNaN (x : float64) : bool :=
  match x with S754_nan => true | _ => false end.
Definition IsInf (x : float64) : bool :=
  match x with S754_infinity _ => true | _ => false end.

#[export] Instance float64_eq_dec : EqDecision float64.
Proof. unfold float64. solve_decision. Defined.

(** The truncating conversion [int64(f)]; amd64's answer for NaN and for a
    value out of range is the smallest integer. *)
Definition int64_of_f (x : float64) : Z :=
  match x with
  | S754_zero _ => 0
  | S754_finite s m e =>
      let a := if 0 <=? e then Z.pos m * 2 ^ e else Z.pos m `div` 2 ^ (- e) in
      let v := if s then - a else a in
      if (minInt64 <=? v) && (v <=? maxInt64) then v else minInt64
  | _ => minInt64
  end.

(** [math.Max] *)
Definition fmax (x y : float64) : float64 :=
  match x, y with
  | S754_infinity false, _ | _, S754_infinity false => S754_infinity false
  | S754_nan, _ | _, S754_nan => S754_nan
  | S754_zero sx, S754_zero sy => S754_zero (sx && sy)
  | _, _ => if fgt x y then x else y
  end.

(** [time.Duration.Seconds]: whole seconds plus the nanoseconds left over. *)
Definition seconds (d : Z) : float64 :=
  fadd (f_of_Z (Z.quot d (10 ^ 9))) (fdiv (f_of_Z (Z.rem d (10 ^ 9))) (f_of_Z (10 ^ 9))).

(** ** The order *)

Definition frank (x : float64) : Z * Z * Z :=
  match x with
  | S754_infinity true => (-2, 0, 0)
  | S754_finite true m e => (-1, - e, - Z.pos m)
  | S754_zero _ | S754_nan => (0, 0, 0)
  | S754_finite false m e => (1, e, Z.pos m)
  | S754_infinity false => (2, 0, 0)
  end.

Definition lex_lt (a b : Z * Z * Z) : Prop :=
  a.1.1 < b.1.1 ∨ a.1.1 = b.1.1 ∧ (a.1.2 < b.1.2 ∨ a.1.2 = b.1.2 ∧ a.2 < b.2).

Lemma SFcompare_rank x y :
  IsNaN x = false → IsNaN y = false →
  match SFcompare x y with
  | Some Lt => lex_lt (frank x) (frank y)
  | Some Eq => frank x = frank y
  | Some Gt => lex_lt (frank y) (frank x)
  | None => False
  end.
Proof.
  unfold lex_lt. intros Hx Hy.
  destruct x as [[]|[]| |[] mx ex], y as [[]|[]| |[] my ey]; simpl in *; try done; try lia;
    destruct (Z.compare_spec ex ey); subst; simpl; try lia;
    change (Pos.compare_cont Eq mx my) with (Pos.compare mx my);
    destruct (Pos.compare_spec mx my); subst; simpl; try lia; done.
Qed.

Lemma flt_rank x y : IsNaN x = false → IsNaN y = false →
  flt x y = true ↔ lex_lt (frank x) (frank y).
Proof.
  intros Hx Hy. unfold flt, SFltb.
  pose proof (SFcompare_rank x y Hx Hy) as H. unfold lex_lt in *.
  destruct (SFcompare x y) as [[]|]; [rewrite H| | |done]; split; try done; try lia.
Qed.

Lemma fle_rank x y : IsNaN x = false → IsNaN y = false →
  fle x y = true ↔ ¬ lex_lt (frank y) (frank x).
Proof.
  intros Hx Hy. unfold fle, SFleb.
  pose proof (SFcompare_rank x y Hx Hy) as H. unfold lex_lt in *.
  destruct (SFcompare x y) as [[]|]; [rewrite H| | |done]; split; try done; try lia.
Qed.

Lemma flt_nan x y : flt x y = true → IsNaN x = false ∧ IsNaN y = false.
Proof. unfold flt, SFltb. destruct x, y; simpl; try done. Qed.

Lemma fle_nan x y : fle x y = true → IsNaN x = false ∧ IsNaN y = false.
Proof. unfold fle, SFleb. destruct x, y; simpl; try done. Qed.

Lemma flt_irrefl x : flt x x = false.
Proof.
  destruct (flt x x) eqn:E; [|done]. destruct (flt_nan _ _ E) as [Hn _].
  apply flt_rank in E; [|done..]. unfold lex_lt in E. lia.
Qed.

Lemma flt_trans x y z : flt x y = true → flt y z = true → flt x z = true.
Proof.
  intros H1 H2. destruct (flt_nan _ _ H1), (flt_nan _ _ H2).
  apply flt_rank in H1, H2; [|done..]. apply flt_rank; [done..|].
  unfold lex_lt in *. lia.
Qed.

Lemma flt_false_trans x y z :
  IsNaN x = false → IsNaN y = false → IsNaN z = false →
  flt x y = false → flt y z = false → flt x z = false.
Proof.
  intros Hx Hy Hz H1%not_true_iff_false H2%not_true_iff_false.
  apply not_true_iff_false. rewrite flt_rank in H1, H2 |- * by done.
  unfold lex_lt in *. lia.
Qed.

Lemma fle_trans x y z : fle x y = true → fle y z = true → fle x z = true.
Proof.
  intros H1 H2. destruct (fle_nan _ _ H1), (fle_nan _ _ H2).
  apply fle_rank in H1, H2; [|done..]. apply fle_rank; [done..|].
  unfold lex_lt in *. lia.
Qed.

Lemma fle_lt_trans x y z : fle x y = true → flt y z = true → flt x z = true.
Proof.
  intros H1 H2. destruct (fle_nan _ _ H1), (flt_nan _ _ H2).
  apply fle_rank in H1; [|done..]. apply flt_rank in H2; [|done..].
  apply flt_rank; [done..|]. unfold lex_lt in *. lia.
Qed.

Lemma flt_le x y : flt x y = true → fle x y = true.
Proof.
  intros H. destruct (flt_nan _ _ H). apply flt_rank in H; [|done..].
  apply fle_rank; [done..|]. unfold lex_lt in *. lia.
Qed.

Lemma flt_false_le x y : IsNaN x = false → IsNaN y = false →
  flt x y = false → fle y x = true.
Proof.
  intros Hx Hy H. apply fle_rank; [done..|]. rewrite <-flt_rank by done. by rewrite H.
Qed.

Lemma fle_refl x : IsNaN x = false → fle x x = true.
Proof. intros. apply flt_false_le; [done..|]. apply flt_irrefl. Qed.

Lemma fle_false_lt x y : IsNaN x = false → IsNaN y = false → fle x y = false ↔ flt y x = true.
Proof.
  intros Hx Hy. rewrite <-not_true_iff_false, fle_rank, flt_rank by done.
  unfold lex_lt. lia.
Qed.

(** Sorting in descending order of a key that is never a NaN. *)
Lemma fgt_strict_weak {A} (f : A → float64) (l : list A) :
  (∀ x, x ∈ l → IsNaN (f x) = false) → strict_weak (λ a b, fgt (f a) (f b)) l.
Proof.
  intros Hn. unfold fgt. split_and!.
  - intros x _. apply flt_irrefl.
  - intros x y z _ _ _ H1 H2. by eapply flt_trans.
  - intros x y z Hx Hy Hz H1 H2. eapply flt_false_trans; [..|exact H2|exact H1]; by apply Hn.
Qed.

(** ** Subtraction *)

(** Rounding a mantissa never makes a NaN. *)
Lemma shr_1_nonneg mrs : 0 ≤ shr_m mrs → 0 ≤ shr_m (shr_1 mrs).
Proof. destruct mrs as [[|[p|p|]|p] r s]; simpl; lia. Qed.

Lemma shr_nonneg mrs e n : 0 ≤ shr_m mrs → 0 ≤ shr_m (shr mrs e n).1.
Proof.
  intros Hm. destruct n as [|p|p]; simpl; [done| |done]. revert mrs Hm.
  induction p as [p IH|p IH|]; intros mrs Hm; simpl;
    auto using shr_1_nonneg.
Qed.

Lemma shr_fexp_nonneg m e l : 0 ≤ m → 0 ≤ shr_m (shr_fexp 53 1024 m e l).1.
Proof. intros Hm. apply shr_nonneg. by destruct l as [|[]]. Qed.

Lemma round_nearest_even_nonneg m l : 0 ≤ m → 0 ≤ round_nearest_even m l.
Proof. destruct l as [|[]]; simpl; [done| |lia|lia]. destruct (Z.even m); lia. Qed.

(** The sign of a float that is not a NaN. *)
Definition fsign (x : float64) : option bool :=
  match x with
  | S754_zero s | S754_infinity s | S754_finite s _ _ => Some s
  | S754_nan => None
  end.

Lemma binary_round_sign s m e : fsign (binary_round 53 1024 s m e) = Some s.
Proof.
  unfold binary_round. destruct (shl_align _ _ _) as [mz ez]. unfold binary_round_aux.
  pose proof (shr_fexp_nonneg (Z.pos mz) ez loc_Exact ltac:(lia)) as H1.
  destruct (shr_fexp 53 1024 (Z.pos mz) ez loc_Exact) as [mrs e1]. simpl in H1.
  pose proof (shr_fexp_nonneg (round_nearest_even (shr_m mrs) (loc_of_shr_record mrs)) e1 loc_Exact
    (round_nearest_even_nonneg _ _ H1)) as H2.
  destruct (shr_fexp 53 1024 (round_nearest_even _ _) e1 loc_Exact) as [mrs2 e2]. simpl in H2.
  destruct (shr_m mrs2); [done| |lia]. by destruct (e2 <=? _).
Qed.

Lemma binary_normalize_sign m e z :
  fsign (binary_normalize 53 1024 m e z) = Some (if m =? 0 then z else m <? 0).
Proof. destruct m; simpl; [done|apply binary_round_sign..]. Qed.

(** A difference of two comparable floats is a NaN only for equal infinities. *)
Lemma fsub_not_nan x y : flt y x = true → IsNaN (fsub x y) = false.
Proof.
  intros Hlt. cut (is_Some (fsign (fsub x y))); [by intros [s Hs]; destruct (fsub x y)|].
  destruct x as [[]|[]| |[] mx ex], y as [[]|[]| |[] my ey]; simpl in *; try done;
    unfold fsub, SFsub; rewrite ?binary_normalize_sign, ?binary_round_sign; by eexists.
Qed.

Lemma f_of_Z_not_nan z : IsNaN (f_of_Z z) = false.
Proof.
  pose proof (binary_normalize_sign z 0 false) as H. unfold f_of_Z.
  by destruct (binary_normalize 53 1024 z 0 false).
Qed.
