(* ===== verification/GoStrings.v ===== *)
(** * Go strings: the [strings] and [strconv] functions the source calls

    A Go string is a sequence of bytes, here a [string] of 8-bit characters.
    The separators and cut sets the source passes are ASCII, so searching for
    them is a search for a byte. [TrimSpace] and [Fields] know every code point
    [unicode.IsSpace] accepts, in its UTF-8 bytes; [ToLower] and [EqualFold]
    fold the ASCII letters only. *)

From stdpp Require Export pretty.
From S2P Require Import Prelude GoFloat.

Abbreviation bytes_of := String.list_ascii_of_string.
Abbreviation of_bytes := String.string_of_list_ascii.

Definition dquote : ascii := Ascii.ascii_of_nat 34.
Definition backslash : ascii := Ascii.ascii_of_nat 92.
Definition space : ascii := Ascii.ascii_of_nat 32.
Definition tab : ascii := Ascii.ascii_of_nat 9.
Definition newline : ascii := Ascii.ascii_of_nat 10.
Definition cr : ascii := Ascii.ascii_of_nat 13.
Definition nul : ascii := Ascii.ascii_of_nat 0.
Definition hash : ascii := Ascii.ascii_of_nat 35.
Definition equals : ascii := Ascii.ascii_of_nat 61.
Definition comma : ascii := Ascii.ascii_of_nat 44.
Definition colon : ascii := Ascii.ascii_of_nat 58.

Definition byte_val (c : ascii) : nat := Ascii.nat_of_ascii c.

Definition ascii_eqb (a b : ascii) : bool := bool_decide (a = b).

Abbreviation slen := String.length.

(** [s[:n]] and [s[n:]] within range. *)
Fixpoint stake (n : nat) (s : string) : string :=
  match n, s with
  | S n, String c s => String c (stake n s)
  | _, _ => ""
  end.

Fixpoint sdrop (n : nat) (s : string) : string :=
  match n, s with
  | 0, _ => s
  | S n, String _ s => sdrop n s
  | S _, EmptyString => ""
  end.

Fixpoint HasPrefix (s p : string) : bool :=
  match p, s with
  | EmptyString, _ => true
  | String a p, String b s => ascii_eqb a b && HasPrefix s p
  | String _ _, EmptyString => false
  end.

Definition TrimPrefix (s p : string) : string :=
  if HasPrefix s p then sdrop (slen p) s else s.

Definition CutPrefix (s p : string) : string * bool :=
  if HasPrefix s p then (sdrop (slen p) s, true) else (s, false).

(** The first index of a byte satisfying [f]. *)
Fixpoint index_func (f : ascii → bool) (s : string) : option nat :=
  match s with
  | EmptyString => None
  | String c s => if f c then Some 0 else S <$> index_func f s
  end.

Definition contains_func (f : ascii → bool) (s : string) : bool :=
  match index_func f s with Some _ => true | None => false end.

Definition ContainsAny (s : string) (set : list ascii) : bool :=
  contains_func (contains set) s.

Fixpoint Contains (s sub : string) : bool :=
  HasPrefix s sub || match s with EmptyString => false | String _ s => Contains s sub end.

Fixpoint Count (c : ascii) (s : string) : nat :=
  match s with
  | EmptyString => 0
  | String a s => (if ascii_eqb a c then 1 else 0) + Count c s
  end.

(** [strings.Cut] at a one-byte separator. *)
Definition Cut (c : ascii) (s : string) : string * string * bool :=
  match index_func (ascii_eqb c) s with
  | Some i => (stake i s, sdrop (S i) s, true)
  | None => (s, "", false)
  end.

(** [strings.Split] at a one-byte separator: never empty. *)
Fixpoint Split (c : ascii) (s : string) : list string :=
  match s with
  | EmptyString => [""]
  | String a s =>
      if ascii_eqb c a then "" :: Split c s
      else match Split c s with
           | h :: t => String a h :: t
           | [] => [String a ""]
           end
  end.

Fixpoint Join (sep : string) (l : list string) : string :=
  match l with
  | [] => ""
  | [a] => a
  | a :: l => a +:+ sep +:+ Join sep l
  end.

(** ** White space, in UTF-8 *)

Definition is_space_rune (b : list ascii) : bool :=
  match byte_val <$> b with
  | [n] => contains [9; 10; 11; 12; 13; 32] n
  | [194; m] => contains [133; 160] m
  | [225; 154; 128] => true
  | [226; 128; k] => (Nat.leb 128 k && Nat.leb k 138) || contains [168; 169; 175] k
  | [226; 129; 159] => true
  | [227; 128; 128] => true
  | _ => false
  end.

Definition space_width (l : list ascii) (view : list ascii → list ascii) : nat :=
  if is_space_rune (view (take 1 l)) then 1
  else if is_space_rune (view (take 2 l)) then 2
  else if is_space_rune (view (take 3 l)) then 3
  else 0.

Fixpoint drop_space (fuel : nat) (view : list ascii → list ascii) (l : list ascii) : list ascii :=
  match fuel with
  | 0 => l
  | S f => match space_width l view with
           | 0 => l
           | n => drop_space f view (drop n l)
           end
  end.

Definition TrimSpace (s : string) : string :=
  let l := drop_space (slen s) id (bytes_of s) in
  of_bytes (reverse (drop_space (slen s) reverse (reverse l))).

Fixpoint fields_go (fuel : nat) (l cur : list ascii) : list string :=
  let flush := match cur with [] => [] | _ => [of_bytes (reverse cur)] end in
  match fuel, l with
  | 0, _ | _, [] => flush
  | S f, c :: l' =>
      match space_width l id with
      | 0 => fields_go f l' (c :: cur)
      | n => flush ++ fields_go f (drop n l) []
      end
  end.

Definition Fields (s : string) : list string := fields_go (S (slen s)) (bytes_of s) [].

(** [strings.TrimLeft] and [strings.TrimRight] with an ASCII cut set. *)
Fixpoint TrimLeft (s : string) (set : list ascii) : string :=
  match s with
  | EmptyString => ""
  | String c s' => if contains set c then TrimLeft s' set else s
  end.

Definition srev (s : string) : string := of_bytes (reverse (bytes_of s)).

Definition TrimRight (s : string) (set : list ascii) : string :=
  srev (TrimLeft (srev s) set).

(** ** Case

    Of the ASCII letters: the words the callers compare with are ASCII. *)

Definition lower_byte (c : ascii) : ascii :=
  if Nat.leb 65 (byte_val c) && Nat.leb (byte_val c) 90
  then Ascii.ascii_of_nat (byte_val c + 32) else c.

Fixpoint ToLower (s : string) : string :=
  match s with
  | EmptyString => ""
  | String c s => String (lower_byte c) (ToLower s)
  end.

Definition upper_byte (c : ascii) : ascii :=
  if Nat.leb 97 (byte_val c) && Nat.leb (byte_val c) 122
  then Ascii.ascii_of_nat (byte_val c - 32) else c.

Fixpoint ToUpper (s : string) : string :=
  match s with
  | EmptyString => ""
  | String c s => String (upper_byte c) (ToUpper s)
  end.

Definition EqualFold (a b : string) : bool := bool_decide (ToLower a = ToLower b).

(** ** Numbers *)

(** [utf8.RuneCountInString]: a byte that does not start a well-formed rune
    counts for one. *)
Definition in_range (lo hi : nat) (b : ascii) : bool := Nat.leb lo (byte_val b) && Nat.leb (byte_val b) hi.
Definition rune_width (l : list ascii) : nat :=
  match l with
  | [] => 0
  | b0 :: rest =>
      let cont := in_range 128 191 in
      let second := if Nat.eqb (byte_val b0) 224 then in_range 160 191
                    else if Nat.eqb (byte_val b0) 237 then in_range 128 159
                    else if Nat.eqb (byte_val b0) 240 then in_range 144 191
                    else if Nat.eqb (byte_val b0) 244 then in_range 128 143 else cont in
      match rest with
      | b1 :: rest =>
          if in_range 194 223 b0 && cont b1 then 2
          else match rest with
               | b2 :: rest =>
                   if in_range 224 239 b0 && second b1 && cont b2 then 3
                   else match rest with
                        | b3 :: _ => if in_range 240 244 b0 && second b1 && cont b2 && cont b3 then 4 else 1
                        | [] => 1
                        end
               | [] => 1
               end
      | [] => 1
      end
  end.
Fixpoint rune_count (fuel : nat) (l : list ascii) : nat :=
  match fuel, l with
  | S fuel, _ :: _ => S (rune_count fuel (drop (rune_width l) l))
  | _, _ => 0
  end.
Definition RuneCountInString (s : string) : nat := rune_count (slen s) (bytes_of s).

Definition Itoa (z : Z) : string := pretty z.

Inductive NumError := ErrSyntax | ErrRange.

Definition digit (c : ascii) : option Z :=
  let n := byte_val c in
  if Nat.leb 48 n && Nat.leb n 57 then Some (Z.of_nat n - 48)%Z else None.

Fixpoint parse_uint (acc : Z) (s : string) : Z * option NumError :=
  match s with
  | EmptyString => (acc, None)
  | String c s =>
      match digit c with
      | None => (0%Z, Some ErrSyntax)
      | Some d =>
          let n := (acc * 10 + d)%Z in
          if (2 ^ 64 - 1 <? n)%Z then ((2 ^ 64 - 1)%Z, Some ErrRange) else parse_uint n s
      end
  end.

(** [strconv.Atoi]: the value and the error; out of range clamps the value. *)
Definition Atoi (s : string) : Z * option NumError :=
  let '(neg, ds) :=
    match s with
    | String c s' =>
        if ascii_eqb c "-" then (true, s')
        else if ascii_eqb c "+" then (false, s') else (false, s)
    | EmptyString => (false, s)
    end in
  if bool_decide (ds = "") then (0%Z, Some ErrSyntax)
  else match parse_uint 0 ds with
       | (_, Some ErrSyntax) => (0%Z, Some ErrSyntax)
       | (n, e) =>
           if negb neg && (2 ^ 63 <=? n)%Z then (maxInt64, Some ErrRange)
           else if neg && (2 ^ 63 <? n)%Z then (minInt64, Some ErrRange)
           else ((if neg then - n else n)%Z, e)
       end.

(** ** Lemmas *)

Lemma ascii_eqb_eq a b : ascii_eqb a b = true ↔ a = b.
Proof. apply bool_decide_eq_true. Qed.

Lemma ascii_eqb_neq a b : ascii_eqb a b = false ↔ a ≠ b.
Proof. apply bool_decide_eq_false. Qed.

Lemma ascii_eqb_refl a : ascii_eqb a a = true.
Proof. by apply ascii_eqb_eq. Qed.

Lemma app_string_cons (c : ascii) (a b : string) : String c a +:+ b = String c (a +:+ b).
Proof. done. Qed.

Lemma app_string_nil_l (b : string) : "" +:+ b = b.
Proof. done. Qed.

Lemma app_string_assoc (a b c : string) : a +:+ (b +:+ c) = (a +:+ b) +:+ c.
Proof. induction a as [|x a IH]; [done|]. rewrite !app_string_cons. simpl. by f_equal. Qed.

Lemma app_string_nil_r (a : string) : a +:+ "" = a.
Proof. induction a as [|x a IH]; [done|]. rewrite !app_string_cons. simpl. by f_equal. Qed.

Lemma slen_app (a b : string) : slen (a +:+ b) = slen a + slen b.
Proof. induction a as [|x a IH]; [done|]. rewrite !app_string_cons. simpl. by f_equal. Qed.

Lemma slen_stake n s : slen (stake n s) = n `min` slen s.
Proof. revert s. induction n as [|n IH]; intros [|c s]; simpl; try done. by rewrite IH. Qed.

Lemma stake_sdrop n s : stake n s +:+ sdrop n s = s.
Proof.
  revert s. induction n as [|n IH]; intros [|c s]; simpl; try done.
  rewrite app_string_cons. by f_equal.
Qed.

Lemma HasPrefix_app p s : HasPrefix (p +:+ s) p = true.
Proof.
  induction p as [|c p IH]; [by destruct s|].
  rewrite app_string_cons. simpl. by rewrite ascii_eqb_refl, IH.
Qed.

Lemma HasPrefix_spec s p : HasPrefix s p = true ↔ ∃ t, s = p +:+ t.
Proof.
  split; [|intros [t ->]; apply HasPrefix_app].
  revert s. induction p as [|a p IH]; intros [|b s]; simpl; try done; try (eexists; done).
  intros [->%ascii_eqb_eq [t ->]%IH]%andb_true_iff. by exists t.
Qed.

Lemma contains_func_existsb f s : contains_func f s = existsb f (bytes_of s).
Proof.
  unfold contains_func. induction s as [|a s IH]; simpl; [done|].
  destruct (f a); [done|]. simpl. rewrite <-IH. by destruct (index_func f s).
Qed.

Lemma contains_func_spec f s :
  contains_func f s = true ↔ ∃ c, c ∈ bytes_of s ∧ f c = true.
Proof. rewrite contains_func_existsb. apply existsb_elem_of. Qed.

Lemma contains_func_false f s :
  contains_func f s = false ↔ ∀ c, c ∈ bytes_of s → f c = false.
Proof. rewrite contains_func_existsb. apply existsb_false. Qed.

Lemma bytes_of_app (a b : string) : bytes_of (a +:+ b) = bytes_of a ++ bytes_of b.
Proof. induction a as [|c a IH]; [done|]. rewrite app_string_cons. simpl. by f_equal. Qed.

Lemma length_bytes_of (s : string) : length (bytes_of s) = slen s.
Proof. induction s; simpl; congruence. Qed.

#[export] Hint Rewrite app_string_nil_r slen_app slen_stake bytes_of_app : nexara.

(** ** Trimming twice, splitting what was joined *)

Lemma is_space_rune_nil : is_space_rune [] = false.
Proof. done. Qed.

Lemma space_width_bound l view : view [] = [] → space_width l view ≤ length l ∨ space_width l view = 0.
Proof.
  intros Hv. unfold space_width.
  destruct l as [|a [|b [|c l]]]; simpl; rewrite ?Hv, ?is_space_rune_nil; go_cases; simpl; lia.
Qed.

Lemma drop_space_done fuel view l :
  view [] = [] → length l ≤ fuel → space_width (drop_space fuel view l) view = 0.
Proof.
  intros Hv. revert l. induction fuel as [|fuel IH]; intros l Hl; simpl.
  { destruct l; [|simpl in Hl; lia]. unfold space_width. simpl. by rewrite Hv. }
  destruct (space_width l view) as [|n] eqn:Hw; [done|]. apply IH.
  rewrite length_drop. lia.
Qed.

Lemma drop_space_stop fuel view l : space_width l view = 0 → drop_space fuel view l = l.
Proof. intros Hw. destruct fuel; simpl; [done|]. by rewrite Hw. Qed.

Lemma drop_space_suffix fuel view l : ∃ k, drop_space fuel view l = drop k l.
Proof.
  revert l. induction fuel as [|fuel IH]; intros l; simpl; [by exists 0|].
  destruct (space_width l view) as [|n]; [by exists 0|].
  destruct (IH (drop (S n) l)) as [k ->]. exists (S n + k). by rewrite drop_drop.
Qed.

(** A prefix of bytes that do not start with white space does not either. *)
Lemma space_width_take k l view :
  view [] = [] → space_width l view = 0 → space_width (take k l) view = 0.
Proof.
  intros Hv. unfold space_width. rewrite !take_take.
  destruct k as [|[|[|k]]]; simpl; rewrite ?take_0, ?Hv, ?is_space_rune_nil; go_cases; congruence.
Qed.

Lemma bytes_of_bytes (l : list ascii) : bytes_of (of_bytes l) = l.
Proof. apply String.list_ascii_of_string_of_list_ascii. Qed.

Lemma of_bytes_of (s : string) : of_bytes (bytes_of s) = s.
Proof. apply String.string_of_list_ascii_of_string. Qed.

Lemma TrimSpace_idem s : TrimSpace (TrimSpace s) = TrimSpace s.
Proof.
  unfold TrimSpace at 1. set (t := TrimSpace s).
  assert (space_width (bytes_of t) id = 0 ∧ space_width (reverse (bytes_of t)) reverse = 0) as [Hl Hr].
  { subst t. unfold TrimSpace. rewrite bytes_of_bytes, reverse_involutive.
    set (l := drop_space (slen s) id (bytes_of s)).
    assert (length l ≤ slen s) as Hlen.
    { unfold l. destruct (drop_space_suffix (slen s) id (bytes_of s)) as [k ->].
      rewrite length_drop, length_bytes_of. lia. }
    split; [|apply drop_space_done; [done|by rewrite length_reverse]].
    destruct (drop_space_suffix (slen s) reverse (reverse l)) as [k ->].
    rewrite drop_reverse, reverse_involutive. apply space_width_take; [done|].
    apply drop_space_done; [done|]. by rewrite length_bytes_of. }
  rewrite (drop_space_stop _ id) by done. rewrite (drop_space_stop _ reverse) by done.
  by rewrite reverse_involutive, of_bytes_of.
Qed.

Lemma elem_of_drop_sub {A} (x : A) n l : x ∈ drop n l → x ∈ l.
Proof. intros Hx. rewrite <-(take_drop n l). apply elem_of_app. by right. Qed.

Lemma elem_of_TrimSpace c s : c ∈ bytes_of (TrimSpace s) → c ∈ bytes_of s.
Proof.
  unfold TrimSpace. rewrite bytes_of_bytes, elem_of_reverse.
  destruct (drop_space_suffix (slen s) reverse (reverse (drop_space (slen s) id (bytes_of s))))
    as [k ->].
  destruct (drop_space_suffix (slen s) id (bytes_of s)) as [m ->].
  intros Hc%elem_of_drop_sub. rewrite elem_of_reverse in Hc. by eapply elem_of_drop_sub.
Qed.

Lemma Split_not_nil c s : Split c s ≠ [].
Proof. destruct s as [|a s]; simpl; [done|]. destruct (ascii_eqb c a); [done|]. by destruct (Split c s). Qed.

Lemma Split_parts c s p : p ∈ Split c s → c ∉ bytes_of p.
Proof.
  revert p. induction s as [|a s IH]; intros p; simpl.
  { by intros ->%list_elem_of_singleton ?%not_elem_of_nil. }
  destruct (ascii_eqb c a) eqn:Ha.
  - intros [->|Hp]%elem_of_cons; [by intros ?%not_elem_of_nil|by apply IH].
  - apply ascii_eqb_neq in Ha. destruct (Split c s) as [|h t] eqn:Hs; [by destruct (Split_not_nil c s)|].
    intros [->|Hp]%elem_of_cons; [|by apply IH, list_elem_of_further]. simpl.
    intros [->|Hc]%elem_of_cons; [done|]. by eapply (IH h); [apply list_elem_of_here|].
Qed.

Lemma Split_free c s : c ∉ bytes_of s → Split c s = [s].
Proof.
  induction s as [|a s IH]; simpl; [done|]. intros [Ha Hs]%not_elem_of_cons.
  rewrite (proj2 (ascii_eqb_neq c a)) by done. by rewrite IH.
Qed.

Lemma Split_app c a s : c ∉ bytes_of a → Split c (a +:+ String c s) = a :: Split c s.
Proof.
  induction a as [|x a IH]; [intros _; rewrite app_string_nil_l; simpl; by rewrite ascii_eqb_refl|].
  intros [Hx Ha]%not_elem_of_cons. rewrite app_string_cons. simpl.
  rewrite (proj2 (ascii_eqb_neq c x)) by done. by rewrite IH.
Qed.

Lemma Split_Join c l :
  l ≠ [] → (∀ p, p ∈ l → c ∉ bytes_of p) → Split c (Join (String c "") l) = l.
Proof.
  induction l as [|a [|b l] IH]; intros Hl Hc; [done| |].
  - apply Split_free, Hc, list_elem_of_here.
  - change (Join (String c "") (a :: b :: l)) with (a +:+ String c "" +:+ Join (String c "") (b :: l)).
    rewrite (app_string_cons c), app_string_nil_l, Split_app by (apply Hc, list_elem_of_here).
    rewrite IH; [done|done|]. intros p Hp. by apply Hc, list_elem_of_further.
Qed.

Lemma Join_Split c s : Join (String c "") (Split c s) = s.
Proof.
  induction s as [|a s IH]; [done|]. simpl. destruct (ascii_eqb c a) eqn:Ha.
  - apply ascii_eqb_eq in Ha as <-. destruct (Split c s) as [|h t] eqn:Hs; [by destruct (Split_not_nil c s)|].
    change (Join (String c "") ("" :: h :: t)) with (String c (Join (String c "") (h :: t))). by rewrite IH.
  - destruct (Split c s) as [|h [|h' t]] eqn:Hs; [by destruct (Split_not_nil c s)| |].
    + by rewrite <-IH.
    + change (Join (String c "") (String a h :: h' :: t)) with (String a (Join (String c "") (h :: h' :: t))).
      by rewrite IH.
Qed.

Lemma Cut_at c (a b : string) : c ∉ bytes_of a → Cut c (a +:+ String c b) = (a, b, true).
Proof.
  intros Ha. unfold Cut.
  assert (index_func (ascii_eqb c) (a +:+ String c b) = Some (slen a)) as ->.
  { induction a as [|x a IH]; simpl.
    - by rewrite ascii_eqb_refl.
    - apply not_elem_of_cons in Ha as [Hx Ha]. rewrite (proj2 (ascii_eqb_neq c x)) by done. by rewrite IH. }
  assert (stake (slen a) (a +:+ String c b) = a) as ->.
  { clear Ha. induction a as [|x a IH]; [done|]. simpl. by f_equal. }
  assert (sdrop (S (slen a)) (a +:+ String c b) = b) as ->; [|done].
  clear Ha. induction a as [|x a IH]; [by destruct b|]. exact IH.
Qed.

Lemma Cut_found c s a b : Cut c s = (a, b, true) → s = a +:+ String c b ∧ c ∉ bytes_of a.
Proof.
  unfold Cut. destruct (index_func (ascii_eqb c) s) as [i|] eqn:Hi; [|done]. intros [= <- <-].
  revert i Hi. induction s as [|x s IH]; intros i; simpl; [done|]. destruct (ascii_eqb c x) eqn:Hx.
  - apply ascii_eqb_eq in Hx as <-. intros [= <-]. simpl. split; [by destruct s|by apply not_elem_of_nil].
  - destruct (index_func _ s) as [j|] eqn:Hj; [|done]. simpl. intros [= <-].
    destruct (IH j eq_refl) as [Hs Hn]. split; [cbn; by rewrite Hs at 1|].
    simpl. apply not_elem_of_cons. split; [|done]. by apply ascii_eqb_neq.
Qed.

(** * The verbs of [fmt] the messages use

    [%d] and [%s] are [Itoa] and the string itself; [%v] of a slice is its
    elements in brackets; [%.Nf] is the exact decimal expansion of the float
    rounded to [N] places, ties to even. *)

(** [%v] of a slice of printed elements. *)
Definition Sprint_list (l : list string) : string := "[" +:+ Join " " l +:+ "]".
Definition Sprint_ints (l : list Z) : string := Sprint_list (Itoa <$> l).

(** The integer nearest to [n / d], ties to even. *)
Definition round_div (n d : Z) : Z :=
  let q := (n `div` d)%Z in
  let r := (n `mod` d)%Z in
  if (2 * r <? d)%Z then q
  else if (2 * r =? d)%Z then (if Z.even q then q else q + 1)%Z
  else (q + 1)%Z.

(** A magnitude [n], in units of [10^-prec]. *)
Definition fixed_digits (prec : nat) (n : Z) : string :=
  let s := Itoa n in
  let s := of_bytes (replicate (S prec - slen s) "0"%char) +:+ s in
  let k := slen s - prec in
  match prec with
  | O => s
  | _ => stake k s +:+ "." +:+ sdrop k s
  end.

Definition fmt_f (prec : nat) (x : float64) : string :=
  let sign (s : bool) := if s then "-" else "" in
  match x with
  | S754_nan => "NaN"
  | S754_infinity s => (if s then "-" else "+") +:+ "Inf"
  | S754_zero s => sign s +:+ fixed_digits prec 0
  | S754_finite s m e =>
      let scaled := (Z.pos m * 10 ^ Z.of_nat prec)%Z in
      sign s +:+ fixed_digits prec
        (if (0 <=? e)%Z then scaled * 2 ^ e else round_div scaled (2 ^ (- e)))%Z
  end.

Example fmt_f_half : fmt_f 2 (fdiv (f_of_Z 1) (f_of_Z 8)) = "0.12".
Proof. by vm_compute. Qed.
Example fmt_f_big : fmt_f 3 (f_of_Z (-1234)) = "-1234.000".
Proof. by vm_compute. Qed.
Example fmt_f_lit : fmt_f 4 (f_lit 7071 4) = "0.7071".
Proof. by vm_compute. Qed.

(** [%q]: quotes and backslashes escaped, control bytes in their escapes; the
    bytes of UTF-8 text stand for themselves. *)
Definition hex_digit (n : nat) : ascii :=
  Ascii.ascii_of_nat (if Nat.ltb n 10 then 48 + n else 87 + n).

Definition quote_byte (c : ascii) : string :=
  let n := byte_val c in
  let esc (s : string) := String backslash s in
  if ascii_eqb c dquote || ascii_eqb c backslash then esc (String c "")
  else match n with
       | 7 => esc "a" | 8 => esc "b" | 9 => esc "t" | 10 => esc "n" | 11 => esc "v"
       | 12 => esc "f" | 13 => esc "r"
       | _ => if Nat.ltb n 32 || Nat.eqb n 127
              then esc (String "x" (String (hex_digit (n / 16)) (String (hex_digit (n mod 16)) "")))
              else String c ""
       end.

Definition Quote (s : string) : string :=
  String dquote "" +:+ Join "" (quote_byte <$> bytes_of s) +:+ String dquote "".
