(* ===== verification/NutProtocol.v ===== *)
(** * The NUT wire format: words, quoting, errors and [ups.status]

    Models [internal/nut/parse.go] and [internal/nut/status.go] with the [clip]
    of [client.go]: how a reply of upsd is split into words, how an argument is
    quoted, what an [ERR] line means, and how a UPS's status flags become its
    power state. *)

From S2P Require Import Prelude GoStrings.

(** [client.go]: at most [n] bytes. *)
Definition clip (s : string) (n : nat) : string :=
  if Nat.leb (slen s) n then s else stake n s.

Lemma slen_clip s n : slen (clip s n) ≤ n.
Proof.
  unfold clip. destruct (Nat.leb_spec (slen s) n); [done|]. rewrite slen_stake. lia.
Qed.

Lemma clip_short s n : slen s ≤ n → clip s n = s.
Proof. unfold clip. intros H. by rewrite (proj2 (Nat.leb_le _ _) H). Qed.

(** ** splitLine *)

Record split_state := {
  st_toks : list string;
  st_cur : string;
  st_inWord : bool;
  st_quoted : bool;
  st_escaped : bool;
}.

Definition split_init : split_state :=
  {| st_toks := []; st_cur := ""; st_inWord := false; st_quoted := false; st_escaped := false |}.

(** One turn of the byte loop: the [switch] of the source, case by case. *)
Definition split_step (st : split_state) (ch : ascii) : split_state :=
  let push := st_cur st +:+ String ch "" in
  if st_escaped st then
    {| st_toks := st_toks st; st_cur := push; st_inWord := st_inWord st;
       st_quoted := st_quoted st; st_escaped := false |}
  else if st_quoted st && ascii_eqb ch backslash then
    {| st_toks := st_toks st; st_cur := st_cur st; st_inWord := st_inWord st;
       st_quoted := st_quoted st; st_escaped := true |}
  else if ascii_eqb ch dquote then
    {| st_toks := st_toks st; st_cur := st_cur st; st_inWord := true;
       st_quoted := negb (st_quoted st); st_escaped := false |}
  else if negb (st_quoted st) && (ascii_eqb ch space || ascii_eqb ch tab) then
    if st_inWord st then
      {| st_toks := st_toks st ++ [st_cur st]; st_cur := ""; st_inWord := false;
         st_quoted := st_quoted st; st_escaped := false |}
    else st
  else
    {| st_toks := st_toks st; st_cur := push; st_inWord := true;
       st_quoted := st_quoted st; st_escaped := false |}.

Fixpoint split_run (st : split_state) (line : string) : split_state :=
  match line with
  | EmptyString => st
  | String ch line => split_run (split_step st ch) line
  end.

(** [None] is the error of an unterminated quote. *)
Definition splitLine (line : string) : option (list string) :=
  let st := split_run split_init line in
  if st_quoted st || st_escaped st then None
  else Some (if st_inWord st then st_toks st ++ [st_cur st] else st_toks st).

(** ** quoteArg *)

(** The replacer escapes each backslash, double quote and hash sign. *)
Fixpoint escape (s : string) : string :=
  match s with
  | EmptyString => ""
  | String c s =>
      if contains [backslash; dquote; hash] c
      then String backslash (String c (escape s)) else String c (escape s)
  end.

Definition quoteArg (a : string) : string :=
  if negb (bool_decide (a = "")) && negb (ContainsAny a [space; tab; dquote; backslash; hash; equals])
  then a
  else String dquote (escape a +:+ String dquote "").

(** ** ERR replies *)

Record ProtocolError := { pe_Code : string; pe_Extra : string }.

Definition parseErr (line : string) : option ProtocolError :=
  if negb (bool_decide (line = "ERR")) && negb (HasPrefix line "ERR ") then None
  else match splitLine line with
       | Some (_ :: code :: extra) =>
           Some {| pe_Code := clip code 64; pe_Extra := clip (Join " " extra) 128 |}
       | _ => Some {| pe_Code := "MALFORMED"; pe_Extra := "" |}
       end.

Definition IsStaleCode (code : string) : bool :=
  bool_decide (code = "DATA-STALE") || bool_decide (code = "DRIVER-NOT-CONNECTED").

Definition IsAuthCode (code : string) : bool :=
  contains ["ACCESS-DENIED"; "USERNAME-REQUIRED"; "PASSWORD-REQUIRED"; "INVALID-USERNAME";
            "INVALID-PASSWORD"] code.

Definition IsUnknownUPSCode (code : string) : bool := bool_decide (code = "UNKNOWN-UPS").

(** ** ups.status *)

Inductive State := StateOnline | StateOnBattery | StateLowBattery | StateOff | StateUnknown.

#[export] Instance State_eq_dec : EqDecision State.
Proof. solve_decision. Defined.

Definition maxFlags : nat := 32.
Definition maxFlagLen : nat := 32.

Record Status := { s_State : State; s_Flags : list string }.

Fixpoint status_flags (fields : list string) (seen : gset string) (flags : list string) :
    gset string * list string :=
  match fields with
  | [] => (seen, flags)
  | f :: fields =>
      if Nat.eqb (length flags) maxFlags then (seen, flags)
      else let f := clip f maxFlagLen in
           if bool_decide (f ∈ seen) then status_flags fields seen flags
           else status_flags fields ({[f]} ∪ seen) (flags ++ [f])
  end.

Definition ParseStatus (raw : string) : Status :=
  let '(seen, flags) := status_flags (Fields raw) ∅ [] in
  let has f := bool_decide (f ∈ seen) in
  let state :=
    if has "FSD" || (has "OB" && has "LB") then StateLowBattery
    else if has "OB" then StateOnBattery
    else if has "OFF" then StateOff
    else if has "OL" then StateOnline
    else StateUnknown in
  {| s_State := state; s_Flags := flags |}.

Definition Has (s : Status) (flag : string) : bool := contains (s_Flags s) flag.

Definition OnBattery (s : Status) : bool := Has s "OB".

(** ** Lemmas on the tokenizer *)

Lemma split_run_app st a b : split_run st (a +:+ b) = split_run (split_run st a) b.
Proof. revert st. induction a as [|c a IH]; intros st; [done|]. apply IH. Qed.

Definition plain (c : ascii) : bool :=
  negb (contains [space; tab; dquote; backslash; hash; equals] c).

Lemma plain_spec c : plain c = true →
  c ≠ space ∧ c ≠ tab ∧ c ≠ dquote ∧ c ≠ backslash.
Proof.
  unfold plain. rewrite negb_true_iff, contains_false. rewrite !not_elem_of_cons. tauto.
Qed.

(** A run of plain bytes outside quotes is appended to the current word. *)
Lemma split_run_plain toks cur w a :
  (∀ c, c ∈ bytes_of a → plain c = true) →
  split_run {| st_toks := toks; st_cur := cur; st_inWord := w; st_quoted := false;
               st_escaped := false |} a =
  {| st_toks := toks; st_cur := cur +:+ a; st_inWord := w || negb (bool_decide (a = ""));
     st_quoted := false; st_escaped := false |}.
Proof.
  revert cur w. induction a as [|c a IH]; intros cur w Hp; simpl.
  { by rewrite app_string_nil_r, orb_false_r. }
  destruct (plain_spec c) as (H1 & H2 & H3 & H4). { apply Hp. left. }
  unfold split_step. simpl.
  rewrite (proj2 (ascii_eqb_neq c dquote)), (proj2 (ascii_eqb_neq c space)),
    (proj2 (ascii_eqb_neq c tab)) by done. simpl.
  rewrite IH by (intros x Hx; apply Hp; by right). simpl.
  f_equal; [by rewrite <-app_string_assoc|]. by rewrite orb_true_r.
Qed.

(** Inside quotes the escaped form of a word is that word. *)
Lemma split_run_escape toks cur a :
  split_run {| st_toks := toks; st_cur := cur; st_inWord := true; st_quoted := true;
               st_escaped := false |} (escape a) =
  {| st_toks := toks; st_cur := cur +:+ a; st_inWord := true; st_quoted := true;
     st_escaped := false |}.
Proof.
  revert cur. induction a as [|c a IH]; intros cur; simpl.
  { by rewrite app_string_nil_r. }
  destruct (contains _ c) eqn:Hc; simpl.
  - unfold split_step at 2. simpl. unfold split_step. simpl.
    rewrite IH. by rewrite <-app_string_assoc.
  - apply contains_false in Hc. rewrite !not_elem_of_cons in Hc.
    destruct Hc as (Hb & Hd & _). unfold split_step. simpl.
    rewrite (proj2 (ascii_eqb_neq c backslash)), (proj2 (ascii_eqb_neq c dquote)) by done.
    simpl. rewrite IH. by rewrite <-app_string_assoc.
Qed.

(** One quoted argument is read back as one word. *)
Lemma split_run_quoteArg toks a :
  split_run {| st_toks := toks; st_cur := ""; st_inWord := false; st_quoted := false;
               st_escaped := false |} (quoteArg a) =
  {| st_toks := toks; st_cur := a; st_inWord := true; st_quoted := false; st_escaped := false |}.
Proof.
  unfold quoteArg. destruct (negb _ && negb _) eqn:Hq.
  - apply andb_true_iff in Hq as [Hne Hany%negb_true_iff].
    apply negb_true_iff, bool_decide_eq_false in Hne.
    rewrite split_run_plain.
    + by rewrite (bool_decide_false _ Hne).
    + intros c Hc. unfold ContainsAny in Hany. rewrite contains_func_false in Hany.
      unfold plain. by rewrite (Hany c Hc).
  - simpl. unfold split_step at 1. simpl. rewrite split_run_app, split_run_escape. done.
Qed.

(** The rest of a line of arguments, each after one space. *)
Lemma split_run_args toks cur args :
  let st := split_run {| st_toks := toks; st_cur := cur; st_inWord := true; st_quoted := false;
                         st_escaped := false |}
              (foldr (λ a rest, String space (quoteArg a +:+ rest)) "" args) in
  st_inWord st = true ∧ st_quoted st = false ∧ st_escaped st = false ∧
  st_toks st ++ [st_cur st] = toks ++ cur :: args.
Proof.
  revert toks cur. induction args as [|a args IH]; intros toks cur; simpl; [done|].
  unfold split_step at 1 2 3 4 5. simpl.
  rewrite split_run_app, split_run_quoteArg.
  destruct (IH (toks ++ [cur]) a) as (H1 & H2 & H3 & H4).
  split_and!; [done..|]. rewrite H4. by rewrite <-(assoc_L (++)).
Qed.

(** ** Lemmas on the flags *)

Lemma status_flags_inv fields seen flags seen' flags' :
  status_flags fields seen flags = (seen', flags') →
  NoDup flags → length flags ≤ maxFlags → Forall (λ f, slen f ≤ maxFlagLen) flags →
  (∀ f, f ∈ seen ↔ f ∈ flags) →
  NoDup flags' ∧ length flags' ≤ maxFlags ∧ Forall (λ f, slen f ≤ maxFlagLen) flags' ∧
  (∀ f, f ∈ seen' ↔ f ∈ flags').
Proof.
  revert seen flags. induction fields as [|f fields IH]; intros seen flags; simpl.
  { intros [= <- <-]. done. }
  destruct (Nat.eqb_spec (length flags) maxFlags) as [|Hlen]; [intros [= <- <-]; done|].
  case_bool_decide as Hin; [apply IH|].
  intros Hgo Hnd Hle Hall Hseen. eapply IH; [exact Hgo|..].
  - apply NoDup_app. split; [done|]. split; [|apply NoDup_singleton].
    intros x Hx ->%list_elem_of_singleton. by apply Hin, Hseen.
  - rewrite length_app. simpl. lia.
  - apply Forall_app. split; [done|]. apply Forall_singleton, slen_clip.
  - intros x. set_solver.
Qed.

(** ** Properties *)

(** What a UPS's status line becomes. The flags are the words upsd sent, without
    duplicates, at most 32 of them and 32 bytes each whatever the server sends, and the power
    state follows upsmon's precedence over exactly those flags: a forced shutdown or on battery
    and low is critical, then on battery, off, on line, unknown. A low battery on mains is no
    emergency. *)
Theorem ParseStatus_correct raw :
  let s := ParseStatus raw in
  NoDup (s_Flags s) ∧ length (s_Flags s) ≤ maxFlags ∧
  Forall (λ f, slen f ≤ maxFlagLen) (s_Flags s) ∧
  (s_State s = StateLowBattery ↔ "FSD" ∈ s_Flags s ∨ ("OB" ∈ s_Flags s ∧ "LB" ∈ s_Flags s)) ∧
  (s_State s = StateOnBattery ↔ ("FSD" ∉ s_Flags s) ∧ "OB" ∈ s_Flags s ∧ ("LB" ∉ s_Flags s)) ∧
  (s_State s = StateOff ↔ ("FSD" ∉ s_Flags s) ∧ OnBattery s = false ∧ "OFF" ∈ s_Flags s) ∧
  (s_State s = StateOnline ↔
     ("FSD" ∉ s_Flags s) ∧ OnBattery s = false ∧ ("OFF" ∉ s_Flags s) ∧ "OL" ∈ s_Flags s).
Proof.
  unfold ParseStatus, OnBattery, Has.
  destruct (status_flags (Fields raw) ∅ []) as [seen flags] eqn:Hf.
  apply status_flags_inv in Hf as (Hnd & Hlen & Hall & Hseen);
    [|constructor|simpl; unfold maxFlags; lia|constructor|set_solver].
  simpl. rewrite !contains_false, <-!Hseen.
  split_and!; [done..| | | |];
    repeat case_bool_decide; simpl; naive_solver.
Qed.
