(* ===== verification/NutClient.v ===== *)
(** * The NUT client connection

    Models [internal/nut/client.go] and [commands.go]: one upsd connection, the
    only path to its wire ([write]), the two reply shapes ([roundTrip], [list])
    and the operations built on them. The mutex makes each operation atomic, so
    an operation is a function on the connection's state.

    The outside world is data: [c_world] holds, command by command, what the
    context, the socket and the server will do, so an operation is a function of
    the state alone. The address parser and the TLS handshake are the Go
    standard library's and are parameters. *)

From S2P Require Import Prelude GoStrings NutProtocol.

Inductive ctx_err := Canceled | DeadlineExceeded.
Inductive io_err := IOTimeout | IOEOF | IOReset.

(** The errors the client returns; [ErrCmd verb e] is the ["nut: verb: %w"] wrap. *)
Inductive nut_err :=
| ErrVerbNotAllowed (verb : string)
| ErrArgBreak (verb : string)
| ErrProtocol (pe : ProtocolError)
| ErrReplyCut
| ErrLineTooLong
| ErrListTooLong
| ErrNul
| ErrUnterminated
| ErrUnexpected (what line : string)
| ErrValueChanged (why : string)
| ErrTLSUnavailable (code : string)
| ErrTLS (why : string)
| ErrCtx (e : ctx_err)
| ErrIO (e : io_err)
| ErrClosed
| ErrUnusable (e : nut_err)
| ErrCmd (verb : string) (e : nut_err).

(** What the world does during one command: whether the context is already done
    when it starts, whether the socket takes the line, the bytes that arrive
    before the deadline, how the read ends when they run out, and whether the
    context is done when a failure is reported. *)
Record turn := {
  t_ctx_start : option ctx_err;
  t_write : option io_err;
  t_arrive : string;
  t_read_end : io_err;
  t_ctx_end : option ctx_err;
}.

Definition silent_turn : turn :=
  {| t_ctx_start := None; t_write := None; t_arrive := ""; t_read_end := IOTimeout;
     t_ctx_end := None |}.

Record Client := {
  c_wire : list string;        (** every line handed to the socket, in order *)
  c_buf : string;              (** bytes received and not yet read *)
  c_broken : option nut_err;
  c_commands : bool;
  c_world : list turn;
}.

Definition new_client (commands : bool) (world : list turn) : Client :=
  {| c_wire := []; c_buf := ""; c_broken := None; c_commands := commands; c_world := world |}.

Definition DefaultPort : Z := 3493.
Definition maxLineBytes : nat := 4096.
Definition maxListLines : nat := 4096.
Definition upsdReplyCap : nat := 512.
Definition maxVersionLen : nat := 32.

Definition allowedVerbs : list string :=
  ["VER"; "NETVER"; "PROTVER"; "LIST"; "GET"; "STARTTLS"; "USERNAME"; "PASSWORD"; "LOGOUT"].

Definition commandVerbs : list string := ["INSTCMD"; "SET"].

(** ** arm, fail, write *)

Definition with_broken (c : Client) (e : nut_err) : Client :=
  {| c_wire := c_wire c; c_buf := c_buf c; c_broken := Some e; c_commands := c_commands c;
     c_world := c_world c |}.

Definition with_buf (c : Client) (b : string) : Client :=
  {| c_wire := c_wire c; c_buf := b; c_broken := c_broken c; c_commands := c_commands c;
     c_world := c_world c |}.

Definition put_line (c : Client) (l : string) : Client :=
  {| c_wire := c_wire c ++ [l]; c_buf := c_buf c; c_broken := c_broken c;
     c_commands := c_commands c; c_world := c_world c |}.

(** The next turn of the world; a world with nothing left is silent. *)
Definition next_turn (c : Client) : turn * Client :=
  let t := default silent_turn (head (c_world c)) in
  (t, {| c_wire := c_wire c; c_buf := c_buf c; c_broken := c_broken c;
         c_commands := c_commands c; c_world := tail (c_world c) |}).

Definition arm (t : turn) (c : Client) : option nut_err :=
  match c_broken c with
  | Some e => Some (ErrUnusable e)
  | None => ErrCtx <$> t_ctx_start t
  end.

Definition fail (t : turn) (c : Client) (verb : string) (e : nut_err) : nut_err * Client :=
  let e := match t_ctx_end t with Some ce => ErrCtx ce | None => e end in
  (ErrCmd verb e, with_broken c e).

Definition arg_breaks (a : string) : bool := ContainsAny a [cr; newline; nul].

Definition verb_allowed (commands : bool) (verb : string) : bool :=
  contains allowedVerbs verb || (commands && contains commandVerbs verb).

(** The line of a command: the verb, each argument quoted after a space, a newline. *)
Definition command_line (verb : string) (args : list string) : string :=
  verb +:+ foldr (λ a rest, String space (quoteArg a +:+ rest)) (String newline "") args.

Definition write (t : turn) (c : Client) (verb : string) (args : list string) :
    option nut_err * Client :=
  if negb (contains allowedVerbs verb) && (negb (c_commands c) || negb (contains commandVerbs verb))
  then (Some (ErrVerbNotAllowed verb), c)
  else if existsb arg_breaks args then (Some (ErrArgBreak verb), c)
  else let c := put_line c (command_line verb args) in
       match t_write t with
       | Some e => let '(e, c) := fail t c verb (ErrIO e) in (Some e, c)
       | None => (None, c)
       end.

(** ** Reading *)

Definition cleanLine (line : string) : result nut_err string :=
  let s := TrimRight line [cr; newline] in
  if contains_func (ascii_eqb nul) s then Err ErrNul else Ok s.

(** [readLine]: up to the newline, which must be within the 4096-byte buffer. *)
Definition readLine (t : turn) (c : Client) : result nut_err string * Client :=
  match index_func (ascii_eqb newline) (c_buf c) with
  | Some i =>
      if Nat.ltb i maxLineBytes
      then (cleanLine (stake (S i) (c_buf c)), with_buf c (sdrop (S i) (c_buf c)))
      else (Err ErrLineTooLong, with_buf c (sdrop maxLineBytes (c_buf c)))
  | None =>
      if Nat.leb maxLineBytes (slen (c_buf c))
      then (Err ErrLineTooLong, with_buf c (sdrop maxLineBytes (c_buf c)))
      else (Err (ErrIO (t_read_end t)), with_buf c "")
  end.

(** [readReply]: byte by byte, at most [upsdReplyCap] of them before the newline. *)
Fixpoint readReply_loop (n : nat) (line buf : string) (e : io_err) :
    result nut_err string * string :=
  match n with
  | 0 => (Err ErrReplyCut, buf)
  | S n =>
      match buf with
      | EmptyString => (Err (ErrIO e), buf)
      | String b buf =>
          if ascii_eqb b newline then (cleanLine line, buf)
          else readReply_loop n (line +:+ String b "") buf e
      end
  end.

Definition readReply (t : turn) (c : Client) : result nut_err string * Client :=
  let '(r, buf) := readReply_loop upsdReplyCap "" (c_buf c) (t_read_end t) in
  (r, with_buf c buf).

(** The bytes of this turn reach the buffer once the line is out. *)
Definition arrive (t : turn) (c : Client) : Client := with_buf c (c_buf c +:+ t_arrive t).

(** ** roundTrip and list *)

Definition is_cut (e : nut_err) : bool :=
  match e with ErrReplyCut => true | _ => false end.

Definition roundTrip (c : Client) (verb : string) (args : list string) :
    result nut_err string * Client :=
  let '(t, c) := next_turn c in
  match arm t c with
  | Some e => (Err e, c)
  | None =>
      match write t c verb args with
      | (Some e, c) => (Err e, c)
      | (None, c) =>
          match readReply t (arrive t c) with
          | (Err e, c) =>
              if is_cut e then (Err e, c)
              else let '(e, c) := fail t c verb e in (Err e, c)
          | (Ok line, c) =>
              match parseErr line with
              | Some pe => (Err (ErrProtocol pe), c)
              | None => (Ok line, c)
              end
          end
      end
  end.

Definition framedBy (toks : list string) (marker : string) (query : list string) : bool :=
  bool_decide (toks = marker :: query).

(** The row loop, with [n] the number of lines it may still take. *)
Fixpoint list_loop (n : nat) (t : turn) (c : Client) (query : list string)
    (rows : list (list string)) : result nut_err (list (list string)) * Client :=
  match n with
  | 0 => let '(e, c) := fail t c "LIST" ErrListTooLong in (Err e, c)
  | S n =>
      match readLine t c with
      | (Err e, c) => let '(e, c) := fail t c "LIST" e in (Err e, c)
      | (Ok line, c) =>
          match splitLine line with
          | None => let '(e, c) := fail t c "LIST" ErrUnterminated in (Err e, c)
          | Some toks =>
              if framedBy toks "END" query then (Ok rows, c)
              else list_loop n t c query (rows ++ [toks])
          end
      end
  end.

Definition list_cmd (c : Client) (args : list string) :
    result nut_err (list (list string)) * Client :=
  let '(t, c) := next_turn c in
  match arm t c with
  | Some e => (Err e, c)
  | None =>
      match write t c "LIST" args with
      | (Some e, c) => (Err e, c)
      | (None, c) =>
          match readLine t (arrive t c) with
          | (Err e, c) => let '(e, c) := fail t c "LIST" e in (Err e, c)
          | (Ok first, c) =>
              match parseErr first with
              | Some pe => (Err (ErrProtocol pe), c)
              | None =>
                  let query := "LIST" :: args in
                  if match splitLine first with
                     | Some toks => framedBy toks "BEGIN" query
                     | None => false
                     end
                  then list_loop maxListLines t c query []
                  else let '(e, c) := fail t c "LIST" (ErrUnexpected "first line" (clip first 64)) in
                       (Err e, c)
              end
          end
      end
  end.
