(* ===== verification/NutOps.v ===== *)
(** * The operations of a NUT connection

    Models the exported operations of [internal/nut/client.go] and
    [commands.go] on top of [roundTrip] and [list_cmd]: the credentials and
    STARTTLS of [setup], the listings and descriptions, the checks a command or
    a setting has to pass before anything is written, and the tracking of a
    command's outcome. *)

From S2P Require Import Prelude GoStrings NutProtocol NutClient.

(** [errCode]: the protocol code of an error, through the wraps. *)
Fixpoint errCode (e : nut_err) : string :=
  match e with
  | ErrProtocol pe => pe_Code pe
  | ErrUnusable e | ErrCmd _ e => errCode e
  | _ => ""
  end.

Definition IsStale (e : nut_err) : bool := IsStaleCode (errCode e).
Definition IsAuth (e : nut_err) : bool := IsAuthCode (errCode e).
Definition IsUnknownUPS (e : nut_err) : bool := IsUnknownUPSCode (errCode e).

(** ** Setup *)

Inductive TLSMode := TLSOff | TLSStartTLS.

Record Config := {
  cfg_Username : string;
  cfg_Password : string;
  cfg_TLS : TLSMode;
  cfg_VerifyTLS : bool;
  cfg_Fingerprint : string;
}.

(** [NormalizeFingerprint]: bare lower-case hex. *)
Definition NormalizeFingerprint (s : string) : string :=
  ToLower (of_bytes (filter (λ c, c ≠ colon) (bytes_of (TrimSpace s)))).

(** What the TLS configuration asks of the peer's certificate, and whether the
    library verifies the chain itself. A leaf is given by its fingerprint. *)
Definition tlsVerify (cfg : Config) (leaf : option string) : bool :=
  if bool_decide (cfg_Fingerprint cfg = "") then true
  else match leaf with
       | None => false
       | Some got => bool_decide (got = NormalizeFingerprint (cfg_Fingerprint cfg))
       end.

Definition tlsSkipsChain (cfg : Config) : bool :=
  negb (bool_decide (cfg_Fingerprint cfg = "")) || negb (cfg_VerifyTLS cfg).

(** The handshake is the TLS library's: given whether the chain has to verify and the
    peer-certificate callback, it fails or yields the fingerprint of the leaf. *)
Definition handshake := bool → (option string → bool) → option string.

Definition startTLS (hs : handshake) (c : Client) (cfg : Config) :
    result nut_err string * Client :=
  match roundTrip c "STARTTLS" [] with
  | (Err e, c) =>
      let code := errCode e in
      if bool_decide (code = "FEATURE-NOT-CONFIGURED") || bool_decide (code = "FEATURE-NOT-SUPPORTED")
      then (Err (ErrTLSUnavailable code), c) else (Err e, c)
  | (Ok line, c) =>
      if negb (HasPrefix line "OK STARTTLS")
      then (Err (ErrUnexpected "STARTTLS" (clip line 64)), c)
      else if negb (bool_decide (c_buf c = ""))
      then (Err (ErrTLS "server sent data after agreeing to STARTTLS"), c)
      else match hs (negb (tlsSkipsChain cfg)) (tlsVerify cfg) with
           | None => (Err (ErrTLS "handshake"), c)
           | Some seen => (Ok seen, with_buf c "")
           end
  end.

Definition setup (hs : handshake) (c : Client) (cfg : Config) : option nut_err * Client :=
  let '(r, c) :=
    match cfg_TLS cfg with
    | TLSStartTLS => startTLS hs c cfg
    | TLSOff => (Ok "", c)
    end in
  match r with
  | Err e => (Some e, c)
  | Ok _ =>
      let '(r, c) := if bool_decide (cfg_Username cfg = "") then (Ok "", c)
                     else roundTrip c "USERNAME" [cfg_Username cfg] in
      match r with
      | Err e => (Some e, c)
      | Ok _ =>
          let '(r, c) := if bool_decide (cfg_Password cfg = "") then (Ok "", c)
                         else roundTrip c "PASSWORD" [cfg_Password cfg] in
          match r with
          | Err e => (Some e, c)
          | Ok _ => (None, c)
          end
      end
  end.

Definition Close (c : Client) : Client :=
  let c := match c_broken c with None => (roundTrip c "LOGOUT" []).2 | Some _ => c end in
  with_broken c ErrClosed.

(** ** Reads *)

Fixpoint parseRelease_loop (f : list string) : string :=
  match f with
  | a :: ((b :: _) as f') =>
      if bool_decide (a = "upsd") then clip b maxVersionLen else parseRelease_loop f'
  | _ => ""
  end.

Definition parseRelease (banner : string) : string := parseRelease_loop (Fields banner).

Definition Versions (c : Client) : result nut_err (string * string) * Client :=
  let '(banner, c) := roundTrip c "VER" [] in
  match (match banner with
         | Ok b => Ok (parseRelease b)
         | Err e => if bool_decide (errCode e = "") then Err e else Ok ""
         end) with
  | Err e => (Err e, c)
  | Ok release =>
      let '(protocol, c) := roundTrip c "NETVER" [] in
      match protocol with
      | Ok p => (Ok (release, clip (TrimSpace p) maxVersionLen), c)
      | Err e => if bool_decide (errCode e = "") then (Err e, c) else (Ok (release, ""), c)
      end
  end.

Definition noDescription : string := "Description unavailable".

Record UPS := { u_Name : string; u_Description : string }.

(** Every row of a listing is read by [f]; the first row it refuses is the error. *)
Fixpoint map_rows {A} (f : list string → result nut_err A) (rows : list (list string)) :
    result nut_err (list A) :=
  match rows with
  | [] => Ok []
  | r :: rows =>
      match f r with
      | Err e => Err e
      | Ok a => result_map (cons a) (map_rows f rows)
      end
  end.

(** The error of a row that is not what the listing should hold. *)
Definition bad_row {A} (what : string) (r : list string) : result nut_err A :=
  Err (ErrUnexpected what (clip (Join " " r) 64)).

Definition on_rows {A} (r : result nut_err (list (list string)) * Client)
    (f : list (list string) → result nut_err A) : result nut_err A * Client :=
  match r with
  | (Err e, c) => (Err e, c)
  | (Ok rows, c) => (f rows, c)
  end.

Definition ListUPS (c : Client) : result nut_err (list UPS) * Client :=
  on_rows (list_cmd c ["UPS"])
    (map_rows (λ r,
       match r with
       | "UPS" :: name :: desc :: _ =>
           Ok {| u_Name := name;
                 u_Description := if bool_decide (desc = noDescription) then "" else desc |}
       | _ => bad_row "LIST UPS" r
       end)).

(** [listValues]: LIST VAR and LIST RW; a name listed twice keeps its last value. *)
Definition listValues (c : Client) (kind ups : string) :
    result nut_err (gmap string string) * Client :=
  on_rows (list_cmd c [kind; ups])
    (λ rows,
       result_map (foldl (λ m (kv : string * string), <[kv.1 := kv.2]> m) ∅)
         (map_rows (λ r,
            match r with
            | k :: u :: name :: value :: _ =>
                if bool_decide (k = kind) && bool_decide (u = ups) then Ok (name, value)
                else bad_row ("LIST " +:+ kind) r
            | _ => bad_row ("LIST " +:+ kind) r
            end) rows)).

Definition ListVars (c : Client) (ups : string) := listValues c "VAR" ups.
Definition ListRW (c : Client) (ups : string) := listValues c "RW" ups.

(** [netip.ParseAddr] followed by [Unmap]. *)
Definition ListClients {Addr} (parse : string → option Addr) (c : Client) (ups : string) :
    result nut_err (list Addr) * Client :=
  on_rows (list_cmd c ["CLIENT"; ups])
    (map_rows (λ r,
       match r with
       | ["CLIENT"; u; a] =>
           if EqualFold u ups
           then match parse a with
                | Some addr => Ok addr
                | None => Err (ErrUnexpected "LIST CLIENT address" (clip a 64))
                end
           else bad_row "LIST CLIENT" r
       | _ => bad_row "LIST CLIENT" r
       end)).

Definition describe (c : Client) (kind ups name : string) : result nut_err string * Client :=
  match roundTrip c "GET" [kind; ups; name] with
  | (Err e, c) => if is_cut e then (Ok "", c) else (Err e, c)
  | (Ok line, c) =>
      match splitLine line with
      | None => (Err ErrUnterminated, c)
      | Some (k :: _ :: _ :: text :: _) =>
          if negb (bool_decide (k = kind))
          then (Err (ErrUnexpected ("GET " +:+ kind) (clip line 64)), c)
          else if bool_decide (text = noDescription) then (Ok "", c) else (Ok text, c)
      | Some _ => (Err (ErrUnexpected ("GET " +:+ kind) (clip line 64)), c)
      end
  end.

Definition VarDescription (c : Client) (ups name : string) := describe c "DESC" ups name.
Definition CommandDescription (c : Client) (ups cmd : string) := describe c "CMDDESC" ups cmd.

Definition ListCommands (c : Client) (ups : string) : result nut_err (list string) * Client :=
  on_rows (list_cmd c ["CMD"; ups])
    (map_rows (λ r,
       match r with
       | ["CMD"; u; cmd] => if bool_decide (u = ups) then Ok cmd else bad_row "LIST CMD" r
       | _ => bad_row "LIST CMD" r
       end)).

Definition GetVar (c : Client) (ups name : string) : result nut_err string * Client :=
  match roundTrip c "GET" ["VAR"; ups; name] with
  | (Err e, c) => (Err e, c)
  | (Ok line, c) =>
      match splitLine line with
      | None => (Err ErrUnterminated, c)
      | Some ["VAR"; _; _; v] => (Ok v, c)
      | Some _ => (Err (ErrUnexpected "GET VAR" (clip line 64)), c)
      end
  end.

Record VarType := {
  vt_Writable : bool; vt_Enum : bool; vt_Range : bool; vt_MaxLen : Z; vt_Number : bool;
}.

Definition no_type : VarType :=
  {| vt_Writable := false; vt_Enum := false; vt_Range := false; vt_MaxLen := 0; vt_Number := false |}.

(** The words after the variable's name, in order; [None] is a malformed STRING:n. *)
Fixpoint type_words (t : VarType) (ws : list string) : option VarType :=
  match ws with
  | [] => Some t
  | w :: ws =>
      if bool_decide (w = "RW") then
        type_words {| vt_Writable := true; vt_Enum := vt_Enum t; vt_Range := vt_Range t;
                      vt_MaxLen := vt_MaxLen t; vt_Number := vt_Number t |} ws
      else if bool_decide (w = "ENUM") then
        type_words {| vt_Writable := vt_Writable t; vt_Enum := true; vt_Range := vt_Range t;
                      vt_MaxLen := vt_MaxLen t; vt_Number := vt_Number t |} ws
      else if bool_decide (w = "RANGE") then
        type_words {| vt_Writable := vt_Writable t; vt_Enum := vt_Enum t; vt_Range := true;
                      vt_MaxLen := vt_MaxLen t; vt_Number := vt_Number t |} ws
      else if bool_decide (w = "NUMBER") then
        type_words {| vt_Writable := vt_Writable t; vt_Enum := vt_Enum t; vt_Range := vt_Range t;
                      vt_MaxLen := vt_MaxLen t; vt_Number := true |} ws
      else if HasPrefix w "STRING:" then
        match Atoi (TrimPrefix w "STRING:") with
        | (n, None) =>
            if (n <? 0)%Z then None
            else type_words {| vt_Writable := vt_Writable t; vt_Enum := vt_Enum t;
                               vt_Range := vt_Range t; vt_MaxLen := n;
                               vt_Number := vt_Number t |} ws
        | (_, Some _) => None
        end
      else type_words t ws
  end.

Definition VarType_of (c : Client) (ups name : string) : result nut_err VarType * Client :=
  match roundTrip c "GET" ["TYPE"; ups; name] with
  | (Err e, c) => (Err e, c)
  | (Ok line, c) =>
      match splitLine line with
      | None => (Err ErrUnterminated, c)
      | Some ("TYPE" :: _ :: _ :: ws) =>
          match type_words no_type ws with
          | Some t => (Ok t, c)
          | None => (Err (ErrUnexpected "GET TYPE" (clip line 64)), c)
          end
      | Some _ => (Err (ErrUnexpected "GET TYPE" (clip line 64)), c)
      end
  end.

Definition ListEnum (c : Client) (ups name : string) : result nut_err (list string) * Client :=
  on_rows (list_cmd c ["ENUM"; ups; name])
    (map_rows (λ r,
       match r with
       | ["ENUM"; u; n; v] =>
           if bool_decide (u = ups) && bool_decide (n = name) then Ok v else bad_row "LIST ENUM" r
       | _ => bad_row "LIST ENUM" r
       end)).

Record Range := { r_Min : Z; r_Max : Z }.

Definition ListRange (c : Client) (ups name : string) : result nut_err (list Range) * Client :=
  on_rows (list_cmd c ["RANGE"; ups; name])
    (map_rows (λ r,
       match r with
       | ["RANGE"; u; n; lo; hi] =>
           if bool_decide (u = ups) && bool_decide (n = name)
           then match Atoi lo, Atoi hi with
                | (lo, None), (hi, None) => Ok {| r_Min := lo; r_Max := hi |}
                | _, _ => bad_row "LIST RANGE" r
                end
           else bad_row "LIST RANGE" r
       | _ => bad_row "LIST RANGE" r
       end)).

(** ** Commands that change the UPS *)

Definition maxWordBytes : nat := 512.
Definition maxDriverValue : nat := 255.
Definition maxForwardLine : nat := 511.
Definition trackingSuffix : nat := slen " TRACKING " + 36.

Definition word_byte (c : ascii) : bool :=
  Nat.leb 32 (byte_val c) && Nat.leb (byte_val c) 127.

Definition checkWord (w : string) : option nut_err :=
  if Nat.ltb maxWordBytes (slen w) then Some (ErrValueChanged "longer than 512 bytes")
  else if contains_func (λ c, negb (word_byte c)) w then Some (ErrValueChanged "byte")
  else None.

Definition encodedLen (w : string) : nat :=
  slen w + Count hash w + Count backslash w + Count dquote w.

Definition CheckCommand (cmd param : string) : option nut_err :=
  match checkWord cmd, checkWord param with
  | Some e, _ => Some e
  | None, Some e => Some e
  | None, None =>
      if ContainsAny param [space; equals]
      then Some (ErrValueChanged "a space or an = would split the parameter")
      else
        let line := slen "INSTCMD " + slen cmd + trackingSuffix + 1 +
                    (if bool_decide (param = "") then 0 else 1 + encodedLen param) in
        if Nat.ltb maxForwardLine line
        then Some (ErrValueChanged "upsd's line to the driver would pass 512 bytes") else None
  end.

Definition CheckSetValue (name value : string) : option nut_err :=
  match checkWord name, checkWord value with
  | Some e, _ => Some e
  | None, Some e => Some e
  | None, None =>
      if Nat.ltb maxDriverValue (slen value)
      then Some (ErrValueChanged "a driver keeps 255 bytes of a value")
      else if Nat.ltb maxForwardLine
                (slen "SET " + slen name + 3 + encodedLen value + trackingSuffix + 1)
      then Some (ErrValueChanged "upsd's line to the driver would pass 512 bytes") else None
  end.

(** The id of a tracked command: printable ASCII, at most 64 bytes. *)
Definition tracking_id (line : string) : option string :=
  match CutPrefix line "OK TRACKING " with
  | (id, true) =>
      if negb (bool_decide (id = "")) && Nat.leb (slen id) 64 &&
         negb (contains_func (λ c, Nat.leb (byte_val c) 32 || Nat.ltb 126 (byte_val c)) id)
      then Some id else None
  | _ => None
  end.

Fixpoint first_bad_word (args : list string) : option nut_err :=
  match args with
  | [] => None
  | a :: args => match checkWord a with Some e => Some e | None => first_bad_word args end
  end.

Definition change (c : Client) (verb : string) (args : list string) :
    result nut_err string * Client :=
  match first_bad_word args with
  | Some e => (Err e, c)
  | None =>
      match roundTrip c verb args with
      | (Err e, c) => (Err e, c)
      | (Ok line, c) =>
          if bool_decide (line = "OK") then (Ok "", c)
          else match tracking_id line with
               | Some id => (Ok id, c)
               | None => (Err (ErrUnexpected verb (clip line 64)), c)
               end
      end
  end.

Definition SetTracking (c : Client) (on : bool) : option nut_err * Client :=
  match roundTrip c "SET" ["TRACKING"; if on then "ON" else "OFF"] with
  | (Err e, c) => (Some e, c)
  | (Ok line, c) =>
      if bool_decide (line = "OK") then (None, c)
      else (Some (ErrUnexpected "SET TRACKING" (clip line 64)), c)
  end.

Definition InstantCommand (c : Client) (ups cmd arg : string) : result nut_err string * Client :=
  match CheckCommand cmd arg with
  | Some e => (Err e, c)
  | None => if bool_decide (arg = "") then change c "INSTCMD" [ups; cmd]
            else change c "INSTCMD" [ups; cmd; arg]
  end.

Definition SetVar (c : Client) (ups name value : string) : result nut_err string * Client :=
  match CheckSetValue name value with
  | Some e => (Err e, c)
  | None => change c "SET" ["VAR"; ups; name; value]
  end.

Inductive TrackingStatus :=
| TrackingPending | TrackingSuccess | TrackingUnknown | TrackingInvalid | TrackingFailed.

Definition Tracking (c : Client) (id : string) : result nut_err TrackingStatus * Client :=
  match roundTrip c "GET" ["TRACKING"; id] with
  | (Err e, c) =>
      let code := errCode e in
      if bool_decide (code = "UNKNOWN") then (Ok TrackingUnknown, c)
      else if bool_decide (code = "INVALID-ARGUMENT") then (Ok TrackingInvalid, c)
      else if bool_decide (code = "FAILED") then (Ok TrackingFailed, c)
      else (Err e, c)
  | (Ok line, c) =>
      if bool_decide (line = "PENDING") then (Ok TrackingPending, c)
      else if bool_decide (line = "SUCCESS") then (Ok TrackingSuccess, c)
      else (Err (ErrUnexpected "GET TRACKING" (clip line 64)), c)
  end.

(** ** What reaches the driver *)

(** The line upsd passes to the driver for SET VAR with tracking on (netset.c): the value
    quoted and escaped, then the 36-byte tracking id. *)
Definition driver_set_line (name value id : string) : string :=
  "SET " +:+ name +:+ String space (String dquote "") +:+ escape value +:+
  String dquote " TRACKING " +:+ id.

Lemma slen_escape v : slen (escape v) = encodedLen v.
Proof.
  unfold encodedLen. induction v as [|c v IH]; [done|]. cbn [escape Count String.length].
  destruct (contains [backslash; dquote; hash] c) eqn:Hc.
  - apply contains_spec in Hc. rewrite !elem_of_cons in Hc. simpl.
    destruct Hc as [->|[->|[->|?%not_elem_of_nil]]]; [..|done]; simpl; lia.
  - apply contains_false in Hc. rewrite !not_elem_of_cons in Hc.
    destruct Hc as (H1 & H2 & H3 & _).
    rewrite !(proj2 (ascii_eqb_neq c _)) by done. simpl. lia.
Qed.

Lemma split_run_word toks w :
  w ≠ "" → (∀ c, c ∈ bytes_of w → plain c = true) →
  split_run {| st_toks := toks; st_cur := ""; st_inWord := false; st_quoted := false;
               st_escaped := false |} w =
  {| st_toks := toks; st_cur := w; st_inWord := true; st_quoted := false; st_escaped := false |}.
Proof. intros Hne Hp. by rewrite split_run_plain, (bool_decide_false _ Hne). Qed.

(** A setting the client sent reaches the driver whole. When [SetVar] succeeds, the value fits
    the driver's 255 bytes, and the line upsd builds from it, with its escapes and the tracking id,
    fits upsd's 511-byte buffer and is read back by a parser of the same syntax as the variable's
    name, the very value, and the id, so nothing of it is cut or split. *)
Theorem SetVar_reaches_driver c c' ups name value id r :
  SetVar c ups name value = (Ok r, c') → slen id = 36 →
  id ≠ "" → (∀ b, b ∈ bytes_of id → plain b = true) →
  name ≠ "" → (∀ b, b ∈ bytes_of name → plain b = true) →
  slen value ≤ maxDriverValue ∧
  slen (driver_set_line name value id) + 1 ≤ maxForwardLine ∧
  splitLine (driver_set_line name value id) = Some ["SET"; name; value; "TRACKING"; id].
Proof.
  intros Hset Hid Hidne Hidp Hne Hp. unfold SetVar in Hset.
  destruct (CheckSetValue name value) eqn:Hc; [done|]. clear Hset.
  unfold CheckSetValue in Hc.
  destruct (checkWord name), (checkWord value); try done.
  destruct (Nat.ltb_spec maxDriverValue (slen value)); [done|].
  destruct (Nat.ltb_spec maxForwardLine
    (slen "SET " + slen name + 3 + encodedLen value + trackingSuffix + 1)); [done|].
  split; [done|]. unfold driver_set_line. split.
  - rewrite !slen_app. cbn [String.length]. rewrite slen_escape, Hid.
    unfold trackingSuffix, maxForwardLine in *. simpl in *. lia.
  - unfold splitLine. rewrite !split_run_app.
    replace (split_run split_init "SET ") with
      {| st_toks := ["SET"]; st_cur := ""; st_inWord := false; st_quoted := false;
         st_escaped := false |} by done.
    rewrite split_run_word by done.
    replace (split_run _ (String space (String dquote ""))) with
      {| st_toks := ["SET"; name]; st_cur := ""; st_inWord := true; st_quoted := true;
         st_escaped := false |} by done.
    rewrite split_run_escape, app_string_nil_l.
    replace (split_run _ (String dquote " TRACKING ")) with
      {| st_toks := ["SET"; name; value; "TRACKING"]; st_cur := ""; st_inWord := false;
         st_quoted := false; st_escaped := false |} by done.
    by rewrite split_run_word.
Qed.

Lemma SetVar_reaches_driver_witness :
  let t := {| t_ctx_start := None; t_write := None; t_arrive := "OK" +:+ String newline "";
              t_read_end := IOTimeout; t_ctx_end := None |} in
  let id := "1b0fa8f6-5f0a-4d3e-9f8e-2f6a0f4e7b11" in
  let value := "50 " +:+ String dquote "x" in
  fst (SetVar (new_client true [t]) "ups1" "battery.charge.low" value) = Ok "" ∧
  splitLine (driver_set_line "battery.charge.low" value id) =
    Some ["SET"; "battery.charge.low"; value; "TRACKING"; id].
Proof.
  intros t id value. split; [by vm_compute|].
  refine (proj2 (proj2 (SetVar_reaches_driver (new_client true [t])
    (SetVar (new_client true [t]) "ups1" "battery.charge.low" value).2
    "ups1" "battery.charge.low" value id "" _ _ _ _ _ _))).
  - by vm_compute.
  - by vm_compute.
  - done.
  - apply forallb_elem_of. by vm_compute.
  - done.
  - apply forallb_elem_of. by vm_compute.
Defined.
