(* ===== verification/NutSafety.v ===== *)
(** * What a NUT connection may put on the wire, and what it reads back

    The safety argument of the package comment of [internal/nut/client.go]:
    every command goes through [write], so over any history of a connection
    each line on the wire is one command with an allowed verb, whose words are
    the arguments it was given. A connection that failed once says nothing
    more. And the two reply shapes are read back exactly as the server sent
    them. *)

From S2P Require Import Prelude GoStrings NutProtocol NutClient NutOps.

(** ** The history of a connection *)

(** One exported operation. *)
Inductive client_step : Client → Client → Prop :=
| step_setup hs cfg c : client_step c (setup hs c cfg).2
| step_close c : client_step c (Close c)
| step_versions c : client_step c (Versions c).2
| step_list_ups c : client_step c (ListUPS c).2
| step_list_vars c ups : client_step c (ListVars c ups).2
| step_list_rw c ups : client_step c (ListRW c ups).2
| step_list_clients {Addr} (parse : string → option Addr) c ups :
    client_step c (ListClients parse c ups).2
| step_list_commands c ups : client_step c (ListCommands c ups).2
| step_list_enum c ups name : client_step c (ListEnum c ups name).2
| step_list_range c ups name : client_step c (ListRange c ups name).2
| step_var_description c ups name : client_step c (VarDescription c ups name).2
| step_command_description c ups cmd : client_step c (CommandDescription c ups cmd).2
| step_get_var c ups name : client_step c (GetVar c ups name).2
| step_var_type c ups name : client_step c (VarType_of c ups name).2
| step_set_tracking c on : client_step c (SetTracking c on).2
| step_instant_command c ups cmd arg : client_step c (InstantCommand c ups cmd arg).2
| step_set_var c ups name value : client_step c (SetVar c ups name value).2
| step_tracking c id : client_step c (Tracking c id).2.

(** A line [write] may produce on a connection with or without commands. *)
Definition wire_ok (commands : bool) (l : string) : Prop :=
  ∃ verb args, l = command_line verb args ∧ verb_allowed commands verb = true ∧
    Forall (λ a, arg_breaks a = false) args.

(** From [c] to [c']: only well-formed lines were added, and none when the
    connection was already broken, which it stays. *)
Definition sent_by (c c' : Client) : Prop :=
  c_commands c' = c_commands c ∧
  ∃ ls, c_wire c' = c_wire c ++ ls ∧ Forall (wire_ok (c_commands c)) ls ∧
    (is_Some (c_broken c) → ls = [] ∧ is_Some (c_broken c')).

#[export] Instance sent_by_preorder : PreOrder sent_by.
Proof.
  split.
  - intros c. split; [done|]. exists []. rewrite app_nil_r. auto.
  - intros c1 c2 c3 (H1 & l1 & W1 & F1 & B1) (H2 & l2 & W2 & F2 & B2).
    split; [congruence|]. exists (l1 ++ l2). rewrite W2, W1, H1 in *.
    split; [by rewrite (assoc_L (++))|]. split; [by apply Forall_app|].
    intros [-> B]%B1. by apply B2 in B as [-> ?].
Qed.

(** Steps that leave the wire, the permission and a broken mark alone. *)
Lemma sent_by_quiet c c' :
  c_commands c' = c_commands c → c_wire c' = c_wire c →
  (is_Some (c_broken c) → is_Some (c_broken c')) → sent_by c c'.
Proof.
  intros H1 H2 H3. split; [done|]. exists []. rewrite app_nil_r. naive_solver.
Qed.

Lemma sent_by_buf c b : sent_by c (with_buf c b).
Proof. by apply sent_by_quiet. Qed.

Lemma sent_by_broken c e : sent_by c (with_broken c e).
Proof. apply sent_by_quiet; [done..|]. intros _. by eexists. Qed.

Lemma sent_by_turn c : sent_by c (next_turn c).2.
Proof. by apply sent_by_quiet. Qed.

#[export] Hint Resolve sent_by_buf sent_by_broken sent_by_turn : nexara.
#[export] Hint Extern 0 (sent_by ?c ?c) => reflexivity : nexara.

(** The verb test of [write], as the permission it grants. *)
Lemma verb_test commands verb :
  (negb (contains allowedVerbs verb) && (negb commands || negb (contains commandVerbs verb)))
  = negb (verb_allowed commands verb).
Proof.
  unfold verb_allowed.
  by destruct (contains allowedVerbs verb), commands, (contains commandVerbs verb).
Qed.

Lemma write_sent t c verb args :
  c_broken c = None → sent_by c (write t c verb args).2.
Proof.
  intros Hb. unfold write. rewrite verb_test.
  destruct (verb_allowed _ verb) eqn:Hv; simpl; [|reflexivity].
  destruct (existsb arg_breaks args) eqn:Ha; [reflexivity|].
  assert (sent_by c (put_line c (command_line verb args))) as Hput.
  { split; [done|]. exists [command_line verb args]. split; [done|].
    split; [|rewrite Hb; by intros [? ?]]. apply Forall_singleton.
    exists verb, args. split; [done|]. split; [done|].
    apply Forall_forall. rewrite existsb_false in Ha. exact Ha. }
  destruct (t_write t); simpl; [|done]. etransitivity; [exact Hput|]. auto with nexara.
Qed.

#[local] Opaque sent_by.

Lemma readLine_sent t c : sent_by c (readLine t c).2.
Proof. unfold readLine. go_cases; simpl; auto with nexara. Qed.

Lemma readReply_sent t c : sent_by c (readReply t c).2.
Proof. unfold readReply. destruct (readReply_loop _ _ _ _). simpl. auto with nexara. Qed.

Lemma list_loop_sent n t c query rows : sent_by c (list_loop n t c query rows).2.
Proof.
  revert c rows. induction n as [|n IH]; intros c rows; simpl; [auto with nexara|].
  pose proof (readLine_sent t c) as Hr. destruct (readLine t c) as [[line|e] c']; simpl in *.
  - destruct (splitLine line) as [toks|]; [destruct (framedBy toks _ _)|]; simpl; [done| |].
    + etransitivity; [exact Hr|apply IH].
    + etransitivity; [exact Hr|auto with nexara].
  - etransitivity; [exact Hr|auto with nexara].
Qed.

Lemma arm_None t c : arm t c = None → c_broken c = None.
Proof. unfold arm. by destruct (c_broken c). Qed.

(** Chain one step of the history after another. *)
Ltac sent_step H := etransitivity; [exact H|].

Lemma roundTrip_sent c verb args : sent_by c (roundTrip c verb args).2.
Proof.
  unfold roundTrip. pose proof (sent_by_turn c) as Ht.
  destruct (next_turn c) as [t c1]; simpl in Ht.
  destruct (arm t c1) eqn:Harm; [done|]. apply arm_None in Harm.
  pose proof (write_sent t c1 verb args Harm) as Hw.
  destruct (write t c1 verb args) as [[e|] c2]; simpl in Hw; [by sent_step Ht|].
  pose proof (readReply_sent t (arrive t c2)) as Hr.
  destruct (readReply t (arrive t c2)) as [r c3]; simpl in Hr.
  assert (sent_by c c3) as H.
  { sent_step Ht. sent_step Hw. etransitivity; [apply sent_by_buf|exact Hr]. }
  destruct r as [line|e].
  - by destruct (parseErr line).
  - destruct (is_cut e); [exact H|]. sent_step H. apply sent_by_broken.
Qed.

Lemma list_cmd_sent c args : sent_by c (list_cmd c args).2.
Proof.
  unfold list_cmd. pose proof (sent_by_turn c) as Ht.
  destruct (next_turn c) as [t c1]; simpl in Ht.
  destruct (arm t c1) eqn:Harm; [done|]. apply arm_None in Harm.
  pose proof (write_sent t c1 "LIST" args Harm) as Hw.
  destruct (write t c1 "LIST" args) as [[e|] c2]; simpl in Hw; [by sent_step Ht|].
  pose proof (readLine_sent t (arrive t c2)) as Hr.
  destruct (readLine t (arrive t c2)) as [r c3]; simpl in Hr.
  assert (sent_by c c3) as H.
  { sent_step Ht. sent_step Hw. etransitivity; [apply sent_by_buf|exact Hr]. }
  destruct r as [line|e]; [|sent_step H; apply sent_by_broken].
  destruct (parseErr line); [exact H|].
  destruct (match splitLine line with Some toks => framedBy toks "BEGIN" ("LIST" :: args) | None => false end).
  - sent_step H. apply list_loop_sent.
  - sent_step H. apply sent_by_broken.
Qed.

(** An operation that makes one exchange and then only looks at the answer. *)
Ltac one_exchange :=
  match goal with
  | |- context [roundTrip ?c ?v ?a] =>
      let H := fresh "H" in
      pose proof (roundTrip_sent c v a) as H; destruct (roundTrip c v a) as [[|] ?]; simpl in H
  | |- context [list_cmd ?c ?a] =>
      let H := fresh "H" in
      pose proof (list_cmd_sent c a) as H; destruct (list_cmd c a) as [[|] ?]; simpl in H
  end; simpl; try done.

Lemma setup_sent hs c cfg : sent_by c (setup hs c cfg).2.
Proof.
  unfold setup.
  assert (∀ c0, sent_by c0 (startTLS hs c0 cfg).2) as Htls.
  { intros c0. unfold startTLS. one_exchange; go_cases; simpl; done. }
  set (r1 := match cfg_TLS cfg with TLSStartTLS => _ | TLSOff => _ end).
  assert (sent_by c r1.2) as H1. { subst r1. destruct (cfg_TLS cfg); [done|apply Htls]. }
  clearbody r1. destruct r1 as [[|] c1]; simpl in *; [|done].
  set (r2 := if bool_decide (cfg_Username cfg = "") then _ else _).
  assert (sent_by c1 r2.2) as H2. { subst r2. case_bool_decide; [done|apply roundTrip_sent]. }
  clearbody r2. destruct r2 as [[|] c2]; simpl in *; [|by sent_step H1].
  set (r3 := if bool_decide (cfg_Password cfg = "") then _ else _).
  assert (sent_by c2 r3.2) as H3. { subst r3. case_bool_decide; [done|apply roundTrip_sent]. }
  clearbody r3. destruct r3 as [[|] c3]; simpl in *; (sent_step H1; by sent_step H2).
Qed.

Lemma change_sent c verb args : sent_by c (change c verb args).2.
Proof.
  unfold change. destruct (first_bad_word args); [reflexivity|].
  one_exchange. case_bool_decide; [done|]. by destruct (tracking_id _).
Qed.

Lemma on_rows_sent {A} c args (f : _ → result nut_err A) :
  sent_by c (on_rows (list_cmd c args) f).2.
Proof. unfold on_rows. by one_exchange. Qed.

Lemma client_step_sent c c' : client_step c c' → sent_by c c'.
Proof.
  destruct 1; try apply setup_sent; try apply on_rows_sent.
  - unfold Close. destruct (c_broken c); [auto with nexara|].
    etransitivity; [apply roundTrip_sent|apply sent_by_broken].
  - unfold Versions. one_exchange.
    + one_exchange; [by sent_step H|]. case_bool_decide; simpl; by sent_step H.
    + case_bool_decide; simpl; [done|].
      one_exchange; [by sent_step H|]. case_bool_decide; simpl; by sent_step H.
  - unfold VarDescription, describe. one_exchange; by go_cases.
  - unfold CommandDescription, describe. one_exchange; by go_cases.
  - unfold GetVar. one_exchange; by go_cases.
  - unfold VarType_of. one_exchange; by go_cases.
  - unfold SetTracking. one_exchange. by case_bool_decide.
  - unfold InstantCommand. destruct (CheckCommand _ _); [reflexivity|].
    case_bool_decide; apply change_sent.
  - unfold SetVar. destruct (CheckSetValue _ _); [reflexivity|]. apply change_sent.
  - unfold Tracking. one_exchange; by repeat (case_bool_decide; try done).
Qed.

Lemma history_sent c c' : rtc client_step c c' → sent_by c c'.
Proof.
  induction 1 as [|c1 c2 c3 H1 _ IH]; [reflexivity|].
  etransitivity; [by apply client_step_sent|exact IH].
Qed.

(** ** One line per command *)

Definition command_body (verb : string) (args : list string) : string :=
  verb +:+ foldr (λ a rest, String space (quoteArg a +:+ rest)) "" args.

Lemma command_line_body verb args :
  command_line verb args = command_body verb args +:+ String newline "".
Proof.
  unfold command_line, command_body. rewrite <-app_string_assoc. f_equal.
  induction args as [|a args IH]; [done|]. cbn [foldr].
  rewrite app_string_cons. f_equal. rewrite <-app_string_assoc. by f_equal.
Qed.

Lemma bytes_of_escape c a : c ∈ bytes_of (escape a) → c ∈ bytes_of a ∨ c = backslash.
Proof.
  induction a as [|x a IH]; simpl; [by left|].
  destruct (contains _ x); simpl; rewrite !elem_of_cons; naive_solver.
Qed.

Lemma bytes_of_quoteArg c a :
  c ∈ bytes_of (quoteArg a) → c ∈ bytes_of a ∨ c = backslash ∨ c = dquote.
Proof.
  unfold quoteArg. destruct (negb _ && negb _); [by left|]. cbn [String.list_ascii_of_string].
  rewrite bytes_of_app, elem_of_cons, elem_of_app. simpl.
  rewrite list_elem_of_singleton. intros [->|[H%bytes_of_escape| ->]]; naive_solver.
Qed.

(** Neither a line break nor a NUL gets into the line of a command. *)
Lemma command_body_no_break verb args :
  newline ∉ bytes_of verb → Forall (λ a, arg_breaks a = false) args →
  newline ∉ bytes_of (command_body verb args).
Proof.
  intros Hv Hargs. unfold command_body. rewrite bytes_of_app, elem_of_app.
  intros [?|H]; [done|]. induction Hargs as [|a args Ha _ IH]; cbn [foldr] in H.
  { by apply not_elem_of_nil in H. }
  cbn [String.list_ascii_of_string] in H.
  rewrite bytes_of_app, elem_of_cons, elem_of_app in H.
  destruct H as [?|[[H|[?|?]]%bytes_of_quoteArg|H]]; try done.
  unfold arg_breaks, ContainsAny in Ha. rewrite contains_func_false in Ha.
  by specialize (Ha _ H).
Qed.

Definition forbidden_verbs : list string := ["LOGIN"; "PRIMARY"; "MASTER"; "FSD"].

(** The verbs a connection may send are words of their own, and none of them is forbidden. *)
Lemma verb_allowed_word b verb :
  verb_allowed b verb = true →
  verb ≠ "" ∧ (∀ c, c ∈ bytes_of verb → plain c = true) ∧ (newline ∉ bytes_of verb) ∧
  (verb ∉ forbidden_verbs).
Proof.
  intros H.
  assert (contains (allowedVerbs ++ commandVerbs) verb = true) as Hin.
  { apply contains_spec, elem_of_app. unfold verb_allowed in H.
    apply orb_true_iff in H as [?%contains_spec|[_ ?%contains_spec]%andb_true_iff]; auto. }
  apply contains_spec in Hin.
  assert (forallb (λ v, negb (bool_decide (v = "")) && forallb plain (bytes_of v) &&
      negb (contains (bytes_of v) newline) && negb (contains forbidden_verbs v))
      (allowedVerbs ++ commandVerbs) = true) as Hall by done.
  rewrite forallb_elem_of in Hall. specialize (Hall verb Hin).
  apply andb_true_iff in Hall as [[[H1 H2]%andb_true_iff H3]%andb_true_iff H4].
  apply negb_true_iff in H1, H3, H4. apply contains_false in H3, H4.
  apply bool_decide_eq_false in H1. rewrite forallb_elem_of in H2. done.
Qed.

Lemma splitLine_command verb args :
  verb ≠ "" → (∀ c, c ∈ bytes_of verb → plain c = true) →
  splitLine (command_body verb args) = Some (verb :: args).
Proof.
  intros Hne Hp. unfold splitLine, command_body, split_init.
  rewrite split_run_app, split_run_plain, (bool_decide_false _ Hne) by done.
  destruct (split_run_args [] verb args) as (H1 & H2 & H3 & H4).
  simpl negb. simpl orb. rewrite app_string_nil_l, H1, H2, H3. simpl. by rewrite H4.
Qed.

(** ** Reading what the server sent *)

Lemma bytes_of_of_bytes l : bytes_of (of_bytes l) = l.
Proof. induction l; simpl; congruence. Qed.

Lemma srev_snoc l c : srev (l +:+ String c "") = String c (srev l).
Proof. unfold srev. by rewrite bytes_of_app, reverse_app. Qed.

Lemma TrimRight_newline l :
  TrimRight (l +:+ String newline "") [cr; newline] = TrimRight l [cr; newline].
Proof. unfold TrimRight. by rewrite srev_snoc. Qed.

Lemma index_func_newline line rest :
  newline ∉ bytes_of line →
  index_func (ascii_eqb newline) (line +:+ String newline rest) = Some (slen line).
Proof.
  induction line as [|c line IH]; intros Hn.
  { done. }
  rewrite app_string_cons. simpl in *. rewrite not_elem_of_cons in Hn.
  rewrite (proj2 (ascii_eqb_neq newline c)) by naive_solver. rewrite IH; naive_solver.
Qed.

Lemma stake_app a b : stake (slen a) (a +:+ b) = a.
Proof.
  induction a as [|c a IH]; [by destruct b|]. rewrite app_string_cons. simpl. by rewrite IH.
Qed.

Lemma sdrop_app a b : sdrop (slen a) (a +:+ b) = b.
Proof. induction a as [|c a IH]; [by destruct b|]. rewrite app_string_cons. simpl. by rewrite IH. Qed.

(** A reply line as upsd sends it: no line break, no NUL, no carriage return at its end. *)
Definition reply_line (l : string) : Prop :=
  (newline ∉ bytes_of l) ∧ (nul ∉ bytes_of l) ∧ TrimRight l [cr; newline] = l.

#[export] Instance reply_line_dec l : Decision (reply_line l).
Proof. unfold reply_line. apply _. Defined.

Lemma cleanLine_reply l : reply_line l → cleanLine l = Ok l.
Proof.
  intros (_ & Hnul & Htrim). unfold cleanLine. rewrite Htrim.
  rewrite (proj2 (contains_func_false _ _)); [done|].
  intros c Hc. apply ascii_eqb_neq. by intros <-.
Qed.

Lemma readLine_reply t c line rest :
  c_buf c = line +:+ String newline rest → reply_line line → slen line < maxLineBytes →
  readLine t c = (Ok line, with_buf c rest).
Proof.
  intros Hbuf Hl Hlen. unfold readLine. rewrite Hbuf, index_func_newline by apply Hl.
  rewrite (proj2 (Nat.ltb_lt _ _) Hlen).
  replace (String newline rest) with (String newline "" +:+ rest) by done.
  rewrite app_string_assoc.
  replace (S (slen line)) with (slen (line +:+ String newline "")) by (rewrite slen_app; simpl; lia).
  rewrite stake_app, sdrop_app. f_equal. pose proof (cleanLine_reply _ Hl) as Hc.
  unfold cleanLine in *. by rewrite TrimRight_newline.
Qed.

Lemma readReply_loop_reply n pre line rest e :
  newline ∉ bytes_of line → slen line < n →
  readReply_loop n pre (line +:+ String newline rest) e = (cleanLine (pre +:+ line), rest).
Proof.
  revert pre line. induction n as [|n IH]; intros pre [|b line] Hn Hlen; simpl in Hlen; try lia.
  - rewrite app_string_nil_l, app_string_nil_r. done.
  - rewrite app_string_cons. simpl in *. rewrite not_elem_of_cons in Hn.
    rewrite (proj2 (ascii_eqb_neq b newline)) by naive_solver.
    rewrite IH by (naive_solver lia). by rewrite <-app_string_assoc.
Qed.

(** The rows of a listing, up to the line that closes it. *)
Lemma list_loop_rows t query lines rows0 n c close rest :
  c_buf c = foldr (λ l s, l.1 +:+ String newline s) (close +:+ String newline rest) lines →
  Forall (λ l, reply_line l.1 ∧ slen l.1 < maxLineBytes ∧ splitLine l.1 = Some l.2 ∧
               l.2 ≠ "END" :: query) lines →
  reply_line close → slen close < maxLineBytes → splitLine close = Some ("END" :: query) →
  length lines < n →
  list_loop n t c query rows0 = (Ok (rows0 ++ lines.*2), with_buf c rest).
Proof.
  revert rows0 n c. induction lines as [|[l row] lines IH];
    intros rows0 [|n] c Hbuf Hlines Hc Hclen Hcs Hn; simpl in Hn; try lia; cbn [list_loop].
  - rewrite (readLine_reply t c close rest) by done. rewrite Hcs. unfold framedBy.
    rewrite bool_decide_true by done. by rewrite app_nil_r.
  - apply Forall_cons in Hlines as [(Hl & Hlen & Hs & Hne) Hlines]. simpl in *.
    rewrite (readLine_reply t c l _ Hbuf Hl Hlen), Hs. unfold framedBy.
    rewrite bool_decide_false by done.
    rewrite (IH (rows0 ++ [row]) n (with_buf c _)); try done; [|lia].
    by rewrite <-(assoc_L (++)).
Qed.

(** A world whose next turn lets the command through and delivers [s]. *)
Definition good_turn (t : turn) : Prop :=
  t_ctx_start t = None ∧ t_write t = None ∧ t_ctx_end t = None.

(** The connection after a command that went through, with [rest] still unread. *)
Definition after_command (c : Client) (line rest : string) (world : list turn) : Client :=
  {| c_wire := c_wire c ++ [line]; c_buf := rest; c_broken := c_broken c;
     c_commands := c_commands c; c_world := world |}.

(** The connection once the next turn has been taken from the world. *)
Definition with_world (c : Client) (world : list turn) : Client :=
  {| c_wire := c_wire c; c_buf := c_buf c; c_broken := c_broken c;
     c_commands := c_commands c; c_world := world |}.

Lemma next_turn_cons c t world :
  c_world c = t :: world → next_turn c = (t, with_world c world).
Proof. unfold next_turn. by intros ->. Qed.

Lemma arm_good t c : good_turn t → c_broken c = None → arm t c = None.
Proof. unfold arm. intros (-> & _ & _) ->. done. Qed.

Lemma write_through t c verb args :
  good_turn t → verb_allowed (c_commands c) verb = true →
  Forall (λ a, arg_breaks a = false) args →
  write t c verb args = (None, put_line c (command_line verb args)).
Proof.
  intros (_ & Hw & _) Hv Ha. unfold write. rewrite verb_test, Hv. simpl.
  rewrite (proj2 (existsb_false _ _)); [by rewrite Hw|]. by apply Forall_forall.
Qed.

(** ** Properties *)

(** C34: over any history of a connection (setup, listings, descriptions, commands, settings,
    close, in any order, whatever the server and the network do), each line handed to the socket
    is one command: it ends in its only line break, its words are read back as the verb and the
    arguments that were given, the verb is one the connection may send (INSTCMD and SET only when
    it was dialled with commands), and it is never LOGIN, PRIMARY, MASTER or FSD. *)
Theorem wire_safety b world c l :
  rtc client_step (new_client b world) c → l ∈ c_wire c →
  ∃ verb args body, l = body +:+ String newline "" ∧ (newline ∉ bytes_of body) ∧
    splitLine body = Some (verb :: args) ∧ verb_allowed b verb = true ∧
    (verb ∉ forbidden_verbs).
Proof.
  intros (_ & ls & Hw & Hok & _)%history_sent Hl. simpl in *. subst ls.
  rewrite Forall_forall in Hok. destruct (Hok l Hl) as (verb & args & -> & Hv & Ha).
  destruct (verb_allowed_word b verb Hv) as (Hne & Hp & Hnl & Hf).
  exists verb, args, (command_body verb args). rewrite command_line_body.
  split_and!; try done; [by apply command_body_no_break|by apply splitLine_command].
Qed.

Definition ok_turn (s : string) : turn :=
  {| t_ctx_start := None; t_write := None; t_arrive := s; t_read_end := IOTimeout;
     t_ctx_end := None |}.

Definition reply_of (l : string) : string := l +:+ String newline "".

Lemma wire_safety_witness :
  let c := (InstantCommand (new_client true [ok_turn (reply_of "OK")]) "ups1" "load.off" "10").2 in
  ∃ verb args body,
    "INSTCMD ups1 load.off 10" +:+ String newline "" = body +:+ String newline "" ∧
    (newline ∉ bytes_of body) ∧
    splitLine body = Some (verb :: args) ∧ verb_allowed true verb = true ∧
    (verb ∉ forbidden_verbs).
Proof.
  intros c. apply (wire_safety true [ok_turn (reply_of "OK")] c).
  - apply rtc_once. constructor.
  - vm_compute. left.
Defined.

(** A connection an error left out of step says nothing more: once it is marked broken,
    no operation in any later history writes a line, and the mark stays. *)
Theorem broken_is_silent c c' :
  is_Some (c_broken c) → rtc client_step c c' →
  c_wire c' = c_wire c ∧ is_Some (c_broken c').
Proof.
  intros Hb (_ & ls & Hw & _ & Hq)%history_sent.
  destruct (Hq Hb) as [-> ?]. by rewrite Hw, app_nil_r.
Qed.

Lemma broken_is_silent_witness :
  let c := (ListUPS (new_client false [])).2 in
  let c' := (GetVar c "ups1" "battery.charge").2 in
  c_wire c' = ["LIST UPS" +:+ String newline ""] ∧ is_Some (c_broken c').
Proof.
  intros c c'. destruct (broken_is_silent c c') as [H1 H2].
  - vm_compute. by eexists.
  - apply rtc_once. constructor.
  - split; [rewrite H1; by vm_compute|exact H2].
Defined.

(** A one-line reply is read back as it was sent, up to the newline and no further: the
    command succeeds with that line, or fails with the protocol error it spells, and either way
    the connection stays usable with the bytes after the line still unread. *)
Theorem roundTrip_reply c t world verb args line rest :
  c_world c = t :: world → c_broken c = None → good_turn t →
  verb_allowed (c_commands c) verb = true → Forall (λ a, arg_breaks a = false) args →
  c_buf c +:+ t_arrive t = line +:+ String newline rest → reply_line line →
  slen line < upsdReplyCap →
  roundTrip c verb args =
    (match parseErr line with Some pe => Err (ErrProtocol pe) | None => Ok line end,
     after_command c (command_line verb args) rest world).
Proof.
  intros Hworld Hb Ht Hv Ha Hbuf Hl Hlen. unfold roundTrip.
  rewrite (next_turn_cons _ _ _ Hworld), arm_good, write_through by done.
  unfold readReply, arrive, with_buf, put_line, with_world.
  cbn [c_buf c_wire c_broken c_commands c_world].
  rewrite Hbuf, readReply_loop_reply by (apply Hl || done).
  rewrite app_string_nil_l, cleanLine_reply by done.
  unfold after_command. rewrite Hb. by destruct (parseErr line).
Qed.

Lemma roundTrip_reply_witness :
  roundTrip (new_client false [ok_turn (reply_of "VAR ups1 ups.load 12")]) "GET" ["VAR"; "ups1"; "ups.load"]
  = (Ok "VAR ups1 ups.load 12",
     after_command (new_client false []) ("GET VAR ups1 ups.load" +:+ String newline "") "" []).
Proof.
  rewrite (roundTrip_reply (new_client false [ok_turn (reply_of "VAR ups1 ups.load 12")])
    (ok_turn (reply_of "VAR ups1 ups.load 12")) [] "GET" ["VAR"; "ups1"; "ups.load"]
    "VAR ups1 ups.load 12" "").
  all: try done.
  - repeat constructor.
  - apply (bool_decide_unpack _). by vm_compute.
  - vm_compute. lia.
Defined.

(** A listing is read back exactly: when the server answers LIST with its BEGIN line, rows
    that split into [rows] and its END line, and there are fewer than 4096 of them, the client
    returns those rows in order, and the connection is left right after the END line. *)
Theorem list_cmd_rows c t world args open lines close rest :
  c_world c = t :: world → c_broken c = None → good_turn t →
  Forall (λ a, arg_breaks a = false) args →
  c_buf c +:+ t_arrive t = open +:+ String newline
    (foldr (λ l s, l.1 +:+ String newline s) (close +:+ String newline rest) lines) →
  Forall reply_line (open :: close :: lines.*1) →
  Forall (λ l, slen l < maxLineBytes) (open :: close :: lines.*1) →
  parseErr open = None →
  splitLine open = Some ("BEGIN" :: "LIST" :: args) →
  splitLine close = Some ("END" :: "LIST" :: args) →
  Forall (λ l, splitLine l.1 = Some l.2 ∧ l.2 ≠ "END" :: "LIST" :: args) lines →
  length lines < maxListLines →
  list_cmd c args = (Ok lines.*2, after_command c (command_line "LIST" args) rest world).
Proof.
  intros Hworld Hb Ht Ha Hbuf Hr Hlen Hpe Ho Hcl Hrows Hn.
  apply Forall_cons in Hr as [Hro [Hrc Hrl]%Forall_cons].
  apply Forall_cons in Hlen as [Hlo [Hlc Hll]%Forall_cons].
  unfold list_cmd. rewrite (next_turn_cons _ _ _ Hworld), arm_good, write_through by done.
  rewrite (readLine_reply t (arrive t (put_line (with_world c world) (command_line "LIST" args)))
    open _ Hbuf Hro Hlo), Hpe, Ho. unfold framedBy at 1.
  rewrite bool_decide_true by done.
  erewrite list_loop_rows; [|reflexivity| |done..].
  - done.
  - apply Forall_forall. intros l Hin. rewrite Forall_forall in Hrows.
    rewrite !Forall_fmap, !Forall_forall in Hrl, Hll. specialize (Hrl l Hin).
    specialize (Hll l Hin). specialize (Hrows l Hin). naive_solver.
Qed.

Lemma list_cmd_rows_witness :
  let lines := [("VAR ups1 ups.load 12", ["VAR"; "ups1"; "ups.load"; "12"]);
                ("VAR ups1 ups.status OL", ["VAR"; "ups1"; "ups.status"; "OL"])] in
  let sent := reply_of "BEGIN LIST VAR ups1" +:+
    foldr (λ l s, l.1 +:+ String newline s) (reply_of "END LIST VAR ups1") lines in
  list_cmd (new_client false [ok_turn sent]) ["VAR"; "ups1"] =
    (Ok lines.*2, after_command (new_client false []) (command_line "LIST" ["VAR"; "ups1"]) "" []).
Proof.
  intros lines sent.
  rewrite (list_cmd_rows (new_client false [ok_turn sent]) (ok_turn sent) [] ["VAR"; "ups1"]
    "BEGIN LIST VAR ups1" lines "END LIST VAR ups1" "").
  all: try (apply (bool_decide_unpack _); by vm_compute).
  all: done.
Defined.
