(* ===== verification/UpsControl.v ===== *)
(** * Gating UPS commands and settings

    Models [internal/upscontrol] (tier.go, upscontrol.go, validate.go): how
    much an instant command can disturb what a UPS powers, what a person has to
    confirm before it runs, and which values a variable may be set to. *)

From S2P Require Import Prelude GoStrings NutProtocol NutClient NutOps.

(** ** Tiers *)

Inductive Tier := TierEveryday | TierTest | TierPowersOn | TierDriver | TierCutsPower.

#[export] Instance Tier_eq_dec : EqDecision Tier.
Proof. solve_decision. Defined.

Definition star : ascii := Ascii.ascii_of_nat 42.
Definition slash : ascii := Ascii.ascii_of_nat 47.

(** [path.Match] on patterns of literals and stars: a star spans any run of bytes but "/". *)
Fixpoint glob (p : string) : string → bool :=
  match p with
  | EmptyString => λ s, bool_decide (s = "")
  | String a p =>
      if ascii_eqb a star then
        fix span (s : string) : bool :=
          glob p s ||
          match s with
          | EmptyString => false
          | String b s => negb (ascii_eqb b slash) && span s
          end
      else λ s, match s with
                | EmptyString => false
                | String b s => ascii_eqb a b && glob p s
                end
  end.

Definition tierRules : list (string * Tier) :=
  [("*.stop", TierEveryday); ("beeper.*", TierEveryday); ("test.panel.*", TierEveryday);
   ("test.battery.*", TierTest); ("calibrate.*", TierTest);
   ("load.on*", TierPowersOn); ("outlet.*.load.on*", TierPowersOn);
   ("driver.reload*", TierDriver)].

Definition IsStop (cmd : string) : bool := glob "*.stop" cmd.

Fixpoint first_tier (rules : list (string * Tier)) (cmd : string) : Tier :=
  match rules with
  | [] => TierCutsPower
  | (pattern, tier) :: rules => if glob pattern cmd then tier else first_tier rules cmd
  end.

Definition CommandTier (cmd : string) : Tier := first_tier tierRules cmd.

Inductive Confirm := ConfirmNone | ConfirmPlain | ConfirmTyped.

#[export] Instance Confirm_eq_dec : EqDecision Confirm.
Proof. solve_decision. Defined.

Definition CommandConfirm (cmd : string) : Confirm :=
  match CommandTier cmd with
  | TierEveryday => ConfirmNone
  | TierCutsPower => ConfirmTyped
  | _ => ConfirmPlain
  end.

(** ** Variables *)

Definition harmlessVars : list string :=
  ["device.contact"; "device.description"; "device.location"; "ups.id";
   "battery.date"; "battery.mfr.date"; "ups.beeper.status"; "driver.debug"].

Definition VarAffectsPower (name : string) : bool := negb (contains harmlessVars name).

Definition VarConfirm (name : string) : Confirm :=
  if bool_decide (name = "driver.flag.allow_killpower") then ConfirmTyped
  else if VarAffectsPower name then ConfirmPlain
  else ConfirmNone.

(** The type a variable was read to have; [TypeUnread] is the empty string. *)
Inductive VarKind := TypeUnread | TypeString | TypeNumber | TypeEnum | TypeRange.

#[export] Instance VarKind_eq_dec : EqDecision VarKind.
Proof. solve_decision. Defined.

Record Var := {
  v_Type : VarKind;
  v_MaxLen : Z;
  v_Enum : list string;
  v_Ranges : list (Z * Z);
}.

Definition FromType (t : VarType) (enum : list string) (ranges : list Range) : Var :=
  if vt_Enum t then
    {| v_Type := TypeEnum; v_MaxLen := vt_MaxLen t; v_Enum := enum; v_Ranges := [] |}
  else if vt_Range t then
    {| v_Type := TypeRange; v_MaxLen := vt_MaxLen t; v_Enum := [];
       v_Ranges := map (λ r, (r_Min r, r_Max r)) ranges |}
  else if (0 <? vt_MaxLen t)%Z then
    {| v_Type := TypeString; v_MaxLen := vt_MaxLen t; v_Enum := []; v_Ranges := [] |}
  else
    {| v_Type := TypeNumber; v_MaxLen := vt_MaxLen t; v_Enum := []; v_Ranges := [] |}.

Definition Editable (v : Var) : bool :=
  match v_Type v with
  | TypeUnread => false
  | TypeEnum => Nat.leb 2 (length (v_Enum v))
  | _ => true
  end.

(** C's [atoi], as upsd checks a RANGE: leading digits after optional space and sign. *)
Fixpoint digits_prefix (s : string) : string :=
  match s with
  | String c s' => if Nat.leb 48 (byte_val c) && Nat.leb (byte_val c) 57
                   then String c (digits_prefix s') else ""
  | EmptyString => ""
  end.

Definition atoi (v : string) : Z :=
  let v := TrimLeft v [space; tab; newline; Ascii.ascii_of_nat 11; Ascii.ascii_of_nat 12; cr] in
  let head :=
    match v with
    | String c v' => if ascii_eqb c "-" || ascii_eqb c "+"
                     then String c (digits_prefix v') else digits_prefix v
    | EmptyString => ""
    end in
  (Atoi head).1.

Inductive validate_err :=
| ErrNotEditable
| ErrCheck (e : nut_err)
| ErrTooLong
| ErrNotListed
| ErrOutsideRanges.

Definition Validate (v : Var) (name value : string) : option validate_err :=
  if negb (Editable v) then Some ErrNotEditable
  else match CheckSetValue name value with
       | Some e => Some (ErrCheck e)
       | None =>
           if (0 <? v_MaxLen v)%Z && (v_MaxLen v <? Z.of_nat (slen value))%Z then Some ErrTooLong
           else match v_Type v with
                | TypeEnum => if contains (v_Enum v) value then None else Some ErrNotListed
                | TypeRange =>
                    let n := atoi value in
                    if existsb (λ r : Z * Z, (r.1 <=? n)%Z && (n <=? r.2)%Z) (v_Ranges v)
                    then None else Some ErrOutsideRanges
                | _ => None
                end
       end.

(** ** Lemmas *)

Lemma glob_star p s :
  glob (String star p) s =
  glob p s || match s with
              | EmptyString => false
              | String b s' => negb (ascii_eqb b slash) && glob (String star p) s'
              end.
Proof. by destruct s. Qed.

Lemma glob_literal p s : star ∉ bytes_of p → glob p s = bool_decide (s = p).
Proof.
  revert s. induction p as [|a p IH]; intros s Hn; [done|].
  cbn [String.list_ascii_of_string] in Hn. rewrite not_elem_of_cons in Hn. simpl.
  rewrite (proj2 (ascii_eqb_neq a star)) by naive_solver.
  destruct s as [|b s]; [done|]. rewrite IH by naive_solver.
  destruct (ascii_eqb a b) eqn:E; simpl.
  - apply ascii_eqb_eq in E as ->. apply bool_decide_ext. naive_solver.
  - apply ascii_eqb_neq in E. symmetry. apply bool_decide_eq_false. naive_solver.
Qed.

(** A star before a literal tail matches what ends in that tail. *)
Lemma glob_star_suffix p s :
  star ∉ bytes_of p →
  glob (String star p) s = true ↔ ∃ pre, s = pre +:+ p ∧ slash ∉ bytes_of pre.
Proof.
  intros Hp. induction s as [|b s IH]; rewrite glob_star, glob_literal by done.
  - rewrite orb_false_r, bool_decide_eq_true. split.
    + intros <-. exists "". split; [done|]. simpl. apply not_elem_of_nil.
    + intros ([|c pre] & Heq & _); [by rewrite app_string_nil_l in Heq|done].
  - rewrite orb_true_iff, andb_true_iff, negb_true_iff, ascii_eqb_neq, bool_decide_eq_true, IH.
    split.
    + intros [<-|(Hb & pre & -> & Hs)].
      * exists "". split; [done|]. simpl. apply not_elem_of_nil.
      * exists (String b pre). split; [done|]. simpl. by apply not_elem_of_cons.
    + intros ([|c pre] & Heq & Hs).
      * left. by rewrite app_string_nil_l in Heq.
      * right. rewrite app_string_cons in Heq. simplify_eq. simpl in Hs.
        apply not_elem_of_cons in Hs. naive_solver.
Qed.

(** ** Properties *)

(** Which commands need what. Anything that stops something, such as a shutdown in progress,
    is everyday and runs unconfirmed, whatever else its name says; a command needs the UPS's name
    typed exactly when no rule of the table recognises it, so an unknown command counts as cutting
    power; and every command of the cuts-power tier is typed. *)
Theorem command_gate cmd :
  (IsStop cmd = true ↔ ∃ pre, cmd = pre +:+ ".stop" ∧ slash ∉ bytes_of pre) ∧
  (IsStop cmd = true → CommandTier cmd = TierEveryday ∧ CommandConfirm cmd = ConfirmNone) ∧
  (CommandConfirm cmd = ConfirmTyped ↔ ∀ r, r ∈ tierRules → glob r.1 cmd = false) ∧
  (CommandTier cmd = TierCutsPower ↔ CommandConfirm cmd = ConfirmTyped).
Proof.
  split.
  { apply glob_star_suffix. apply contains_false. by vm_compute. }
  assert (CommandConfirm cmd = ConfirmTyped ↔ CommandTier cmd = TierCutsPower) as Hct.
  { unfold CommandConfirm. by destruct (CommandTier cmd). }
  split.
  { unfold IsStop, CommandConfirm, CommandTier. unfold tierRules. cbn [first_tier].
    intros ->. done. }
  split; [|by rewrite Hct].
  rewrite Hct. unfold CommandTier.
  assert (Forall (λ r, r.2 ≠ TierCutsPower) tierRules) as Hnc by by repeat constructor.
  induction Hnc as [|[p tier] rules Ht _ IH]; cbn [first_tier fst snd] in *.
  { split; [|done]. intros _ r Hr. by apply not_elem_of_nil in Hr. }
  setoid_rewrite elem_of_cons. destruct (glob p cmd) eqn:Hg.
  - split; [done|]. intros Hall. specialize (Hall (p, tier) (or_introl eq_refl)).
    simpl in Hall. congruence.
  - rewrite IH. split; [|naive_solver]. intros Hall r [->|Hr]; [done|by apply Hall].
Qed.

(** A value [Validate] accepts is one the whole path will take: the variable is offered for
    editing, the connection's own check passes (so [SetVar] does write it), it is no longer than
    upsd's limit, an enumerated variable lists it, and a ranged one has a range holding the number
    upsd will read in it. *)
Theorem Validate_sound v name value :
  Validate v name value = None →
  Editable v = true ∧ CheckSetValue name value = None ∧
  ((0 < v_MaxLen v)%Z → (Z.of_nat (slen value) ≤ v_MaxLen v)%Z) ∧
  (v_Type v = TypeEnum → value ∈ v_Enum v ∧ 2 ≤ length (v_Enum v)) ∧
  (v_Type v = TypeRange → ∃ lo hi, (lo, hi) ∈ v_Ranges v ∧ (lo ≤ atoi value ≤ hi)%Z).
Proof.
  unfold Validate. destruct (Editable v) eqn:He; [|done]. simpl.
  destruct (CheckSetValue name value); [done|].
  destruct ((0 <? v_MaxLen v)%Z && (v_MaxLen v <? Z.of_nat (slen value))%Z) eqn:Hlen; [done|].
  intros Hty. split_and!; [done..| | |].
  - intros Hm. apply andb_false_iff in Hlen as [?%Z.ltb_ge|?%Z.ltb_ge]; lia.
  - intros Hk. rewrite Hk in Hty. unfold Editable in He. rewrite Hk in He.
    destruct (contains (v_Enum v) value) eqn:Hin; [|done].
    apply contains_spec in Hin. by apply Nat.leb_le in He.
  - intros Hk. rewrite Hk in Hty. destruct (existsb _ (v_Ranges v)) eqn:Hex; [|done].
    apply existsb_elem_of in Hex as ([lo hi] & Hr & Hb). simpl in Hb. to_prop. eauto.
Qed.

Lemma Validate_sound_witness :
  let v := FromType {| vt_Writable := true; vt_Enum := false; vt_Range := true; vt_MaxLen := 0;
                       vt_Number := true |} [] [{| r_Min := 10; r_Max := 60 |}] in
  Validate v "battery.charge.low" "12.7" = None ∧
  ∃ lo hi, (lo, hi) ∈ v_Ranges v ∧ (lo ≤ atoi "12.7" ≤ hi)%Z.
Proof.
  intros v. split; [by vm_compute|].
  apply (Validate_sound v "battery.charge.low" "12.7"); by vm_compute.
Defined.
