(* ===== verification/UpsFeed.v ===== *)
(** * Which node a upsmon login comes from, and whether a node is protected

    Models [internal/upsfeed/upsfeed.go]. Addresses are [netip.Addr] values;
    their parser is the standard library's and is a parameter. A cluster is
    named by its id. *)

From S2P Require Import Prelude GoStrings.

(** [netip.Addr]: the zero Addr, an IPv4 address, or an IPv6 address with its zone. *)
Inductive Addr :=
| AddrZero
| AddrV4 (ip : Z)
| AddrV6 (ip : Z) (zone : string).

#[export] Instance Addr_eq_dec : EqDecision Addr.
Proof. solve_decision. Defined.

#[export] Instance Addr_countable : Countable Addr.
Proof.
  refine (inj_countable'
    (λ a, match a with
          | AddrZero => inl ()
          | AddrV4 ip => inr (inl ip)
          | AddrV6 ip z => inr (inr (ip, z))
          end)
    (λ x, match x with
          | inl _ => AddrZero
          | inr (inl ip) => AddrV4 ip
          | inr (inr (ip, z)) => AddrV6 ip z
          end) _).
  by intros [].
Defined.

(** ::ffff:0:0/96 *)
Definition v4_mapped (ip : Z) : bool := (Z.shiftr ip 32 =? 65535)%Z.

Definition Unmap (a : Addr) : Addr :=
  match a with
  | AddrV6 ip _ => if v4_mapped ip then AddrV4 (Z.land ip (2 ^ 32 - 1)) else a
  | _ => a
  end.

Definition drop_zone (a : Addr) : Addr :=
  match a with AddrV6 ip _ => AddrV6 ip "" | _ => a end.

Definition Canonical (a : Addr) : Addr := drop_zone (Unmap a).

Definition IsLoopback (a : Addr) : bool :=
  match Unmap a with
  | AddrV4 ip => (Z.shiftr ip 24 =? 127)%Z
  | AddrV6 ip _ => (ip =? 1)%Z
  | AddrZero => false
  end.

Definition IsValid (a : Addr) : bool := match a with AddrZero => false | _ => true end.

(** ** Nodes *)

Record Node := { n_Cluster : Z; n_Name : string }.

#[export] Instance Node_eq_dec : EqDecision Node.
Proof. solve_decision. Defined.

#[export] Instance Node_countable : Countable Node.
Proof.
  refine (inj_countable' (λ n, (n_Cluster n, n_Name n))
    (λ p, {| n_Cluster := p.1; n_Name := p.2 |}) _).
  by intros [].
Defined.

(** A stored host node: [None] when either column is NULL. *)
Definition HostNode (cluster : option Z) (name : option string) : option Node :=
  match cluster, name with
  | Some c, Some n => Some {| n_Cluster := c; n_Name := n |}
  | _, _ => None
  end.

Record Nodes := { byAddr : gmap Addr Node; known : gset Node }.

(** One row of ListNodeLoginAddresses. *)
Record login_row := { lr_Address : string; lr_ClusterID : Z; lr_NodeName : string }.

Definition row_node (r : login_row) : Node :=
  {| n_Cluster := lr_ClusterID r; n_Name := lr_NodeName r |}.

Section nodes.
Context (ParseAddr : string → option Addr).

Definition row_addr (r : login_row) : option Addr :=
  Canonical <$> ParseAddr (TrimSpace (lr_Address r)).

(** The first loop: the last row of an address wins, and an address two nodes
    use is marked shared. *)
Fixpoint collect (rows : list login_row) (m : gmap Addr Node) (shared : gset Addr) :
    gmap Addr Node * gset Addr :=
  match rows with
  | [] => (m, shared)
  | r :: rows =>
      match row_addr r with
      | None => collect rows m shared
      | Some a =>
          let n := row_node r in
          let shared := match m !! a with
                        | Some prev => if bool_decide (prev ≠ n) then {[a]} ∪ shared else shared
                        | None => shared
                        end in
          collect rows (<[a := n]> m) shared
      end
  end.

(** The second loop, over the map in the order the runtime picks. *)
Fixpoint settle (entries : list (Addr * Node)) (shared : gset Addr) (m : gmap Addr Node)
    (known : gset Node) : gmap Addr Node * gset Node :=
  match entries with
  | [] => (m, known)
  | (a, n) :: entries =>
      if bool_decide (a ∈ shared) then settle entries shared (delete a m) known
      else settle entries shared m ({[n]} ∪ known)
  end.

Context `{MR : MapRange}.

Definition NewNodes (rows : list login_row) : Nodes :=
  let '(m, shared) := collect rows ∅ ∅ in
  let '(m', known) := settle (go_range m) shared m ∅ in
  {| byAddr := m'; known := known |}.
End nodes.

Definition Login (n : Nodes) (addr : Addr) (host : option Node) : option Node :=
  let addr := Canonical addr in
  if IsLoopback addr then host else byAddr n !! addr.

Definition Host (n : Nodes) (remote : Addr) : option Node :=
  let remote := Canonical remote in
  if negb (IsValid remote) || IsLoopback remote then None else byAddr n !! remote.

(** ** Verdicts *)

Inductive Verdict := Protected | NotProtected | Elsewhere | Offline | Unchecked.

#[export] Instance Verdict_eq_dec : EqDecision Verdict.
Proof. solve_decision. Defined.

Definition MissedLimit : Z := 2.

Record login := { l_Addr : Addr; l_Missed : Z }.

Fixpoint find_login (logins : list login) (nodes : Nodes) (host : option Node) (node : Node) :
    option Addr :=
  match logins with
  | [] => None
  | l :: logins =>
      if (MissedLimit <=? l_Missed l)%Z then find_login logins nodes host node
      else if bool_decide (Login nodes (l_Addr l) host = Some node)
      then Some (Canonical (l_Addr l))
      else find_login logins nodes host node
  end.

Definition Judge (node : Node) (elsewhere : bool) (status : string) (listed : bool)
    (logins : list login) (nodes : Nodes) (host : option Node) : Verdict * Addr :=
  let isHost := bool_decide (host = Some node) in
  if elsewhere then (Elsewhere, AddrZero)
  else if bool_decide (status = "offline") then (Offline, AddrZero)
  else if negb (bool_decide (status = "online")) || negb listed ||
          (negb (bool_decide (node ∈ known nodes)) && negb isHost) then (Unchecked, AddrZero)
  else match find_login logins nodes host node with
       | Some a => (Protected, a)
       | None => (NotProtected, AddrZero)
       end.

(** ** Lemmas *)

Section nodes_lemmas.
Context (ParseAddr : string → option Addr) `{MR : MapRange}.

(** The rows seen so far, as what the map and the shared set say of them. *)
Definition collected (rows : list login_row) (m : gmap Addr Node) (shared : gset Addr) : Prop :=
  (∀ a, is_Some (m !! a) ↔ ∃ r, r ∈ rows ∧ row_addr ParseAddr r = Some a) ∧
  (∀ a n, m !! a = Some n → ∃ r, r ∈ rows ∧ row_addr ParseAddr r = Some a ∧ row_node r = n) ∧
  (∀ a n, m !! a = Some n → a ∉ shared →
     ∀ r, r ∈ rows → row_addr ParseAddr r = Some a → row_node r = n) ∧
  (∀ a, a ∈ shared → ∃ r1 r2, r1 ∈ rows ∧ r2 ∈ rows ∧ row_addr ParseAddr r1 = Some a ∧
     row_addr ParseAddr r2 = Some a ∧ row_node r1 ≠ row_node r2).

Lemma collect_collected rows done m shared :
  collected done m shared →
  collected (done ++ rows) (collect ParseAddr rows m shared).1
                           (collect ParseAddr rows m shared).2.
Proof.
  revert done m shared. induction rows as [|r rows IH]; intros dn m shared Hc; simpl.
  { by rewrite app_nil_r. }
  rewrite cons_middle, (assoc_L (++)). destruct (row_addr ParseAddr r) as [a|] eqn:Ha.
  - apply IH. destruct Hc as (H1 & H2 & H3 & H4).
    set (n := row_node r).
    set (shared' := match m !! a with Some prev => _ | None => _ end).
    assert (∀ x, x ≠ a → x ∈ shared' ↔ x ∈ shared) as Hsh.
    { intros x Hx. subst shared'. destruct (m !! a); [|done]. case_bool_decide; set_solver. }
    split_and!.
    + intros x. setoid_rewrite elem_of_app. setoid_rewrite list_elem_of_singleton.
      destruct (decide (x = a)) as [->|Hx].
      * rewrite lookup_insert_eq. split; [eauto|by eexists].
      * rewrite lookup_insert_ne, H1 by done. naive_solver.
    + intros x k. setoid_rewrite elem_of_app. setoid_rewrite list_elem_of_singleton.
      destruct (decide (x = a)) as [->|Hx].
      * rewrite lookup_insert_eq. intros [= <-]. eauto.
      * rewrite lookup_insert_ne by done. intros (r' & ? & ? & ?)%H2. eauto.
    + intros x k Hk Hns r'. rewrite elem_of_app, list_elem_of_singleton.
      destruct (decide (x = a)) as [->|Hx].
      * rewrite lookup_insert_eq in Hk. simplify_eq. intros [Hr'| ->] Hr'a; [|done].
        subst shared'. destruct (proj2 (H1 a)) as [prev Hprev]; [eauto|].
        rewrite Hprev in Hns. case_bool_decide as Hd; [set_solver|].
        subst prev. by eapply H3.
      * rewrite lookup_insert_ne in Hk by done. rewrite Hsh in Hns by done.
        intros [Hr'| ->] Hr'a; [by eapply H3|congruence].
    + assert (∀ x, x ∈ shared → ∃ r1 r2, r1 ∈ dn ++ [r] ∧ r2 ∈ dn ++ [r] ∧
        row_addr ParseAddr r1 = Some x ∧ row_addr ParseAddr r2 = Some x ∧
        row_node r1 ≠ row_node r2) as Hold.
      { intros x (r1 & r2 & ? & ? & ? & ? & ?)%H4. exists r1, r2. rewrite !elem_of_app. tauto. }
      intros x Hx. destruct (decide (x = a)) as [->|Hne]; [|by apply Hold, Hsh].
      subst shared'. destruct (m !! a) as [prev|] eqn:Hprev; [|by apply Hold].
      case_bool_decide as Hd; [|by apply Hold].
      destruct (H2 _ _ Hprev) as (r' & ? & ? & ?). exists r', r.
      rewrite !elem_of_app, !list_elem_of_singleton. split_and!; auto. by subst prev n.
  - apply IH. destruct Hc as (H1 & H2 & H3 & H4). split_and!.
    + intros x. rewrite H1. split; intros (r' & Hr' & ?); exists r'.
      * by rewrite elem_of_app; auto.
      * apply elem_of_app in Hr' as [?| ->%list_elem_of_singleton]; [done|congruence].
    + intros x k (r' & ? & ?)%H2. exists r'. by rewrite elem_of_app; auto.
    + intros x k Hk Hns r' [?| ->%list_elem_of_singleton]%elem_of_app ?; [by eapply H3|congruence].
    + intros x (r1 & r2 & ? & ? & ?)%H4. exists r1, r2. rewrite !elem_of_app. tauto.
Qed.

Lemma settle_spec entries shared m k :
  NoDup entries.*1 →
  let r := settle entries shared m k in
  (∀ a, r.1 !! a = if bool_decide (a ∈ shared ∧ a ∈ entries.*1) then None else m !! a) ∧
  (∀ n, n ∈ r.2 ↔ n ∈ k ∨ ∃ a, (a, n) ∈ entries ∧ a ∉ shared).
Proof.
  revert m k. induction entries as [|[a n] entries IH]; intros m k Hnd; simpl.
  { split; [intros a; by rewrite bool_decide_false by set_solver|set_solver]. }
  apply NoDup_cons in Hnd as [Ha Hnd]. case_bool_decide as Hs.
  - destruct (IH (delete a m) k Hnd) as [I1 I2]. split.
    + intros x. rewrite I1. destruct (decide (x = a)) as [->|Hx].
      * rewrite lookup_delete_eq. repeat case_bool_decide; set_solver.
      * rewrite lookup_delete_ne by done. repeat case_bool_decide; set_solver.
    + intros x. rewrite I2. set_solver.
  - destruct (IH m ({[n]} ∪ k) Hnd) as [I1 I2]. split.
    + intros x. rewrite I1. repeat case_bool_decide; set_solver.
    + intros x. rewrite I2. set_solver.
Qed.
End nodes_lemmas.

Lemma NewNodes_lookup ParseAddr `{MR : MapRange} rows a n :
  byAddr (NewNodes ParseAddr rows) !! a = Some n ↔
  (∃ r, r ∈ rows ∧ row_addr ParseAddr r = Some a) ∧
  ∀ r, r ∈ rows → row_addr ParseAddr r = Some a → row_node r = n.
Proof.
  unfold NewNodes.
  pose proof (collect_collected ParseAddr rows [] ∅ ∅) as Hc.
  destruct (collect ParseAddr rows ∅ ∅) as [m shared]. simpl in Hc.
  destruct Hc as (H1 & H2 & H3 & H4).
  { split_and!; [..|set_solver]; intros; rewrite ?lookup_empty in *; try done.
    split; [by intros [? ?]|]. intros (? & ?%not_elem_of_nil & _). done. }
  pose proof (settle_spec (go_range m) shared m ∅ (NoDup_go_range m)) as [Hs _].
  destruct (settle (go_range m) shared m ∅) as [m' k]. simpl in *. rewrite Hs. clear Hs.
  assert (a ∈ (go_range m).*1 ↔ is_Some (m !! a)) as Hin.
  { rewrite list_elem_of_fmap. split.
    - intros ([? v] & -> & Hv%elem_of_go_range). simpl. eauto.
    - intros [v Hv]. exists (a, v). by rewrite elem_of_go_range. }
  case_bool_decide as Hsh.
  - split; [done|]. intros [_ Hall]. destruct (H4 a) as (r1 & r2 & ? & ? & ? & ? & Hne); [naive_solver|].
    destruct Hne. rewrite (Hall r1), (Hall r2); done.
  - assert (is_Some (m !! a) → a ∉ shared) as Hns by naive_solver. split.
    + intros Hm. split; [apply H1; eauto|]. intros r Hr Hra. eapply H3; eauto.
    + intros [Hex Hall]. destruct (proj2 (H1 a) Hex) as [v Hv]. rewrite Hv. f_equal.
      destruct (H2 a v Hv) as (r & Hr & Hra & <-). by apply Hall.
Qed.

Lemma find_login_spec logins nodes host node :
  (∃ a, find_login logins nodes host node = Some a) ↔
  ∃ l, l ∈ logins ∧ (l_Missed l < MissedLimit)%Z ∧ Login nodes (l_Addr l) host = Some node.
Proof.
  induction logins as [|l logins IH]; simpl.
  { split; [by intros [? ?]|]. intros (? & ?%not_elem_of_nil & _). done. }
  setoid_rewrite elem_of_cons. destruct (Z.leb_spec MissedLimit (l_Missed l)) as [Hm|Hm].
  { rewrite IH. split; [naive_solver|]. intros (l' & [->|?] & ? & ?); [lia|eauto]. }
  case_bool_decide as Hl; [split; eauto 6|].
  rewrite IH. split; [naive_solver|]. intros (l' & [->|?] & ? & ?); [done|eauto].
Qed.

(** ** Properties *)

(** The address map names a node only when the address is its alone. An address is in the map,
    with a node, exactly when at least one row lists it and every row that lists it (in any
    spelling of it) names that node; so an address two nodes share names neither, whatever order
    the rows come in and whatever order the runtime iterates the map in. *)
Theorem NewNodes_unshared ParseAddr (MR1 MR2 : MapRange) rows rows' :
  rows ≡ₚ rows' →
  byAddr (@NewNodes ParseAddr MR1 rows) = byAddr (@NewNodes ParseAddr MR2 rows') ∧
  ∀ a n, byAddr (@NewNodes ParseAddr MR1 rows) !! a = Some n ↔
    (∃ r, r ∈ rows ∧ row_addr ParseAddr r = Some a) ∧
    ∀ r, r ∈ rows → row_addr ParseAddr r = Some a → row_node r = n.
Proof.
  intros Hp. split; [|intros; apply NewNodes_lookup].
  apply map_eq. intros a. apply option_eq. intros n. rewrite !NewNodes_lookup.
  by setoid_rewrite Hp.
Qed.

Lemma NewNodes_unshared_witness :
  let parse s := if bool_decide (s = "10.0.0.1") then Some (AddrV4 167772161)
                 else if bool_decide (s = "::ffff:10.0.0.1") then Some (AddrV6 281470849482753 "")
                 else None in
  let r1 := {| lr_Address := "10.0.0.1"; lr_ClusterID := 1; lr_NodeName := "pve1" |} in
  let r2 := {| lr_Address := " ::ffff:10.0.0.1"; lr_ClusterID := 1; lr_NodeName := "pve2" |} in
  byAddr (@NewNodes parse map_to_list_range [r1; r2]) =
  byAddr (@NewNodes parse map_to_list_range [r2; r1]).
Proof.
  intros parse r1 r2.
  apply (NewNodes_unshared parse map_to_list_range map_to_list_range [r1; r2] [r2; r1]).
  apply Permutation_swap.
Defined.

(** The verdict on a node a UPS powers. It is protected exactly when the operator has not
    marked it checked elsewhere, the node is online, the UPS has been listed, Nexara can tell the
    node's logins apart, and a upsmon login not missed twice in a row comes from it; it is reported
    unprotected only under the same knowledge and with no such login, never out of ignorance. *)
Theorem Judge_spec node elsewhere status listed logins nodes host :
  let judgeable := elsewhere = false ∧ status = "online" ∧ listed = true ∧
    (node ∈ known nodes ∨ host = Some node) in
  let logged_in := ∃ l, l ∈ logins ∧ (l_Missed l < MissedLimit)%Z ∧
    Login nodes (l_Addr l) host = Some node in
  ((Judge node elsewhere status listed logins nodes host).1 = Protected ↔ judgeable ∧ logged_in) ∧
  ((Judge node elsewhere status listed logins nodes host).1 = NotProtected ↔
     judgeable ∧ ¬ logged_in).
Proof.
  intros judgeable logged_in. subst judgeable logged_in. rewrite <-find_login_spec.
  unfold Judge. destruct elsewhere; [naive_solver|].
  destruct (decide (status = "offline")) as [->|Hoff]; [naive_solver|].
  rewrite (bool_decide_false _ Hoff). destruct (decide (status = "online")) as [->|Hon].
  2: { rewrite (bool_decide_false _ Hon). simpl. naive_solver. }
  simpl. destruct listed; simpl; [|naive_solver].
  destruct (decide (node ∈ known nodes ∨ host = Some node)) as [Hk|Hk].
  - assert (negb (bool_decide (node ∈ known nodes)) && negb (bool_decide (host = Some node)) = false)
      as -> by (repeat case_bool_decide; naive_solver).
    destruct (find_login logins nodes host node) eqn:Hf; simpl; naive_solver.
  - rewrite !bool_decide_false by tauto. simpl. naive_solver.
Qed.
