(* ===== verification/ProxmoxApi.v ===== *)
(** * What the server reads of Proxmox

    The error values of [internal/proxmox/errors.go] and the records of
    [internal/proxmox/types.go] that DRS and the rolling updates read, with
    [GuestCPU]. The answers themselves come from the Proxmox API: they are
    arguments of the operations that read them. *)

From S2P Require Import Prelude GoFloat GoStrings.

(** The sentinel errors whose presence in a chain the code asks for with
    [errors.Is]. *)
Inductive sentinel := ErrConnectionFailed | ErrNotFound | ErrForbidden | ErrCanceled.

#[export] Instance sentinel_eq_dec : EqDecision sentinel.
Proof. solve_decision. Defined.

(** An error: its message, the [APIError] of its chain (status and message), and
    the sentinels of the chain. *)
Record go_error := { err_msg : string; err_api : option (Z * string); err_is : list sentinel }.

Definition err_status (e : go_error) : option Z := fst <$> err_api e.

(** [errors.Is(err, target)] *)
Definition errors_Is (e : go_error) (target : sentinel) : bool := contains (err_is e) target.

(** [fmt.Errorf("...: %w", err)] keeps the chain, [fmt.Errorf("...")] starts one. *)
Definition wrap (prefix : string) (e : go_error) : go_error :=
  {| err_msg := prefix +:+ ": " +:+ err_msg e; err_api := err_api e; err_is := err_is e |}.
Definition errorf (msg : string) : go_error := {| err_msg := msg; err_api := None; err_is := [] |}.

Definition APIError (code : Z) (msg : string) : go_error :=
  {| err_msg := "proxmox API error " +:+ Itoa code +:+ ": " +:+ msg; err_api := Some (code, msg);
     err_is := [] |}.

Definition IsGroupsMigratedError (e : go_error) : bool := Contains (err_msg e) "migrated to rules".
Definition IsHARulesUnsupportedError (e : go_error) : bool := bool_decide (err_status e = Some 501%Z).

Definition IsLockedError (e : go_error) : bool :=
  match err_api e with Some (_, msg) => Contains msg "is locked" | None => false end.

(** ** Records *)

Record HAStatusEntry := { hs_Type : string; hs_Node : string; hs_Status : string }.

Record HARuleEntry := {
  hr_Rule : string;
  hr_Type : string;
  hr_Resources : string;
  hr_Nodes : string;
  hr_Strict : Z;
  hr_Disable : Z;
  hr_Affinity : string;
}.

Record HAResource := { hres_SID : string; hres_State : string; hres_Group : string }.

Record HAGroup := { hg_Group : string; hg_Nodes : string; hg_Restricted : Z }.

(** A guest as the per-node listings report it. *)
Record Guest := {
  g_VMID : Z;
  g_Name : string;
  g_Status : string;
  g_Template : Z;
  g_CPU : float64;
  g_CPUs : Z;
  g_Mem : Z;
  g_MaxMem : Z;
  g_NetIn : Z;
  g_NetOut : Z;
}.

(** A value of a guest's configuration: a string, or some other JSON value. *)
Inductive ConfigValue := CfgString (s : string) | CfgOther.
Abbreviation VMConfig := (gmap string ConfigValue).

Definition GuestCPU (running : bool) (listed resources : float64) : float64 :=
  if running && feq listed f0 && fgt resources f0 then resources else listed.

(** * Which member of a cluster a client talks to

    Models [internal/proxmox/endpoint.go] with [NormalizeFingerprint] of
    [internal/proxmox/transport.go]. [net/url]'s parser is the class
    [UrlParser]; nothing is asked of it. *)

(** What the code reads of a [url.URL]. *)
Record URL := { u_Scheme : string; u_Hostname : string; u_Port : string }.

Class UrlParser := url_Parse : string → option URL.

(** [net.JoinHostPort] *)
Definition JoinHostPort (host port : string) : string :=
  if Contains host ":" then "[" +:+ host +:+ "]:" +:+ port else host +:+ ":" +:+ port.

Definition PVEProxyPort : string := "8006".

Record NodeEndpoint := {
  ep_Name : string; ep_Address : string; ep_SSLFingerprint : string; ep_Status : string }.

Record ClusterEndpoint := { ce_BaseURL : string; ce_TLSFingerprint : string; ce_ViaNode : string }.

(** [strings.ReplaceAll(s, ":", "")] *)
Fixpoint drop_byte (c : ascii) (s : string) : string :=
  match s with
  | EmptyString => ""
  | String a s => if ascii_eqb a c then drop_byte c s else String a (drop_byte c s)
  end.

Definition NormalizeFingerprint (fp : string) : string := ToLower (drop_byte colon fp).

Definition EndpointCertificateChanged (pinned observed : string) : bool :=
  if bool_decide (pinned = "") || bool_decide (observed = "") then false
  else negb (bool_decide (NormalizeFingerprint pinned = NormalizeFingerprint observed)).

Section endpoint.
Context `{UP : UrlParser}.

Definition APIURLHost (apiURL : string) : string :=
  match url_Parse apiURL with Some u => u_Hostname u | None => "" end.

Definition APIURLIsDirectToPVEProxy (apiURL : string) : bool :=
  match url_Parse apiURL with Some u => bool_decide (u_Port u = PVEProxyPort) | None => false end.

Definition FailoverBaseURL (primaryAPIURL address : string) : string :=
  let '(scheme, port) :=
    match url_Parse primaryAPIURL with
    | Some u => (if bool_decide (u_Scheme u = "") then "https" else u_Scheme u,
                 if bool_decide (u_Port u = "") then "8006" else u_Port u)
    | None => ("https", "8006")
    end in
  scheme +:+ "://" +:+ JoinHostPort address port.

(** Whether a member can stand in for the configured endpoint. *)
Definition alternate_usable (primaryHost : string) (alt : NodeEndpoint) : bool :=
  negb (EqualFold (ep_Address alt) primaryHost || bool_decide (ep_Address alt = "") ||
        bool_decide (ep_SSLFingerprint alt = "") || negb (bool_decide (ep_Status alt = "online"))).

Definition SelectClusterEndpoint (apiURL pinnedFingerprint : string) (endpoints : list NodeEndpoint) :
    ClusterEndpoint :=
  let configured := {| ce_BaseURL := apiURL; ce_TLSFingerprint := pinnedFingerprint; ce_ViaNode := "" |} in
  if negb (APIURLIsDirectToPVEProxy apiURL) then configured
  else
    let primaryHost := APIURLHost apiURL in
    if bool_decide (primaryHost = "") then configured
    else match List.find (λ e, EqualFold (ep_Address e) primaryHost) endpoints with
         | None => configured
         | Some primary =>
             let primaryUsable :=
               negb (bool_decide (ep_Status primary = "offline")) &&
               negb (EndpointCertificateChanged pinnedFingerprint (ep_SSLFingerprint primary)) in
             if primaryUsable then configured
             else match List.find (alternate_usable primaryHost) endpoints with
                  | Some alt => {| ce_BaseURL := FailoverBaseURL apiURL (ep_Address alt);
                                   ce_TLSFingerprint := ep_SSLFingerprint alt;
                                   ce_ViaNode := ep_Name alt |}
                  | None => configured
                  end
         end.

(** ** Properties *)

(** A client never connects unpinned by failing over, and a working endpoint is left alone. Where
    another member is substituted, that member is online, has an address of its own and a recorded
    certificate, which the client is pinned to; and the configured address is a known member of the
    cluster on pveproxy's port that is offline or serves a certificate other than the pinned one.
    Otherwise the configured address and pin are used unchanged. *)
Theorem SelectClusterEndpoint_spec apiURL pinned endpoints :
  let chosen := SelectClusterEndpoint apiURL pinned endpoints in
  chosen = {| ce_BaseURL := apiURL; ce_TLSFingerprint := pinned; ce_ViaNode := "" |} ∨
  ∃ primary alt, primary ∈ endpoints ∧ alt ∈ endpoints ∧
    APIURLIsDirectToPVEProxy apiURL = true ∧
    EqualFold (ep_Address primary) (APIURLHost apiURL) = true ∧
    (ep_Status primary = "offline" ∨
     pinned ≠ "" ∧ ep_SSLFingerprint primary ≠ "" ∧
     NormalizeFingerprint pinned ≠ NormalizeFingerprint (ep_SSLFingerprint primary)) ∧
    ep_Status alt = "online" ∧ ep_Address alt ≠ "" ∧
    EqualFold (ep_Address alt) (APIURLHost apiURL) = false ∧
    ep_SSLFingerprint alt ≠ "" ∧
    chosen = {| ce_BaseURL := FailoverBaseURL apiURL (ep_Address alt);
                ce_TLSFingerprint := ep_SSLFingerprint alt; ce_ViaNode := ep_Name alt |}.
Proof.
  cbv zeta. unfold SelectClusterEndpoint.
  destruct (APIURLIsDirectToPVEProxy apiURL) eqn:Hd; simpl; [|by left].
  destruct (bool_decide (APIURLHost apiURL = "")) eqn:Hh; [by left|].
  destruct (List.find _ endpoints) as [primary|] eqn:Hp; [|by left].
  destruct (_ && _) eqn:Hu; [by left|].
  destruct (List.find (alternate_usable _) endpoints) as [alt|] eqn:Ha; [|by left]. right.
  apply find_some in Hp as [Hp1 Hp2]. apply find_some in Ha as [Ha1 Ha2].
  exists primary, alt. unfold alternate_usable in Ha2. to_prop.
  split_and!; try (by apply list_elem_of_In); try done.
  apply andb_false_iff in Hu as [Hu|Hu]; to_prop; [by left|right].
  unfold EndpointCertificateChanged in Hu.
  destruct (bool_decide (pinned = "") || _) eqn:Hb; [done|]. by to_prop.
Qed.
End endpoint.
