(* ===== verification/Crs.v ===== *)
(** * The cluster resource scheduler's property-string

    Models [internal/proxmox/crs.go]: Proxmox keeps its scheduler options in one
    property-string. A rolling update pauses the native balancer by rewriting
    one key of it and restores the original afterwards; DRS refuses to run
    beside an active balancer. *)

From S2P Require Import Prelude GoFloat GoStrings.

Record CRSSettings := {
  crs_HA : string;
  crs_AutoRebalance : bool;
  crs_Threshold : Z;
  crs_HoldDuration : Z;
  crs_Margin : Z;
  crs_Method : string;
  crs_RebalanceOnStart : bool;
  crs_Raw : string;
}.

Definition AutoRebalanceActive (s : CRSSettings) : bool := crs_AutoRebalance s.

(** A [crs] option as decoded from JSON, and a value inside an object. *)
Inductive crs_scalar := CrsText (s : string) | CrsNumber (f : float64) | CrsFlag (b : bool) | CrsNone.
Inductive crs_value := CrsString (s : string) | CrsObject (m : gmap string crs_scalar) | CrsAbsent.

Definition crsBool (s : string) : bool := bool_decide (s = "1") || EqualFold s "true".

Definition crsInt (s : string) : Z :=
  if bool_decide (s = "") then 0%Z else (Atoi (TrimSpace s)).1.

Definition crsBoolStr (b : bool) : string := if b then "1" else "0".

(** One part of a property-string: its key and value, unless it is bare. *)
Definition crs_part (part : string) : option (string * string) :=
  let part := TrimSpace part in
  if bool_decide (part = "") then None
  else match Cut equals part with
       | (k, v, true) => Some (TrimSpace k, TrimSpace v)
       | (_, _, false) => None
       end.

Definition splitCRSPropString (raw : string) : gmap string string :=
  foldl (λ m part, match crs_part part with
                   | Some (k, v) => <[k := v]> m
                   | None => m
                   end) ∅ (Split comma raw).

Definition crs_get (m : gmap string string) (k : string) : string := default "" (m !! k).

Definition assignCRS (m : gmap string string) (raw : string) : CRSSettings := {|
  crs_HA := crs_get m "ha";
  crs_Method := crs_get m "ha-auto-rebalance-method";
  crs_AutoRebalance := crsBool (crs_get m "ha-auto-rebalance");
  crs_RebalanceOnStart := crsBool (crs_get m "ha-rebalance-on-start");
  crs_Threshold := crsInt (crs_get m "ha-auto-rebalance-threshold");
  crs_HoldDuration := crsInt (crs_get m "ha-auto-rebalance-hold-duration");
  crs_Margin := crsInt (crs_get m "ha-auto-rebalance-margin");
  crs_Raw := raw;
|}.

Section parse.
(** [strconv.FormatFloat(t, 'f', -1, 64)], of a number that is not an integer. *)
Context (FormatFloat : float64 → string).

Definition crsValueToString (v : crs_scalar) : string :=
  match v with
  | CrsText s => s
  | CrsNumber t => if feq t (f_of_Z (int64_of_f t)) then Itoa (int64_of_f t) else FormatFloat t
  | CrsFlag b => if b then "1" else "0"
  | CrsNone => ""
  end.

Definition ParseCRSSettings (v : crs_value) : CRSSettings :=
  match v with
  | CrsString val => assignCRS (splitCRSPropString val) val
  | CrsObject m => assignCRS (crsValueToString <$> m) ""
  | CrsAbsent => {| crs_HA := ""; crs_AutoRebalance := false; crs_Threshold := 0; crs_HoldDuration := 0;
                    crs_Margin := 0; crs_Method := ""; crs_RebalanceOnStart := false; crs_Raw := "" |}
  end.
End parse.

Definition setCRSKey (raw key val : string) : string :=
  let '(out, replaced) :=
    foldl (λ acc part,
      let '(out, replaced) := acc in
      let part := TrimSpace part in
      if bool_decide (part = "") then (out, replaced)
      else match Cut equals part with
           | (k, _, true) =>
               if bool_decide (TrimSpace k = key)
               then (out ++ [key +:+ "=" +:+ val], true) else (out ++ [part], replaced)
           | (_, _, false) => (out ++ [part], replaced)
           end) ([], false) (Split comma raw) in
  Join "," (if replaced then out else out ++ [key +:+ "=" +:+ val]).

Definition serialize (s : CRSSettings) : string :=
  let opt (b : bool) (part : string) := if b then [part] else [] in
  let num (z : Z) (key : string) := opt (0 <? z)%Z (key +:+ "=" +:+ Itoa z) in
  Join "," (
    opt (negb (bool_decide (crs_HA s = ""))) ("ha=" +:+ crs_HA s) ++
    ["ha-auto-rebalance=" +:+ crsBoolStr (crs_AutoRebalance s)] ++
    num (crs_Threshold s) "ha-auto-rebalance-threshold" ++
    num (crs_HoldDuration s) "ha-auto-rebalance-hold-duration" ++
    num (crs_Margin s) "ha-auto-rebalance-margin" ++
    opt (negb (bool_decide (crs_Method s = ""))) ("ha-auto-rebalance-method=" +:+ crs_Method s) ++
    opt (crs_RebalanceOnStart s) "ha-rebalance-on-start=1").

Definition Restorable (s : CRSSettings) : string :=
  if negb (bool_decide (crs_Raw s = "")) then crs_Raw s else serialize s.

Definition PausedAutoRebalance (s : CRSSettings) : string :=
  if negb (bool_decide (crs_Raw s = "")) then setCRSKey (crs_Raw s) "ha-auto-rebalance" "0"
  else serialize {| crs_HA := crs_HA s; crs_AutoRebalance := false; crs_Threshold := crs_Threshold s;
                    crs_HoldDuration := crs_HoldDuration s; crs_Margin := crs_Margin s;
                    crs_Method := crs_Method s; crs_RebalanceOnStart := crs_RebalanceOnStart s;
                    crs_Raw := crs_Raw s |}.

(** ** Lemmas *)

Lemma crs_part_trim p : crs_part (TrimSpace p) = crs_part p.
Proof. unfold crs_part. by rewrite TrimSpace_idem. Qed.

(** The loop of [setCRSKey], part by part. *)
Definition set_part (key val part : string) : option string :=
  let part := TrimSpace part in
  if bool_decide (part = "") then None
  else match Cut equals part with
       | (k, _, true) => if bool_decide (TrimSpace k = key) then Some (key +:+ "=" +:+ val)
                         else Some part
       | (_, _, false) => Some part
       end.

Definition is_key (key part : string) : bool :=
  match crs_part part with Some (k, _) => bool_decide (k = key) | None => false end.

Lemma setCRSKey_parts raw key val :
  setCRSKey raw key val =
  Join "," (omap (set_part key val) (Split comma raw) ++
            (if existsb (is_key key) (Split comma raw) then [] else [key +:+ "=" +:+ val])).
Proof.
  unfold setCRSKey.
  match goal with |- context [foldl ?f _ _] => set (step := f) end.
  assert (∀ parts out replaced,
    foldl step (out, replaced) parts =
    (out ++ omap (set_part key val) parts, replaced || existsb (is_key key) parts)) as Hfold.
  { induction parts as [|p parts IH]; intros out replaced.
    { simpl. by rewrite app_nil_r, orb_false_r. }
    cbn [foldl]. unfold step at 2. cbn zeta.
    cbn [omap list_omap existsb]. unfold set_part, is_key, crs_part.
    destruct (bool_decide (TrimSpace p = "")) eqn:Hp; [by rewrite IH|].
    destruct (Cut equals (TrimSpace p)) as [[k v] []]; [|by rewrite IH, <-(assoc_L (++))].
    destruct (bool_decide (TrimSpace k = key)); rewrite IH, <-(assoc_L (++)); [|done].
    by rewrite orb_true_r. }
  rewrite Hfold. simpl. destruct (existsb _ _); [by rewrite app_nil_r|done].
Qed.

Definition add_part (m : gmap string string) (part : string) : gmap string string :=
  match crs_part part with Some (k, v) => <[k := v]> m | None => m end.

Lemma splitCRS_fold raw : splitCRSPropString raw = foldl add_part ∅ (Split comma raw).
Proof. done. Qed.

Section set_key.
Context (key val : string) (Hkv : crs_part (key +:+ "=" +:+ val) = Some (key, val)).

Lemma set_part_keeps p :
  match set_part key val p with
  | None => crs_part p = None
  | Some q => crs_part q = (if is_key key p then Some (key, val) else crs_part p)
  end.
Proof using Hkv.
  unfold set_part, is_key. pose proof (crs_part_trim p) as Ht. unfold crs_part at 2 3 4.
  destruct (bool_decide (TrimSpace p = "")) eqn:Hp; [done|].
  unfold crs_part in Ht. rewrite Hp in Ht.
  destruct (Cut equals (TrimSpace p)) as [[k v] []] eqn:Hc; [|exact Ht].
  destruct (bool_decide (TrimSpace k = key)); [exact Hkv|exact Ht].
Qed.

(** Two maps built from the original and the rewritten parts. *)
Lemma set_parts_lookup parts m m' :
  (∀ k, k ≠ key → m' !! k = m !! k) →
  (∀ k, k ≠ key → foldl add_part m' (omap (set_part key val) parts) !! k = foldl add_part m parts !! k) ∧
  (existsb (is_key key) parts = true ∨ m' !! key = Some val →
   foldl add_part m' (omap (set_part key val) parts) !! key = Some val).
Proof using Hkv.
  revert m m'. induction parts as [|p parts IH]; intros m m' Hm; [by split; [|intros [?|?]]|].
  cbn [omap list_omap foldl existsb]. pose proof (set_part_keeps p) as Hp.
  destruct (set_part key val p) as [q|] eqn:Hq.
  - cbn [foldl].
    assert (∀ k, k ≠ key → add_part m' q !! k = add_part m p !! k) as Hm'.
    { intros k Hk. unfold add_part. rewrite Hp. unfold is_key.
      destruct (crs_part p) as [[k' v']|]; [|by apply Hm].
      case_bool_decide as Hk'; [subst k'; by rewrite !lookup_insert_ne, Hm by done|].
      destruct (decide (k = k')) as [->|?]; [by rewrite !lookup_insert_eq|].
      by rewrite !lookup_insert_ne, Hm by done. }
    destruct (IH _ _ Hm') as [I1 I2]. split; [done|].
    intros [Ho|Hv]; apply I2.
    + apply orb_true_iff in Ho as [Ho|Ho]; [right|by left]. unfold add_part. rewrite Hp, Ho.
      apply lookup_insert_eq.
    + right. unfold add_part. rewrite Hp. unfold is_key. destruct (crs_part p) as [[k' v']|]; [|done].
      case_bool_decide; [apply lookup_insert_eq|]. by rewrite lookup_insert_ne.
  - assert (add_part m p = m) as -> by (unfold add_part; by rewrite Hp).
    assert (is_key key p = false) as -> by (unfold is_key; by rewrite Hp).
    by apply IH.
Qed.

Lemma set_part_free p q : comma ∉ bytes_of p → comma ∉ bytes_of (key +:+ "=" +:+ val) →
  set_part key val p = Some q → comma ∉ bytes_of q.
Proof.
  intros Hp Hk. assert (comma ∉ bytes_of (TrimSpace p)) as Ht by (by intros ?%elem_of_TrimSpace).
  unfold set_part. repeat case_match; naive_solver.
Qed.

Lemma split_setCRSKey raw :
  comma ∉ bytes_of (key +:+ "=" +:+ val) →
  (∀ k, k ≠ key → splitCRSPropString (setCRSKey raw key val) !! k = splitCRSPropString raw !! k) ∧
  splitCRSPropString (setCRSKey raw key val) !! key = Some val.
Proof using Hkv.
  intros Hfree. rewrite setCRSKey_parts, !splitCRS_fold.
  set (parts := Split comma raw). set (out := omap (set_part key val) parts).
  assert (∀ p, p ∈ out → comma ∉ bytes_of p) as Hout.
  { intros q (p & Hp & Hq)%list_elem_of_omap. eapply set_part_free; [|done|done].
    by eapply Split_parts. }
  destruct (set_parts_lookup parts ∅ ∅ ltac:(done)) as [H1 H2]. fold out in H1, H2.
  change (String comma "") with "," in *.
  destruct (existsb (is_key key) parts) eqn:Hex.
  - rewrite app_nil_r, (Split_Join comma); [|  |done].
    { split; [done|]. apply H2. by left. }
    intros Hnil. rewrite Hnil in *. simpl in H2. by specialize (H2 ltac:(by left)).
  - rewrite (Split_Join comma).
    + rewrite foldl_app. cbn [foldl].
      assert (∀ m, add_part m (key +:+ "=" +:+ val) = <[key := val]> m) as ->.
      { intros m. unfold add_part. by rewrite Hkv. }
      split.
      * intros k Hk. rewrite lookup_insert_ne by done. by apply H1.
      * apply lookup_insert_eq.
    + by destruct out.
    + intros p [?| ->%list_elem_of_singleton]%elem_of_app; [by apply Hout|done].
Qed.
End set_key.

(** ** Properties *)

(** C40: pausing and restoring Proxmox's balancer. For every property-string the cluster may hold,
    the string written to pause the native balancer reads back with automatic rebalancing off and
    every other setting and key unchanged, and the string written afterwards is the original, byte
    for byte. *)
Theorem PausedAutoRebalance_roundtrip FormatFloat raw :
  raw ≠ "" →
  let s := ParseCRSSettings FormatFloat (CrsString raw) in
  let p := ParseCRSSettings FormatFloat (CrsString (PausedAutoRebalance s)) in
  AutoRebalanceActive p = false ∧
  (crs_HA p, crs_Threshold p, crs_HoldDuration p, crs_Margin p, crs_Method p, crs_RebalanceOnStart p) =
  (crs_HA s, crs_Threshold s, crs_HoldDuration s, crs_Margin s, crs_Method s, crs_RebalanceOnStart s) ∧
  (∀ k, k ≠ "ha-auto-rebalance" →
     splitCRSPropString (PausedAutoRebalance s) !! k = splitCRSPropString raw !! k) ∧
  Restorable s = raw.
Proof.
  intros Hraw s p. unfold p, s, PausedAutoRebalance, Restorable. simpl.
  rewrite (bool_decide_false _ Hraw). simpl.
  destruct (split_setCRSKey "ha-auto-rebalance" "0" eq_refl raw) as [H1 H2].
  { apply (bool_decide_unpack _). by vm_compute. }
  split_and!; [|  |done|done].
  - unfold AutoRebalanceActive. simpl. unfold crs_get. by rewrite H2.
  - unfold crs_get. by rewrite !H1 by done.
Qed.

Lemma PausedAutoRebalance_roundtrip_witness :
  let s := ParseCRSSettings (λ _, "") (CrsString "ha=dynamic,ha-auto-rebalance=1,x=y") in
  AutoRebalanceActive s = true ∧
  AutoRebalanceActive (ParseCRSSettings (λ _, "") (CrsString (PausedAutoRebalance s))) = false.
Proof.
  split; [by vm_compute|].
  apply (PausedAutoRebalance_roundtrip (λ _, "") "ha=dynamic,ha-auto-rebalance=1,x=y"). done.
Defined.
