(* ===== verification/DrsRules.v ===== *)
(** * The placement rules of DRS

    Models [internal/drs/rules.go] and the data of [internal/drs/engine.go] it
    works on: a placement maps a node to the guests running on it, and
    [findVMNode] looks for a guest through the map in the order the runtime
    picks. *)

From S2P Require Import Prelude GoFloat GoStrings.

(** ** Data *)

Record Workload := {
  w_VMID : Z;
  w_Name : string;
  w_Type : string;
  w_Node : string;
  w_CPUUsage : float64;
  w_CPUs : Z;
  w_Mem : Z;
  w_MaxMem : Z;
  w_NetIn : Z;
  w_NetOut : Z;
  w_Status : string;
  w_Pinned : bool;
}.

Record Recommendation := {
  r_VMID : Z;
  r_VMType : string;
  r_SourceNode : string;
  r_TargetNode : string;
  r_Reason : string;
  r_ScoreBefore : float64;
  r_ScoreAfter : float64;
  r_ExpectedImprovement : float64;
}.

Record Rule := {
  rule_Type : string;
  rule_VMIDs : list Z;
  rule_NodeNames : list string;
  rule_Enabled : bool;
}.

Definition RuleTypeAffinity : string := "affinity".
Definition RuleTypeAntiAffinity : string := "anti-affinity".
Definition RuleTypePin : string := "pin".

(** [nodeWorkloads] *)
Abbreviation Placement := (gmap string (list Workload)).

#[local] Set Warnings "-register-all".

(** ** Rules from the database

    The two columns are JSON documents. [json.Unmarshal] into a slice keeps a
    null and a document that is not an array as the nil slice; an element it
    cannot convert is left at its zero value and decoding goes on. *)

Inductive json :=
| JNull
| JBool (b : bool)
| JNumber (literal : string)
| JString (s : string)
| JArray (l : list json)
| JObject (l : list (string * json)).

Definition json_int (j : json) : Z :=
  match j with
  | JNumber lit => match Atoi lit with (v, None) => v | (_, Some _) => 0%Z end
  | _ => 0%Z
  end.

Definition json_string (j : json) : string :=
  match j with JString s => s | _ => "" end.

Definition unmarshal_slice {A} (elem : json → A) (j : json) : list A :=
  match j with JArray l => elem <$> l | _ => [] end.

Record DrsRule := {
  dr_RuleType : string;
  dr_VmIds : json;
  dr_NodeNames : json;
  dr_Enabled : bool;
}.

Fixpoint ParseDBRules (dbRules : list DrsRule) : list Rule :=
  match dbRules with
  | [] => []
  | r :: rest =>
      if negb (dr_Enabled r) then ParseDBRules rest
      else {| rule_Type := dr_RuleType r;
              rule_VMIDs := unmarshal_slice json_int (dr_VmIds r);
              rule_NodeNames := unmarshal_slice json_string (dr_NodeNames r);
              rule_Enabled := dr_Enabled r |} :: ParseDBRules rest
  end.

(** ** The checks *)

Definition otherVMIDs (vmids : list Z) (self : Z) : list Z :=
  filter (λ v, v ≠ self) vmids.

Definition isPinAllowed (migration : Recommendation) (rule : Rule) : bool :=
  if negb (contains (rule_VMIDs rule) (r_VMID migration)) then true
  else match rule_NodeNames rule with
       | [] => true
       | _ => contains (rule_NodeNames rule) (r_TargetNode migration)
       end.

Section checks.
Context `{MR : MapRange}.

Fixpoint findVMNode_in (vmid : Z) (entries : list (string * list Workload)) : string :=
  match entries with
  | [] => ""
  | (node, workloads) :: entries =>
      if existsb (λ w, (w_VMID w =? vmid)%Z) workloads then node
      else findVMNode_in vmid entries
  end.

Definition findVMNode (vmid : Z) (nodeWorkloads : Placement) : string :=
  findVMNode_in vmid (go_range nodeWorkloads).

Definition isAffinityAllowed (migration : Recommendation) (nodeWorkloads : Placement)
    (rule : Rule) : bool :=
  if negb (contains (rule_VMIDs rule) (r_VMID migration)) then true
  else forallb (λ vmid,
         if (vmid =? r_VMID migration)%Z then true
         else let vmNode := findVMNode vmid nodeWorkloads in
              if bool_decide (vmNode = "") then true
              else bool_decide (vmNode = r_TargetNode migration)) (rule_VMIDs rule).

Definition isAntiAffinityAllowed (migration : Recommendation) (nodeWorkloads : Placement)
    (rule : Rule) : bool :=
  if negb (contains (rule_VMIDs rule) (r_VMID migration)) then true
  else forallb (λ vmid,
         if (vmid =? r_VMID migration)%Z then true
         else let vmNode := findVMNode vmid nodeWorkloads in
              if bool_decide (vmNode = "") then true
              else negb (bool_decide (vmNode = r_TargetNode migration))) (rule_VMIDs rule).

Fixpoint checkMigration (migration : Recommendation) (nodeWorkloads : Placement)
    (rules : list Rule) : bool * string :=
  match rules with
  | [] => (true, "")
  | rule :: rest =>
      let others := Sprint_ints (otherVMIDs (rule_VMIDs rule) (r_VMID migration)) in
      if bool_decide (rule_Type rule = RuleTypePin) && negb (isPinAllowed migration rule)
      then (false, "pin rule: vm " +:+ Itoa (r_VMID migration) +:+ " may only run on " +:+
                   Sprint_list (rule_NodeNames rule))
      else if bool_decide (rule_Type rule = RuleTypeAffinity) &&
              negb (isAffinityAllowed migration nodeWorkloads rule)
      then (false, "affinity rule: vm " +:+ Itoa (r_VMID migration) +:+
                   " must stay co-located with vms " +:+ others)
      else if bool_decide (rule_Type rule = RuleTypeAntiAffinity) &&
              negb (isAntiAffinityAllowed migration nodeWorkloads rule)
      then (false, "anti-affinity rule: vm " +:+ Itoa (r_VMID migration) +:+
                   " must not share node " +:+ r_TargetNode migration +:+ " with vms " +:+ others)
      else checkMigration migration nodeWorkloads rest
  end.

Definition IsMigrationAllowed (migration : Recommendation) (nodeWorkloads : Placement)
    (rules : list Rule) : bool :=
  (checkMigration migration nodeWorkloads rules).1.

(** The nodes the members of a rule are on, those not placed left out. *)
Definition member_nodes (nodeWorkloads : Placement) (vmids : list Z) : list string :=
  filter (λ n, n ≠ "") ((λ vmid, findVMNode vmid nodeWorkloads) <$> vmids).

(** The anti-affinity loop: the first node seen a second time. *)
Fixpoint first_repeat (seen nodes : list string) : option string :=
  match nodes with
  | [] => None
  | n :: nodes => if contains seen n then Some n else first_repeat (n :: seen) nodes
  end.

Definition affinity_violations (nodeWorkloads : Placement) (rule : Rule) : list string :=
  match member_nodes nodeWorkloads (rule_VMIDs rule) with
  | first :: ((_ :: _) as tail) =>
      if existsb (λ n, negb (bool_decide (n = first))) tail
      then ["affinity rule violated: VMs are on different nodes"] else []
  | _ => []
  end.

Definition anti_affinity_violations (nodeWorkloads : Placement) (rule : Rule) : list string :=
  match first_repeat [] (member_nodes nodeWorkloads (rule_VMIDs rule)) with
  | Some n => ["anti-affinity rule violated: multiple VMs on same node " +:+ n]
  | None => []
  end.

Definition pin_violations (nodeWorkloads : Placement) (rule : Rule) : list string :=
  match rule_NodeNames rule with
  | [] => []
  | _ => (λ _, "pin rule violated: VM not on designated node") <$>
         filter (λ n, contains (rule_NodeNames rule) n = false)
                (member_nodes nodeWorkloads (rule_VMIDs rule))
  end.

Definition rule_violations (nodeWorkloads : Placement) (rule : Rule) : list string :=
  if bool_decide (rule_Type rule = RuleTypeAffinity) then affinity_violations nodeWorkloads rule
  else if bool_decide (rule_Type rule = RuleTypeAntiAffinity)
  then anti_affinity_violations nodeWorkloads rule
  else if bool_decide (rule_Type rule = RuleTypePin) then pin_violations nodeWorkloads rule
  else [].

Definition CheckViolations (nodeWorkloads : Placement) (rules : list Rule) : list string :=
  concat (rule_violations nodeWorkloads <$> rules).
End checks.

(** One simulated migration of the planner: the guest at index [j] of the
    source leaves its slice and is appended, renamed, to the target's. *)
Definition with_node (w : Workload) (n : string) : Workload := {|
  w_VMID := w_VMID w; w_Name := w_Name w; w_Type := w_Type w; w_Node := n;
  w_CPUUsage := w_CPUUsage w; w_CPUs := w_CPUs w; w_Mem := w_Mem w; w_MaxMem := w_MaxMem w;
  w_NetIn := w_NetIn w; w_NetOut := w_NetOut w; w_Status := w_Status w; w_Pinned := w_Pinned w;
|}.

Definition workloads_on (wls : Placement) (n : string) : list Workload := default [] (wls !! n).

Definition move_guest (wls : Placement) (source target : string) (j : nat) (w : Workload) :
    Placement :=
  let wls := <[source := delete j (workloads_on wls source)]> wls in
  <[target := workloads_on wls target ++ [with_node w target]]> wls.

(** ** Where a guest is *)

(** Every guest of the placement, and that no guest is listed twice. *)
Definition guests (wls : Placement) : list Workload := mjoin (map_to_list wls).*2.
Definition placed_once (wls : Placement) : Prop := NoDup (w_VMID <$> guests wls).

Definition runs_on (wls : Placement) (v : Z) (n : string) : Prop :=
  ∃ w, w ∈ workloads_on wls n ∧ w_VMID w = v.

Lemma guests_delete wls n : guests wls ≡ₚ workloads_on wls n ++ guests (delete n wls).
Proof.
  unfold guests, workloads_on. destruct (wls !! n) as [ws|] eqn:Hn; simpl.
  - by rewrite <-(map_to_list_delete wls n ws Hn).
  - by rewrite delete_id.
Qed.

Lemma guests_insert wls n ws : guests (<[n := ws]> wls) ≡ₚ ws ++ guests (delete n wls).
Proof.
  rewrite (guests_delete _ n). unfold workloads_on. by rewrite lookup_insert_eq, delete_insert_eq.
Qed.

Lemma workloads_on_insert wls n ws m :
  workloads_on (<[n := ws]> wls) m = if decide (n = m) then ws else workloads_on wls m.
Proof. unfold workloads_on. rewrite lookup_insert. by case_decide. Qed.

Lemma workloads_on_delete wls n m :
  workloads_on (delete n wls) m = if decide (n = m) then [] else workloads_on wls m.
Proof. unfold workloads_on. rewrite lookup_delete. by case_decide. Qed.

Lemma elem_of_guests wls w : w ∈ guests wls ↔ ∃ n, w ∈ workloads_on wls n.
Proof.
  unfold guests, workloads_on. rewrite list_elem_of_join. split.
  - intros (ws & Hw & ([n ws'] & -> & Hn%elem_of_map_to_list)%list_elem_of_fmap).
    exists n. by rewrite Hn.
  - intros [n Hw]. destruct (wls !! n) as [ws|] eqn:Hn; [|by apply not_elem_of_nil in Hw].
    exists ws. split; [done|]. apply list_elem_of_fmap. exists (n, ws).
    by rewrite elem_of_map_to_list.
Qed.

Lemma runs_on_once wls v n1 n2 :
  placed_once wls → runs_on wls v n1 → runs_on wls v n2 → n1 = n2.
Proof.
  intros Hp (w1 & Hw1 & Hv1) (w2 & Hw2 & Hv2). destruct (decide (n1 = n2)) as [|Hne]; [done|].
  exfalso. unfold placed_once in Hp. rewrite (guests_delete wls n1), fmap_app in Hp.
  apply NoDup_app in Hp as (_ & Hd & _). apply (Hd v).
  - apply list_elem_of_fmap. by exists w1.
  - apply list_elem_of_fmap. exists w2. split; [done|]. apply elem_of_guests. exists n2.
    by rewrite workloads_on_delete, decide_False.
Qed.

Section find.
Context `{MR : MapRange}.

Lemma findVMNode_in_spec vmid entries :
  (∃ n ws w, (n, ws) ∈ entries ∧ w ∈ ws ∧ w_VMID w = vmid ∧ findVMNode_in vmid entries = n) ∨
  (∀ n ws w, (n, ws) ∈ entries → w ∈ ws → w_VMID w ≠ vmid) ∧ findVMNode_in vmid entries = "".
Proof.
  induction entries as [|[n ws] entries IH]; simpl.
  { right. split; [|done]. by intros ??? ?%not_elem_of_nil. }
  destruct (existsb _ ws) eqn:He.
  - apply existsb_elem_of in He as (w & Hw & ?). to_prop. left. exists n, ws, w.
    split_and!; try done. apply list_elem_of_here.
  - rewrite existsb_false in He. destruct IH as [(n' & ws' & w & Hin & ?)|[Hno ->]].
    + left. exists n', ws', w. split; [by apply list_elem_of_further|done].
    + right. split; [|done]. intros n' ws' w [?|?]%elem_of_cons Hw; [|by eapply Hno].
      simplify_eq. apply He in Hw. by to_prop.
Qed.

(** [findVMNode] finds the node of a guest that is placed once, whatever the
    iteration order, and [""] for a guest that is not placed. *)
Lemma findVMNode_runs wls v n : placed_once wls → runs_on wls v n → findVMNode v wls = n.
Proof.
  intros Hp Hr. unfold findVMNode.
  destruct (findVMNode_in_spec v (go_range wls)) as [(n' & ws & w & Hin & ? & ? & ->)|[Hno _]].
  - eapply runs_on_once; [done| |done]. exists w. unfold workloads_on.
    apply elem_of_go_range in Hin. by rewrite Hin.
  - destruct Hr as (w & Hw & ?). unfold workloads_on in Hw.
    destruct (wls !! n) as [ws|] eqn:Hn; [|by apply not_elem_of_nil in Hw].
    exfalso. eapply Hno; [by apply elem_of_go_range|done|done].
Qed.

Lemma findVMNode_absent wls v : (∀ n, ¬ runs_on wls v n) → findVMNode v wls = "".
Proof.
  intros Hn. unfold findVMNode.
  destruct (findVMNode_in_spec v (go_range wls)) as [(n' & ws & w & Hin & ? & ? & ->)|[_ ?]];
    [|done].
  exfalso. apply (Hn n'). exists w. unfold workloads_on. apply elem_of_go_range in Hin.
  by rewrite Hin.
Qed.
End find.

(** ** One migration *)

Section move.
Context (wls : Placement) (source target : string) (j : nat) (w : Workload).
Context (Hne : source ≠ target) (Hj : workloads_on wls source !! j = Some w).

Lemma workloads_on_move n :
  workloads_on (move_guest wls source target j w) n =
  if decide (n = target) then workloads_on wls target ++ [with_node w target]
  else if decide (n = source) then delete j (workloads_on wls source) else workloads_on wls n.
Proof using Hne.
  unfold move_guest. rewrite !workloads_on_insert. repeat case_decide; congruence.
Qed.

Lemma guests_split m :
  guests m ≡ₚ workloads_on m target ++ workloads_on m source ++
              guests (delete source (delete target m)).
Proof using Hne.
  rewrite (guests_delete m target), (guests_delete (delete target m) source).
  by rewrite workloads_on_delete, decide_False by done.
Qed.

(** A move keeps the guests, in all but the node they name. *)
Lemma guests_move {A} (f : Workload → A) :
  (∀ n, f (with_node w n) = f w) →
  f <$> guests (move_guest wls source target j w) ≡ₚ f <$> guests wls.
Proof using Hne Hj.
  intros Hf. rewrite (guests_split wls), guests_split, !fmap_app, !workloads_on_move.
  rewrite decide_True, decide_False, decide_True by done.
  assert (delete source (delete target (move_guest wls source target j w)) =
          delete source (delete target wls)) as ->.
  { unfold move_guest. by rewrite delete_insert_eq, delete_insert_ne, delete_insert_eq,
      delete_delete by done. }
  rewrite fmap_app, list_fmap_delete, <-(assoc_L (++)). f_equiv. csimpl. rewrite Hf.
  rewrite (delete_Permutation (f <$> workloads_on wls source) j (f w)) at 2; [done|].
  by rewrite list_lookup_fmap, Hj.
Qed.

Lemma placed_once_move : placed_once wls → placed_once (move_guest wls source target j w).
Proof using Hne Hj. unfold placed_once. by rewrite (guests_move w_VMID). Qed.

Lemma runs_on_move v n :
  placed_once wls →
  runs_on (move_guest wls source target j w) v n ↔
  if decide (v = w_VMID w) then n = target else runs_on wls v n.
Proof using Hne Hj.
  intros Hp. assert (runs_on (move_guest wls source target j w) (w_VMID w) target) as Hw.
  { exists (with_node w target). rewrite workloads_on_move, decide_True by done.
    split; [|done]. apply elem_of_app. right. by apply list_elem_of_singleton. }
  case_decide as Hv.
  { subst v. split; [|by intros ->].
    intros Hn. eapply runs_on_once; [|done..]. by apply placed_once_move. }
  unfold runs_on. rewrite workloads_on_move. case_decide as Ht; [|case_decide as Hs]; [| |done].
  - subst n. split; intros (w' & Hw' & <-); exists w'.
    + apply elem_of_app in Hw' as [?| ->%list_elem_of_singleton]; [done|]. by destruct Hv.
    + split; [|done]. by apply elem_of_app; left.
  - subst n. assert (∀ x, x ∈ workloads_on wls source ↔
      x = w ∨ x ∈ delete j (workloads_on wls source)) as Hdel.
    { intros x. rewrite <-elem_of_cons. by apply elem_of_Permutation_proper, delete_Permutation. }
    setoid_rewrite Hdel. split; intros (w' & Hw' & <-); exists w'; [by auto|].
    destruct Hw' as [->|?]; [by destruct Hv|done].
Qed.

Lemma findVMNode_move (MR1 MR2 : MapRange) v :
  placed_once wls →
  @findVMNode MR2 v (move_guest wls source target j w) =
  if decide (v = w_VMID w) then target else @findVMNode MR1 v wls.
Proof using Hne Hj.
  intros Hp. pose proof (placed_once_move Hp) as Hp'.
  case_decide as Hv.
  { apply findVMNode_runs; [done|]. rewrite runs_on_move by done. by rewrite decide_True. }
  destruct (@findVMNode_in_spec v (@go_range MR1 _ _ _ _ wls)) as [(n & ws & w' & Hin & Hw' & ? & _)|[Hno Hf]].
  - apply elem_of_go_range in Hin. assert (runs_on wls v n) as Hr.
    { exists w'. unfold workloads_on. by rewrite Hin. }
    rewrite (@findVMNode_runs MR1 wls v n) by done. apply findVMNode_runs; [done|].
    rewrite runs_on_move by done. by rewrite decide_False.
  - assert (∀ n, ¬ runs_on wls v n) as Hno'.
    { intros n (w' & Hw' & ?). unfold workloads_on in Hw'.
      destruct (wls !! n) as [ws|] eqn:Hn; [|by apply not_elem_of_nil in Hw'].
      eapply Hno; [by apply elem_of_go_range|done|done]. }
    rewrite !findVMNode_absent; [done|done|]. intros n. rewrite runs_on_move by done.
    by rewrite decide_False.
Qed.
End move.

(** ** What an allowed migration does to the rules *)

Lemma elem_of_member_nodes `{MR : MapRange} wls vmids n :
  n ∈ member_nodes wls vmids ↔ n ≠ "" ∧ ∃ v, v ∈ vmids ∧ findVMNode v wls = n.
Proof.
  unfold member_nodes. rewrite list_elem_of_filter, list_elem_of_fmap. naive_solver.
Qed.

Lemma affinity_violations_nil `{MR : MapRange} wls rule :
  affinity_violations wls rule = [] ↔
  ∀ n1 n2, n1 ∈ member_nodes wls (rule_VMIDs rule) → n2 ∈ member_nodes wls (rule_VMIDs rule) →
    n1 = n2.
Proof.
  unfold affinity_violations. destruct (member_nodes _ _) as [|first [|n tail]].
  - split; [|done]. by intros _ ?? ?%not_elem_of_nil.
  - split; [|done]. by intros _ ?? ->%list_elem_of_singleton ->%list_elem_of_singleton.
  - destruct (existsb (λ x, negb (bool_decide (x = first))) (n :: tail)) eqn:He.
    + split; [done|]. intros Hall. apply existsb_elem_of in He as (x & Hx & ?). to_prop.
      destruct H. apply Hall; [by apply list_elem_of_further|apply list_elem_of_here].
    + split; [|done]. intros _. rewrite existsb_false in He.
      assert (∀ x, x ∈ first :: n :: tail → x = first) as Hall.
      { intros x [->|Hx]%elem_of_cons; [done|]. apply He in Hx. by to_prop. }
      intros n1 n2 ->%Hall ->%Hall. done.
Qed.

Lemma first_repeat_none seen nodes :
  first_repeat seen nodes = None ↔ NoDup nodes ∧ ∀ n, n ∈ nodes → n ∉ seen.
Proof.
  revert seen. induction nodes as [|n nodes IH]; intros seen; simpl.
  { split; [|done]. intros _. split; [by constructor|]. by intros ? ?%not_elem_of_nil. }
  rewrite NoDup_cons. destruct (contains seen n) eqn:Hc.
  - apply contains_spec in Hc. split; [done|]. intros [_ Hn].
    by destruct (Hn n (list_elem_of_here _ _)).
  - apply contains_false in Hc. rewrite IH. setoid_rewrite elem_of_cons. naive_solver.
Qed.

Lemma anti_affinity_violations_nil `{MR : MapRange} wls rule :
  anti_affinity_violations wls rule = [] ↔ NoDup (member_nodes wls (rule_VMIDs rule)).
Proof.
  unfold anti_affinity_violations.
  destruct (first_repeat [] (member_nodes wls (rule_VMIDs rule))) eqn:Hr.
  - split; [done|]. intros Hnd.
    assert (first_repeat [] (member_nodes wls (rule_VMIDs rule)) = None) by
      (apply first_repeat_none; split; [done|]; set_solver). congruence.
  - apply first_repeat_none in Hr. tauto.
Qed.

Lemma pin_violations_nil `{MR : MapRange} wls rule :
  pin_violations wls rule = [] ↔
  rule_NodeNames rule = [] ∨
  ∀ n, n ∈ member_nodes wls (rule_VMIDs rule) → n ∈ rule_NodeNames rule.
Proof.
  unfold pin_violations. destruct (rule_NodeNames rule) as [|x l] eqn:Hn; [naive_solver|].
  split.
  - intros Hf%fmap_nil_inv. right. intros n Hin. apply contains_spec, not_false_is_true. intros Hc.
    assert (n ∈ @nil string) as []%not_elem_of_nil. rewrite <-Hf. by apply list_elem_of_filter.
  - intros [?|Hall]; [done|]. erewrite (elem_of_nil_inv (filter _ _)); [done|]. intros n [Hc Hin]%list_elem_of_filter.
    apply Hall, contains_spec in Hin. congruence.
Qed.

(** A list of locations in which one element may move: no repetition appears
    when the new location is free. *)
Lemma NoDup_relocate (f g : Z → string) (v : Z) (vs : list Z) :
  (∀ u, u ≠ v → g u = f u) →
  f v ≠ "" →
  (∀ u, u ∈ vs → u ≠ v → f u ≠ "" → f u ≠ g v) →
  NoDup (filter (λ n, n ≠ "") (f <$> vs)) → NoDup (filter (λ n, n ≠ "") (g <$> vs)).
Proof.
  intros Hfg Hfv. induction vs as [|u vs IH]; intros Hfree; csimpl; [by constructor|].
  assert (NoDup (filter (λ n, n ≠ "") (f <$> vs)) → NoDup (filter (λ n, n ≠ "") (g <$> vs))) as IH'.
  { apply IH. intros x Hx. apply Hfree. by apply list_elem_of_further. }
  rewrite !filter_cons. intros Hnd.
  assert (NoDup (filter (λ n, n ≠ "") (f <$> vs))) as Hnd'.
  { case_decide; [by apply NoDup_cons in Hnd as [_ ?]|done]. }
  destruct (decide (g u ≠ "")) as [Hg|Hg]; [|by apply IH']. apply NoDup_cons. split; [|by apply IH'].
  intros [_ (x & Hx & Hin)%list_elem_of_fmap]%list_elem_of_filter.
  destruct (decide (u = v)) as [->|Hu].
  - destruct (decide (x = v)) as [->|Hxv].
    + rewrite decide_True in Hnd by done. apply NoDup_cons in Hnd as [Hn _]. apply Hn.
      apply list_elem_of_filter. split; [done|]. apply list_elem_of_fmap. eauto.
    + rewrite (Hfg x Hxv) in Hx. rewrite Hx in Hg. eapply (Hfree x); eauto.
      by apply list_elem_of_further.
  - rewrite (Hfg u Hu) in Hx, Hg. destruct (decide (x = v)) as [->|Hxv].
    + eapply (Hfree u); eauto. apply list_elem_of_here.
    + rewrite (Hfg x Hxv) in Hx. rewrite decide_True in Hnd by done.
      apply NoDup_cons in Hnd as [Hn _]. apply Hn.
      apply list_elem_of_filter. split; [done|]. apply list_elem_of_fmap. eauto.
Qed.

Lemma checkMigration_rule `{MR : MapRange} mig wls rules rule :
  IsMigrationAllowed mig wls rules = true → rule ∈ rules →
  (rule_Type rule = RuleTypePin → isPinAllowed mig rule = true) ∧
  (rule_Type rule = RuleTypeAffinity → isAffinityAllowed mig wls rule = true) ∧
  (rule_Type rule = RuleTypeAntiAffinity → isAntiAffinityAllowed mig wls rule = true).
Proof.
  unfold IsMigrationAllowed. induction rules as [|r rules IH]; [by intros _ ?%not_elem_of_nil|].
  simpl. intros Ha Hr.
  repeat match goal with H : context [if ?c then _ else _] |- _ => destruct c eqn:? end;
    try done.
  apply elem_of_cons in Hr as [->|?]; [|by apply IH].
  rewrite !andb_false_iff, !bool_decide_eq_false, !negb_false_iff in *. naive_solver.
Qed.

(** The rules, when only one guest of the placement is somewhere else. *)
Lemma member_nodes_relocated (MR1 MR2 : MapRange) wls wls' v target vmids :
  (∀ u, @findVMNode MR2 u wls' = if decide (u = v) then target else @findVMNode MR1 u wls) →
  v ∉ vmids → @member_nodes MR2 wls' vmids = @member_nodes MR1 wls vmids.
Proof.
  intros Hloc Hv. unfold member_nodes. f_equal. apply list_fmap_ext. intros i u Hu.
  rewrite Hloc, decide_False; [done|]. intros ->. apply Hv. by eapply list_elem_of_lookup_2.
Qed.

Lemma relocated_keeps_rule (MR1 MR2 : MapRange) mig wls wls' rules rule :
  let v := r_VMID mig in
  (∀ u, @findVMNode MR2 u wls' =
        if decide (u = v) then r_TargetNode mig else @findVMNode MR1 u wls) →
  @findVMNode MR1 v wls ≠ "" →
  @IsMigrationAllowed MR1 mig wls rules = true → rule ∈ rules →
  @rule_violations MR1 wls rule = [] → @rule_violations MR2 wls' rule = [].
Proof.
  intros v Hloc Hsrc Hall Hr. unfold rule_violations.
  destruct (checkMigration_rule mig wls rules rule Hall Hr) as (Hpin & Haff & Hanti).
  assert (∀ n, n ∈ @member_nodes MR2 wls' (rule_VMIDs rule) →
    n = r_TargetNode mig ∧ v ∈ rule_VMIDs rule ∨
    n ≠ "" ∧ ∃ u, u ∈ rule_VMIDs rule ∧ u ≠ v ∧ @findVMNode MR1 u wls = n) as Hmem.
  { intros n (Hn & u & Hu & Hf)%elem_of_member_nodes. rewrite Hloc in Hf.
    case_decide; [left; subst; done|]. right. eauto. }
  destruct (decide (v ∈ rule_VMIDs rule)) as [Hin|Hin]; last first.
  { unfold affinity_violations, anti_affinity_violations, pin_violations.
    by rewrite (member_nodes_relocated MR1 MR2 wls wls' v (r_TargetNode mig)) by done. }
  case_bool_decide as Ht1; [|case_bool_decide as Ht2; [|case_bool_decide as Ht3; [|done]]].
  - specialize (Haff Ht1). rewrite !affinity_violations_nil. intros _.
    unfold isAffinityAllowed in Haff. rewrite (proj2 (contains_spec _ _) Hin) in Haff. simpl in Haff.
    rewrite forallb_elem_of in Haff.
    assert (∀ n, n ∈ @member_nodes MR2 wls' (rule_VMIDs rule) → n = r_TargetNode mig) as Hone.
    { intros n [[-> _]|(Hn & u & Hu & Hne & Hf)]%Hmem; [done|]. apply Haff in Hu.
      fold v in Hu. rewrite (proj2 (Z.eqb_neq _ _) Hne), Hf, (bool_decide_false _ Hn) in Hu.
      by to_prop. }
    intros n1 n2 ->%Hone ->%Hone. done.
  - specialize (Hanti Ht2). rewrite !anti_affinity_violations_nil.
    unfold isAntiAffinityAllowed in Hanti. rewrite (proj2 (contains_spec _ _) Hin) in Hanti.
    simpl in Hanti. rewrite forallb_elem_of in Hanti.
    apply (NoDup_relocate _ _ v); [|done|].
    + intros u Hu. by rewrite Hloc, decide_False.
    + intros u Hu Hne Hf. apply Hanti in Hu. rewrite Hloc, decide_True by done.
      fold v in Hu. rewrite (proj2 (Z.eqb_neq _ _) Hne), (bool_decide_false _ Hf) in Hu.
      by to_prop.
  - specialize (Hpin Ht3). rewrite !pin_violations_nil.
    unfold isPinAllowed in Hpin. rewrite (proj2 (contains_spec _ _) Hin) in Hpin. simpl in Hpin.
    intros [->|Hold]; [by left|]. right. intros n [[-> _]|(Hn & u & Hu & Hne & Hf)]%Hmem.
    + destruct (rule_NodeNames rule) eqn:E; [|by apply contains_spec].
      exfalso.
      assert (@findVMNode MR1 v wls ∈ @nil string) as []%not_elem_of_nil.
      apply Hold, elem_of_member_nodes. eauto.
    + apply Hold, elem_of_member_nodes. split; [done|]. eauto.
Qed.

Lemma CheckViolations_one `{MR : MapRange} wls rule :
  CheckViolations wls [rule] = rule_violations wls rule.
Proof. unfold CheckViolations. simpl. apply app_nil_r. Qed.

(** ** Properties *)

(** An allowed migration breaks no rule. On a placement that lists every guest once, when
    [IsMigrationAllowed] accepts the move of a guest from its node to another one, every rule that
    [CheckViolations] finds respected before the move is still respected after it (affinity,
    anti-affinity and pin rules alike), whatever order the runtime iterates the maps in before and
    after. *)
Theorem allowed_migration_keeps_rules (MR MR' : MapRange) mig wls rules rule j w :
  placed_once wls →
  workloads_on wls (r_SourceNode mig) !! j = Some w →
  w_VMID w = r_VMID mig →
  r_SourceNode mig ≠ "" →
  r_SourceNode mig ≠ r_TargetNode mig →
  @IsMigrationAllowed MR mig wls rules = true →
  rule ∈ rules →
  @CheckViolations MR wls [rule] = [] →
  @CheckViolations MR' (move_guest wls (r_SourceNode mig) (r_TargetNode mig) j w) [rule] = [].
Proof.
  intros Hp Hj Hv Hs Hne Ha Hr. rewrite !CheckViolations_one.
  apply (relocated_keeps_rule MR MR' mig wls _ rules rule); [|  |done|done].
  - intros u. rewrite <-Hv. by apply findVMNode_move.
  - rewrite (findVMNode_runs wls _ (r_SourceNode mig)); [done|done|].
    exists w. split; [|done]. by eapply list_elem_of_lookup_2.
Qed.

Definition example_guest (vmid : Z) (node : string) : Workload := {|
  w_VMID := vmid; w_Name := "vm"; w_Type := "qemu"; w_Node := node; w_CPUUsage := f_lit 5 1;
  w_CPUs := 4; w_Mem := 2 ^ 30; w_MaxMem := 2 ^ 31; w_NetIn := 0; w_NetOut := 0;
  w_Status := "running"; w_Pinned := false |}.

Definition example_move (vmid : Z) (source target : string) : Recommendation := {|
  r_VMID := vmid; r_VMType := "qemu"; r_SourceNode := source; r_TargetNode := target;
  r_Reason := ""; r_ScoreBefore := f0; r_ScoreAfter := f0; r_ExpectedImprovement := f0 |}.

Lemma allowed_migration_keeps_rules_witness :
  let wls : Placement := {[ "pve1" := [example_guest 101 "pve1"; example_guest 102 "pve1"];
                            "pve2" := [example_guest 103 "pve2"] ]} in
  let rule := {| rule_Type := RuleTypeAntiAffinity; rule_VMIDs := [102; 103]%Z;
                 rule_NodeNames := []; rule_Enabled := true |} in
  @CheckViolations map_to_list_range
    (move_guest wls "pve1" "pve3" 1 (example_guest 102 "pve1")) [rule] = [].
Proof.
  intros wls rule.
  apply (allowed_migration_keeps_rules map_to_list_range map_to_list_range
    (example_move 102 "pve1" "pve3") wls [rule] rule 1 (example_guest 102 "pve1")).
  - apply (bool_decide_unpack _). by vm_compute.
  - by vm_compute.
  - done.
  - done.
  - done.
  - by vm_compute.
  - apply list_elem_of_here.
  - by vm_compute.
Defined.
