(* ===== verification/DrsPlanner.v ===== *)
(** * Scoring and planning migrations

    Models [internal/drs/planner.go] and the scoring of
    [internal/drs/engine.go]. The planner simulates moves on its own copy of the
    placement. [sort.Slice], the append that drops an index and the undo all
    work inside the source's backing array, which the loop's range reads: the
    loop below reads the placement again at each index. *)

From S2P Require Import Prelude GoFloat GoStrings DrsRules.

(** ** Scores *)

Record Weights := { wt_CPU : float64; wt_Memory : float64 }.

Definition DefaultWeights : Weights := {| wt_CPU := f_lit 3 1; wt_Memory := f_lit 7 1 |}.

Record NodeScore := { ns_Node : string; ns_Score : float64; ns_CPULoad : float64; ns_MemLoad : float64 }.

(** The fields of [proxmox.NodeListEntry] DRS reads. *)
Record NodeListEntry := { ne_Node : string; ne_Status : string; ne_MaxCPU : Z; ne_MaxMem : Z }.

Definition cap1 (x : float64) : float64 := if fgt x f1 then f1 else x.

Definition ScoreNode (node : NodeListEntry) (workloads : list Workload) (weights : Weights) :
    NodeScore :=
  let cpuLoad :=
    if (0 <? ne_MaxCPU node)%Z then
      let totalCPU :=
        foldl (λ t w, fadd t (fmul (w_CPUUsage w) (f_of_Z (w_CPUs w)))) f0 workloads in
      cap1 (fdiv totalCPU (f_of_Z (ne_MaxCPU node)))
    else f0 in
  let memLoad :=
    if (0 <? ne_MaxMem node)%Z then
      let totalMem := foldl (λ t w, int64 (t + w_Mem w)) 0%Z workloads in
      cap1 (fdiv (f_of_Z totalMem) (f_of_Z (ne_MaxMem node)))
    else f0 in
  {| ns_Node := ne_Node node;
     ns_Score := fadd (fmul (wt_CPU weights) cpuLoad) (fmul (wt_Memory weights) memLoad);
     ns_CPULoad := cpuLoad;
     ns_MemLoad := memLoad |}.

Definition estimateWorkloadImpact (w : Workload) (weights : Weights) : float64 :=
  let impact := f0 in
  let impact := if (0 <? w_CPUs w)%Z then fadd impact (fmul (wt_CPU weights) (w_CPUUsage w))
                else impact in
  if (0 <? w_MaxMem w)%Z
  then fadd impact (fmul (wt_Memory weights) (fdiv (f_of_Z (w_Mem w)) (f_of_Z (w_MaxMem w))))
  else impact.

Definition minImprovement : float64 := f_lit 1 9.
Definition maxIterations : nat := 20.

Abbreviation Scores := (gmap string NodeScore).

Section planner.
Context `{MR : MapRange} `{SS : SortSlice}.

Definition CalculateImbalance (scores : Scores) : float64 :=
  if Nat.ltb (size scores) 2 then f0
  else
    let n := f_of_Z (Z.of_nat (size scores)) in
    let sum := foldl (λ t s, fadd t (ns_Score s)) f0 (go_range scores).*2 in
    let mean := fdiv sum n in
    if feq mean f0 then f0
    else
      let varianceSum :=
        foldl (λ t s, let diff := fsub (ns_Score s) mean in fadd t (fmul diff diff)) f0
              (go_range scores).*2 in
      fdiv (fsqrt (fdiv varianceSum n)) mean.

(** ** Candidate pairs *)

Record scoredPair := { sp_source : string; sp_target : string; sp_diff : float64 }.

(** The inner loop: a node against those sorted after it. *)
Definition pairs_from (x : string * float64) (rest : list (string * float64)) : list scoredPair :=
  (λ y, {| sp_source := x.1; sp_target := y.1; sp_diff := fsub x.2 y.2 |}) <$>
  filter (λ y, fle x.2 y.2 = false) rest.

Fixpoint all_pairs (sorted : list (string * float64)) : list scoredPair :=
  match sorted with
  | [] => []
  | x :: rest => pairs_from x rest ++ all_pairs rest
  end.

Definition findSourceTargetPairs (scores : Scores) : list (string * string) :=
  if Nat.ltb (size scores) 2 then []
  else
    let sorted := (λ p, (p.1, ns_Score p.2)) <$> go_range scores in
    let sorted := sort_slice (λ a b, fgt a.2 b.2) sorted in
    let candidates := all_pairs sorted in
    let candidates := sort_slice (λ a b, fgt (sp_diff a) (sp_diff b)) candidates in
    (λ c, (sp_source c, sp_target c)) <$> candidates.

(** ** The greedy loop *)

Record PlanState := { currentScores : Scores; currentWorkloads : Placement }.

Section run.
Context (nodeEntries : gmap string NodeListEntry) (rules : list Rule) (weights : Weights).

(** [if entry, ok := nodeEntries[n]; ok { currentScores[n] = ScoreNode(...) }] *)
Definition rescore (n : string) (wls : Placement) (scores : Scores) : Scores :=
  match nodeEntries !! n with
  | Some entry => <[n := ScoreNode entry (workloads_on wls n) weights]> scores
  | None => scores
  end.

Definition apply_move (st : PlanState) (source target : string) (j : nat) (w : Workload) :
    PlanState :=
  let wls := move_guest (currentWorkloads st) source target j w in
  {| currentScores := rescore target wls (rescore source wls (currentScores st));
     currentWorkloads := wls |}.

(** The undo: the target loses its last element, the guest goes back to its index. *)
Definition undo_move (st : PlanState) (source target : string) (j : nat) (w : Workload) :
    PlanState :=
  let wls := currentWorkloads st in
  let ts := workloads_on wls target in
  let wls := <[target := take (length ts - 1) ts]> wls in
  let ss := workloads_on wls source in
  let wls := <[source := take j ss ++ [with_node w source] ++ drop j ss]> wls in
  {| currentScores := rescore target wls (rescore source wls (currentScores st));
     currentWorkloads := wls |}.

Definition candidate (w : Workload) (source target : string) : Recommendation :=
  {| r_VMID := w_VMID w; r_VMType := w_Type w; r_SourceNode := source; r_TargetNode := target;
     r_Reason := ""; r_ScoreBefore := f0; r_ScoreAfter := f0; r_ExpectedImprovement := f0 |}.

Definition rebalance_reason (w : Workload) (source target : string) (before : PlanState) : string :=
  let score n := fmt_f 3 (match currentScores before !! n with
                          | Some s => ns_Score s | None => f0 end) in
  "rebalance: node " +:+ source +:+ " score " +:+ score source +:+ " -> move " +:+ w_Type w +:+
  " " +:+ Itoa (w_VMID w) +:+ " to " +:+ target +:+ " (score " +:+ score target +:+ ")".

(** The loop over the sorted workloads of a source, from index [j] on, [n] of them left. *)
Fixpoint try_workloads (source target : string) (n j : nat) (st : PlanState) :
    PlanState * option Recommendation :=
  match n with
  | O => (st, None)
  | S n =>
      match workloads_on (currentWorkloads st) source !! j with
      | None => (st, None)
      | Some w =>
          if w_Pinned w then try_workloads source target n (S j) st
          else
            let migration := candidate w source target in
            if negb (checkMigration migration (currentWorkloads st) rules).1
            then try_workloads source target n (S j) st
            else
              let scoreBefore := CalculateImbalance (currentScores st) in
              let st' := apply_move st source target j w in
              let scoreAfter := CalculateImbalance (currentScores st') in
              let gain := fsub scoreBefore scoreAfter in
              if IsNaN gain || flt gain minImprovement
              then try_workloads source target n (S j) (undo_move st' source target j w)
              else (st', Some {|
                r_VMID := w_VMID w; r_VMType := w_Type w; r_SourceNode := source;
                r_TargetNode := target; r_Reason := rebalance_reason w source target st;
                r_ScoreBefore := scoreBefore; r_ScoreAfter := scoreAfter;
                r_ExpectedImprovement := fsub scoreBefore scoreAfter |})
      end
  end.

Fixpoint try_pairs (pairs : list (string * string)) (st : PlanState) :
    PlanState * option Recommendation :=
  match pairs with
  | [] => (st, None)
  | (source, target) :: pairs =>
      let workloads := workloads_on (currentWorkloads st) source in
      match workloads with
      | [] => try_pairs pairs st
      | _ =>
          let sorted := sort_slice (λ a b, fgt (estimateWorkloadImpact a weights)
                                               (estimateWorkloadImpact b weights)) workloads in
          let st := {| currentScores := currentScores st;
                       currentWorkloads := <[source := sorted]> (currentWorkloads st) |} in
          match try_workloads source target (length sorted) 0 st with
          | (st, Some r) => (st, Some r)
          | (st, None) => try_pairs pairs st
          end
      end
  end.

Fixpoint plan_loop (n : nat) (threshold : float64) (st : PlanState) :
    PlanState * list Recommendation :=
  match n with
  | O => (st, [])
  | S n =>
      if fle (CalculateImbalance (currentScores st)) threshold then (st, [])
      else match findSourceTargetPairs (currentScores st) with
           | [] => (st, [])
           | pairs =>
               match try_pairs pairs st with
               | (st, None) => (st, [])
               | (st, Some r) => let '(st, rs) := plan_loop n threshold st in (st, r :: rs)
               end
           end
  end.
End run.

(** ** Merging the hops of one guest *)

Definition extend_hop (existing r : Recommendation) : Recommendation := {|
  r_VMID := r_VMID existing; r_VMType := r_VMType existing;
  r_SourceNode := r_SourceNode existing; r_TargetNode := r_TargetNode r;
  r_Reason := "rebalance: consolidate " +:+ r_VMType existing +:+ " " +:+ Itoa (r_VMID existing) +:+
    " to a single migration " +:+ r_SourceNode existing +:+ " -> " +:+ r_TargetNode r;
  r_ScoreBefore := r_ScoreBefore existing; r_ScoreAfter := r_ScoreAfter r;
  r_ExpectedImprovement := fsub (r_ScoreBefore existing) (r_ScoreAfter r) |}.

Fixpoint merge_hops (recs : list Recommendation) (order : list Z) (merged : gmap Z Recommendation) :
    list Z * gmap Z Recommendation :=
  match recs with
  | [] => (order, merged)
  | r :: recs =>
      match merged !! r_VMID r with
      | None => merge_hops recs (order ++ [r_VMID r]) (<[r_VMID r := r]> merged)
      | Some existing => merge_hops recs order (<[r_VMID r := extend_hop existing r]> merged)
      end
  end.

Definition collapseHops (recs : list Recommendation) : list Recommendation :=
  if Nat.leb (length recs) 1 then recs
  else
    let '(order, merged) := merge_hops recs [] ∅ in
    filter (λ r, r_SourceNode r ≠ r_TargetNode r) (omap (λ vmid, merged !! vmid) order).

Definition Plan (scores : Scores) (nodeWorkloads : Placement)
    (nodeEntries : gmap string NodeListEntry) (rules : list Rule) (weights : Weights)
    (threshold : float64) : list Recommendation :=
  if Nat.ltb (size scores) 2 then []
  else collapseHops (plan_loop nodeEntries rules weights maxIterations threshold
         {| currentScores := scores; currentWorkloads := nodeWorkloads |}).2.
End planner.

(** ** The net effect of a list of moves

    [carry recs loc] is where every guest is, from the locations [loc], once the
    moves are carried out; [chained] says each leaves from where its guest is. *)

Definition relocate (loc : Z → string) (r : Recommendation) : Z → string :=
  λ v, if decide (v = r_VMID r) then r_TargetNode r else loc v.

Definition carry (recs : list Recommendation) (loc : Z → string) : Z → string :=
  foldl relocate loc recs.

Fixpoint chained (loc : Z → string) (recs : list Recommendation) : Prop :=
  match recs with
  | [] => True
  | r :: recs => r_SourceNode r = loc (r_VMID r) ∧ r_SourceNode r ≠ r_TargetNode r ∧
                 chained (relocate loc r) recs
  end.

Lemma carry_app recs recs' loc : carry (recs ++ recs') loc = carry recs' (carry recs loc).
Proof. apply foldl_app. Qed.

Lemma carry_other recs loc v : v ∉ r_VMID <$> recs → carry recs loc v = loc v.
Proof.
  revert loc. induction recs as [|r recs IH]; intros loc Hv; [done|].
  apply not_elem_of_cons in Hv as [Hr Hv]. simpl. unfold carry in *. simpl.
  rewrite IH by done. unfold relocate. by rewrite decide_False.
Qed.

(** Of moves of distinct guests, each decides where its own guest is. *)
Lemma carry_one recs loc r :
  NoDup (r_VMID <$> recs) → r ∈ recs → carry recs loc (r_VMID r) = r_TargetNode r.
Proof.
  revert loc. induction recs as [|r' recs IH]; intros loc Hnd Hr; [by apply not_elem_of_nil in Hr|].
  apply NoDup_cons in Hnd as [Hr' Hnd]. change (r' :: recs) with ([r'] ++ recs).
  rewrite carry_app. apply elem_of_cons in Hr as [->|Hr]; [|by apply IH].
  rewrite carry_other by done. unfold carry, relocate. simpl. by rewrite decide_True.
Qed.

Lemma carry_ext recs loc loc' : (∀ v, loc v = loc' v) → ∀ v, carry recs loc v = carry recs loc' v.
Proof.
  revert loc loc'. induction recs as [|r recs IH]; intros loc loc' H v; [done|]. simpl.
  apply IH. intros u. unfold relocate. by rewrite H.
Qed.

Lemma chained_distinct loc recs :
  NoDup (r_VMID <$> recs) →
  (∀ r, r ∈ recs → r_SourceNode r = loc (r_VMID r) ∧ r_SourceNode r ≠ r_TargetNode r) →
  chained loc recs.
Proof.
  revert loc. induction recs as [|r recs IH]; intros loc Hnd Hr; simpl; [done|].
  apply NoDup_cons in Hnd as [Hn Hnd]. destruct (Hr r (list_elem_of_here _ _)) as [H1 H2].
  split_and!; [done|done|]. apply IH; [done|]. intros r' Hr'.
  unfold relocate. rewrite decide_False.
  - apply Hr. by apply list_elem_of_further.
  - intros Heq. apply Hn. apply list_elem_of_fmap. by exists r'.
Qed.

(** What the merging loop knows after the hops [dn]. *)
Definition merged_ok (loc : Z → string) (dn : list Recommendation) (order : list Z)
    (merged : gmap Z Recommendation) : Prop :=
  NoDup order ∧
  (∀ v, v ∈ order ↔ is_Some (merged !! v)) ∧
  (∀ v r, merged !! v = Some r →
     r_VMID r = v ∧ r_SourceNode r = loc v ∧ r_TargetNode r = carry dn loc v) ∧
  (∀ v, merged !! v = None → carry dn loc v = loc v).

Lemma merge_hops_ok loc dn recs order merged :
  merged_ok loc dn order merged →
  chained (carry dn loc) recs →
  merged_ok loc (dn ++ recs) (merge_hops recs order merged).1 (merge_hops recs order merged).2.
Proof.
  revert dn order merged. induction recs as [|r recs IH]; intros dn order merged Hok Hch; simpl.
  { by rewrite app_nil_r. }
  destruct Hch as (Hsrc & _ & Hch). destruct Hok as (H1 & H2 & H3 & H4).
  rewrite cons_middle, (assoc_L (++)).
  assert (∀ v, carry (dn ++ [r]) loc v = relocate (carry dn loc) r v) as Hcr.
  { intros v. by rewrite carry_app. }
  destruct (merged !! r_VMID r) as [ex|] eqn:Hm; apply IH; try by rewrite carry_app.
  - split_and!; [done| | |].
    + intros v. rewrite H2. destruct (decide (v = r_VMID r)) as [->|?].
      * rewrite lookup_insert_eq, Hm. by split; eexists.
      * by rewrite lookup_insert_ne.
    + intros v r'. rewrite Hcr. unfold relocate. case_decide as Hv.
      * subst v. rewrite lookup_insert_eq. intros [= <-]. simpl. by destruct (H3 _ _ Hm) as (? & ? & ?).
      * rewrite lookup_insert_ne by done. apply H3.
    + intros v. rewrite Hcr. unfold relocate. case_decide as Hv.
      * subst v. by rewrite lookup_insert_eq.
      * rewrite lookup_insert_ne by done. apply H4.
  - split_and!.
    + apply NoDup_app. split_and!; [done| |apply NoDup_singleton].
      intros v Hv%H2 ->%list_elem_of_singleton. rewrite Hm in Hv. by destruct Hv.
    + intros v. rewrite elem_of_app, list_elem_of_singleton, H2.
      destruct (decide (v = r_VMID r)) as [->|?].
      * rewrite lookup_insert_eq. split; [by eexists|by right].
      * rewrite lookup_insert_ne by done. naive_solver.
    + intros v r'. rewrite Hcr. unfold relocate. case_decide as Hv.
      * subst v. rewrite lookup_insert_eq. intros [= <-]. split_and!; [done| |done].
        by rewrite Hsrc, H4.
      * rewrite lookup_insert_ne by done. apply H3.
    + intros v. rewrite Hcr. unfold relocate. case_decide as Hv.
      * subst v. by rewrite lookup_insert_eq.
      * rewrite lookup_insert_ne by done. apply H4.
Qed.

(** [collapseHops] on a chain of hops: the same net placement, one real move
    per guest. *)
Lemma collapseHops_ok loc recs :
  chained loc recs →
  (∀ v, carry (collapseHops recs) loc v = carry recs loc v) ∧
  NoDup (r_VMID <$> collapseHops recs) ∧
  (∀ r, r ∈ collapseHops recs → r_SourceNode r = loc (r_VMID r) ∧ r_SourceNode r ≠ r_TargetNode r).
Proof.
  intros Hch. unfold collapseHops. destruct (Nat.leb_spec (length recs) 1) as [Hl|Hl].
  { destruct recs as [|r [|? ?]]; simpl in *; [| |lia].
    - split_and!; [done|constructor|]. by intros ? ?%not_elem_of_nil.
    - destruct Hch as (? & ? & _). split_and!; [done|apply NoDup_singleton|].
      by intros ? ->%list_elem_of_singleton. }
  clear Hl. assert (merged_ok loc [] [] ∅) as H0.
  { split_and!; [constructor| | |done].
    - intros v. rewrite lookup_empty. split; [by intros ?%not_elem_of_nil|by intros [? ?]].
    - intros v r. by rewrite lookup_empty. }
  pose proof (merge_hops_ok loc [] recs [] ∅ H0 Hch) as Hok. simpl in Hok. clear H0.
  destruct (merge_hops recs [] ∅) as [order merged]. destruct Hok as (Hnd & Hord & Hm & Hno).
  simpl in *. set (out := filter _ _).
  assert (∀ r, r ∈ out ↔ merged !! r_VMID r = Some r ∧ r_SourceNode r ≠ r_TargetNode r) as Hout.
  { intros r. subst out. rewrite list_elem_of_filter, list_elem_of_omap. split.
    - intros (Hne & v & _ & Hv). destruct (Hm _ _ Hv) as (-> & _). done.
    - intros (Hr & Hne). split; [done|]. exists (r_VMID r). split; [|done]. apply Hord. by eexists. }
  assert (NoDup (r_VMID <$> out)) as Hndo.
  { subst out. clear Hout Hord Hno. induction order as [|v order IH]; simpl; [constructor|].
    apply NoDup_cons in Hnd as [Hv Hnd]. destruct (merged !! v) as [r|] eqn:Hr; [|by apply IH].
    rewrite filter_cons. case_decide; [|by apply IH]. csimpl. apply NoDup_cons.
    split; [|by apply IH]. intros (r' & Heq & [_ (u & Hu & Hur)%list_elem_of_omap]%list_elem_of_filter)%list_elem_of_fmap.
    destruct (Hm _ _ Hr) as [? _], (Hm _ _ Hur) as [? _]. congruence. }
  split_and!; [|done|].
  - intros v. destruct (merged !! v) as [r|] eqn:Hv.
    + destruct (Hm _ _ Hv) as (Hrv & Hs & Ht).
      destruct (decide (r_SourceNode r = r_TargetNode r)) as [He|He].
      * rewrite carry_other; [congruence|]. intros (r' & -> & [? ?]%Hout)%list_elem_of_fmap. congruence.
      * rewrite <-Ht, <-Hrv. apply carry_one; [done|]. apply Hout. by rewrite Hrv.
    + rewrite Hno by done. apply carry_other.
      intros (r' & -> & [? ?]%Hout)%list_elem_of_fmap. congruence.
  - intros r [Hr Hne]%Hout. by destruct (Hm _ _ Hr) as (_ & ? & _).
Qed.

(** ** Placements up to order and the [Node] field

    Sorting, and a move that is undone, change neither which guests are on
    which node nor anything the rules and the recommendations read of them. *)

Definition guest_key (w : Workload) : Z * string * bool := (w_VMID w, w_Type w, w_Pinned w).

Definition same_guests (wls wls' : Placement) : Prop :=
  ∀ n, guest_key <$> workloads_on wls n ≡ₚ guest_key <$> workloads_on wls' n.

#[export] Instance same_guests_equiv : Equivalence same_guests.
Proof.
  split; [by intros ? ?|by intros ? ? H n; rewrite (H n)|].
  intros ? ? ? H1 H2 n. by rewrite (H1 n), (H2 n).
Qed.

Lemma runs_on_key wls v n : runs_on wls v n ↔ v ∈ (λ k : Z * string * bool, k.1.1) <$> (guest_key <$> workloads_on wls n).
Proof.
  rewrite <-list_fmap_compose, list_elem_of_fmap. unfold runs_on. simpl. naive_solver.
Qed.

#[export] Instance runs_on_proper : Proper (same_guests ==> eq ==> eq ==> iff) runs_on.
Proof. intros wls wls' H v ? <- n ? <-. rewrite !runs_on_key. by rewrite (H n). Qed.

(** [placed_once], node by node. *)
Lemma placed_once_alt wls :
  placed_once wls ↔ (∀ n, NoDup (w_VMID <$> workloads_on wls n)) ∧
                    (∀ v n1 n2, runs_on wls v n1 → runs_on wls v n2 → n1 = n2).
Proof.
  split.
  { intros Hp. split; [|intros; by eapply runs_on_once]. intros n. unfold placed_once in Hp.
    rewrite (guests_delete wls n), fmap_app in Hp. by apply NoDup_app in Hp as [? _]. }
  unfold placed_once. induction wls as [|n ws wls Hn IH] using map_ind; intros [H1 H2].
  { unfold guests. rewrite map_to_list_empty. constructor. }
  rewrite guests_insert, delete_id, fmap_app by done.
  assert (workloads_on wls n = []) as Hnil by (unfold workloads_on; by rewrite Hn).
  assert (∀ m, m ≠ n → workloads_on (<[n:=ws]> wls) m = workloads_on wls m) as Hm.
  { intros m Hm. by rewrite workloads_on_insert, decide_False. }
  apply NoDup_app. split_and!.
  - specialize (H1 n). by rewrite workloads_on_insert, decide_True in H1.
  - intros v (w & -> & Hw)%list_elem_of_fmap (w' & Heq & (m & Hw')%elem_of_guests)%list_elem_of_fmap.
    destruct (decide (m = n)) as [->|Hmn]; [rewrite Hnil in Hw'; by apply not_elem_of_nil in Hw'|].
    apply Hmn. symmetry. apply (H2 (w_VMID w)).
    + exists w. by rewrite workloads_on_insert, decide_True.
    + exists w'. by rewrite Hm.
  - apply IH. split.
    + intros m. destruct (decide (m = n)) as [->|Hmn]; [rewrite Hnil; constructor|].
      by rewrite <-Hm.
    + assert (∀ v m, runs_on wls v m → runs_on (<[n:=ws]> wls) v m) as Hin.
      { intros v m (w & Hw & ?). exists w. split; [|done].
        destruct (decide (m = n)) as [->|Hmn]; [|by rewrite Hm].
        rewrite Hnil in Hw. by apply not_elem_of_nil in Hw. }
      eauto.
Qed.

#[export] Instance placed_once_proper : Proper (same_guests ==> iff) placed_once.
Proof.
  intros wls wls' H. rewrite !placed_once_alt. f_equiv.
  - assert (∀ n, w_VMID <$> workloads_on wls n ≡ₚ w_VMID <$> workloads_on wls' n) as Hk.
    { intros n. pose proof (fmap_Permutation (λ k : Z * string * bool, k.1.1) _ _ (H n)) as Hn.
      by rewrite <-!list_fmap_compose in Hn. }
    split; intros Hnd n; [rewrite <-Hk|rewrite Hk]; done.
  - split; intros Ho v n1 n2; [rewrite <-!H|rewrite !H]; apply Ho.
Qed.

Lemma findVMNode_same (MR1 MR2 : MapRange) wls wls' v :
  same_guests wls wls' → placed_once wls → @findVMNode MR1 v wls = @findVMNode MR2 v wls'.
Proof.
  intros Hs Hp. assert (placed_once wls') as Hp' by (by rewrite <-Hs).
  destruct (@findVMNode_in_spec v (@go_range MR1 _ _ _ _ wls)) as [(n & ws & w & Hin & ? & ? & _)|[Hno _]].
  - assert (runs_on wls v n) as Hr.
    { exists w. unfold workloads_on. apply elem_of_go_range in Hin. by rewrite Hin. }
    rewrite (@findVMNode_runs MR1 _ _ n), (@findVMNode_runs MR2 _ _ n); [done|done| |done|done].
    by rewrite <-Hs.
  - assert (∀ n, ¬ runs_on wls v n) as Hno'.
    { intros n (w & Hw & ?). unfold workloads_on in Hw.
      destruct (wls !! n) as [ws|] eqn:Hn; [|by apply not_elem_of_nil in Hw].
      eapply Hno; [by apply elem_of_go_range|done|done]. }
    rewrite !findVMNode_absent; [done| |done]. intros n. by rewrite <-Hs.
Qed.

Lemma same_guests_sorted `{SS : SortSlice} less wls n :
  same_guests wls (<[n := sort_slice less (workloads_on wls n)]> wls).
Proof.
  intros m. rewrite workloads_on_insert. case_decide as Hm; [subst m|done].
  by rewrite sort_slice_perm.
Qed.

Section hop.
Context `{MR : MapRange} `{SS : SortSlice}.
Context (nodeEntries : gmap string NodeListEntry) (rules : list Rule) (weights : Weights).

Lemma undo_apply st source target j w :
  source ≠ target → workloads_on (currentWorkloads st) source !! j = Some w →
  same_guests (currentWorkloads st) (currentWorkloads
    (undo_move nodeEntries weights (apply_move nodeEntries weights st source target j w)
       source target j w)).
Proof.
  intros Hne Hj n. simpl. set (wls := currentWorkloads st) in *.
  set (wls1 := move_guest wls source target j w).
  assert (workloads_on wls1 target = workloads_on wls target ++ [with_node w target]) as Ht.
  { unfold wls1. by rewrite workloads_on_move, decide_True. }
  assert (workloads_on wls1 source = delete j (workloads_on wls source)) as Hs.
  { unfold wls1. by rewrite workloads_on_move, decide_False, decide_True. }
  rewrite !workloads_on_insert, Ht, Hs. rewrite (decide_False (P := target = source)) by done.
  destruct (decide (source = n)) as [<-|Hsn].
  - rewrite !fmap_app. simpl. rewrite (delete_Permutation _ j w Hj) at 1. csimpl.
    rewrite <-Permutation_middle, <-fmap_app, take_drop. done.
  - destruct (decide (target = n)) as [<-|Htn].
    + rewrite length_app. simpl. rewrite Nat.add_sub, take_app_length. done.
    + unfold wls1. by rewrite workloads_on_move, !decide_False.
Qed.

(** One recommendation of the greedy loop, as a step from a placement to the next:
    a guest that is not pinned, a move no rule forbids, a gain that is real. *)
Definition improving (r : Recommendation) : Prop :=
  r_ExpectedImprovement r = fsub (r_ScoreBefore r) (r_ScoreAfter r) ∧
  fle minImprovement (r_ExpectedImprovement r) = true.

Definition hop (wls : Placement) (r : Recommendation) (wls' : Placement) : Prop :=
  ∃ mid j w,
    same_guests wls mid ∧
    workloads_on mid (r_SourceNode r) !! j = Some w ∧
    guest_key w = (r_VMID r, r_VMType r, false) ∧
    IsMigrationAllowed (candidate w (r_SourceNode r) (r_TargetNode r)) mid rules = true ∧
    wls' = move_guest mid (r_SourceNode r) (r_TargetNode r) j w ∧
    r_SourceNode r ≠ r_TargetNode r ∧ improving r.

Lemma hop_before wls1 wls2 r wls' : same_guests wls1 wls2 → hop wls2 r wls' → hop wls1 r wls'.
Proof. intros Hs (mid & j & w & H & ?). exists mid, j, w. split; [by etrans|done]. Qed.

Lemma gain_improves gain :
  IsNaN gain || flt gain minImprovement = false → fle minImprovement gain = true.
Proof. intros [Hn Hl]%orb_false_iff. by apply flt_false_le. Qed.

Lemma rescore_dom n wls scores :
  n ∈ dom scores → dom (rescore nodeEntries weights n wls scores) = dom scores.
Proof. intros Hn. unfold rescore. destruct (nodeEntries !! n); [|done]. set_solver. Qed.

Lemma rescore_dom_both s t wls scores :
  s ∈ dom scores → t ∈ dom scores →
  dom (rescore nodeEntries weights t wls (rescore nodeEntries weights s wls scores)) = dom scores.
Proof. intros Hs Ht. by rewrite !rescore_dom by (by rewrite ?rescore_dom). Qed.

Lemma try_workloads_hop source target n j st :
  source ≠ target → source ∈ dom (currentScores st) → target ∈ dom (currentScores st) →
  let '(st', res) := try_workloads nodeEntries rules weights source target n j st in
  dom (currentScores st') = dom (currentScores st) ∧
  match res with
  | None => same_guests (currentWorkloads st) (currentWorkloads st')
  | Some r => hop (currentWorkloads st) r (currentWorkloads st') ∧
              r_SourceNode r = source ∧ r_TargetNode r = target
  end.
Proof.
  intros Hne. revert j st. induction n as [|n IH]; intros j st Hs Ht; simpl; [done|].
  destruct (workloads_on (currentWorkloads st) source !! j) as [w|] eqn:Hj; [|done].
  destruct (w_Pinned w) eqn:Hpin; [by apply IH|].
  destruct (checkMigration _ _ _).1 eqn:Hall; simpl; [|by apply IH].
  set (st' := apply_move nodeEntries weights st source target j w).
  assert (dom (currentScores st') = dom (currentScores st)) as Hdom.
  { by apply rescore_dom_both. }
  destruct (IsNaN _ || _) eqn:Hgain.
  - set (st'' := undo_move nodeEntries weights st' source target j w).
    assert (dom (currentScores st'') = dom (currentScores st)) as Hdom'.
    { rewrite <-Hdom. apply rescore_dom_both; by rewrite Hdom. }
    specialize (IH (S j) st''). rewrite Hdom' in IH. specialize (IH Hs Ht).
    pose proof (undo_apply st source target j w Hne Hj) as Hu. fold st' st'' in Hu.
    destruct (try_workloads nodeEntries rules weights source target n (S j) st'') as [st3 [r|]];
      destruct IH as [HD IH]; (split; [done|]).
    + destruct IH as [Hh ?]. split; [by eapply hop_before|done].
    + by etrans.
  - split; [done|]. split; [|done]. exists (currentWorkloads st), j, w. simpl.
    split_and!; try done.
    + unfold guest_key. by rewrite Hpin.
    + by split; [|apply gain_improves].
Qed.

Lemma try_pairs_hop pairs st :
  (∀ s t, (s, t) ∈ pairs → s ≠ t ∧ s ∈ dom (currentScores st) ∧ t ∈ dom (currentScores st)) →
  let '(st', res) := try_pairs nodeEntries rules weights pairs st in
  dom (currentScores st') = dom (currentScores st) ∧
  match res with
  | None => same_guests (currentWorkloads st) (currentWorkloads st')
  | Some r => hop (currentWorkloads st) r (currentWorkloads st') ∧
              (r_SourceNode r, r_TargetNode r) ∈ pairs
  end.
Proof.
  revert st. induction pairs as [|[s t] pairs IH]; intros st Hp; [done|].
  destruct (Hp s t (list_elem_of_here _ _)) as (Hne & Hs & Ht).
  assert (∀ s t, (s, t) ∈ pairs → s ≠ t ∧ s ∈ dom (currentScores st) ∧ t ∈ dom (currentScores st))
    as Hp' by (intros; by apply Hp, list_elem_of_further).
  cbn [try_pairs]. destruct (workloads_on (currentWorkloads st) s) as [|x ws] eqn:Hws.
  { specialize (IH st Hp'). destruct (try_pairs _ _ _ pairs st) as [st' [r|]]; [|done].
    destruct IH as (? & ? & ?). split_and!; [done..|]. by apply list_elem_of_further. }
  rewrite <-Hws. clear x ws Hws. set (less := λ a b, fgt _ _).
  set (st1 := {| currentScores := _ |}).
  assert (same_guests (currentWorkloads st) (currentWorkloads st1)) as Hsort.
  { apply same_guests_sorted. }
  pose proof (try_workloads_hop s t (length (sort_slice less (workloads_on (currentWorkloads st) s)))
    0 st1 Hne Hs Ht) as Htry.
  destruct (try_workloads _ _ _ s t _ 0 st1) as [st2 [r|]].
  - destruct Htry as (? & ? & -> & ->). split; [done|]. split; [by eapply hop_before|].
    apply list_elem_of_here.
  - destruct Htry as [Hdom Hsame]. simpl in Hdom. specialize (IH st2). rewrite Hdom in IH.
    specialize (IH Hp'). destruct (try_pairs _ _ _ pairs st2) as [st3 [r|]];
      destruct IH as [? IH]; (split; [done|]).
    + destruct IH as [??]. split; [|by apply list_elem_of_further].
      eapply hop_before; [|done]. by etrans.
    + etrans; [done|]. by etrans.
Qed.

(** ** Pairs *)

Lemma elem_of_all_pairs (l : list (string * float64)) c :
  c ∈ all_pairs l ↔ ∃ i j x y, i < j ∧ l !! i = Some x ∧ l !! j = Some y ∧
    fle x.2 y.2 = false ∧
    c = {| sp_source := x.1; sp_target := y.1; sp_diff := fsub x.2 y.2 |}.
Proof.
  induction l as [|x l IH]; simpl.
  { split; [by intros ?%not_elem_of_nil|]. by intros (? & ? & ? & ? & _ & ? & _). }
  rewrite elem_of_app, IH. unfold pairs_from. rewrite list_elem_of_fmap. split.
  - intros [(y & -> & [Hf [j Hj]%list_elem_of_lookup]%list_elem_of_filter)|(i & j & u & y & ? & ? & ? & ?)].
    + exists 0, (S j), x, y. split_and!; [lia|done..].
    + exists (S i), (S j), u, y. split_and!; [lia|naive_solver..].
  - intros ([|i] & [|j] & u & y & Hij & Hu & Hy & Hf & ->); try lia; simplify_eq/=.
    + left. exists y. split; [done|]. apply list_elem_of_filter. split; [done|].
      by eapply list_elem_of_lookup_2.
    + right. exists i, j, u, y. split_and!; [lia|done..].
Qed.

Lemma findSourceTargetPairs_dom scores s t :
  (s, t) ∈ findSourceTargetPairs scores → s ≠ t ∧ s ∈ dom scores ∧ t ∈ dom scores.
Proof.
  unfold findSourceTargetPairs. destruct (Nat.ltb _ _); [by intros ?%not_elem_of_nil|].
  set (l0 := (λ p, (p.1, ns_Score p.2)) <$> go_range scores).
  set (l := sort_slice _ l0).
  assert (l ≡ₚ l0) as Hl by apply sort_slice_perm.
  assert (NoDup l.*1) as Hnd.
  { rewrite Hl. unfold l0. rewrite <-list_fmap_compose. apply NoDup_go_range. }
  assert (∀ x, x ∈ l → x.1 ∈ dom scores) as Hin.
  { intros x. rewrite Hl. unfold l0. intros ([k v] & -> & Hk%elem_of_go_range)%list_elem_of_fmap.
    simpl. by eapply elem_of_dom_2. }
  intros (c & [= -> ->] & Hc)%list_elem_of_fmap. rewrite sort_slice_perm in Hc.
  apply elem_of_all_pairs in Hc as (i & j & x & y & Hij & Hx & Hy & _ & ->). simpl. split_and!.
  - intros Heq. assert (i = j); [|lia]. eapply (NoDup_lookup _ _ _ x.1 Hnd).
    + by rewrite list_lookup_fmap, Hx.
    + by rewrite list_lookup_fmap, Hy, Heq.
  - by eapply Hin, list_elem_of_lookup_2.
  - by eapply Hin, list_elem_of_lookup_2.
Qed.

(** ** The loop *)

Fixpoint hops (wls : Placement) (rs : list Recommendation) (wls' : Placement) : Prop :=
  match rs with
  | [] => same_guests wls wls'
  | r :: rs => ∃ mid, hop wls r mid ∧ hops mid rs wls'
  end.

Lemma plan_loop_hops n threshold st :
  let '(st', rs) := plan_loop nodeEntries rules weights n threshold st in
  length rs ≤ n ∧
  hops (currentWorkloads st) rs (currentWorkloads st') ∧
  ∀ r, r ∈ rs → r_SourceNode r ∈ dom (currentScores st) ∧ r_TargetNode r ∈ dom (currentScores st).
Proof.
  revert st. induction n as [|n IH]; intros st; cbn [plan_loop].
  { split_and!; [done|simpl; reflexivity|]. by intros ? ?%not_elem_of_nil. }
  destruct (fle _ threshold).
  { split_and!; [simpl; lia|simpl; reflexivity|]. by intros ? ?%not_elem_of_nil. }
  pose proof (findSourceTargetPairs_dom (currentScores st)) as Hpairs.
  destruct (findSourceTargetPairs (currentScores st)) as [|p ps] eqn:Hps.
  { split_and!; [simpl; lia|simpl; reflexivity|]. by intros ? ?%not_elem_of_nil. }
  pose proof (try_pairs_hop (p :: ps) st Hpairs) as Htry.
  destruct (try_pairs nodeEntries rules weights (p :: ps) st) as [st1 [r|]].
  - destruct Htry as (Hdom & Hh & Hr). specialize (IH st1).
    destruct (plan_loop nodeEntries rules weights n threshold st1) as [st2 rs].
    destruct IH as (Hl & Hhs & Hin). rewrite Hdom in Hin.
    split_and!; [simpl; lia|by exists (currentWorkloads st1)|].
    intros r' [->|?]%elem_of_cons; [|by apply Hin]. destruct (Hpairs _ _ Hr) as (_ & ? & ?). done.
  - destruct Htry as [_ Hsame]. split_and!; [simpl; lia|done|]. by intros ? ?%not_elem_of_nil.
Qed.

(** A chain of hops, seen through [findVMNode] and through the guests. *)
Definition loc_of (wls : Placement) (v : Z) : string := findVMNode v wls.

Lemma hop_step wls r wls' :
  placed_once wls → hop wls r wls' →
  placed_once wls' ∧ r_SourceNode r = loc_of wls (r_VMID r) ∧
  (∀ v, loc_of wls' v = relocate (loc_of wls) r v) ∧
  (∃ w, w ∈ guests wls ∧ guest_key w = (r_VMID r, r_VMType r, false)) ∧
  (∀ k, k ∈ guest_key <$> guests wls ↔ k ∈ guest_key <$> guests wls').
Proof.
  intros Hp (mid & j & w & Hs & Hj & Hk & Ha & -> & Hne & _).
  assert (placed_once mid) as Hpm by (by rewrite <-Hs).
  assert (w_VMID w = r_VMID r) as Hv by (by injection Hk).
  assert (w ∈ workloads_on mid (r_SourceNode r)) as Hwin by (by eapply list_elem_of_lookup_2).
  assert (∀ m m', same_guests m m' → ∀ k, k ∈ guest_key <$> guests m → k ∈ guest_key <$> guests m') as Hkeys.
  { intros m m' Hm k (u & -> & (n & Hu)%elem_of_guests)%list_elem_of_fmap.
    assert (guest_key u ∈ guest_key <$> workloads_on m' n) as (u' & -> & Hu')%list_elem_of_fmap.
    { rewrite <-(Hm n). apply list_elem_of_fmap. by exists u. }
    apply list_elem_of_fmap. exists u'. split; [done|]. apply elem_of_guests. eauto. }
  split_and!.
  - by apply placed_once_move.
  - symmetry. apply findVMNode_runs; [done|]. rewrite Hs. by exists w.
  - intros v. unfold loc_of, relocate. rewrite (findVMNode_move mid _ _ j w Hne Hj MR MR) by done.
    rewrite Hv. case_decide; [done|]. symmetry. by apply findVMNode_same.
  - assert (guest_key w ∈ guest_key <$> guests wls) as (w' & Heq & Hw')%list_elem_of_fmap.
    { apply (Hkeys mid wls); [by symmetry|]. apply list_elem_of_fmap. exists w. split; [done|].
      apply elem_of_guests. eauto. }
    exists w'. split; [done|]. congruence.
  - assert (guest_key <$> guests (move_guest mid (r_SourceNode r) (r_TargetNode r) j w) ≡ₚ
      guest_key <$> guests mid) as Hmv by (by apply guests_move).
    intros k. rewrite Hmv. split; apply Hkeys; [done|by symmetry].
Qed.

Lemma chained_ext loc loc' recs : (∀ v, loc v = loc' v) → chained loc recs → chained loc' recs.
Proof.
  revert loc loc'. induction recs as [|r recs IH]; intros loc loc' H; [done|].
  intros (H1 & H2 & H3). split_and!; [by rewrite <-H|done|]. eapply IH; [|done].
  intros v. unfold relocate. by rewrite H.
Qed.

Lemma hops_chain wls rs wls' :
  placed_once wls → hops wls rs wls' →
  placed_once wls' ∧ chained (loc_of wls) rs ∧ (∀ v, loc_of wls' v = carry rs (loc_of wls) v) ∧
  (∀ r, r ∈ rs → ∃ w, w ∈ guests wls ∧ guest_key w = (r_VMID r, r_VMType r, false)).
Proof.
  revert wls. induction rs as [|r rs IH]; intros wls Hp; simpl.
  { intros Hs. split_and!; [by rewrite <-Hs|done| |by intros ? ?%not_elem_of_nil].
    intros v. symmetry. by apply findVMNode_same. }
  intros (mid & Hh & Hhs). pose proof Hh as (_ & _ & _ & _ & _ & _ & _ & _ & Hne & _).
  destruct (hop_step _ _ _ Hp Hh) as (Hpm & Hsrc & Hloc & Hw & Hk).
  destruct (IH mid Hpm Hhs) as (Hp' & Hch & Hcarry & Hg). split_and!; try done.
  - by eapply chained_ext.
  - intros v. rewrite Hcarry. by apply carry_ext.
  - intros r' [->|Hr']%elem_of_cons; [done|]. destruct (Hg _ Hr') as (w & Hwm & Hwk).
    assert (guest_key w ∈ guest_key <$> guests wls) as (w' & Heq & ?)%list_elem_of_fmap.
    { apply Hk, list_elem_of_fmap. by exists w. }
    exists w'. split; [done|congruence].
Qed.

Lemma rule_violations_same (MR1 MR2 : MapRange) wls wls' rule :
  (∀ v, @findVMNode MR1 v wls = @findVMNode MR2 v wls') →
  @rule_violations MR1 wls rule = @rule_violations MR2 wls' rule.
Proof.
  intros H. unfold rule_violations, affinity_violations, anti_affinity_violations, pin_violations.
  assert (@member_nodes MR1 wls (rule_VMIDs rule) = @member_nodes MR2 wls' (rule_VMIDs rule)) as ->;
    [|done].
  unfold member_nodes. f_equal. by apply list_fmap_ext; intros.
Qed.

Lemma hops_keep_rules wls rs wls' rule :
  placed_once wls → hops wls rs wls' → (∀ r, r ∈ rs → r_SourceNode r ≠ "") → rule ∈ rules →
  rule_violations wls rule = [] → rule_violations wls' rule = [].
Proof.
  intros Hp Hhs Hne Hr. revert wls Hp Hhs. induction rs as [|r rs IH]; intros wls Hp; simpl.
  { intros Hs Hv. rewrite <-Hv. apply rule_violations_same. intros v. symmetry.
    by apply findVMNode_same. }
  intros (mid & Hh & Hhs) Hv. destruct (hop_step _ _ _ Hp Hh) as (Hpm & Hsrc & Hloc & _).
  eapply (IH ltac:(intros; by apply Hne, list_elem_of_further) mid Hpm Hhs).
  destruct Hh as (m0 & j & w & Hs & Hj & Hk & Ha & -> & Hst & _).
  assert (w_VMID w = r_VMID r) as Hvw by (by injection Hk).
  assert (∀ v, findVMNode v wls = findVMNode v m0) as Hsame.
  { intros v. by apply findVMNode_same. }
  eapply (relocated_keeps_rule MR MR (candidate w (r_SourceNode r) (r_TargetNode r)) m0);
    [|  |done|done|].
  - intros u. simpl. rewrite <-(Hsame u). rewrite Hvw. apply Hloc.
  - simpl. rewrite Hvw, <-Hsame. unfold loc_of in Hsrc. rewrite <-Hsrc.
    apply Hne, list_elem_of_here.
  - rewrite <-Hv. apply rule_violations_same. intros. by rewrite Hsame.
Qed.

(** What a merged recommendation keeps of its hops. *)
Definition from_hops (recs : list Recommendation) (r : Recommendation) : Prop :=
  ∃ r1 r2, r1 ∈ recs ∧ r2 ∈ recs ∧ r_VMID r = r_VMID r1 ∧ r_VMType r = r_VMType r1 ∧
    r_SourceNode r = r_SourceNode r1 ∧ r_TargetNode r = r_TargetNode r2.

Lemma merge_hops_from all recs order merged :
  recs ⊆ all → (∀ v r, merged !! v = Some r → from_hops all r) →
  ∀ v r, (merge_hops recs order merged).2 !! v = Some r → from_hops all r.
Proof.
  revert order merged. induction recs as [|x recs IH]; intros order merged Hall Hm; simpl; [done|].
  assert (x ∈ all ∧ recs ⊆ all) as [Hx Hall'] by set_solver.
  destruct (merged !! r_VMID x) as [ex|] eqn:Hex; apply IH; [done| |done|]; intros v r.
  - destruct (decide (v = r_VMID x)) as [->|?].
    + rewrite lookup_insert_eq. intros [= <-]. destruct (Hm _ _ Hex) as (r1 & r2 & ? & ? & ? & ? & ? & ?).
      by exists r1, x.
    + rewrite lookup_insert_ne by done. apply Hm.
  - destruct (decide (v = r_VMID x)) as [->|?].
    + rewrite lookup_insert_eq. intros [= <-]. by exists x, x.
    + rewrite lookup_insert_ne by done. apply Hm.
Qed.

Lemma collapseHops_from recs r : r ∈ collapseHops recs → from_hops recs r.
Proof.
  unfold collapseHops. destruct (Nat.leb _ _); [intros ?; by exists r, r|].
  pose proof (merge_hops_from recs recs [] ∅ ltac:(done)) as Hm.
  destruct (merge_hops recs [] ∅) as [order merged]. simpl in Hm.
  intros [_ (v & _ & Hv)%list_elem_of_omap]%list_elem_of_filter.
  eapply Hm; [|done]. intros u r'. by rewrite lookup_empty.
Qed.

Lemma collapseHops_length recs loc : chained loc recs → length (collapseHops recs) ≤ length recs.
Proof.
  intros Hch. destruct (collapseHops_ok loc recs Hch) as (_ & Hnd & _).
  rewrite <-(length_fmap r_VMID (collapseHops recs)), <-(length_fmap r_VMID recs).
  apply submseteq_length, NoDup_submseteq; [done|].
  intros v (r & -> & (r1 & _ & Hr1 & _ & -> & _)%collapseHops_from)%list_elem_of_fmap.
  apply list_elem_of_fmap. by exists r1.
Qed.
End hop.

(** ** Carrying out a plan

    The executor migrates each recommended guest once, from its source to its
    target. *)

Definition execute_move (wls : Placement) (r : Recommendation) : Placement :=
  match list_find (λ w, w_VMID w = r_VMID r) (workloads_on wls (r_SourceNode r)) with
  | Some (j, w) => move_guest wls (r_SourceNode r) (r_TargetNode r) j w
  | None => wls
  end.

Definition carry_out (recs : list Recommendation) (wls : Placement) : Placement :=
  foldl execute_move wls recs.

Lemma findVMNode_inv `{MR : MapRange} wls v : findVMNode v wls ≠ "" → runs_on wls v (findVMNode v wls).
Proof.
  intros Hn. unfold findVMNode in *.
  destruct (findVMNode_in_spec v (go_range wls)) as [(n & ws & w & Hin & ? & ? & ->)|[_ ?]]; [|done].
  exists w. unfold workloads_on. apply elem_of_go_range in Hin. by rewrite Hin.
Qed.

Lemma carry_out_loc `{MR : MapRange} recs wls :
  placed_once wls → chained (loc_of wls) recs → (∀ r, r ∈ recs → r_SourceNode r ≠ "") →
  ∀ v, loc_of (carry_out recs wls) v = carry recs (loc_of wls) v.
Proof.
  revert wls. induction recs as [|r recs IH]; intros wls Hp; [done|].
  intros (Hsrc & Hne & Hch) Hnn v. simpl.
  assert (r_SourceNode r ≠ "") as Hs by (apply Hnn, list_elem_of_here).
  assert (runs_on wls (r_VMID r) (r_SourceNode r)) as (w0 & Hw0 & Hv0).
  { rewrite Hsrc. apply findVMNode_inv. unfold loc_of in Hsrc. by rewrite <-Hsrc. }
  unfold execute_move at 1.
  destruct (list_find (λ w, w_VMID w = r_VMID r) (workloads_on wls (r_SourceNode r))) as [[j w]|] eqn:Hf.
  2: { exfalso. eapply list_find_None in Hf. rewrite Forall_forall in Hf. by eapply Hf. }
  apply list_find_Some in Hf as (Hj & Hv & _).
  assert (∀ u, loc_of (move_guest wls (r_SourceNode r) (r_TargetNode r) j w) u =
    relocate (loc_of wls) r u) as Hloc.
  { intros u. unfold loc_of. rewrite (findVMNode_move wls _ _ j w Hne Hj MR MR) by done.
    unfold relocate. by rewrite Hv. }
  rewrite IH; [by apply carry_ext|by apply placed_once_move| |].
  - eapply chained_ext; [|done]. intros u. by rewrite Hloc.
  - intros r' Hr'. by apply Hnn, list_elem_of_further.
Qed.

(** The greedy loop of [Plan], and what its merged output is. *)
Lemma Plan_run `{MR : MapRange} `{SS : SortSlice} scores wls nodeEntries rules weights threshold :
  placed_once wls → scores !! "" = None →
  ∃ rs wls', Plan scores wls nodeEntries rules weights threshold = collapseHops rs ∧
    length rs ≤ maxIterations ∧ hops rules wls rs wls' ∧
    (∀ r, r ∈ rs → r_SourceNode r ∈ dom scores ∧ r_TargetNode r ∈ dom scores) ∧
    (∀ r, r ∈ rs → r_SourceNode r ≠ "").
Proof.
  intros Hp Hs. unfold Plan. destruct (Nat.ltb (size scores) 2).
  { exists [], wls. split_and!; [done|simpl; lia|simpl; reflexivity|by intros ? ?%not_elem_of_nil..]. }
  pose proof (plan_loop_hops nodeEntries rules weights maxIterations threshold
    {| currentScores := scores; currentWorkloads := wls |}) as Hl.
  destruct (plan_loop _ _ _ _ _ _) as [st rs]. destruct Hl as (Hlen & Hh & Hd). simpl in *.
  exists rs, (currentWorkloads st). split_and!; try done.
  intros r [Hin _]%Hd He. rewrite He in Hin. by apply elem_of_dom in Hin as [? ?]; simplify_eq.
Qed.

(** The nodes in descending order of score. *)
Lemma sorted_scores `{MR : MapRange} `{SS : SortSlice} (scores : Scores) :
  (∀ n s, scores !! n = Some s → IsNaN (ns_Score s) = false) →
  let l := sort_slice (λ a b, fgt a.2 b.2) ((λ p, (p.1, ns_Score p.2)) <$> go_range scores) in
  (∀ x, x ∈ l ↔ ∃ s, scores !! x.1 = Some s ∧ x.2 = ns_Score s) ∧
  ordered_by (λ a b, fgt a.2 b.2) l ∧ NoDup l.*1.
Proof.
  intros Hn l. set (l0 := (λ p, (p.1, ns_Score p.2)) <$> go_range scores) in l.
  assert (l ≡ₚ l0) as Hl by apply sort_slice_perm.
  assert (∀ x, x ∈ l0 ↔ ∃ s, scores !! x.1 = Some s ∧ x.2 = ns_Score s) as Hin.
  { intros [n f]. unfold l0. rewrite list_elem_of_fmap. simpl. split.
    - intros ([k s] & [= -> ->] & Hk%elem_of_go_range). eauto.
    - intros (s & Hs & ->). exists (n, s). by rewrite elem_of_go_range. }
  split_and!.
  - intros x. by rewrite Hl, Hin.
  - apply sort_slice_ordered, (fgt_strict_weak snd). intros x (s & Hs & ->)%Hin. by eapply Hn.
  - rewrite Hl. unfold l0. rewrite <-list_fmap_compose. apply NoDup_go_range.
Qed.

Lemma NoDup_all_pairs (l : list (string * float64)) :
  NoDup l.*1 → NoDup ((λ c, (sp_source c, sp_target c)) <$> all_pairs l).
Proof.
  induction l as [|x l IH]; intros Hnd; csimpl; [constructor|].
  apply NoDup_cons in Hnd as [Hx Hnd]. rewrite fmap_app. apply NoDup_app. split_and!.
  - unfold pairs_from. rewrite <-list_fmap_compose.
    assert (NoDup (filter (λ y, fle x.2 y.2 = false) l).*1) as Hf.
    { eapply sublist_NoDup; [exact Hnd|]. apply fmap_sublist, sublist_filter. }
    assert (Inj (=) (=) (λ n : string, (x.1, n))) by (intros ?? [=]; done).
    apply (NoDup_fmap_2 (λ n, (x.1, n))) in Hf.
    by rewrite <-list_fmap_compose in Hf.
  - intros [s t] (c & [= -> ->] & (y & -> & _)%list_elem_of_fmap)%list_elem_of_fmap. simpl.
    intros (c & [= Hs _] & (i & j & u & z & _ & Hu & _ & _ & ->)%elem_of_all_pairs)%list_elem_of_fmap.
    simpl in Hs. apply Hx. rewrite Hs. apply list_elem_of_fmap. exists u. split; [done|].
    by eapply list_elem_of_lookup_2.
  - by apply IH.
Qed.

Lemma candidate_pairs (scores : Scores) (l : list (string * float64)) c :
  let score n := from_option ns_Score f0 (scores !! n) in
  (∀ n s, scores !! n = Some s → IsNaN (ns_Score s) = false) →
  (∀ x, x ∈ l ↔ ∃ s, scores !! x.1 = Some s ∧ x.2 = ns_Score s) →
  ordered_by (λ a b, fgt a.2 b.2) l →
  c ∈ all_pairs l ↔ sp_source c ∈ dom scores ∧ sp_target c ∈ dom scores ∧
    flt (score (sp_target c)) (score (sp_source c)) = true ∧
    sp_diff c = fsub (score (sp_source c)) (score (sp_target c)).
Proof.
  intros score Hn Hmem Hord. rewrite elem_of_all_pairs. split.
  - intros (i & j & x & y & Hij & Hx & Hy & Hle & ->). simpl.
    destruct (proj1 (Hmem x)) as (sx & Hsx & Hx2); [by eapply list_elem_of_lookup_2|].
    destruct (proj1 (Hmem y)) as (sy & Hsy & Hy2); [by eapply list_elem_of_lookup_2|].
    unfold score. rewrite Hsx, Hsy. simpl. rewrite Hx2, Hy2 in *.
    split_and!; [by eapply elem_of_dom_2..| |done]. apply fle_false_lt; [by eapply Hn..|done].
  - destruct c as [s t d]. simpl. intros ([ss Hs]%elem_of_dom & [st Ht]%elem_of_dom & Hlt & ->).
    unfold score in *. rewrite Hs, Ht in *. simpl in *.
    destruct (proj1 (list_elem_of_lookup l (s, ns_Score ss))) as [i Hi]; [apply Hmem; eauto|].
    destruct (proj1 (list_elem_of_lookup l (t, ns_Score st))) as [j Hj]; [apply Hmem; eauto|].
    exists i, j, (s, ns_Score ss), (t, ns_Score st). split_and!; [|done|done| |done].
    + destruct (decide (i < j)) as [|Hge]; [done|]. exfalso.
      destruct (decide (i = j)) as [->|Hne]; [simplify_eq; by rewrite flt_irrefl in Hlt|].
      assert (j < i) as Hji by lia.
      pose proof (Hord j i _ _ Hji Hj Hi) as Hf. simpl in Hf. unfold fgt in Hf. unfold flt in Hlt. congruence.
    + apply fle_false_lt; [by eapply Hn..|done].
Qed.

Lemma Plan_recs_ok (MR : MapRange) (SS : SortSlice) scores wls nodeEntries rules weights threshold :
  placed_once wls → scores !! "" = None →
  let recs := Plan scores wls nodeEntries rules weights threshold in
  length recs ≤ 20 ∧
  NoDup (r_VMID <$> recs) ∧
  ∀ r, r ∈ recs →
    r_SourceNode r ≠ r_TargetNode r ∧
    r_SourceNode r ∈ dom scores ∧ r_TargetNode r ∈ dom scores ∧
    ∃ w, w ∈ workloads_on wls (r_SourceNode r) ∧ w_VMID w = r_VMID r ∧
         w_Type w = r_VMType r ∧ w_Pinned w = false.
Proof.
  intros Hp Hs. destruct (Plan_run scores wls nodeEntries rules weights threshold Hp Hs)
    as (rs & wls' & -> & Hlen & Hh & Hdom & Hnn).
  destruct (hops_chain rules wls rs wls' Hp Hh) as (_ & Hch & _ & Hg).
  destruct (collapseHops_ok _ _ Hch) as (_ & Hnd & Hmove).
  pose proof (collapseHops_length _ _ Hch). unfold maxIterations in Hlen.
  split_and!; [lia|done|]. intros r Hr. destruct (Hmove r Hr) as [Hsrc Hne].
  destruct (collapseHops_from rs r Hr) as (r1 & r2 & H1 & H2 & Hv & Hty & Hs1 & Ht2).
  destruct (Hg r1 H1) as (w & (n & Hw)%elem_of_guests & Hk). injection Hk as Hwv Hwt Hwp.
  assert (r_SourceNode r = n) as Hn.
  { rewrite Hsrc. apply findVMNode_runs; [done|]. exists w. split; [done|congruence]. }
  split_and!; [done|rewrite Hs1; by apply Hdom|rewrite Ht2; by apply Hdom|].
  exists w. rewrite Hn. split_and!; congruence.
Qed.

Lemma Plan_rules_ok (MR : MapRange) (SS : SortSlice) scores wls nodeEntries rules weights threshold rule :
  placed_once wls → scores !! "" = None → rule ∈ rules →
  CheckViolations wls [rule] = [] →
  CheckViolations (carry_out (Plan scores wls nodeEntries rules weights threshold) wls) [rule] = [].
Proof.
  intros Hp Hs Hr. rewrite !CheckViolations_one.
  destruct (Plan_run scores wls nodeEntries rules weights threshold Hp Hs)
    as (rs & wls' & -> & _ & Hh & _ & Hnn).
  destruct (hops_chain rules wls rs wls' Hp Hh) as (_ & Hch & Hcarry & _).
  destruct (collapseHops_ok _ _ Hch) as (Hnet & Hnd & Hmove). intros Hv.
  rewrite <-(hops_keep_rules rules wls rs wls' rule) by done.
  apply rule_violations_same. intros v. fold (loc_of wls' v). rewrite Hcarry, <-Hnet.
  apply carry_out_loc; [done|by apply chained_distinct|].
  intros r (r1 & r2 & ? & _ & _ & _ & -> & _)%collapseHops_from. by apply Hnn.
Qed.

(** ** Properties *)

(** What the planner may recommend. From a placement that lists every guest once, [Plan]
    returns at most twenty recommendations, at most one per guest, each of a running guest that is
    not pinned, from the node that guest is on to a different node, and both nodes are among the
    scored ones. *)
Theorem Plan_recommendations (MR : MapRange) (SS : SortSlice) scores wls nodeEntries rules weights threshold :
  placed_once wls → scores !! "" = None →
  let recs := Plan scores wls nodeEntries rules weights threshold in
  length recs ≤ 20 ∧
  NoDup (r_VMID <$> recs) ∧
  ∀ r, r ∈ recs →
    r_SourceNode r ≠ r_TargetNode r ∧
    r_SourceNode r ∈ dom scores ∧ r_TargetNode r ∈ dom scores ∧
    ∃ w, w ∈ workloads_on wls (r_SourceNode r) ∧ w_VMID w = r_VMID r ∧
         w_Type w = r_VMType r ∧ w_Pinned w = false.
Proof. apply Plan_recs_ok. Qed.

Definition example_nodes : gmap string NodeListEntry :=
  {[ "pve1" := {| ne_Node := "pve1"; ne_Status := "online"; ne_MaxCPU := 16; ne_MaxMem := 2 ^ 34 |};
     "pve2" := {| ne_Node := "pve2"; ne_Status := "online"; ne_MaxCPU := 16; ne_MaxMem := 2 ^ 34 |};
     "pve3" := {| ne_Node := "pve3"; ne_Status := "online"; ne_MaxCPU := 16; ne_MaxMem := 2 ^ 34 |} ]}.

(** Three guests on one node of three; 101 and 102 must not share a node. *)
Definition example_placement : Placement :=
  {[ "pve1" := [example_guest 101 "pve1"; example_guest 103 "pve1"; example_guest 104 "pve1"];
     "pve2" := [example_guest 102 "pve2"] ]}.

Definition example_rules : list Rule :=
  [{| rule_Type := RuleTypeAntiAffinity; rule_VMIDs := [101; 102]%Z;
      rule_NodeNames := []; rule_Enabled := true |}].

Definition example_scores : Scores :=
  map_imap (λ n e, Some (ScoreNode e (workloads_on example_placement n) DefaultWeights)) example_nodes.

Definition example_plan : list Recommendation :=
  @Plan map_to_list_range insertion_sort_slice example_scores example_placement example_nodes
    example_rules DefaultWeights (f_lit 1 1).

Example example_plan_moves :
  (λ r, (r_VMID r, r_SourceNode r, r_TargetNode r)) <$> example_plan =
  [(101%Z, "pve1", "pve3")].
Proof. by vm_compute. Qed.

Lemma Plan_recommendations_witness :
  length example_plan ≤ 20 ∧ NoDup (r_VMID <$> example_plan).
Proof.
  destruct (Plan_recommendations map_to_list_range insertion_sort_slice example_scores
    example_placement example_nodes example_rules DefaultWeights (f_lit 1 1)) as (H1 & H2 & _).
  - apply (bool_decide_unpack _). by vm_compute.
  - by vm_compute.
  - split; [exact H1|exact H2].
Defined.

(** A plan breaks no rule. Carrying out every recommendation of [Plan] on the placement it was
    computed from leaves each affinity, anti-affinity and pin rule that was respected before still
    respected, although the greedy loop checked the rules along intermediate hops that the merged
    recommendations never make, and whatever order the maps are iterated in. *)
Theorem Plan_keeps_rules (MR : MapRange) (SS : SortSlice) scores wls nodeEntries rules weights threshold rule :
  placed_once wls → scores !! "" = None → rule ∈ rules →
  CheckViolations wls [rule] = [] →
  CheckViolations (carry_out (Plan scores wls nodeEntries rules weights threshold) wls) [rule] = [].
Proof. apply Plan_rules_ok. Qed.

Lemma Plan_keeps_rules_witness :
  @CheckViolations map_to_list_range (carry_out example_plan example_placement) example_rules = [].
Proof.
  apply (Plan_keeps_rules map_to_list_range insertion_sort_slice example_scores
    example_placement example_nodes example_rules DefaultWeights (f_lit 1 1)).
  - apply (bool_decide_unpack _). by vm_compute.
  - by vm_compute.
  - apply list_elem_of_here.
  - by vm_compute.
Defined.

(** Merging hops is net-neutral. On a chain of hops (each leaving from where its guest then
    is), [collapseHops] keeps at most one move per guest, drops every guest that came back to its
    origin, starts each move where the guest really is, and reaches the same final placement as the
    whole chain. *)
Theorem collapseHops_net loc recs :
  chained loc recs →
  (∀ v, carry (collapseHops recs) loc v = carry recs loc v) ∧
  NoDup (r_VMID <$> collapseHops recs) ∧
  (∀ r, r ∈ collapseHops recs → r_SourceNode r = loc (r_VMID r) ∧ r_SourceNode r ≠ r_TargetNode r) ∧
  length (collapseHops recs) ≤ length recs.
Proof.
  intros Hch. destruct (collapseHops_ok loc recs Hch) as (? & ? & ?).
  split_and!; [done..|by eapply collapseHops_length].
Qed.

Lemma collapseHops_net_witness :
  let hops := [example_move 101 "a" "b"; example_move 102 "a" "c"; example_move 101 "b" "c";
               example_move 102 "c" "a"] in
  length (collapseHops hops) ≤ 4.
Proof.
  intros hops.
  apply (collapseHops_net (λ _, "a") hops). subst hops. by vm_compute.
Defined.

(** A move is worth a live migration. Every hop the greedy loop accepts, on any state and with
    any number of iterations left, lowers the simulated imbalance by a gain that is not a NaN and is
    at least [minImprovement], and that gain is what the recommendation reports. *)
Theorem plan_loop_gain (MR : MapRange) (SS : SortSlice) nodeEntries rules weights n threshold st :
  let recs := (plan_loop nodeEntries rules weights n threshold st).2 in
  length recs ≤ n ∧
  ∀ r, r ∈ recs →
    r_ExpectedImprovement r = fsub (r_ScoreBefore r) (r_ScoreAfter r) ∧
    IsNaN (r_ExpectedImprovement r) = false ∧
    fle minImprovement (r_ExpectedImprovement r) = true.
Proof.
  pose proof (plan_loop_hops nodeEntries rules weights n threshold st) as Hl.
  destruct (plan_loop _ _ _ _ _ _) as [st' rs]. destruct Hl as (Hlen & Hh & _).
  split; [done|]. simpl. clear Hlen. generalize dependent (currentWorkloads st).
  induction rs as [|r rs IH]; intros wls; [by intros _ ? ?%not_elem_of_nil|].
  intros (mid & (_ & _ & _ & _ & _ & _ & _ & _ & _ & Hi1 & Hi2) & Hhs) r' [->|Hr']%elem_of_cons.
  - split_and!; [done| |done]. by apply fle_nan in Hi2 as [_ ?].
  - by eapply IH.
Qed.

(** The candidate pairs of an iteration. When no score is a NaN, [findSourceTargetPairs] lists
    exactly the pairs of nodes whose first scores strictly higher than the second, each once, the
    widest score gap first. *)
Theorem findSourceTargetPairs_spec (MR : MapRange) (SS : SortSlice) scores :
  (∀ n s, scores !! n = Some s → IsNaN (ns_Score s) = false) →
  let score n := from_option ns_Score f0 (scores !! n) in
  (∀ s t, (s, t) ∈ findSourceTargetPairs scores ↔
     s ∈ dom scores ∧ t ∈ dom scores ∧ flt (score t) (score s) = true) ∧
  NoDup (findSourceTargetPairs scores) ∧
  (∀ i j s1 t1 s2 t2, i < j → findSourceTargetPairs scores !! i = Some (s1, t1) →
     findSourceTargetPairs scores !! j = Some (s2, t2) →
     fgt (fsub (score s2) (score t2)) (fsub (score s1) (score t1)) = false).
Proof.
  intros Hnan score. unfold findSourceTargetPairs.
  destruct (Nat.ltb_spec (size scores) 2) as [Hsz|Hsz].
  { split_and!; [|constructor|intros ????????; by rewrite lookup_nil]. intros s t.
    split; [by intros ?%not_elem_of_nil|]. intros (Hs & Ht & Hlt). exfalso.
    destruct (decide (s = t)) as [->|Hne]; [by rewrite flt_irrefl in Hlt|].
    assert ({[s; t]} ⊆ dom scores) as Hsub by set_solver.
    apply subseteq_size in Hsub. rewrite size_union, !size_singleton, size_dom in Hsub by set_solver.
    lia. }
  pose proof (sorted_scores scores Hnan) as (Hmem & Hord & Hnd).
  set (l := sort_slice _ _) in *.
  assert (∀ c, c ∈ all_pairs l ↔ sp_source c ∈ dom scores ∧ sp_target c ∈ dom scores ∧
    flt (score (sp_target c)) (score (sp_source c)) = true ∧
    sp_diff c = fsub (score (sp_source c)) (score (sp_target c))) as Hc.
  { intros c. by apply candidate_pairs. }
  split_and!.
  - intros s t. rewrite list_elem_of_fmap. setoid_rewrite sort_slice_perm. setoid_rewrite Hc. split.
    + intros (c & [= -> ->] & ? & ? & ? & _). done.
    + intros (? & ? & ?). by exists {| sp_source := s; sp_target := t; sp_diff := fsub (score s) (score t) |}.
  - rewrite sort_slice_perm. by apply NoDup_all_pairs.
  - intros i j s1 t1 s2 t2 Hij. rewrite !list_lookup_fmap. set (k := sort_slice _ (all_pairs l)).
    intros (c1 & Hc1 & [= -> ->])%fmap_Some (c2 & Hc2 & [= -> ->])%fmap_Some.
    assert (∀ c, c ∈ k → sp_diff c = fsub (score (sp_source c)) (score (sp_target c))) as Hd.
    { intros c. unfold k. rewrite sort_slice_perm, Hc. tauto. }
    rewrite <-!Hd by (by eapply list_elem_of_lookup_2).
    eapply (sort_slice_ordered (λ a b, fgt (sp_diff a) (sp_diff b))); [|exact Hij|done..].
    apply fgt_strict_weak. intros c (_ & _ & Hlt & ->)%Hc. by apply fsub_not_nan.
Qed.

Lemma findSourceTargetPairs_spec_witness :
  ("pve1", "pve3") ∈ @findSourceTargetPairs map_to_list_range insertion_sort_slice example_scores.
Proof.
  apply (findSourceTargetPairs_spec map_to_list_range insertion_sort_slice example_scores).
  - intros n s Hs.
    assert (map_Forall (λ _ x, IsNaN (ns_Score x) = false) example_scores) as Hall.
    { apply (bool_decide_unpack _). by vm_compute. }
    exact (Hall n s Hs).
  - split_and!; [apply (bool_decide_unpack _); by vm_compute..|by vm_compute].
Defined.
