(* ===== verification/DrsEngine.v ===== *)
(** * Evaluating a cluster

    Models [internal/drs/engine.go]: what one evaluation reads, which of its
    reads must succeed, the guests it pins, and the plan it returns. The answers
    of the database and of Proxmox are the fields of [Reads]. *)

From S2P Require Import Prelude GoFloat GoStrings ProxmoxApi Crs DrsRules DrsPlanner.

(** ** Data *)

Record DrsConfig := {
  cfg_Enabled : bool;
  cfg_Mode : string;
  (** the JSON document, [None] when it does not decode *)
  cfg_Weights : option Weights;
  cfg_ImbalanceThreshold : float64;
  cfg_IncludeContainers : bool;
  cfg_ExcludeVeeamWorkers : bool;
}.

Record EvalResult := {
  er_Recommendations : list Recommendation;
  er_NodeScores : gmap string NodeScore;
  er_Imbalance : float64;
  er_Threshold : float64;
  er_Weights : Weights;
  er_BlockedByNativeCRS : bool;
  er_BlockReason : string;
}.

(** The answers one evaluation gets. [GetDRSConfig] answers [Ok None] for
    [pgx.ErrNoRows]. *)
Record Reads := {
  GetDRSConfig : result go_error (option DrsConfig);
  (** the error, if any, of the test seam, of the cache and of a per-call client *)
  newClient : option (option go_error);
  cacheGet : option (option go_error);
  NewClientForCluster : option go_error;
  GetClusterOptions : result go_error (option crs_value);
  GetNodes : result go_error (list NodeListEntry);
  GetHAStatus : result go_error (list HAStatusEntry);
  GetClusterResources : result go_error (list (Z * float64));
  GetVMs : string → result go_error (list Guest);
  GetContainers : string → result go_error (list Guest);
  GetHARules : result go_error (list HARuleEntry);
  GetHAResources : result go_error (list HAResource);
  GetHAGroups : result go_error (list HAGroup);
  GetVMConfig : string → Z → result go_error VMConfig;
  (** [None] when the engine has no Veeam queries *)
  ListVeeamInfrastructureGuestsForCluster : option (result go_error (list (Z * string)));
  ListDRSRules : result go_error (list DrsRule);
}.

(** ** HA state of the nodes *)

Definition open_paren : ascii := Ascii.ascii_of_nat 40.
Definition close_paren : ascii := Ascii.ascii_of_nat 41.

Definition extractLRMState (status : string) : string :=
  match index_func (ascii_eqb open_paren) status with
  | None => ""
  | Some open =>
      let rest := sdrop (S open) status in
      let token_end := default (slen rest) (index_func (contains [comma; close_paren]) rest) in
      let token := ToLower (TrimSpace (stake token_end rest)) in
      if HasPrefix token "maintenance" then "maintenance" else token
  end.

(** The nodes to skip, the entries without a usable state, the lrm entries. *)
Fixpoint classifyHAEntries (entries : list HAStatusEntry) : gset string * nat * nat :=
  match entries with
  | [] => (∅, 0, 0)
  | entry :: entries =>
      let '(skip, unparseable, lrmTotal) := classifyHAEntries entries in
      if negb (bool_decide (hs_Type entry = "lrm")) then (skip, unparseable, lrmTotal)
      else if bool_decide (hs_Node entry = "") then (skip, S unparseable, S lrmTotal)
      else
        let state := extractLRMState (hs_Status entry) in
        if contains ["active"; "idle"] state then (skip, unparseable, S lrmTotal)
        else if bool_decide (state = "") then (skip, S unparseable, S lrmTotal)
        else ({[hs_Node entry]} ∪ skip, unparseable, S lrmTotal)
  end.

Definition unhealthyHANodes (status : result go_error (list HAStatusEntry)) :
    result go_error (gset string) :=
  match status with
  | Err e => Err (wrap "read HA status for maintenance filter" e)
  | Ok entries =>
      let '(skip, unparseable, lrmTotal) := classifyHAEntries entries in
      if Nat.ltb 0 unparseable && Nat.eqb unparseable lrmTotal
      then Err (errorf ("read HA status for maintenance filter: none of the " +:+
             Itoa (Z.of_nat lrmTotal) +:+ " LRM entries had a parseable state (want " +:+
             String dquote "<node> (<state>, ...)" +:+
             String dquote "); the Proxmox HA status format may have changed"))
      else Ok skip
  end.

(** ** HA rules *)

Definition parseSIDToVMID (sid : string) : option Z :=
  match Cut colon sid with
  | (_, id, true) => match Atoi id with (vmid, None) => Some vmid | (_, Some _) => None end
  | (_, _, false) => None
  end.

Definition strip_priority (p : string) : string :=
  match index_func (ascii_eqb colon) p with Some idx => stake idx p | None => p end.

Definition parseHAGroupNodes (nodesStr : string) : list string :=
  if bool_decide (nodesStr = "") then []
  else strip_priority <$> filter (λ p, p ≠ "") (TrimSpace <$> Split comma nodesStr).

Definition pin_rule (vmids : list Z) (nodes : list string) : Rule :=
  {| rule_Type := RuleTypePin; rule_VMIDs := vmids; rule_NodeNames := nodes; rule_Enabled := true |}.
Definition affinity_rule (ty : string) (vmids : list Z) : Rule :=
  {| rule_Type := ty; rule_VMIDs := vmids; rule_NodeNames := []; rule_Enabled := true |}.

Definition ha_rule (entry : HARuleEntry) : option Rule :=
  if negb (hr_Disable entry =? 0)%Z then None
  else
    let vmIDs := omap (λ res, parseSIDToVMID (TrimSpace res)) (Split comma (hr_Resources entry)) in
    match vmIDs with
    | [] => None
    | _ =>
        if bool_decide (hr_Type entry = "node-affinity")
        then Some (pin_rule vmIDs (parseHAGroupNodes (hr_Nodes entry)))
        else if bool_decide (hr_Type entry = "resource-affinity")
        then Some (affinity_rule (if bool_decide (hr_Affinity entry = "negative")
                                  then RuleTypeAntiAffinity else RuleTypeAffinity) vmIDs)
        else None
    end.

(** The rules, and whether the rules API answered. *)
Definition importHARulesPVE9 (rd : Reads) : result go_error (list Rule * bool) :=
  match GetHARules rd with
  | Err e => if IsHARulesUnsupportedError e then Ok ([], false) else Err (wrap "list HA rules" e)
  | Ok haRules => Ok (omap ha_rule haRules, true)
  end.

Definition restricted_groups (groups : list HAGroup) : gmap string (list string) :=
  foldl (λ m g, if (hg_Restricted g =? 1)%Z
                then <[hg_Group g := parseHAGroupNodes (hg_Nodes g)]> m else m) ∅ groups.

Definition legacy_rule (restricted : gmap string (list string)) (res : HAResource) : option Rule :=
  if bool_decide (hres_Group res = "") then None
  else match restricted !! hres_Group res with
       | None => None
       | Some nodes =>
           match parseSIDToVMID (hres_SID res) with
           | None => None
           | Some vmid => Some (pin_rule [vmid] nodes)
           end
       end.

Definition importHARulesLegacy (rd : Reads) : result go_error (list Rule) :=
  match GetHAResources rd with
  | Err e => Err (wrap "list HA resources" e)
  | Ok haResources =>
      match GetHAGroups rd with
      | Err e => if IsGroupsMigratedError e then Ok [] else Err (wrap "list HA groups" e)
      | Ok haGroups =>
          let restricted := restricted_groups haGroups in
          if Nat.eqb (size restricted) 0 then Ok []
          else Ok (omap (legacy_rule restricted) haResources)
      end
  end.

Definition importHARules (rd : Reads) : result go_error (list Rule) :=
  let? (rules, available) := importHARulesPVE9 rd in
  if available then Ok rules else importHARulesLegacy rd.

(** ** Workloads *)

Definition skipped_guest (g : Guest) : bool :=
  negb (bool_decide (g_Status g = "running")) || (g_Template g =? 1)%Z.

Definition workload_of (ty node : string) (pinned : bool) (resourceCPU : gmap Z float64) (g : Guest) :
    Workload := {|
  w_VMID := g_VMID g; w_Name := g_Name g; w_Type := ty; w_Node := node;
  w_CPUUsage := GuestCPU (bool_decide (g_Status g = "running")) (g_CPU g)
                         (default f0 (resourceCPU !! g_VMID g));
  w_CPUs := g_CPUs g; w_Mem := g_Mem g; w_MaxMem := g_MaxMem g; w_NetIn := g_NetIn g;
  w_NetOut := g_NetOut g; w_Status := g_Status g; w_Pinned := pinned |}.

Definition collectNodeWorkloads (rd : Reads) (node : string) (includeContainers : bool)
    (resourceCPU : gmap Z float64) : result go_error (list Workload) :=
  match GetVMs rd node with
  | Err e => Err (wrap "list VMs" e)
  | Ok vms =>
      match GetContainers rd node with
      | Err e => Err (wrap "list containers" e)
      | Ok cts =>
          Ok ((workload_of "qemu" node false resourceCPU <$>
                 filter (λ g, skipped_guest g = false) vms) ++
              (workload_of "lxc" node (negb includeContainers) resourceCPU <$>
                 filter (λ g, skipped_guest g = false) cts))
      end
  end.

(** ** Pins *)

Definition with_pin (w : Workload) : Workload := {|
  w_VMID := w_VMID w; w_Name := w_Name w; w_Type := w_Type w; w_Node := w_Node w;
  w_CPUUsage := w_CPUUsage w; w_CPUs := w_CPUs w; w_Mem := w_Mem w; w_MaxMem := w_MaxMem w;
  w_NetIn := w_NetIn w; w_NetOut := w_NetOut w; w_Status := w_Status w; w_Pinned := true |}.

Definition usb_passthrough (config : VMConfig) (key : string) : bool :=
  match config !! key with
  | None => false
  | Some (CfgString s) => negb (bool_decide (s = "spice"))
  | Some CfgOther => true
  end.

Definition hasPassthrough (config : VMConfig) : bool :=
  existsb (λ i, bool_decide (is_Some (config !! ("hostpci" +:+ Itoa i)))) (seqZ 0 16) ||
  existsb (λ i, usb_passthrough config ("usb" +:+ Itoa i)) (seqZ 0 5).

Definition pin_passthrough (rd : Reads) (node : string) (w : Workload) : Workload :=
  if negb (bool_decide (w_Type w = "qemu")) then w
  else match GetVMConfig rd node (w_VMID w) with
       | Err _ => w
       | Ok config => if hasPassthrough config then with_pin w else w
       end.

(** Both pinning passes write through the slices of the map. *)
Definition pin_node (rd : Reads) (node : string) (ws : list Workload) : list Workload :=
  pin_passthrough rd node <$> ws.

Definition detectPassthrough (rd : Reads) (wls : Placement) : Placement :=
  map_imap (λ node ws, Some (pin_node rd node ws)) wls.

Definition veeam_roles (owned : list (Z * string)) : gmap Z string :=
  foldl (λ m row, match m !! row.1 with Some _ => m | None => <[row.1 := row.2]> m end) ∅ owned.

Definition pin_veeam (roleByVMID : gmap Z string) (ws : list Workload) : list Workload :=
  (λ w, match roleByVMID !! w_VMID w with
        | None => w
        | Some _ => if w_Pinned w then w else with_pin w
        end) <$> ws.

Definition pinVeeamInfrastructure (rd : Reads) (enabled : bool) (wls : Placement) : Placement :=
  if negb enabled then wls
  else match ListVeeamInfrastructureGuestsForCluster rd with
       | None | Some (Err _) | Some (Ok []) => wls
       | Some (Ok owned) =>
           let roleByVMID := veeam_roles owned in
           pin_veeam roleByVMID <$> wls
       end.

(** ** The evaluation *)

Definition createClient (rd : Reads) : option go_error :=
  match newClient rd with
  | Some answer => answer
  | None =>
      match cacheGet rd with
      | Some None => None
      | _ => NewClientForCluster rd
      end
  end.

Section evaluate.
Context `{MR : MapRange} `{SS : SortSlice} (FormatFloat : float64 → string).

Definition drsBlockedByNativeCRS (mode : string) (opts : option crs_value) : bool :=
  match opts with
  | None => false
  | Some crs => bool_decide (mode = "automatic") &&
                AutoRebalanceActive (ParseCRSSettings FormatFloat crs)
  end.

(** The coexistence guard fails open: an option nobody could read blocks nothing. *)
Definition native_crs_blocks (rd : Reads) (mode : string) : bool :=
  if bool_decide (mode = "automatic") then
    match GetClusterOptions rd with
    | Err _ => false
    | Ok opts => drsBlockedByNativeCRS mode opts
    end
  else false.

Definition blocked_result : EvalResult := {|
  er_Recommendations := []; er_NodeScores := ∅; er_Imbalance := f0; er_Threshold := f0;
  er_Weights := {| wt_CPU := f0; wt_Memory := f0 |}; er_BlockedByNativeCRS := true;
  er_BlockReason := "Proxmox native CRS auto-rebalance is enabled on this cluster; Nexara DRS automatic migrations are disabled to avoid conflicting migrations. Advisory mode still works." |}.

Definition resource_cpu (rd : Reads) : gmap Z float64 :=
  match GetClusterResources rd with
  | Err _ => ∅
  | Ok resources => foldl (λ m r, <[r.1 := r.2]> m) ∅ resources
  end.

(** The loop over the nodes and what it has gathered. *)
Record Collected := {
  col_nodeWorkloads : Placement;
  col_nodeEntries : gmap string NodeListEntry;
  col_eligible : nat;
  col_unreadable : nat;
  col_lastListErr : option go_error;
}.

Definition eligible_node (unhealthy : gset string) (n : NodeListEntry) : bool :=
  bool_decide (ne_Status n = "online") && negb (bool_decide (ne_Node n ∈ unhealthy)).

Definition collect_node (rd : Reads) (includeContainers : bool) (resourceCPU : gmap Z float64)
    (unhealthy : gset string) (c : Collected) (n : NodeListEntry) : Collected :=
  if negb (eligible_node unhealthy n) then c
  else match collectNodeWorkloads rd (ne_Node n) includeContainers resourceCPU with
       | Err e => {| col_nodeWorkloads := col_nodeWorkloads c; col_nodeEntries := col_nodeEntries c;
                     col_eligible := S (col_eligible c); col_unreadable := S (col_unreadable c);
                     col_lastListErr := Some e |}
       | Ok wl => {| col_nodeWorkloads := match wl with
                                          | [] => col_nodeWorkloads c
                                          | _ => <[ne_Node n := wl]> (col_nodeWorkloads c)
                                          end;
                     col_nodeEntries := <[ne_Node n := n]> (col_nodeEntries c);
                     col_eligible := S (col_eligible c); col_unreadable := col_unreadable c;
                     col_lastListErr := col_lastListErr c |}
       end.

Definition collect_nodes (rd : Reads) (cfg : DrsConfig) (unhealthy : gset string)
    (nodes : list NodeListEntry) : Collected :=
  foldl (collect_node rd (cfg_IncludeContainers cfg) (resource_cpu rd) unhealthy)
    {| col_nodeWorkloads := ∅; col_nodeEntries := ∅; col_eligible := 0; col_unreadable := 0;
       col_lastListErr := None |} nodes.

(** Below two readable nodes there is nothing to compare, and a failure to read
    must not become a verdict. *)
Definition enough_nodes (c : Collected) : result go_error () :=
  if Nat.ltb 0 (col_unreadable c) && Nat.ltb (size (col_nodeEntries c)) 2
  then Err (wrap ("only " +:+ Itoa (Z.of_nat (size (col_nodeEntries c))) +:+ " of " +:+
                  Itoa (Z.of_nat (col_eligible c)) +:+
                  " eligible node(s) could be listed, need at least 2 to compare")
             (default (errorf "") (col_lastListErr c)))
  else Ok ().

Definition score_nodes (entries : gmap string NodeListEntry) (wls : Placement) (weights : Weights) :
    Scores :=
  map_imap (λ name n, Some (ScoreNode n (workloads_on wls name) weights)) entries.

Definition plan_result (rd : Reads) (cfg : DrsConfig) (weights : Weights) (wls : Placement)
    (entries : gmap string NodeListEntry) (haRules : list Rule) : result go_error EvalResult :=
  let scores := score_nodes entries wls weights in
  let imbalance := CalculateImbalance scores in
  let res recs := {| er_Recommendations := recs; er_NodeScores := scores; er_Imbalance := imbalance;
                     er_Threshold := cfg_ImbalanceThreshold cfg; er_Weights := weights;
                     er_BlockedByNativeCRS := false; er_BlockReason := "" |} in
  if fle imbalance (cfg_ImbalanceThreshold cfg) then Ok (res [])
  else match ListDRSRules rd with
       | Err e => Err (wrap "list DRS rules" e)
       | Ok dbRules =>
           let rules := ParseDBRules dbRules ++ haRules in
           Ok (res (Plan scores wls entries rules weights (cfg_ImbalanceThreshold cfg)))
       end.

(** From the node list on. *)
Definition evaluate_cluster (rd : Reads) (cfg : DrsConfig) (weights : Weights) :
    result go_error EvalResult :=
  match GetNodes rd with
  | Err e => Err (wrap "get nodes" e)
  | Ok nodes =>
      let? unhealthy := unhealthyHANodes (GetHAStatus rd) in
      let c := collect_nodes rd cfg unhealthy nodes in
      let? _ := enough_nodes c in
      match importHARules rd with
      | Err e => Err (wrap "import HA rules" e)
      | Ok haRules =>
          let wls := pinVeeamInfrastructure rd (cfg_ExcludeVeeamWorkers cfg)
                       (detectPassthrough rd (col_nodeWorkloads c)) in
          plan_result rd cfg weights wls (col_nodeEntries c) haRules
      end
  end.

(** [Ok None] is the nil result of a cluster DRS has nothing to do for. *)
Definition Evaluate (rd : Reads) : result go_error (option EvalResult) :=
  match GetDRSConfig rd with
  | Err e => Err (wrap "get DRS config" e)
  | Ok None => Ok None
  | Ok (Some cfg) =>
      if negb (cfg_Enabled cfg) || bool_decide (cfg_Mode cfg = "disabled") then Ok None
      else
        let weights := default DefaultWeights (cfg_Weights cfg) in
        match createClient rd with
        | Some e => Err (wrap "create proxmox client" e)
        | None =>
            if native_crs_blocks rd (cfg_Mode cfg) then Ok (Some blocked_result)
            else result_map Some (evaluate_cluster rd cfg weights)
        end
  end.
End evaluate.

(** ** Lemmas *)

Definition readable (rd : Reads) (node : string) : Prop :=
  is_ok (GetVMs rd node) = true ∧ is_ok (GetContainers rd node) = true.

Lemma collectNodeWorkloads_ok rd node inc cpu :
  (∃ wl, collectNodeWorkloads rd node inc cpu = Ok wl) ↔ readable rd node.
Proof.
  unfold collectNodeWorkloads, readable.
  destruct (GetVMs rd node); simpl; [|by split; [intros [? ?]|intros [? ?]]].
  destruct (GetContainers rd node); simpl; [|by split; [intros [? ?]|intros [? ?]]].
  split; [done|]. intros _. by eexists.
Qed.

(** Where a listed workload comes from. *)
Definition listed (rd : Reads) (inc : bool) (node : string) (w : Workload) : Prop :=
  w_Node w = node ∧
  ((w_Type w = "qemu" ∧ w_Pinned w = false ∧
      ∃ vms g, GetVMs rd node = Ok vms ∧ g ∈ vms ∧ skipped_guest g = false ∧ g_VMID g = w_VMID w) ∨
   (w_Type w = "lxc" ∧ w_Pinned w = negb inc ∧
      ∃ cts g, GetContainers rd node = Ok cts ∧ g ∈ cts ∧ skipped_guest g = false ∧ g_VMID g = w_VMID w)).

Lemma collectNodeWorkloads_listed rd node inc cpu wl w :
  collectNodeWorkloads rd node inc cpu = Ok wl → w ∈ wl → listed rd inc node w.
Proof.
  unfold collectNodeWorkloads. intros H. destruct (GetVMs rd node) as [vms|] eqn:Hv; [|done].
  destruct (GetContainers rd node) as [cts|] eqn:Hc; [|done]. injection H as <-.
  intros [(g & -> & [? ?]%list_elem_of_filter)%list_elem_of_fmap|
          (g & -> & [? ?]%list_elem_of_filter)%list_elem_of_fmap]%elem_of_app;
    (split; [done|]); [left|right]; split_and!; try done; eauto 8.
Qed.

(** What the collecting loop knows after the nodes [dn]. *)
Definition collected_ok (rd : Reads) (inc : bool) (unhealthy : gset string)
    (dn : list NodeListEntry) (c : Collected) : Prop :=
  (∀ n, n ∈ dom (col_nodeEntries c) ↔
     readable rd n ∧ ∃ e, e ∈ dn ∧ eligible_node unhealthy e = true ∧ ne_Node e = n) ∧
  (∀ n w, w ∈ workloads_on (col_nodeWorkloads c) n → n ∈ dom (col_nodeEntries c) ∧ listed rd inc n w).

Lemma collect_node_ok rd inc cpu unhealthy dn c n :
  collected_ok rd inc unhealthy dn c →
  collected_ok rd inc unhealthy (dn ++ [n]) (collect_node rd inc cpu unhealthy c n).
Proof.
  intros [H1 H2]. unfold collect_node.
  assert (∀ P : NodeListEntry → Prop, (∃ e, e ∈ dn ++ [n] ∧ P e) ↔ (∃ e, e ∈ dn ∧ P e) ∨ P n) as Happ.
  { intros P. setoid_rewrite elem_of_app. setoid_rewrite list_elem_of_singleton. naive_solver. }
  destruct (eligible_node unhealthy n) eqn:Hel; simpl.
  2: { split; [|done]. intros m. rewrite H1, Happ. naive_solver congruence. }
  destruct (collectNodeWorkloads rd (ne_Node n) inc cpu) as [wl|e] eqn:Hwl.
  - assert (readable rd (ne_Node n)) as Hr by (apply (collectNodeWorkloads_ok _ _ inc cpu); eauto).
    split; simpl.
    + intros m. rewrite dom_insert, elem_of_union, elem_of_singleton, H1, Happ. naive_solver.
    + intros m w Hw. rewrite dom_insert, elem_of_union, elem_of_singleton.
      destruct wl as [|x wl]; [destruct (H2 m w Hw); auto|].
      rewrite workloads_on_insert in Hw. case_decide as Hm; [|destruct (H2 m w Hw); auto].
      subst m. split; [by left|]. by eapply collectNodeWorkloads_listed.
  - assert (¬ readable rd (ne_Node n)) as Hr.
    { intros Hr. apply (collectNodeWorkloads_ok _ _ inc cpu) in Hr as [? ?]. congruence. }
    split; simpl; [|done]. intros m. rewrite H1, Happ. naive_solver.
Qed.

Lemma collect_nodes_ok rd cfg unhealthy nodes :
  collected_ok rd (cfg_IncludeContainers cfg) unhealthy nodes (collect_nodes rd cfg unhealthy nodes).
Proof.
  unfold collect_nodes. set (c0 := {| col_nodeWorkloads := ∅ |}).
  assert (collected_ok rd (cfg_IncludeContainers cfg) unhealthy [] c0) as H0.
  { split; [set_solver|]. intros n w. unfold workloads_on. simpl. rewrite lookup_empty.
    by intros ?%not_elem_of_nil. }
  change nodes with ([] ++ nodes) at 1. revert H0. generalize (@nil NodeListEntry) as dn, c0.
  induction nodes as [|n nodes IH]; intros dn c Hc; simpl; [by rewrite app_nil_r|].
  rewrite cons_middle, (assoc_L (++)). apply IH. by apply collect_node_ok.
Qed.

(** Pinning changes nothing but the pin. *)
Definition pins_only (w w' : Workload) : Prop :=
  w_VMID w' = w_VMID w ∧ w_Type w' = w_Type w ∧ w_Node w' = w_Node w ∧
  (w_Pinned w = true → w_Pinned w' = true).

Lemma detectPassthrough_on rd wls n :
  workloads_on (detectPassthrough rd wls) n = pin_node rd n (workloads_on wls n).
Proof.
  unfold workloads_on, detectPassthrough. rewrite map_lookup_imap. by destruct (wls !! n).
Qed.

Definition veeam_owned (rd : Reads) (enabled : bool) (v : Z) : Prop :=
  enabled = true ∧ ∃ owned, ListVeeamInfrastructureGuestsForCluster rd = Some (Ok owned) ∧
    v ∈ owned.*1.

Lemma veeam_roles_dom owned v : is_Some (veeam_roles owned !! v) ↔ v ∈ owned.*1.
Proof.
  unfold veeam_roles. set (step := λ m row, _).
  assert (∀ m, is_Some (foldl step m owned !! v) ↔ is_Some (m !! v) ∨ v ∈ owned.*1) as H.
  { induction owned as [|[u role] owned IH]; intros m; csimpl.
    { split; [by left|]. by intros [?|?%not_elem_of_nil]. }
    rewrite IH, elem_of_cons. unfold step. simpl.
    destruct (m !! u) as [r|] eqn:Hu.
    - destruct (decide (v = u)) as [->|?]; [|naive_solver]. rewrite Hu.
      split; intros _; left; by eexists.
    - destruct (decide (v = u)) as [->|?].
      + rewrite lookup_insert_eq. split; [by auto|]. intros _. left. by eexists.
      + rewrite lookup_insert_ne by done. naive_solver. }
  rewrite H, lookup_empty. split; [|by right]. intros [[? ?]|?]; done.
Qed.

Definition pinned_placement (rd : Reads) (cfg : DrsConfig) (wls : Placement) : Placement :=
  pinVeeamInfrastructure rd (cfg_ExcludeVeeamWorkers cfg) (detectPassthrough rd wls).

Lemma pin_veeam_on rd enabled wls n :
  ∃ f, workloads_on (pinVeeamInfrastructure rd enabled wls) n = f <$> workloads_on wls n ∧
    ∀ w, pins_only w (f w) ∧ (w_Pinned (f w) = false → f w = w ∧ ¬ veeam_owned rd enabled (w_VMID w)).
Proof.
  unfold pinVeeamInfrastructure, veeam_owned.
  destruct enabled; simpl;
    [|exists id; split; [by rewrite list_fmap_id|]; intros w; by split; [|split; [|by intros [? _]]]].
  destruct (ListVeeamInfrastructureGuestsForCluster rd) as [[[|o os]|e]|].
  1,3,4: exists id; (split; [by rewrite list_fmap_id|]); intros w; (split; [done|]);
    intros _; (split; [done|]); intros (_ & owned & [= <-] & Hin); by apply not_elem_of_nil in Hin.
  set (owned := o :: os).
  exists (λ w, match veeam_roles owned !! w_VMID w with
               | None => w | Some _ => if w_Pinned w then w else with_pin w end).
  split; [unfold workloads_on; rewrite lookup_fmap; by destruct (wls !! n)|].
  intros w. destruct (veeam_roles owned !! w_VMID w) as [role|] eqn:Hr.
  - destruct (w_Pinned w) eqn:Hp; (split; [done|]); simpl; congruence.
  - split; [done|]. intros _. split; [done|]. intros (_ & ? & [= <-] & Hin).
    apply veeam_roles_dom in Hin as [? ?]. congruence.
Qed.

Lemma pin_passthrough_pins rd n w :
  pins_only w (pin_passthrough rd n w) ∧
  (w_Pinned (pin_passthrough rd n w) = false → pin_passthrough rd n w = w ∧
     (w_Type w = "qemu" → ∀ config, GetVMConfig rd n (w_VMID w) = Ok config → hasPassthrough config = false)).
Proof.
  unfold pin_passthrough, pins_only. case_bool_decide as Hq; simpl; [|naive_solver].
  destruct (GetVMConfig rd n (w_VMID w)) as [config|]; [|naive_solver].
  destruct (hasPassthrough config) eqn:Hp; naive_solver.
Qed.

Lemma pinned_placement_on rd cfg wls n :
  ∃ f, workloads_on (pinned_placement rd cfg wls) n = f <$> workloads_on wls n ∧
    ∀ w, pins_only w (f w) ∧
      (w_Pinned (f w) = false → w_Pinned w = false ∧
         (w_Type w = "qemu" → ∀ config, GetVMConfig rd n (w_VMID w) = Ok config →
            hasPassthrough config = false) ∧
         ¬ veeam_owned rd (cfg_ExcludeVeeamWorkers cfg) (w_VMID w)).
Proof.
  unfold pinned_placement.
  destruct (pin_veeam_on rd (cfg_ExcludeVeeamWorkers cfg) (detectPassthrough rd wls) n) as (f & Hf & Hpin).
  exists (f ∘ pin_passthrough rd n). split.
  { rewrite Hf, detectPassthrough_on. unfold pin_node. by rewrite <-list_fmap_compose. }
  intros w. simpl. destruct (pin_passthrough_pins rd n w) as [(H1 & H2 & H3 & H4) H5].
  destruct (Hpin (pin_passthrough rd n w)) as [(I1 & I2 & I3 & I4) I5].
  split; [split_and!; [congruence..|auto]|].
  intros Hnp. destruct (I5 Hnp) as [Heq Hv]. rewrite Heq in Hnp. destruct (H5 Hnp) as [Heq' Hc].
  rewrite Heq' in Hnp, Hv. done.
Qed.

Lemma pinned_placement_once rd cfg wls :
  placed_once wls → placed_once (pinned_placement rd cfg wls).
Proof.
  intros Hp. assert (∀ n, w_VMID <$> workloads_on (pinned_placement rd cfg wls) n =
    w_VMID <$> workloads_on wls n) as Hids.
  { intros n. destruct (pinned_placement_on rd cfg wls n) as (f & -> & Hf).
    rewrite <-list_fmap_compose. apply list_fmap_ext. intros i w _. by destruct (Hf w) as [[? _] _]. }
  assert (∀ v n, runs_on (pinned_placement rd cfg wls) v n ↔ runs_on wls v n) as Hruns.
  { intros v n. unfold runs_on.
    assert (∀ ws : list Workload, (∃ w, w ∈ ws ∧ w_VMID w = v) ↔ v ∈ w_VMID <$> ws) as Hex.
    { intros ws. rewrite list_elem_of_fmap. naive_solver. }
    by rewrite !Hex, Hids. }
  apply placed_once_alt in Hp as [H1 H2]. apply placed_once_alt. split.
  - intros n. by rewrite Hids.
  - intros v n1 n2. rewrite !Hruns. apply H2.
Qed.

Lemma dom_score_nodes entries wls weights : dom (score_nodes entries wls weights) = dom entries.
Proof.
  unfold score_nodes. apply set_eq. intros n. rewrite !elem_of_dom, map_lookup_imap.
  destruct (entries !! n); simpl; split; intros [? ?]; try done; by eexists.
Qed.

Section evaluate_lemmas.
Context `{MR : MapRange} `{SS : SortSlice} (FormatFloat : float64 → string).

(** The shape of a successful evaluation that the native balancer did not block. *)
Lemma Evaluate_inv rd res :
  Evaluate FormatFloat rd = Ok (Some res) →
  ∃ cfg, GetDRSConfig rd = Ok (Some cfg) ∧ cfg_Enabled cfg = true ∧ cfg_Mode cfg ≠ "disabled" ∧
    createClient rd = None ∧
    ((res = blocked_result ∧ native_crs_blocks FormatFloat rd (cfg_Mode cfg) = true) ∨
     (native_crs_blocks FormatFloat rd (cfg_Mode cfg) = false ∧
      evaluate_cluster rd cfg (default DefaultWeights (cfg_Weights cfg)) = Ok res)).
Proof.
  unfold Evaluate. intros H. destruct (GetDRSConfig rd) as [[cfg|]|]; try done. exists cfg.
  destruct (cfg_Enabled cfg); simpl in H; [|done]. case_bool_decide; [done|].
  destruct (createClient rd); [done|].
  destruct (native_crs_blocks FormatFloat rd (cfg_Mode cfg)); [naive_solver|].
  destruct (evaluate_cluster _ _ _) as [r|]; simpl in H; [|done]. naive_solver.
Qed.

Lemma evaluate_cluster_inv rd cfg weights res :
  evaluate_cluster rd cfg weights = Ok res →
  ∃ nodes unhealthy haRules,
    GetNodes rd = Ok nodes ∧ unhealthyHANodes (GetHAStatus rd) = Ok unhealthy ∧
    importHARules rd = Ok haRules ∧
    let c := collect_nodes rd cfg unhealthy nodes in
    enough_nodes c = Ok () ∧
    plan_result rd cfg weights (pinned_placement rd cfg (col_nodeWorkloads c)) (col_nodeEntries c) haRules
      = Ok res.
Proof.
  unfold evaluate_cluster. intros H. destruct (GetNodes rd) as [nodes|]; [|done].
  destruct (unhealthyHANodes (GetHAStatus rd)) as [unhealthy|]; [|done]. cbn zeta in H.
  destruct (enough_nodes _) as [[]|] eqn:Hen; [|done].
  destruct (importHARules rd) as [haRules|]; [|done].
  exists nodes, unhealthy, haRules. by split_and!.
Qed.

Lemma plan_result_inv rd cfg weights wls entries haRules res :
  plan_result rd cfg weights wls entries haRules = Ok res →
  let scores := score_nodes entries wls weights in
  er_NodeScores res = scores ∧ er_BlockedByNativeCRS res = false ∧
  (er_Recommendations res = [] ∨
   fle (CalculateImbalance scores) (cfg_ImbalanceThreshold cfg) = false ∧
   ∃ dbRules, ListDRSRules rd = Ok dbRules ∧
     er_Recommendations res = Plan scores wls entries (ParseDBRules dbRules ++ haRules) weights
       (cfg_ImbalanceThreshold cfg)).
Proof.
  intros H scores. unfold plan_result in H. fold scores in H.
  destruct (fle _ _) eqn:Hle; [injection H as <-; by auto|].
  destruct (ListDRSRules rd) as [dbRules|]; [|done]. injection H as <-. simpl. eauto 8.
Qed.
End evaluate_lemmas.

(** ** Properties *)

(** C35: an evaluation fails closed. When [Evaluate] returns a result, DRS is enabled for the
    cluster. A result blocked by Proxmox's own balancer carries no recommendation and only arises in
    automatic mode. Otherwise the node list and the HA status were read, not every LRM entry was
    unparseable, the HA rules were read (or the cluster is too old to have them and the legacy
    resources and groups were read), at least two nodes are scored whenever one could not be read,
    and recommendations only exist above the threshold with the DRS rules read. *)
Theorem Evaluate_fails_closed (MR : MapRange) (SS : SortSlice) FormatFloat rd res :
  Evaluate FormatFloat rd = Ok (Some res) →
  ∃ cfg, GetDRSConfig rd = Ok (Some cfg) ∧ cfg_Enabled cfg = true ∧ cfg_Mode cfg ≠ "disabled" ∧
  if er_BlockedByNativeCRS res
  then cfg_Mode cfg = "automatic" ∧ er_Recommendations res = []
  else
    is_ok (GetNodes rd) = true ∧
    (∃ entries, GetHAStatus rd = Ok entries ∧
       let '(_, unparseable, lrmTotal) := classifyHAEntries entries in
       unparseable = 0 ∨ unparseable ≠ lrmTotal) ∧
    (is_ok (GetHARules rd) = true ∨
     (∃ e, GetHARules rd = Err e ∧ err_status e = Some 501%Z) ∧
     is_ok (GetHAResources rd) = true ∧
     (is_ok (GetHAGroups rd) = true ∨
      ∃ e, GetHAGroups rd = Err e ∧ IsGroupsMigratedError e = true)) ∧
    (∀ nodes unhealthy, GetNodes rd = Ok nodes → unhealthyHANodes (GetHAStatus rd) = Ok unhealthy →
       col_unreadable (collect_nodes rd cfg unhealthy nodes) = 0 ∨ 2 ≤ size (er_NodeScores res)) ∧
    (er_Recommendations res ≠ [] →
       is_ok (ListDRSRules rd) = true ∧
       fle (CalculateImbalance (er_NodeScores res)) (cfg_ImbalanceThreshold cfg) = false).
Proof.
  intros (cfg & Hcfg & Hen & Hmode & _ & Hcase)%Evaluate_inv. exists cfg. split_and!; [done..|].
  destruct Hcase as [[-> Hb]|[Hb (nodes & unhealthy & haRules & Hn & Hu & Hr & Henough & Hplan)%evaluate_cluster_inv]].
  { simpl. unfold native_crs_blocks in Hb. split; [|done]. by case_bool_decide. }
  apply plan_result_inv in Hplan as (Hs & -> & Hrec). rewrite <-Hs in Hrec.
  split_and!; [by rewrite Hn| | | |].
  - unfold unhealthyHANodes in Hu. destruct (GetHAStatus rd) as [entries|]; [|done].
    exists entries. split; [done|]. destruct (classifyHAEntries entries) as [[skip u] t].
    destruct (Nat.ltb_spec 0 u); simpl in Hu; [|left; lia].
    destruct (Nat.eqb_spec u t); [done|by right].
  - unfold importHARules, importHARulesPVE9 in Hr. destruct (GetHARules rd) as [hr|e]; [by left|right].
    unfold IsHARulesUnsupportedError in Hr. case_bool_decide; [|done]. split; [by eauto|].
    unfold importHARulesLegacy in Hr. destruct (GetHAResources rd); [|done]. split; [done|].
    destruct (GetHAGroups rd) as [gs|e']; [by left|right]. exists e'. split; [done|].
    by destruct (IsGroupsMigratedError e').
  - intros nodes' unhealthy' Hn' Hu'. rewrite Hn in Hn'. rewrite Hu in Hu'.
    injection Hn' as <-. injection Hu' as <-. unfold enough_nodes in Henough. rewrite Hs.
    rewrite <-size_dom, dom_score_nodes, size_dom.
    destruct (Nat.ltb_spec 0 (col_unreadable (collect_nodes rd cfg unhealthy nodes))); [|left; lia].
    destruct (Nat.ltb_spec (size (col_nodeEntries (collect_nodes rd cfg unhealthy nodes))) 2);
      [done|by right].
  - intros Hne. destruct Hrec as [?|(Hle & dbRules & -> & _)]; done.
Qed.

(** C1: what DRS may move, and where. Let the guests the evaluation lists be each on one node, and
    the nodes be named. Every recommendation moves a running guest off the node it is listed on to
    another one; both nodes are online, out of HA maintenance, and had their VMs and containers read,
    so a node nobody could read is never a source or a target. A container is moved only with
    containers included. A VM is moved only if its configuration passes no device through, or could
    not be read: detectPassthrough goes on without pinning such a VM. A guest that the lookup of
    Veeam's guests lists is moved only if those are not excluded; where that lookup fails, none is
    excluded. *)
Theorem Evaluate_recommendations (MR : MapRange) (SS : SortSlice) FormatFloat rd res cfg nodes unhealthy :
  Evaluate FormatFloat rd = Ok (Some res) →
  GetDRSConfig rd = Ok (Some cfg) → GetNodes rd = Ok nodes →
  unhealthyHANodes (GetHAStatus rd) = Ok unhealthy →
  placed_once (col_nodeWorkloads (collect_nodes rd cfg unhealthy nodes)) →
  (∀ e, e ∈ nodes → ne_Node e ≠ "") →
  ∀ r, r ∈ er_Recommendations res →
    r_SourceNode r ≠ r_TargetNode r ∧
    (∀ n, n = r_SourceNode r ∨ n = r_TargetNode r →
       readable rd n ∧ ∃ e, e ∈ nodes ∧ ne_Node e = n ∧ ne_Status e = "online" ∧ n ∉ unhealthy) ∧
    ∃ w, listed rd (cfg_IncludeContainers cfg) (r_SourceNode r) w ∧
      w_VMID w = r_VMID r ∧ w_Type w = r_VMType r ∧
      (w_Type w = "lxc" → cfg_IncludeContainers cfg = true) ∧
      (w_Type w = "qemu" → ∀ config, GetVMConfig rd (r_SourceNode r) (r_VMID r) = Ok config →
         hasPassthrough config = false) ∧
      ¬ veeam_owned rd (cfg_ExcludeVeeamWorkers cfg) (r_VMID r).
Proof.
  intros (cfg' & Hcfg & _ & _ & _ & Hcase)%Evaluate_inv Hcfg' Hn Hu Hp Hnames r Hr.
  rewrite Hcfg' in Hcfg. injection Hcfg as <-.
  destruct Hcase as [[-> _]|[_ (nodes' & unhealthy' & haRules & Hn' & Hu' & _ & _ & Hplan)%evaluate_cluster_inv]].
  { by apply not_elem_of_nil in Hr. }
  rewrite Hn in Hn'. rewrite Hu in Hu'. injection Hn' as <-. injection Hu' as <-. apply plan_result_inv in Hplan as (_ & _ & [Hnil|(_ & dbRules & _ & Hrec)]).
  { rewrite Hnil in Hr. by apply not_elem_of_nil in Hr. }
  destruct (collect_nodes_ok rd cfg unhealthy nodes) as [Hdom Hlist].
  set (c := collect_nodes rd cfg unhealthy nodes) in *. rewrite Hrec in Hr.
  eapply Plan_recs_ok in Hr as (Hne & Hs & Ht & w' & Hw' & Hv & Hty & Hpin).
  2: { by apply pinned_placement_once. }
  2: { apply not_elem_of_dom. rewrite dom_score_nodes, Hdom. intros (_ & e & He & _ & Hnm).
       by eapply Hnames. }
  rewrite dom_score_nodes in Hs, Ht. split; [done|]. split.
  { assert (∀ n, n ∈ dom (col_nodeEntries c) → readable rd n ∧
      ∃ e, e ∈ nodes ∧ ne_Node e = n ∧ ne_Status e = "online" ∧ n ∉ unhealthy) as Hnode.
    { intros n (Hrd & e & He & Hel & <-)%Hdom. unfold eligible_node in Hel. to_prop. eauto 8. }
    by intros n [->| ->]; apply Hnode. }
  destruct (pinned_placement_on rd cfg (col_nodeWorkloads c) (r_SourceNode r)) as (f & Hf & Hpins).
  rewrite Hf in Hw'. apply list_elem_of_fmap in Hw' as (w & -> & Hw).
  destruct (Hpins w) as [(H1 & H2 & _ & _) H3]. destruct (H3 Hpin) as (Hwp & Hcfgs & Hveeam).
  destruct (Hlist _ _ Hw) as [_ Hl]. exists w. rewrite <-Hv, <-Hty, H1, H2.
  split_and!; try done. intros Hlxc. destruct Hl as (_ & [(Hq & _)|(_ & Hpc & _)]); [congruence|].
  rewrite Hpc in Hwp. by apply negb_false_iff in Hwp.
Qed.


(** A cluster of three nodes: three guests on the first, one of them with a PCI device, one on the
    second, the third empty; 101 and 102 must not share a node. *)
Definition example_listed (vmid : Z) : Guest := {|
  g_VMID := vmid; g_Name := "vm"; g_Status := "running"; g_Template := 0; g_CPU := f_lit 5 1;
  g_CPUs := 4; g_Mem := 2 ^ 32; g_MaxMem := 2 ^ 33; g_NetIn := 0; g_NetOut := 0 |}.

Definition example_cfg : DrsConfig := {|
  cfg_Enabled := true; cfg_Mode := "automatic"; cfg_Weights := Some DefaultWeights;
  cfg_ImbalanceThreshold := f_lit 25 2; cfg_IncludeContainers := false;
  cfg_ExcludeVeeamWorkers := true |}.

Definition example_node (n : string) : NodeListEntry :=
  {| ne_Node := n; ne_Status := "online"; ne_MaxCPU := 16; ne_MaxMem := 2 ^ 34 |}.

Definition example_reads : Reads := {|
  GetDRSConfig := Ok (Some example_cfg);
  newClient := None; cacheGet := Some None; NewClientForCluster := None;
  GetClusterOptions := Ok (Some (CrsString "ha=static"));
  GetNodes := Ok [example_node "pve1"; example_node "pve2"; example_node "pve3"];
  GetHAStatus := Ok [{| hs_Type := "lrm"; hs_Node := "pve1"; hs_Status := "pve1 (active, Wed Apr 29)" |}];
  GetClusterResources := Ok [];
  GetVMs := λ n, Ok (if bool_decide (n = "pve1")
                     then [example_listed 101; example_listed 103; example_listed 104]
                     else if bool_decide (n = "pve2") then [example_listed 102] else []);
  GetContainers := λ _, Ok [];
  GetHARules := Ok []; GetHAResources := Ok []; GetHAGroups := Ok [];
  GetVMConfig := λ _ v, Ok (if (v =? 103)%Z then {[ "hostpci0" := CfgString "0000:01:00" ]} else ∅);
  ListVeeamInfrastructureGuestsForCluster := Some (Ok [(104%Z, "worker")]);
  ListDRSRules := Ok [{| dr_RuleType := "anti-affinity";
                         dr_VmIds := JArray [JNumber "101"; JNumber "102"];
                         dr_NodeNames := JArray []; dr_Enabled := true |}];
|}.

Definition example_result : option EvalResult :=
  match @Evaluate map_to_list_range insertion_sort_slice (λ _, "") example_reads with
  | Ok r => r | Err _ => None end.

Example example_result_moves :
  (λ res, (λ r, (r_VMID r, r_SourceNode r, r_TargetNode r)) <$> er_Recommendations res) <$> example_result =
  Some [(101%Z, "pve1", "pve3")].
Proof. by vm_compute. Qed.

Definition example_eval : EvalResult := default blocked_result example_result.

Lemma Evaluate_fails_closed_witness :
  ∃ cfg, GetDRSConfig example_reads = Ok (Some cfg) ∧ cfg_Enabled cfg = true.
Proof.
  destruct (Evaluate_fails_closed map_to_list_range insertion_sort_slice (λ _, "") example_reads
    example_eval) as (cfg & H1 & H2 & _).
  - by vm_compute.
  - exact (ex_intro _ cfg (conj H1 H2)).
Defined.

Definition example_rec : Recommendation :=
  default (example_move 0 "" "") (er_Recommendations example_eval !! 0).

Lemma Evaluate_recommendations_witness :
  r_VMID example_rec = 101%Z ∧ r_SourceNode example_rec ≠ r_TargetNode example_rec.
Proof.
  split; [by vm_compute|].
  apply (Evaluate_recommendations map_to_list_range insertion_sort_slice (λ _, "") example_reads
    example_eval example_cfg [example_node "pve1"; example_node "pve2"; example_node "pve3"] ∅).
  - by vm_compute.
  - done.
  - done.
  - by vm_compute.
  - apply (bool_decide_unpack _). by vm_compute.
  - intros e [->|[->|[->|?%not_elem_of_nil]%elem_of_cons]%elem_of_cons]%elem_of_cons; done.
  - apply (list_elem_of_lookup_2 _ 0). by vm_compute.
Defined.

