(* ===== verification/DrsExecutor.v ===== *)
(** * Carrying out recommendations

    Models [internal/drs/executor.go] and [TaskSucceeded] of
    [internal/proxmox/task.go]. What the executor does is
    the list of its effects, in order; the answers of the database and of
    Proxmox are the fields of [ExecEnv]. *)

From S2P Require Import Prelude GoFloat GoStrings ProxmoxApi DrsRules.

Definition TaskSucceeded (exitStatus : string) : bool :=
  let upper := ToUpper (TrimSpace exitStatus) in
  bool_decide (upper = "") || bool_decide (upper = "OK") || HasPrefix upper "OK " ||
  HasPrefix upper "WARNINGS".

Record TaskStatus := { ts_Status : string; ts_ExitStatus : string }.

(** Polling a task: what each tick answers before the poll context ends, and
    what the last check answers then. The context ends after thirty minutes, or
    when the server shuts down. *)
Record Polls := { ticks : list (result go_error TaskStatus); last_check : result go_error TaskStatus }.

Definition task_verdict (ts : TaskStatus) : option (string * string) :=
  if bool_decide (ts_Status ts = "stopped")
  then Some (if TaskSucceeded (ts_ExitStatus ts) then "completed" else "failed", ts_ExitStatus ts)
  else None.

Fixpoint wait_ticks (ts : list (result go_error TaskStatus)) : option (string * string) :=
  match ts with
  | [] => None
  | Err _ :: ts => wait_ticks ts
  | Ok t :: ts => match task_verdict t with Some v => Some v | None => wait_ticks ts end
  end.

Definition waitForTask (p : Polls) : string * string :=
  match wait_ticks (ticks p) with
  | Some v => v
  | None =>
      let timeout := ("timeout", "task timed out after 30 minutes") in
      match last_check p with
      | Ok t => default timeout (task_verdict t)
      | Err _ => timeout
      end
  end.

(** ** Effects *)

Record AuditEntry := {
  au_ResourceID : string;
  au_Action : string;
  au_Rec : Recommendation;
  au_Improvement : string;
  au_Upid : option string;
}.

Inductive effect :=
| InsertDRSHistory (rec : Recommendation) (vmID : Z) (status : string)
| UpdateDRSHistoryStatus (id : Z) (status : string)
| MigrateVM (node : string) (vmid : Z) (target : string)
| MigrateCT (node : string) (vmid : Z) (target : string)
| InsertTaskHistory (upid description node : string)
| ReconcileTaskHistory (upid status exitStatus : string)
| InsertAuditLog (e : AuditEntry)
| ClusterEvent (kind topic id action : string).

Record ExecEnv := {
  (** the id of the history row of the n-th recommendation, [None] for an error *)
  history_id : nat → option Z;
  GetVMByClusterAndVmid : Z → option string;
  migrate : Recommendation → result go_error string;
  polls : string → Polls;
}.

Definition resolveVMDBID (env : ExecEnv) (vmid : Z) : string :=
  default "" (GetVMByClusterAndVmid env (Int32 vmid)).

Definition audit_entry (resourceID action : string) (rec : Recommendation) (upid : option string) :
    effect :=
  InsertAuditLog {|
    au_ResourceID := if bool_decide (resourceID = "") then "vmid:" +:+ Itoa (r_VMID rec) else resourceID;
    au_Action := action; au_Rec := rec;
    au_Improvement := fmt_f 1 (fmul (r_ExpectedImprovement rec) f100) +:+ "%";
    au_Upid := upid |}.

Definition auditLog (resourceID action : string) (rec : Recommendation) : effect :=
  audit_entry resourceID action rec None.
Definition auditLogWithUPID (resourceID action : string) (rec : Recommendation) (upid : string) : effect :=
  audit_entry resourceID action rec (Some upid).

Definition KindDRSAction : string := "drs_action".
Definition KindTaskCreated : string := "task_created".
Definition KindTaskUpdate : string := "task_update".
Definition KindInventoryChange : string := "inventory_change".

(** The migration call of a guest type, and the call's answer. *)
Definition start_migration (env : ExecEnv) (rec : Recommendation) :
    list effect * result go_error string :=
  if bool_decide (r_VMType rec = "qemu")
  then ([MigrateVM (r_SourceNode rec) (r_VMID rec) (r_TargetNode rec)], migrate env rec)
  else if bool_decide (r_VMType rec = "lxc")
  then ([MigrateCT (r_SourceNode rec) (r_VMID rec) (r_TargetNode rec)], migrate env rec)
  else ([], Err (errorf ("unsupported VM type: " +:+ r_VMType rec))).

(** The arrow of the task description, U+2192 in UTF-8. *)
Definition arrow : string := of_bytes (Ascii.ascii_of_nat <$> [226; 134; 146]).

Definition task_description (rec : Recommendation) : string :=
  "DRS Migrate " +:+ r_VMType rec +:+ " " +:+ Itoa (r_VMID rec) +:+ ": " +:+ r_SourceNode rec +:+
  " " +:+ arrow +:+ " " +:+ r_TargetNode rec.

Definition finish_migration (env : ExecEnv) (id : Z) (vmDBID upid : string) (rec : Recommendation) :
    list effect :=
  let '(status, exitStatus) := waitForTask (polls env upid) in
  [UpdateDRSHistoryStatus id status; ReconcileTaskHistory upid status exitStatus] ++
  (if bool_decide (status = "completed")
   then [auditLog vmDBID "drs_migrate" rec;
         ClusterEvent KindDRSAction "drs" vmDBID "migrate_completed";
         ClusterEvent KindInventoryChange "vm" vmDBID "drs_migrated"]
   else [auditLog vmDBID "drs_migrate_failed" rec;
         ClusterEvent KindDRSAction "drs" vmDBID "migrate_failed"]) ++
  [ClusterEvent KindTaskUpdate "task" upid status].

Definition execute_one (env : ExecEnv) (mode : string) (i : nat) (rec : Recommendation) : list effect :=
  InsertDRSHistory rec (Int32 (r_VMID rec)) "pending" ::
  match history_id env i with
  | None => []
  | Some id =>
      let vmDBID := resolveVMDBID env (r_VMID rec) in
      if bool_decide (mode = "advisory")
      then [UpdateDRSHistoryStatus id "advisory"; auditLog vmDBID "drs_advisory" rec;
            ClusterEvent KindDRSAction "drs" vmDBID "advisory"]
      else
        let '(calls, answer) := start_migration env rec in
        calls ++
        match answer with
        | Err _ => [UpdateDRSHistoryStatus id "failed"; auditLog vmDBID "drs_migrate_failed" rec;
                    ClusterEvent KindDRSAction "drs" vmDBID "migrate_failed"]
        | Ok upid =>
            [InsertTaskHistory upid (task_description rec) (r_SourceNode rec);
             ClusterEvent KindTaskCreated "task" upid "drs_migrate";
             ClusterEvent KindDRSAction "drs" vmDBID "migrate_started";
             auditLogWithUPID vmDBID "drs_migrate_running" rec upid] ++
            finish_migration env id vmDBID upid rec
        end
  end.

Definition Execute (env : ExecEnv) (mode : string) (recommendations : list Recommendation) : list effect :=
  mjoin (imap (execute_one env mode) recommendations).

(** ** Lemmas *)

Definition is_migration (e : effect) : Prop :=
  match e with MigrateVM _ _ _ | MigrateCT _ _ _ => True | _ => False end.

#[export] Instance is_migration_dec e : Decision (is_migration e).
Proof. destruct e; simpl; apply _. Defined.

(** The migrations asked of Proxmox, and the statuses written to history rows. *)
Definition migrations (es : list effect) : list effect := filter is_migration es.
Definition statuses (es : list effect) : list (Z * string) :=
  omap (λ e, match e with UpdateDRSHistoryStatus id s => Some (id, s) | _ => None end) es.

Definition migration_of (rec : Recommendation) : list effect :=
  if bool_decide (r_VMType rec = "qemu")
  then [MigrateVM (r_SourceNode rec) (r_VMID rec) (r_TargetNode rec)]
  else if bool_decide (r_VMType rec = "lxc")
  then [MigrateCT (r_SourceNode rec) (r_VMID rec) (r_TargetNode rec)] else [].

Definition final_status (env : ExecEnv) (mode : string) (rec : Recommendation) : string :=
  if bool_decide (mode = "advisory") then "advisory"
  else match (start_migration env rec).2 with
       | Err _ => "failed"
       | Ok upid => (waitForTask (polls env upid)).1
       end.

Lemma execute_one_migrations env mode i rec :
  migrations (execute_one env mode i rec) =
  match history_id env i with
  | None => []
  | Some _ => if bool_decide (mode = "advisory") then [] else migration_of rec
  end.
Proof.
  unfold migrations, execute_one, migration_of, start_migration.
  destruct (history_id env i) as [id|]; [|done]. case_bool_decide; [done|].
  unfold finish_migration.
  case_bool_decide; [|case_bool_decide]; simpl; [destruct (migrate env rec)..|done]; try done;
    destruct (waitForTask _) as [st ex]; simpl; by case_bool_decide.
Qed.

Lemma execute_one_statuses env mode i rec :
  statuses (execute_one env mode i rec) =
  match history_id env i with None => [] | Some id => [(id, final_status env mode rec)] end.
Proof.
  unfold statuses, execute_one, final_status.
  destruct (history_id env i) as [id|]; [|done]. case_bool_decide; [done|].
  unfold start_migration, finish_migration.
  case_bool_decide; [|case_bool_decide]; simpl; [destruct (migrate env rec)..|done]; try done; simpl;
    destruct (waitForTask _) as [st ex]; simpl; by case_bool_decide.
Qed.

Lemma execute_proj {B} (f : effect → option B) env mode recs :
  omap f (Execute env mode recs) =
  mjoin (imap (λ i rec, omap f (execute_one env mode i rec)) recs).
Proof.
  unfold Execute. generalize (execute_one env mode) as g. induction recs as [|rec recs IH]; intros g; [done|].
  csimpl. rewrite omap_app. f_equal. apply (IH (g ∘ S)).
Qed.

Lemma migrations_mjoin ess : migrations (mjoin ess) = mjoin (migrations <$> ess).
Proof.
  unfold migrations. induction ess as [|es ess IH]; [done|]. csimpl. by rewrite filter_app, IH.
Qed.

(** The answers that say the task has stopped, in the order they are asked for. *)
Definition stopped_answers (p : Polls) : list TaskStatus :=
  omap (λ a, match a with
             | Ok t => if bool_decide (ts_Status t = "stopped") then Some t else None
             | Err _ => None
             end) (ticks p ++ [last_check p]).

Lemma waitForTask_stopped p :
  waitForTask p =
  match stopped_answers p with
  | t :: _ => (if TaskSucceeded (ts_ExitStatus t) then "completed" else "failed", ts_ExitStatus t)
  | [] => ("timeout", "task timed out after 30 minutes")
  end.
Proof.
  destruct p as [ts l]. unfold waitForTask, stopped_answers. simpl.
  induction ts as [|[t|e] ts IH]; simpl; [|  |exact IH].
  - unfold task_verdict. destruct l as [t|e]; simpl; [|done]. by destruct (bool_decide _).
  - unfold task_verdict. by destruct (bool_decide _).
Qed.

Lemma final_status_cases env mode rec :
  final_status env mode rec ∈ ["advisory"; "completed"; "failed"; "timeout"].
Proof.
  unfold final_status. destruct (bool_decide _); [set_solver|].
  destruct (start_migration env rec).2 as [upid|]; [|set_solver].
  rewrite waitForTask_stopped. destruct (stopped_answers _) as [|t l]; simpl; [set_solver|].
  destruct (TaskSucceeded _); set_solver.
Qed.

(** ** Properties *)

(** What carrying out recommendations does. In advisory mode nothing is asked of Proxmox. In
    the other modes exactly the recommendations whose history row was recorded are migrated, once
    each and in order, from their source to their target, with the call of their guest type. Every
    recorded row receives exactly one status, and it is one of advisory, completed, failed and
    timeout: no row stays pending. *)
Theorem Execute_spec env mode recs :
  migrations (Execute env mode recs) =
    (if bool_decide (mode = "advisory") then []
     else mjoin (imap (λ i rec, match history_id env i with Some _ => migration_of rec | None => [] end) recs)) ∧
  statuses (Execute env mode recs) =
    mjoin (imap (λ i rec, match history_id env i with
                          | Some id => [(id, final_status env mode rec)] | None => [] end) recs) ∧
  ∀ rec, final_status env mode rec ∈ ["advisory"; "completed"; "failed"; "timeout"].
Proof.
  split_and!; [| |apply final_status_cases].
  - unfold Execute. rewrite migrations_mjoin, fmap_imap.
    rewrite (imap_ext _ (λ i rec, match history_id env i with
      | None => [] | Some _ => if bool_decide (mode = "advisory") then [] else migration_of rec end))
      by (intros; apply execute_one_migrations).
    destruct (bool_decide (mode = "advisory")); [|by apply (f_equal mjoin), imap_ext; intros ? rec _; destruct (history_id env _)].
    generalize (history_id env) as h. induction recs as [|rec recs IH]; intros h; [done|]. csimpl.
    specialize (IH (h ∘ S)). simpl in IH. destruct (h 0); apply IH.
  - unfold statuses at 1. rewrite execute_proj. f_equal. apply imap_ext. intros i rec _.
    apply execute_one_statuses.
Qed.

(** The outcome of a migration. [waitForTask] returns a verdict whatever the polls answer: the
    first answer, of a tick or of the last check, that says the task stopped decides between
    completed and failed, poll errors and running answers notwithstanding; and "timeout" is returned
    exactly when no answer says the task stopped. *)
Theorem waitForTask_verdict p :
  let (status, detail) := waitForTask p in
  (status = "timeout" ↔ stopped_answers p = []) ∧
  (∀ t l, stopped_answers p = t :: l →
     detail = ts_ExitStatus t ∧ (status = "completed" ↔ TaskSucceeded (ts_ExitStatus t) = true) ∧
     (status = "failed" ↔ TaskSucceeded (ts_ExitStatus t) = false)).
Proof.
  rewrite waitForTask_stopped. destruct (stopped_answers p) as [|t l].
  - split; [done|]. done.
  - destruct (TaskSucceeded (ts_ExitStatus t)) eqn:Hs; (split; [done|]);
      intros t' l' [= <- <-]; rewrite Hs; done.
Qed.
