(* ===== verification/RollingDb.v ===== *)
(** * The tables of a rolling update

    The rows of [db/generated/models.go] a rolling update keeps
    ([RollingUpdateJob], [RollingUpdateNode]), the JSON they hold
    ([rolling/types.go]) and the queries of
    [db/generated/rolling_updates.sql.go] on them, each as a function on the
    tables with the time of the database's clock. A [JSONB] column is its
    decoded value. The columns nothing here reads (created_by, ha_policy,
    ha_warnings) are left out. *)

From S2P Require Import Prelude GoStrings ProxmoxApi.

Local Open Scope Z_scope.

(** ** Rows *)

Record GuestSnapshot := {
  gs_VMID : Z; gs_Name : string; gs_Type : string; gs_Status : string; gs_Passthrough : bool }.

Record DisabledHARule := { dr_Rule : string; dr_Type : string }.

#[export] Instance GuestSnapshot_eq_dec : EqDecision GuestSnapshot.
Proof. solve_decision. Defined.
#[export] Instance DisabledHARule_eq_dec : EqDecision DisabledHARule.
Proof. solve_decision. Defined.

(** A [JSONB] column read as a slice: SQL's NULL (no bytes), the document null,
    an array of [A], or a document that does not decode, with what
    [json.Unmarshal] has put into the slice by the time it gives up. *)
Inductive column (A : Type) : Type :=
| SqlNull
| JsonNull
| JsonList (l : list A)
| JsonOther (partial : list A).
Arguments SqlNull {A}.
Arguments JsonNull {A}.
Arguments JsonList {A} l.
Arguments JsonOther {A} partial.

(** [json.Unmarshal(raw, &list)] into a nil slice. *)
Definition Unmarshal {A} (c : column A) : option (list A) :=
  match c with
  | SqlNull | JsonOther _ => None
  | JsonNull => Some []
  | JsonList l => Some l
  end.

(** [_ = json.Unmarshal(raw, &list)]: what the slice holds afterwards. *)
Definition Unmarshal_ignored {A} (c : column A) : list A :=
  match c with
  | SqlNull | JsonNull => []
  | JsonList l | JsonOther l => l
  end.

(** [json.Marshal] of a slice that is not nil. *)
Definition Marshal {A} (l : list A) : column A := JsonList l.

(** [c IS NULL OR c::text IN ('null', '[]')] *)
Definition column_empty {A} (c : column A) : bool :=
  match c with SqlNull | JsonNull | JsonList [] => true | _ => false end.

Record RollingUpdateJob := {
  job_ID : uuid; job_ClusterID : uuid; job_Status : string; job_Parallelism : Z;
  job_RebootAfterUpdate : bool; job_AutoRestoreGuests : bool; job_PackageExcludes : list string;
  job_FailureReason : string; job_StartedAt : option Z; job_CompletedAt : option Z;
  job_CreatedAt : Z; job_UpdatedAt : Z; job_AutoUpgrade : bool; job_DrsWasEnabled : bool;
  job_NotifyChannelID : option uuid; job_NativeCrsPaused : bool; job_SavedCrsConfig : string;
  job_DisabledHaRules : column DisabledHARule; job_CleanupPending : bool; job_CleanupAttempts : Z;
  job_DrainGuests : bool;
}.

Record RollingUpdateNode := {
  node_ID : uuid; node_JobID : uuid; node_NodeName : string; node_NodeOrder : Z;
  node_Step : string; node_FailureReason : string; node_PackagesJson : column string;
  node_GuestsJson : column GuestSnapshot; node_DrainStartedAt : option Z;
  node_DrainCompletedAt : option Z; node_UpgradeConfirmedAt : option Z;
  node_RebootStartedAt : option Z; node_RebootCompletedAt : option Z;
  node_HealthCheckAt : option Z; node_RestoreStartedAt : option Z;
  node_RestoreCompletedAt : option Z; node_CreatedAt : Z; node_UpdatedAt : Z;
  node_UpgradeStartedAt : option Z; node_UpgradeCompletedAt : option Z;
  node_UpgradeOutput : string; node_DisabledHaRules : column DisabledHARule;
  node_SkipReason : string; node_StoppedPassthroughJson : column GuestSnapshot;
  node_RebootRequired : bool;
}.

(** Assignments to single columns. *)
Definition set_job_Status (v : string) (r : RollingUpdateJob) : RollingUpdateJob := {|
  job_ID := job_ID r; job_ClusterID := job_ClusterID r; job_Status := v;
  job_Parallelism := job_Parallelism r; job_RebootAfterUpdate := job_RebootAfterUpdate r;
  job_AutoRestoreGuests := job_AutoRestoreGuests r; job_PackageExcludes := job_PackageExcludes r;
  job_FailureReason := job_FailureReason r; job_StartedAt := job_StartedAt r;
  job_CompletedAt := job_CompletedAt r; job_CreatedAt := job_CreatedAt r;
  job_UpdatedAt := job_UpdatedAt r; job_AutoUpgrade := job_AutoUpgrade r;
  job_DrsWasEnabled := job_DrsWasEnabled r; job_NotifyChannelID := job_NotifyChannelID r;
  job_NativeCrsPaused := job_NativeCrsPaused r; job_SavedCrsConfig := job_SavedCrsConfig r;
  job_DisabledHaRules := job_DisabledHaRules r; job_CleanupPending := job_CleanupPending r;
  job_CleanupAttempts := job_CleanupAttempts r; job_DrainGuests := job_DrainGuests r |}.
Definition set_job_FailureReason (v : string) (r : RollingUpdateJob) : RollingUpdateJob := {|
  job_ID := job_ID r; job_ClusterID := job_ClusterID r; job_Status := job_Status r;
  job_Parallelism := job_Parallelism r; job_RebootAfterUpdate := job_RebootAfterUpdate r;
  job_AutoRestoreGuests := job_AutoRestoreGuests r; job_PackageExcludes := job_PackageExcludes r;
  job_FailureReason := v; job_StartedAt := job_StartedAt r; job_CompletedAt := job_CompletedAt r;
  job_CreatedAt := job_CreatedAt r; job_UpdatedAt := job_UpdatedAt r;
  job_AutoUpgrade := job_AutoUpgrade r; job_DrsWasEnabled := job_DrsWasEnabled r;
  job_NotifyChannelID := job_NotifyChannelID r; job_NativeCrsPaused := job_NativeCrsPaused r;
  job_SavedCrsConfig := job_SavedCrsConfig r; job_DisabledHaRules := job_DisabledHaRules r;
  job_CleanupPending := job_CleanupPending r; job_CleanupAttempts := job_CleanupAttempts r;
  job_DrainGuests := job_DrainGuests r |}.
Definition set_job_StartedAt (v : option Z) (r : RollingUpdateJob) : RollingUpdateJob := {|
  job_ID := job_ID r; job_ClusterID := job_ClusterID r; job_Status := job_Status r;
  job_Parallelism := job_Parallelism r; job_RebootAfterUpdate := job_RebootAfterUpdate r;
  job_AutoRestoreGuests := job_AutoRestoreGuests r; job_PackageExcludes := job_PackageExcludes r;
  job_FailureReason := job_FailureReason r; job_StartedAt := v;
  job_CompletedAt := job_CompletedAt r; job_CreatedAt := job_CreatedAt r;
  job_UpdatedAt := job_UpdatedAt r; job_AutoUpgrade := job_AutoUpgrade r;
  job_DrsWasEnabled := job_DrsWasEnabled r; job_NotifyChannelID := job_NotifyChannelID r;
  job_NativeCrsPaused := job_NativeCrsPaused r; job_SavedCrsConfig := job_SavedCrsConfig r;
  job_DisabledHaRules := job_DisabledHaRules r; job_CleanupPending := job_CleanupPending r;
  job_CleanupAttempts := job_CleanupAttempts r; job_DrainGuests := job_DrainGuests r |}.
Definition set_job_CompletedAt (v : option Z) (r : RollingUpdateJob) : RollingUpdateJob := {|
  job_ID := job_ID r; job_ClusterID := job_ClusterID r; job_Status := job_Status r;
  job_Parallelism := job_Parallelism r; job_RebootAfterUpdate := job_RebootAfterUpdate r;
  job_AutoRestoreGuests := job_AutoRestoreGuests r; job_PackageExcludes := job_PackageExcludes r;
  job_FailureReason := job_FailureReason r; job_StartedAt := job_StartedAt r; job_CompletedAt := v;
  job_CreatedAt := job_CreatedAt r; job_UpdatedAt := job_UpdatedAt r;
  job_AutoUpgrade := job_AutoUpgrade r; job_DrsWasEnabled := job_DrsWasEnabled r;
  job_NotifyChannelID := job_NotifyChannelID r; job_NativeCrsPaused := job_NativeCrsPaused r;
  job_SavedCrsConfig := job_SavedCrsConfig r; job_DisabledHaRules := job_DisabledHaRules r;
  job_CleanupPending := job_CleanupPending r; job_CleanupAttempts := job_CleanupAttempts r;
  job_DrainGuests := job_DrainGuests r |}.
Definition set_job_UpdatedAt (v : Z) (r : RollingUpdateJob) : RollingUpdateJob := {|
  job_ID := job_ID r; job_ClusterID := job_ClusterID r; job_Status := job_Status r;
  job_Parallelism := job_Parallelism r; job_RebootAfterUpdate := job_RebootAfterUpdate r;
  job_AutoRestoreGuests := job_AutoRestoreGuests r; job_PackageExcludes := job_PackageExcludes r;
  job_FailureReason := job_FailureReason r; job_StartedAt := job_StartedAt r;
  job_CompletedAt := job_CompletedAt r; job_CreatedAt := job_CreatedAt r; job_UpdatedAt := v;
  job_AutoUpgrade := job_AutoUpgrade r; job_DrsWasEnabled := job_DrsWasEnabled r;
  job_NotifyChannelID := job_NotifyChannelID r; job_NativeCrsPaused := job_NativeCrsPaused r;
  job_SavedCrsConfig := job_SavedCrsConfig r; job_DisabledHaRules := job_DisabledHaRules r;
  job_CleanupPending := job_CleanupPending r; job_CleanupAttempts := job_CleanupAttempts r;
  job_DrainGuests := job_DrainGuests r |}.
Definition set_job_DrsWasEnabled (v : bool) (r : RollingUpdateJob) : RollingUpdateJob := {|
  job_ID := job_ID r; job_ClusterID := job_ClusterID r; job_Status := job_Status r;
  job_Parallelism := job_Parallelism r; job_RebootAfterUpdate := job_RebootAfterUpdate r;
  job_AutoRestoreGuests := job_AutoRestoreGuests r; job_PackageExcludes := job_PackageExcludes r;
  job_FailureReason := job_FailureReason r; job_StartedAt := job_StartedAt r;
  job_CompletedAt := job_CompletedAt r; job_CreatedAt := job_CreatedAt r;
  job_UpdatedAt := job_UpdatedAt r; job_AutoUpgrade := job_AutoUpgrade r; job_DrsWasEnabled := v;
  job_NotifyChannelID := job_NotifyChannelID r; job_NativeCrsPaused := job_NativeCrsPaused r;
  job_SavedCrsConfig := job_SavedCrsConfig r; job_DisabledHaRules := job_DisabledHaRules r;
  job_CleanupPending := job_CleanupPending r; job_CleanupAttempts := job_CleanupAttempts r;
  job_DrainGuests := job_DrainGuests r |}.
Definition set_job_NativeCrsPaused (v : bool) (r : RollingUpdateJob) : RollingUpdateJob := {|
  job_ID := job_ID r; job_ClusterID := job_ClusterID r; job_Status := job_Status r;
  job_Parallelism := job_Parallelism r; job_RebootAfterUpdate := job_RebootAfterUpdate r;
  job_AutoRestoreGuests := job_AutoRestoreGuests r; job_PackageExcludes := job_PackageExcludes r;
  job_FailureReason := job_FailureReason r; job_StartedAt := job_StartedAt r;
  job_CompletedAt := job_CompletedAt r; job_CreatedAt := job_CreatedAt r;
  job_UpdatedAt := job_UpdatedAt r; job_AutoUpgrade := job_AutoUpgrade r;
  job_DrsWasEnabled := job_DrsWasEnabled r; job_NotifyChannelID := job_NotifyChannelID r;
  job_NativeCrsPaused := v; job_SavedCrsConfig := job_SavedCrsConfig r;
  job_DisabledHaRules := job_DisabledHaRules r; job_CleanupPending := job_CleanupPending r;
  job_CleanupAttempts := job_CleanupAttempts r; job_DrainGuests := job_DrainGuests r |}.
Definition set_job_SavedCrsConfig (v : string) (r : RollingUpdateJob) : RollingUpdateJob := {|
  job_ID := job_ID r; job_ClusterID := job_ClusterID r; job_Status := job_Status r;
  job_Parallelism := job_Parallelism r; job_RebootAfterUpdate := job_RebootAfterUpdate r;
  job_AutoRestoreGuests := job_AutoRestoreGuests r; job_PackageExcludes := job_PackageExcludes r;
  job_FailureReason := job_FailureReason r; job_StartedAt := job_StartedAt r;
  job_CompletedAt := job_CompletedAt r; job_CreatedAt := job_CreatedAt r;
  job_UpdatedAt := job_UpdatedAt r; job_AutoUpgrade := job_AutoUpgrade r;
  job_DrsWasEnabled := job_DrsWasEnabled r; job_NotifyChannelID := job_NotifyChannelID r;
  job_NativeCrsPaused := job_NativeCrsPaused r; job_SavedCrsConfig := v;
  job_DisabledHaRules := job_DisabledHaRules r; job_CleanupPending := job_CleanupPending r;
  job_CleanupAttempts := job_CleanupAttempts r; job_DrainGuests := job_DrainGuests r |}.
Definition set_job_DisabledHaRules (v : column DisabledHARule) (r : RollingUpdateJob) : RollingUpdateJob := {|
  job_ID := job_ID r; job_ClusterID := job_ClusterID r; job_Status := job_Status r;
  job_Parallelism := job_Parallelism r; job_RebootAfterUpdate := job_RebootAfterUpdate r;
  job_AutoRestoreGuests := job_AutoRestoreGuests r; job_PackageExcludes := job_PackageExcludes r;
  job_FailureReason := job_FailureReason r; job_StartedAt := job_StartedAt r;
  job_CompletedAt := job_CompletedAt r; job_CreatedAt := job_CreatedAt r;
  job_UpdatedAt := job_UpdatedAt r; job_AutoUpgrade := job_AutoUpgrade r;
  job_DrsWasEnabled := job_DrsWasEnabled r; job_NotifyChannelID := job_NotifyChannelID r;
  job_NativeCrsPaused := job_NativeCrsPaused r; job_SavedCrsConfig := job_SavedCrsConfig r;
  job_DisabledHaRules := v; job_CleanupPending := job_CleanupPending r;
  job_CleanupAttempts := job_CleanupAttempts r; job_DrainGuests := job_DrainGuests r |}.
Definition set_job_CleanupPending (v : bool) (r : RollingUpdateJob) : RollingUpdateJob := {|
  job_ID := job_ID r; job_ClusterID := job_ClusterID r; job_Status := job_Status r;
  job_Parallelism := job_Parallelism r; job_RebootAfterUpdate := job_RebootAfterUpdate r;
  job_AutoRestoreGuests := job_AutoRestoreGuests r; job_PackageExcludes := job_PackageExcludes r;
  job_FailureReason := job_FailureReason r; job_StartedAt := job_StartedAt r;
  job_CompletedAt := job_CompletedAt r; job_CreatedAt := job_CreatedAt r;
  job_UpdatedAt := job_UpdatedAt r; job_AutoUpgrade := job_AutoUpgrade r;
  job_DrsWasEnabled := job_DrsWasEnabled r; job_NotifyChannelID := job_NotifyChannelID r;
  job_NativeCrsPaused := job_NativeCrsPaused r; job_SavedCrsConfig := job_SavedCrsConfig r;
  job_DisabledHaRules := job_DisabledHaRules r; job_CleanupPending := v;
  job_CleanupAttempts := job_CleanupAttempts r; job_DrainGuests := job_DrainGuests r |}.
Definition set_job_CleanupAttempts (v : Z) (r : RollingUpdateJob) : RollingUpdateJob := {|
  job_ID := job_ID r; job_ClusterID := job_ClusterID r; job_Status := job_Status r;
  job_Parallelism := job_Parallelism r; job_RebootAfterUpdate := job_RebootAfterUpdate r;
  job_AutoRestoreGuests := job_AutoRestoreGuests r; job_PackageExcludes := job_PackageExcludes r;
  job_FailureReason := job_FailureReason r; job_StartedAt := job_StartedAt r;
  job_CompletedAt := job_CompletedAt r; job_CreatedAt := job_CreatedAt r;
  job_UpdatedAt := job_UpdatedAt r; job_AutoUpgrade := job_AutoUpgrade r;
  job_DrsWasEnabled := job_DrsWasEnabled r; job_NotifyChannelID := job_NotifyChannelID r;
  job_NativeCrsPaused := job_NativeCrsPaused r; job_SavedCrsConfig := job_SavedCrsConfig r;
  job_DisabledHaRules := job_DisabledHaRules r; job_CleanupPending := job_CleanupPending r;
  job_CleanupAttempts := v; job_DrainGuests := job_DrainGuests r |}.
Definition set_node_Step (v : string) (r : RollingUpdateNode) : RollingUpdateNode := {|
  node_ID := node_ID r; node_JobID := node_JobID r; node_NodeName := node_NodeName r;
  node_NodeOrder := node_NodeOrder r; node_Step := v; node_FailureReason := node_FailureReason r;
  node_PackagesJson := node_PackagesJson r; node_GuestsJson := node_GuestsJson r;
  node_DrainStartedAt := node_DrainStartedAt r; node_DrainCompletedAt := node_DrainCompletedAt r;
  node_UpgradeConfirmedAt := node_UpgradeConfirmedAt r;
  node_RebootStartedAt := node_RebootStartedAt r;
  node_RebootCompletedAt := node_RebootCompletedAt r; node_HealthCheckAt := node_HealthCheckAt r;
  node_RestoreStartedAt := node_RestoreStartedAt r;
  node_RestoreCompletedAt := node_RestoreCompletedAt r; node_CreatedAt := node_CreatedAt r;
  node_UpdatedAt := node_UpdatedAt r; node_UpgradeStartedAt := node_UpgradeStartedAt r;
  node_UpgradeCompletedAt := node_UpgradeCompletedAt r; node_UpgradeOutput := node_UpgradeOutput r;
  node_DisabledHaRules := node_DisabledHaRules r; node_SkipReason := node_SkipReason r;
  node_StoppedPassthroughJson := node_StoppedPassthroughJson r;
  node_RebootRequired := node_RebootRequired r |}.
Definition set_node_FailureReason (v : string) (r : RollingUpdateNode) : RollingUpdateNode := {|
  node_ID := node_ID r; node_JobID := node_JobID r; node_NodeName := node_NodeName r;
  node_NodeOrder := node_NodeOrder r; node_Step := node_Step r; node_FailureReason := v;
  node_PackagesJson := node_PackagesJson r; node_GuestsJson := node_GuestsJson r;
  node_DrainStartedAt := node_DrainStartedAt r; node_DrainCompletedAt := node_DrainCompletedAt r;
  node_UpgradeConfirmedAt := node_UpgradeConfirmedAt r;
  node_RebootStartedAt := node_RebootStartedAt r;
  node_RebootCompletedAt := node_RebootCompletedAt r; node_HealthCheckAt := node_HealthCheckAt r;
  node_RestoreStartedAt := node_RestoreStartedAt r;
  node_RestoreCompletedAt := node_RestoreCompletedAt r; node_CreatedAt := node_CreatedAt r;
  node_UpdatedAt := node_UpdatedAt r; node_UpgradeStartedAt := node_UpgradeStartedAt r;
  node_UpgradeCompletedAt := node_UpgradeCompletedAt r; node_UpgradeOutput := node_UpgradeOutput r;
  node_DisabledHaRules := node_DisabledHaRules r; node_SkipReason := node_SkipReason r;
  node_StoppedPassthroughJson := node_StoppedPassthroughJson r;
  node_RebootRequired := node_RebootRequired r |}.
Definition set_node_PackagesJson (v : column string) (r : RollingUpdateNode) : RollingUpdateNode := {|
  node_ID := node_ID r; node_JobID := node_JobID r; node_NodeName := node_NodeName r;
  node_NodeOrder := node_NodeOrder r; node_Step := node_Step r;
  node_FailureReason := node_FailureReason r; node_PackagesJson := v;
  node_GuestsJson := node_GuestsJson r; node_DrainStartedAt := node_DrainStartedAt r;
  node_DrainCompletedAt := node_DrainCompletedAt r;
  node_UpgradeConfirmedAt := node_UpgradeConfirmedAt r;
  node_RebootStartedAt := node_RebootStartedAt r;
  node_RebootCompletedAt := node_RebootCompletedAt r; node_HealthCheckAt := node_HealthCheckAt r;
  node_RestoreStartedAt := node_RestoreStartedAt r;
  node_RestoreCompletedAt := node_RestoreCompletedAt r; node_CreatedAt := node_CreatedAt r;
  node_UpdatedAt := node_UpdatedAt r; node_UpgradeStartedAt := node_UpgradeStartedAt r;
  node_UpgradeCompletedAt := node_UpgradeCompletedAt r; node_UpgradeOutput := node_UpgradeOutput r;
  node_DisabledHaRules := node_DisabledHaRules r; node_SkipReason := node_SkipReason r;
  node_StoppedPassthroughJson := node_StoppedPassthroughJson r;
  node_RebootRequired := node_RebootRequired r |}.
Definition set_node_GuestsJson (v : column GuestSnapshot) (r : RollingUpdateNode) : RollingUpdateNode := {|
  node_ID := node_ID r; node_JobID := node_JobID r; node_NodeName := node_NodeName r;
  node_NodeOrder := node_NodeOrder r; node_Step := node_Step r;
  node_FailureReason := node_FailureReason r; node_PackagesJson := node_PackagesJson r;
  node_GuestsJson := v; node_DrainStartedAt := node_DrainStartedAt r;
  node_DrainCompletedAt := node_DrainCompletedAt r;
  node_UpgradeConfirmedAt := node_UpgradeConfirmedAt r;
  node_RebootStartedAt := node_RebootStartedAt r;
  node_RebootCompletedAt := node_RebootCompletedAt r; node_HealthCheckAt := node_HealthCheckAt r;
  node_RestoreStartedAt := node_RestoreStartedAt r;
  node_RestoreCompletedAt := node_RestoreCompletedAt r; node_CreatedAt := node_CreatedAt r;
  node_UpdatedAt := node_UpdatedAt r; node_UpgradeStartedAt := node_UpgradeStartedAt r;
  node_UpgradeCompletedAt := node_UpgradeCompletedAt r; node_UpgradeOutput := node_UpgradeOutput r;
  node_DisabledHaRules := node_DisabledHaRules r; node_SkipReason := node_SkipReason r;
  node_StoppedPassthroughJson := node_StoppedPassthroughJson r;
  node_RebootRequired := node_RebootRequired r |}.
Definition set_node_DrainStartedAt (v : option Z) (r : RollingUpdateNode) : RollingUpdateNode := {|
  node_ID := node_ID r; node_JobID := node_JobID r; node_NodeName := node_NodeName r;
  node_NodeOrder := node_NodeOrder r; node_Step := node_Step r;
  node_FailureReason := node_FailureReason r; node_PackagesJson := node_PackagesJson r;
  node_GuestsJson := node_GuestsJson r; node_DrainStartedAt := v;
  node_DrainCompletedAt := node_DrainCompletedAt r;
  node_UpgradeConfirmedAt := node_UpgradeConfirmedAt r;
  node_RebootStartedAt := node_RebootStartedAt r;
  node_RebootCompletedAt := node_RebootCompletedAt r; node_HealthCheckAt := node_HealthCheckAt r;
  node_RestoreStartedAt := node_RestoreStartedAt r;
  node_RestoreCompletedAt := node_RestoreCompletedAt r; node_CreatedAt := node_CreatedAt r;
  node_UpdatedAt := node_UpdatedAt r; node_UpgradeStartedAt := node_UpgradeStartedAt r;
  node_UpgradeCompletedAt := node_UpgradeCompletedAt r; node_UpgradeOutput := node_UpgradeOutput r;
  node_DisabledHaRules := node_DisabledHaRules r; node_SkipReason := node_SkipReason r;
  node_StoppedPassthroughJson := node_StoppedPassthroughJson r;
  node_RebootRequired := node_RebootRequired r |}.
Definition set_node_DrainCompletedAt (v : option Z) (r : RollingUpdateNode) : RollingUpdateNode := {|
  node_ID := node_ID r; node_JobID := node_JobID r; node_NodeName := node_NodeName r;
  node_NodeOrder := node_NodeOrder r; node_Step := node_Step r;
  node_FailureReason := node_FailureReason r; node_PackagesJson := node_PackagesJson r;
  node_GuestsJson := node_GuestsJson r; node_DrainStartedAt := node_DrainStartedAt r;
  node_DrainCompletedAt := v; node_UpgradeConfirmedAt := node_UpgradeConfirmedAt r;
  node_RebootStartedAt := node_RebootStartedAt r;
  node_RebootCompletedAt := node_RebootCompletedAt r; node_HealthCheckAt := node_HealthCheckAt r;
  node_RestoreStartedAt := node_RestoreStartedAt r;
  node_RestoreCompletedAt := node_RestoreCompletedAt r; node_CreatedAt := node_CreatedAt r;
  node_UpdatedAt := node_UpdatedAt r; node_UpgradeStartedAt := node_UpgradeStartedAt r;
  node_UpgradeCompletedAt := node_UpgradeCompletedAt r; node_UpgradeOutput := node_UpgradeOutput r;
  node_DisabledHaRules := node_DisabledHaRules r; node_SkipReason := node_SkipReason r;
  node_StoppedPassthroughJson := node_StoppedPassthroughJson r;
  node_RebootRequired := node_RebootRequired r |}.
Definition set_node_UpgradeConfirmedAt (v : option Z) (r : RollingUpdateNode) : RollingUpdateNode := {|
  node_ID := node_ID r; node_JobID := node_JobID r; node_NodeName := node_NodeName r;
  node_NodeOrder := node_NodeOrder r; node_Step := node_Step r;
  node_FailureReason := node_FailureReason r; node_PackagesJson := node_PackagesJson r;
  node_GuestsJson := node_GuestsJson r; node_DrainStartedAt := node_DrainStartedAt r;
  node_DrainCompletedAt := node_DrainCompletedAt r; node_UpgradeConfirmedAt := v;
  node_RebootStartedAt := node_RebootStartedAt r;
  node_RebootCompletedAt := node_RebootCompletedAt r; node_HealthCheckAt := node_HealthCheckAt r;
  node_RestoreStartedAt := node_RestoreStartedAt r;
  node_RestoreCompletedAt := node_RestoreCompletedAt r; node_CreatedAt := node_CreatedAt r;
  node_UpdatedAt := node_UpdatedAt r; node_UpgradeStartedAt := node_UpgradeStartedAt r;
  node_UpgradeCompletedAt := node_UpgradeCompletedAt r; node_UpgradeOutput := node_UpgradeOutput r;
  node_DisabledHaRules := node_DisabledHaRules r; node_SkipReason := node_SkipReason r;
  node_StoppedPassthroughJson := node_StoppedPassthroughJson r;
  node_RebootRequired := node_RebootRequired r |}.
Definition set_node_RebootStartedAt (v : option Z) (r : RollingUpdateNode) : RollingUpdateNode := {|
  node_ID := node_ID r; node_JobID := node_JobID r; node_NodeName := node_NodeName r;
  node_NodeOrder := node_NodeOrder r; node_Step := node_Step r;
  node_FailureReason := node_FailureReason r; node_PackagesJson := node_PackagesJson r;
  node_GuestsJson := node_GuestsJson r; node_DrainStartedAt := node_DrainStartedAt r;
  node_DrainCompletedAt := node_DrainCompletedAt r;
  node_UpgradeConfirmedAt := node_UpgradeConfirmedAt r; node_RebootStartedAt := v;
  node_RebootCompletedAt := node_RebootCompletedAt r; node_HealthCheckAt := node_HealthCheckAt r;
  node_RestoreStartedAt := node_RestoreStartedAt r;
  node_RestoreCompletedAt := node_RestoreCompletedAt r; node_CreatedAt := node_CreatedAt r;
  node_UpdatedAt := node_UpdatedAt r; node_UpgradeStartedAt := node_UpgradeStartedAt r;
  node_UpgradeCompletedAt := node_UpgradeCompletedAt r; node_UpgradeOutput := node_UpgradeOutput r;
  node_DisabledHaRules := node_DisabledHaRules r; node_SkipReason := node_SkipReason r;
  node_StoppedPassthroughJson := node_StoppedPassthroughJson r;
  node_RebootRequired := node_RebootRequired r |}.
Definition set_node_RebootCompletedAt (v : option Z) (r : RollingUpdateNode) : RollingUpdateNode := {|
  node_ID := node_ID r; node_JobID := node_JobID r; node_NodeName := node_NodeName r;
  node_NodeOrder := node_NodeOrder r; node_Step := node_Step r;
  node_FailureReason := node_FailureReason r; node_PackagesJson := node_PackagesJson r;
  node_GuestsJson := node_GuestsJson r; node_DrainStartedAt := node_DrainStartedAt r;
  node_DrainCompletedAt := node_DrainCompletedAt r;
  node_UpgradeConfirmedAt := node_UpgradeConfirmedAt r;
  node_RebootStartedAt := node_RebootStartedAt r; node_RebootCompletedAt := v;
  node_HealthCheckAt := node_HealthCheckAt r; node_RestoreStartedAt := node_RestoreStartedAt r;
  node_RestoreCompletedAt := node_RestoreCompletedAt r; node_CreatedAt := node_CreatedAt r;
  node_UpdatedAt := node_UpdatedAt r; node_UpgradeStartedAt := node_UpgradeStartedAt r;
  node_UpgradeCompletedAt := node_UpgradeCompletedAt r; node_UpgradeOutput := node_UpgradeOutput r;
  node_DisabledHaRules := node_DisabledHaRules r; node_SkipReason := node_SkipReason r;
  node_StoppedPassthroughJson := node_StoppedPassthroughJson r;
  node_RebootRequired := node_RebootRequired r |}.
Definition set_node_HealthCheckAt (v : option Z) (r : RollingUpdateNode) : RollingUpdateNode := {|
  node_ID := node_ID r; node_JobID := node_JobID r; node_NodeName := node_NodeName r;
  node_NodeOrder := node_NodeOrder r; node_Step := node_Step r;
  node_FailureReason := node_FailureReason r; node_PackagesJson := node_PackagesJson r;
  node_GuestsJson := node_GuestsJson r; node_DrainStartedAt := node_DrainStartedAt r;
  node_DrainCompletedAt := node_DrainCompletedAt r;
  node_UpgradeConfirmedAt := node_UpgradeConfirmedAt r;
  node_RebootStartedAt := node_RebootStartedAt r;
  node_RebootCompletedAt := node_RebootCompletedAt r; node_HealthCheckAt := v;
  node_RestoreStartedAt := node_RestoreStartedAt r;
  node_RestoreCompletedAt := node_RestoreCompletedAt r; node_CreatedAt := node_CreatedAt r;
  node_UpdatedAt := node_UpdatedAt r; node_UpgradeStartedAt := node_UpgradeStartedAt r;
  node_UpgradeCompletedAt := node_UpgradeCompletedAt r; node_UpgradeOutput := node_UpgradeOutput r;
  node_DisabledHaRules := node_DisabledHaRules r; node_SkipReason := node_SkipReason r;
  node_StoppedPassthroughJson := node_StoppedPassthroughJson r;
  node_RebootRequired := node_RebootRequired r |}.
Definition set_node_RestoreStartedAt (v : option Z) (r : RollingUpdateNode) : RollingUpdateNode := {|
  node_ID := node_ID r; node_JobID := node_JobID r; node_NodeName := node_NodeName r;
  node_NodeOrder := node_NodeOrder r; node_Step := node_Step r;
  node_FailureReason := node_FailureReason r; node_PackagesJson := node_PackagesJson r;
  node_GuestsJson := node_GuestsJson r; node_DrainStartedAt := node_DrainStartedAt r;
  node_DrainCompletedAt := node_DrainCompletedAt r;
  node_UpgradeConfirmedAt := node_UpgradeConfirmedAt r;
  node_RebootStartedAt := node_RebootStartedAt r;
  node_RebootCompletedAt := node_RebootCompletedAt r; node_HealthCheckAt := node_HealthCheckAt r;
  node_RestoreStartedAt := v; node_RestoreCompletedAt := node_RestoreCompletedAt r;
  node_CreatedAt := node_CreatedAt r; node_UpdatedAt := node_UpdatedAt r;
  node_UpgradeStartedAt := node_UpgradeStartedAt r;
  node_UpgradeCompletedAt := node_UpgradeCompletedAt r; node_UpgradeOutput := node_UpgradeOutput r;
  node_DisabledHaRules := node_DisabledHaRules r; node_SkipReason := node_SkipReason r;
  node_StoppedPassthroughJson := node_StoppedPassthroughJson r;
  node_RebootRequired := node_RebootRequired r |}.
Definition set_node_RestoreCompletedAt (v : option Z) (r : RollingUpdateNode) : RollingUpdateNode := {|
  node_ID := node_ID r; node_JobID := node_JobID r; node_NodeName := node_NodeName r;
  node_NodeOrder := node_NodeOrder r; node_Step := node_Step r;
  node_FailureReason := node_FailureReason r; node_PackagesJson := node_PackagesJson r;
  node_GuestsJson := node_GuestsJson r; node_DrainStartedAt := node_DrainStartedAt r;
  node_DrainCompletedAt := node_DrainCompletedAt r;
  node_UpgradeConfirmedAt := node_UpgradeConfirmedAt r;
  node_RebootStartedAt := node_RebootStartedAt r;
  node_RebootCompletedAt := node_RebootCompletedAt r; node_HealthCheckAt := node_HealthCheckAt r;
  node_RestoreStartedAt := node_RestoreStartedAt r; node_RestoreCompletedAt := v;
  node_CreatedAt := node_CreatedAt r; node_UpdatedAt := node_UpdatedAt r;
  node_UpgradeStartedAt := node_UpgradeStartedAt r;
  node_UpgradeCompletedAt := node_UpgradeCompletedAt r; node_UpgradeOutput := node_UpgradeOutput r;
  node_DisabledHaRules := node_DisabledHaRules r; node_SkipReason := node_SkipReason r;
  node_StoppedPassthroughJson := node_StoppedPassthroughJson r;
  node_RebootRequired := node_RebootRequired r |}.
Definition set_node_UpdatedAt (v : Z) (r : RollingUpdateNode) : RollingUpdateNode := {|
  node_ID := node_ID r; node_JobID := node_JobID r; node_NodeName := node_NodeName r;
  node_NodeOrder := node_NodeOrder r; node_Step := node_Step r;
  node_FailureReason := node_FailureReason r; node_PackagesJson := node_PackagesJson r;
  node_GuestsJson := node_GuestsJson r; node_DrainStartedAt := node_DrainStartedAt r;
  node_DrainCompletedAt := node_DrainCompletedAt r;
  node_UpgradeConfirmedAt := node_UpgradeConfirmedAt r;
  node_RebootStartedAt := node_RebootStartedAt r;
  node_RebootCompletedAt := node_RebootCompletedAt r; node_HealthCheckAt := node_HealthCheckAt r;
  node_RestoreStartedAt := node_RestoreStartedAt r;
  node_RestoreCompletedAt := node_RestoreCompletedAt r; node_CreatedAt := node_CreatedAt r;
  node_UpdatedAt := v; node_UpgradeStartedAt := node_UpgradeStartedAt r;
  node_UpgradeCompletedAt := node_UpgradeCompletedAt r; node_UpgradeOutput := node_UpgradeOutput r;
  node_DisabledHaRules := node_DisabledHaRules r; node_SkipReason := node_SkipReason r;
  node_StoppedPassthroughJson := node_StoppedPassthroughJson r;
  node_RebootRequired := node_RebootRequired r |}.
Definition set_node_UpgradeStartedAt (v : option Z) (r : RollingUpdateNode) : RollingUpdateNode := {|
  node_ID := node_ID r; node_JobID := node_JobID r; node_NodeName := node_NodeName r;
  node_NodeOrder := node_NodeOrder r; node_Step := node_Step r;
  node_FailureReason := node_FailureReason r; node_PackagesJson := node_PackagesJson r;
  node_GuestsJson := node_GuestsJson r; node_DrainStartedAt := node_DrainStartedAt r;
  node_DrainCompletedAt := node_DrainCompletedAt r;
  node_UpgradeConfirmedAt := node_UpgradeConfirmedAt r;
  node_RebootStartedAt := node_RebootStartedAt r;
  node_RebootCompletedAt := node_RebootCompletedAt r; node_HealthCheckAt := node_HealthCheckAt r;
  node_RestoreStartedAt := node_RestoreStartedAt r;
  node_RestoreCompletedAt := node_RestoreCompletedAt r; node_CreatedAt := node_CreatedAt r;
  node_UpdatedAt := node_UpdatedAt r; node_UpgradeStartedAt := v;
  node_UpgradeCompletedAt := node_UpgradeCompletedAt r; node_UpgradeOutput := node_UpgradeOutput r;
  node_DisabledHaRules := node_DisabledHaRules r; node_SkipReason := node_SkipReason r;
  node_StoppedPassthroughJson := node_StoppedPassthroughJson r;
  node_RebootRequired := node_RebootRequired r |}.
Definition set_node_UpgradeCompletedAt (v : option Z) (r : RollingUpdateNode) : RollingUpdateNode := {|
  node_ID := node_ID r; node_JobID := node_JobID r; node_NodeName := node_NodeName r;
  node_NodeOrder := node_NodeOrder r; node_Step := node_Step r;
  node_FailureReason := node_FailureReason r; node_PackagesJson := node_PackagesJson r;
  node_GuestsJson := node_GuestsJson r; node_DrainStartedAt := node_DrainStartedAt r;
  node_DrainCompletedAt := node_DrainCompletedAt r;
  node_UpgradeConfirmedAt := node_UpgradeConfirmedAt r;
  node_RebootStartedAt := node_RebootStartedAt r;
  node_RebootCompletedAt := node_RebootCompletedAt r; node_HealthCheckAt := node_HealthCheckAt r;
  node_RestoreStartedAt := node_RestoreStartedAt r;
  node_RestoreCompletedAt := node_RestoreCompletedAt r; node_CreatedAt := node_CreatedAt r;
  node_UpdatedAt := node_UpdatedAt r; node_UpgradeStartedAt := node_UpgradeStartedAt r;
  node_UpgradeCompletedAt := v; node_UpgradeOutput := node_UpgradeOutput r;
  node_DisabledHaRules := node_DisabledHaRules r; node_SkipReason := node_SkipReason r;
  node_StoppedPassthroughJson := node_StoppedPassthroughJson r;
  node_RebootRequired := node_RebootRequired r |}.
Definition set_node_UpgradeOutput (v : string) (r : RollingUpdateNode) : RollingUpdateNode := {|
  node_ID := node_ID r; node_JobID := node_JobID r; node_NodeName := node_NodeName r;
  node_NodeOrder := node_NodeOrder r; node_Step := node_Step r;
  node_FailureReason := node_FailureReason r; node_PackagesJson := node_PackagesJson r;
  node_GuestsJson := node_GuestsJson r; node_DrainStartedAt := node_DrainStartedAt r;
  node_DrainCompletedAt := node_DrainCompletedAt r;
  node_UpgradeConfirmedAt := node_UpgradeConfirmedAt r;
  node_RebootStartedAt := node_RebootStartedAt r;
  node_RebootCompletedAt := node_RebootCompletedAt r; node_HealthCheckAt := node_HealthCheckAt r;
  node_RestoreStartedAt := node_RestoreStartedAt r;
  node_RestoreCompletedAt := node_RestoreCompletedAt r; node_CreatedAt := node_CreatedAt r;
  node_UpdatedAt := node_UpdatedAt r; node_UpgradeStartedAt := node_UpgradeStartedAt r;
  node_UpgradeCompletedAt := node_UpgradeCompletedAt r; node_UpgradeOutput := v;
  node_DisabledHaRules := node_DisabledHaRules r; node_SkipReason := node_SkipReason r;
  node_StoppedPassthroughJson := node_StoppedPassthroughJson r;
  node_RebootRequired := node_RebootRequired r |}.
Definition set_node_DisabledHaRules (v : column DisabledHARule) (r : RollingUpdateNode) : RollingUpdateNode := {|
  node_ID := node_ID r; node_JobID := node_JobID r; node_NodeName := node_NodeName r;
  node_NodeOrder := node_NodeOrder r; node_Step := node_Step r;
  node_FailureReason := node_FailureReason r; node_PackagesJson := node_PackagesJson r;
  node_GuestsJson := node_GuestsJson r; node_DrainStartedAt := node_DrainStartedAt r;
  node_DrainCompletedAt := node_DrainCompletedAt r;
  node_UpgradeConfirmedAt := node_UpgradeConfirmedAt r;
  node_RebootStartedAt := node_RebootStartedAt r;
  node_RebootCompletedAt := node_RebootCompletedAt r; node_HealthCheckAt := node_HealthCheckAt r;
  node_RestoreStartedAt := node_RestoreStartedAt r;
  node_RestoreCompletedAt := node_RestoreCompletedAt r; node_CreatedAt := node_CreatedAt r;
  node_UpdatedAt := node_UpdatedAt r; node_UpgradeStartedAt := node_UpgradeStartedAt r;
  node_UpgradeCompletedAt := node_UpgradeCompletedAt r; node_UpgradeOutput := node_UpgradeOutput r;
  node_DisabledHaRules := v; node_SkipReason := node_SkipReason r;
  node_StoppedPassthroughJson := node_StoppedPassthroughJson r;
  node_RebootRequired := node_RebootRequired r |}.
Definition set_node_SkipReason (v : string) (r : RollingUpdateNode) : RollingUpdateNode := {|
  node_ID := node_ID r; node_JobID := node_JobID r; node_NodeName := node_NodeName r;
  node_NodeOrder := node_NodeOrder r; node_Step := node_Step r;
  node_FailureReason := node_FailureReason r; node_PackagesJson := node_PackagesJson r;
  node_GuestsJson := node_GuestsJson r; node_DrainStartedAt := node_DrainStartedAt r;
  node_DrainCompletedAt := node_DrainCompletedAt r;
  node_UpgradeConfirmedAt := node_UpgradeConfirmedAt r;
  node_RebootStartedAt := node_RebootStartedAt r;
  node_RebootCompletedAt := node_RebootCompletedAt r; node_HealthCheckAt := node_HealthCheckAt r;
  node_RestoreStartedAt := node_RestoreStartedAt r;
  node_RestoreCompletedAt := node_RestoreCompletedAt r; node_CreatedAt := node_CreatedAt r;
  node_UpdatedAt := node_UpdatedAt r; node_UpgradeStartedAt := node_UpgradeStartedAt r;
  node_UpgradeCompletedAt := node_UpgradeCompletedAt r; node_UpgradeOutput := node_UpgradeOutput r;
  node_DisabledHaRules := node_DisabledHaRules r; node_SkipReason := v;
  node_StoppedPassthroughJson := node_StoppedPassthroughJson r;
  node_RebootRequired := node_RebootRequired r |}.
Definition set_node_StoppedPassthroughJson (v : column GuestSnapshot) (r : RollingUpdateNode) : RollingUpdateNode := {|
  node_ID := node_ID r; node_JobID := node_JobID r; node_NodeName := node_NodeName r;
  node_NodeOrder := node_NodeOrder r; node_Step := node_Step r;
  node_FailureReason := node_FailureReason r; node_PackagesJson := node_PackagesJson r;
  node_GuestsJson := node_GuestsJson r; node_DrainStartedAt := node_DrainStartedAt r;
  node_DrainCompletedAt := node_DrainCompletedAt r;
  node_UpgradeConfirmedAt := node_UpgradeConfirmedAt r;
  node_RebootStartedAt := node_RebootStartedAt r;
  node_RebootCompletedAt := node_RebootCompletedAt r; node_HealthCheckAt := node_HealthCheckAt r;
  node_RestoreStartedAt := node_RestoreStartedAt r;
  node_RestoreCompletedAt := node_RestoreCompletedAt r; node_CreatedAt := node_CreatedAt r;
  node_UpdatedAt := node_UpdatedAt r; node_UpgradeStartedAt := node_UpgradeStartedAt r;
  node_UpgradeCompletedAt := node_UpgradeCompletedAt r; node_UpgradeOutput := node_UpgradeOutput r;
  node_DisabledHaRules := node_DisabledHaRules r; node_SkipReason := node_SkipReason r;
  node_StoppedPassthroughJson := v; node_RebootRequired := node_RebootRequired r |}.
Definition set_node_RebootRequired (v : bool) (r : RollingUpdateNode) : RollingUpdateNode := {|
  node_ID := node_ID r; node_JobID := node_JobID r; node_NodeName := node_NodeName r;
  node_NodeOrder := node_NodeOrder r; node_Step := node_Step r;
  node_FailureReason := node_FailureReason r; node_PackagesJson := node_PackagesJson r;
  node_GuestsJson := node_GuestsJson r; node_DrainStartedAt := node_DrainStartedAt r;
  node_DrainCompletedAt := node_DrainCompletedAt r;
  node_UpgradeConfirmedAt := node_UpgradeConfirmedAt r;
  node_RebootStartedAt := node_RebootStartedAt r;
  node_RebootCompletedAt := node_RebootCompletedAt r; node_HealthCheckAt := node_HealthCheckAt r;
  node_RestoreStartedAt := node_RestoreStartedAt r;
  node_RestoreCompletedAt := node_RestoreCompletedAt r; node_CreatedAt := node_CreatedAt r;
  node_UpdatedAt := node_UpdatedAt r; node_UpgradeStartedAt := node_UpgradeStartedAt r;
  node_UpgradeCompletedAt := node_UpgradeCompletedAt r; node_UpgradeOutput := node_UpgradeOutput r;
  node_DisabledHaRules := node_DisabledHaRules r; node_SkipReason := node_SkipReason r;
  node_StoppedPassthroughJson := node_StoppedPassthroughJson r; node_RebootRequired := v |}.

(** ** Tables

    [drs_configs] as far as a rolling update uses it: whether DRS is enabled, for
    the clusters that have a row. *)
Record DB := {
  jobs : list RollingUpdateJob;
  nodes : list RollingUpdateNode;
  drs_enabled : gmap uuid bool;
}.

Definition set_jobs (l : list RollingUpdateJob) (d : DB) : DB :=
  {| jobs := l; nodes := nodes d; drs_enabled := drs_enabled d |}.
Definition set_nodes (l : list RollingUpdateNode) (d : DB) : DB :=
  {| jobs := jobs d; nodes := l; drs_enabled := drs_enabled d |}.

(** [UPDATE ... WHERE id = $1 AND guard], and the number of rows it matched. *)
Definition update_rows {R} (matches : R → bool) (f : R → R) (rows : list R) : list R * Z :=
  ((λ r, if matches r then f r else r) <$> rows,
   Z.of_nat (length (List.filter matches rows))).

Definition update_job (id : uuid) (guard : RollingUpdateJob → bool)
    (f : RollingUpdateJob → RollingUpdateJob) (d : DB) : DB * Z :=
  let '(rows, n) := update_rows (λ j, (job_ID j =? id) && guard j) f (jobs d) in (set_jobs rows d, n).

Definition update_node (id : uuid) (guard : RollingUpdateNode → bool)
    (f : RollingUpdateNode → RollingUpdateNode) (d : DB) : DB * Z :=
  let '(rows, n) := update_rows (λ r, (node_ID r =? id) && guard r) f (nodes d) in (set_nodes rows d, n).

Definition always {R} (_ : R) : bool := true.

(** [status IN ('pending', 'running', 'paused')] and its complement. *)
Definition job_active (j : RollingUpdateJob) : bool :=
  contains ["pending"; "running"; "paused"] (job_Status j).
Definition job_terminal (j : RollingUpdateJob) : bool :=
  contains ["completed"; "failed"; "cancelled"] (job_Status j).
Definition node_terminal (r : RollingUpdateNode) : bool :=
  contains ["completed"; "failed"; "skipped"] (node_Step r).
Definition node_active (r : RollingUpdateNode) : bool :=
  contains ["draining"; "awaiting_upgrade"; "upgrading"; "rebooting"; "health_check"; "restoring"]
    (node_Step r).

Definition touch_job (now : Z) (j : RollingUpdateJob) : RollingUpdateJob := set_job_UpdatedAt now j.
Definition touch_node (now : Z) (r : RollingUpdateNode) : RollingUpdateNode := set_node_UpdatedAt now r.

(** ** Queries on jobs *)

Definition startRollingUpdateJob (id : uuid) (now : Z) (d : DB) : DB * Z :=
  update_job id (λ j, bool_decide (job_Status j = "pending"))
    (λ j, touch_job now (set_job_StartedAt (Some now) (set_job_Status "running" j))) d.

Definition finish_job (status : string) (now : Z) (j : RollingUpdateJob) : RollingUpdateJob :=
  touch_job now (set_job_CompletedAt (Some now) (set_job_CleanupPending true (set_job_Status status j))).

Definition completeRollingUpdateJob (id : uuid) (now : Z) (d : DB) : DB * Z :=
  update_job id job_active (finish_job "completed" now) d.
Definition failRollingUpdateJob (id : uuid) (reason : string) (now : Z) (d : DB) : DB * Z :=
  update_job id job_active (λ j, set_job_FailureReason reason (finish_job "failed" now j)) d.
Definition cancelRollingUpdateJob (id : uuid) (now : Z) (d : DB) : DB * Z :=
  update_job id job_active (finish_job "cancelled" now) d.

Definition pauseRollingUpdateJob (id : uuid) (now : Z) (d : DB) : DB * Z :=
  update_job id (λ j, bool_decide (job_Status j = "running"))
    (λ j, touch_job now (set_job_Status "paused" j)) d.
Definition resumeRollingUpdateJob (id : uuid) (now : Z) (d : DB) : DB * Z :=
  update_job id (λ j, bool_decide (job_Status j = "paused"))
    (λ j, touch_job now (set_job_Status "running" j)) d.

Definition getRollingUpdateJob (id : uuid) (d : DB) : option RollingUpdateJob :=
  List.find (λ j, job_ID j =? id) (jobs d).

Lemma getRollingUpdateJob_unique d j :
  NoDup (job_ID <$> jobs d) → j ∈ jobs d → getRollingUpdateJob (job_ID j) d = Some j.
Proof.
  unfold getRollingUpdateJob. generalize (jobs d) as l. intros l. induction l as [|a l IH]; simpl; intros Hn Hj.
  { by apply elem_of_nil in Hj. }
  apply NoDup_cons in Hn as [Ha Hn]. apply elem_of_cons in Hj as [->|Hj]; [by rewrite Z.eqb_refl|].
  destruct (job_ID a =? job_ID j) eqn:He; [|by apply IH]. apply Z.eqb_eq in He. exfalso. apply Ha.
  rewrite He. apply list_elem_of_fmap. by exists j.
Qed.

(** [ORDER BY]: the executable order breaks ties by insertion. *)
Definition order_by {R} (key : R → Z) (rows : list R) : list R :=
  insertion_sort (λ a b, key a <? key b) rows.

Lemma elem_of_order_by {R} (key : R → Z) rows r : r ∈ order_by key rows ↔ r ∈ rows.
Proof. unfold order_by. by rewrite insertion_sort_perm. Qed.

Definition listRunningRollingUpdateJobs (d : DB) : list RollingUpdateJob :=
  order_by job_CreatedAt (List.filter (λ j, bool_decide (job_Status j = "running")) (jobs d)).

Definition listRollingUpdateJobsNeedingCleanup (d : DB) : list RollingUpdateJob :=
  take 20 (order_by job_UpdatedAt (List.filter (λ j, job_CleanupPending j && job_terminal j) (jobs d))).

Definition setJobDisabledHARules (id : uuid) (c : column DisabledHARule) (now : Z) (d : DB) : DB * Z :=
  update_job id always (λ j, touch_job now (set_job_DisabledHaRules c j)) d.
Definition setJobDRSWasEnabled (id : uuid) (v : bool) (now : Z) (d : DB) : DB * Z :=
  update_job id always (λ j, touch_job now (set_job_DrsWasEnabled v j)) d.
Definition setJobNativeCRSPaused (id : uuid) (saved : string) (now : Z) (d : DB) : DB * Z :=
  update_job id always
    (λ j, touch_job now (set_job_SavedCrsConfig saved (set_job_NativeCrsPaused true j))) d.
Definition clearJobNativeCRSPaused (id : uuid) (now : Z) (d : DB) : DB * Z :=
  update_job id always (λ j, touch_job now (set_job_NativeCrsPaused false j)) d.

(** A node's row that still holds something. *)
Definition node_holds (r : RollingUpdateNode) : bool :=
  negb (column_empty (node_DisabledHaRules r)) || negb (column_empty (node_StoppedPassthroughJson r)).

Definition clearJobCleanupPending (id : uuid) (now : Z) (d : DB) : DB * Z :=
  update_job id
    (λ j, negb (job_DrsWasEnabled j) && negb (job_NativeCrsPaused j) &&
          column_empty (job_DisabledHaRules j) &&
          negb (existsb (λ r, (node_JobID r =? job_ID j) && node_holds r) (nodes d)))
    (λ j, touch_job now (set_job_CleanupPending false j)) d.

Definition armJobCleanupPending (id : uuid) (now : Z) (d : DB) : DB * Z :=
  update_job id job_terminal (λ j, touch_job now (set_job_CleanupPending true j)) d.

(** An [INT] that would overflow is an error of the query. *)
Definition incrementJobCleanupAttempts (id : uuid) (now : Z) (d : DB) : option (DB * Z) :=
  match getRollingUpdateJob id d with
  | None => None
  | Some j =>
      if maxInt32 <=? job_CleanupAttempts j then None
      else Some ((update_job id always
                    (λ j, touch_job now (set_job_CleanupAttempts (job_CleanupAttempts j + 1) j)) d).1,
                 job_CleanupAttempts j + 1)
  end.

(** ** Queries on nodes *)

Definition getRollingUpdateNode (id : uuid) (d : DB) : option RollingUpdateNode :=
  List.find (λ r, node_ID r =? id) (nodes d).
Definition job_nodes (jobID : uuid) (d : DB) : list RollingUpdateNode :=
  List.filter (λ r, node_JobID r =? jobID) (nodes d).
Definition listRollingUpdateNodes (jobID : uuid) (d : DB) : list RollingUpdateNode :=
  order_by node_NodeOrder (job_nodes jobID d).
Definition getNextPendingNode (jobID : uuid) (d : DB) : option RollingUpdateNode :=
  head (order_by node_NodeOrder
          (List.filter (λ r, bool_decide (node_Step r = "pending")) (job_nodes jobID d))).

Definition count {R} (f : R → bool) (rows : list R) : Z := Z.of_nat (length (List.filter f rows)).

Definition countActiveNodes (jobID : uuid) (d : DB) : Z := count node_active (job_nodes jobID d).

Record CountCompletedNodesRow := { cc_Completed : Z; cc_Failed : Z; cc_Skipped : Z; cc_Total : Z }.

Definition in_step (step : string) (r : RollingUpdateNode) : bool := bool_decide (node_Step r = step).
Definition countCompletedNodes (jobID : uuid) (d : DB) : CountCompletedNodesRow :=
  let rows := job_nodes jobID d in
  {| cc_Completed := count (in_step "completed") rows; cc_Failed := count (in_step "failed") rows;
     cc_Skipped := count (in_step "skipped") rows; cc_Total := count always rows |}.

Definition failRollingUpdateNode (id : uuid) (reason : string) (now : Z) (d : DB) : DB * Z :=
  update_node id (λ r, negb (node_terminal r))
    (λ r, touch_node now (set_node_FailureReason reason (set_node_Step "failed" r))) d.

Definition skip_row (reason : string) (now : Z) (r : RollingUpdateNode) : RollingUpdateNode :=
  touch_node now (set_node_SkipReason reason (set_node_Step "skipped" r)).
Definition skipRollingUpdateNode (id : uuid) (reason : string) (now : Z) (d : DB) : DB * Z :=
  update_node id (in_step "pending") (skip_row reason now) d.
Definition skipRollingUpdateNodeAny (id : uuid) (reason : string) (now : Z) (d : DB) : DB * Z :=
  update_node id always (skip_row reason now) d.

Definition setNodeDrainStarted (id : uuid) (now : Z) (d : DB) : DB * Z :=
  update_node id always
    (λ r, touch_node now (set_node_DrainStartedAt (Some now) (set_node_Step "draining" r))) d.
Definition setNodeDrainCompletedManual (id : uuid) (now : Z) (d : DB) : DB * Z :=
  update_node id always
    (λ r, touch_node now (set_node_Step "awaiting_upgrade" (set_node_DrainCompletedAt (Some now) r))) d.
Definition setNodeDrainCompletedAuto (id : uuid) (now : Z) (d : DB) : DB * Z :=
  update_node id always
    (λ r, touch_node now (set_node_Step "upgrading" (set_node_DrainCompletedAt (Some now) r))) d.
Definition setNodeInPlaceUpgradeAuto (id : uuid) (now : Z) (d : DB) : DB * Z :=
  update_node id always (λ r, touch_node now (set_node_Step "upgrading" r)) d.
Definition setNodeInPlaceUpgradeManual (id : uuid) (now : Z) (d : DB) : DB * Z :=
  update_node id always (λ r, touch_node now (set_node_Step "awaiting_upgrade" r)) d.
Definition setNodePackagesJSON (id : uuid) (c : column string) (now : Z) (d : DB) : DB * Z :=
  update_node id always (λ r, touch_node now (set_node_PackagesJson c r)) d.
Definition setNodeGuestsJSON (id : uuid) (c : column GuestSnapshot) (now : Z) (d : DB) : DB * Z :=
  update_node id always (λ r, touch_node now (set_node_GuestsJson c r)) d.
Definition confirmNodeUpgrade (id : uuid) (now : Z) (d : DB) : DB * Z :=
  update_node id (in_step "awaiting_upgrade")
    (λ r, touch_node now (set_node_UpgradeConfirmedAt (Some now) r)) d.
Definition setNodeUpgradeStarted (id : uuid) (now : Z) (d : DB) : DB * Z :=
  update_node id always
    (λ r, touch_node now (set_node_UpgradeStartedAt (Some (default now (node_UpgradeStartedAt r))) r)) d.

Definition upgraded (step : string) (now : Z) (r : RollingUpdateNode) : RollingUpdateNode :=
  touch_node now (set_node_UpgradeConfirmedAt (Some now)
    (set_node_UpgradeCompletedAt (Some now) (set_node_Step step r))).
Definition setNodeUpgradeCompleted (id : uuid) (now : Z) (d : DB) : DB * Z :=
  update_node id always (λ r, set_node_RebootStartedAt (Some now) (upgraded "rebooting" now r)) d.
Definition setNodeUpgradeCompletedNoReboot (id : uuid) (now : Z) (d : DB) : DB * Z :=
  update_node id always (λ r, set_node_HealthCheckAt (Some now) (upgraded "health_check" now r)) d.
Definition setNodeUpgradeCompletedRebootPending (id : uuid) (now : Z) (d : DB) : DB * Z :=
  update_node id always
    (λ r, set_node_RebootRequired true
            (set_node_HealthCheckAt (Some now) (upgraded "health_check" now r))) d.
Definition setNodeUpgradeOutput (id : uuid) (output : string) (now : Z) (d : DB) : DB * Z :=
  update_node id always (λ r, touch_node now (set_node_UpgradeOutput output r)) d.
Definition setNodeRebootStarted (id : uuid) (now : Z) (d : DB) : DB * Z :=
  update_node id always
    (λ r, touch_node now (set_node_RebootStartedAt (Some now) (set_node_Step "rebooting" r))) d.
Definition setNodeRebootCompleted (id : uuid) (now : Z) (d : DB) : DB * Z :=
  update_node id always (λ r, touch_node now (set_node_RebootCompletedAt (Some now) r)) d.
Definition setNodeHealthCheckPassed (id : uuid) (now : Z) (d : DB) : DB * Z :=
  update_node id always
    (λ r, touch_node now (set_node_HealthCheckAt (Some now) (set_node_Step "health_check" r))) d.
Definition setNodeRestoreStarted (id : uuid) (now : Z) (d : DB) : DB * Z :=
  update_node id always
    (λ r, touch_node now (set_node_RestoreStartedAt (Some now) (set_node_Step "restoring" r))) d.
Definition setNodeRestoreCompleted (id : uuid) (now : Z) (d : DB) : DB * Z :=
  update_node id always
    (λ r, touch_node now (set_node_RestoreCompletedAt (Some now) (set_node_Step "completed" r))) d.
Definition setNodeDisabledHARules (id : uuid) (c : column DisabledHARule) (now : Z) (d : DB) : DB * Z :=
  update_node id always (λ r, touch_node now (set_node_DisabledHaRules c r)) d.
Definition setNodeStoppedPassthrough (id : uuid) (c : column GuestSnapshot) (now : Z) (d : DB) : DB * Z :=
  update_node id always (λ r, touch_node now (set_node_StoppedPassthroughJson c r)) d.
Definition touchRollingUpdateNode (id : uuid) (now : Z) (d : DB) : DB * Z :=
  update_node id always (touch_node now) d.

(** ** drs_configs *)

Definition getDRSConfig (clusterID : uuid) (d : DB) : option bool := drs_enabled d !! clusterID.
Definition setDRSEnabled (clusterID : uuid) (v : bool) (d : DB) : DB :=
  {| jobs := jobs d; nodes := nodes d;
     drs_enabled := alter (λ _, v) clusterID (drs_enabled d) |}.
