(* ===== verification/RollingHa.v ===== *)
(** * Rolling updates: what draining a node may do, and where guests go

    Models [internal/rolling/reboot_policy.go], [internal/rolling/types.go] and
    [internal/rolling/ha_check.go]: the decision to reboot, reading the HA
    constraints with retries, choosing a migration target, and the pre-flight
    analysis of a job. *)

From S2P Require Import Prelude GoFloat GoStrings ProxmoxApi DrsRules DrsPlanner RollingDb.

(** ** Rebooting *)

Definition rebootCheckCommand : string :=
  "test -f /var/run/reboot-required && echo REBOOT_NEEDED || echo NO_REBOOT".

Definition rebootOwed (stdout : string) (err : option go_error) : bool :=
  match err with Some _ => true | None => negb (Contains stdout "NO_REBOOT") end.

Inductive rebootAction := rebootProceed | rebootDefer | rebootFail.

#[export] Instance rebootAction_eq_dec : EqDecision rebootAction.
Proof. solve_decision. Defined.

Definition decideReboot (job : RollingUpdateJob) (violations : list string)
    (verifyErr : option go_error) : rebootAction :=
  if job_DrainGuests job then
    match verifyErr with
    | Some _ => rebootProceed
    | None => match violations with [] => rebootProceed | _ => rebootFail end
    end
  else if negb (job_RebootAfterUpdate job) then rebootDefer
  else match verifyErr, violations with
       | None, [] => rebootProceed
       | _, _ => rebootDefer
       end.

(** ** Passthrough *)

Definition usb_passthrough (config : VMConfig) (key : string) : bool :=
  match config !! key with
  | None => false
  | Some (CfgString s) => negb (bool_decide (s = "spice"))
  | Some CfgOther => true
  end.

Definition hasPassthrough (config : VMConfig) : bool :=
  existsb (λ i, bool_decide (is_Some (config !! ("hostpci" +:+ Itoa i)))) (seqZ 0 16) ||
  existsb (λ i, usb_passthrough config ("usb" +:+ Itoa i)) (seqZ 0 5).

(** ** Names *)

Definition guestTypeToSIDPrefix (guestType : string) : string :=
  if bool_decide (guestType = "lxc") then "ct" else "vm".

Definition guestSID (w : Workload) : string :=
  guestTypeToSIDPrefix (w_Type w) +:+ ":" +:+ Itoa (w_VMID w).

Definition vmidFromSID (sid : string) : Z :=
  match Cut colon sid with
  | (_, after, true) => (Atoi after).1
  | (_, _, false) => 0%Z
  end.

(** A [map[string]bool] used as a set. *)
Abbreviation StringSet := (gmap string bool).
Definition in_set (m : StringSet) (s : string) : bool := default false (m !! s).

Definition parseHAGroupNodes (raw : string) : StringSet :=
  foldl (λ m part, let part := TrimSpace part in
                   if bool_decide (part = "") then m
                   else <[(Cut colon part).1.1 := true]> m) ∅ (Split comma raw).

Definition parseCSV (raw : string) : StringSet :=
  foldl (λ m part, let part := TrimSpace part in
                   if bool_decide (part = "") then m else <[part := true]> m) ∅ (Split comma raw).

Definition ruleAppliesToGuest (rule : HARuleEntry) (sid : string) : bool :=
  existsb (λ part, bool_decide (TrimSpace part = sid)) (Split comma (hr_Resources rule)).

(** ** Reading the HA constraints *)

Record HAConstraints := {
  loaded : bool;
  ha_resources : gmap string HAResource;
  ha_groups : gmap string HAGroup;
  ha_rules : list HARuleEntry;
}.

Definition no_constraints : HAConstraints :=
  {| loaded := false; ha_resources := ∅; ha_groups := ∅; ha_rules := [] |}.

Definition listingRetryAttempts : Z := 3.
Definition listingRetryOnce : Z := 1.

(** One attempt at a listing: whether the context ends during the wait before
    it, its answer, and the context's error once it has answered. *)
Record Attempt (T : Type) := {
  done_waiting : option go_error;
  answer : result go_error T;
  done_after : option go_error;
}.
Arguments done_waiting {T} _.
Arguments answer {T} _.
Arguments done_after {T} _.

Section retry.
Context {T : Type} (zero : T) (benign : go_error → bool).

Fixpoint retry_loop (n attempt : nat) (list : nat → Attempt T) (lastErr : go_error) :
    result go_error T :=
  match n with
  | O => Err lastErr
  | S n =>
      match (if Nat.ltb 0 attempt then done_waiting (list attempt) else None) with
      | Some ctxErr => Err ctxErr
      | None =>
          match answer (list attempt) with
          | Ok v => Ok v
          | Err e =>
              if benign e then Ok zero
              else match done_after (list attempt) with
                   | Some ctxErr => Err ctxErr
                   | None => retry_loop n (S attempt) list e
                   end
          end
      end
  end.

Definition retryHAListing (attempts : Z) (list : nat → Attempt T) : result go_error T :=
  let attempts := if (attempts <? 1)%Z then 1%Z else attempts in
  retry_loop (Z.to_nat attempts) 0 list (errorf "").
End retry.

(** The three listings, attempt by attempt. *)
Record HAListings := {
  try_GetHAResources : nat → Attempt (list HAResource);
  try_GetHAGroups : nat → Attempt (list HAGroup);
  try_GetHARules : nat → Attempt (list HARuleEntry);
}.

Definition listHARules (l : HAListings) (attempts : Z) : result go_error (list HARuleEntry) :=
  match retryHAListing [] IsHARulesUnsupportedError attempts (try_GetHARules l) with
  | Err e => Err (wrap "list HA rules" e)
  | Ok rules => Ok rules
  end.

Definition loadHAConstraints (l : HAListings) (attempts : Z) : result go_error HAConstraints :=
  match retryHAListing [] (λ _, false) attempts (try_GetHAResources l) with
  | Err e => Err (wrap "list HA resources" e)
  | Ok resources =>
      match retryHAListing [] IsGroupsMigratedError attempts (try_GetHAGroups l) with
      | Err e => Err (wrap "list HA groups" e)
      | Ok groups =>
          match listHARules l attempts with
          | Err e => Err e
          | Ok rules => Ok {|
              loaded := true;
              ha_resources := foldl (λ m r, <[hres_SID r := r]> m) ∅ resources;
              ha_groups := foldl (λ m g, <[hg_Group g := g]> m) ∅ groups;
              ha_rules := rules |}
          end
      end
  end.

Definition LoadHAConstraints (l : HAListings) : result go_error HAConstraints :=
  loadHAConstraints l listingRetryOnce.

(** ** Choosing a target *)

Section select.
Context `{MR : MapRange}.

Fixpoint findWorkloadNode_in (sid : string) (entries : list (string * list Workload)) : string :=
  match entries with
  | [] => ""
  | (node, workloads) :: entries =>
      if existsb (λ w, bool_decide (guestSID w = sid)) workloads then node
      else findWorkloadNode_in sid entries
  end.

Definition findWorkloadNode (sid : string) (nodeWorkloads : Placement) : string :=
  findWorkloadNode_in sid (go_range nodeWorkloads).

(** The restricted group of a guest, if it has one. *)
Definition restricted_group (ha : HAConstraints) (sid : string) : option (string * HAGroup) :=
  match ha_resources ha !! sid with
  | None => None
  | Some res =>
      if bool_decide (hres_Group res = "") then None
      else match ha_groups ha !! hres_Group res with
           | None => None
           | Some grp => if (hg_Restricted grp =? 1)%Z then Some (hres_Group res, grp) else None
           end
  end.

Definition group_penalty (ha : HAConstraints) (sid candidate : string) : Z :=
  match restricted_group ha sid with
  | Some (_, grp) => if in_set (parseHAGroupNodes (hg_Nodes grp)) candidate then 0 else 1000
  | None => 0
  end.

(** Whether an HA rule speaks against a candidate. *)
Definition rule_against (nodeWorkloads : Placement) (sid candidate : string) (rule : HARuleEntry) : bool :=
  if (hr_Disable rule =? 1)%Z then false
  else if negb (ruleAppliesToGuest rule sid) then false
  else if bool_decide (hr_Type rule = "node-affinity")
  then negb (in_set (parseCSV (hr_Nodes rule)) candidate)
  else if bool_decide (hr_Type rule = "resource-affinity") && bool_decide (hr_Affinity rule = "negative")
  then existsb (λ otherSID, bool_decide (findWorkloadNode otherSID nodeWorkloads = candidate))
               (go_range (delete sid (parseCSV (hr_Resources rule)))).*1
  else false.

Definition rule_penalty (nodeWorkloads : Placement) (sid candidate : string) (rule : HARuleEntry) : Z :=
  if rule_against nodeWorkloads sid candidate rule
  then (if (hr_Strict rule =? 1)%Z then 1000 else 50) else 0.

Definition drs_anti_penalty (guest : GuestSnapshot) (nodeWorkloads : Placement) (candidate : string)
    (rule : Rule) : Z :=
  if negb (bool_decide (rule_Type rule = RuleTypeAntiAffinity)) then 0
  else if negb (contains (rule_VMIDs rule) (gs_VMID guest)) then 0
  else if existsb (λ otherVMID, negb (otherVMID =? gs_VMID guest)%Z &&
                                bool_decide (findVMNode otherVMID nodeWorkloads = candidate))
                  (rule_VMIDs rule)
  then 50 else 0.

Definition drs_pin_penalty (guest : GuestSnapshot) (candidate : string) (rule : Rule) : Z :=
  if negb (bool_decide (rule_Type rule = RuleTypePin)) then 0
  else if negb (contains (rule_VMIDs rule) (gs_VMID guest)) then 0
  else match rule_NodeNames rule with
       | [] => 0
       | _ => if contains (rule_NodeNames rule) candidate then 0 else 50
       end.

Definition sum_penalty {A} (f : A → Z) (l : list A) (s : Z) : Z := foldl (λ s x, s - f x)%Z s l.

Definition candidate_score (guest : GuestSnapshot) (ha : HAConstraints) (drsRules : list Rule)
    (nodeWorkloads : Placement) (candidate : string) : Z :=
  let sid := guestTypeToSIDPrefix (gs_Type guest) +:+ ":" +:+ Itoa (gs_VMID guest) in
  let s := (100 - group_penalty ha sid candidate)%Z in
  let s := sum_penalty (rule_penalty nodeWorkloads sid candidate) (ha_rules ha) s in
  let s := sum_penalty (drs_anti_penalty guest nodeWorkloads candidate) drsRules s in
  let s := sum_penalty (drs_pin_penalty guest candidate) drsRules s in
  (s - Z.of_nat (length (workloads_on nodeWorkloads candidate)))%Z.

Fixpoint best_of (best : string * Z) (results : list (string * Z)) : string * Z :=
  match results with
  | [] => best
  | r :: results => best_of (if (best.2 <? r.2)%Z then r else best) results
  end.

Definition SelectTarget (guest : GuestSnapshot) (candidates : list string) (ha : HAConstraints)
    (drsRules : list Rule) (nodeWorkloads : Placement) : result go_error string :=
  if negb (loaded ha)
  then Err (errorf "HA constraints were never loaded: refusing to select a target that may violate an affinity rule")
  else match (λ c, (c, candidate_score guest ha drsRules nodeWorkloads c)) <$> candidates with
       | [] => Err (errorf "no candidate nodes available")
       | r :: results => Ok (best_of r results).1
       end.
End select.

(** ** The placement the checks read *)

Record ClusterReads := {
  rc_GetNodes : result go_error (list NodeListEntry);
  rc_GetVMs : string → result go_error (list Guest);
  rc_GetContainers : string → result go_error (list Guest);
  rc_GetVMConfig : string → Z → result go_error VMConfig;
  rc_ListDRSRules : result go_error (list DrsRule);
}.

Definition bare_workload (ty node : string) (g : Guest) : Workload := {|
  w_VMID := g_VMID g; w_Name := g_Name g; w_Type := ty; w_Node := node; w_CPUUsage := f0;
  w_CPUs := 0; w_Mem := 0; w_MaxMem := 0; w_NetIn := 0; w_NetOut := 0; w_Status := "";
  w_Pinned := false |}.

Definition vm_placed (g : Guest) : bool :=
  negb (g_Template g =? 1)%Z &&
  (bool_decide (g_Status g = "running") || bool_decide (g_Status g = "paused")).

Definition append_on (wls : Placement) (node : string) (new : list Workload) : Placement :=
  match new with
  | [] => wls
  | _ => <[node := workloads_on wls node ++ new]> wls
  end.

Definition node_workloads (rd : ClusterReads) (node : string) : list Workload :=
  match rc_GetVMs rd node with
  | Err _ => []
  | Ok vms =>
      (bare_workload "qemu" node <$> filter (λ g, vm_placed g = true) vms) ++
      match rc_GetContainers rd node with
      | Err _ => []
      | Ok cts => bare_workload "lxc" node <$> filter (λ g, g_Status g = "running") cts
      end
  end.

Definition BuildNodeWorkloads (rd : ClusterReads) (nodes : list NodeListEntry) : Placement :=
  foldl (λ wls n, if negb (bool_decide (ne_Status n = "online")) then wls
                  else append_on wls (ne_Node n) (node_workloads rd (ne_Node n))) ∅ nodes.

(** ** Pre-flight *)

Record HAConflict := {
  hc_Source : string;
  hc_RuleName : string;
  hc_Type : string;
  hc_Severity : string;
  hc_VMID : Z;
  hc_VMName : string;
  hc_Message : string;
  hc_Node : string;
}.

Record HAPreFlightReport := { Conflicts : list HAConflict; HasErrors : bool }.

Definition add_conflict (c : HAConflict) (r : HAPreFlightReport) : HAPreFlightReport :=
  {| Conflicts := Conflicts r ++ [c]; HasErrors := HasErrors r |}.
Definition set_errors (r : HAPreFlightReport) : HAPreFlightReport :=
  {| Conflicts := Conflicts r; HasErrors := true |}.

Definition guest_conflict (source rule ty severity : string) (guest : Workload) (node : string)
    (msg : string) : HAConflict :=
  {| hc_Source := source; hc_RuleName := rule; hc_Type := ty; hc_Severity := severity;
     hc_VMID := w_VMID guest; hc_VMName := w_Name guest; hc_Message := msg; hc_Node := node |}.

Definition vm_label (guest : Workload) : string :=
  "VM " +:+ Itoa (w_VMID guest) +:+ " (" +:+ w_Name guest +:+ ")".

Section preflight.
Context `{MR : MapRange} (rd : ClusterReads).

Definition passthrough_check (drainNode : string) (r : HAPreFlightReport) (w : Workload) :
    HAPreFlightReport :=
  if negb (bool_decide (w_Type w = "qemu")) then r
  else match rc_GetVMConfig rd drainNode (w_VMID w) with
       | Err _ => r
       | Ok config =>
           if hasPassthrough config then
             add_conflict (guest_conflict "passthrough" "hardware_passthrough" "passthrough" "warning"
               w drainNode (vm_label w +:+ " has PCI/USB passthrough — will be shut down during drain and restarted after update (cannot live-migrate)")) r
           else r
       end.

Definition target_nodes (clusterNodes : list NodeListEntry) (drainSet : gset string) (drainNode : string) :
    list string :=
  let online n := negb (bool_decide (ne_Node n = drainNode)) && bool_decide (ne_Status n = "online") in
  (ne_Node <$> filter (λ n, online n = true ∧ ne_Node n ∉ drainSet) clusterNodes) ++
  (ne_Node <$> filter (λ n, online n = true ∧ ne_Node n ∈ drainSet) clusterNodes).

Definition group_check (ha : HAConstraints) (targets : list string) (drainNode : string)
    (guest : Workload) (r : HAPreFlightReport) : HAPreFlightReport :=
  match restricted_group ha (guestSID guest) with
  | None => r
  | Some (group, grp) =>
      let groupNodes := parseHAGroupNodes (hg_Nodes grp) in
      if existsb (in_set groupNodes) targets then r
      else set_errors (add_conflict (guest_conflict "ha_group" group "restricted_group" "error" guest drainNode
             (vm_label guest +:+ " is in restricted HA group " +:+ Quote group +:+
              " — no valid target node available when draining " +:+ drainNode)) r)
  end.

(** The severity of a broken rule; a strict one also marks the report. *)
Definition rule_conflict (rule : HARuleEntry) (c : string → HAConflict) (r : HAPreFlightReport) :
    HAPreFlightReport :=
  if (hr_Strict rule =? 1)%Z then add_conflict (c "error") (set_errors r)
  else add_conflict (c "warning") r.

(** The first other member, in the order the map is iterated, placed elsewhere. *)
Definition first_elsewhere (nodeWorkloads : Placement) (drainNode : string) (others : list string) :
    option string :=
  snd <$> list_find (λ otherSID, findWorkloadNode otherSID nodeWorkloads ≠ "" ∧
                                 findWorkloadNode otherSID nodeWorkloads ≠ drainNode) others.

Definition rule_check (nodeWorkloads : Placement) (targets : list string) (drainNode : string)
    (guest : Workload) (r : HAPreFlightReport) (rule : HARuleEntry) : HAPreFlightReport :=
  let sid := guestSID guest in
  if (hr_Disable rule =? 1)%Z then r
  else if negb (ruleAppliesToGuest rule sid) then r
  else if bool_decide (hr_Type rule = "node-affinity") then
    if existsb (in_set (parseCSV (hr_Nodes rule))) targets then r
    else rule_conflict rule (λ severity, guest_conflict "ha_rule" (hr_Rule rule) "node_affinity" severity
           guest drainNode (vm_label guest +:+ " has node-affinity rule " +:+ Quote (hr_Rule rule) +:+
           " — no allowed target node when draining " +:+ drainNode)) r
  else if bool_decide (hr_Type rule = "resource-affinity") && bool_decide (hr_Affinity rule = "negative") then
    match first_elsewhere nodeWorkloads drainNode
            (go_range (delete sid (parseCSV (hr_Resources rule)))).*1 with
    | None => r
    | Some otherSID =>
        rule_conflict rule (λ severity, guest_conflict "ha_rule" (hr_Rule rule) "anti_affinity" severity
          guest drainNode (vm_label guest +:+ " has anti-affinity with VM " +:+ Itoa (vmidFromSID otherSID) +:+
          " — may be forced onto same node when draining " +:+ drainNode)) r
    end
  else r.

Definition drs_conflict (nodeWorkloads : Placement) (targets : list string) (drainNode : string)
    (guest : Workload) (r : HAPreFlightReport) (rule : Rule) : HAPreFlightReport :=
  if bool_decide (rule_Type rule = RuleTypeAntiAffinity) then
    if negb (contains (rule_VMIDs rule) (w_VMID guest)) then r
    else if forallb (λ target, existsb (λ otherVMID, negb (otherVMID =? w_VMID guest)%Z &&
                       bool_decide (findVMNode otherVMID nodeWorkloads = target)) (rule_VMIDs rule)) targets
    then add_conflict (guest_conflict "drs_rule" "" "anti_affinity" "warning" guest drainNode
           (vm_label guest +:+ " anti-affinity rule will be temporarily violated when draining " +:+ drainNode)) r
    else r
  else if bool_decide (rule_Type rule = RuleTypePin) then
    if negb (contains (rule_VMIDs rule) (w_VMID guest)) then r
    else match rule_NodeNames rule with
         | [] => r
         | _ => if existsb (contains (rule_NodeNames rule)) targets then r
                else add_conflict (guest_conflict "drs_rule" "" "pin" "warning" guest drainNode
                       (vm_label guest +:+ " is pinned to " +:+ drainNode +:+
                        " — no valid target when draining")) r
         end
  else r.

Definition checkDRSConflicts (nodeWorkloads : Placement) (targets : list string) (drainNode : string)
    (guest : Workload) (rules : list Rule) (r : HAPreFlightReport) : HAPreFlightReport :=
  foldl (drs_conflict nodeWorkloads targets drainNode guest) r rules.

Definition guest_check (ha : HAConstraints) (drsRules : list Rule) (nodeWorkloads : Placement)
    (targets : list string) (drainNode : string) (r : HAPreFlightReport) (guest : Workload) :
    HAPreFlightReport :=
  let r := group_check ha targets drainNode guest r in
  let r := foldl (rule_check nodeWorkloads targets drainNode guest) r (ha_rules ha) in
  checkDRSConflicts nodeWorkloads targets drainNode guest drsRules r.

Definition drain_check (ha : HAConstraints) (drsRules : list Rule) (clusterNodes : list NodeListEntry)
    (nodeWorkloads : Placement) (drainSet : gset string) (r : HAPreFlightReport) (drainNode : string) :
    HAPreFlightReport :=
  match workloads_on nodeWorkloads drainNode with
  | [] => r
  | guests =>
      match target_nodes clusterNodes drainSet drainNode with
      | [] => set_errors (add_conflict {|
                hc_Source := "cluster"; hc_RuleName := "no_targets"; hc_Type := "no_available_nodes";
                hc_Severity := "error"; hc_VMID := 0; hc_VMName := "";
                hc_Message := "No available target nodes when draining " +:+ drainNode;
                hc_Node := drainNode |} r)
      | targets => foldl (guest_check ha drsRules nodeWorkloads targets drainNode) r guests
      end
  end.

Definition AnalyzeHAConstraints (listings : HAListings) (nodesToDrain : list string) :
    result go_error HAPreFlightReport :=
  let? ha := loadHAConstraints listings listingRetryOnce in
  let drsRules := ParseDBRules (match rc_ListDRSRules rd with Ok rules => rules | Err _ => [] end) in
  match rc_GetNodes rd with
  | Err e => Err (wrap "get cluster nodes" e)
  | Ok clusterNodes =>
      let nodeWorkloads := BuildNodeWorkloads rd clusterNodes in
      let drainSet : gset string := list_to_set nodesToDrain in
      let r := {| Conflicts := []; HasErrors := false |} in
      let r := foldl (λ r drainNode, foldl (passthrough_check drainNode) r
                                       (workloads_on nodeWorkloads drainNode)) r nodesToDrain in
      Ok (foldl (drain_check ha drsRules clusterNodes nodeWorkloads drainSet) r nodesToDrain)
  end.
End preflight.

(** ** Lemmas *)

(** *** Retrying *)

(** An attempt that settles the listing, and one that leads to another. *)
Definition settles {T} (zero : T) (benign : go_error → bool) (a : Attempt T) (v : T) : Prop :=
  answer a = Ok v ∨ ∃ e, answer a = Err e ∧ benign e = true ∧ v = zero.
Definition transient {T} (benign : go_error → bool) (a : Attempt T) : Prop :=
  (∃ e, answer a = Err e ∧ benign e = false) ∧ done_after a = None.

Lemma retry_loop_ok {T} (zero : T) benign n k list lastErr v :
  retry_loop zero benign n k list lastErr = Ok v ↔
  ∃ i, i < n ∧ settles zero benign (list (k + i)) v ∧
    (∀ j, j < i → transient benign (list (k + j))) ∧
    (∀ j, j ≤ i → 0 < k + j → done_waiting (list (k + j)) = None).
Proof.
  revert k lastErr. induction n as [|n IH]; intros k lastErr; cbn [retry_loop].
  { split; [done|]. intros (i & Hi & _). lia. }
  set (w := if Nat.ltb 0 k then done_waiting (list k) else None).
  assert (w = None ↔ (0 < k → done_waiting (list k) = None)) as Hw.
  { unfold w. destruct (Nat.ltb_spec 0 k); split; auto; lia. }
  destruct w as [c|].
  { split; [done|]. intros (i & _ & _ & _ & Hwait). exfalso.
    assert (Some c = None); [|done]. apply Hw. intros Hk. specialize (Hwait 0).
    rewrite Nat.add_0_r in Hwait. apply Hwait; lia. }
  assert (0 < k → done_waiting (list k) = None) as Hk by (by apply Hw). clear Hw.
  destruct (answer (list k)) as [u|e] eqn:Ha.
  { split.
    - intros [= ->]. exists 0. rewrite Nat.add_0_r. split_and!; [lia|by left|lia|].
      intros j Hj. by replace j with 0 by lia; rewrite Nat.add_0_r.
    - intros (i & _ & Hs & Ht & _). destruct i as [|i].
      + rewrite Nat.add_0_r in Hs. destruct Hs as [?|(? & ? & _)]; congruence.
      + destruct (Ht 0 ltac:(lia)) as [(? & ? & _) _]. rewrite Nat.add_0_r in *. congruence. }
  destruct (benign e) eqn:Hb.
  { split.
    - intros [= <-]. exists 0. rewrite Nat.add_0_r. split_and!; [lia|right; by exists e|lia|].
      intros j Hj. by replace j with 0 by lia; rewrite Nat.add_0_r.
    - intros (i & _ & Hs & Ht & _). destruct i as [|i].
      + rewrite Nat.add_0_r in Hs. destruct Hs as [?|(? & ? & ? & ->)]; congruence.
      + destruct (Ht 0 ltac:(lia)) as [(? & ? & ?) _]. rewrite Nat.add_0_r in *. congruence. }
  destruct (done_after (list k)) as [c|] eqn:Hd.
  { split; [done|]. intros (i & _ & Hs & Ht & _). destruct i as [|i].
    - rewrite Nat.add_0_r in Hs. destruct Hs as [?|(? & ? & ? & _)]; congruence.
    - destruct (Ht 0 ltac:(lia)) as [_ ?]. rewrite Nat.add_0_r in *. congruence. }
  rewrite IH. split.
  - intros (i & Hi & Hs & Ht & Hwait). exists (S i). rewrite <-Nat.add_succ_comm. split_and!; [lia|done| |].
    + intros [|j] Hj; rewrite ?Nat.add_0_r, <-?Nat.add_succ_comm; [split; [by exists e|done]|apply Ht; lia].
    + intros [|j] Hj; rewrite ?Nat.add_0_r, <-?Nat.add_succ_comm; [done|intros; apply Hwait; lia].
  - intros (i & Hi & Hs & Ht & Hwait). destruct i as [|i].
    { rewrite Nat.add_0_r in Hs. destruct Hs as [?|(? & ? & ? & _)]; congruence. }
    exists i. rewrite Nat.add_succ_comm. split_and!; [lia|done| |].
    + intros j Hj. rewrite Nat.add_succ_comm. apply Ht. lia.
    + intros j Hj _. rewrite Nat.add_succ_comm. apply Hwait; lia.
Qed.

Lemma retry_settled {T} (zero : T) benign attempts list v :
  retryHAListing zero benign attempts list = Ok v →
  ∃ i, (Z.of_nat i < Z.max 1 attempts)%Z ∧ settles zero benign (list i) v.
Proof.
  unfold retryHAListing. intros (i & Hi & Hs & _)%retry_loop_ok. exists i. split; [|done].
  destruct (Z.ltb_spec attempts 1); lia.
Qed.

(** A listing indexed by a key holds only what was listed. *)
Lemma foldl_index_elem {A} (key : A → string) (l : list A) k a :
  foldl (λ m x, <[key x := x]> m) (∅ : gmap string A) l !! k = Some a → a ∈ l.
Proof.
  assert (∀ m : gmap string A, foldl (λ m x, <[key x := x]> m) m l !! k = Some a → m !! k = Some a ∨ a ∈ l) as H.
  { induction l as [|x l IH]; intros m Hm; simpl in Hm; [by left|].
    apply IH in Hm as [Hm|?]; [|right; by apply list_elem_of_further].
    destruct (decide (key x = k)) as [<-|?].
    - rewrite lookup_insert_eq in Hm. simplify_eq. right. apply list_elem_of_here.
    - rewrite lookup_insert_ne in Hm by done. by left. }
  intros [Hm|?]%H; [|done]. by rewrite lookup_empty in Hm.
Qed.

(** *** Choosing *)

Lemma sum_penalty_le {A} (f : A → Z) l s : (∀ x, 0 ≤ f x)%Z → (sum_penalty f l s ≤ s)%Z.
Proof.
  intros Hf. unfold sum_penalty. revert s. induction l as [|x l IH]; intros s; simpl; [lia|].
  specialize (IH (s - f x)%Z). specialize (Hf x). lia.
Qed.

Lemma sum_penalty_elem {A} (f : A → Z) l s x :
  (∀ x, 0 ≤ f x)%Z → x ∈ l → (sum_penalty f l s ≤ s - f x)%Z.
Proof.
  intros Hf. revert s. induction l as [|y l IH]; intros s Hx; [by apply not_elem_of_nil in Hx|].
  unfold sum_penalty in *. simpl. apply elem_of_cons in Hx as [->|Hx].
  - by apply (sum_penalty_le f).
  - specialize (IH (s - f y)%Z Hx). specialize (Hf y). lia.
Qed.

Section select_lemmas.
Context `{MR : MapRange}.
Context (guest : GuestSnapshot) (ha : HAConstraints) (drsRules : list Rule) (wls : Placement).
Let sid := guestTypeToSIDPrefix (gs_Type guest) +:+ ":" +:+ Itoa (gs_VMID guest).

(** A placement Proxmox would refuse: outside a restricted group, or against a strict rule. *)
Definition hard_violation (candidate : string) : Prop :=
  (∃ g grp, restricted_group ha sid = Some (g, grp) ∧
            in_set (parseHAGroupNodes (hg_Nodes grp)) candidate = false) ∨
  ∃ rule, rule ∈ ha_rules ha ∧ hr_Strict rule = 1%Z ∧ rule_against wls sid candidate rule = true.

Lemma penalties_nonneg candidate :
  (0 ≤ group_penalty ha sid candidate)%Z ∧
  (∀ r, 0 ≤ rule_penalty wls sid candidate r)%Z ∧
  (∀ r, 0 ≤ drs_anti_penalty guest wls candidate r)%Z ∧
  (∀ r, 0 ≤ drs_pin_penalty guest candidate r)%Z.
Proof.
  unfold group_penalty, rule_penalty, drs_anti_penalty, drs_pin_penalty.
  split_and!; intros; repeat case_match; lia.
Qed.

Lemma hard_violation_score candidate :
  hard_violation candidate → (candidate_score guest ha drsRules wls candidate ≤ -900)%Z.
Proof.
  destruct (penalties_nonneg candidate) as (H1 & H2 & H3 & H4). intros Hv.
  unfold candidate_score. fold sid.
  set (s1 := (100 - group_penalty ha sid candidate)%Z).
  set (s2 := sum_penalty (rule_penalty wls sid candidate) (ha_rules ha) s1).
  pose proof (sum_penalty_le _ drsRules s2 H3). set (s3 := sum_penalty _ drsRules s2) in *.
  pose proof (sum_penalty_le _ drsRules s3 H4). set (s4 := sum_penalty _ drsRules s3) in *.
  assert (s2 ≤ -900)%Z; [|lia].
  destruct Hv as [(g & grp & Hg & Hin)|(rule & Hr & Hs & Ha)].
  - pose proof (sum_penalty_le _ (ha_rules ha) s1 H2) as Hs2. fold s2 in Hs2.
    assert (group_penalty ha sid candidate = 1000%Z) as Hp.
    { unfold group_penalty. by rewrite Hg, Hin. }
    unfold s1 in *. lia.
  - pose proof (sum_penalty_elem _ (ha_rules ha) s1 rule H2 Hr) as He. fold s2 in He.
    assert (rule_penalty wls sid candidate rule = 1000%Z) as Hp.
    { unfold rule_penalty. by rewrite Ha, Hs. }
    unfold s1 in He. lia.
Qed.
End select_lemmas.

Lemma best_of_spec best results :
  best_of best results ∈ best :: results ∧
  (∀ r, r ∈ best :: results → (r.2 ≤ (best_of best results).2)%Z).
Proof.
  revert best. induction results as [|r results IH]; intros best; simpl.
  { split; [apply list_elem_of_here|]. by intros r ->%list_elem_of_singleton. }
  destruct (IH (if (best.2 <? r.2)%Z then r else best)) as [H1 H2].
  destruct (Z.ltb_spec best.2 r.2) as [Hlt|Hge]; split.
  - by apply list_elem_of_further.
  - intros x [->|Hx]%elem_of_cons; [|by apply H2].
    specialize (H2 r (list_elem_of_here _ _)). lia.
  - apply elem_of_cons in H1 as [->|?]; [apply list_elem_of_here|by do 2 apply list_elem_of_further].
  - intros x [->|[->|Hx]%elem_of_cons]%elem_of_cons.
    + apply H2, list_elem_of_here.
    + specialize (H2 best (list_elem_of_here _ _)). lia.
    + by apply H2, list_elem_of_further.
Qed.

(** The target is one of the candidates. *)
Lemma SelectTarget_candidate `{MR : MapRange} guest candidates ha drsRules wls target :
  SelectTarget guest candidates ha drsRules wls = Ok target → target ∈ candidates.
Proof.
  unfold SelectTarget. destruct (negb (loaded ha)); [done|].
  destruct (_ <$> candidates) as [|r results] eqn:Hr; [done|]. intros [= <-].
  destruct (best_of_spec r results) as [Hin _]. rewrite <-Hr in Hin.
  apply list_elem_of_fmap in Hin as (c & -> & Hc). done.
Qed.

(** *** The report *)

Definition severe (c : HAConflict) : bool := bool_decide (hc_Severity c = "error").

(** The flag says whether an error is among the conflicts. *)
Definition flagged (r : HAPreFlightReport) : Prop := HasErrors r = existsb severe (Conflicts r).

(** [quiet f]: the step [f] keeps the flag right, and never clears it. *)
Definition quiet (f : HAPreFlightReport → HAPreFlightReport) : Prop :=
  ∀ r, (flagged r → flagged (f r)) ∧ (HasErrors (f r) = false → HasErrors r = false).

Lemma quiet_id : quiet (λ r, r).
Proof. done. Qed.

Lemma quiet_compose f g : quiet f → quiet g → quiet (λ r, g (f r)).
Proof. intros Hf Hg r. destruct (Hf r), (Hg (f r)). auto. Qed.

Lemma quiet_foldl {A} (f : HAPreFlightReport → A → HAPreFlightReport) l :
  (∀ x, quiet (λ r, f r x)) → quiet (λ r, foldl f r l).
Proof.
  intros Hf. induction l as [|x l IH]; simpl; [apply quiet_id|].
  apply (quiet_compose (λ r, f r x) (λ r, foldl f r l)); auto.
Qed.

Lemma quiet_warning c : hc_Severity c = "warning" → quiet (add_conflict c).
Proof.
  intros Hc r. unfold flagged, add_conflict. simpl. rewrite existsb_app. simpl. unfold severe at 3.
  rewrite Hc. simpl. by rewrite orb_false_r.
Qed.

Lemma quiet_error c : hc_Severity c = "error" → quiet (λ r, set_errors (add_conflict c r)).
Proof.
  intros Hc r. unfold flagged, add_conflict. simpl. rewrite existsb_app. simpl. unfold severe at 3.
  rewrite Hc. simpl. by rewrite orb_true_r.
Qed.

Lemma quiet_rule_conflict rule c :
  (∀ sev, hc_Severity (c sev) = sev) → quiet (rule_conflict rule c).
Proof.
  intros Hc. unfold rule_conflict. destruct (hr_Strict rule =? 1)%Z.
  - apply (quiet_error (c "error")), Hc.
  - apply quiet_warning, Hc.
Qed.

#[export] Hint Resolve quiet_id quiet_foldl : nexara.

Section preflight_lemmas.
Context `{MR : MapRange} (rd : ClusterReads).

Lemma quiet_passthrough drainNode w : quiet (λ r, passthrough_check rd drainNode r w).
Proof.
  unfold passthrough_check. destruct (negb _); [apply quiet_id|].
  destruct (rc_GetVMConfig rd drainNode (w_VMID w)) as [config|]; [|apply quiet_id].
  destruct (hasPassthrough config); [by apply quiet_warning|apply quiet_id].
Qed.

Lemma quiet_group ha targets drainNode guest : quiet (group_check ha targets drainNode guest).
Proof.
  unfold group_check. destruct (restricted_group _ _) as [[group grp]|]; [|apply quiet_id].
  destruct (existsb _ targets); [apply quiet_id|by apply quiet_error].
Qed.

Lemma quiet_rule wls targets drainNode guest rule :
  quiet (λ r, rule_check wls targets drainNode guest r rule).
Proof.
  unfold rule_check. repeat case_match; try apply quiet_id; by apply quiet_rule_conflict.
Qed.

Lemma quiet_drs wls targets drainNode guest rules :
  quiet (checkDRSConflicts wls targets drainNode guest rules).
Proof.
  apply quiet_foldl. intros rule. unfold drs_conflict.
  repeat case_match; try apply quiet_id; by apply quiet_warning.
Qed.

Lemma quiet_guest ha drsRules wls targets drainNode guest :
  quiet (λ r, guest_check ha drsRules wls targets drainNode r guest).
Proof.
  unfold guest_check.
  apply (quiet_compose _ (checkDRSConflicts _ _ _ _ _)); [|apply quiet_drs].
  apply (quiet_compose (group_check _ _ _ _) (λ r, foldl _ r _)); [apply quiet_group|].
  apply quiet_foldl. intros. apply quiet_rule.
Qed.

Lemma quiet_drain ha drsRules nodes wls drainSet drainNode :
  quiet (λ r, drain_check ha drsRules nodes wls drainSet r drainNode).
Proof.
  unfold drain_check. destruct (workloads_on wls drainNode) as [|g gs]; [apply quiet_id|].
  destruct (target_nodes _ _ _) as [|t ts]; [by apply quiet_error|].
  apply quiet_foldl. intros. apply quiet_guest.
Qed.

(** A loop that ends without an error had none at any of its steps. *)
Lemma foldl_no_error {A} (f : HAPreFlightReport → A → HAPreFlightReport) l r x :
  (∀ y, quiet (λ r, f r y)) → HasErrors (foldl f r l) = false → x ∈ l →
  ∃ r', HasErrors (f r' x) = false.
Proof.
  intros Hf. revert r. induction l as [|y l IH]; intros r He Hx; [by apply not_elem_of_nil in Hx|].
  simpl in He. apply elem_of_cons in Hx as [->|Hx]; [|by eapply IH].
  exists r. by apply (quiet_foldl f l Hf (f r y)).
Qed.

(** What a guest of a drained node is assured of when its check ends without an error. *)
Definition drainable (ha : HAConstraints) (targets : list string) (guest : Workload) : Prop :=
  (∀ g grp, restricted_group ha (guestSID guest) = Some (g, grp) →
     ∃ t, t ∈ targets ∧ in_set (parseHAGroupNodes (hg_Nodes grp)) t = true) ∧
  (∀ rule, rule ∈ ha_rules ha → hr_Disable rule ≠ 1%Z → hr_Strict rule = 1%Z →
     ruleAppliesToGuest rule (guestSID guest) = true → hr_Type rule = "node-affinity" →
     ∃ t, t ∈ targets ∧ in_set (parseCSV (hr_Nodes rule)) t = true).

Lemma guest_check_ok ha drsRules wls targets drainNode r guest :
  HasErrors (guest_check ha drsRules wls targets drainNode r guest) = false → drainable ha targets guest.
Proof.
  unfold guest_check. intros He. apply quiet_drs in He. split.
  - intros g grp Hg. eapply (quiet_foldl (rule_check wls targets drainNode guest)) in He;
      [|intros; apply quiet_rule]. unfold group_check in He. rewrite Hg in He.
    destruct (existsb (in_set (parseHAGroupNodes (hg_Nodes grp))) targets) eqn:Hex; [|done].
    by apply existsb_elem_of in Hex.
  - intros rule Hr Hd Hs Ha Ht. eapply foldl_no_error in He as [r' He']; [|intros; apply quiet_rule|done].
    unfold rule_check in He'. rewrite (proj2 (Z.eqb_neq _ _) Hd), Ha in He'. simpl in He'.
    rewrite (bool_decide_true _ Ht) in He'.
    destruct (existsb (in_set (parseCSV (hr_Nodes rule))) targets) eqn:Hex;
      [by apply existsb_elem_of in Hex|].
    unfold rule_conflict in He'. by rewrite Hs in He'.
Qed.
End preflight_lemmas.

(** ** Properties *)

(** A target respects the hard constraints. [SelectTarget] answers exactly when the HA
    constraints were loaded and there is a candidate. Its answer is a candidate of highest score; and
    as soon as one candidate scores above -900, which any candidate does that breaks no hard
    constraint and has under 1000 points of soft penalties, the answer is no node a restricted HA
    group excludes and breaks no strict HA rule. *)
Theorem SelectTarget_spec (MR : MapRange) guest candidates ha drsRules wls :
  ((∃ t, SelectTarget guest candidates ha drsRules wls = Ok t) ↔ loaded ha = true ∧ candidates ≠ []) ∧
  ∀ t, SelectTarget guest candidates ha drsRules wls = Ok t →
    t ∈ candidates ∧
    (∀ c, c ∈ candidates →
       (candidate_score guest ha drsRules wls c ≤ candidate_score guest ha drsRules wls t)%Z) ∧
    ((∃ c, c ∈ candidates ∧ (-900 < candidate_score guest ha drsRules wls c)%Z) →
     ¬ hard_violation guest ha wls t).
Proof.
  unfold SelectTarget. destruct (loaded ha); simpl; [|by split; [split; [intros [? ?]|intros [? ?]]|]].
  destruct candidates as [|c0 cs]; csimpl; [by split; [split; [intros [? ?]|intros [? ?]]|]|].
  set (score := candidate_score guest ha drsRules wls).
  split; [split; [done|by eexists]|]. intros t [= <-].
  destruct (best_of_spec (c0, score c0) ((λ c, (c, score c)) <$> cs)) as [Hin Hmax].
  set (b := best_of _ _) in *.
  assert (∀ c, c ∈ c0 :: cs → (c, score c) ∈ (c0, score c0) :: ((λ c, (c, score c)) <$> cs)) as Hall.
  { intros c Hc. change ((c, score c) ∈ (λ c, (c, score c)) <$> (c0 :: cs)).
    apply list_elem_of_fmap. by exists c. }
  assert (b.1 ∈ c0 :: cs ∧ b.2 = score b.1) as [Hb Hs].
  { change (b ∈ (λ c, (c, score c)) <$> (c0 :: cs)) in Hin.
    by apply list_elem_of_fmap in Hin as (c & -> & Hc). }
  assert (∀ c, c ∈ c0 :: cs → (score c ≤ score b.1)%Z) as Hle.
  { intros c Hc. rewrite <-Hs. apply (Hmax _ (Hall c Hc)). }
  split_and!; [done|done|]. intros (c & Hc & Hgt) Hv%(hard_violation_score guest ha drsRules wls).
  specialize (Hle c Hc). fold score in Hgt, Hv. lia.
Qed.

Definition example_constraints : HAConstraints := {|
  loaded := true; ha_resources := ∅; ha_groups := ∅;
  ha_rules := [{| hr_Rule := "pin"; hr_Type := "node-affinity"; hr_Resources := "vm:101";
                  hr_Nodes := "pve3,pve2"; hr_Strict := 1; hr_Disable := 0; hr_Affinity := "" |}] |}.

Definition example_snapshot : GuestSnapshot :=
  {| gs_VMID := 101; gs_Name := "vm"; gs_Type := "qemu"; gs_Status := "running"; gs_Passthrough := false |}.

Lemma SelectTarget_spec_witness :
  ¬ @hard_violation map_to_list_range example_snapshot example_constraints ∅ "pve2".
Proof.
  apply (SelectTarget_spec map_to_list_range example_snapshot ["pve1"; "pve2"; "pve3"]
    example_constraints [] ∅).
  - by vm_compute.
  - exists "pve3". split; [set_solver|by vm_compute].
Defined.

(** A listing is only trusted when it was read. [retryHAListing] succeeds exactly when one of
    its attempts (at least one, at most the budget) returned the value or an error that means there
    are none, every attempt before it failed otherwise, and the context had not ended; so a budget
    of zero or less never turns into an empty success. *)
Theorem retryHAListing_spec {T} (zero : T) benign attempts list v :
  retryHAListing zero benign attempts list = Ok v ↔
  ∃ i, (Z.of_nat i < Z.max 1 attempts)%Z ∧ settles zero benign (list i) v ∧
    (∀ j, j < i → transient benign (list j)) ∧
    (∀ j, 0 < j → j ≤ i → done_waiting (list j) = None).
Proof.
  unfold retryHAListing. rewrite retry_loop_ok. cbn [Nat.add].
  assert (∀ i, i < Z.to_nat (if (attempts <? 1)%Z then 1%Z else attempts) ↔
               (Z.of_nat i < Z.max 1 attempts)%Z) as Hb.
  { intros i. destruct (Z.ltb_spec attempts 1); lia. }
  setoid_rewrite Hb. split; intros (i & Hi & Hs & Ht & Hw); exists i; auto.
Qed.

(** Loaded constraints were read in full. When [loadHAConstraints] succeeds the value is marked
    loaded, which [SelectTarget] insists on, and within the attempt budget the resources were read,
    the groups were read or Proxmox said they were migrated to rules, and the rules were read or the
    rules endpoint answered 501. *)
Theorem loadHAConstraints_read l attempts ha :
  loadHAConstraints l attempts = Ok ha →
  loaded ha = true ∧
  (∃ i rs, (Z.of_nat i < Z.max 1 attempts)%Z ∧ answer (try_GetHAResources l i) = Ok rs ∧
     ∀ sid r, ha_resources ha !! sid = Some r → r ∈ rs) ∧
  (∃ i, (Z.of_nat i < Z.max 1 attempts)%Z ∧
     ((∃ gs, answer (try_GetHAGroups l i) = Ok gs ∧ ∀ g grp, ha_groups ha !! g = Some grp → grp ∈ gs) ∨
      (∃ e, answer (try_GetHAGroups l i) = Err e ∧ IsGroupsMigratedError e = true ∧ ha_groups ha = ∅))) ∧
  (∃ i, (Z.of_nat i < Z.max 1 attempts)%Z ∧
     (answer (try_GetHARules l i) = Ok (ha_rules ha) ∨
      (∃ e, answer (try_GetHARules l i) = Err e ∧ err_status e = Some 501%Z ∧ ha_rules ha = []))).
Proof.
  unfold loadHAConstraints, listHARules. intros H.
  destruct (retryHAListing [] _ attempts (try_GetHAResources l)) as [rs|] eqn:Hrs; [|done].
  destruct (retryHAListing [] _ attempts (try_GetHAGroups l)) as [gs|] eqn:Hgs; [|done].
  destruct (retryHAListing [] _ attempts (try_GetHARules l)) as [rules|] eqn:Hru; [|done].
  injection H as <-. simpl.
  apply retry_settled in Hrs as (i1 & Hi1 & Hs1), Hgs as (i2 & Hi2 & Hs2), Hru as (i3 & Hi3 & Hs3).
  split_and!; [done| | |].
  - exists i1, rs. destruct Hs1 as [?|(? & _ & ? & _)]; [|done]. split_and!; [done..|].
    intros sid r. apply (foldl_index_elem hres_SID).
  - exists i2. split; [done|]. destruct Hs2 as [?|(e & ? & ? & ->)]; [left|right; by exists e].
    exists gs. split; [done|]. intros g grp. apply (foldl_index_elem hg_Group).
  - exists i3. split; [done|]. destruct Hs3 as [?|(e & ? & Hb & ->)]; [by left|right].
    exists e. unfold IsHARulesUnsupportedError in Hb. by to_prop.
Qed.

Definition answered {T} (v : T) : Attempt T :=
  {| done_waiting := None; answer := Ok v; done_after := None |}.

Definition example_listings : HAListings := {|
  try_GetHAResources := λ _, answered [];
  try_GetHAGroups := λ _, {| done_waiting := None; done_after := None;
    answer := Err (APIError 500 "cannot index groups: ha groups have been migrated to rules") |};
  try_GetHARules := λ _, answered (ha_rules example_constraints);
|}.

Lemma loadHAConstraints_read_witness : loaded example_constraints = true.
Proof.
  apply (loadHAConstraints_read example_listings 1 example_constraints). by vm_compute.
Defined.

(** The pre-flight gate. A report's error flag says exactly whether one of its conflicts is an
    error. When the analysis reports no error, every guest on a node to be drained has at least one
    online node to go to, one its restricted HA group allows, and, for each strict node-affinity
    rule that applies to it, one that rule allows. *)
Theorem AnalyzeHAConstraints_gate (MR : MapRange) rd listings nodesToDrain r :
  AnalyzeHAConstraints rd listings nodesToDrain = Ok r →
  HasErrors r = existsb (λ c, bool_decide (hc_Severity c = "error")) (Conflicts r) ∧
  (HasErrors r = false →
   ∃ ha nodes, loadHAConstraints listings listingRetryOnce = Ok ha ∧ rc_GetNodes rd = Ok nodes ∧
     ∀ drainNode guest, drainNode ∈ nodesToDrain →
       guest ∈ workloads_on (BuildNodeWorkloads rd nodes) drainNode →
       let targets := target_nodes nodes (list_to_set nodesToDrain) drainNode in
       targets ≠ [] ∧ drainable ha targets guest).
Proof.
  unfold AnalyzeHAConstraints. intros H.
  destruct (loadHAConstraints listings listingRetryOnce) as [ha|]; [|done].
  destruct (rc_GetNodes rd) as [nodes|]; [|done]. injection H as <-.
  set (wls := BuildNodeWorkloads rd nodes).
  set (drsRules := ParseDBRules _). set (drainSet := list_to_set nodesToDrain).
  set (r1 := foldl (λ r drainNode, _) _ nodesToDrain).
  split.
  - apply (quiet_foldl (drain_check ha drsRules nodes wls drainSet)); [intros; apply quiet_drain|].
    apply (quiet_foldl (λ r drainNode, foldl (passthrough_check rd drainNode) r (workloads_on wls drainNode)));
      [|done].
    intros n. apply quiet_foldl. intros. apply quiet_passthrough.
  - intros He. exists ha, nodes. split; [done|]. split; [done|].
    intros drainNode guest Hd Hg. set (targets := target_nodes nodes _ drainNode).
    eapply foldl_no_error in He as [r' He']; [|intros; apply quiet_drain|exact Hd].
    unfold drain_check in He'. fold wls in Hg.
    destruct (workloads_on wls drainNode) as [|g gs]; [by apply not_elem_of_nil in Hg|].
    change (target_nodes nodes drainSet drainNode) with targets in He'. destruct targets as [|t ts]; [done|]. split; [done|].
    eapply foldl_no_error in He' as [r'' He'']; [|intros; apply quiet_guest|exact Hg].
    by eapply guest_check_ok.
Qed.

Definition example_cluster : ClusterReads := {|
  rc_GetNodes := Ok ((λ n, {| ne_Node := n; ne_Status := "online"; ne_MaxCPU := 16; ne_MaxMem := 2 ^ 34 |})
                       <$> ["pve1"; "pve2"; "pve3"]);
  rc_GetVMs := λ n, Ok (if bool_decide (n = "pve1") then
    [{| g_VMID := 101; g_Name := "vm"; g_Status := "running"; g_Template := 0; g_CPU := f0; g_CPUs := 2;
        g_Mem := 2 ^ 31; g_MaxMem := 2 ^ 32; g_NetIn := 0; g_NetOut := 0 |}] else []);
  rc_GetContainers := λ _, Ok [];
  rc_GetVMConfig := λ _ _, Ok ∅;
  rc_ListDRSRules := Ok [];
|}.

Lemma AnalyzeHAConstraints_gate_witness :
  ∃ ha nodes, loadHAConstraints example_listings listingRetryOnce = Ok ha ∧
    rc_GetNodes example_cluster = Ok nodes ∧
    ∀ drainNode guest, drainNode ∈ ["pve1"; "pve2"] →
      guest ∈ workloads_on (BuildNodeWorkloads example_cluster nodes) drainNode →
      let targets := target_nodes nodes (list_to_set ["pve1"; "pve2"]) drainNode in
      targets ≠ [] ∧ drainable ha targets guest.
Proof.
  apply (AnalyzeHAConstraints_gate map_to_list_range example_cluster example_listings ["pve1"; "pve2"]
    {| Conflicts := []; HasErrors := false |}); [by vm_compute|done].
Defined.

(** Taking a node down. A reboot decision fails the node exactly when the job drained it and a
    guest is verified to run on it. A job that leaves guests in place reboots only when asked to and
    when the node was verified to run nothing, so it never reboots under a running guest or an
    unanswered check; a check that failed or did not say "no" counts as a reboot owed. *)
Theorem decideReboot_spec job violations verifyErr stdout err :
  (decideReboot job violations verifyErr = rebootFail ↔
     job_DrainGuests job = true ∧ verifyErr = None ∧ violations ≠ []) ∧
  (decideReboot job violations verifyErr = rebootProceed →
     job_DrainGuests job = false →
     job_RebootAfterUpdate job = true ∧ verifyErr = None ∧ violations = []) ∧
  (decideReboot job violations verifyErr = rebootDefer → job_DrainGuests job = false) ∧
  (rebootOwed stdout err = false ↔ err = None ∧ Contains stdout "NO_REBOOT" = true).
Proof.
  split_and!.
  4: { unfold rebootOwed. destruct err; [by split; [|intros [? _]]|]. rewrite negb_false_iff. tauto. }
  all: unfold decideReboot; destruct (job_DrainGuests job), (job_RebootAfterUpdate job), verifyErr,
    violations; simpl; naive_solver.
Qed.
