(* ===== verification/RollingCapacity.v ===== *)
(** * Rolling updates: can the other nodes hold the guests?

    Models [internal/rolling/capacity_check.go]: nodes are drained in batches of
    [parallelism], and the memory of the remaining online nodes must take each
    batch's guests. Memory is [int64] and wraps. A listing that fails leaves its
    node without those guests, as the source has it. *)

From S2P Require Import Prelude GoFloat GoStrings ProxmoxApi DrsRules DrsPlanner RollingHa.

Definition nodeRAMOverhead : Z := 2 * 1024 * 1024 * 1024.

Record guestResource := {
  gr_VMID : Z; gr_Name : string; gr_Type : string; gr_MaxMem : Z; gr_CPUs : Z; gr_Passthrough : bool }.

Record nodeCapacity := {
  nc_Name : string; nc_MaxMem : Z; nc_MaxCPU : Z; nc_Guests : list guestResource; nc_MigratableMem : Z }.

Record capacityTarget := { ct_name : string; ct_freeMem : Z }.

Definition formatBytes (b : Z) : string :=
  let gib := (1024 * 1024 * 1024)%Z in
  let mib := (1024 * 1024)%Z in
  if (gib <=? b)%Z then fmt_f 1 (fdiv (f_of_Z b) (f_of_Z gib)) +:+ " GiB"
  else fmt_f 0 (fdiv (f_of_Z b) (f_of_Z mib)) +:+ " MiB".

Definition guestTypeLabel (t : string) : string := if bool_decide (t = "lxc") then "CT" else "VM".

(** ** The capacity map *)

Definition resource_of (ty : string) (passthrough : bool) (g : Guest) : guestResource :=
  {| gr_VMID := g_VMID g; gr_Name := g_Name g; gr_Type := ty; gr_MaxMem := g_MaxMem g;
     gr_CPUs := g_CPUs g; gr_Passthrough := passthrough |}.

Definition vm_resource (rd : ClusterReads) (node : string) (g : Guest) : guestResource :=
  resource_of "qemu" (match rc_GetVMConfig rd node (g_VMID g) with
                      | Ok config => hasPassthrough config
                      | Err _ => false
                      end) g.

Definition node_guests (rd : ClusterReads) (node : string) : list guestResource :=
  match rc_GetVMs rd node with
  | Ok vms => vm_resource rd node <$> filter (λ g, vm_placed g = true) vms
  | Err _ => []
  end ++
  match rc_GetContainers rd node with
  | Ok cts => resource_of "lxc" false <$>
              filter (λ g, g_Template g ≠ 1%Z ∧ g_Status g = "running") cts
  | Err _ => []
  end.

(** The int64 sum of the memory of some guests. *)
Definition sum_mem (gs : list guestResource) : Z := foldl (λ t g, int64 (t + gr_MaxMem g)) 0%Z gs.

Definition migratable (gs : list guestResource) : list guestResource :=
  filter (λ g, gr_Passthrough g = false) gs.

Definition node_capacity (rd : ClusterReads) (cn : NodeListEntry) : nodeCapacity :=
  let guests := node_guests rd (ne_Node cn) in
  {| nc_Name := ne_Node cn; nc_MaxMem := ne_MaxMem cn; nc_MaxCPU := ne_MaxCPU cn;
     nc_Guests := guests; nc_MigratableMem := sum_mem (migratable guests) |}.

Definition capacity_map (rd : ClusterReads) (nodes : list NodeListEntry) : gmap string nodeCapacity :=
  foldl (λ m cn, if bool_decide (ne_Status cn = "online")
                 then <[ne_Node cn := node_capacity rd cn]> m else m) ∅ nodes.

(** ** Batches

    [None] is a loop that never ends (a parallelism of zero) or a slice out of
    range (a negative one). *)
Fixpoint batches_from (fuel start p : nat) (nodes : list string) : option (list (list string)) :=
  if Nat.leb (length nodes) start then Some []
  else match fuel with
       | O => None
       | S fuel =>
           let batchEnd := Nat.min (start + p) (length nodes) in
           cons (take (batchEnd - start) (drop start nodes)) <$> batches_from fuel (start + p) p nodes
       end.

Definition batches (parallelism : Z) (nodes : list string) : option (list (list string)) :=
  if (parallelism <? 0)%Z then (match nodes with [] => Some [] | _ => None end)
  else batches_from (length nodes) 0 (Z.to_nat parallelism) nodes.

(** ** One batch *)

Definition batch_guests (nodeMap : gmap string nodeCapacity) (batch : list string) : list guestResource :=
  mjoin ((λ n, match nodeMap !! n with Some nc => migratable (nc_Guests nc) | None => [] end) <$> batch).

Definition free_mem (nc : nodeCapacity) : Z :=
  let freeMem := int64 (int64 (nc_MaxMem nc - nodeRAMOverhead) - sum_mem (nc_Guests nc)) in
  if (freeMem <? 0)%Z then 0%Z else freeMem.

Fixpoint findGuestNodeInBatch (vmid : Z) (batch : list string) (nodeMap : gmap string nodeCapacity) : string :=
  match batch with
  | [] => ""
  | n :: batch =>
      match nodeMap !! n with
      | None => findGuestNodeInBatch vmid batch nodeMap
      | Some nc => if existsb (λ g, (gr_VMID g =? vmid)%Z) (nc_Guests nc) then n
                   else findGuestNodeInBatch vmid batch nodeMap
      end
  end.

(** Check 2 of one guest: whether it fits, and the most any target tried has free. *)
Fixpoint fits (g : guestResource) (targets : list capacityTarget) (maxTargetFree : Z) : bool * Z :=
  match targets with
  | [] => (false, maxTargetFree)
  | t :: targets =>
      let maxTargetFree := if (maxTargetFree <? ct_freeMem t)%Z then ct_freeMem t else maxTargetFree in
      if (gr_MaxMem g <=? ct_freeMem t)%Z then (true, maxTargetFree) else fits g targets maxTargetFree
  end.

Section analyze.
Context `{MR : MapRange}.

Definition batch_targets (nodeMap : gmap string nodeCapacity) (batch : list string) : list capacityTarget :=
  (λ p, {| ct_name := p.1; ct_freeMem := free_mem p.2 |}) <$>
  filter (λ p, p.1 ∉ batch) (go_range nodeMap).

Definition total_free (targets : list capacityTarget) : Z :=
  foldl (λ t c, int64 (t + ct_freeMem c)) 0%Z targets.

Definition short_conflict (batch : list string) (batchMem totalFreeMem : Z) : HAConflict := {|
  hc_Source := "capacity"; hc_RuleName := "memory"; hc_Type := "insufficient_memory";
  hc_Severity := "error"; hc_VMID := 0; hc_VMName := "";
  hc_Message := "Insufficient memory to drain node(s) " +:+ Join ", " batch +:+ ": guests require " +:+
    formatBytes batchMem +:+ " but remaining nodes only have " +:+ formatBytes totalFreeMem +:+
    " free (short by " +:+ formatBytes (int64 (batchMem - totalFreeMem)) +:+ "; " +:+
    formatBytes nodeRAMOverhead +:+ " reserved per node for OS)";
  hc_Node := default "" (batch !! 0) |}.

Definition large_conflict (nodeMap : gmap string nodeCapacity) (batch : list string)
    (g : guestResource) (maxTargetFree : Z) : HAConflict := {|
  hc_Source := "capacity"; hc_RuleName := "memory"; hc_Type := "guest_too_large";
  hc_Severity := "error"; hc_VMID := gr_VMID g; hc_VMName := gr_Name g;
  hc_Message := guestTypeLabel (gr_Type g) +:+ " " +:+ Itoa (gr_VMID g) +:+ " (" +:+ gr_Name g +:+
    ") requires " +:+ formatBytes (gr_MaxMem g) +:+
    " memory but no remaining node has enough free capacity (largest available: " +:+
    formatBytes maxTargetFree +:+ ")";
  hc_Node := findGuestNodeInBatch (gr_VMID g) batch nodeMap |}.

Definition too_large (nodeMap : gmap string nodeCapacity) (batch : list string)
    (targets : list capacityTarget) (g : guestResource) : list HAConflict :=
  let '(fitsAnywhere, maxTargetFree) := fits g targets 0 in
  if negb fitsAnywhere && Nat.ltb 0 (length targets)
  then [large_conflict nodeMap batch g maxTargetFree] else [].

Definition batch_check (nodeMap : gmap string nodeCapacity) (st : list HAConflict * bool)
    (batch : list string) : list HAConflict * bool :=
  let '(conflicts, hasErrors) := st in
  let guests := batch_guests nodeMap batch in
  let batchMem := sum_mem guests in
  if (batchMem =? 0)%Z then (conflicts, hasErrors)
  else
    let targets := batch_targets nodeMap batch in
    let totalFreeMem := total_free targets in
    let '(conflicts, hasErrors) :=
      if (totalFreeMem <? batchMem)%Z
      then (conflicts ++ [short_conflict batch batchMem totalFreeMem], true)
      else (conflicts, hasErrors) in
    let large := mjoin (too_large nodeMap batch targets <$> guests) in
    (conflicts ++ large, hasErrors || negb (Nat.eqb (length large) 0)).

(** [Ok None]: the loop over the batches does not end. *)
Definition AnalyzeCapacity (rd : ClusterReads) (nodesToDrain : list string) (parallelism : Z) :
    result go_error (option (list HAConflict * bool)) :=
  match rc_GetNodes rd with
  | Err e => Err (wrap "get cluster nodes" e)
  | Ok clusterNodes =>
      let nodeMap := capacity_map rd clusterNodes in
      Ok (foldl (batch_check nodeMap) ([], false) <$> batches parallelism nodesToDrain)
  end.
End analyze.

(** ** Lemmas *)

Lemma batches_from_ok fuel start p nodes :
  0 < p → length nodes - start ≤ fuel →
  ∃ bs, batches_from fuel start p nodes = Some bs ∧ mjoin bs = drop start nodes ∧
    ∀ b, b ∈ bs → b ≠ [] ∧ length b ≤ p.
Proof.
  intros Hp. revert start. induction fuel as [|fuel IH]; intros start Hf; cbn [batches_from];
    destruct (Nat.leb_spec (length nodes) start) as [Hs|Hs];
    try (exists []; split_and!; [done|by rewrite drop_ge by lia|by intros ? ?%not_elem_of_nil]);
    [lia|].
  destruct (IH (start + p) ltac:(lia)) as (bs & -> & Hj & Hb).
  set (b := take _ (drop start nodes)). exists (b :: bs). split; [done|]. split.
  - csimpl. rewrite Hj. subst b. rewrite <-(drop_drop nodes p start).
    destruct (decide (start + p ≤ length nodes)).
    + replace (Nat.min (start + p) (length nodes) - start) with p by lia. apply take_drop.
    + rewrite (drop_ge _ p), app_nil_r by (rewrite length_drop; lia).
      apply take_ge. rewrite length_drop. lia.
  - intros b' [->|?]%elem_of_cons; [|by apply Hb]. subst b. split.
    + intros Hn%(f_equal length). rewrite length_take, length_drop in Hn. simpl in Hn. lia.
    + rewrite length_take. lia.
Qed.

Lemma batches_ok p nodes :
  (1 ≤ p)%Z →
  ∃ bs, batches p nodes = Some bs ∧ mjoin bs = nodes ∧
    ∀ b, b ∈ bs → b ≠ [] ∧ (Z.of_nat (length b) ≤ p)%Z.
Proof.
  intros Hp. unfold batches. rewrite (proj2 (Z.ltb_ge p 0)) by lia.
  destruct (batches_from_ok (length nodes) 0 (Z.to_nat p) nodes) as (bs & -> & Hj & Hb); [lia..|].
  exists bs. split_and!; [done|done|]. intros b Hin. destruct (Hb b Hin). split; [done|lia].
Qed.

(** A sum of bounded quantities that fits in 63 bits. *)
Definition total {A} (f : A → Z) (l : list A) : Z := foldr (λ a t, f a + t)%Z 0%Z l.

Lemma total_app {A} (f : A → Z) l k : total f (l ++ k) = (total f l + total f k)%Z.
Proof. induction l as [|x l IH]; simpl; [done|]. unfold total in *. rewrite IH. lia. Qed.

Lemma total_bound {A} (f : A → Z) l b :
  (∀ x, x ∈ l → 0 ≤ f x ≤ b)%Z → (0 ≤ total f l ≤ Z.of_nat (length l) * b)%Z.
Proof.
  induction l as [|x l IH]; intros Hf; [simpl; lia|].
  assert (0 ≤ f x ≤ b)%Z by (apply Hf, list_elem_of_here).
  specialize (IH ltac:(intros; by apply Hf, list_elem_of_further)).
  change (total f (x :: l)) with (f x + total f l)%Z. cbn [length]. nia.
Qed.

Lemma total_fmap {A B} (f : B → Z) (g : A → B) l : total f (g <$> l) = total (λ a, f (g a)) l.
Proof. induction l as [|x l IH]; [done|]. csimpl. unfold total in *. simpl. by rewrite IH. Qed.

Lemma total_ext {A} (f g : A → Z) l : (∀ x, x ∈ l → f x = g x) → total f l = total g l.
Proof.
  induction l as [|x l IH]; intros H; [done|]. unfold total in *. simpl.
  rewrite IH by (intros; by apply H, list_elem_of_further). by rewrite H by apply list_elem_of_here.
Qed.

#[export] Instance total_Permutation {A} (f : A → Z) : Proper ((≡ₚ) ==> (=)) (total f).
Proof. intros l k. induction 1; unfold total in *; simpl; lia. Qed.

Lemma total_pos_elem {A} (f : A → Z) l :
  (∀ x, x ∈ l → 0 ≤ f x)%Z → ∀ x, x ∈ l → (f x ≤ total f l)%Z.
Proof.
  induction l as [|y l IH]; intros Hf x Hx; [by apply not_elem_of_nil in Hx|].
  assert (∀ z, z ∈ l → 0 ≤ f z)%Z as Hf' by (intros; by apply Hf, list_elem_of_further).
  assert (0 ≤ total f l)%Z.
  { clear -Hf'. induction l as [|z l IH]; [done|]. unfold total in *. simpl.
    assert (0 ≤ f z)%Z by (apply Hf', list_elem_of_here).
    specialize (IH ltac:(intros; by apply Hf', list_elem_of_further)). lia. }
  assert (0 ≤ f y)%Z by (apply Hf, list_elem_of_here).
  change (total f (y :: l)) with (f y + total f l)%Z.
  apply elem_of_cons in Hx as [->|Hx]; [lia|]. specialize (IH Hf' x Hx). lia.
Qed.

Definition memBound : Z := 2 ^ 43.
Definition countBound : Z := 2 ^ 19.

Lemma foldl_int64 {A} (f : A → Z) l :
  (∀ x, x ∈ l → 0 ≤ f x ≤ memBound)%Z → (Z.of_nat (length l) ≤ countBound)%Z →
  foldl (λ t x, int64 (t + f x)) 0%Z l = total f l.
Proof.
  intros Hf Hl.
  assert (∀ k s, k ⊆ l → (0 ≤ s)%Z → (s + total f k ≤ 2 ^ 62)%Z →
    foldl (λ t x, int64 (t + f x)) s k = (s + total f k)%Z) as H.
  { induction k as [|x k IH]; intros s Hk Hs Hb; simpl; [lia|].
    assert (0 ≤ f x ≤ memBound)%Z by (apply Hf; set_solver).
    assert (k ⊆ l) as Hk' by set_solver.
    destruct (total_bound f k memBound) as [Hk0 _]; [intros; apply Hf; by apply Hk'|].
    change (total f (x :: k)) with (f x + total f k)%Z in *.
    rewrite int64_id by (unfold minInt64, maxInt64; lia). rewrite IH; [lia|done|lia|lia]. }
  rewrite H; [lia|done|lia|]. pose proof (total_bound f l memBound Hf).
  unfold memBound, countBound in *. nia.
Qed.

Lemma fits_spec g targets m :
  (fits g targets m).1 = true ↔ ∃ t, t ∈ targets ∧ (gr_MaxMem g ≤ ct_freeMem t)%Z.
Proof.
  revert m. induction targets as [|t ts IH]; intros m; simpl.
  { split; [done|]. by intros (? & ?%not_elem_of_nil & _). }
  destruct (Z.leb_spec (gr_MaxMem g) (ct_freeMem t)) as [Hle|Hgt].
  - split; [|done]. intros _. exists t. split; [apply list_elem_of_here|done].
  - rewrite IH. setoid_rewrite elem_of_cons. split; [naive_solver|].
    intros (x & [->|?] & ?); [lia|eauto].
Qed.

(** Every quantity of a cluster within what its hardware could have. *)
Definition within_bounds (nodeMap : gmap string nodeCapacity) (batch : list string) : Prop :=
  (∀ n nc, nodeMap !! n = Some nc →
     (0 ≤ nc_MaxMem nc ≤ memBound)%Z ∧ (Z.of_nat (length (nc_Guests nc)) ≤ countBound)%Z ∧
     ∀ g, g ∈ nc_Guests nc → (0 ≤ gr_MaxMem g ≤ memBound)%Z) ∧
  (Z.of_nat (size nodeMap) ≤ countBound)%Z ∧
  (Z.of_nat (length (batch_guests nodeMap batch)) ≤ countBound)%Z.

(** What a node has left, on paper. *)
Definition free_on_paper (nc : nodeCapacity) : Z :=
  Z.max 0 (nc_MaxMem nc - nodeRAMOverhead - total gr_MaxMem (nc_Guests nc)).

Lemma total_free_nonneg l : (0 ≤ total (λ p : string * nodeCapacity, free_on_paper p.2) l)%Z.
Proof. induction l as [|p l IH]; [done|]. unfold total in *. simpl. unfold free_on_paper at 1. lia. Qed.

Section batch_lemmas.
Context `{MR : MapRange} (nodeMap : gmap string nodeCapacity).

Lemma free_mem_paper batch n nc :
  within_bounds nodeMap batch → nodeMap !! n = Some nc →
  free_mem nc = free_on_paper nc ∧ (0 ≤ free_mem nc ≤ memBound)%Z.
Proof.
  intros (Hb & _) Hn. destruct (Hb n nc Hn) as (Hm & Hl & Hg).
  assert (free_mem nc = free_on_paper nc) as Hp.
  { unfold free_mem, sum_mem. rewrite (foldl_int64 gr_MaxMem) by done.
    pose proof (total_bound gr_MaxMem (nc_Guests nc) memBound Hg) as Ht.
    assert (total gr_MaxMem (nc_Guests nc) ≤ 2 ^ 62)%Z.
    { unfold memBound, countBound in *. nia. }
    unfold free_on_paper, nodeRAMOverhead, memBound in *.
    rewrite (int64_id (nc_MaxMem nc - 2 * 1024 * 1024 * 1024)) by (unfold minInt64, maxInt64; lia).
    rewrite int64_id by (unfold minInt64, maxInt64; lia).
    destruct (Z.ltb_spec (nc_MaxMem nc - 2 * 1024 * 1024 * 1024 - total gr_MaxMem (nc_Guests nc)) 0); lia. }
  split; [done|]. rewrite Hp. unfold free_on_paper, nodeRAMOverhead.
  destruct (total_bound gr_MaxMem (nc_Guests nc) memBound Hg) as [Ht _]. unfold memBound in *. lia.
Qed.

Lemma elem_of_batch_targets batch t :
  t ∈ batch_targets nodeMap batch ↔
  ∃ nc, nodeMap !! ct_name t = Some nc ∧ (ct_name t ∉ batch) ∧ ct_freeMem t = free_mem nc.
Proof.
  unfold batch_targets. rewrite list_elem_of_fmap. split.
  - intros ([n nc] & -> & [Hn Hin]%list_elem_of_filter). apply elem_of_go_range in Hin. eauto.
  - destruct t as [n f]. simpl. intros (nc & Hnc & Hn & ->). exists (n, nc). split; [done|].
    apply list_elem_of_filter. by rewrite elem_of_go_range.
Qed.

(** The conflicts of a batch, and when there are none. *)
Definition batch_fits (batch : list string) : Prop :=
  (total gr_MaxMem (batch_guests nodeMap batch) ≤
     total (λ p, free_on_paper p.2) (filter (λ p, p.1 ∉ batch) (map_to_list nodeMap)))%Z ∧
  ∀ g, g ∈ batch_guests nodeMap batch → (0 < gr_MaxMem g)%Z →
    ∃ n nc, nodeMap !! n = Some nc ∧ (n ∉ batch) ∧ (gr_MaxMem g ≤ free_on_paper nc)%Z.

Lemma total_batch_free batch :
  within_bounds nodeMap batch →
  total_free (batch_targets nodeMap batch) =
  total (λ p, free_on_paper p.2) (filter (λ p, p.1 ∉ batch) (map_to_list nodeMap)).
Proof.
  intros Hb. unfold total_free. rewrite (foldl_int64 ct_freeMem).
  - unfold batch_targets. rewrite total_fmap. rewrite <-(go_range_perm nodeMap).
    apply total_ext. intros [n nc] [_ Hn]%list_elem_of_filter. simpl.
    apply elem_of_go_range in Hn. by eapply free_mem_paper.
  - intros t (nc & Hnc & _ & ->)%elem_of_batch_targets. by eapply free_mem_paper.
  - unfold batch_targets. rewrite length_fmap. destruct Hb as (_ & Hs & _).
    rewrite <-(go_range_length nodeMap) in Hs. pose proof (length_filter (λ p, p.1 ∉ batch) (go_range nodeMap)).
    lia.
Qed.

Lemma batch_guests_bounded batch g :
  within_bounds nodeMap batch → g ∈ batch_guests nodeMap batch → (0 ≤ gr_MaxMem g ≤ memBound)%Z.
Proof.
  intros (Hb & _) Hg. unfold batch_guests in Hg.
  apply list_elem_of_join in Hg as (gs & Hg & (n & -> & _)%list_elem_of_fmap).
  destruct (nodeMap !! n) as [nc|] eqn:Hn; [|by apply not_elem_of_nil in Hg].
  apply list_elem_of_filter in Hg as [_ Hg]. by eapply Hb.
Qed.

Lemma too_large_nil batch targets g :
  targets ≠ [] → too_large nodeMap batch targets g = [] →
  ∃ t, t ∈ targets ∧ (gr_MaxMem g ≤ ct_freeMem t)%Z.
Proof.
  intros Ht. unfold too_large. pose proof (fits_spec g targets 0) as Hf.
  destruct (fits g targets 0) as [[] m]; simpl in *; [by intros _; apply Hf|].
  destruct targets; [done|]. done.
Qed.

Lemma batch_check_ok st batch :
  within_bounds nodeMap batch →
  (st.2 = negb (Nat.eqb (length st.1) 0)) →
  let st' := batch_check nodeMap st batch in
  (st'.2 = negb (Nat.eqb (length st'.1) 0)) ∧
  (st'.2 = false → st.2 = false ∧ batch_fits batch).
Proof.
  intros Hb Hst. destruct st as [conflicts hasErrors]. simpl in Hst. unfold batch_check.
  assert (sum_mem (batch_guests nodeMap batch) = total gr_MaxMem (batch_guests nodeMap batch)) as Hsum.
  { apply (foldl_int64 gr_MaxMem); [intros; by eapply batch_guests_bounded|]. by destruct Hb as (_ & _ & ?). }
  rewrite Hsum, total_batch_free by done.
  set (need := total gr_MaxMem (batch_guests nodeMap batch)).
  set (free := total _ (filter _ (map_to_list nodeMap))).
  pose proof (total_pos_elem gr_MaxMem (batch_guests nodeMap batch)
    (λ g Hg, proj1 (batch_guests_bounded batch g Hb Hg))) as Hpos. fold need in Hpos.
  destruct (Z.eqb_spec need 0) as [Hz|Hz]; simpl.
  { split; [done|]. intros ->. split; [done|]. split.
    - fold need free. rewrite Hz. apply total_free_nonneg.
    - intros g Hg Hgt. specialize (Hpos g Hg). lia. }
  destruct (Z.ltb_spec free need) as [Hlt|Hge]; simpl.
  { rewrite !length_app. simpl. split; [|done]. destruct (length conflicts); simpl; done. }
  set (large := mjoin _). split.
  - rewrite length_app, Hst. destruct (length conflicts), (length large); simpl; done.
  - intros [He Hl]%orb_false_iff. split; [done|]. apply negb_false_iff, Nat.eqb_eq, length_zero_iff_nil in Hl.
    split; [fold need free; lia|]. intros g Hg Hgt.
    destruct (too_large_nil batch (batch_targets nodeMap batch) g) as (t & (nc & Hnc & Hn & Hf)%elem_of_batch_targets & Hle).
    + intros Hnil. pose proof (total_batch_free batch Hb) as Ht. rewrite Hnil in Ht.
      fold free in Ht. simpl in Ht. specialize (Hpos g Hg). unfold total_free in Ht. simpl in Ht. lia.
    + apply elem_of_nil_inv. intros c Hc. assert (c ∈ large) as Hin; [|rewrite Hl in Hin; by apply not_elem_of_nil in Hin].
      apply list_elem_of_join. exists (too_large nodeMap batch (batch_targets nodeMap batch) g).
      split; [done|]. apply list_elem_of_fmap. by exists g.
    + exists (ct_name t), nc. split_and!; [done..|]. rewrite Hf in Hle.
      by destruct (free_mem_paper batch _ nc Hb Hnc) as [<- _].
Qed.
End batch_lemmas.

(** A batch of the job is within bounds when the whole job is. *)
Lemma within_bounds_batch nodeMap nodes bs b :
  within_bounds nodeMap nodes → mjoin bs = nodes → b ∈ bs → within_bounds nodeMap b.
Proof.
  intros (H1 & H2 & H3) Hj Hb. split_and!; [done|done|].
  assert (length (batch_guests nodeMap b) ≤ length (batch_guests nodeMap nodes)); [|lia].
  subst nodes. clear H3. unfold batch_guests.
  induction bs as [|b' bs IH]; [by apply not_elem_of_nil in Hb|].
  csimpl. rewrite fmap_app, join_app, length_app. apply elem_of_cons in Hb as [->|Hb]; [lia|].
  specialize (IH Hb). lia.
Qed.

(** ** Properties *)

(** The capacity gate. With a parallelism of at least one, and memory and guest counts within
    what hardware can hold (8 TiB a node or guest, half a million of each), [AnalyzeCapacity]
    finishes; its batches are the nodes to drain, in order, at most [parallelism] at a time; its flag
    says whether there is a conflict; and when there is none, for every batch the remaining online
    nodes together have the memory its migratable guests need, and each of those guests fits on one
    of them, after the overhead and every guest already there, with no sum wrapping around. *)
Theorem AnalyzeCapacity_gate (MR : MapRange) rd nodes nodesToDrain parallelism :
  (1 ≤ parallelism)%Z →
  rc_GetNodes rd = Ok nodes →
  within_bounds (capacity_map rd nodes) nodesToDrain →
  ∃ bs conflicts hasErrors,
    AnalyzeCapacity rd nodesToDrain parallelism = Ok (Some (conflicts, hasErrors)) ∧
    batches parallelism nodesToDrain = Some bs ∧ mjoin bs = nodesToDrain ∧
    (∀ b, b ∈ bs → b ≠ [] ∧ (Z.of_nat (length b) ≤ parallelism)%Z) ∧
    (hasErrors = true ↔ conflicts ≠ []) ∧
    (hasErrors = false → ∀ b, b ∈ bs → batch_fits (capacity_map rd nodes) b).
Proof.
  intros Hp Hn Hb. unfold AnalyzeCapacity. rewrite Hn.
  destruct (batches_ok parallelism nodesToDrain Hp) as (bs & -> & Hj & Hlen). simpl.
  set (nm := capacity_map rd nodes) in *.
  assert (∀ k st, k ⊆ bs → st.2 = negb (Nat.eqb (length st.1) 0) →
    let st' := foldl (batch_check nm) st k in
    st'.2 = negb (Nat.eqb (length st'.1) 0) ∧
    (st'.2 = false → st.2 = false ∧ ∀ b, b ∈ k → batch_fits nm b)) as Hall.
  { induction k as [|b k IH]; intros st Hk Hst; simpl.
    { split; [done|]. intros. split; [done|]. by intros ? ?%not_elem_of_nil. }
    destruct (batch_check_ok nm st b) as [H1 H2]; [|done|].
    { apply (within_bounds_batch nm nodesToDrain bs b); [done|done|set_solver]. }
    destruct (IH (batch_check nm st b) ltac:(set_solver) H1) as [H3 H4]. split; [done|].
    intros Hf. destruct (H4 Hf) as [H5 H6]. destruct (H2 H5) as [H7 H8]. split; [done|].
    intros b' [->|?]%elem_of_cons; [done|by apply H6]. }
  destruct (Hall bs ([], false) ltac:(done) eq_refl) as [H1 H2].
  destruct (foldl (batch_check nm) ([], false) bs) as [conflicts hasErrors]. simpl in *.
  exists bs, conflicts, hasErrors. split_and!; [done..| |].
  - rewrite H1. destruct conflicts; simpl; done.
  - intros Hf. by destruct (H2 Hf) as [_ ?].
Qed.

Lemma AnalyzeCapacity_gate_witness :
  ∃ bs conflicts hasErrors,
    @AnalyzeCapacity map_to_list_range example_cluster ["pve1"; "pve2"] 1 = Ok (Some (conflicts, hasErrors)) ∧
    batches 1 ["pve1"; "pve2"] = Some bs.
Proof.
  destruct (AnalyzeCapacity_gate map_to_list_range example_cluster
    ((λ n, {| ne_Node := n; ne_Status := "online"; ne_MaxCPU := 16; ne_MaxMem := 2 ^ 34 |})
       <$> ["pve1"; "pve2"; "pve3"]) ["pve1"; "pve2"] 1) as (bs & cs & he & H1 & H2 & _).
  - done.
  - done.
  - split_and!; [|by vm_compute..].
    assert (map_Forall (λ _ nc, (0 ≤ nc_MaxMem nc ≤ memBound)%Z ∧
      (Z.of_nat (length (nc_Guests nc)) ≤ countBound)%Z ∧
      Forall (λ g, 0 ≤ gr_MaxMem g ≤ memBound)%Z (nc_Guests nc))
      (capacity_map example_cluster ((λ n, {| ne_Node := n; ne_Status := "online"; ne_MaxCPU := 16;
         ne_MaxMem := 2 ^ 34 |}) <$> ["pve1"; "pve2"; "pve3"]))) as Hall.
    { apply (bool_decide_unpack _). by vm_compute. }
    intros n nc Hnc. destruct (Hall n nc Hnc) as (Ha & Hb & Hc). split_and!; [apply Ha..|exact Hb|].
    by apply Forall_forall.
  - exists bs, cs, he. split; [exact H1|exact H2].
Defined.

(** A node whose guests could not be listed counts as empty, and offers its whole memory. Two 16 GiB
    nodes with a 12 GiB guest each: draining the first is refused when the second is read, and
    accepted when its listing fails. *)
Definition full_node_reads (second : result go_error (list Guest)) : ClusterReads := {|
  rc_GetNodes := Ok ((λ n, {| ne_Node := n; ne_Status := "online"; ne_MaxCPU := 16; ne_MaxMem := 2 ^ 34 |})
                       <$> ["pve1"; "pve2"]);
  rc_GetVMs := λ n, if bool_decide (n = "pve1") then
    Ok [{| g_VMID := 101; g_Name := "a"; g_Status := "running"; g_Template := 0; g_CPU := f0; g_CPUs := 2;
           g_Mem := 2 ^ 31; g_MaxMem := 12 * 2 ^ 30; g_NetIn := 0; g_NetOut := 0 |}] else second;
  rc_GetContainers := λ _, Ok [];
  rc_GetVMConfig := λ _ _, Ok ∅;
  rc_ListDRSRules := Ok [];
|}.

Example unread_node_counts_as_empty :
  let flag second := match @AnalyzeCapacity map_to_list_range (full_node_reads second) ["pve1"] 1 with
                     | Ok (Some (_, e)) => Some e | _ => None end in
  flag (Ok [{| g_VMID := 102; g_Name := "b"; g_Status := "running"; g_Template := 0; g_CPU := f0;
               g_CPUs := 2; g_Mem := 2 ^ 31; g_MaxMem := 12 * 2 ^ 30; g_NetIn := 0; g_NetOut := 0 |}]) = Some true ∧
  flag (Err (errorf "connection failed")) = Some false.
Proof. by vm_compute. Qed.
