(* ===== verification/RollingOps.v ===== *)
(** * What the rolling-update orchestrator calls

    The calls [internal/rolling/orchestrator.go] makes, as the constructors of
    [Op]: the queries that change the tables of [RollingDb], the reads of other
    tables, the requests to Proxmox, the clock, the shutdown context, SSH, the
    events, the audit log and the goroutines it starts. [step] says what a call
    may answer: a query does what its SQL says, or fails, and a failed one may
    or may not have taken effect (its answer can be lost); every other answer is
    free. Each call is put on the log, newest first.

    Four calls stand for a loop of requests that only reads, whose answers the
    program goes through afterwards: [PollTask] and [PollGuest] for the polls of
    a task or of the listing of guests until a deadline or the shutdown, with
    the time and the answer of each; [ReadWorkloads] and [ListHA] for the
    listings of the nodes and of the HA data, with their retries. Nothing else
    of the same program comes between their requests; other programs change
    nothing these loops decide on but through the answers, which are free. *)

From S2P Require Import Prelude GoFloat GoStrings ProxmoxApi Effects Crs DrsRules DrsPlanner DrsExecutor RollingDb.
From S2P Require Import RollingHa.

Local Open Scope Z_scope.

(** What the orchestrator uses of libraries outside the source: [net/url]'s
    parser, the text of a [uuid.UUID], [strconv.FormatFloat]. *)
Class Library := {
  library_url :: UrlParser;
  uuid_String : uuid → string;
  FormatFloat : float64 → string;
}.

(** ** Queries on the tables *)

Inductive query : Type → Type :=
| GetRollingUpdateJob (id : uuid) : query RollingUpdateJob
| ListRunningRollingUpdateJobs : query (list RollingUpdateJob)
| StartRollingUpdateJob (id : uuid) : query unit
| CompleteRollingUpdateJob (id : uuid) : query Z
| FailRollingUpdateJob (id : uuid) (reason : string) : query Z
| CancelRollingUpdateJob (id : uuid) : query Z
| PauseRollingUpdateJob (id : uuid) : query unit
| ResumeRollingUpdateJob (id : uuid) : query unit
| ListRollingUpdateJobsNeedingCleanup : query (list RollingUpdateJob)
| SetJobDisabledHARules (id : uuid) (c : column DisabledHARule) : query unit
| SetJobDRSWasEnabled (id : uuid) (v : bool) : query unit
| SetJobNativeCRSPaused (id : uuid) (saved : string) : query unit
| ClearJobNativeCRSPaused (id : uuid) : query unit
| ClearJobCleanupPending (id : uuid) : query unit
| ArmJobCleanupPending (id : uuid) : query unit
| IncrementJobCleanupAttempts (id : uuid) : query Z
| GetRollingUpdateNode (id : uuid) : query RollingUpdateNode
| ListRollingUpdateNodes (jobID : uuid) : query (list RollingUpdateNode)
| GetNextPendingNode (jobID : uuid) : query RollingUpdateNode
| CountActiveNodes (jobID : uuid) : query Z
| CountCompletedNodes (jobID : uuid) : query CountCompletedNodesRow
| FailRollingUpdateNode (id : uuid) (reason : string) : query Z
| SkipRollingUpdateNode (id : uuid) (reason : string) : query Z
| SkipRollingUpdateNodeAny (id : uuid) (reason : string) : query unit
| SetNodeDrainStarted (id : uuid) : query unit
| SetNodeDrainCompletedManual (id : uuid) : query unit
| SetNodeDrainCompletedAuto (id : uuid) : query unit
| SetNodeInPlaceUpgradeAuto (id : uuid) : query unit
| SetNodeInPlaceUpgradeManual (id : uuid) : query unit
| SetNodePackagesJSON (id : uuid) (c : column string) : query unit
| SetNodeGuestsJSON (id : uuid) (c : column GuestSnapshot) : query unit
| ConfirmNodeUpgrade (id : uuid) : query unit
| SetNodeUpgradeStarted (id : uuid) : query unit
| SetNodeUpgradeCompleted (id : uuid) : query unit
| SetNodeUpgradeCompletedNoReboot (id : uuid) : query unit
| SetNodeUpgradeCompletedRebootPending (id : uuid) : query unit
| SetNodeUpgradeOutput (id : uuid) (output : string) : query unit
| SetNodeRebootStarted (id : uuid) : query unit
| SetNodeRebootCompleted (id : uuid) : query unit
| SetNodeHealthCheckPassed (id : uuid) : query unit
| SetNodeRestoreStarted (id : uuid) : query unit
| SetNodeRestoreCompleted (id : uuid) : query unit
| SetNodeDisabledHARules (id : uuid) (c : column DisabledHARule) : query unit
| SetNodeStoppedPassthrough (id : uuid) (c : column GuestSnapshot) : query unit
| TouchRollingUpdateNode (id : uuid) : query unit
| GetDRSConfig (clusterID : uuid) : query bool
| SetDRSEnabled (clusterID : uuid) (v : bool) : query unit.

Definition ErrNoRows : go_error := errorf "no rows in result set".

Definition exec_ok (r : DB * Z) : DB * result go_error unit := (r.1, Ok tt).
Definition exec_rows (r : DB * Z) : DB * result go_error Z := (r.1, Ok r.2).
Definition one {A} (d : DB) (o : option A) : DB * result go_error A :=
  (d, match o with Some a => Ok a | None => Err ErrNoRows end).

(** What a query does at [now] of the database's clock. *)
Definition exec_query {A} (q : query A) (now : Z) (d : DB) : DB * result go_error A :=
  match q in query A return DB * result go_error A with
  | GetRollingUpdateJob id => one d (getRollingUpdateJob id d)
  | ListRunningRollingUpdateJobs => (d, Ok (listRunningRollingUpdateJobs d))
  | StartRollingUpdateJob id => exec_ok (startRollingUpdateJob id now d)
  | CompleteRollingUpdateJob id => exec_rows (completeRollingUpdateJob id now d)
  | FailRollingUpdateJob id reason => exec_rows (failRollingUpdateJob id reason now d)
  | CancelRollingUpdateJob id => exec_rows (cancelRollingUpdateJob id now d)
  | PauseRollingUpdateJob id => exec_ok (pauseRollingUpdateJob id now d)
  | ResumeRollingUpdateJob id => exec_ok (resumeRollingUpdateJob id now d)
  | ListRollingUpdateJobsNeedingCleanup => (d, Ok (listRollingUpdateJobsNeedingCleanup d))
  | SetJobDisabledHARules id c => exec_ok (setJobDisabledHARules id c now d)
  | SetJobDRSWasEnabled id v => exec_ok (setJobDRSWasEnabled id v now d)
  | SetJobNativeCRSPaused id saved => exec_ok (setJobNativeCRSPaused id saved now d)
  | ClearJobNativeCRSPaused id => exec_ok (clearJobNativeCRSPaused id now d)
  | ClearJobCleanupPending id => exec_ok (clearJobCleanupPending id now d)
  | ArmJobCleanupPending id => exec_ok (armJobCleanupPending id now d)
  | IncrementJobCleanupAttempts id =>
      match incrementJobCleanupAttempts id now d with
      | Some (d', n) => (d', Ok n)
      | None => (d, Err ErrNoRows)
      end
  | GetRollingUpdateNode id => one d (getRollingUpdateNode id d)
  | ListRollingUpdateNodes jobID => (d, Ok (listRollingUpdateNodes jobID d))
  | GetNextPendingNode jobID => one d (getNextPendingNode jobID d)
  | CountActiveNodes jobID => (d, Ok (countActiveNodes jobID d))
  | CountCompletedNodes jobID => (d, Ok (countCompletedNodes jobID d))
  | FailRollingUpdateNode id reason => exec_rows (failRollingUpdateNode id reason now d)
  | SkipRollingUpdateNode id reason => exec_rows (skipRollingUpdateNode id reason now d)
  | SkipRollingUpdateNodeAny id reason => exec_ok (skipRollingUpdateNodeAny id reason now d)
  | SetNodeDrainStarted id => exec_ok (setNodeDrainStarted id now d)
  | SetNodeDrainCompletedManual id => exec_ok (setNodeDrainCompletedManual id now d)
  | SetNodeDrainCompletedAuto id => exec_ok (setNodeDrainCompletedAuto id now d)
  | SetNodeInPlaceUpgradeAuto id => exec_ok (setNodeInPlaceUpgradeAuto id now d)
  | SetNodeInPlaceUpgradeManual id => exec_ok (setNodeInPlaceUpgradeManual id now d)
  | SetNodePackagesJSON id c => exec_ok (setNodePackagesJSON id c now d)
  | SetNodeGuestsJSON id c => exec_ok (setNodeGuestsJSON id c now d)
  | ConfirmNodeUpgrade id => exec_ok (confirmNodeUpgrade id now d)
  | SetNodeUpgradeStarted id => exec_ok (setNodeUpgradeStarted id now d)
  | SetNodeUpgradeCompleted id => exec_ok (setNodeUpgradeCompleted id now d)
  | SetNodeUpgradeCompletedNoReboot id => exec_ok (setNodeUpgradeCompletedNoReboot id now d)
  | SetNodeUpgradeCompletedRebootPending id => exec_ok (setNodeUpgradeCompletedRebootPending id now d)
  | SetNodeUpgradeOutput id output => exec_ok (setNodeUpgradeOutput id output now d)
  | SetNodeRebootStarted id => exec_ok (setNodeRebootStarted id now d)
  | SetNodeRebootCompleted id => exec_ok (setNodeRebootCompleted id now d)
  | SetNodeHealthCheckPassed id => exec_ok (setNodeHealthCheckPassed id now d)
  | SetNodeRestoreStarted id => exec_ok (setNodeRestoreStarted id now d)
  | SetNodeRestoreCompleted id => exec_ok (setNodeRestoreCompleted id now d)
  | SetNodeDisabledHARules id c => exec_ok (setNodeDisabledHARules id c now d)
  | SetNodeStoppedPassthrough id c => exec_ok (setNodeStoppedPassthrough id c now d)
  | TouchRollingUpdateNode id => exec_ok (touchRollingUpdateNode id now d)
  | GetDRSConfig clusterID => one d (getDRSConfig clusterID d)
  | SetDRSEnabled clusterID v => (setDRSEnabled clusterID v d, Ok tt)
  end.

(** ** Requests to Proxmox *)

Record ClientConfig := {
  cf_BaseURL : string; cf_TokenID : string; cf_TokenSecret : string; cf_TLSFingerprint : string;
  cf_Timeout : Z }.

(** A client: the cluster it was built for and the endpoint it talks to. *)
Record Client := { cl_cluster : uuid; cl_config : ClientConfig }.

Record ClusterResource := { cr_Type : string; cr_VMID : Z; cr_Node : string; cr_Lock : string }.
Record MigrateParams := { mp_Target : string; mp_Online : bool }.

Inductive request : Type → Type :=
| GetNodes : request (list NodeListEntry)
| GetVMs (node : string) : request (list Guest)
| GetContainers (node : string) : request (list Guest)
| GetVMConfig (node : string) (vmid : Z) : request VMConfig
| RefreshNodeAptIndex (node : string) : request string
| GetNodeAptUpdates (node : string) : request (list string)
| GetNodeStatus (node : string) : request Z
| RebootNode (node : string) : request unit
| GetClusterOptions : request crs_value
| SetClusterOptions (crs : string) : request unit
| GetHARules : request (list HARuleEntry)
| SetHARuleDisabled (rule ty : string) (disabled : bool) : request unit
| MigrateVM (node : string) (vmid : Z) (params : MigrateParams) : request string
| MigrateCT (node : string) (vmid : Z) (params : MigrateParams) : request string
| ShutdownVM (node : string) (vmid : Z) : request string
| ShutdownCT (node : string) (vmid : Z) : request string
| StopVM (node : string) (vmid : Z) : request string
| StopCT (node : string) (vmid : Z) : request string
| StartVM (node : string) (vmid : Z) : request string
| StartCT (node : string) (vmid : Z) : request string.

(** Polling a task ([waitForTask]): what the ticks answer before the poll context
    ends, whether it ended because the server is shutting down, and what the last
    check answers otherwise. *)
Record TaskPolls := {
  tp_ticks : list (result go_error TaskStatus);
  tp_shutdown : bool;
  tp_final : result go_error TaskStatus;
}.

(** Polling a guest ([waitForGuestUnlocked]): the time of each tick and its answer. *)
Record GuestPolls := {
  gp_ticks : list (Z * result go_error (list ClusterResource));
  gp_shutdown : bool;
}.

(** ** Reads of other tables, SSH *)

Record Cluster := {
  c_ID : uuid; c_Name : string; c_ApiUrl : string; c_TokenID : string; c_TokenSecretEncrypted : string;
  c_TlsFingerprint : string }.
Record ListNodeEndpointsRow := { ne_Name : string; ne_Address : string; ne_SslFingerprint : string }.
Record ClusterSSHCredentials := {
  sc_Username : string; sc_Port : Z; sc_EncryptedPassword : string; sc_EncryptedPrivateKey : string }.
Record SSHConfig := {
  ssh_Host : string; ssh_Port : Z; ssh_Username : string; ssh_Password : string;
  ssh_PrivateKey : string; ssh_KnownHostKey : string }.
Record SSHResult := { sr_Stdout : string; sr_ExitCode : Z }.
Record JobChannel := { jc_ChannelType : string; jc_ConfigEncrypted : string }.
Record JobPayload := {
  jp_Severity : string; jp_State : string; jp_ResourceName : string; jp_Message : string }.

(** The goroutines the orchestrator and the cancel route start. *)
Inductive Thread :=
| RunSSHUpgrade (job : RollingUpdateJob) (node : RollingUpdateNode) (client : Client) (cfg : SSHConfig)
| PostUpgradeCVEScan (job : RollingUpdateJob)
| SendNotification (channelType config : string) (payload : JobPayload)
| UpgradeHeartbeat (nodeID : uuid)
| CancelCleanup (jobID : uuid).

(** ** Calls *)

Inductive Op : Type → Type :=
| Query {A} (q : query A) : Op (result go_error A)
| Pve {A} (c : Client) (r : request A) : Op (result go_error A)
| PollTask (c : Client) (node upid : string) : Op TaskPolls
| PollGuest (c : Client) : Op GuestPolls
| ListHA (c : Client) : Op HAListings
| ReadWorkloads (c : Client) : Op ClusterReads
| ListDRSRules (clusterID : uuid) : Op (result go_error (list DrsRule))
| GetNodeByClusterAndName (clusterID : uuid) (node : string) : Op (result go_error bool)
| Now : Op Z
| ShutdownErr : Op bool
| Sleep (d : Z) : Op bool
| CtxSleep (d : Z) : Op (option go_error)
| CacheGet (clusterID : uuid) : Op (option (result go_error Client))
| NewClient (clusterID : uuid) (cfg : ClientConfig) : Op (result go_error Client)
| GetCluster (clusterID : uuid) : Op (result go_error Cluster)
| ListNodeEndpoints (clusterID : uuid) : Op (result go_error (list ListNodeEndpointsRow))
| Decrypt (s : string) : Op (result go_error string)
| GetClusterSSHCredentials (clusterID : uuid) : Op (result go_error ClusterSSHCredentials)
| GetNodeAddressByName (clusterID : uuid) (node : string) : Op (result go_error string)
| GetSSHKnownHost (clusterID : uuid) (host : string) (port : Z) : Op (result go_error string)
| ParseAuthorizedKey (key : string) : Op (result go_error string)
| SSHExecute (cfg : SSHConfig) (cmd : string) : Op (result go_error SSHResult)
| GetNotificationChannelEnabled (id : uuid) : Op (result go_error JobChannel)
| RegistryGet (channelType : string) : Op bool
| GetLatestCVEScan (clusterID : uuid) : Op (result go_error string)
| ScanCluster (clusterID : uuid) : Op (result go_error unit)
| HasScanner : Op bool
| HasRegistry : Op bool
| DispatcherSend (channelType config : string) (payload : JobPayload) : Op (result go_error unit)
| PublishEvent (clusterID jobID : uuid) (action : string) : Op unit
| AuditLog (clusterID jobID : uuid) (action : string) (extra : list (string * string)) : Op unit
| AuditObject (clusterID jobID : uuid) (resourceType resourceID action : string)
    (extra : list (string * string)) : Op unit
| Go (t : Thread) : Op unit.

Abbreviation rprog := (prog Op).

Definition ask {X} (e : Op X) : rprog X := call e.
Definition db {A} (q : query A) : rprog (result go_error A) := ask (Query q).
Definition pve {A} (c : Client) (r : request A) : rprog (result go_error A) := ask (Pve c r).
(** [_ = o.queries.X(...)]: the error is not looked at. *)
Definition db_ {A} (q : query A) : rprog unit := let! _ := ask (Query q) in Ret tt.

Arguments ask {X} e : simpl never.
Arguments db {A} q : simpl never.
Arguments pve {A} c r : simpl never.
Arguments db_ {A} q : simpl never.

(** ** The outside *)

Record Sys := { tables : DB; log : list (event Op) }.

(** What a call may answer, and what it leaves in the tables. *)
Definition may_answer {X} (e : Op X) (d : DB) (x : X) (d' : DB) : Prop :=
  match e in Op X return X → Prop with
  | Query q => λ x,
      (∃ now, exec_query q now d = (d', x)) ∨
      (∃ err, x = Err err ∧ (d' = d ∨ ∃ now, (exec_query q now d).1 = d'))
  | CacheGet clusterID => λ x,
      d' = d ∧ match x with Some (Ok c) => cl_cluster c = clusterID | _ => True end
  | NewClient clusterID cfg => λ x,
      d' = d ∧ match x with Ok c => c = {| cl_cluster := clusterID; cl_config := cfg |} | _ => True end
  | _ => λ _, d' = d
  end x.

Definition step (X : Type) (e : Op X) (s : Sys) (x : X) (s' : Sys) : Prop :=
  may_answer e (tables s) x (tables s') ∧ log s' = Ev e x :: log s.
Arguments step {X} e s x s' /.
