(* ===== verification/RollingRelease.v ===== *)
(** * Holding cluster state during a rolling update, and giving it back

    Models the part of [internal/rolling/orchestrator.go] that changes the
    cluster around a job and undoes it: the waits on Proxmox tasks, the client
    and its failover, pausing DRS and the native balancer, disabling HA rules,
    stopping passthrough guests, [releaseJobState] and the cleanup sweep, and
    [failNode] and [failJob], which release. Log lines are left out. *)

From S2P Require Import Prelude GoFloat GoStrings ProxmoxApi Effects Crs DrsRules DrsPlanner DrsExecutor RollingDb.
From S2P Require Import RollingHa RollingOps.

Local Open Scope Z_scope.

(** [if o.eventPub != nil]: without a publisher the call does nothing. *)
Definition publishEvent (clusterID jobID : uuid) (action : string) : rprog unit :=
  ask (PublishEvent clusterID jobID action).
Definition auditLog (clusterID jobID : uuid) (action : string) (extra : list (string * string)) :
    rprog unit := ask (AuditLog clusterID jobID action extra).
Definition auditObject (clusterID jobID : uuid) (resourceType resourceID action : string)
    (extra : list (string * string)) : rprog unit :=
  ask (AuditObject clusterID jobID resourceType resourceID action extra).

(** ** Waiting *)

Definition taskWaitTimeout : Z := 30 * minute.
Definition pruneRunningAfter : Z := 2 * taskWaitTimeout.
Definition settleConfirmGrace : Z := 45 * second.

Definition task_status (ts : TaskStatus) : option string :=
  if bool_decide (ts_Status ts = "stopped")
  then Some (if TaskSucceeded (ts_ExitStatus ts) then "completed" else "failed") else None.

Fixpoint task_ticks (ts : list (result go_error TaskStatus)) : option string :=
  match ts with
  | [] => None
  | Err _ :: ts => task_ticks ts
  | Ok t :: ts => match task_status t with Some v => Some v | None => task_ticks ts end
  end.

Definition task_outcome (p : TaskPolls) : string :=
  match task_ticks (tp_ticks p) with
  | Some v => v
  | None =>
      if tp_shutdown p then "interrupted"
      else match tp_final p with
           | Ok t => default "timeout" (task_status t)
           | Err _ => "timeout"
           end
  end.

Definition waitForTask (client : Client) (node upid : string) : rprog string :=
  let! p := ask (PollTask client node upid) in Ret (task_outcome p).

Definition matchesGuest (guestType : string) (vmid : Z) (r : ClusterResource) : bool :=
  (cr_VMID r =? vmid) &&
  (bool_decide (guestType = "qemu") && bool_decide (cr_Type r = "qemu") ||
   bool_decide (guestType = "lxc") && bool_decide (cr_Type r = "lxc")).

(** The polls of [waitForGuestUnlocked], with its three variables. *)
Fixpoint unlock_ticks (guestType : string) (vmid : Z) (expectNode : string)
    (ticks : list (Z * result go_error (list ClusterResource)))
    (lastLock : string) (sawLock : bool) (unlockedElsewhereSince : option Z) (shutdown : bool) : string :=
  let next ts := unlock_ticks guestType vmid expectNode ts in
  match ticks with
  | [] =>
      if shutdown then "interrupted"
      else if bool_decide (lastLock = "") then "completed" else "timeout"
  | (_, Err _) :: ts => next ts lastLock sawLock unlockedElsewhereSince shutdown
  | (now, Ok resources) :: ts =>
      match List.find (matchesGuest guestType vmid) resources with
      | None => "completed"
      | Some r =>
          let lastLock := cr_Lock r in
          if negb (bool_decide (lastLock = "")) then next ts lastLock true None shutdown
          else if bool_decide (expectNode = "") || bool_decide (cr_Node r = expectNode) then "completed"
          else if sawLock then "completed"
          else match unlockedElsewhereSince with
               | None => next ts lastLock sawLock (Some now) shutdown
               | Some since =>
                   if settleConfirmGrace <? Sub now since then "completed"
                   else next ts lastLock sawLock unlockedElsewhereSince shutdown
               end
      end
  end.

Definition waitForGuestUnlocked (client : Client) (guestType : string) (vmid : Z) (expectNode : string) :
    rprog string :=
  let! p := ask (PollGuest client) in
  Ret (unlock_ticks guestType vmid expectNode (gp_ticks p) "" false None (gp_shutdown p)).

(** ** Clients *)

Section client.
Context `{LIB : Library}.

Definition client_config (cluster : Cluster) (url secret fingerprint : string) : ClientConfig := {|
  cf_BaseURL := url; cf_TokenID := c_TokenID cluster; cf_TokenSecret := secret;
  cf_TLSFingerprint := fingerprint; cf_Timeout := 60 * second |}.

Record failoverTarget := { ft_name : string; ft_config : ClientConfig }.

Definition failoverTargets (cluster : Cluster) (tokenSecret : string)
    (endpoints : list ListNodeEndpointsRow) : list failoverTarget :=
  let primaryHost := APIURLHost (c_ApiUrl cluster) in
  omap (λ ep,
    if bool_decide (ne_Address ep = "") || bool_decide (ne_Address ep = primaryHost) ||
       bool_decide (ne_SslFingerprint ep = "") then None
    else Some {| ft_name := ne_Name ep;
                 ft_config := client_config cluster (FailoverBaseURL (c_ApiUrl cluster) (ne_Address ep))
                                tokenSecret (ne_SslFingerprint ep) |}) endpoints.

(** Trying the alternates in turn; [None] when none of them answers. *)
Fixpoint try_failover (clusterID : uuid) (targets : list failoverTarget) : rprog (option Client) :=
  match targets with
  | [] => Ret None
  | t :: targets =>
      let! c := ask (NewClient clusterID (ft_config t)) in
      match c with
      | Err _ => try_failover clusterID targets
      | Ok failClient =>
          let! nodes := pve failClient GetNodes in
          match nodes with
          | Ok _ => Ret (Some failClient)
          | Err _ => try_failover clusterID targets
          end
      end
  end.

(** [endpoints, _ := ...]: an error leaves no alternates. *)
Definition failover_endpoints (clusterID : uuid) : rprog (list ListNodeEndpointsRow) :=
  let! eps := ask (ListNodeEndpoints clusterID) in
  Ret (match eps with Ok l => l | Err _ => [] end).

(** The primary URL and its alternates, when the cache has no usable client. *)
Definition build_client (clusterID : uuid) : rprog (result go_error Client) :=
  let! c := ask (GetCluster clusterID) in
  match c with
  | Err e => Ret (Err (wrap ("get cluster " +:+ uuid_String clusterID) e))
  | Ok cluster =>
      let! s := ask (Decrypt (c_TokenSecretEncrypted cluster)) in
      match s with
      | Err e => Ret (Err (wrap "decrypt token" e))
      | Ok tokenSecret =>
          let failover (primary : result go_error Client) :=
            let! endpoints := failover_endpoints clusterID in
            let! alt := try_failover clusterID (failoverTargets cluster tokenSecret endpoints) in
            match alt with
            | Some failClient => Ret (Ok failClient)
            | None => match primary with
                      | Ok client => Ret (Ok client)
                      | Err e => Ret (Err (wrap "create client" e))
                      end
            end in
          let! primary := ask (NewClient clusterID
            (client_config cluster (c_ApiUrl cluster) tokenSecret (c_TlsFingerprint cluster))) in
          match primary with
          | Err _ => failover primary
          | Ok client =>
              let! nodes := pve client GetNodes in
              match nodes with
              | Ok _ => Ret (Ok client)
              | Err testErr => if negb (errors_Is testErr ErrConnectionFailed) then Ret (Ok client)
                               else failover primary
              end
          end
      end
  end.

Definition createClient (clusterID : uuid) : rprog (result go_error Client) :=
  let! cached := ask (CacheGet clusterID) in
  match cached with
  | Some (Ok client) =>
      let! nodes := pve client GetNodes in
      match nodes with
      | Ok _ => Ret (Ok client)
      | Err _ => build_client clusterID
      end
  | _ => build_client clusterID
  end.

Fixpoint new_clients (clusterID : uuid) (targets : list failoverTarget) : rprog (list Client) :=
  match targets with
  | [] => Ret []
  | t :: targets =>
      let! c := ask (NewClient clusterID (ft_config t)) in
      let! rest := new_clients clusterID targets in
      Ret (match c with Ok c => c :: rest | Err _ => rest end)
  end.

Definition buildFailoverClients (clusterID : uuid) : rprog (list Client) :=
  let! c := ask (GetCluster clusterID) in
  match c with
  | Err _ => Ret []
  | Ok cluster =>
      let! s := ask (Decrypt (c_TokenSecretEncrypted cluster)) in
      match s with
      | Err _ => Ret []
      | Ok tokenSecret =>
          let! endpoints := failover_endpoints clusterID in
          new_clients clusterID (failoverTargets cluster tokenSecret endpoints)
      end
  end.

Section retry.
Context {A : Type} (fn : Client → rprog (result go_error A)).

(** The attempts on the primary: [inr] returns from the function. *)
Fixpoint primary_attempts (primary : Client) (backoffs : list Z) (err : go_error) :
    rprog (go_error + result go_error A) :=
  match backoffs with
  | [] => Ret (inl err)
  | delay :: backoffs =>
      let! ended := (if 0 <? delay then ask (CtxSleep delay) else Ret None) in
      match ended with
      | Some ctxErr => Ret (inr (Err ctxErr))
      | None =>
          let! r := fn primary in
          match r with
          | Ok a => Ret (inr (Ok a))
          | Err e => if negb (errors_Is e ErrConnectionFailed) then Ret (inr (Err e))
                     else primary_attempts primary backoffs e
          end
      end
  end.

Fixpoint failover_attempts (clients : list Client) (err : go_error) : rprog (result go_error A) :=
  match clients with
  | [] => Ret (Err err)
  | fb :: clients =>
      let! r := fn fb in
      match r with
      | Ok a => Ret (Ok a)
      | Err e => if negb (errors_Is e ErrConnectionFailed) then Ret (Err e)
                 else failover_attempts clients err
      end
  end.

Definition callWithRetryFailover (clusterID : uuid) (primary : Client) : rprog (result go_error A) :=
  let! r := primary_attempts primary [0; 2 * second; 5 * second] (errorf "") in
  match r with
  | inr r => Ret r
  | inl err => let! clients := buildFailoverClients clusterID in failover_attempts clients err
  end.
End retry.
End client.

(** ** The disabled HA rules *)

Definition parseDisabledRules (raw : column DisabledHARule) : list DisabledHARule :=
  default [] (Unmarshal raw).

(** [nonNilRules] before [json.Marshal]: an empty set is written as []. *)
Definition nonNilRules (rules : list DisabledHARule) : column DisabledHARule := Marshal rules.

Definition ruleNames (rules : list DisabledHARule) : string := Join ", " (dr_Rule <$> rules).

Definition mergeDisabledRules (existing add : list DisabledHARule) : list DisabledHARule :=
  foldl (λ out r, if contains (dr_Rule <$> out) (dr_Rule r) then out else out ++ [r]) existing add.

Definition recordJobDisabledHARules (jobID : uuid) (rules : list DisabledHARule) :
    rprog (result go_error unit) :=
  let! j := db (GetRollingUpdateJob jobID) in
  match j with
  | Err e => Ret (Err (wrap "re-read job" e))
  | Ok job =>
      let merged := mergeDisabledRules (parseDisabledRules (job_DisabledHaRules job)) rules in
      let! w := db (SetJobDisabledHARules jobID (nonNilRules merged)) in
      match w with
      | Err e => Ret (Err (wrap "persist disabled HA rules" e))
      | Ok _ => do! db_ (ArmJobCleanupPending jobID) in Ret (Ok tt)
      end
  end.

Definition persistJobDisabledRules (jobID : uuid) (remaining : list DisabledHARule) : rprog bool :=
  let! w := db (SetJobDisabledHARules jobID (nonNilRules remaining)) in Ret (is_ok w).

(** The details of an audit row; a node that is not set is left out. *)
Definition rule_details (rule : DisabledHARule) (disable : string) (node : list (string * string)) :
    list (string * string) :=
  [("rule", dr_Rule rule); ("type", dr_Type rule); ("disable", disable)] ++ node.
Definition node_detail (nodeName : string) : list (string * string) :=
  if bool_decide (nodeName = "") then [] else [("node", nodeName)].

Definition disableHARules (client : Client) (job : RollingUpdateJob) (nodeName : string)
    (toDisable : list DisabledHARule) : rprog unit :=
  do! for_each toDisable (λ rule,
    let! r := pve client (SetHARuleDisabled (dr_Rule rule) (dr_Type rule) true) in
    match r with
    | Err _ => Ret tt
    | Ok _ => auditObject (job_ClusterID job) (job_ID job) "ha_rule" (dr_Rule rule) "updated"
                (rule_details rule "1" [("node", nodeName)])
    end) in
  auditLog (job_ClusterID job) (job_ID job) "rolling_update_ha_rules_disabled"
    [("rules", ruleNames toDisable); ("node", nodeName)].

(** Re-enabling each rule: the ones Proxmox accepted, and the others. *)
Fixpoint enable_each (client : Client) (rules : list DisabledHARule) :
    rprog (list DisabledHARule * list DisabledHARule) :=
  match rules with
  | [] => Ret ([], [])
  | rule :: rules =>
      let! r := pve client (SetHARuleDisabled (dr_Rule rule) (dr_Type rule) false) in
      let! (enabled, remaining) := enable_each client rules in
      Ret (match r with
           | Ok _ => (rule :: enabled, remaining)
           | Err _ => (enabled, rule :: remaining)
           end)
  end.

Definition reenableHARulesDetailed (client : Client) (rules : list DisabledHARule) :
    rprog (list DisabledHARule * list DisabledHARule) :=
  let! (enabled, remaining) := enable_each client rules in
  match remaining with
  | [] => Ret (enabled, remaining)
  | _ =>
      let! current := pve client GetHARules in
      Ret (enabled, match current with
                    | Ok current =>
                        List.filter (λ r, contains (hr_Rule <$> current) (dr_Rule r)) remaining
                    | Err _ => remaining
                    end)
  end.

Definition releaseRuleRecord (client : Client) (job : RollingUpdateJob) (rules : list DisabledHARule)
    (nodeName : string) (auditFailures : bool) (persist : list DisabledHARule → rprog bool) : rprog bool :=
  let details rs := [("rules", ruleNames rs)] ++ node_detail nodeName in
  let! (enabled, remaining) := reenableHARulesDetailed client rules in
  do! for_each enabled (λ rule,
    auditObject (job_ClusterID job) (job_ID job) "ha_rule" (dr_Rule rule) "updated"
      (rule_details rule "0" (node_detail nodeName))) in
  let! persisted := persist remaining in
  match remaining with
  | _ :: _ =>
      do! (if auditFailures
           then auditLog (job_ClusterID job) (job_ID job) "rolling_update_ha_restore_failed" (details remaining)
           else Ret tt) in
      Ret false
  | [] =>
      if negb persisted then Ret false
      else do! auditLog (job_ClusterID job) (job_ID job) "rolling_update_ha_rules_restored" (details rules) in
           Ret true
  end.

(** ** DRS and the native balancer *)

Definition disableDRSIfEnabled (job : RollingUpdateJob) : rprog unit :=
  let! cfg := db (GetDRSConfig (job_ClusterID job)) in
  match cfg with
  | Err _ => Ret tt
  | Ok enabled =>
      if negb enabled then Ret tt
      else
        do! db_ (SetJobDRSWasEnabled (job_ID job) true) in
        db_ (SetDRSEnabled (job_ClusterID job) false)
  end.

Section crs.
Context `{LIB : Library}.

Definition auditCRSChange (job : RollingUpdateJob) : rprog unit :=
  auditObject (job_ClusterID job) (job_ID job) "cluster_options" (uuid_String (job_ClusterID job)) "updated"
    [("action", "update_options"); ("settings", "crs"); ("cleared", "")].

Definition pauseNativeCRSIfActive (client : Client) (job : RollingUpdateJob) : rprog unit :=
  let! opts := pve client GetClusterOptions in
  match opts with
  | Err _ => Ret tt
  | Ok v =>
      let crs := ParseCRSSettings FormatFloat v in
      if negb (AutoRebalanceActive crs) then Ret tt
      else
        let saved := Restorable crs in
        let paused := PausedAutoRebalance crs in
        let! w := pve client (SetClusterOptions paused) in
        match w with
        | Err _ => Ret tt
        | Ok _ =>
            let! r := db (SetJobNativeCRSPaused (job_ID job) saved) in
            match r with
            | Err _ => let! _ := pve client (SetClusterOptions saved) in Ret tt
            | Ok _ =>
                do! auditLog (job_ClusterID job) (job_ID job) "rolling_update_crs_paused"
                      [("saved_crs", saved); ("paused_crs", paused)] in
                auditCRSChange job
            end
        end
  end.

Definition restoreNativeCRS (client : Client) (job : RollingUpdateJob) (auditFailures : bool) : rprog bool :=
  let saved := job_SavedCrsConfig job in
  let! w := pve client (SetClusterOptions saved) in
  match w with
  | Err e =>
      do! (if auditFailures
           then auditLog (job_ClusterID job) (job_ID job) "rolling_update_crs_restore_failed"
                  [("saved_crs", saved); ("error", err_msg e)]
           else Ret tt) in
      Ret false
  | Ok _ =>
      let! r := db (ClearJobNativeCRSPaused (job_ID job)) in
      match r with
      | Err _ => Ret false
      | Ok _ =>
          do! auditLog (job_ClusterID job) (job_ID job) "rolling_update_crs_restored" [("crs", saved)] in
          do! auditCRSChange job in
          Ret true
      end
  end.
End crs.

(** ** Passthrough guests the drain shut down *)

Definition passthroughGuests (guests : list GuestSnapshot) : list GuestSnapshot :=
  List.filter gs_Passthrough guests.

Definition stoppedPassthroughFor (node : RollingUpdateNode) : list GuestSnapshot :=
  match node_StoppedPassthroughJson node with
  | SqlNull =>
      if bool_decide (node_Step node = "completed") || bool_decide (node_Step node = "skipped") then []
      else passthroughGuests (Unmarshal_ignored (node_GuestsJson node))
  | c => default [] (Unmarshal c)
  end.

Definition persistStoppedPassthrough (nodeID : uuid) (l : list GuestSnapshot) : rprog unit :=
  db_ (SetNodeStoppedPassthrough nodeID (Marshal l)).

Definition same_guest (a b : GuestSnapshot) : bool :=
  (gs_VMID a =? gs_VMID b) && bool_decide (gs_Type a = gs_Type b).

Definition appendStoppedPassthrough (nodeID : uuid) (guest : GuestSnapshot) : rprog (result go_error unit) :=
  let! n := db (GetRollingUpdateNode nodeID) in
  match n with
  | Err e => Ret (Err (wrap "re-read node" e))
  | Ok node =>
      let l := stoppedPassthroughFor node in
      if existsb (same_guest guest) l then Ret (Ok tt)
      else
        let! w := db (SetNodeStoppedPassthrough nodeID (Marshal (l ++ [guest]))) in
        Ret (match w with
             | Err e => Err (wrap "persist stopped-passthrough record" e)
             | Ok _ => Ok tt
             end)
  end.

Definition statuses (guests : list Guest) : gmap Z string :=
  foldl (λ m g, <[g_VMID g := g_Status g]> m) ∅ guests.

Definition nodeGuestStatuses (client : Client) (nodeName : string) :
    rprog (result go_error (gmap Z string * gmap Z string)) :=
  let! vms := pve client (GetVMs nodeName) in
  match vms with
  | Err e => Ret (Err (wrap "list VMs" e))
  | Ok vms =>
      let! cts := pve client (GetContainers nodeName) in
      match cts with
      | Err e => Ret (Err (wrap "list containers" e))
      | Ok cts => Ret (Ok (statuses vms, statuses cts))
      end
  end.

Definition guest_status (vmStatus ctStatus : gmap Z string) (guest : GuestSnapshot) : option string :=
  if bool_decide (gs_Type guest = "qemu") then vmStatus !! gs_VMID guest
  else if bool_decide (gs_Type guest = "lxc") then ctStatus !! gs_VMID guest
  else None.

Definition start_guest (client : Client) (nodeName : string) (guest : GuestSnapshot) :
    rprog (result go_error string) :=
  if bool_decide (gs_Type guest = "qemu") then pve client (StartVM nodeName (gs_VMID guest))
  else if bool_decide (gs_Type guest = "lxc") then pve client (StartCT nodeName (gs_VMID guest))
  else Ret (Ok "").

(** The loop of [restartStoppedPassthrough]: the guests still pending, and
    whether a shutdown cut a wait short. *)
Fixpoint restart_loop (client : Client) (job : RollingUpdateJob) (node : RollingUpdateNode)
    (wait pruneRunning : bool) (vmStatus ctStatus : gmap Z string) (l : list GuestSnapshot) :
    rprog (list GuestSnapshot * bool) :=
  match l with
  | [] => Ret ([], false)
  | guest :: l =>
      let rest := restart_loop client job node wait pruneRunning vmStatus ctStatus l in
      let keep := let! (pending, interrupted) := rest in Ret (guest :: pending, interrupted) in
      match guest_status vmStatus ctStatus guest with
      | None => rest
      | Some status =>
          if negb (bool_decide (status = "stopped")) && negb (bool_decide (status = "paused"))
          then (if pruneRunning then rest else keep)
          else
            let! started := start_guest client (node_NodeName node) guest in
            match started with
            | Err _ => keep
            | Ok upid =>
                do! auditLog (job_ClusterID job) (job_ID job) "rolling_update_passthrough_started"
                      [("vmid", Itoa (gs_VMID guest)); ("type", gs_Type guest); ("name", gs_Name guest);
                       ("node", node_NodeName node); ("upid", upid)] in
                if negb wait then keep
                else
                  let! taskStatus := waitForTask client (node_NodeName node) upid in
                  if bool_decide (taskStatus = "interrupted") then Ret (guest :: l, true)
                  else if negb (bool_decide (taskStatus = "completed")) then keep
                  else rest
            end
      end
  end.

Definition is_SqlNull {A} (c : column A) : bool := match c with SqlNull => true | _ => false end.

(** The number of guests still pending, and whether the wait was interrupted. *)
Definition restartStoppedPassthrough (client : Client) (job : RollingUpdateJob) (node : RollingUpdateNode)
    (wait pruneRunning : bool) : rprog (nat * bool) :=
  let l := stoppedPassthroughFor node in
  do! (if is_SqlNull (node_StoppedPassthroughJson node) && negb (bool_decide (l = []))
       then persistStoppedPassthrough (node_ID node) l else Ret tt) in
  match l with
  | [] => Ret (0%nat, false)
  | _ =>
      let! st := nodeGuestStatuses client (node_NodeName node) in
      match st with
      | Err _ => Ret (length l, false)
      | Ok (vmStatus, ctStatus) =>
          let! (pending, interrupted) := restart_loop client job node wait pruneRunning vmStatus ctStatus l in
          do! (if interrupted || negb (Nat.eqb (length pending) (length l))
               then persistStoppedPassthrough (node_ID node) pending else Ret tt) in
          Ret (length pending, interrupted)
      end
  end.

(** ** Releasing everything a job holds *)

Section release.
Context `{LIB : Library}.

Definition both (p q : rprog bool) : rprog bool := let! a := p in let! b := q in Ret (a && b).

Fixpoint all_of {A} (l : list A) (f : A → rprog bool) : rprog bool :=
  match l with
  | [] => Ret true
  | a :: l => both (f a) (all_of l f)
  end.

(** 1. DRS: the switch, then the marker. *)
Definition release_drs (job : RollingUpdateJob) : rprog bool :=
  if negb (job_DrsWasEnabled job) then Ret true
  else
    let! r := db (SetDRSEnabled (job_ClusterID job) true) in
    match r with
    | Err _ => Ret false
    | Ok _ => let! r := db (SetJobDRSWasEnabled (job_ID job) false) in Ret (is_ok r)
    end.

(** 3. One legacy per-node record. *)
Definition release_node_rules (client : Client) (job : RollingUpdateJob) (auditFailures : bool)
    (node : RollingUpdateNode) : rprog bool :=
  releaseRuleRecord client job (parseDisabledRules (node_DisabledHaRules node)) (node_NodeName node)
    auditFailures (λ remaining,
      let! w := db (SetNodeDisabledHARules (node_ID node) (nonNilRules remaining)) in Ret (is_ok w)).

(** 4. Whether running guests may be dropped from the record. *)
Definition prune_running (job : RollingUpdateJob) : rprog bool :=
  match job_CompletedAt job with
  | None => Ret false
  | Some t => let! now := ask Now in Ret (pruneRunningAfter <? Sub now t)
  end.

Definition release_guests (client : Client) (job : RollingUpdateJob) (pruneRunning : bool)
    (node : RollingUpdateNode) : rprog bool :=
  let! (pending, interrupted) := restartStoppedPassthrough client job node false pruneRunning in
  Ret (negb interrupted && Nat.eqb pending 0).

(** What needs a Proxmox client: the balancer, the rules, the guests. *)
Definition release_cluster (client : Client) (job : RollingUpdateJob) (jobRules : list DisabledHARule)
    (nodesWithRules nodesWithStopped : list RollingUpdateNode) (auditFailures : bool) : rprog bool :=
  both (if job_NativeCrsPaused job then restoreNativeCRS client job auditFailures else Ret true)
  (both (match jobRules with
         | [] => Ret true
         | _ => releaseRuleRecord client job jobRules "" auditFailures (persistJobDisabledRules (job_ID job))
         end)
  (both (all_of nodesWithRules (release_node_rules client job auditFailures))
        (let! pruneRunning := prune_running job in
         all_of nodesWithStopped (release_guests client job pruneRunning)))).

Definition has_rules (n : RollingUpdateNode) : bool :=
  negb (bool_decide (parseDisabledRules (node_DisabledHaRules n) = [])).
Definition has_stopped (n : RollingUpdateNode) : bool := negb (bool_decide (stoppedPassthroughFor n = [])).

Definition nonempty {A} (l : list A) : bool := match l with [] => false | _ => true end.

(** [(released, didWork)] *)
Definition releaseJobState (jobID : uuid) (auditFailures : bool) : rprog (bool * bool) :=
  let! j := db (GetRollingUpdateJob jobID) in
  match j with
  | Err _ => Ret (false, false)
  | Ok job =>
      let! ns := db (ListRollingUpdateNodes (job_ID job)) in
      match ns with
      | Err _ => Ret (false, false)
      | Ok nodes =>
          let jobRules := parseDisabledRules (job_DisabledHaRules job) in
          let nodesWithRules := List.filter has_rules nodes in
          let nodesWithStopped := List.filter has_stopped nodes in
          let on_cluster := job_NativeCrsPaused job || nonempty jobRules ||
                            nonempty nodesWithRules || nonempty nodesWithStopped in
          let didWork := job_DrsWasEnabled job || on_cluster in
          let! drs := release_drs job in
          let finish (released : bool) :=
            do! (if released && job_CleanupPending job then db_ (ClearJobCleanupPending (job_ID job))
                 else Ret tt) in
            Ret (released, didWork) in
          if negb on_cluster then finish drs
          else
            let! c := createClient (job_ClusterID job) in
            match c with
            | Err cerr =>
                do! (if auditFailures
                     then auditLog (job_ClusterID job) (job_ID job) "rolling_update_cleanup_failed"
                            [("error", err_msg cerr)]
                     else Ret tt) in
                Ret (false, didWork)
            | Ok client =>
                let! rest := release_cluster client job jobRules nodesWithRules nodesWithStopped auditFailures in
                finish (drs && rest)
            end
      end
  end.

Definition ReleaseJobState (jobID : uuid) : rprog (bool * bool) := releaseJobState jobID true.

Definition cleanupBackoff (attempts : Z) : Z :=
  if attempts <? 5 then 2 * minute else if attempts <? 10 then 10 * minute else 60 * minute.

Definition sweep_job (job : RollingUpdateJob) : rprog unit :=
  let! now := ask Now in
  if Sub now (job_UpdatedAt job) <? cleanupBackoff (job_CleanupAttempts job) then Ret tt
  else
    let! a := db (IncrementJobCleanupAttempts (job_ID job)) in
    match a with
    | Err _ => Ret tt
    | Ok attempts =>
        let! (released, didWork) := releaseJobState (job_ID job) false in
        if released && didWork
        then auditLog (job_ClusterID job) (job_ID job) "rolling_update_cleanup_recovered"
               [("attempts", Itoa attempts)]
        else Ret tt
    end.

Definition sweepPendingCleanups : rprog unit :=
  let! js := db ListRollingUpdateJobsNeedingCleanup in
  match js with
  | Err _ => Ret tt
  | Ok jobs => for_each jobs sweep_job
  end.

Definition CleanupCancelledJob (jobID : uuid) : rprog unit :=
  let! j := db (GetRollingUpdateJob jobID) in
  match j with
  | Err _ => Ret tt
  | Ok job =>
      let! _ := releaseJobState jobID true in
      auditLog (job_ClusterID job) (job_ID job) "rolling_update_cancel_cleanup" []
  end.

(** ** Notifications and failures *)

Definition rebootPendingSuffix (jobID : uuid) : rprog string :=
  let! ns := db (ListRollingUpdateNodes jobID) in
  Ret (match ns with
       | Err _ => ""
       | Ok nodes =>
           match List.filter node_RebootRequired nodes with
           | [] => ""
           | pending => " — reboot still required on: " +:+
                        Join ", " (node_NodeName <$> pending)
           end
       end).

Definition sendJobNotification (job : RollingUpdateJob) (status message : string) : rprog unit :=
  let! registry := ask HasRegistry in
  match (if registry then job_NotifyChannelID job else None) with
  | None => Ret tt
  | Some channelID =>
      let! ch := ask (GetNotificationChannelEnabled channelID) in
      match ch with
      | Err _ => Ret tt
      | Ok channel =>
          let! cfg := ask (Decrypt (jc_ConfigEncrypted channel)) in
          match cfg with
          | Err _ => Ret tt
          | Ok configJSON =>
              let! known := ask (RegistryGet (jc_ChannelType channel)) in
              if negb known then Ret tt
              else
                let! c := ask (GetCluster (job_ClusterID job)) in
                let clusterName := match c with Ok c => c_Name c | Err _ => uuid_String (job_ClusterID job) end in
                ask (Go (SendNotification (jc_ChannelType channel) configJSON {|
                  jp_Severity := if bool_decide (status = "failed") then "critical" else "info";
                  jp_State := status; jp_ResourceName := clusterName; jp_Message := message |}))
          end
      end
  end.

Definition failJob (job : RollingUpdateJob) (reason : string) : rprog unit :=
  let! rows := db (FailRollingUpdateJob (job_ID job) reason) in
  do! (match rows with
       | Ok 0 => Ret tt
       | _ =>
           do! publishEvent (job_ClusterID job) (job_ID job) "failed" in
           do! auditLog (job_ClusterID job) (job_ID job) "rolling_update_failed" [("reason", reason)] in
           sendJobNotification job "failed" ("Rolling update failed: " +:+ reason)
       end) in
  let! _ := releaseJobState (job_ID job) true in Ret tt.

Definition failNode (job : RollingUpdateJob) (node : RollingUpdateNode) (reason : string) : rprog unit :=
  let! down := ask ShutdownErr in
  if down then Ret tt
  else
    let! rows := db (FailRollingUpdateNode (node_ID node) reason) in
    match rows with
    | Ok 0 => Ret tt
    | _ =>
        do! publishEvent (job_ClusterID job) (job_ID job) "node_failed" in
        failJob job ("node " +:+ node_NodeName node +:+ " failed: " +:+ reason)
    end.

(** [interrupted] *)
Definition interrupted (err : go_error) : rprog bool :=
  if errors_Is err ErrCanceled then Ret true else ask ShutdownErr.

(** ** The other goroutines *)

Definition triggerPostUpgradeCVEScan (job : RollingUpdateJob) : rprog unit :=
  let! scanner := ask HasScanner in
  if negb scanner then Ret tt else ask (Go (PostUpgradeCVEScan job)).

Definition postUpgradeCVEScan (job : RollingUpdateJob) : rprog unit :=
  let! latest := ask (GetLatestCVEScan (job_ClusterID job)) in
  let running := match latest with
                 | Ok status => bool_decide (status = "running") || bool_decide (status = "pending")
                 | Err _ => false
                 end in
  if running then Ret tt else let! _ := ask (ScanCluster (job_ClusterID job)) in Ret tt.

Definition dispatch (channelType config : string) (payload : JobPayload) : rprog unit :=
  let! _ := ask (DispatcherSend channelType config payload) in Ret tt.
End release.
