(* ===== verification/RollingDrain.v ===== *)
(** * Draining a node

    Models the drain of [internal/rolling/orchestrator.go]: [startNode],
    [resumeDrain], [advanceDraining], [completeDrain] and [beginUpgrade], with
    the reads of guests and jobs they make, [migrateWithRetry], and the
    membership check of [internal/nodemember]. *)

From S2P Require Import Prelude GoFloat GoStrings ProxmoxApi Effects Crs DrsRules DrsPlanner DrsExecutor RollingDb.
From S2P Require Import RollingHa RollingOps RollingRelease.

Local Open Scope Z_scope.

(** ** Membership (internal/nodemember) *)

Inductive member_error := NotMemberError | LookupError (e : go_error).

Definition Check (clusterID : uuid) (node : string) : rprog (result go_error bool) :=
  let! r := ask (GetNodeByClusterAndName clusterID node) in
  Ret (match r with
       | Ok found => Ok found
       | Err e => Err (wrap ("look up node " +:+ Quote node) e)
       end).

Definition Require (clusterID : uuid) (node : string) : rprog (option member_error) :=
  let! r := Check clusterID node in
  Ret (match r with
       | Err e => Some (LookupError e)
       | Ok false => Some NotMemberError
       | Ok true => None
       end).

(** ** Reads *)

Definition jobStatus (jobID : uuid) : rprog string :=
  let! j := db (GetRollingUpdateJob jobID) in
  Ret (match j with Ok job => job_Status job | Err _ => "" end).

Definition isJobCancelled (jobID : uuid) : rprog bool :=
  let! status := jobStatus jobID in
  Ret (bool_decide (status = "cancelled") || bool_decide (status = "paused")).

(** The status of a guest on a node; [None] when it is not there. *)
Definition guestStatusOnNode (client : Client) (nodeName : string) (guest : GuestSnapshot) :
    rprog (result go_error (option string)) :=
  let pick (r : result go_error (list Guest)) :=
    match r with
    | Err e => Err e
    | Ok l => Ok (g_Status <$> List.find (λ g, g_VMID g =? gs_VMID guest) l)
    end in
  if bool_decide (gs_Type guest = "qemu") then let! r := pve client (GetVMs nodeName) in Ret (pick r)
  else if bool_decide (gs_Type guest = "lxc") then let! r := pve client (GetContainers nodeName) in Ret (pick r)
  else Ret (Ok None).

Definition isGuestOnNode (client : Client) (nodeName : string) (guest : GuestSnapshot) : rprog bool :=
  let! r := guestStatusOnNode client nodeName guest in
  Ret (match r with Err _ => true | Ok s => bool_decide (is_Some s) end).

Definition getGuestStatus (client : Client) (nodeName : string) (guest : GuestSnapshot) : rprog string :=
  let! r := guestStatusOnNode client nodeName guest in
  Ret (match r with Ok (Some s) => s | _ => "" end).

(** The VMs of a snapshot, with their passthrough flag. *)
Fixpoint snapshot_vms (client : Client) (nodeName : string) (vms : list Guest) : rprog (list GuestSnapshot) :=
  match vms with
  | [] => Ret []
  | vm :: vms =>
      if vm_placed vm then
        let! config := pve client (GetVMConfig nodeName (g_VMID vm)) in
        let! rest := snapshot_vms client nodeName vms in
        Ret ({| gs_VMID := g_VMID vm; gs_Name := g_Name vm; gs_Type := "qemu"; gs_Status := g_Status vm;
                gs_Passthrough := match config with Ok config => hasPassthrough config | Err _ => false end |}
             :: rest)
      else snapshot_vms client nodeName vms
  end.

Definition snapshot_cts (cts : list Guest) : list GuestSnapshot :=
  (λ ct, {| gs_VMID := g_VMID ct; gs_Name := g_Name ct; gs_Type := "lxc"; gs_Status := g_Status ct;
            gs_Passthrough := false |}) <$> List.filter (λ ct, bool_decide (g_Status ct = "running")) cts.

Definition snapshotGuests (client : Client) (nodeName : string) : rprog (result go_error (list GuestSnapshot)) :=
  let! vms := pve client (GetVMs nodeName) in
  match vms with
  | Err e => Ret (Err (wrap "get VMs" e))
  | Ok vms =>
      let! guests := snapshot_vms client nodeName vms in
      let! cts := pve client (GetContainers nodeName) in
      match cts with
      | Err e => Ret (Err (wrap "get containers" e))
      | Ok cts => Ret (Ok (guests ++ snapshot_cts cts))
      end
  end.

(** What is running on a node, as [verifyNodeDrained] words it. *)
Definition running_guests (vms cts : list Guest) : list string :=
  ((λ vm, "qemu " +:+ Itoa (g_VMID vm) +:+ " (" +:+ g_Name vm +:+ ")") <$> List.filter vm_placed vms) ++
  ((λ ct, "lxc " +:+ Itoa (g_VMID ct) +:+ " (" +:+ g_Name ct +:+ ")") <$>
   List.filter (λ ct, bool_decide (g_Status ct = "running")) cts).

Definition listingRetryBackoff : Z := 2 * second.

Fixpoint verify_attempts (client : Client) (nodeName : string) (n : nat) (first : bool) (lastErr : go_error) :
    rprog (result go_error (list string)) :=
  match n with
  | O => Ret (Err lastErr)
  | S n =>
      let! down := (if first then Ret false else ask (Sleep listingRetryBackoff)) in
      if down then Ret (Err lastErr)
      else
        let! vms := pve client (GetVMs nodeName) in
        match vms with
        | Err e => verify_attempts client nodeName n false (wrap "list VMs" e)
        | Ok vms =>
            let! cts := pve client (GetContainers nodeName) in
            match cts with
            | Err e => verify_attempts client nodeName n false (wrap "list containers" e)
            | Ok cts => Ret (Ok (running_guests vms cts))
            end
        end
  end.

Definition verifyNodeDrained (client : Client) (nodeName : string) : rprog (result go_error (list string)) :=
  verify_attempts client nodeName (Z.to_nat listingRetryAttempts) true (errorf "").

Definition formatGuestList (guests : list string) : string :=
  if Nat.leb (length guests) 10 then Join ", " guests
  else Join ", " (take 10 guests) +:+ ", and " +:+ Itoa (Z.of_nat (length guests - 10)) +:+ " more".

(** ** Migrating *)

Definition migrate_call (client : Client) (source : string) (guest : GuestSnapshot) (params : MigrateParams) :
    rprog (option (result go_error string)) :=
  if bool_decide (gs_Type guest = "qemu")
  then let! r := pve client (MigrateVM source (gs_VMID guest) params) in Ret (Some r)
  else if bool_decide (gs_Type guest = "lxc")
  then let! r := pve client (MigrateCT source (gs_VMID guest) params) in Ret (Some r)
  else Ret None.

Definition migrateMaxAttempts : nat := 3.

(** [n] attempts are left; the last one's error is returned as it is. *)
Fixpoint migrate_attempts (client : Client) (source : string) (guest : GuestSnapshot) (params : MigrateParams)
    (n : nat) (lastErr : go_error) : rprog (result go_error string) :=
  match n with
  | O => Ret (Err lastErr)
  | S n =>
      let! r := migrate_call client source guest params in
      match r with
      | None => Ret (Err (errorf ("unsupported guest type " +:+ Quote (gs_Type guest))))
      | Some (Ok upid) => Ret (Ok upid)
      | Some (Err e) =>
          if negb (IsLockedError e) || Nat.eqb n 0 then Ret (Err e)
          else
            let! status := waitForGuestUnlocked client (gs_Type guest) (gs_VMID guest) "" in
            if negb (bool_decide (status = "completed")) then Ret (Err e)
            else migrate_attempts client source guest params n e
      end
  end.

Definition migrateWithRetry (client : Client) (source : string) (guest : GuestSnapshot) (params : MigrateParams) :
    rprog (result go_error string) :=
  migrate_attempts client source guest params migrateMaxAttempts (errorf "").

Section drain.
Context `{LIB : Library} `{MR : MapRange}.

Definition requireDialableNode (job : RollingUpdateJob) (node : RollingUpdateNode) : rprog (option member_error) :=
  let! err := Require (job_ClusterID job) (node_NodeName node) in
  match err with
  | Some NotMemberError =>
      do! failNode job node "not one of this cluster's nodes; it was not contacted" in Ret err
  | _ => Ret err
  end.

(** ** From drained to upgrading *)

Definition beginUpgrade (job : RollingUpdateJob) (node : RollingUpdateNode) : rprog unit :=
  let id := node_ID node in
  let drained := job_DrainGuests job in
  if job_AutoUpgrade job then
    let! r := (if drained then db (SetNodeDrainCompletedAuto id) else db (SetNodeInPlaceUpgradeAuto id)) in
    match r with
    | Err _ => Ret tt
    | Ok _ => publishEvent (job_ClusterID job) (job_ID job) "node_upgrading"
    end
  else
    let! r := (if drained then db (SetNodeDrainCompletedManual id) else db (SetNodeInPlaceUpgradeManual id)) in
    match r with
    | Err _ => Ret tt
    | Ok _ => publishEvent (job_ClusterID job) (job_ID job) "node_awaiting_upgrade"
    end.

Definition completeDrain (client : Client) (job : RollingUpdateJob) (node : RollingUpdateNode) : rprog unit :=
  let! v := verifyNodeDrained client (node_NodeName node) in
  match v with
  | Ok (g :: gs) =>
      failNode job node ("node still has running guests after drain (moved here mid-drain?): " +:+
                         formatGuestList (g :: gs))
  | _ =>
      let! upid := pve client (RefreshNodeAptIndex (node_NodeName node)) in
      do! (match upid with
           | Err _ => Ret tt
           | Ok upid => let! _ := waitForTask client (node_NodeName node) upid in Ret tt
           end) in
      beginUpgrade job node
  end.

(** ** One guest of a drain

    Shared by [startNode] and [resumeDrain], whose messages carry a prefix.
    [false] is a [return] of the drain. *)

Definition guest_text (guest : GuestSnapshot) : string :=
  gs_Type guest +:+ " " +:+ Itoa (gs_VMID guest).

Definition shutdown_guest (client : Client) (nodeName : string) (guest : GuestSnapshot) :
    rprog (result go_error string) :=
  if bool_decide (gs_Type guest = "qemu") then pve client (ShutdownVM nodeName (gs_VMID guest))
  else if bool_decide (gs_Type guest = "lxc") then pve client (ShutdownCT nodeName (gs_VMID guest))
  else Ret (Ok "").

(** For a type that is neither, [upid] and [shutErr] keep their values. *)
Definition stop_guest (client : Client) (nodeName : string) (guest : GuestSnapshot) (upid : string) :
    rprog (result go_error string) :=
  if bool_decide (gs_Type guest = "qemu") then pve client (StopVM nodeName (gs_VMID guest))
  else if bool_decide (gs_Type guest = "lxc") then pve client (StopCT nodeName (gs_VMID guest))
  else Ret (Ok upid).

Definition drain_passthrough (prefix : string) (client : Client) (job : RollingUpdateJob)
    (node : RollingUpdateNode) (guest : GuestSnapshot) : rprog bool :=
  let name := node_NodeName node in
  let fail msg := do! failNode job node (prefix +:+ msg) in Ret false in
  let! rec := appendStoppedPassthrough (node_ID node) guest in
  match rec with
  | Err e => fail ("record passthrough shutdown of " +:+ guest_text guest +:+ ": " +:+ err_msg e)
  | Ok _ =>
      let! shut := shutdown_guest client name guest in
      match shut with
      | Err e => fail ("shutdown passthrough " +:+ guest_text guest +:+ ": " +:+ err_msg e)
      | Ok upid =>
          let! status := waitForTask client name upid in
          if bool_decide (status = "interrupted") then Ret false
          else if bool_decide (status = "completed") then Ret true
          else
            let! stop := stop_guest client name guest upid in
            match stop with
            | Err e => fail ("force stop passthrough " +:+ guest_text guest +:+ ": " +:+ err_msg e)
            | Ok upid =>
                let! forceStatus := waitForTask client name upid in
                Ret (negb (bool_decide (forceStatus = "interrupted")))
            end
      end
  end.

(** Migrating one guest off the node: where it went, or [None] for a [return];
    [Some None] is a guest that left by itself. *)
Definition drain_migrate (prefix : string) (client : Client) (job : RollingUpdateJob)
    (node : RollingUpdateNode) (targets : list string) (ha : HAConstraints) (drsRules : list Rule)
    (nodeWorkloads : Placement) (guest : GuestSnapshot) : rprog (option (option string)) :=
  let name := node_NodeName node in
  let fail msg := do! failNode job node (prefix +:+ msg) in Ret None in
  let! pre := waitForGuestUnlocked client (gs_Type guest) (gs_VMID guest) "" in
  if bool_decide (pre = "interrupted") then Ret None
  else
    let! here := isGuestOnNode client name guest in
    if negb here then Ret (Some None)
    else
      let gs := {| gs_VMID := gs_VMID guest; gs_Name := gs_Name guest; gs_Type := gs_Type guest;
                   gs_Status := gs_Status guest; gs_Passthrough := false |} in
      match SelectTarget gs targets ha drsRules nodeWorkloads with
      | Err e => fail ("no valid target for " +:+ guest_text guest +:+ ": " +:+ err_msg e)
      | Ok target =>
          let params := {| mp_Target := target; mp_Online := bool_decide (gs_Status guest = "running") |} in
          let! m := migrateWithRetry client name guest params in
          match m with
          | Err e => fail ("migrate " +:+ guest_text guest +:+ ": " +:+ err_msg e)
          | Ok upid =>
              let! status := waitForTask client name upid in
              if bool_decide (status = "interrupted") then Ret None
              else if negb (bool_decide (status = "completed"))
              then fail ("migration of " +:+ guest_text guest +:+ " failed (status: " +:+ status +:+ ")")
              else
                let! lockStatus := waitForGuestUnlocked client (gs_Type guest) (gs_VMID guest) target in
                if bool_decide (lockStatus = "interrupted") then Ret None
                else if negb (bool_decide (lockStatus = "completed"))
                then fail (guest_text guest +:+ " still locked after migrate (status: " +:+ lockStatus +:+ ")")
                else Ret (Some (Some target))
          end
      end.

Definition moved_workload (guest : GuestSnapshot) (target : string) : Workload := {|
  w_VMID := gs_VMID guest; w_Name := gs_Name guest; w_Type := gs_Type guest; w_Node := target;
  w_CPUUsage := f0; w_CPUs := 0; w_Mem := 0; w_MaxMem := 0; w_NetIn := 0; w_NetOut := 0; w_Status := "";
  w_Pinned := false |}.

Definition add_workload (wls : Placement) (guest : GuestSnapshot) (target : string) : Placement :=
  <[target := workloads_on wls target ++ [moved_workload guest target]]> wls.

Definition remove_workload (wls : Placement) (node : string) (guest : GuestSnapshot) : Placement :=
  <[node := List.filter (λ wl, negb (w_VMID wl =? gs_VMID guest)) (workloads_on wls node)]> wls.

(** One turn of the loop of [startNode]. *)
Definition start_guest_turn (client : Client) (job : RollingUpdateJob) (node : RollingUpdateNode)
    (targets : list string) (ha : HAConstraints) (drsRules : list Rule) (wls : Placement)
    (guest : GuestSnapshot) : rprog (Placement + unit) :=
  let! cancelled := isJobCancelled (job_ID job) in
  if cancelled then Ret (inr tt)
  else
    let! here := isGuestOnNode client (node_NodeName node) guest in
    if negb here then Ret (inl wls)
    else if gs_Passthrough guest then
      let! go_on := drain_passthrough "" client job node guest in
      Ret (if go_on then inl wls else inr tt)
    else
      let! moved := drain_migrate "" client job node targets ha drsRules wls guest in
      Ret (match moved with
           | None => inr tt
           | Some None => inl wls
           | Some (Some target) => inl (remove_workload (add_workload wls guest target) (node_NodeName node) guest)
           end).

(** One turn of the loop of [resumeDrain]. *)
Definition resume_guest_turn (client : Client) (job : RollingUpdateJob) (node : RollingUpdateNode)
    (targets : list string) (ha : HAConstraints) (drsRules : list Rule) (wls : Placement)
    (guest : GuestSnapshot) : rprog (Placement + unit) :=
  let! cancelled := isJobCancelled (job_ID job) in
  if cancelled then Ret (inr tt)
  else if gs_Passthrough guest then
    let! go_on := drain_passthrough "resume drain — " client job node guest in
    Ret (if go_on then inl wls else inr tt)
  else
    let! moved := drain_migrate "resume drain — " client job node targets ha drsRules wls guest in
    Ret (match moved with
         | None => inr tt
         | Some None => inl wls
         | Some (Some target) => inl (add_workload wls guest target)
         end).

Definition online_targets (clusterNodes : list NodeListEntry) (nodeName : string) : list string :=
  ne_Node <$> List.filter (λ cn, negb (bool_decide (ne_Node cn = nodeName)) &&
                                 bool_decide (ne_Status cn = "online")) clusterNodes.

(** The part both drains share: targets, constraints, rules and workloads, then
    the guests one after another, then [completeDrain]. *)
Definition drain_all (prefix no_targets : string)
    (turn : list string → HAConstraints → list Rule → Placement → GuestSnapshot → rprog (Placement + unit))
    (client : Client) (job : RollingUpdateJob) (node : RollingUpdateNode) (guests : list GuestSnapshot) :
    rprog unit :=
  let fail msg := failNode job node (prefix +:+ msg) in
  let! cn := pve client GetNodes in
  match cn with
  | Err e => fail ("list cluster nodes: " +:+ err_msg e)
  | Ok clusterNodes =>
      match online_targets clusterNodes (node_NodeName node) with
      | [] => fail no_targets
      | targets =>
          let! listings := ask (ListHA client) in
          match loadHAConstraints listings listingRetryAttempts with
          | Err haErr =>
              let! stop := interrupted haErr in
              if stop then Ret tt
              else fail ("read HA constraints for target selection: " +:+ err_msg haErr)
          | Ok ha =>
              let! dbRules := ask (ListDRSRules (job_ClusterID job)) in
              let drsRules := ParseDBRules (match dbRules with Ok l => l | Err _ => [] end) in
              let! rd := ask (ReadWorkloads client) in
              let! r := for_range guests (turn targets ha drsRules) (BuildNodeWorkloads rd clusterNodes) in
              match r with
              | inr _ => Ret tt
              | inl _ => completeDrain client job node
              end
          end
      end
  end.

Definition resumeDrain (client : Client) (job : RollingUpdateJob) (node : RollingUpdateNode)
    (remaining : list GuestSnapshot) : rprog unit :=
  do! db_ (TouchRollingUpdateNode (node_ID node)) in
  drain_all "resume drain — " "no available target nodes" (resume_guest_turn client job node) client job node
    remaining.

(** The guests of the snapshot still to be drained. *)
Fixpoint remaining_guests (client : Client) (nodeName : string) (guests : list GuestSnapshot) :
    rprog (list GuestSnapshot) :=
  match guests with
  | [] => Ret []
  | g :: guests =>
      let! here := isGuestOnNode client nodeName g in
      let! stopped := (if here && gs_Passthrough g
                       then let! status := getGuestStatus client nodeName g in
                            Ret (bool_decide (status = "stopped"))
                       else Ret false) in
      let! rest := remaining_guests client nodeName guests in
      Ret (if here && negb stopped then g :: rest else rest)
  end.

(** [time.Time{}], in nanoseconds since 1970. *)
Definition zeroTime : Z := -62135596800 * second.

Definition advanceDraining (client : Client) (job : RollingUpdateJob) (node : RollingUpdateNode) : rprog unit :=
  let! late := (match node_DrainStartedAt node with
                | Some t => let! now := ask Now in Ret (60 * minute <? Sub now t)
                | None => Ret false
                end) in
  if late then failNode job node "drain timed out after 1 hour"
  else
    let! fresh := (if node_UpdatedAt node =? zeroTime then Ret false
                   else let! now := ask Now in Ret (Sub now (node_UpdatedAt node) <? 2 * minute)) in
    if fresh then Ret tt
    else match Unmarshal (node_GuestsJson node) with
         | None | Some [] => completeDrain client job node
         | Some guests =>
             let! remaining := remaining_guests client (node_NodeName node) guests in
             match remaining with
             | [] => completeDrain client job node
             | _ => resumeDrain client job node remaining
             end
         end.

(** ** Starting a node *)

Definition guestSIDs (guests : list GuestSnapshot) : list string :=
  (λ g, guestTypeToSIDPrefix (gs_Type g) +:+ ":" +:+ Itoa (gs_VMID g)) <$> guests.

(** The enabled HA rules that name a guest of the node. *)
Definition rules_to_disable (guests : list GuestSnapshot) (rules : list HARuleEntry) : list DisabledHARule :=
  (λ r, {| dr_Rule := hr_Rule r; dr_Type := hr_Type r |}) <$>
  List.filter (λ r, negb (hr_Disable r =? 1) &&
                    existsb (λ rs, contains (guestSIDs guests) (TrimSpace rs)) (Split comma (hr_Resources r)))
    rules.

(** Recording the rules, disabling them and recording them again; [true] when
    the drain may go on. *)
Definition disable_rules (client : Client) (job : RollingUpdateJob) (node : RollingUpdateNode)
    (toDisable : list DisabledHARule) : rprog bool :=
  match toDisable with
  | [] => Ret true
  | _ =>
      let! rec := recordJobDisabledHARules (job_ID job) toDisable in
      match rec with
      | Err e =>
          do! failNode job node ("record HA rules before disabling: " +:+ err_msg e) in Ret false
      | Ok _ =>
          do! disableHARules client job (node_NodeName node) toDisable in
          let! _ := recordJobDisabledHARules (job_ID job) toDisable in
          let! status := jobStatus (job_ID job) in
          if bool_decide (status = "running") then Ret true
          else if bool_decide (status = "cancelled")
          then let! _ := releaseJobState (job_ID job) true in Ret false
          else Ret false
      end
  end.

(** The drain proper, once the rules are out of the way. *)
Definition begin_drain (client : Client) (job : RollingUpdateJob) (node : RollingUpdateNode)
    (guests : list GuestSnapshot) : rprog unit :=
  let! r := db (SetNodeDrainStarted (node_ID node)) in
  match r with
  | Err _ => Ret tt
  | Ok _ =>
      do! publishEvent (job_ClusterID job) (job_ID job) "node_draining" in
      match guests with
      | [] => completeDrain client job node
      | _ => drain_all "" "no available target nodes for migration" (start_guest_turn client job node)
               client job node guests
      end
  end.

(** The drained path of [startNode]. *)
Definition start_drain (client : Client) (job : RollingUpdateJob) (node : RollingUpdateNode) : rprog unit :=
  let! snap := snapshotGuests client (node_NodeName node) in
  match snap with
  | Err e => failNode job node ("snapshot guests: " +:+ err_msg e)
  | Ok guests =>
      let! cancelled := isJobCancelled (job_ID job) in
      if cancelled then Ret tt
      else
        do! db_ (SetNodeGuestsJSON (node_ID node)
                   (match guests with [] => JsonNull | _ => Marshal guests end)) in
        let! listings := ask (ListHA client) in
        match listHARules listings listingRetryAttempts with
        | Err e =>
            let! stop := interrupted e in
            if stop then Ret tt
            else failNode job node ("before disabling HA rules: " +:+ err_msg e)
        | Ok rules =>
            let! go_on := disable_rules client job node (rules_to_disable guests rules) in
            if go_on then begin_drain client job node guests else Ret tt
        end
  end.

Definition startNode (client : Client) (job : RollingUpdateJob) (node : RollingUpdateNode) : rprog unit :=
  let! err := requireDialableNode job node in
  match err with
  | Some _ => Ret tt
  | None =>
      let name := node_NodeName node in
      let! upid := pve client (RefreshNodeAptIndex name) in
      do! (match upid with
           | Err _ => Ret tt
           | Ok upid => let! _ := waitForTask client name upid in Ret tt
           end) in
      let! updates := pve client (GetNodeAptUpdates name) in
      match updates with
      | Ok [] =>
          do! db_ (SkipRollingUpdateNodeAny (node_ID node) "no pending updates") in
          publishEvent (job_ClusterID job) (job_ID job) "node_skipped"
      | _ =>
          do! (match updates with
               | Ok pkgs => db_ (SetNodePackagesJSON (node_ID node) (Marshal pkgs))
               | Err _ => Ret tt
               end) in
          if negb (job_DrainGuests job) then beginUpgrade job node
          else start_drain client job node
      end
  end.
End drain.
