(* ===== verification/RollingUpgrade.v ===== *)
(** * Upgrading, rebooting and restoring nodes, and the tick that drives them

    Models the rest of [internal/rolling/orchestrator.go]: the automated upgrade
    over SSH, the reboot, the return of the guests, the confirmation of a manual
    upgrade, and [Tick], which moves every node of every running job on. *)

From S2P Require Import Prelude GoFloat GoStrings ProxmoxApi Effects Crs DrsRules DrsPlanner DrsExecutor RollingDb.
From S2P Require Import RollingHa RollingOps RollingRelease RollingDrain.

Local Open Scope Z_scope.

(** ** The upgrade command *)

Definition lower_alnum (c : ascii) : bool :=
  let n := byte_val c in (Nat.leb 97 n && Nat.leb n 122) || (Nat.leb 48 n && Nat.leb n 57).
Definition pkg_byte (c : ascii) : bool :=
  lower_alnum c || contains (bytes_of ".+-") c.

(** The pattern ^[a-z0-9][a-z0-9.+\-]{0,127}$ *)
Definition isValidDebianPkgName (name : string) : bool :=
  match name with
  | EmptyString => false
  | String c rest => lower_alnum c && forallb pkg_byte (bytes_of rest) && Nat.leb (slen rest) 127
  end.

(** The arguments of the excluded packages, or the first invalid name. *)
Fixpoint exclude_args (args : string) (pkgs : list string) : string + string :=
  match pkgs with
  | [] => inl args
  | pkg :: pkgs =>
      if isValidDebianPkgName pkg then exclude_args (args +:+ " --exclude " +:+ pkg) pkgs else inr pkg
  end.

Definition upgrade_command (excludeArgs : string) : string :=
  "export DEBIAN_FRONTEND=noninteractive && " +:+
  "(dpkg --configure -a 2>&1 || true) && " +:+
  "apt-get update -o DPkg::Lock::Timeout=1800 && " +:+
  "apt-get dist-upgrade -y" +:+
  " -o DPkg::Lock::Timeout=1800" +:+
  " -o Dpkg::Options::=--force-confdef" +:+
  " -o Dpkg::Options::=--force-confold" +:+
  excludeArgs +:+ " 2>&1".

(** [s[len(s)-n:]] when [s] is longer than [n] bytes. *)
Definition last_bytes (n : nat) (s : string) : string :=
  if Nat.ltb n (slen s) then sdrop (slen s - n) s else s.

Definition failure_tail (output : string) : string :=
  if Nat.ltb 2000 (slen output)
  then "…(truncated)…" +:+ String newline "" +:+ sdrop (slen output - 2000) output else output.

Definition upgradeAbsoluteTimeout : Z := 60 * minute.
Definition upgradeHeartbeatStale : Z := 3 * minute.

Section upgrade.
Context `{LIB : Library} `{MR : MapRange}.

(** ** The automated upgrade *)

(** A credential that is stored is decrypted; one that is not stays empty. *)
Definition decrypt_if (s : string) : rprog (result go_error string) :=
  if bool_decide (s = "") then Ret (Ok "") else ask (Decrypt s).

(** The SSH configuration of a node, or why there is none. *)
Definition ssh_config (job : RollingUpdateJob) (node : RollingUpdateNode) : rprog (result string SSHConfig) :=
  let! creds := ask (GetClusterSSHCredentials (job_ClusterID job)) in
  match creds with
  | Err e => Ret (Err ("SSH credentials not found: " +:+ err_msg e))
  | Ok creds =>
      let! password := decrypt_if (sc_EncryptedPassword creds) in
      match password with
      | Err e => Ret (Err ("decrypt SSH password: " +:+ err_msg e))
      | Ok password =>
          let! privateKey := decrypt_if (sc_EncryptedPrivateKey creds) in
          match privateKey with
          | Err e => Ret (Err ("decrypt SSH key: " +:+ err_msg e))
          | Ok privateKey =>
              let! addr := ask (GetNodeAddressByName (job_ClusterID job) (node_NodeName node)) in
              let unknown := Ret (Err ("no IP address known for node " +:+ Quote (node_NodeName node) +:+
                " (collector hasn't reported it). Wait for the collector to tick, then retry.")) in
              match addr with
              | Err _ => unknown
              | Ok sshHost =>
                  if bool_decide (sshHost = "") then unknown
                  else
                    let! pinned := ask (GetSSHKnownHost (job_ClusterID job) sshHost (sc_Port creds)) in
                    match pinned with
                    | Err _ => Ret (Err ("SSH host key not pinned for " +:+ sshHost +:+
                        ". Visit Security → Rolling Updates → SSH Credentials, run Test Connection, and confirm the fingerprint to pin it."))
                    | Ok publicKey =>
                        let! knownKey := ask (ParseAuthorizedKey publicKey) in
                        Ret (match knownKey with
                             | Err e => Err ("stored SSH host key for " +:+ sshHost +:+ " is corrupt: " +:+
                                             err_msg e +:+ " — delete and re-pin")
                             | Ok knownKey => Ok {|
                                 ssh_Host := sshHost; ssh_Port := sc_Port creds;
                                 ssh_Username := sc_Username creds; ssh_Password := password;
                                 ssh_PrivateKey := privateKey; ssh_KnownHostKey := knownKey |}
                             end)
                    end
              end
          end
      end
  end.

(** What an upgrade already under way calls for. *)
Inductive upgrade_state := UpgradeLate | UpgradeAlive | UpgradeLaunch.

Definition upgrade_progress (node : RollingUpdateNode) : rprog upgrade_state :=
  match node_UpgradeStartedAt node with
  | None => Ret UpgradeLaunch
  | Some t =>
      let! now := ask Now in
      if upgradeAbsoluteTimeout <? Sub now t then Ret UpgradeLate
      else if node_UpdatedAt node =? zeroTime then Ret UpgradeAlive
      else
        let! now := ask Now in
        Ret (if Sub now (node_UpdatedAt node) <=? upgradeHeartbeatStale then UpgradeAlive else UpgradeLaunch)
  end.

Definition advanceUpgrading (client : Client) (job : RollingUpdateJob) (node : RollingUpdateNode) : rprog unit :=
  let! st := upgrade_progress node in
  match st with
  | UpgradeLate => failNode job node "automated upgrade timed out after 1h0m0s"
  | UpgradeAlive => Ret tt
  | UpgradeLaunch =>
      let! cfg := ssh_config job node in
      match cfg with
      | Err reason => failNode job node reason
      | Ok sshCfg =>
          do! db_ (SetNodeUpgradeStarted (node_ID node)) in
          do! (match node_UpgradeStartedAt node with
               | None => publishEvent (job_ClusterID job) (job_ID job) "node_upgrade_started"
               | Some _ => Ret tt
               end) in
          ask (Go (RunSSHUpgrade job node client sshCfg))
      end
  end.

(** The heartbeat's goroutine, for [n] ticks of its ticker. *)
Fixpoint upgradeHeartbeat (nodeID : uuid) (n : nat) : rprog unit :=
  match n with
  | O => Ret tt
  | S n =>
      let! ended := ask (CtxSleep (30 * second)) in
      match ended with
      | Some _ => Ret tt
      | None => do! db_ (TouchRollingUpdateNode nodeID) in upgradeHeartbeat nodeID n
      end
  end.

(** Whether the node has to be rebooted; [None] for a shutdown. *)
Definition reboot_wanted (job : RollingUpdateJob) (sshCfg : SSHConfig) : rprog (option bool) :=
  if job_RebootAfterUpdate job then Ret (Some true)
  else
    let! check := ask (SSHExecute sshCfg rebootCheckCommand) in
    match check with
    | Ok r => Ret (Some (rebootOwed (sr_Stdout r) None))
    | Err e =>
        let! stop := interrupted e in
        Ret (if stop then None else Some (rebootOwed "" (Some e)))
    end.

(** What [decideReboot] is asked with. *)
Definition reboot_decision (job : RollingUpdateJob) (v : result go_error (list string)) : rebootAction :=
  match v with
  | Ok violations => decideReboot job violations None
  | Err e => decideReboot job [] (Some e)
  end.

Definition violations_of (v : result go_error (list string)) : list string :=
  match v with Ok l => l | Err _ => [] end.

(** A successful upgrade: reboot, put it off, refuse, or go on without one. *)
Definition finish_upgrade (client : Client) (job : RollingUpdateJob) (node : RollingUpdateNode)
    (needsReboot : bool) : rprog unit :=
  let passed := publishEvent (job_ClusterID job) (job_ID job) "node_health_check_passed" in
  if needsReboot then
    let! v := verifyNodeDrained client (node_NodeName node) in
    match reboot_decision job v with
    | rebootDefer =>
        let! r := db (SetNodeUpgradeCompletedRebootPending (node_ID node)) in
        match r with Err _ => Ret tt | Ok _ => passed end
    | rebootFail =>
        failNode job node ("refusing to reboot: running guests present on node: " +:+
                           formatGuestList (violations_of v))
    | rebootProceed =>
        let! r := db (SetNodeUpgradeCompleted (node_ID node)) in
        match r with
        | Err _ => Ret tt
        | Ok _ =>
            let! r := pve client (RebootNode (node_NodeName node)) in
            match r with
            | Err e => failNode job node ("reboot node after upgrade: " +:+ err_msg e)
            | Ok _ => publishEvent (job_ClusterID job) (job_ID job) "node_rebooting"
            end
        end
    end
  else
    let! r := db (SetNodeUpgradeCompletedNoReboot (node_ID node)) in
    match r with Err _ => Ret tt | Ok _ => passed end.

Definition runSSHUpgrade (job : RollingUpdateJob) (node : RollingUpdateNode) (client : Client)
    (sshCfg : SSHConfig) : rprog unit :=
  do! ask (Go (UpgradeHeartbeat (node_ID node))) in
  match exclude_args "" (job_PackageExcludes job) with
  | inr pkg => failNode job node ("invalid package exclude name: " +:+ Quote pkg)
  | inl excludeArgs =>
      let! res := ask (SSHExecute sshCfg (upgrade_command excludeArgs)) in
      match res with
      | Err e =>
          let! stop := interrupted e in
          if stop then Ret tt else failNode job node ("SSH upgrade failed: " +:+ err_msg e)
      | Ok res =>
          let output := last_bytes (Z.to_nat 65536) (sr_Stdout res) in
          do! db_ (SetNodeUpgradeOutput (node_ID node) output) in
          if negb (sr_ExitCode res =? 0)
          then failNode job node ("apt dist-upgrade exited with code " +:+ Itoa (sr_ExitCode res) +:+ ":" +:+
                                  String newline "" +:+ failure_tail output)
          else
            let! cancelled := isJobCancelled (job_ID job) in
            if cancelled then Ret tt
            else
              let! wanted := reboot_wanted job sshCfg in
              match wanted with
              | None => Ret tt
              | Some needsReboot => finish_upgrade client job node needsReboot
              end
      end
  end.

(** ** Rebooting *)

Definition clockSkewBuffer : Z := 10 * second.

Definition rebootStarted (node : RollingUpdateNode) : Z := default zeroTime (node_RebootStartedAt node).

(** How long ago the reboot was, if it has started: [inl] when it took too long,
    [inr] whether to look at the node at all. *)
Definition reboot_elapsed (node : RollingUpdateNode) : rprog (unit + bool) :=
  match node_RebootStartedAt node with
  | None => Ret (inr true)
  | Some t =>
      let! now := ask Now in
      if 10 * minute <? Sub now t then Ret (inl tt)
      else let! now := ask Now in Ret (inr (negb (Sub now t <? 30 * second)))
  end.

Definition advanceRebooting (client : Client) (job : RollingUpdateJob) (node : RollingUpdateNode) : rprog unit :=
  let! st := reboot_elapsed node in
  match st with
  | inl _ => failNode job node "reboot timed out after 10 minutes"
  | inr false => Ret tt
  | inr true =>
      let! status := pve client (GetNodeStatus (node_NodeName node)) in
      match status with
      | Err _ => Ret tt
      | Ok uptime =>
          let! now := ask Now in
          let elapsed := Sub now (rebootStarted node) in
          if int64 (elapsed + clockSkewBuffer) <=? int64 (uptime * second) then Ret tt
          else
            let! r := db (SetNodeRebootCompleted (node_ID node)) in
            match r with
            | Err _ => Ret tt
            | Ok _ =>
                let! r := db (SetNodeHealthCheckPassed (node_ID node)) in
                match r with
                | Err _ => Ret tt
                | Ok _ => publishEvent (job_ClusterID job) (job_ID job) "node_health_check_passed"
                end
            end
      end
  end.

(** ** Bringing the guests back *)

Definition on_node (client : Client) (guest : GuestSnapshot) (name : string) : rprog bool :=
  let there (r : result go_error (list Guest)) :=
    match r with Err _ => false | Ok l => existsb (λ g, g_VMID g =? gs_VMID guest) l end in
  if bool_decide (gs_Type guest = "qemu") then let! r := pve client (GetVMs name) in Ret (there r)
  else if bool_decide (gs_Type guest = "lxc") then let! r := pve client (GetContainers name) in Ret (there r)
  else Ret false.

Fixpoint findGuestLocation (client : Client) (clusterNodes : list NodeListEntry) (guest : GuestSnapshot)
    (excludeNode : string) : rprog string :=
  match clusterNodes with
  | [] => Ret ""
  | cn :: clusterNodes =>
      if bool_decide (ne_Node cn = excludeNode) || negb (bool_decide (ne_Status cn = "online"))
      then findGuestLocation client clusterNodes guest excludeNode
      else
        let! found := on_node client guest (ne_Node cn) in
        if found then Ret (ne_Node cn) else findGuestLocation client clusterNodes guest excludeNode
  end.

Definition migrate_back (client : Client) (currentNode : string) (guest : GuestSnapshot) (params : MigrateParams) :
    rprog (result go_error string) :=
  if bool_decide (gs_Type guest = "qemu") then pve client (MigrateVM currentNode (gs_VMID guest) params)
  else if bool_decide (gs_Type guest = "lxc") then pve client (MigrateCT currentNode (gs_VMID guest) params)
  else Ret (Ok "").

(** One guest of the restore; [inr] for a shutdown. *)
Definition restore_guest (client : Client) (node : RollingUpdateNode) (clusterNodes : list NodeListEntry)
    (_ : unit) (guest : GuestSnapshot) : rprog (unit + unit) :=
  if gs_Passthrough guest then Ret (inl tt)
  else
    let! currentNode := findGuestLocation client clusterNodes guest (node_NodeName node) in
    if bool_decide (currentNode = "") || bool_decide (currentNode = node_NodeName node) then Ret (inl tt)
    else
      let! m := migrate_back client currentNode guest {| mp_Target := node_NodeName node; mp_Online := true |} in
      match m with
      | Err _ => Ret (inl tt)
      | Ok upid =>
          let! status := waitForTask client currentNode upid in
          if bool_decide (status = "interrupted") then Ret (inr tt)
          else if negb (bool_decide (status = "completed")) then Ret (inl tt)
          else
            let! lockStatus := waitForGuestUnlocked client (gs_Type guest) (gs_VMID guest) (node_NodeName node) in
            Ret (if bool_decide (lockStatus = "interrupted") then inr tt else inl tt)
      end.

(** Marking a node completed, and telling of it. *)
Definition complete_node (job : RollingUpdateJob) (node : RollingUpdateNode) : rprog unit :=
  let! r := db (SetNodeRestoreCompleted (node_ID node)) in
  match r with
  | Err _ => Ret tt
  | Ok _ => publishEvent (job_ClusterID job) (job_ID job) "node_completed"
  end.

(** Without auto-restore: the passthrough guests are started again all the same. *)
Definition restore_stopped_only (client : Client) (job : RollingUpdateJob) (node : RollingUpdateNode) : rprog unit :=
  match stoppedPassthroughFor node with
  | [] => complete_node job node
  | _ =>
      let! ready := (if bool_decide (node_Step node = "restoring") then Ret true
                     else
                       let! r := db (SetNodeRestoreStarted (node_ID node)) in
                       match r with
                       | Err _ => Ret false
                       | Ok _ => do! publishEvent (job_ClusterID job) (job_ID job) "node_restoring" in Ret true
                       end) in
      if negb ready then Ret tt
      else
        let! (_, stop) := restartStoppedPassthrough client job node true true in
        if stop then Ret tt else complete_node job node
  end.

Definition restore_all (client : Client) (job : RollingUpdateJob) (node : RollingUpdateNode)
    (guests : list GuestSnapshot) : rprog unit :=
  let! r := db (SetNodeRestoreStarted (node_ID node)) in
  match r with
  | Err _ => Ret tt
  | Ok _ =>
      do! publishEvent (job_ClusterID job) (job_ID job) "node_restoring" in
      let! cn := callWithRetryFailover (λ c, pve c GetNodes) (job_ClusterID job) client in
      match cn with
      | Err e => failNode job node ("list nodes for restore: " +:+ err_msg e)
      | Ok clusterNodes =>
          let! (_, stop) := restartStoppedPassthrough client job node true true in
          if stop then Ret tt
          else
            let! r := for_range guests (restore_guest client node clusterNodes) tt in
            match r with
            | inr _ => Ret tt
            | inl _ => complete_node job node
            end
      end
  end.

Definition advanceHealthCheck (client : Client) (job : RollingUpdateJob) (node : RollingUpdateNode) : rprog unit :=
  if negb (job_AutoRestoreGuests job) then restore_stopped_only client job node
  else match Unmarshal_ignored (node_GuestsJson node) with
       | [] =>
           do! db_ (SetNodeRestoreCompleted (node_ID node)) in
           publishEvent (job_ClusterID job) (job_ID job) "node_completed"
       | guests => restore_all client job node guests
       end.

Definition advanceRestoring (client : Client) (job : RollingUpdateJob) (node : RollingUpdateNode) : rprog unit :=
  let! late := (match node_RestoreStartedAt node with
                | Some t => let! now := ask Now in Ret (30 * minute <? Sub now t)
                | None => Ret false
                end) in
  if late then
    do! db_ (SetNodeRestoreCompleted (node_ID node)) in
    publishEvent (job_ClusterID job) (job_ID job) "node_completed"
  else
    let! fresh := (if node_UpdatedAt node =? zeroTime then Ret false
                   else let! now := ask Now in Ret (Sub now (node_UpdatedAt node) <? 2 * minute)) in
    if fresh then Ret tt else advanceHealthCheck client job node.

(** ** Confirming a manual upgrade *)

Inductive confirm_error :=
| NotAwaiting (step : string)
| NotDialable (e : member_error)
| ConfirmFailed (what : string).

Definition ConfirmUpgrade (job : RollingUpdateJob) (node : RollingUpdateNode) : rprog (result confirm_error unit) :=
  if negb (bool_decide (node_Step node = "awaiting_upgrade")) then Ret (Err (NotAwaiting (node_Step node)))
  else
    let! err := requireDialableNode job node in
    match err with
    | Some e => Ret (Err (NotDialable e))
    | None =>
        let passed := publishEvent (job_ClusterID job) (job_ID job) "node_health_check_passed" in
        let confirm (k : rprog (result confirm_error unit)) :=
          let! r := db (ConfirmNodeUpgrade (node_ID node)) in
          match r with
          | Err e => Ret (Err (ConfirmFailed ("confirm node upgrade: " +:+ err_msg e)))
          | Ok _ => k
          end in
        if job_RebootAfterUpdate job then
          let! c := createClient (job_ClusterID job) in
          match c with
          | Err e => Ret (Err (ConfirmFailed ("create client for reboot: " +:+ err_msg e)))
          | Ok client =>
              let! v := verifyNodeDrained client (node_NodeName node) in
              match reboot_decision job v with
              | rebootDefer =>
                  let! r := db (SetNodeUpgradeCompletedRebootPending (node_ID node)) in
                  match r with
                  | Err e => Ret (Err (ConfirmFailed ("confirm node upgrade (reboot pending): " +:+ err_msg e)))
                  | Ok _ => do! passed in Ret (Ok tt)
                  end
              | rebootFail =>
                  Ret (Err (ConfirmFailed ("node has running guests, refusing to reboot: " +:+
                    formatGuestList (violations_of v) +:+ " — migrate them off and confirm again")))
              | rebootProceed =>
                  confirm (
                    let! r := pve client (RebootNode (node_NodeName node)) in
                    match r with
                    | Err e =>
                        do! db_ (SetNodeRebootStarted (node_ID node)) in
                        do! failNode job node ("reboot node: " +:+ err_msg e) in
                        Ret (Err (ConfirmFailed ("reboot node: " +:+ err_msg e)))
                    | Ok _ =>
                        let! r := db (SetNodeRebootStarted (node_ID node)) in
                        match r with
                        | Err e => Ret (Err (ConfirmFailed ("set node reboot started: " +:+ err_msg e)))
                        | Ok _ =>
                            do! publishEvent (job_ClusterID job) (job_ID job) "node_rebooting" in Ret (Ok tt)
                        end
                    end)
              end
          end
        else
          confirm (
            let! r := db (SetNodeHealthCheckPassed (node_ID node)) in
            match r with
            | Err e => Ret (Err (ConfirmFailed ("set health check: " +:+ err_msg e)))
            | Ok _ => do! passed in Ret (Ok tt)
            end)
    end.

(** ** The tick *)

Definition automatic_steps : list string := ["draining"; "upgrading"; "rebooting"; "health_check"; "restoring"].

Definition advanceNode (client : Client) (job : RollingUpdateJob) (node : RollingUpdateNode) : rprog unit :=
  if negb (contains automatic_steps (node_Step node)) then Ret tt
  else
    let! err := requireDialableNode job node in
    match err with
    | Some _ => Ret tt
    | None =>
        let at_step s := bool_decide (node_Step node = s) in
        if at_step "draining" then advanceDraining client job node
        else if at_step "upgrading" then advanceUpgrading client job node
        else if at_step "rebooting" then advanceRebooting client job node
        else if at_step "health_check" then advanceHealthCheck client job node
        else advanceRestoring client job node
    end.

(** The first node that failed during the tick, with its reason. *)
Fixpoint failed_node (nodes : list RollingUpdateNode) : rprog (option (string * string)) :=
  match nodes with
  | [] => Ret None
  | node :: nodes =>
      if contains automatic_steps (node_Step node) then
        let! updated := db (GetRollingUpdateNode (node_ID node)) in
        match updated with
        | Ok updated =>
            if bool_decide (node_Step updated = "failed")
            then Ret (Some (node_NodeName node, node_FailureReason updated)) else failed_node nodes
        | Err _ => failed_node nodes
        end
      else failed_node nodes
  end.

Definition start_next (client : Client) (job : RollingUpdateJob) (activeCount : Z) : rprog unit :=
  if activeCount <? job_Parallelism job then
    let! next := db (GetNextPendingNode (job_ID job)) in
    match next with
    | Ok nextNode => startNode client job nextNode
    | Err _ => Ret tt
    end
  else Ret tt.

Definition finish_if_done (job : RollingUpdateJob) : rprog unit :=
  let! c := db (CountCompletedNodes (job_ID job)) in
  match c with
  | Err _ => Ret tt
  | Ok counts =>
      if negb (cc_Completed counts + cc_Failed counts + cc_Skipped counts =? cc_Total counts) then Ret tt
      else if 0 <? cc_Failed counts then failJob job "one or more nodes failed"
      else
        let! rows := db (CompleteRollingUpdateJob (job_ID job)) in
        match rows with
        | Err _ => Ret tt
        | Ok rows =>
            if rows =? 0 then Ret tt
            else
              do! publishEvent (job_ClusterID job) (job_ID job) "completed" in
              do! auditLog (job_ClusterID job) (job_ID job) "rolling_update_completed" [] in
              let! suffix := rebootPendingSuffix (job_ID job) in
              do! sendJobNotification job "completed" ("Rolling update completed successfully" +:+ suffix) in
              do! triggerPostUpgradeCVEScan job in
              let! _ := releaseJobState (job_ID job) true in Ret tt
        end
  end.

Definition processJob (job : RollingUpdateJob) : rprog unit :=
  do! (if negb (job_DrsWasEnabled job) then disableDRSIfEnabled job else Ret tt) in
  let! c := createClient (job_ClusterID job) in
  match c with
  | Err _ => Ret tt
  | Ok client =>
      do! (if negb (job_NativeCrsPaused job) then pauseNativeCRSIfActive client job else Ret tt) in
      let! ns := db (ListRollingUpdateNodes (job_ID job)) in
      match ns with
      | Err _ => Ret tt
      | Ok nodes =>
          do! for_each nodes (advanceNode client job) in
          let! failed := failed_node nodes in
          match failed with
          | Some (name, reason) => failJob job ("node " +:+ name +:+ " failed: " +:+ reason)
          | None =>
              let! n := db (CountActiveNodes (job_ID job)) in
              match n with
              | Err _ => Ret tt
              | Ok activeCount =>
                  do! start_next client job activeCount in
                  finish_if_done job
              end
          end
      end
  end.

Definition Tick : rprog unit :=
  let! js := db ListRunningRollingUpdateJobs in
  match js with
  | Err _ => Ret tt
  | Ok jobs =>
      do! for_each jobs processJob in
      sweepPendingCleanups
  end.

(** ** Goroutines *)

(** The program of a goroutine; the heartbeat's ticker is cut off after [beats]. *)
Definition thread_body (beats : nat) (t : Thread) : rprog unit :=
  match t with
  | RunSSHUpgrade job node client cfg => runSSHUpgrade job node client cfg
  | PostUpgradeCVEScan job => postUpgradeCVEScan job
  | SendNotification channelType config payload => dispatch channelType config payload
  | UpgradeHeartbeat nodeID => upgradeHeartbeat nodeID beats
  | CancelCleanup jobID => CleanupCancelledJob jobID
  end.

End upgrade.
