(* ===== verification/RollingHandlers.v ===== *)
(** * What an operator does to a rolling update

    Models the job routes of [internal/api/handlers/rolling_update.go]: the
    cluster check of [jobInCluster], then the change. The identifiers are
    parsed already, and a response is the value it carries or the status code
    and message of its error. [CreateJob] and the credential routes are not
    modelled. *)

From S2P Require Import Prelude GoFloat GoStrings ProxmoxApi Effects Crs DrsRules DrsPlanner DrsExecutor RollingDb.
From S2P Require Import RollingHa RollingOps RollingRelease RollingDrain RollingUpgrade.

Local Open Scope Z_scope.

Record http_error := { he_code : Z; he_message : string }.

Definition job_not_found : http_error := {| he_code := 404; he_message := "Rolling update job not found" |}.

Section handlers.
Context `{LIB : Library} `{MR : MapRange}.

Definition jobInCluster (jobID clusterID : uuid) : rprog (result http_error RollingUpdateJob) :=
  let! j := db (GetRollingUpdateJob jobID) in
  Ret (match j with
       | Err _ => Err job_not_found
       | Ok job => if negb (job_ClusterID job =? clusterID) then Err job_not_found else Ok job
       end).

Definition GetJob (clusterID jobID : uuid) : rprog (result http_error RollingUpdateJob) :=
  jobInCluster jobID clusterID.

Definition ListNodes (clusterID jobID : uuid) : rprog (result http_error (list RollingUpdateNode)) :=
  let! job := jobInCluster jobID clusterID in
  match job with
  | Err e => Ret (Err e)
  | Ok _ =>
      let! nodes := db (ListRollingUpdateNodes jobID) in
      Ret (match nodes with
           | Err _ => Err {| he_code := 500; he_message := "Failed to list nodes" |}
           | Ok nodes => Ok nodes
           end)
  end.

Definition StartJob (clusterID jobID : uuid) : rprog (result http_error RollingUpdateJob) :=
  let! job := jobInCluster jobID clusterID in
  match job with
  | Err e => Ret (Err e)
  | Ok job =>
      if negb (bool_decide (job_Status job = "pending"))
      then Ret (Err {| he_code := 400; he_message := "Job is not in pending status" |})
      else
        let! r := db (StartRollingUpdateJob jobID) in
        match r with
        | Err _ => Ret (Err {| he_code := 500; he_message := "Failed to start job" |})
        | Ok _ =>
            do! auditLog clusterID jobID "rolling_update_started" [] in
            do! publishEvent clusterID jobID "started" in
            Ret (Ok (set_job_Status "running" job))
        end
  end.

Definition CancelJob (clusterID jobID : uuid) : rprog (result http_error string) :=
  let! job := jobInCluster jobID clusterID in
  match job with
  | Err e => Ret (Err e)
  | Ok _ =>
      let! rows := db (CancelRollingUpdateJob jobID) in
      match rows with
      | Err _ => Ret (Err {| he_code := 500; he_message := "Failed to cancel job" |})
      | Ok rows =>
          if rows =? 0
          then Ret (Err {| he_code := 400; he_message := "Job is not active (already finished or cancelled)" |})
          else
            do! ask (Go (CancelCleanup jobID)) in
            do! auditLog clusterID jobID "rolling_update_cancelled" [] in
            do! publishEvent clusterID jobID "cancelled" in
            Ret (Ok "cancelled")
      end
  end.

Definition PauseJob (clusterID jobID : uuid) : rprog (result http_error string) :=
  let! job := jobInCluster jobID clusterID in
  match job with
  | Err e => Ret (Err e)
  | Ok _ =>
      let! r := db (PauseRollingUpdateJob jobID) in
      match r with
      | Err _ => Ret (Err {| he_code := 500; he_message := "Failed to pause job" |})
      | Ok _ =>
          do! auditLog clusterID jobID "rolling_update_paused" [] in
          do! publishEvent clusterID jobID "paused" in
          Ret (Ok "paused")
      end
  end.

Definition ResumeJob (clusterID jobID : uuid) : rprog (result http_error string) :=
  let! job := jobInCluster jobID clusterID in
  match job with
  | Err e => Ret (Err e)
  | Ok _ =>
      let! r := db (ResumeRollingUpdateJob jobID) in
      match r with
      | Err _ => Ret (Err {| he_code := 500; he_message := "Failed to resume job" |})
      | Ok _ =>
          do! auditLog clusterID jobID "rolling_update_resumed" [] in
          do! publishEvent clusterID jobID "resumed" in
          Ret (Ok "running")
      end
  end.

(** A node of the job, as the node routes look it up. *)
Definition node_of_job (missing : string) (jobID nodeID : uuid) : rprog (result http_error RollingUpdateNode) :=
  let! n := db (GetRollingUpdateNode nodeID) in
  Ret (match n with
       | Err _ => Err {| he_code := 404; he_message := missing |}
       | Ok node =>
           if negb (node_JobID node =? jobID)
           then Err {| he_code := 400; he_message := "Node does not belong to this job" |}
           else Ok node
       end).

(** The message of a [ConfirmUpgrade] error. *)
Definition confirm_message (node : RollingUpdateNode) (e : confirm_error) : http_error :=
  match e with
  | NotDialable NotMemberError =>
      {| he_code := 409; he_message := "node " +:+ Quote (node_NodeName node) +:+
                                    " is not one of this cluster's nodes; it was not contacted" |}
  | NotDialable (LookupError _) => {| he_code := 500; he_message := "Failed to look up the node" |}
  | NotAwaiting step =>
      {| he_code := 400; he_message := "node is not awaiting upgrade (current step: " +:+ step +:+ ")" |}
  | ConfirmFailed what => {| he_code := 400; he_message := what |}
  end.

Definition ConfirmNode (clusterID jobID nodeID : uuid) : rprog (result http_error string) :=
  let! job := jobInCluster jobID clusterID in
  match job with
  | Err e => Ret (Err e)
  | Ok job =>
      let! node := node_of_job "Rolling update node not found" jobID nodeID in
      match node with
      | Err e => Ret (Err e)
      | Ok node =>
          let! r := ConfirmUpgrade job node in
          match r with
          | Err e => Ret (Err (confirm_message node e))
          | Ok _ =>
              do! auditLog clusterID jobID "node_upgrade_confirmed" [("node", node_NodeName node)] in
              Ret (Ok "confirmed")
          end
      end
  end.

Definition SkipNode (clusterID jobID nodeID : uuid) : rprog (result http_error string) :=
  let! job := jobInCluster jobID clusterID in
  match job with
  | Err e => Ret (Err e)
  | Ok _ =>
      let! node := node_of_job "Node not found" jobID nodeID in
      match node with
      | Err e => Ret (Err e)
      | Ok node =>
          let! rows := db (SkipRollingUpdateNode nodeID "manually skipped by user") in
          match rows with
          | Err _ => Ret (Err {| he_code := 500; he_message := "Failed to skip node" |})
          | Ok rows =>
              if rows =? 0 then
                let! fresh := db (GetRollingUpdateNode nodeID) in
                let step := match fresh with Ok n => node_Step n | Err _ => node_Step node end in
                Ret (Err {| he_code := 400; he_message := "Node cannot be skipped in step " +:+ Quote step +:+
                  " — only nodes that have not started can be skipped" |})
              else
                do! auditLog clusterID jobID "node_skipped" [("node", node_NodeName node)] in
                Ret (Ok "skipped")
          end
      end
  end.

Definition forget {A} (p : rprog A) : rprog unit := let! _ := p in Ret tt.

(** What an operator can start. *)
Definition operator_programs (clusterID jobID nodeID : uuid) : list (rprog unit) :=
  [ forget (StartJob clusterID jobID); forget (PauseJob clusterID jobID); forget (ResumeJob clusterID jobID);
    forget (CancelJob clusterID jobID); forget (SkipNode clusterID jobID nodeID);
    forget (ConfirmNode clusterID jobID nodeID) ].
End handlers.
