(* ===== verification/RollingPrograms.v ===== *)
(** * Properties every program of the orchestrator shares

    A property of programs that [Ret] has and [bind] keeps holds of every
    program of the orchestrator once it holds of their calls. The calls that
    matter to such a property are set apart: [plain] ones first, then the
    release of a job and the disabling of rules, which a client proves as it
    needs. The lemmas here are used with the calls a program makes
    ([RollingGuards]) and with an invariant of the tables ([RollingRecords]). *)

From S2P Require Import Prelude GoFloat GoStrings ProxmoxApi Effects Crs DrsRules DrsPlanner DrsExecutor RollingDb.
From S2P Require Import RollingHa RollingOps RollingRelease RollingDrain RollingUpgrade RollingHandlers.

Local Open Scope Z_scope.

(** What a property of programs has to be closed under. *)
Class Closed (good : ∀ A, rprog A → Prop) := {
  good_ret A (a : A) : good A (Ret a);
  good_bind A B (p : rprog A) (k : A → rprog B) : good A p → (∀ a, good B (k a)) → good B (bind p k);
}.

Definition plain_request {A} (r : request A) : bool :=
  match r with RebootNode _ | SetHARuleDisabled _ _ _ => false | _ => true end.

Definition plain_query {A} (q : query A) : bool :=
  match q with SetJobDisabledHARules _ _ => false | _ => true end.

(** The calls that run nothing on a node, reboot nothing and leave HA rules and their record alone. *)
Definition plain {X} (e : Op X) : bool :=
  match e with
  | SSHExecute _ _ => false
  | Pve _ r => plain_request r
  | Query q => plain_query q
  | _ => true
  end.

Create HintDb good.

Section plain.
Context `{LIB : Library} `{MR : MapRange} (good : ∀ A, rprog A → Prop) `{!Closed good}.
Arguments good {A} _.

Lemma for_each_good {A} (l : list A) body : (∀ a, a ∈ l → good (body a)) → good (for_each l body).
Proof.
  intros Hb. induction l as [|a l IH]; simpl; [apply good_ret|].
  apply good_bind; [apply Hb; left|]. intros _. apply IH. intros. apply Hb. by right.
Qed.
Lemma for_range_good {A T R} (l : list A) (body : T → A → rprog (T + R)) t :
  (∀ t a, good (body t a)) → good (for_range l body t).
Proof.
  intros Hb. revert t. induction l; intros t; simpl; [apply good_ret|].
  apply good_bind; [done|]. intros []; [done|apply good_ret].
Qed.

Ltac good_step :=
  lazymatch goal with
  | |- _ (Ret _) => apply good_ret
  | |- _ (bind _ _) => apply good_bind; [|intros]
  | |- _ (for_each _ _) => apply for_each_good; intros
  | |- _ (for_range _ _ _) => apply for_range_good; intros
  | |- _ (if ?b then _ else _) => destruct b
  | |- _ (match ?x with _ => _ end) => destruct x
  | |- _ => solve [eauto with good]
  end.
Ltac good_tac := repeat (good_step; simpl).

Hypothesis plain_good : ∀ X (e : Op X), plain e = true → good (ask e).

Lemma db_good {A} (q : query A) : plain_query q = true → good (db q).
Proof. intros. by apply plain_good. Qed.
Lemma pve_good {A} c (r : request A) : plain_request r = true → good (pve c r).
Proof. intros. by apply plain_good. Qed.
Lemma db__good {A} (q : query A) : plain_query q = true → good (db_ q).
Proof. intros. apply good_bind; [by apply db_good|intros; apply good_ret]. Qed.
#[local] Hint Extern 1 (good (db _)) => (apply db_good; reflexivity) : good.
#[local] Hint Extern 1 (good (db_ _)) => (apply db__good; reflexivity) : good.
#[local] Hint Extern 1 (good (pve _ _)) => (apply pve_good; reflexivity) : good.
#[local] Hint Extern 1 (good (ask _)) => (apply plain_good; reflexivity) : good.

Lemma publishEvent_good cl j a : good (publishEvent cl j a).
Proof. by apply plain_good. Qed.
Lemma auditLog_good cl j a x : good (auditLog cl j a x).
Proof. by apply plain_good. Qed.
Lemma auditObject_good cl j t i a x : good (auditObject cl j t i a x).
Proof. by apply plain_good. Qed.
Lemma waitForTask_good c n u : good (waitForTask c n u).
Proof. unfold waitForTask. good_tac. Qed.
Lemma waitForGuestUnlocked_good c t v e : good (waitForGuestUnlocked c t v e).
Proof. unfold waitForGuestUnlocked. good_tac. Qed.
#[local] Hint Resolve publishEvent_good auditLog_good auditObject_good waitForTask_good
  waitForGuestUnlocked_good : good.

Lemma try_failover_good cl ts : good (try_failover cl ts).
Proof. induction ts; simpl; good_tac. Qed.
Lemma failover_endpoints_good cl : good (failover_endpoints cl).
Proof. unfold failover_endpoints. good_tac. Qed.
#[local] Hint Resolve try_failover_good failover_endpoints_good : good.
Lemma build_client_good cl : good (build_client cl).
Proof. unfold build_client. good_tac. Qed.
#[local] Hint Resolve build_client_good : good.
Lemma createClient_good cl : good (createClient cl).
Proof. unfold createClient. good_tac. Qed.
Lemma new_clients_good cl ts : good (new_clients cl ts).
Proof. induction ts; simpl; good_tac. Qed.
#[local] Hint Resolve createClient_good new_clients_good : good.
Lemma buildFailoverClients_good cl : good (buildFailoverClients cl).
Proof. unfold buildFailoverClients. good_tac. Qed.
#[local] Hint Resolve buildFailoverClients_good : good.

Lemma list_nodes_good cl c :
  good (callWithRetryFailover (λ c, pve c GetNodes) cl c).
Proof.
  assert (∀ l e, good (primary_attempts (λ c, pve c GetNodes) c l e)).
  { intros l. induction l; intros; simpl; good_tac. }
  assert (∀ l e, good (failover_attempts (λ c, pve c GetNodes) l e)).
  { intros l. induction l; intros; simpl; good_tac. }
  unfold callWithRetryFailover. good_tac.
Qed.
#[local] Hint Resolve list_nodes_good : good.

Lemma disableDRSIfEnabled_good j : good (disableDRSIfEnabled j).
Proof. unfold disableDRSIfEnabled. good_tac. Qed.
Lemma pauseNativeCRSIfActive_good c j : good (pauseNativeCRSIfActive c j).
Proof. unfold pauseNativeCRSIfActive, auditCRSChange. good_tac. Qed.
Lemma restoreNativeCRS_good c j a : good (restoreNativeCRS c j a).
Proof. unfold restoreNativeCRS, auditCRSChange. good_tac. Qed.
Lemma persistStoppedPassthrough_good n l : good (persistStoppedPassthrough n l).
Proof. by apply db__good. Qed.
Lemma appendStoppedPassthrough_good n g : good (appendStoppedPassthrough n g).
Proof. unfold appendStoppedPassthrough. good_tac. Qed.
Lemma nodeGuestStatuses_good c n : good (nodeGuestStatuses c n).
Proof. unfold nodeGuestStatuses. good_tac. Qed.
Lemma start_guest_good c n g : good (start_guest c n g).
Proof. unfold start_guest. good_tac. Qed.
#[local] Hint Resolve disableDRSIfEnabled_good pauseNativeCRSIfActive_good restoreNativeCRS_good
  persistStoppedPassthrough_good appendStoppedPassthrough_good nodeGuestStatuses_good
  start_guest_good : good.
Lemma restart_loop_good c j n w p v t l : good (restart_loop c j n w p v t l).
Proof. induction l; simpl; good_tac. Qed.
#[local] Hint Resolve restart_loop_good : good.
Lemma restartStoppedPassthrough_good c j n w p : good (restartStoppedPassthrough c j n w p).
Proof. unfold restartStoppedPassthrough. good_tac. Qed.
#[local] Hint Resolve restartStoppedPassthrough_good : good.

Lemma both_good p q : good p → good q → good (both p q).
Proof. intros. unfold both. good_tac. Qed.
Lemma all_of_good {A} (l : list A) f : (∀ a, good (f a)) → good (all_of l f).
Proof. intros. induction l; simpl; [apply good_ret|]. by apply both_good. Qed.
Lemma release_drs_good j : good (release_drs j).
Proof. unfold release_drs. good_tac. Qed.
Lemma release_guests_good c j b n : good (release_guests c j b n).
Proof. unfold release_guests. good_tac. Qed.
Lemma prune_running_good j : good (prune_running j).
Proof. unfold prune_running. good_tac. Qed.

(** From here on a job is released by [releaseJobState], rules are disabled by [disable_rules], and
    something is known of the jobs the database lists and of the client of such a job. *)
Variable listed : RollingUpdateJob → Prop.
Variable related : Client → RollingUpdateJob → Prop.
Hypothesis release_good : ∀ jobID audit, good (releaseJobState jobID audit).
Hypothesis disable_good : ∀ client job node rules, related client job → good (disable_rules client job node rules).
Hypothesis list_good : ∀ A (k : result go_error (list RollingUpdateJob) → rprog A),
  (∀ e, good (k (Err e))) → (∀ l, Forall listed l → good (k (Ok l))) → good (bind (db ListRunningRollingUpdateJobs) k).
Hypothesis client_good : ∀ job A (k : result go_error Client → rprog A),
  listed job → (∀ e, good (k (Err e))) → (∀ client, related client job → good (k (Ok client))) →
  good (bind (createClient (job_ClusterID job)) k).
#[local] Hint Resolve release_good : good.

Lemma sendJobNotification_good j s m : good (sendJobNotification j s m).
Proof. unfold sendJobNotification. good_tac. Qed.
Lemma sweepPendingCleanups_good : good sweepPendingCleanups.
Proof. unfold sweepPendingCleanups, sweep_job. good_tac. Qed.
Lemma CleanupCancelledJob_good j : good (CleanupCancelledJob j).
Proof. unfold CleanupCancelledJob. good_tac. Qed.
#[local] Hint Resolve sendJobNotification_good sweepPendingCleanups_good CleanupCancelledJob_good
  : good.
Lemma failJob_good j r : good (failJob j r).
Proof. unfold failJob. good_tac. Qed.
#[local] Hint Resolve failJob_good : good.
Lemma failNode_good j n r : good (failNode j n r).
Proof. unfold failNode. good_tac. Qed.
Lemma interrupted_good e : good (interrupted e).
Proof. unfold interrupted. good_tac. Qed.
#[local] Hint Resolve failNode_good interrupted_good : good.

Lemma requireDialableNode_good j n : good (requireDialableNode j n).
Proof. unfold requireDialableNode, Require, Check. good_tac. Qed.
Lemma jobStatus_good j : good (jobStatus j).
Proof. unfold jobStatus. good_tac. Qed.
Lemma guestStatusOnNode_good c n g : good (guestStatusOnNode c n g).
Proof. unfold guestStatusOnNode. good_tac. Qed.
#[local] Hint Resolve requireDialableNode_good jobStatus_good guestStatusOnNode_good : good.
Lemma isJobCancelled_good j : good (isJobCancelled j).
Proof. unfold isJobCancelled. good_tac. Qed.
Lemma isGuestOnNode_good c n g : good (isGuestOnNode c n g).
Proof. unfold isGuestOnNode. good_tac. Qed.
Lemma getGuestStatus_good c n g : good (getGuestStatus c n g).
Proof. unfold getGuestStatus. good_tac. Qed.
Lemma snapshot_vms_good c n l : good (snapshot_vms c n l).
Proof. induction l; simpl; good_tac. Qed.
#[local] Hint Resolve isJobCancelled_good isGuestOnNode_good getGuestStatus_good
  snapshot_vms_good : good.
Lemma snapshotGuests_good c n : good (snapshotGuests c n).
Proof. unfold snapshotGuests. good_tac. Qed.
Lemma verify_attempts_good c n k b e : good (verify_attempts c n k b e).
Proof. revert b e. induction k; intros; simpl; good_tac. Qed.
Lemma verifyNodeDrained_good c n : good (verifyNodeDrained c n).
Proof. apply verify_attempts_good. Qed.
Lemma migrate_attempts_good c s g p k e : good (migrate_attempts c s g p k e).
Proof. revert e. induction k; intros; simpl; unfold migrate_call; good_tac. Qed.
Lemma migrateWithRetry_good c s g p : good (migrateWithRetry c s g p).
Proof. apply migrate_attempts_good. Qed.
Lemma beginUpgrade_good j n : good (beginUpgrade j n).
Proof. unfold beginUpgrade. good_tac. Qed.
#[local] Hint Resolve snapshotGuests_good verifyNodeDrained_good migrateWithRetry_good
  beginUpgrade_good : good.
Lemma completeDrain_good c j n : good (completeDrain c j n).
Proof. unfold completeDrain. good_tac. Qed.
Lemma drain_passthrough_good s c j n g : good (drain_passthrough s c j n g).
Proof. unfold drain_passthrough, shutdown_guest, stop_guest. good_tac. Qed.
Lemma drain_migrate_good s c j n t h r w g : good (drain_migrate s c j n t h r w g).
Proof. unfold drain_migrate. good_tac. Qed.
#[local] Hint Resolve completeDrain_good drain_passthrough_good drain_migrate_good : good.
Lemma start_guest_turn_good c j n t h r w g : good (start_guest_turn c j n t h r w g).
Proof. unfold start_guest_turn. good_tac. Qed.
Lemma resume_guest_turn_good c j n t h r w g : good (resume_guest_turn c j n t h r w g).
Proof. unfold resume_guest_turn. good_tac. Qed.
#[local] Hint Resolve start_guest_turn_good resume_guest_turn_good : good.
Lemma drain_all_good s m turn c j n gs :
  (∀ t h r w g, good (turn t h r w g)) → good (drain_all s m turn c j n gs).
Proof. intros. unfold drain_all. good_tac. Qed.
#[local] Hint Resolve drain_all_good : good.
Lemma remaining_guests_good c n l : good (remaining_guests c n l).
Proof. induction l; simpl; good_tac. Qed.
#[local] Hint Resolve remaining_guests_good : good.
#[local] Hint Resolve disable_good : good.
Lemma advanceDraining_good c j n : good (advanceDraining c j n).
Proof. unfold advanceDraining, resumeDrain. good_tac. Qed.
Lemma startNode_good c j n : related c j → good (startNode c j n).
Proof. intros. unfold startNode, start_drain, begin_drain. good_tac. Qed.
#[local] Hint Resolve advanceDraining_good startNode_good : good.

Lemma advanceUpgrading_good c j n : good (advanceUpgrading c j n).
Proof. unfold advanceUpgrading, upgrade_progress, ssh_config, decrypt_if. good_tac. Qed.
Lemma advanceRebooting_good c j n : good (advanceRebooting c j n).
Proof. unfold advanceRebooting, reboot_elapsed. good_tac. Qed.
Lemma findGuestLocation_good c l g x : good (findGuestLocation c l g x).
Proof. induction l; simpl; unfold on_node; good_tac. Qed.
#[local] Hint Resolve advanceUpgrading_good advanceRebooting_good findGuestLocation_good : good.
Lemma advanceHealthCheck_good c j n : good (advanceHealthCheck c j n).
Proof.
  unfold advanceHealthCheck, restore_stopped_only, restore_all, restore_guest, migrate_back, complete_node.
  good_tac.
Qed.
#[local] Hint Resolve advanceHealthCheck_good : good.
Lemma advanceNode_good c j n : good (advanceNode c j n).
Proof. unfold advanceNode, advanceRestoring. good_tac. Qed.
Lemma failed_node_good l : good (failed_node l).
Proof. induction l; simpl; good_tac. Qed.
Lemma finish_if_done_good j : good (finish_if_done j).
Proof. unfold finish_if_done, rebootPendingSuffix, triggerPostUpgradeCVEScan. good_tac. Qed.
#[local] Hint Resolve advanceNode_good failed_node_good finish_if_done_good : good.
Lemma processJob_good job : listed job → good (processJob job).
Proof.
  intros Hj. unfold processJob. apply good_bind; [good_tac|intros _]. apply client_good; [done|intros e; good_tac|].
  intros client Hc. unfold start_next. good_tac.
Qed.
Lemma Tick_good : good Tick.
Proof.
  unfold Tick. apply list_good; [intros; good_tac|]. intros l Hl.
  apply good_bind; [|intros; good_tac]. apply for_each_good. intros job Hj.
  apply processJob_good. by eapply Forall_forall in Hl.
Qed.
End plain.

(** ** Programs that neither reboot a node nor run a command *)

Definition ordinary_request {A} (r : request A) : Prop := match r with RebootNode _ => False | _ => True end.

Definition ordinary (X : Type) (e : Op X) : Prop :=
  match e with
  | SSHExecute _ _ => False
  | Pve _ r => ordinary_request r
  | _ => True
  end.

Section ordinary.
Context `{LIB : Library} `{MR : MapRange} (good : ∀ A, rprog A → Prop) `{!Closed good}.
Arguments good {A} _.
Hypothesis call_good : ∀ X (e : Op X), ordinary X e → good (ask e).

Lemma ordinary_plain X (e : Op X) : plain e = true → good (ask e).
Proof. intros He. apply call_good. destruct e; try done. by destruct r. Qed.

Lemma query_ordinary {A} (q : query A) : good (db q).
Proof. by apply call_good. Qed.
Lemma query__ordinary {A} (q : query A) : good (db_ q).
Proof. apply good_bind; [apply query_ordinary|intros; apply good_ret]. Qed.
Lemma request_ordinary {A} c (r : request A) : ordinary_request r → good (pve c r).
Proof. intros. by apply call_good. Qed.
#[local] Hint Resolve query_ordinary query__ordinary : good.
#[local] Hint Extern 1 (good (pve _ _)) => (apply request_ordinary; exact I) : good.
#[local] Hint Extern 1 (good (ask _)) => (apply call_good; exact I) : good.
#[local] Hint Extern 2 (good (auditLog _ _ _ _)) => (apply call_good; exact I) : good.
#[local] Hint Extern 2 (good (auditObject _ _ _ _ _ _)) => (apply call_good; exact I) : good.

Ltac ordinary_step :=
  lazymatch goal with
  | |- _ (Ret _) => apply good_ret
  | |- _ (bind _ _) => apply good_bind; [|intros]
  | |- _ (for_each _ _) => apply (for_each_good (@good)); intros
  | |- _ (if ?b then _ else _) => destruct b
  | |- _ (match ?x with _ => _ end) => destruct x
  | |- _ => solve [eauto with good]
  end.
Ltac ordinary_tac := repeat (ordinary_step; simpl).

Lemma recordJobDisabledHARules_ordinary j r : good (recordJobDisabledHARules j r).
Proof. unfold recordJobDisabledHARules. ordinary_tac. Qed.
Lemma disableHARules_ordinary c j n r : good (disableHARules c j n r).
Proof. unfold disableHARules. ordinary_tac. Qed.
Lemma enable_each_ordinary c r : good (enable_each c r).
Proof. induction r; simpl; ordinary_tac. Qed.
#[local] Hint Resolve recordJobDisabledHARules_ordinary disableHARules_ordinary enable_each_ordinary : good.
Lemma releaseRuleRecord_ordinary c j r n a f : (∀ l, good (f l)) → good (releaseRuleRecord c j r n a f).
Proof. intros. unfold releaseRuleRecord, reenableHARulesDetailed. ordinary_tac. Qed.

Lemma release_cluster_ordinary c j r nr ns a : good (release_cluster c j r nr ns a).
Proof.
  unfold release_cluster. repeat apply (both_good (@good)).
  - destruct (job_NativeCrsPaused j); [|apply good_ret].
    apply (restoreNativeCRS_good (@good)), ordinary_plain.
  - destruct r; [apply good_ret|]. apply releaseRuleRecord_ordinary. intros. unfold persistJobDisabledRules.
    ordinary_tac.
  - apply (all_of_good (@good)). intros. apply releaseRuleRecord_ordinary. intros. ordinary_tac.
  - apply good_bind; [apply (prune_running_good (@good)), ordinary_plain|]. intros.
    apply (all_of_good (@good)). intros. apply (release_guests_good (@good)), ordinary_plain.
Qed.
#[local] Hint Resolve release_cluster_ordinary : good.

Lemma releaseJobState_ordinary j a : good (releaseJobState j a).
Proof.
  pose proof (createClient_good (@good) ordinary_plain). pose proof (release_drs_good (@good) ordinary_plain).
  unfold releaseJobState. ordinary_tac.
Qed.
#[local] Hint Resolve releaseJobState_ordinary : good.

Lemma failNode_ordinary j n r : good (failNode j n r).
Proof. apply (failNode_good (@good) ordinary_plain releaseJobState_ordinary). Qed.
#[local] Hint Resolve failNode_ordinary : good.

Lemma disable_rules_ordinary c j n l : good (disable_rules c j n l).
Proof. pose proof (jobStatus_good (@good) ordinary_plain). unfold disable_rules. ordinary_tac. Qed.

Lemma Tick_ordinary : good Tick.
Proof.
  apply (Tick_good (@good) ordinary_plain (λ _, True) (λ _ _, True) releaseJobState_ordinary).
  - intros. apply disable_rules_ordinary.
  - intros A k He Hk. apply good_bind; [apply query_ordinary|]. intros []; [|done]. apply Hk. by apply Forall_true.
  - intros job A k _ He Hk. apply good_bind; [apply (createClient_good (@good)), ordinary_plain|].
    intros []; eauto.
Qed.

Lemma requireDialableNode_ordinary j n : good (requireDialableNode j n).
Proof. apply (requireDialableNode_good (@good) ordinary_plain releaseJobState_ordinary). Qed.
Lemma interrupted_ordinary e : good (interrupted e).
Proof. apply (interrupted_good (@good) ordinary_plain). Qed.
Lemma createClient_ordinary cl : good (createClient cl).
Proof. apply (createClient_good (@good) ordinary_plain). Qed.
Lemma isJobCancelled_ordinary j : good (isJobCancelled j).
Proof. apply (isJobCancelled_good (@good) ordinary_plain). Qed.
Lemma verifyNodeDrained_ordinary c n : good (verifyNodeDrained c n).
Proof. apply (verifyNodeDrained_good (@good) ordinary_plain). Qed.
End ordinary.

(** A program whose calls are all ordinary: it has every property they have. *)
Definition Ordinary {A} (p : rprog A) : Prop :=
  ∀ good, Closed good → (∀ X (e : Op X), ordinary X e → good X (ask e)) → good A p.

#[export] Instance calls_closed (P : ∀ X, Op X → Prop) : Closed (λ A p, calls_ok P (λ _ _ _, True) p (λ _, True)).
Proof.
  constructor; [done|]. intros A B p k Hp Hk. apply calls_bind. eapply calls_mono; [|exact Hp]. eauto.
Qed.

Lemma Ordinary_calls (P : ∀ X, Op X → Prop) {A} (p : rprog A) :
  (∀ X e, ordinary X e → P X e) → Ordinary p → calls_ok P (λ _ _ _, True) p (λ _, True).
Proof.
  intros HP Hp. apply (Hp (λ A p, calls_ok P (λ _ _ _, True) p (λ _, True)) _).
  intros X e He. apply calls_call; [by apply HP|done].
Qed.

Create HintDb ordinary.

Section ordinary_programs.
Context `{LIB : Library} `{MR : MapRange}.

Lemma Ordinary_ask {X} (e : Op X) : ordinary X e → Ordinary (ask e).
Proof. intros He good ? Hc. by apply Hc. Qed.
Lemma Ordinary_db {A} (q : query A) : Ordinary (db q).
Proof. intros good ? Hc. by apply query_ordinary. Qed.
Lemma Ordinary_db_ {A} (q : query A) : Ordinary (db_ q).
Proof. intros good ? Hc. by apply query__ordinary. Qed.
Lemma Ordinary_publishEvent cl j a : Ordinary (publishEvent cl j a).
Proof. by apply Ordinary_ask. Qed.
Lemma Ordinary_failNode j n r : Ordinary (failNode j n r).
Proof. intros good ? Hc. by apply failNode_ordinary. Qed.
Lemma Ordinary_requireDialableNode j n : Ordinary (requireDialableNode j n).
Proof. intros good ? Hc. by apply requireDialableNode_ordinary. Qed.
Lemma Ordinary_interrupted e : Ordinary (interrupted e).
Proof. intros good ? Hc. by apply interrupted_ordinary. Qed.
Lemma Ordinary_createClient cl : Ordinary (createClient cl).
Proof. intros good ? Hc. by apply createClient_ordinary. Qed.
Lemma Ordinary_isJobCancelled j : Ordinary (isJobCancelled j).
Proof. intros good ? Hc. by apply isJobCancelled_ordinary. Qed.
Lemma Ordinary_verifyNodeDrained c n : Ordinary (verifyNodeDrained c n).
Proof. intros good ? Hc. by apply verifyNodeDrained_ordinary. Qed.
Lemma Ordinary_Tick : Ordinary Tick.
Proof. intros good ? Hc. by apply Tick_ordinary. Qed.
End ordinary_programs.

#[export] Hint Resolve Ordinary_db Ordinary_db_ Ordinary_publishEvent Ordinary_failNode
  Ordinary_requireDialableNode Ordinary_interrupted Ordinary_createClient Ordinary_isJobCancelled
  Ordinary_verifyNodeDrained Ordinary_Tick : ordinary.
#[export] Hint Extern 1 (Ordinary (ask _)) => (apply Ordinary_ask; exact I) : ordinary.
