(* ===== verification/RollingExample.v ===== *)
(** * A concrete outside for the orchestrator

    Tables with one job, a cluster of three nodes that answers everything, and
    the runs of the orchestrator against them that the examples and witnesses
    evaluate. *)

From S2P Require Import Prelude GoFloat GoStrings ProxmoxApi Effects Crs DrsRules DrsPlanner DrsExecutor RollingDb.
From S2P Require Import RollingHa RollingOps RollingRelease RollingDrain RollingUpgrade.

Local Open Scope Z_scope.

#[export] Instance example_library : Library :=
  {| library_url := λ _, None; uuid_String := λ _, "uuid"; FormatFloat := λ _, "" |}.
#[export] Instance example_range : MapRange := map_to_list_range.

(** The answers of a healthy cluster: a VM 101 with a passthrough device and a VM
    102 without one run on pve1; HA rule r1 is about 102; every task succeeds. *)
Definition example_guest (vmid : Z) (status : string) : Guest := {|
  g_VMID := vmid; g_Name := "vm"; g_Status := status; g_Template := 0; g_CPU := f0; g_CPUs := 1; g_Mem := 1;
  g_MaxMem := 1; g_NetIn := 0; g_NetOut := 0 |}.
Definition example_entry (name : string) : NodeListEntry :=
  {| ne_Node := name; ne_Status := "online"; ne_MaxCPU := 8; ne_MaxMem := 2 ^ 34 |}.
Definition example_ha_rule : HARuleEntry := {|
  hr_Rule := "r1"; hr_Type := "resource-affinity"; hr_Resources := "vm:102,vm:103"; hr_Nodes := "";
  hr_Strict := 1; hr_Disable := 0; hr_Affinity := "positive" |}.

(** [vms]: the VMs of pve1. *)
Definition healthy_request (vms : list Guest) {A} (r : request A) : result go_error A :=
  match r in request A return result go_error A with
  | GetNodes => Ok (example_entry <$> ["pve1"; "pve2"; "pve3"])
  | GetVMs n => Ok (if bool_decide (n = "pve1") then vms else [])
  | GetContainers _ => Ok []
  | GetVMConfig _ vmid => Ok (if vmid =? 101 then {[ "hostpci0" := CfgString "01:00" ]} else ∅)
  | RefreshNodeAptIndex _ => Ok "UPID:apt"
  | GetNodeAptUpdates _ => Ok ["pve-kernel"]
  | GetNodeStatus _ => Ok 30
  | RebootNode _ => Ok tt
  | GetClusterOptions => Ok (CrsString "ha=static,ha-auto-rebalance=1")
  | SetClusterOptions _ => Ok tt
  | GetHARules => Ok [example_ha_rule]
  | SetHARuleDisabled _ _ _ => Ok tt
  | MigrateVM _ _ _ | MigrateCT _ _ _ => Ok "UPID:migrate"
  | ShutdownVM _ _ | ShutdownCT _ _ | StopVM _ _ | StopCT _ _ | StartVM _ _ | StartCT _ _ => Ok "UPID:power"
  end.

Definition answered_once {T} (v : T) : nat → Attempt T :=
  λ _, {| done_waiting := None; answer := Ok v; done_after := None |}.
Definition stopped_ok : TaskStatus := {| ts_Status := "stopped"; ts_ExitStatus := "OK" |}.

Definition healthy_answer (vms : list Guest) {X} (e : Op X) : X :=
  match e in Op X return X with
  | Query q => Err (errorf "")
  | Pve c r => healthy_request vms r
  | PollTask _ _ _ => {| tp_ticks := [Ok stopped_ok]; tp_shutdown := false; tp_final := Ok stopped_ok |}
  | PollGuest _ => {| gp_ticks := []; gp_shutdown := false |}
  | ListHA _ => {| try_GetHAResources := answered_once []; try_GetHAGroups := answered_once [];
                   try_GetHARules := answered_once [example_ha_rule] |}
  | ReadWorkloads _ => {| rc_GetNodes := Ok []; rc_GetVMs := λ _, Ok []; rc_GetContainers := λ _, Ok [];
                          rc_GetVMConfig := λ _ _, Ok ∅; rc_ListDRSRules := Ok [] |}
  | ListDRSRules _ => Ok []
  | GetNodeByClusterAndName _ _ => Ok true
  | Now => 1000 * minute
  | ShutdownErr => false
  | Sleep _ => false
  | CtxSleep _ => None
  | CacheGet cl => Some (Ok {| cl_cluster := cl; cl_config := {| cf_BaseURL := "https://pve1:8006";
      cf_TokenID := ""; cf_TokenSecret := ""; cf_TLSFingerprint := ""; cf_Timeout := 0 |} |})
  | NewClient cl cfg => Ok {| cl_cluster := cl; cl_config := cfg |}
  | GetCluster cl => Err (errorf "")
  | ListNodeEndpoints _ => Ok []
  | Decrypt s => Ok s
  | GetClusterSSHCredentials _ => Ok {| sc_Username := "root"; sc_Port := 22; sc_EncryptedPassword := "";
                                        sc_EncryptedPrivateKey := "key" |}
  | GetNodeAddressByName _ _ => Ok "10.0.0.1"
  | GetSSHKnownHost _ _ _ => Ok "ssh-ed25519 AAAA"
  | ParseAuthorizedKey k => Ok k
  | SSHExecute _ _ => Ok {| sr_Stdout := "NO_REBOOT"; sr_ExitCode := 0 |}
  | GetNotificationChannelEnabled _ => Err (errorf "")
  | RegistryGet _ => false
  | GetLatestCVEScan _ => Ok "completed"
  | ScanCluster _ => Ok tt
  | HasScanner => false
  | HasRegistry => false
  | DispatcherSend _ _ _ => Ok tt
  | PublishEvent _ _ _ => tt
  | AuditLog _ _ _ _ => tt
  | AuditObject _ _ _ _ _ _ => tt
  | Go _ => tt
  end.

(** The database answers every query; everything else answers as [free] says. *)
Definition answering (free : ∀ X, Op X → X) (X : Type) (e : Op X) (s : Sys) : X * Sys :=
  match e in Op X return X * Sys with
  | Query q => let '(d, x) := exec_query q (1000 * minute) (tables s) in
               (x, {| tables := d; log := Ev (Query q) x :: log s |})
  | e => (free _ e, {| tables := tables s; log := Ev e (free _ e) :: log s |})
  end.

Definition healthy (vms : list Guest) : ∀ X, Op X → Sys → X * Sys := answering (@healthy_answer vms).

Lemma healthy_step vms X (e : Op X) s : step e s (healthy vms X e s).1 (healthy vms X e s).2.
Proof.
  destruct e; simpl; try done.
  destruct (exec_query q (1000 * minute) (tables s)) as [d x] eqn:He. simpl. split; [|done]. left. eauto.
Qed.

Lemma healthy_log vms X (e : Op X) s : log (healthy vms X e s).2 = Ev e (healthy vms X e s).1 :: log s.
Proof. apply (proj2 (healthy_step vms X e s)). Qed.

Definition example_job (drain : bool) : RollingUpdateJob := {|
  job_ID := 7; job_ClusterID := 1; job_Status := "running"; job_Parallelism := 1;
  job_RebootAfterUpdate := true; job_AutoRestoreGuests := true; job_PackageExcludes := ["pve-kernel"];
  job_FailureReason := ""; job_StartedAt := Some 0; job_CompletedAt := None; job_CreatedAt := 0;
  job_UpdatedAt := 0; job_AutoUpgrade := true; job_DrsWasEnabled := false; job_NotifyChannelID := None;
  job_NativeCrsPaused := false; job_SavedCrsConfig := ""; job_DisabledHaRules := SqlNull;
  job_CleanupPending := false; job_CleanupAttempts := 0; job_DrainGuests := drain |}.

Definition example_row (id : uuid) (name : string) : RollingUpdateNode := {|
  node_ID := id; node_JobID := 7; node_NodeName := name; node_NodeOrder := id; node_Step := "pending";
  node_FailureReason := ""; node_PackagesJson := JsonList []; node_GuestsJson := JsonList [];
  node_DrainStartedAt := None; node_DrainCompletedAt := None; node_UpgradeConfirmedAt := None;
  node_RebootStartedAt := None; node_RebootCompletedAt := None; node_HealthCheckAt := None;
  node_RestoreStartedAt := None; node_RestoreCompletedAt := None; node_CreatedAt := 0; node_UpdatedAt := 0;
  node_UpgradeStartedAt := None; node_UpgradeCompletedAt := None; node_UpgradeOutput := "";
  node_DisabledHaRules := JsonList []; node_SkipReason := ""; node_StoppedPassthroughJson := JsonList [];
  node_RebootRequired := false |}.

Definition example_tables (drain : bool) : DB := {|
  jobs := [example_job drain]; nodes := [example_row 11 "pve1"; example_row 12 "pve2"];
  drs_enabled := {[ 1 := true ]} |}.
Definition example_sys (drain : bool) : Sys := {| tables := example_tables drain; log := [] |}.

Definition example_vms : list Guest := [example_guest 101 "running"; example_guest 102 "running"].

(** One tick over a draining job: pve1 is drained as far as the listing, which
    never changes here, lets it: the node fails and everything is released. *)
Definition example_tick (drain : bool) : Sys := (run (healthy example_vms) Tick (example_sys drain)).2.

Example example_tick_in_place :
  node_Step <$> nodes (tables (example_tick false)) = ["upgrading"; "pending"].
Proof. by vm_compute. Qed.

Example example_tick_drained :
  (node_Step <$> nodes (tables (example_tick true)), job_Status <$> jobs (tables (example_tick true))) =
  (["failed"; "pending"], ["failed"]).
Proof. by vm_compute. Qed.
