(* ===== verification/RollingSafety.v ===== *)
(** * What the orchestrator never does

    Over any interleaving of ticks, goroutines, operators, restarts and failed
    calls: which nodes the orchestrator contacts, and that a job that upgrades in
    place moves and stops nothing. The programs are judged by their calls
    ([calls_ok]), so nothing is assumed about what happens between two of
    them. *)

From S2P Require Import Prelude GoFloat GoStrings ProxmoxApi Effects Crs DrsRules DrsPlanner DrsExecutor RollingDb.
From S2P Require Import RollingHa RollingOps RollingRelease RollingDrain RollingUpgrade RollingHandlers RollingExample.

Local Open Scope Z_scope.

(** ** Names and disruption *)

(** The nodes a request names in its path or parameters. *)
Definition request_nodes {A} (r : request A) : list string :=
  match r with
  | GetVMs n | GetContainers n | GetVMConfig n _ | RefreshNodeAptIndex n | GetNodeAptUpdates n
  | GetNodeStatus n | RebootNode n | ShutdownVM n _ | ShutdownCT n _ | StopVM n _ | StopCT n _
  | StartVM n _ | StartCT n _ => [n]
  | MigrateVM n _ p | MigrateCT n _ p => [n; mp_Target p]
  | _ => []
  end.

(** Requests that move, stop or start a guest, or take an HA rule out of force. *)
Definition disrupts {A} (r : request A) : bool :=
  match r with
  | MigrateVM _ _ _ | MigrateCT _ _ _ | ShutdownVM _ _ | ShutdownCT _ _ | StopVM _ _ | StopCT _ _
  | StartVM _ _ | StartCT _ _ => true
  | SetHARuleDisabled _ _ disabled => disabled
  | _ => false
  end.

Create HintDb calls.

Section attributes.
Context `{LIB : Library} `{MR : MapRange}.

(** The columns of a job and of a node that no query changes, by identifier. *)
Variables (cluster_of : uuid → uuid) (drains : uuid → bool) (job_of : uuid → uuid) (name_of : uuid → string).
(** The nodes of a cluster that the orchestrator has reason to believe in. *)
Variable known : uuid → string → Prop.

Definition job_ok (j : RollingUpdateJob) : Prop :=
  job_ClusterID j = cluster_of (job_ID j) ∧ job_DrainGuests j = drains (job_ID j).

(** A node's row that records no guest. *)
Definition guestless (n : RollingUpdateNode) : Prop :=
  Unmarshal_ignored (node_GuestsJson n) = [] ∧ Unmarshal_ignored (node_StoppedPassthroughJson n) = [].

Definition node_cluster (id : uuid) : uuid := cluster_of (job_of id).

Definition node_ok (n : RollingUpdateNode) : Prop :=
  node_JobID n = job_of (node_ID n) ∧ node_NodeName n = name_of (node_ID n) ∧
  (drains (job_of (node_ID n)) = false → guestless n ∧ node_Step n ≠ "draining") ∧
  (¬ guestless n → known (node_cluster (node_ID n)) (name_of (node_ID n))).

(** A cluster one of whose jobs drains. *)
Definition drained_cluster (cl : uuid) : Prop := ∃ id, cluster_of id = cl ∧ drains id = true.

Definition may_record {A} (id : uuid) (c : column A) : Prop :=
  Unmarshal_ignored c = [] ∨
  drains (job_of id) = true ∧ known (node_cluster id) (name_of id).

Definition query_fine {A} (q : query A) : Prop :=
  match q with
  | SetNodeDrainStarted id => drains (job_of id) = true
  | SetNodeGuestsJSON id c => may_record id c
  | SetNodeStoppedPassthrough id c => may_record id c
  | _ => True
  end.

(** The arguments of a handler: a job, one of its nodes, a client of the job's
    cluster. *)
Record handler_args (client : Client) (job : RollingUpdateJob) (node : RollingUpdateNode) : Prop := {
  ha_job : job_ok job;
  ha_node : node_ok node;
  ha_of : node_JobID node = job_ID job;
  ha_client : cl_cluster client = job_ClusterID job;
}.

Definition fine (X : Type) (e : Op X) : Prop :=
  match e with
  | Query q => query_fine q
  | Pve c r => (∀ n, n ∈ request_nodes r → known (cl_cluster c) n) ∧
               (disrupts r = true → drained_cluster (cl_cluster c))
  | PollTask c node _ => known (cl_cluster c) node
  | Go (RunSSHUpgrade job node client _) =>
      handler_args client job node ∧ known (cl_cluster client) (node_NodeName node)
  | _ => True
  end.

Definition query_answer {A} (q : query A) (x : result go_error A) : Prop :=
  match q in query A return result go_error A → Prop with
  | GetRollingUpdateJob id => λ x, match x with Ok j => job_ok j ∧ job_ID j = id | Err _ => True end
  | ListRunningRollingUpdateJobs | ListRollingUpdateJobsNeedingCleanup => λ x,
      match x with Ok l => ∀ j, j ∈ l → job_ok j | Err _ => True end
  | GetRollingUpdateNode id => λ x, match x with Ok n => node_ok n ∧ node_ID n = id | Err _ => True end
  | ListRollingUpdateNodes jobID => λ x,
      match x with Ok l => ∀ n, n ∈ l → node_ok n ∧ node_JobID n = jobID | Err _ => True end
  | GetNextPendingNode jobID => λ x,
      match x with Ok n => node_ok n ∧ node_JobID n = jobID | Err _ => True end
  | _ => λ _, True
  end x.

(** What the answers of a call say: rows keep their attributes, and the names the
    database confirms and Proxmox lists are known. *)
Definition believed (X : Type) (e : Op X) (x : X) : Prop :=
  match e in Op X return X → Prop with
  | GetNodeByClusterAndName cl n => λ x, match x with Ok true => known cl n | _ => True end
  | Pve c r =>
      match r in request A return result go_error A → Prop with
      | GetNodes => λ x, match x with
                         | Ok l => ∀ e, e ∈ l → known (cl_cluster c) (ne_Node e)
                         | Err _ => True
                         end
      | _ => λ _, True
      end
  | _ => λ _, True
  end x.

Definition trusted (X : Type) (e : Op X) (x : X) : Prop :=
  believed X e x ∧
  match e in Op X return X → Prop with
  | Query q => λ x, query_answer q x
  | CacheGet cl => λ x, match x with Some (Ok c) => cl_cluster c = cl | _ => True end
  | NewClient cl cfg => λ x, match x with Ok c => cl_cluster c = cl | Err _ => True end
  | _ => λ _, True
  end x.

Abbreviation calls p Q := (calls_ok fine trusted p Q).
Abbreviation any := (λ _, True).

(** ** Automation *)

Lemma calls_ask {X} (e : Op X) (Q : X → Prop) : fine X e → (∀ x, trusted X e x → Q x) → calls (ask e) Q.
Proof. apply calls_call. Qed.

Lemma calls_db {A} (q : query A) (Q : result go_error A → Prop) :
  query_fine q → (∀ x, query_answer q x → Q x) → calls (db q) Q.
Proof. intros Hq HQ. apply calls_call; [done|]. intros x [_ Hx]. by apply HQ. Qed.

Lemma calls_db_ {A} (q : query A) : query_fine q → calls (db_ q) any.
Proof. intros Hq. apply calls_bind, calls_call; [done|]. done. Qed.

Lemma calls_pve {A} (c : Client) (r : request A) (Q : result go_error A → Prop) :
  (∀ n, n ∈ request_nodes r → known (cl_cluster c) n) →
  (disrupts r = true → drained_cluster (cl_cluster c)) →
  (∀ x, believed _ (Pve c r) x → Q x) → calls (pve c r) Q.
Proof. intros Hn Hd HQ. apply calls_call; [done|]. intros x [Hx _]. by apply HQ. Qed.

Ltac names :=
  let n := fresh "n" in let Hn := fresh "Hn" in
  intros n Hn; simpl in Hn; rewrite ?elem_of_cons, ?elem_of_nil in Hn;
  repeat destruct Hn as [->|Hn]; try (by destruct Hn); eauto.

Ltac calls_step :=
  lazymatch goal with
  | |- calls_ok _ _ (Ret _) _ => apply calls_ret
  | |- calls_ok _ _ (bind _ _) _ => apply calls_bind
  | |- calls_ok _ _ (db_ _) _ => eapply calls_mono; [|apply calls_db_; simpl; eauto]; intros [] _
  | |- calls_ok _ _ (db _) _ => apply calls_db; [simpl; eauto|let x := fresh "x" in intros x ?]
  | |- calls_ok _ _ (pve _ _) _ =>
      apply calls_pve; [by names|try done; by eauto|let x := fresh "x" in intros x ?]
  | |- calls_ok _ _ (ask _) _ => apply calls_ask; [simpl; eauto|let x := fresh "x" in intros x [? ?]]
  | |- calls_ok _ _ (for_each _ _) _ => apply calls_for_each; [|let a := fresh "a" in intros a ?]
  | |- calls_ok _ _ (if ?b then _ else _) _ => destruct b eqn:?
  | |- calls_ok _ _ (match ?x with _ => _ end) _ => destruct x eqn:?
  | |- calls_ok _ _ _ _ => eapply calls_mono; [|solve [eauto 4 with calls]]; simpl
  end.
Ltac calls_tac := repeat (calls_step; intros; simpl in *); try done; eauto.

(** ** The parts that name no node *)

Lemma publishEvent_ok cl j a : calls (publishEvent cl j a) any.
Proof. unfold publishEvent. calls_tac. Qed.
Lemma auditLog_ok cl j a x : calls (auditLog cl j a x) any.
Proof. unfold auditLog. calls_tac. Qed.
Lemma auditObject_ok cl j t i a x : calls (auditObject cl j t i a x) any.
Proof. unfold auditObject. calls_tac. Qed.
Hint Resolve publishEvent_ok auditLog_ok auditObject_ok : calls.

Lemma waitForTask_ok c node upid : known (cl_cluster c) node → calls (waitForTask c node upid) any.
Proof. intros. unfold waitForTask. calls_tac. Qed.
Lemma waitForGuestUnlocked_ok c t v e : calls (waitForGuestUnlocked c t v e) any.
Proof. unfold waitForGuestUnlocked. calls_tac. Qed.
Hint Resolve waitForTask_ok waitForGuestUnlocked_ok : calls.

Definition client_of (cl : uuid) (r : result go_error Client) : Prop :=
  match r with Ok c => cl_cluster c = cl | Err _ => True end.

Lemma try_failover_ok cl targets :
  calls (try_failover cl targets) (λ r, match r with Some c => cl_cluster c = cl | None => True end).
Proof. induction targets as [|t targets IH]; simpl; [done|]. calls_tac. Qed.
Hint Resolve try_failover_ok : calls.

Lemma failover_endpoints_ok cl : calls (failover_endpoints cl) any.
Proof. unfold failover_endpoints. calls_tac. Qed.
Hint Resolve failover_endpoints_ok : calls.

Lemma build_client_ok cl : calls (build_client cl) (client_of cl).
Proof. unfold build_client. calls_tac. Qed.
Hint Resolve build_client_ok : calls.

Lemma createClient_ok cl : calls (createClient cl) (client_of cl).
Proof. unfold createClient. calls_tac. Qed.
Hint Resolve createClient_ok : calls.

(** ** Facts about the arguments *)

Lemma handler_cluster client job node :
  handler_args client job node → node_cluster (node_ID node) = cl_cluster client.
Proof.
  intros [[Hc _] (Hj & _) Ho Hcl]. unfold node_cluster. by rewrite <-Hj, Ho, <-Hc, <-Hcl.
Qed.

Lemma handler_drains client job node :
  handler_args client job node → drains (job_of (node_ID node)) = job_DrainGuests job.
Proof. intros [[_ Hd] (Hj & _) Ho _]. by rewrite <-Hj, Ho, <-Hd. Qed.

Lemma handler_drained client job node :
  handler_args client job node → job_DrainGuests job = true → drained_cluster (cl_cluster client).
Proof.
  intros [[Hc Hd] _ _ Hcl] Ht. exists (job_ID job). by rewrite <-Hc, <-Hd, Hcl.
Qed.

Lemma handler_record {A} client job node (c : column A) :
  handler_args client job node → job_DrainGuests job = true →
  known (cl_cluster client) (node_NodeName node) → may_record (node_ID node) c.
Proof.
  intros H Ht Hk. right. rewrite (handler_drains _ _ _ H), (handler_cluster _ _ _ H).
  destruct (ha_node _ _ _ H) as (_ & <- & _). done.
Qed.
Hint Resolve handler_drained handler_record : calls.

(** A node with passthrough guests to restart was drained. *)
Lemma stopped_drained client job node :
  handler_args client job node → stoppedPassthroughFor node ≠ [] →
  job_DrainGuests job = true ∧ known (cl_cluster client) (node_NodeName node).
Proof.
  intros H Hs. assert (¬ guestless node) as Hg.
  { intros [Hg Hp]. apply Hs. unfold stoppedPassthroughFor.
    destruct (node_StoppedPassthroughJson node); simpl in *; subst; try done.
    destruct (_ || _); [done|]. by rewrite Hg. }
  destruct (ha_node _ _ _ H) as (_ & Hn & Hi & Hk). split.
  - rewrite <-(handler_drains _ _ _ H). destruct (drains _) eqn:Hd; [done|]. by destruct (Hi eq_refl).
  - rewrite Hn, <-(handler_cluster _ _ _ H). by apply Hk.
Qed.

(** ** Releasing *)

Lemma recordJobDisabledHARules_ok id rules : calls (recordJobDisabledHARules id rules) any.
Proof. unfold recordJobDisabledHARules. calls_tac. Qed.
Hint Resolve recordJobDisabledHARules_ok : calls.

Lemma persistJobDisabledRules_ok id rules : calls (persistJobDisabledRules id rules) any.
Proof. unfold persistJobDisabledRules. calls_tac. Qed.

Lemma enable_each_ok client rules : calls (enable_each client rules) any.
Proof. induction rules as [|r rules IH]; simpl; calls_tac. Qed.
Hint Resolve enable_each_ok : calls.

Lemma releaseRuleRecord_ok client job rules name audit persist :
  (∀ l, calls (persist l) any) → calls (releaseRuleRecord client job rules name audit persist) any.
Proof.
  intros Hp. unfold releaseRuleRecord, reenableHARulesDetailed. calls_tac.
Qed.

Lemma restoreNativeCRS_ok client job audit : calls (restoreNativeCRS client job audit) any.
Proof. unfold restoreNativeCRS, auditCRSChange. calls_tac. Qed.

Lemma nodeGuestStatuses_ok client name :
  known (cl_cluster client) name → calls (nodeGuestStatuses client name) any.
Proof. intros. unfold nodeGuestStatuses. calls_tac. Qed.
Hint Resolve nodeGuestStatuses_ok : calls.

Lemma start_guest_ok client name guest :
  known (cl_cluster client) name → drained_cluster (cl_cluster client) →
  calls (start_guest client name guest) any.
Proof. intros. unfold start_guest. calls_tac. Qed.
Hint Resolve start_guest_ok : calls.

Lemma restart_loop_ok client job node wait prune vs cs l :
  known (cl_cluster client) (node_NodeName node) → drained_cluster (cl_cluster client) →
  calls (restart_loop client job node wait prune vs cs l) any.
Proof. intros Hk Hd. induction l as [|g l IH]; simpl; calls_tac. Qed.
Hint Resolve restart_loop_ok : calls.

Lemma restartStoppedPassthrough_ok client job node wait prune :
  handler_args client job node → calls (restartStoppedPassthrough client job node wait prune) any.
Proof.
  intros H. unfold restartStoppedPassthrough, persistStoppedPassthrough.
  destruct (stoppedPassthroughFor node) as [|g l] eqn:Hs.
  { rewrite bool_decide_true by done. rewrite andb_false_r. calls_tac. }
  assert (stoppedPassthroughFor node ≠ []) as Hn by by rewrite Hs.
  destruct (stopped_drained _ _ _ H Hn) as [Hd Hk].
  assert (drained_cluster (cl_cluster client)) by eauto with calls.
  assert (∀ c : column GuestSnapshot, may_record (node_ID node) c) by eauto with calls.
  calls_tac.
Qed.
Hint Resolve restartStoppedPassthrough_ok : calls.

Lemma both_ok p q : calls p any → calls q any → calls (both p q) any.
Proof.
  intros Hp Hq. unfold both. apply calls_bind. eapply calls_mono; [|exact Hp]. intros x _.
  apply calls_bind. by eapply calls_mono; [|exact Hq].
Qed.

Lemma all_of_ok {A} (l : list A) f : (∀ a, a ∈ l → calls (f a) any) → calls (all_of l f) any.
Proof.
  intros H. induction l as [|a l IH]; simpl; [by apply calls_ret|].
  apply both_ok; [apply H; left|apply IH; intros; apply H; by right].
Qed.

Lemma release_drs_ok job : calls (release_drs job) any.
Proof. unfold release_drs. calls_tac. Qed.
Hint Resolve release_drs_ok : calls.

Lemma prune_running_ok job : calls (prune_running job) any.
Proof. unfold prune_running. calls_tac. Qed.
Hint Resolve prune_running_ok : calls.

Lemma release_cluster_ok client job rules rs ss audit :
  (∀ n, n ∈ ss → handler_args client job n) →
  calls (release_cluster client job rules rs ss audit) any.
Proof.
  intros Hs. unfold release_cluster.
  repeat apply both_ok; calls_tac.
  - apply restoreNativeCRS_ok.
  - apply releaseRuleRecord_ok, persistJobDisabledRules_ok.
  - apply all_of_ok. intros n _. apply releaseRuleRecord_ok. intros l'. calls_tac.
  - apply all_of_ok. intros n Hn. unfold release_guests. specialize (Hs n Hn). calls_tac.
Qed.

Lemma releaseJobState_ok id audit : calls (releaseJobState id audit) any.
Proof.
  unfold releaseJobState. calls_tac.
  eapply calls_mono; [|apply release_cluster_ok]; intros; calls_tac.
  match goal with H : _ ∈ List.filter _ _ |- _ => apply elem_of_bfilter in H as [Hin _] end.
  destruct H as [Hj <-]. destruct (H0 _ Hin). by constructor.
Qed.
Hint Resolve releaseJobState_ok : calls.

Lemma sweepPendingCleanups_ok : calls sweepPendingCleanups any.
Proof. unfold sweepPendingCleanups, sweep_job. calls_tac. Qed.
Hint Resolve sweepPendingCleanups_ok : calls.

Lemma CleanupCancelledJob_ok id : calls (CleanupCancelledJob id) any.
Proof. unfold CleanupCancelledJob. calls_tac. Qed.
Hint Resolve CleanupCancelledJob_ok : calls.

Lemma sendJobNotification_ok job st msg : calls (sendJobNotification job st msg) any.
Proof. unfold sendJobNotification. calls_tac. Qed.
Hint Resolve sendJobNotification_ok : calls.

Lemma failJob_ok job reason : calls (failJob job reason) any.
Proof. unfold failJob. calls_tac. Qed.
Hint Resolve failJob_ok : calls.

Lemma failNode_ok job node reason : calls (failNode job node reason) any.
Proof. unfold failNode. calls_tac. Qed.
Hint Resolve failNode_ok : calls.

Lemma interrupted_ok e : calls (interrupted e) any.
Proof. unfold interrupted. calls_tac. Qed.
Hint Resolve interrupted_ok : calls.

(** ** Draining *)

(** After the membership check, the name is known. *)
Lemma requireDialableNode_ok client job node :
  handler_args client job node →
  calls (requireDialableNode job node)
    (λ r, r = None → known (cl_cluster client) (node_NodeName node)).
Proof.
  intros H. unfold requireDialableNode, Require, Check. rewrite (ha_client _ _ _ H). calls_tac.
  by destruct x as [[]|].
Qed.
Hint Resolve requireDialableNode_ok : calls.

Lemma isJobCancelled_ok id : calls (isJobCancelled id) any.
Proof. unfold isJobCancelled, jobStatus. calls_tac. Qed.
Lemma jobStatus_ok id : calls (jobStatus id) any.
Proof. unfold jobStatus. calls_tac. Qed.
Hint Resolve isJobCancelled_ok jobStatus_ok : calls.

Lemma guestStatusOnNode_ok client name g :
  known (cl_cluster client) name → calls (guestStatusOnNode client name g) any.
Proof. intros. unfold guestStatusOnNode. calls_tac. Qed.
Hint Resolve guestStatusOnNode_ok : calls.

Lemma isGuestOnNode_ok client name g :
  known (cl_cluster client) name → calls (isGuestOnNode client name g) any.
Proof. intros. unfold isGuestOnNode. calls_tac. Qed.
Lemma getGuestStatus_ok client name g :
  known (cl_cluster client) name → calls (getGuestStatus client name g) any.
Proof. intros. unfold getGuestStatus. calls_tac. Qed.
Hint Resolve isGuestOnNode_ok getGuestStatus_ok : calls.

Lemma snapshot_vms_ok client name vms :
  known (cl_cluster client) name → calls (snapshot_vms client name vms) any.
Proof. intros Hk. induction vms as [|vm vms IH]; simpl; calls_tac. Qed.
Hint Resolve snapshot_vms_ok : calls.

Lemma snapshotGuests_ok client name :
  known (cl_cluster client) name → calls (snapshotGuests client name) any.
Proof. intros. unfold snapshotGuests. calls_tac. Qed.
Hint Resolve snapshotGuests_ok : calls.

Lemma verify_attempts_ok client name n first e :
  known (cl_cluster client) name → calls (verify_attempts client name n first e) any.
Proof. intros Hk. revert first e. induction n as [|n IH]; intros; simpl; calls_tac. Qed.
Lemma verifyNodeDrained_ok client name :
  known (cl_cluster client) name → calls (verifyNodeDrained client name) any.
Proof. apply verify_attempts_ok. Qed.
Hint Resolve verifyNodeDrained_ok : calls.

Lemma migrate_call_ok client source g params :
  known (cl_cluster client) source → known (cl_cluster client) (mp_Target params) →
  drained_cluster (cl_cluster client) → calls (migrate_call client source g params) any.
Proof. intros. unfold migrate_call. calls_tac. Qed.
Hint Resolve migrate_call_ok : calls.

Lemma migrate_attempts_ok client source g params n e :
  known (cl_cluster client) source → known (cl_cluster client) (mp_Target params) →
  drained_cluster (cl_cluster client) → calls (migrate_attempts client source g params n e) any.
Proof. intros Hs Ht Hd. revert e. induction n as [|n IH]; intros; simpl; calls_tac. Qed.
Lemma migrateWithRetry_ok client source g params :
  known (cl_cluster client) source → known (cl_cluster client) (mp_Target params) →
  drained_cluster (cl_cluster client) → calls (migrateWithRetry client source g params) any.
Proof. apply migrate_attempts_ok. Qed.
Hint Resolve migrateWithRetry_ok : calls.

Lemma beginUpgrade_ok job node : calls (beginUpgrade job node) any.
Proof. unfold beginUpgrade. calls_tac. Qed.
Hint Resolve beginUpgrade_ok : calls.

Lemma completeDrain_ok client job node :
  known (cl_cluster client) (node_NodeName node) → calls (completeDrain client job node) any.
Proof. intros. unfold completeDrain. calls_tac. Qed.
Hint Resolve completeDrain_ok : calls.

Section one_drain.
Variables (client : Client) (job : RollingUpdateJob) (node : RollingUpdateNode).
Hypotheses (Hargs : handler_args client job node)
  (Hknown : known (cl_cluster client) (node_NodeName node))
  (Hdrains : job_DrainGuests job = true).

Lemma appendStoppedPassthrough_ok g : calls (appendStoppedPassthrough (node_ID node) g) any.
Proof. unfold appendStoppedPassthrough. calls_tac. by eapply handler_record. Qed.
Hint Resolve appendStoppedPassthrough_ok : calls.

Lemma this_drained : drained_cluster (cl_cluster client).
Proof. by eapply handler_drained. Qed.
Hint Resolve this_drained : calls core.

Lemma shutdown_guest_ok g : calls (shutdown_guest client (node_NodeName node) g) any.
Proof. unfold shutdown_guest. calls_tac. Qed.
Lemma stop_guest_ok g upid : calls (stop_guest client (node_NodeName node) g upid) any.
Proof. unfold stop_guest. calls_tac. Qed.
Hint Resolve shutdown_guest_ok stop_guest_ok : calls.

Lemma drain_passthrough_ok prefix g : calls (drain_passthrough prefix client job node g) any.
Proof. unfold drain_passthrough. calls_tac. Qed.
Hint Resolve drain_passthrough_ok : calls.

Lemma drain_migrate_ok prefix targets ha rules wls g :
  (∀ t, t ∈ targets → known (cl_cluster client) t) →
  calls (drain_migrate prefix client job node targets ha rules wls g) any.
Proof.
  intros Ht. unfold drain_migrate.
  destruct (SelectTarget _ targets ha rules wls) as [target|e] eqn:Hsel; [|calls_tac].
  assert (known (cl_cluster client) target).
  { apply Ht. by eapply SelectTarget_candidate. }
  calls_tac.
Qed.
Hint Resolve drain_migrate_ok : calls.

Lemma drain_all_ok prefix no_targets turn guests :
  (∀ targets ha rules wls g, (∀ t, t ∈ targets → known (cl_cluster client) t) →
     calls (turn targets ha rules wls g) any) →
  calls (drain_all prefix no_targets turn client job node guests) any.
Proof.
  intros Ht. unfold drain_all. calls_tac.
  apply calls_for_range; [intros; calls_tac|]. intros g wls _.
  eapply calls_mono; [|apply Ht]; [intros [] _; calls_tac|].
  intros t Htt. rewrite <-Heql in Htt. unfold online_targets in Htt.
  apply list_elem_of_fmap in Htt as (e & -> & He). apply elem_of_bfilter in He as [He _]. eauto.
Qed.

Lemma resumeDrain_ok guests : calls (resumeDrain client job node guests) any.
Proof.
  unfold resumeDrain. calls_tac. apply drain_all_ok. intros. unfold resume_guest_turn. calls_tac.
Qed.
Hint Resolve resumeDrain_ok : calls.

Lemma disable_rules_ok rules : calls (disable_rules client job node rules) any.
Proof. unfold disable_rules, disableHARules. calls_tac. Qed.
Hint Resolve disable_rules_ok : calls.

Lemma start_drain_ok : calls (start_drain client job node) any.
Proof.
  assert (∀ c : column GuestSnapshot, may_record (node_ID node) c) by (intros; by eapply handler_record).
  assert (drains (job_of (node_ID node)) = true) by (by rewrite (handler_drains _ _ _ Hargs)).
  unfold start_drain, begin_drain. calls_tac.
  apply drain_all_ok. intros. unfold start_guest_turn. calls_tac.
Qed.
End one_drain.
Hint Resolve resumeDrain_ok start_drain_ok : calls.

Lemma remaining_guests_ok client name guests :
  known (cl_cluster client) name → calls (remaining_guests client name guests) any.
Proof. intros Hk. induction guests as [|g guests IH]; simpl; calls_tac. Qed.
Hint Resolve remaining_guests_ok : calls.

(** A node of an in-place job is never in the step draining. *)
Lemma draining_drains client job node :
  handler_args client job node → node_Step node = "draining" → job_DrainGuests job = true.
Proof.
  intros H Hs. rewrite <-(handler_drains _ _ _ H). destruct (drains _) eqn:Hd; [done|].
  destruct (ha_node _ _ _ H) as (_ & _ & Hi & _). by destruct (Hi Hd).
Qed.

Lemma advanceDraining_ok client job node :
  handler_args client job node → known (cl_cluster client) (node_NodeName node) →
  node_Step node = "draining" → calls (advanceDraining client job node) any.
Proof.
  intros H Hk Hs. pose proof (draining_drains _ _ _ H Hs).
  unfold advanceDraining. calls_tac.
Qed.

Lemma startNode_ok client job node :
  handler_args client job node → calls (startNode client job node) any.
Proof.
  intros H. unfold startNode. calls_tac.
  all: apply negb_false_iff in Heqb; eauto with calls.
Qed.
Hint Resolve advanceDraining_ok startNode_ok : calls.

(** ** Upgrading and restoring *)

Lemma ssh_config_ok job node : calls (ssh_config job node) any.
Proof. unfold ssh_config, decrypt_if. calls_tac. Qed.
Lemma upgrade_progress_ok node : calls (upgrade_progress node) any.
Proof. unfold upgrade_progress. calls_tac. Qed.
Hint Resolve ssh_config_ok upgrade_progress_ok : calls.

Lemma advanceUpgrading_ok client job node :
  handler_args client job node → known (cl_cluster client) (node_NodeName node) →
  calls (advanceUpgrading client job node) any.
Proof. intros. unfold advanceUpgrading. calls_tac. Qed.

Lemma upgradeHeartbeat_ok id n : calls (upgradeHeartbeat id n) any.
Proof. induction n as [|n IH]; simpl; calls_tac. Qed.

Lemma reboot_wanted_ok job cfg : calls (reboot_wanted job cfg) any.
Proof. unfold reboot_wanted. calls_tac. Qed.
Hint Resolve reboot_wanted_ok : calls.

Lemma finish_upgrade_ok client job node b :
  known (cl_cluster client) (node_NodeName node) → calls (finish_upgrade client job node b) any.
Proof. intros. unfold finish_upgrade. calls_tac. Qed.
Hint Resolve finish_upgrade_ok : calls.

Lemma runSSHUpgrade_ok job node client cfg :
  known (cl_cluster client) (node_NodeName node) → calls (runSSHUpgrade job node client cfg) any.
Proof. intros. unfold runSSHUpgrade. calls_tac. Qed.

Lemma reboot_elapsed_ok node : calls (reboot_elapsed node) any.
Proof. unfold reboot_elapsed. calls_tac. Qed.
Hint Resolve reboot_elapsed_ok : calls.

Lemma advanceRebooting_ok client job node :
  known (cl_cluster client) (node_NodeName node) → calls (advanceRebooting client job node) any.
Proof. intros. unfold advanceRebooting. calls_tac. Qed.

Lemma new_clients_ok cl targets : calls (new_clients cl targets) (Forall (λ c, cl_cluster c = cl)).
Proof. induction targets as [|t targets IH]; simpl; calls_tac. destruct x; eauto. Qed.
Hint Resolve new_clients_ok : calls.

Lemma buildFailoverClients_ok cl : calls (buildFailoverClients cl) (Forall (λ c, cl_cluster c = cl)).
Proof. unfold buildFailoverClients. calls_tac. Qed.

Lemma callWithRetryFailover_ok {A} (fn : Client → rprog (result go_error A)) cl primary
    (Q : result go_error A → Prop) :
  (∀ c, cl_cluster c = cl → calls (fn c) Q) → (∀ e, Q (Err e)) → cl_cluster primary = cl →
  calls (callWithRetryFailover fn cl primary) Q.
Proof.
  intros Hf He Hp. unfold callWithRetryFailover. apply calls_bind.
  assert (∀ bs e, calls (primary_attempts fn primary bs e)
                    (λ r, match r with inl _ => True | inr r => Q r end)) as Hpr.
  { induction bs as [|b bs IH]; intros e; simpl; [by apply calls_ret|].
    apply calls_bind.
    eapply (calls_mono _ _ _ any); [|destruct (0 <? b); calls_tac]. intros [ctxErr|] _; [by apply calls_ret, He|].
    apply calls_bind. eapply calls_mono; [|by apply Hf]. intros [a|e'] ?; calls_tac. }
  eapply calls_mono; [|apply Hpr]. intros [e|r] Hr; [|by apply calls_ret].
  apply calls_bind. eapply calls_mono; [|apply buildFailoverClients_ok]. intros l Hl. clear Hr.
  induction Hl as [|c l Hc Hl IH]; simpl; [by apply calls_ret|].
  apply calls_bind. eapply calls_mono; [|by apply Hf]. intros [a|e'] Ha; [by apply calls_ret|].
  destruct (negb _); [by apply calls_ret|]. apply IH.
Qed.

Lemma on_node_ok client g name : known (cl_cluster client) name → calls (on_node client g name) any.
Proof. intros. unfold on_node. calls_tac. Qed.
Hint Resolve on_node_ok : calls.

Lemma findGuestLocation_ok client nodes g excl :
  (∀ e, e ∈ nodes → known (cl_cluster client) (ne_Node e)) →
  calls (findGuestLocation client nodes g excl) (λ r, r = "" ∨ known (cl_cluster client) r).
Proof.
  intros Hn. induction nodes as [|cn nodes IH]; simpl; [apply calls_ret; by left|].
  assert (known (cl_cluster client) (ne_Node cn)) by (apply Hn; left).
  assert (∀ e, e ∈ nodes → known (cl_cluster client) (ne_Node e)) by (intros; apply Hn; by right).
  calls_tac.
Qed.
Hint Resolve findGuestLocation_ok : calls.

Lemma migrate_back_ok client cur g params :
  known (cl_cluster client) cur → known (cl_cluster client) (mp_Target params) →
  drained_cluster (cl_cluster client) → calls (migrate_back client cur g params) any.
Proof. intros. unfold migrate_back. calls_tac. Qed.
Hint Resolve migrate_back_ok : calls.

Lemma complete_node_ok job node : calls (complete_node job node) any.
Proof. unfold complete_node. calls_tac. Qed.
Hint Resolve complete_node_ok : calls.

Lemma restore_guest_ok client node nodes u g :
  known (cl_cluster client) (node_NodeName node) → drained_cluster (cl_cluster client) →
  (∀ e, e ∈ nodes → known (cl_cluster client) (ne_Node e)) →
  calls (restore_guest client node nodes u g) any.
Proof.
  intros Hk Hd Hn. unfold restore_guest. destruct (gs_Passthrough g); [by apply calls_ret|].
  apply calls_bind. eapply calls_mono; [|by apply findGuestLocation_ok]. intros cur Hc.
  destruct (bool_decide (cur = "") || _) eqn:Hb; [by apply calls_ret|].
  destruct Hc as [->|Hc]; [by rewrite bool_decide_true in Hb|]. calls_tac.
Qed.

Lemma restore_all_ok client job node guests :
  handler_args client job node → known (cl_cluster client) (node_NodeName node) →
  job_DrainGuests job = true → calls (restore_all client job node guests) any.
Proof.
  intros H Hk Hd. pose proof (handler_drained _ _ _ H Hd).
  unfold restore_all. calls_tac.
  eapply calls_mono; [|apply (callWithRetryFailover_ok _ _ _ (λ r, match r with
    | Ok l => ∀ e : NodeListEntry, e ∈ l → known (cl_cluster client) (ne_Node e) | Err _ => True end))].
  - intros [l|e] Hl; calls_tac. apply calls_for_range; [intros; calls_tac|]. intros g u _.
    eapply calls_mono; [|by apply restore_guest_ok]. intros [] _; calls_tac.
  - intros c Hc. apply calls_pve; [by names|done|]. intros r Hr. simpl in Hr.
    by rewrite Hc, <-(ha_client _ _ _ H) in Hr.
  - done.
  - apply H.
Qed.

Lemma advanceHealthCheck_ok client job node :
  handler_args client job node → known (cl_cluster client) (node_NodeName node) →
  calls (advanceHealthCheck client job node) any.
Proof.
  intros H Hk. unfold advanceHealthCheck, restore_stopped_only. calls_tac.
  apply restore_all_ok; [done..|]. rewrite <-(handler_drains _ _ _ H).
  destruct (drains _) eqn:Hd; [done|]. destruct (ha_node _ _ _ H) as (_ & _ & Hi & _).
  destruct (Hi Hd) as [[Hg _] _]. congruence.
Qed.
Hint Resolve advanceHealthCheck_ok : calls.

Lemma advanceRestoring_ok client job node :
  handler_args client job node → known (cl_cluster client) (node_NodeName node) →
  calls (advanceRestoring client job node) any.
Proof. intros. unfold advanceRestoring. calls_tac. Qed.
Hint Resolve advanceUpgrading_ok advanceRebooting_ok advanceRestoring_ok : calls.

Lemma advanceNode_ok client job node :
  handler_args client job node → calls (advanceNode client job node) any.
Proof.
  intros H. unfold advanceNode. destruct (negb _); [by apply calls_ret|].
  apply calls_bind. eapply calls_mono; [|by apply requireDialableNode_ok]. intros [e|] Hk; [by apply calls_ret|].
  specialize (Hk eq_refl). calls_tac. apply advanceDraining_ok; [done..|by to_prop].
Qed.

Lemma ConfirmUpgrade_ok job node client0 :
  handler_args client0 job node → calls (ConfirmUpgrade job node) any.
Proof.
  intros H. unfold ConfirmUpgrade. destruct (negb _); [by apply calls_ret|].
  apply calls_bind. eapply calls_mono; [|by apply (requireDialableNode_ok client0)].
  intros [e|] Hk; [by apply calls_ret|]. specialize (Hk eq_refl). rewrite (ha_client _ _ _ H) in Hk.
  destruct (job_RebootAfterUpdate job); [|calls_tac].
  apply calls_bind. eapply calls_mono; [|apply createClient_ok]. intros [c|e] Hc; [|by apply calls_ret].
  simpl in Hc. rewrite <-Hc in Hk. calls_tac.
Qed.

(** ** Ticks, goroutines and operators *)

Lemma pauseNativeCRSIfActive_ok client job : calls (pauseNativeCRSIfActive client job) any.
Proof. unfold pauseNativeCRSIfActive, auditCRSChange. calls_tac. Qed.
Lemma disableDRSIfEnabled_ok job : calls (disableDRSIfEnabled job) any.
Proof. unfold disableDRSIfEnabled. calls_tac. Qed.
Lemma failed_node_ok nodes : calls (failed_node nodes) any.
Proof. induction nodes as [|n nodes IH]; simpl; calls_tac. Qed.
Lemma finish_if_done_ok job : calls (finish_if_done job) any.
Proof. unfold finish_if_done, rebootPendingSuffix, triggerPostUpgradeCVEScan. calls_tac. Qed.
Hint Resolve pauseNativeCRSIfActive_ok disableDRSIfEnabled_ok failed_node_ok finish_if_done_ok : calls.

Lemma start_next_ok client job n :
  job_ok job → cl_cluster client = job_ClusterID job → calls (start_next client job n) any.
Proof.
  intros Hj Hc. unfold start_next. calls_tac. apply startNode_ok. destruct H. by constructor.
Qed.
Hint Resolve start_next_ok : calls.

Lemma processJob_ok job : job_ok job → calls (processJob job) any.
Proof.
  intros Hj. unfold processJob. calls_tac.
  all: apply advanceNode_ok; match goal with
  | Hin : ?n ∈ ?l, Hl : ∀ n : RollingUpdateNode, n ∈ ?l → _ |- handler_args _ _ ?n => destruct (Hl n Hin)
  end; by constructor.
Qed.

Lemma Tick_ok : calls Tick any.
Proof. unfold Tick. calls_tac. apply processJob_ok. eauto. Qed.

Lemma jobInCluster_ok jobID clusterID :
  calls (jobInCluster jobID clusterID) (λ r, match r with Ok j => job_ok j ∧ job_ID j = jobID | Err _ => True end).
Proof. unfold jobInCluster. calls_tac. destruct x; [|done]. by destruct (negb _). Qed.
Lemma node_of_job_ok missing jobID nodeID :
  calls (node_of_job missing jobID nodeID)
    (λ r, match r with Ok n => node_ok n ∧ node_JobID n = jobID | Err _ => True end).
Proof.
  unfold node_of_job. calls_tac. destruct x as [n|]; [|done]. destruct (negb _) eqn:He; [done|].
  to_prop. naive_solver.
Qed.
Hint Resolve jobInCluster_ok node_of_job_ok : calls.

Lemma ConfirmNode_ok clusterID jobID nodeID : calls (ConfirmNode clusterID jobID nodeID) any.
Proof.
  unfold ConfirmNode. calls_tac. 
  eapply calls_mono; [|apply (ConfirmUpgrade_ok _ _ {| cl_cluster := job_ClusterID a0;
    cl_config := {| cf_BaseURL := ""; cf_TokenID := ""; cf_TokenSecret := ""; cf_TLSFingerprint := ""; cf_Timeout := 0 |} |})].
  - intros; calls_tac.
  - destruct H as [Hj Hid], H0 as [Hn Hnid]. by constructor; simpl; try congruence.
Qed.

Lemma operator_ok clusterID jobID nodeID p : p ∈ operator_programs clusterID jobID nodeID → calls p any.
Proof.
  unfold operator_programs, forget. rewrite !elem_of_cons, elem_of_nil.
  intros [->|[->|[->|[->|[->|[->|[]]]]]]].
  6: { apply calls_bind. eapply calls_mono; [|apply ConfirmNode_ok]. done. }
  all: unfold StartJob, PauseJob, ResumeJob, CancelJob, SkipNode; calls_tac.
Qed.

Lemma thread_ok beats t : fine _ (Go t) → calls (thread_body beats t) any.
Proof.
  destruct t as [job node client cfg|job|ty cfg pl|id|id]; simpl; intros H.
  - apply runSSHUpgrade_ok, H.
  - unfold postUpgradeCVEScan. calls_tac.
  - unfold dispatch. calls_tac.
  - apply upgradeHeartbeat_ok.
  - unfold CleanupCancelledJob. calls_tac.
Qed.

(** ** The tables keep their attributes *)

Definition tables_ok (d : DB) : Prop :=
  (∀ j, j ∈ jobs d → job_ok j) ∧ (∀ n, n ∈ nodes d → node_ok n).

Lemma update_job_tables id guard f d :
  (∀ j, job_ok j → job_ok (f j)) → tables_ok d → tables_ok (update_job id guard f d).1.
Proof.
  intros Hf [Hj Hn]. split; [|done]. intros j Hin. simpl in Hin.
  apply list_elem_of_fmap in Hin as (j0 & -> & Hin). case_match; auto.
Qed.

Lemma update_node_tables id guard f d :
  (∀ n, node_ID n = id → node_ok n → node_ok (f n)) → tables_ok d → tables_ok (update_node id guard f d).1.
Proof.
  intros Hf [Hj Hn]. split; [done|]. intros n Hin. simpl in Hin.
  apply list_elem_of_fmap in Hin as (n0 & -> & Hin). case_match; [|auto].
  apply Hf; [by to_prop|auto].
Qed.

Lemma exec_query_tables {A} (q : query A) now d :
  tables_ok d → query_fine q → tables_ok (exec_query q now d).1.
Proof.
  intros Hd Hq. destruct q; simpl in *; try exact Hd.
  all: try (apply update_job_tables; [by intros j Hj|done]).
  all: try (apply update_node_tables; [|done]; intros n Hid (H1 & H2 & H3 & H4); split_and!;
            [done|done|intros Hdr; destruct (H3 Hdr); split; done|exact H4]).
  - destruct (incrementJobCleanupAttempts id now d) as [[d' k]|] eqn:He; [|done]. simpl.
    unfold incrementJobCleanupAttempts in He. destruct (getRollingUpdateJob id d); [|done].
    destruct (maxInt32 <=? _); [done|]. injection He as <- _. apply update_job_tables; [by intros j Hj|done].
  - apply update_node_tables; [|done]. intros n Hid (H1 & H2 & H3 & H4).
    split_and!; [done|done|intros Hdr; simpl in Hdr; congruence|exact H4].
  - apply update_node_tables; [|done]. intros n Hid (H1 & H2 & H3 & H4). subst id.
    destruct Hq as [Hq|[Hq Hk]]; split_and!; try done.
    + intros Hdr. destruct (H3 Hdr) as [[_ Hs] ?]. done.
    + intros Hg. apply H4. intros [? ?]. by apply Hg.
    + intros Hdr. simpl in Hdr. congruence.
  - apply update_node_tables; [|done]. intros n Hid (H1 & H2 & H3 & H4). subst id.
    destruct Hq as [Hq|[Hq Hk]]; split_and!; try done.
    + intros Hdr. destruct (H3 Hdr) as [[Hs _] ?]. done.
    + intros Hg. apply H4. intros [? ?]. by apply Hg.
    + intros Hdr. simpl in Hdr. congruence.
Qed.

Lemma exec_query_answer {A} (q : query A) now d :
  tables_ok d → query_answer q (exec_query q now d).2.
Proof.
  intros [Hj Hn]. destruct q; simpl; try done.
  - destruct (getRollingUpdateJob id d) as [j|] eqn:Hg; simpl; [|done].
    apply find_some in Hg as [Hin He]. split; [by apply Hj, list_elem_of_In|by to_prop].
  - intros j Hin%elem_of_order_by%elem_of_bfilter. apply Hj, Hin.
  - intros j Hin. apply elem_of_take in Hin as (i & Hi & _). apply list_elem_of_lookup_2 in Hi.
    apply elem_of_order_by, elem_of_bfilter in Hi. apply Hj, Hi.
  - destruct (getRollingUpdateNode id d) as [n|] eqn:Hg; simpl; [|done].
    apply find_some in Hg as [Hin He]. split; [by apply Hn, list_elem_of_In|by to_prop].
  - intros n Hin%elem_of_order_by%elem_of_bfilter. destruct Hin as [Hin He]. split; [by apply Hn|by to_prop].
  - unfold getNextPendingNode.
    destruct (head _) as [n|] eqn:Hg; simpl; [|done]. apply head_Some_elem_of in Hg.
    apply elem_of_order_by, elem_of_bfilter in Hg as [[Hin He]%elem_of_bfilter _].
    split; [by apply Hn|by to_prop].
Qed.

Lemma may_answer_tables {X} (e : Op X) d x d' :
  tables_ok d → fine X e → may_answer e d x d' → tables_ok d'.
Proof.
  intros Hd. destruct e; simpl; first [by intros _ ->|by intros _ [-> _]|idtac].
  intros Hf [[now He]|(err & _ & [->|[now He]])]; [|done|].
  - replace d' with (exec_query q now d).1 by by rewrite He. by apply exec_query_tables.
  - rewrite <-He. by apply exec_query_tables.
Qed.

Lemma may_answer_trusted {X} (e : Op X) d x d' :
  tables_ok d → believed X e x → may_answer e d x d' → trusted X e x.
Proof.
  intros Hd Hb Ha. split; [done|]. destruct e; simpl in *; try done.
  - destruct Ha as [[now He]|(err & -> & _)].
    + replace x with (exec_query q now d).2 by by rewrite He. by apply exec_query_answer.
    + by destruct q.
  - destruct x as [[]|]; naive_solver.
  - destruct x; naive_solver.
Qed.

Definition fine_event (ev : event Op) : Prop := match ev with Ev e _ => fine _ e end.
End attributes.

(** ** Histories *)

Section histories.
Context `{LIB : Library} `{MR : MapRange}.
Variable beats : nat.

(** What starts: a scheduler tick, an operator, a release before a new job. *)
Definition entry (p : rprog unit) : Prop :=
  p = Tick ∨ (∃ clusterID jobID nodeID, p ∈ operator_programs clusterID jobID nodeID) ∨
  (∃ jobID, p = (let! _ := ReleaseJobState jobID in Ret tt)).

Definition spawned (X : Type) (e : Op X) : list (rprog unit) :=
  match e with Go t => [thread_body beats t] | _ => [] end.

(** A history: any number of ticks, operators and goroutines, one call at a time,
    each of which may stop for good at any point. *)
Definition history : list (rprog unit) * Sys → list (rprog unit) * Sys → Prop :=
  rtc (pool (@step) spawned entry).

Definition at_start (d : DB) : list (rprog unit) * Sys := ([], {| tables := d; log := [] |}).

(** The nodes an event names to Proxmox, with the cluster. *)
Definition contacted (ev : event Op) : list (uuid * string) :=
  match ev with
  | Ev (Pve c r) _ => (cl_cluster c,.) <$> request_nodes r
  | Ev (PollTask c node _) _ => [(cl_cluster c, node)]
  | _ => []
  end.

Definition listed_nodes {A} (c : Client) (r : request A) (x : result go_error A) : list (uuid * string) :=
  match r in request A return result go_error A → list (uuid * string) with
  | GetNodes => λ x, match x with Ok l => (λ e, (cl_cluster c, ne_Node e)) <$> l | Err _ => [] end
  | _ => λ _, []
  end x.

(** The nodes an event confirms: a row of the nodes table, or Proxmox's own list. *)
Definition confirmed (ev : event Op) : list (uuid * string) :=
  match ev with
  | Ev e x =>
      match e in Op X return X → list (uuid * string) with
      | Pve c r => λ x, listed_nodes c r x
      | GetNodeByClusterAndName cl n => λ x, match x with Ok true => [(cl, n)] | _ => [] end
      | _ => λ _, []
      end x
  end.

(** The cluster an event disrupts. *)
Definition disrupted (ev : event Op) : option uuid :=
  match ev with
  | Ev (Pve c r) _ => if disrupts r then Some (cl_cluster c) else None
  | _ => None
  end.

Lemma history_log_grows c c' : history c c' → log c.2 ⊆ log c'.2.
Proof.
  induction 1 as [c|c c1 c' Hp _ IH]; [done|]. etransitivity; [|exact IH].
  inversion Hp as [b X e k a s x s' [_ Hl]| |]; simplify_eq/=; [|done..].
  rewrite Hl. intros ev Hev. by right.
Qed.

(** Every earlier point of a history is the end of a history. *)
Lemma history_prefix d ts s later l :
  history (at_start d) (ts, s) → log s = later ++ l →
  ∃ ts1 s1, history (at_start d) (ts1, s1) ∧ log s1 = l.
Proof.
  intros Hh. remember (ts, s) as c eqn:Hc. revert ts s later Hc.
  refine (rtc_ind_r (λ c, ∀ ts s later, c = (ts, s) → log s = later ++ l → _) _ _ _ _ Hh); clear c Hh.
  - intros ts s later [= <- <-] Hl. symmetry in Hl. apply app_nil in Hl as [_ ->].
    by exists [], {| tables := d; log := [] |}.
  - intros [ts1 s1] c Hh Hp IH ts s later -> Hl. destruct later as [|ev later].
    { exists ts, s. split; [|done]. eapply rtc_r; [exact Hh|exact Hp]. }
    inversion Hp as [b X e k a s0 x s' [_ Hlog]|ts0 p s0 He|b p a s0]; simplify_eq.
    + rewrite Hlog in Hl. injection Hl as _ Hl. by eapply IH.
    + by eapply (IH _ _ (ev :: later)).
    + by eapply (IH _ _ (ev :: later)).
Qed.

Section rows.
Variables (cluster_of : uuid → uuid) (drains : uuid → bool) (job_of : uuid → uuid) (name_of : uuid → string)
  (held : uuid → string → Prop).

Abbreviation rows_ok known := (tables_ok cluster_of drains job_of name_of known).

(** Everything a history called was fine, with the names its answers confirmed. *)
Lemma history_fine d ts s :
  rows_ok held d → history (at_start d) (ts, s) →
  let known cl n := held cl n ∨ ∃ ev, ev ∈ log s ∧ (cl, n) ∈ confirmed ev in
  ∀ ev, ev ∈ log s → fine_event cluster_of drains job_of name_of known ev.
Proof.
  intros Hd Hh known. set (L := log s) in *.
  set (within := λ X (e : Op X) s x s', step e s x s' ∧ Ev e x ∈ L).
  assert (rtc (pool within spawned entry) (at_start d) (ts, s)) as Hw.
  { clear Hd. remember (ts, s) as c' eqn:Hc'.
    revert Hc'. induction Hh as [c|c c1 c' Hp Hh IH]; intros ->; [done|].
    eapply rtc_l; [|by apply IH].
    inversion Hp as [b X e k a s0 x s1 Hst| |]; simplify_eq; constructor; [|done..].
    split; [done|]. apply (history_log_grows _ _ Hh). simpl. destruct Hst as [_ ->]. left. }
  set (Inv := λ s : Sys, rows_ok known (tables s) ∧
    ∀ ev, ev ∈ log s → fine_event cluster_of drains job_of name_of known ev).
  eapply (pool_calls_ok within Inv spawned entry) in Hw as [[_ Hlog] _]; [exact Hlog| | | | |done].
  - intros X e s0 x s1 [[Ha Hl] Hin] [Ht Hlog] Hf.
    assert (trusted cluster_of drains job_of name_of known X e x) as Htr.
    { eapply may_answer_trusted; [exact Ht| |exact Ha]. destruct e; simpl; try done.
      + destruct r; try done. destruct x as [l|]; [|done]. intros en Hen. right.
        eexists. split; [exact Hin|]. simpl. apply list_elem_of_fmap. eauto.
      + destruct x as [[]|]; try done. right. eexists. split; [exact Hin|]. left. }
    split; [|done]. split; [by eapply may_answer_tables|].
    intros ev. rewrite Hl. intros [->|Hin']%elem_of_cons; [done|by apply Hlog].
  - intros p [->|[(clusterID & jobID & nodeID & Hp)|[jobID ->]]]; [apply Tick_ok|by eapply operator_ok|].
    apply calls_bind. eapply calls_mono; [|apply releaseJobState_ok]. done.
  - intros X e Hf. destruct e; simpl; try done. constructor; [|done]. by apply thread_ok.
  - split; [|intros ev Hin; by apply elem_of_nil in Hin].
    destruct Hd as [Hj Hn]. split; [done|]. intros n Hin. destruct (Hn n Hin) as (?&?&?&Hk).
    split_and!; try done. intros Hg. left. by apply Hk.
Qed.
End rows.
End histories.

(** The tables of the example, with the attributes of its rows. *)
Lemma example_tables_ok drain :
  tables_ok (λ _, 1) (λ _, drain) (λ _, 7) (λ id, if id =? 11 then "pve1" else "pve2") (λ _ _, False)
    (example_tables drain).
Proof.
  split.
  - intros j Hj. apply list_elem_of_singleton in Hj as ->. done.
  - intros n Hn. simpl in Hn. rewrite !elem_of_cons, elem_of_nil in Hn.
    destruct Hn as [->|[->|[]]]; split_and!; try done; intros Hg; by destruct Hg.
Qed.

Lemma example_history drain : ∃ ts, history 0 (at_start (example_tables drain)) (ts, example_tick drain).
Proof.
  apply (pool_run (healthy example_vms)); [intros; apply healthy_step|]. by left.
Qed.

(** ** Properties *)

(** C15: a job that upgrades in place moves and stops nothing. Over any history, with any failures,
    restarts, operators and goroutines in between, no request is made to a cluster all of whose jobs
    upgrade in place that migrates, shuts down, stops or starts a guest, or disables an HA rule. *)
Theorem in_place_disrupts_nothing `{LIB : Library} `{MR : MapRange} beats
    cluster_of drains job_of name_of held d ts s cl :
  tables_ok cluster_of drains job_of name_of held d →
  history beats (at_start d) (ts, s) →
  (∀ id, cluster_of id = cl → drains id = false) →
  Forall (λ ev, disrupted ev ≠ Some cl) (log s).
Proof.
  intros Hd Hh Hcl. apply Forall_forall. intros ev Hev.
  pose proof (history_fine beats _ _ _ _ _ _ _ _ Hd Hh ev Hev) as Hf.
  destruct ev as [X [] x]; simpl in *; try done. case_match; [|done].
  destruct Hf as [_ Hf]. destruct (Hf eq_refl) as (id & Hc & Hdr). intros [= <-].
  by rewrite (Hcl id Hc) in Hdr.
Qed.

Lemma in_place_disrupts_nothing_witness :
  Forall (λ ev, disrupted ev ≠ Some 1) (log (example_tick false)).
Proof.
  destruct (example_history false) as [ts Hts].
  exact (in_place_disrupts_nothing 0 _ _ _ _ _ _ ts _ 1 (example_tables_ok false) Hts (λ _ _, eq_refl)).
Defined.

(** C14: only nodes of the cluster are contacted. Over any history, every node a request names, in its
    path or as a migration target, was confirmed before that request: the nodes table of the job's
    cluster holds it, or Proxmox listed it as a member of that cluster; the only other names are those
    of rows that recorded guests before the history began ([held]). *)
Theorem contacts_confirmed_nodes `{LIB : Library} `{MR : MapRange} beats
    cluster_of drains job_of name_of held d ts s :
  tables_ok cluster_of drains job_of name_of held d →
  history beats (at_start d) (ts, s) →
  ForallTail (λ ev earlier,
    Forall (λ p, held p.1 p.2 ∨ Exists (λ ev', p ∈ confirmed ev') earlier) (contacted ev)) (log s).
Proof.
  intros Hd Hh. apply ForallTail_intro. intros later ev earlier Hl.
  destruct (history_prefix beats _ _ _ _ _ Hh Hl) as (ts1 & s1 & Hh1 & Hl1).
  assert (ev ∈ log s1) as Hev by (rewrite Hl1; left).
  apply Forall_forall. intros [cl n] Hc.
  pose proof (history_fine beats _ _ _ _ _ _ _ _ Hd Hh1 ev Hev) as Hf.
  assert (held cl n ∨ ∃ ev', ev' ∈ ev :: earlier ∧ (cl, n) ∈ confirmed ev') as [?|(ev' & Hin & Hcf)].
  { rewrite <-Hl1. destruct ev as [X [] x]; simpl in *; try (by apply elem_of_nil in Hc).
    - apply list_elem_of_fmap in Hc as (n' & [= -> ->] & Hn). by apply Hf.
    - apply list_elem_of_singleton in Hc as [= -> ->]. done. }
  { by left. }
  right. apply Exists_exists. exists ev'. split; [|done].
  apply elem_of_cons in Hin as [->|?]; [|done]. destruct ev as [X [] x]; simpl in *; try (by apply elem_of_nil in Hcf).
  - destruct r; simpl in *; try (by apply elem_of_nil in Hcf). by apply elem_of_nil in Hc.
  - by apply elem_of_nil in Hc.
Qed.

Lemma contacts_confirmed_nodes_witness :
  ForallTail (λ ev earlier,
    Forall (λ p, False ∨ Exists (λ ev', p ∈ confirmed ev') earlier) (contacted ev)) (log (example_tick true)).
Proof.
  destruct (example_history true) as [ts Hts].
  exact (contacts_confirmed_nodes 0 _ _ _ _ _ _ ts _ (example_tables_ok true) Hts).
Defined.
