(* ===== verification/RollingLife.v ===== *)
(** * The life of a job

    Over any history the status of a job moves along a small machine, ends at
    most once, and its settings never change. *)

From S2P Require Import Prelude GoFloat GoStrings ProxmoxApi Effects Crs DrsRules DrsPlanner DrsExecutor RollingDb.
From S2P Require Import RollingHa RollingOps RollingRelease RollingDrain RollingUpgrade RollingHandlers RollingExample.
From S2P Require Import RollingSafety.

Local Open Scope Z_scope.

(** ** The machine *)

Inductive job_move : string → string → Prop :=
| move_start : job_move "pending" "running"
| move_pause : job_move "running" "paused"
| move_resume : job_move "paused" "running"
| move_end s t : s ∈ ["pending"; "running"; "paused"] → t ∈ ["completed"; "failed"; "cancelled"] → job_move s t.

(** What the code never changes about a job once it is created. *)
Definition settings (j : RollingUpdateJob) :=
  (job_ID j, job_ClusterID j, job_Parallelism j, job_DrainGuests j, job_AutoUpgrade j, job_RebootAfterUpdate j,
   job_AutoRestoreGuests j, job_PackageExcludes j, job_NotifyChannelID j, job_CreatedAt j).

Definition outcome (j : RollingUpdateJob) := (job_Status j, job_FailureReason j, job_CompletedAt j).

(** From one row of a job to a later one. *)
Definition evolves (j j' : RollingUpdateJob) : Prop :=
  settings j' = settings j ∧ rtc job_move (job_Status j) (job_Status j') ∧
  (job_terminal j = true → outcome j' = outcome j).

#[export] Instance evolves_preorder : PreOrder evolves.
Proof.
  split.
  - intros j. split_and!; done.
  - intros j1 j2 j3 (H1 & H2 & H3) (H4 & H5 & H6). split_and!; [congruence|by etransitivity|].
    intros Ht. assert (outcome j2 = outcome j1) as Ho by auto. rewrite <-Ho. apply H6.
    unfold job_terminal in *. by injection Ho as -> _ _.
Qed.

Lemma active_not_terminal j : job_active j = true → job_terminal j = true → False.
Proof.
  unfold job_active, job_terminal. rewrite !contains_spec, !elem_of_cons, !elem_of_nil.
  intros [->|[->|[->|[]]]]; naive_solver.
Qed.

Lemma finish_evolves j status now reason :
  job_active j = true → status ∈ ["completed"; "failed"; "cancelled"] →
  evolves j (finish_job status now j) ∧ evolves j (set_job_FailureReason reason (finish_job status now j)).
Proof.
  intros Ha Hs. assert (rtc job_move (job_Status j) status).
  { apply rtc_once. constructor; [by apply contains_spec|done]. }
  split; (split_and!; [done|done|]); intros Ht; by destruct (active_not_terminal j Ha Ht).
Qed.

Lemma update_job_evolves id guard f d :
  (∀ j, guard j = true → evolves j (f j)) → Forall2 evolves (jobs d) (jobs (update_job id guard f d).1).
Proof.
  intros Hf. unfold update_job. simpl. apply Forall2_fmap_r, Forall_Forall2_diag, Forall_forall. intros j _.
  unfold compose. destruct ((job_ID j =? id) && guard j) eqn:Hg; [|reflexivity]. apply andb_prop in Hg as [_ Hg]. by apply Hf.
Qed.

(** A change of columns that are neither settings nor outcome. *)
Lemma bookkeeping_evolves j j' : settings j' = settings j → outcome j' = outcome j → evolves j j'.
Proof. intros Hs Ho. split_and!; try done. injection Ho as -> _ _. done. Qed.

Lemma move_evolves j s now f :
  job_move (job_Status j) s → job_terminal j = false →
  (∀ j, settings (f j) = settings j ∧ job_Status (f j) = job_Status j) →
  evolves j (touch_job now (f (set_job_Status s j))).
Proof.
  intros Hm Ht Hf. destruct (Hf (set_job_Status s j)) as [Hs Hst]. split_and!; [done| |by rewrite Ht].
  simpl. rewrite Hst. by apply rtc_once.
Qed.

Lemma exec_query_evolves {A} (q : query A) now d : Forall2 evolves (jobs d) (jobs (exec_query q now d).1).
Proof.
  destruct q; simpl; try reflexivity; try (apply update_job_evolves; intros j Hg; by apply bookkeeping_evolves).
  - apply update_job_evolves. intros j Hj%bool_decide_eq_true.
    apply (move_evolves j "running" now (set_job_StartedAt (Some now))); [rewrite Hj; constructor| |done].
    unfold job_terminal. by rewrite Hj.
  - apply update_job_evolves. intros j Hj. apply (finish_evolves j "completed" now ""); [done|]. left.
  - apply update_job_evolves. intros j Hj. apply finish_evolves; [done|]. right. left.
  - apply update_job_evolves. intros j Hj. apply (finish_evolves j "cancelled" now ""); [done|]. do 2 right. left.
  - apply update_job_evolves. intros j Hj%bool_decide_eq_true.
    apply (move_evolves j "paused" now (λ j, j)); [rewrite Hj; constructor| |done]. unfold job_terminal. by rewrite Hj.
  - apply update_job_evolves. intros j Hj%bool_decide_eq_true.
    apply (move_evolves j "running" now (λ j, j)); [rewrite Hj; constructor| |done]. unfold job_terminal. by rewrite Hj.
  - unfold incrementJobCleanupAttempts. destruct (getRollingUpdateJob id d) as [j|]; simpl; [|reflexivity].
    destruct (maxInt32 <=? job_CleanupAttempts j); simpl; [reflexivity|].
    apply update_job_evolves. intros j' _. by apply bookkeeping_evolves.
Qed.

Lemma step_evolves X (e : Op X) s x s' : step e s x s' → Forall2 evolves (jobs (tables s)) (jobs (tables s')).
Proof.
  intros [Ha _]. destruct e; simpl in Ha; first [by rewrite Ha|by destruct Ha as [-> _]|idtac].
  destruct Ha as [[now He]|(err & _ & [->|[now <-]])]; [|done|apply exec_query_evolves].
  replace (tables s') with (exec_query q now (tables s)).1 by by rewrite He. apply exec_query_evolves.
Qed.

(** ** Steps that take too long *)

(** When the automatic step of a node began, and how long it may take. *)
Definition step_limit (node : RollingUpdateNode) : option Z * Z :=
  let at_step s := bool_decide (node_Step node = s) in
  if at_step "draining" then (node_DrainStartedAt node, 60 * minute)
  else if at_step "upgrading" then (node_UpgradeStartedAt node, upgradeAbsoluteTimeout)
  else if at_step "rebooting" then (node_RebootStartedAt node, 10 * minute)
  else if at_step "restoring" then (node_RestoreStartedAt node, 30 * minute)
  else (None, 0).

Definition overdue (now : Z) (node : RollingUpdateNode) : bool :=
  match step_limit node with
  | (Some t, limit) => limit <? Sub now t
  | (None, _) => false
  end.

(** An outside that answers: queries do what they say, the node is a member, the server stays up, and it
    is [now]; Proxmox may answer anything. *)
Definition responds (now : Z) (X : Type) (e : Op X) (s : Sys) (x : X) (s' : Sys) : Prop :=
  step e s x s' ∧
  match e in Op X return X → Prop with
  | Query q => λ x, ∃ t, exec_query q t (tables s) = (tables s', x)
  | Now => λ x, x = now
  | ShutdownErr => λ x, x = false
  | GetNodeByClusterAndName _ _ => λ x, x = Ok true
  | _ => λ _, True
  end x.

(** The node left its step: its row was marked failed, or completed. *)
Definition query_ends {A} (id : uuid) (q : query A) (x : result go_error A) : Prop :=
  match q in query A return result go_error A → Prop with
  | FailRollingUpdateNode id' _ => λ x, id' = id ∧ match x with Ok n => 0 < n | Err _ => False end
  | SetNodeRestoreCompleted id' => λ x, id' = id ∧ is_ok x = true
  | _ => λ _, False
  end x.

Definition step_ended (id : uuid) (ev : event Op) : Prop :=
  match ev with
  | Ev e x => match e in Op X return X → Prop with Query q => λ x, query_ends id q x | _ => λ _, False end x
  end.

Lemma elem_of_length {A} (x : A) l : x ∈ l → (0 < length l)%nat.
Proof. destruct l; [by intros ?%elem_of_nil|simpl; lia]. Qed.

Section overdue.
Context `{LIB : Library} `{MR : MapRange}.
Variable now : Z.
Abbreviation wpr := (wp (responds now) eq (λ _, True)).

Lemma wpr_bind {A B} (p : rprog A) (f : A → rprog B) Q s : wpr p (λ a, wpr (f a) Q) s → wpr (bind p f) Q s.
Proof. apply wp_bind; apply _. Qed.
Lemma wpr_ret {A} (a : A) (Q : A → Sys → Prop) s : Q a s → wpr (Ret a) Q s.
Proof. by intros ? ? <-. Qed.
Lemma wpr_ask {X} (e : Op X) (Q : X → Sys → Prop) s : (∀ x s', responds now X e s x s' → Q x s') → wpr (ask e) Q s.
Proof. intros H s1 <- x s2 Hst. split; [done|]. intros s3 <-. by apply H. Qed.

(** What is on the log stays there. *)
Lemma logged_stays (P : event Op → Prop) {A} (p : rprog A) s :
  Exists P (log s) → wpr p (λ _ s', Exists P (log s')) s.
Proof.
  revert s. induction p as [a|X e k IH]; intros s Hs; [by apply wpr_ret|].
  intros s1 <- x s2 [[_ Hl] _]. split; [done|]. apply IH. rewrite Hl. by right.
Qed.

Lemma failNode_ends job node reason s :
  node ∈ nodes (tables s) → node_terminal node = false →
  wpr (failNode job node reason) (λ _ s', Exists (step_ended (node_ID node)) (log s')) s.
Proof.
  intros Hin Ht. unfold failNode. apply wpr_bind, wpr_ask. intros x s1 [[Hs1 _] ->]. simpl in Hs1.
  apply wpr_bind, wpr_ask. intros x s2 [[_ Hl] [t Hx]].
  assert (Exists (step_ended (node_ID node)) (log s2)) as He.
  { rewrite Hl. left. simpl in Hx. injection Hx as _ <-. split; [done|]. simpl.
    apply (Nat2Z.inj_lt 0). eapply elem_of_length. apply elem_of_bfilter. split; [by rewrite Hs1|].
    by rewrite Z.eqb_refl, Ht. }
  destruct x as [n|e]; [destruct n|]; by apply logged_stays.
Qed.

Lemma dialable job node s :
  wpr (requireDialableNode job node) (λ r s', r = None ∧ tables s' = tables s) s.
Proof.
  unfold requireDialableNode, Require, Check.
  apply wpr_bind, wpr_bind, wpr_bind, wpr_ask. intros x s1 [[Hs _] ->]. simpl in Hs. by do 3 apply wpr_ret.
Qed.

Lemma restore_ends job node s :
  wpr (do! db_ (SetNodeRestoreCompleted (node_ID node)) in
       publishEvent (job_ClusterID job) (job_ID job) "node_completed")
    (λ _ s', Exists (step_ended (node_ID node)) (log s')) s.
Proof.
  apply wpr_bind, wpr_bind, wpr_ask. intros x s1 [[_ Hl] [t Hx]]. apply wpr_ret, logged_stays.
  rewrite Hl. left. simpl in Hx. injection Hx as _ <-. done.
Qed.

(** Each handler first asks the clock. *)
Lemma late_ends {B} t limit (late : bool → rprog B) (Q : B → Sys → Prop) s :
  (limit <? Sub now t) = true → (∀ s', tables s' = tables s → wpr (late true) Q s') →
  wpr (let! late_ := (let! now := ask Now in Ret (limit <? Sub now t)) in late late_) Q s.
Proof.
  intros Hl Hq. apply wpr_bind, wpr_bind, wpr_ask. intros x s1 [[Hs _] ->]. apply wpr_ret. rewrite Hl. by apply Hq.
Qed.

Lemma step_ends client job node t limit s :
  node ∈ nodes (tables s) → step_limit node = (Some t, limit) → (limit <? Sub now t) = true →
  wpr (advanceNode client job node) (λ _ s', Exists (step_ended (node_ID node)) (log s')) s.
Proof.
  intros Hin Hlim Hl. unfold advanceNode.
  assert (contains automatic_steps (node_Step node) = true ∧ node_terminal node = false) as [Hauto Hterm].
  { unfold step_limit in Hlim. unfold node_terminal.
    repeat match type of Hlim with context [bool_decide (node_Step node = ?st)] =>
      let H := fresh in destruct (decide (node_Step node = st)) as [H|H];
      [by rewrite H|rewrite (bool_decide_eq_false_2 _ H) in Hlim] end. done. }
  rewrite Hauto. simpl. apply wpr_bind. eapply wp_mono; [|apply dialable]. intros ? s1 [-> Hs1]. simpl.
  assert (∀ s', tables s' = tables s1 → node ∈ nodes (tables s')) as Hkeep by (intros s' ->; by rewrite Hs1).
  unfold step_limit in Hlim.
  destruct (bool_decide (node_Step node = "draining")).
  { injection Hlim as Hd <-. unfold advanceDraining. rewrite Hd. apply (late_ends t); [done|]. intros.
    apply failNode_ends; auto. }
  destruct (bool_decide (node_Step node = "upgrading")).
  { injection Hlim as Hu <-. unfold advanceUpgrading, upgrade_progress. rewrite Hu. apply wpr_bind, wpr_bind, wpr_ask.
    intros x s2 [[Hs2 _] ->]. rewrite Hl. apply wpr_ret, failNode_ends; auto. }
  destruct (bool_decide (node_Step node = "rebooting")).
  { injection Hlim as Hb <-. unfold advanceRebooting, reboot_elapsed. rewrite Hb. apply wpr_bind, wpr_bind, wpr_ask.
    intros x s2 [[Hs2 _] ->]. rewrite Hl. apply wpr_ret, failNode_ends; auto. }
  destruct (bool_decide (node_Step node = "restoring")) eqn:Hst; [|done].
  apply bool_decide_eq_true in Hst. rewrite Hst. simpl.
  injection Hlim as Hb <-. unfold advanceRestoring. rewrite Hb. apply (late_ends t); [done|]. intros.
  apply restore_ends.
Qed.
End overdue.

(** ** Properties *)

(** C17: the life of a job. Over any history, whatever fails and whoever acts in between, each job keeps
    its settings, its status moves only along the machine (started, paused and resumed, ended), and once
    it is completed, failed or cancelled, its status, its reason and its end time stay as they are. *)
Theorem job_lifecycle `{LIB : Library} `{MR : MapRange} beats d ts s :
  history beats (at_start d) (ts, s) → Forall2 evolves (jobs d) (jobs (tables s)).
Proof.
  intros Hh. refine (rtc_ind_r (λ c, Forall2 evolves (jobs d) (jobs (tables c.2))) _ _ _ _ Hh); [done|].
  intros c c' _ Hp IH. etransitivity; [exact IH|].
  inversion Hp as [b X e k a s0 x s' Hst| |]; simplify_eq/=; [|done..]. by eapply step_evolves.
Qed.

Lemma job_lifecycle_witness :
  Forall2 evolves (jobs (example_tables true)) (jobs (tables (example_tick true))) ∧
  (job_Status <$> jobs (tables (example_tick true))) = ["failed"%string].
Proof.
  split; [|by vm_compute]. destruct (example_history true) as [ts Hts].
  exact (job_lifecycle 0 (example_tables true) ts (example_tick true) Hts).
Defined.

(** C19: no step goes on for ever. A node that has been draining or upgrading for more than an hour,
    rebooting for more than ten minutes or restoring for more than thirty leaves its step in the next
    tick that looks at it: as long as the database answers, and whatever Proxmox does, the tick marks it
    failed (or completed, when it was restoring). *)
Theorem overdue_step_ends `{LIB : Library} `{MR : MapRange} now client job node s a s' :
  node ∈ nodes (tables s) → overdue now node = true →
  runs (responds now) eq (advanceNode client job node) s (Ret a) s' →
  Exists (step_ended (node_ID node)) (log s').
Proof.
  intros Hin Ho Hr. unfold overdue in Ho. destruct (step_limit node) as [[t|] limit] eqn:Hlim; [|done].
  exact (wp_result _ _ (λ _, True) _ _ _ _ _ (step_ends now client job node t limit s Hin Hlim Ho) Hr).
Qed.

Lemma healthy_responds vms X (e : Op X) s : responds (1000 * minute) X e s (healthy vms X e s).1 (healthy vms X e s).2.
Proof.
  split; [apply healthy_step|]. destruct e; try done. exists (1000 * minute). simpl.
  by destruct (exec_query q (1000 * minute) (tables s)).
Qed.

(** A node of the example that began to drain long ago. *)
Definition stuck_node : RollingUpdateNode := set_node_DrainStartedAt (Some 0) (set_node_Step "draining" (example_row 11 "pve1")).
Definition stuck_sys : Sys :=
  {| tables := {| jobs := [example_job true]; nodes := [stuck_node]; drs_enabled := ∅ |}; log := [] |}.
Definition stuck_client : Client := {| cl_cluster := 1; cl_config := {| cf_BaseURL := "";
  cf_TokenID := ""; cf_TokenSecret := ""; cf_TLSFingerprint := ""; cf_Timeout := 0 |} |}.

Lemma overdue_step_ends_witness :
  let s := (run (healthy example_vms) (advanceNode stuck_client (example_job true) stuck_node) stuck_sys).2 in
  Exists (step_ended 11) (log s) ∧ (node_Step <$> nodes (tables s)) = ["failed"%string].
Proof.
  split; [|by vm_compute].
  refine (overdue_step_ends (1000 * minute) stuck_client (example_job true) stuck_node stuck_sys _ _ _ eq_refl
    (run_runs (healthy example_vms) (responds (1000 * minute)) eq _ stuck_sys (healthy_responds example_vms))).
  left.
Defined.
