(* ===== verification/RollingGuards.v ===== *)
(** * What a rolling update does not do without looking first

    Properties of single programs of the orchestrator, whatever they are
    answered: a node is rebooted only right after its guests were listed, only
    a fixed command with checked package names is run over SSH, and a migration
    that meets a lock is tried again only after the lock is gone. *)

From S2P Require Import Prelude GoFloat GoStrings ProxmoxApi Effects Crs DrsRules DrsPlanner DrsExecutor RollingDb.
From S2P Require Import RollingHa RollingOps RollingRelease RollingDrain RollingUpgrade RollingHandlers RollingExample.
From S2P Require Import RollingPrograms.

Local Open Scope Z_scope.

Abbreviation any := (λ _, True).

(** ** Reboots *)

(** A listing of a node's guests, as an event answers it. *)
Inductive listing :=
| ListedVMs (r : result go_error (list Guest))
| ListedCTs (r : result go_error (list Guest)).

Definition listing_answer {A} (node : string) (r : request A) (x : result go_error A) : option listing :=
  match r in request A return result go_error A → option listing with
  | GetVMs n => λ x, if bool_decide (n = node) then Some (ListedVMs x) else None
  | GetContainers n => λ x, if bool_decide (n = node) then Some (ListedCTs x) else None
  | _ => λ _, None
  end x.

Definition listing_of (client : Client) (node : string) (ev : event Op) : option listing :=
  match ev with
  | Ev e x =>
      match e in Op X return X → option listing with
      | Pve c r => λ x, if cl_cluster c =? cl_cluster client then listing_answer node r x else None
      | _ => λ _, None
      end x
  end.

(** What the newest listings say: nothing runs there, or it could not be read. *)
Definition seen_empty (client : Client) (node : string) (l : list (event Op)) : Prop :=
  ∃ vms cts rest, omap (listing_of client node) l = ListedCTs (Ok cts) :: ListedVMs (Ok vms) :: rest ∧
    Forall (λ vm, vm_placed vm = false) vms ∧ Forall (λ ct, g_Status ct ≠ "running"%string) cts.

Definition unreadable (client : Client) (node : string) (l : list (event Op)) : Prop :=
  ∃ e rest, omap (listing_of client node) l = ListedCTs (Err e) :: rest ∨
            omap (listing_of client node) l = ListedVMs (Err e) :: rest.

(** What a job may reboot, after [earlier]. *)
Definition reboot_allowed (job : RollingUpdateJob) (node : RollingUpdateNode) (c : Client) (name : string)
    (earlier : list (event Op)) : Prop :=
  name = node_NodeName node ∧
  (seen_empty c name earlier ∧ (job_DrainGuests job || job_RebootAfterUpdate job) = true ∨
   job_DrainGuests job = true ∧ unreadable c name earlier).

Definition guarded {A} (job : RollingUpdateJob) (node : RollingUpdateNode) (c : Client) (r : request A)
    (earlier : list (event Op)) : Prop :=
  match r with RebootNode name => reboot_allowed job node c name earlier | _ => True end.

Definition reboot_guarded (job : RollingUpdateJob) (node : RollingUpdateNode) (ev : event Op)
    (earlier : list (event Op)) : Prop :=
  match ev with
  | Ev e _ => match e with Pve c r => guarded job node c r earlier | _ => True end
  end.

Definition no_reboot (X : Type) (e : Op X) : Prop :=
  match e with Pve _ r => ordinary_request r | _ => True end.

Lemma ordinary_no_reboot X e : ordinary X e → no_reboot X e.
Proof. by destruct e. Qed.

Section reboot.
Context `{LIB : Library} `{MR : MapRange}.
Variables (job : RollingUpdateJob) (node : RollingUpdateNode).

Abbreviation I := (ForallTail (reboot_guarded job node)).
Abbreviation keeps := (keeps_log I).

Lemma no_reboot_keeps X (e : Op X) x l : no_reboot X e → I l → I (Ev e x :: l).
Proof. intros He Hl. split; [|done]. destruct e; try done. by destruct r. Qed.

Lemma quiet_keeps {A} (p : rprog A) l :
  calls_ok no_reboot (λ _ _ _, True) p any → I l → keeps p (λ _, I) l.
Proof.
  intros Hp Hl. eapply keeps_mono; [|eapply keeps_calls; [exact no_reboot_keeps|exact Hp|exact Hl]].
  by intros a l' [_ ?].
Qed.

(** A call that is neither a reboot nor, possibly, a listing. *)
Lemma keeps_one {X} (e : Op X) (Q : X → list (event Op) → Prop) l :
  no_reboot X e → I l → (∀ x, I (Ev e x :: l) → Q x (Ev e x :: l)) → keeps (ask e) Q l.
Proof.
  intros He Hl HQ. apply keeps_call. intros x. assert (I (Ev e x :: l)) by by apply no_reboot_keeps. eauto.
Qed.

Definition verdict (client : Client) (v : result go_error (list string)) (l : list (event Op)) : Prop :=
  match v with
  | Ok [] => seen_empty client (node_NodeName node) l
  | Ok _ => True
  | Err _ => unreadable client (node_NodeName node) l
  end.

Lemma running_guests_nil vms cts :
  running_guests vms cts = [] →
  Forall (λ vm, vm_placed vm = false) vms ∧ Forall (λ ct, g_Status ct ≠ "running"%string) cts.
Proof.
  unfold running_guests. intros [Hv Hc]%app_nil. apply fmap_nil_inv in Hv, Hc.
  split; apply Forall_forall; intros g Hg.
  - destruct (vm_placed g) eqn:Hp; [|done].
    assert (g ∈ List.filter vm_placed vms) as Hin by by apply elem_of_bfilter.
    rewrite Hv in Hin. by apply elem_of_nil in Hin.
  - intros Hr. assert (g ∈ List.filter (λ ct, bool_decide (g_Status ct = "running")) cts) as Hin.
    { apply elem_of_bfilter. split; [done|]. by apply bool_decide_eq_true_2. }
    rewrite Hc in Hin. by apply elem_of_nil in Hin.
Qed.

Lemma verify_attempts_verdict client n first e l :
  I l → (first = true ∧ n ≠ O) ∨ unreadable client (node_NodeName node) l →
  keeps (verify_attempts client (node_NodeName node) n first e)
    (λ v l', I l' ∧ verdict client v l') l.
Proof.
  revert first e l. induction n as [|n IH]; intros first e l Hl Hpre; simpl.
  { apply keeps_ret. split; [done|]. by destruct Hpre as [[_ ?]|?]. }
  apply keeps_bind.
  assert (∀ down l', (down = true → unreadable client (node_NodeName node) l') → I l' →
    keeps (if down then Ret (Err e)
     else let! vms := pve client (GetVMs (node_NodeName node)) in
          match vms with
          | Err e => verify_attempts client (node_NodeName node) n false (wrap "list VMs" e)
          | Ok vms =>
              let! cts := pve client (GetContainers (node_NodeName node)) in
              match cts with
              | Err e => verify_attempts client (node_NodeName node) n false (wrap "list containers" e)
              | Ok cts => Ret (Ok (running_guests vms cts))
              end
          end) (λ v l', I l' ∧ verdict client v l') l') as Hbody.
  { intros down l' Hdown Hl'. destruct down; [apply keeps_ret; split; [done|by apply Hdown]|].
    apply keeps_bind, keeps_one; [done..|]. intros [vms|ev] H1.
    2: { apply IH; [done|]. right. exists ev. eexists. right. simpl.
         rewrite Z.eqb_refl, bool_decide_eq_true_2 by done. done. }
    apply keeps_bind, keeps_one; [done..|]. intros [cts|ec] H2.
    - apply keeps_ret. split; [done|]. unfold verdict.
      destruct (running_guests vms cts) eqn:Hr; [|done]. apply running_guests_nil in Hr as [? ?].
      exists vms, cts. eexists. simpl. rewrite Z.eqb_refl, bool_decide_eq_true_2 by done. done.
    - apply IH; [done|]. right. exists ec. eexists. left. simpl.
      rewrite Z.eqb_refl, bool_decide_eq_true_2 by done. done. }
  destruct first; simpl.
  - apply keeps_ret. by apply (Hbody false).
  - apply keeps_one; [done..|]. intros down H1. apply (Hbody down); [|done]. intros _.
    destruct Hpre as [[? _]|Hu]; [done|]. destruct Hu as (e' & rest & Hu). exists e', rest. done.
Qed.

Lemma proceed_allowed client v l :
  reboot_decision job v = rebootProceed → verdict client v l →
  reboot_allowed job node client (node_NodeName node) l.
Proof.
  intros Hd Hv. split; [done|]. unfold reboot_decision, decideReboot in Hd. simpl in Hv.
  destruct v as [[|g gs]|e], (job_DrainGuests job), (job_RebootAfterUpdate job); simpl in *; try done.
  all: first [by left|by right].
Qed.
End reboot.

Section reboot_programs.
Context `{LIB : Library} `{MR : MapRange}.
Variables (job : RollingUpdateJob) (node : RollingUpdateNode).

Abbreviation I := (ForallTail (reboot_guarded job node)).
Abbreviation keeps p := (keeps_log I p (λ _, I)).

Lemma ordinary_keeps {A} (p : rprog A) l :
  Ordinary p →
  I l → keeps p l.
Proof. intros Hp. apply quiet_keeps, Ordinary_calls; [exact ordinary_no_reboot|done]. Qed.

(** The reboot itself, with the one query in between. *)
Lemma reboot_keeps {A B} client (q : query A) v (fail : go_error → rprog B) (k : result go_error unit → rprog B) l :
  reboot_decision job v = rebootProceed → verdict node client v l → I l →
  (∀ e l, I l → keeps (fail e) l) → (∀ r l, I l → keeps (k r) l) →
  keeps (let! r := db q in
         match r with
         | Err e => fail e
         | Ok _ => let! r := pve client (RebootNode (node_NodeName node)) in k r
         end) l.
Proof.
  intros Hd Hv Hl Hf Hk. apply keeps_bind, keeps_one; [done..|]. intros [a|e] H1; [|by apply Hf].
  apply keeps_bind, keeps_call. intros r. cut (I (Ev (Pve client (RebootNode (node_NodeName node))) r :: Ev (Query q) (Ok a) :: l)).
  { intros H2. split; [done|]. by apply Hk. }
  split; [|done]. simpl. eapply proceed_allowed; [exact Hd|]. by destruct v as [[]|].
Qed.

Lemma then_keeps {A B} (p : rprog A) (k : A → rprog B) l :
  Ordinary p →
  I l → (∀ a l, I l → keeps (k a) l) → keeps (bind p k) l.
Proof. intros Hp Hl Hk. apply keeps_bind. eapply keeps_mono; [|by apply ordinary_keeps]. eauto. Qed.

Lemma failNode_keeps reason l : I l → keeps (failNode job node reason) l.
Proof. apply ordinary_keeps. auto with ordinary. Qed.
Lemma publish_keeps cl j a l : I l → keeps (publishEvent cl j a) l.
Proof. apply ordinary_keeps. auto with ordinary. Qed.
Lemma db_keeps {A B} (q : query A) (k : result go_error A → rprog B) l :
  I l → (∀ r l, I l → keeps (k r) l) → keeps (let! r := db q in k r) l.
Proof. intros. apply then_keeps; try done. auto with ordinary. Qed.

Lemma finish_upgrade_keeps client needs l : I l → keeps (finish_upgrade client job node needs) l.
Proof.
  intros Hl. unfold finish_upgrade. destruct needs.
  2: { apply db_keeps; [done|]. intros [] ? ?; [by apply publish_keeps|by apply keeps_ret]. }
  apply keeps_bind. eapply keeps_mono; [|apply verify_attempts_verdict; [exact Hl|by left]].
  intros v l' [Hl' Hv]. simpl. destruct (reboot_decision job v) eqn:Hd.
  - apply (reboot_keeps client (SetNodeUpgradeCompleted (node_ID node)) v); try done.
    + intros. by apply keeps_ret.
    + intros [] l1 Hl1; [by apply publish_keeps|by apply failNode_keeps].
  - apply db_keeps; [done|]. intros [] ? ?; [by apply publish_keeps|by apply keeps_ret].
  - by apply failNode_keeps.
Qed.

Lemma ssh_keeps {B} cfg cmd (k : result go_error SSHResult → rprog B) l :
  I l → (∀ r l, I l → keeps (k r) l) → keeps (let! r := ask (SSHExecute cfg cmd) in k r) l.
Proof. intros Hl Hk. apply keeps_bind, keeps_one; [done..|]. eauto. Qed.

Lemma interrupted_keeps {B} e (k : bool → rprog B) l :
  I l → (∀ b l, I l → keeps (k b) l) → keeps (let! b := interrupted e in k b) l.
Proof. intros. apply then_keeps; try done. auto with ordinary. Qed.

Lemma runSSHUpgrade_keeps client cfg l : I l → keeps (runSSHUpgrade job node client cfg) l.
Proof.
  intros Hl. unfold runSSHUpgrade. apply then_keeps; [|done|].
  { auto with ordinary. }
  intros _ l1 Hl1. destruct (exclude_args _ _); [|by apply failNode_keeps].
  apply ssh_keeps; [done|]. intros [res|e] l2 Hl2.
  2: { apply interrupted_keeps; [done|]. intros [] ? ?; [by apply keeps_ret|by apply failNode_keeps]. }
  apply then_keeps; [|done|]. { auto with ordinary. }
  intros _ l3 Hl3. destruct (negb _); [by apply failNode_keeps|].
  apply then_keeps; [|done|]. { auto with ordinary. }
  intros [] l4 Hl4; [by apply keeps_ret|]. apply keeps_bind. unfold reboot_wanted.
  destruct (job_RebootAfterUpdate job). { apply keeps_ret. by apply finish_upgrade_keeps. }
  apply keeps_bind, keeps_one; [done..|]. intros [r|e] l5.
  - apply keeps_ret. by apply finish_upgrade_keeps.
  - apply keeps_bind. eapply keeps_mono; [|apply (ordinary_keeps (interrupted e)); [|done]].
    + intros [] l6 Hl6; apply keeps_ret; [by apply keeps_ret|by apply finish_upgrade_keeps].
    + auto with ordinary.
Qed.

Lemma ConfirmUpgrade_keeps l : I l → keeps (ConfirmUpgrade job node) l.
Proof.
  intros Hl. unfold ConfirmUpgrade. destruct (negb _); [by apply keeps_ret|].
  apply then_keeps; [|done|]. { auto with ordinary. }
  intros [e|] l1 Hl1; [by apply keeps_ret|]. destruct (job_RebootAfterUpdate job).
  2: { apply db_keeps; [done|]. intros [] l2 Hl2; [|by apply keeps_ret].
       apply db_keeps; [done|]. intros [] l3 Hl3; [|by apply keeps_ret].
       apply then_keeps; [|done|]; [auto with ordinary|]. intros. by apply keeps_ret. }
  apply then_keeps; [|done|]. { auto with ordinary. }
  intros [client|e] l2 Hl2; [|by apply keeps_ret].
  apply keeps_bind. eapply keeps_mono; [|apply verify_attempts_verdict; [exact Hl2|by left]].
  intros v l' [Hl' Hv]. simpl. destruct (reboot_decision job v) eqn:Hd.
  - apply (reboot_keeps client (ConfirmNodeUpgrade (node_ID node)) v); try done.
    + intros. by apply keeps_ret.
    + intros [[]|e] l3 Hl3.
      * apply db_keeps; [done|]. intros [] l4 Hl4; [|by apply keeps_ret].
        apply then_keeps; [|done|]; [auto with ordinary|]. intros. by apply keeps_ret.
      * apply then_keeps; [|done|]; [auto with ordinary|]. intros _ l4 Hl4.
        apply then_keeps; [|done|]; [auto with ordinary|]. intros. by apply keeps_ret.
  - apply db_keeps; [done|]. intros [] l3 Hl3; [|by apply keeps_ret].
    apply then_keeps; [|done|]; [auto with ordinary|]. intros. by apply keeps_ret.
  - by apply keeps_ret.
Qed.
End reboot_programs.

(** ** Commands *)

Definition safe_byte (c : ascii) : bool := pkg_byte c || ascii_eqb c " ".

(** What may be run over SSH for a job: the fixed reboot check, or the fixed upgrade command with one
    option per excluded package. *)
Definition allowed_command (job : RollingUpdateJob) (cmd : string) : Prop :=
  cmd = rebootCheckCommand ∨
  ∃ args, cmd = upgrade_command args ∧
    args = foldr (λ pkg rest, " --exclude " +:+ pkg +:+ rest) "" (job_PackageExcludes job) ∧
    forallb safe_byte (bytes_of args) = true.

Definition command_ok (job : RollingUpdateJob) (X : Type) (e : Op X) : Prop :=
  match e with SSHExecute _ cmd => allowed_command job cmd | _ => True end.

Lemma valid_name_safe pkg : isValidDebianPkgName pkg = true → forallb safe_byte (bytes_of pkg) = true.
Proof.
  destruct pkg as [|c rest]; simpl; [done|]. intros [[Hc Hr]%andb_prop _]%andb_prop. apply andb_true_intro. split.
  - unfold safe_byte, pkg_byte. by rewrite Hc.
  - rewrite forallb_forall in *. intros b Hb. unfold safe_byte. by rewrite (Hr b Hb).
Qed.

Lemma exclude_args_safe args pkgs out :
  exclude_args args pkgs = inl out → forallb safe_byte (bytes_of args) = true →
  out = args +:+ foldr (λ pkg rest, " --exclude " +:+ pkg +:+ rest) "" pkgs ∧
  forallb safe_byte (bytes_of out) = true.
Proof.
  revert args. induction pkgs as [|pkg pkgs IH]; simpl; intros args H Ha.
  { injection H as <-. by rewrite app_string_nil_r. }
  destruct (isValidDebianPkgName pkg) eqn:Hv; [|done]. apply IH in H as [-> H].
  - split; [by rewrite <-!app_string_assoc|done].
  - rewrite !bytes_of_app, !forallb_app, Ha, (valid_name_safe pkg Hv). done.
Qed.

Section commands.
Context `{LIB : Library} `{MR : MapRange}.
Variables (job : RollingUpdateJob) (node : RollingUpdateNode) (client : Client) (cfg : SSHConfig).

Abbreviation calls p := (calls_ok (command_ok job) (λ _ _ _, True) p any).

Lemma ordinary_command X e : ordinary X e → command_ok job X e.
Proof. by destruct e. Qed.

Lemma ordinary_calls {A} (p : rprog A) : Ordinary p → calls p.
Proof. apply Ordinary_calls, ordinary_command. Qed.
#[local] Hint Resolve ordinary_calls : ordinary.

Lemma then_calls {A B} (p : rprog A) (k : A → rprog B) : calls p → (∀ a, calls (k a)) → calls (bind p k).
Proof. intros Hp Hk. apply calls_bind. eapply calls_mono; [|exact Hp]. eauto. Qed.

Lemma ssh_command cmd : allowed_command job cmd → calls (ask (SSHExecute cfg cmd)).
Proof. intros. by apply calls_call. Qed.

Lemma finish_upgrade_commands needs : calls (finish_upgrade client job node needs).
Proof.
  unfold finish_upgrade.
  assert (∀ {A} (q : query A), calls (let! r := db q in
    match r with Ok _ => publishEvent (job_ClusterID job) (job_ID job) "node_health_check_passed"
               | Err _ => Ret tt end)) as Hpass.
  { intros A q. apply then_calls; [auto with ordinary|]. intros []; [auto with ordinary|done]. }
  destruct needs; [|apply Hpass].
  apply then_calls; [auto with ordinary|]. intros v.
  destruct (reboot_decision job v); [|apply Hpass|auto with ordinary].
  apply then_calls; [auto with ordinary|]. intros []; [|done].
  apply then_calls; [by apply calls_call|]. intros []; [auto with ordinary|auto with ordinary].
Qed.

Lemma runSSHUpgrade_commands : calls (runSSHUpgrade job node client cfg).
Proof.
  unfold runSSHUpgrade.
  apply then_calls; [auto with ordinary|]. intros _.
  destruct (exclude_args "" (job_PackageExcludes job)) as [args|pkg] eqn:He; [|auto with ordinary].
  apply exclude_args_safe in He as [Hargs Hsafe]; [|done].
  apply then_calls. { apply ssh_command. right. by exists args. }
  intros [res|e].
  2: { apply then_calls; [auto with ordinary|]. intros []; [done|auto with ordinary]. }
  apply then_calls; [auto with ordinary|]. intros _.
  destruct (negb _); [auto with ordinary|].
  apply then_calls; [auto with ordinary|]. intros []; [done|].
  apply then_calls; [|intros []; [apply finish_upgrade_commands|done]].
  unfold reboot_wanted. destruct (job_RebootAfterUpdate job); [done|].
  apply then_calls. { apply ssh_command. by left. }
  intros []; [done|]. apply then_calls; [auto with ordinary|done].
Qed.

Lemma exclude_args_invalid args pkgs :
  forallb isValidDebianPkgName pkgs = false → ∃ pkg, exclude_args args pkgs = inr pkg.
Proof.
  revert args. induction pkgs as [|p pkgs IH]; simpl; intros args; [done|].
  destruct (isValidDebianPkgName p); simpl; eauto.
Qed.

Lemma runSSHUpgrade_invalid :
  forallb isValidDebianPkgName (job_PackageExcludes job) = false →
  calls_ok ordinary (λ _ _ _, True) (runSSHUpgrade job node client cfg) any.
Proof.
  intros Hf. destruct (exclude_args_invalid "" _ Hf) as [pkg He]. unfold runSSHUpgrade. rewrite He.
  apply calls_bind. eapply calls_mono; [|apply (Ordinary_calls ordinary); [done|auto with ordinary]].
  intros _ _. apply Ordinary_calls; auto with ordinary.
Qed.
End commands.

(** ** Migrations that meet a lock *)

Definition migrate_answer {A} (r : request A) (x : result go_error A) : option (result go_error string) :=
  match r in request A return result go_error A → option (result go_error string) with
  | MigrateVM _ _ _ | MigrateCT _ _ _ => λ x, Some x
  | _ => λ _, None
  end x.

(** The answer to a migration request. *)
Definition migration (ev : event Op) : option (result go_error string) :=
  match ev with
  | Ev e x =>
      match e in Op X return X → option (result go_error string) with
      | Pve _ r => λ x, migrate_answer r x
      | _ => λ _, None
      end x
  end.

Definition locked (ev : event Op) : Prop := match migration ev with Some (Err e) => IsLockedError e = true | _ => False end.

(** A poll of the guest that was answered, and showed it gone or without a lock. *)
Definition settled (guest : GuestSnapshot) (x : result go_error (list ClusterResource)) : Prop :=
  match x with
  | Ok resources =>
      match List.find (matchesGuest (gs_Type guest) (gs_VMID guest)) resources with
      | Some r => cr_Lock r = ""
      | None => True
      end
  | Err _ => False
  end.

(** A wait for the guest, with all its polls: one of them showed it gone or without a lock, or none was answered until
    the deadline, with no shutdown. *)
Definition unlocked (guest : GuestSnapshot) (ev : event Op) : Prop :=
  match ev with
  | Ev e x =>
      match e in Op X return X → Prop with
      | PollGuest _ => λ p, Exists (λ tick, settled guest tick.2) (gp_ticks p) ∨
          Forall (λ tick, is_ok tick.2 = false) (gp_ticks p) ∧ gp_shutdown p = false
      | _ => λ _, False
      end x
  end.

Lemma completed_wait guest ticks lastLock saw since shutdown :
  unlock_ticks (gs_Type guest) (gs_VMID guest) "" ticks lastLock saw since shutdown = "completed"%string →
  Exists (λ tick, settled guest tick.2) ticks ∨
  Forall (λ tick, is_ok tick.2 = false) ticks ∧ shutdown = false ∧ lastLock = "".
Proof.
  revert lastLock saw since. induction ticks as [|[now [resources|e]] ticks IH]; intros lastLock saw since; simpl.
  - destruct shutdown; [done|]. case_bool_decide; [|done]. intros _. by right.
  - destruct (List.find _ resources) as [r|] eqn:Hf.
    + destruct (bool_decide_reflect (cr_Lock r = "")) as [Hl|Hl]; simpl.
      * intros _. left. constructor. simpl. by rewrite Hf.
      * intros [?|(_ & _ & ?)]%IH; [left; by constructor|done].
    + intros _. left. constructor. simpl. by rewrite Hf.
  - intros [?|(? & ? & ?)]%IH; [left; by constructor|right]. split_and!; [by constructor|done..].
Qed.

(** Requests to migrate, and waits for a guest. *)
Definition is_migration (ev : event Op) : bool := match migration ev with Some _ => true | None => false end.
Definition is_wait (ev : event Op) : bool := match ev with Ev e _ => match e with PollGuest _ => true | _ => false end end.

(** A migration is the first call, or follows a wait that followed a refusal for a lock. *)
Definition retry_ok (guest : GuestSnapshot) (ev : event Op) (earlier : list (event Op)) : Prop :=
  migration ev = None ∨ earlier = [] ∨
  ∃ poll refused rest, earlier = poll :: refused :: rest ∧ unlocked guest poll ∧ locked refused.

Definition counted (f : event Op → bool) (l : list (event Op)) : nat := length (List.filter f l).

Lemma counted_rev f l : counted f (rev l) = counted f l.
Proof. unfold counted. by rewrite filter_rev, length_rev. Qed.

Section migrate.
Variable guest : GuestSnapshot.

(** At most three requests and two waits, and nothing else. *)
Definition retries (l : list (event Op)) : Prop :=
  ForallTail (retry_ok guest) l ∧ (counted is_migration l ≤ 3)%nat ∧ (counted is_wait l ≤ 2)%nat ∧
  Forall (λ ev, is_migration ev || is_wait ev = true) l.

Lemma migrate_attempts_keeps client source params n e l :
  retries l → (counted is_migration l + n = 3)%nat → (counted is_wait l + n = 3)%nat →
  (l = [] ∨ ∃ poll refused rest, l = poll :: refused :: rest ∧ unlocked guest poll ∧ locked refused) →
  keeps_log retries (migrate_attempts client source guest params n e) (λ _ l', retries l') l.
Proof.
  revert e l. induction n as [|n IH]; intros e l Hl Hmig Hwait Hpre; simpl; [by apply keeps_ret|].
  apply keeps_bind.
  assert (∀ ev r, migration ev = Some r → is_wait ev = false →
    retries (ev :: l) ∧ counted is_migration (ev :: l) = S (counted is_migration l) ∧
    counted is_wait (ev :: l) = counted is_wait l) as Hnext.
  { intros ev r Hm Hw. assert (is_migration ev = true) as Hi by (unfold is_migration; by rewrite Hm).
    unfold counted. simpl. rewrite Hi, Hw. split_and!; [|done..]. destruct Hl as (Hf & ? & ? & Hall).
    unfold retries, counted. simpl. rewrite Hi, Hw. unfold counted in *. split_and!; [by right|done|simpl; lia|lia|].
    constructor; [by rewrite Hi|done]. }
  assert (∀ ev r, migration ev = Some r → is_wait ev = false →
    keeps_log retries
      match r with
      | Ok upid => Ret (Ok upid)
      | Err e =>
          if negb (IsLockedError e) || Nat.eqb n 0 then Ret (Err e)
          else let! status := waitForGuestUnlocked client (gs_Type guest) (gs_VMID guest) "" in
               if negb (bool_decide (status = "completed")) then Ret (Err e)
               else migrate_attempts client source guest params n e
      end (λ _ l', retries l') (ev :: l)) as Hrest.
  { intros ev r Hm Hw. destruct (Hnext ev r Hm Hw) as (Hev & Hcm & Hcw).
    destruct r as [upid|err]; [by apply keeps_ret|].
    destruct (negb (IsLockedError err)) eqn:Hlock; [by apply keeps_ret|]. apply negb_false_iff in Hlock.
    destruct n as [|n]; [by apply keeps_ret|]. simpl.
    apply keeps_bind, keeps_bind, keeps_call. intros p.
    assert (retries (Ev (PollGuest client) p :: ev :: l)) as Hp.
    { destruct Hev as (Hf & ? & ? & Hall). unfold retries, counted in *. simpl in *.
      split_and!; [by left|apply Hf|apply Hf|done|lia|by constructor]. }
    split; [done|]. apply keeps_ret. simpl.
    destruct (bool_decide _) eqn:Hc; simpl; [|by apply keeps_ret]. apply bool_decide_eq_true, completed_wait in Hc.
    apply (IH err _ Hp).
    - change (counted is_migration (Ev (PollGuest client) p :: ev :: l)) with (counted is_migration (ev :: l)). lia.
    - change (counted is_wait (Ev (PollGuest client) p :: ev :: l)) with (S (counted is_wait (ev :: l))). lia.
    - right. eexists _, _, _. split; [done|]. split; [simpl; naive_solver|]. unfold locked. by rewrite Hm. }
  unfold migrate_call. destruct (bool_decide (gs_Type guest = "qemu")).
  { apply keeps_bind, keeps_call. intros r. split; [by eapply Hnext|]. apply keeps_ret. simpl.
    specialize (Hrest (Ev (Pve client (MigrateVM source (gs_VMID guest) params)) r) r eq_refl eq_refl).
    by destruct r. }
  destruct (bool_decide (gs_Type guest = "lxc")); [|by apply keeps_ret, keeps_ret].
  apply keeps_bind, keeps_call. intros r. split; [by eapply Hnext|]. apply keeps_ret. simpl.
  specialize (Hrest (Ev (Pve client (MigrateCT source (gs_VMID guest) params)) r) r eq_refl eq_refl).
  by destruct r.
Qed.
End migrate.

(** ** Properties *)

(** C18: a node is rebooted only right after its guests were listed. In whatever the automatic upgrade,
    the confirmation of a manual one, or a tick does, every reboot is of the node at hand, and the last
    listing of that node before it shows nothing running; only a job that drains its nodes may go on
    when that listing could not be read, and a job that leaves guests in place reboots only if it was
    asked to. *)
Theorem reboot_guard `{LIB : Library} `{MR : MapRange} job node client cfg t :
  trace (runSSHUpgrade job node client cfg) t ∨ trace (ConfirmUpgrade job node) t ∨ trace Tick t →
  ForallTail (reboot_guarded job node) (rev t).
Proof.
  rewrite <-(app_nil_r (rev t)).
  intros [Ht|[Ht|Ht]]; (eapply keeps_trace; [|exact I|exact Ht]).
  - by apply runSSHUpgrade_keeps.
  - by apply ConfirmUpgrade_keeps.
  - apply ordinary_keeps; [|done]. auto with ordinary.
Qed.

Definition example_client : Client := {| cl_cluster := 1; cl_config := {| cf_BaseURL := "";
  cf_TokenID := ""; cf_TokenSecret := ""; cf_TLSFingerprint := ""; cf_Timeout := 0 |} |}.
Definition example_ssh : SSHConfig := {| ssh_Host := "10.0.0.1"; ssh_Port := 22; ssh_Username := "root";
  ssh_Password := ""; ssh_PrivateKey := "key"; ssh_KnownHostKey := "" |}.
Definition is_reboot (ev : event Op) : bool :=
  match ev with Ev e _ => match e with Pve _ r => match r with RebootNode _ => true | _ => false end | _ => false end end.

Lemma reboot_guard_witness :
  let s := (run (healthy []) (runSSHUpgrade (example_job true) (example_row 11 "pve1") example_client example_ssh)
              (example_sys true)).2 in
  ForallTail (reboot_guarded (example_job true) (example_row 11 "pve1")) (log s) ∧ existsb is_reboot (log s) = true.
Proof.
  split; [|by vm_compute].
  destruct (run_trace (healthy []) log (runSSHUpgrade (example_job true) (example_row 11 "pve1") example_client
    example_ssh) (example_sys true) (healthy_log [])) as (t & Ht & Hl).
  rewrite Hl, app_nil_r. exact (reboot_guard _ _ _ _ t (or_introl Ht)).
Defined.

(** What runs on a node over SSH is fixed. Whatever an automatic upgrade is answered, each command
    it runs is the reboot check or the upgrade command with exactly the job's excluded packages, and
    these add only lower-case letters, digits, dots, plus and minus signs and spaces to it; when one
    name is not a package name, nothing is run at all. *)
Theorem ssh_commands `{LIB : Library} `{MR : MapRange} job node client cfg :
  calls_ok (command_ok job) (λ _ _ _, True) (runSSHUpgrade job node client cfg) (λ _, True) ∧
  (forallb isValidDebianPkgName (job_PackageExcludes job) = true ∨
   calls_ok ordinary (λ _ _ _, True) (runSSHUpgrade job node client cfg) (λ _, True)).
Proof.
  split; [apply runSSHUpgrade_commands|].
  destruct (forallb isValidDebianPkgName (job_PackageExcludes job)) eqn:Hf; [by left|right].
  by apply runSSHUpgrade_invalid.
Qed.

(** C38: a migration that meets a lock is retried at most twice, and only after a wait. Whatever it is answered, a
    migration makes at most three requests to migrate and at most two waits, each a loop of polls up to its deadline, and
    nothing else. Each request after the first directly follows a wait which directly followed a refusal because of a
    lock; in that wait a poll showed the guest without a lock or gone, or no poll at all was answered until the deadline
    and no shutdown came. *)
Theorem migrate_retries client source guest params t :
  trace (migrateWithRetry client source guest params) t →
  (counted is_migration t ≤ 3)%nat ∧ (counted is_wait t ≤ 2)%nat ∧
  Forall (λ ev, is_migration ev || is_wait ev = true) t ∧ ForallTail (retry_ok guest) (rev t).
Proof.
  intros Ht. assert (retries guest []) as H0.
  { unfold retries, counted. simpl. split_and!; [done|lia|lia|constructor]. }
  assert (retries guest (rev t ++ [])) as (Hf & Hm & Hw & Ha).
  { eapply keeps_trace; [|exact H0|exact Ht]. apply migrate_attempts_keeps; [exact H0|done|done|by left]. }
  rewrite app_nil_r in *. rewrite counted_rev in Hm, Hw. split_and!; [done..| |done].
  rewrite Forall_forall in Ha |- *. intros ev Hev. apply Ha, list_elem_of_In. rewrite <-in_rev. by apply list_elem_of_In.
Qed.

Definition locked_answer {X} (e : Op X) (s : Sys) : X * Sys :=
  match e in Op X return X * Sys with
  | Pve c r =>
      match r in request A return result go_error A * Sys with
      | MigrateVM n v p =>
          let x := Err {| err_msg := "VM is locked (migrate)"; err_api := Some (500, "VM is locked (migrate)"); err_is := [] |} in
          (x, {| tables := tables s; log := Ev (Pve c (MigrateVM n v p)) x :: log s |})
      | r => healthy example_vms _ (Pve c r) s
      end
  | e => healthy example_vms _ e s
  end.

Lemma locked_answer_log X (e : Op X) s : log (locked_answer e s).2 = Ev e (locked_answer e s).1 :: log s.
Proof. destruct e; try exact (healthy_log example_vms _ _ s). by destruct r. Qed.

Definition example_snapshot : GuestSnapshot :=
  {| gs_VMID := 102; gs_Name := "vm"; gs_Type := "qemu"; gs_Status := "running"; gs_Passthrough := false |}.

Lemma migrate_retries_witness :
  let p := migrateWithRetry example_client "pve1" example_snapshot {| mp_Target := "pve2"; mp_Online := true |} in
  let l := log (run (@locked_answer) p (example_sys true)).2 in
  ForallTail (retry_ok example_snapshot) l ∧ length l = 5%nat.
Proof.
  intros p l. split; [|by vm_compute].
  destruct (run_trace (@locked_answer) log p (example_sys true) locked_answer_log) as (t & Ht & Hl).
  unfold l. rewrite Hl, app_nil_r. exact (proj2 (proj2 (proj2 (migrate_retries _ _ _ _ t Ht)))).
Defined.
