(* ===== verification/RollingRecords.v ===== *)
(** * A disabled HA rule is never forgotten

    A drain disables the HA rules that name its guests, and only a record on the
    job's row makes sure that they come back. Here: at every point of a tick, a
    restart included, each rule the tick asked Proxmox to disable and has not
    seen enabled or gone again is on the record of a job of that cluster, as long
    as nobody else takes a rule off a record at the same time. *)

From S2P Require Import Prelude GoFloat GoStrings ProxmoxApi Effects Crs DrsRules DrsPlanner DrsExecutor RollingDb.
From S2P Require Import RollingHa RollingOps RollingRelease RollingDrain RollingUpgrade RollingHandlers RollingExample.
From S2P Require Import RollingPrograms RollingSafety.

Local Open Scope Z_scope.

(** ** What the log says of a rule *)

(** A request to disable it, whatever its answer, leaves it disabled; a request to enable it that
    Proxmox accepted, or a list of the rules without it, does not. *)
Definition request_leaves {A} (rule : string) (r : request A) (x : result go_error A) : option bool :=
  match r in request A return result go_error A → option bool with
  | SetHARuleDisabled name _ disabled => λ x,
      if bool_decide (name = rule)
      then if disabled then Some true else match x with Ok _ => Some false | Err _ => None end
      else None
  | GetHARules => λ x,
      match x with
      | Ok l => if contains (hr_Rule <$> l) rule then None else Some false
      | Err _ => None
      end
  | _ => λ _, None
  end x.

Definition leaves (cl : uuid) (rule : string) (ev : event Op) : option bool :=
  match ev with
  | Ev e x =>
      match e in Op X return X → option bool with
      | Pve c r => λ x, if cl_cluster c =? cl then request_leaves rule r x else None
      | _ => λ _, None
      end x
  end.

Fixpoint disabled_in (cl : uuid) (rule : string) (l : list (event Op)) : bool :=
  match l with
  | [] => false
  | ev :: l => default (disabled_in cl rule l) (leaves cl rule ev)
  end.

(** ** What the tables record *)

Definition key (j : RollingUpdateJob) : uuid * uuid * column DisabledHARule :=
  (job_ID j, job_ClusterID j, job_DisabledHaRules j).
Definition keys (d : DB) : list (uuid * uuid * column DisabledHARule) := key <$> jobs d.

Definition names (c : column DisabledHARule) : list string := dr_Rule <$> parseDisabledRules c.

Definition recorded (cl : uuid) (rule : string) (d : DB) : Prop :=
  ∃ id c, (id, cl, c) ∈ keys d ∧ rule ∈ names c.

(** Every rule that may be disabled is recorded. *)
Definition on_record (s : Sys) : Prop :=
  ∀ cl rule, disabled_in cl rule (log s) = true → recorded cl rule (tables s).

(** No job goes, and no rule is taken off a record. *)
Definition grown (d d' : DB) : Prop :=
  ∀ id cl c, (id, cl, c) ∈ keys d → ∃ c', (id, cl, c') ∈ keys d' ∧ ∀ rule, rule ∈ names c → rule ∈ names c'.

#[export] Instance grown_preorder : PreOrder grown.
Proof.
  split; [by intros d id cl c Hk; exists c|]. intros d1 d2 d3 H1 H2 id cl c Hk.
  destruct (H1 id cl c Hk) as (c1 & Hk1 & Hc1). destruct (H2 id cl c1 Hk1) as (c2 & Hk2 & Hc2). exists c2. eauto.
Qed.

Lemma grown_eq d d' : keys d' = keys d → grown d d'.
Proof. intros He id cl c Hk. exists c. by rewrite He. Qed.

Lemma recorded_grown d d' cl rule : grown d d' → recorded cl rule d → recorded cl rule d'.
Proof. intros Hg (id & c & Hk & Hr). destruct (Hg id cl c Hk) as (c' & Hk' & Hc). exists id, c'. eauto. Qed.

(** ** What the queries do to the records *)

Lemma update_job_keys id guard f d :
  (∀ j, key (f j) = key j) → keys (update_job id guard f d).1 = keys d.
Proof.
  intros Hf. unfold keys, update_job. simpl. rewrite <-list_fmap_compose. apply list_fmap_ext.
  intros i j _. unfold compose. by case_match.
Qed.

Lemma update_node_keys id guard f d : keys (update_node id guard f d).1 = keys d.
Proof. done. Qed.

Lemma plain_query_keys {A} (q : query A) now d :
  plain_query q = true → keys (exec_query q now d).1 = keys d.
Proof.
  destruct q; simpl; try done; intros _; try (by apply update_job_keys).
  unfold incrementJobCleanupAttempts. repeat case_match; simplify_eq/=; try done.
  all: match goal with H : _ = Some _ |- _ => revert H end; repeat case_match; intros; simplify_eq/=; try done.
  all: by apply update_job_keys.
Qed.

Definition set_record (id : uuid) (c : column DisabledHARule) (k : uuid * uuid * column DisabledHARule) :
    uuid * uuid * column DisabledHARule :=
  if k.1.1 =? id then (k.1.1, k.1.2, c) else k.

Lemma setJobDisabledHARules_keys id c now d :
  keys (setJobDisabledHARules id c now d).1 = set_record id c <$> keys d.
Proof.
  unfold keys, setJobDisabledHARules, update_job. simpl. rewrite <-!list_fmap_compose. apply list_fmap_ext.
  intros i j _. unfold compose, set_record. simpl. rewrite andb_true_r. by case_match.
Qed.

Section records.
Variable cluster_of : uuid → uuid.

(** Identifiers are unique, and a job stays in its cluster. *)
Definition keyed (d : DB) : Prop :=
  NoDup ((λ k, k.1.1) <$> keys d) ∧ Forall (λ k, k.1.2 = cluster_of k.1.1) (keys d).

Definition safe (s : Sys) : Prop := on_record s ∧ keyed (tables s).

Lemma keyed_eq d d' : keys d' = keys d → keyed d → keyed d'.
Proof. unfold keyed. by intros ->. Qed.

(** What may happen between two calls: anything to the tables, jobs and records that are added included, that takes no
    rule off a record of a job. *)
Definition others (s s' : Sys) : Prop :=
  (keyed (tables s) → keyed (tables s')) ∧ grown (tables s) (tables s') ∧ log s' = log s.

#[export] Instance others_preorder : PreOrder others.
Proof.
  split; [done|]. intros s1 s2 s3 (H1 & H2 & H3) (H4 & H5 & H6).
  split_and!; [auto|by transitivity (tables s2)|congruence].
Qed.

Lemma keyed_set_record id c d now :
  keyed d → keyed (setJobDisabledHARules id c now d).1.
Proof.
  unfold keyed. rewrite setJobDisabledHARules_keys, <-list_fmap_compose, Forall_fmap.
  intros [Hn Hc]. split.
  - replace ((λ k, k.1.1) ∘ set_record id c <$> keys d) with ((λ k, k.1.1) <$> keys d); [done|].
    apply list_fmap_ext. intros i k _. unfold compose, set_record. by case_match.
  - eapply Forall_impl; [exact Hc|]. intros k Hk. unfold compose, set_record. by case_match.
Qed.

(** The rule is on the record of another job of the cluster. *)
Definition recorded_but (id cl : uuid) (rule : string) (d : DB) : Prop :=
  ∃ id' c, id' ≠ id ∧ (id', cl, c) ∈ keys d ∧ rule ∈ names c.

Lemma recorded_but_grown d d' id cl rule : grown d d' → recorded_but id cl rule d → recorded_but id cl rule d'.
Proof. intros Hg (id' & c & Hne & Hk & Hr). destruct (Hg id' cl c Hk) as (c' & Hk' & Hc). exists id', c'. eauto. Qed.

(** A record that keeps every rule that is still disabled and that no other job has may replace the old one. *)
Lemma on_record_set id c0 c d0 now s' :
  keyed d0 → (id, cluster_of id, c0) ∈ keys d0 →
  (∀ cl rule, disabled_in cl rule (log s') = true → recorded cl rule d0) →
  tables s' = (setJobDisabledHARules id c now d0).1 →
  (∀ rule, disabled_in (cluster_of id) rule (log s') = true →
     rule ∈ names c ∨ recorded_but id (cluster_of id) rule d0) →
  on_record s'.
Proof.
  intros [_ Hcl] Hk0 Hin Ht Hc cl rule Hd. unfold recorded. rewrite Ht, setJobDisabledHARules_keys.
  assert (∀ id' c', id' ≠ id → (id', cl, c') ∈ keys d0 → rule ∈ names c' →
    ∃ id1 c1, (id1, cl, c1) ∈ set_record id c <$> keys d0 ∧ rule ∈ names c1) as Hother.
  { intros id' c' Hne Hk Hr. exists id', c'. split; [|done]. apply list_elem_of_fmap. exists (id', cl, c').
    split; [|done]. unfold set_record. simpl. by rewrite (proj2 (Z.eqb_neq id' id) Hne). }
  destruct (decide (cl = cluster_of id)) as [->|Hne].
  - destruct (Hc rule Hd) as [Hr|(id' & c' & Hne & Hk & Hr)]; [|by eapply Hother].
    exists id, c. split; [|done]. apply list_elem_of_fmap. exists (id, cluster_of id, c0).
    split; [|done]. unfold set_record. simpl. by rewrite Z.eqb_refl.
  - destruct (Hin cl rule Hd) as (id' & c' & Hk & Hr). apply (Hother id' c'); [|done|done]. intros ->.
    rewrite Forall_forall in Hcl. by apply Hcl in Hk.
Qed.

(** ** States where less is disabled *)

Definition calmer (s s' : Sys) : Prop :=
  (keyed (tables s) → keyed (tables s')) ∧ grown (tables s) (tables s') ∧
  ∀ cl rule, disabled_in cl rule (log s') = true → disabled_in cl rule (log s) = true.

(** What stays true as rules are enabled and anything else happens. *)
Class Frame (F : Sys → Prop) := {
  frame_calmer s s' : calmer s s' → F s → F s';
  frame_safe s : F s → safe s;
}.

#[export] Instance safe_frame : Frame safe.
Proof.
  split; [|done]. intros s s' (Hy' & Hg & Hd) [Hr Hy]. split; [|auto].
  intros cl rule H. eapply recorded_grown; [exact Hg|]. by apply Hr, Hd.
Qed.

#[export] Instance frame_and F (G : Sys → Prop) :
  Frame F → (∀ s s', calmer s s' → G s → G s') → Frame (λ s, F s ∧ G s).
Proof.
  intros HF HG. split; [|intros s [H _]; by apply frame_safe].
  intros s s' Hc [H1 H2]. split; [by eapply frame_calmer|eauto].
Qed.

Lemma others_calmer s s' : others s s' → calmer s s'.
Proof. intros (Hy & Hg & Hl). split_and!; [done..|]. by rewrite Hl. Qed.

(** The calls that disable nothing and leave the records alone. *)
Definition calm {X} (e : Op X) : bool :=
  match e with
  | Pve _ r => match r with SetHARuleDisabled _ _ d => negb d | _ => true end
  | Query q => plain_query q
  | _ => true
  end.

Lemma plain_calm X (e : Op X) : plain e = true → calm e = true.
Proof. destruct e; simpl; try done. by destruct r. Qed.

Lemma calm_leaves X (e : Op X) x cl rule : calm e = true → leaves cl rule (Ev e x) ≠ Some true.
Proof.
  destruct e; simpl; try done. destruct (cl_cluster c =? cl); [|done]. destruct r; simpl; try done.
  - intros _. destruct x as [l|]; [|done]. by case_match.
  - destruct disabled; [done|]. intros _. case_match; [|done]. by destruct x.
Qed.

Lemma calm_keys X (e : Op X) d x d' : calm e = true → may_answer e d x d' → keys d' = keys d.
Proof.
  intros He. destruct e; simpl; first [by intros ->|by intros [-> _]|idtac].
  intros [[now Hq]|(err & _ & [->|[now <-]])]; [|done|by apply plain_query_keys].
  replace d' with (exec_query q now d).1 by by rewrite Hq. by apply plain_query_keys.
Qed.

Lemma calm_step X (e : Op X) s x s' : calm e = true → step e s x s' → calmer s s'.
Proof.
  intros He [Ha Hl]. pose proof (calm_keys _ _ _ _ _ He Ha) as Hk.
  split_and!; [by eapply keyed_eq|by apply grown_eq|]. intros cl rule. rewrite Hl.
  change (disabled_in cl rule (Ev e x :: log s)) with (default (disabled_in cl rule (log s)) (leaves cl rule (Ev e x))).
  pose proof (calm_leaves X e x cl rule He). by destruct (leaves cl rule (Ev e x)) as [[]|].
Qed.

Abbreviation wps := (wp (@step) others on_record).

Lemma wps_bind {A B} (p : rprog A) (f : A → rprog B) Q s : wps p (λ a, wps (f a) Q) s → wps (bind p f) Q s.
Proof. apply wp_bind; apply _. Qed.
Lemma wps_mono {A} (p : rprog A) Q Q' s : (∀ a s', Q a s' → Q' a s') → wps p Q s → wps p Q' s.
Proof. apply wp_mono; apply _. Qed.
Lemma wps_others {A} (p : rprog A) Q s s' : others s s' → wps p Q s → wps p Q s'.
Proof. apply wp_rely; apply _. Qed.
Lemma wps_ret F `{!Frame F} {A} (a : A) (Q : A → Sys → Prop) s :
  F s → (∀ s', F s' → calmer s s' → Q a s') → wps (Ret a) Q s.
Proof.
  intros Hs HQ s' Ho%others_calmer. apply HQ; [|done]. by eapply frame_calmer.
Qed.

Lemma wp_calm (F : Sys → Prop) `{!Frame F} {X} (e : Op X) (Q : X → Sys → Prop) s :
  calm e = true → F s →
  (∀ s1 x s2, F s2 → step e s1 x s2 → Q x s2) → (∀ x s2 s3, others s2 s3 → Q x s2 → Q x s3) → wps (ask e) Q s.
Proof.
  intros He Hs HQ Hm s1 H1 x s2 H2.
  assert (F s2). { eapply frame_calmer; [by eapply calm_step|]. eapply frame_calmer; [by apply others_calmer|done]. }
  split; [by apply frame_safe|]. intros s3 H3. eapply Hm; [done|]. by eapply HQ.
Qed.

(** ** Programs that keep a frame *)

Definition good (F : Sys → Prop) (A : Type) (p : rprog A) : Prop := ∀ s, F s → wps p (λ _ s', F s') s.

#[export] Instance good_closed F : Frame F → Closed (good F).
Proof.
  intros HF. constructor.
  - intros A a s Hs s' Ho. eapply frame_calmer; [by apply others_calmer|done].
  - intros A B p k Hp Hk s Hs. apply wps_bind. eapply wps_mono; [|by apply Hp].
    intros a s'. apply Hk.
Qed.

Lemma calm_good F `{!Frame F} X (e : Op X) : calm e = true → good F X (ask e).
Proof. intros He s Hs. apply (wp_calm F); try done. intros x s2 s3 Ho%others_calmer. by apply frame_calmer. Qed.

Lemma plain_good F `{!Frame F} X (e : Op X) : plain e = true → good F X (ask e).
Proof. intros He. by apply calm_good, plain_calm. Qed.

(** ** Enabling rules *)

(** Of the rules asked for, those not left over are not disabled any more. *)
Definition enabled_but (cl : uuid) (rules remaining : list DisabledHARule) (s : Sys) : Prop :=
  ∀ rule, rule ∈ dr_Rule <$> rules → rule ∉ dr_Rule <$> remaining → disabled_in cl rule (log s) = false.

Lemma calmer_false cl rule s s' :
  calmer s s' → disabled_in cl rule (log s) = false → disabled_in cl rule (log s') = false.
Proof. intros (_ & _ & Hd) H. apply not_true_iff_false. intros H'. apply Hd in H'. congruence. Qed.

Lemma enabled_but_calmer cl rules remaining s s' :
  calmer s s' → enabled_but cl rules remaining s → enabled_but cl rules remaining s'.
Proof. intros Hc He rule H1 H2. eapply calmer_false; [exact Hc|]. by apply He. Qed.

Lemma enable_each_wp F `{!Frame F} client rules s :
  F s → wps (enable_each client rules)
          (λ r s', F s' ∧ enabled_but (cl_cluster client) rules r.2 s') s.
Proof.
  revert F Frame0 s. induction rules as [|r0 rules IH]; intros F HF s Hs; simpl.
  { apply (wps_ret F); [done|]. intros s' Hs' _. split; [done|]. intros rule Hr. by apply elem_of_nil in Hr. }
  set (cl := cl_cluster client).
  set (G := λ (x : result go_error unit) s, is_ok x = true → disabled_in cl (dr_Rule r0) (log s) = false).
  assert (∀ x s s', calmer s s' → G x s → G x s') as HG.
  { intros x s1 s2 Hc H Hx. eapply calmer_false; [exact Hc|]. by apply H. }
  apply wps_bind. apply (wp_calm F); [done|done| |].
  - intros s1 x s2 Hs2 [_ Hl]. apply wps_bind.
    assert (G x s2) as Hx.
    { intros Hok. destruct x; [|done]. rewrite Hl. simpl. fold cl. rewrite Z.eqb_refl.
      by rewrite bool_decide_eq_true_2. }
    assert (Frame (λ s, F s ∧ G x s)) by (apply frame_and; [done|apply HG]).
    eapply wps_mono; [|by apply (IH (λ s, F s ∧ G x s))].
    intros [enabled remaining] s3 [[Hs3 Hx3] He]. simpl in He.
    apply (wps_ret (λ s, F s ∧ G x s)); [done|]. intros s4 [Hs4 Hx4] Hc. split; [done|].
    intros rule Hin Hout. destruct (decide (rule = dr_Rule r0)) as [->|Hne].
    + apply Hx4. destruct x; [done|]. exfalso. apply Hout. left.
    + eapply calmer_false; [exact Hc|]. apply He.
      * apply elem_of_cons in Hin as [?|?]; [done|]. done.
      * intros Hr. apply Hout. destruct x; [done|]. by right.
  - intros x s2 s3. apply wps_others.
Qed.

Lemma reenable_wp F `{!Frame F} client rules s :
  F s → wps (reenableHARulesDetailed client rules)
          (λ r s', F s' ∧ enabled_but (cl_cluster client) rules r.2 s') s.
Proof.
  intros Hs. unfold reenableHARulesDetailed. apply wps_bind.
  eapply wps_mono; [|by apply (enable_each_wp F)]. intros [enabled remaining] s1 [H1 He]. simpl in He.
  assert (Frame (λ s, F s ∧ enabled_but (cl_cluster client) rules remaining s)).
  { apply frame_and; [done|]. apply enabled_but_calmer. }
  destruct remaining as [|r remaining].
  { apply (wps_ret (λ s, F s ∧ enabled_but (cl_cluster client) rules [] s)); [done|]. by intros s2 H2 _. }
  set (rem := r :: remaining) in *. apply wps_bind.
  apply (wp_calm (λ s, F s ∧ enabled_but (cl_cluster client) rules rem s)); [done|done| |].
  2: { intros x s2 s3. apply wps_others. }
  intros s2 x s3 [H3 He3] [_ Hl]. apply (wps_ret F); [done|]. intros s4 H4 Hc. split; [done|].
  destruct x as [current|]; cbn [snd]; [|by eapply enabled_but_calmer].
  intros rule Hin Hout. eapply calmer_false; [exact Hc|]. rewrite Hl. simpl. rewrite Z.eqb_refl.
  destruct (contains (hr_Rule <$> current) rule) eqn:Hcur; [|done]. simpl.
  assert (disabled_in (cl_cluster client) rule (log s3) = false) as H'.
  { apply He3; [done|]. intros Hr. apply Hout. apply list_elem_of_fmap in Hr as (r' & -> & Hr').
    apply list_elem_of_fmap. exists r'. split; [done|]. by apply elem_of_bfilter. }
  rewrite Hl in H'. simpl in H'. by rewrite Z.eqb_refl, Hcur in H'.
Qed.

Lemma releaseRuleRecord_wp F F' `{!Frame F} `{!Frame F'} client job rules node audit persist s :
  (∀ remaining s, F s → enabled_but (cl_cluster client) rules remaining s →
     wps (persist remaining) (λ _ s', F' s') s) →
  F s → wps (releaseRuleRecord client job rules node audit persist) (λ _ s', F' s') s.
Proof.
  intros Hp Hs. unfold releaseRuleRecord. apply wps_bind.
  eapply wps_mono; [|by apply (reenable_wp F)]. intros [enabled remaining] s1 [H1 He]. simpl in He.
  assert (Frame (λ s, F s ∧ enabled_but (cl_cluster client) rules remaining s)) as HFe.
  { apply frame_and; [done|]. apply enabled_but_calmer. }
  apply wps_bind. eapply wps_mono;
    [|apply (for_each_good (good (λ s, F s ∧ enabled_but (cl_cluster client) rules remaining s))); [|by split]].
  2: { intros. by apply plain_good. }
  intros _ s2 [H2 He2]. apply wps_bind. eapply wps_mono; [|by apply Hp]. intros persisted s3 H3.
  assert (∀ cl j a x, good F' _ (auditLog cl j a x)) as Hlog by (intros; by apply plain_good).
  refine ((_ : good F' bool _) s3 H3).
  destruct remaining; [destruct (negb persisted); [apply good_ret|]|].
  - apply good_bind; [apply Hlog|]. intros. apply good_ret.
  - apply good_bind; [destruct audit; [apply Hlog|apply good_ret]|]. intros. apply good_ret.
Qed.

(** ** Releasing a job *)

(** The job has a record, and what is disabled in its cluster is in [c] or on the record of another job. *)
Definition holds (id : uuid) (c : column DisabledHARule) (s : Sys) : Prop :=
  safe s ∧ (∃ c', (id, cluster_of id, c') ∈ keys (tables s)) ∧
  ∀ rule, disabled_in (cluster_of id) rule (log s) = true →
    rule ∈ names c ∨ recorded_but id (cluster_of id) rule (tables s).

#[export] Instance holds_frame id c : Frame (holds id c).
Proof.
  apply frame_and; [apply _|]. intros s s' (_ & Hg & Hd) [(c' & Hk) Hr]. split.
  - destruct (Hg _ _ _ Hk) as (c1 & ? & _). by exists c1.
  - intros rule H. destruct (Hr rule (Hd _ _ H)) as [?|?]; [by left|right; by eapply recorded_but_grown].
Qed.

Lemma keyed_unique d id cl c c' : keyed d → (id, cl, c) ∈ keys d → (id, cl, c') ∈ keys d → c = c'.
Proof.
  intros [Hn _] H1 H2. apply list_elem_of_lookup in H1 as [i1 H1], H2 as [i2 H2].
  assert (i1 = i2) as ->.
  { eapply NoDup_lookup; [exact Hn| |]; rewrite list_lookup_fmap; [by rewrite H1|by rewrite H2]. }
  congruence.
Qed.

(** What a write of the record answers and leaves. *)
Lemma set_step id c s x s' :
  step (Query (SetJobDisabledHARules id c)) s x s' →
  log s' = Ev (Query (SetJobDisabledHARules id c)) x :: log s ∧
  (tables s' = tables s ∧ is_ok x = false ∨ ∃ now, tables s' = (setJobDisabledHARules id c now (tables s)).1).
Proof.
  intros [[[now Hx]|(err & -> & [Ht|[now Ht]])] Hl]; (split; [done|]).
  - right. exists now. simpl in Hx. by injection Hx.
  - by left.
  - right. exists now. by rewrite <-Ht.
Qed.

Lemma set_disabled_in id c s x s' cl rule :
  step (Query (SetJobDisabledHARules id c)) s x s' → disabled_in cl rule (log s') = disabled_in cl rule (log s).
Proof. by intros [Hl _]%set_step; rewrite Hl. Qed.

Lemma others_safe s s' : others s s' → safe s → safe s'.
Proof. intros Ho%others_calmer. by apply frame_calmer. Qed.

(** Writing a record that keeps what is still disabled. *)
Lemma set_safe id c0 c s x s' :
  holds id c0 s → step (Query (SetJobDisabledHARules id c)) s x s' →
  (∀ rule, rule ∈ names c0 → disabled_in (cluster_of id) rule (log s) = true → rule ∈ names c) →
  safe s'.
Proof.
  intros ([Hr Hk] & [c' Hin] & Hrec) Hst Hc.
  assert (∀ cl rule, disabled_in cl rule (log s') = disabled_in cl rule (log s)) as Hd.
  { intros. by eapply set_disabled_in. }
  apply set_step in Hst as [_ [[Ht _]|[now Ht]]].
  - split; [|by rewrite Ht]. intros cl rule H. rewrite Ht. apply Hr. by rewrite <-Hd.
  - split; [|rewrite Ht; by apply keyed_set_record].
    eapply (on_record_set id c' c (tables s) now); [done|done| |done|].
    + intros cl rule H. apply Hr. by rewrite <-Hd.
    + intros rule H. rewrite Hd in H. destruct (Hrec rule H) as [?|?]; [left; by apply Hc|by right].
Qed.

Lemma persist_wp id c remaining s :
  holds id c s → enabled_but (cluster_of id) (parseDisabledRules c) remaining s →
  wps (persistJobDisabledRules id remaining) (λ _ s', safe s') s.
Proof.
  intros Hs He. unfold persistJobDisabledRules. apply wps_bind. intros s1 Ho x s2 Hst.
  assert (safe s2) as H2.
  { eapply (set_safe id c); [by eapply frame_calmer; [apply others_calmer|]|exact Hst|].
    intros rule Hr Hd. destruct (decide (rule ∈ dr_Rule <$> remaining)) as [|Hn]; [done|].
    destruct Ho as (_ & _ & Hl). rewrite Hl, (He rule Hr Hn) in Hd. done. }
  split; [apply H2|]. intros s3 H3. apply (wps_ret safe); [by eapply others_safe|done].
Qed.

(** ** Clients *)

Definition client_answer {X} (e : Op X) (x : X) : Prop :=
  match e in Op X return X → Prop with
  | CacheGet cl => λ x, match x with Some (Ok c) => cl_cluster c = cl | _ => True end
  | NewClient cl _ => λ x, match x with Ok c => cl_cluster c = cl | Err _ => True end
  | _ => λ _, True
  end x.

Lemma calls_wps F `{!Frame F} {A} (p : rprog A) (Q : A → Prop) s :
  calls_ok (λ _ e, plain e = true) (@client_answer) p Q → F s → wps p (λ a s', F s' ∧ Q a) s.
Proof.
  intros Hp. revert s. induction p as [a|X e k IH]; intros s Hs.
  - apply (wps_ret F); [done|]. intros s' Hs' _. split; [done|]. exact Hp.
  - destruct Hp as [He Hk]. intros s1 H1 x s2 H2.
    assert (F s2) as H2'.
    { eapply frame_calmer; [by eapply calm_step, H2; apply plain_calm|].
      eapply frame_calmer; [by apply others_calmer|done]. }
    split; [by apply frame_safe|]. apply IH; [|done]. apply Hk. destruct H2 as [Ha _].
    destruct e; simpl in *; try done; destruct x; simpl; naive_solver.
Qed.

Section client_calls.
Context `{LIB : Library}.
Abbreviation calls := (calls_ok (λ _ e, plain e = true) (@client_answer)).

Lemma calls_plain {X} (e : Op X) (Q : X → Prop) :
  plain e = true → (∀ x, client_answer e x → Q x) → calls (ask e) Q.
Proof. intros He HQ. by apply calls_call. Qed.

Lemma try_failover_client cl targets :
  calls (try_failover cl targets) (λ r, match r with Some c => cl_cluster c = cl | None => True end).
Proof.
  induction targets as [|t targets IH]; simpl; [done|]. apply calls_bind, calls_plain; [done|]. intros [c|] Hc; [|done].
  apply calls_bind, calls_plain; [done|]. by intros [] _.
Qed.

Definition client_of (cl : uuid) (r : result go_error Client) : Prop :=
  match r with Ok c => cl_cluster c = cl | Err _ => True end.

Lemma build_client_client cl : calls (build_client cl) (client_of cl).
Proof.
  unfold build_client. apply calls_bind, calls_plain; [done|]. intros [cluster|] _; [|done].
  apply calls_bind, calls_plain; [done|]. intros [secret|] _; [|done].
  apply calls_bind, calls_plain; [done|]. intros primary Hp. simpl in Hp.
  assert (calls (let! endpoints := failover_endpoints cl in
    let! alt := try_failover cl (failoverTargets cluster secret endpoints) in
    match alt with
    | Some failClient => Ret (Ok failClient)
    | None => match primary with Ok client => Ret (Ok client) | Err e => Ret (Err (wrap "create client" e)) end
    end) (client_of cl)) as Hf.
  { apply calls_bind, calls_bind, calls_plain; [done|]. intros eps _. apply calls_ret, calls_bind.
    eapply calls_mono; [|apply try_failover_client]. intros [c|] Hc; [done|]. by destruct primary. }
  destruct primary as [c|e]; [|exact Hf]. apply calls_bind, calls_plain; [done|].
  intros [l|e] _; [done|]. by destruct (negb _).
Qed.

Lemma createClient_client cl : calls (createClient cl) (client_of cl).
Proof.
  unfold createClient. apply calls_bind, calls_plain; [done|]. intros [[c|e]|] Hc; try apply build_client_client.
  apply calls_bind, calls_plain; [done|]. intros [l|e] _; [done|]. apply build_client_client.
Qed.
End client_calls.

Section release.
Context `{LIB : Library} `{MR : MapRange}.

(** A job that was read is the row of its identifier, with its record. *)
Definition read_job (id : uuid) (j : RollingUpdateJob) (s : Sys) : Prop :=
  job_ID j = id ∧ job_ClusterID j = cluster_of id ∧ holds id (job_DisabledHaRules j) s.

Lemma get_job_wp id s :
  safe s → wps (db (GetRollingUpdateJob id))
             (λ r s', match r with Ok j => read_job id j s' | Err _ => safe s' end) s.
Proof.
  intros Hs s1 Ho x s2 Hst.
  assert (safe s2) as H2.
  { eapply frame_calmer; [by eapply calm_step, Hst|]. by eapply others_safe. }
  split; [apply H2|]. intros s3 Ho3. destruct x as [j|]; [|by eapply others_safe].
  destruct Hst as [[[now Hx]|(err & ? & _)] _]; [|done]. simpl in Hx. injection Hx as Ht Hx.
  destruct (getRollingUpdateJob id (tables s1)) as [j'|] eqn:Hg; [|done]. injection Hx as <-.
  apply find_some in Hg as [Hin Hid]. apply Z.eqb_eq in Hid.
  assert (key j' ∈ keys (tables s2)) as Hk.
  { rewrite <-Ht. apply list_elem_of_fmap. exists j'. split; [done|]. by apply list_elem_of_In. }
  assert (job_ClusterID j' = cluster_of id) as Hc.
  { destruct H2 as [_ [_ Hc]]. eapply Forall_forall in Hc; [|exact Hk]. simpl in Hc. by rewrite Hid in Hc. }
  split_and!; [done..|]. eapply frame_calmer; [by apply others_calmer|].
  unfold key in Hk. rewrite Hid, Hc in Hk. split_and!; [apply H2..|by eexists|]. intros rule Hd.
  destruct H2 as [Hrec Hkeyed]. destruct (Hrec _ _ Hd) as (id' & c' & Hk' & Hr).
  destruct (decide (id' = id)) as [->|Hne]; [left|right; by exists id', c'].
  by rewrite <-(keyed_unique _ _ _ _ _ Hkeyed Hk' Hk).
Qed.

Lemma release_node_rules_good client job audit node : good safe _ (release_node_rules client job audit node).
Proof.
  intros s Hs. apply (releaseRuleRecord_wp safe safe); [|done]. intros remaining s1 H1 _.
  refine ((_ : good safe bool _) s1 H1). apply good_bind; [by apply (plain_good safe)|]. intros. apply good_ret.
Qed.

Lemma both_wps F F' (p q : rprog bool) s :
  wps p (λ _ s', F s') s → (∀ s, F s → wps q (λ _ s', F' s') s) → Frame F' → wps (both p q) (λ _ s', F' s') s.
Proof.
  intros Hp Hq HF. apply wps_bind. eapply wps_mono; [|exact Hp]. intros a s1 H1. apply wps_bind.
  eapply wps_mono; [|by apply Hq]. intros b s2 H2. by apply (wps_ret F').
Qed.

Lemma release_cluster_wp client job nr ns audit id s :
  cl_cluster client = cluster_of id → job_ID job = id →
  holds id (job_DisabledHaRules job) s →
  wps (release_cluster client job (parseDisabledRules (job_DisabledHaRules job)) nr ns audit) (λ _ s', safe s') s.
Proof.
  intros Hc Hid Hs. unfold release_cluster. set (F := holds id (job_DisabledHaRules job)) in *.
  eapply (both_wps F); [|intros s1 H1|apply _].
  { refine ((_ : good F bool _) s Hs). destruct (job_NativeCrsPaused job); [|apply good_ret].
    apply (restoreNativeCRS_good (good F)). intros. by apply (plain_good F). }
  eapply (both_wps safe); [|intros s2 H2|apply _].
  { destruct (parseDisabledRules (job_DisabledHaRules job)) as [|r rules] eqn:Hr.
    { apply (wps_ret F); [done|]. intros s' Hs' _. apply Hs'. }
    apply (releaseRuleRecord_wp F safe); [|done]. intros remaining s2 H2 He. rewrite Hid.
    eapply persist_wp; [exact H2|]. by rewrite Hr, <-Hc. }
  refine ((_ : good safe bool _) s2 H2). apply (both_good (good safe)).
  - apply (all_of_good (good safe)). intros. apply release_node_rules_good.
  - apply good_bind; [apply (prune_running_good (good safe)); intros; by apply (plain_good safe)|]. intros.
    apply (all_of_good (good safe)). intros. apply (release_guests_good (good safe)). intros. by apply (plain_good safe).
Qed.

Lemma releaseJobState_good jobID audit : good safe _ (releaseJobState jobID audit).
Proof.
  intros s Hs. unfold releaseJobState. apply wps_bind. eapply wps_mono; [|by apply get_job_wp].
  intros [job|e] s1 H1; [|by apply (wps_ret safe)]. destruct H1 as (Hid & Hcl & H1).
  set (F := holds jobID (job_DisabledHaRules job)) in *.
  assert (∀ X (e : Op X), plain e = true → good F X (ask e)) as Hplain by (intros; by apply (plain_good F)).
  apply wps_bind. eapply wps_mono; [|by apply Hplain]. simpl.
  intros [nodes|e] s2 H2; [|apply (wps_ret F); [done|]; intros s3 H3 _; apply H3].
  apply wps_bind. eapply wps_mono; [|by apply (release_drs_good (good F) Hplain)]. simpl. intros drs s3 H3.
  assert (∀ released didWork, good safe (bool * bool)
    (do! (if released && job_CleanupPending job then db_ (ClearJobCleanupPending (job_ID job)) else Ret tt) in
     Ret (released, didWork))) as Hfinish.
  { intros released didWork. apply good_bind; [|intros; apply good_ret].
    destruct (released && job_CleanupPending job); [|apply good_ret].
    apply (db__good (good safe)); [|done]. intros. by apply (plain_good safe). }
  destruct (negb _); [apply Hfinish, H3|].
  apply wps_bind. eapply wps_mono; [|apply (calls_wps F); [apply createClient_client|done]].
  intros [client|cerr] s4 [H4 Hc]; simpl.
  - apply wps_bind. eapply wps_mono; [|eapply release_cluster_wp; [|exact Hid|exact H4]; simpl in Hc; congruence].
    intros rest s5 H5. by apply Hfinish.
  - refine ((_ : good safe _ _) s4 (proj1 H4)). apply good_bind; [|intros; apply good_ret].
    destruct audit; [by apply (plain_good safe)|apply good_ret].
Qed.

(** ** Recording and disabling *)

Lemma merge_names existing add :
  (∀ rule, rule ∈ dr_Rule <$> existing → rule ∈ dr_Rule <$> mergeDisabledRules existing add) ∧
  (∀ rule, rule ∈ dr_Rule <$> add → rule ∈ dr_Rule <$> mergeDisabledRules existing add).
Proof.
  revert existing. induction add as [|r add IH]; intros existing; simpl.
  { split; [done|]. intros rule Hr. by apply elem_of_nil in Hr. }
  set (out := if contains (dr_Rule <$> existing) (dr_Rule r) then existing else existing ++ [r]).
  assert (∀ rule, rule ∈ dr_Rule <$> existing → rule ∈ dr_Rule <$> out) as Hsub.
  { intros rule Hr. unfold out. case_match; [done|]. rewrite fmap_app. apply elem_of_app. by left. }
  assert (dr_Rule r ∈ dr_Rule <$> out) as Hr.
  { unfold out. case_match eqn:Hc; [by apply contains_spec in Hc|]. rewrite fmap_app. apply elem_of_app. right. left. }
  destruct (IH out) as [H1 H2]. split; [eauto|]. intros rule [->|?]%elem_of_cons; eauto.
Qed.

(** The record of the job holds the rules. *)
Definition ready (id : uuid) (rules : list DisabledHARule) (s : Sys) : Prop :=
  safe s ∧ ∃ c, (id, cluster_of id, c) ∈ keys (tables s) ∧ ∀ rule, rule ∈ dr_Rule <$> rules → rule ∈ names c.

#[export] Instance ready_frame id rules : Frame (ready id rules).
Proof.
  apply frame_and; [apply _|]. intros s s' (_ & Hg & _) (c & Hk & Hr).
  destruct (Hg _ _ _ Hk) as (c' & Hk' & Hc). exists c'. eauto.
Qed.

Lemma record_wp id rules s :
  safe s → wps (recordJobDisabledHARules id rules)
             (λ r s', safe s' ∧ (is_ok r = true → ready id rules s')) s.
Proof.
  intros Hs. unfold recordJobDisabledHARules. apply wps_bind. eapply wps_mono; [|by apply get_job_wp].
  intros [job|e] s1 H1; [|by apply (wps_ret safe)]. destruct H1 as (Hid & Hcl & H1).
  set (c0 := job_DisabledHaRules job) in *. set (merged := mergeDisabledRules (parseDisabledRules c0) rules).
  destruct (merge_names (parseDisabledRules c0) rules) as [Hold Hnew].
  apply wps_bind. intros s2 Ho x s3 Hst.
  assert (holds id c0 s2) as H2 by (eapply frame_calmer; [by apply others_calmer|done]).
  assert (safe s3) as H3. { eapply (set_safe id c0); [exact H2|exact Hst|]. intros rule Hr _. by apply Hold. }
  split; [apply H3|]. intros s4 Ho4. destruct x as [[]|e].
  2: { apply (wps_ret safe); [by eapply others_safe|]. intros s5 H5 _. by split. }
  assert (ready id rules s4) as H4.
  { eapply frame_calmer; [by apply others_calmer|]. split; [done|].
    apply set_step in Hst as [Hl [[_ ?]|[now Ht]]]; [done|]. exists (Marshal merged). split; [|done].
    destruct H2 as (_ & [c' Hin] & _).
    rewrite Ht, setJobDisabledHARules_keys. apply list_elem_of_fmap. exists (id, cluster_of id, c').
    split; [|done]. unfold set_record. simpl. by rewrite Z.eqb_refl. }
  apply wps_bind. eapply wps_mono; [|apply (db__good (good (ready id rules))); [|done|exact H4]].
  - intros [] s5 H5. apply (wps_ret (ready id rules)); [done|]. intros s6 H6 _. split; [apply H6|done].
  - intros. by apply (plain_good (ready id rules)).
Qed.

Lemma disable_one_good client id rules r :
  cl_cluster client = cluster_of id → r ∈ rules →
  good (ready id rules) _ (pve client (SetHARuleDisabled (dr_Rule r) (dr_Type r) true)).
Proof.
  intros Hc Hr s Hs s1 Ho x s2 [Ha Hl].
  assert (ready id rules s1) as [[H1 Hk] (c & Hin & Hn)] by (eapply frame_calmer; [by apply others_calmer|done]).
  simpl in Ha.
  assert (on_record s2) as H2.
  { intros cl rule. rewrite Hl. simpl. destruct (cl_cluster client =? cl) eqn:Hcl.
    - apply Z.eqb_eq in Hcl as <-. destruct (bool_decide (dr_Rule r = rule)) eqn:Hrule; simpl.
      + intros _. apply bool_decide_eq_true in Hrule as <-. exists id, c. rewrite Ha, Hc. split; [done|].
        apply Hn, list_elem_of_fmap. by exists r.
      + rewrite Ha. apply H1.
    - rewrite Ha. apply H1. }
  split; [done|]. intros s3 Ho3. eapply frame_calmer; [by apply others_calmer|].
  split; [split; [done|by rewrite Ha]|]. exists c. by rewrite Ha.
Qed.

Lemma disable_rules_good client job node rules :
  cl_cluster client = cluster_of (job_ID job) → good safe _ (disable_rules client job node rules).
Proof.
  intros Hc.
  assert (∀ X (e : Op X), plain e = true → good safe X (ask e)) as Hplain by (intros; by apply (plain_good safe)).
  destruct rules as [|r0 rules0] eqn:Hr; [apply good_ret|]. rewrite <-Hr in *.
  set (F := ready (job_ID job) rules).
  intros s Hs. unfold disable_rules. rewrite Hr. rewrite <-Hr. apply wps_bind.
  eapply wps_mono; [|by apply record_wp]. intros [[]|e] s1 [H1 Hready].
  2: { refine ((_ : good safe bool _) s1 H1). apply good_bind; [|intros; apply good_ret].
       apply (failNode_good (good safe) Hplain releaseJobState_good). }
  assert (good F _ (disableHARules client job (node_NodeName node) rules)) as Hdis.
  { apply good_bind; [|intros; by apply (plain_good F)]. apply (for_each_good (good F)). intros r Hin.
    apply good_bind; [by apply disable_one_good|]. intros []; [by apply (plain_good F)|apply good_ret]. }
  apply wps_bind. eapply wps_mono; [|by apply Hdis, Hready]. intros [] s2 H2.
  apply wps_bind. eapply wps_mono; [|apply record_wp, H2]. intros _ s3 [H3 _].
  refine ((_ : good safe bool _) s3 H3). apply good_bind; [by apply (jobStatus_good (good safe))|]. intros status.
  destruct (bool_decide _); [apply good_ret|]. destruct (bool_decide _); [|apply good_ret].
  apply good_bind; [apply releaseJobState_good|]. intros. apply good_ret.
Qed.

(** ** A tick *)

Lemma Tick_safe : good safe _ Tick.
Proof.
  apply (Tick_good (good safe) (λ X e He, plain_good safe X e He)
    (λ job, job_ClusterID job = cluster_of (job_ID job))
    (λ client job, cl_cluster client = cluster_of (job_ID job)) releaseJobState_good).
  - intros. by apply disable_rules_good.
  - intros A k He Hk s Hs. apply wps_bind. intros s1 Ho x s2 Hst.
    assert (safe s2) as H2. { eapply frame_calmer; [by eapply calm_step, Hst|]. by eapply others_safe. }
    split; [apply H2|]. intros s3 Ho3. assert (safe s3) as H3 by by eapply others_safe.
    destruct x as [l|e]; [|by apply He]. apply Hk; [|done]. apply Forall_forall. intros job Hj.
    destruct Hst as [[[now Hx]|(err & ? & _)] _]; [|done]. simpl in Hx. injection Hx as Ht <-.
    apply elem_of_order_by, elem_of_bfilter in Hj as [Hj _].
    destruct H2 as [_ [_ Hc]]. rewrite Forall_forall in Hc. apply (Hc (key job)).
    rewrite <-Ht. apply list_elem_of_fmap. by exists job.
  - intros job A k Hj He Hk s Hs. apply wps_bind.
    eapply wps_mono; [|apply (calls_wps safe); [apply createClient_client|done]].
    intros [client|e] s1 [H1 Hc]; [|by apply He]. apply Hk; [|done]. simpl in Hc. congruence.
Qed.
End release.
End records.

(** ** Properties *)

Definition at_rest (d : DB) : Sys := {| tables := d; log := [] |}.

(** C16: a tick forgets no HA rule it disabled. At every point of a tick, wherever it is cut off and whatever
    fails in it, while the tables change between its calls in any way in which nobody else takes a rule off
    the record of a job (jobs and rules may be added): a rule of a cluster that the tick asked Proxmox to
    disable is on the record of a job of that cluster, from where releasing the job enables it again,
    unless Proxmox has since accepted a request of the tick to enable it or has listed the rules of the
    cluster without it. Somebody else who takes rules off a record at the same time, as the cleanup of a
    cancel does, can make the record lose one ([rule_lost_by_cancel]). *)
Theorem disabled_rules_recorded `{LIB : Library} `{MR : MapRange} cluster_of d q s :
  keyed cluster_of d →
  runs (@step) (others cluster_of) Tick (at_rest d) q s →
  ∀ cl rule, disabled_in cl rule (log s) = true → recorded cl rule (tables s).
Proof.
  intros Hk Hr. assert (safe cluster_of (at_rest d)) as Hs by by split.
  assert (on_record s) as H; [|exact H].
  eapply (wp_invariant (@step) (others cluster_of) on_record); [|apply Hs|by apply (Tick_safe cluster_of)|exact Hr].
  intros s1 s2 (_ & Hg & Hl) H1 cl rule H. rewrite Hl in H. eapply recorded_grown; [exact Hg|]. by apply H1.
Qed.

(** The tick of the example, cut off after some of its calls. *)
Fixpoint run_for {A} (n : nat) (p : rprog A) (s : Sys) : Sys :=
  match n, p with
  | S n, Vis e k => let '(x, s) := healthy example_vms _ e s in run_for n (k x) s
  | _, _ => s
  end.

Lemma run_for_runs {A} n (p : rprog A) s : ∃ q, runs (@step) (others (λ _, 1)) p s q (run_for n p s).
Proof.
  revert p s. induction n as [|n IH]; intros p s; [exists p; constructor|].
  destruct p as [a|X e k]; [eexists; constructor|]. simpl.
  pose proof (healthy_step example_vms X e s) as Hst. destruct (healthy example_vms X e s) as [x s'].
  destruct (IH (k x) s') as [q Hq]. exists q. econstructor 3; [exact Hst|exact Hq].
Qed.

Lemma disabled_rules_recorded_witness :
  let s := run_for 40 Tick (at_rest (example_tables true)) in
  disabled_in 1 "r1" (log s) = true ∧ recorded 1 "r1" (tables s).
Proof.
  assert (disabled_in 1 "r1" (log (run_for 40 Tick (at_rest (example_tables true)))) = true) as Hd by by vm_compute.
  split; [exact Hd|]. destruct (run_for_runs 40 Tick (at_rest (example_tables true))) as [q Hq].
  refine (disabled_rules_recorded (λ _, 1) (example_tables true) q _ _ Hq 1 "r1" Hd).
  split; [apply NoDup_singleton|by repeat constructor].
Defined.

(** * What a rolling update loses

    Three places where the orchestrator does not keep what it means to keep,
    each as a history evaluated call by call: a tick and an operator's cancel
    that both write the record of disabled rules, an operator's skip that a tick
    overwrites, and a failed write that is not looked at. *)

(** ** Schedules *)

(** [Start p] starts a program, which becomes number 0; [Go_on i n] lets program [i] make [n] calls. *)
Inductive turn := Start (p : rprog unit) | Go_on (i n : nat).

Section schedule.
Variable answer : ∀ X, Op X → Sys → X * Sys.

Definition one_call (i : nat) (c : list (rprog unit) * Sys) : list (rprog unit) * Sys :=
  match c.1 !! i with
  | Some (Vis e k) =>
      let '(x, s) := answer _ e c.2 in (take i c.1 ++ k x :: drop (S i) c.1 ++ spawned 0 _ e, s)
  | _ => c
  end.

Fixpoint calls_of (i n : nat) (c : list (rprog unit) * Sys) : list (rprog unit) * Sys :=
  match n with O => c | S n => calls_of i n (one_call i c) end.

Fixpoint play (turns : list turn) (c : list (rprog unit) * Sys) : list (rprog unit) * Sys :=
  match turns with
  | [] => c
  | Start p :: turns => play turns (p :: c.1, c.2)
  | Go_on i n :: turns => play turns (calls_of i n c)
  end.

Hypothesis answer_step : ∀ X (e : Op X) s, step e s (answer X e s).1 (answer X e s).2.

Lemma one_call_history i c : history 0 c (one_call i c).
Proof.
  unfold one_call. destruct c as [ts s]. simpl. destruct (ts !! i) as [[a|X e k]|] eqn:Hi; try done.
  specialize (answer_step X e s). destruct (answer X e s) as [x s'].
  rewrite <-(take_drop_middle _ _ _ Hi) at 1. apply rtc_once, (pool_call (@step)). exact answer_step.
Qed.

Lemma play_history turns c :
  (∀ p, Start p ∈ turns → entry p) → history 0 c (play turns c).
Proof.
  revert c. induction turns as [|[p|i n] turns IH]; intros c Ht; simpl; [done| |].
  - eapply rtc_l; [|apply IH; intros; apply Ht; by right]. destruct c as [ts s].
    apply pool_start, Ht. left.
  - etransitivity; [|apply IH; intros; apply Ht; by right].
    clear -answer_step. revert c. induction n as [|n IHn]; intros c; simpl; [done|].
    etransitivity; [apply one_call_history|apply IHn].
Qed.
End schedule.

Definition all_done (ts : list (rprog unit)) : bool := forallb (λ p, match p with Ret _ => true | _ => false end) ts.

(** ** A rule that stays disabled

    An operator cancels the job while a tick disables the rules of its first node. The cleanup of the
    cancel has read the record and enabled the rule before the tick disables it, and writes its empty
    record after the tick has recorded the rule again. *)
Definition lost_rule_turns : list turn :=
  [ Start Tick; Go_on 0 29;
    Start (forget (CancelJob 1 7)); Go_on 0 10;
    Go_on 2 13;
    Go_on 1 6;
    Go_on 2 10;
    Go_on 1 60 ].

Definition lost_rule : list (rprog unit) * Sys := play (healthy example_vms) lost_rule_turns (at_start (example_tables true)).

Lemma lost_rule_history : history 0 (at_start (example_tables true)) lost_rule.
Proof.
  apply play_history; [apply healthy_step|]. unfold lost_rule_turns. intros p. rewrite !elem_of_cons, elem_of_nil. intros Hp.
  destruct Hp as [[= ->]|[?|[[= ->]|Hp]]]; [by left|done| |].
  - right. left. exists 1, 7, 0. unfold operator_programs. rewrite !elem_of_cons. tauto.
  - by repeat destruct Hp as [?|Hp].
Qed.

(** Everything has finished, the rule is disabled, and neither a record nor a pending cleanup is left. *)
Example rule_lost_by_cancel :
  history 0 (at_start (example_tables true)) lost_rule ∧
  all_done lost_rule.1 = true ∧
  disabled_in 1 "r1" (log lost_rule.2) = true ∧
  (λ j, (job_Status j, job_DisabledHaRules j, job_CleanupPending j)) <$> jobs (tables lost_rule.2) =
    [("cancelled"%string, JsonList [], false)].
Proof. split; [apply lost_rule_history|by vm_compute]. Qed.

(** ** A skip that is undone

    An operator skips a node that has not started, and is told so, while a tick that has picked the node
    is still refreshing its package index. *)
Definition lost_skip_turns : list turn :=
  [ Start Tick; Go_on 0 17;
    Start (forget (SkipNode 1 7 11)); Go_on 0 10;
    Go_on 1 25 ].

Definition lost_skip : list (rprog unit) * Sys := play (healthy example_vms) lost_skip_turns (at_start (example_tables true)).

Example skip_undone :
  (node_Step <$> nodes (tables (play (healthy example_vms) (take 4 lost_skip_turns) (at_start (example_tables true))).2),
   node_Step <$> nodes (tables lost_skip.2)) = (["skipped"; "pending"], ["draining"; "pending"]).
Proof. by vm_compute. Qed.

(** ** DRS that stays off

    The write that marks the job as the one that turned DRS off fails, and DRS is turned off all the same. *)
Definition unmarked {X} (e : Op X) (s : Sys) : X * Sys :=
  match e in Op X return X * Sys with
  | Query q =>
      match q in query A return result go_error A * Sys with
      | SetJobDRSWasEnabled id v =>
          (Err (errorf "deadlock detected"),
           {| tables := tables s;
              log := Ev (Query (SetJobDRSWasEnabled id v)) (Err (errorf "deadlock detected")) :: log s |})
      | q => healthy example_vms _ (Query q) s
      end
  | e => healthy example_vms _ e s
  end.

Example drs_left_off :
  let d := {| jobs := [example_job false]; nodes := []; drs_enabled := {[ 1 := true ]} |} in
  let s := (run (@unmarked) Tick {| tables := d; log := [] |}).2 in
  (job_Status <$> jobs (tables s), job_DrsWasEnabled <$> jobs (tables s), drs_enabled (tables s) !! 1) =
  (["completed"], [false], Some false).
Proof. by vm_compute. Qed.
