(* ===== verification/AlertRules.v ===== *)
(** * Judging alert rules

    Models the part of [internal/notifications/alert_engine.go] that turns a
    rule and the readings fetched for it into a verdict: the metric tables, the
    window a rule judges, the rates made of byte counters, the node and VM
    outcomes and the maintenance windows. Times and durations are nanoseconds;
    a duration is 64 bits wide, and [time.Time.Sub] saturates. *)

From Stdlib Require Import Sorting.Sorted.
From S2P Require Import Prelude GoFloat GoStrings.

Local Open Scope Z_scope.

(** ** Rules *)

Record AlertRule := {
  ar_ID : uuid;
  ar_Name : string;
  ar_Enabled : bool;
  ar_Severity : string;
  ar_Metric : string;
  ar_Operator : string;
  ar_Threshold : float64;
  ar_DurationSeconds : Z;
  ar_ScopeType : string;
  ar_ClusterID : option uuid;
  ar_NodeID : option uuid;
  ar_VmVmid : option Z;
  ar_UpsID : option uuid;
  ar_CooldownSeconds : Z;
  ar_EscalationChain : string;
  ar_MessageTemplate : string;
}.

Definition validMetrics : list string := [
  "cpu_usage"; "mem_percent"; "disk_read"; "disk_write"; "net_in"; "net_out";
  "snapshot_age_days";
  "veeam_rpo_hours"; "veeam_malware_status"; "veeam_repo_used_percent"; "veeam_job_failed";
  "pve_backup_failed"; "pve_task_failed"]%string.

Definition MetricVeeamRPOHours : string := "veeam_rpo_hours".
Definition MetricVeeamMalware : string := "veeam_malware_status".
Definition MetricVeeamRepoUsed : string := "veeam_repo_used_percent".
Definition MetricVeeamJobFailed : string := "veeam_job_failed".
Definition MetricSnapshotAgeDays : string := "snapshot_age_days".
Definition MetricPVETaskFailed : string := "pve_task_failed".
Definition MetricPVEBackupFailed : string := "pve_backup_failed".

Definition upsMetrics : list string := [
  "ups_on_battery"; "ups_battery_charge"; "ups_runtime"; "ups_load"; "ups_unreachable";
  "ups_replace_battery"]%string.
Definition IsUPSMetric (metric : string) : bool := contains upsMetrics metric.

Record MetricBound := { mb_Min : float64; mb_Max : float64 }.

Definition MetricBounds (metric : string) : MetricBound * bool :=
  if bool_decide (metric = MetricVeeamMalware)
  then ({| mb_Min := f0; mb_Max := f_of_Z 3 |}, true)
  else ({| mb_Min := f0; mb_Max := f0 |}, false).

(** [None] is the nil slice: the ordinary node, vm and cluster scopes. *)
Definition MetricScopes (metric : string) : option (list string) :=
  if IsUPSMetric metric then Some ["global"; "ups"]%string
  else if bool_decide (metric = MetricPVETaskFailed ∨ metric = MetricPVEBackupFailed)
  then Some ["cluster"]%string
  else if bool_decide (metric = MetricSnapshotAgeDays ∨ metric = MetricVeeamRPOHours ∨
                       metric = MetricVeeamMalware)
  then Some ["cluster"; "vm"]%string
  else if bool_decide (metric = MetricVeeamRepoUsed) then Some ["global"]%string
  else if bool_decide (metric = MetricVeeamJobFailed) then Some ["cluster"]%string
  else None.

Definition windowedMetrics : list string := [MetricPVETaskFailed; MetricPVEBackupFailed].
Definition IsWindowedMetric (metric : string) : bool := contains windowedMetrics metric.
Definition ValidMetric (m : string) : bool := contains validMetrics m || IsUPSMetric m.

Definition pendingDuration (rule : AlertRule) : Z :=
  if IsWindowedMetric (ar_Metric rule) then 0 else int64 (ar_DurationSeconds rule * second).

(** ** Comparing and extracting *)

Definition compareValue (value : float64) (operator : string) (threshold : float64) : bool :=
  if bool_decide (operator = ">") then fgt value threshold
  else if bool_decide (operator = ">=") then fge value threshold
  else if bool_decide (operator = "<") then flt value threshold
  else if bool_decide (operator = "<=") then fle value threshold
  else if bool_decide (operator = "==") then feq value threshold
  else if bool_decide (operator = "!=") then fne value threshold
  else false.

Definition formatThreshold (v : float64) : string :=
  if feq v (f_of_Z (int64_of_f v)) then fmt_f 0 v else fmt_f 2 v.

Definition cpuPercent (ratio : float64) : float64 := fmul ratio f100.

(** The columns [GetNodeRecentMetrics] and [GetVMRecentMetrics] share; a VM's
    row adds where its memory figure comes from. *)
Record Sample := {
  sm_Bucket : Z;
  sm_CpuUsage : float64;
  sm_MemUsed : Z;
  sm_MemTotal : Z;
  sm_DiskRead : Z;
  sm_DiskWrite : Z;
  sm_NetIn : Z;
  sm_NetOut : Z;
  sm_DiskUnreported : bool;
}.
Record VMSample := { vs_Sample : Sample; vs_MemGuest : option bool }.

Definition extractNodeMetric (m : Sample) (metric : string) : float64 :=
  if bool_decide (metric = "cpu_usage") then cpuPercent (sm_CpuUsage m)
  else if bool_decide (metric = "mem_percent") then
    if sm_MemTotal m =? 0 then f0
    else fmul (fdiv (f_of_Z (sm_MemUsed m)) (f_of_Z (sm_MemTotal m))) f100
  else if bool_decide (metric = "disk_read") then f_of_Z (sm_DiskRead m)
  else if bool_decide (metric = "disk_write") then f_of_Z (sm_DiskWrite m)
  else if bool_decide (metric = "net_in") then f_of_Z (sm_NetIn m)
  else if bool_decide (metric = "net_out") then f_of_Z (sm_NetOut m)
  else f0.

Definition extractVMMetric (m : VMSample) (metric : string) : float64 :=
  extractNodeMetric (vs_Sample m) metric.

(** ** The window a rule judges *)

Definition inWindow {T} (rule : AlertRule) (rows : list T) (now : Z) (at_ : T → Z) : list T :=
  if ar_DurationSeconds rule =? 0 then take 1 rows
  else
    let cutoff := now + int64 (- ar_DurationSeconds rule * second) in
    List.filter (λ r, negb (at_ r <? cutoff)) rows.

(** Whether every reading meets the condition, the newest value, and whether
    there was anything to judge. *)
Definition judge {T} (rule : AlertRule) (rows : list T) (value : T → float64) :
    bool * float64 * bool :=
  match rows with
  | [] => (false, f0, false)
  | r :: _ =>
      (forallb (λ r, compareValue (value r) (ar_Operator rule) (ar_Threshold rule)) rows, value r, true)
  end.

(** ** Counters *)

Definition isCounterMetric (metric : string) : bool :=
  contains ["disk_read"; "disk_write"; "net_in"; "net_out"]%string metric.

Definition diskUnreported (metric : string) (marked : bool) : bool :=
  marked && bool_decide (metric = "disk_read" ∨ metric = "disk_write")%string.

Record rateReading := { rr_at : Z; rr_bps : float64 }.

Definition counterReach : Z := 10 * minute.

(** One turn of the loop, on a reported reading: the level measured from (the
    peak and when it was read, once there is one), and the rates so far. *)
Definition rate_step (st : option (float64 * Z) * list rateReading) (t : Z) (v : float64) :
    option (float64 * Z) * list rateReading :=
  match st with
  | (None, rates) => (Some (v, t), rates)
  | (Some (peak, peakAt), rates) =>
      if flt v peak then st
      else
        let dt := seconds (Sub t peakAt) in
        (Some (v, t),
         if fgt dt f0 then rates ++ [{| rr_at := t; rr_bps := fdiv (fsub v peak) dt |}] else rates)
  end.

Section counters.
Context {T : Type} (at_ : T → Z) (counter : T → float64 * bool).

(** The readings are fetched newest first and walked from the oldest. *)
Definition counterRates (rows : list T) : list rateReading :=
  reverse (foldl (λ st r, let '(v, reported) := counter r in
                          if reported then rate_step st (at_ r) v else st)
                 (None, []) (reverse rows)).2.

Definition counterOutcome (rule : AlertRule) (rows : list T) (now : Z) : bool * float64 * bool :=
  let rates := counterRates rows in
  match rates, rows with
  | rate :: _, row :: _ =>
      if negb (rr_at rate =? at_ row) then (false, f0, false)
      else judge rule (inWindow rule rates now rr_at) rr_bps
  | _, _ => (false, f0, false)
  end.
End counters.

(** ** Outcomes *)

Definition node_counter (rule : AlertRule) (r : Sample) : float64 * bool :=
  (extractNodeMetric r (ar_Metric rule), negb (diskUnreported (ar_Metric rule) (sm_DiskUnreported r))).

Definition nodeRuleOutcome (rule : AlertRule) (rows : list Sample) (now : Z) : bool * float64 * bool :=
  if isCounterMetric (ar_Metric rule)
  then counterOutcome sm_Bucket (node_counter rule) rule rows now
  else judge rule (inWindow rule rows now sm_Bucket) (λ r, extractNodeMetric r (ar_Metric rule)).

Definition vm_at (r : VMSample) : Z := sm_Bucket (vs_Sample r).

Definition vm_counter (rule : AlertRule) (r : VMSample) : float64 * bool :=
  let v := extractVMMetric r (ar_Metric rule) in
  let s := vs_Sample r in
  (v, negb (diskUnreported (ar_Metric rule) (sm_DiskUnreported s)) &&
      (fne v f0 || (feq (sm_CpuUsage s) f0 && (sm_MemUsed s =? 0)))).

(** A reading known to be the host's view of the VM is not judgeable. *)
Definition judgeable (r : VMSample) : bool :=
  match vs_MemGuest r with None => true | Some guest => guest end.

Definition vmRuleOutcome (rule : AlertRule) (rows : list VMSample) (now : Z) : bool * float64 * bool :=
  let value := λ r, extractVMMetric r (ar_Metric rule) in
  if isCounterMetric (ar_Metric rule)
  then counterOutcome vm_at (vm_counter rule) rule rows now
  else
    let fetched := rows in
    let rows := inWindow rule rows now vm_at in
    if bool_decide (ar_Metric rule = "mem_percent") then
      let judged := List.filter judgeable rows in
      if bool_decide (rows ≠ []) && bool_decide (judged = []) then
        if existsb judgeable fetched then (false, f0, false) else (false, f0, true)
      else judge rule judged value
    else judge rule rows value.

Definition metricLookback (rule : AlertRule) : Z :=
  let minLookback := 2 * minute in
  let lookback := int64 (ar_DurationSeconds rule * second) in
  if isCounterMetric (ar_Metric rule) then int64 (lookback + counterReach)
  else if lookback <? minLookback then minLookback else lookback.

(** ** Maintenance windows *)

Record MaintenanceWindow := {
  mw_ClusterID : option uuid;
  mw_NodeID : option uuid;
  mw_UpsID : option uuid;
}.

Definition window_covers (clusterID nodeID : option uuid) (w : MaintenanceWindow) : bool :=
  match clusterID, mw_ClusterID w with
  | Some c, Some wc =>
      (wc =? c) &&
      match mw_NodeID w with
      | Some wn => match nodeID with Some n => n =? wn | None => false end
      | None => true
      end
  | _, _ => false
  end.

Definition isInMaintenanceWindow (clusterID nodeID : option uuid) (windows : list MaintenanceWindow) : bool :=
  existsb (window_covers clusterID nodeID) windows.

(** ** What the rates are measured from *)

(** A reading is a time and a level, oldest first. [base_of l p]: [p] is the
    newest of the readings of [l] at the highest level reached. *)
Definition base_of (l : list (Z * float64)) (p : Z * float64) : Prop :=
  ∃ a b, l = a ++ p :: b ∧ (∀ q, q ∈ a → flt p.2 q.2 = false) ∧ (∀ q, q ∈ b → flt q.2 p.2 = true).

(** [measured pre x r]: after the readings [pre], the reading [x] is at or
    above the highest level so far and later than it, and [r] is its rate. *)
Definition measured (pre : list (Z * float64)) (x : Z * float64) (r : rateReading) : Prop :=
  ∃ p, base_of pre p ∧ flt x.2 p.2 = false ∧ fgt (seconds (Sub x.1 p.1)) f0 = true ∧
    r = {| rr_at := x.1; rr_bps := fdiv (fsub x.2 p.2) (seconds (Sub x.1 p.1)) |}.

Lemma base_of_unique l p q : base_of l p → base_of l q → p = q.
Proof.
  intros (a & b & Hl & Ha & Hb) (a' & b' & Hl' & Ha' & Hb').
  destruct (Nat.lt_trichotomy (length a) (length a')) as [Hlt|[Heq|Hgt]].
  - assert (a' !! length a = Some p) as Hp%list_elem_of_lookup_2.
    { rewrite <-(lookup_app_l a' (q :: b')) by done. by rewrite <-Hl', Hl, list_lookup_middle. }
    assert (b !! (length a' - S (length a))%nat = Some q) as Hq%list_elem_of_lookup_2.
    { transitivity (l !! length a'); [|by rewrite Hl', list_lookup_middle].
      rewrite Hl, lookup_app_r by lia.
      replace (length a' - length a)%nat with (S (length a' - S (length a))) by lia. done. }
    specialize (Hb _ Hq). by rewrite (Ha' _ Hp) in Hb.
  - rewrite Hl in Hl'. apply app_inj_1 in Hl' as [_ ?]; [by simplify_eq|done].
  - assert (a !! length a' = Some q) as Hq%list_elem_of_lookup_2.
    { rewrite <-(lookup_app_l a (p :: b)) by done. by rewrite <-Hl, Hl', list_lookup_middle. }
    assert (b' !! (length a - S (length a'))%nat = Some p) as Hp%list_elem_of_lookup_2.
    { transitivity (l !! length a); [|by rewrite Hl, list_lookup_middle].
      rewrite Hl', lookup_app_r by lia.
      replace (length a - length a')%nat with (S (length a - S (length a'))) by lia. done. }
    specialize (Hb' _ Hp). by rewrite (Ha _ Hq) in Hb'.
Qed.

Lemma base_of_nil p : ¬ base_of [] p.
Proof. intros (a & b & Hl & _). by destruct a. Qed.

(** The level a reading below it leaves in place, and the one a reading at or
    above it sets. *)
Lemma base_of_below l p x : base_of l p → flt x.2 p.2 = true → base_of (l ++ [x]) p.
Proof.
  intros (a & b & -> & Ha & Hb) Hx. exists a, (b ++ [x]).
  split; [by rewrite <-(assoc_L (++))|]. split; [done|].
  intros q [Hq|<-%list_elem_of_singleton]%elem_of_app; auto.
Qed.

Lemma base_of_above l p x :
  (∀ q, q ∈ l ++ [x] → IsNaN q.2 = false) →
  base_of l p → flt x.2 p.2 = false → base_of (l ++ [x]) x.
Proof.
  intros Hn (a & b & -> & Ha & Hb) Hx. exists (a ++ p :: b), [].
  split; [done|]. split; [|by intros q ?%not_elem_of_nil].
  intros q Hq. assert (IsNaN q.2 = false ∧ IsNaN p.2 = false ∧ IsNaN x.2 = false) as (Hnq & Hnp & Hnx).
  { split_and!; apply Hn; set_solver. }
  eapply (flt_false_trans _ p.2); [done..|].
  apply elem_of_app in Hq as [Hq|[->|Hq]%elem_of_cons]; [by apply Ha|apply flt_irrefl|].
  apply Hb in Hq. destruct (flt p.2 q.2) eqn:E; [|done].
  pose proof (flt_irrefl p.2) as Hi. by rewrite (flt_trans _ _ _ E Hq) in Hi.
Qed.

Definition walk (l : list (Z * float64)) : option (float64 * Z) * list rateReading :=
  foldl (λ st x, rate_step st x.1 x.2) (None, []) l.

Lemma walk_snoc l x : walk (l ++ [x]) = rate_step (walk l) x.1 x.2.
Proof. unfold walk. by rewrite foldl_app. Qed.

Lemma walk_base l :
  (∀ q, q ∈ l → IsNaN q.2 = false) →
  match (walk l).1 with
  | None => l = []
  | Some (v, t) => base_of l (t, v)
  end.
Proof.
  induction l as [|x l IH] using rev_ind; [done|]. intros Hn. rewrite walk_snoc.
  assert (∀ q, q ∈ l → IsNaN q.2 = false) as Hn' by set_solver. specialize (IH Hn').
  destruct (walk l) as [[[v t]|] rates]; simpl in *.
  - destruct (flt x.2 v) eqn:E; simpl; [by apply base_of_below|].
    destruct x as [tx vx]. by apply (base_of_above _ (t, v)).
  - subst l. destruct x as [tx vx]. exists [], []. split; [done|].
    by split; intros q ?%not_elem_of_nil.
Qed.

(** A reading adds its rate, or none. *)
Lemma walk_rates_snoc l x :
  (∀ q, q ∈ l → IsNaN q.2 = false) →
  ((walk (l ++ [x])).2 = (walk l).2 ∧ ∀ r, ¬ measured l x r) ∨
  ∃ r, (walk (l ++ [x])).2 = (walk l).2 ++ [r] ∧ measured l x r.
Proof.
  intros Hn. rewrite walk_snoc. pose proof (walk_base l Hn) as Hb.
  destruct (walk l) as [[[v t]|] rates]; simpl in *.
  - destruct (flt x.2 v) eqn:Hv; simpl.
    { left. split; [done|]. intros r (p & Hp & Hx & _).
      rewrite (base_of_unique _ _ _ Hp Hb) in Hx. simpl in Hx. by rewrite Hv in Hx. }
    destruct (fgt (seconds (Sub x.1 t)) f0) eqn:Hd.
    + right. eexists. split; [done|]. by exists (t, v).
    + left. split; [done|]. intros r (p & Hp & _ & Hd' & _).
      rewrite (base_of_unique _ _ _ Hp Hb) in Hd'. simpl in Hd'. by rewrite Hd in Hd'.
  - left. subst. split; [done|]. intros r (p & Hp & _). by apply base_of_nil in Hp.
Qed.

Lemma walk_rates l r :
  (∀ q, q ∈ l → IsNaN q.2 = false) →
  r ∈ (walk l).2 ↔ ∃ pre x post, l = pre ++ x :: post ∧ measured pre x r.
Proof.
  induction l as [|x l IH] using rev_ind; intros Hn.
  { split; [by intros ?%not_elem_of_nil|]. intros (pre & y & post & Hl & _). by destruct pre. }
  assert (∀ q, q ∈ l → IsNaN q.2 = false) as Hn' by set_solver. specialize (IH Hn').
  assert ((∃ pre y post, l ++ [x] = pre ++ y :: post ∧ measured pre y r) ↔
          (∃ pre y post, l = pre ++ y :: post ∧ measured pre y r) ∨ measured l x r) as ->.
  { split.
    - intros (pre & y & post & Hl & Hm). destruct post as [|z post _] using rev_ind.
      + apply app_inj_tail in Hl as [-> ->]. by right.
      + left. rewrite app_comm_cons, (assoc_L (++)) in Hl. apply app_inj_tail in Hl as [-> _]. eauto.
    - intros [(pre & y & post & -> & Hm)|Hm].
      + exists pre, y, (post ++ [x]). by rewrite <-(assoc_L (++)).
      + by exists l, x, []. }
  destruct (walk_rates_snoc l x Hn') as [[-> Hno]|(r' & -> & Hm)].
  - rewrite IH. naive_solver.
  - rewrite elem_of_app, IH, list_elem_of_singleton. split; [naive_solver|].
    intros [?|Hm']; [by left|]. right.
    destruct Hm as (p & Hp & _ & _ & ->), Hm' as (p' & Hp' & _ & _ & ->).
    by rewrite (base_of_unique _ _ _ Hp Hp').
Qed.

Section counter_lemmas.
Context {T : Type} (at_ : T → Z) (counter : T → float64 * bool).

(** The readings a counter reports, oldest first. *)
Definition reading (r : T) : option (Z * float64) :=
  if (counter r).2 then Some (at_ r, (counter r).1) else None.
Definition readings (rows : list T) : list (Z * float64) := omap reading (reverse rows).

Lemma counterRates_walk rows : counterRates at_ counter rows = reverse (walk (readings rows)).2.
Proof.
  unfold counterRates, readings, walk. do 2 f_equal.
  generalize (@None (float64 * Z), @nil rateReading) as st.
  induction (reverse rows) as [|r l IH]; intros st; [done|].
  simpl. unfold reading at 1. destruct (counter r) as [v []]; simpl; apply IH.
Qed.

Lemma readings_cons r rows : readings (r :: rows) = readings rows ++ option_list (reading r).
Proof.
  unfold readings. rewrite reverse_cons, omap_app. by simpl; destruct (reading r).
Qed.

Lemma elem_of_readings rows x :
  x ∈ readings rows → ∃ r, r ∈ rows ∧ (counter r).2 = true ∧ x = (at_ r, (counter r).1).
Proof.
  intros (r & Hr & Hx)%list_elem_of_omap. rewrite elem_of_reverse in Hr. exists r.
  unfold reading in Hx. destruct (counter r).2; [|done]. injection Hx as <-. done.
Qed.

Lemma readings_not_nan rows :
  (∀ r, r ∈ rows → IsNaN (counter r).1 = false) → ∀ q, q ∈ readings rows → IsNaN q.2 = false.
Proof. intros Hn q (r & Hr & _ & ->)%elem_of_readings. by apply Hn. Qed.

Lemma counterRates_at rows r :
  (∀ row, row ∈ rows → IsNaN (counter row).1 = false) →
  r ∈ counterRates at_ counter rows → ∃ row, row ∈ rows ∧ rr_at r = at_ row.
Proof.
  intros Hn. rewrite counterRates_walk, elem_of_reverse, walk_rates by by apply readings_not_nan.
  intros (pre & x & post & Hl & (p & _ & _ & _ & ->)).
  destruct (elem_of_readings rows x) as (row & Hrow & _ & ->); [rewrite Hl; set_solver|]. by exists row.
Qed.

(** The newest reading either has a rate, which comes first, or adds none. *)
Lemma counterRates_cons row rest :
  (∀ r, r ∈ rest → IsNaN (counter r).1 = false) →
  (counterRates at_ counter (row :: rest) = counterRates at_ counter rest ∧
     ∀ r, ¬ ((counter row).2 = true ∧ measured (readings rest) (at_ row, (counter row).1) r)) ∨
  ∃ r, counterRates at_ counter (row :: rest) = r :: counterRates at_ counter rest ∧
    (counter row).2 = true ∧ measured (readings rest) (at_ row, (counter row).1) r.
Proof.
  intros Hn. rewrite !counterRates_walk, readings_cons. unfold reading at 1 2.
  destruct (counter row).2; simpl.
  - destruct (walk_rates_snoc (readings rest) (at_ row, (counter row).1)) as [[-> Hno]|(r & -> & Hm)];
      [by apply readings_not_nan| |].
    + left. split; [done|]. intros r [_ Hm]. by apply (Hno r).
    + right. exists r. by rewrite reverse_snoc.
  - left. rewrite app_nil_r. split; [done|]. by intros r [? _].
Qed.

End counter_lemmas.

(** Whether a rate stamped [t] is one the rule judges. *)
Definition judged_at (rule : AlertRule) (now newest t : Z) : Prop :=
  if ar_DurationSeconds rule =? 0 then t = newest
  else now + int64 (- ar_DurationSeconds rule * second) ≤ t.

#[export] Instance judged_at_dec rule now newest t : Decision (judged_at rule now newest t).
Proof. unfold judged_at. destruct (_ =? 0); apply _. Defined.

Lemma filter_none {A} (p : A → bool) l : (∀ x, x ∈ l → p x = false) → List.filter p l = [].
Proof.
  induction l as [|x l IH]; intros Hp; [done|]. simpl. rewrite Hp by set_solver. apply IH. set_solver.
Qed.

Lemma inWindow_spec {A} (rule : AlertRule) (now : Z) (f : A → Z) x l :
  (∀ y, y ∈ l → f y < f x) →
  (∀ y, y ∈ inWindow rule (x :: l) now f ↔ y ∈ x :: l ∧ judged_at rule now (f x) (f y)) ∧
  (judged_at rule now (f x) (f x) → ∃ k, inWindow rule (x :: l) now f = x :: k) ∧
  (¬ judged_at rule now (f x) (f x) → inWindow rule (x :: l) now f = []).
Proof.
  intros Hl. unfold inWindow, judged_at. destruct (_ =? 0) eqn:Hd.
  - change (take 1 (x :: l)) with [x]. split_and!; [|by eauto|by intros []].
    intros y. rewrite list_elem_of_singleton, elem_of_cons. split; [by intros ->; auto|].
    intros [[->|Hy] He]; [done|]. apply Hl in Hy. lia.
  - set (cut := now + _). split_and!.
    + intros y. by rewrite elem_of_bfilter, negb_true_iff, Z.ltb_ge.
    + intros Hc. cbn [List.filter]. rewrite (proj2 (Z.ltb_ge _ _) Hc). eauto.
    + intros Hc%Z.nle_gt. cbn [List.filter]. rewrite (proj2 (Z.ltb_lt _ _) Hc). simpl.
      apply filter_none. intros y Hy%Hl. apply negb_false_iff, Z.ltb_lt. lia.
Qed.

Lemma judge_spec {A} rule (l : list A) value met latest ok :
  judge rule l value = (met, latest, ok) →
  (ok = true ↔ l ≠ []) ∧
  (met = true ↔ l ≠ [] ∧ ∀ r, r ∈ l → compareValue (value r) (ar_Operator rule) (ar_Threshold rule) = true) ∧
  (∀ r k, l = r :: k → latest = value r).
Proof.
  unfold judge. destruct l as [|x l]; intros Hj; [simplify_eq; naive_solver|].
  assert (met = forallb (λ r, compareValue (value r) (ar_Operator rule) (ar_Threshold rule)) (x :: l))
    as -> by congruence.
  assert (latest = value x ∧ ok = true) as [-> ->] by by split; congruence.
  split; [done|]. split; [|by intros ?? [= <- _]].
  rewrite forallb_elem_of. naive_solver.
Qed.

Lemma extract_counter_not_nan r metric :
  isCounterMetric metric = true → IsNaN (extractNodeMetric r metric) = false.
Proof.
  intros Hc%contains_spec. rewrite !elem_of_cons, elem_of_nil in Hc. unfold extractNodeMetric.
  destruct Hc as [->|[->|[->|[->|[]]]]]; apply f_of_Z_not_nan.
Qed.

Lemma list_exists_elem {A} (l : list A) : l ≠ [] → ∃ x, x ∈ l.
Proof. destruct l as [|x l]; [done|]. exists x. left. Qed.

Section verdicts.
Context {T : Type} (at_ : T → Z) (counter : T → float64 * bool).

(** The newest of the readings has the rate [r]. *)
Definition current_rate (row : T) (rest : list T) (r : rateReading) : Prop :=
  (counter row).2 = true ∧ measured (readings at_ counter rest) (at_ row, (counter row).1) r.

Lemma counterOutcome_verdict rule row rest now met latest ok :
  (∀ r, r ∈ row :: rest → IsNaN (counter r).1 = false) →
  (∀ older, older ∈ rest → at_ older < at_ row) →
  counterOutcome at_ counter rule (row :: rest) now = (met, latest, ok) →
  (ok = true ↔ (∃ r, current_rate row rest r) ∧ judged_at rule now (at_ row) (at_ row)) ∧
  (ok = true → ∀ r, current_rate row rest r → latest = rr_bps r) ∧
  (met = true ↔ ok = true ∧ ∀ r, r ∈ counterRates at_ counter (row :: rest) →
     judged_at rule now (at_ row) (rr_at r) →
     compareValue (rr_bps r) (ar_Operator rule) (ar_Threshold rule) = true).
Proof.
  intros Hn Hold. unfold counterOutcome.
  assert (∀ r, r ∈ rest → IsNaN (counter r).1 = false) as Hn' by set_solver.
  assert (∀ y, y ∈ counterRates at_ counter rest → rr_at y < at_ row) as Hat.
  { intros y (r & Hr & ->)%counterRates_at; [|done]. by apply Hold. }
  destruct (counterRates_cons at_ counter row rest Hn') as [[-> Hno]|(r & -> & Hrep & Hm)].
  - intros Hj.
    assert ((met, latest, ok) = (false, f0, false)) as [= -> -> ->].
    { destruct (counterRates at_ counter rest) as [|x l]; [done|].
      rewrite (proj2 (Z.eqb_neq _ _)) in Hj; [done|]. specialize (Hat x ltac:(set_solver)). lia. }
    split_and!; [|done|naive_solver]. split; [done|]. intros [[r Hr] _]. by destruct (Hno r).
  - assert (rr_at r = at_ row) as Hr by (by destruct Hm as (p & _ & _ & _ & ->)).
    rewrite Hr, Z.eqb_refl. simpl negb. cbv iota. intros Hj.
    destruct (inWindow_spec rule now rr_at r (counterRates at_ counter rest)) as (Hin & Hw & Hnw).
    { intros y Hy. rewrite Hr. by apply Hat. }
    rewrite Hr in Hin, Hw, Hnw. apply judge_spec in Hj as (Hok & Hmet & Hlat).
    assert (inWindow rule (r :: counterRates at_ counter rest) now rr_at ≠ [] ↔
            judged_at rule now (at_ row) (at_ row)) as Hne.
    { split; [intros H; destruct (decide (judged_at rule now (at_ row) (at_ row))) as [|Hc]; [done|];
              by apply Hnw in Hc|]. intros [k ->]%Hw. done. }
    split_and!.
    + rewrite Hok, Hne. split; [|by intros [_ ?]]. intros ?. split; [|done]. by exists r.
    + rewrite Hok, Hne. intros [k Hk]%Hw r' [_ Hm']. rewrite (Hlat _ _ Hk).
      destruct Hm as (p & Hp & _ & _ & ->), Hm' as (p' & Hp' & _ & _ & ->).
      by rewrite (base_of_unique _ _ _ Hp Hp').
    + rewrite Hmet, <-Hok. setoid_rewrite Hin. naive_solver.
Qed.
End verdicts.

(** ** Properties *)

(** A byte counter is judged on its own rates and never on a fall. For a node rule on a counter
    metric and readings newest first, the rule has a verdict exactly when the newest reading is
    reported, at or above the highest earlier level, later than it, and inside the rule's window; its
    value is then the rise from that level per second. Otherwise (a guest stopped, restarted or went
    unreported) it has none, so nothing fires and nothing resolves. The condition is met exactly when
    every rate of the window meets it, and the rates are those of the readings that stand at or above
    the newest highest level before them, measured from it. *)
Theorem nodeRuleOutcome_counter rule row rest now met latest ok :
  isCounterMetric (ar_Metric rule) = true →
  (∀ older, older ∈ rest → sm_Bucket older < sm_Bucket row) →
  nodeRuleOutcome rule (row :: rest) now = (met, latest, ok) →
  let rates := counterRates sm_Bucket (node_counter rule) (row :: rest) in
  (ok = true ↔ (∃ r, current_rate sm_Bucket (node_counter rule) row rest r) ∧
               judged_at rule now (sm_Bucket row) (sm_Bucket row)) ∧
  (ok = true → ∀ r, current_rate sm_Bucket (node_counter rule) row rest r → latest = rr_bps r) ∧
  (met = true ↔ ok = true ∧ ∀ r, r ∈ rates → judged_at rule now (sm_Bucket row) (rr_at r) →
     compareValue (rr_bps r) (ar_Operator rule) (ar_Threshold rule) = true) ∧
  (∀ r, r ∈ rates ↔ ∃ pre x post,
     readings sm_Bucket (node_counter rule) (row :: rest) = pre ++ x :: post ∧ measured pre x r).
Proof.
  intros Hc Hold. unfold nodeRuleOutcome. rewrite Hc. intros H.
  assert (∀ r, IsNaN (node_counter rule r).1 = false) as Hn.
  { intros r. unfold node_counter. simpl. by apply extract_counter_not_nan. }
  destruct (counterOutcome_verdict _ _ _ _ _ _ _ _ _ (λ r _, Hn r) Hold H) as (H1 & H2 & H3).
  split_and!; [done..|]. intros r. rewrite counterRates_walk, elem_of_reverse.
  apply walk_rates, readings_not_nan. auto.
Qed.

(** A counter that climbs by a byte a second, falls while a guest is away and
    returns: the last rate is measured from the level before the fall. *)
Definition counter_sample (t bytes : Z) : Sample := {|
  sm_Bucket := t * second; sm_CpuUsage := f0; sm_MemUsed := 0; sm_MemTotal := 0; sm_DiskRead := 0;
  sm_DiskWrite := 0; sm_NetIn := bytes; sm_NetOut := 0; sm_DiskUnreported := false |}.
Definition example_rule (metric operator : string) (threshold : float64) (duration : Z) : AlertRule := {|
  ar_ID := 7; ar_Name := "example"; ar_Enabled := true; ar_Severity := "warning"; ar_Metric := metric;
  ar_Operator := operator; ar_Threshold := threshold; ar_DurationSeconds := duration;
  ar_ScopeType := "node"; ar_ClusterID := Some 1; ar_NodeID := Some 2; ar_VmVmid := None;
  ar_UpsID := None; ar_CooldownSeconds := 300; ar_EscalationChain := ""; ar_MessageTemplate := "" |}.
Definition example_samples : list Sample :=
  [counter_sample 120 40; counter_sample 60 160; counter_sample 0 100].

Lemma nodeRuleOutcome_counter_witness :
  (∃ r, current_rate sm_Bucket (node_counter (example_rule "net_in" "<" f1 0)) (counter_sample 180 220)
          example_samples r) ∧
  compareValue (fdiv (f_of_Z 60) (f_of_Z 120)) "<" f1 = true.
Proof.
  destruct (nodeRuleOutcome_counter (example_rule "net_in" "<" f1 0) (counter_sample 180 220)
    example_samples (190 * second) true (fdiv (f_of_Z 60) (f_of_Z 120)) true) as (Hok & _ & Hmet & _).
  - by vm_compute.
  - intros older Ho. unfold example_samples in Ho.
    repeat (apply elem_of_cons in Ho as [->|Ho]; [by vm_compute|]). by apply not_elem_of_nil in Ho.
  - by vm_compute.
  - split; [by apply Hok|]. by vm_compute.
Defined.

(** The readings a level rule is about: those of its last [DurationSeconds], or
    for a zero duration the newest one, if the last two minutes have it. *)
Definition in_scope {T} (f : T → Z) (rule : AlertRule) (fetched_at now : Z) (all : list T) (r : T) : Prop :=
  r ∈ all ∧
  if ar_DurationSeconds rule =? 0
  then head all = Some r ∧ fetched_at - 2 * minute ≤ f r
  else now - ar_DurationSeconds rule * second ≤ f r.

(** The fetch: every stored reading from the lookback on. *)
Definition fetch {T} (f : T → Z) (rule : AlertRule) (fetched_at : Z) (all : list T) : list T :=
  List.filter (λ r, fetched_at + int64 (- metricLookback rule) <=? f r) all.

Definition newest_first {T} (f : T → Z) (all : list T) : Prop := StronglySorted (λ a b, f b < f a) all.

Lemma newest_first_filter {T} (f : T → Z) (p : T → bool) l :
  newest_first f l → newest_first f (List.filter p l).
Proof.
  unfold newest_first. induction 1 as [|x l Hs IH Hx]; simpl; [constructor|].
  destruct (p x); [|done]. constructor; [done|].
  apply Forall_forall. intros y [Hy _]%elem_of_bfilter. by eapply Forall_forall in Hx.
Qed.

Lemma lookback_bounds rule :
  isCounterMetric (ar_Metric rule) = false → 0 ≤ ar_DurationSeconds rule < 2 ^ 31 →
  int64 (- ar_DurationSeconds rule * second) = - (ar_DurationSeconds rule * second) ∧
  int64 (- metricLookback rule) = - Z.max (2 * minute) (ar_DurationSeconds rule * second).
Proof.
  intros Hc Hd. unfold metricLookback. rewrite Hc.
  rewrite (int64_id (ar_DurationSeconds rule * second))
    by (unfold second, minInt64, maxInt64; lia).
  split; [rewrite int64_id; unfold second, minInt64, maxInt64; lia|].
  destruct (Z.ltb_spec (ar_DurationSeconds rule * second) (2 * minute));
    (rewrite int64_id; unfold minute, second, minInt64, maxInt64 in *; lia).
Qed.

(** The window of the fetch holds the readings in scope, newest first. *)
Lemma window_in_scope {T} (f : T → Z) rule fetched_at now all :
  isCounterMetric (ar_Metric rule) = false → 0 ≤ ar_DurationSeconds rule < 2 ^ 31 →
  fetched_at ≤ now → newest_first f all →
  let w := inWindow rule (fetch f rule fetched_at all) now f in
  newest_first f w ∧ ∀ r, r ∈ w ↔ in_scope f rule fetched_at now all r.
Proof.
  intros Hc Hd Hnow Hs w. destruct (lookback_bounds rule Hc Hd) as [Hcut Hback].
  subst w. unfold inWindow, in_scope, fetch. rewrite Hback.
  destruct (ar_DurationSeconds rule =? 0) eqn:Hz.
  - apply Z.eqb_eq in Hz. rewrite Hz in *. replace (Z.max (2 * minute) (0 * second)) with (2 * minute) by done.
    destruct Hs as [|x l Hl Hx]; simpl.
    { split; [constructor|]. intros r. split; [by intros ?%not_elem_of_nil|by intros [? _]]. }
    destruct (_ <=? f x) eqn:Hle; simpl.
    + rewrite take_0. split; [repeat constructor|]. intros r. rewrite list_elem_of_singleton.
      apply Z.leb_le in Hle. split; [intros ->; split_and!; [left|done|lia]|naive_solver].
    + apply Z.leb_gt in Hle. rewrite filter_none.
      2: { intros y Hy. eapply Forall_forall in Hx; [|done]. apply Z.leb_gt. lia. }
      split; [constructor|]. intros r. split; [by intros ?%not_elem_of_nil|].
      intros (_ & [= ->] & ?). lia.
  - split; [by do 2 apply newest_first_filter|]. intros r. rewrite !elem_of_bfilter, Hcut.
    rewrite Z.leb_le, negb_true_iff, Z.ltb_ge. split.
    + intros [[? ?] ?]. split; [done|]. lia.
    + intros [? ?]. split_and!; [done|lia..].
Qed.

(** A judgement on the readings in scope, newest first. *)
Lemma judge_scope {T} rule (w : list T) value (f : T → Z) (scope : T → Prop) met latest ok :
  newest_first f w → (∀ r, r ∈ w ↔ scope r) →
  judge rule w value = (met, latest, ok) →
  (ok = true ↔ ∃ r, scope r) ∧
  (met = true ↔ ok = true ∧
     ∀ r, scope r → compareValue (value r) (ar_Operator rule) (ar_Threshold rule) = true) ∧
  (ok = true → ∃ r, scope r ∧ latest = value r ∧ ∀ r', scope r' → f r' ≤ f r).
Proof.
  intros Hw Hin (Hok & Hmet & Hlat)%judge_spec. setoid_rewrite <-Hin.
  assert (w ≠ [] ↔ ∃ r, r ∈ w) as Hne.
  { split; [apply list_exists_elem|]. intros [r Hr] ->. by apply not_elem_of_nil in Hr. }
  split_and!; [by rewrite Hok|by rewrite Hmet, Hok|]. rewrite Hok. intros Hnil.
  destruct Hw as [|x l Hl Hx]; [done|]. exists x. split; [left|]. split; [by eapply Hlat|].
  intros r' [->|Hr']%elem_of_cons; [done|]. eapply Forall_forall in Hx; [|done]. lia.
Qed.

(** A level rule judges its whole window and nothing else. Let [all] be a node's stored
    readings, newest first, and the fetch those of the rule's lookback. For a metric that is no
    counter the rule has a verdict exactly when a reading is in its scope (the last
    [DurationSeconds]; the newest reading of the last two minutes for a zero duration), it is met
    exactly when every reading in scope meets the condition, and its value is the newest one's: the
    floor on the lookback neither loses readings of the window nor lets older ones in. *)
Theorem nodeRuleOutcome_level rule all fetched_at now met latest ok :
  isCounterMetric (ar_Metric rule) = false → 0 ≤ ar_DurationSeconds rule < 2 ^ 31 →
  fetched_at ≤ now → newest_first sm_Bucket all →
  nodeRuleOutcome rule (fetch sm_Bucket rule fetched_at all) now = (met, latest, ok) →
  let scope := in_scope sm_Bucket rule fetched_at now all in
  let value r := extractNodeMetric r (ar_Metric rule) in
  (ok = true ↔ ∃ r, scope r) ∧
  (met = true ↔ ok = true ∧
     ∀ r, scope r → compareValue (value r) (ar_Operator rule) (ar_Threshold rule) = true) ∧
  (ok = true → ∃ r, scope r ∧ latest = value r ∧ ∀ r', scope r' → sm_Bucket r' ≤ sm_Bucket r).
Proof.
  intros Hc Hd Hnow Hs. cbv zeta. unfold nodeRuleOutcome. rewrite Hc. intros Hj.
  destruct (window_in_scope sm_Bucket rule fetched_at now all Hc Hd Hnow Hs) as [Hw Hin].
  by apply (judge_scope rule _ (λ r, extractNodeMetric r (ar_Metric rule)) sm_Bucket _ met latest ok Hw Hin).
Qed.

Lemma nodeRuleOutcome_level_witness :
  ∃ r, in_scope sm_Bucket (example_rule "cpu_usage" ">" f1 60) (130 * second) (131 * second)
         example_samples r.
Proof.
  apply (nodeRuleOutcome_level (example_rule "cpu_usage" ">" f1 60) example_samples (130 * second)
    (131 * second) false f0 true); try by vm_compute.
  unfold newest_first, example_samples. by repeat constructor.
Defined.

(** A memory rule is not raised on the host's view of a VM. With the readings as above, a
    [mem_percent] rule on a VM is met exactly when its scope holds a reading that may be judged (the
    guest's own, or one with no recorded source) and all of those meet the condition. It holds,
    without a verdict, exactly when nothing is in scope, or when only host views are and the fetch
    still has a reading that could be judged. *)
Theorem vmRuleOutcome_memory rule all fetched_at now met latest ok :
  ar_Metric rule = "mem_percent" → 0 ≤ ar_DurationSeconds rule < 2 ^ 31 →
  fetched_at ≤ now → newest_first vm_at all →
  vmRuleOutcome rule (fetch vm_at rule fetched_at all) now = (met, latest, ok) →
  let scope := in_scope vm_at rule fetched_at now all in
  (met = true ↔ (∃ r, scope r ∧ judgeable r = true) ∧
     ∀ r, scope r → judgeable r = true →
       compareValue (extractVMMetric r "mem_percent") (ar_Operator rule) (ar_Threshold rule) = true) ∧
  (ok = false ↔ (∀ r, ¬ scope r) ∨
     (∀ r, scope r → judgeable r = false) ∧
     ∃ r, r ∈ fetch vm_at rule fetched_at all ∧ judgeable r = true).
Proof.
  intros Hm Hd Hnow Hs. assert (isCounterMetric (ar_Metric rule) = false) as Hc by by rewrite Hm.
  unfold vmRuleOutcome. rewrite Hc, bool_decide_true by done.
  destruct (window_in_scope vm_at rule fetched_at now all Hc Hd Hnow Hs) as [Hw Hin].
  set (w := inWindow rule _ now vm_at) in *. cbv zeta. intros Hj.
  setoid_rewrite <-Hin. rewrite Hm in Hj.
  assert (∀ r, r ∈ List.filter judgeable w ↔ r ∈ w ∧ judgeable r = true) as Hf
    by apply elem_of_bfilter.
  destruct (bool_decide_reflect (w ≠ [])) as [Hne|Hne%dec_stable]; simpl in Hj.
  - destruct (bool_decide_reflect (List.filter judgeable w = [])) as [He|He]; simpl in Hj.
    + assert (∀ r, r ∈ w → judgeable r = false) as Hno.
      { intros r Hr. apply not_true_is_false. intros Hjr.
        apply (not_elem_of_nil r). rewrite <-He. by apply Hf. }
      destruct (list_exists_elem w Hne) as [x Hx].
      destruct (existsb judgeable _) eqn:Hex; simplify_eq; split.
      * split; [done|]. intros [(r & Hr & Hjr) _]. by rewrite (Hno r Hr) in Hjr.
      * apply existsb_elem_of in Hex. split; [by right|done].
      * split; [done|]. intros [(r & Hr & Hjr) _]. by rewrite (Hno r Hr) in Hjr.
      * split; [done|]. intros [Hn|[_ (r & Hr & Hjr)]]; [by destruct (Hn x)|].
        by rewrite (proj1 (existsb_false _ _) Hex r Hr) in Hjr.
    + apply judge_spec in Hj as (Hok & Hmet & _). destruct (list_exists_elem _ He) as [x Hx].
      pose proof (proj1 (Hf x) Hx) as [Hxw Hxj]. split.
      * rewrite Hmet. setoid_rewrite Hf. naive_solver.
      * split; [intros ->; by apply Hok in He|].
        intros [Hn|[Hn _]]; [by destruct (Hn x)|by rewrite (Hn x Hxw) in Hxj].
  - rewrite Hne in *. simpl in Hj. simplify_eq. split; [split; [done|]|split; [|done]].
    + intros [(r & ?%not_elem_of_nil & _) _]. done.
    + intros _. left. apply not_elem_of_nil.
Qed.

(** A lapse: the newest reading is the host's view, an older one the guest's. *)
Definition example_vm_samples : list VMSample :=
  [{| vs_Sample := counter_sample 120 0; vs_MemGuest := Some false |};
   {| vs_Sample := counter_sample 100 0; vs_MemGuest := Some true |}].

Lemma vmRuleOutcome_memory_witness :
  let rule := example_rule "mem_percent" ">=" f0 60 in
  let scope := in_scope vm_at rule (169 * second) (170 * second) example_vm_samples in
  (∀ r, ¬ scope r) ∨
  (∀ r, scope r → judgeable r = false) ∧
  ∃ r, r ∈ fetch vm_at rule (169 * second) example_vm_samples ∧ judgeable r = true.
Proof.
  apply (vmRuleOutcome_memory (example_rule "mem_percent" ">=" f0 60) example_vm_samples (169 * second)
    (170 * second) false f0 false); try by vm_compute.
  unfold newest_first, example_vm_samples. by repeat constructor.
Defined.
