(* ===== verification/AlertEngine.v ===== *)
(** * The life of an alert

    Models the state machine of [internal/notifications/alert_engine.go]:
    [handleRuleResult], which opens, fires and resolves the alert of a rule and
    resource, the escalation of alerts nobody acknowledged, and the per-node,
    per-VM and per-cluster evaluation that calls it. The [alert_history] table
    is the list of its rows in order of insertion, and the queries on it
    (internal/db/generated/alerts.sql.go) are functions on that list; a query
    that fails changes nothing. Operators acknowledge and resolve alerts at any
    point, also between the lookup of [handleRuleResult] and its write. What the
    engine publishes and dispatches is logged, in order. The columns that only
    record who acted on an alert are left out. *)

From Stdlib Require Import Sorting.Sorted.
From S2P Require Import Prelude GoFloat GoStrings ProxmoxApi AlertRules.

Local Open Scope Z_scope.

(** ** The alert_history table *)

Record Alert := {
  al_ID : uuid;
  al_RuleID : uuid;
  al_State : string;
  al_Severity : string;
  al_ClusterID : option uuid;
  al_NodeID : option uuid;
  al_VmID : option uuid;
  al_VmVmid : option Z;
  al_UpsID : option uuid;
  al_ResourceName : string;
  al_Metric : string;
  al_CurrentValue : float64;
  al_Threshold : float64;
  al_Message : string;
  al_EscalationLevel : Z;
  al_ChannelID : option uuid;
  al_PendingAt : Z;
  al_FiredAt : option Z;
  al_AcknowledgedAt : option Z;
  al_ResolvedAt : option Z;
  al_CreatedAt : Z;
}.

Definition with_state (state : string) (fired acked resolved : option Z) (a : Alert) : Alert := {|
  al_ID := al_ID a; al_RuleID := al_RuleID a; al_State := state; al_Severity := al_Severity a;
  al_ClusterID := al_ClusterID a; al_NodeID := al_NodeID a; al_VmID := al_VmID a;
  al_VmVmid := al_VmVmid a; al_UpsID := al_UpsID a; al_ResourceName := al_ResourceName a;
  al_Metric := al_Metric a; al_CurrentValue := al_CurrentValue a; al_Threshold := al_Threshold a;
  al_Message := al_Message a; al_EscalationLevel := al_EscalationLevel a; al_ChannelID := al_ChannelID a;
  al_PendingAt := al_PendingAt a; al_FiredAt := fired; al_AcknowledgedAt := acked;
  al_ResolvedAt := resolved; al_CreatedAt := al_CreatedAt a |}.

Definition with_level (level : Z) (channel : option uuid) (a : Alert) : Alert := {|
  al_ID := al_ID a; al_RuleID := al_RuleID a; al_State := al_State a; al_Severity := al_Severity a;
  al_ClusterID := al_ClusterID a; al_NodeID := al_NodeID a; al_VmID := al_VmID a;
  al_VmVmid := al_VmVmid a; al_UpsID := al_UpsID a; al_ResourceName := al_ResourceName a;
  al_Metric := al_Metric a; al_CurrentValue := al_CurrentValue a; al_Threshold := al_Threshold a;
  al_Message := al_Message a; al_EscalationLevel := level; al_ChannelID := channel;
  al_PendingAt := al_PendingAt a; al_FiredAt := al_FiredAt a; al_AcknowledgedAt := al_AcknowledgedAt a;
  al_ResolvedAt := al_ResolvedAt a; al_CreatedAt := al_CreatedAt a |}.

(** [UPDATE alert_history SET f WHERE id = $1 AND state IN (...)] *)
Definition update_where (id : uuid) (states : list string) (f : Alert → Alert) (rows : list Alert) :
    list Alert :=
  (λ a, if (al_ID a =? id) && contains states (al_State a) then f a else a) <$> rows.

Definition TransitionAlertToFiring (id : uuid) (now : Z) : list Alert → list Alert :=
  update_where id ["pending"%string]
    (λ a, with_state "firing" (Some now) (al_AcknowledgedAt a) (al_ResolvedAt a) a).

Definition AcknowledgeAlert (id : uuid) (now : Z) : list Alert → list Alert :=
  update_where id ["firing"%string]
    (λ a, with_state "acknowledged" (al_FiredAt a) (Some now) (al_ResolvedAt a) a).

Definition ResolveAlert (id : uuid) (now : Z) : list Alert → list Alert :=
  update_where id ["firing"; "acknowledged"]%string
    (λ a, with_state "resolved" (al_FiredAt a) (al_AcknowledgedAt a) (Some now) a).

Definition AutoResolveAlert (id : uuid) (now : Z) : list Alert → list Alert :=
  update_where id ["pending"; "firing"; "acknowledged"]%string
    (λ a, with_state "resolved" (al_FiredAt a) (al_AcknowledgedAt a) (Some now) a).

Definition UpdateAlertEscalation (id : uuid) (level : Z) (channel : option uuid) (rows : list Alert) :
    list Alert :=
  (λ a, if al_ID a =? id then with_level level channel a else a) <$> rows.

(** [WHERE rule_id = @rule_id AND (@node_id IS NULL OR node_id = @node_id)] *)
Definition same_stream (ruleID : uuid) (nodeID : option uuid) (a : Alert) : bool :=
  (al_RuleID a =? ruleID) &&
  match nodeID with
  | None => true
  | Some _ => bool_decide (al_NodeID a = nodeID)
  end.

(** [ORDER BY created_at DESC LIMIT 1] *)
Definition newer (best : option Alert) (a : Alert) : option Alert :=
  match best with
  | Some b => if al_CreatedAt a <? al_CreatedAt b then best else Some a
  | None => Some a
  end.
Definition latest_of (rows : list Alert) : option Alert := foldl newer None rows.

Definition GetLatestAlertForRule (ruleID : uuid) (nodeID : option uuid) (rows : list Alert) :
    option Alert :=
  latest_of (List.filter (same_stream ruleID nodeID) rows).

(** [WHERE state = 'firing' AND acknowledged_at IS NULL]; the order, by
    [fired_at], is the database's. *)
Definition firing_unacknowledged (a : Alert) : bool :=
  bool_decide (al_State a = "firing") && bool_decide (al_AcknowledgedAt a = None).

(** ** Operators *)

Inductive operator_action :=
| OpAcknowledge (id : uuid) (now : Z)
| OpResolve (id : uuid) (now : Z).

Definition operate (rows : list Alert) (op : operator_action) : list Alert :=
  match op with
  | OpAcknowledge id now => AcknowledgeAlert id now rows
  | OpResolve id now => ResolveAlert id now rows
  end.

(** ** Calls the engine makes *)

Inductive call :=
| Publish (rule : AlertRule) (alertID : uuid) (action : string)
| DispatchForRule (rule : AlertRule) (alertID : uuid) (value : float64) (resourceName state : string)
    (escalationLevel : Z)
| DispatchToChannel (rule : AlertRule) (alertID channelID : uuid) (value : float64)
    (resourceName state : string) (escalationLevel : Z).

Record World := { w_alerts : list Alert; w_log : list call }.

(** The engine's handlers: they change the table and the log, and may fail. *)
Definition St (A : Type) : Type := World → World * result go_error A.
Definition ret {A} (a : A) : St A := λ w, (w, Ok a).
Definition fail {A} (e : go_error) : St A := λ w, (w, Err e).
Definition bind {A B} (m : St A) (k : A → St B) : St B := λ w,
  match m w with (w', Ok a) => k a w' | (w', Err e) => (w', Err e) end.
Notation "'let!' x ':=' m 'in' k" := (bind m (λ x, k))
  (at level 10, x pattern, m at level 100, k at level 200) : go_scope.

Definition log (c : call) : St unit := λ w,
  ({| w_alerts := w_alerts w; w_log := w_log w ++ [c] |}, Ok tt).
Definition update (f : list Alert → list Alert) : St unit := λ w,
  ({| w_alerts := f (w_alerts w); w_log := w_log w |}, Ok tt).
(** A query that writes: the rows it leaves, or its error. *)
Definition exec (err : option go_error) (what : string) (f : list Alert → list Alert) : St unit :=
  match err with Some e => fail (wrap what e) | None => update f end.

(** ** The states *)

Definition alertActive (state : string) : bool :=
  bool_decide (state = "pending" ∨ state = "firing" ∨ state = "acknowledged")%string.

Definition resolveNotifies (state : string) : bool :=
  bool_decide (state = "firing" ∨ state = "acknowledged")%string.

Definition ruleStandsBehind (rule : AlertRule) (alertMetric : string) : bool :=
  ar_Enabled rule && bool_decide (ar_Metric rule = alertMetric).

(** ** The escalation chain *)

Record escalationStep := { es_ChannelID : uuid; es_DelayMinutes : Z }.

(** What one run of [handleRuleResult] meets: the errors of its queries, the
    clocks of the server and of the database, the identifier the database
    generates, and what operators do after the lookup. *)
Record Tick := {
  err_lookup : option go_error;
  err_fire : option go_error;
  err_insert : option go_error;
  err_resolve : option go_error;
  t_now : Z;
  t_db_insert : Z;
  t_db_update : Z;
  t_new_id : uuid;
  t_meanwhile : list operator_action;
}.

Section engine.
(** What [json.Unmarshal] leaves in the chain. *)
Context (unmarshal_chain : string → list escalationStep).

Definition parseEscalationChain (data : string) : list escalationStep :=
  if bool_decide (data = "") then [] else unmarshal_chain data.

Definition alert_message (rule : AlertRule) (resourceName : string) (value : float64) : string :=
  ar_Metric rule +:+ " " +:+ ar_Operator rule +:+ " " +:+ formatThreshold (ar_Threshold rule) +:+
  " on " +:+ resourceName +:+ " (current: " +:+ fmt_f 2 value +:+ ")".

(** The row [InsertAlertHistory] returns. *)
Definition new_alert (tk : Tick) (rule : AlertRule) (value : float64) (resourceName : string)
    (nodeID vmID : option uuid) : Alert := {|
  al_ID := t_new_id tk;
  al_RuleID := ar_ID rule;
  al_State := "pending";
  al_Severity := ar_Severity rule;
  al_ClusterID := ar_ClusterID rule;
  al_NodeID := nodeID;
  al_VmID := vmID;
  al_VmVmid := ar_VmVmid rule;
  al_UpsID := ar_UpsID rule;
  al_ResourceName := resourceName;
  al_Metric := ar_Metric rule;
  al_CurrentValue := value;
  al_Threshold := ar_Threshold rule;
  al_Message := alert_message rule resourceName value;
  al_EscalationLevel := 0;
  al_ChannelID := es_ChannelID <$> head (parseEscalationChain (ar_EscalationChain rule));
  al_PendingAt := t_db_insert tk;
  al_FiredAt := None;
  al_AcknowledgedAt := None;
  al_ResolvedAt := None;
  al_CreatedAt := t_db_insert tk;
|}.

(** A pending alert fires: the row, the event and the notification. *)
Definition fire (tk : Tick) (what : string) (rule : AlertRule) (id : uuid) (value : float64)
    (resourceName : string) : St unit :=
  let! _ := exec (err_fire tk) what (TransitionAlertToFiring id (t_db_update tk)) in
  let! _ := log (Publish rule id "fired") in
  log (DispatchForRule rule id value resourceName "firing" 0).

Definition in_cooldown (tk : Tick) (rule : AlertRule) (a : Alert) : bool :=
  bool_decide (al_State a = "resolved") &&
  (Sub (t_now tk) (default (al_CreatedAt a) (al_ResolvedAt a)) <?
     int64 (ar_CooldownSeconds rule * second)).

Definition insert_pending (tk : Tick) (rule : AlertRule) (value : float64) (resourceName : string)
    (nodeID vmID : option uuid) : St unit :=
  let a := new_alert tk rule value resourceName nodeID vmID in
  let! _ := exec (err_insert tk) "insert alert" (λ rows, rows ++ [a]) in
  if pendingDuration rule =? 0 then fire tk "immediate fire" rule (al_ID a) value resourceName
  else ret tt.

Definition handleRuleResult (tk : Tick) (rule : AlertRule) (conditionMet : bool) (value : float64)
    (resourceName : string) (nodeID vmID : option uuid) : St unit := λ w,
  let existing := GetLatestAlertForRule (ar_ID rule) nodeID (w_alerts w) in
  let w := {| w_alerts := foldl operate (w_alerts w) (t_meanwhile tk); w_log := w_log w |} in
  match err_lookup tk with
  | Some e => fail (wrap "lookup existing alert" e) w
  | None =>
      match existing with
      | Some a =>
          if alertActive (al_State a) then
            if conditionMet then
              (if bool_decide (al_State a = "pending") &&
                  (pendingDuration rule <=? Sub (t_now tk) (al_PendingAt a))
               then fire tk "transition to firing" rule (al_ID a) value resourceName else ret tt) w
            else
              (let! _ := exec (err_resolve tk) "auto-resolve" (AutoResolveAlert (al_ID a) (t_db_update tk)) in
               let! _ := log (Publish rule (al_ID a) "resolved") in
               if resolveNotifies (al_State a)
               then log (DispatchForRule rule (al_ID a) value resourceName "resolved" (al_EscalationLevel a))
               else ret tt) w
          else if conditionMet then
            (if in_cooldown tk rule a then ret tt
             else insert_pending tk rule value resourceName nodeID vmID) w
          else ret tt w
      | None =>
          (if conditionMet then insert_pending tk rule value resourceName nodeID vmID else ret tt) w
      end
  end.

(** ** Escalation *)

(** What the loop of [checkEscalations] meets on one alert. *)
Record EscalationRead := {
  er_rule : result go_error AlertRule;
  er_now : Z;
  er_update : option go_error;
  er_meanwhile : list operator_action;
}.

(** The step an alert is due: the level after its own, once the delay since it
    fired has passed. *)
Definition escalation_due (rule : AlertRule) (alert : Alert) (now : Z) : option (Z * escalationStep) :=
  let chain := parseEscalationChain (ar_EscalationChain rule) in
  let nextLevel := al_EscalationLevel alert + 1 in
  if bool_decide (chain = []) then None
  else if Z.of_nat (length chain) <=? nextLevel then None
  else
    match chain !! Z.to_nat nextLevel, al_FiredAt alert with
    | Some step, Some firedAt =>
        if Sub now firedAt <? int64 (es_DelayMinutes step * minute) then None else Some (nextLevel, step)
    | _, _ => None
    end.

Definition escalate_one (reads : uuid → EscalationRead) (w : World) (alert : Alert) : World :=
  let rd := reads (al_ID alert) in
  let w := {| w_alerts := foldl operate (w_alerts w) (er_meanwhile rd); w_log := w_log w |} in
  match er_rule rd with
  | Err _ => w
  | Ok rule =>
      if negb (ruleStandsBehind rule (al_Metric alert)) then w
      else match escalation_due rule alert (er_now rd) with
           | None => w
           | Some (nextLevel, step) =>
               match er_update rd with
               | Some _ => w
               | None =>
                   {| w_alerts := UpdateAlertEscalation (al_ID alert) (Int32 nextLevel)
                                    (Some (es_ChannelID step)) (w_alerts w);
                      w_log := w_log w ++
                        [Publish rule (al_ID alert) "escalated";
                         DispatchToChannel rule (al_ID alert) (es_ChannelID step) (al_CurrentValue alert)
                           (al_ResourceName alert) "escalated" nextLevel] |}
               end
           end
  end.

(** [listed] is the answer of [ListFiringUnacknowledged]. *)
Definition checkEscalations (listed : result go_error (list Alert)) (reads : uuid → EscalationRead)
    (w : World) : World :=
  match listed with
  | Err _ => w
  | Ok alerts => foldl (escalate_one reads) w alerts
  end.

(** ** Dispatching along the chain *)

(** The channel [dispatchForRule] sends to: the step of the level, the last
    step for a level past the chain. [None] when the chain is empty. *)
Definition dispatchForRule (rule : AlertRule) (alertID : uuid) (value : float64)
    (resourceName state : string) (escalationLevel : Z) : option call :=
  let chain := parseEscalationChain (ar_EscalationChain rule) in
  let idx := if Z.of_nat (length chain) <=? escalationLevel
             then Z.of_nat (length chain) - 1 else escalationLevel in
  (λ step, DispatchToChannel rule alertID (es_ChannelID step) value resourceName state escalationLevel)
    <$> chain !! Z.to_nat idx.

(** ** Evaluating a rule's scope *)

(** The row of a guest in the inventory. *)
Record VmRow := { vm_ID : uuid; vm_Name : string; vm_Vmid : Z }.

(** What the evaluation of one rule reads. The last field is what a result
    for a resource meets in the table as it then stands. *)
Record RuleReads := {
  GetNodeRecentMetrics : uuid → result go_error (list Sample);
  GetVMRecentMetrics : uuid → result go_error (list VMSample);
  GetNode_name : uuid → result go_error string;
  GetVM_name : uuid → result go_error string;
  GetVMByClusterAndVmid : uuid → Z → result go_error VmRow;
  ListNodesByCluster : uuid → result go_error (list uuid);
  judged_now : Z;
  tick_of : uuid → World → Tick;
}.

(** [uuid.UUID.String] *)
Context (uuid_String : uuid → string).

Definition name_or_id (name : result go_error string) (id : uuid) : string :=
  match name with Ok n => n | Err _ => uuid_String id end.

Definition handle (tk : World → Tick) (rule : AlertRule) (conditionMet : bool) (value : float64)
    (resourceName : string) (nodeID vmID : option uuid) : St unit := λ w,
  handleRuleResult (tk w) rule conditionMet value resourceName nodeID vmID w.

Definition evaluateNodeRule (rd : RuleReads) (rule : AlertRule) (nodeID : uuid) : St unit :=
  match GetNodeRecentMetrics rd nodeID with
  | Err e => fail (wrap "get node metrics" e)
  | Ok metrics =>
      let '(allMatch, latestValue, ok) := nodeRuleOutcome rule metrics (judged_now rd) in
      if negb ok then ret tt
      else handle (tick_of rd nodeID) rule allMatch latestValue
             (name_or_id (GetNode_name rd nodeID) nodeID) (Some nodeID) None
  end.

Definition evaluateVMRule (rd : RuleReads) (rule : AlertRule) (vmID : uuid) : St unit :=
  match GetVMRecentMetrics rd vmID with
  | Err e => fail (wrap "get vm metrics" e)
  | Ok metrics =>
      let '(allMatch, latestValue, ok) := vmRuleOutcome rule metrics (judged_now rd) in
      if negb ok then ret tt
      else handle (tick_of rd vmID) rule allMatch latestValue
             (name_or_id (GetVM_name rd vmID) vmID) None (Some vmID)
  end.

(** The loop of a cluster rule: a node that fails is logged and passed over. *)
Definition evaluate_nodes (rd : RuleReads) (rule : AlertRule) (windows : list MaintenanceWindow)
    (nodes : list uuid) (w : World) : World :=
  foldl (λ w node,
    if isInMaintenanceWindow (ar_ClusterID rule) (Some node) windows then w
    else (evaluateNodeRule rd rule node w).1) w nodes.

Definition evaluateScopedRule (rd : RuleReads) (rule : AlertRule) (windows : list MaintenanceWindow) :
    St unit :=
  if bool_decide (ar_ScopeType rule = "node") then
    match ar_NodeID rule with
    | None => fail (errorf ("node rule " +:+ uuid_String (ar_ID rule) +:+ " has no node_id"))
    | Some nodeID =>
        if isInMaintenanceWindow (ar_ClusterID rule) (ar_NodeID rule) windows then ret tt
        else evaluateNodeRule rd rule nodeID
    end
  else if bool_decide (ar_ScopeType rule = "vm") then
    match ar_VmVmid rule, ar_ClusterID rule with
    | None, _ => fail (errorf ("vm rule " +:+ uuid_String (ar_ID rule) +:+ " has no vmid"))
    | _, None => fail (errorf ("vm rule " +:+ uuid_String (ar_ID rule) +:+ " has no cluster_id"))
    | Some vmid, Some clusterID =>
        if isInMaintenanceWindow (ar_ClusterID rule) None windows then ret tt
        else match GetVMByClusterAndVmid rd clusterID vmid with
             | Err _ => ret tt
             | Ok vm => evaluateVMRule rd rule (vm_ID vm)
             end
    end
  else if bool_decide (ar_ScopeType rule = "cluster") then
    match ar_ClusterID rule with
    | None => fail (errorf ("cluster rule " +:+ uuid_String (ar_ID rule) +:+ " has no cluster_id"))
    | Some clusterID =>
        match ListNodesByCluster rd clusterID with
        | Err e => fail (wrap "list nodes" e)
        | Ok nodes => λ w, (evaluate_nodes rd rule windows nodes w, Ok tt)
        end
    end
  else fail (errorf ("unsupported scope_type: " +:+ ar_ScopeType rule)).

(** ** Histories *)

(** Whether a rule is evaluated per node (a node rule, or a cluster rule on a
    node metric) or has one alert stream. *)
Context (per_node : uuid → bool).

(** One turn of a server's life: a rule result handled, a round of
    escalations, or an operator. The database generates fresh identifiers and
    its clock moves on between two insertions. *)
Inductive step : World → World → Prop :=
| step_rule tk rule met value resourceName nodeID vmID w :
    t_new_id tk ∉ al_ID <$> w_alerts w →
    (∀ a, a ∈ w_alerts w → al_CreatedAt a < t_db_insert tk) →
    (is_Some nodeID ↔ per_node (ar_ID rule) = true) →
    step w (handleRuleResult tk rule met value resourceName nodeID vmID w).1
| step_escalations listed reads w :
    (∀ l a, listed = Ok l → a ∈ l → a ∈ w_alerts w ∧ firing_unacknowledged a = true) →
    step w (checkEscalations listed reads w)
| step_operator op w :
    step w {| w_alerts := operate (w_alerts w) op; w_log := w_log w |}.

Definition start : World := {| w_alerts := []; w_log := [] |}.

(** [ON DELETE SET NULL] of a node that is removed. *)
Definition forget_node (nodeID : uuid) (a : Alert) : Alert :=
  if bool_decide (al_NodeID a = Some nodeID) then
    {| al_ID := al_ID a; al_RuleID := al_RuleID a; al_State := al_State a; al_Severity := al_Severity a;
       al_ClusterID := al_ClusterID a; al_NodeID := None; al_VmID := al_VmID a; al_VmVmid := al_VmVmid a;
       al_UpsID := al_UpsID a; al_ResourceName := al_ResourceName a; al_Metric := al_Metric a;
       al_CurrentValue := al_CurrentValue a; al_Threshold := al_Threshold a; al_Message := al_Message a;
       al_EscalationLevel := al_EscalationLevel a; al_ChannelID := al_ChannelID a; al_PendingAt := al_PendingAt a;
       al_FiredAt := al_FiredAt a; al_AcknowledgedAt := al_AcknowledgedAt a; al_ResolvedAt := al_ResolvedAt a;
       al_CreatedAt := al_CreatedAt a |}
  else a.

(** The same while rules are changed ([UpdateRule]: a rule may be on nodes at one time and not at another), nodes are
    removed, and alerts go with their rule or cluster. The second part keeps the rules that had a result on a node. *)
Inductive turn : World * gset uuid → World * gset uuid → Prop :=
| turn_rule tk rule met value resourceName nodeID vmID w nodal :
    t_new_id tk ∉ al_ID <$> w_alerts w →
    (∀ a, a ∈ w_alerts w → al_CreatedAt a < t_db_insert tk) →
    turn (w, nodal) ((handleRuleResult tk rule met value resourceName nodeID vmID w).1,
                     match nodeID with Some _ => {[ar_ID rule]} ∪ nodal | None => nodal end)
| turn_escalations listed reads w nodal :
    (∀ l a, listed = Ok l → a ∈ l → a ∈ w_alerts w ∧ firing_unacknowledged a = true) →
    turn (w, nodal) (checkEscalations listed reads w, nodal)
| turn_operator op w nodal :
    turn (w, nodal) ({| w_alerts := operate (w_alerts w) op; w_log := w_log w |}, nodal)
| turn_node_removed nodeID w nodal :
    turn (w, nodal) ({| w_alerts := forget_node nodeID <$> w_alerts w; w_log := w_log w |}, nodal)
| turn_removed (keep : Alert → bool) w nodal :
    turn (w, nodal) ({| w_alerts := List.filter keep (w_alerts w); w_log := w_log w |}, nodal).

(** ** The invariant *)

Definition valid_state (s : string) : Prop :=
  s ∈ ["pending"; "firing"; "acknowledged"; "resolved"]%string.

Definition is_firing (id : uuid) (c : call) : bool :=
  match c with
  | DispatchForRule _ i _ _ s _ => (i =? id) && bool_decide (s = "firing")
  | _ => false
  end.

(** How many times an alert's firing was dispatched. *)
Definition fired (id : uuid) (l : list call) : nat := length (List.filter (is_firing id) l).

(** Notifications about an alert other than its firing. *)
Definition follows_up (id : uuid) (c : call) : Prop :=
  match c with
  | Publish _ _ _ => False
  | DispatchForRule _ i _ _ s _ => i = id ∧ s ≠ "firing"
  | DispatchToChannel _ i _ _ _ _ _ => i = id
  end.

Definition log_ordered (l : list call) : Prop :=
  ∀ pre c post id, l = pre ++ c :: post → follows_up id c → fired id pre = 1%nat.

(** The firings an alert in a state has had. *)
Definition firings_fit (state : string) (n : nat) : Prop :=
  (n ≤ 1)%nat ∧ (state = "pending" → n = 0%nat) ∧ (resolveNotifies state = true → n = 1%nat).

Record table_ok (rows : list Alert) : Prop := {
  ok_ids : NoDup (al_ID <$> rows);
  ok_order : StronglySorted (λ a b, al_CreatedAt a < al_CreatedAt b) rows;
  ok_rows : ∀ a, a ∈ rows → valid_state (al_State a) ∧ 0 ≤ al_EscalationLevel a ∧
    (is_Some (al_NodeID a) ↔ per_node (al_RuleID a) = true);
  ok_once : ∀ a b, a ∈ rows → b ∈ rows → al_RuleID a = al_RuleID b → al_NodeID a = al_NodeID b →
    al_CreatedAt a < al_CreatedAt b → alertActive (al_State a) = false;
}.

Record inv (w : World) : Prop := {
  inv_table : table_ok (w_alerts w);
  inv_fired : ∀ a, a ∈ w_alerts w → firings_fit (al_State a) (fired (al_ID a) (w_log w));
  inv_fresh : ∀ id, id ∉ al_ID <$> w_alerts w → fired id (w_log w) = 0%nat;
  inv_log : log_ordered (w_log w);
}.
End engine.

(** ** Lemmas on the table *)

(** A row and what a query makes of it: the same alert, inactive if it was. *)
Definition keeps (a b : Alert) : Prop :=
  al_ID b = al_ID a ∧ al_RuleID b = al_RuleID a ∧ al_NodeID b = al_NodeID a ∧
  al_CreatedAt b = al_CreatedAt a ∧
  (alertActive (al_State a) = false → alertActive (al_State b) = false) ∧
  (valid_state (al_State a) → valid_state (al_State b)) ∧
  (0 ≤ al_EscalationLevel a → 0 ≤ al_EscalationLevel b).

Lemma keeps_refl a : keeps a a.
Proof. unfold keeps. tauto. Qed.

(** A query on the row of one alert, in some states, setting another state. *)
Definition moves (id : uuid) (states : list string) (f : Alert → Alert) (a : Alert) : Alert :=
  if (al_ID a =? id) && contains states (al_State a) then f a else a.

Lemma update_where_moves id states f rows : update_where id states f rows = moves id states f <$> rows.
Proof. done. Qed.

Lemma moves_keeps id states state g1 g2 g3 a :
  Forall (λ s, alertActive s = true) states → valid_state state →
  keeps a (moves id states (λ a, with_state state (g1 a) (g2 a) (g3 a) a) a).
Proof.
  intros Hs Hv. unfold moves. destruct (_ && _) eqn:E; [|apply keeps_refl].
  apply andb_true_iff in E as [_ Hc%contains_spec]. eapply Forall_forall in Hs; [|done].
  unfold keeps. simpl. split_and!; auto. by rewrite Hs.
Qed.

Lemma moves_other id states f a : al_State a ∉ states → moves id states f a = a.
Proof. intros Hn. unfold moves. rewrite (proj2 (contains_false _ _) Hn). by rewrite andb_false_r. Qed.

Lemma moves_hit states f a : al_State a ∈ states → moves (al_ID a) states f a = f a.
Proof. intros Hi. unfold moves. by rewrite Z.eqb_refl, (proj2 (contains_spec _ _) Hi). Qed.

Section table.
Context (per_node : uuid → bool).
Implicit Types rows : list Alert.

Lemma table_ok_map (f : Alert → Alert) rows :
  (∀ a, keeps a (f a)) → table_ok per_node rows → table_ok per_node (f <$> rows).
Proof.
  intros Hk [Hids Hord Hrows Honce]. split.
  - rewrite <-list_fmap_compose. rewrite (list_fmap_ext _ al_ID); [done|].
    intros i a _. apply Hk.
  - clear -Hord Hk. induction Hord as [|a l Hl IH Ha]; csimpl; constructor; [done|].
    rewrite Forall_fmap. eapply Forall_impl; [done|]. intros b Hb. simpl.
    destruct (Hk a) as (_ & _ & _ & -> & _), (Hk b) as (_ & _ & _ & -> & _). done.
  - intros b (a & -> & Ha)%list_elem_of_fmap. destruct (Hrows a Ha) as (Hv & Hl & Hd).
    destruct (Hk a) as (_ & -> & -> & _ & _ & ? & ?). auto.
  - intros a' b' (a & -> & Ha)%list_elem_of_fmap (b & -> & Hb)%list_elem_of_fmap.
    destruct (Hk a) as (_ & -> & -> & -> & Hact & _), (Hk b) as (_ & -> & -> & -> & _).
    intros. apply Hact. eauto.
Qed.

Lemma table_ok_app rows a :
  table_ok per_node rows → valid_state (al_State a) → 0 ≤ al_EscalationLevel a →
  (is_Some (al_NodeID a) ↔ per_node (al_RuleID a) = true) →
  al_ID a ∉ al_ID <$> rows → (∀ b, b ∈ rows → al_CreatedAt b < al_CreatedAt a) →
  (∀ b, b ∈ rows → al_RuleID b = al_RuleID a → al_NodeID b = al_NodeID a → alertActive (al_State b) = false) →
  table_ok per_node (rows ++ [a]).
Proof.
  intros [Hids Hord Hrows Honce] Hv Hl Hd Hfresh Hnew Hno. split.
  - rewrite fmap_app. apply NoDup_app. split_and!; [done| |apply NoDup_singleton].
    intros i Hi ->%list_elem_of_singleton. done.
  - clear -Hord Hnew. induction Hord as [|b l Hb IH Hf]; simpl; [by repeat constructor|].
    constructor; [apply IH; set_solver|]. apply Forall_app. split; [done|].
    constructor; [|done]. apply Hnew. set_solver.
  - intros b [Hb| ->%list_elem_of_singleton]%elem_of_app; auto.
  - intros b c [Hb| ->%list_elem_of_singleton]%elem_of_app [Hc| ->%list_elem_of_singleton]%elem_of_app ?? Hlt;
      [by eapply Honce|by apply Hno| |lia].
    apply Hnew in Hc. lia.
Qed.

Lemma created_inj rows a b :
  table_ok per_node rows → a ∈ rows → b ∈ rows → al_CreatedAt a = al_CreatedAt b → a = b.
Proof.
  intros [_ Hord _ _]. induction Hord as [|c l Hl IH Hc]; [by intros ?%not_elem_of_nil|].
  rewrite Forall_forall in Hc.
  intros [->|Ha]%elem_of_cons [->|Hb]%elem_of_cons He; [done|apply Hc in Hb; lia|apply Hc in Ha; lia|auto].
Qed.

Lemma id_inj rows a b :
  table_ok per_node rows → a ∈ rows → b ∈ rows → al_ID a = al_ID b → a = b.
Proof.
  intros [Hids _ _ _] [i Hi]%list_elem_of_lookup [j Hj]%list_elem_of_lookup He.
  assert (i = j) as ->; [|congruence].
  eapply NoDup_lookup; [done|rewrite list_lookup_fmap, Hi; done|].
  rewrite list_lookup_fmap, Hj. simpl. by rewrite He.
Qed.

(** ** The latest alert of a stream *)

Lemma latest_of_spec rows :
  match latest_of rows with
  | None => rows = []
  | Some a => a ∈ rows ∧ ∀ b, b ∈ rows → al_CreatedAt b ≤ al_CreatedAt a
  end.
Proof.
  unfold latest_of. induction rows as [|b rows IH] using rev_ind; [done|].
  rewrite foldl_app. cbn [foldl]. unfold newer at 1. destruct (foldl newer None rows) as [a|].
  - destruct IH as [Ha Hmax]. destruct (Z.ltb_spec (al_CreatedAt b) (al_CreatedAt a)).
    + split; [set_solver|]. intros c [Hc| ->%list_elem_of_singleton]%elem_of_app; [auto|lia].
    + split; [set_solver|]. intros c [Hc%Hmax| ->%list_elem_of_singleton]%elem_of_app; lia.
  - subst. split; [set_solver|]. intros c Hc%list_elem_of_singleton. subst. done.
Qed.

Definition in_stream (ruleID : uuid) (nodeID : option uuid) (a : Alert) : Prop :=
  al_RuleID a = ruleID ∧ al_NodeID a = nodeID.

Lemma same_stream_spec rows ruleID nodeID a :
  table_ok per_node rows → (is_Some nodeID ↔ per_node ruleID = true) → a ∈ rows →
  same_stream ruleID nodeID a = true ↔ in_stream ruleID nodeID a.
Proof.
  intros Hok Hdim Ha. unfold same_stream, in_stream. rewrite andb_true_iff, Z.eqb_eq.
  destruct nodeID as [n|]; [by rewrite bool_decide_eq_true|]. split; [|tauto].
  intros [Hr _]. split; [done|]. destruct (ok_rows _ _ Hok a Ha) as (_ & _ & Hd).
  rewrite Hr, <-Hdim in Hd. destruct (al_NodeID a); [|done].
  by destruct (proj1 Hd ltac:(eauto)).
Qed.

(** The lookup answers the newest alert of the stream; every other one of it
    is inactive. *)
Lemma GetLatestAlertForRule_spec rows ruleID nodeID :
  table_ok per_node rows → (is_Some nodeID ↔ per_node ruleID = true) →
  match GetLatestAlertForRule ruleID nodeID rows with
  | None => ∀ b, b ∈ rows → ¬ in_stream ruleID nodeID b
  | Some a => a ∈ rows ∧ in_stream ruleID nodeID a ∧
      ∀ b, b ∈ rows → in_stream ruleID nodeID b → b = a ∨ alertActive (al_State b) = false
  end.
Proof.
  intros Hok Hdim. unfold GetLatestAlertForRule.
  pose proof (latest_of_spec (List.filter (same_stream ruleID nodeID) rows)) as Hl.
  assert (∀ b, b ∈ List.filter (same_stream ruleID nodeID) rows ↔ b ∈ rows ∧ in_stream ruleID nodeID b) as Hf.
  { intros b. rewrite elem_of_bfilter. split; intros [Hb ?]; split; [done| |done|];
      by apply (same_stream_spec rows). }
  destruct (latest_of _) as [a|].
  - rewrite Hf in Hl. destruct Hl as ([Ha [Hr Hn]] & Hmax). split_and!; [done|done|].
    intros b Hb [Hbr Hbn]. specialize (Hmax b (proj2 (Hf b) (conj Hb (conj Hbr Hbn)))).
    destruct (decide (al_CreatedAt b = al_CreatedAt a)) as [He|He]; [left; by eapply created_inj|].
    right. eapply (ok_once _ _ Hok b a); [done|done|congruence|congruence|lia].
  - intros b Hb Hs. apply (not_elem_of_nil b). rewrite <-Hl. by apply Hf.
Qed.
End table.

(** ** Lemmas on the log *)

Lemma fired_app id l k : fired id (l ++ k) = (fired id l + fired id k)%nat.
Proof. unfold fired. by rewrite List.filter_app, length_app. Qed.

Lemma log_ordered_snoc l c :
  log_ordered l → (∀ id, follows_up id c → fired id l = 1%nat) → log_ordered (l ++ [c]).
Proof.
  intros Hl Hc pre d post id Heq Hf. destruct post as [|e post _] using rev_ind.
  - apply app_inj_tail in Heq as [-> ->]. auto.
  - rewrite app_comm_cons, (assoc_L (++)) in Heq. apply app_inj_tail in Heq as [-> _]. eauto.
Qed.

Section invariant.
Context (unmarshal_chain : string → list escalationStep) (per_node : uuid → bool).
Abbreviation inv := (inv per_node).

(** A query on existing rows keeps the invariant when the firings an alert has
    had still fit its state. *)
Lemma inv_map (f : Alert → Alert) w :
  inv w → (∀ a, keeps a (f a)) →
  (∀ a, a ∈ w_alerts w → ∀ n, firings_fit (al_State a) n → firings_fit (al_State (f a)) n) →
  inv {| w_alerts := f <$> w_alerts w; w_log := w_log w |}.
Proof.
  intros [Ht Hf Hfr Hl] Hk Hfit. split; simpl; [by apply table_ok_map| | |done].
  - intros b (a & -> & Ha)%list_elem_of_fmap. destruct (Hk a) as (-> & _). by apply Hfit, Hf.
  - intros id Hid. apply Hfr. intros (a & -> & Ha)%list_elem_of_fmap. apply Hid.
    apply list_elem_of_fmap. exists (f a). split; [|by apply list_elem_of_fmap_2].
    by destruct (Hk a) as (-> & _).
Qed.

Lemma firings_fit_moves id states state g1 g2 g3 a n :
  (∀ s, s ∈ states → firings_fit s n → firings_fit state n) →
  firings_fit (al_State a) n →
  firings_fit (al_State (moves id states (λ a, with_state state (g1 a) (g2 a) (g3 a) a) a)) n.
Proof.
  intros Hs Ha. unfold moves. destruct (_ && _) eqn:E; [|done].
  apply andb_true_iff in E as [_ Hc%contains_spec]. simpl. eauto.
Qed.

Lemma firings_fit_resolved s n : firings_fit s n → firings_fit "resolved" n.
Proof. intros [Hn _]. by split. Qed.

Lemma firings_fit_acknowledged s n : s ∈ ["firing"%string] → firings_fit s n → firings_fit "acknowledged" n.
Proof. intros ->%list_elem_of_singleton (Hn & _ & H). split_and!; [done..|]. intros _. by apply H. Qed.

Ltac states_active := repeat (apply Forall_cons; split; [done|]); apply Forall_nil; done.
Ltac state_valid := unfold valid_state; set_solver.

Lemma inv_operate op w : inv w → inv {| w_alerts := operate (w_alerts w) op; w_log := w_log w |}.
Proof.
  intros Hi. destruct op; simpl; unfold AcknowledgeAlert, ResolveAlert; rewrite update_where_moves;
    (apply inv_map; [done|intros a; apply moves_keeps; [states_active|state_valid]|]);
    intros a _ n; apply firings_fit_moves; eauto using firings_fit_acknowledged, firings_fit_resolved.
Qed.

Lemma inv_operates ops w : inv w → inv {| w_alerts := foldl operate (w_alerts w) ops; w_log := w_log w |}.
Proof.
  revert w. induction ops as [|op ops IH]; intros w Hi; simpl; [by destruct w|].
  apply (IH {| w_alerts := operate (w_alerts w) op; w_log := w_log w |}). by apply inv_operate.
Qed.

(** Operators leave pending alerts alone, and wake no inactive one. *)
Lemma operates_pending ops rows a :
  a ∈ rows → al_State a = "pending" → a ∈ foldl operate rows ops.
Proof.
  intros Ha Hp. revert rows Ha. induction ops as [|op ops IH]; intros rows Ha; simpl; [done|].
  apply IH. destruct op; simpl; unfold AcknowledgeAlert, ResolveAlert; rewrite update_where_moves;
    apply list_elem_of_fmap; exists a; (split; [|done]); symmetry; apply moves_other; rewrite Hp; set_solver.
Qed.

Lemma operates_from ops rows b :
  b ∈ foldl operate rows ops → ∃ a, a ∈ rows ∧ keeps a b.
Proof.
  revert rows b. induction ops as [|op ops IH]; intros rows b; simpl; [eauto using keeps_refl|].
  intros (c & Hc & Hcb)%IH.
  assert (∃ a, a ∈ rows ∧ keeps a c) as (a & Ha & Hac).
  { destruct op; simpl in Hc; unfold AcknowledgeAlert, ResolveAlert in Hc; rewrite update_where_moves in Hc;
      apply list_elem_of_fmap in Hc as (a & -> & Ha); exists a; (split; [done|]);
      apply moves_keeps; [states_active|state_valid|states_active|state_valid]. }
  exists a. split; [done|]. unfold keeps in *. destruct Hac as (-> & -> & -> & -> & ? & ? & ?) in Hcb.
  naive_solver.
Qed.

Lemma operates_ids ops rows : al_ID <$> foldl operate rows ops = al_ID <$> rows.
Proof.
  revert rows. induction ops as [|op ops IH]; intros rows; simpl; [done|]. rewrite IH.
  destruct op; simpl; unfold AcknowledgeAlert, ResolveAlert; rewrite update_where_moves, <-list_fmap_compose;
    apply list_fmap_ext; intros i a _; unfold compose, moves; by destruct (_ && _).
Qed.

Lemma inv_log_quiet w c :
  inv w → (∀ id, is_firing id c = false) → (∀ id, follows_up id c → fired id (w_log w) = 1%nat) →
  inv {| w_alerts := w_alerts w; w_log := w_log w ++ [c] |}.
Proof.
  intros [Ht Hf Hfr Hl] Hq Hfo.
  assert (∀ id, fired id (w_log w ++ [c]) = fired id (w_log w)) as Heq.
  { intros id. rewrite fired_app. unfold fired at 2. simpl. rewrite Hq. simpl. lia. }
  split; simpl; [done|..|by apply log_ordered_snoc].
  - intros a Ha. rewrite Heq. auto.
  - intros id Hid. rewrite Heq. auto.
Qed.

Lemma inv_fire tk what rule a value name w :
  inv w → a ∈ w_alerts w → al_State a = "pending" →
  inv (fire tk what rule (al_ID a) value name w).1.
Proof.
  intros Hi Ha Hp. unfold fire, bind, exec. destruct (err_fire tk); simpl; [done|].
  pose proof Hi as [Ht Hf Hfr Hl].
  assert (∀ id, fired id ((w_log w ++ [Publish rule (al_ID a) "fired"]) ++
      [DispatchForRule rule (al_ID a) value name "firing" 0]) =
    (fired id (w_log w) + if (al_ID a =? id)%Z then 1 else 0)%nat) as Hn.
  { intros id. rewrite !fired_app. unfold fired at 2 3. simpl. rewrite andb_true_r.
    destruct (al_ID a =? id)%Z; simpl; lia. }
  set (g := λ b, with_state "firing" (Some (t_db_update tk)) (al_AcknowledgedAt b) (al_ResolvedAt b) b).
  assert (∀ b, keeps b (moves (al_ID a) ["pending"%string] g b)) as Hk.
  { intros b. apply moves_keeps; [states_active|state_valid]. }
  split; simpl; unfold TransitionAlertToFiring; rewrite ?update_where_moves; fold g.
  - by apply table_ok_map.
  - intros b' (b & -> & Hb)%list_elem_of_fmap. rewrite Hn. destruct (Hk b) as (-> & _).
    destruct (Z.eqb_spec (al_ID a) (al_ID b)) as [He|He].
    + assert (a = b) as <- by by eapply id_inj. rewrite moves_hit by (rewrite Hp; set_solver).
      destruct (Hf a Ha) as (_ & -> & _); [|done]. split_and!; [done|done|done].
    + unfold moves. rewrite (proj2 (Z.eqb_neq _ _)) by congruence. simpl. rewrite Nat.add_0_r. auto.
  - intros id Hid. rewrite Hn, (proj2 (Z.eqb_neq _ _)), Nat.add_0_r; [apply Hfr|].
    + intros (b & -> & Hb)%list_elem_of_fmap. apply Hid. apply list_elem_of_fmap.
      exists (moves (al_ID a) ["pending"%string] g b). split; [|by apply list_elem_of_fmap_2].
      by destruct (Hk b) as (-> & _).
    + intros <-. apply Hid. apply list_elem_of_fmap.
      exists (moves (al_ID a) ["pending"%string] g a). split; [|by apply list_elem_of_fmap_2].
      by destruct (Hk a) as (-> & _).
  - apply log_ordered_snoc; [apply log_ordered_snoc; [done|by intros id []]|].
    intros id [_ Hs]. done.
Qed.

Lemma inv_insert tk rule value name nodeID vmID w :
  inv w → t_new_id tk ∉ al_ID <$> w_alerts w →
  (∀ a, a ∈ w_alerts w → al_CreatedAt a < t_db_insert tk) →
  (is_Some nodeID ↔ per_node (ar_ID rule) = true) →
  (∀ b, b ∈ w_alerts w → in_stream (ar_ID rule) nodeID b → alertActive (al_State b) = false) →
  inv (insert_pending unmarshal_chain tk rule value name nodeID vmID w).1.
Proof.
  intros [Ht Hf Hfr Hl] Hid Hnew Hdim Hno. unfold insert_pending, bind, exec.
  destruct (err_insert tk); simpl; [done|].
  set (a := new_alert unmarshal_chain tk rule value name nodeID vmID).
  set (w' := {| w_alerts := w_alerts w ++ [a]; w_log := w_log w |}).
  assert (inv w') as Hi'.
  { split; simpl; [|..|done].
    - apply table_ok_app; simpl; [done|state_valid|done..|]. by intros b Hb Hr Hn; apply Hno.
    - intros b [Hb| ->%list_elem_of_singleton]%elem_of_app; [auto|]. simpl. rewrite Hfr by done.
      split_and!; [lia|done|]. intros Hr. by vm_compute in Hr.
    - intros id Hnin. apply Hfr. rewrite fmap_app in Hnin. set_solver. }
  destruct (pendingDuration rule =? 0); [|done].
  apply (inv_fire tk "immediate fire" rule a value name w' Hi'); [set_solver|done].
Qed.

Lemma inv_resolve tk rule a value name w :
  inv w → (resolveNotifies (al_State a) = true → fired (al_ID a) (w_log w) = 1%nat) →
  inv ((let! _ := exec (err_resolve tk) "auto-resolve" (AutoResolveAlert (al_ID a) (t_db_update tk)) in
        let! _ := log (Publish rule (al_ID a) "resolved") in
        if resolveNotifies (al_State a)
        then log (DispatchForRule rule (al_ID a) value name "resolved" (al_EscalationLevel a))
        else ret tt) w).1.
Proof.
  intros Hi Hf. unfold bind, exec. destruct (err_resolve tk); simpl; [done|].
  set (rows := AutoResolveAlert _ _ _).
  assert (inv {| w_alerts := rows; w_log := w_log w |}) as Hi1.
  { unfold rows, AutoResolveAlert. rewrite update_where_moves. apply inv_map; [done| |].
    - intros b. apply moves_keeps; [states_active|state_valid].
    - intros b _ n. apply firings_fit_moves. eauto using firings_fit_resolved. }
  apply (inv_log_quiet _ (Publish rule (al_ID a) "resolved")) in Hi1; [|done|by intros id []].
  simpl in Hi1. destruct (resolveNotifies (al_State a)); simpl; [|done].
  apply (inv_log_quiet _ (DispatchForRule rule (al_ID a) value name "resolved" (al_EscalationLevel a)))
    in Hi1; [done| |].
  - intros id. simpl. by rewrite andb_false_r.
  - intros id [<- _]. simpl. rewrite fired_app. by rewrite Hf.
Qed.

Lemma inv_handle tk rule met value name nodeID vmID w :
  inv w → t_new_id tk ∉ al_ID <$> w_alerts w →
  (∀ a, a ∈ w_alerts w → al_CreatedAt a < t_db_insert tk) →
  (is_Some nodeID ↔ per_node (ar_ID rule) = true) →
  inv (handleRuleResult unmarshal_chain tk rule met value name nodeID vmID w).1.
Proof.
  intros Hi Hid Hnew Hdim. unfold handleRuleResult.
  pose proof (GetLatestAlertForRule_spec per_node _ (ar_ID rule) nodeID (inv_table _ _ Hi) Hdim) as Hlat.
  pose proof (inv_operates (t_meanwhile tk) w Hi) as Hi1.
  set (w1 := {| w_alerts := foldl operate (w_alerts w) (t_meanwhile tk); w_log := w_log w |}) in *.
  assert ((∀ b, b ∈ w_alerts w → in_stream (ar_ID rule) nodeID b → alertActive (al_State b) = false) →
    inv (insert_pending unmarshal_chain tk rule value name nodeID vmID w1).1) as Hins.
  { intros Hno. apply inv_insert; [done|unfold w1; simpl; by rewrite operates_ids| |done|].
    - intros b (a & Ha & Hk)%operates_from. destruct Hk as (_ & _ & _ & -> & _). auto.
    - intros b (a & Ha & Hk)%operates_from [Hr Hn].
      destruct Hk as (_ & Hkr & Hkn & _ & Hact & _). apply Hact, Hno; [done|]. split; congruence. }
  destruct (err_lookup tk); [done|].
  destruct (GetLatestAlertForRule (ar_ID rule) nodeID (w_alerts w)) as [a|].
  - destruct Hlat as (Ha & Hs & Hother). destruct (alertActive (al_State a)) eqn:Hact.
    + destruct met.
      * destruct (bool_decide (al_State a = "pending") && _) eqn:Hp; [|done].
        to_prop. apply inv_fire; [done| |done]. by apply operates_pending.
      * apply inv_resolve; [done|]. intros Hr. by apply (inv_fired _ _ Hi a Ha).
    + destruct met; [|done]. destruct (in_cooldown tk rule a); [done|]. apply Hins.
      intros b Hb Hsb. destruct (Hother b Hb Hsb) as [->|]; done.
  - destruct met; [|done]. apply Hins. intros b Hb Hsb. by destruct (Hlat b Hb).
Qed.

Lemma Int32_nonneg z : 0 ≤ z → 0 ≤ Int32 z.
Proof. unfold Int32, maxInt32, minInt32. repeat case_match; to_prop; lia. Qed.

Lemma inv_escalate_one reads w alert :
  inv w → fired (al_ID alert) (w_log w) = 1%nat → 0 ≤ al_EscalationLevel alert →
  inv (escalate_one unmarshal_chain reads w alert) ∧
  ∀ id, fired id (w_log (escalate_one unmarshal_chain reads w alert)) = fired id (w_log w).
Proof.
  intros Hi Hfired Hlev. unfold escalate_one.
  pose proof (inv_operates (er_meanwhile (reads (al_ID alert))) w Hi) as Hi1.
  set (w1 := {| w_alerts := foldl operate (w_alerts w) _; w_log := w_log w |}) in *.
  destruct (er_rule _) as [rule|]; [|done]. destruct (negb _); [done|].
  destruct (escalation_due unmarshal_chain rule alert _) as [[lvl stp]|] eqn:Hdue; [|done].
  destruct (er_update _); [done|].
  assert (0 ≤ lvl) as Hl.
  { unfold escalation_due in Hdue. repeat case_match; simplify_eq. lia. }
  split.
  - apply (inv_map (λ a, if al_ID a =? al_ID alert then with_level (Int32 lvl) (Some (es_ChannelID stp)) a else a))
      in Hi1.
    + apply (inv_log_quiet _ (Publish rule (al_ID alert) "escalated")) in Hi1; [|done|by intros id []].
      apply (inv_log_quiet _ (DispatchToChannel rule (al_ID alert) (es_ChannelID stp) (al_CurrentValue alert)
        (al_ResourceName alert) "escalated" lvl)) in Hi1; [|done|].
      * simpl in Hi1. by rewrite <-(assoc_L (++)) in Hi1.
      * intros id <-. simpl. rewrite fired_app. rewrite Hfired. done.
    + intros a. destruct (_ =? _); [|apply keeps_refl].
      unfold keeps. simpl. split_and!; auto using Int32_nonneg.
    + intros a _ n. by destruct (_ =? _).
  - intros id. simpl. rewrite fired_app. unfold fired at 2. simpl. lia.
Qed.

Lemma inv_escalations listed reads w :
  inv w →
  (∀ l a, listed = Ok l → a ∈ l → a ∈ w_alerts w ∧ firing_unacknowledged a = true) →
  inv (checkEscalations unmarshal_chain listed reads w).
Proof.
  intros Hi Hl. unfold checkEscalations. destruct listed as [l|]; [|done].
  assert (∀ a, a ∈ l → fired (al_ID a) (w_log w) = 1%nat ∧ 0 ≤ al_EscalationLevel a) as Hf.
  { intros a Ha. destruct (Hl l a eq_refl Ha) as [Hin Hfu].
    unfold firing_unacknowledged in Hfu. to_prop. split.
    - apply (inv_fired _ _ Hi a Hin). by rewrite H.
    - by apply (ok_rows _ _ (inv_table _ _ Hi) a Hin). }
  clear Hl. revert w Hi Hf. induction l as [|a l IH]; intros w Hi Hf; simpl; [done|].
  destruct (Hf a ltac:(set_solver)) as [Hfa Hla].
  destruct (inv_escalate_one reads w a Hi Hfa Hla) as [Hi' Heq].
  apply IH; [done|]. intros b Hb. rewrite Heq. apply Hf. set_solver.
Qed.

Lemma inv_step w w' : inv w → step unmarshal_chain per_node w w' → inv w'.
Proof.
  intros Hi Hs. destruct Hs as [tk rule met value name nodeID vmID w Hid Hnew Hdim|listed reads w Hl|op w].
  - by apply inv_handle.
  - by apply inv_escalations.
  - by apply inv_operate.
Qed.

Lemma inv_reachable w : rtc (step unmarshal_chain per_node) start w → inv w.
Proof.
  intros Hr. cut (inv start).
  { intros Hi. induction Hr; eauto using inv_step. }
  split; simpl; [split|..]; simpl; try by intros ? ?%not_elem_of_nil.
  - apply NoDup_nil_2.
  - constructor.
  - by intros ? ? ?%not_elem_of_nil.
  - done.
  - intros pre c post id Heq. by destruct pre.
Qed.
End invariant.

(** ** What any turn does to the table *)

Section any_turn.
Context (unmarshal_chain : string → list escalationStep).
Implicit Types rows : list Alert.

Lemma keeps_trans a b c : keeps a b → keeps b c → keeps a c.
Proof. unfold keeps. intros (? & ? & ? & ? & ? & ? & ?) (? & ? & ? & ? & ? & ? & ?). split_and!; try congruence; auto. Qed.

(** The rows are the same alerts, each inactive if it was. *)
Definition updates rows rows' : Prop := Forall2 keeps rows rows'.

Lemma updates_refl rows : updates rows rows.
Proof. apply Forall_Forall2_diag, Forall_forall. intros a _. apply keeps_refl. Qed.

Lemma updates_trans rows1 rows2 rows3 : updates rows1 rows2 → updates rows2 rows3 → updates rows1 rows3.
Proof.
  intros H1. revert rows3. induction H1 as [|a b rows1 rows2 Hk _ IH]; intros rows3 H2;
    inversion H2 as [|? c ? rows3' Hk' Hr]; subst; constructor; [by eapply keeps_trans|by apply IH].
Qed.

Lemma updates_map f rows : (∀ a, keeps a (f a)) → updates rows (f <$> rows).
Proof. intros Hf. apply Forall2_fmap_r, Forall_Forall2_diag, Forall_forall. intros a _. apply Hf. Qed.

Lemma updates_where id states state g1 g2 g3 rows :
  Forall (λ s, alertActive s = true) states → valid_state state →
  updates rows (update_where id states (λ a, with_state state (g1 a) (g2 a) (g3 a) a) rows).
Proof. intros Hs Hv. rewrite update_where_moves. apply updates_map. intros a. by apply moves_keeps. Qed.

Ltac table_update := apply updates_where; [repeat (apply Forall_cons; split; [done|]); apply Forall_nil; done|unfold valid_state; set_solver].

Lemma operates_updates ops rows : updates rows (foldl operate rows ops).
Proof.
  revert rows. induction ops as [|op ops IH]; intros rows; simpl; [apply updates_refl|].
  eapply updates_trans; [|apply IH]. destruct op; simpl; table_update.
Qed.

Lemma fire_updates tk what rule id value name w :
  updates (w_alerts w) (w_alerts (fire tk what rule id value name w).1).
Proof. unfold fire, bind, exec. destruct (err_fire tk); simpl; [apply updates_refl|table_update]. Qed.

(** A result updates rows, and may insert one where the alert that the lookup answered is not active. *)
Definition inserts (tk : Tick) (rule : AlertRule) (nodeID : option uuid) rows rows' : Prop :=
  ∃ rows1 a, rows' = rows1 ++ [a] ∧ updates rows rows1 ∧ al_ID a = t_new_id tk ∧ al_CreatedAt a = t_db_insert tk ∧
    al_RuleID a = ar_ID rule ∧ al_NodeID a = nodeID ∧ 0 ≤ al_EscalationLevel a ∧
    ∀ l, GetLatestAlertForRule (ar_ID rule) nodeID rows = Some l → alertActive (al_State l) = false.

Lemma insert_inserts tk rule value name nodeID vmID rows w :
  updates rows (w_alerts w) →
  (∀ l, GetLatestAlertForRule (ar_ID rule) nodeID rows = Some l → alertActive (al_State l) = false) →
  updates rows (w_alerts (insert_pending unmarshal_chain tk rule value name nodeID vmID w).1) ∨
  inserts tk rule nodeID rows (w_alerts (insert_pending unmarshal_chain tk rule value name nodeID vmID w).1).
Proof.
  intros Hu Hl. unfold insert_pending, bind, exec. destruct (err_insert tk); simpl; [by left|right].
  set (a := new_alert unmarshal_chain tk rule value name nodeID vmID).
  set (w1 := {| w_alerts := w_alerts w ++ [a]; w_log := w_log w |}).
  assert (∀ rows', updates (w_alerts w ++ [a]) rows' → inserts tk rule nodeID rows rows') as Hins.
  { intros rows' (r1 & r2 & H1 & H2 & ->)%Forall2_app_inv_l.
    apply Forall2_cons_inv_l in H2 as (b & r3 & (Hb1 & Hb2 & Hb3 & Hb4 & _ & _ & Hb5) & ->%Forall2_nil_inv_l & ->).
    exists r1, b. split_and!; [done|by eapply updates_trans|by rewrite Hb1|by rewrite Hb4|by rewrite Hb2|by rewrite Hb3|by apply Hb5|done]. }
  apply Hins. destruct (pendingDuration rule =? 0); [|apply updates_refl].
  apply (fire_updates tk "immediate fire" rule (t_new_id tk) value name w1).
Qed.

Lemma handle_table tk rule met value name nodeID vmID w :
  let rows' := w_alerts (handleRuleResult unmarshal_chain tk rule met value name nodeID vmID w).1 in
  updates (w_alerts w) rows' ∨ inserts tk rule nodeID (w_alerts w) rows'.
Proof.
  simpl. unfold handleRuleResult. pose proof (operates_updates (t_meanwhile tk) (w_alerts w)) as Hop.
  set (w1 := {| w_alerts := foldl operate (w_alerts w) (t_meanwhile tk); w_log := w_log w |}).
  destruct (err_lookup tk); [by left|].
  destruct (GetLatestAlertForRule (ar_ID rule) nodeID (w_alerts w)) as [a|] eqn:Hl.
  - destruct (alertActive (al_State a)) eqn:Ha.
    + left. destruct met.
      * destruct (_ && _); [|done]. eapply updates_trans; [exact Hop|apply (fire_updates tk _ rule _ value name w1)].
      * unfold bind, exec. destruct (err_resolve tk); simpl; [done|].
        eapply updates_trans; [exact Hop|]. destruct (resolveNotifies (al_State a)); simpl; table_update.
    + destruct met; [|by left]. destruct (in_cooldown tk rule a); [by left|].
      apply insert_inserts; [done|]. intros l. rewrite Hl. by intros [= <-].
  - destruct met; [|by left]. apply insert_inserts; [done|]. by rewrite Hl.
Qed.

Lemma escalate_updates reads w alert :
  0 ≤ al_EscalationLevel alert → updates (w_alerts w) (w_alerts (escalate_one unmarshal_chain reads w alert)).
Proof.
  intros Hlev. unfold escalate_one. pose proof (operates_updates (er_meanwhile (reads (al_ID alert))) (w_alerts w)) as Hop.
  destruct (er_rule _) as [rule|]; [|done]. destruct (negb _); [done|].
  destruct (escalation_due unmarshal_chain rule alert _) as [[lvl stp]|] eqn:Hdue; [|done].
  destruct (er_update _); [done|]. simpl. eapply updates_trans; [exact Hop|]. apply updates_map. intros a.
  destruct (_ =? _); [|apply keeps_refl]. unfold keeps. simpl. split_and!; auto. intros _. apply Int32_nonneg.
  unfold escalation_due in Hdue. repeat case_match; simplify_eq. lia.
Qed.

(** ** What holds of the table in any history *)

Record rows_ok rows (nodal : gset uuid) : Prop := {
  any_ids : NoDup (al_ID <$> rows);
  any_order : StronglySorted (λ a b, al_CreatedAt a < al_CreatedAt b) rows;
  any_levels : ∀ a, a ∈ rows → 0 ≤ al_EscalationLevel a;
  any_nodes : ∀ a, a ∈ rows → is_Some (al_NodeID a) → al_RuleID a ∈ nodal;
  any_once : ∀ a b, a ∈ rows → b ∈ rows → al_RuleID a = al_RuleID b → al_NodeID a = al_NodeID b →
    al_CreatedAt a < al_CreatedAt b → alertActive (al_State a) = false ∨ (al_NodeID a = None ∧ al_RuleID a ∈ nodal) }.

Lemma sorted_created rows rows' :
  al_CreatedAt <$> rows' = al_CreatedAt <$> rows →
  StronglySorted (λ a b, al_CreatedAt a < al_CreatedAt b) rows → StronglySorted (λ a b, al_CreatedAt a < al_CreatedAt b) rows'.
Proof.
  intros He Hs. revert rows' He. induction Hs as [|a rows Hs IH Ha]; intros [|b rows'] He; try done; [constructor|].
  injection He as Hb He. constructor; [by apply IH|]. apply Forall_forall. intros c Hc. rewrite Forall_forall in Ha.
  assert (al_CreatedAt c ∈ al_CreatedAt <$> rows') as Hin by by apply list_elem_of_fmap_2.
  change (al_CreatedAt <$> rows' = al_CreatedAt <$> rows) in He. rewrite He in Hin.
  apply list_elem_of_fmap in Hin as (d & Hd & Hin). rewrite Hb, Hd. by apply Ha.
Qed.

Lemma updates_from rows rows' b : updates rows rows' → b ∈ rows' → ∃ a, a ∈ rows ∧ keeps a b.
Proof. intros Hu Hb. apply list_elem_of_lookup in Hb as [i Hi]. destruct (Forall2_lookup_r _ _ _ _ _ Hu Hi) as (a & Ha & Hk).
  exists a. split; [by eapply list_elem_of_lookup_2|done]. Qed.

Lemma updates_fmap {B} (g : Alert → B) rows rows' :
  (∀ a b, keeps a b → g b = g a) → updates rows rows' → g <$> rows' = g <$> rows.
Proof. intros Hg. induction 1 as [|a b rows rows' Hk _ IH]; [done|]. csimpl. rewrite IH. f_equal. by apply Hg. Qed.

Lemma rows_ok_updates rows rows' nodal : updates rows rows' → rows_ok rows nodal → rows_ok rows' nodal.
Proof.
  intros Hu [Hids Hord Hlev Hno Honce]. split.
  - rewrite (updates_fmap al_ID rows rows'); [done|by intros a b (-> & _)|done].
  - eapply sorted_created; [|exact Hord]. apply updates_fmap; [by intros a b (_ & _ & _ & -> & _)|done].
  - intros b (a & Ha & (_ & _ & _ & _ & _ & _ & Hl))%(updates_from rows); [|done]. by apply Hl, Hlev.
  - intros b (a & Ha & (_ & -> & -> & _))%(updates_from rows); [|done]. by apply Hno.
  - intros b1 b2 (a1 & Ha1 & (_ & -> & -> & -> & Hact & _))%(updates_from rows); [|done].
    intros (a2 & Ha2 & (_ & -> & -> & -> & _))%(updates_from rows) Hr Hn Hlt; [|done].
    destruct (Honce a1 a2 Ha1 Ha2 Hr Hn Hlt) as [?|?]; [left; auto|by right].
Qed.

(** Where the lookup answers an alert that is not active, or none, no alert of the stream is active, or its rule was on nodes. *)
Lemma lookup_inactive rows nodal ruleID nodeID b :
  rows_ok rows nodal → (∀ l, GetLatestAlertForRule ruleID nodeID rows = Some l → alertActive (al_State l) = false) →
  b ∈ rows → in_stream ruleID nodeID b →
  alertActive (al_State b) = false ∨ (nodeID = None ∧ ruleID ∈ nodal).
Proof.
  intros Hok Hl Hb [<- <-]. unfold GetLatestAlertForRule in Hl.
  pose proof (latest_of_spec (List.filter (same_stream (al_RuleID b) (al_NodeID b)) rows)) as Hlat.
  assert (same_stream (al_RuleID b) (al_NodeID b) b = true) as Hss.
  { unfold same_stream. rewrite Z.eqb_refl. destruct (al_NodeID b); [|done]. by apply bool_decide_eq_true_2. }
  destruct (latest_of _) as [l|].
  2: { exfalso. apply (not_elem_of_nil b). rewrite <-Hlat. by apply elem_of_bfilter. }
  destruct Hlat as [[Hin Hs]%elem_of_bfilter Hmax]. specialize (Hl l eq_refl).
  specialize (Hmax b (proj2 (elem_of_bfilter _ _ _) (conj Hb Hss))).
  unfold same_stream in Hs. apply andb_true_iff in Hs as [Hr%Z.eqb_eq Hs].
  destruct (decide (al_RuleID b ∈ nodal ∧ al_NodeID b = None)) as [[? ?]|Hne]; [by right|left].
  assert (al_NodeID l = al_NodeID b) as Hn.
  { destruct (al_NodeID b) as [n|] eqn:Hnb; [by apply bool_decide_eq_true in Hs|].
    destruct (al_NodeID l) eqn:Hnl; [|done]. destruct Hne. split; [|done].
    rewrite <-Hr. apply (any_nodes _ _ Hok l Hin). by rewrite Hnl. }
  destruct (decide (al_CreatedAt b = al_CreatedAt l)) as [He|He].
  - assert (b = l) as ->; [|done]. clear -Hok Hb Hin He. destruct Hok as [_ Hord _ _ _].
    induction Hord as [|c rows Hs IH Hc]; [by apply not_elem_of_nil in Hb|]. rewrite Forall_forall in Hc.
    apply elem_of_cons in Hb as [->|Hb], Hin as [->|Hin]; [done|apply Hc in Hin; lia|apply Hc in Hb; lia|auto].
  - destruct (any_once _ _ Hok b l Hb Hin ltac:(done) ltac:(done) ltac:(lia)) as [?|[? ?]]; [done|]. by destruct Hne.
Qed.

Lemma rows_ok_inserts tk rule nodeID rows rows' nodal :
  inserts tk rule nodeID rows rows' → (t_new_id tk ∉ al_ID <$> rows) →
  (∀ a, a ∈ rows → al_CreatedAt a < t_db_insert tk) → rows_ok rows nodal →
  rows_ok rows' (match nodeID with Some _ => {[ar_ID rule]} ∪ nodal | None => nodal end).
Proof.
  intros (rows1 & a & -> & Hu & Hid & Hcr & Hr & Hn & Hlev & Hl) Hfresh Hnew Hok.
  assert (∀ b, b ∈ rows1 → in_stream (ar_ID rule) nodeID b →
    alertActive (al_State b) = false ∨ (nodeID = None ∧ ar_ID rule ∈ nodal)) as Hno.
  { intros b (c & Hc & (_ & Hkr & Hkn & _ & Hact & _))%(updates_from rows) [Hbr Hbn]; [|done].
    destruct (lookup_inactive rows nodal (ar_ID rule) nodeID c Hok Hl Hc) as [?|?]; [split; congruence|left; auto|by right]. }
  assert (∀ b, b ∈ rows1 → al_CreatedAt b < al_CreatedAt a) as Hlt.
  { intros b (c & Hc & (_ & _ & _ & -> & _))%(updates_from rows); [|done]. rewrite Hcr. by apply Hnew. }
  rewrite <-(updates_fmap al_ID rows rows1) in Hfresh; [|by intros ?? (-> & _)|done].
  destruct (rows_ok_updates _ _ _ Hu Hok) as [Hids Hord Hl1 Hnd Honce]. set (nodal' := match nodeID with Some _ => _ | None => _ end).
  assert (nodal ⊆ nodal') as Hsub by (unfold nodal'; destruct nodeID; set_solver). split.
  - rewrite fmap_app. apply NoDup_app. split_and!; [done| |apply NoDup_singleton].
    intros i Hi ->%list_elem_of_singleton. by rewrite Hid in Hi.
  - clear -Hord Hlt. induction Hord as [|b l Hb IH Hf]; simpl; [by repeat constructor|].
    constructor; [apply IH; intros; apply Hlt; by right|]. apply Forall_app. split; [done|].
    constructor; [|done]. apply Hlt. by left.
  - intros b [Hb| ->%list_elem_of_singleton]%elem_of_app; auto.
  - intros b [Hb| ->%list_elem_of_singleton]%elem_of_app Hs; [by apply Hsub, Hnd|].
    rewrite Hn in Hs. rewrite Hr. unfold nodal'. destruct nodeID; [set_solver|by destruct Hs].
  - intros b c [Hb| ->%list_elem_of_singleton]%elem_of_app [Hc| ->%list_elem_of_singleton]%elem_of_app Hbr Hbn Hbc.
    + destruct (Honce b c Hb Hc Hbr Hbn Hbc) as [?|[? ?]]; [by left|right; auto].
    + destruct (Hno b Hb) as [?|[? ?]]; [split; congruence|by left|right]. split; [congruence|]. apply Hsub. congruence.
    + apply Hlt in Hc. lia.
    + lia.
Qed.

Lemma rows_ok_mono rows nodal nodal' : nodal ⊆ nodal' → rows_ok rows nodal → rows_ok rows nodal'.
Proof.
  intros Hsub [Hids Hord Hl Hn Honce]. split; [done..|by intros; apply Hsub, Hn|].
  intros a b Ha Hb Hr Hnd Hlt. destruct (Honce a b Ha Hb Hr Hnd Hlt) as [?|[? ?]]; [by left|right; auto].
Qed.

Lemma rows_ok_filter keep rows nodal : rows_ok rows nodal → rows_ok (List.filter keep rows) nodal.
Proof.
  intros [Hids Hord Hl Hn Honce]. split.
  - clear -Hids. induction rows as [|a rows IH]; [done|]. csimpl in Hids. apply NoDup_cons in Hids as [Ha Hids]. simpl.
    destruct (keep a); [|by apply IH]. csimpl. apply NoDup_cons. split; [|by apply IH].
    intros (b & Hab & [Hb _]%elem_of_bfilter)%list_elem_of_fmap. apply Ha. rewrite Hab. by apply list_elem_of_fmap_2.
  - clear -Hord. induction Hord as [|a rows Hs IH Ha]; simpl; [constructor|]. destruct (keep a); [|done].
    constructor; [done|]. apply Forall_forall. intros b [Hb _]%elem_of_bfilter. rewrite Forall_forall in Ha. by apply Ha.
  - intros a [Ha _]%elem_of_bfilter. by apply Hl.
  - intros a [Ha _]%elem_of_bfilter. by apply Hn.
  - intros a b [Ha _]%elem_of_bfilter [Hb _]%elem_of_bfilter. by apply Honce.
Qed.

Lemma forget_node_same nodeID a :
  al_ID (forget_node nodeID a) = al_ID a ∧ al_RuleID (forget_node nodeID a) = al_RuleID a ∧
  al_State (forget_node nodeID a) = al_State a ∧ al_CreatedAt (forget_node nodeID a) = al_CreatedAt a ∧
  al_EscalationLevel (forget_node nodeID a) = al_EscalationLevel a ∧
  (al_NodeID (forget_node nodeID a) = al_NodeID a ∨
   al_NodeID (forget_node nodeID a) = None ∧ is_Some (al_NodeID a)).
Proof.
  unfold forget_node. case_bool_decide as Hn; simpl; split_and!; try done; [right|by left]. split; [done|by eexists].
Qed.

Lemma rows_ok_forget nodeID rows nodal : rows_ok rows nodal → rows_ok (forget_node nodeID <$> rows) nodal.
Proof.
  intros [Hids Hord Hl Hn Honce]. split.
  - rewrite <-list_fmap_compose. rewrite (list_fmap_ext _ al_ID); [done|]. intros i a _. apply forget_node_same.
  - eapply sorted_created; [|exact Hord]. rewrite <-list_fmap_compose. apply list_fmap_ext. intros i a _. apply forget_node_same.
  - intros b (a & -> & Ha)%list_elem_of_fmap. destruct (forget_node_same nodeID a) as (_ & _ & _ & _ & -> & _). by apply Hl.
  - intros b (a & -> & Ha)%list_elem_of_fmap. destruct (forget_node_same nodeID a) as (_ & -> & _ & _ & _ & [->|[-> _]]); [by apply Hn|].
    by intros [? ?].
  - intros b1 b2 (a1 & -> & H1)%list_elem_of_fmap (a2 & -> & H2)%list_elem_of_fmap.
    destruct (forget_node_same nodeID a1) as (_ & -> & -> & -> & _ & [->|[-> Hs1]]);
      destruct (forget_node_same nodeID a2) as (_ & -> & _ & -> & _ & [->|[-> Hs2]]); intros Hr Hnd Hlt.
    + by apply (Honce a1 a2).
    + right. split; [done|]. rewrite Hr. by apply Hn.
    + right. split; [done|]. by apply Hn.
    + right. split; [done|]. by apply Hn.
Qed.

Lemma rows_ok_turn c c' : turn unmarshal_chain c c' → rows_ok (w_alerts c.1) c.2 → rows_ok (w_alerts c'.1) c'.2.
Proof.
  intros [tk rule met value name nodeID vmID w nodal Hid Hnew|listed reads w nodal Hl|op w nodal|nodeID w nodal|keep w nodal] Hok;
    simpl in *.
  - destruct (handle_table tk rule met value name nodeID vmID w) as [Hu|Hi]; [|by eapply rows_ok_inserts].
    eapply rows_ok_mono; [|by eapply rows_ok_updates]. destruct nodeID; set_solver.
  - unfold checkEscalations. destruct listed as [l|]; [|done].
    assert (∀ a, a ∈ l → 0 ≤ al_EscalationLevel a) as Hlev.
    { intros a Ha. destruct (Hl l a eq_refl Ha). by apply (any_levels _ _ Hok). }
    clear Hl. revert w Hok. induction l as [|a l IH]; intros w Hok; simpl; [done|].
    apply IH; [intros; apply Hlev; by right|]. eapply rows_ok_updates; [apply escalate_updates, Hlev; by left|done].
  - eapply rows_ok_updates; [|done]. apply (operates_updates [op]).
  - by apply rows_ok_forget.
  - by apply rows_ok_filter.
Qed.

Lemma rows_ok_reachable w nodal : rtc (turn unmarshal_chain) (start, ∅) (w, nodal) → rows_ok (w_alerts w) nodal.
Proof.
  intros Hr. assert (rows_ok (w_alerts (start, ∅ : gset uuid).1) (start, ∅ : gset uuid).2) as Hok.
  { split; simpl; [apply NoDup_nil_2|apply SSorted_nil|by intros ? ?%not_elem_of_nil|by intros ? ?%not_elem_of_nil|by intros ? ? ?%not_elem_of_nil]. }
  change (rows_ok (w_alerts (w, nodal).1) (w, nodal).2). induction Hr; [done|]. eauto using rows_ok_turn.
Qed.
End any_turn.

(** ** The abstract machine *)

(** What a rule's alert on one resource is doing. *)
Inductive phase :=
| Idle
| Cooling (since : Z)
| Pending (since : Z)
| Firing
| Acknowledged.

Definition phase_of (a : Alert) : phase :=
  if bool_decide (al_State a = "pending") then Pending (al_PendingAt a)
  else if bool_decide (al_State a = "firing") then Firing
  else if bool_decide (al_State a = "acknowledged") then Acknowledged
  else Cooling (default (al_CreatedAt a) (al_ResolvedAt a)).

Definition stream_phase (rows : list Alert) (ruleID : uuid) (nodeID : option uuid) : phase :=
  match GetLatestAlertForRule ruleID nodeID rows with
  | None => Idle
  | Some a => phase_of a
  end.

(** A result moves the phase on and notifies: a condition raises an alert
    outside its cooldown, fires once it has held long enough, and clearing it
    resolves the alert, with a notification only if it had fired. *)
Definition raise (rule : AlertRule) (tk : Tick) : phase * list string :=
  if pendingDuration rule =? 0 then (Firing, ["firing"%string]) else (Pending (t_db_insert tk), []).

Definition phase_step (rule : AlertRule) (tk : Tick) (met : bool) (p : phase) : phase * list string :=
  match p, met with
  | Idle, true => raise rule tk
  | Cooling since, true =>
      if Sub (t_now tk) since <? int64 (ar_CooldownSeconds rule * second) then (p, []) else raise rule tk
  | Pending since, true =>
      if pendingDuration rule <=? Sub (t_now tk) since then (Firing, ["firing"%string]) else (p, [])
  | (Firing | Acknowledged), true => (p, [])
  | Pending _, false => (Cooling (t_db_update tk), [])
  | (Firing | Acknowledged), false => (Cooling (t_db_update tk), ["resolved"%string])
  | (Idle | Cooling _), false => (p, [])
  end.

(** The states of the notifications a list of calls dispatches. *)
Definition notices (l : list call) : list string :=
  omap (λ c, match c with DispatchForRule _ _ _ _ s _ => Some s | _ => None end) l.

Lemma latest_of_map (f : Alert → Alert) l :
  (∀ a, al_CreatedAt (f a) = al_CreatedAt a) → latest_of (f <$> l) = f <$> latest_of l.
Proof.
  intros Hf. unfold latest_of. induction l as [|a l IH] using rev_ind; [done|].
  rewrite fmap_app, !foldl_app. simpl. rewrite IH.
  destruct (foldl newer None l) as [b|]; simpl; [|done].
  rewrite !Hf. by destruct (_ <? _).
Qed.

Lemma filter_map {A} (p : A → bool) (f : A → A) l :
  (∀ a, p (f a) = p a) → List.filter p (f <$> l) = f <$> List.filter p l.
Proof. intros Hp. induction l as [|a l IH]; [done|]. csimpl. rewrite Hp, IH. by destruct (p a). Qed.

Lemma GetLatest_map (f : Alert → Alert) ruleID nodeID rows :
  (∀ a, keeps a (f a)) →
  GetLatestAlertForRule ruleID nodeID (f <$> rows) = f <$> GetLatestAlertForRule ruleID nodeID rows.
Proof.
  intros Hk. unfold GetLatestAlertForRule.
  rewrite filter_map, latest_of_map; [done| |]; intros a; destruct (Hk a) as (_ & Hr & Hn & Hc & _).
  - done.
  - unfold same_stream. by rewrite Hr, Hn.
Qed.

Lemma GetLatest_app ruleID nodeID rows a :
  (∀ b, b ∈ rows → al_CreatedAt b < al_CreatedAt a) →
  GetLatestAlertForRule ruleID nodeID (rows ++ [a]) =
  if same_stream ruleID nodeID a then Some a else GetLatestAlertForRule ruleID nodeID rows.
Proof.
  intros Hnew. unfold GetLatestAlertForRule. rewrite List.filter_app. simpl.
  destruct (same_stream ruleID nodeID a); [|by rewrite app_nil_r].
  pose proof (latest_of_spec (List.filter (same_stream ruleID nodeID) rows)) as Hl.
  unfold latest_of in *. rewrite foldl_app. simpl. destruct (foldl newer None _) as [b|]; simpl; [|done].
  destruct Hl as [[Hb _]%elem_of_bfilter _]. apply Hnew in Hb.
  by rewrite (proj2 (Z.ltb_ge _ _)) by lia.
Qed.

Section refinement.
Context (unmarshal_chain : string → list escalationStep) (per_node : uuid → bool).

Definition dim_ok (ruleID : uuid) (nodeID : option uuid) : Prop :=
  is_Some nodeID ↔ per_node ruleID = true.

(** A query on one alert, the latest of its stream, moves that stream only. *)
Lemma stream_phase_moves rows ruleID nodeID a states state g1 g2 g3 :
  table_ok per_node rows → dim_ok ruleID nodeID →
  GetLatestAlertForRule ruleID nodeID rows = Some a →
  Forall (λ s, alertActive s = true) states → valid_state state → al_State a ∈ states →
  let rows' := update_where (al_ID a) states (λ b, with_state state (g1 b) (g2 b) (g3 b) b) rows in
  stream_phase rows' ruleID nodeID = phase_of (with_state state (g1 a) (g2 a) (g3 a) a) ∧
  ∀ r n, dim_ok r n → (r, n) ≠ (ruleID, nodeID) → stream_phase rows' r n = stream_phase rows r n.
Proof.
  intros Hok Hdim Hlat Hs Hv Hin. cbv zeta. rewrite update_where_moves. unfold stream_phase.
  assert (∀ b, keeps b (moves (al_ID a) states (λ b, with_state state (g1 b) (g2 b) (g3 b) b) b)) as Hk
    by by intros b; apply moves_keeps.
  pose proof (GetLatestAlertForRule_spec per_node rows ruleID nodeID Hok Hdim) as Ha.
  rewrite Hlat in Ha. destruct Ha as (Ha & [Hr Hn] & _). split.
  - rewrite GetLatest_map by done. rewrite Hlat. simpl. by rewrite moves_hit.
  - intros r n Hd Hne. rewrite GetLatest_map by done.
    pose proof (GetLatestAlertForRule_spec per_node rows r n Hok Hd) as Hb.
    destruct (GetLatestAlertForRule r n rows) as [b|]; simpl; [|done].
    destruct Hb as (Hb & [Hbr Hbn] & _). unfold moves.
    rewrite (proj2 (Z.eqb_neq _ _)); [done|]. intros He. apply Hne.
    assert (a = b) as <- by (by eapply id_inj). congruence.
Qed.

(** A new alert is its stream's, and no other's. *)
Lemma stream_phase_app rows ruleID nodeID a :
  in_stream ruleID nodeID a → (∀ b, b ∈ rows → al_CreatedAt b < al_CreatedAt a) →
  dim_ok ruleID nodeID →
  stream_phase (rows ++ [a]) ruleID nodeID = phase_of a ∧
  ∀ r n, dim_ok r n → (r, n) ≠ (ruleID, nodeID) → stream_phase (rows ++ [a]) r n = stream_phase rows r n.
Proof.
  intros [Hr Hn] Hnew Hdim. unfold stream_phase. split.
  - rewrite GetLatest_app by done. unfold same_stream. rewrite Hr, Z.eqb_refl, Hn. simpl.
    destruct nodeID; [by rewrite bool_decide_true|done].
  - intros r n Hd Hne. rewrite GetLatest_app by done.
    destruct (same_stream r n a) eqn:Hs; [|done]. exfalso. apply Hne.
    unfold same_stream in Hs. apply andb_true_iff in Hs as [He%Z.eqb_eq Hs].
    assert (r = ruleID) as -> by congruence. f_equal.
    destruct n as [n|]; [apply bool_decide_eq_true in Hs; congruence|].
    unfold dim_ok in *. destruct nodeID as [m|]; [|done].
    destruct (proj2 Hd (proj1 Hdim ltac:(eauto))). done.
Qed.

(** A run in which every query answers and no operator interferes. *)
Definition calm (tk : Tick) : Prop :=
  err_lookup tk = None ∧ err_fire tk = None ∧ err_insert tk = None ∧ err_resolve tk = None ∧
  t_meanwhile tk = [].

(** A handler that succeeded, moving one stream to a phase. *)
Definition moves_stream (ruleID : uuid) (nodeID : option uuid) (out : phase * list string) (w : World)
    (res : World * result go_error unit) : Prop :=
  res.2 = Ok tt ∧ (∃ calls, w_log res.1 = w_log w ++ calls ∧
    (stream_phase (w_alerts res.1) ruleID nodeID, notices calls) = out) ∧
  ∀ r n, dim_ok r n → (r, n) ≠ (ruleID, nodeID) →
    stream_phase (w_alerts res.1) r n = stream_phase (w_alerts w) r n.

Lemma moves_stream_ret ruleID nodeID w :
  moves_stream ruleID nodeID (stream_phase (w_alerts w) ruleID nodeID, []) w (ret tt w).
Proof. split_and!; [done| |done]. exists []. by rewrite app_nil_r. Qed.

Lemma moves_stream_fire tk what rule nodeID a value name w :
  calm tk → table_ok per_node (w_alerts w) → dim_ok (ar_ID rule) nodeID →
  GetLatestAlertForRule (ar_ID rule) nodeID (w_alerts w) = Some a → al_State a = "pending" →
  moves_stream (ar_ID rule) nodeID (Firing, ["firing"%string]) w (fire tk what rule (al_ID a) value name w).
Proof.
  intros (_ & Hf & _) Hok Hdim Hlat Hp. unfold fire, bind, exec. rewrite Hf. simpl.
  destruct (stream_phase_moves (w_alerts w) (ar_ID rule) nodeID a ["pending"%string] "firing"
    (λ _, Some (t_db_update tk)) al_AcknowledgedAt al_ResolvedAt) as [Hph Hoth];
    [done|done|done|by repeat constructor|unfold valid_state; set_solver|rewrite Hp; set_solver|].
  split_and!; [done| |done]. eexists. simpl. rewrite <-(assoc_L (++)). split; [done|].
  unfold TransitionAlertToFiring. by rewrite Hph.
Qed.

Lemma moves_stream_insert tk rule value name nodeID vmID w :
  calm tk → table_ok per_node (w_alerts w) → dim_ok (ar_ID rule) nodeID →
  t_new_id tk ∉ al_ID <$> w_alerts w → (∀ a, a ∈ w_alerts w → al_CreatedAt a < t_db_insert tk) →
  (∀ b, b ∈ w_alerts w → in_stream (ar_ID rule) nodeID b → alertActive (al_State b) = false) →
  moves_stream (ar_ID rule) nodeID (raise rule tk) w
    (insert_pending unmarshal_chain tk rule value name nodeID vmID w).
Proof.
  intros Hc Hok Hdim Hid Hnew Hno. pose proof Hc as (_ & _ & Hin & _).
  unfold insert_pending, bind, exec. rewrite Hin. cbv beta iota zeta delta [update].
  set (a := new_alert unmarshal_chain tk rule value name nodeID vmID).
  destruct (stream_phase_app (w_alerts w) (ar_ID rule) nodeID a) as [Hph Hoth]; [done|done|done|].
  unfold raise. destruct (pendingDuration rule =? 0).
  - set (w1 := {| w_alerts := w_alerts w ++ [a]; w_log := w_log w |}).
    destruct (moves_stream_fire tk "immediate fire" rule nodeID a value name w1) as (H1 & H2 & H3);
      [done| |done| |done|].
    + apply table_ok_app; simpl; [done|unfold valid_state; set_solver|done..|].
      by intros b Hb Hr Hn; apply Hno.
    + unfold w1. simpl. rewrite GetLatest_app by done. unfold same_stream. simpl. rewrite Z.eqb_refl.
      destruct nodeID; [by rewrite bool_decide_true|done].
    + split_and!; [done|done|]. intros r n Hd Hne. rewrite H3 by done. by apply Hoth.
  - split_and!; [done| |done]. exists []. simpl. rewrite app_nil_r. by rewrite Hph.
Qed.

Lemma moves_stream_resolve tk rule nodeID a value name w :
  calm tk → table_ok per_node (w_alerts w) → dim_ok (ar_ID rule) nodeID →
  GetLatestAlertForRule (ar_ID rule) nodeID (w_alerts w) = Some a → alertActive (al_State a) = true →
  moves_stream (ar_ID rule) nodeID
    (Cooling (t_db_update tk), if resolveNotifies (al_State a) then ["resolved"%string] else []) w
    ((let! _ := exec (err_resolve tk) "auto-resolve" (AutoResolveAlert (al_ID a) (t_db_update tk)) in
      let! _ := log (Publish rule (al_ID a) "resolved") in
      if resolveNotifies (al_State a)
      then log (DispatchForRule rule (al_ID a) value name "resolved" (al_EscalationLevel a))
      else ret tt) w).
Proof.
  intros (_ & _ & _ & Hr & _) Hok Hdim Hlat Hact. unfold bind, exec. rewrite Hr. simpl.
  destruct (stream_phase_moves (w_alerts w) (ar_ID rule) nodeID a
    ["pending"; "firing"; "acknowledged"]%string "resolved"
    al_FiredAt al_AcknowledgedAt (λ _, Some (t_db_update tk))) as [Hph Hoth];
    [done|done|done|by repeat constructor|unfold valid_state; set_solver| |].
  { unfold alertActive in Hact. apply bool_decide_eq_true in Hact.
    destruct Hact as [->|[->| ->]]; set_solver. }
  unfold AutoResolveAlert. destruct (resolveNotifies (al_State a)); split_and!; try done;
    eexists; simpl; rewrite <-?(assoc_L (++)); (split; [done|]); by rewrite Hph.
Qed.
End refinement.

(** ** Properties *)

(** C36: a rule result moves the alert as the abstract machine says. In any reachable state, for a
    run in which the queries answer, [handleRuleResult] succeeds; the phase of the rule's alert on
    that resource and the notifications sent are those of [phase_step] (raise outside the cooldown,
    at once for a windowed metric or a zero duration; fire once pending long enough; do nothing
    while firing or acknowledged; resolve when the condition clears, notifying only of an alert that
    had fired); and no other rule's or node's alert changes phase. *)
Theorem handleRuleResult_refines unmarshal_chain per_node tk rule met value name nodeID vmID w :
  rtc (step unmarshal_chain per_node) start w → calm tk →
  t_new_id tk ∉ al_ID <$> w_alerts w → (∀ a, a ∈ w_alerts w → al_CreatedAt a < t_db_insert tk) →
  dim_ok per_node (ar_ID rule) nodeID →
  moves_stream per_node (ar_ID rule) nodeID
    (phase_step rule tk met (stream_phase (w_alerts w) (ar_ID rule) nodeID)) w
    (handleRuleResult unmarshal_chain tk rule met value name nodeID vmID w).
Proof.
  intros [Hok _ _ _]%inv_reachable Hc Hid Hnew Hdim. unfold handleRuleResult.
  pose proof (GetLatestAlertForRule_spec per_node _ (ar_ID rule) nodeID Hok Hdim) as Hlat.
  pose proof Hc as (-> & _ & _ & _ & ->). simpl foldl.
  replace {| w_alerts := w_alerts w; w_log := w_log w |} with w by by destruct w.
  pose proof (moves_stream_ret per_node (ar_ID rule) nodeID w) as Hret.
  unfold stream_phase at 1. unfold stream_phase in Hret at 1.
  destruct (GetLatestAlertForRule (ar_ID rule) nodeID (w_alerts w)) as [a|] eqn:Hl.
  - destruct Hlat as (Ha & _ & Hoth).
    pose proof (moves_stream_fire unmarshal_chain per_node tk "transition to firing" rule nodeID a value name w Hc Hok Hdim Hl)
      as Hfire.
    pose proof (moves_stream_resolve unmarshal_chain per_node tk rule nodeID a value name w Hc Hok Hdim Hl) as Hres.
    pose proof (moves_stream_insert unmarshal_chain per_node tk rule value name nodeID vmID w Hc Hok Hdim
      Hid Hnew) as Hins.
    destruct (ok_rows _ _ Hok a Ha) as (Hv & _). unfold valid_state in Hv.
    rewrite !elem_of_cons, elem_of_nil in Hv. unfold phase_of, in_cooldown in *.
    destruct Hv as [Hs|[Hs|[Hs|[Hs|[]]]]]; rewrite Hs in *; simpl in *.
    + destruct met; [|by apply Hres]. destruct (_ <=? _); [by apply Hfire|done].
    + destruct met; [done|by apply Hres].
    + destruct met; [done|by apply Hres].
    + destruct met; [|done]. destruct (_ <? _); [done|]. apply Hins.
      intros b Hb Hsb. destruct (Hoth b Hb Hsb) as [->|]; [by rewrite Hs|done].
  - destruct met; [|done]. apply moves_stream_insert; try done. intros b Hb Hs. by destruct (Hlat b Hb).
Qed.

(** Ticks a minute apart, and a rule on a node's CPU. *)
Definition example_tick (n : Z) : Tick := {|
  err_lookup := None; err_fire := None; err_insert := None; err_resolve := None;
  t_now := n * minute; t_db_insert := n * minute; t_db_update := n * minute; t_new_id := n;
  t_meanwhile := [] |}.
Definition example_alert_rule : AlertRule := example_rule "cpu_usage" ">" f1 60.
Definition example_chain (_ : string) : list escalationStep := [{| es_ChannelID := 9; es_DelayMinutes := 0 |}].
Definition example_handle (n : Z) (met : bool) : World → World := λ w,
  (handleRuleResult example_chain (example_tick n) example_alert_rule met f100 "pve1" (Some 2) None w).1.

(** Raised at minute 1, firing at minute 2, resolved at minute 3. *)
Example example_life :
  let w := example_handle 3 false (example_handle 2 true (example_handle 1 true start)) in
  stream_phase (w_alerts w) 7 (Some 2) = Cooling (3 * minute) ∧
  notices (w_log w) = ["firing"; "resolved"]%string.
Proof. by vm_compute. Qed.

Lemma example_handle_step n met w :
  n ∉ al_ID <$> w_alerts w → (∀ a, a ∈ w_alerts w → al_CreatedAt a < n * minute) →
  step example_chain (λ _, true) w (example_handle n met w).
Proof. intros. unfold example_handle. by apply step_rule. Qed.

Lemma example_fired : rtc (step example_chain (λ _, true)) start (example_handle 2 true (example_handle 1 true start)).
Proof.
  eapply rtc_l; [apply (example_handle_step 1 true); [set_solver|set_solver]|].
  assert (w_alerts (example_handle 1 true start) =
    [new_alert example_chain (example_tick 1) example_alert_rule f100 "pve1" (Some 2) None]) as Hw by done.
  apply rtc_once, example_handle_step; rewrite Hw.
  - intros Hx%list_elem_of_singleton. done.
  - by intros a ->%list_elem_of_singleton.
Qed.

Lemma example_fired_alerts :
  w_alerts (example_handle 2 true (example_handle 1 true start)) =
  [with_state "firing" (Some (2 * minute)) None None
     (new_alert example_chain (example_tick 1) example_alert_rule f100 "pve1" (Some 2) None)].
Proof. done. Qed.

Lemma handleRuleResult_refines_witness :
  let w := example_handle 2 true (example_handle 1 true start) in
  moves_stream (λ _, true) 7 (Some 2) (Cooling (3 * minute), ["resolved"%string]) w
    (handleRuleResult example_chain (example_tick 3) example_alert_rule false f100 "pve1" (Some 2) None w).
Proof.
  apply (handleRuleResult_refines example_chain (λ _, true) (example_tick 3) example_alert_rule false f100
    "pve1" (Some 2) None (example_handle 2 true (example_handle 1 true start))).
  - apply example_fired.
  - done.
  - rewrite example_fired_alerts. intros Hx%list_elem_of_singleton. done.
  - rewrite example_fired_alerts. by intros a ->%list_elem_of_singleton.
  - by split; [|eexists].
Defined.

(** C37: one alert at a time. However the results of one engine, failed queries, escalations, operators' actions (an
    operator's also between the lookup and the write of a result), changes of rules, removals of nodes and removals of
    alerts with their rule are interleaved, alert identifiers are unique, escalation levels are never negative, and a rule
    has at most one active alert (pending, firing or acknowledged) on each node, and at most one without a node if none
    of its results was ever on a node. (A rule that is put on nodes and back, or whose node is removed, can be left with
    two without a node: [two_without_node].) Results are handled one at a time, as the elected leader does: a second
    engine at work at the same time is left out. *)
Theorem one_active_alert unmarshal_chain w nodal :
  rtc (turn unmarshal_chain) (start, ∅) (w, nodal) →
  NoDup (al_ID <$> w_alerts w) ∧
  (∀ a, a ∈ w_alerts w → 0 ≤ al_EscalationLevel a) ∧
  ∀ a b, a ∈ w_alerts w → b ∈ w_alerts w →
    al_State a ∈ ["pending"; "firing"; "acknowledged"]%string →
    al_State b ∈ ["pending"; "firing"; "acknowledged"]%string →
    al_RuleID a = al_RuleID b → al_NodeID a = al_NodeID b →
    (is_Some (al_NodeID a) ∨ al_RuleID a ∉ nodal) → a = b.
Proof.
  intros Hok%rows_ok_reachable. split_and!; [apply Hok|apply (any_levels _ _ Hok)|].
  assert (∀ s, s ∈ ["pending"; "firing"; "acknowledged"]%string → alertActive s = true) as Hact.
  { intros s. rewrite !elem_of_cons, elem_of_nil. by intros [->|[->|[->|[]]]]. }
  assert (∀ a b, a ∈ w_alerts w → b ∈ w_alerts w → alertActive (al_State a) = true → al_RuleID a = al_RuleID b →
    al_NodeID a = al_NodeID b → (is_Some (al_NodeID a) ∨ al_RuleID a ∉ nodal) → ¬ al_CreatedAt a < al_CreatedAt b) as Honce.
  { intros a b Ha Hb Ht Hr Hn Hdim Hlt. destruct (any_once _ _ Hok a b Ha Hb Hr Hn Hlt) as [?|[Hnone ?]]; [congruence|].
    destruct Hdim as [Hs|?]; [|done]. rewrite Hnone in Hs. by destruct Hs. }
  intros a b Ha Hb Hacta%Hact Hactb%Hact Hr Hn Hdim.
  assert (¬ al_CreatedAt a < al_CreatedAt b) by by apply Honce.
  assert (¬ al_CreatedAt b < al_CreatedAt a) by (apply Honce; try done; rewrite <-Hn, <-Hr; done).
  destruct Hok as [_ Hord _ _ _]. clear -Hord Ha Hb H H0. assert (al_CreatedAt a = al_CreatedAt b) as He by lia. clear H H0.
  induction Hord as [|c rows Hs IH Hc]; [by apply not_elem_of_nil in Ha|]. rewrite Forall_forall in Hc.
  apply elem_of_cons in Ha as [->|Ha], Hb as [->|Hb]; [done|apply Hc in Hb; lia|apply Hc in Ha; lia|auto].
Qed.

Lemma example_turns : ∃ nodal, rtc (turn example_chain) (start, ∅) (example_handle 2 true (example_handle 1 true start), nodal).
Proof.
  eexists. eapply rtc_l.
  { apply (turn_rule example_chain (example_tick 1) example_alert_rule true f100 "pve1" (Some 2) None start ∅);
      [by intros ?%not_elem_of_nil|by intros a ?%not_elem_of_nil]. }
  apply rtc_once. apply (turn_rule example_chain (example_tick 2) example_alert_rule true f100 "pve1" (Some 2) None).
  - intros Hx. vm_compute in Hx. apply list_elem_of_singleton in Hx. done.
  - intros a Ha. vm_compute in Ha. apply list_elem_of_singleton in Ha as ->. by vm_compute.
Qed.

Lemma one_active_alert_witness :
  NoDup (al_ID <$> w_alerts (example_handle 2 true (example_handle 1 true start))).
Proof.
  destruct example_turns as [nodal Hn]. apply (one_active_alert example_chain _ nodal Hn).
Defined.

(** A rule without nodes has an active alert; it is put on a node, has one there that is resolved, and is taken off nodes
    again. The lookup then answers the resolved one, and a second active alert without a node is inserted. *)
Definition handle_on (n : Z) (met : bool) (nodeID : option uuid) (w : World) : World :=
  (handleRuleResult example_chain (example_tick n) example_alert_rule met f100 "pve1" nodeID None w).1.

Example two_without_node :
  let w := handle_on 60 true None (handle_on 3 false (Some 2) (handle_on 2 true (Some 2) (handle_on 1 true None start))) in
  (λ a, (al_ID a, al_RuleID a, al_NodeID a, al_State a)) <$> w_alerts w =
    [(1, 7, None, "pending"%string); (2, 7, Some 2, "resolved"%string); (60, 7, None, "pending"%string)].
Proof. by vm_compute. Qed.

(** Nobody hears of an alert that never fired. Over any such history each alert's firing is
    dispatched at most once, never again after it; every other notification about the alert
    (resolved or escalated) comes after it. A pending alert has had none, a firing or acknowledged
    one exactly one. *)
Theorem notification_order unmarshal_chain per_node w :
  rtc (step unmarshal_chain per_node) start w →
  (∀ pre c post id, w_log w = pre ++ c :: post →
     (is_firing id c = true → fired id pre = 0%nat ∧ fired id post = 0%nat) ∧
     (follows_up id c → fired id pre = 1%nat)) ∧
  (∀ a, a ∈ w_alerts w →
     (al_State a = "pending" → fired (al_ID a) (w_log w) = 0%nat) ∧
     (al_State a = "firing" ∨ al_State a = "acknowledged" → fired (al_ID a) (w_log w) = 1%nat)).
Proof.
  intros [Hok Hf Hfr Hl]%inv_reachable. split.
  - intros pre c post id Heq. split; [|by apply (Hl pre c post id)]. intros Hc.
    assert (fired id (w_log w) ≤ 1)%nat as Hle.
    { destruct (decide (id ∈ al_ID <$> w_alerts w)) as [(a & -> & Ha)%list_elem_of_fmap|Hn].
      - by apply Hf.
      - rewrite Hfr; [lia|done]. }
    rewrite Heq, fired_app in Hle. change (c :: post) with ([c] ++ post) in Hle.
    rewrite fired_app in Hle. unfold fired at 2 in Hle. simpl in Hle. rewrite Hc in Hle. simpl in Hle. lia.
  - intros a Ha. destruct (Hf a Ha) as (_ & Hp & Hr). split; [done|].
    intros Hs. apply Hr. unfold resolveNotifies. by apply bool_decide_eq_true.
Qed.

Lemma notification_order_witness :
  fired 1 (w_log (example_handle 2 true (example_handle 1 true start))) = 1%nat.
Proof.
  destruct (notification_order example_chain (λ _, true) _ example_fired) as [_ H].
  apply (H (with_state "firing" (Some (2 * minute)) None None
    (new_alert example_chain (example_tick 1) example_alert_rule f100 "pve1" (Some 2) None))).
  - rewrite example_fired_alerts. left.
  - left. reflexivity.
Defined.

Section escalation.
Context (unmarshal_chain : string → list escalationStep) (reads : uuid → EscalationRead).

(** What the loop decides on one alert. *)
Definition decision (alert : Alert) : option (AlertRule * Z * escalationStep) :=
  match er_rule (reads (al_ID alert)), er_update (reads (al_ID alert)) with
  | Ok rule, None =>
      if ruleStandsBehind rule (al_Metric alert)
      then (λ ls, (rule, ls.1, ls.2)) <$> escalation_due unmarshal_chain rule alert (er_now (reads (al_ID alert)))
      else None
  | _, _ => None
  end.

Definition decision_calls (alert : Alert) : list call :=
  match decision alert with
  | Some (rule, lvl, stp) =>
      [Publish rule (al_ID alert) "escalated";
       DispatchToChannel rule (al_ID alert) (es_ChannelID stp) (al_CurrentValue alert)
         (al_ResourceName alert) "escalated" lvl]
  | None => []
  end.

Lemma escalate_one_eq w alert :
  escalate_one unmarshal_chain reads w alert =
  {| w_alerts := match decision alert with
                 | Some (_, lvl, stp) => UpdateAlertEscalation (al_ID alert) (Int32 lvl) (Some (es_ChannelID stp))
                 | None => id
                 end (foldl operate (w_alerts w) (er_meanwhile (reads (al_ID alert))));
     w_log := w_log w ++ decision_calls alert |}.
Proof.
  unfold escalate_one, decision_calls, decision.
  destruct (er_rule _) as [rule|]; [|by rewrite app_nil_r].
  destruct (ruleStandsBehind _ _); simpl.
  2: { destruct (er_update _); simpl; by rewrite app_nil_r. }
  destruct (escalation_due _ _ _ _) as [[lvl stp]|]; simpl; destruct (er_update _); simpl;
    by rewrite ?app_nil_r.
Qed.

Lemma escalations_log alerts w :
  w_log (foldl (escalate_one unmarshal_chain reads) w alerts) = w_log w ++ mjoin (decision_calls <$> alerts).
Proof.
  revert w. induction alerts as [|a l IH]; intros w; csimpl; [by rewrite app_nil_r|].
  rewrite IH, escalate_one_eq. simpl. by rewrite <-(assoc_L (++)).
Qed.

(** Operators change no escalation level. *)
Definition same_level (a b : Alert) : Prop :=
  al_ID b = al_ID a ∧ al_EscalationLevel b = al_EscalationLevel a ∧ al_ChannelID b = al_ChannelID a.

Lemma operates_level ops rows b : b ∈ foldl operate rows ops → ∃ a, a ∈ rows ∧ same_level a b.
Proof.
  revert rows b. induction ops as [|op ops IH]; intros rows b; simpl; [by intros Hb; exists b|].
  intros (c & Hc & Hcb)%IH.
  assert (∃ a, a ∈ rows ∧ same_level a c) as (a & Ha & Hac).
  { destruct op; simpl in Hc; unfold AcknowledgeAlert, ResolveAlert in Hc; rewrite update_where_moves in Hc;
      apply list_elem_of_fmap in Hc as (a & -> & Ha); exists a; (split; [done|]);
      unfold moves; by destruct (_ && _). }
  exists a. split; [done|]. unfold same_level in *. intuition congruence.
Qed.

Lemma escalate_one_level w alert b :
  b ∈ w_alerts (escalate_one unmarshal_chain reads w alert) →
  ∃ a, a ∈ w_alerts w ∧ al_ID a = al_ID b ∧
    match decision alert with
    | Some (_, lvl, stp) =>
        if al_ID b =? al_ID alert
        then al_EscalationLevel b = Int32 lvl ∧ al_ChannelID b = Some (es_ChannelID stp)
        else same_level a b
    | None => same_level a b
    end.
Proof.
  rewrite escalate_one_eq. simpl. destruct (decision alert) as [[[rule lvl] stp]|]; simpl.
  - unfold UpdateAlertEscalation. intros (c & -> & (a & Ha & Hac)%operates_level)%list_elem_of_fmap.
    exists a. destruct (Z.eqb_spec (al_ID c) (al_ID alert)) as [He|He]; simpl.
    + rewrite (proj2 (Z.eqb_eq _ _) He). split_and!; [done|by destruct Hac|done..].
    + rewrite (proj2 (Z.eqb_neq _ _) He). split_and!; [done|by destruct Hac|done].
  - intros (a & Ha & Hac)%operates_level. exists a. split_and!; [done|by destruct Hac|done].
Qed.

Lemma escalations_level alerts w b :
  NoDup (al_ID <$> alerts) →
  b ∈ w_alerts (foldl (escalate_one unmarshal_chain reads) w alerts) →
  (∀ alert rule lvl stp, alert ∈ alerts → al_ID alert = al_ID b → decision alert = Some (rule, lvl, stp) →
     al_EscalationLevel b = Int32 lvl ∧ al_ChannelID b = Some (es_ChannelID stp)) ∧
  ((∀ alert, alert ∈ alerts → al_ID alert = al_ID b → decision alert = None) →
     ∃ a, a ∈ w_alerts w ∧ same_level a b).
Proof.
  revert w. induction alerts as [|x l IH]; intros w Hnd Hb; simpl in *.
  { split; [by intros ???? ?%not_elem_of_nil|]. intros _. by exists b. }
  apply NoDup_cons in Hnd as [Hx Hnd]. destruct (IH _ Hnd Hb) as [Hesc Hkeep]. split.
  - intros alert rule lvl stp [->|Hin]%elem_of_cons He Hd; [|by eapply Hesc].
    destruct Hkeep as (a & Ha & (Hid & Hlv & Hch)).
    { intros y Hy Hyb. destruct Hx. rewrite He, <-Hyb. by apply list_elem_of_fmap_2. }
    destruct (escalate_one_level _ _ _ Ha) as (c & _ & Hcid & Hm).
    rewrite Hd, (proj2 (Z.eqb_eq _ _)) in Hm by congruence. rewrite Hlv, Hch. done.
  - intros Hnone. destruct Hkeep as (a & Ha & (Hid & Hlv & Hch)); [intros y Hy; apply Hnone; set_solver|].
    destruct (escalate_one_level _ _ _ Ha) as (c & Hc & Hcid & Hm). exists c. split; [done|].
    destruct (decision x) as [[[r' lv'] st']|] eqn:Hd.
    + destruct (Z.eqb_spec (al_ID a) (al_ID x)) as [He|He].
      * rewrite (Hnone x) in Hd; [done|set_solver|congruence].
      * unfold same_level in *. intuition congruence.
    + unfold same_level in *. intuition congruence.
Qed.

Lemma decision_spec alert rule lvl stp :
  decision alert = Some (rule, lvl, stp) ↔
  er_rule (reads (al_ID alert)) = Ok rule ∧ er_update (reads (al_ID alert)) = None ∧
  ar_Enabled rule = true ∧ ar_Metric rule = al_Metric alert ∧
  lvl = al_EscalationLevel alert + 1 ∧
  let chain := parseEscalationChain unmarshal_chain (ar_EscalationChain rule) in
  lvl < Z.of_nat (length chain) ∧ chain !! Z.to_nat lvl = Some stp ∧
  ∃ firedAt, al_FiredAt alert = Some firedAt ∧
    int64 (es_DelayMinutes stp * minute) ≤ Sub (er_now (reads (al_ID alert))) firedAt.
Proof.
  unfold decision, ruleStandsBehind, escalation_due. cbv zeta. split.
  - intros H. repeat (case_match; simplify_eq/=). to_prop. split_and!; try done; try lia. eauto with lia.
  - intros (-> & -> & -> & -> & -> & Hlt & Hst & firedAt & Hf & Hd).
    rewrite bool_decide_true by done. simpl. rewrite bool_decide_false by by intros Hn; rewrite Hn in Hst.
    rewrite (proj2 (Z.leb_gt _ _) Hlt), Hst, Hf, (proj2 (Z.ltb_ge _ _) Hd). done.
Qed.
End escalation.

(** Escalation climbs the chain one step at a time. A round of [checkEscalations] over the
    firing, unacknowledged alerts notifies about an alert exactly when its rule could be read, is
    enabled and still on the alert's metric, the chain has a step after the alert's level, and that
    step's delay since the firing has passed; it notifies that step's channel, and afterwards the
    alert's row is at that level and channel, so the next round does not repeat it. Other rows keep
    their level. *)
Theorem checkEscalations_spec unmarshal_chain reads alerts w :
  NoDup (al_ID <$> alerts) →
  let w' := checkEscalations unmarshal_chain (Ok alerts) reads w in
  ∃ calls, w_log w' = w_log w ++ calls ∧
  (∀ rule id channel value name state lvl,
     DispatchToChannel rule id channel value name state lvl ∈ calls ↔
     ∃ alert stp firedAt, alert ∈ alerts ∧ al_ID alert = id ∧
       er_rule (reads id) = Ok rule ∧ er_update (reads id) = None ∧
       ar_Enabled rule = true ∧ ar_Metric rule = al_Metric alert ∧ lvl = al_EscalationLevel alert + 1 ∧
       lvl < Z.of_nat (length (parseEscalationChain unmarshal_chain (ar_EscalationChain rule))) ∧
       parseEscalationChain unmarshal_chain (ar_EscalationChain rule) !! Z.to_nat lvl = Some stp ∧
       al_FiredAt alert = Some firedAt ∧ int64 (es_DelayMinutes stp * minute) ≤ Sub (er_now (reads id)) firedAt ∧
       channel = es_ChannelID stp ∧ value = al_CurrentValue alert ∧ name = al_ResourceName alert ∧
       state = "escalated") ∧
  (∀ b, b ∈ w_alerts w' →
     (∀ rule channel value name state lvl,
        DispatchToChannel rule (al_ID b) channel value name state lvl ∈ calls →
        al_EscalationLevel b = Int32 lvl ∧ al_ChannelID b = Some channel) ∧
     ((∀ rule channel value name state lvl,
        DispatchToChannel rule (al_ID b) channel value name state lvl ∉ calls) →
      ∃ a, a ∈ w_alerts w ∧ al_ID a = al_ID b ∧ al_EscalationLevel a = al_EscalationLevel b)).
Proof.
  intros Hnd. cbv zeta. exists (mjoin (decision_calls unmarshal_chain reads <$> alerts)).
  assert (∀ rule id channel value name state lvl,
    DispatchToChannel rule id channel value name state lvl ∈
      mjoin (decision_calls unmarshal_chain reads <$> alerts) ↔
    ∃ alert stp, alert ∈ alerts ∧ al_ID alert = id ∧
      decision unmarshal_chain reads alert = Some (rule, lvl, stp) ∧ channel = es_ChannelID stp ∧
      value = al_CurrentValue alert ∧ name = al_ResourceName alert ∧ state = "escalated") as Hin.
  { intros. rewrite list_elem_of_join. setoid_rewrite list_elem_of_fmap. unfold decision_calls. split.
    - intros (cs & Hc & alert & -> & Ha).
      destruct (decision unmarshal_chain reads alert) as [[[r l] stp]|] eqn:Hd; [|by apply not_elem_of_nil in Hc].
      apply elem_of_cons in Hc as [|Hc%list_elem_of_singleton]; [done|]. injection Hc as -> -> -> -> -> -> ->. exists alert, stp. split_and!; done.
    - intros (alert & stp & Ha & <- & Hd & -> & -> & -> & ->). eexists. split; [|by exists alert].
      rewrite Hd. set_solver. }
  split_and!; [apply escalations_log| |].
  - intros. rewrite Hin. setoid_rewrite decision_spec. cbv zeta. naive_solver.
  - intros b Hb. destruct (escalations_level unmarshal_chain reads alerts w b Hnd Hb) as [Hesc Hkeep]. split.
    + intros rule channel value name state lvl (alert & stp & Ha & He & Hd & -> & _)%Hin. by eapply Hesc.
    + intros Hno. destruct Hkeep as (a & Ha & Hid & Hlv & _); [|by exists a].
      intros alert Ha He. destruct (decision unmarshal_chain reads alert) as [[[r l] stp]|] eqn:Hd; [|done].
      exfalso. eapply Hno, Hin. exists alert, stp. split_and!; done.
Qed.

(** A chain of two steps, the second five minutes after the firing. *)
Definition two_steps (_ : string) : list escalationStep :=
  [{| es_ChannelID := 9; es_DelayMinutes := 0 |}; {| es_ChannelID := 10; es_DelayMinutes := 5 |}].
Definition chained_rule : AlertRule := {|
  ar_ID := 7; ar_Name := "example"; ar_Enabled := true; ar_Severity := "warning";
  ar_Metric := "cpu_usage"; ar_Operator := ">"; ar_Threshold := f1; ar_DurationSeconds := 0;
  ar_ScopeType := "node"; ar_ClusterID := Some 1; ar_NodeID := Some 2; ar_VmVmid := None;
  ar_UpsID := None; ar_CooldownSeconds := 300; ar_EscalationChain := "[...]"; ar_MessageTemplate := "" |}.
Definition firing_alert : Alert :=
  with_state "firing" (Some minute) None None
    (new_alert two_steps (example_tick 1) chained_rule f100 "pve1" (Some 2) None).
Definition example_escalation (_ : uuid) : EscalationRead := {|
  er_rule := Ok chained_rule; er_now := 7 * minute; er_update := None; er_meanwhile := [] |}.

Lemma checkEscalations_spec_witness :
  let w := {| w_alerts := [firing_alert]; w_log := [] |} in
  ∃ calls, w_log (checkEscalations two_steps (Ok [firing_alert]) example_escalation w) = [] ++ calls ∧
    DispatchToChannel chained_rule 1 10 f100 "pve1" "escalated" 1 ∈ calls.
Proof.
  destruct (checkEscalations_spec two_steps example_escalation [firing_alert]
    {| w_alerts := [firing_alert]; w_log := [] |}) as (calls & Hlog & Hin & _).
  - apply NoDup_singleton.
  - exists calls. split; [exact Hlog|]. apply Hin.
    exists firing_alert, {| es_ChannelID := 10; es_DelayMinutes := 5 |}, minute.
    split_and!; [left|..]; first [reflexivity|by vm_compute].
Defined.

(** Whether a window covers a node of a rule's cluster. *)
Definition covered (clusterID : option uuid) (windows : list MaintenanceWindow) (node : uuid) : Prop :=
  ∃ m c, m ∈ windows ∧ clusterID = Some c ∧ mw_ClusterID m = Some c ∧
    (mw_NodeID m = None ∨ mw_NodeID m = Some node).

Lemma isInMaintenanceWindow_node clusterID windows node :
  isInMaintenanceWindow clusterID (Some node) windows = true ↔ covered clusterID windows node.
Proof.
  unfold isInMaintenanceWindow, covered, window_covers. rewrite existsb_elem_of. split.
  - intros (m & Hm & Hc). exists m. destruct clusterID as [c|]; [|done].
    destruct (mw_ClusterID m) as [wc|]; [|done]. apply andb_true_iff in Hc as [->%Z.eqb_eq Hn].
    exists c. split_and!; [done..|]. destruct (mw_NodeID m); [right|by left]. to_prop. by subst.
  - intros (m & c & Hm & -> & Hc & Hn). exists m. split; [done|]. rewrite Hc, Z.eqb_refl.
    destruct Hn as [->| ->]; simpl; [done|]. apply Z.eqb_refl.
Qed.

(** A maintenance window suspends a rule. While a window covers the whole cluster of a node, VM
    or cluster rule, evaluating the rule changes no alert and dispatches nothing; a node rule is
    suspended by a window on its node as well; and a cluster rule is evaluated on exactly the nodes
    no window covers. *)
Theorem maintenance_suspends unmarshal_chain uuid_String rd rule windows w :
  ((∃ m c, m ∈ windows ∧ ar_ClusterID rule = Some c ∧ mw_ClusterID m = Some c ∧ mw_NodeID m = None) →
   (evaluateScopedRule unmarshal_chain uuid_String rd rule windows w).1 = w) ∧
  (∀ n, ar_ScopeType rule = "node" → ar_NodeID rule = Some n → covered (ar_ClusterID rule) windows n →
   evaluateScopedRule unmarshal_chain uuid_String rd rule windows w = (w, Ok tt)) ∧
  (∀ nodes live, (∀ n, n ∈ nodes → live n = false ↔ covered (ar_ClusterID rule) windows n) →
   evaluate_nodes unmarshal_chain uuid_String rd rule windows nodes w =
   foldl (λ w n, (evaluateNodeRule unmarshal_chain uuid_String rd rule n w).1) w (List.filter live nodes)).
Proof.
  split_and!.
  - intros (m & c & Hm & Hc & Hmc & Hmn).
    assert (∀ n, isInMaintenanceWindow (ar_ClusterID rule) n windows = true) as Hw.
    { intros n. apply existsb_elem_of. exists m. split; [done|].
      unfold window_covers. by rewrite Hc, Hmc, Z.eqb_refl, Hmn. }
    unfold evaluateScopedRule. rewrite Hc in *. repeat case_match; try done.
    + by rewrite Hw in *.
    + by rewrite Hw in *.
    + simpl. unfold evaluate_nodes. rewrite Hc.
      match goal with |- foldl _ w ?l = w => clear -Hw; induction l as [|n l IH]; simpl; [done|by rewrite Hw, IH] end.
  - intros n Hs Hn Hcov. unfold evaluateScopedRule. rewrite bool_decide_true by done. rewrite Hn.
    by rewrite (proj2 (isInMaintenanceWindow_node _ _ _) Hcov).
  - intros nodes live. revert w. unfold evaluate_nodes.
    induction nodes as [|n nodes IH]; intros w Hl; simpl; [done|].
    pose proof (Hl n ltac:(set_solver)) as Hn. rewrite <-isInMaintenanceWindow_node in Hn.
    destruct (live n); simpl.
    + destruct (isInMaintenanceWindow _ _ _); [discriminate (proj2 Hn eq_refl)|]. apply IH. set_solver.
    + rewrite (proj1 Hn) by done. apply IH. set_solver.
Qed.
