(* ===== verification/AlertDispatch.v ===== *)
(** * Delivering notifications

    Models what follows a dispatch of the alert engine: the per-channel token
    bucket ([internal/notifications/ratelimit.go]), the retry schedule
    ([retry.go]), and [dispatchToChannel], [sendWithRetry], [writeDLQ],
    [truncateError] and [ReplayDLQ] of [alert_engine.go]. The channel table, the
    decryption of a channel's configuration, the dispatchers (HTTP and SMTP
    clients) and the template engine are answers the definitions take; what the
    engine does to the outside is a list of effects. *)

From S2P Require Import Prelude GoFloat GoStrings ProxmoxApi AlertRules AlertEngine.

Local Open Scope Z_scope.

(** ** The rate limiter *)

Definition ChannelRateLimitBurst : Z := 10.
Definition ChannelRateLimitRefillSeconds : Z := 15.

Record channelBucket := { tokens : float64; lastRefill : Z }.

Record channelRateLimiter := {
  buckets : gmap uuid channelBucket;
  burst : float64;
  refillPerSecond : float64;
}.

Definition newChannelRateLimiter : channelRateLimiter := {|
  buckets := ∅;
  burst := f_of_Z ChannelRateLimitBurst;
  refillPerSecond := fdiv f1 (f_of_Z ChannelRateLimitRefillSeconds);
|}.

(** The refill of [Allow]: nothing unless the clock moved on. *)
Definition refill (l : channelRateLimiter) (b : channelBucket) (now : Z) : channelBucket :=
  let elapsed := seconds (Sub now (lastRefill b)) in
  if fgt elapsed f0 then
    let t := fadd (tokens b) (fmul elapsed (refillPerSecond l)) in
    {| tokens := if fgt t (burst l) then burst l else t; lastRefill := now |}
  else b.

Definition Allow (l : channelRateLimiter) (channelID : uuid) (now : Z) : bool * channelRateLimiter :=
  let b := default {| tokens := burst l; lastRefill := now |} (buckets l !! channelID) in
  let b := refill l b now in
  let '(ok, b) := if fge (tokens b) f1
                  then (true, {| tokens := fsub (tokens b) f1; lastRefill := lastRefill b |})
                  else (false, b) in
  (ok, {| buckets := <[channelID := b]> (buckets l); burst := burst l;
          refillPerSecond := refillPerSecond l |}).

(** Calls of [Allow] on one channel at the given times, and their answers. *)
Fixpoint allow_all (l : channelRateLimiter) (channelID : uuid) (times : list Z) :
    list bool * channelRateLimiter :=
  match times with
  | [] => ([], l)
  | now :: times =>
      let '(ok, l) := Allow l channelID now in
      let '(oks, l) := allow_all l channelID times in
      (ok :: oks, l)
  end.

(** ** Retries *)

Definition RetrySchedule : list Z := [1 * second; 4 * second].

(** The attempts after the first: [cancelled i] is the error of a context that
    ended during the [i]-th wait, [send i] the error of the [i]-th attempt. *)
Fixpoint retry_loop (send : nat → option go_error) (cancelled : nat → option go_error)
    (schedule : list Z) (attempts : nat) (lastErr : go_error) : nat * option go_error :=
  match schedule with
  | [] => (attempts, Some lastErr)
  | _ :: schedule =>
      match cancelled attempts with
      | Some e =>
          (attempts, Some {| err_msg := "ctx cancelled after " +:+ Itoa (Z.of_nat attempts) +:+
                               " attempts: " +:+ err_msg e +:+ " (last err: " +:+ err_msg lastErr +:+ ")";
                             err_api := err_api e; err_is := err_is e |})
      | None =>
          match send (S attempts) with
          | None => (S attempts, None)
          | Some e => retry_loop send cancelled schedule (S attempts) e
          end
      end
  end.

Definition retryableSend (send : nat → option go_error) (cancelled : nat → option go_error)
    (schedule : list Z) : nat * option go_error :=
  match send 1%nat with
  | None => (1%nat, None)
  | Some e => retry_loop send cancelled schedule 1 e
  end.

(** ** Truncating errors *)

Definition maxErrLen : nat := 4096.
(** The ellipsis, in UTF-8, and the word. *)
Definition marker : string :=
  of_bytes (Ascii.ascii_of_nat <$> [226; 128; 166]%nat) +:+ "[truncated]".

(** [utf8.RuneStart]: any byte but a continuation byte [10xxxxxx]. *)
Definition RuneStart (b : ascii) : bool := negb (Nat.eqb (byte_val b / 64) 2).

(** [for end > 0 && !utf8.RuneStart(s[end]) { end-- }] *)
Fixpoint rewind (s : list ascii) (end_ : nat) : nat :=
  match end_ with
  | O => O
  | S e => match s !! end_ with
           | Some b => if RuneStart b then end_ else rewind s e
           | None => end_
           end
  end.

Definition truncateError (s : string) : string :=
  if Nat.leb (slen s) maxErrLen then s
  else stake (rewind (bytes_of s) (maxErrLen - slen marker)) s +:+ marker.

(** ** Dispatch *)

Record AlertPayload := {
  ap_RuleName : string;
  ap_RuleID : string;
  ap_Severity : string;
  ap_State : string;
  ap_Metric : string;
  ap_Operator : string;
  ap_Threshold : float64;
  ap_CurrentValue : float64;
  ap_ResourceName : string;
  ap_NodeName : string;
  ap_ClusterID : string;
  ap_Message : string;
  ap_FiredAt : string;
  ap_EscalationLevel : Z;
}.

Definition empty_payload : AlertPayload := {|
  ap_RuleName := ""; ap_RuleID := ""; ap_Severity := ""; ap_State := ""; ap_Metric := "";
  ap_Operator := ""; ap_Threshold := f0; ap_CurrentValue := f0; ap_ResourceName := "";
  ap_NodeName := ""; ap_ClusterID := ""; ap_Message := ""; ap_FiredAt := ""; ap_EscalationLevel := 0 |}.

Record NotificationChannel := {
  nc_ID : uuid;
  nc_Name : string;
  nc_ChannelType : string;
  nc_ConfigEncrypted : string;
}.

Record NotificationDlq := {
  dlq_ChannelID : option uuid;
  dlq_ChannelType : string;
  dlq_ChannelName : string;
  dlq_AlertID : option uuid;
  dlq_RuleID : option uuid;
  dlq_ClusterID : option uuid;
  dlq_Payload : option AlertPayload;
  dlq_LastError : string;
  dlq_AttemptCount : Z;
  dlq_State : string;
  dlq_FailureKind : string;
}.

Inductive effect :=
| InsertNotificationDLQ (row : NotificationDlq)
| MarkAlertNotificationSent (alertID : uuid)
| Send (attempt : nat) (payload : AlertPayload)
| UpdateNotificationDLQState (dlqID : uuid) (state lastError : string) (attempts : Z)
| MarkNotificationDLQResolved (dlqID : uuid).

(** [json.Marshal] of a payload: refused for a float that is a NaN or an
    infinity, and the row then holds an empty object. *)
Definition finite (x : float64) : bool := negb (IsNaN x || IsInf x).
Definition marshal_payload (p : AlertPayload) : option AlertPayload :=
  if finite (ap_Threshold p) && finite (ap_CurrentValue p) then Some p else None.

Definition pg_of (id : uuid) : option uuid := if id =? uuid_Nil then None else Some id.

(** [insert_ok]: whether the insertion went through. *)
Definition writeDLQ (insert_ok : bool) (channel : NotificationChannel) (rule : AlertRule)
    (alertID : uuid) (payload : AlertPayload) (lastErr : string) (attempts : nat) (failureKind : string) :
    list effect :=
  if insert_ok then
    [InsertNotificationDLQ {|
       dlq_ChannelID := pg_of (nc_ID channel);
       dlq_ChannelType := nc_ChannelType channel;
       dlq_ChannelName := nc_Name channel;
       dlq_AlertID := pg_of alertID;
       dlq_RuleID := pg_of (ar_ID rule);
       dlq_ClusterID := ar_ClusterID rule;
       dlq_Payload := marshal_payload payload;
       dlq_LastError := truncateError lastErr;
       dlq_AttemptCount := Int32 (Z.of_nat attempts);
       dlq_State := if bool_decide (failureKind = "rate_limited") then "rate_limited" else "pending";
       dlq_FailureKind := failureKind;
     |}]
  else [].

(** What one dispatch meets outside the engine. *)
Record Outside := {
  o_registry : bool;
  GetNotificationChannelEnabled : uuid → result go_error NotificationChannel;
  Decrypt : string → result go_error string;
  registry_has : string → bool;
  renderTemplate : string → AlertPayload → result go_error string;
  dispatcher_Send : string → string → AlertPayload → nat → option go_error;
  (** the error of the context, once it has ended, after so many attempts *)
  ctx_cancelled : nat → option go_error;
  (** whether a row can be inserted, given whether the context has ended *)
  insert_row : bool → bool;
  o_now : Z;
  o_now_string : string;
}.

Definition sendWithRetry (o : Outside) (channel : NotificationChannel) (rule : AlertRule)
    (alertID : uuid) (payload : AlertPayload) (config : string) : list effect :=
  let '(attempts, err) :=
    retryableSend (dispatcher_Send o (nc_ChannelType channel) config payload) (ctx_cancelled o) RetrySchedule in
  ((λ i, Send i payload) <$> seq 1 attempts) ++
  match err with
  | None => if alertID =? uuid_Nil then [] else [MarkAlertNotificationSent alertID]
  | Some e =>
      writeDLQ (insert_row o (bool_decide (is_Some (ctx_cancelled o attempts)))) channel rule alertID payload (err_msg e) attempts "send_failed"
  end.

Section dispatch.
Context (uuid_String : uuid → string).

Definition payload_of (o : Outside) (rule : AlertRule) (value : float64) (resourceName state : string)
    (escalationLevel : Z) : AlertPayload :=
  let p (message : string) := {|
    ap_RuleName := ar_Name rule; ap_RuleID := uuid_String (ar_ID rule); ap_Severity := ar_Severity rule;
    ap_State := state; ap_Metric := ar_Metric rule; ap_Operator := ar_Operator rule;
    ap_Threshold := ar_Threshold rule; ap_CurrentValue := value; ap_ResourceName := resourceName;
    ap_NodeName := resourceName;
    ap_ClusterID := match ar_ClusterID rule with Some c => uuid_String c | None => "" end;
    ap_Message := message; ap_FiredAt := o_now_string o; ap_EscalationLevel := escalationLevel |} in
  if bool_decide (ar_MessageTemplate rule = "") then p ""
  else match renderTemplate o (ar_MessageTemplate rule) (p "") with
       | Ok rendered => p rendered
       | Err _ => p ""
       end.

Definition dispatchToChannel (o : Outside) (l : channelRateLimiter) (rule : AlertRule)
    (alertID channelID : uuid) (value : float64) (resourceName state : string) (escalationLevel : Z) :
    channelRateLimiter * list effect :=
  if negb (o_registry o) || (channelID =? uuid_Nil) then (l, [])
  else
    match GetNotificationChannelEnabled o channelID with
    | Err _ => (l, [])
    | Ok channel =>
        match Decrypt o (nc_ConfigEncrypted channel) with
        | Err e => (l, writeDLQ (insert_row o false) channel rule alertID empty_payload
                         ("decrypt channel config: " +:+ err_msg e) 0 "config_error")
        | Ok configJSON =>
            if negb (registry_has o (nc_ChannelType channel)) then (l, [])
            else
              let payload := payload_of o rule value resourceName state escalationLevel in
              let '(ok, l) := Allow l channelID (o_now o) in
              if ok then (l, sendWithRetry o channel rule alertID payload configJSON)
              else (l, writeDLQ (insert_row o false) channel rule alertID payload
                         "channel rate limit exceeded; flapping rule throttled" 0 "rate_limited")
        end
    end.

(** The rule's own fields of a replayed payload come from the live rule. *)
Definition trusted_fields (rule : option AlertRule) (p : AlertPayload) : AlertPayload :=
  match rule with
  | None => p
  | Some r => {|
      ap_RuleName := ar_Name r; ap_RuleID := uuid_String (ar_ID r); ap_Severity := ar_Severity r;
      ap_State := ap_State p; ap_Metric := ar_Metric r; ap_Operator := ar_Operator r;
      ap_Threshold := ar_Threshold r; ap_CurrentValue := ap_CurrentValue p;
      ap_ResourceName := ap_ResourceName p; ap_NodeName := ap_NodeName p;
      ap_ClusterID := match ar_ClusterID r with Some c => uuid_String c | None => "" end;
      ap_Message := ap_Message p; ap_FiredAt := ap_FiredAt p; ap_EscalationLevel := ap_EscalationLevel p |}
  end.

Definition with_fired_at (t : string) (p : AlertPayload) : AlertPayload := {|
  ap_RuleName := ap_RuleName p; ap_RuleID := ap_RuleID p; ap_Severity := ap_Severity p;
  ap_State := ap_State p; ap_Metric := ap_Metric p; ap_Operator := ap_Operator p;
  ap_Threshold := ap_Threshold p; ap_CurrentValue := ap_CurrentValue p;
  ap_ResourceName := ap_ResourceName p; ap_NodeName := ap_NodeName p; ap_ClusterID := ap_ClusterID p;
  ap_Message := ap_Message p; ap_FiredAt := t; ap_EscalationLevel := ap_EscalationLevel p |}.

(** The sending end of a replay. *)
Definition replay_send (o : Outside) (dlqID : uuid) (row : NotificationDlq) (channel : NotificationChannel)
    (configJSON : string) (payload : AlertPayload) : list effect * option go_error :=
  let '(attempts, sendErr) :=
    retryableSend (dispatcher_Send o (nc_ChannelType channel) configJSON payload)
      (ctx_cancelled o) RetrySchedule in
  let total := Int32 (dlq_AttemptCount row + Z.of_nat attempts) in
  let sends := (λ i, Send i payload) <$> seq 1 attempts in
  match sendErr with
  | Some e =>
      (sends ++ [UpdateNotificationDLQState dlqID "pending" (truncateError (err_msg e)) total],
       Some (wrap ("replay attempts=" +:+ Itoa (Z.of_nat attempts)) e))
  | None =>
      (sends ++ [MarkNotificationDLQResolved dlqID] ++
       match dlq_AlertID row with Some a => [MarkAlertNotificationSent a] | None => [] end, None)
  end.

(** [unmarshal] decodes the stored payload; [GetAlertRule] is the live rule. *)
Definition ReplayDLQ (o : Outside) (queries : bool) (dlqID : uuid)
    (row : result go_error NotificationDlq) (unmarshal : option AlertPayload → result go_error AlertPayload)
    (GetAlertRule : uuid → result go_error AlertRule) : list effect * option go_error :=
  if negb queries || negb (o_registry o) then ([], Some (errorf "alert engine not configured for replay"))
  else
  match row with
  | Err e => ([], Some (wrap "get DLQ entry" e))
  | Ok row =>
    if bool_decide (dlq_State row = "resolved" ∨ dlq_State row = "dismissed")%string
    then ([], Some (errorf ("DLQ entry already " +:+ dlq_State row)))
    else
    match dlq_ChannelID row with
    | None => ([], Some (errorf "channel deleted; cannot replay"))
    | Some channelID =>
      match GetNotificationChannelEnabled o channelID with
      | Err e => ([], Some (wrap ("channel " +:+ uuid_String channelID +:+ " not found or disabled") e))
      | Ok channel =>
        match Decrypt o (nc_ConfigEncrypted channel) with
        | Err e => ([], Some (wrap "decrypt channel config" e))
        | Ok configJSON =>
          if negb (registry_has o (nc_ChannelType channel))
          then ([], Some (errorf ("no dispatcher registered for channel type " +:+ Quote (nc_ChannelType channel))))
          else
          match unmarshal (dlq_Payload row) with
          | Err e => ([], Some (wrap "unmarshal stored payload" e))
          | Ok stored =>
            let live := match dlq_RuleID row with
                        | Some id => match GetAlertRule id with Ok r => Some r | Err _ => None end
                        | None => None
                        end in
            let payload := with_fired_at (o_now_string o) (trusted_fields live stored) in
            replay_send o dlqID row channel configJSON payload
          end
        end
      end
    end
  end.
End dispatch.

(** ** Lemmas *)

Lemma retry_loop_spec send cancelled schedule n e0 m err :
  (1 ≤ n)%nat → send n = Some e0 → (∀ i, (1 ≤ i < n)%nat → is_Some (send i) ∧ cancelled i = None) →
  retry_loop send cancelled schedule n e0 = (m, err) →
  (n ≤ m ≤ n + length schedule)%nat ∧
  (∀ i, (1 ≤ i < m)%nat → is_Some (send i) ∧ cancelled i = None) ∧
  (err = None ↔ send m = None) ∧
  (is_Some err → m = (n + length schedule)%nat ∨ is_Some (cancelled m)).
Proof.
  revert n e0. induction schedule as [|d schedule IH]; intros n e0 Hn He Hlt; simpl.
  { intros [= <- <-]. split_and!; [lia..|done| |intros _; left; lia]. by rewrite He. }
  destruct (cancelled n) as [c|] eqn:Hc.
  { intros [= <- <-]. split_and!; [lia..|done| |by right; rewrite Hc]. by rewrite He. }
  assert (∀ i, (1 ≤ i < S n)%nat → is_Some (send i) ∧ cancelled i = None) as Hlt'.
  { intros i Hi. destruct (decide (i = n)) as [->|]; [by rewrite He|apply Hlt; lia]. }
  destruct (send (S n)) as [e|] eqn:Hs.
  - intros H. destruct (IH (S n) e ltac:(lia) Hs Hlt' H) as (? & ? & ? & Hx).
    split_and!; [lia..|done|done|]. intros He'. destruct (Hx He'); [left; lia|by right].
  - intros [= <- <-]. split_and!; [lia..|done| |by intros [? ?]]. by rewrite Hs.
Qed.

Lemma retryableSend_attempts send cancelled schedule m err :
  retryableSend send cancelled schedule = (m, err) →
  (1 ≤ m ≤ 1 + length schedule)%nat ∧
  (∀ i, (1 ≤ i < m)%nat → is_Some (send i) ∧ cancelled i = None) ∧
  (err = None ↔ send m = None) ∧
  (is_Some err → m = (1 + length schedule)%nat ∨ is_Some (cancelled m)).
Proof.
  unfold retryableSend. destruct (send 1%nat) as [e|] eqn:Hs.
  - apply retry_loop_spec; [lia|done|lia].
  - intros [= <- <-]. split_and!; [lia..| |by rewrite Hs|by intros [? ?]]. lia.
Qed.

(** A UTF-8 encoded rune: a start byte and up to three continuation bytes. *)
Definition is_rune (r : list ascii) : Prop :=
  ∃ b cs, r = b :: cs ∧ RuneStart b = true ∧ Forall (λ c, RuneStart c = false) cs ∧ (length cs ≤ 3)%nat.

(** The rune a byte belongs to. *)
Lemma rune_at (rs : list (list ascii)) e :
  (e < length (mjoin rs))%nat →
  ∃ k r, rs !! k = Some r ∧ (length (mjoin (take k rs)) ≤ e < length (mjoin (take k rs)) + length r)%nat.
Proof.
  revert e. induction rs as [|r rs IH]; csimpl; intros e He; [lia|]. rewrite length_app in He.
  destruct (decide (e < length r)%nat) as [Hlt|Hge].
  - exists 0%nat, r. split; [done|]. simpl. lia.
  - destruct (IH (e - length r)%nat) as (k & r' & Hk & Hp); [lia|].
    exists (S k), r'. split; [done|]. csimpl. rewrite length_app. lia.
Qed.

Lemma rewind_to l p e :
  (p ≤ e)%nat → (p = 0%nat ∨ ∃ b, l !! p = Some b ∧ RuneStart b = true) →
  (∀ i, (p < i ≤ e)%nat → ∃ b, l !! i = Some b ∧ RuneStart b = false) →
  rewind l e = p.
Proof.
  induction e as [|e IH]; intros Hp Hb Hc; cbn [rewind]; [lia|].
  destruct (decide (p = S e)) as [->|Hne].
  - destruct Hb as [|(b & -> & ->)]; [lia|done].
  - destruct (Hc (S e)) as (b & -> & ->); [lia|]. apply IH; [lia|done|]. intros i Hi. apply Hc. lia.
Qed.

Lemma mjoin_middle (rs : list (list ascii)) k r :
  rs !! k = Some r → mjoin rs = mjoin (take k rs) ++ r ++ mjoin (drop (S k) rs).
Proof. intros Hk. rewrite <-(take_drop_middle rs k r Hk) at 1. by rewrite join_app. Qed.

(** Rewinding from a byte stops at the start of its rune. *)
Lemma rewind_rune (rs : list (list ascii)) e :
  Forall is_rune rs → (e < length (mjoin rs))%nat →
  ∃ k, rewind (mjoin rs) e = length (mjoin (take k rs)) ∧ (e ≤ length (mjoin (take k rs)) + 3)%nat ∧
    (length (mjoin (take k rs)) ≤ e)%nat.
Proof.
  intros Hrs He. destruct (rune_at rs e He) as (k & r & Hk & Hp). exists k.
  destruct (proj1 (Forall_lookup _ _) Hrs k r Hk) as (b & cs & -> & Hb & Hcs & Hlen). simpl in Hp.
  split; [|lia]. rewrite (mjoin_middle rs k _ Hk). apply rewind_to; [lia| |].
  - right. exists b. split; [|done]. by rewrite lookup_app_r, Nat.sub_diag by lia.
  - intros i Hi. rewrite lookup_app_r by lia.
    replace (i - length (mjoin (take k rs)))%nat with (S (i - length (mjoin (take k rs)) - 1)) by lia.
    simpl. rewrite lookup_app_l by lia.
    destruct (lookup_lt_is_Some_2 cs (i - length (mjoin (take k rs)) - 1)%nat) as [c Hc]; [lia|].
    exists c. split; [done|]. by eapply Forall_lookup_1 in Hcs.
Qed.

Lemma bytes_of_stake n s : bytes_of (stake n s) = take n (bytes_of s).
Proof. revert s. induction n as [|n IH]; intros [|c s]; simpl; try done. by rewrite IH. Qed.

Lemma rewind_le l e : (rewind l e ≤ e)%nat.
Proof. induction e as [|e IH]; cbn [rewind]; [done|]. repeat case_match; lia. Qed.

Lemma truncateError_length s : (slen (truncateError s) ≤ maxErrLen)%nat.
Proof.
  unfold truncateError. destruct (Nat.leb_spec (slen s) maxErrLen); [done|].
  rewrite slen_app, slen_stake. pose proof (rewind_le (bytes_of s) (maxErrLen - slen marker)).
  change (slen marker) with 14%nat in *. unfold maxErrLen in *. lia.
Qed.

(** ** Properties *)

(** A stored error is short and still UTF-8. [truncateError] returns at most 4096 bytes; an error
    that fits is kept as it is; a longer one made of whole runes is cut between two runes, loses no
    more than three bytes to that, and ends in the marker. *)
Theorem truncateError_spec s (rs : list (list ascii)) :
  Forall is_rune rs → bytes_of s = mjoin rs →
  (slen (truncateError s) ≤ 4096)%nat ∧
  ((slen s ≤ 4096)%nat → truncateError s = s) ∧
  ((4096 < slen s)%nat → ∃ k,
     bytes_of (truncateError s) = mjoin (take k rs) ++ bytes_of marker ∧
     (4079 ≤ length (mjoin (take k rs)))%nat).
Proof.
  intros Hrs Hs. split; [apply truncateError_length|]. unfold truncateError. split.
  - intros Hle. by rewrite (proj2 (Nat.leb_le (slen s) maxErrLen) Hle).
  - intros Hgt. rewrite (proj2 (Nat.leb_gt (slen s) maxErrLen) Hgt), Hs.
    change (maxErrLen - slen marker)%nat with 4082%nat.
    destruct (rewind_rune rs 4082 Hrs) as (k & -> & H3 & Hle).
    { rewrite <-Hs, length_bytes_of. lia. }
    exists k. rewrite bytes_of_app. split; [|lia]. f_equal.
    rewrite bytes_of_stake, Hs. rewrite <-(take_drop k rs) at 2. rewrite join_app. apply take_app_length.
Qed.

(** An error of 1400 euro signs, 4200 bytes. *)
Definition euro : list ascii := Ascii.ascii_of_nat <$> [226; 130; 172]%nat.
Definition long_error : string := of_bytes (mjoin (replicate 1400 euro)).

Lemma truncateError_spec_witness :
  ∃ k, bytes_of (truncateError long_error) = mjoin (take k (replicate 1400 euro)) ++ bytes_of marker ∧
    (4079 ≤ length (mjoin (take k (replicate 1400 euro))))%nat.
Proof.
  apply (truncateError_spec long_error (replicate 1400 euro)).
  - apply Forall_replicate. exists (Ascii.ascii_of_nat 226), (Ascii.ascii_of_nat <$> [130; 172]%nat).
    split_and!; [done|done|by repeat constructor|simpl; lia].
  - apply String.list_ascii_of_string_of_list_ascii.
  - apply Nat.ltb_lt. by vm_compute.
Defined.

(** Every notification that reaches a channel leaves a trace. For an alert and an enabled
    channel whose configuration decrypts and whose type has a dispatcher, when rows can be
    inserted, a dispatch the rate limiter refuses sends nothing and leaves one [rate_limited] row;
    one it allows makes one to three attempts, stopping at the first that succeeds, and then either
    marks the alert notified (the last attempt succeeded) or leaves one pending [send_failed] row
    that counts them (none did), with an error text of at most 4096 bytes. *)
Theorem dispatchToChannel_recorded uuid_String o l rule alertID channelID value name state level
    channel config :
  o_registry o = true → channelID ≠ uuid_Nil → alertID ≠ uuid_Nil →
  GetNotificationChannelEnabled o channelID = Ok channel → Decrypt o (nc_ConfigEncrypted channel) = Ok config →
  registry_has o (nc_ChannelType channel) = true → (∀ ended, insert_row o ended = true) →
  let payload := payload_of uuid_String o rule value name state level in
  let send := dispatcher_Send o (nc_ChannelType channel) config payload in
  let es := (dispatchToChannel uuid_String o l rule alertID channelID value name state level).2 in
  if (Allow l channelID (o_now o)).1 then
    ∃ n, (1 ≤ n ≤ 3)%nat ∧ (∀ i, (1 ≤ i < n)%nat → is_Some (send i)) ∧
      ((send n = None ∧ es = ((λ i, Send i payload) <$> seq 1 n) ++ [MarkAlertNotificationSent alertID]) ∨
       (∃ row, is_Some (send n) ∧
          es = ((λ i, Send i payload) <$> seq 1 n) ++ [InsertNotificationDLQ row] ∧
          dlq_State row = "pending" ∧ dlq_FailureKind row = "send_failed" ∧
          dlq_AttemptCount row = Z.of_nat n ∧ dlq_AlertID row = Some alertID ∧
          (slen (dlq_LastError row) ≤ 4096)%nat))
  else
    ∃ row, es = [InsertNotificationDLQ row] ∧ dlq_State row = "rate_limited" ∧
      dlq_FailureKind row = "rate_limited" ∧ dlq_AttemptCount row = 0 ∧ dlq_AlertID row = Some alertID.
Proof.
  intros Hreg Hch%Z.eqb_neq Hal%Z.eqb_neq Hget Hdec Hhas Hins. cbv zeta. unfold dispatchToChannel.
  rewrite Hreg, Hch, Hget, Hdec, Hhas. simpl.
  destruct (Allow l channelID (o_now o)) as [[] l']; simpl.
  - unfold sendWithRetry. set (payload := payload_of _ _ _ _ _ _ _).
    set (send := dispatcher_Send o _ config payload).
    destruct (retryableSend send (ctx_cancelled o) RetrySchedule) as [n err] eqn:Hr.
    apply retryableSend_attempts in Hr as (Hn & Hlt & Hok & _). simpl in Hn. exists n.
    split; [lia|]. split; [intros i Hi; by apply Hlt|]. rewrite Hal.
    destruct err as [e|]; [|left; split; [by apply Hok|done]]. right.
    unfold writeDLQ. rewrite Hins. eexists. split_and!; [|reflexivity|reflexivity|reflexivity| | |].
    + destruct (send n); [done|]. by destruct (proj2 Hok eq_refl).
    + simpl. unfold Int32, maxInt32, minInt32. repeat case_match; to_prop; lia.
    + simpl. unfold pg_of. by rewrite Hal.
    + apply truncateError_length.
  - unfold writeDLQ. rewrite Hins. eexists. split_and!; try reflexivity. simpl. unfold pg_of. by rewrite Hal.
Qed.

(** A Slack channel whose endpoint fails twice and then answers. *)
Definition example_channel : NotificationChannel :=
  {| nc_ID := 9; nc_Name := "ops"; nc_ChannelType := "slack"; nc_ConfigEncrypted := "k" |}.
Definition example_outside (cancelled : nat → option go_error) (insert : bool → bool) : Outside := {|
  o_registry := true;
  GetNotificationChannelEnabled := λ _, Ok example_channel;
  Decrypt := λ s, Ok s;
  registry_has := λ t, bool_decide (t = "slack");
  renderTemplate := λ _ _, Err (errorf "template");
  dispatcher_Send := λ _ _ _ i, if Nat.eqb i 3 then None else Some (errorf "status 503");
  ctx_cancelled := cancelled;
  insert_row := insert;
  o_now := 0;
  o_now_string := "2024-01-01T00:00:00Z";
|}.

Lemma dispatchToChannel_recorded_witness :
  let o := example_outside (λ _, None) (λ _, true) in
  let payload := payload_of (λ _, "") o chained_rule f100 "pve1" "firing" 0 in
  ∃ n, (1 ≤ n ≤ 3)%nat ∧
    (∀ i, (1 ≤ i < n)%nat → is_Some (dispatcher_Send o "slack" "k" payload i)).
Proof.
  pose proof (dispatchToChannel_recorded (λ _, "") (example_outside (λ _, None) (λ _, true))
    newChannelRateLimiter chained_rule 1 9 f100 "pve1" "firing" 0 example_channel "k") as H.
  destruct H as (n & Hn & Hlt & _); [reflexivity|by vm_compute|by vm_compute|reflexivity|reflexivity|
    reflexivity|reflexivity|]. by exists n.
Defined.

(** ** The rate limiter *)

Lemma Allow_isolated l c now c' :
  c' ≠ c → buckets (Allow l c now).2 !! c' = buckets l !! c'.
Proof.
  intros Hc. unfold Allow. destruct (fge _ f1); simpl; by rewrite lookup_insert_ne.
Qed.

Lemma allow_all_isolated l c times c' :
  c' ≠ c → buckets (allow_all l c times).2 !! c' = buckets l !! c'.
Proof.
  intros Hc. revert l. induction times as [|now times IH]; intros l; simpl; [done|].
  destruct (Allow l c now) as [ok l1] eqn:Ha. destruct (allow_all l1 c times) as [oks l2] eqn:Hl.
  simpl. specialize (IH l1). rewrite Hl in IH. simpl in IH. rewrite IH.
  replace l1 with (Allow l c now).2 by by rewrite Ha. by apply Allow_isolated.
Qed.

(** Whole tokens up to the burst are counted exactly. *)
Lemma whole_tokens k : (k ≤ 10)%nat →
  fge (f_of_Z (Z.of_nat k)) f1 = negb (Nat.eqb k 0) ∧
  (k ≠ 0%nat → fsub (f_of_Z (Z.of_nat k)) f1 = f_of_Z (Z.of_nat (k - 1))).
Proof. intros Hk. do 11 (destruct k as [|k]; [by split|]). lia. Qed.

(** A bucket without the clock moving: a token is taken or refused. *)
Lemma Allow_frozen l c now k :
  buckets l !! c = Some {| tokens := f_of_Z (Z.of_nat k); lastRefill := now |} → (k ≤ 10)%nat →
  (Allow l c now).1 = negb (Nat.eqb k 0) ∧
  buckets (Allow l c now).2 !! c = Some {| tokens := f_of_Z (Z.of_nat (k - 1)); lastRefill := now |}.
Proof.
  intros Hb Hk. unfold Allow. rewrite Hb. simpl. unfold refill. simpl.
  replace (Sub now now) with 0 by (unfold Sub, minInt64, maxInt64; rewrite Z.sub_diag; done).
  change (fgt (seconds 0) f0) with false. cbv iota. cbn [tokens lastRefill].
  destruct (whole_tokens k Hk) as [-> Hsub]. destruct (Nat.eqb_spec k 0) as [->|Hne]; simpl.
  - by rewrite lookup_insert_eq.
  - by rewrite lookup_insert_eq, Hsub.
Qed.

Lemma allow_all_frozen l c now k n :
  buckets l !! c = Some {| tokens := f_of_Z (Z.of_nat k); lastRefill := now |} → (k ≤ 10)%nat →
  (allow_all l c (replicate n now)).1 = replicate (n `min` k) true ++ replicate (n - k) false.
Proof.
  revert l k. induction n as [|n IH]; intros l k Hb Hk; simpl; [done|].
  destruct (Allow_frozen l c now k Hb Hk) as [Hok Hb']. destruct (Allow l c now) as [ok l1]. simpl in *.
  specialize (IH l1 (k - 1)%nat Hb' ltac:(lia)). destruct (allow_all l1 c _) as [oks l2]. simpl in *.
  rewrite Hok, IH. destruct k as [|k]; simpl; [|by rewrite Nat.sub_0_r].
  by rewrite Nat.sub_0_r, Nat.min_0_r.
Qed.

(** A flapping rule is throttled on its own channel. On a channel the limiter has not seen, of
    any number of dispatches at one instant exactly the first ten are allowed; and dispatches on one
    channel leave every other channel's bucket as it was. *)
Theorem Allow_burst l c now n :
  burst l = f_of_Z ChannelRateLimitBurst → buckets l !! c = None →
  (allow_all l c (replicate n now)).1 = replicate (n `min` 10) true ++ replicate (n - 10) false ∧
  ∀ c' times, c' ≠ c → buckets (allow_all l c times).2 !! c' = buckets l !! c'.
Proof.
  intros Hburst Hb. split; [|intros; by apply allow_all_isolated].
  set (l' := {| buckets := <[c := {| tokens := f_of_Z 10; lastRefill := now |}]> (buckets l);
                burst := burst l; refillPerSecond := refillPerSecond l |}).
  assert (buckets l' !! c = Some {| tokens := f_of_Z (Z.of_nat 10); lastRefill := now |}) as Hb'
    by apply lookup_insert_eq.
  rewrite <-(allow_all_frozen l' c now 10 n Hb' ltac:(lia)).
  destruct n as [|n]; [done|]. simpl.
  assert (Allow l c now = Allow l' c now) as ->; [|done].
  unfold Allow. rewrite Hb, Hb'. simpl. unfold refill. simpl. rewrite Hburst.
  by destruct (fge _ f1); rewrite insert_insert_eq.
Qed.

Lemma Allow_burst_witness :
  (allow_all newChannelRateLimiter 9 (replicate 12 0)).1 =
  replicate 10 true ++ replicate 2 false.
Proof. apply (Allow_burst newChannelRateLimiter 9 0 12); done. Defined.

(** Ten at once, then one more each fifteen seconds. *)
Example refill_rate :
  (allow_all newChannelRateLimiter 9
     (replicate 10 0 ++ [14 * second; 15 * second; 16 * second; 30 * second])).1 =
  replicate 10 true ++ [false; true; false; true].
Proof. by vm_compute. Qed.

(** ** Replays *)

(** The fields of a payload that a live rule vouches for. *)
Definition vouched_by (uuid_String : uuid → string) (r : AlertRule) (p : AlertPayload) : Prop :=
  ap_RuleName p = ar_Name r ∧ ap_RuleID p = uuid_String (ar_ID r) ∧ ap_Severity p = ar_Severity r ∧
  ap_Metric p = ar_Metric r ∧ ap_Operator p = ar_Operator r ∧ ap_Threshold p = ar_Threshold r ∧
  ap_ClusterID p = match ar_ClusterID r with Some c => uuid_String c | None => "" end.

Lemma replay_send_spec o dlqID row channel config payload es err :
  replay_send o dlqID row channel config payload = (es, err) →
  (∀ i p, Send i p ∈ es → (1 ≤ i ≤ 3)%nat ∧ p = payload) ∧
  (err = None ↔ MarkNotificationDLQResolved dlqID ∈ es) ∧
  (is_Some err → ∃ n text,
     es = ((λ i, Send i payload) <$> seq 1 n) ++
          [UpdateNotificationDLQState dlqID "pending" text (Int32 (dlq_AttemptCount row + Z.of_nat n))] ∧
     (slen text ≤ 4096)%nat).
Proof.
  unfold replay_send.
  destruct (retryableSend _ _ _) as [n sendErr] eqn:Hr.
  apply retryableSend_attempts in Hr as (Hn & _). simpl in Hn.
  assert (∀ i p, Send i p ∈ (λ i, Send i payload) <$> seq 1 n → (1 ≤ i ≤ 3)%nat ∧ p = payload) as Hsend.
  { intros i p (j & Heq & Hj%elem_of_seq)%list_elem_of_fmap. injection Heq as -> ->. split; [lia|done]. }
  assert (MarkNotificationDLQResolved dlqID ∉ (λ i, Send i payload) <$> seq 1 n) as Hno
    by by intros (j & Heq & _)%list_elem_of_fmap.
  destruct sendErr as [e|]; intros H; injection H as <- <-.
  - split_and!.
    + intros i p [Hs|Hs%list_elem_of_singleton]%elem_of_app; [auto|done].
    + split; [done|]. by intros [?|?%list_elem_of_singleton]%elem_of_app.
    + intros _. eexists n, _. split; [done|]. apply truncateError_length.
  - split_and!; [|split; [set_solver|done]|by intros [? ?]].
    intros i p [Hs|[?|Hs]%elem_of_cons]%elem_of_app; [auto|done|].
    destruct (dlq_AlertID row); [by apply list_elem_of_singleton in Hs|by apply not_elem_of_nil in Hs].
Qed.

(** Replaying a stored failure. A replay sends only for an entry neither resolved nor dismissed,
    at most three times, with the time of the replay and, while the rule exists, the rule's own
    fields rather than the stored ones. The entry is resolved exactly when the replay succeeds; a
    replay that fails either did nothing or ends by putting the entry back to pending, with the
    attempts added up and an error text of at most 4096 bytes. *)
Theorem ReplayDLQ_spec uuid_String o queries dlqID row unmarshal GetAlertRule es err :
  ReplayDLQ uuid_String o queries dlqID (Ok row) unmarshal GetAlertRule = (es, err) →
  (∀ i p, Send i p ∈ es →
     dlq_State row ≠ "resolved" ∧ dlq_State row ≠ "dismissed" ∧ (1 ≤ i ≤ 3)%nat ∧
     ap_FiredAt p = o_now_string o ∧
     ∀ id r, dlq_RuleID row = Some id → GetAlertRule id = Ok r → vouched_by uuid_String r p) ∧
  (err = None ↔ MarkNotificationDLQResolved dlqID ∈ es) ∧
  (is_Some err → es = [] ∨ ∃ n payload text,
     es = ((λ i, Send i payload) <$> seq 1 n) ++
          [UpdateNotificationDLQState dlqID "pending" text (Int32 (dlq_AttemptCount row + Z.of_nat n))] ∧
     (slen text ≤ 4096)%nat).
Proof.
  unfold ReplayDLQ. intros H.
  assert (∀ e : go_error, ([], Some e) = (es, err) → es = [] ∧ is_Some err) as Hnone
    by by intros e [= <- <-]; eauto.
  assert (es = [] ∧ is_Some err ∨
    ∃ channel config stored, bool_decide (dlq_State row = "resolved" ∨ dlq_State row = "dismissed")%string = false ∧
      replay_send o dlqID row channel config (with_fired_at (o_now_string o) (trusted_fields uuid_String
        (match dlq_RuleID row with
         | Some id => match GetAlertRule id with Ok r => Some r | Err _ => None end
         | None => None end) stored)) = (es, err)) as [[-> [e ->]]|(channel & config & stored & Hst & Hs)].
  { repeat (case_match; try by left; eapply Hnone); right; eauto 10. }
  { split_and!; [by intros ?? ?%not_elem_of_nil| |by left]. split; [done|by intros ?%not_elem_of_nil]. }
  clear H Hnone. apply bool_decide_eq_false in Hst. set (payload := with_fired_at _ _) in Hs.
  destruct (replay_send_spec _ _ _ _ _ _ _ _ Hs) as (Hsend & Hok & Herr). split_and!; [|done|].
  - intros i p [Hi ->]%Hsend. split_and!; [tauto|tauto|lia|lia|done|].
    intros id r Hid Hr. unfold payload. rewrite Hid, Hr. done.
  - intros He. right. destruct (Herr He) as (n & text & ? & ?). by exists n, payload, text.
Qed.

Definition example_dlq : NotificationDlq := {|
  dlq_ChannelID := Some 9; dlq_ChannelType := "slack"; dlq_ChannelName := "ops"; dlq_AlertID := Some 1;
  dlq_RuleID := Some 7; dlq_ClusterID := Some 1; dlq_Payload := Some empty_payload;
  dlq_LastError := "status 503"; dlq_AttemptCount := 3; dlq_State := "pending";
  dlq_FailureKind := "send_failed" |}.

Lemma ReplayDLQ_spec_witness :
  let es := (ReplayDLQ (λ _, "") (example_outside (λ _, None) (λ _, true)) true 5 (Ok example_dlq)
               (λ p, Ok (default empty_payload p)) (λ _, Ok chained_rule)).1 in
  MarkNotificationDLQResolved 5 ∈ es.
Proof.
  apply (ReplayDLQ_spec (λ _, "") (example_outside (λ _, None) (λ _, true)) true 5 example_dlq
    (λ p, Ok (default empty_payload p)) (λ _, Ok chained_rule) _ None); reflexivity.
Defined.

(** ** A send cut short *)

(** The row of a failed send is inserted on the context of the send. When that
    context has ended, on shutdown or after its sixty seconds, a database that
    refuses queries on an ended context refuses the row: the notification is
    neither sent nor recorded. *)
Theorem cancelled_send_leaves_no_row o channel rule alertID payload config e c :
  insert_row o true = false →
  dispatcher_Send o (nc_ChannelType channel) config payload 1 = Some e → ctx_cancelled o 1 = Some c →
  sendWithRetry o channel rule alertID payload config = [Send 1 payload].
Proof.
  intros Hins Hsend Hc. unfold sendWithRetry, retryableSend. rewrite Hsend. simpl. rewrite Hc. simpl.
  rewrite Hc, bool_decide_true by by eexists. unfold writeDLQ. by rewrite Hins.
Qed.
