(* ===== verification/AlertUps.v ===== *)
(** * Alert rules on UPSes

    Models [internal/notifications/alert_ups.go] and the reading helpers of
    [internal/nut/reading.go]: which UPSes a rule judges, what a stored reading
    says now, the value of a metric over them, and the verdict, which holds
    (neither firing nor resolving) where a UPS that cannot be read, or one under
    maintenance, could tip it. The number parser is a parameter; a row's
    variables are the map the JSON column decodes to. *)

From S2P Require Import Prelude GoFloat GoStrings ProxmoxApi NutProtocol AlertRules AlertEngine.

Local Open Scope Z_scope.

(** ** Readings (nut/reading.go) *)

Section reading.
(** [strconv.ParseFloat(s, 64)], without its error value. *)
Context (ParseFloat : string → option float64).

Fixpoint Number (vars : gmap string string) (keys : list string) : option float64 :=
  match keys with
  | [] => None
  | k :: keys =>
      match vars !! k with
      | None => Number vars keys
      | Some v =>
          match ParseFloat (TrimSpace v) with
          | Some f => if negb (IsNaN f) && negb (IsInf f) then Some f else Number vars keys
          | None => Number vars keys
          end
      end
  end.

Definition StaleAfter (pollInterval : Z) : Z := Z.max (int64 (3 * pollInterval)) (2 * minute).

(** A reading time that is not set is Go's zero time. *)
Definition ReadingCurrent (serverEnabled : bool) (reachability : string) (readAt : option Z)
    (pollInterval now : Z) : bool :=
  serverEnabled && bool_decide (reachability = "ok") &&
  match readAt with Some t => Sub now t <=? StaleAfter pollInterval | None => false end.

(** [%02d] of a value below a hundred. *)
Definition two_digits (n : Z) : string := if n <? 10 then "0" +:+ Itoa n else Itoa n.

Definition FormatRuntime (sec : float64) : string :=
  let s := int64_of_f (fmax f0 sec) in
  if 3600 <=? s then Itoa (Z.quot s 3600) +:+ "h " +:+ two_digits (Z.quot (Z.rem s 3600) 60) +:+ "m"
  else if 60 <=? s then Itoa (Z.quot s 60) +:+ "m " +:+ two_digits (Z.rem s 60) +:+ "s"
  else Itoa s +:+ "s".

(** The middle dot of the labels, in UTF-8, between spaces. *)
Definition dot : string := " " +:+ of_bytes (Ascii.ascii_of_nat <$> [194; 183]%nat) +:+ " ".

Definition Remaining (charge runtime : option float64) : string :=
  Join dot (match charge with Some c => [fmt_f 0 c +:+ "%"] | None => [] end ++
            match runtime with Some r => [FormatRuntime r +:+ " left"] | None => [] end).

(** ** Rows and readings *)

Record UpsDevice := {
  ud_ID : uuid;
  ud_UpsName : string;
  ud_Status : string;
  ud_Reachability : string;
  ud_Vars : gmap string string;
  ud_LastReadingAt : option Z;
  ud_ServerName : string;
  ud_ServerEnabled : bool;
}.

Record upsAlertReading := {
  ur_name : string;
  ur_current : bool;
  ur_onBattery : bool;
  ur_replace : bool;
  ur_charge : option float64;
  ur_runtime : option float64;
  ur_load : option float64;
}.

Definition upsAlertReadings (rows : list UpsDevice) (pollInterval now : Z) : list upsAlertReading :=
  omap (λ r,
    if negb (ud_ServerEnabled r) then None
    else
      let status := ParseStatus (ud_Status r) in
      Some {|
        ur_name := ud_UpsName r +:+ "@" +:+ ud_ServerName r;
        ur_current := ReadingCurrent (ud_ServerEnabled r) (ud_Reachability r) (ud_LastReadingAt r)
                        pollInterval now;
        ur_onBattery := OnBattery status;
        ur_replace := Has status "RB";
        ur_charge := Number (ud_Vars r) ["battery.charge"];
        ur_runtime := Number (ud_Vars r) ["battery.runtime"];
        ur_load := Number (ud_Vars r) ["ups.load"] |}) rows.
End reading.

(** ** Aggregates *)

Record upsRuleOutcome := {
  uo_value : float64;
  uo_label : string;
  uo_judged : bool;
  uo_met : bool;
  uo_hold : bool;
}.

Definition no_outcome : upsRuleOutcome :=
  {| uo_value := f0; uo_label := ""; uo_judged := false; uo_met := false; uo_hold := false |}.
Definition held : upsRuleOutcome :=
  {| uo_value := f0; uo_label := ""; uo_judged := false; uo_met := false; uo_hold := true |}.
Definition judged_value (value : float64) (label : string) : upsRuleOutcome :=
  {| uo_value := value; uo_label := label; uo_judged := true; uo_met := false; uo_hold := false |}.
Definition unjudged (label : string) : upsRuleOutcome :=
  {| uo_value := f0; uo_label := label; uo_judged := false; uo_met := false; uo_hold := false |}.
Definition with_met (met : bool) (o : upsRuleOutcome) : upsRuleOutcome :=
  {| uo_value := uo_value o; uo_label := uo_label o; uo_judged := uo_judged o; uo_met := met;
     uo_hold := uo_hold o |}.
Definition with_label (label : string) (o : upsRuleOutcome) : upsRuleOutcome :=
  {| uo_value := uo_value o; uo_label := label; uo_judged := uo_judged o; uo_met := uo_met o;
     uo_hold := uo_hold o |}.

Definition MetricUPSOnBattery : string := "ups_on_battery".
Definition MetricUPSBatteryCharge : string := "ups_battery_charge".
Definition MetricUPSRuntime : string := "ups_runtime".
Definition MetricUPSLoad : string := "ups_load".
Definition MetricUPSUnreachable : string := "ups_unreachable".
Definition MetricUPSReplaceBattery : string := "ups_replace_battery".

Definition count_str (n : nat) : string := Itoa (Z.of_nat n).

Definition upsNames (ups : list upsAlertReading) (match_ : upsAlertReading → bool) : list string :=
  ur_name <$> List.filter match_ ups.

Definition upsCount (names : list string) (total : nat) (one several none : string) : upsRuleOutcome :=
  let shown := take 3 names in
  judged_value (f_of_Z (Z.of_nat (length names)))
    match names with
    | [] => none +:+ " (" +:+ count_str total +:+ " watched)"
    | [n] => n +:+ " " +:+ one
    | _ =>
        count_str (length names) +:+ " of " +:+ count_str total +:+ " UPS " +:+ several +:+ ": " +:+
        Join ", " shown +:+
        (if Nat.ltb (length shown) (length names)
         then " and " +:+ count_str (length names - length shown) +:+ " more" else "")
    end.

(** The UPS with the lowest (or highest) reading among those reporting one, its
    reading, and how many do. *)
Definition extreme_step (read : upsAlertReading → option float64) (highest : bool)
    (st : option (upsAlertReading * float64) * nat) (u : upsAlertReading) :
    option (upsAlertReading * float64) * nat :=
  match read u with
  | None => st
  | Some v =>
      (match st.1 with
       | None => Some (u, v)
       | Some (_, w) =>
           if (highest && fgt v w) || (negb highest && flt v w) then Some (u, v) else st.1
       end, S st.2)
  end.

Definition upsExtreme (ups : list upsAlertReading) (read : upsAlertReading → option float64)
    (highest : bool) : option (upsAlertReading * float64) * nat :=
  foldl (extreme_step read highest) (None, O) ups.

Definition lessOrNil (a b : option float64) : bool :=
  match a, b with
  | None, _ => false
  | Some _, None => true
  | Some a, Some b => flt a b
  end.

(** The UPS on battery with the least runtime left. *)
Definition worst_on_battery (ups : list upsAlertReading) : option upsAlertReading :=
  foldl (λ worst u,
    if ur_onBattery u &&
       match worst with None => true | Some w => lessOrNil (ur_runtime u) (ur_runtime w) end
    then Some u else worst) None ups.

Definition on_battery_label (ups : list upsAlertReading) (names : list string) (total : nat) : string :=
  match worst_on_battery ups with
  | None => "No UPS is on battery (" +:+ count_str total +:+ " watched)"
  | Some w =>
      let left := Remaining (ur_charge w) (ur_runtime w) in
      ur_name w +:+ " is on battery" +:+ (if bool_decide (left = "") then "" else dot +:+ left) +:+
      (if Nat.ltb 1 (length names)
       then " (" +:+ count_str (length names) +:+ " of " +:+ count_str total +:+ " UPS on battery)" else "")
  end.

Definition upsAggregate (metric : string) (ups : list upsAlertReading) (total : nat) : upsRuleOutcome :=
  if bool_decide (metric = MetricUPSOnBattery) then
    let names := upsNames ups ur_onBattery in
    judged_value (f_of_Z (Z.of_nat (length names))) (on_battery_label ups names total)
  else if bool_decide (metric = MetricUPSReplaceBattery) then
    upsCount (upsNames ups ur_replace) total "reports its battery needs replacing"
      "report a battery that needs replacing" "No UPS reports a battery to replace"
  else if bool_decide (metric = MetricUPSBatteryCharge) then
    match upsExtreme ups ur_charge false with
    | (None, _) => unjudged "No UPS reports its battery charge"
    | (Some (w, v), n) =>
        judged_value v (ur_name w +:+ dot +:+ fmt_f 0 v +:+ "% charge (lowest of " +:+ count_str n +:+ ")")
    end
  else if bool_decide (metric = MetricUPSRuntime) then
    match upsExtreme ups ur_runtime false with
    | (None, _) => unjudged "No UPS reports its runtime"
    | (Some (w, v), n) =>
        judged_value (fdiv v (f_of_Z 60))
          (ur_name w +:+ dot +:+ FormatRuntime v +:+ " runtime (shortest of " +:+ count_str n +:+ ")")
    end
  else if bool_decide (metric = MetricUPSLoad) then
    match upsExtreme ups ur_load true with
    | (None, _) => unjudged "No UPS reports its load"
    | (Some (w, v), n) =>
        judged_value v (ur_name w +:+ dot +:+ fmt_f 0 v +:+ "% load (highest of " +:+ count_str n +:+ ")")
    end
  else no_outcome.

(** alert_veeam.go *)
Definition exceedsThreshold (operator : string) : bool :=
  bool_decide (operator = ">" ∨ operator = ">=")%string.

Definition upsSubsetBounds (metric operator : string) : bool :=
  if bool_decide (metric = MetricUPSBatteryCharge ∨ metric = MetricUPSRuntime)
  then bool_decide (operator = "<" ∨ operator = "<=")%string
  else exceedsThreshold operator.

(** Whether an aggregate meets the condition. *)
Definition meets (operator : string) (threshold : float64) (o : upsRuleOutcome) : bool :=
  uo_judged o && compareValue (uo_value o) operator threshold.

Definition upsRuleValue (metric operator : string) (threshold : float64) (ups : list upsAlertReading) :
    upsRuleOutcome :=
  if bool_decide (metric = MetricUPSUnreachable) then
    let names := upsNames ups (λ u, negb (ur_current u)) in
    let out := upsCount names (length ups) "cannot be read" "cannot be read" "Every UPS can be read" in
    with_met (compareValue (uo_value out) operator threshold) out
  else
    let current := List.filter ur_current ups in
    let out := upsAggregate metric current (length ups) in
    let out := with_met (meets operator threshold out) out in
    let unread := (length ups - length current)%nat in
    if Nat.eqb unread 0 then out
    else if negb (uo_met out) || negb (upsSubsetBounds metric operator) then
      if meets operator threshold (upsAggregate metric ups (length ups)) then held
      else with_label (uo_label out +:+ dot +:+ count_str unread +:+ " UPS not read") (with_met false out)
    else with_label (uo_label out +:+ dot +:+ count_str unread +:+ " UPS not read") out.

(** ** Which UPSes a rule judges *)

Definition upsInMaintenance (upsID : uuid) (windows : list MaintenanceWindow) : bool :=
  existsb (λ w, match mw_UpsID w with Some id => id =? upsID | None => false end) windows.

Definition upsRuleRows (rule : AlertRule) (rows : list UpsDevice) (windows : list MaintenanceWindow)
    (rolling : list uuid) : list UpsDevice * bool :=
  let of_ups := bool_decide (ar_ScopeType rule = "ups") in
  let unreachable := bool_decide (ar_Metric rule = MetricUPSUnreachable) in
  if match ar_UpsID rule with
     | Some own => of_ups && (upsInMaintenance own windows || unreachable && contains rolling own)
     | None => false
     end
  then ([], true)
  else
    (List.filter (λ r, negb
       (of_ups && match ar_UpsID rule with Some own => negb (ud_ID r =? own) | None => true end ||
        negb of_ups && upsInMaintenance (ud_ID r) windows ||
        unreachable && contains rolling (ud_ID r))) rows, false).

Section verdict.
Context (ParseFloat : string → option float64).

Definition upsRuleVerdict (rule : AlertRule) (rows : list UpsDevice) (windows : list MaintenanceWindow)
    (rolling : list uuid) (pollInterval now : Z) : upsRuleOutcome :=
  let '(judged, holds) := upsRuleRows rule rows windows rolling in
  if holds then held
  else
    let value rs := upsRuleValue (ar_Metric rule) (ar_Operator rule) (ar_Threshold rule)
                      (upsAlertReadings ParseFloat rs pollInterval now) in
    let out := value judged in
    if negb (uo_hold out) && negb (uo_met out) && negb (bool_decide (ar_ScopeType rule = "ups")) &&
       Nat.ltb (length judged) (length rows) && uo_met (value rows)
    then held
    else out.

(** [rows] and [rolling] are the answers of the two queries. *)
Definition evaluateUPSRule (unmarshal_chain : string → list escalationStep) (tk : World → Tick)
    (rule : AlertRule) (windows : list MaintenanceWindow) (rows : result go_error (list UpsDevice))
    (rolling : result go_error (list uuid)) (pollInterval now : Z) : St unit :=
  if negb (bool_decide (ar_ScopeType rule = "global" ∨ ar_ScopeType rule = "ups")%string)
  then fail (errorf (ar_Metric rule +:+ " does not support scope_type " +:+ Quote (ar_ScopeType rule)))
  else
    match rows with
    | Err e => fail (wrap "ups devices" e)
    | Ok rows =>
        let judge_with rolling :=
          let out := upsRuleVerdict rule rows windows rolling pollInterval now in
          if uo_hold out then ret tt
          else handle unmarshal_chain tk rule (uo_met out) (uo_value out) (uo_label out) None None in
        if bool_decide (ar_Metric rule = MetricUPSUnreachable) then
          match rolling with
          | Err e => fail (wrap "ups on rolling update hosts" e)
          | Ok rolling => judge_with rolling
          end
        else judge_with []
    end.
End verdict.

(** ** Lemmas *)

Lemma Number_finite ParseFloat vars keys f : Number ParseFloat vars keys = Some f → IsNaN f = false.
Proof.
  induction keys as [|k keys IH]; simpl; [done|].
  destruct (vars !! k) as [v|]; [|done]. destruct (ParseFloat _) as [g|]; [|done].
  destruct (negb (IsNaN g) && _) eqn:E; [|done]. intros [= <-]. by to_prop.
Qed.

Lemma flt_le_trans x y z : flt x y = true → fle y z = true → flt x z = true.
Proof.
  intros H1 H2. destruct (flt_nan _ _ H1), (fle_nan _ _ H2).
  apply flt_rank in H1; [|done..]. apply fle_rank in H2; [|done..].
  apply flt_rank; [done..|]. unfold lex_lt in *. lia.
Qed.

(** Counts of a plausible size are in order as floats. *)
Definition countLimit : nat := 1000.

Lemma counts_ordered :
  forallb (λ n, fle (f_of_Z (Z.of_nat n)) (f_of_Z (Z.of_nat (S n)))) (seq 0 countLimit) = true.
Proof. by vm_compute. Qed.

Lemma count_mono n m :
  (n ≤ m ≤ countLimit)%nat → fle (f_of_Z (Z.of_nat n)) (f_of_Z (Z.of_nat m)) = true.
Proof.
  intros [Hnm Hm]. induction Hnm as [|m Hnm IH]; [apply fle_refl, f_of_Z_not_nan|].
  eapply fle_trans; [apply IH; lia|]. pose proof counts_ordered as Hc.
  rewrite forallb_elem_of in Hc. apply (Hc m). apply elem_of_seq. lia.
Qed.

(** The extreme reading: one that is reported and that no other beats. *)
Definition beats (highest : bool) (v w : float64) : bool :=
  (highest && fgt v w) || (negb highest && flt v w).

Lemma beats_trans highest x y z :
  beats highest x y = true → beats highest y z = true → beats highest x z = true.
Proof.
  unfold beats, fgt. destruct highest; simpl; rewrite ?orb_false_r; intros H1 H2; by eapply flt_trans.
Qed.

Lemma upsExtreme_spec ups read highest :
  match (upsExtreme ups read highest).1 with
  | None => ∀ u, u ∈ ups → read u = None
  | Some (u, v) => u ∈ ups ∧ read u = Some v ∧
      ∀ u' v', u' ∈ ups → read u' = Some v' → beats highest v' v = false
  end.
Proof.
  unfold upsExtreme. induction ups as [|x ups IH] using rev_ind; [by intros u ?%not_elem_of_nil|].
  rewrite foldl_app. cbn [foldl]. unfold extreme_step at 1.
  destruct (foldl (extreme_step read highest) (None, O) ups) as [best n]. simpl in IH.
  destruct (read x) as [v|] eqn:Hx; simpl.
  - destruct best as [[w vw]|].
    + destruct IH as (Hw & Hrw & Hbest). fold (beats highest v vw).
      destruct (beats highest v vw) eqn:Hb.
      * split_and!; [set_solver|done|]. intros u' v' [Hu| ->%list_elem_of_singleton]%elem_of_app Hv'.
        -- destruct (beats highest v' v) eqn:Hb'; [|done].
           specialize (Hbest _ _ Hu Hv'). by rewrite (beats_trans _ _ _ _ Hb' Hb) in Hbest.
        -- rewrite Hx in Hv'. injection Hv' as <-. unfold beats, fgt. rewrite !flt_irrefl. by destruct highest.
      * split_and!; [set_solver|done|]. intros u' v' [Hu| ->%list_elem_of_singleton]%elem_of_app Hv'; [by eapply Hbest|].
        rewrite Hx in Hv'. by injection Hv' as <-.
    + split_and!; [set_solver|done|]. intros u' v' [Hu| ->%list_elem_of_singleton]%elem_of_app Hv'.
      * by rewrite (IH u' Hu) in Hv'.
      * rewrite Hx in Hv'. injection Hv' as <-. unfold beats, fgt. rewrite !flt_irrefl. by destruct highest.
  - destruct best as [[w vw]|].
    + destruct IH as (Hw & Hrw & Hbest). split_and!; [set_solver|done|].
      intros u' v' [Hu| ->%list_elem_of_singleton]%elem_of_app Hv'; [by eapply Hbest|congruence].
    + intros u [Hu| ->%list_elem_of_singleton]%elem_of_app; auto.
Qed.

(** The same UPSes, of which those that cannot be read may read anything. *)
Definition agree (ups ups' : list upsAlertReading) : Prop :=
  Forall2 (λ u u', ur_current u = true → u' = u) ups ups'.

Lemma agree_elem ups ups' u : agree ups ups' → u ∈ List.filter ur_current ups → u ∈ ups'.
Proof.
  intros Ha [Hu Hc]%elem_of_bfilter. induction Ha as [|x y l k Hxy _ IH]; [by apply not_elem_of_nil in Hu|].
  apply elem_of_cons in Hu as [->|Hu]; [rewrite Hxy by done; left|right; auto].
Qed.

Lemma agree_count p ups ups' :
  agree ups ups' → (length (List.filter p (List.filter ur_current ups)) ≤ length (List.filter p ups'))%nat.
Proof.
  induction 1 as [|x y l k Hxy _ IH]; [done|]. simpl. destruct (ur_current x) eqn:Hc; simpl.
  - rewrite Hxy by done. destruct (p x); simpl; lia.
  - destruct (p y); simpl; lia.
Qed.

Lemma upsNames_length ups p : length (upsNames ups p) = length (List.filter p ups).
Proof. unfold upsNames. by rewrite length_fmap. Qed.

(** A value at least as high keeps an exceeding condition met, one at least as
    low a condition of falling short. *)
Lemma compareValue_up v w operator threshold :
  exceedsThreshold operator = true → fle v w = true →
  compareValue v operator threshold = true → compareValue w operator threshold = true.
Proof.
  intros Ho%bool_decide_eq_true Hle. destruct Ho as [->| ->]; unfold compareValue; simpl; unfold fgt, fge.
  - intros H. by eapply flt_le_trans.
  - intros H. by eapply fle_trans.
Qed.

Lemma compareValue_down v w operator threshold :
  (operator = "<" ∨ operator = "<=")%string → fle w v = true →
  compareValue v operator threshold = true → compareValue w operator threshold = true.
Proof.
  intros [->| ->] Hle; unfold compareValue; simpl.
  - intros H. by eapply fle_lt_trans.
  - intros H. by eapply fle_trans.
Qed.

(** The metrics whose value over more UPSes is bounded by that over fewer. *)
Definition bounded_metric (metric : string) : Prop :=
  metric ∈ [MetricUPSOnBattery; MetricUPSReplaceBattery; MetricUPSBatteryCharge; MetricUPSLoad].

Definition readings_finite (ups : list upsAlertReading) : Prop :=
  ∀ u f, u ∈ ups → ur_charge u = Some f ∨ ur_load u = Some f → IsNaN f = false.

Lemma count_stands p ups ups' operator threshold :
  agree ups ups' → (length ups' ≤ countLimit)%nat → exceedsThreshold operator = true →
  compareValue (f_of_Z (Z.of_nat (length (upsNames (List.filter ur_current ups) p)))) operator threshold = true →
  compareValue (f_of_Z (Z.of_nat (length (upsNames ups' p)))) operator threshold = true.
Proof.
  intros Ha Hlen Ho. apply compareValue_up; [done|]. rewrite !upsNames_length. apply count_mono.
  split; [by apply agree_count|]. etransitivity; [|exact Hlen]. apply List.filter_length_le.
Qed.

(** The extreme of more UPSes is at least as extreme. *)
Lemma extreme_stands read highest ups ups' u v n :
  agree ups ups' → (∀ x f, x ∈ ups' → read x = Some f → IsNaN f = false) →
  upsExtreme (List.filter ur_current ups) read highest = (Some (u, v), n) →
  ∃ u' v' n', upsExtreme ups' read highest = (Some (u', v'), n') ∧
    (if highest then fle v v' else fle v' v) = true.
Proof.
  intros Ha Hn He. pose proof (upsExtreme_spec (List.filter ur_current ups) read highest) as H1.
  rewrite He in H1. simpl in H1. destruct H1 as (Hu & Hr & _). apply (agree_elem _ _ _ Ha) in Hu.
  pose proof (upsExtreme_spec ups' read highest) as H2.
  destruct (upsExtreme ups' read highest) as [[[u' v']|] n']; simpl in H2.
  - exists u', v', n'. split; [done|]. destruct H2 as (Hu' & Hr' & Hbest). specialize (Hbest _ _ Hu Hr).
    unfold beats, fgt in Hbest. destruct highest; simpl in Hbest; rewrite ?orb_false_r in Hbest;
      apply flt_false_le; eauto.
  - by rewrite (H2 u Hu) in Hr.
Qed.

Lemma aggregate_stands metric operator threshold ups ups' t t' :
  bounded_metric metric → upsSubsetBounds metric operator = true →
  agree ups ups' → (length ups' ≤ countLimit)%nat → readings_finite ups' →
  meets operator threshold (upsAggregate metric (List.filter ur_current ups) t) = true →
  meets operator threshold (upsAggregate metric ups' t') = true.
Proof.
  intros Hm Hb Ha Hlen Hf. unfold bounded_metric in Hm. rewrite !elem_of_cons, elem_of_nil in Hm.
  unfold meets. intros Hmet. apply andb_true_iff in Hmet as [Hj Hmet].
  destruct Hm as [->|[->|[->|[->|[]]]]]; unfold upsAggregate in *; simpl in *.
  - by apply (count_stands ur_onBattery ups).
  - by apply (count_stands ur_replace ups).
  - apply bool_decide_eq_true in Hb.
    destruct (upsExtreme (List.filter ur_current ups) ur_charge false) as [[[u v]|] n] eqn:He; [|done].
    destruct (extreme_stands ur_charge false ups ups' u v n Ha) as (u' & v' & n' & -> & Hle); [|done|].
    { intros x f Hx Hr. eapply Hf; eauto. }
    by apply (compareValue_down v).
  - destruct (upsExtreme (List.filter ur_current ups) ur_load true) as [[[u v]|] n] eqn:He; [|done].
    destruct (extreme_stands ur_load true ups ups' u v n Ha) as (u' & v' & n' & -> & Hle); [|done|].
    { intros x f Hx Hr. eapply Hf; eauto. }
    by apply (compareValue_up v).
Qed.

Lemma filter_length_all {A} (p : A → bool) l : (length l - length (List.filter p l) = 0)%nat → List.filter p l = l.
Proof.
  induction l as [|x l IH]; simpl; [done|]. pose proof (List.filter_length_le p l).
  destruct (p x); simpl; intros Hl; [f_equal; apply IH; lia|lia].
Qed.

Lemma agree_all ups ups' : List.filter ur_current ups = ups → agree ups ups' → ups' = ups.
Proof.
  intros Hall. assert (∀ u, u ∈ ups → ur_current u = true) as Hc.
  { intros u Hu. rewrite <-Hall in Hu. by apply elem_of_bfilter in Hu as [_ ?]. }
  clear Hall. induction 1 as [|x y l k Hxy _ IH]; [done|].
  f_equal; [apply Hxy, Hc; left|apply IH; intros u Hu; apply Hc; by right].
Qed.

(** ** Properties *)

(** A UPS rule never guesses. Let [ups] be the last readings, some of which can no longer be
    trusted. A definite [not met] means the last readings, taken together, do not meet the condition
    either, so an outage is not reported over because its UPS went dark; a hold means they do. And
    for the count, charge and load metrics a rule that fires would fire whatever the UPSes that
    cannot be read report. *)
Theorem upsRuleValue_sound metric operator threshold ups :
  metric ≠ MetricUPSUnreachable →
  let out := upsRuleValue metric operator threshold ups in
  let last := meets operator threshold (upsAggregate metric ups (length ups)) in
  (uo_met out = false → uo_hold out = false → last = false) ∧
  (uo_hold out = true → last = true ∧ uo_met out = false) ∧
  (uo_met out = true → bounded_metric metric →
   ∀ ups', agree ups ups' → (length ups' ≤ countLimit)%nat → readings_finite ups' →
     meets operator threshold (upsAggregate metric ups' (length ups')) = true).
Proof.
  intros Hm. cbv zeta. unfold upsRuleValue. rewrite bool_decide_false by done.
  assert (∀ us t, uo_hold (upsAggregate metric us t) = false) as Hnh.
  { intros us t. unfold upsAggregate, upsCount. repeat case_match; done. }
  destruct (Nat.eqb_spec (length ups - length (List.filter ur_current ups)) 0) as [H0|Hne].
  - apply filter_length_all in H0. rewrite H0. simpl. rewrite Hnh. split_and!; [done|done|].
    intros Hmet _ ups' Ha _ _. by rewrite (agree_all ups ups' H0 Ha).
  - simpl. destruct (meets operator threshold (upsAggregate metric (List.filter ur_current ups) _)) eqn:Hc;
      destruct (upsSubsetBounds metric operator) eqn:Hb; simpl.
    2,3,4: destruct (meets operator threshold (upsAggregate metric ups _)) eqn:Ha; simpl; rewrite ?Hnh; done.
    rewrite Hnh. split_and!; [done|done|]. intros _ Hbm ups' Ha Hlen Hf.
    by eapply aggregate_stands.
Qed.

Definition example_ups (name : string) (current on_battery : bool) : upsAlertReading := {|
  ur_name := name; ur_current := current; ur_onBattery := on_battery; ur_replace := false;
  ur_charge := Some f100; ur_runtime := None; ur_load := None |}.

Lemma upsRuleValue_sound_witness :
  meets ">" f0 (upsAggregate MetricUPSOnBattery [example_ups "a" true true; example_ups "b" true false] 2) = true.
Proof.
  apply (upsRuleValue_sound MetricUPSOnBattery ">" f0 [example_ups "a" true true; example_ups "b" false true]).
  - done.
  - by vm_compute.
  - unfold bounded_metric. left.
  - by repeat constructor.
  - unfold countLimit. simpl. lia.
  - intros u f Hu. rewrite !elem_of_cons, elem_of_nil in Hu.
    destruct Hu as [->|[->|[]]]; simpl; intros [[= <-]|[=]]; done.
Defined.

Lemma upsRuleRows_all rule rows windows rolling judged :
  upsRuleRows rule rows windows rolling = (judged, false) →
  (length rows ≤ length judged)%nat → judged = rows.
Proof.
  unfold upsRuleRows. destruct (match ar_UpsID rule with Some _ => _ | None => _ end); [done|].
  intros [= <-] Hlen. apply filter_length_all. lia.
Qed.

(** A maintenance window does not end an outage. When the UPSes of a global rule, taken without
    regard to windows and rolling updates, meet its condition, the verdict fires or holds, so the
    alert is not resolved; and a rule of scope ups whose UPS is under a window, or on a node a
    rolling update is working on for the reachability metric, holds. A verdict that holds changes no
    alert and dispatches nothing. *)
Theorem upsRuleVerdict_window ParseFloat unmarshal_chain tk rule rows windows rolling pollInterval now w :
  let verdict rolling := upsRuleVerdict ParseFloat rule rows windows rolling pollInterval now in
  (ar_ScopeType rule ≠ "ups" →
   uo_met (upsRuleValue (ar_Metric rule) (ar_Operator rule) (ar_Threshold rule)
             (upsAlertReadings ParseFloat rows pollInterval now)) = true →
   uo_met (verdict rolling) = true ∨ uo_hold (verdict rolling) = true) ∧
  (∀ own, ar_ScopeType rule = "ups" → ar_UpsID rule = Some own →
   upsInMaintenance own windows = true ∨ ar_Metric rule = MetricUPSUnreachable ∧ own ∈ rolling →
   uo_hold (verdict rolling) = true) ∧
  (ar_ScopeType rule = "global" ∨ ar_ScopeType rule = "ups" →
   uo_hold (verdict (if bool_decide (ar_Metric rule = MetricUPSUnreachable) then rolling else [])) = true →
   evaluateUPSRule ParseFloat unmarshal_chain tk rule windows (Ok rows) (Ok rolling) pollInterval now w = (w, Ok tt)).
Proof.
  cbv zeta. split_and!.
  - intros Hs Hall. unfold upsRuleVerdict.
    destruct (upsRuleRows rule rows windows rolling) as [judged []] eqn:Hr; [by right|].
    rewrite (bool_decide_false _ Hs). simpl. rewrite Hall, !andb_true_r.
    destruct (uo_hold (upsRuleValue _ _ _ (upsAlertReadings ParseFloat judged pollInterval now))) eqn:Hh; simpl;
      [by right|].
    destruct (uo_met (upsRuleValue _ _ _ (upsAlertReadings ParseFloat judged pollInterval now))) eqn:Hm; simpl;
      [by left|].
    destruct (Nat.ltb_spec (length judged) (length rows)) as [_|Hle]; [by right|].
    apply (upsRuleRows_all _ _ _ _ _ Hr) in Hle. subst judged. congruence.
  - intros own Hs Ho Hc. unfold upsRuleVerdict, upsRuleRows. rewrite Ho, (bool_decide_true _ Hs). simpl.
    destruct Hc as [->|[Hm Hin]]; [done|].
    by rewrite (bool_decide_true _ Hm), (proj2 (contains_spec _ _) Hin), orb_true_r.
  - intros Hs Hh. unfold evaluateUPSRule. rewrite bool_decide_true by done. simpl.
    destruct (bool_decide (ar_Metric rule = MetricUPSUnreachable)); by rewrite Hh.
Qed.
