(* ===== verification/AlertInventory.v ===== *)
(** * A whole evaluation cycle

    Models the inventory-backed rules of the alert engine (the snapshot rule of
    [internal/notifications/alert_engine.go], [alert_veeam.go] and
    [alert_tasks.go]), the dispatch of [evaluateRule] over every metric, and
    [Evaluate], the cycle the scheduler runs. The statistics the queries return
    are the fields of [Stats]. *)

From S2P Require Import Prelude GoFloat GoStrings ProxmoxApi AlertRules AlertEngine AlertUps.

Local Open Scope Z_scope.

(** ** The statistics *)

Record SnapshotAgeStats := {
  sa_OldestName : string; sa_OldestVmid : Z; sa_OldestAgeDays : float64; sa_OverCount : Z }.
Record VeeamRPOStats := {
  vr_ProtectedCount : Z; vr_UnrecoverableCount : Z; vr_WorstRpoHours : float64; vr_WorstVmid : Z;
  vr_OverCount : Z }.
Record GuestVeeamRPO := { gr_ProtectedCount : Z; gr_HasRestorePoint : bool; gr_RpoHours : float64 }.
Record VeeamMalwareStats := {
  vm_ScannedCount : Z; vm_WorstStatus : string; vm_WorstVmid : Z; vm_WorstSeverity : float64;
  vm_OverCount : Z }.
Record GuestVeeamMalware := { gm_Scanned : bool; gm_Status : string; gm_Severity : float64 }.
Record VeeamRepositoryStats := {
  vp_MeasuredCount : Z; vp_FullestName : string; vp_FullestPercent : float64; vp_OverCount : Z }.
Record VeeamJobStats := {
  vj_JobCount : Z; vj_FailedCount : Z; vj_FailedNames : string; vj_UnnamedCount : Z }.
Record FailedTaskStats := { ft_FailedCount : Z; ft_FailedNames : string; ft_UnnamedCount : Z }.

(** A query of one row: its row, no row, or an error. *)
Record Stats := {
  GetCluster_name : uuid → result go_error string;
  GetClusterSnapshotAgeStats : uuid → result go_error (option SnapshotAgeStats);
  GetVMSnapshotAgeStats : uuid → Z → result go_error (option SnapshotAgeStats);
  GetClusterVeeamRPOStats : uuid → bool → result go_error VeeamRPOStats;
  GetGuestVeeamRPO : uuid → Z → result go_error GuestVeeamRPO;
  GetClusterVeeamMalwareStats : uuid → bool → result go_error VeeamMalwareStats;
  GetGuestVeeamMalware : uuid → Z → result go_error GuestVeeamMalware;
  GetVeeamRepositoryUsageStats : bool → result go_error VeeamRepositoryStats;
  GetClusterVeeamJobFailureStats : uuid → result go_error VeeamJobStats;
  GetClusterFailedTaskStats : uuid → string → result go_error FailedTaskStats;
  ListUpsDevices : result go_error (list UpsDevice);
  ListUpsOnRollingUpdateHosts : result go_error (list uuid);
  st_tick : World → Tick;
}.

(** ** Helpers *)

Definition inclusiveOperator (operator : string) : bool :=
  bool_decide (operator = ">=" ∨ operator = "<=" ∨ operator = "==" ∨ operator = "!=")%string.

Definition backupTaskType : string := "vzdump".

(** An em dash between spaces, in UTF-8. *)
Definition dash : string := " " +:+ of_bytes (Ascii.ascii_of_nat <$> [226; 128; 148]%nat) +:+ " ".

(** [time.Duration.String] of a whole number of seconds, which a lookback is. *)
Definition Duration_String (d : Z) : string :=
  let s := Z.quot d second in
  if 3600 <=? s then
    Itoa (Z.quot s 3600) +:+ "h" +:+ Itoa (Z.rem (Z.quot s 60) 60) +:+ "m" +:+ Itoa (Z.rem s 60) +:+ "s"
  else if 60 <=? s then Itoa (Z.quot s 60) +:+ "m" +:+ Itoa (Z.rem s 60) +:+ "s"
  else Itoa s +:+ "s".

Definition hour : Z := 60 * minute.

Definition humanizeWindow (d : Z) : string :=
  if (48 * hour <=? d) && (Z.rem d (24 * hour) =? 0) then Itoa (Z.quot d (24 * hour)) +:+ "d"
  else if (hour <=? d) && (Z.rem d hour =? 0) then Itoa (Z.quot d hour) +:+ "h"
  else if (minute <=? d) && (Z.rem d minute =? 0) then Itoa (Z.quot d minute) +:+ "m"
  else Duration_String d.

(** The names of a label, with the count of those left out. *)
Definition named (names : string) (unnamed : Z) : string :=
  if bool_decide (names = "") then ""
  else ": " +:+ names +:+ (if 0 <? unnamed then " and " +:+ Itoa unnamed +:+ " more" else "").

Definition taskFailureLabel (cluster taskType : string) (stats : FailedTaskStats) (window : Z) : string :=
  let single := ft_FailedCount stats =? 1 in
  let backup := bool_decide (taskType = backupTaskType) in
  let noun := if backup then (if single then "backup" else "backups")
              else if single then "Proxmox task" else "Proxmox tasks" in
  let verb := if single then "was cancelled" else "were cancelled" in
  cluster +:+ dash +:+ Itoa (ft_FailedCount stats) +:+ " " +:+ noun +:+ " failed or " +:+ verb +:+
  " in the last " +:+ humanizeWindow window +:+ named (ft_FailedNames stats) (ft_UnnamedCount stats).

Section inventory.
Context (ParseFloat : string → option float64) (unmarshal_chain : string → list escalationStep)
  (uuid_String : uuid → string).

Abbreviation handle := (handle unmarshal_chain).

Definition clusterLabel (st : Stats) (clusterID : uuid) : string :=
  name_or_id uuid_String (GetCluster_name st clusterID) clusterID.

Definition no_cluster (what : string) (rule : AlertRule) : St unit :=
  fail (errorf (what +:+ " rule " +:+ uuid_String (ar_ID rule) +:+ " has no cluster_id")).
Definition no_vmid (what : string) (rule : AlertRule) : St unit :=
  fail (errorf (what +:+ " vm rule " +:+ uuid_String (ar_ID rule) +:+ " has no vmid")).
Definition no_scope (what : string) (rule : AlertRule) : St unit :=
  fail (errorf (what +:+ " does not support scope_type " +:+ Quote (ar_ScopeType rule))).

Definition guest_label (vm : VmRow) : string := vm_Name vm +:+ " (vmid " +:+ Itoa (vm_Vmid vm) +:+ ")".

Definition evaluateSnapshotAgeRule (rd : RuleReads) (st : Stats) (rule : AlertRule)
    (windows : list MaintenanceWindow) : St unit :=
  match ar_ClusterID rule with
  | None => no_cluster "snapshot" rule
  | Some clusterID =>
    if isInMaintenanceWindow (ar_ClusterID rule) None windows then ret tt
    else if bool_decide (ar_ScopeType rule = "cluster") then
      let label := clusterLabel st clusterID in
      match GetClusterSnapshotAgeStats st clusterID with
      | Err e => fail (wrap "cluster snapshot age stats" e)
      | Ok None => handle (st_tick st) rule false f0 label None None
      | Ok (Some s) =>
          handle (st_tick st) rule (compareValue (sa_OldestAgeDays s) (ar_Operator rule) (ar_Threshold rule))
            (sa_OldestAgeDays s)
            (label +:+ dash +:+ Itoa (sa_OverCount s) +:+ " snapshot(s) over threshold, oldest " +:+
             Quote (sa_OldestName s) +:+ " on guest " +:+ Itoa (sa_OldestVmid s)) None None
      end
    else if bool_decide (ar_ScopeType rule = "vm") then
      match ar_VmVmid rule with
      | None => no_vmid "snapshot" rule
      | Some vmid =>
          match GetVMByClusterAndVmid rd clusterID vmid with
          | Err _ => ret tt
          | Ok vm =>
              match GetVMSnapshotAgeStats st clusterID vmid with
              | Err e => fail (wrap "vm snapshot age stats" e)
              | Ok None => handle (st_tick st) rule false f0 (vm_Name vm) None (Some (vm_ID vm))
              | Ok (Some s) =>
                  handle (st_tick st) rule
                    (compareValue (sa_OldestAgeDays s) (ar_Operator rule) (ar_Threshold rule))
                    (sa_OldestAgeDays s)
                    (guest_label vm +:+ dash +:+ "oldest snapshot " +:+ Quote (sa_OldestName s))
                    None (Some (vm_ID vm))
              end
          end
      end
    else no_scope "snapshot_age_days" rule
  end.

(** Losing every restore point is worse than any age. *)
Definition rpo_condition (rule : AlertRule) (s : VeeamRPOStats) : bool :=
  compareValue (vr_WorstRpoHours s) (ar_Operator rule) (ar_Threshold rule) ||
  ((0 <? vr_UnrecoverableCount s) && exceedsThreshold (ar_Operator rule)).

Definition evaluateVeeamRPORule (rd : RuleReads) (st : Stats) (rule : AlertRule)
    (windows : list MaintenanceWindow) : St unit :=
  match ar_ClusterID rule with
  | None => no_cluster "veeam_rpo_hours" rule
  | Some clusterID =>
    if isInMaintenanceWindow (ar_ClusterID rule) None windows then ret tt
    else if bool_decide (ar_ScopeType rule = "cluster") then
      match GetClusterVeeamRPOStats st clusterID (inclusiveOperator (ar_Operator rule)) with
      | Err e => fail (wrap "cluster veeam rpo stats" e)
      | Ok s =>
          if vr_ProtectedCount s =? 0
          then handle (st_tick st) rule false f0 (clusterLabel st clusterID) None None
          else
            handle (st_tick st) rule (rpo_condition rule s) (vr_WorstRpoHours s)
              (clusterLabel st clusterID +:+ dash +:+ "oldest recovery point " +:+
               fmt_f 1 (vr_WorstRpoHours s) +:+ "h on guest " +:+ Itoa (vr_WorstVmid s) +:+ ", " +:+
               Itoa (vr_OverCount s) +:+ " of " +:+ Itoa (vr_ProtectedCount s) +:+ " guests over threshold" +:+
               (if 0 <? vr_UnrecoverableCount s
                then "; " +:+ Itoa (vr_UnrecoverableCount s) +:+ " have NO restore points left at all"
                else "")) None None
      end
    else if bool_decide (ar_ScopeType rule = "vm") then
      match ar_VmVmid rule with
      | None => no_vmid "veeam_rpo_hours" rule
      | Some vmid =>
          match GetVMByClusterAndVmid rd clusterID vmid with
          | Err _ => ret tt
          | Ok vm =>
              match GetGuestVeeamRPO st clusterID vmid with
              | Err e => fail (wrap "guest veeam rpo" e)
              | Ok s =>
                  if gr_ProtectedCount s =? 0
                  then handle (st_tick st) rule false f0 (vm_Name vm) None (Some (vm_ID vm))
                  else if negb (gr_HasRestorePoint s)
                  then handle (st_tick st) rule (exceedsThreshold (ar_Operator rule)) f0
                         (guest_label vm +:+ dash +:+ "Veeam holds NO restore points for this guest")
                         None (Some (vm_ID vm))
                  else handle (st_tick st) rule
                         (compareValue (gr_RpoHours s) (ar_Operator rule) (ar_Threshold rule)) (gr_RpoHours s)
                         (guest_label vm +:+ dash +:+ "newest Veeam restore point " +:+
                          fmt_f 1 (gr_RpoHours s) +:+ "h old") None (Some (vm_ID vm))
              end
          end
      end
    else no_scope "veeam_rpo_hours" rule
  end.

Definition evaluateVeeamMalwareRule (rd : RuleReads) (st : Stats) (rule : AlertRule)
    (windows : list MaintenanceWindow) : St unit :=
  match ar_ClusterID rule with
  | None => no_cluster "veeam_malware_status" rule
  | Some clusterID =>
    if isInMaintenanceWindow (ar_ClusterID rule) None windows then ret tt
    else if bool_decide (ar_ScopeType rule = "cluster") then
      match GetClusterVeeamMalwareStats st clusterID (inclusiveOperator (ar_Operator rule)) with
      | Err e => fail (wrap "cluster veeam malware stats" e)
      | Ok s =>
          if vm_ScannedCount s =? 0
          then handle (st_tick st) rule false f0 (clusterLabel st clusterID) None None
          else
            handle (st_tick st) rule (compareValue (vm_WorstSeverity s) (ar_Operator rule) (ar_Threshold rule))
              (vm_WorstSeverity s)
              (clusterLabel st clusterID +:+ dash +:+ "worst verdict " +:+ Quote (vm_WorstStatus s) +:+
               " on guest " +:+ Itoa (vm_WorstVmid s) +:+ ", " +:+ Itoa (vm_OverCount s) +:+ " of " +:+
               Itoa (vm_ScannedCount s) +:+ " guests at or over threshold") None None
      end
    else if bool_decide (ar_ScopeType rule = "vm") then
      match ar_VmVmid rule with
      | None => no_vmid "veeam_malware_status" rule
      | Some vmid =>
          match GetVMByClusterAndVmid rd clusterID vmid with
          | Err _ => ret tt
          | Ok vm =>
              match GetGuestVeeamMalware st clusterID vmid with
              | Err e => fail (wrap "guest veeam malware" e)
              | Ok s =>
                  if negb (gm_Scanned s)
                  then handle (st_tick st) rule false f0 (vm_Name vm) None (Some (vm_ID vm))
                  else handle (st_tick st) rule
                         (compareValue (gm_Severity s) (ar_Operator rule) (ar_Threshold rule)) (gm_Severity s)
                         (guest_label vm +:+ dash +:+ "newest Veeam restore point verdict " +:+
                          Quote (gm_Status s)) None (Some (vm_ID vm))
              end
          end
      end
    else no_scope "veeam_malware_status" rule
  end.

Definition evaluateVeeamRepoRule (st : Stats) (rule : AlertRule) : St unit :=
  if negb (bool_decide (ar_ScopeType rule = "global")) then no_scope "veeam_repo_used_percent" rule
  else
    match GetVeeamRepositoryUsageStats st (inclusiveOperator (ar_Operator rule)) with
    | Err e => fail (wrap "veeam repository usage" e)
    | Ok s =>
        if vp_MeasuredCount s =? 0
        then handle (st_tick st) rule false f0 "Veeam repositories" None None
        else
          handle (st_tick st) rule (compareValue (vp_FullestPercent s) (ar_Operator rule) (ar_Threshold rule))
            (vp_FullestPercent s)
            (vp_FullestName s +:+ dash +:+ fmt_f 1 (vp_FullestPercent s) +:+ "% used, " +:+
             Itoa (vp_OverCount s) +:+ " of " +:+ Itoa (vp_MeasuredCount s) +:+ " repositories over threshold")
            None None
    end.

Definition evaluateVeeamJobFailedRule (st : Stats) (rule : AlertRule) (windows : list MaintenanceWindow) :
    St unit :=
  if negb (bool_decide (ar_ScopeType rule = "cluster")) then no_scope "veeam_job_failed" rule
  else
    match ar_ClusterID rule with
    | None => no_cluster "veeam_job_failed" rule
    | Some clusterID =>
        if isInMaintenanceWindow (ar_ClusterID rule) None windows then ret tt
        else match GetClusterVeeamJobFailureStats st clusterID with
             | Err e => fail (wrap "cluster veeam job failure stats" e)
             | Ok s =>
                 if vj_JobCount s =? 0
                 then handle (st_tick st) rule false f0 (clusterLabel st clusterID) None None
                 else
                   let failed := f_of_Z (vj_FailedCount s) in
                   handle (st_tick st) rule (compareValue failed (ar_Operator rule) (ar_Threshold rule)) failed
                     (clusterLabel st clusterID +:+ dash +:+ Itoa (vj_FailedCount s) +:+ " of " +:+
                      Itoa (vj_JobCount s) +:+ " Veeam jobs failed or cancelled on their last run" +:+
                      named (vj_FailedNames s) (vj_UnnamedCount s)) None None
             end
    end.

Definition evaluatePVETaskFailedRule (st : Stats) (rule : AlertRule) (windows : list MaintenanceWindow)
    (taskType : string) : St unit :=
  if negb (bool_decide (ar_ScopeType rule = "cluster")) then no_scope (ar_Metric rule) rule
  else
    match ar_ClusterID rule with
    | None => no_cluster (ar_Metric rule) rule
    | Some clusterID =>
        if isInMaintenanceWindow (ar_ClusterID rule) None windows then ret tt
        else match GetClusterFailedTaskStats st clusterID taskType with
             | Err e => fail (wrap "cluster failed task stats" e)
             | Ok s =>
                 let failed := f_of_Z (ft_FailedCount s) in
                 handle (st_tick st) rule (compareValue failed (ar_Operator rule) (ar_Threshold rule)) failed
                   (taskFailureLabel (clusterLabel st clusterID) taskType s (metricLookback rule)) None None
             end
    end.

(** ** The cycle *)

Definition evaluateRule (rd : RuleReads) (st : Stats) (pollInterval : Z) (rule : AlertRule)
    (windows : list MaintenanceWindow) : St unit :=
  let m := ar_Metric rule in
  if bool_decide (m = MetricSnapshotAgeDays) then evaluateSnapshotAgeRule rd st rule windows
  else if bool_decide (m = MetricVeeamRPOHours) then evaluateVeeamRPORule rd st rule windows
  else if bool_decide (m = MetricVeeamMalware) then evaluateVeeamMalwareRule rd st rule windows
  else if bool_decide (m = MetricVeeamRepoUsed) then evaluateVeeamRepoRule st rule
  else if bool_decide (m = MetricVeeamJobFailed) then evaluateVeeamJobFailedRule st rule windows
  else if bool_decide (m = MetricPVEBackupFailed) then evaluatePVETaskFailedRule st rule windows backupTaskType
  else if bool_decide (m = MetricPVETaskFailed) then evaluatePVETaskFailedRule st rule windows ""
  else if IsUPSMetric m then
    evaluateUPSRule ParseFloat unmarshal_chain (st_tick st) rule windows (ListUpsDevices st)
      (ListUpsOnRollingUpdateHosts st) pollInterval (judged_now rd)
  else evaluateScopedRule unmarshal_chain uuid_String rd rule windows.

(** What one cycle reads. [ListFiringUnacknowledged] is answered from the table
    the evaluation of the rules left. *)
Record Cycle := {
  ListEnabledAlertRules : result go_error (list AlertRule);
  ListActiveMaintenanceWindows : result go_error (list MaintenanceWindow);
  reads_of : AlertRule → RuleReads;
  stats_of : AlertRule → Stats;
  upsPollInterval : Z;
  ListFiringUnacknowledged : World → result go_error (list Alert);
  escalation_reads : uuid → EscalationRead;
}.

Definition Evaluate (c : Cycle) (w : World) : World :=
  match ListEnabledAlertRules c with
  | Err _ => w
  | Ok [] => w
  | Ok rules =>
      let windows := match ListActiveMaintenanceWindows c with Ok ws => ws | Err _ => [] end in
      let w := foldl (λ w rule,
        (evaluateRule (reads_of c rule) (stats_of c rule) (upsPollInterval c) rule windows w).1) w rules in
      checkEscalations unmarshal_chain (ListFiringUnacknowledged c w) (escalation_reads c) w
  end.
End inventory.

(** ** A cycle is a history of the alert machine *)

(** The metrics [evaluateRule] branches on before the scope. *)
Definition inventory_metrics : list string :=
  [MetricSnapshotAgeDays; MetricVeeamRPOHours; MetricVeeamMalware; MetricVeeamRepoUsed;
   MetricVeeamJobFailed; MetricPVEBackupFailed; MetricPVETaskFailed].

(** Whether a rule has an alert stream per node. *)
Definition per_node_rule (rule : AlertRule) : bool :=
  negb (contains inventory_metrics (ar_Metric rule)) && negb (IsUPSMetric (ar_Metric rule)) &&
  bool_decide (ar_ScopeType rule = "node" ∨ ar_ScopeType rule = "cluster")%string.

(** The database hands out fresh identifiers and later times. *)
Definition supplies (tk : World → Tick) : Prop :=
  ∀ w, (t_new_id (tk w) ∉ al_ID <$> w_alerts w) ∧ ∀ a, a ∈ w_alerts w → al_CreatedAt a < t_db_insert (tk w).

(** What the answers of a cycle keep to: the database as above, its listing of
    firing alerts true, and the rules the kind [per_node] says they are. *)
Record cycle_ok (per_node : uuid → bool) (c : Cycle) : Prop := {
  ok_reads : ∀ rule id, supplies (tick_of (reads_of c rule) id);
  ok_stats : ∀ rule, supplies (st_tick (stats_of c rule));
  ok_listed : ∀ w l a, ListFiringUnacknowledged c w = Ok l → a ∈ l →
    a ∈ w_alerts w ∧ firing_unacknowledged a = true;
  ok_kind : ∀ rules rule, ListEnabledAlertRules c = Ok rules → rule ∈ rules →
    per_node (ar_ID rule) = per_node_rule rule;
}.

Section histories.
Context (ParseFloat : string → option float64) (unmarshal_chain : string → list escalationStep)
  (uuid_String : uuid → string) (per_node : uuid → bool).

Definition steps (m : St unit) : Prop := ∀ w, rtc (step unmarshal_chain per_node) w (m w).1.

Lemma steps_ret : steps (ret tt).
Proof. intros w. apply rtc_refl. Qed.

Lemma steps_fail e : steps (fail e).
Proof. intros w. apply rtc_refl. Qed.

Lemma steps_handle tk rule met value name nodeID vmID :
  supplies tk → (is_Some nodeID ↔ per_node (ar_ID rule) = true) →
  steps (handle unmarshal_chain tk rule met value name nodeID vmID).
Proof. intros Hs Hd w. apply rtc_once. unfold handle. apply step_rule; [apply Hs..|done]. Qed.

#[local] Hint Resolve steps_ret steps_fail : core.

Lemma dim_none rule : per_node (ar_ID rule) = false → is_Some (@None uuid) ↔ per_node (ar_ID rule) = true.
Proof. intros ->. by split; [intros []|]. Qed.

Lemma steps_handle_none tk rule met value name vmID :
  supplies tk → per_node (ar_ID rule) = false →
  steps (handle unmarshal_chain tk rule met value name None vmID).
Proof. intros. by apply steps_handle, dim_none. Qed.

#[local] Hint Resolve steps_handle_none : core.

(** The inventory-backed rules have one stream, and go through one result. *)
Lemma steps_inventory rd st rule windows :
  supplies (st_tick st) → per_node (ar_ID rule) = false →
  steps (evaluateSnapshotAgeRule unmarshal_chain uuid_String rd st rule windows) ∧
  steps (evaluateVeeamRPORule unmarshal_chain uuid_String rd st rule windows) ∧
  steps (evaluateVeeamMalwareRule unmarshal_chain uuid_String rd st rule windows) ∧
  steps (evaluateVeeamRepoRule unmarshal_chain st rule) ∧
  steps (evaluateVeeamJobFailedRule unmarshal_chain uuid_String st rule windows) ∧
  (∀ taskType, steps (evaluatePVETaskFailedRule unmarshal_chain uuid_String st rule windows taskType)).
Proof.
  intros Hs Hp. split_and!; [..|intros taskType];
    unfold evaluateSnapshotAgeRule, evaluateVeeamRPORule, evaluateVeeamMalwareRule, evaluateVeeamRepoRule,
      evaluateVeeamJobFailedRule, evaluatePVETaskFailedRule, no_cluster, no_vmid, no_scope;
    repeat case_match; auto.
Qed.

Lemma steps_ups tk rule windows rows rolling pollInterval now :
  supplies tk → per_node (ar_ID rule) = false →
  steps (evaluateUPSRule ParseFloat unmarshal_chain tk rule windows rows rolling pollInterval now).
Proof. intros Hs Hp. unfold evaluateUPSRule. repeat case_match; auto. Qed.

Lemma steps_node rd rule node :
  (∀ id, supplies (tick_of rd id)) → per_node (ar_ID rule) = true →
  steps (evaluateNodeRule unmarshal_chain uuid_String rd rule node).
Proof.
  intros Hs Hp. unfold evaluateNodeRule. repeat case_match; auto.
  apply steps_handle; [done|]. by split; [|eexists].
Qed.

Lemma steps_scoped rd rule windows :
  (∀ id, supplies (tick_of rd id)) →
  per_node (ar_ID rule) = bool_decide (ar_ScopeType rule = "node" ∨ ar_ScopeType rule = "cluster")%string →
  steps (evaluateScopedRule unmarshal_chain uuid_String rd rule windows).
Proof.
  intros Hs Hp. unfold evaluateScopedRule.
  destruct (bool_decide_reflect (ar_ScopeType rule = "node")) as [Hn|Hn].
  { rewrite bool_decide_true in Hp by by left. repeat case_match; auto using steps_node. }
  destruct (bool_decide_reflect (ar_ScopeType rule = "vm")) as [Hv|Hv].
  { rewrite bool_decide_false in Hp by (rewrite Hv; by intros [|]).
    unfold evaluateVMRule. repeat case_match; auto. }
  destruct (bool_decide_reflect (ar_ScopeType rule = "cluster")) as [Hc|Hc]; [|auto].
  rewrite bool_decide_true in Hp by by right.
  repeat case_match; auto. intros w. simpl. unfold evaluate_nodes.
  match goal with |- rtc _ w (foldl _ w ?l) => generalize l as nodes end. intros nodes. revert w.
  induction nodes as [|n nodes IH]; intros w; simpl; [apply rtc_refl|].
  destruct (isInMaintenanceWindow _ _ _); [apply IH|].
  etransitivity; [by apply steps_node|apply IH].
Qed.

Lemma steps_rule rd st pollInterval rule windows :
  (∀ id, supplies (tick_of rd id)) → supplies (st_tick st) →
  per_node (ar_ID rule) = per_node_rule rule →
  steps (evaluateRule ParseFloat unmarshal_chain uuid_String rd st pollInterval rule windows).
Proof.
  intros Hrd Hst Hp. unfold evaluateRule. cbv zeta. unfold per_node_rule in Hp.
  destruct (contains inventory_metrics (ar_Metric rule)) eqn:Hin.
  { destruct (steps_inventory rd st rule windows Hst Hp) as (? & ? & ? & ? & ? & Ht).
    apply contains_spec in Hin. unfold inventory_metrics in Hin.
    rewrite !elem_of_cons, elem_of_nil in Hin.
    destruct Hin as [E|[E|[E|[E|[E|[E|[E|[]]]]]]]]; rewrite E; simpl; first [assumption|apply Ht]. }
  apply contains_false in Hin. unfold inventory_metrics in Hin.
  rewrite !elem_of_cons in Hin. repeat (rewrite bool_decide_false by tauto).
  destruct (IsUPSMetric (ar_Metric rule)); [by apply steps_ups|by apply steps_scoped].
Qed.
End histories.

(** ** Properties *)

(** The engine runs the alert machine. One cycle of [Evaluate], whatever rules, readings,
    statistics and failures it meets, is a sequence of steps of the alert machine: results handled
    one at a time and a round of escalations. So after any number of cycles, with operators acting
    in between, there is one active alert per rule and resource and no notification about an alert
    that never fired. *)
Theorem Evaluate_history ParseFloat unmarshal_chain uuid_String per_node c w :
  cycle_ok per_node c → rtc (step unmarshal_chain per_node) start w →
  rtc (step unmarshal_chain per_node) start (Evaluate ParseFloat unmarshal_chain uuid_String c w).
Proof.
  intros [Hrd Hst Hl Hk] Hw. etransitivity; [exact Hw|]. clear Hw. unfold Evaluate.
  destruct (ListEnabledAlertRules c) as [rules|]; [|apply rtc_refl].
  destruct rules as [|r rules]; [apply rtc_refl|].
  assert (∀ rule, rule ∈ r :: rules → per_node (ar_ID rule) = per_node_rule rule) as Hk'
    by by intros rule; apply Hk.
  etransitivity; [|apply rtc_once, step_escalations; by apply Hl].
  clear Hk. revert w Hk'. induction (r :: rules) as [|x l IH]; intros w Hk; simpl; [apply rtc_refl|].
  etransitivity; [apply (steps_rule ParseFloat); [done|done|apply Hk; left]|].
  apply IH. intros y Hy. apply Hk. by right.
Qed.

(** A database: the next identifier and a time past every row's. *)
Definition past (f : Alert → Z) (w : World) : Z := 1 + foldr (λ a m, Z.max (f a) m) 0 (w_alerts w).
Definition database_tick (w : World) : Tick := {|
  err_lookup := None; err_fire := None; err_insert := None; err_resolve := None;
  t_now := past al_CreatedAt w; t_db_insert := past al_CreatedAt w; t_db_update := past al_CreatedAt w;
  t_new_id := past al_ID w; t_meanwhile := [] |}.

Lemma past_lt f w a : a ∈ w_alerts w → f a < past f w.
Proof.
  unfold past. induction (w_alerts w) as [|b l IH]; [by intros ?%not_elem_of_nil|].
  intros [->|Ha]%elem_of_cons; simpl; [lia|]. specialize (IH Ha). lia.
Qed.

Lemma database_tick_supplies : supplies database_tick.
Proof.
  intros w. split; [|intros a; apply past_lt].
  intros (a & He & Ha)%list_elem_of_fmap. apply (past_lt al_ID) in Ha. simpl in He. lia.
Qed.

(** A cycle over one rule on a node at full load, with no escalation. *)
Definition busy_sample : Sample := {|
  sm_Bucket := 0; sm_CpuUsage := f1; sm_MemUsed := 0; sm_MemTotal := 0; sm_DiskRead := 0;
  sm_DiskWrite := 0; sm_NetIn := 0; sm_NetOut := 0; sm_DiskUnreported := false |}.
Definition example_rule_reads : RuleReads := {|
  GetNodeRecentMetrics := λ _, Ok [busy_sample]; GetVMRecentMetrics := λ _, Err (errorf "none");
  GetNode_name := λ _, Ok "pve1"; GetVM_name := λ _, Err (errorf "none");
  GetVMByClusterAndVmid := λ _ _, Err (errorf "none"); ListNodesByCluster := λ _, Ok [];
  judged_now := 0; tick_of := λ _, database_tick |}.
Definition example_stats : Stats := {|
  GetCluster_name := λ _, Err (errorf "none"); GetClusterSnapshotAgeStats := λ _, Ok None;
  GetVMSnapshotAgeStats := λ _ _, Ok None; GetClusterVeeamRPOStats := λ _ _, Err (errorf "none");
  GetGuestVeeamRPO := λ _ _, Err (errorf "none"); GetClusterVeeamMalwareStats := λ _ _, Err (errorf "none");
  GetGuestVeeamMalware := λ _ _, Err (errorf "none"); GetVeeamRepositoryUsageStats := λ _, Err (errorf "none");
  GetClusterVeeamJobFailureStats := λ _, Err (errorf "none");
  GetClusterFailedTaskStats := λ _ _, Err (errorf "none"); ListUpsDevices := Ok [];
  ListUpsOnRollingUpdateHosts := Ok []; st_tick := database_tick |}.
Definition example_cycle : Cycle := {|
  ListEnabledAlertRules := Ok [example_alert_rule];
  ListActiveMaintenanceWindows := Err (errorf "timeout");
  reads_of := λ _, example_rule_reads; stats_of := λ _, example_stats; upsPollInterval := 30 * second;
  ListFiringUnacknowledged := λ w, Ok (List.filter firing_unacknowledged (w_alerts w));
  escalation_reads := λ _, {| er_rule := Err (errorf "none"); er_now := 0; er_update := None;
                              er_meanwhile := [] |} |}.

Example example_cycle_raises :
  length (w_alerts (Evaluate (λ _, None) example_chain (λ _, "") example_cycle start)) = 1%nat.
Proof. by vm_compute. Qed.

Lemma Evaluate_history_witness :
  rtc (step example_chain (λ _, true)) start
    (Evaluate (λ _, None) example_chain (λ _, "") example_cycle start).
Proof.
  apply (Evaluate_history (λ _, None) example_chain (λ _, "") (λ _, true) example_cycle start).
  - split.
    + intros rule id. apply database_tick_supplies.
    + intros rule. apply database_tick_supplies.
    + intros w l a H Ha. injection H as <-. by apply elem_of_bfilter in Ha.
    + intros rules rule [= <-] ->%list_elem_of_singleton. reflexivity.
  - apply rtc_refl.
Defined.

(** ** Losing every restore point *)

(** Lost restore points count as too old. For a cluster rule on the age of Veeam restore points,
    outside maintenance, where Veeam protects at least one guest: the condition handled is the
    comparison with the oldest age, except that a guest with no restore point left meets every rule
    that asks for too high an age, whatever the ages of the others, and changes no other rule. *)
Theorem evaluateVeeamRPORule_lost unmarshal_chain uuid_String rd st rule windows clusterID s w :
  ar_ClusterID rule = Some clusterID → ar_ScopeType rule = "cluster" →
  isInMaintenanceWindow (ar_ClusterID rule) None windows = false →
  GetClusterVeeamRPOStats st clusterID (inclusiveOperator (ar_Operator rule)) = Ok s →
  vr_ProtectedCount s ≠ 0 →
  ∃ met label,
    evaluateVeeamRPORule unmarshal_chain uuid_String rd st rule windows w =
      handleRuleResult unmarshal_chain (st_tick st w) rule met (vr_WorstRpoHours s) label None None w ∧
    (met = true ↔
       compareValue (vr_WorstRpoHours s) (ar_Operator rule) (ar_Threshold rule) = true ∨
       0 < vr_UnrecoverableCount s ∧ (ar_Operator rule = ">" ∨ ar_Operator rule = ">=")).
Proof.
  intros Hc Hs Hm Hst Hp%Z.eqb_neq. exists (rpo_condition rule s).
  unfold evaluateVeeamRPORule. rewrite Hm, Hc, (bool_decide_true _ Hs), Hst, Hp.
  eexists. split; [reflexivity|]. unfold rpo_condition, exceedsThreshold.
  rewrite orb_true_iff, andb_true_iff, bool_decide_eq_true, Z.ltb_lt. done.
Qed.
