(* ===== verification/AuthLockout.v ===== *)
(** * The lockout of the current password

    [api/handlers/password_lockout.go]: five wrong current passwords within an
    hour lock an account out of changing its password and setting up two-factor
    authentication for half an hour. An attempt is counted before its password
    is checked ([reserve]), given back when the password was right and nothing
    changed ([release]), and forgotten with the whole count when the password
    changes ([clear]).

    The counts live in one of two stores: Redis, where each operation is one
    script on two keys, and the memory of the process. [phase] is the machine
    both implement ([stores_agree]), and [guess_ceiling] is what it is for. *)

From S2P Require Import Prelude GoStrings.

Local Open Scope Z_scope.

Definition millisecond : Z := 10 ^ 6.

Definition passwordLockoutThreshold : Z := 5.
Definition passwordLockoutWindow : Z := 60 * minute.
Definition passwordLockoutDuration : Z := 30 * minute.

(** [Duration.Milliseconds] of the two durations. *)
Definition window_ms : Z := passwordLockoutWindow `div` millisecond.
Definition lock_ms : Z := passwordLockoutDuration `div` millisecond.

Lemma window_ms_eq : window_ms = 3600000.
Proof. done. Qed.
Lemma lock_ms_eq : lock_ms = 1800000.
Proof. done. Qed.

Inductive lockoutAdmission := lockoutRefused | lockoutAdmitted | lockoutAdmittedLast.

Record lockoutReservation := {
  lr_admission : lockoutAdmission; lr_attempts : Z; lr_retryAfter : Z; lr_token : string }.

Definition refused (wait : Z) : lockoutReservation :=
  {| lr_admission := lockoutRefused; lr_attempts := 0; lr_retryAfter := wait; lr_token := "" |}.
Definition admitted (attempts : Z) : lockoutReservation :=
  {| lr_admission := lockoutAdmitted; lr_attempts := attempts; lr_retryAfter := 0; lr_token := "" |}.
Definition admitted_last (attempts wait : Z) (token : string) : lockoutReservation :=
  {| lr_admission := lockoutAdmittedLast; lr_attempts := attempts; lr_retryAfter := wait; lr_token := token |}.

#[export] Instance lockoutAdmission_eq_dec : EqDecision lockoutAdmission.
Proof. solve_decision. Defined.

(** ** In the memory of the process *)

Module Memory.

(** [time.Time{}], which no clock has reached. *)
Definition zeroTime : Z := -62135596800 * second.

Record memoryLockoutEntry := {
  le_attempts : Z; le_windowEnds : Z; le_lockedUntil : Z; le_lockToken : string }.

Abbreviation entries := (gmap uuid memoryLockoutEntry).

(** [t.After(now)] *)
Definition After (t now : Z) : bool := now <? t.

Definition sweep (now : Z) (m : entries) : entries :=
  filter (λ kv, (After (le_windowEnds kv.2) now || After (le_lockedUntil kv.2) now) = true) m.

Definition new_entry (now : Z) : memoryLockoutEntry :=
  {| le_attempts := 0; le_windowEnds := now + passwordLockoutWindow; le_lockedUntil := zeroTime;
     le_lockToken := "" |}.

(** The entry the attempt is counted in: the account's, or a new one when its
    window has ended. *)
Definition counting_entry (now : Z) (e : option memoryLockoutEntry) : memoryLockoutEntry :=
  match e with
  | Some e => if After (le_windowEnds e) now then e else new_entry now
  | None => new_entry now
  end.

(** Counting one attempt in [e]. *)
Definition count (now : Z) (userID : uuid) (token : string) (m : entries) (e : memoryLockoutEntry) :
    lockoutReservation * entries :=
  let attempts := le_attempts e + 1 in
  if passwordLockoutThreshold <=? attempts then
    (admitted_last attempts passwordLockoutDuration token,
     <[userID := {| le_attempts := 0; le_windowEnds := zeroTime;
                    le_lockedUntil := now + passwordLockoutDuration; le_lockToken := token |}]> m)
  else
    (admitted attempts,
     <[userID := {| le_attempts := attempts; le_windowEnds := le_windowEnds e;
                    le_lockedUntil := le_lockedUntil e; le_lockToken := le_lockToken e |}]> m).

(** [token] is the [uuid.NewString()] of the call. *)
Definition reserve (now : Z) (userID : uuid) (token : string) (m : entries) : lockoutReservation * entries :=
  let m := sweep now m in
  match m !! userID with
  | Some e =>
      if After (le_lockedUntil e) now then (refused (le_lockedUntil e - now), m)
      else count now userID token m (counting_entry now (Some e))
  | None => count now userID token m (counting_entry now None)
  end.

Definition release (now : Z) (userID : uuid) (res : lockoutReservation) (m : entries) : entries :=
  match m !! userID with
  | None => m
  | Some e =>
      match lr_admission res with
      | lockoutAdmittedLast =>
          if After (le_lockedUntil e) now && bool_decide (le_lockToken e = lr_token res)
          then <[userID := {| le_attempts := passwordLockoutThreshold - 1;
                              le_windowEnds := now + passwordLockoutWindow;
                              le_lockedUntil := zeroTime; le_lockToken := "" |}]> m
          else m
      | lockoutAdmitted =>
          if (0 <? le_attempts e) && After (le_windowEnds e) now
          then if (le_attempts e - 1 =? 0) && negb (After (le_lockedUntil e) now)
               then delete userID m
               else <[userID := {| le_attempts := le_attempts e - 1; le_windowEnds := le_windowEnds e;
                                   le_lockedUntil := le_lockedUntil e;
                                   le_lockToken := le_lockToken e |}]> m
          else m
      | lockoutRefused => m
      end
  end.

Definition clear (userID : uuid) (m : entries) : entries := delete userID m.
End Memory.

(** ** In Redis

    An account has two keys, the counter and the lock. A key holds its value and
    the millisecond at which it expires, if it has an expiry; it is gone from
    then on. The two scripts run whole, at one time of the server. *)
Module Redis.

Record keys := { k_fail : option (Z * option Z); k_lock : option (string * option Z) }.

Definition no_keys : keys := {| k_fail := None; k_lock := None |}.

(** The key as it is found at [now]. *)
Definition found {A} (now : Z) (k : option (A * option Z)) : option (A * option Z) :=
  match k with
  | Some (_, Some at_) => if now <? at_ then k else None
  | _ => k
  end.

(** [PTTL]: what is left of a key's life, -1 without an expiry, -2 for no key. *)
Definition PTTL {A} (now : Z) (k : option (A * option Z)) : Z :=
  match found now k with
  | Some (_, Some at_) => at_ - now
  | Some (_, None) => -1
  | None => -2
  end.

(** [INCR] and [DECR] keep the expiry of a key and make a missing one from 0. *)
Definition add (now delta : Z) (k : option (Z * option Z)) : Z * option Z :=
  match found now k with
  | Some (n, at_) => (n + delta, at_)
  | None => (delta, None)
  end.

(** [reservePasswordAttempt]: the admission, the attempts and the wait. *)
Definition reservePasswordAttempt (window lock threshold : Z) (token : string) (now : Z) (k : keys) :
    (Z * Z * Z) * keys :=
  let wait := PTTL now (k_lock k) in
  if 0 <? wait then ((2, 0, wait), k)
  else if wait =? -1 then
    ((2, 0, lock),
     {| k_fail := k_fail k;
        k_lock := (λ '(v, _), (v, Some (now + lock))) <$> found now (k_lock k) |})
  else
    let '(attempts, at_) := add now 1 (k_fail k) in
    let at_ := if (attempts =? 1) || (PTTL now (Some (attempts, at_)) <? 0)
               then Some (now + window) else at_ in
    if threshold <=? attempts
    then ((1, attempts, lock), {| k_fail := None; k_lock := Some (token, Some (now + lock)) |})
    else ((0, attempts, 0), {| k_fail := Some (attempts, at_); k_lock := k_lock k |}).

(** [releasePasswordAttempt] *)
Definition releasePasswordAttempt (window threshold : Z) (token : string) (now : Z) (k : keys) : keys :=
  if bool_decide (token ≠ "") then
    if bool_decide (fst <$> found now (k_lock k) = Some token)
    then {| k_fail := Some (threshold - 1, Some (now + window)); k_lock := None |}
    else k
  else
    let '(attempts, at_) := add now (-1) (k_fail k) in
    {| k_fail := if attempts <=? 0 then None else Some (attempts, at_); k_lock := k_lock k |}.

(** [redisPasswordLockout.reserve] on what the script answers; [None] is an error. *)
Definition reservation (token : string) (vals : Z * Z * Z) : option lockoutReservation :=
  let '(admission, attempts, wait) := vals in
  let wait := wait * millisecond in
  if admission =? 0 then
    Some {| lr_admission := lockoutAdmitted; lr_attempts := attempts; lr_retryAfter := wait; lr_token := "" |}
  else if admission =? 1 then Some (admitted_last attempts wait token)
  else if admission =? 2 then
    Some {| lr_admission := lockoutRefused; lr_attempts := attempts; lr_retryAfter := wait; lr_token := "" |}
  else None.

(** [redisPasswordLockout.reserve], answered. *)
Definition reserve_keys (now : Z) (token : string) (k : keys) : option lockoutReservation * keys :=
  let '(vals, k) := reservePasswordAttempt window_ms lock_ms passwordLockoutThreshold token now k in
  (reservation token vals, k).

Definition release_keys (now : Z) (res : lockoutReservation) (k : keys) : keys :=
  match lr_admission res with
  | lockoutRefused => k
  | lockoutAdmitted => releasePasswordAttempt window_ms passwordLockoutThreshold "" now k
  | lockoutAdmittedLast => releasePasswordAttempt window_ms passwordLockoutThreshold (lr_token res) now k
  end.

Definition clear_keys (k : keys) : keys := no_keys.
End Redis.

(** ** The machine both stores implement *)

Inductive phase :=
| Free
| Counting (n ends : Z)
| Locked (until : Z) (token : string).

(** What is left of a phase at [now] (milliseconds). *)
Definition settled (now : Z) (p : phase) : phase :=
  match p with
  | Free => Free
  | Counting _ ends => if now <? ends then p else Free
  | Locked until _ => if now <? until then p else Free
  end.

(** The [n]-th attempt of a window that ends at [ends]. *)
Definition nth_attempt (now : Z) (token : string) (n ends : Z) : lockoutReservation * phase :=
  if passwordLockoutThreshold <=? n
  then (admitted_last n passwordLockoutDuration token, Locked (now + lock_ms) token)
  else (admitted n, Counting n ends).

Definition phase_reserve (now : Z) (token : string) (p : phase) : lockoutReservation * phase :=
  match settled now p with
  | Locked until t => (refused ((until - now) * millisecond), Locked until t)
  | Counting n ends => nth_attempt now token (n + 1) ends
  | Free => nth_attempt now token 1 (now + window_ms)
  end.

Definition phase_release (now : Z) (res : lockoutReservation) (p : phase) : phase :=
  match lr_admission res, settled now p with
  | lockoutAdmitted, Counting n ends => if n =? 1 then Free else Counting (n - 1) ends
  | lockoutAdmittedLast, Locked until t =>
      if bool_decide (t = lr_token res)
      then Counting (passwordLockoutThreshold - 1) (now + window_ms) else Locked until t
  | _, p => p
  end.

Definition phase_ok (p : phase) : Prop :=
  match p with Counting n _ => 1 ≤ n < passwordLockoutThreshold | _ => True end.

(** What a store promises: each operation does to the account what the machine
    does, and nothing to the others. Times are the milliseconds of its clock. *)
Class LockoutStore (S : Type) := {
  st_reserve : Z → uuid → string → S → lockoutReservation * S;
  st_release : Z → uuid → lockoutReservation → S → S;
  st_clear : Z → uuid → S → S;
  st_phase : Z → S → uuid → phase;
  st_valid : Z → S → Prop;
  st_phase_ok now s id : st_valid now s → phase_ok (st_phase now s id);
  st_later now t s : st_valid now s → now ≤ t → st_valid t s;
  st_phase_later now t s id :
    st_valid now s → now ≤ t → st_phase t s id = settled t (st_phase now s id);
  st_reserve_ok now id token s :
    st_valid now s → token ≠ "" →
    st_valid now (st_reserve now id token s).2 ∧
    ((st_reserve now id token s).1, st_phase now (st_reserve now id token s).2 id) =
      phase_reserve now token (st_phase now s id) ∧
    ∀ id', id' ≠ id → st_phase now (st_reserve now id token s).2 id' = st_phase now s id';
  st_release_ok now id res s :
    st_valid now s → (lr_admission res = lockoutAdmittedLast → lr_token res ≠ "") →
    st_valid now (st_release now id res s) ∧
    st_phase now (st_release now id res s) id = phase_release now res (st_phase now s id) ∧
    ∀ id', id' ≠ id → st_phase now (st_release now id res s) id' = st_phase now s id';
  st_clear_ok now id s :
    st_valid now s →
    st_valid now (st_clear now id s) ∧
    st_phase now (st_clear now id s) id = Free ∧
    ∀ id', id' ≠ id → st_phase now (st_clear now id s) id' = st_phase now s id';
}.

(** *** Redis *)

Module RedisStore.
Import Redis.

Definition account (s : gmap uuid keys) (id : uuid) : keys := default no_keys (s !! id).

Definition keys_phase (now : Z) (k : keys) : phase :=
  match found now (k_lock k), found now (k_fail k) with
  | Some (t, Some until), _ => Locked until t
  | None, Some (n, Some ends) => Counting n ends
  | _, _ => Free
  end.

(** No key, or one that has expired. *)
Definition gone {A} (now : Z) (k : option (A * option Z)) : Prop :=
  k = None ∨ ∃ v at_, k = Some (v, Some at_) ∧ at_ ≤ now.

(** The keys an account can have, and their phase: every key has an expiry, the
    counter is below the threshold, and there is no counter beside a lock. *)
Inductive keys_shape (now : Z) : keys → phase → Prop :=
| shape_locked t until :
    now < until → keys_shape now {| k_fail := None; k_lock := Some (t, Some until) |} (Locked until t)
| shape_counting n ends l :
    now < ends → 1 ≤ n < passwordLockoutThreshold → gone now l →
    keys_shape now {| k_fail := Some (n, Some ends); k_lock := l |} (Counting n ends)
| shape_free f l : gone now f → gone now l → keys_shape now {| k_fail := f; k_lock := l |} Free.

Definition reserve_account (now : Z) (id : uuid) (token : string) (s : gmap uuid keys) :
    lockoutReservation * gmap uuid keys :=
  let '(r, k) := Redis.reserve_keys now token (account s id) in
  (default (refused 0) r, <[id := k]> s).
Definition release_account (now : Z) (id : uuid) (res : lockoutReservation) (s : gmap uuid keys) : gmap uuid keys :=
  <[id := Redis.release_keys now res (account s id)]> s.
Definition clear_account (now : Z) (id : uuid) (s : gmap uuid keys) : gmap uuid keys :=
  <[id := Redis.clear_keys (account s id)]> s.

Lemma account_eq s id k : account (<[id := k]> s) id = k.
Proof. unfold account. by rewrite lookup_insert_eq. Qed.
Lemma account_ne s id id' k : id' ≠ id → account (<[id := k]> s) id' = account s id'.
Proof. intros. unfold account. by rewrite lookup_insert_ne. Qed.

Lemma found_gone {A} now (k : option (A * option Z)) : gone now k → found now k = None.
Proof. intros [->|(v & at_ & -> & H)]; simpl; [done|]. by destruct (Z.ltb_spec now at_); [lia|]. Qed.

Lemma found_live {A} now (v : A) at_ : now < at_ → found now (Some (v, Some at_)) = Some (v, Some at_).
Proof. intros H. simpl. by destruct (Z.ltb_spec now at_); [|lia]. Qed.

Lemma keys_shape_phase now k p : keys_shape now k p → keys_phase now k = p.
Proof.
  unfold keys_phase. destruct 1 as [t until H|n ends l H Hn Hl|f l Hf Hl]; cbn [k_fail k_lock].
  - by rewrite (found_live now t).
  - by rewrite (found_gone now l), (found_live now n).
  - by rewrite (found_gone now l), (found_gone now f).
Qed.

Lemma gone_later {A} now t (k : option (A * option Z)) : gone now k → now ≤ t → gone t k.
Proof. intros [->|(v & at_ & -> & H)] ?; [by left|right]. exists v, at_. split; [done|lia]. Qed.

Lemma keys_shape_later now t k p : keys_shape now k p → now ≤ t → keys_shape t k (settled t p).
Proof.
  intros H Ht. destruct H as [v until H|n ends l H Hn Hl|f l Hf Hl]; simpl.
  - destruct (Z.ltb_spec t until); constructor; [done|by left|]. right. by exists v, until.
  - destruct (Z.ltb_spec t ends); constructor; eauto using gone_later. right. by exists n, ends.
  - constructor; eauto using gone_later.
Qed.

Lemma keys_settled_shape now k p : keys_shape now k p → settled now p = p.
Proof.
  destruct 1 as [v until H|n ends l H Hn Hl|]; simpl; [| |done].
  - by destruct (Z.ltb_spec now until); [|lia].
  - by destruct (Z.ltb_spec now ends); [|lia].
Qed.

Lemma keys_reserve_shape now token k p :
  keys_shape now k p →
  ∃ r k' p', Redis.reserve_keys now token k = (Some r, k') ∧ keys_shape now k' p' ∧ phase_reserve now token p = (r, p').
Proof.
  intros H. unfold phase_reserve, Redis.reserve_keys. rewrite (keys_settled_shape _ _ _ H).
  destruct H as [t until H|n ends l H Hn Hl|f l Hf Hl]; unfold reservePasswordAttempt, PTTL; cbn [k_fail k_lock].
  - rewrite (found_live now t) by done. destruct (Z.ltb_spec 0 (until - now)); [|lia].
    eexists _, _, _. split_and!; [done|by constructor|done].
  - rewrite (found_gone now l) by done. unfold add. rewrite (found_live now n) by done. simpl.
    replace (n + 1 =? 1) with false by (symmetry; apply Z.eqb_neq; lia).
    destruct (Z.ltb_spec now ends); [|lia]. destruct (Z.ltb_spec (ends - now) 0); [lia|].
    unfold nth_attempt. destruct (Z.leb_spec passwordLockoutThreshold (n + 1)).
    + eexists _, _, _. split_and!; [done| |done]. constructor. pose proof lock_ms_eq. lia.
    + eexists _, _, _. split_and!; [done| |done]. by constructor; [|lia|].
  - rewrite (found_gone now l) by done. unfold add. rewrite (found_gone now f) by done.
    simpl. eexists _, _, _. split_and!; [done| |done]. constructor; [|done|done].
    pose proof window_ms_eq. lia.
Qed.

Lemma keys_release_shape now res k p :
  keys_shape now k p → (lr_admission res = lockoutAdmittedLast → lr_token res ≠ "") →
  keys_shape now (Redis.release_keys now res k) (phase_release now res p).
Proof.
  intros H Htok. unfold phase_release, Redis.release_keys. rewrite (keys_settled_shape _ _ _ H).
  destruct (lr_admission res); [done| |].
  - unfold releasePasswordAttempt. rewrite bool_decide_false by tauto. unfold add.
    destruct H as [t until H|n ends l H Hn Hl|f l Hf Hl]; cbn [k_fail k_lock].
    + by constructor.
    + rewrite (found_live now n) by done. destruct (Z.eqb_spec n 1) as [->|].
      * constructor; [by left|done].
      * destruct (Z.leb_spec (n + -1) 0); [lia|]. by constructor; [|lia|].
    + rewrite (found_gone now f) by done. constructor; [by left|done].
  - specialize (Htok eq_refl). unfold releasePasswordAttempt. rewrite bool_decide_true by done.
    destruct H as [t until H|n ends l H Hn Hl|f l Hf Hl]; cbn [k_fail k_lock].
    + rewrite (found_live now t) by done. simpl.
      destruct (bool_decide_reflect (t = lr_token res)) as [->|Hne].
      * rewrite bool_decide_true by done. constructor; [|done|by left]. pose proof window_ms_eq. lia.
      * rewrite bool_decide_false by congruence. by constructor.
    + rewrite (found_gone now l) by done. by constructor.
    + rewrite (found_gone now l) by done. by constructor.
Qed.

#[global, refine] Instance redis_store : LockoutStore (gmap uuid keys) := {|
  st_reserve := reserve_account;
  st_release := release_account;
  st_clear := clear_account;
  st_phase := λ now s id, keys_phase now (account s id);
  st_valid := λ now s, ∀ id, keys_shape now (account s id) (keys_phase now (account s id));
|}.
Proof.
  - intros now s id Hs. specialize (Hs id). by destruct Hs.
  - intros now t s Hs Ht id. pose proof (keys_shape_later _ t _ _ (Hs id) Ht) as H.
    by rewrite (keys_shape_phase _ _ _ H).
  - intros now t s id Hs Ht. exact (keys_shape_phase _ _ _ (keys_shape_later _ t _ _ (Hs id) Ht)).
  - intros now id token s Hs _. unfold reserve_account.
    destruct (keys_reserve_shape now token _ _ (Hs id)) as (r & k & p & -> & Hk & ->). simpl.
    split_and!.
    + intros id'. destruct (decide (id' = id)) as [->|].
      * rewrite account_eq. by rewrite (keys_shape_phase _ _ _ Hk).
      * by rewrite account_ne.
    + by rewrite account_eq, (keys_shape_phase _ _ _ Hk).
    + intros id' ?. by rewrite account_ne.
  - intros now id res s Hs Htok. unfold release_account.
    pose proof (keys_release_shape now res _ _ (Hs id) Htok) as Hk. split_and!.
    + intros id'. destruct (decide (id' = id)) as [->|].
      * rewrite account_eq. by rewrite (keys_shape_phase _ _ _ Hk).
      * by rewrite account_ne.
    + by rewrite account_eq, (keys_shape_phase _ _ _ Hk).
    + intros id' ?. by rewrite account_ne.
  - intros now id s Hs. unfold clear_account. split_and!.
    + intros id'. destruct (decide (id' = id)) as [->|].
      * rewrite account_eq. simpl. constructor; by left.
      * by rewrite account_ne.
    + by rewrite account_eq.
    + intros id' ?. by rewrite account_ne.
Defined.
End RedisStore.

(** *** The memory of the process, whose times are nanoseconds *)

Module MemoryStore.
Import Memory.

Definition entry_phase (now : Z) (e : option memoryLockoutEntry) : phase :=
  match e with
  | None => Free
  | Some e =>
      if After (le_lockedUntil e) (now * millisecond)
      then Locked (le_lockedUntil e `div` millisecond) (le_lockToken e)
      else if After (le_windowEnds e) (now * millisecond)
      then Counting (le_attempts e) (le_windowEnds e `div` millisecond) else Free
  end.

(** The entries an account can have. *)
Inductive entry_shape (now : Z) : option memoryLockoutEntry → phase → Prop :=
| shape_none : entry_shape now None Free
| shape_locked n w t until :
    now < until → w ≤ now * millisecond → n ≤ 0 →
    entry_shape now (Some {| le_attempts := n; le_windowEnds := w;
                       le_lockedUntil := until * millisecond; le_lockToken := t |}) (Locked until t)
| shape_counting n ends l t :
    now < ends → 1 ≤ n < passwordLockoutThreshold → l ≤ now * millisecond →
    entry_shape now (Some {| le_attempts := n; le_windowEnds := ends * millisecond;
                       le_lockedUntil := l; le_lockToken := t |}) (Counting n ends)
| shape_free n w l t :
    w ≤ now * millisecond → l ≤ now * millisecond →
    entry_shape now (Some {| le_attempts := n; le_windowEnds := w; le_lockedUntil := l; le_lockToken := t |}) Free.

Lemma After_ms until now : After (until * millisecond) (now * millisecond) = (now <? until).
Proof.
  unfold After, millisecond. destruct (Z.ltb_spec now until); destruct (Z.ltb_spec (now * 10 ^ 6) (until * 10 ^ 6)); lia.
Qed.

Lemma After_past t now : t ≤ now * millisecond → After t (now * millisecond) = false.
Proof. unfold After. by destruct (Z.ltb_spec (now * millisecond) t); [lia|]. Qed.

Lemma entry_shape_phase now e p : entry_shape now e p → entry_phase now e = p.
Proof.
  destruct 1; simpl; [done|..]; rewrite ?After_ms, ?After_past by done;
    repeat match goal with H : now < ?u |- _ => apply Z.ltb_lt in H; rewrite ?H; clear H end;
    rewrite ?Z.div_mul by done; done.
Qed.

Lemma entry_shape_later now t e p : entry_shape now e p → now ≤ t → entry_shape t e (settled t p).
Proof.
  intros H Ht. assert (now * millisecond ≤ t * millisecond) by (unfold millisecond; lia).
  destruct H as [|n w tk until H|n ends l tk H|]; simpl; [constructor| | |constructor; lia].
  - destruct (Z.ltb_spec t until); constructor; try done; try lia. unfold millisecond in *. lia.
  - destruct (Z.ltb_spec t ends); constructor; try done; try lia. unfold millisecond in *. lia.
Qed.

Lemma entry_settled_shape now e p : entry_shape now e p → settled now p = p.
Proof.
  destruct 1 as [|n w t until H|n ends l t H|]; simpl; [done| | |done].
  - by destruct (Z.ltb_spec now until); [|lia].
  - by destruct (Z.ltb_spec now ends); [|lia].
Qed.

Lemma shape_sweep now m id p :
  entry_shape now (m !! id) p → entry_shape now (sweep (now * millisecond) m !! id) p.
Proof.
  unfold sweep. rewrite map_lookup_filter. destruct (m !! id) as [e|]; simpl; [|done].
  intros H. case_guard as Hg; simpl; [done|]. simpl in Hg.
  inversion H as [|n w t until Hu|n ends l t Hu|n w l t Hw Hl]; subst; simpl in Hg.
  - destruct Hg. rewrite orb_true_iff. right. rewrite After_ms. by apply Z.ltb_lt.
  - destruct Hg. rewrite orb_true_iff. left. rewrite After_ms. by apply Z.ltb_lt.
  - constructor.
Qed.

(** Counting in an entry whose window is open, or in a new one. *)
Lemma count_shape now id token m e :
  1 ≤ le_attempts e + 1 → le_lockedUntil e ≤ now * millisecond →
  now * millisecond < le_windowEnds e → 0 ≤ now →
  (∃ ends, le_windowEnds e = ends * millisecond) →
  let '(r, m') := count (now * millisecond) id token m e in
  ∃ p, entry_shape now (m' !! id) p ∧
       nth_attempt now token (le_attempts e + 1) (le_windowEnds e `div` millisecond) = (r, p) ∧
       ∀ id', id' ≠ id → m' !! id' = m !! id'.
Proof.
  intros Hn Hl Hw H0 [ends He]. unfold count, nth_attempt. rewrite He, Z.div_mul by done.
  destruct (Z.leb_spec passwordLockoutThreshold (le_attempts e + 1)).
  - exists (Locked (now + lock_ms) token). rewrite lookup_insert_eq. split_and!; [|done|].
    + replace (now * millisecond + passwordLockoutDuration) with ((now + lock_ms) * millisecond)
        by (rewrite lock_ms_eq; unfold passwordLockoutDuration, minute, second, millisecond; lia).
      constructor; [rewrite lock_ms_eq; lia| |lia]. unfold zeroTime, second, millisecond. lia.
    + intros id' ?. by rewrite lookup_insert_ne.
  - exists (Counting (le_attempts e + 1) ends). rewrite lookup_insert_eq. split_and!; [|done|].
    + constructor; [|lia|done]. rewrite He in Hw. unfold millisecond in *. lia.
    + intros id' ?. by rewrite lookup_insert_ne.
Qed.

Lemma entry_reserve_shape now id token m p :
  0 ≤ now → entry_shape now (m !! id) p →
  let '(r, m') := reserve (now * millisecond) id token m in
  ∃ p', entry_shape now (m' !! id) p' ∧ phase_reserve now token p = (r, p') ∧
        ∀ id', id' ≠ id → m' !! id' = sweep (now * millisecond) m !! id'.
Proof.
  intros H0 H. unfold reserve, phase_reserve. rewrite (entry_settled_shape _ _ _ H).
  apply shape_sweep in H. set (m1 := sweep (now * millisecond) m) in *. clearbody m1. clear m.
  set (ne := new_entry (now * millisecond)).
  assert (le_windowEnds ne = (now + window_ms) * millisecond) as Hne.
  { simpl. rewrite window_ms_eq. unfold passwordLockoutWindow, minute, second, millisecond. lia. }
  assert (let '(r, m') := count (now * millisecond) id token m1 ne in
          ∃ p', entry_shape now (m' !! id) p' ∧ nth_attempt now token 1 (now + window_ms) = (r, p') ∧
                ∀ id', id' ≠ id → m' !! id' = m1 !! id') as Hnew.
  { pose proof (count_shape now id token m1 ne) as Hc.
    destruct (count _ id token m1 ne) as [r m']. rewrite Hne, Z.div_mul in Hc by done.
    apply Hc; [done| |rewrite window_ms_eq; unfold millisecond; lia|done|by eexists].
    simpl. unfold zeroTime, second, millisecond. lia. }
  destruct (m1 !! id) as [e|] eqn:Hm; inversion H as [|n w t until Hu Hw Hn|n ends l t Hu Hn Hl|n w l t Hw Hl];
    subst; unfold counting_entry; cbn [le_lockedUntil le_windowEnds].
  - rewrite After_ms. destruct (Z.ltb_spec now until); [|lia]. exists (Locked until t).
    rewrite Hm. split_and!; [by constructor| |done]. do 2 f_equal. unfold millisecond. lia.
  - rewrite (After_past l), After_ms by done. destruct (Z.ltb_spec now ends); [|lia].
    match goal with |- context [count _ _ _ _ ?e] => pose proof (count_shape now id token m1 e) as Hc; destruct (count _ id token m1 e) as [r m'] end.
    cbn [le_attempts le_windowEnds le_lockedUntil] in Hc. rewrite Z.div_mul in Hc by done.
    apply Hc; [lia|done|unfold millisecond; lia|done|by eexists].
  - by rewrite (After_past l), (After_past w).
  - done.
Qed.

Lemma entry_release_shape now id res m p :
  0 ≤ now → entry_shape now (m !! id) p →
  entry_shape now (release (now * millisecond) id res m !! id) (phase_release now res p) ∧
  ∀ id', id' ≠ id → release (now * millisecond) id res m !! id' = m !! id'.
Proof.
  intros H0 H. split.
  - unfold release, phase_release. rewrite (entry_settled_shape _ _ _ H).
    destruct (m !! id) as [e|] eqn:Hm; inversion H as [|n w t until Hu Hw Hn|n ends l t Hu Hn Hl|n w l t Hw Hl];
      subst; destruct (lr_admission res); cbn [le_attempts le_windowEnds le_lockedUntil le_lockToken];
      rewrite ?After_ms, ?(After_past l), ?(After_past w), ?andb_false_r by done; cbn [andb]; try by rewrite Hm.
    + destruct (Z.ltb_spec now until); [|lia]. simpl.
      destruct (bool_decide_reflect (t = lr_token res)); [|by rewrite Hm].
      rewrite lookup_insert_eq.
      replace (now * millisecond + passwordLockoutWindow) with ((now + window_ms) * millisecond)
        by (rewrite window_ms_eq; unfold passwordLockoutWindow, minute, second, millisecond; lia).
      constructor; [rewrite window_ms_eq; lia|done|]. unfold zeroTime, second, millisecond. lia.
    + destruct (Z.ltb_spec 0 n); [|lia]. destruct (Z.ltb_spec now ends); [|lia]. simpl.
      destruct (Z.eqb_spec (n - 1) 0), (Z.eqb_spec n 1); try lia; simpl.
      * rewrite lookup_delete_eq. constructor.
      * rewrite lookup_insert_eq. by constructor; [|lia|].
  - intros id' Hne. unfold release. destruct (m !! id); [|done].
    destruct (lr_admission res); go_cases; rewrite ?lookup_insert_ne, ?lookup_delete_ne by done; done.
Qed.

(** Times of the clock are after 1970. *)
#[global, refine] Instance memory_store : LockoutStore entries := {|
  st_reserve := λ now, reserve (now * millisecond);
  st_release := λ now, release (now * millisecond);
  st_clear := λ _, clear;
  st_phase := λ now m id, entry_phase now (m !! id);
  st_valid := λ now m, 0 ≤ now ∧ ∀ id, entry_shape now (m !! id) (entry_phase now (m !! id));
|}.
Proof.
  - intros now m id [_ Hm]. specialize (Hm id). by destruct Hm.
  - intros now t m [H0 Hm] Ht. split; [lia|]. intros id.
    pose proof (entry_shape_later _ t _ _ (Hm id) Ht) as H. by rewrite (entry_shape_phase _ _ _ H).
  - intros now t m id [H0 Hm] Ht. exact (entry_shape_phase _ _ _ (entry_shape_later _ t _ _ (Hm id) Ht)).
  - intros now id token m [H0 Hm] _. pose proof (entry_reserve_shape now id token m _ H0 (Hm id)) as Hr.
    destruct (reserve _ id token m) as [r m']. destruct Hr as (p & Hp & -> & Hother). simpl. split_and!.
    + done.
    + intros id'. destruct (decide (id' = id)) as [->|].
      * by rewrite (entry_shape_phase _ _ _ Hp).
      * rewrite Hother by done. pose proof (shape_sweep _ _ _ _ (Hm id')) as Hs.
        by rewrite (entry_shape_phase _ _ _ Hs).
    + by rewrite (entry_shape_phase _ _ _ Hp).
    + intros id' ?. rewrite Hother by done. exact (entry_shape_phase _ _ _ (shape_sweep _ _ _ _ (Hm id'))).
  - intros now id res m [H0 Hm] _.
    destruct (entry_release_shape now id res m _ H0 (Hm id)) as [Hp Hother]. split_and!.
    + done.
    + intros id'. destruct (decide (id' = id)) as [->|].
      * by rewrite (entry_shape_phase _ _ _ Hp).
      * by rewrite Hother.
    + exact (entry_shape_phase _ _ _ Hp).
    + intros id' ?. by rewrite Hother.
  - intros now id m [H0 Hm]. unfold clear. split_and!.
    + done.
    + intros id'. destruct (decide (id' = id)) as [->|].
      * rewrite lookup_delete_eq. constructor.
      * by rewrite lookup_delete_ne.
    + by rewrite lookup_delete_eq.
    + intros id' ?. by rewrite lookup_delete_ne.
Defined.
End MemoryStore.

(** ** Both stores answer the same *)

Inductive lockout_op :=
| Reserve (id : uuid) (token : string)
| Release (id : uuid) (res : lockoutReservation)
| Clear (id : uuid).

(** Tokens of locks are the text of a UUID, never empty. *)
Definition op_ok (o : lockout_op) : Prop :=
  match o with
  | Reserve _ token => token ≠ ""
  | Release _ res => lr_admission res = lockoutAdmittedLast → lr_token res ≠ ""
  | Clear _ => True
  end.

(** Operations with their times, which do not go back. *)
Fixpoint ops_ok (now : Z) (ops : list (Z * lockout_op)) : Prop :=
  match ops with
  | [] => True
  | (t, o) :: ops => now ≤ t ∧ op_ok o ∧ ops_ok t ops
  end.

Section stores.
Context {S : Type} `{ST : LockoutStore S}.

Definition do_op (t : Z) (o : lockout_op) (s : S) : option lockoutReservation * S :=
  match o with
  | Reserve id token => let '(r, s) := st_reserve t id token s in (Some r, s)
  | Release id res => (None, st_release t id res s)
  | Clear id => (None, st_clear t id s)
  end.

(** What the operations are answered. *)
Fixpoint answers (ops : list (Z * lockout_op)) (s : S) : list (option lockoutReservation) :=
  match ops with
  | [] => []
  | (t, o) :: ops => let '(r, s) := do_op t o s in r :: answers ops s
  end.
End stores.

(** What an operation does to the phases of all accounts. *)
Definition phase_op (t : Z) (o : lockout_op) (P : uuid → phase) : option lockoutReservation * (uuid → phase) :=
  match o with
  | Reserve id token =>
      let '(r, p) := phase_reserve t token (P id) in
      (Some r, λ id', if decide (id' = id) then p else P id')
  | Release id res => (None, λ id', if decide (id' = id) then phase_release t res (P id) else P id')
  | Clear id => (None, λ id', if decide (id' = id) then Free else P id')
  end.

Lemma do_op_phase {S : Type} `{ST : LockoutStore S} now t o (s : S) :
  st_valid now s → now ≤ t → op_ok o →
  st_valid t (do_op t o s).2 ∧
  (do_op t o s).1 = (phase_op t o (λ id, settled t (st_phase now s id))).1 ∧
  ∀ id, st_phase t (do_op t o s).2 id = (phase_op t o (λ id, settled t (st_phase now s id))).2 id.
Proof.
  intros Hs Ht Ho. pose proof (st_later _ _ _ Hs Ht) as Hv.
  assert (∀ id, settled t (st_phase now s id) = st_phase t s id) as Hph
    by (intros id; by rewrite (st_phase_later _ _ _ _ Hs Ht)).
  destruct o as [id token|id res|id]; simpl in *.
  - destruct (st_reserve_ok t id token s Hv Ho) as (Hv' & Hr & Hother). rewrite Hph, <-Hr.
    destruct (st_reserve t id token s) as [r s']. simpl in *. split_and!; [done|done|].
    intros id'. case_decide; [by subst|]. by rewrite Hph, Hother.
  - destruct (st_release_ok t id res s Hv Ho) as (Hv' & Hr & Hother). split_and!; [done|done|].
    intros id'. case_decide; [by subst; rewrite Hph|]. by rewrite Hph, Hother.
  - destruct (st_clear_ok t id s Hv) as (Hv' & Hr & Hother). split_and!; [done|done|].
    intros id'. case_decide; [by subst|]. by rewrite Hph, Hother.
Qed.

Lemma phase_op_ext t o P Q :
  (∀ id, P id = Q id) →
  (phase_op t o P).1 = (phase_op t o Q).1 ∧ ∀ id, (phase_op t o P).2 id = (phase_op t o Q).2 id.
Proof.
  intros H. destruct o as [id token|id res|id]; simpl; rewrite ?H.
  - destruct (phase_reserve t token (Q id)). split; [done|]. intros id'. simpl. by case_decide.
  - split; [done|]. intros id'. by case_decide.
  - split; [done|]. intros id'. by case_decide.
Qed.

(** Two stores whose accounts are in the same phases answer the same for ever. *)
Lemma answers_agree {S1 S2 : Type} `{LockoutStore S1} `{LockoutStore S2} now ops (s1 : S1) (s2 : S2) :
  st_valid now s1 → st_valid now s2 → ops_ok now ops →
  (∀ id, st_phase now s1 id = st_phase now s2 id) → answers ops s1 = answers ops s2.
Proof.
  revert now s1 s2. induction ops as [|[t o] ops IH]; intros now s1 s2 H1 H2 Hops Heq; simpl; [done|].
  destruct Hops as (Ht & Ho & Hops).
  destruct (do_op_phase now t o s1 H1 Ht Ho) as (Hv1 & Hr1 & Hp1).
  destruct (do_op_phase now t o s2 H2 Ht Ho) as (Hv2 & Hr2 & Hp2).
  destruct (phase_op_ext t o (λ id, settled t (st_phase now s1 id)) (λ id, settled t (st_phase now s2 id)))
    as [Hr Hp]; [intros id; by rewrite Heq|].
  destruct (do_op t o s1) as [r1 s1'], (do_op t o s2) as [r2 s2']. simpl in *. f_equal; [congruence|].
  apply (IH t); [done..|]. intros id. by rewrite Hp1, Hp2.
Qed.

(** C4: Redis and the memory of the process implement the same lockout. Whatever accounts reserve,
    release and clear, in any order and at any times, both stores answer every attempt the same: the
    same admission, the same count, the same wait, the same lock. *)
Theorem stores_agree now ops :
  0 ≤ now → ops_ok now ops →
  answers ops (∅ : gmap uuid Memory.memoryLockoutEntry) = answers ops (∅ : gmap uuid Redis.keys).
Proof.
  intros H0 Hops. apply (answers_agree now); [| |done|done].
  - split; [done|]. intros id. rewrite lookup_empty. constructor.
  - intros id. simpl. constructor; by left.
Qed.

(** ** How many guesses an account can be tried with

    [guessed id since now s l]: the attempts at the current password of [id]
    that were admitted and not given back, since the password was last changed
    or the count began. An attempt is given back only when its password was
    right, so the wrong ones are all in [l]. *)
Section ceiling.
Context {S : Type} `{ST : LockoutStore S} (id : uuid).

Inductive guessed : Z → Z → S → list lockoutReservation → Prop :=
| guess_start now s : st_valid now s → st_phase now s id = Free → guessed now now s []
| guess_wait since now t s l : guessed since now s l → now ≤ t → guessed since t s l
| guess_reserve since now s l token r s' :
    guessed since now s l → token ≠ "" → st_reserve now id token s = (r, s') →
    guessed since now s' (if decide (lr_admission r = lockoutRefused) then l else r :: l)
| guess_release since now s l1 r l2 :
    guessed since now s (l1 ++ r :: l2) → guessed since now (st_release now id r s) (l1 ++ l2)
| guess_clear since now s l : guessed since now s l → guessed now now (st_clear now id s) []
| guess_other since now s l o :
    guessed since now s l → op_ok o →
    match o with Reserve id' _ | Release id' _ | Clear id' => id' ≠ id end →
    guessed since now (do_op now o s).2 l.

(** The wrong attempts paid for by the time that has passed. *)
Definition paid (since now c : Z) (p : phase) : Prop :=
  match p with
  | Free => c * lock_ms ≤ passwordLockoutThreshold * (now - since)
  | Counting n ends =>
      (c - n) * lock_ms ≤ passwordLockoutThreshold * (ends - window_ms - since) ∧ ends - window_ms ≤ now
  | Locked until _ =>
      c * lock_ms ≤ passwordLockoutThreshold * (until - since) ∧ until ≤ now + lock_ms
  end.

Ltac numbers := unfold passwordLockoutThreshold in *; rewrite ?lock_ms_eq, ?window_ms_eq in *.

Lemma paid_settled since now t c p :
  paid since now c p → phase_ok p → now ≤ t → paid since t c (settled t p).
Proof.
  intros Hp Hok Ht. destruct p as [|n ends|until tok]; simpl in *.
  - numbers. lia.
  - destruct (Z.ltb_spec t ends); simpl; numbers; lia.
  - destruct (Z.ltb_spec t until); simpl; numbers; lia.
Qed.

Lemma paid_less since now c c' p : c' ≤ c → paid since now c p → paid since now c' p.
Proof. intros Hc. destruct p; simpl; numbers; lia. Qed.

Lemma paid_reserve since now token c p :
  paid since now c p → phase_ok p → settled now p = p →
  let '(r, p') := phase_reserve now token p in
  paid since now (if decide (lr_admission r = lockoutRefused) then c else c + 1) p'.
Proof.
  intros Hp Hok Hs. unfold phase_reserve, nth_attempt. rewrite Hs.
  destruct p as [|n ends|until tok]; simpl in *; [| |done].
  - numbers. lia.
  - destruct (Z.leb_spec passwordLockoutThreshold (n + 1)); simpl; numbers; lia.
Qed.

Lemma paid_release since now res c p :
  paid since now c p → phase_ok p → settled now p = p → paid since now (c - 1) (phase_release now res p).
Proof.
  intros Hp Hok Hs. unfold phase_release. rewrite Hs.
  destruct (lr_admission res), p as [|n ends|until tok]; simpl in *; go_cases; simpl; numbers; lia.
Qed.

Lemma guessed_paid since now s l :
  guessed since now s l →
  st_valid now s ∧ Forall (λ r, lr_admission r = lockoutAdmittedLast → lr_token r ≠ "") l ∧
  paid since now (Z.of_nat (length l)) (st_phase now s id).
Proof.
  assert (∀ now s, st_valid now s → settled now (st_phase now s id) = st_phase now s id) as Hset.
  { intros now' s' Hv. by rewrite <-(st_phase_later now' now' s' id Hv) by lia. }
  induction 1 as [now s Hv Hf|since now t s l _ (Hv & Hl & Hp) Ht|since now s l token r s' _ (Hv & Hl & Hp) Htok Hr
    |since now s l1 r l2 _ (Hv & Hl & Hp)|since now s l _ (Hv & Hl & Hp)|since now s l o _ (Hv & Hl & Hp) Ho Hid].
  - rewrite Hf. split_and!; [done|constructor|]. simpl. numbers. lia.
  - split_and!; [by eapply st_later|done|]. rewrite (st_phase_later now) by done.
    apply (paid_settled since now); [done|by apply st_phase_ok|done].
  - destruct (st_reserve_ok now id token s Hv Htok) as (Hv' & He & _). rewrite Hr in *. simpl in *.
    pose proof (paid_reserve since now token _ _ Hp (st_phase_ok _ _ _ Hv) (Hset _ _ Hv)) as Hp'.
    rewrite <-He in Hp'. split_and!; [done| |].
    + case_decide; [done|]. constructor; [|done]. intros Hlast. revert He Hlast. unfold phase_reserve, nth_attempt.
      clear -Htok. destruct (settled now _); [go_cases| |]; go_cases; intros [= -> _]; simpl; naive_solver.
    + case_decide; [done|]. simpl length. by rewrite Nat2Z.inj_succ, <-Z.add_1_r.
  - apply Forall_app in Hl as [Hl1 Hl2]. apply Forall_cons in Hl2 as [Hr Hl2].
    destruct (st_release_ok now id r s Hv Hr) as (Hv' & -> & _). split_and!; [done|by apply Forall_app|].
    pose proof (paid_release since now r _ _ Hp (st_phase_ok _ _ _ Hv) (Hset _ _ Hv)) as Hp'.
    rewrite length_app in *. simpl in Hp'. by replace (Z.of_nat (length l1 + length l2))
      with (Z.of_nat (length l1 + Datatypes.S (length l2)) - 1) by lia.
  - destruct (st_clear_ok now id s Hv) as (Hv' & -> & _). split_and!; [done|constructor|]. simpl. numbers. lia.
  - destruct o as [id' token|id' res|id']; simpl in *.
    + destruct (st_reserve_ok now id' token s Hv Ho) as (Hv' & _ & Hoth).
      destruct (st_reserve now id' token s) as [r s']. simpl in *. by rewrite Hoth.
    + destruct (st_release_ok now id' res s Hv Ho) as (Hv' & _ & Hoth). by rewrite Hoth.
    + destruct (st_clear_ok now id' s Hv) as (Hv' & _ & Hoth). by rewrite Hoth.
Qed.

(** C5: the lock cycle is the ceiling on guesses. However attempts at an account's current password
    interleave, with whatever waits, locks, right passwords and other accounts in between, the wrong
    ones that were checked since the password was set are at most five, and five more for every half
    hour that has passed. *)
Theorem guess_ceiling since now s l :
  guessed since now s l →
  Z.of_nat (length l) * passwordLockoutDuration ≤
    passwordLockoutThreshold * ((now - since) * millisecond + passwordLockoutDuration).
Proof.
  intros H. destruct (guessed_paid _ _ _ _ H) as (Hv & _ & Hp).
  pose proof (st_phase_ok now s id Hv) as Hok.
  replace passwordLockoutDuration with (lock_ms * millisecond) by done.
  destruct (st_phase now s id) as [|n ends|until tok]; simpl in *; numbers; unfold millisecond; lia.
Qed.
End ceiling.

(** An account that is guessed at five times, locked, and tried again after the lock, while another
    account proves its password. *)
Definition example_ops : list (Z * lockout_op) :=
  [(1000, Reserve 7 "a"); (1000, Reserve 7 "b"); (1001, Reserve 8 "c"); (1002, Release 8 (admitted 1));
   (1003, Reserve 7 "d"); (1004, Reserve 7 "e"); (1005, Reserve 7 "f"); (1006, Reserve 7 "g");
   (1801005, Reserve 7 "h")].

Lemma stores_agree_witness :
  answers example_ops (∅ : gmap uuid Memory.memoryLockoutEntry) = answers example_ops (∅ : gmap uuid Redis.keys) ∧
  answers example_ops (∅ : gmap uuid Redis.keys) =
    [Some (admitted 1); Some (admitted 2); Some (admitted 1); None; Some (admitted 3); Some (admitted 4);
     Some (admitted_last 5 (30 * minute) "f"); Some (refused (30 * minute - millisecond)); Some (admitted 1)].
Proof.
  split; [|vm_compute; reflexivity].
  apply (stores_agree 1000 example_ops); [lia|]. simpl. repeat (split; [done|]). done.
Defined.

Definition guess (now : Z) (token : string) (m : gmap uuid Memory.memoryLockoutEntry) :
    gmap uuid Memory.memoryLockoutEntry := (st_reserve now 7 token m).2.

Lemma guess_ceiling_witness :
  Z.of_nat (length [admitted_last 5 passwordLockoutDuration "e"; admitted 4; admitted 3; admitted 2; admitted 1]) *
    passwordLockoutDuration ≤ passwordLockoutThreshold * ((1004 - 1000) * millisecond + passwordLockoutDuration).
Proof.
  apply (guess_ceiling 7 1000 1004
    (guess 1004 "e" (guess 1003 "d" (guess 1002 "c" (guess 1001 "b" (guess 1000 "a" ∅)))))).
  assert (guessed 7 1000 1000 (∅ : gmap uuid Memory.memoryLockoutEntry) []) as H0.
  { apply guess_start; [|done]. split; [done|]. intros id. rewrite lookup_empty. constructor. }
  pose proof (guess_reserve 7 _ _ _ _ "a" _ (guess 1000 "a" ∅) H0 ltac:(done) ltac:(apply surjective_pairing)) as H1.
  apply (guess_wait _ _ _ 1001) in H1; [|done].
  pose proof (guess_reserve 7 _ _ _ _ "b" _ (guess 1001 "b" _) H1 ltac:(done) ltac:(apply surjective_pairing)) as H2.
  apply (guess_wait _ _ _ 1002) in H2; [|done].
  pose proof (guess_reserve 7 _ _ _ _ "c" _ (guess 1002 "c" _) H2 ltac:(done) ltac:(apply surjective_pairing)) as H3.
  apply (guess_wait _ _ _ 1003) in H3; [|done].
  pose proof (guess_reserve 7 _ _ _ _ "d" _ (guess 1003 "d" _) H3 ltac:(done) ltac:(apply surjective_pairing)) as H4.
  apply (guess_wait _ _ _ 1004) in H4; [|done].
  pose proof (guess_reserve 7 _ _ _ _ "e" _ (guess 1004 "e" _) H4 ltac:(done) ltac:(apply surjective_pairing)) as H5.
  exact H5.
Defined.
