(* ===== verification/AuthDb.v ===== *)
(** * Accounts and sessions

    The rows of [db/generated/models.go] that signing in keeps ([User],
    [Session]), the queries of [db/generated/users.sql.go],
    [db/generated/sessions.sql.go], [ldap.sql.go], [oidc.sql.go] and
    [rbac.sql.go] on them, and what the handlers ask of a database error
    ([api/handlers/db_errors.go]).

    A table is a map from the primary key to the row. A query that writes gives
    the rows it writes, not the whole table: that is what it locks, and what a
    transaction keeps to itself until it commits ([AuthOps]). Times are
    nanoseconds. The trigger that sets [updated_at] is left out: nothing here
    reads the column. *)

From S2P Require Import Prelude GoStrings.

Local Open Scope Z_scope.

(** ** Errors *)

(** What [errors.Is], [errors.As] and [pgconn.SafeToRetry] say of an error of
    the database: no row, the end of a context, the end of a stream or a closed
    network connection, a [net.Error], a [pgconn.ConnectError], a closed pool,
    [SafeToRetry], the SQLSTATE of a [pgconn.PgError], [pgx.ErrTxCommitRollback],
    [pgx.ErrTxClosed], and the text. *)
Record db_error := {
  de_NoRows : bool; de_Context : bool; de_EOF : bool; de_Net : bool; de_Connect : bool;
  de_PoolClosed : bool; de_SafeToRetry : bool; de_PgCode : option string;
  de_TxCommitRollback : bool; de_TxClosed : bool; de_Text : string }.

Definition ErrNoRows : db_error :=
  {| de_NoRows := true; de_Context := false; de_EOF := false; de_Net := false; de_Connect := false;
     de_PoolClosed := false; de_SafeToRetry := false; de_PgCode := None;
     de_TxCommitRollback := false; de_TxClosed := false; de_Text := "no rows in result set" |}.

Definition transientSQLState (code : string) : bool :=
  HasPrefix code "08" || HasPrefix code "53" ||
  contains ["57P01"; "57P02"; "57P03"; "57P05"; "57014"; "40001"; "40P01"; "55P03"; "25006"; "25P03"] code.

Definition isTransientDBError (e : db_error) : bool :=
  if de_Context e then true
  else if de_EOF e then true
  else if de_Net e then true
  else if de_Connect e then true
  else if de_PoolClosed e then true
  else if de_SafeToRetry e then true
  else match de_PgCode e with Some code => transientSQLState code | None => false end.

Definition commitOutcomeUnknown (e : db_error) : bool :=
  if de_SafeToRetry e && de_Context e then false
  else match de_PgCode e with
       | Some _ => false
       | None => negb (de_TxCommitRollback e) && negb (de_TxClosed e)
       end.

Definition isDuplicateKeyError (e : db_error) : bool :=
  Contains (de_Text e) "duplicate key" || Contains (de_Text e) "unique constraint".

(** ** Rows *)

Record User := {
  u_ID : uuid; u_Email : string; u_PasswordHash : string; u_DisplayName : string; u_IsActive : bool;
  u_TotpSecret : option string; u_CreatedAt : Z; u_UpdatedAt : Z; u_Role : string;
  u_AuthSource : string; u_AuthEpoch : Z }.

Record Session := {
  s_ID : uuid; s_UserID : uuid; s_TokenHash : string; s_UserAgent : string; s_IpAddress : string;
  s_IsRevoked : bool; s_CreatedAt : Z; s_ExpiresAt : Z; s_LastUsedAt : Z;
  s_DeviceName : option string; s_DeviceType : option string; s_DeviceID : option string;
  s_UserRole : string; s_PreviousTokenHash : option string; s_RotatedAt : option Z }.

Record Tables := { users : gmap uuid User; sessions : gmap uuid Session }.

Definition no_rows : Tables := {| users := ∅; sessions := ∅ |}.

(** The tables with the rows of [w] written over them. *)
Definition written (w d : Tables) : Tables :=
  {| users := users w ∪ users d; sessions := sessions w ∪ sessions d |}.

Definition select {A} (P : A → bool) (m : gmap uuid A) : list A := List.filter P (map_to_list m).*2.

Definition only_users (m : gmap uuid User) : Tables := {| users := m; sessions := ∅ |}.
Definition only_sessions (m : gmap uuid Session) : Tables := {| users := ∅; sessions := m |}.

(** ** Accounts *)

Definition getUserByID (id : uuid) (d : Tables) : list User := option_list (users d !! id).
Definition getUserByEmail (email : string) (d : Tables) : list User :=
  select (λ u, bool_decide (u_Email u = email)) (users d).
Definition getUserByEmailAndSource (email source : string) (d : Tables) : list User :=
  select (λ u, bool_decide (u_Email u = email) && bool_decide (u_AuthSource u = source)) (users d).
Definition getPasswordHashForSettle (id : uuid) (d : Tables) : list string :=
  u_PasswordHash <$> option_list (users d !! id).

Definition set_epoch (e : Z) (u : User) : User :=
  {| u_ID := u_ID u; u_Email := u_Email u; u_PasswordHash := u_PasswordHash u;
     u_DisplayName := u_DisplayName u; u_IsActive := u_IsActive u; u_TotpSecret := u_TotpSecret u;
     u_CreatedAt := u_CreatedAt u; u_UpdatedAt := u_UpdatedAt u; u_Role := u_Role u;
     u_AuthSource := u_AuthSource u; u_AuthEpoch := e |}.

Definition set_password (h : string) (u : User) : User :=
  {| u_ID := u_ID u; u_Email := u_Email u; u_PasswordHash := h;
     u_DisplayName := u_DisplayName u; u_IsActive := u_IsActive u; u_TotpSecret := u_TotpSecret u;
     u_CreatedAt := u_CreatedAt u; u_UpdatedAt := u_UpdatedAt u; u_Role := u_Role u;
     u_AuthSource := u_AuthSource u; u_AuthEpoch := u_AuthEpoch u |}.

Definition set_profile (name : string) (active : bool) (role : string) (u : User) : User :=
  {| u_ID := u_ID u; u_Email := u_Email u; u_PasswordHash := u_PasswordHash u;
     u_DisplayName := name; u_IsActive := active; u_TotpSecret := u_TotpSecret u;
     u_CreatedAt := u_CreatedAt u; u_UpdatedAt := u_UpdatedAt u; u_Role := role;
     u_AuthSource := u_AuthSource u; u_AuthEpoch := u_AuthEpoch u |}.

(** [UPDATE users SET auth_epoch = auth_epoch + 1]: a [bigint], which fails
    rather than wrap. *)
Definition bumpUserAuthEpoch (id : uuid) (d : Tables) : option (Tables * Z) :=
  match users d !! id with
  | None => Some (no_rows, 0)
  | Some u =>
      if u_AuthEpoch u =? maxInt64 then None
      else Some (only_users {[id := set_epoch (u_AuthEpoch u + 1) u]}, 1)
  end.

Record UpdatePasswordParams := { up_PasswordHash : string; up_ID : uuid; up_ExpectedHash : string }.

Definition updatePassword (arg : UpdatePasswordParams) (d : Tables) : Tables * Z :=
  match users d !! up_ID arg with
  | Some u =>
      if bool_decide (u_PasswordHash u = up_ExpectedHash arg)
      then (only_users {[up_ID arg := set_password (up_PasswordHash arg) u]}, 1) else (no_rows, 0)
  | None => (no_rows, 0)
  end.

Record UpdateUserProfileParams := {
  uu_DisplayName : option string; uu_IsActive : option bool; uu_Role : option string; uu_ID : uuid }.

Definition updateUserProfile (arg : UpdateUserProfileParams) (d : Tables) : option (Tables * User) :=
  (λ u, let u' := set_profile (default (u_DisplayName u) (uu_DisplayName arg))
                    (default (u_IsActive u) (uu_IsActive arg)) (default (u_Role u) (uu_Role arg)) u in
        (only_users {[uu_ID arg := u']}, u')) <$> users d !! uu_ID arg.

(** [UpdateLDAPUserProfile] and [UpdateOIDCUserProfile], which differ in the source. *)
Definition updateDisplayName (source : string) (id : uuid) (name : string) (d : Tables) :
    option (Tables * User) :=
  match users d !! id with
  | Some u =>
      if bool_decide (u_AuthSource u = source)
      then let u' := set_profile name (u_IsActive u) (u_Role u) u in Some (only_users {[id := u']}, u')
      else None
  | None => None
  end.

Record CreateUserParams := {
  cu_Email : string; cu_PasswordHash : string; cu_DisplayName : string; cu_IsActive : bool;
  cu_TotpSecret : option string; cu_Role : string; cu_AuthSource : string }.

(** An insert into users with the primary key [id]; [cu_AuthSource] is the
    column's default, 'local', or what the query names. *)
Definition createUser (arg : CreateUserParams) (id : uuid) (now : Z) : User :=
  {| u_ID := id; u_Email := cu_Email arg; u_PasswordHash := cu_PasswordHash arg;
     u_DisplayName := cu_DisplayName arg; u_IsActive := cu_IsActive arg;
     u_TotpSecret := cu_TotpSecret arg; u_CreatedAt := now; u_UpdatedAt := now;
     u_Role := cu_Role arg; u_AuthSource := cu_AuthSource arg; u_AuthEpoch := 0 |}.

Definition provisioned (source email name : string) : CreateUserParams :=
  {| cu_Email := email; cu_PasswordHash := ""; cu_DisplayName := name; cu_IsActive := true;
     cu_TotpSecret := None; cu_Role := "user"; cu_AuthSource := source |}.

(** The well-known system actor, which does not count as an account. *)
Definition SystemUserID : uuid := 1.

Definition countUsers (d : Tables) : Z :=
  Z.of_nat (length (select (λ u, negb (bool_decide (u_ID u = SystemUserID))) (users d))).

(** ** Sessions *)

Record CreateSessionAtEpochParams := {
  cs_TokenHash : string; cs_UserAgent : string; cs_IpAddress : string; cs_ExpiresAt : Z;
  cs_DeviceName : option string; cs_DeviceType : option string; cs_DeviceID : option string;
  cs_UserRole : string; cs_UserID : uuid; cs_Epoch : Z }.

(** [WHERE u.id = $9 AND u.auth_epoch = $10 AND u.is_active]: whether the
    account lets the session be created. *)
Definition at_epoch (arg : CreateSessionAtEpochParams) (d : Tables) : bool :=
  match users d !! cs_UserID arg with
  | Some u => (u_AuthEpoch u =? cs_Epoch arg) && u_IsActive u
  | None => false
  end.

Definition new_session (arg : CreateSessionAtEpochParams) (id : uuid) (now : Z) : Session :=
  {| s_ID := id; s_UserID := cs_UserID arg; s_TokenHash := cs_TokenHash arg;
     s_UserAgent := cs_UserAgent arg; s_IpAddress := cs_IpAddress arg; s_IsRevoked := false;
     s_CreatedAt := now; s_ExpiresAt := cs_ExpiresAt arg; s_LastUsedAt := now;
     s_DeviceName := cs_DeviceName arg; s_DeviceType := cs_DeviceType arg;
     s_DeviceID := cs_DeviceID arg; s_UserRole := cs_UserRole arg;
     s_PreviousTokenHash := None; s_RotatedAt := None |}.

Definition createSessionAtEpoch (arg : CreateSessionAtEpochParams) (id : uuid) (now : Z) (d : Tables) :
    option (Tables * Session) :=
  if at_epoch arg d
  then Some (only_sessions {[id := new_session arg id now]}, new_session arg id now) else None.

Definition getSessionByID (id : uuid) (d : Tables) : list Session := option_list (sessions d !! id).

Definition getSessionByTokenHash (h : string) (d : Tables) : list Session :=
  select (λ s, bool_decide (s_TokenHash s = h) && negb (s_IsRevoked s)) (sessions d).

Definition getSessionByPreviousTokenHash (h : string) (window now : Z) (d : Tables) : list Session :=
  select (λ s, bool_decide (s_PreviousTokenHash s = Some h) && negb (s_IsRevoked s) &&
               (now <? s_ExpiresAt s) &&
               match s_RotatedAt s with Some t => now - window <? t | None => false end) (sessions d).

Definition live_of (id : uuid) (s : Session) : bool :=
  bool_decide (s_UserID s = id) && negb (s_IsRevoked s).

(** Newest first. *)
Definition listUserSessions (id : uuid) (now : Z) (d : Tables) : list Session :=
  insertion_sort (λ a b, s_CreatedAt b <? s_CreatedAt a)
    (select (λ s, live_of id s && (now <? s_ExpiresAt s)) (sessions d)).

Definition set_revoked (s : Session) : Session :=
  {| s_ID := s_ID s; s_UserID := s_UserID s; s_TokenHash := s_TokenHash s;
     s_UserAgent := s_UserAgent s; s_IpAddress := s_IpAddress s; s_IsRevoked := true;
     s_CreatedAt := s_CreatedAt s; s_ExpiresAt := s_ExpiresAt s; s_LastUsedAt := s_LastUsedAt s;
     s_DeviceName := s_DeviceName s; s_DeviceType := s_DeviceType s; s_DeviceID := s_DeviceID s;
     s_UserRole := s_UserRole s; s_PreviousTokenHash := s_PreviousTokenHash s;
     s_RotatedAt := s_RotatedAt s |}.

Definition revokeSession (id : uuid) (d : Tables) : Tables :=
  match sessions d !! id with
  | Some s => only_sessions {[id := set_revoked s]}
  | None => no_rows
  end.

(** The sessions [RevokeAllUserSessions] sees when it starts. *)
Definition seen_sessions (id : uuid) (d : Tables) : list uuid :=
  (map_to_list (filter (λ kv, live_of id kv.2 = true) (sessions d))).*1.

(** What it then writes: of the rows it saw, those that still match once it holds
    their locks. A session inserted while it waited for a lock is not among them. *)
Definition revokeAllUserSessions (id : uuid) (seen : list uuid) (d : Tables) : Tables :=
  only_sessions (set_revoked <$> filter (λ kv, live_of id kv.2 = true ∧ kv.1 ∈ seen) (sessions d)).

Record RotateSessionTokenParams := {
  rt_NewTokenHash : string; rt_UserRole : string; rt_ID : uuid; rt_OldTokenHash : string }.

Definition rotated (arg : RotateSessionTokenParams) (now clock : Z) (s : Session) : Session :=
  {| s_ID := s_ID s; s_UserID := s_UserID s; s_TokenHash := rt_NewTokenHash arg;
     s_UserAgent := s_UserAgent s; s_IpAddress := s_IpAddress s; s_IsRevoked := s_IsRevoked s;
     s_CreatedAt := s_CreatedAt s; s_ExpiresAt := s_ExpiresAt s; s_LastUsedAt := now;
     s_DeviceName := s_DeviceName s; s_DeviceType := s_DeviceType s; s_DeviceID := s_DeviceID s;
     s_UserRole := rt_UserRole arg; s_PreviousTokenHash := Some (s_TokenHash s);
     s_RotatedAt := Some clock |}.

Definition rotateSessionToken (arg : RotateSessionTokenParams) (now clock : Z) (d : Tables) : Tables * Z :=
  match sessions d !! rt_ID arg with
  | Some s =>
      if bool_decide (s_TokenHash s = rt_OldTokenHash arg) && negb (s_IsRevoked s) && (now <? s_ExpiresAt s)
      then (only_sessions {[rt_ID arg := rotated arg now clock s]}, 1) else (no_rows, 0)
  | None => (no_rows, 0)
  end.
