(* ===== verification/AuthOps.v ===== *)
(** * What signing in calls

    The calls the sign-in handlers make, as the constructors of [Op], and what
    they may be answered ([step]): statements on the pool and in a transaction,
    the random values, Redis, the directory, the second factor, the lockout, and
    the request itself.

    The database is PostgreSQL at READ COMMITTED, as far as these statements use
    it. A statement sees what is committed and, in a transaction, what the
    transaction itself has written. The rows a transaction has written are locked
    until it ends: a statement that writes them, or takes them FOR SHARE, waits.
    A statement that fails may or may not have taken effect on the pool; in a
    transaction it ends it. A COMMIT whose answer is lost may have landed, may
    not have, or may be decided later ([tx_doubt]). [Elsewhere] is everything
    else the server and its other handlers do meanwhile.

    Each handler runs in a thread of its own, with at most one transaction. *)

From S2P Require Import Prelude GoStrings Effects AuthLockout AuthDb.

Local Open Scope Z_scope.

(** What the handlers use of libraries outside the source: [sha256.Sum256] and
    the bytes of its digest, the comparison of bcrypt, the parser of
    [golang-jwt] with the service's key (without the validation of times), and
    [net/mail]'s address parser. *)
Record Claims := { cl_UserID : uuid; cl_ConsoleScope : bool; cl_WSScope : string }.

(** The configuration of the handlers: the life of a refresh token, and whether
    the second factor and the identity provider are wired. *)
Class AuthConfig := { RefreshTokenTTL : Z; TOTPWired : bool; OIDCWired : bool }.

Class AuthLibrary := {
  Sum256 : string → list ascii;
  CheckPassword : string → string → bool;
  ParseClaims : string → option Claims;
  ParseAddress : string → bool;
}.

(** ** Statements *)

Inductive query : Type → Type :=
| GetUserByID (id : uuid) : query User
| GetUserByEmail (email : string) : query User
| GetUserByEmailAndSource (email source : string) : query User
| GetPasswordHashForSettle (id : uuid) : query string
| CountUsers : query Z
| CreateUser (arg : CreateUserParams) : query User
| UpdateDisplayName (source : string) (id : uuid) (name : string) : query User
| UpdateUserProfile (arg : UpdateUserProfileParams) : query User
| UpdatePassword (arg : UpdatePasswordParams) : query Z
| BumpUserAuthEpoch (id : uuid) : query Z
| CreateSessionAtEpoch (arg : CreateSessionAtEpochParams) : query Session
| GetSessionByID (id : uuid) : query Session
| GetSessionByTokenHash (h : string) : query Session
| GetSessionByPreviousTokenHash (h : string) (window : Z) : query Session
| ListUserSessions (id : uuid) : query (list Session)
| RotateSessionToken (arg : RotateSessionTokenParams) : query Z
| RevokeSession (id : uuid) : query unit
| SeenSessions (id : uuid) : query (list uuid)
| RevokeAllUserSessions (id : uuid) (seen : list uuid) : query unit.

(** What a statement runs with: [now()], [clock_timestamp()] and the key
    [gen_random_uuid()] hands out. *)
Record Env := { e_now : Z; e_clock : Z; e_fresh : uuid }.

(** A [:one] statement: one of the rows, or [pgx.ErrNoRows]. *)
Definition one {A} (rows : list A) (x : result db_error A) (w : Tables) : Prop :=
  w = no_rows ∧
  match rows with
  | [] => x = Err ErrNoRows
  | _ => ∃ r, r ∈ rows ∧ x = Ok r
  end.

Definition returning {A} (o : option (Tables * A)) (x : result db_error A) (w : Tables) : Prop :=
  match o with
  | Some (w', a) => w = w' ∧ x = Ok a
  | None => w = no_rows ∧ x = Err ErrNoRows
  end.

(** What a statement may answer on the tables [d] and the rows it writes. *)
Definition stmt {X} (q : query X) (env : Env) (d : Tables) : result db_error X → Tables → Prop :=
  match q in query X return result db_error X → Tables → Prop with
  | GetUserByID id => one (getUserByID id d)
  | GetUserByEmail email => one (getUserByEmail email d)
  | GetUserByEmailAndSource email source => one (getUserByEmailAndSource email source d)
  | GetPasswordHashForSettle id => one (getPasswordHashForSettle id d)
  | CountUsers => λ x w, w = no_rows ∧ x = Ok (countUsers d)
  | CreateUser arg => λ x w,
      let u := createUser arg (e_fresh env) (e_now env) in
      w = only_users {[e_fresh env := u]} ∧ x = Ok u
  | UpdateDisplayName source id name => returning (updateDisplayName source id name d)
  | UpdateUserProfile arg => returning (updateUserProfile arg d)
  | UpdatePassword arg => λ x w, w = (updatePassword arg d).1 ∧ x = Ok (updatePassword arg d).2
  | BumpUserAuthEpoch id => λ x w,
      match bumpUserAuthEpoch id d with Some (w', n) => w = w' ∧ x = Ok n | None => False end
  | CreateSessionAtEpoch arg => returning (createSessionAtEpoch arg (e_fresh env) (e_now env) d)
  | GetSessionByID id => one (getSessionByID id d)
  | GetSessionByTokenHash h => one (getSessionByTokenHash h d)
  | GetSessionByPreviousTokenHash h window => one (getSessionByPreviousTokenHash h window (e_now env) d)
  | ListUserSessions id => λ x w,
      w = no_rows ∧ ∃ l, l ≡ₚ listUserSessions id (e_now env) d ∧
                         ordered_by (λ a b, s_CreatedAt b <? s_CreatedAt a) l ∧ x = Ok l
  | RotateSessionToken arg => λ x w,
      w = (rotateSessionToken arg (e_now env) (e_clock env) d).1 ∧
      x = Ok (rotateSessionToken arg (e_now env) (e_clock env) d).2
  | RevokeSession id => λ x w, w = revokeSession id d ∧ x = Ok tt
  | SeenSessions id => λ x w, w = no_rows ∧ x = Ok (seen_sessions id d)
  | RevokeAllUserSessions id seen => λ x w, w = revokeAllUserSessions id seen d ∧ x = Ok tt
  end.

(** The accounts a statement locks without writing them (FOR SHARE). *)
Definition shares {X} (q : query X) (d : Tables) : gset uuid :=
  match q with
  | CreateSessionAtEpoch arg => if at_epoch arg d then {[cs_UserID arg]} else ∅
  | GetPasswordHashForSettle id => {[id]}
  | _ => ∅
  end.

(** ** Requests and answers *)

Inductive cookie := CookieKept | CookieCleared | CookieSet (token : string).

(** An answer: the status, what becomes of the refresh cookie, the account and
    session of the access token it carries, a second-factor challenge, and the
    message. *)
Record response := {
  r_Status : Z; r_Cookie : cookie; r_Access : option (uuid * uuid); r_Pending : option string;
  r_Message : string }.

(** What the handlers read of a request besides their parameters. *)
Record http := {
  h_Cookie : string; h_Cookies : nat; h_User : option uuid; h_Role : string; h_Authorization : string;
  h_UserAgent : string; h_IP : string; h_DeviceType : string; h_DeviceName : string; h_DeviceID : string }.

(** What a directory or an identity provider says of a user it vouches for. *)
Record external_user := { x_Email : string; x_DisplayName : string }.

Inductive request :=
| RegisterRequest (email password displayName : string)
| LoginRequest (email password : string)
| VerifyLoginRequest (pendingToken code recoveryCode : string)
| OIDCCallbackRequest (autoProvision : bool) (info : external_user)
| OIDCExchangeRequest (code : string) (bound : bool)
| RefreshRequest (refreshToken : string)
| LogoutRequest (refreshToken : string)
| LogoutAllRequest
| RevokeSessionRequest (sessionID : uuid)
| ChangePasswordRequest (oldPassword newPassword : string)
| UpdateUserRequest (profile : UpdateUserProfileParams).

(** [totpPendingLogin]; [p_UserID] is [None] where [uuid.Parse] fails. *)
Record totpPendingLogin := {
  p_UserID : option uuid; p_AuditAction : string; p_AuthEpoch : option Z }.

(** The data of an exchange code, decoded in the same way. *)
Record oidcExchange := { x_UserID : option uuid; x_Epoch : option Z }.

Inductive password_error := ErrPasswordTooShort | ErrPasswordTooLong | ErrPasswordWeak | ErrPasswordHash.

(** ** Calls *)

(** Whether a statement runs on the pool or in the thread's transaction. *)
Inductive conn := Pool | Tx.

Inductive Op : Type → Type :=
| Query (c : conn) {A} (q : query A) : Op (result db_error A)
| Begin : Op (result db_error unit)
| Commit : Op (result db_error unit)
| Rollback : Op unit
| Now : Op Z
| GenerateRefreshToken : Op (option string)
| RandomString : Op (option string)
| HashPassword (password : string) : Op (result password_error string)
| ValidatePasswordStrength (password : string) : Op (option password_error)
| HasGlobalPermission (action resource : string) : Op (option (option bool))
| SetPending (token : string) (p : totpPendingLogin) : Op bool
| GetPending (token : string) : Op (option (option totpPendingLogin))
| DelPending (token : string) : Op unit
| CountPendingAttempt (token : string) : Op (option Z)
| SetExchange (code : string) (x : oidcExchange) : Op bool
| GetDelExchange (code : string) : Op (option (option oidcExchange))
| IsUserTOTPLocked (userID : uuid) : Op bool
| ValidateCodeOrRecovery (userID : uuid) (secret code recoveryCode : string) : Op (option bool)
| RecordTOTPFailure (userID : uuid) : Op bool
| ClearTOTPFailures (userID : uuid) : Op unit
| LDAPAuthenticate (email password : string) : Op (option external_user)
| SyncUserRoles (userID : uuid) : Op unit
| AssignUserRole (userID role : uuid) : Op unit
| LoadPerms (userID : uuid) : Op (result db_error unit)
| LockoutReserve (userID : uuid) : Op (option lockoutReservation)
| LockoutRelease (userID : uuid) (res : lockoutReservation) : Op unit
| LockoutClear (userID : uuid) : Op unit
| AuditLogAs (userID : uuid) (action : string) : Op unit
| MirrorSession (sessionID : uuid) : Op unit
| ForgetSessions (ids : list uuid) : Op unit
| InvalidateUser (userID : uuid) : Op unit
| AdvisoryLock : Op (result db_error unit)
| Received (h : http) (r : request) : Op unit
| Respond (h : http) (r : request) (a : response) : Op unit
| Elsewhere : Op unit.

Abbreviation aprog := (prog Op).

Definition ask {X} (e : Op X) : aprog X := call e.
(** [h.queries.X(ctx, ...)] and [qx.X(ctx, ...)]. *)
Definition db {A} (q : query A) : aprog (result db_error A) := ask (Query Pool q).
Definition dbx {A} (c : conn) (q : query A) : aprog (result db_error A) := ask (Query c q).

Arguments ask {X} e : simpl never.
Arguments db {A} q : simpl never.
Arguments dbx {A} c q : simpl never.

(** ** The outside *)

(** A transaction: when it began, the rows it has written, whether a statement
    of it has failed, whether its COMMIT is undecided; and, for the proofs, the
    token hashes it has rotated away from. *)
Record Txn := {
  tx_start : Z; tx_rows : Tables; tx_failed : bool; tx_doubt : bool; tx_rotated : list string }.

(** [tables] is what is committed. [drawn] are the random values handed out and
    the keys in use. The last two are read by no program: [born] is the epoch a
    session was created at, [spent] the token hashes rotated away from, with the
    thread that did. *)
Record Sys := {
  tables : Tables; txs : gmap nat Txn; clock : Z; pending : gmap string (option totpPendingLogin);
  exchanges : gmap string (option oidcExchange); drawn : gset string; ever : gset uuid;
  log : list (nat * event Op); born : gmap uuid Z; spent : list (nat * string) }.

Definition set_tables (d : Tables) (s : Sys) : Sys :=
  {| tables := d; txs := txs s; clock := clock s; pending := pending s; exchanges := exchanges s;
     drawn := drawn s; ever := ever s; log := log s; born := born s; spent := spent s |}.
Definition set_txs (t : gmap nat Txn) (s : Sys) : Sys :=
  {| tables := tables s; txs := t; clock := clock s; pending := pending s; exchanges := exchanges s;
     drawn := drawn s; ever := ever s; log := log s; born := born s; spent := spent s |}.
Definition set_clock (t : Z) (s : Sys) : Sys :=
  {| tables := tables s; txs := txs s; clock := t; pending := pending s; exchanges := exchanges s;
     drawn := drawn s; ever := ever s; log := log s; born := born s; spent := spent s |}.
Definition set_pending (p : gmap string (option totpPendingLogin)) (s : Sys) : Sys :=
  {| tables := tables s; txs := txs s; clock := clock s; pending := p; exchanges := exchanges s;
     drawn := drawn s; ever := ever s; log := log s; born := born s; spent := spent s |}.
Definition set_exchanges (p : gmap string (option oidcExchange)) (s : Sys) : Sys :=
  {| tables := tables s; txs := txs s; clock := clock s; pending := pending s; exchanges := p;
     drawn := drawn s; ever := ever s; log := log s; born := born s; spent := spent s |}.
Definition draw (v : string) (s : Sys) : Sys :=
  {| tables := tables s; txs := txs s; clock := clock s; pending := pending s; exchanges := exchanges s;
     drawn := {[v]} ∪ drawn s; ever := ever s; log := log s; born := born s; spent := spent s |}.
Definition use_keys (ids : gset uuid) (s : Sys) : Sys :=
  {| tables := tables s; txs := txs s; clock := clock s; pending := pending s; exchanges := exchanges s;
     drawn := drawn s; ever := ids ∪ ever s; log := log s; born := born s; spent := spent s |}.
Definition set_born (b : gmap uuid Z) (s : Sys) : Sys :=
  {| tables := tables s; txs := txs s; clock := clock s; pending := pending s; exchanges := exchanges s;
     drawn := drawn s; ever := ever s; log := log s; born := b; spent := spent s |}.
Definition add_spent (l : list (nat * string)) (s : Sys) : Sys :=
  {| tables := tables s; txs := txs s; clock := clock s; pending := pending s; exchanges := exchanges s;
     drawn := drawn s; ever := ever s; log := log s; born := born s; spent := l ++ spent s |}.
Definition logged (i : nat) (ev : event Op) (s : Sys) : Sys :=
  {| tables := tables s; txs := txs s; clock := clock s; pending := pending s; exchanges := exchanges s;
     drawn := drawn s; ever := ever s; log := (i, ev) :: log s; born := born s; spent := spent s |}.

(** The rows of accounts [us] and sessions [ss] are not locked by a transaction,
    other than that of the thread [mine]. *)
Definition unlocked (mine : option nat) (us ss : gset uuid) (s : Sys) : Prop :=
  ∀ j tx, txs s !! j = Some tx → mine ≠ Some j →
    dom (users (tx_rows tx)) ## us ∧ dom (sessions (tx_rows tx)) ## ss.

(** The locks of a statement that writes [w]. *)
Definition lockable {A} (mine : option nat) (q : query A) (d w : Tables) (s : Sys) : Prop :=
  unlocked mine (dom (users w) ∪ shares q d) (dom (sessions w)) s.

(** [now()] is the time a transaction began; a statement of its own that waits
    for no lock begins when it runs. *)
Definition env_ok {A} (q : query A) (start : option Z) (d w : Tables) (s : Sys) (env : Env) : Prop :=
  e_clock env = clock s ∧ (e_fresh env ∉ ever s) ∧
  match start with
  | Some t => e_now env = t
  | None => e_now env ≤ clock s ∧ (w = no_rows → shares q d = ∅ → e_now env = clock s)
  end.

Definition births {A} (q : query A) (w : Tables) : gmap uuid Z :=
  match q with
  | CreateSessionAtEpoch arg => (λ _, cs_Epoch arg) <$> sessions w
  | _ => ∅
  end.

Definition rotations {A} (q : query A) (w : Tables) : list string :=
  match q with
  | RotateSessionToken arg => if decide (sessions w = ∅) then [] else [rt_OldTokenHash arg]
  | _ => []
  end.

(** The keys and birth dates a statement leaves behind. *)
Definition recorded {A} (q : query A) (w : Tables) (s : Sys) : Sys :=
  use_keys (dom (users w) ∪ dom (sessions w)) (set_born (births q w ∪ born s) s).

(** A call that did not complete. *)
Definition failed {A} (x : result db_error A) : Prop := ∃ e, x = Err e ∧ de_NoRows e = false.

Definition usable (tx : Txn) : Prop := tx_failed tx = false ∧ tx_doubt tx = false.

Definition new_tx (now : Z) : Txn :=
  {| tx_start := now; tx_rows := no_rows; tx_failed := false; tx_doubt := false; tx_rotated := [] |}.
Definition tx_write {A} (q : query A) (w : Tables) (tx : Txn) : Txn :=
  {| tx_start := tx_start tx; tx_rows := written w (tx_rows tx); tx_failed := tx_failed tx;
     tx_doubt := tx_doubt tx; tx_rotated := rotations q w ++ tx_rotated tx |}.
Definition tx_fail (tx : Txn) : Txn :=
  {| tx_start := tx_start tx; tx_rows := tx_rows tx; tx_failed := true; tx_doubt := tx_doubt tx;
     tx_rotated := tx_rotated tx |}.
Definition tx_in_doubt (tx : Txn) : Txn :=
  {| tx_start := tx_start tx; tx_rows := tx_rows tx; tx_failed := tx_failed tx; tx_doubt := true;
     tx_rotated := tx_rotated tx |}.

(** The transaction of thread [i] is committed. *)
Definition landed (i : nat) (tx : Txn) (s : Sys) : Sys :=
  add_spent (pair i <$> tx_rotated tx)
    (set_tables (written (tx_rows tx) (tables s)) (set_txs (delete i (txs s)) s)).

Definition pool_step {A} (q : query A) (s : Sys) (x : result db_error A) (s' : Sys) : Prop :=
  (failed x ∧ s' = s) ∨
  ∃ env y w, env_ok q None (tables s) w s env ∧ stmt q env (tables s) y w ∧
    lockable None q (tables s) w s ∧ (x = y ∨ failed x) ∧
    s' = set_tables (written w (tables s)) (recorded q w s).

Definition tx_step {A} (i : nat) (q : query A) (s : Sys) (x : result db_error A) (s' : Sys) : Prop :=
  match txs s !! i with
  | None => failed x ∧ s' = s
  | Some tx =>
      (failed x ∧ s' = set_txs (<[i := tx_fail tx]> (txs s)) s) ∨
      ∃ env w, let d := written (tx_rows tx) (tables s) in
        usable tx ∧ env_ok q (Some (tx_start tx)) d w s env ∧ stmt q env d x w ∧
        lockable (Some i) q d w s ∧
        s' = set_txs (<[i := tx_write q w tx]> (txs s)) (recorded q w s)
  end.

Definition commit_step (i : nat) (s : Sys) (x : result db_error unit) (s' : Sys) : Prop :=
  match txs s !! i with
  | None => failed x ∧ s' = s
  | Some tx =>
      (failed x ∧ s' = set_txs (delete i (txs s)) s) ∨
      (usable tx ∧ x = Ok tt ∧ s' = landed i tx s) ∨
      (usable tx ∧ ∃ e, x = Err e ∧ de_NoRows e = false ∧ commitOutcomeUnknown e = true ∧
         (s' = landed i tx s ∨ s' = set_txs (<[i := tx_in_doubt tx]> (txs s)) s))
  end.

(** What happens without a call of these handlers. *)
Inductive elsewhere (s : Sys) : Sys → Prop :=
| time_passes t : clock s ≤ t → elsewhere s (set_clock t s)
| connection_lost j tx : txs s !! j = Some tx → elsewhere s (set_txs (delete j (txs s)) s)
| commit_lands j tx :
    txs s !! j = Some tx → tx_failed tx = false → tx_doubt tx = true → elsewhere s (landed j tx s)
| account_changed id u u' :
    users (tables s) !! id = Some u → unlocked None {[id]} ∅ s →
    u_ID u' = u_ID u → u_AuthEpoch u' = u_AuthEpoch u → u_PasswordHash u' = u_PasswordHash u →
    elsewhere s (set_tables (written (only_users {[id := u']}) (tables s)) s)
| account_created u :
    u_ID u ∉ ever s → u_AuthEpoch u = 0 → u_PasswordHash u = "" →
    elsewhere s (use_keys {[u_ID u]}
                   (set_tables (written (only_users {[u_ID u := u]}) (tables s)) s))
| account_deleted id :
    unlocked None {[id]} (dom (filter (λ kv, s_UserID kv.2 = id) (sessions (tables s)))) s →
    elsewhere s (set_tables {| users := delete id (users (tables s));
                               sessions := filter (λ kv, s_UserID kv.2 ≠ id) (sessions (tables s)) |} s)
| session_deleted id :
    unlocked None ∅ {[id]} s →
    elsewhere s (set_tables {| users := users (tables s); sessions := delete id (sessions (tables s)) |} s)
| pending_expires token : elsewhere s (set_pending (delete token (pending s)) s)
| exchange_expires code : elsewhere s (set_exchanges (delete code (exchanges s)) s).

(** The caller of an authenticated request is an account that exists or has
    existed: what names it was issued for an account that was committed. *)
Definition caller_known (h : http) (s : Sys) : Prop :=
  ∀ u, h_User h = Some u → u ∈ ever s ∧
    ∀ j tx, txs s !! j = Some tx → u ∈ dom (users (tx_rows tx)) → u ∈ dom (users (tables s)).

Section answers.
Context `{LIB : AuthLibrary}.

(** [hex.EncodeToString] *)
Definition hex_digit (n : nat) : ascii :=
  Ascii.ascii_of_nat (if Nat.ltb n 10 then 48 + n else 87 + n)%nat.
Definition EncodeToString (l : list ascii) : string :=
  of_bytes (mjoin ((λ c, [hex_digit (byte_val c / 16); hex_digit (byte_val c mod 16)])%nat <$> l)).

Definition HashToken (token : string) : string := EncodeToString (Sum256 token).

Definition may_answer (i : nat) {X} (e : Op X) (s : Sys) (x : X) (s' : Sys) : Prop :=
  match e in Op X return X → Prop with
  | Query Pool q => λ x, pool_step q s x s'
  | Query Tx q => λ x, tx_step i q s x s'
  | Begin => λ x,
      (failed x ∧ s' = s) ∨
      (txs s !! i = None ∧ x = Ok tt ∧ s' = set_txs (<[i := new_tx (clock s)]> (txs s)) s)
  | Commit => λ x, commit_step i s x s'
  | Rollback => λ _, s' = s ∨ s' = set_txs (delete i (txs s)) s
  | AdvisoryLock => λ x, s' = s ∧ (x = Ok tt ∨ failed x)
  | GenerateRefreshToken => λ x,
      match x with
      | None => s' = s
      | Some t => (HashToken t ∉ drawn s) ∧ s' = draw (HashToken t) s
      end
  | RandomString => λ x,
      match x with None => s' = s | Some t => (t ∉ drawn s) ∧ s' = draw t s end
  | HashPassword _ => λ x,
      match x with Err _ => s' = s | Ok h => (h ∉ drawn s) ∧ s' = draw h s end
  | SetPending token p => λ x,
      (x = false ∧ s' = s) ∨ s' = set_pending (<[token := Some p]> (pending s)) s
  | GetPending token => λ x, s' = s ∧ (x = None ∨ x = pending s !! token)
  | DelPending token => λ _, s' = s ∨ s' = set_pending (delete token (pending s)) s
  | SetExchange code p => λ x,
      (x = false ∧ s' = s) ∨ s' = set_exchanges (<[code := Some p]> (exchanges s)) s
  | GetDelExchange code => λ x,
      (x = None ∨ x = exchanges s !! code) ∧
      (s' = s ∨ s' = set_exchanges (delete code (exchanges s)) s)
  | Received h _ => λ _, s' = s ∧ caller_known h s
  | Elsewhere => λ _, elsewhere s s'
  | _ => λ _, s' = s
  end x.

Definition step (i : nat) (X : Type) (e : Op X) (s : Sys) (x : X) (s' : Sys) : Prop :=
  ∃ s1, may_answer i e s x s1 ∧ s' = logged i (Ev e x) s1.
End answers.

(** * Sessions

    [auth/session.go]: creating a session at the epoch its credential check read,
    finding the session of a refresh token, rotating the token, and ending one
    session or all of them. *)

Definition PreviousTokenRevocationWindow : Z := 2 * minute.
Definition ConcurrentRefreshTolerance : Z := 10 * second.

(** [ErrInvalidToken], [ErrSessionRefused], or an error of the database, wrapped
    in what was being done. *)
Inductive auth_error :=
| ErrInvalidToken
| ErrSessionRefused
| DbFailed (what : string) (e : db_error).

Record DeviceInfo := { di_Name : string; di_Type : string; di_ID : string }.

Definition nullText (s : string) : option string := if bool_decide (s = "") then None else Some s.

Section session.
Context `{LIB : AuthLibrary}.

Definition CreateSession (userID : uuid) (epoch : Z) (refreshToken role userAgent ipAddress : string)
    (ttl : Z) (device : DeviceInfo) : aprog (result auth_error Session) :=
  let! now := ask Now in
  let! session := db (CreateSessionAtEpoch {|
    cs_UserID := userID; cs_Epoch := epoch; cs_TokenHash := HashToken refreshToken;
    cs_UserAgent := userAgent; cs_IpAddress := ipAddress; cs_ExpiresAt := now + ttl;
    cs_DeviceName := nullText (di_Name device); cs_DeviceType := nullText (di_Type device);
    cs_DeviceID := nullText (di_ID device); cs_UserRole := role |}) in
  match session with
  | Err e => Ret (Err (if de_NoRows e then ErrSessionRefused else DbFailed "creating session in db" e))
  | Ok session => do! ask (MirrorSession (s_ID session)) in Ret (Ok session)
  end.

Definition ValidateRefreshToken (refreshToken : string) : aprog (result auth_error Session) :=
  let! session := db (GetSessionByTokenHash (HashToken refreshToken)) in
  match session with
  | Err e => Ret (Err (if de_NoRows e then ErrInvalidToken
                       else DbFailed "looking up session by token hash" e))
  | Ok session =>
      if s_IsRevoked session then Ret (Err ErrInvalidToken)
      else
        let! now := ask Now in
        if s_ExpiresAt session <? now then Ret (Err ErrInvalidToken) else Ret (Ok session)
  end.

(** The session and whether the token it had before its last rotation matched. *)
Definition FindSessionForLogout (refreshToken : string) : aprog (result auth_error (Session * bool)) :=
  let! session := ValidateRefreshToken refreshToken in
  match session with
  | Ok session => Ret (Ok (session, false))
  | Err ErrInvalidToken =>
      let! session := db (GetSessionByPreviousTokenHash (HashToken refreshToken) PreviousTokenRevocationWindow) in
      match session with
      | Err e => Ret (Err (if de_NoRows e then ErrInvalidToken
                           else DbFailed "looking up session by previous token hash" e))
      | Ok session =>
          let! now := ask Now in
          if s_ExpiresAt session <? now then Ret (Err ErrInvalidToken) else Ret (Ok (session, true))
      end
  | Err e => Ret (Err e)
  end.

Definition RefusalSparesCookie (refreshToken : string) : aprog bool :=
  let! session := db (GetSessionByPreviousTokenHash (HashToken refreshToken) ConcurrentRefreshTolerance) in
  match session with
  | Err _ => Ret false
  | Ok session => let! now := ask Now in Ret (negb (s_ExpiresAt session <? now))
  end.

(** In the transaction of the refresh. *)
Definition RotateRefreshToken (session : Session) (newTokenHash role : string) : aprog (option auth_error) :=
  let! rows := dbx Tx (RotateSessionToken {|
    rt_ID := s_ID session; rt_OldTokenHash := s_TokenHash session; rt_NewTokenHash := newTokenHash;
    rt_UserRole := role |}) in
  match rows with
  | Err e => Ret (Some (DbFailed "rotating session token" e))
  | Ok rows => Ret (if rows =? 0 then Some ErrInvalidToken else None)
  end.

(** [SessionManager.RevokeSession] *)
Definition RevokeSessionAndForget (sessionID : uuid) : aprog (option auth_error) :=
  let! r := db (RevokeSession sessionID) in
  match r with
  | Err e => Ret (Some (DbFailed "revoking session in db" e))
  | Ok _ => do! ask (ForgetSessions [sessionID]) in Ret None
  end.

(** The third statement of a revoke-all: what it sees when it starts, and what
    it writes when it has the locks. *)
Definition revoke_all (c : conn) (userID : uuid) : aprog (result db_error unit) :=
  let! seen := dbx c (SeenSessions userID) in
  match seen with
  | Err e => Ret (Err e)
  | Ok seen => dbx c (RevokeAllUserSessions userID seen)
  end.

Definition RevokeAllUserSessionsIn (c : conn) (userID : uuid) : aprog (result auth_error (list uuid)) :=
  let! bumped := dbx c (BumpUserAuthEpoch userID) in
  match bumped with
  | Err e => Ret (Err (DbFailed "bumping the user's auth epoch" e))
  | Ok _ =>
      let! sessions := dbx c (ListUserSessions userID) in
      match sessions with
      | Err e => Ret (Err (DbFailed "listing user sessions" e))
      | Ok sessions =>
          let! revoked := revoke_all c userID in
          match revoked with
          | Err e => Ret (Err (DbFailed "revoking all sessions in db" e))
          | Ok _ => Ret (Ok (s_ID <$> sessions))
          end
      end
  end.

(** [SessionManager.ForgetSessions] *)
Definition forget (ids : list uuid) : aprog unit :=
  match ids with [] => Ret tt | _ => ask (ForgetSessions ids) end.
End session.
