(* ===== verification/AuthHandlers.v ===== *)
(** * Signing in, staying signed in, signing out

    The handlers of [api/handlers/auth.go], [totp.go] (the second step of a
    login), [oidc.go] (the accounts and codes of single sign-on),
    [auth_sessions.go], [users.go] (the update of an account) and
    [password_lockout.go] that create, refresh or end sessions. A handler is a
    program that gives the answer of its request; [serve] is the whole request.
    The details of audit rows, the log lines and the contexts that bound a call
    are left out. *)

From S2P Require Import Prelude GoStrings Effects AuthLockout AuthDb AuthOps.

Local Open Scope Z_scope.

(** ** Answers *)

Definition answer (status : Z) (c : cookie) (message : string) : response :=
  {| r_Status := status; r_Cookie := c; r_Access := None; r_Pending := None; r_Message := message |}.

(** [fiber.NewError]: the cookie is left alone unless the handler says otherwise. *)
Definition refuse (status : Z) (message : string) : response := answer status CookieKept message.

(** [authResponse] with its cookie. *)
Definition signed_in (status : Z) (token : string) (userID sessionID : uuid) : response :=
  {| r_Status := status; r_Cookie := CookieSet token; r_Access := Some (userID, sessionID);
     r_Pending := None; r_Message := "" |}.

Definition signInSupersededMessage : string :=
  "Your sign-in could not be completed because your account's sessions were ended while it was in progress " +:+
  "(a password change, a sign-out of all devices or a change to the account). Please sign in again.".
Definition signInUnavailableMessage : string :=
  "The sign-in could not be completed right now because the service was too busy or unavailable. " +:+
  "Nothing was issued, so you are not signed in; please sign in again shortly.".
Definition signInFailedMessage : string :=
  "The sign-in could not be completed. Nothing was issued, so you are not signed in; please sign in again.".
Definition signInRefusedAuditAction : string := "login_refused_superseded".
Definition RefreshSupersededCode : string := "refresh_superseded".
Definition logoutUnconfirmedMessage : string :=
  "The sign-out could not be confirmed and the session may still be active. " +:+
  "A client that sent its refresh token in the request body can retry with it; " +:+
  "otherwise sign in again and use " +:+ String dquote "Sign Out All Devices" +:+ String dquote ".".
Definition logoutAllUnconfirmedMessage : string :=
  "Your sessions could not be revoked right now and may still be active; " +:+
  "you are still signed in here, so please try again shortly.".
Definition logoutNotYoursMessage : string :=
  "This refresh token belongs to another user's session, not to the user of the " +:+
  "access token or API key sent with it; nothing was revoked.".
Definition oidcNotThisBrowserMessage : string :=
  "The single sign-on could not be finished: it was not started in this browser, it took " +:+
  "too long, or it was started at a different address than this one. Start it again from the sign-in page.".
Definition passwordNotChangedUnavailableMessage : string :=
  "The database could not be reached or did not answer in time, and your password was NOT changed; please try again shortly.".
Definition passwordNotChangedMessage : string :=
  "Failed to change the password; your password was NOT changed.".
Definition passwordChangedMeanwhileMessage : string :=
  "Your password was changed by another request, or your account was removed, while this one was being processed; nothing was changed.".
Definition passwordAccountRemovedMessage : string :=
  "Your account was removed while this request was being processed, so there is no password to change and none to sign in with.".
Definition passwordChangeUnconfirmedMessage : string :=
  "Your password change could not be confirmed: the new password may be in effect, with every session of yours, this one included, signed out. " +:+
  "Try signing in with the new password; if it is refused, the old password is still in effect. Use " +:+
  String dquote "Sign Out All Devices" +:+ String dquote " to be sure.".
Definition passwordLockoutUnavailableMessage : string :=
  "Changing the password is unavailable right now because its attempt limit could not be checked, " +:+
  "and your password was NOT changed; please try again shortly.".
Definition deactivationNotDoneUnavailableMessage : string :=
  "The database could not be reached or did not answer in time, and the account was NOT changed: " +:+
  "it is still active and its sessions are untouched. Please try again shortly.".
Definition deactivationNotDoneMessage : string := "Failed to update the user; the account was NOT changed.".
Definition deactivationUnconfirmedMessage : string :=
  "The change could not be confirmed: the account may now be deactivated, with every session of it ended, " +:+
  "or may still be active. Check the account's state; repeating the request is safe.".

(** The errors of [ValidatePasswordStrength], and the answer to a password that
    could not be hashed. *)
Definition password_error_text (e : password_error) : string :=
  match e with
  | ErrPasswordTooShort => "password must be at least 8 characters"
  | ErrPasswordTooLong => "password must be at most 72 characters"
  | ErrPasswordWeak => "password must contain uppercase, lowercase, digit, and special character"
  | ErrPasswordHash => ""
  end.
Definition not_hashed (e : password_error) : response :=
  match e with
  | ErrPasswordHash => refuse 500 "Failed to process password"
  | _ => refuse 400 ("password validation: " +:+ password_error_text e)
  end.

(** ** What the handlers read of a request *)

Definition MaxRefreshTokenLength : nat := 1024.
Definition refreshTokenTooLong (token : string) : bool := Nat.ltb MaxRefreshTokenLength (RuneCountInString token).

(** [s[:n]] where [s] is longer. *)
Definition clip_bytes (n : nat) (s : string) : string := if Nat.ltb n (slen s) then stake n s else s.

Definition deviceInfoFromRequest (h : http) : DeviceInfo :=
  let deviceType := ToLower (TrimSpace (h_DeviceType h)) in
  {| di_Type := if contains ["mobile"; "desktop"] deviceType then deviceType else "web";
     di_Name := clip_bytes 128 (TrimSpace (h_DeviceName h));
     di_ID := clip_bytes 128 (TrimSpace (h_DeviceID h)) |}.

Inductive TokenKind := TokenKindUnknown | TokenKindSession | TokenKindConsole | TokenKindWSHub.

(** [WSScopeHub] *)
Definition WSScopeHub : string := "hub".

Definition Kind (c : Claims) : TokenKind :=
  let hasConsole := cl_ConsoleScope c in
  if negb hasConsole && bool_decide (cl_WSScope c = "") then TokenKindSession
  else if hasConsole && bool_decide (cl_WSScope c = "") then TokenKindConsole
  else if negb hasConsole && bool_decide (cl_WSScope c = WSScopeHub) then TokenKindWSHub
  else TokenKindUnknown.

Definition IsSession (c : Claims) : bool := match Kind c with TokenKindSession => true | _ => false end.

(** [strings.SplitN(header, " ", 2)] *)
Definition BearerToken (header : string) : string :=
  let '(scheme, token, found) := Cut space header in
  if found && EqualFold scheme "Bearer" then token else "".

Definition apiKeyTokenPrefix : string := "nxra_".

Section handlers.
Context `{LIB : AuthLibrary} `{CFG : AuthConfig}.

Definition AccessTokenIsSomeoneElses (token : string) (user : uuid) : bool :=
  match ParseClaims (TrimSpace token) with
  | None => false
  | Some claims => if negb (IsSession claims) then false else negb (bool_decide (cl_UserID claims = user))
  end.

Definition signOutIsSomeoneElses (h : http) (owner : uuid) : bool :=
  match h_User h with
  | Some named => negb (bool_decide (named = owner))
  | None =>
      let token := BearerToken (h_Authorization h) in
      if bool_decide (token = "") || HasPrefix (TrimSpace token) apiKeyTokenPrefix then false
      else AccessTokenIsSomeoneElses token owner
  end.

(** A transaction's connection goes back to the pool at the end ([defer release()]). *)
Definition releasing {A} (p : aprog A) : aprog A :=
  let! a := p in do! ask Rollback in Ret a.

(** ** Issuing a session *)

Definition sessionNotCreated (err : auth_error) : response :=
  match err with
  | ErrSessionRefused => refuse 401 signInSupersededMessage
  | DbFailed _ e => if isTransientDBError e then refuse 503 signInUnavailableMessage
                    else refuse 500 signInFailedMessage
  | ErrInvalidToken => refuse 500 signInFailedMessage
  end.

Definition endReplacedSession (h : http) (signedIn keep : uuid) : aprog unit :=
  let token := h_Cookie h in
  if bool_decide (token = "") || refreshTokenTooLong token || negb (Nat.eqb (h_Cookies h) 1) then Ret tt
  else
    let! replaced := ValidateRefreshToken token in
    match replaced with
    | Err _ => Ret tt
    | Ok replaced =>
        if bool_decide (s_ID replaced = keep) then Ret tt
        else
          let! r := db (RevokeSession (s_ID replaced)) in
          match r with
          | Err _ => Ret tt
          | Ok _ =>
              do! ask (AuditLogAs (s_UserID replaced) "session_replaced") in
              forget [s_ID replaced]
          end
    end.

(** [GenerateAccessToken] refuses a session without an id, and nothing else. *)
Definition access_token (sessionID : uuid) : bool := negb (bool_decide (sessionID = uuid_Nil)).

(** The refusal's audit row. *)
Definition refused_row (user : User) (err : auth_error) : aprog unit :=
  match err with
  | ErrSessionRefused => ask (AuditLogAs (u_ID user) signInRefusedAuditAction)
  | _ => Ret tt
  end.

Definition issueTokens (h : http) (user : User) (epoch : Z) (auditAction : string) : aprog response :=
  let! token := ask GenerateRefreshToken in
  match token with
  | None => Ret (refuse 500 "Failed to generate refresh token")
  | Some refreshToken =>
      let! session := CreateSession (u_ID user) epoch refreshToken (u_Role user) (h_UserAgent h) (h_IP h)
                        RefreshTokenTTL (deviceInfoFromRequest h) in
      match session with
      | Err e => do! refused_row user e in Ret (sessionNotCreated e)
      | Ok session =>
          if negb (access_token (s_ID session)) then Ret (refuse 500 "Failed to generate access token")
          else
            do! ask (AuditLogAs (u_ID user) auditAction) in
            do! ask (LoadPerms (u_ID user)) in
            do! endReplacedSession h (u_ID user) (s_ID session) in
            Ret (signed_in 200 refreshToken (u_ID user) (s_ID session))
      end
  end.

Definition CreateTOTPPendingToken (userID : uuid) (epoch : Z) (auditAction : string) : aprog (option string) :=
  let! token := ask RandomString in
  match token with
  | None => Ret None
  | Some token =>
      let! stored := ask (SetPending token
        {| p_UserID := Some userID; p_AuditAction := auditAction; p_AuthEpoch := Some epoch |}) in
      Ret (if (stored : bool) then Some token else None)
  end.

Definition issueOrTOTP (h : http) (user : User) (epoch : Z) (auditAction : string) : aprog response :=
  match u_TotpSecret user, TOTPWired with
  | Some _, true =>
      let! token := CreateTOTPPendingToken (u_ID user) epoch auditAction in
      match token with
      | None => Ret (refuse 500 "Failed to create TOTP challenge")
      | Some token =>
          Ret {| r_Status := 200; r_Cookie := CookieKept; r_Access := None; r_Pending := Some token;
                 r_Message := "" |}
      end
  | _, _ => issueTokens h user epoch auditAction
  end.

(** ** Accounts of a directory and of an identity provider *)

(** The account of an address, created where there is none; [None] when that
    fails. The lookup after a failed creation is for an account created meanwhile. *)
Definition created_or_found (source email name : string) : aprog (option User) :=
  let! user := db (CreateUser (provisioned source email name)) in
  match user with
  | Ok user => Ret (Some user)
  | Err e =>
      if isDuplicateKeyError e then
        let! user := db (GetUserByEmailAndSource email source) in
        Ret (match user with Ok user => Some user | Err _ => None end)
      else Ret None
  end.

(** The account with the display name the directory reports. *)
Definition renamed (source : string) (user : User) (name : string) : aprog User :=
  if negb (bool_decide (name = "")) && negb (bool_decide (name = u_DisplayName user)) then
    let! updated := db (UpdateDisplayName source (u_ID user) name) in
    Ret (match updated with Ok updated => updated | Err _ => user end)
  else Ret user.

Definition provisionLDAPUser (ldapUser : external_user) (email : string) : aprog (option User) :=
  let userEmail := if bool_decide (x_Email ldapUser = "") then email else x_Email ldapUser in
  let! user := db (GetUserByEmailAndSource userEmail "ldap") in
  let! user := (match user with
                | Ok user => let! user := renamed "ldap" user (x_DisplayName ldapUser) in Ret (Some user)
                | Err e =>
                    if de_NoRows e then
                      created_or_found "ldap" userEmail
                        (if bool_decide (x_DisplayName ldapUser = "") then userEmail else x_DisplayName ldapUser)
                    else Ret None
                end) in
  match user with
  | None => Ret None
  | Some user =>
      if negb (u_IsActive user) then Ret None
      else do! ask (SyncUserRoles (u_ID user)) in Ret (Some user)
  end.

Definition tryLDAPLogin (email password : string) : aprog (option User) :=
  let! ldapUser := ask (LDAPAuthenticate email password) in
  match ldapUser with
  | None => Ret None
  | Some ldapUser => provisionLDAPUser ldapUser email
  end.

Definition provisionUser (autoProvision : bool) (info : external_user) : aprog (option User) :=
  let! user := db (GetUserByEmailAndSource (x_Email info) "oidc") in
  match user with
  | Ok user => let! user := renamed "oidc" user (x_DisplayName info) in Ret (Some user)
  | Err e =>
      if negb (de_NoRows e) then Ret None
      else if negb autoProvision then Ret None
      else created_or_found "oidc" (x_Email info)
             (if bool_decide (x_DisplayName info = "") then x_Email info else x_DisplayName info)
  end.

Definition storeExchange (user : User) : aprog (option string) :=
  let! code := ask RandomString in
  match code with
  | None => Ret None
  | Some code =>
      let! stored := ask (SetExchange code {| x_UserID := Some (u_ID user); x_Epoch := Some (u_AuthEpoch user) |}) in
      Ret (if (stored : bool) then Some code else None)
  end.

(** The end of a callback: the redirect and, in the message, where to. *)
Definition provisionAndStoreExchange (autoProvision : bool) (info : external_user) : aprog response :=
  let! user := provisionUser autoProvision info in
  match user with
  | None => Ret (refuse 302 "User provisioning failed")
  | Some user =>
      do! ask (SyncUserRoles (u_ID user)) in
      let! code := storeExchange user in
      match code with
      | None => Ret (refuse 302 "Internal error")
      | Some code => do! ask (AuditLogAs (u_ID user) "oidc_callback") in Ret (refuse 302 code)
      end
  end.

(** ** Signing in *)

Definition invalidCredentials : response := refuse 401 "Invalid email or password".

Definition Login (h : http) (email password : string) : aprog response :=
  let ldap := (let! ldapUser := tryLDAPLogin email password in
               match ldapUser with
               | Some user => issueOrTOTP h user (u_AuthEpoch user) "ldap_login"
               | None => Ret invalidCredentials
               end) in
  let! user := db (GetUserByEmail email) in
  match user with
  | Err e => if negb (de_NoRows e) then Ret (refuse 500 "Failed to look up user") else ldap
  | Ok user =>
      if bool_decide (u_AuthSource user = "ldap") then ldap
      else if bool_decide (u_AuthSource user = "oidc") then Ret invalidCredentials
      else if negb (u_IsActive user) then Ret invalidCredentials
      else if negb (CheckPassword (u_PasswordHash user) password) then Ret invalidCredentials
      else issueOrTOTP h user (u_AuthEpoch user) "login"
  end.

(** [^\d{6}$] *)
Definition six_digits (code : string) : bool :=
  Nat.eqb (slen code) 6 && forallb (λ c, bool_decide (is_Some (digit c))) (bytes_of code).

Definition totpMaxAttempts : Z := 5.

Definition invalidPending : response := refuse 401 "Invalid or expired pending token".

(** The second step once the pending login is known. *)
Definition second_step (h : http) (pendingToken code recoveryCode : string) (userID : uuid) (epoch : Z)
    (auditAction : string) : aprog response :=
  let! user := db (GetUserByID userID) in
  match user with
  | Err _ => Ret (refuse 500 "User not found")
  | Ok user =>
      if negb (u_IsActive user) then Ret (refuse 403 "Account is disabled")
      else match u_TotpSecret user with
      | None => Ret (refuse 500 "TOTP not configured for user")
      | Some secret =>
          if negb (u_AuthEpoch user =? epoch) then
            do! ask (DelPending pendingToken) in
            do! ask (AuditLogAs (u_ID user) signInRefusedAuditAction) in
            Ret invalidPending
          else
            let! validated := ask (ValidateCodeOrRecovery userID secret code recoveryCode) in
            match validated with
            | None => Ret (refuse 500 "Failed to validate code")
            | Some false =>
                let! locked := ask (RecordTOTPFailure userID) in
                if (locked : bool) then
                  do! ask (DelPending pendingToken) in
                  Ret (refuse 429 "Too many failed 2FA attempts — try again in a few minutes")
                else Ret (refuse 401 (if bool_decide (code = "") then "Invalid recovery code"
                                      else "Invalid TOTP code"))
            | Some true =>
                do! ask (DelPending pendingToken) in
                do! ask (ClearTOTPFailures userID) in
                issueTokens h user epoch auditAction
            end
      end
  end.

Definition VerifyLogin (h : http) (pendingToken code recoveryCode : string) : aprog response :=
  if bool_decide (code = "") && bool_decide (recoveryCode = "")
  then Ret (refuse 400 "TOTP code or recovery code is required")
  else if negb (bool_decide (code = "")) && negb (six_digits code)
  then Ret (refuse 400 "Code must be exactly 6 digits")
  else
    let! attempts := ask (CountPendingAttempt pendingToken) in
    match attempts with
    | None => Ret (refuse 500 "Failed to record attempt")
    | Some attempts =>
        if totpMaxAttempts <? attempts then
          do! ask (DelPending pendingToken) in
          Ret (refuse 429 "Too many attempts — please log in again")
        else
          let! data := ask (GetPending pendingToken) in
          match data with
          | None => Ret invalidPending
          | Some None => Ret (refuse 500 "Invalid pending data")
          | Some (Some pending) =>
              match p_UserID pending with
              | None => Ret (refuse 500 "Invalid user in pending data")
              | Some userID =>
                  let! locked := ask (IsUserTOTPLocked userID) in
                  if (locked : bool)
                  then Ret (refuse 429 "Too many failed 2FA attempts — try again in a few minutes")
                  else match p_AuthEpoch pending with
                       | None => do! ask (DelPending pendingToken) in Ret invalidPending
                       | Some epoch =>
                           second_step h pendingToken code recoveryCode userID epoch (p_AuditAction pending)
                       end
              end
          end
    end.

(** [bound]: the browser is the one the callback handed the code to. *)
Definition OIDCTokenExchange (h : http) (code : string) (bound : bool) : aprog response :=
  if negb OIDCWired then Ret (refuse 404 "OIDC not configured")
  else if negb bound then Ret (refuse 401 oidcNotThisBrowserMessage)
  else
    let! data := ask (GetDelExchange code) in
    match data with
    | None => Ret (refuse 401 "Invalid or expired exchange code")
    | Some None => Ret (refuse 500 "Invalid exchange data")
    | Some (Some data) =>
        match x_UserID data with
        | None => Ret (refuse 500 "Invalid user in exchange data")
        | Some userID =>
            match x_Epoch data with
            | None => Ret (refuse 401 "Invalid or expired exchange code")
            | Some epoch =>
                let! user := db (GetUserByID userID) in
                match user with
                | Err _ => Ret (refuse 500 "User not found")
                | Ok user =>
                    if negb (u_IsActive user) then Ret (refuse 403 "Account is disabled")
                    else issueOrTOTP h user epoch "oidc_login"
                end
            end
        end
    end.

(** ** Refreshing *)

Definition refuseStaleRefresh (refreshToken : string) : aprog response :=
  let! spares := RefusalSparesCookie refreshToken in
  Ret (if (spares : bool) then answer 409 CookieKept RefreshSupersededCode
       else answer 401 CookieCleared "Invalid or expired refresh token").

Definition refreshDBFailed (message : string) (e : db_error) : response :=
  if isTransientDBError e
  then refuse 503 "Could not verify the refresh token right now; please retry shortly"
  else refuse 500 message.

Definition refreshCommitFailed (e : db_error) : response :=
  refreshDBFailed "Failed to commit refresh" e.

(** An error of the session manager that is not [ErrInvalidToken]. *)
Definition db_cause (e : auth_error) : db_error :=
  match e with DbFailed _ e => e | _ => ErrNoRows end.

(** The refusal of an account: the connection goes back first, then the session is revoked. *)
Definition refuse_account (sessionID : uuid) (message : string) (after : aprog unit) : aprog response :=
  do! ask Rollback in
  let! _ := RevokeSessionAndForget sessionID in
  do! after in
  Ret (answer 401 CookieCleared message).

(** The transaction of a refresh, for the session its token named. *)
Definition refresh_in_tx (refreshToken : string) (session : Session) : aprog response :=
  let! user := dbx Tx (GetUserByID (s_UserID session)) in
  match user with
  | Err e =>
      if negb (de_NoRows e) then Ret (refreshDBFailed "Failed to load the user" e)
      else refuse_account (s_ID session) "User not found" (Ret tt)
  | Ok user =>
      if negb (u_IsActive user) then refuse_account (s_ID session) "Account is disabled" (Ret tt)
      else if negb (bool_decide (s_UserRole session = "")) && negb (bool_decide (s_UserRole session = u_Role user))
      then refuse_account (s_ID session) "Role changed; please log in again"
             (ask (AuditLogAs (u_ID user) "refresh_denied_role_changed"))
      else if negb (access_token (s_ID session)) then Ret (refuse 500 "Failed to generate access token")
      else
        let! token := ask GenerateRefreshToken in
        match token with
        | None => Ret (refuse 500 "Failed to generate refresh token")
        | Some newRefreshToken =>
            let! err := RotateRefreshToken session (HashToken newRefreshToken) (u_Role user) in
            match err with
            | Some ErrInvalidToken => do! ask Rollback in refuseStaleRefresh refreshToken
            | Some e => Ret (refreshDBFailed "Failed to rotate refresh token" (db_cause e))
            | None =>
                let! committed := ask Commit in
                match committed with
                | Err e => Ret (refreshCommitFailed e)
                | Ok _ =>
                    do! ask (MirrorSession (s_ID session)) in
                    Ret (signed_in 200 newRefreshToken (u_ID user) (s_ID session))
                end
            end
        end
  end.

(** The token a refresh presents: the body's, else the cookie's. *)
Definition presented (h : http) (body : string) : string :=
  if bool_decide (body = "") then h_Cookie h else body.

Definition Refresh (h : http) (body : string) : aprog response :=
  let refreshToken := presented h body in
  if bool_decide (refreshToken = "") then Ret (answer 401 CookieCleared "Refresh token is required")
  else if refreshTokenTooLong refreshToken
  then Ret (answer 401 CookieCleared "Invalid or expired refresh token")
  else
    let! session := ValidateRefreshToken refreshToken in
    match session with
    | Err ErrInvalidToken => refuseStaleRefresh refreshToken
    | Err e => Ret (refreshDBFailed "Failed to look up the session" (db_cause e))
    | Ok session =>
        let! perms := ask (LoadPerms (s_UserID session)) in
        match perms with
        | Err e => Ret (refreshDBFailed "Failed to load permissions" e)
        | Ok _ =>
            let! tx := ask Begin in
            match tx with
            | Err e => Ret (refreshDBFailed "Failed to start transaction" e)
            | Ok _ => releasing (refresh_in_tx refreshToken session)
            end
        end
    end.

(** ** Signing out *)

Definition Logout (h : http) (body : string) : aprog response :=
  let token := presented h body in
  let ambiguous := Nat.ltb 1 (h_Cookies h) in
  let spareCookie := negb ambiguous && negb (bool_decide (h_Cookie h = "")) &&
                     negb (bool_decide (h_Cookie h = token)) in
  let with_cookie (spare : bool) (status : Z) (message : string) : response :=
    answer status (if spare then CookieKept else CookieCleared) message in
  let done := with_cookie spareCookie 200 "Logged out successfully" in
  if bool_decide (token = "") || refreshTokenTooLong token then Ret done
  else
    let! found := FindSessionForLogout token in
    match found with
    | Err ErrInvalidToken => Ret done
    | Err e =>
        Ret (with_cookie spareCookie (if isTransientDBError (db_cause e) then 503 else 500) logoutUnconfirmedMessage)
    | Ok (session, viaPrevious) =>
        if signOutIsSomeoneElses h (s_UserID session)
        then Ret (with_cookie (negb ambiguous) 403 logoutNotYoursMessage)
        else
          let! r := db (RevokeSession (s_ID session)) in
          match r with
          | Err e =>
              Ret (if isTransientDBError e then with_cookie spareCookie 503 logoutUnconfirmedMessage
                   else with_cookie spareCookie 500 "Failed to revoke session")
          | Ok _ =>
              do! ask (AuditLogAs (s_UserID session) "logout") in
              do! forget [s_ID session] in
              Ret done
          end
    end.

(** Whether the cookie of a sign-out of all devices is the caller's to clear. *)
Definition clears_cookie (h : http) (userID : uuid) : aprog bool :=
  let token := h_Cookie h in
  if negb (bool_decide (token = "")) && negb (refreshTokenTooLong token) && Nat.leb (h_Cookies h) 1 then
    let! found := FindSessionForLogout token in
    Ret (match found with
         | Ok (session, _) => bool_decide (s_UserID session = userID)
         | Err ErrInvalidToken => true
         | Err _ => false
         end)
  else Ret true.

Definition LogoutAll (h : http) : aprog response :=
  match h_User h with
  | None => Ret (refuse 401 "Authentication required")
  | Some userID =>
      let! clearCookie := clears_cookie h userID in
      let! revoked := RevokeAllUserSessionsIn Pool userID in
      match revoked with
      | Err e =>
          Ret (if isTransientDBError (db_cause e) then refuse 503 logoutAllUnconfirmedMessage
               else refuse 500 "Failed to revoke sessions")
      | Ok revoked =>
          do! ask (AuditLogAs userID "logout_all") in
          do! forget revoked in
          Ret (answer 200 (if (clearCookie : bool) then CookieCleared else CookieKept) "All sessions revoked")
      end
  end.

Definition currentSessionID (h : http) : aprog uuid :=
  if bool_decide (h_Cookie h = "") then Ret uuid_Nil
  else
    let! session := ValidateRefreshToken (h_Cookie h) in
    Ret (match session with Ok session => s_ID session | Err _ => uuid_Nil end).

Definition RevokeSessionByID (h : http) (sessionID : uuid) : aprog response :=
  match h_User h with
  | None => Ret (refuse 401 "Authentication required")
  | Some userID =>
      let! session := db (GetSessionByID sessionID) in
      match session with
      | Err e => Ret (if de_NoRows e then refuse 404 "Session not found" else refuse 500 "Failed to look up session")
      | Ok session =>
          if negb (bool_decide (s_UserID session = userID)) then Ret (refuse 404 "Session not found")
          else
            let! expired := (if s_IsRevoked session then Ret true
                             else let! now := ask Now in Ret (s_ExpiresAt session <? now)) in
            if (expired : bool) then Ret (refuse 404 "Session not found")
            else
              let! currentID := currentSessionID h in
              let! err := RevokeSessionAndForget sessionID in
              match err with
              | Some _ => Ret (refuse 500 "Failed to revoke session")
              | None =>
                  do! ask (AuditLogAs userID "revoke_session") in
                  Ret (answer 200 (if bool_decide (sessionID = currentID) then CookieCleared else CookieKept)
                         "Session revoked")
              end
      end
  end.

(** ** Changing the password *)

(** [passwordLockedMessage]: whole minutes, rounded up. *)
Definition passwordLockedMessage (wait : Z) : string :=
  let minutes := Z.max 1 ((wait + minute - 1) `quot` minute) in
  "Too many incorrect attempts at the current password. Changing the password and setting up two-factor " +:+
  "authentication are locked for " +:+ Itoa minutes +:+ " more " +:+
  (if minutes =? 1 then "minute" else "minutes") +:+
  "; you stay signed in and nothing else about the account is affected.".

Definition passwordLocked (wait : Z) : response := refuse 429 (passwordLockedMessage wait).

Definition passwordNotChanged (e : db_error) : response :=
  if isTransientDBError e then refuse 503 passwordNotChangedUnavailableMessage
  else refuse 500 passwordNotChangedMessage.

Definition passwordCommitUnconfirmed (e : db_error) : response :=
  refuse (if isTransientDBError e then 503 else 500) passwordChangeUnconfirmedMessage.

(** The account and the admitted attempt, or the answer the request ends in. *)
Definition admitPasswordAttempt (userID : uuid) : aprog (result response (User * lockoutReservation)) :=
  let! user := db (GetUserByID userID) in
  match user with
  | Err e => Ret (Err (passwordNotChanged e))
  | Ok user =>
      if negb (u_IsActive user) then Ret (Err (refuse 401 "Account is disabled"))
      else if negb (bool_decide (u_AuthSource user = "local"))
      then Ret (Err (refuse 403 "Password is managed by your identity provider"))
      else
        let! attempt := ask (LockoutReserve userID) in
        match attempt with
        | None => Ret (Err (refuse 503 passwordLockoutUnavailableMessage))
        | Some attempt =>
            match lr_admission attempt with
            | lockoutRefused => Ret (Err (passwordLocked (lr_retryAfter attempt)))
            | _ => Ret (Ok (user, attempt))
            end
        end
  end.

Definition refuseWrongPassword (userID : uuid) (attempt : lockoutReservation) : aprog response :=
  match lr_admission attempt with
  | lockoutAdmittedLast =>
      do! ask (AuditLogAs userID "password_change_locked") in
      Ret (passwordLocked (lr_retryAfter attempt))
  | _ => Ret (refuse 403 "Current password is incorrect")
  end.

Inductive changeOutcome := changeUnknown | changeLanded | changeNotLanded | changeAccountGone.

Definition settleCommit (userID : uuid) (newHash : string) : aprog changeOutcome :=
  let! stored := db (GetPasswordHashForSettle userID) in
  Ret (match stored with
       | Err e => if de_NoRows e then changeAccountGone else changeUnknown
       | Ok stored => if bool_decide (stored = newHash) then changeLanded else changeNotLanded
       end).

(** The transaction of a change: the sessions it ended, or the answer. *)
Definition change_in_tx (user : User) (newHash : string) : aprog (result response (list uuid)) :=
  let userID := u_ID user in
  let! rows := dbx Tx (UpdatePassword {|
    up_ID := userID; up_PasswordHash := newHash; up_ExpectedHash := u_PasswordHash user |}) in
  match rows with
  | Err e => Ret (Err (passwordNotChanged e))
  | Ok rows =>
      if rows =? 0 then Ret (Err (refuse 409 passwordChangedMeanwhileMessage))
      else
        let! revoked := RevokeAllUserSessionsIn Tx userID in
        match revoked with
        | Err e => Ret (Err (passwordNotChanged (db_cause e)))
        | Ok revoked =>
            let! committed := ask Commit in
            match committed with
            | Ok _ => Ret (Ok revoked)
            | Err e =>
                if negb (commitOutcomeUnknown e) then Ret (Err (passwordNotChanged e))
                else
                  let! outcome := settleCommit userID newHash in
                  Ret (match outcome with
                       | changeLanded => Ok revoked
                       | changeNotLanded => Err (passwordNotChanged e)
                       | changeAccountGone => Err (refuse 409 passwordAccountRemovedMessage)
                       | changeUnknown => Err (passwordCommitUnconfirmed e)
                       end)
            end
        end
  end.

(** What is left once the password has been verified: the sessions ended, or the answer. *)
Definition change_verified (user : User) (newPassword : string) : aprog (result response (list uuid)) :=
  let! hashed := ask (HashPassword newPassword) in
  match hashed with
  | Err e => Ret (Err (not_hashed e))
  | Ok newHash =>
      let! tx := ask Begin in
      match tx with
      | Err e => Ret (Err (passwordNotChanged e))
      | Ok _ => releasing (change_in_tx user newHash)
      end
  end.

Definition ChangePassword (h : http) (oldPassword newPassword : string) : aprog response :=
  match h_User h with
  | None => Ret (refuse 401 "Authentication required")
  | Some userID =>
      let! admitted := admitPasswordAttempt userID in
      match admitted with
      | Err a => Ret a
      | Ok (user, attempt) =>
          if negb (CheckPassword (u_PasswordHash user) oldPassword) then refuseWrongPassword userID attempt
          else
            let! changed := change_verified user newPassword in
            match changed with
            | Err a => do! ask (LockoutRelease userID attempt) in Ret a
            | Ok revoked =>
                do! ask (AuditLogAs userID "password_changed") in
                do! ask (LockoutClear userID) in
                do! forget revoked in
                Ret (refuse 200 "Password changed successfully")
            end
      end
  end.

(** ** Updating an account *)

Definition deactivationNotDone (e : db_error) : response :=
  if isTransientDBError e then refuse 503 deactivationNotDoneUnavailableMessage
  else refuse 500 deactivationNotDoneMessage.

Definition deactivationCommitUnconfirmed (e : db_error) : response :=
  refuse (if isTransientDBError e then 503 else 500) deactivationUnconfirmedMessage.

(** The account and the sessions ended, or the answer and whether the outcome is unknown. *)
Definition deactivate_in_tx (profile : UpdateUserProfileParams) :
    aprog (result (response * bool) (User * list uuid)) :=
  let! user := dbx Tx (UpdateUserProfile profile) in
  match user with
  | Err e => Ret (Err (deactivationNotDone e, false))
  | Ok user =>
      let! revoked := RevokeAllUserSessionsIn Tx (uu_ID profile) in
      match revoked with
      | Err e => Ret (Err (deactivationNotDone (db_cause e), false))
      | Ok revoked =>
          let! committed := ask Commit in
          match committed with
          | Ok _ => Ret (Ok (user, revoked))
          | Err e => Ret (Err (if negb (commitOutcomeUnknown e) then (deactivationNotDone e, false)
                               else (deactivationCommitUnconfirmed e, true)))
          end
      end
  end.

Definition deactivate (profile : UpdateUserProfileParams) :
    aprog (result (response * bool) (User * list uuid)) :=
  let! tx := ask Begin in
  match tx with
  | Err e => Ret (Err (deactivationNotDone e, false))
  | Ok _ => releasing (deactivate_in_tx profile)
  end.

(** What follows an update that was made. *)
Definition updated (id : uuid) (revoked : list uuid) : aprog response :=
  do! ask (InvalidateUser id) in
  do! ask (AuditLogAs id "user_updated") in
  do! forget revoked in
  Ret (refuse 200 "").

(** [permission.go]: [HasGlobalPermission] answers nothing where the engine is
    not configured, and no verdict where the check failed. *)
Definition requirePerm (action resource : string) : aprog (option response) :=
  let! allowed := ask (HasGlobalPermission action resource) in
  Ret (match allowed with
       | None => Some (refuse 500 "RBAC engine not configured")
       | Some None => Some (refuse 500 "Permission check failed")
       | Some (Some false) => Some (refuse 403 "Insufficient permissions")
       | Some (Some true) => None
       end).

(** The refusals of an update that supplies [is_active] or [role]. *)
Definition update_refused (h : http) (profile : UpdateUserProfileParams) : aprog (option response) :=
  let own := bool_decide (h_User h = Some (uu_ID profile)) in
  if bool_decide (is_Some (uu_IsActive profile)) && own
  then Ret (Some (refuse 403 "Cannot change your own active status"))
  else if negb (bool_decide (is_Some (uu_Role profile))) then Ret None
  else if own then Ret (Some (refuse 403 "Cannot change your own role"))
  else
    let! err := requirePerm "manage" "role" in
    Ret (match err with
         | Some _ => Some (refuse 403 "Only role managers can change user roles")
         | None => None
         end).

(** The update itself. *)
Definition update_account (profile : UpdateUserProfileParams) : aprog response :=
  let id := uu_ID profile in
  if bool_decide (uu_IsActive profile = Some false) then
    let! r := deactivate profile in
    match r with
    | Err (a, unconfirmed) =>
        if (unconfirmed : bool) then
          do! ask (InvalidateUser id) in
          do! ask (AuditLogAs id "user_updated") in
          Ret a
        else Ret a
    | Ok (_, revoked) => updated id revoked
    end
  else
    let! r := db (UpdateUserProfile profile) in
    match r with
    | Err _ => Ret (refuse 500 "Failed to update user")
    | Ok _ => updated id []
    end.

Definition Update (h : http) (profile : UpdateUserProfileParams) : aprog response :=
  let! err := requirePerm "manage" "user" in
  match err with
  | Some a => Ret a
  | None =>
      if bool_decide (uu_ID profile = SystemUserID) then Ret (refuse 403 "Cannot modify the system account")
      else
        let! existing := db (GetUserByID (uu_ID profile)) in
        match existing with
        | Err e => Ret (if de_NoRows e then refuse 404 "User not found" else refuse 500 "Failed to get user")
        | Ok _ =>
            let! refused := update_refused h profile in
            match refused with
            | Some a => Ret a
            | None => update_account profile
            end
        end
  end.

(** ** The first account *)

Definition viewer_role : uuid := 0xa0000000000000000000000000000003.
Definition admin_role : uuid := 0xa0000000000000000000000000000001.

(** The transaction of a registration: the account and whether it is the first,
    or the answer. *)
Definition register_in_tx (h : http) (email password displayName : string) :
    aprog (result response (User * bool)) :=
  let! lock := ask AdvisoryLock in
  match lock with
  | Err _ => Ret (Err (refuse 500 "Failed to acquire registration lock"))
  | Ok _ =>
      let! count := dbx Tx CountUsers in
      match count with
      | Err _ => Ret (Err (refuse 500 "Failed to check user count"))
      | Ok count =>
          let firstUser := count =? 0 in
          if negb firstUser && negb (bool_decide (h_Role h = "admin"))
          then Ret (Err (refuse 403 "Only admins can register new users"))
          else
            let! hashed := ask (HashPassword password) in
            match hashed with
            | Err e => Ret (Err (not_hashed e))
            | Ok hash =>
                let! user := dbx Tx (CreateUser {|
                  cu_Email := email; cu_PasswordHash := hash;
                  cu_DisplayName := if bool_decide (displayName = "") then email else displayName;
                  cu_IsActive := true; cu_TotpSecret := None;
                  cu_Role := if firstUser then "admin" else "user"; cu_AuthSource := "local" |}) in
                match user with
                | Err e => Ret (Err (if isDuplicateKeyError e then refuse 409 "Email already registered"
                                     else refuse 500 "Failed to create user"))
                | Ok user =>
                    let! committed := ask Commit in
                    match committed with
                    | Err _ => Ret (Err (refuse 500 "Failed to commit registration"))
                    | Ok _ => Ret (Ok (user, firstUser))
                    end
                end
            end
      end
  end.

(** The session of the first account. *)
Definition register_session (h : http) (user : User) : aprog response :=
  let! token := ask GenerateRefreshToken in
  match token with
  | None => Ret (refuse 500 "Failed to generate refresh token")
  | Some refreshToken =>
      let! session := CreateSession (u_ID user) (u_AuthEpoch user) refreshToken (u_Role user) (h_UserAgent h)
                        (h_IP h) RefreshTokenTTL (deviceInfoFromRequest h) in
      match session with
      | Err e => do! refused_row user e in Ret (sessionNotCreated e)
      | Ok session =>
          if negb (access_token (s_ID session)) then Ret (refuse 500 "Failed to generate access token")
          else
            do! ask (AuditLogAs (u_ID user) "register") in
            do! ask (LoadPerms (u_ID user)) in
            Ret (signed_in 201 refreshToken (u_ID user) (s_ID session))
      end
  end.

Definition Register (h : http) (email password displayName : string) : aprog response :=
  if bool_decide (email = "") || bool_decide (password = "")
  then Ret (refuse 400 "Email and password are required")
  else if negb (ParseAddress email) then Ret (refuse 400 "Invalid email address")
  else
    let! weak := ask (ValidatePasswordStrength password) in
    match weak with
    | Some e => Ret (refuse 400 (password_error_text e))
    | None =>
      let! tx := ask Begin in
      match tx with
      | Err _ => Ret (refuse 500 "Failed to start transaction")
      | Ok _ => releasing (
          let! r := register_in_tx h email password displayName in
          match r with
          | Err a => Ret a
          | Ok (user, firstUser) =>
              do! ask (AssignUserRole (u_ID user)
                         (if bool_decide (u_Role user = "admin") then admin_role else viewer_role)) in
              if (firstUser : bool) then register_session h user
              else do! ask (AuditLogAs (u_ID user) "register") in Ret (refuse 201 "")
          end)
      end
    end.

(** ** A request *)

Definition handle (h : http) (r : request) : aprog response :=
  match r with
  | RegisterRequest email password name => Register h email password name
  | LoginRequest email password => Login h email password
  | VerifyLoginRequest token code recovery => VerifyLogin h token code recovery
  | OIDCCallbackRequest autoProvision info => provisionAndStoreExchange autoProvision info
  | OIDCExchangeRequest code bound => OIDCTokenExchange h code bound
  | RefreshRequest token => Refresh h token
  | LogoutRequest token => Logout h token
  | LogoutAllRequest => LogoutAll h
  | RevokeSessionRequest id => RevokeSessionByID h id
  | ChangePasswordRequest old new => ChangePassword h old new
  | UpdateUserRequest profile => Update h profile
  end.

Definition serve (h : http) (r : request) : aprog unit :=
  do! ask (Received h r) in
  let! a := handle h r in
  ask (Respond h r a).
End handlers.
