(* ===== verification/AuthInvariant.v ===== *)
(** * What any step of signing in keeps

    [rows]: the rows that are committed, or that a transaction has written.
    [move]: the ways a call can change them, when each thread keeps what it owes
    the others ([owes]). The invariant of the system, [sound], says that
    keys and epochs make sense, that a row is locked by one transaction at a
    time ([base]), that no account is at an epoch lower than one it was read at
    and every session was created at an epoch that was read ([epochs]), and that
    a refresh token is in one session at most and never comes back ([tokens]). *)

From S2P Require Import Prelude GoStrings Effects AuthLockout AuthDb AuthOps AuthHandlers.

Local Open Scope Z_scope.

(** ** Rows over rows *)

Lemma written_user w d id u :
  users (written w d) !! id = Some u ↔
  users w !! id = Some u ∨ (users w !! id = None ∧ users d !! id = Some u).
Proof. apply lookup_union_Some_raw. Qed.

Lemma written_session w d id r :
  sessions (written w d) !! id = Some r ↔
  sessions w !! id = Some r ∨ (sessions w !! id = None ∧ sessions d !! id = Some r).
Proof. apply lookup_union_Some_raw. Qed.

Lemma written_none d : written no_rows d = d.
Proof. destruct d. unfold written. simpl. by rewrite !(left_id_L ∅ (∪)). Qed.

(** The rows at a place: committed, or of the transaction of a thread. *)
Definition rows (s : Sys) (c : option nat) : Tables :=
  match c with
  | None => tables s
  | Some j => match txs s !! j with Some tx => tx_rows tx | None => no_rows end
  end.

(** What a statement at a place sees. *)
Definition view (s : Sys) (c : option nat) : Tables :=
  match c with None => tables s | Some _ => written (rows s c) (tables s) end.

Definition away (s : Sys) (j : nat) : list string :=
  match txs s !! j with Some tx => tx_rotated tx | None => [] end.

Lemma view_user s c id u :
  users (view s c) !! id = Some u →
  users (rows s c) !! id = Some u ∨ (users (rows s c) !! id = None ∧ users (tables s) !! id = Some u).
Proof. destruct c as [j|]; [apply written_user|by left]. Qed.

Lemma view_session s c id r :
  sessions (view s c) !! id = Some r →
  sessions (rows s c) !! id = Some r ∨ (sessions (rows s c) !! id = None ∧ sessions (tables s) !! id = Some r).
Proof. destruct c as [j|]; [apply written_session|by left]. Qed.

Lemma unlocked_rows c us ss s k :
  unlocked c us ss s → c ≠ Some k →
  dom (users (rows s (Some k))) ## us ∧ dom (sessions (rows s (Some k))) ## ss.
Proof.
  intros H Hk. simpl. destruct (txs s !! k) as [tx|] eqn:Htx; [by eapply H|]. simpl. set_solver.
Qed.

(** ** What the log says *)

Section log.
Context `{LIB : AuthLibrary}.

(** The account a statement on the pool answered with, or that was created. *)
Definition answered_user {A} (c : conn) (q : query A) : result db_error A → option User :=
  match q in query A return result db_error A → option User with
  | GetUserByID _ | GetUserByEmail _ | GetUserByEmailAndSource _ _ | UpdateDisplayName _ _ _
  | UpdateUserProfile _ => λ x, match c, x with Pool, Ok u => Some u | _, _ => None end
  | CreateUser _ => λ x, match x with Ok u => Some u | Err _ => None end
  | _ => λ _, None
  end.

Definition read_user (ev : event Op) : option User :=
  match ev with
  | Ev e x => match e in Op X return X → option User with
              | Query c q => answered_user c q
              | _ => λ _, None
              end x
  end.

(** A random value: the hash of a refresh token, the hash of a password, a code. *)
Definition drawn_by (ev : event Op) : option string :=
  match ev with
  | Ev e x => match e in Op X return X → option string with
              | GenerateRefreshToken => λ x, HashToken <$> x
              | RandomString => λ x, x
              | HashPassword _ => λ x, match x with Ok h => Some h | Err _ => None end
              | _ => λ _, None
              end x
  end.

(** The account [u] was read at the epoch [e]. *)
Definition has_read (u : uuid) (e : Z) (l : list (nat * event Op)) : Prop :=
  Exists (λ p, ∃ row, read_user p.2 = Some row ∧ u_ID row = u ∧ u_AuthEpoch row = e) l.

Definition drew (i : nat) (h : string) (l : list (nat * event Op)) : Prop :=
  Exists (λ p, p.1 = i ∧ drawn_by p.2 = Some h) l.

(** The session [id] has the token hash [h], committed or in a transaction. *)
Definition holds (h : string) (id : uuid) (s : Sys) : Prop :=
  ∃ c r, sessions (rows s c) !! id = Some r ∧ s_TokenHash r = h.

Definition unused (h : string) (s : Sys) : Prop := (∀ id, ¬ holds h id s) ∧ (h ∉ (spent s).*2).

(** ** What a thread owes the others at a call

    A session is created on the pool, against an epoch that was read, with a
    token of the thread's own that is in no row; a token is rotated in a
    transaction that has written nothing, to such a token; a password is changed
    to a hash of the thread's own; a code records an epoch that was read. *)
Definition query_owes (i : nat) (c : conn) {A} (q : query A) (s : Sys) : Prop :=
  match q with
  | CreateSessionAtEpoch arg =>
      c = Pool ∧ has_read (cs_UserID arg) (cs_Epoch arg) (log s) ∧ drew i (cs_TokenHash arg) (log s) ∧
      unused (cs_TokenHash arg) s
  | RotateSessionToken arg =>
      c = Tx ∧ drew i (rt_NewTokenHash arg) (log s) ∧ unused (rt_NewTokenHash arg) s ∧
      rows s (Some i) = no_rows ∧ away s i = []
  | UpdatePassword arg => drew i (up_PasswordHash arg) (log s)
  | CreateUser arg => cu_PasswordHash arg = "" ∨ drew i (cu_PasswordHash arg) (log s)
  | _ => True
  end.

Definition record_ok (u : option uuid) (e : option Z) (s : Sys) : Prop :=
  match u, e with Some u, Some e => has_read u e (log s) | _, _ => True end.

Definition owes (i : nat) {X} (e : Op X) (s : Sys) : Prop :=
  match e with
  | Query c q => query_owes i c q s
  | SetPending _ p => record_ok (p_UserID p) (p_AuthEpoch p) s
  | SetExchange _ x => record_ok (x_UserID x) (x_Epoch x) s
  | _ => True
  end.

(** ** Moves *)

(** The session [id] is the only one among [w]. *)
Definition alone (id : uuid) (w : Tables) : Prop := ∀ id', is_Some (sessions w !! id') → id' = id.

(** What a statement of thread [i] that sees [d] may write: [b] are the sessions
    it creates, with their epochs. *)
Record fits (i : nat) (s : Sys) (d w : Tables) (b : gmap uuid Z) : Prop := {
  fit_user id u : users w !! id = Some u →
    u_ID u = id ∧
    (u_PasswordHash u = "" ∨ drew i (u_PasswordHash u) (log s) ∨
     ∃ u0, users d !! id = Some u0 ∧ u_PasswordHash u = u_PasswordHash u0) ∧
    ((∃ u0, users d !! id = Some u0 ∧ u_AuthEpoch u0 ≤ u_AuthEpoch u) ∨
     ((id ∉ ever s) ∧ u_AuthEpoch u = 0));
  fit_session id r : sessions w !! id = Some r → b !! id = None →
    s_ID r = id ∧
    ∃ r0, sessions d !! id = Some r0 ∧ s_UserID r = s_UserID r0 ∧
      (s_IsRevoked r0 = true → s_IsRevoked r = true) ∧
      (s_TokenHash r = s_TokenHash r0 ∨
       (drew i (s_TokenHash r) (log s) ∧ unused (s_TokenHash r) s ∧ alone id w));
  fit_new id e : b !! id = Some e →
    (id ∉ ever s) ∧ ∃ r u, sessions w !! id = Some r ∧ s_ID r = id ∧ has_read (s_UserID r) e (log s) ∧
      users d !! s_UserID r = Some u ∧ u_AuthEpoch u = e ∧ unlocked None {[s_UserID r]} ∅ s ∧
      drew i (s_TokenHash r) (log s) ∧ unused (s_TokenHash r) s ∧ alone id w;
}.

Inductive move (i : nat) (s s' : Sys) : Prop :=
| move_quiet :
    (∀ c, rows s' c = rows s c) → (∀ k, away s' k = away s k) →
    born s' = born s → spent s' = spent s → move i s s'
| move_write c w b l :
    (c = None ∨ (c = Some i ∧ b = ∅)) → fits i s (view s c) w b →
    unlocked c (dom (users w)) (dom (sessions w)) s →
    dom (users w) ∪ dom (sessions w) ⊆ ever s' →
    rows s' c = written w (rows s c) → (∀ c', c' ≠ c → rows s' c' = rows s c') →
    (l = [] ∨ ∃ h id r r', l = [h] ∧ c = Some i ∧ away s i = [] ∧
       sessions (tables s) !! id = Some r ∧ s_TokenHash r = h ∧ sessions w !! id = Some r' ∧
       unused (s_TokenHash r') s) →
    (∀ k, away s' k = (if decide (c = Some k) then l else []) ++ away s k) →
    born s' = b ∪ born s → spent s' = spent s → move i s s'
| move_drop k :
    rows s' (Some k) = no_rows → (∀ c, c ≠ Some k → rows s' c = rows s c) →
    away s' k = [] → (∀ k', k' ≠ k → away s' k' = away s k') →
    born s' = born s → spent s' = spent s → move i s s'
| move_land k :
    rows s' None = written (rows s (Some k)) (tables s) → rows s' (Some k) = no_rows →
    (∀ c, c ≠ None → c ≠ Some k → rows s' c = rows s c) →
    away s' k = [] → (∀ k', k' ≠ k → away s' k' = away s k') →
    born s' = born s → spent s' = (pair k <$> away s k) ++ spent s → move i s s'
| move_remove us ss :
    unlocked None us ss s →
    (∀ id u, users (tables s') !! id = Some u → users (tables s) !! id = Some u) →
    (∀ id u, users (tables s) !! id = Some u → users (tables s') !! id = None → id ∈ us) →
    (∀ id r, sessions (tables s') !! id = Some r → sessions (tables s) !! id = Some r) →
    (∀ id r, sessions (tables s) !! id = Some r → sessions (tables s') !! id = None → id ∈ ss) →
    (∀ c, c ≠ None → rows s' c = rows s c) → (∀ k, away s' k = away s k) →
    born s' = born s → spent s' = spent s → move i s s'.

(** ** The statements *)

Definition keyed (d : Tables) : Prop :=
  (∀ id u, users d !! id = Some u → u_ID u = id) ∧ (∀ id r, sessions d !! id = Some r → s_ID r = id).

Lemma fits_none i s d : fits i s d no_rows ∅.
Proof. by split. Qed.

Lemma fits_user i s d id u0 u :
  keyed d → users d !! id = Some u0 → u_ID u = u_ID u0 → u_AuthEpoch u0 ≤ u_AuthEpoch u →
  u_PasswordHash u = u_PasswordHash u0 ∨ drew i (u_PasswordHash u) (log s) →
  fits i s d (only_users {[id := u]}) ∅.
Proof.
  intros [Hk _] Hu0 Hid He Hp. split; simpl; [|done|done].
  intros id' u'. rewrite lookup_singleton_Some. intros [<- <-]. split_and!.
  - rewrite Hid. by apply Hk.
  - destruct Hp; eauto.
  - eauto.
Qed.

Lemma fits_session i s d id r0 r :
  keyed d → sessions d !! id = Some r0 → s_ID r = s_ID r0 → s_UserID r = s_UserID r0 →
  (s_IsRevoked r0 = true → s_IsRevoked r = true) →
  s_TokenHash r = s_TokenHash r0 ∨ (drew i (s_TokenHash r) (log s) ∧ unused (s_TokenHash r) s) →
  fits i s d (only_sessions {[id := r]}) ∅.
Proof.
  intros [_ Hk] Hr0 Hid Hu Hrev Hh. split; simpl; [done| |done].
  intros id' r'. rewrite lookup_singleton_Some. intros [<- <-] _. split; [rewrite Hid; by apply Hk|].
  exists r0. split_and!; try done. destruct Hh as [Hh|[? ?]]; [by left|]. right. split_and!; try done.
  intros id' [r' Hr']. simpl in Hr'. by apply lookup_singleton_Some in Hr' as [-> _].
Qed.

Lemma fits_fresh_user i s d id u :
  id ∉ ever s → u_ID u = id → u_AuthEpoch u = 0 →
  u_PasswordHash u = "" ∨ drew i (u_PasswordHash u) (log s) →
  fits i s d (only_users {[id := u]}) ∅.
Proof.
  intros He Hid Hu Hp. split; simpl; [|done|done].
  intros id' u'. rewrite lookup_singleton_Some. intros [<- <-]. naive_solver.
Qed.

Lemma fits_births i s d w b : fits i s d w ∅ → b = ∅ → fits i s d w b.
Proof. by intros ? ->. Qed.

Lemma one_none {A} (l : list A) x w : one l x w → w = no_rows.
Proof. by intros [-> _]. Qed.

Lemma revoked_all_fits i s d id seen :
  keyed d → fits i s d (revokeAllUserSessions id seen d) ∅.
Proof.
  intros [_ Hk]. split; simpl; [done| |done]. intros id' r Hr _.
  rewrite lookup_fmap, fmap_Some in Hr. destruct Hr as (r0 & Hr & ->).
  rewrite map_lookup_filter_Some in Hr. destruct Hr as [Hr _]. simpl. eauto 10.
Qed.

Lemma births_none {A} (q : query A) : births q no_rows = ∅.
Proof. by destruct q. Qed.

(** What a statement writes fits what its thread owes. *)
Lemma stmt_fits i s c {A} (q : query A) k env d x w :
  keyed d → query_owes i k q s → (e_fresh env ∉ ever s) →
  stmt q env d x w → lockable c q d w s → (k = Pool → c = None) → fits i s d w (births q w).
Proof.
  intros Hk Ho Hf Hs Hl Hc.
  destruct q; simpl in Hs, Ho;
    try (apply one_none in Hs as ->; apply fits_none);
    try (destruct Hs as [-> ?]; rewrite ?births_none; by apply fits_none).
  - destruct Hs as [-> _]. apply fits_fresh_user; auto.
  - destruct (updateDisplayName source id name d) as [[w' u]|] eqn:Hu; simpl in Hs;
      [|by destruct Hs as [-> _]; apply fits_none].
    destruct Hs as [-> _]. unfold updateDisplayName in Hu.
    destruct (users d !! id) as [u0|] eqn:Hu0; [|done]. case_bool_decide; simplify_eq.
    eapply fits_user; [done..|simpl; lia|simpl; auto].
  - unfold updateUserProfile in Hs. destruct (users d !! uu_ID arg) as [u0|] eqn:Hu0; simpl in Hs;
      destruct Hs as [-> _]; [|by apply fits_none].
    eapply fits_user; [done..|simpl; lia|simpl; auto].
  - destruct Hs as [-> _]. unfold updatePassword. destruct (users d !! up_ID arg) as [u0|] eqn:Hu0;
      [|by apply fits_none]. case_bool_decide; [|by apply fits_none].
    eapply fits_user; [done..|simpl; lia|simpl; auto].
  - unfold bumpUserAuthEpoch in Hs. destruct (users d !! id) as [u0|] eqn:Hu0; simpl in Hs.
    + destruct (_ =? _); [done|]. destruct Hs as [-> _]. eapply fits_user; [done..|simpl; lia|simpl; auto].
    + destruct Hs as [-> _]. apply fits_none.
  - unfold createSessionAtEpoch in Hs. destruct Ho as (-> & Hread & Hdrew & Hunused).
    specialize (Hc eq_refl) as ->. unfold lockable in Hl. simpl in Hl.
    destruct (at_epoch arg d) eqn:Hat; simpl in Hs; destruct Hs as [-> _];
      [|by rewrite births_none; apply fits_none].
    unfold births. simpl. rewrite map_fmap_singleton.
    unfold at_epoch in Hat. destruct (users d !! cs_UserID arg) as [u|] eqn:Hu; [|done].
    apply andb_prop in Hat as [Hat _]. apply Z.eqb_eq in Hat. split; simpl.
    + done.
    + intros id r. rewrite lookup_singleton_Some, lookup_singleton_None. naive_solver.
    + intros id e. rewrite lookup_singleton_Some. intros [<- <-]. split; [done|].
      exists (new_session arg (e_fresh env) (e_now env)), u. split_and!; try done.
      * by rewrite lookup_singleton_eq.
      * intros j tx Htx _. destruct (Hl j tx Htx) as [H1 H2]; [done|]. set_solver.
      * intros id' [r' Hr']. simpl in Hr'. apply lookup_singleton_Some in Hr'. naive_solver.
  - destruct Hs as [-> _]. destruct Ho as (-> & Hdrew & Hunused & Hrows & _).
    unfold rotateSessionToken. destruct (sessions d !! rt_ID arg) as [r0|] eqn:Hr0;
      [|by rewrite births_none; apply fits_none].
    destruct (bool_decide _ && _ && _) eqn:Hb; [|by rewrite births_none; apply fits_none].
    apply fits_births; [|done]. eapply fits_session; simpl; eauto.
  - destruct Hs as [-> _]. unfold revokeSession. destruct (sessions d !! id) as [r0|] eqn:Hr0;
      [|by apply fits_none].
    apply fits_births; [|done]. eapply fits_session; simpl; eauto.
  - destruct Hs as [-> _]. apply fits_births; [|done]. by apply revoked_all_fits.
Qed.

(** ** Keys, epochs and locks *)

Record base (s : Sys) : Prop := {
  row_user c id u : users (rows s c) !! id = Some u → u_ID u = id ∧ id ∈ ever s ∧ u_PasswordHash u ∈ drawn s;
  row_session c id r : sessions (rows s c) !! id = Some r → s_ID r = id ∧ id ∈ ever s;
  over_user k id u u0 :
    users (rows s (Some k)) !! id = Some u → users (tables s) !! id = Some u0 →
    u_AuthEpoch u0 ≤ u_AuthEpoch u;
  over_session k id r :
    sessions (rows s (Some k)) !! id = Some r →
    ∃ r0, sessions (tables s) !! id = Some r0 ∧ s_UserID r = s_UserID r0 ∧
          (s_IsRevoked r0 = true → s_IsRevoked r = true);
  apart k k' :
    k ≠ k' → dom (users (rows s (Some k))) ## dom (users (rows s (Some k'))) ∧
             dom (sessions (rows s (Some k))) ## dom (sessions (rows s (Some k')));
}.

Lemma base_keyed s c : base s → keyed (view s c).
Proof.
  intros Hb. split; intros id x Hx.
  - apply view_user in Hx as [Hx|[_ Hx]]; [by eapply row_user|].
    by eapply (row_user s Hb None).
  - apply view_session in Hx as [Hx|[_ Hx]]; [by eapply row_session|].
    by eapply (row_session s Hb None).
Qed.

(** ** Every step is a move *)

Lemma unlocked_mono c us us' ss ss' s :
  us' ⊆ us → ss' ⊆ ss → unlocked c us ss s → unlocked c us' ss' s.
Proof. intros Hu Hs H j tx Htx Hj. destruct (H j tx Htx Hj). set_solver. Qed.

Lemma lockable_unlocked {A} c (q : query A) d w s :
  lockable c q d w s → unlocked c (dom (users w)) (dom (sessions w)) s.
Proof. apply unlocked_mono; set_solver. Qed.

(** The transaction of [k] with the same rows. *)
Lemma move_same i s s' t :
  (∀ k, match t !! k with Some tx => tx_rows tx | None => no_rows end = rows s (Some k)) →
  (∀ k, match t !! k with Some tx => tx_rotated tx | None => [] end = away s k) →
  tables s' = tables s → txs s' = t → born s' = born s → spent s' = spent s → move i s s'.
Proof.
  intros Hr Ha Hd Ht. apply move_quiet.
  - intros [k|]; simpl; [|done]. rewrite Ht. apply Hr.
  - intros k. unfold away. rewrite Ht. apply Ha.
Qed.

Lemma move_insert i s s' k tx' :
  tx_rows tx' = rows s (Some k) → tx_rotated tx' = away s k →
  tables s' = tables s → txs s' = <[k := tx']> (txs s) → born s' = born s → spent s' = spent s → move i s s'.
Proof.
  intros Hr Ha ? ? ? ?. eapply (move_same _ _ _ (<[k := tx']> (txs s))); [| |done..]; intros k';
    (destruct (decide (k = k')) as [<-|]; [by rewrite lookup_insert_eq|by rewrite lookup_insert_ne]).
Qed.

Lemma move_delete i s s' k :
  tables s' = tables s → txs s' = delete k (txs s) → born s' = born s → spent s' = spent s → move i s s'.
Proof.
  intros Hd Ht Hb Hs. apply (move_drop _ _ _ k); try done; unfold away; simpl; rewrite ?Ht.
  - by rewrite lookup_delete_eq.
  - intros [j|] Hj; simpl; [|done]. rewrite Ht, lookup_delete_ne; congruence.
  - by rewrite lookup_delete_eq.
  - intros j Hj. by rewrite lookup_delete_ne.
Qed.

Lemma move_landed i s k tx : txs s !! k = Some tx → move i s (landed k tx s).
Proof.
  intros Htx. apply (move_land _ _ _ k); unfold away; simpl; rewrite ?Htx, ?lookup_delete_eq; try done.
  - intros [j|] Hj Hk; simpl; [|done]. rewrite lookup_delete_ne; congruence.
  - intros j Hj. by rewrite lookup_delete_ne.
Qed.

Lemma move_logged i s s' k ev : move i s s' → move i s (logged k ev s').
Proof.
  destruct 1 as [|c w b l|k'|k'|us ss].
  - by apply move_quiet.
  - by eapply (move_write _ _ _ c w b l).
  - by apply (move_drop _ _ _ k').
  - by apply (move_land _ _ _ k').
  - by apply (move_remove _ _ _ us ss).
Qed.

Lemma move_pool i s {A} (q : query A) env y w :
  base s → query_owes i Pool q s → env_ok q None (tables s) w s env → stmt q env (tables s) y w →
  lockable None q (tables s) w s → move i s (set_tables (written w (tables s)) (recorded q w s)).
Proof.
  intros Hb Ho (_ & Hf & _) Hs Hl.
  eapply (move_write _ _ _ None w (births q w) []); try done; simpl; auto.
  - eapply stmt_fits; eauto. apply (base_keyed s None Hb).
  - by eapply lockable_unlocked.
  - set_solver.
  - by intros [k|].
Qed.

(** What a statement of a transaction rotates away from. *)
Lemma rotation_ok i s {A} (q : query A) env x w :
  query_owes i Tx q s → stmt q env (view s (Some i)) x w →
  rotations q w = [] ∨ ∃ h id r r', rotations q w = [h] ∧ Some i = Some i ∧ away s i = [] ∧
    sessions (tables s) !! id = Some r ∧ s_TokenHash r = h ∧ sessions w !! id = Some r' ∧
    unused (s_TokenHash r') s.
Proof.
  intros Ho Hs. destruct q; auto. simpl in Ho, Hs. destruct Ho as (_ & _ & Hun & Hrows & Haway).
  destruct Hs as [-> _]. simpl. rewrite Hrows, written_none in *. unfold rotateSessionToken.
  destruct (sessions (tables s) !! rt_ID arg) as [r|] eqn:Hr; [|by left].
  destruct (bool_decide _) eqn:Hh; [|by left]. apply bool_decide_eq_true in Hh. simpl.
  destruct (negb _ && _); [|by left]. right. simpl.
  exists (rt_OldTokenHash arg), (rt_ID arg), r, (rotated arg (e_now env) (e_clock env) r).
  rewrite decide_False by apply map_non_empty_singleton. by rewrite lookup_singleton_eq.
Qed.

Lemma move_tx i s {A} (q : query A) env x w tx :
  base s → query_owes i Tx q s → txs s !! i = Some tx →
  env_ok q (Some (tx_start tx)) (written (tx_rows tx) (tables s)) w s env →
  stmt q env (written (tx_rows tx) (tables s)) x w →
  lockable (Some i) q (written (tx_rows tx) (tables s)) w s →
  move i s (set_txs (<[i := tx_write q w tx]> (txs s)) (recorded q w s)).
Proof.
  intros Hb Ho Htx (_ & Hf & _) Hs Hl.
  assert (view s (Some i) = written (tx_rows tx) (tables s)) as Hv by (simpl; by rewrite Htx).
  rewrite <-Hv in *.
  assert (births q w = ∅) as Hbirths.
  { destruct q; try done. simpl in Ho. by destruct Ho. }
  eapply (move_write _ _ _ (Some i) w ∅ (rotations q w)); auto.
  - rewrite <-Hbirths. eapply stmt_fits; eauto; [|done]. by apply base_keyed.
  - by eapply lockable_unlocked.
  - simpl. set_solver.
  - simpl. by rewrite lookup_insert_eq, Htx.
  - intros [k|] Hk; simpl; [|done]. rewrite lookup_insert_ne; congruence.
  - by eapply rotation_ok.
  - intros k. unfold away. simpl. destruct (decide (Some i = Some k)) as [[= <-]|Hk].
    + by rewrite lookup_insert_eq, Htx.
    + by rewrite lookup_insert_ne by congruence.
  - simpl. by rewrite Hbirths.
Qed.

Lemma elsewhere_move i s s' : base s → elsewhere s s' → move i s s'.
Proof.
  intros Hb. destruct 1 as [t|k tx Htx|k tx Htx|id u u' Hu Hl Hid He Hp|u Hu He Hp|id Hl|id Hl|token|code].
  - by apply move_quiet.
  - by apply (move_delete _ _ _ k).
  - by apply move_landed.
  - eapply (move_write _ _ _ None (only_users {[id := u']}) ∅ []); simpl; auto.
    + eapply fits_user; [apply (base_keyed s None Hb)|done|done|lia|auto].
    + revert Hl. apply unlocked_mono; set_solver.
    + pose proof (row_user s Hb None id u Hu). set_solver.
    + by intros [k|].
    + by rewrite (left_id_L ∅ (∪)).
  - eapply (move_write _ _ _ None (only_users {[u_ID u := u]}) ∅ []); simpl; auto.
    + by apply fits_fresh_user; auto.
    + intros k tx Htx _. simpl. split; [|set_solver]. apply elem_of_disjoint. intros id Hid1 Hid2.
      apply elem_of_dom in Hid1 as [v Hv]. assert (id = u_ID u) as -> by set_solver.
      destruct (row_user s Hb (Some k) (u_ID u) v) as (_ & ? & _); [simpl; by rewrite Htx|done].
    + set_solver.
    + by intros [k|].
    + by rewrite (left_id_L ∅ (∪)).
  - eapply (move_remove _ _ _ _ _ Hl); simpl; try done.
    + intros id' u. rewrite lookup_delete_Some. naive_solver.
    + intros id' u Hu. rewrite lookup_delete_None. rewrite Hu. set_solver.
    + intros id' r. rewrite map_lookup_filter_Some. naive_solver.
    + intros id' r Hr. rewrite map_lookup_filter_None. intros [?|Hn]; [congruence|].
      apply elem_of_dom. exists r. apply map_lookup_filter_Some. split; [done|]. simpl.
      destruct (decide (s_UserID r = id)); [done|]. by destruct (Hn r Hr).
    + by intros [k|].
  - eapply (move_remove _ _ _ _ _ Hl); simpl; try done.
    + intros id' u Hu. by rewrite Hu.
    + intros id' r. rewrite lookup_delete_Some. naive_solver.
    + intros id' r Hr. rewrite lookup_delete_None. rewrite Hr. set_solver.
    + by intros [k|].
  - by apply move_quiet.
  - by apply move_quiet.
Qed.

Lemma may_answer_move i s {X} (e : Op X) x s' :
  base s → owes i e s → may_answer i e s x s' → move i s s'.
Proof.
  intros Hb Ho Ha.
  assert (move i s s) as Hq by by apply move_quiet.
  destruct e; simpl in Ha, Ho; try (by subst);
    try (destruct x; destruct_and?; subst; by apply move_quiet);
    try (destruct Ha as [_ [-> | ->]]; by apply move_quiet);
    try (destruct Ha as [[_ ->]| ->]; [done|by apply move_quiet]);
    try (destruct Ha as [-> | ->]; [done|by apply move_quiet]).
  - destruct c.
    + destruct Ha as [[_ ->]|(env & y & w & ? & ? & ? & _ & ->)]; [done|]. by eapply move_pool.
    + unfold tx_step in Ha. destruct (txs s !! i) as [tx|] eqn:Htx; [|by destruct Ha as [_ ->]].
      destruct Ha as [[_ ->]|(env & w & _ & ? & ? & ? & ->)]; [|by eapply move_tx].
      apply (move_insert _ _ _ i (tx_fail tx)); simpl; unfold away; by rewrite ?Htx.
  - destruct Ha as [[_ ->]|(Htx & _ & ->)]; [done|].
    apply (move_insert _ _ _ i (new_tx (clock s))); simpl; unfold away; by rewrite ?Htx.
  - unfold commit_step in Ha. destruct (txs s !! i) as [tx|] eqn:Htx; [|by destruct Ha as [_ ->]].
    destruct Ha as [[_ ->]|[(_ & _ & ->)|(_ & err & _ & _ & _ & [-> | ->])]].
    + by apply (move_delete _ _ _ i).
    + by apply move_landed.
    + by apply move_landed.
    + apply (move_insert _ _ _ i (tx_in_doubt tx)); simpl; unfold away; by rewrite ?Htx.
  - destruct Ha as [-> | ->]; [done|]. by apply (move_delete _ _ _ i).
  - by apply elsewhere_move.
Qed.

Lemma step_move i X (e : Op X) s x s' : base s → owes i e s → step i X e s x s' → move i s s'.
Proof. intros Hb Ho (s1 & Ha & ->). apply move_logged. by eapply may_answer_move. Qed.

(** ** The rest of the state only grows *)

Lemma elsewhere_grows s s' :
  elsewhere s s' → ever s ⊆ ever s' ∧ drawn s ⊆ drawn s' ∧ log s' = log s.
Proof. destruct 1; simpl; split_and!; set_solver. Qed.

Lemma may_answer_grows i {X} (e : Op X) s x s' :
  may_answer i e s x s' → ever s ⊆ ever s' ∧ drawn s ⊆ drawn s' ∧ log s' = log s.
Proof.
  intros Ha. destruct e; simpl in Ha; try (by subst); try (by apply elsewhere_grows);
    try (destruct x; destruct_and?; subst; simpl; split_and!; set_solver);
    try (destruct_or?; destruct_and?; destruct_or?; subst; simpl; split_and!; set_solver).
  - destruct c.
    + destruct Ha as [[_ ->]|(env & y & w & _ & _ & _ & _ & ->)]; simpl; split_and!; set_solver.
    + unfold tx_step in Ha. destruct (txs s !! i); [|by destruct Ha as [_ ->]].
      destruct Ha as [[_ ->]|(env & w & _ & _ & _ & _ & ->)]; simpl; split_and!; set_solver.
  - unfold commit_step in Ha. destruct (txs s !! i); [|by destruct Ha as [_ ->]].
    destruct Ha as [[_ ->]|[(_ & _ & ->)|(_ & err & _ & _ & _ & [-> | ->])]]; simpl; split_and!; set_solver.
Qed.

Lemma step_grows i X (e : Op X) s x s' :
  step i X e s x s' → ever s ⊆ ever s' ∧ drawn s ⊆ drawn s' ∧ log s' = (i, Ev e x) :: log s.
Proof.
  intros (s1 & Ha & ->). apply may_answer_grows in Ha as (? & ? & Hl). simpl. by rewrite Hl.
Qed.

Lemma step_draws i X (e : Op X) s x s' h :
  step i X e s x s' → drawn_by (Ev e x) = Some h → (h ∉ drawn s) ∧ h ∈ drawn s'.
Proof.
  intros (s1 & Ha & ->) Hd. destruct e; simpl in *; try done.
  - destruct x as [t|]; simplify_eq/=. destruct Ha as [? ->]. set_solver.
  - destruct x as [t|]; simplify_eq/=. destruct Ha as [? ->]. set_solver.
  - destruct x as [t|]; simplify_eq/=. destruct Ha as [? ->]. set_solver.
Qed.

Lemma has_read_cons u e p l : has_read u e l → has_read u e (p :: l).
Proof. by right. Qed.

Lemma has_read_grows u e i X (o : Op X) s x s' :
  step i X o s x s' → has_read u e (log s) → has_read u e (log s').
Proof. intros Hs. destruct (step_grows _ _ _ _ _ _ Hs) as (_ & _ & ->). apply has_read_cons. Qed.

Lemma drew_grows j h i X (o : Op X) s x s' :
  step i X o s x s' → drew j h (log s) → drew j h (log s').
Proof. intros Hs. destruct (step_grows _ _ _ _ _ _ Hs) as (_ & _ & ->). by right. Qed.

(** ** Random values are one thread's own *)

Record draws (s : Sys) : Prop := {
  draw_empty : "" ∈ drawn s;
  draw_drawn i h : drew i h (log s) → h ∈ drawn s ∧ h ≠ "";
  draw_own i j h : drew i h (log s) → drew j h (log s) → i = j;
}.

Lemma draws_step i X (e : Op X) s x s' : draws s → step i X e s x s' → draws s'.
Proof.
  intros [He Hd Ho] Hs. destruct (step_grows _ _ _ _ _ _ Hs) as (_ & Hsub & Hl).
  assert (∀ h, drawn_by (Ev e x) = Some h → (h ∉ drawn s) ∧ h ∈ drawn s') as Hnew.
  { intros h. by apply step_draws with (i := i). }
  unfold drew in *. split; [set_solver| |].
  - intros j h. unfold drew. rewrite Hl, Exists_cons. intros [[_ Hh]|Hh]; [|specialize (Hd j h Hh); set_solver].
    destruct (Hnew h Hh). split; [done|]. by intros ->.
  - intros j k h. unfold drew. rewrite Hl, !Exists_cons. simpl. intros [[Hj Hh]|Hh] [[Hk Hh']|Hh'].
    + congruence.
    + destruct (Hnew h Hh). destruct (Hd k h Hh'). done.
    + destruct (Hnew h Hh'). destruct (Hd j h Hh). done.
    + by eapply Ho.
Qed.

(** ** Keys, epochs and locks are kept *)

Lemma unlocked_user c us ss s k id u :
  unlocked c us ss s → c ≠ Some k → users (rows s (Some k)) !! id = Some u → id ∉ us.
Proof.
  intros Hl Hk Hu Hid. destruct (unlocked_rows _ _ _ _ k Hl Hk) as [Hd _].
  apply elem_of_dom_2 in Hu. set_solver.
Qed.

Lemma unlocked_session c us ss s k id r :
  unlocked c us ss s → c ≠ Some k → sessions (rows s (Some k)) !! id = Some r → id ∉ ss.
Proof.
  intros Hl Hk Hr Hid. destruct (unlocked_rows _ _ _ _ k Hl Hk) as [_ Hd].
  apply elem_of_dom_2 in Hr. set_solver.
Qed.

Lemma apart_user s k k' id u u' :
  base s → users (rows s (Some k)) !! id = Some u → users (rows s (Some k')) !! id = Some u' → k = k'.
Proof.
  intros Hb Hu Hu'. destruct (decide (k = k')) as [|Hk]; [done|].
  destruct (apart s Hb k k' Hk) as [Hd _]. apply elem_of_dom_2 in Hu, Hu'. set_solver.
Qed.

Lemma apart_session s k k' id r r' :
  base s → sessions (rows s (Some k)) !! id = Some r → sessions (rows s (Some k')) !! id = Some r' → k = k'.
Proof.
  intros Hb Hr Hr'. destruct (decide (k = k')) as [|Hk]; [done|].
  destruct (apart s Hb k k' Hk) as [_ Hd]. apply elem_of_dom_2 in Hr, Hr'. set_solver.
Qed.

(** *** Where a row comes from *)

(** The hash of a password is the thread's own, or none. *)
Definition own_password (i : nat) (s : Sys) (u : User) : Prop :=
  u_PasswordHash u = "" ∨ drew i (u_PasswordHash u) (log s).

(** A row of an account after a move: an earlier row, at no lower epoch, or a
    new account. *)
Inductive user_from (i : nat) (s s' : Sys) (id : uuid) (u : User) : Prop :=
| user_old c u0 :
    users (rows s c) !! id = Some u0 → u_AuthEpoch u0 ≤ u_AuthEpoch u →
    u_PasswordHash u = u_PasswordHash u0 ∨ own_password i s u → user_from i s s' id u
| user_new :
    id ∉ ever s → id ∈ ever s' → u_AuthEpoch u = 0 → own_password i s u → user_from i s s' id u.

Lemma user_origin i s s' c id u :
  base s → move i s s' → users (rows s' c) !! id = Some u → u_ID u = id ∧ user_from i s s' id u.
Proof.
  intros Hb Hm.
  assert (∀ c0, users (rows s c0) !! id = Some u → u_ID u = id ∧ user_from i s s' id u) as Hkept.
  { intros c0 Hu. split; [by eapply row_user|]. eapply user_old; [done|lia|auto]. }
  destruct Hm as [Hr|c0 w b l _ Hfit _ Hev Hr Hr'|k Hr Hr'|k Hd Hr Hr'|us ss _ Hu _ _ _ Hr].
  - rewrite Hr. apply Hkept.
  - destruct (decide (c = c0)) as [->|Hc]; [|rewrite Hr' by done; apply Hkept].
    rewrite Hr, written_user. intros [Hu|[_ Hu]]; [|by eapply Hkept].
    destruct (fit_user _ _ _ _ _ Hfit id u Hu) as (Hid & Hp & He). split; [done|].
    assert (id ∈ ever s') by (apply elem_of_dom_2 in Hu; set_solver).
    destruct He as [(u0 & Hu0 & He)|[Hf He]].
    + assert (u_PasswordHash u = u_PasswordHash u0 ∨ own_password i s u) as Hpw.
      { destruct Hp as [?|[?|(u1 & Hu1 & Hp)]]; [by right; left|by right; right|]. left. congruence. }
      apply view_user in Hu0 as [?|[_ ?]]; [by eapply (user_old _ _ _ _ _ c0)|by eapply (user_old _ _ _ _ _ None)].
    + apply user_new; try done. destruct Hp as [?|[?|(u1 & Hu1 & Hp)]]; [by left|by right|].
      destruct Hf. apply view_user in Hu1 as [?|[_ Hu1]]; [by eapply row_user|].
      by eapply (row_user s Hb None).
  - destruct (decide (c = Some k)) as [->|Hc]; [by rewrite Hr|]. rewrite Hr' by done. apply Hkept.
  - destruct c as [j|].
    + destruct (decide (j = k)) as [->|Hk]; [by rewrite Hr|]. rewrite Hr' by congruence. apply Hkept.
    + rewrite Hd, written_user. intros [?|[_ ?]]; [by apply (Hkept (Some k))|by apply (Hkept None)].
  - destruct c as [j|]; [rewrite Hr by done; apply Hkept|]. intros ?%Hu. by apply (Hkept None).
Qed.

(** A row of a session after a move: an earlier row of the session, with its
    token or one of the thread's own that was in use nowhere, or a new session. *)
Inductive session_from (i : nat) (s s' : Sys) (c : option nat) (id : uuid) (r : Session) : Prop :=
| session_old c0 r0 :
    sessions (rows s c0) !! id = Some r0 → s_UserID r = s_UserID r0 →
    (s_IsRevoked r0 = true → s_IsRevoked r = true) →
    s_TokenHash r = s_TokenHash r0 ∨ (drew i (s_TokenHash r) (log s) ∧ unused (s_TokenHash r) s) →
    session_from i s s' c id r
| session_new e u :
    c = None → id ∉ ever s → id ∈ ever s' → born s' !! id = Some e → has_read (s_UserID r) e (log s) →
    users (tables s) !! s_UserID r = Some u → u_AuthEpoch u = e → unlocked None {[s_UserID r]} ∅ s →
    drew i (s_TokenHash r) (log s) → unused (s_TokenHash r) s → session_from i s s' c id r.

Lemma session_origin i s s' c id r :
  base s → move i s s' → sessions (rows s' c) !! id = Some r → s_ID r = id ∧ session_from i s s' c id r.
Proof.
  intros Hb Hm.
  assert (∀ c0, sessions (rows s c0) !! id = Some r → s_ID r = id ∧ session_from i s s' c id r) as Hkept.
  { intros c0 Hr. split; [by eapply row_session|]. eapply session_old; eauto. }
  destruct Hm as [Hr|c0 w b l Hc0 Hfit _ Hev Hr Hr' _ _ Hborn _|k Hr Hr'|k Hd Hr Hr'|us ss _ _ _ Hs _ Hr].
  - rewrite Hr. apply Hkept.
  - destruct (decide (c = c0)) as [->|Hc]; [|rewrite Hr' by done; apply Hkept].
    rewrite Hr, written_session. intros [Hw|[_ Hw]]; [|by eapply Hkept].
    assert (id ∈ ever s') by (apply elem_of_dom_2 in Hw; set_solver).
    destruct (b !! id) as [e|] eqn:Hbid.
    + destruct (fit_new _ _ _ _ _ Hfit id e Hbid) as (Hf & r' & u & Hr1 & Hid & Hread & Hu & He & Hl & Hdrew & Hun & _).
      destruct Hc0 as [->|[_ ->]]; [|done]. simplify_eq. split; [done|].
      eapply session_new; try done. rewrite Hborn. by apply lookup_union_Some_l.
    + destruct (fit_session _ _ _ _ _ Hfit id r Hw Hbid) as (Hid & r0 & Hr0 & Huser & Hrev & Hh).
      split; [done|]. apply view_session in Hr0 as [?|[_ ?]];
        [eapply (session_old _ _ _ _ _ _ c0)|eapply (session_old _ _ _ _ _ _ None)]; naive_solver.
  - destruct (decide (c = Some k)) as [->|Hc]; [by rewrite Hr|]. rewrite Hr' by done. apply Hkept.
  - destruct c as [j|].
    + destruct (decide (j = k)) as [->|Hk]; [by rewrite Hr|]. rewrite Hr' by congruence. apply Hkept.
    + rewrite Hd, written_session. intros [?|[_ ?]]; [by apply (Hkept (Some k))|by apply (Hkept None)].
  - destruct c as [j|]; [rewrite Hr by done; apply Hkept|]. intros ?%Hs. by apply (Hkept None).
Qed.

(** A committed session was committed, not revoked if it is not now, or is new. *)
Lemma committed_origin i s s' id r :
  base s → move i s s' → sessions (tables s') !! id = Some r →
  (∃ r1, sessions (tables s) !! id = Some r1 ∧ s_UserID r = s_UserID r1 ∧
         (s_IsRevoked r1 = true → s_IsRevoked r = true)) ∨
  ((id ∉ ever s) ∧ ∃ u, users (tables s) !! s_UserID r = Some u ∧ born s' !! id = Some (u_AuthEpoch u) ∧
     has_read (s_UserID r) (u_AuthEpoch u) (log s) ∧ unlocked None {[s_UserID r]} ∅ s).
Proof.
  intros Hb Hm Hr.
  destruct (session_origin _ _ _ None _ _ Hb Hm Hr) as [_ [c0 r0 Hr0 Hu Hrev _|n u ? ? ? ? ? ? <-]]; [left|right].
  - destruct c0 as [k|]; [|by eauto]. destruct (over_session s Hb k id r0 Hr0) as (r1 & Hr1 & Hu1 & Hrev1).
    exists r1. split_and!; [done|congruence|auto].
  - split; [done|]. by exists u.
Qed.

(** *** The fields of [base] *)

Lemma own_password_drawn i s u : draws s → own_password i s u → u_PasswordHash u ∈ drawn s.
Proof. intros Hd [-> |H]; [by apply draw_empty|by eapply draw_drawn]. Qed.

Lemma over_user_move i s s' k id u u0 :
  base s → move i s s' → users (rows s' (Some k)) !! id = Some u → users (tables s') !! id = Some u0 →
  u_AuthEpoch u0 ≤ u_AuthEpoch u.
Proof.
  intros Hb Hm. change (tables s') with (rows s' None).
  destruct Hm as [Hr|c w b l Hc Hfit Hl _ Hr Hr'|k' Hr Hr'|k' Hd Hr Hr'|us ss _ Hu _ _ _ Hr].
  - rewrite !Hr. by eapply over_user.
  - destruct Hc as [->|[-> ->]].
    + rewrite Hr, (Hr' (Some k)), written_user by done. intros Hk [Hw|[_ Hw]]; [|by eapply over_user].
      eapply unlocked_user in Hk; [|done..]. by apply elem_of_dom_2 in Hw.
    + rewrite (Hr' None) by done. destruct (decide (k = i)) as [->|Hk].
      * rewrite Hr, written_user. intros [Hw|[_ Hw]] Hu0; [|by eapply over_user].
        destruct (fit_user _ _ _ _ _ Hfit id u Hw) as (_ & _ & [(u1 & Hu1 & He)|[Hf _]]).
        -- apply view_user in Hu1 as [Hu1|[_ Hu1]]; [|simpl in *; by simplify_eq].
           transitivity (u_AuthEpoch u1); [by eapply over_user|done].
        -- by destruct (row_user s Hb None id u0 Hu0) as (_ & ? & _).
      * rewrite Hr' by congruence. by eapply over_user.
  - rewrite (Hr' None) by done. destruct (decide (k = k')) as [->|Hk]; [by rewrite Hr|].
    rewrite Hr' by congruence. by eapply over_user.
  - destruct (decide (k = k')) as [->|Hk]; [by rewrite Hr|]. rewrite Hr', Hd, written_user by congruence.
    intros Hu [Hu'|[_ Hu']]; [|by eapply over_user]. by destruct Hk; eapply apart_user.
  - rewrite Hr by done. intros ? ?%Hu. by eapply over_user.
Qed.

Lemma over_session_move i s s' k id r :
  base s → move i s s' → sessions (rows s' (Some k)) !! id = Some r →
  ∃ r0, sessions (tables s') !! id = Some r0 ∧ s_UserID r = s_UserID r0 ∧
        (s_IsRevoked r0 = true → s_IsRevoked r = true).
Proof.
  intros Hb Hm. change (tables s') with (rows s' None).
  destruct Hm as [Hr|c w b l Hc Hfit Hl _ Hr Hr'|k' Hr Hr'|k' Hd Hr Hr'|us ss Hl _ _ Hsub Hs Hr].
  - rewrite !Hr. by eapply over_session.
  - destruct Hc as [->|[-> ->]].
    + rewrite Hr, (Hr' (Some k)) by done. intros Hk. destruct (over_session s Hb k id r Hk) as (r0 & Hr0 & Hrest).
      exists r0. split; [|done]. apply written_session. right. split; [|done].
      eapply unlocked_session in Hk; [|done..]. by apply not_elem_of_dom.
    + rewrite (Hr' None) by done. destruct (decide (k = i)) as [->|Hk].
      * rewrite Hr, written_session. intros [Hw|[_ Hw]]; [|by eapply over_session].
        destruct (fit_session _ _ _ _ _ Hfit id r Hw) as (_ & r1 & Hr1 & Hu & Hrev & _); [done|].
        apply view_session in Hr1 as [Hr1|[_ Hr1]]; [|by eauto].
        destruct (over_session s Hb i id r1 Hr1) as (r0 & Hr0 & Hu0 & Hrev0). exists r0.
        split_and!; [done|congruence|auto].
      * rewrite Hr' by congruence. by eapply over_session.
  - rewrite (Hr' None) by done. destruct (decide (k = k')) as [->|Hk]; [by rewrite Hr|].
    rewrite Hr' by congruence. by eapply over_session.
  - destruct (decide (k = k')) as [->|Hk]; [by rewrite Hr|]. rewrite Hr', Hd by congruence. intros Hr1.
    destruct (over_session s Hb k id r Hr1) as (r0 & Hr0 & Hrest). exists r0. split; [|done].
    apply written_session. right. split; [|done].
    destruct (sessions (rows s (Some k')) !! id) eqn:Hk'; [|done]. by destruct Hk; eapply apart_session.
  - rewrite Hr by done. intros Hk. destruct (over_session s Hb k id r Hk) as (r0 & Hr0 & Hrest).
    exists r0. split; [|done]. simpl. destruct (sessions (tables s') !! id) as [r1|] eqn:Hr1.
    + apply Hsub in Hr1 as Hr2. simpl. congruence.
    + eapply unlocked_session in Hk; [|done..]. by destruct Hk; eapply Hs.
Qed.

Lemma apart_move i s s' k k' :
  base s → move i s s' → k ≠ k' →
  dom (users (rows s' (Some k))) ## dom (users (rows s' (Some k'))) ∧
  dom (sessions (rows s' (Some k))) ## dom (sessions (rows s' (Some k'))).
Proof.
  intros Hb Hm Hk.
  destruct Hm as [Hr|c w b l Hc Hfit Hl _ Hr Hr'|k0 Hr Hr'|k0 Hd Hr Hr'|us ss Hl _ _ _ Hs Hr].
  - rewrite !Hr. by apply apart.
  - destruct Hc as [->|[-> ->]]; [rewrite !Hr' by done; by apply apart|].
    assert (∀ j, j ≠ i → dom (users (rows s' (Some i))) ## dom (users (rows s (Some j))) ∧
                         dom (sessions (rows s' (Some i))) ## dom (sessions (rows s (Some j)))) as Hi.
    { intros j Hj. destruct (unlocked_rows _ _ _ _ j Hl) as [Hl1 Hl2]; [congruence|].
      destruct (apart s Hb j i Hj) as [Ha1 Ha2]. rewrite Hr. unfold written. simpl (users _).
      simpl (sessions _). rewrite !dom_union_L. set_solver. }
    destruct (decide (k = i)) as [->|Hki].
    + rewrite (Hr' (Some k')) by congruence. by apply Hi.
    + rewrite (Hr' (Some k)) by congruence. destruct (decide (k' = i)) as [->|Hki'].
      * destruct (Hi k); [done|]. set_solver.
      * rewrite (Hr' (Some k')) by congruence. by apply apart.
  - destruct (decide (k = k0)) as [->|]; [rewrite Hr; set_solver|].
    destruct (decide (k' = k0)) as [->|]; [rewrite Hr; set_solver|].
    rewrite !Hr' by congruence. by apply apart.
  - destruct (decide (k = k0)) as [->|]; [rewrite Hr; set_solver|].
    destruct (decide (k' = k0)) as [->|]; [rewrite Hr; set_solver|].
    rewrite !Hr' by congruence. by apply apart.
  - rewrite !Hr by done. by apply apart.
Qed.

Lemma base_step i X (e : Op X) s x s' :
  base s → draws s → owes i e s → step i X e s x s' → base s'.
Proof.
  intros Hb Hd Ho Hs. pose proof (step_move _ _ _ _ _ _ Hb Ho Hs) as Hm.
  destruct (step_grows _ _ _ _ _ _ Hs) as (He & Hdr & _). split.
  - intros c id u Hu. destruct (user_origin _ _ _ _ _ _ Hb Hm Hu) as [Hid Hfrom]. split; [done|].
    destruct Hfrom as [c0 u0 Hu0 _ Hp|Hf Hev _ Hp].
    + destruct (row_user s Hb c0 id u0 Hu0) as (_ & ? & ?). split; [set_solver|].
      destruct Hp as [-> |Hp]; [set_solver|]. apply own_password_drawn in Hp; set_solver.
    + split; [done|]. apply own_password_drawn in Hp; set_solver.
  - intros c id r Hr. destruct (session_origin _ _ _ _ _ _ Hb Hm Hr) as [Hid Hfrom]. split; [done|].
    destruct Hfrom as [c0 r0 Hr0| ]; [|done]. destruct (row_session s Hb c0 id r0 Hr0). set_solver.
  - intros. by eapply over_user_move.
  - intros. by eapply over_session_move.
  - intros. by eapply apart_move.
Qed.

(** ** Epochs *)

(** No row of the account [u] is, or will be, at an epoch before [e]. *)
Definition at_least (u : uuid) (e : Z) (s : Sys) : Prop :=
  u ∈ ever s ∧ ∀ c row, users (rows s c) !! u = Some row → e ≤ u_AuthEpoch row.

Lemma at_least_mono u e e' s : e ≤ e' → at_least u e' s → at_least u e s.
Proof. intros He [Hu Ha]. split; [done|]. intros c row Hr. specialize (Ha c row Hr). lia. Qed.

Lemma at_least_step u e i X (o : Op X) s x s' :
  base s → owes i o s → step i X o s x s' → at_least u e s → at_least u e s'.
Proof.
  intros Hb Ho Hs [Hu Ha]. pose proof (step_move _ _ _ _ _ _ Hb Ho Hs) as Hm.
  destruct (step_grows _ _ _ _ _ _ Hs) as (He & _). split; [set_solver|]. intros c row Hr.
  destruct (user_origin _ _ _ _ _ _ Hb Hm Hr) as [_ [c0 u0 Hu0 Hle _|Hf _]]; [|done].
  specialize (Ha c0 u0 Hu0). lia.
Qed.

(** A committed row is at the lowest epoch. *)
Lemma at_least_committed u row s : base s → users (tables s) !! u = Some row → at_least u (u_AuthEpoch row) s.
Proof.
  intros Hb Hu. split; [by eapply (row_user s Hb None)|]. intros [k|] row' Hr.
  - by eapply over_user.
  - simpl in Hr. simplify_eq. lia.
Qed.

Lemma elem_of_select {A} (P : A → bool) (m : gmap uuid A) x :
  x ∈ select P m ↔ P x = true ∧ ∃ id, m !! id = Some x.
Proof.
  unfold select. rewrite elem_of_bfilter, list_elem_of_fmap. split.
  - intros [([k y] & -> & Hy) HP]. split; [done|]. exists k. by apply elem_of_map_to_list.
  - intros [HP [k Hk]]. split; [|done]. exists (k, x). split; [done|]. by apply elem_of_map_to_list.
Qed.

Lemma one_ok {A} (l : list A) r w : one l (Ok r) w → w = no_rows ∧ r ∈ l.
Proof. intros [-> Hl]. destruct l; [done|]. split; [done|]. naive_solver. Qed.

(** The account a statement on the pool answers with is committed. *)
Lemma answered_committed {A} (q : query A) env d x w row :
  keyed d → stmt q env d x w → answered_user Pool q x = Some row →
  users (written w d) !! u_ID row = Some row.
Proof.
  intros [Hk _] Hs Ha.
  assert (∀ id, users d !! id = Some row → users (written no_rows d) !! u_ID row = Some row) as Hd.
  { intros id Hid. rewrite written_none. by rewrite (Hk id row Hid). }
  destruct q; simpl in Hs, Ha; try done; destruct x as [y|]; simplify_eq/=.
  - apply one_ok in Hs as [-> Hs]. unfold getUserByID in Hs. destruct (users d !! id) eqn:Hu; [|set_solver].
    apply list_elem_of_singleton in Hs as ->. by eapply Hd.
  - apply one_ok in Hs as [-> Hs]. apply elem_of_select in Hs as [_ [id Hid]]. by eapply Hd.
  - apply one_ok in Hs as [-> Hs]. apply elem_of_select in Hs as [_ [id Hid]]. by eapply Hd.
  - destruct Hs as [-> ?]. simplify_eq. apply written_user. left. simpl. apply lookup_singleton_eq.
  - unfold updateDisplayName in Hs. destruct (users d !! id) as [u|] eqn:Hu; [|by destruct Hs].
    case_bool_decide; [|by destruct Hs]. destruct Hs as [-> ?]. simplify_eq. apply written_user. left. simpl.
    rewrite (Hk id u Hu). apply lookup_singleton_eq.
  - unfold updateUserProfile in Hs. destruct (users d !! uu_ID arg) as [u|] eqn:Hu; [|by destruct Hs].
    simpl in Hs. destruct Hs as [-> ?]. simplify_eq. apply written_user. left. simpl.
    rewrite (Hk _ u Hu). apply lookup_singleton_eq.
Qed.

Lemma read_at_least i X (e : Op X) s x s' row :
  base s → base s' → owes i e s → step i X e s x s' → read_user (Ev e x) = Some row →
  at_least (u_ID row) (u_AuthEpoch row) s'.
Proof.
  intros Hb Hb' Ho Hs Hread. pose proof (step_move _ _ _ _ _ _ Hb Ho Hs) as Hm.
  destruct Hs as (s1 & Ha & ->). destruct e; simpl in Hread; try done. simpl in Ha. destruct c.
  - assert (¬ failed x) as Hx. { intros (err & -> & _). by destruct q. }
    destruct Ha as [[? _]|(env & y & w & Henv & Hst & Hl & [<-|?] & ->)]; [done| |done].
    apply at_least_committed; [done|]. simpl.
    eapply answered_committed; [|done..]. apply (base_keyed s None Hb).
  - destruct q; simpl in Hread; try (by destruct x). destruct x as [u|]; [|done]. simplify_eq.
    unfold tx_step in Ha. destruct (txs s !! i) as [tx|] eqn:Htx; [|by destruct Ha as [(? & ? & _) _]].
    destruct Ha as [[(? & ? & _) _]|(env & w & _ & (_ & Hf & _) & Hst & _ & ->)]; [done|].
    simpl in Hst. destruct Hst as [-> ?]. simplify_eq. simpl. split; [set_solver|].
    intros c r Hr. destruct (user_origin _ _ _ _ _ _ Hb Hm Hr) as [_ [c0 u0 Hu0 Hle _|_ _ He _]]; [|lia].
    by destruct Hf; eapply row_user.
Qed.

Record epochs (s : Sys) : Prop := {
  reads_ok u e : has_read u e (log s) → at_least u e s;
  births_ok id r :
    sessions (tables s) !! id = Some r → ∃ b, born s !! id = Some b ∧ has_read (s_UserID r) b (log s);
  born_ever id b : born s !! id = Some b → id ∈ ever s;
  pending_ok t p : pending s !! t = Some (Some p) → record_ok (p_UserID p) (p_AuthEpoch p) s;
  exchange_ok t p : exchanges s !! t = Some (Some p) → record_ok (x_UserID p) (x_Epoch p) s;
}.

Lemma born_move i s s' id b : move i s s' → id ∈ ever s → born s !! id = Some b → born s' !! id = Some b.
Proof.
  intros Hm He Hb. destruct Hm as [? ? ->|c w b' l _ Hfit _ _ _ _ _ _ -> _|? ? ? ? ? ->|? ? ? ? ? ? ->|? ? ? ? ? ? ? ? ? ->]; try done.
  apply lookup_union_Some_raw. right. split; [|done].
  destruct (b' !! id) as [e|] eqn:Hid; [|done]. by destruct (fit_new _ _ _ _ _ Hfit id e Hid).
Qed.

Lemma record_ok_step u e i X (o : Op X) s x s' : step i X o s x s' → record_ok u e s → record_ok u e s'.
Proof. intros Hs. destruct u, e; simpl; try done. by eapply has_read_grows. Qed.

(** What Redis holds was there or is owed. *)
Lemma records_step i X (e : Op X) s x s' :
  step i X e s x s' →
  (∀ t p, pending s' !! t = Some (Some p) →
     pending s !! t = Some (Some p) ∨ (owes i e s → record_ok (p_UserID p) (p_AuthEpoch p) s)) ∧
  (∀ t p, exchanges s' !! t = Some (Some p) →
     exchanges s !! t = Some (Some p) ∨ (owes i e s → record_ok (x_UserID p) (x_Epoch p) s)).
Proof.
  intros (s1 & Ha & ->). simpl. destruct e; simpl in Ha |- *; try (subst s1; by auto);
    try (destruct x; destruct_and?; subst s1; by auto);
    try (destruct_or?; destruct_and?; destruct_or?; subst s1; by auto).
  - destruct c.
    + destruct Ha as [[_ ->]|(? & ? & ? & _ & _ & _ & _ & ->)]; by auto.
    + unfold tx_step in Ha. destruct (txs s !! i); [|destruct Ha as [_ ->]; by auto].
      destruct Ha as [[_ ->]|(? & ? & _ & _ & _ & _ & ->)]; by auto.
  - unfold commit_step in Ha. destruct (txs s !! i); [|destruct Ha as [_ ->]; by auto].
    destruct Ha as [[_ ->]|[(_ & _ & ->)|(_ & ? & _ & _ & _ & [-> | ->])]]; by auto.
  - destruct Ha as [[_ ->]| ->]; [by auto|]. simpl. split; [|by auto]. intros t p0.
    rewrite lookup_insert_Some. intros [[_ [= ->]]|[_ ?]]; auto.
  - destruct Ha as [-> | ->]; [by auto|]. simpl. split; [|by auto]. intros t p0.
    rewrite lookup_delete_Some. intros [_ ?]; auto.
  - destruct Ha as [[_ ->]| ->]; [by auto|]. simpl. split; [by auto|]. intros t p0.
    rewrite lookup_insert_Some. intros [[_ [= ->]]|[_ ?]]; auto.
  - destruct Ha as [_ [-> | ->]]; [by auto|]. simpl. split; [by auto|]. intros t p0.
    rewrite lookup_delete_Some. intros [_ ?]; auto.
  - destruct Ha; simpl; try (by auto); (split; [|by auto]) || (split; [by auto|]);
      intros t' p0; rewrite lookup_delete_Some; intros [_ ?]; auto.
Qed.

Lemma epochs_step i X (e : Op X) s x s' :
  base s → base s' → epochs s → owes i e s → step i X e s x s' → epochs s'.
Proof.
  intros Hb Hb' He Ho Hs. pose proof (step_move _ _ _ _ _ _ Hb Ho Hs) as Hm.
  destruct (step_grows _ _ _ _ _ _ Hs) as (Hev & _ & Hl).
  destruct (records_step _ _ _ _ _ _ Hs) as [Hp Hx]. split.
  - intros u n. unfold has_read. rewrite Hl, Exists_cons. intros [(row & Hr & <- & <-)|Hr].
    + by eapply (read_at_least i _ e s x).
    + apply (at_least_step _ _ i X e s x); try done. by apply reads_ok.
  - intros id r Hr.
    destruct (committed_origin _ _ _ _ _ Hb Hm Hr) as [(r1 & Hr1 & -> & _)|(_ & u & _ & Hbid & Hread & _)].
    + destruct (births_ok s He id r1 Hr1) as (b & Hbid & Hread). exists b.
      split; [|by eapply has_read_grows]. eapply born_move; [done| |done]. by eapply born_ever.
    + exists (u_AuthEpoch u). split; [done|by eapply has_read_grows].
  - intros id b Hbid. destruct Hm as [? ? Hbo|c w b' l _ Hfit _ Hdom _ _ _ _ Hbo _|? ? ? ? ? Hbo|? ? ? ? ? ? Hbo|? ? ? ? ? ? ? ? ? Hbo];
      rewrite Hbo in Hbid; try (apply born_ever in Hbid; set_solver).
    apply lookup_union_Some_raw in Hbid as [Hbid|[_ Hbid]]; [|apply born_ever in Hbid; set_solver].
    destruct (fit_new _ _ _ _ _ Hfit id b Hbid) as (_ & r & u & Hr & _). apply elem_of_dom_2 in Hr. set_solver.
  - intros t p Ht. eapply record_ok_step; [done|]. destruct (Hp t p Ht); [by eapply pending_ok|auto].
  - intros t p Ht. eapply record_ok_step; [done|]. destruct (Hx t p Ht); [by eapply exchange_ok|auto].
Qed.

(** ** Refresh tokens *)

Lemma holds_origin i s s' h id :
  base s → move i s s' → holds h id s' → holds h id s ∨ (drew i h (log s) ∧ unused h s).
Proof.
  intros Hb Hm (c & r & Hr & <-). destruct (session_origin _ _ _ _ _ _ Hb Hm Hr) as [_ [c0 r0 Hr0 _ _ [->|?]|]].
  - left. by exists c0, r0.
  - by right.
  - by right.
Qed.

Lemma view_holds s c id r : sessions (view s c) !! id = Some r → holds (s_TokenHash r) id s.
Proof. intros [?|[_ ?]]%view_session; [by exists c, r|by exists None, r]. Qed.

(** One session at most takes a token that was in use nowhere. *)
Lemma fresh_once i s s' h id id' :
  move i s s' → unused h s → holds h id s' → holds h id' s' → id = id'.
Proof.
  intros Hm [Hun _] Hid Hid'.
  assert (∀ c0 id r, sessions (rows s c0) !! id = Some r → s_TokenHash r = h → False) as Hno.
  { intros c0 id0 r Hr Hh. apply (Hun id0). by exists c0, r. }
  destruct Hid as (c & r & Hr & Hh), Hid' as (c' & r' & Hr' & Hh').
  destruct Hm as [Hs|c0 w b l _ Hfit _ _ Hw Hs|k Hk Hs|k Hd Hk Hs|us ss _ _ _ Hsub _ Hs].
  - rewrite Hs in Hr. exfalso; by eapply Hno.
  - assert (∀ c id r, sessions (rows s' c) !! id = Some r → s_TokenHash r = h → alone id w ∧ is_Some (sessions w !! id)) as Hin.
    { clear - Hno Hs Hw Hfit Hun. intros c id r Hr Hh.
      destruct (decide (c = c0)) as [->|]; [|rewrite Hs in Hr by done; exfalso; by eapply Hno].
      rewrite Hw, written_session in Hr. destruct Hr as [Hr|[_ Hr]]; [|exfalso; by eapply Hno].
      split; [|by eauto]. destruct (b !! id) as [e|] eqn:Hb.
      - destruct (fit_new _ _ _ _ _ Hfit id e Hb) as (_ & ? & ? & ?). by destruct_and!.
      - destruct (fit_session _ _ _ _ _ Hfit id r Hr Hb) as (_ & r0 & Hr0 & _ & _ & [Hh0|(_ & _ & ?)]); [|done].
        destruct (Hun id). rewrite <-Hh, Hh0. by apply (view_holds s c0). }
    destruct (Hin c id r Hr Hh) as [_ Hsome]. destruct (Hin c' id' r' Hr' Hh') as [Halone _]. by apply Halone.
  - destruct (decide (c = Some k)) as [->|]; [by rewrite Hk in Hr|]. rewrite Hs in Hr by done. exfalso; by eapply Hno.
  - destruct c as [j|].
    + destruct (decide (j = k)) as [->|]; [by rewrite Hk in Hr|]. rewrite Hs in Hr by congruence. exfalso; by eapply Hno.
    + rewrite Hd, written_session in Hr. destruct Hr as [Hr|[_ Hr]]; [exfalso; by eapply (Hno (Some k))|exfalso; by eapply (Hno None)].
  - destruct c as [j|]; [rewrite Hs in Hr by done; exfalso; by eapply Hno|]. apply Hsub in Hr. exfalso; by eapply (Hno None).
Qed.

(** The committed row of a session that a transaction has written does not
    change before that transaction ends. *)
Lemma locked_session i s s' k id r r' :
  base s → move i s s' → sessions (rows s (Some k)) !! id = Some r' → sessions (tables s) !! id = Some r →
  rows s' (Some k) = no_rows ∨ sessions (tables s') !! id = Some r.
Proof.
  intros Hb Hm Hk Hr. change (tables s') with (rows s' None).
  destruct Hm as [Hs|c w b l [->|[-> _]] _ Hl _ Hw Hs|k' Hk' Hs|k' Hd Hk' Hs|us ss Hl _ _ Hsub Hss Hs].
  - right. by rewrite Hs.
  - right. rewrite Hw. apply written_session. right. split; [|done].
    eapply unlocked_session in Hk; [|done..]. by apply not_elem_of_dom.
  - right. by rewrite Hs.
  - right. by rewrite Hs.
  - destruct (decide (k = k')) as [->|Hne]; [by left|right]. rewrite Hd. apply written_session. right.
    split; [|done]. destruct (sessions (rows s (Some k')) !! id) eqn:Hk2; [|done].
    by destruct Hne; eapply apart_session.
  - right. simpl. destruct (sessions (tables s') !! id) as [r1|] eqn:Hr1.
    + apply Hsub in Hr1. congruence.
    + eapply unlocked_session in Hk; [|done..]. by destruct Hk; eapply Hss.
Qed.

(** [away_ok]: what a transaction has rotated away from is still committed, in a
    session that has another token in the transaction. *)
Record tokens (s : Sys) : Prop := {
  held_drawn h id : holds h id s → h ∈ drawn s;
  held_once h id id' : holds h id s → holds h id' s → id = id';
  spent_drawn h : h ∈ (spent s).*2 → h ∈ drawn s;
  spent_gone h id : h ∈ (spent s).*2 → ¬ holds h id s;
  spent_once : NoDup (spent s).*2;
  away_ok k : away s k = [] ∨ ∃ id r r',
    away s k = [s_TokenHash r] ∧ sessions (tables s) !! id = Some r ∧
    sessions (rows s (Some k)) !! id = Some r' ∧ s_TokenHash r' ≠ s_TokenHash r;
}.

(** What a transaction that lands has rotated away from is then in no session. *)
Lemma landing_gone s s' k h id :
  base s → tokens s → away s k = [h] →
  rows s' None = written (rows s (Some k)) (tables s) → rows s' (Some k) = no_rows →
  (∀ c, c ≠ None → c ≠ Some k → rows s' c = rows s c) → ¬ holds h id s'.
Proof.
  intros Hb Ht Ha Hd Hk Hs (c & r & Hr & Hh).
  destruct (away_ok s Ht k) as [?|(id0 & r0 & r' & Ha' & Hr0 & Hr' & Hne)]; [congruence|].
  rewrite Ha' in Ha. injection Ha as <-.
  assert (holds (s_TokenHash r0) id0 s) as H0 by by exists None, r0.
  assert (∀ c r, sessions (rows s c) !! id = Some r → s_TokenHash r = s_TokenHash r0 → id = id0) as Hid.
  { intros c1 r1 Hr1 Hh1. eapply (held_once s Ht); [|done]. by exists c1, r1. }
  destruct c as [j|].
  - destruct (decide (j = k)) as [->|Hj]; [by rewrite Hk in Hr|]. rewrite Hs in Hr by congruence.
    specialize (Hid _ _ Hr Hh) as ->. by destruct Hj; eapply apart_session.
  - rewrite Hd, written_session in Hr. destruct Hr as [Hr|[Hn Hr]].
    + specialize (Hid _ _ Hr Hh) as ->. congruence.
    + specialize (Hid None _ Hr Hh) as ->. congruence.
Qed.

Lemma away_step i s s' k :
  base s → tokens s → move i s s' →
  away s' k = [] ∨ ∃ id r r',
    away s' k = [s_TokenHash r] ∧ sessions (tables s') !! id = Some r ∧
    sessions (rows s' (Some k)) !! id = Some r' ∧ s_TokenHash r' ≠ s_TokenHash r.
Proof.
  intros Hb Ht Hm.
  assert (away s' k = away s k → rows s' (Some k) = rows s (Some k) → away s' k = [] ∨ ∃ id r r',
    away s' k = [s_TokenHash r] ∧ sessions (tables s') !! id = Some r ∧
    sessions (rows s' (Some k)) !! id = Some r' ∧ s_TokenHash r' ≠ s_TokenHash r) as Hsame.
  { intros -> Hrows. destruct (away_ok s Ht k) as [?|(id & r & r' & Ha & Hr & Hr' & Hne)]; [by left|right].
    exists id, r, r'. rewrite Hrows. split_and!; try done.
    destruct (locked_session _ _ _ _ _ _ _ Hb Hm Hr' Hr) as [Hno|]; [|done].
    rewrite Hrows in Hno. by rewrite Hno in Hr'. }
  pose proof Hm as Hm'.
  destruct Hm as [Hs Ha|c w b l [->|[-> ->]] Hfit Hl _ Hw Hs Hrot Ha|k' Hk' Hs Ha Ha'|k' Hd Hk' Hs Ha Ha'|us ss Hl _ _ _ _ Hs Ha].
  - auto.
  - apply Hsame; [by rewrite Ha|by apply Hs].
  - destruct (decide (k = i)) as [->|Hk]; [|apply Hsame; [rewrite Ha, decide_False by congruence; done|apply Hs; congruence]].
    rewrite Ha, decide_True by done. change (tables s') with (rows s' None). rewrite Hs, Hw by done.
    destruct Hrot as [-> |(h & id & r & r' & -> & _ & -> & Hr & <- & Hr' & Hun)].
    + destruct (away_ok s Ht i) as [->|(id & r & r' & -> & Hr & Hr' & Hne)]; [by left|right].
      destruct (sessions w !! id) as [r1|] eqn:Hr1.
      * exists id, r, r1. split_and!; try done; [by apply written_session; left|].
        destruct (fit_session _ _ _ _ _ Hfit id r1 Hr1) as (_ & r0 & Hr0 & _ & _ & Hh); [done|].
        apply view_session in Hr0 as [Hr0|[? _]]; [|congruence].
        destruct Hh as [-> |(_ & Hun & _)]; [congruence|]. intros Heq. destruct Hun as [Hun _].
        apply (Hun id). rewrite Heq. by exists None, r.
      * exists id, r, r'. split_and!; try done. by apply written_session; right.
    + right. exists id, r, r'. split_and!; try done; [by apply written_session; left|].
      intros Heq. destruct Hun as [Hun _]. apply (Hun id). rewrite Heq. by exists None, r.
  - destruct (decide (k = k')) as [->|Hk]; [by left|]. apply Hsame; [auto|apply Hs; congruence].
  - destruct (decide (k = k')) as [->|Hk]; [by left|]. apply Hsame; [auto|apply Hs; congruence].
  - apply Hsame; [auto|by apply Hs].
Qed.

Lemma spent_move i s s' :
  move i s s' → spent s' = spent s ∨
  ∃ k, spent s' = (pair k <$> away s k) ++ spent s ∧
    rows s' None = written (rows s (Some k)) (tables s) ∧ rows s' (Some k) = no_rows ∧
    (∀ c, c ≠ None → c ≠ Some k → rows s' c = rows s c).
Proof. destruct 1; [by left..| |by left]. right. by exists k. Qed.

Lemma tokens_step i X (e : Op X) s x s' :
  base s → draws s → tokens s → owes i e s → step i X e s x s' → tokens s'.
Proof.
  intros Hb Hdr Ht Ho Hs. pose proof (step_move _ _ _ _ _ _ Hb Ho Hs) as Hm.
  destruct (step_grows _ _ _ _ _ _ Hs) as (_ & Hd & _).
  assert (∀ h, h ∈ (spent s').*2 → h ∈ (spent s).*2 ∨ ((∃ id, holds h id s) ∧ ∀ id, ¬ holds h id s')) as Hsp.
  { intros h. destruct (spent_move _ _ _ Hm) as [->|(k & -> & Hr & Hk & Hrest)]; [by left|].
    rewrite fmap_app, elem_of_app. intros [Hh|]; [right|by left].
    destruct (away_ok s Ht k) as [Ha|(id & r & r' & Ha & Hr0 & _)]; rewrite Ha in Hh; [set_solver|].
    apply list_elem_of_singleton in Hh as ->. split; [by exists id, None, r|].
    intros id'. by eapply landing_gone. }
  split.
  - intros h id Hh. apply Hd. destruct (holds_origin _ _ _ _ _ Hb Hm Hh) as [?|[? _]];
      [by eapply held_drawn|by eapply draw_drawn].
  - intros h id id' Hh Hh'. destruct (holds_origin _ _ _ _ _ Hb Hm Hh) as [H1|[_ Hun]]; [|by eapply fresh_once].
    destruct (holds_origin _ _ _ _ _ Hb Hm Hh') as [H2|[_ Hun]]; [by eapply held_once|by eapply fresh_once].
  - intros h Hh. apply Hd. destruct (Hsp h Hh) as [?|[[id ?] _]]; [by apply spent_drawn|by eapply held_drawn].
  - intros h id Hh. destruct (Hsp h Hh) as [Hh'|[_ Hno]]; [|done]. intros Hhold.
    destruct (holds_origin _ _ _ _ _ Hb Hm Hhold) as [?|[_ [_ Hun]]]; [by eapply spent_gone|done].
  - destruct (spent_move _ _ _ Hm) as [->|(k & -> & _)]; [by apply spent_once|].
    destruct (away_ok s Ht k) as [->|(id & r & r' & -> & Hr & _)]; simpl; [by apply spent_once|].
    apply NoDup_cons. split; [|by apply spent_once]. intros Hin. eapply spent_gone; [done..|]. by exists None, r.
  - intros k. by eapply away_step.
Qed.

(** ** The invariant *)

Record sound (s : Sys) : Prop := {
  sound_base : base s; sound_draws : draws s; sound_epochs : epochs s; sound_tokens : tokens s }.

Lemma sound_step i X (e : Op X) s x s' : sound s → owes i e s → step i X e s x s' → sound s'.
Proof.
  intros [Hb Hd He Ht] Ho Hs. assert (base s') by by eapply base_step. split; [done|..].
  - by apply (draws_step i X e s x).
  - by apply (epochs_step i X e s x).
  - by apply (tokens_step i X e s x).
Qed.

(** A history begins where nobody has signed in: there are accounts, and no
    sessions, codes or open transactions. *)
Record initial (s : Sys) : Prop := {
  init_sessions : sessions (tables s) = ∅; init_txs : txs s = ∅; init_pending : pending s = ∅;
  init_exchanges : exchanges s = ∅; init_log : log s = []; init_born : born s = ∅;
  init_spent : spent s = []; init_empty : "" ∈ drawn s;
  init_users id u : users (tables s) !! id = Some u → u_ID u = id ∧ id ∈ ever s ∧ u_PasswordHash u ∈ drawn s }.

Lemma initial_sound s : initial s → sound s.
Proof.
  intros [Hs Ht Hp Hx Hl Hb Hsp He Hu].
  assert (∀ k, rows s (Some k) = no_rows) as Hk by (intros k; simpl; by rewrite Ht).
  assert (∀ c, sessions (rows s c) = ∅) as Hc by (intros [k|]; [by rewrite Hk|done]).
  assert (∀ h id, ¬ holds h id s) as Hh by (intros h id (c & r & Hr & _); by rewrite Hc in Hr).
  split; split; try (by rewrite ?Hl, ?Hb, ?Hp, ?Hx, ?Hsp); try done.
  - intros [k|]; [by rewrite Hk|apply Hu].
  - intros c id r. by rewrite Hc.
  - intros k id u u0. by rewrite Hk.
  - intros k id r. by rewrite Hk.
  - intros k k' _. by rewrite !Hk.
  - intros i h. rewrite Hl. by intros ?%Exists_nil.
  - intros i j h. rewrite Hl. by intros ?%Exists_nil.
  - intros u e. rewrite Hl. by intros ?%Exists_nil.
  - intros id r. by rewrite Hs.
  - intros h id ?. by destruct (Hh h id).
  - intros h id id' ?. by destruct (Hh h id).
  - intros h. rewrite Hsp. set_solver.
  - rewrite Hsp. constructor.
  - intros k. unfold away. rewrite Ht. by left.
Qed.
End log.
