(* ===== verification/AuthSafety.v ===== *)
(** * Signing out is final

    What the answers of the sign-in handlers promise ([answer_ok]), proved of any
    number of requests at once: a request that ends every session of an account
    leaves no session whose credential check was made before it; a refresh token
    is exchanged once; a session that was revoked stays revoked. Each handler is
    verified alone against what the others may do ([safe]). *)

From S2P Require Import Prelude GoStrings Effects AuthLockout AuthDb AuthOps AuthHandlers AuthInvariant.

Local Open Scope Z_scope.

Ltac head_of t := lazymatch t with ?f _ => head_of f | ?f => f end.

Section safety.
Context `{LIB : AuthLibrary} `{CFG : AuthConfig}.

(** ** What the answers promise *)

(** The account whose sessions a request ends. *)
Definition ends (h : http) (r : request) : option uuid :=
  match r with
  | LogoutAllRequest | ChangePasswordRequest _ _ => h_User h
  | UpdateUserRequest profile =>
      if bool_decide (uu_IsActive profile = Some false) then Some (uu_ID profile) else None
  | _ => None
  end.

(** No session of [u] will be created at the epoch [e] or before, and those that
    are not revoked were not, other than [but]. *)
Definition past_but (but : list uuid) (u : uuid) (e : Z) (s : Sys) : Prop :=
  at_least u (e + 1) s ∧
  ∀ id r, sessions (tables s) !! id = Some r → s_UserID r = u → s_IsRevoked r = false →
    id ∈ but ∨ ∃ b, born s !! id = Some b ∧ e < b.

(** The same for every epoch [u] was read at in the log [l0]. *)
Definition ended_but (but : list uuid) (u : uuid) (l0 : list (nat * event Op)) (s : Sys) : Prop :=
  ∀ e, has_read u e l0 → past_but but u e s.
Abbreviation ended := (ended_but []).

Definition dead (id : uuid) (s : Sys) : Prop :=
  id ∈ ever s ∧ ∀ r, sessions (tables s) !! id = Some r → s_IsRevoked r = true.

(** The request was received when the log was [l0]. *)
Definition since (i : nat) (h : http) (r : request) (l0 l : list (nat * event Op)) : Prop :=
  ∃ l1, l = l1 ++ (i, Ev (Received h r) tt) :: l0.

(** What an answer 200 promises; [l] is the log before the answer. *)
Definition answer_ok (i : nat) (h : http) (r : request) (a : response)
    (l : list (nat * event Op)) (s : Sys) : Prop :=
  r_Status a = 200 →
  (∀ u, ends h r = Some u → ∃ l0, since i h r l0 l ∧ ended u l0 s) ∧
  match r with
  | RefreshRequest t => (i, HashToken (presented h t)) ∈ spent s
  | RevokeSessionRequest id => dead id s
  | _ => True
  end.

Definition responded (ev : event Op) : option (http * request * response) :=
  match ev with Ev e _ => match e with Respond h r a => Some (h, r, a) | _ => None end end.

Definition answers (s : Sys) : Prop :=
  ForallTail (λ p l, ∀ h r a, responded p.2 = Some (h, r, a) → answer_ok p.1 h r a l s) (log s).

Definition pre (i : nat) (X : Type) (e : Op X) (s : Sys) : Prop :=
  owes i e s ∧ match e with Respond h r a => answer_ok i h r a (log s) s | _ => True end.

Definition Inv (s : Sys) : Prop := sound s ∧ answers s.

Abbreviation asafe := (safe step pre Inv).
Abbreviation astable := (stable step pre Inv).
Abbreviation apersistent := (persistent step pre Inv).

(** ** What every call keeps *)

(** A property that every step keeps, given what the thread owes. *)
Definition kept (A : Sys → Prop) : Prop :=
  ∀ i X (e : Op X) s x s', sound s → owes i e s → step i X e s x s' → A s → A s'.

Lemma kept_persistent A : kept A → apersistent A.
Proof. intros HA i X e s x s' [Hs _] [Ho _]. by apply HA. Qed.

Lemma kept_and A B : kept A → kept B → kept (λ s, A s ∧ B s).
Proof. intros HA HB i X e s x s' Hs Ho Hst [? ?]. split; [by eapply HA|by eapply HB]. Qed.

Lemma kept_forall {T} (A : T → Sys → Prop) : (∀ t, kept (A t)) → kept (λ s, ∀ t, A t s).
Proof. intros HA i X e s x s' Hs Ho Hst H t. by eapply (HA t). Qed.

Lemma kept_impl (P : Prop) A : kept A → kept (λ s, P → A s).
Proof. intros HA i X e s x s' Hs Ho Hst H HP. eapply HA; eauto. Qed.

Lemma kept_at_least u e : kept (at_least u e).
Proof. intros i X o s x s' [Hb _ _ _] Ho Hs. by eapply at_least_step. Qed.

Lemma kept_read u e : kept (λ s, has_read u e (log s)).
Proof. intros i X o s x s' _ _ Hs. by eapply has_read_grows. Qed.

Lemma kept_since i h r l0 : kept (λ s, since i h r l0 (log s)).
Proof.
  intros j X o s x s' _ _ Hs [l1 Hl]. destruct (step_grows _ _ _ _ _ _ Hs) as (_ & _ & ->).
  rewrite Hl. by exists ((j, Ev o x) :: l1).
Qed.

Lemma kept_ever id : kept (λ s, id ∈ ever s).
Proof. intros i X o s x s' _ _ Hs. destruct (step_grows _ _ _ _ _ _ Hs) as (He & _). set_solver. Qed.

Lemma kept_spent p : kept (λ s, p ∈ spent s).
Proof.
  intros i X o s x s' [Hb _ _ _] Ho Hs. pose proof (step_move _ _ _ _ _ _ Hb Ho Hs) as Hm.
  destruct (spent_move _ _ _ Hm) as [->|(k & -> & _)]; set_solver.
Qed.

Lemma kept_past but u e : kept (past_but but u e).
Proof.
  intros i X o s x s' [Hb _ He _] Ho Hs [Ha Hp]. pose proof (step_move _ _ _ _ _ _ Hb Ho Hs) as Hm.
  split; [by eapply at_least_step|]. intros id r Hr Hu Hlive.
  destruct (committed_origin _ _ _ _ _ Hb Hm Hr) as [(r1 & Hr1 & Hu1 & Hrev)|(_ & row & Hrow & Hborn & _)].
  - destruct (Hp id r1 Hr1) as [?|(b & Hb1 & ?)]; [congruence| |by left|].
    { destruct (s_IsRevoked r1); [|done]. by rewrite Hrev in Hlive. }
    right. exists b. split; [|done]. eapply born_move; [done| |done]. by eapply born_ever.
  - right. exists (u_AuthEpoch row). split; [done|]. destruct Ha as [_ Ha]. rewrite Hu in Hrow.
    specialize (Ha None row Hrow). lia.
Qed.

Lemma kept_ended but u l0 : kept (ended_but but u l0).
Proof. apply kept_forall. intros e. apply kept_impl, kept_past. Qed.

Lemma kept_dead id : kept (dead id).
Proof.
  intros i X o s x s' [Hb _ _ _] Ho Hs [He Hd]. pose proof (step_move _ _ _ _ _ _ Hb Ho Hs) as Hm.
  split; [destruct (step_grows _ _ _ _ _ _ Hs); set_solver|]. intros r Hr.
  destruct (committed_origin _ _ _ _ _ Hb Hm Hr) as [(r1 & Hr1 & _ & Hrev)|(? & _)]; [auto|done].
Qed.

Lemma kept_answer_ok i h r a l : kept (answer_ok i h r a l).
Proof.
  intros j X o s x s' Hs Ho Hst H Hok. destruct (H Hok) as [Hend Hrest]. split.
  - intros u Hu. destruct (Hend u Hu) as (l0 & ? & ?). exists l0. split; [done|]. by eapply kept_ended.
  - destruct r; try done; [by eapply kept_spent|by eapply kept_dead].
Qed.

Lemma ForallTail_mono {A} (P Q : A → list A → Prop) l :
  (∀ a l, P a l → Q a l) → ForallTail P l → ForallTail Q l.
Proof. intros HPQ. induction l; simpl; naive_solver. Qed.

Lemma Inv_step i X (e : Op X) s x s' : Inv s → pre i X e s → step i X e s x s' → Inv s'.
Proof.
  intros [Hs Ha] [Ho Hp] Hst. split; [by eapply sound_step|]. unfold answers.
  destruct (step_grows _ _ _ _ _ _ Hst) as (_ & _ & ->). split; simpl.
  - intros h r a Hr. destruct e; simpl in Hr; try done. simplify_eq. by eapply kept_answer_ok.
  - eapply ForallTail_mono; [|exact Ha]. simpl. intros p l H h r a Hr. eapply kept_answer_ok; eauto.
Qed.

(** ** Rules *)

Lemma safe_then i {A B} (p : aprog A) (f : A → aprog B) Q R s :
  asafe i p Q s → (∀ a s', Q a s' → asafe i (f a) R s') → asafe i (bind p f) R s.
Proof. intros Hp Hf. apply safe_bind. eapply safe_mono; [|done]. auto. Qed.

(** The same with what holds before, if it is kept. *)
Lemma safe_seq (P : Sys → Prop) i {A B} (p : aprog A) (f : A → aprog B) Q R s :
  kept P → P s → asafe i p Q s → (∀ a s', Q a s' → P s' → asafe i (f a) R s') → asafe i (bind p f) R s.
Proof.
  intros HP Hs Hp Hf. eapply safe_then.
  - apply safe_frame; [by apply kept_persistent|exact Hs|exact Hp].
  - simpl. intros a s' [? ?]. auto.
Qed.

Lemma safe_done i {A} (a : A) (Q : A → Sys → Prop) s : kept (Q a) → Q a s → asafe i (Ret a) Q s.
Proof. intros HQ Hs. apply safe_ret; [|done]. by apply persistent_stable, kept_persistent. Qed.

Lemma kept_pure (P : Prop) : kept (λ _, P).
Proof. by intros i X e s x s' _ _ _. Qed.

(** What the answers of lookups say whatever the state. *)
Definition query_told {A} (q : query A) : result db_error A → Prop :=
  match q in query A return result db_error A → Prop with
  | GetSessionByTokenHash h => λ x, ∀ r, x = Ok r → s_TokenHash r = h
  | _ => λ _, True
  end.

Definition told (X : Type) (e : Op X) : X → Prop :=
  match e in Op X return X → Prop with
  | Query _ q => query_told q
  | _ => λ _, True
  end.

Lemma stmt_told {A} (q : query A) env d x w : stmt q env d x w → query_told q x.
Proof.
  destruct q; try done. simpl. intros Hs r ->. apply one_ok in Hs as [_ Hs].
  apply elem_of_select in Hs as [Hs _]. apply andb_prop in Hs as [Hs _]. by apply bool_decide_eq_true in Hs.
Qed.

Lemma failed_told {A} (q : query A) x : failed x → query_told q x.
Proof. intros (e & -> & _). by destruct q. Qed.

Lemma step_told i X (e : Op X) s x s' : step i X e s x s' → told X e x.
Proof.
  intros (s1 & Ha & _). destruct e; try done. simpl in *. destruct c.
  - destruct Ha as [[? _]|(env & y & w & _ & Hst & _ & [->|?] & _)]; [by apply failed_told| |by apply failed_told].
    by eapply stmt_told.
  - unfold tx_step in Ha. destruct (txs s !! i); [|destruct Ha; by apply failed_told].
    destruct Ha as [[? _]|(env & w & _ & _ & Hst & _)]; [by apply failed_told|by eapply stmt_told].
Qed.

(** A program that owes nothing at any of its calls. *)
Definition harmless (i : nat) {A} (p : aprog A) (Q : A → Prop) : Prop :=
  calls_ok (λ X e, ∀ s, pre i X e s) told p Q.

Lemma safe_harmless i {A} (p : aprog A) (Q : A → Prop) s : harmless i p Q → asafe i p (λ a _, Q a) s.
Proof. apply safe_calls. intros X e s0 x s'. apply step_told. Qed.

Lemma harmless_mono i {A} (p : aprog A) (Q R : A → Prop) : (∀ a, Q a → R a) → harmless i p Q → harmless i p R.
Proof. apply calls_mono. Qed.

Lemma harmless_ret i {A} (a : A) (Q : A → Prop) : Q a → harmless i (Ret a) Q.
Proof. done. Qed.
Lemma harmless_bind i {A B} (p : aprog A) (f : A → aprog B) Q :
  harmless i p (λ a, harmless i (f a) Q) → harmless i (bind p f) Q.
Proof. apply calls_bind. Qed.
Lemma harmless_ask i {X} (e : Op X) (Q : X → Prop) :
  (∀ s, pre i X e s) → (∀ x, told X e x → Q x) → harmless i (ask e) Q.
Proof. apply (calls_call (λ X e, ∀ s, pre i X e s) told). Qed.
Lemma harmless_db i c {X} (q : query X) (Q : result db_error X → Prop) :
  (∀ s, query_owes i c q s) → (∀ x, query_told q x → Q x) → harmless i (dbx c q) Q.
Proof. intros Ho HQ. apply harmless_ask; [|done]. intros s. split; [apply Ho|done]. Qed.
End safety.

Abbreviation asafe := (safe step pre Inv).
Abbreviation astable := (stable step pre Inv).

Arguments harmless {LIB} i {A} p Q : simpl never.

(** Steps through a program that owes nothing, up to its results. *)
Ltac harmless_step :=
  lazymatch goal with
  | |- harmless _ (bind _ _) _ => apply harmless_bind
  | |- harmless _ (Ret _) _ => apply harmless_ret
  | |- harmless _ (ask _) _ => apply harmless_ask; [by intros ?; split|intros ? ?]
  | |- harmless _ (dbx _ _) _ => apply harmless_db; [done|intros ? ?]
  | |- harmless _ (db ?q) _ => apply (harmless_db _ Pool q); [done|intros ? ?]
  | |- harmless _ (match ?x with _ => _ end) _ => destruct x eqn:?
  | |- harmless _ (let _ := _ in _) _ => cbv zeta
  | |- harmless _ ?p _ => let h := head_of p in unfold h
  end; cbv beta.
Ltac harmless_go := repeat harmless_step.

Section programs.
Context `{LIB : AuthLibrary} `{CFG : AuthConfig}.

(** ** Programs that owe nothing *)

Lemma harmless_validate i t :
  harmless i (ValidateRefreshToken t) (λ r, ∀ session, r = Ok session → s_TokenHash session = HashToken t).
Proof. harmless_go; intros; simplify_eq; auto. Qed.

Lemma harmless_find i t : harmless i (FindSessionForLogout t) (λ _, True).
Proof. harmless_go; done. Qed.

Lemma harmless_end_replaced i h u k : harmless i (endReplacedSession h u k) (λ _, True).
Proof. harmless_go; done. Qed.

Lemma harmless_logout i h t : harmless i (Logout h t) (λ _, True).
Proof. harmless_go; done. Qed.

(** ** Reading an account *)

Definition was_read (u : User) (s : Sys) : Prop := has_read (u_ID u) (u_AuthEpoch u) (log s).

Lemma kept_was_read u : kept (was_read u).
Proof. apply kept_read. Qed.

Lemma kept_reads {A} (o : A) (f : A → option User) : kept (λ s, ∀ u, f o = Some u → was_read u s).
Proof. apply kept_forall. intros u. apply kept_impl, kept_was_read. Qed.

(** A call, by its steps. *)
Lemma safe_op i {X} (e : Op X) (P : Sys → Prop) (Q : X → Sys → Prop) s :
  astable i P → P s → (∀ x, astable i (Q x)) →
  (∀ s1, sound s1 → P s1 → pre i X e s1) →
  (∀ s1 x s2, sound s1 → sound s2 → P s1 → step i X e s1 x s2 → Q x s2) →
  asafe i (ask e) Q s.
Proof.
  intros HP Hs HQ Hpre Hstep. eapply safe_call; [done..| |].
  - intros s1 [? _]. auto.
  - intros s1 x s2 [? _] ? ? [? _]. eauto.
Qed.

Lemma kept_stable i P : kept P → astable i P.
Proof. intros. by apply persistent_stable, kept_persistent. Qed.

Lemma safe_read i (q : query User) s :
  (∀ s, query_owes i Pool q s) → (∀ u, answered_user Pool q (Ok u) = Some u) →
  asafe i (db q) (λ x s, ∀ u, x = Ok u → was_read u s) s.
Proof.
  intros Ho Hq. apply (safe_op _ _ (λ _, True)); [by apply kept_stable, kept_pure|done| | |].
  - intros x. apply kept_stable, kept_forall. intros u. apply kept_impl, kept_was_read.
  - intros s1 _ _. split; [apply Ho|done].
  - intros s1 x s2 _ _ _ Hs u ->. destruct (step_grows _ _ _ _ _ _ Hs) as (_ & _ & Hl).
    unfold was_read, has_read. rewrite Hl. left. exists u. split_and!; [|done..]. simpl. apply Hq.
Qed.

(** ** Creating a session *)

(** The token hash [h] is the thread's own and in use nowhere. *)
Definition own_token (i : nat) (h : string) (s : Sys) : Prop := drew i h (log s) ∧ unused h s.

Lemma stable_own_token i h : astable i (own_token i h).
Proof.
  intros s s' ([[Hb Hd _ Ht] _] & _ & j & X & e & x & Hj & [Ho _] & Hs) [Hdrew [Hun Hsp]].
  pose proof (step_move _ _ _ _ _ _ Hb Ho Hs) as Hm. split; [by eapply drew_grows|]. split.
  - intros id Hh. destruct (holds_origin _ _ _ _ _ Hb Hm Hh) as [Hh'|[Hdrew' _]]; [by apply (Hun id)|].
    apply Hj. by eapply draw_own.
  - destruct (spent_move _ _ _ Hm) as [->|(k & -> & _)]; [done|].
    rewrite fmap_app, elem_of_app. intros [Hh|Hh]; [|done].
    destruct (away_ok s Ht k) as [Ha|(id & r & r' & Ha & Hr & _)]; rewrite Ha in Hh; [set_solver|].
    apply list_elem_of_singleton in Hh as ->. apply (Hun id). by exists None, r.
Qed.

Lemma stable_and i P Q : astable i P → astable i Q → astable i (λ s, P s ∧ Q s).
Proof. intros HP HQ s s' Ho [? ?]. split; [by eapply HP|by eapply HQ]. Qed.

(** A call of which the outside keeps nothing but the log. *)
Lemma safe_inert i {X} (e : Op X) (P : Sys → Prop) s :
  astable i P → (∀ ev s, P s → P (logged i ev s)) →
  (∀ s x s', may_answer i e s x s' → s' = s) → (∀ s, pre i X e s) →
  P s → asafe i (ask e) (λ _, P) s.
Proof.
  intros HP Hlog He Hpre Hs. apply (safe_op _ _ P); auto.
  intros s1 x s2 _ _ HP1 (s1' & Ha & ->). rewrite (He _ _ _ Ha). auto.
Qed.

Lemma safe_generate i s :
  asafe i (ask GenerateRefreshToken)
    (λ x s, ∀ t, x = Some t → own_token i (HashToken t) s) s.
Proof.
  apply (safe_op _ _ (λ _, True)); [by apply kept_stable, kept_pure|done| |by split|].
  - intros [t|]; [|by intros s0 s' _ _ t].
    intros s0 s' Ho H t' [= <-]. eapply stable_own_token; [done|by apply H].
  - intros s1 x s2 [_ _ _ Ht] [_ Hd _ _] _ Hs t ->.
    destruct (step_grows _ _ _ _ _ _ Hs) as (_ & _ & Hl).
    destruct Hs as (s1' & [Hfresh ->] & ->). split.
    + unfold drew. rewrite Hl. by left.
    + split.
      * intros id Hh. apply Hfresh. eapply (held_drawn s1); [done|]. exact Hh.
      * intros Hh. apply Hfresh. by eapply (spent_drawn s1).
Qed.

Lemma safe_CreateSession i u e t role ua ip ttl dev s :
  own_token i (HashToken t) s → has_read u e (log s) →
  asafe i (CreateSession u e t role ua ip ttl dev) (λ _ _, True) s.
Proof.
  intros Ht Hr. unfold CreateSession.
  apply (safe_seq (λ s, has_read u e (log s)) _ _ _ (λ _, own_token i (HashToken t))).
  - apply kept_read.
  - done.
  - apply safe_inert; [apply stable_own_token| |by intros ? ? ? ?|by split|done].
    intros ev s0 [? ?]. split; [by right|done].
  - intros now s1 Ht1 Hr1. eapply (safe_then _ _ _ (λ _ _, True)).
    + apply (safe_op _ _ (λ s, own_token i (HashToken t) s ∧ has_read u e (log s))); [|done| | |done].
      * apply stable_and; [apply stable_own_token|apply kept_stable, kept_read].
      * intros x. by apply kept_stable, kept_pure.
      * intros s2 _ [[Hd Hun] Hread]. by split.
    + intros [session|err] s2 _; [|by apply safe_done; [apply kept_pure|]].
      apply safe_harmless. harmless_go. done.
Qed.

(** Nothing is left to show of a program that owes nothing. *)
Lemma safe_rest i {A} (p : aprog A) s : harmless i p (λ _, True) → asafe i p (λ _ _, True) s.
Proof. apply safe_harmless. Qed.

Lemma safe_issueTokens i h user e action s :
  has_read (u_ID user) e (log s) → asafe i (issueTokens h user e action) (λ _ _, True) s.
Proof.
  intros Hr. unfold issueTokens.
  eapply (safe_seq _ _ _ _ _ _ _ (kept_read (u_ID user) e) Hr); [apply safe_generate|].
  intros [t|] s1 Ht Hr1; [|by apply safe_rest]. specialize (Ht t eq_refl).
  eapply safe_then; [by apply safe_CreateSession|]. intros x s2 _. apply safe_rest.
  harmless_go; done.
Qed.

(** A call that stores a credential check which was made. *)
Lemma safe_store i {X} (e : Op X) u n s :
  (∀ s, has_read u n (log s) → pre i X e s) → has_read u n (log s) → asafe i (ask e) (λ _ _, True) s.
Proof.
  intros He Hr. eapply safe_op; [apply kept_stable, (kept_read u n)|done| |auto|done].
  intros x. by apply kept_stable, kept_pure.
Qed.

Lemma safe_issueOrTOTP i h user e action s :
  has_read (u_ID user) e (log s) → asafe i (issueOrTOTP h user e action) (λ _ _, True) s.
Proof.
  intros Hr. unfold issueOrTOTP. destruct (u_TotpSecret user), TOTPWired; try by apply safe_issueTokens.
  eapply (safe_then _ _ _ (λ _ _, True)); [|intros; apply safe_rest; harmless_go; done].
  unfold CreateTOTPPendingToken.
  eapply (safe_seq _ _ _ _ _ _ _ (kept_read (u_ID user) e) Hr); [apply safe_rest; harmless_go; done|].
  intros [t|] s1 _ Hr1; [|by apply safe_rest]. simpl.
  eapply safe_then; [|intros; by apply safe_rest]. eapply (safe_store _ _ (u_ID user) e); [|done].
  intros s2 Hr2. by split.
Qed.

(** ** Accounts of a directory and of an identity provider *)

Definition gives_read (o : option User) (s : Sys) : Prop := ∀ u, o = Some u → was_read u s.

Lemma kept_gives_read o : kept (gives_read o).
Proof. apply kept_forall. intros u. apply kept_impl, kept_was_read. Qed.

Lemma safe_gives i o s : gives_read o s → asafe i (Ret o) gives_read s.
Proof. intros Ho. apply safe_done; [apply kept_gives_read|done]. Qed.

Lemma safe_found i source email name s : asafe i (created_or_found source email name) gives_read s.
Proof.
  eapply safe_then; [apply safe_read; [intros ?; by left|done]|]. intros [u|err] s1 Hu.
  - apply safe_gives. intros u' [= <-]. by apply Hu.
  - destruct (isDuplicateKeyError err); [|by apply safe_gives].
    eapply safe_then; [by apply safe_read|]. intros [u|] s2 Hu2; apply safe_gives; [|done].
    intros u' [= <-]. by apply Hu2.
Qed.

Lemma safe_renamed i source user name s :
  was_read user s → asafe i (renamed source user name) (λ u, was_read u) s.
Proof.
  intros Hu. unfold renamed. destruct (negb _ && _); [|by apply safe_done; [apply kept_was_read|]].
  eapply (safe_seq _ _ _ _ _ _ _ (kept_was_read user) Hu); [by apply safe_read|].
  intros [u|] s1 Hu1 Hold; (apply safe_done; [apply kept_was_read|]); [by apply Hu1|done].
Qed.

Lemma safe_renamed_some i source user name s :
  was_read user s →
  asafe i (let! u := renamed source user name in Ret (Some u)) gives_read s.
Proof.
  intros Hu. eapply safe_then; [by apply safe_renamed|]. intros u s1 Hu1. apply safe_gives.
  by intros u' [= <-].
Qed.

Lemma safe_LDAP i email password s : asafe i (tryLDAPLogin email password) gives_read s.
Proof.
  unfold tryLDAPLogin. eapply safe_then; [apply safe_rest; harmless_go; done|].
  intros [lu|] s1 _; [|by apply safe_gives]. unfold provisionLDAPUser.
  eapply safe_then; [by apply safe_read|]. intros x s2 Hx.
  eapply (safe_then _ _ _ gives_read).
  - destruct x as [u|err]; [apply safe_renamed_some; by apply Hx|].
    destruct (de_NoRows err); [apply safe_found|by apply safe_gives].
  - intros [u|] s3 Hu; [|by apply safe_gives]. destruct (negb _); [by apply safe_gives|].
    eapply (safe_seq _ _ _ _ _ _ _ (kept_gives_read (Some u)) Hu); [apply safe_rest; harmless_go; done|].
    intros _ s4 _ Hu4. by apply safe_gives.
Qed.

Lemma safe_provision i auto info s : asafe i (provisionUser auto info) gives_read s.
Proof.
  unfold provisionUser. eapply safe_then; [by apply safe_read|]. intros [u|err] s1 Hu.
  - apply safe_renamed_some. by apply Hu.
  - destruct (negb _); [by apply safe_gives|]. destruct (negb auto); [by apply safe_gives|]. apply safe_found.
Qed.

Lemma safe_callback i auto info s : asafe i (provisionAndStoreExchange auto info) (λ _ _, True) s.
Proof.
  unfold provisionAndStoreExchange. eapply safe_then; [apply safe_provision|].
  intros [u|] s1 Hu; [|by apply safe_rest]. specialize (Hu u eq_refl).
  eapply (safe_seq _ _ _ _ _ _ _ (kept_was_read u) Hu); [apply safe_rest; harmless_go; done|].
  intros _ s2 _ Hu2. eapply (safe_then _ _ _ (λ _ _, True)); [|intros; apply safe_rest; harmless_go; done].
  unfold storeExchange.
  eapply (safe_seq _ _ _ _ _ _ _ (kept_was_read u) Hu2); [apply safe_rest; harmless_go; done|].
  intros [c|] s3 _ Hu3; [|by apply safe_rest]. simpl.
  eapply safe_then; [|intros; by apply safe_rest]. eapply (safe_store _ _ (u_ID u)); [|exact Hu3].
  intros s4 Hr. by split.
Qed.

(** ** Signing in *)

Lemma safe_Login i h email password s : asafe i (Login h email password) (λ _ _, True) s.
Proof.
  unfold Login.
  assert (∀ s, asafe i (let! ldapUser := tryLDAPLogin email password in
      match ldapUser with
      | Some user => issueOrTOTP h user (u_AuthEpoch user) "ldap_login"
      | None => Ret invalidCredentials
      end) (λ _ _, True) s) as Hldap.
  { intros s0. eapply safe_then; [apply safe_LDAP|]. intros [u|] s1 Hu; [|by apply safe_rest].
    apply safe_issueOrTOTP. by apply Hu. }
  eapply safe_then; [by apply safe_read|]. intros [u|err] s1 Hu.
  - case_bool_decide; [done|]. repeat (case_match; [by apply safe_rest|]).
    apply safe_issueOrTOTP. by apply Hu.
  - case_match; [by apply safe_rest|done].
Qed.

(** What Redis holds records a credential check that was made. *)
Lemma safe_get_pending i t s :
  asafe i (ask (GetPending t))
    (λ x s, ∀ p, x = Some (Some p) → record_ok (p_UserID p) (p_AuthEpoch p) s) s.
Proof.
  apply (safe_op _ _ (λ _, True)); [by apply kept_stable, kept_pure|done| |by split|].
  - intros x. apply kept_stable, kept_forall. intros p. apply kept_impl.
    intros ? ? ? ? ? ? _ _ Hs. by eapply record_ok_step.
  - intros s1 x s2 [_ _ He _] _ _ Hs p ->. eapply record_ok_step; [done|].
    destruct Hs as (s1' & [_ [?|Hp]] & _); [done|]. by eapply pending_ok.
Qed.

Lemma safe_get_exchange i t s :
  asafe i (ask (GetDelExchange t))
    (λ x s, ∀ p, x = Some (Some p) → record_ok (x_UserID p) (x_Epoch p) s) s.
Proof.
  apply (safe_op _ _ (λ _, True)); [by apply kept_stable, kept_pure|done| |by split|].
  - intros x. apply kept_stable, kept_forall. intros p. apply kept_impl.
    intros ? ? ? ? ? ? _ _ Hs. by eapply record_ok_step.
  - intros s1 x s2 [_ _ He _] _ _ Hs p ->. eapply record_ok_step; [done|].
    destruct Hs as (s1' & [[?|Hp] _] & _); [done|]. by eapply exchange_ok.
Qed.

(** The account a lookup by key answers with. *)
Lemma safe_by_id i id s :
  asafe i (db (GetUserByID id)) (λ x _, ∀ u, x = Ok u → u_ID u = id) s.
Proof.
  apply (safe_op _ _ (λ _, True)); [by apply kept_stable, kept_pure|done| |by split|].
  - intros x. by apply kept_stable, kept_pure.
  - intros s1 x s2 [Hb _ _ _] _ _ (s1' & Ha & _) u ->. simpl in Ha.
    destruct Ha as [[(? & ? & _) _]|(env & y & w & _ & Hst & _ & [<-|(? & ? & _)] & _)]; [done| |done].
    simpl in Hst. apply one_ok in Hst as [_ Hst]. unfold getUserByID in Hst.
    destruct (users (tables s1) !! id) as [u'|] eqn:Hu; [|set_solver].
    apply list_elem_of_singleton in Hst as ->. by apply (row_user s1 Hb None).
Qed.

Lemma safe_second_step i h t code rec u e action s :
  has_read u e (log s) → asafe i (second_step h t code rec u e action) (λ _ _, True) s.
Proof.
  intros Hr. unfold second_step.
  eapply (safe_seq _ _ _ _ _ _ _ (kept_read u e) Hr); [apply safe_by_id|].
  intros [user|] s1 Hu Hr1; [|by apply safe_rest]. specialize (Hu user eq_refl) as <-.
  case_match; [by apply safe_rest|]. case_match; [|by apply safe_rest].
  case_match; [apply safe_rest; harmless_go; done|].
  eapply (safe_seq _ _ _ _ _ _ _ (kept_read _ e) Hr1); [apply safe_rest; harmless_go; done|].
  intros [[|]|] s2 _ Hr2; [|apply safe_rest; harmless_go; done..].
  eapply (safe_seq _ _ _ _ _ _ _ (kept_read _ e) Hr2); [apply safe_rest; harmless_go; done|].
  intros _ s3 _ Hr3.
  eapply (safe_seq _ _ _ _ _ _ _ (kept_read _ e) Hr3); [apply safe_rest; harmless_go; done|].
  intros _ s4 _ Hr4. by apply safe_issueTokens.
Qed.

Lemma safe_VerifyLogin i h t code rec s : asafe i (VerifyLogin h t code rec) (λ _ _, True) s.
Proof.
  unfold VerifyLogin. case_match; [by apply safe_rest|]. case_match; [by apply safe_rest|].
  eapply safe_then; [apply safe_rest; harmless_go; done|]. intros [n|] s1 _; [|by apply safe_rest].
  case_match; [apply safe_rest; harmless_go; done|].
  eapply safe_then; [apply safe_get_pending|]. intros [[p|]|] s2 Hp; [|by apply safe_rest..].
  specialize (Hp p eq_refl). destruct (p_UserID p) as [u|]; [|by apply safe_rest].
  destruct (p_AuthEpoch p) as [e|]; [|apply safe_rest; harmless_go; done]. simpl in Hp.
  eapply (safe_seq _ _ _ _ _ _ _ (kept_read u e) Hp); [apply safe_rest; harmless_go; done|].
  intros [|] s3 _ Hp3; [by apply safe_rest|]. by apply safe_second_step.
Qed.

Lemma safe_OIDCTokenExchange i h code bound s : asafe i (OIDCTokenExchange h code bound) (λ _ _, True) s.
Proof.
  unfold OIDCTokenExchange. case_match; [by apply safe_rest|]. case_match; [by apply safe_rest|].
  eapply safe_then; [apply safe_get_exchange|]. intros [[p|]|] s2 Hp; [|by apply safe_rest..].
  specialize (Hp p eq_refl). destruct (x_UserID p) as [u|]; [|by apply safe_rest].
  destruct (x_Epoch p) as [e|]; [|by apply safe_rest]. simpl in Hp.
  eapply (safe_seq _ _ _ _ _ _ _ (kept_read u e) Hp); [apply safe_by_id|].
  intros [user|] s3 Hu Hp3; [|by apply safe_rest]. specialize (Hu user eq_refl) as <-.
  case_match; [by apply safe_rest|]. by apply safe_issueOrTOTP.
Qed.

(** ** The first account *)

Lemma safe_register_in_tx i h email password name s :
  asafe i (register_in_tx h email password name)
    (λ r s, ∀ u first, r = Ok (u, first) → was_read u s) s.
Proof.
  unfold register_in_tx.
  assert (∀ (a : response) s, asafe i (Ret (Err a)) (λ r s, ∀ u (first : bool), r = Ok (u, first) → was_read u s) s) as Herr.
  { intros a s0. apply safe_done; [|done]. by intros ? ? ? ? ? ? _ _ _ _ ? ?. }
  eapply safe_then; [apply safe_rest; harmless_go; done|]. intros [?|?] s1 _; [|done].
  eapply safe_then; [apply safe_rest; harmless_go; done|]. intros [n|?] s2 _; [|done].
  cbv zeta. destruct (negb _ && _); [done|].
  eapply (safe_then _ _ _ (λ x s, ∀ h, x = Ok h → drew i h (log s))).
  { apply (safe_op _ _ (λ _, True)); [by apply kept_stable, kept_pure|done| |by split|].
    - intros x. apply kept_stable, kept_forall. intros p. apply kept_impl.
      intros ? ? ? ? ? ? _ _ Hs. by eapply drew_grows.
    - intros s3 x s4 _ _ _ Hs p ->. destruct (step_grows _ _ _ _ _ _ Hs) as (_ & _ & Hl).
      unfold drew. rewrite Hl. by left. }
  intros [hash|?] s3 Hh; [|done]. specialize (Hh hash eq_refl).
  match goal with |- asafe _ (bind (dbx Tx ?q) _) _ _ => set (cu := q) end.
  eapply (safe_then _ _ _ (λ x s, ∀ u, x = Ok u → was_read u s)).
  { apply (safe_op _ (Query Tx cu) (λ s, drew i hash (log s))).
    - apply kept_stable. intros ? ? ? ? ? ? _ _ Hs. by eapply drew_grows.
    - done.
    - intros x. apply kept_stable, kept_forall. intros u. apply kept_impl, kept_was_read.
    - intros s4 _ Hd. split; [by right|done].
    - intros s4 x s5 _ _ _ Hs u ->. destruct (step_grows _ _ _ _ _ _ Hs) as (_ & _ & Hl).
      unfold was_read, has_read. rewrite Hl. left. by exists u. }
  intros [u|?] s4 Hu; [|done]. specialize (Hu u eq_refl).
  eapply (safe_seq _ _ _ _ _ _ _ (kept_was_read u) Hu); [apply safe_rest; harmless_go; done|].
  intros [?|?] s5 _ Hu5; [|done]. apply safe_done.
  - apply kept_forall. intros u'. apply kept_forall. intros first. apply kept_impl, kept_was_read.
  - by intros u' first [= <- _].
Qed.

Lemma safe_Register i h email password name s : asafe i (Register h email password name) (λ _ _, True) s.
Proof.
  unfold Register. case_match; [by apply safe_rest|]. case_match; [by apply safe_rest|].
  eapply safe_then; [apply safe_rest; harmless_go; done|]. intros [?|] s1 _; [by apply safe_rest|].
  eapply safe_then; [apply safe_rest; harmless_go; done|]. intros [?|?] s2 _; [|by apply safe_rest].
  unfold releasing. eapply (safe_then _ _ _ (λ _ _, True)); [|intros; apply safe_rest; harmless_go; done].
  eapply safe_then; [apply safe_register_in_tx|]. intros [[u first]|?] s3 Hu; [|by apply safe_rest].
  specialize (Hu u first eq_refl).
  eapply (safe_seq _ _ _ _ _ _ _ (kept_was_read u) Hu); [apply safe_rest; harmless_go; done|].
  intros _ s4 _ Hu4. destruct first; [|apply safe_rest; harmless_go; done]. unfold register_session.
  eapply (safe_seq _ _ _ _ _ _ _ (kept_was_read u) Hu4); [apply safe_generate|].
  intros [t|] s5 Ht Hu5; [|by apply safe_rest]. specialize (Ht t eq_refl).
  eapply safe_then; [by apply safe_CreateSession|]. intros x s6 _. apply safe_rest. harmless_go; done.
Qed.
End programs.
