(* ===== verification/AuthFinal.v ===== *)
(** * Signing out is final

    The handlers that exchange or end sessions, against what their answers
    promise ([AuthSafety.answer_ok]), and the theorems about any number of
    requests at once. *)

From S2P Require Import Prelude GoStrings Effects AuthLockout AuthDb AuthOps AuthHandlers AuthInvariant AuthSafety.

Local Open Scope Z_scope.

Section final.
Context `{LIB : AuthLibrary} `{CFG : AuthConfig}.

(** ** The thread's own transaction *)

(** A step of another thread leaves a transaction alone or ends it. *)
Lemma txs_other i j X (e : Op X) s x s' :
  j ≠ i → step j X e s x s' → txs s' !! i = txs s !! i ∨ txs s' !! i = None.
Proof.
  intros Hj (s1 & Ha & ->). simpl. destruct e; simpl in Ha; try (subst s1; by auto);
    try (destruct x; destruct_and?; subst s1; by auto);
    try (destruct_or?; destruct_and?; destruct_or?; subst s1; by auto).
  - destruct c.
    + destruct Ha as [[_ ->]|(? & ? & ? & _ & _ & _ & _ & ->)]; by auto.
    + unfold tx_step in Ha. destruct (txs s !! j); [|destruct Ha as [_ ->]; by auto].
      destruct Ha as [[_ ->]|(? & ? & _ & _ & _ & _ & ->)]; simpl; rewrite lookup_insert_ne by done; by auto.
  - destruct Ha as [[_ ->]|(_ & _ & ->)]; simpl; [by auto|]. rewrite lookup_insert_ne by done. by auto.
  - unfold commit_step in Ha. destruct (txs s !! j); [|destruct Ha as [_ ->]; by auto].
    destruct Ha as [[_ ->]|[(_ & _ & ->)|(_ & ? & _ & _ & _ & [-> | ->])]]; simpl;
      rewrite ?lookup_delete_ne, ?lookup_insert_ne by done; by auto.
  - destruct Ha as [-> | ->]; simpl; rewrite ?lookup_delete_ne by done; by auto.
  - destruct Ha as [|k tx Hk|k tx Hk| | | | | |]; simpl; try (by auto);
      (destruct (decide (k = i)) as [->|]; [rewrite lookup_delete_eq|rewrite lookup_delete_ne by done]); by auto.
Qed.

(** What a thread knows of its transaction while it is open. *)
Definition in_tx (i : nat) (P : Txn → Prop) (s : Sys) : Prop := ∀ tx, txs s !! i = Some tx → P tx.

Lemma stable_in_tx i P : astable i (in_tx i P).
Proof.
  intros s s' (_ & _ & j & X & e & x & Hj & _ & Hs) H tx Htx.
  destruct (txs_other _ _ _ _ _ _ _ Hj Hs) as [Heq|Heq]; rewrite Heq in Htx; [by apply H|done].
Qed.

Definition empty_tx (tx : Txn) : Prop := tx_rows tx = no_rows ∧ tx_rotated tx = [].

Lemma empty_rows i s : in_tx i empty_tx s → rows s (Some i) = no_rows ∧ away s i = [].
Proof.
  intros H. unfold rows, away. destruct (txs s !! i) as [tx|] eqn:Htx; [|done]. by apply H.
Qed.

Lemma safe_begin i s :
  asafe i (ask Begin) (λ x s, ∀ u, x = Ok u → in_tx i empty_tx s) s.
Proof.
  apply (safe_op _ _ (λ _, True)); [by apply kept_stable, kept_pure|done| |by split|].
  - intros x s0 s' Ho H u Hu. eapply stable_in_tx; [done|by eapply H].
  - intros s1 x s2 _ _ _ (s1' & Ha & ->) u ->. simpl in Ha.
    destruct Ha as [[(? & ? & _) _]|(_ & _ & ->)]; [done|]. intros tx. simpl. rewrite lookup_insert_eq.
    by intros [= <-].
Qed.

(** A statement of the transaction that writes nothing. *)
Lemma read_in_tx i {A} (q : query A) s x s' P :
  (∀ env d x w, stmt q env d x w → w = no_rows) → (∀ w, rotations q w = []) →
  (∀ tx tx', P tx → tx_rows tx' = tx_rows tx → tx_rotated tx' = tx_rotated tx → P tx') →
  in_tx i P s → step i _ (Query Tx q) s x s' → in_tx i P s'.
Proof.
  intros Hq Hrot HP Hin (s1 & Ha & ->) tx. simpl in *. unfold tx_step in Ha.
  destruct (txs s !! i) as [tx0|] eqn:Htx0; [|destruct Ha as [_ ->]; congruence].
  specialize (Hin tx0 Htx0). destruct Ha as [[_ ->]|(env & w & _ & _ & Hst & _ & ->)]; simpl;
    rewrite lookup_insert_eq; intros [= <-]; (eapply HP; [done|..]); simpl; try done.
  - by rewrite (Hq _ _ _ _ Hst), written_none.
  - by rewrite Hrot.
Qed.

Lemma safe_generate_in_tx i P s : in_tx i P s → asafe i (ask GenerateRefreshToken) (λ _, in_tx i P) s.
Proof.
  intros Htx. apply (safe_op _ _ (in_tx i P)); [apply stable_in_tx|done| |by split|].
  - intros _. apply stable_in_tx.
  - intros s1 [t|] s2 _ _ Hin (s1' & Ha & ->); simpl in Ha; destruct_and?; by subst.
Qed.

(** ** Refreshing *)

Definition rotated_from (h : string) (tx : Txn) : Prop := tx_rotated tx = [h].

(** The rotation of the session's token in a transaction that is empty so far. *)
Lemma safe_rotate i session h role s :
  in_tx i empty_tx s → own_token i h s →
  asafe i (RotateRefreshToken session h role)
    (λ err s, err = None → in_tx i (rotated_from (s_TokenHash session)) s) s.
Proof.
  intros Htx Hown. unfold RotateRefreshToken.
  match goal with |- asafe _ (bind (dbx Tx ?q) _) _ _ => set (rq := q) end.
  eapply (safe_then _ _ _ (λ x s, ∀ n, x = Ok n → n ≠ 0 → in_tx i (rotated_from (s_TokenHash session)) s)).
  - apply (safe_op _ (Query Tx rq) (λ s, in_tx i empty_tx s ∧ own_token i h s)).
    + apply stable_and; [apply stable_in_tx|apply stable_own_token].
    + done.
    + intros x s0 s' Ho H n Hn Hne. eapply stable_in_tx; [done|by eapply H].
    + intros s1 _ [Ht [Hd Hun]]. destruct (empty_rows _ _ Ht). by split.
    + intros s1 x s2 _ _ [Ht _] (s1' & Ha & ->) n -> Hn tx. simpl in *. unfold tx_step in Ha.
      destruct (txs s1 !! i) as [tx0|] eqn:Htx0; [|by destruct Ha as [(? & ? & _) _]].
      destruct (Ht tx0 Htx0) as [Hrows Hrot].
      destruct Ha as [[(? & ? & _) _]|(env & w & _ & _ & Hst & _ & ->)]; [done|].
      simpl. rewrite lookup_insert_eq. intros [= <-]. unfold rotated_from, tx_write. cbn [tx_rotated].
      rewrite Hrot, (right_id_L [] (++)). subst rq. cbn [stmt] in Hst. destruct Hst as [-> Hx].
      unfold rotateSessionToken in *. cbn [rotations rt_ID rt_OldTokenHash] in *.
      destruct (sessions _ !! _) as [r|]; [|simplify_eq/=; lia].
      destruct (bool_decide _ && _ && _); [|simplify_eq/=; lia].
      rewrite decide_False; [done|]. cbn. apply map_non_empty_singleton.
  - intros [n|err] s1 Hn; [|by apply safe_ret; [intros ? ? _ _ ?|]].
    apply safe_ret.
    + intros s0 s' Ho H Hnone. eapply stable_in_tx; [done|by apply H].
    + intros H. apply (Hn n eq_refl). by destruct (Z.eqb_spec n 0).
Qed.

Lemma safe_commit_rotation i h s :
  in_tx i (rotated_from h) s →
  asafe i (ask Commit) (λ x s, ∀ u, x = Ok u → (i, h) ∈ spent s) s.
Proof.
  intros Htx. apply (safe_op _ _ (in_tx i (rotated_from h))); [apply stable_in_tx|done| |by split|].
  - intros x. apply kept_stable, kept_forall. intros u. apply kept_impl, kept_spent.
  - intros s1 x s2 _ _ Hin (s1' & Ha & ->) u ->. simpl in Ha. unfold commit_step in Ha.
    destruct (txs s1 !! i) as [tx|] eqn:Htx1; [|by destruct Ha as [(? & ? & _) _]].
    destruct Ha as [[(? & ? & _) _]|[(_ & _ & ->)|(_ & ? & ? & _)]]; [done| |done].
    simpl. rewrite (Hin tx Htx1). simpl. by left.
Qed.

(** An answer 200 of a refresh. *)
Definition exchanged (i : nat) (h : string) (a : response) (s : Sys) : Prop :=
  r_Status a = 200 → (i, h) ∈ spent s.

Lemma kept_exchanged i h a : kept (exchanged i h a).
Proof. apply kept_impl, kept_spent. Qed.

Lemma safe_unless i {Q} (p : aprog response) s :
  (∀ a s, r_Status a ≠ 200 → Q a s) → harmless i p (λ a, r_Status a ≠ 200) → asafe i p Q s.
Proof.
  intros HQ Hp. eapply safe_mono; [|by apply safe_harmless]. simpl. intros a s' Ha. by apply HQ.
Qed.

Lemma exchanged_unless i h a s : r_Status a ≠ 200 → exchanged i h a s.
Proof. by intros ? ?. Qed.

Lemma refresh_failed m e : r_Status (refreshDBFailed m e) ≠ 200.
Proof. unfold refreshDBFailed. by destruct (isTransientDBError e). Qed.

Lemma harmless_stale i t : harmless i (refuseStaleRefresh t) (λ a, r_Status a ≠ 200).
Proof. harmless_go; repeat case_match; done. Qed.

Lemma safe_refresh_in_tx i t session s :
  in_tx i empty_tx s →
  asafe i (refresh_in_tx t session) (exchanged i (s_TokenHash session)) s.
Proof.
  intros Htx. unfold refresh_in_tx.
  eapply (safe_then _ _ _ (λ _, in_tx i empty_tx)).
  { apply (safe_op _ _ (in_tx i empty_tx)); [apply stable_in_tx|done| |by split|].
    - intros _. apply stable_in_tx.
    - intros s1 x s2 _ _ Hin Hst. eapply (read_in_tx i (GetUserByID (s_UserID session))); [..|done]; try done.
      + intros env d y w. apply one_none.
      + intros tx tx' [? ?] ? ?. split; congruence. }
  assert (∀ p s, harmless i p (λ a, r_Status a ≠ 200) → asafe i p (exchanged i (s_TokenHash session)) s) as Hun.
  { intros p s0. apply safe_unless, exchanged_unless. }
  intros [user|e] s1 Htx1.
  - do 3 (case_match; [apply Hun; harmless_go; done|]).
    eapply safe_then; [apply safe_and; [apply (safe_generate_in_tx _ _ _ Htx1)|apply safe_generate]|].
    intros [nt|] s2 [Htx2 Hown]; [|apply Hun; harmless_go; done].
    eapply safe_then; [by apply safe_rotate; [|apply Hown]|].
    intros [[| |what e]|] s3 Hrot.
    + apply Hun. apply harmless_bind, harmless_ask; [by split|]. intros _ _. apply harmless_stale.
    + apply Hun. harmless_go. apply refresh_failed.
    + apply Hun. harmless_go. apply refresh_failed.
    + eapply safe_then; [apply safe_commit_rotation; by apply Hrot|].
      intros [u|e] s4 Hsp; [|apply Hun; harmless_go; apply refresh_failed].
      specialize (Hsp u eq_refl).
      eapply (safe_seq _ _ _ _ _ _ _ (kept_spent _) Hsp); [apply safe_rest; harmless_go; done|].
      intros _ s5 _ Hsp5. apply safe_done; [apply kept_exchanged|]. by intros _.
  - case_match; apply Hun; [harmless_go; apply refresh_failed|]. harmless_go; done.
Qed.

(** The connection goes back to the pool: what holds is kept. *)
Lemma safe_releasing i {A} (p : aprog A) (Q : A → Sys → Prop) s :
  (∀ a, kept (Q a)) → asafe i p Q s → asafe i (releasing p) Q s.
Proof.
  intros HQ Hp. eapply safe_then; [done|]. intros a s1 Ha.
  eapply (safe_seq _ _ _ _ _ _ _ (HQ a) Ha); [apply safe_rest; harmless_go; done|].
  intros _ s2 _ Ha2. by apply safe_done.
Qed.

Lemma safe_Refresh i h t s : asafe i (Refresh h t) (exchanged i (HashToken (presented h t))) s.
Proof.
  unfold Refresh. set (token := presented h t).
  assert (∀ p s, harmless i p (λ a, r_Status a ≠ 200) → asafe i p (exchanged i (HashToken token)) s) as Hun.
  { intros p s0. apply safe_unless, exchanged_unless. }
  case_match; [by apply Hun|]. case_match; [by apply Hun|].
  eapply safe_then; [apply safe_harmless, harmless_validate|]. simpl.
  intros [session|[| |what e]] s1 Hs; [|apply Hun; harmless_go; try apply refresh_failed; repeat case_match; done..].
  rewrite <-(Hs session eq_refl) in *. clear Hs.
  eapply safe_then; [apply safe_rest; harmless_go; done|].
  intros [?|e] s2 _; [|apply Hun; apply harmless_ret, refresh_failed].
  eapply safe_then; [apply safe_begin|]. intros [u|e] s3 Htx; [|apply Hun; apply harmless_ret, refresh_failed].
  apply safe_releasing; [intros ?; apply kept_exchanged|]. apply safe_refresh_in_tx. by apply (Htx u).
Qed.

(** ** Revoking one session *)

Definition ended_one (id : uuid) (a : response) (s : Sys) : Prop := r_Status a = 200 → dead id s.

Lemma kept_ended_one id a : kept (ended_one id a).
Proof. apply kept_impl, kept_dead. Qed.

(** The session a lookup by key found has existed. *)
Lemma safe_found_session i id s :
  asafe i (db (GetSessionByID id)) (λ x s, ∀ r, x = Ok r → id ∈ ever s) s.
Proof.
  apply (safe_op _ _ (λ _, True)); [by apply kept_stable, kept_pure|done| |by split|].
  - intros x. apply kept_stable, kept_forall. intros r. apply kept_impl, kept_ever.
  - intros s1 x s2 [Hb _ _ _] _ _ Hs r ->. destruct (step_grows _ _ _ _ _ _ Hs) as (He & _). apply He.
    destruct Hs as (s1' & Ha & _). simpl in Ha.
    destruct Ha as [[(? & ? & _) _]|(env & y & w & _ & Hst & _ & [<-|(? & ? & _)] & _)]; [done| |done].
    simpl in Hst. apply one_ok in Hst as [_ Hst]. unfold getSessionByID in Hst.
    destruct (sessions (tables s1) !! id) as [r'|] eqn:Hr; [|set_solver].
    by eapply (row_session s1 Hb None).
Qed.

Lemma revoked_dead i id s x s' :
  id ∈ ever s → step i _ (Query Pool (RevokeSession id)) s (Ok x) s' → dead id s'.
Proof.
  intros Hid Hs. destruct (step_grows _ _ _ _ _ _ Hs) as (He & _). split; [set_solver|].
  destruct Hs as (s1 & Ha & ->). simpl in Ha.
  destruct Ha as [[(? & ? & _) _]|(env & y & w & _ & Hst & _ & _ & ->)]; [done|]. simpl in Hst.
  destruct Hst as [-> _]. intros r. simpl. rewrite lookup_union_Some_raw. unfold revokeSession.
  destruct (sessions (tables s) !! id) as [r0|] eqn:Hr; simpl.
  - rewrite lookup_singleton_eq. intros [[= <-]|[? _]]; done.
  - intros [H|[_ H]]; done.
Qed.

Lemma safe_revoke i id s :
  id ∈ ever s → asafe i (RevokeSessionAndForget id) (λ err s, err = None → dead id s) s.
Proof.
  intros Hid. unfold RevokeSessionAndForget.
  eapply (safe_then _ _ _ (λ x s, ∀ u, x = Ok u → dead id s)).
  - apply (safe_op _ _ (λ s, id ∈ ever s)); [apply kept_stable, kept_ever|done| |by split|].
    + intros x. apply kept_stable, kept_forall. intros u. apply kept_impl, kept_dead.
    + intros s1 x s2 _ _ He Hs u ->. by eapply revoked_dead.
  - intros [u|e] s1 Hd; [|by apply safe_ret; [intros ? ? _ _ ?|]]. specialize (Hd u eq_refl).
    eapply (safe_seq _ _ _ _ _ _ _ (kept_dead id) Hd); [apply safe_rest; harmless_go; done|].
    intros _ s2 _ Hd2. by apply safe_done; [apply kept_impl, kept_dead|].
Qed.

Lemma safe_RevokeSessionByID i h id s : asafe i (RevokeSessionByID h id) (ended_one id) s.
Proof.
  unfold RevokeSessionByID.
  assert (∀ p s, harmless i p (λ a, r_Status a ≠ 200) → asafe i p (ended_one id) s) as Hun.
  { intros p s0. apply safe_unless. by intros a s1 ? ?. }
  destruct (h_User h) as [u|]; [|by apply Hun].
  eapply safe_then; [apply safe_found_session|]. intros [session|e] s1 Hid; [|apply Hun; by destruct (de_NoRows e)].
  specialize (Hid session eq_refl). case_match; [by apply Hun|].
  eapply (safe_seq _ _ _ _ _ _ _ (kept_ever id) Hid); [apply safe_rest; harmless_go; done|].
  intros [|] s2 _ Hid2; [by apply Hun|].
  eapply (safe_seq _ _ _ _ _ _ _ (kept_ever id) Hid2); [apply safe_rest; harmless_go; done|].
  intros cur s3 _ Hid3. eapply safe_then; [by apply safe_revoke|]. intros [e|] s4 Hd; [by apply Hun|].
  specialize (Hd eq_refl).
  eapply (safe_seq _ _ _ _ _ _ _ (kept_dead id) Hd); [apply safe_rest; harmless_go; done|].
  intros _ s5 _ Hd5. apply safe_done; [apply kept_ended_one|]. by intros _.
Qed.

(** ** Ending every session, statement by statement on the pool *)

(** The account is or was committed. *)
Definition known (u : uuid) (s : Sys) : Prop :=
  u ∈ ever s ∧ ∀ k row, users (rows s (Some k)) !! u = Some row → is_Some (users (tables s) !! u).

Lemma kept_known u : kept (known u).
Proof.
  intros i X e s x s' [Hb _ _ _] Ho Hs [Hu Hk]. pose proof (step_move _ _ _ _ _ _ Hb Ho Hs) as Hm.
  destruct (step_grows _ _ _ _ _ _ Hs) as (He & _). split; [set_solver|]. intros k row.
  change (tables s') with (rows s' None).
  assert (∀ w, is_Some (users (tables s) !! u) → is_Some (users (written w (tables s)) !! u)) as Hw.
  { intros w Hin. simpl. apply lookup_union_is_Some. by right. }
  destruct Hm as [Hr|c w b l [->|[-> _]] Hfit _ _ Hr Hr'|k' Hr Hr'|k' Hd Hr Hr'|us ss Hl _ Hus _ _ Hr].
  - rewrite !Hr. apply Hk.
  - rewrite Hr' by done. rewrite Hr. intros Hrow. apply Hw. by eapply Hk.
  - rewrite (Hr' None) by done. destruct (decide (k = i)) as [->|]; [|rewrite Hr' by congruence; apply Hk].
    rewrite Hr, written_user. intros [Hrow|[_ Hrow]]; [|by eapply Hk].
    destruct (fit_user _ _ _ _ _ Hfit u row Hrow) as (_ & _ & [(u0 & Hu0 & _)|[? _]]); [|done].
    apply view_user in Hu0 as [Hu0|[_ Hu0]]; [by eapply Hk|by eauto].
  - rewrite (Hr' None) by done. destruct (decide (k = k')) as [->|]; [by rewrite Hr|].
    rewrite Hr' by congruence. apply Hk.
  - rewrite Hd. destruct (decide (k = k')) as [->|]; [by rewrite Hr|].
    rewrite Hr' by congruence. intros Hrow. apply Hw. by eapply Hk.
  - rewrite Hr by done. intros Hrow. destruct (Hk k row Hrow) as [row0 Hrow0]. simpl.
    destruct (users (tables s') !! u) as [row1|] eqn:Hrow1; [by eauto|].
    eapply unlocked_user in Hrow; [|done..]. by destruct Hrow; eapply Hus.
Qed.

(** The epochs read in [l0] are in the past of the account. *)
Definition bumped (u : uuid) (l0 : list (nat * event Op)) (s : Sys) : Prop :=
  ∀ e, has_read u e l0 → at_least u (e + 1) s.

Lemma kept_bumped u l0 : kept (bumped u l0).
Proof. apply kept_forall. intros e. apply kept_impl, kept_at_least. Qed.

(** The log has grown from [l0]. *)
Definition after (l0 : list (nat * event Op)) (s : Sys) : Prop := ∃ l1, log s = l1 ++ l0.

Lemma kept_after l0 : kept (after l0).
Proof.
  intros i X e s x s' _ _ Hs [l1 Hl]. destruct (step_grows _ _ _ _ _ _ Hs) as (_ & _ & Hl').
  exists ((i, Ev e x) :: l1). by rewrite Hl', Hl.
Qed.

Lemma after_read l0 u e s : after l0 s → has_read u e l0 → has_read u e (log s).
Proof. intros [l1 Hl] Hr. unfold has_read. rewrite Hl, Exists_app. by right. Qed.

(** What a statement on the pool that answered did. *)
Lemma pool_ok i {A} (q : query A) s (y : A) s' :
  step i _ (Query Pool q) s (Ok y) s' →
  ∃ env w, env_ok q None (tables s) w s env ∧ stmt q env (tables s) (Ok y) w ∧
    lockable None q (tables s) w s ∧ tables s' = written w (tables s) ∧ txs s' = txs s ∧
    born s' = births q w ∪ born s.
Proof.
  intros (s1 & Ha & ->). simpl in Ha.
  destruct Ha as [[(? & ? & _) _]|(env & z & w & Henv & Hst & Hl & [<-|(? & ? & _)] & ->)]; [done| |done].
  by exists env, w.
Qed.

Lemma bump_pool i u l0 s n s' :
  sound s → base s' → known u s → after l0 s →
  step i _ (Query Pool (BumpUserAuthEpoch u)) s (Ok n) s' → bumped u l0 s'.
Proof.
  intros [Hb _ He _] Hb' [Hu Hk] Hl0 Hs e Hr. pose proof (after_read _ _ _ _ Hl0 Hr) as Hread.
  pose proof (reads_ok s He u e Hread) as Hle.
  destruct (step_grows _ _ _ _ _ _ Hs) as (Hev & _).
  apply pool_ok in Hs as (env & w & _ & Hst & _ & Hd & Htx & _). simpl in Hst. unfold bumpUserAuthEpoch in Hst.
  destruct (users (tables s) !! u) as [row|] eqn:Hrow.
  - destruct (_ =? _); [done|]. destruct Hst as [-> _].
    eapply (at_least_mono _ _ (u_AuthEpoch row + 1)); [destruct Hle as [_ Hle]; specialize (Hle None row Hrow); lia|].
    apply (at_least_committed u (set_epoch (u_AuthEpoch row + 1) row) s' Hb').
    rewrite Hd. apply written_user. left. simpl. apply lookup_singleton_eq.
  - destruct Hst as [-> _]. rewrite written_none in Hd. split; [set_solver|]. intros [k|] row'; simpl.
    + rewrite Htx. intros Hrow'. destruct (Hk k row' Hrow') as [? ?]. congruence.
    + rewrite Hd. congruence.
Qed.

(** The sessions a statement sees when it starts. *)
Lemma elem_of_seen u d id r :
  sessions d !! id = Some r → s_UserID r = u → s_IsRevoked r = false → id ∈ seen_sessions u d.
Proof.
  intros Hr Hu Hlive. unfold seen_sessions. apply list_elem_of_fmap. exists (id, r). split; [done|].
  apply elem_of_map_to_list, map_lookup_filter_Some. split; [done|]. simpl. unfold live_of.
  rewrite Hlive. by rewrite bool_decide_eq_true_2.
Qed.

Lemma seen_pool i u l0 s l s' :
  kept (bumped u l0) → sound s → bumped u l0 s →
  step i _ (Query Pool (SeenSessions u)) s (Ok l) s' → ended_but l u l0 s'.
Proof.
  intros Hkept Hsound Hbump Hs e Hr. split; [by eapply (Hkept i _ (Query Pool (SeenSessions u)) s)|].
  apply pool_ok in Hs as (env & w & _ & Hst & _ & Hd & _). simpl in Hst. destruct Hst as [-> Hx].
  simplify_eq. rewrite Hd, written_none. intros id r Hid Hu Hlive. left. by eapply elem_of_seen.
Qed.

Lemma revoke_seen id r u (seen : list uuid) (m : gmap uuid Session) :
  m !! id = Some r → s_UserID r = u → s_IsRevoked r = false → id ∈ seen →
  (set_revoked <$> filter (λ kv, live_of u kv.2 = true ∧ kv.1 ∈ seen) m) !! id = Some (set_revoked r).
Proof.
  intros Hr Hu Hlive Hseen. rewrite lookup_fmap.
  assert (filter (λ kv, live_of u kv.2 = true ∧ kv.1 ∈ seen) m !! id = Some r) as ->; [|done].
  apply map_lookup_filter_Some. split; [done|]. simpl. split; [|done]. unfold live_of. rewrite Hlive.
  by rewrite bool_decide_eq_true_2.
Qed.

(** A session that is not revoked after the update was not before, and was not seen. *)
Lemma unrevoked u (seen : list uuid) d id r :
  sessions (written (revokeAllUserSessions u seen d) d) !! id = Some r → s_UserID r = u →
  s_IsRevoked r = false → sessions d !! id = Some r ∧ (id ∉ seen).
Proof.
  rewrite written_session. intros [Hr|[Hn Hr]] Hu Hlive.
  - simpl in Hr. rewrite lookup_fmap, fmap_Some in Hr. by destruct Hr as (r0 & _ & ->).
  - split; [done|]. intros Hseen. simpl in Hn. by rewrite (revoke_seen id r u) in Hn.
Qed.

Lemma revoke_pool i u l0 l s y s' :
  sound s → ended_but l u l0 s →
  step i _ (Query Pool (RevokeAllUserSessions u l)) s (Ok y) s' → ended_but [] u l0 s'.
Proof.
  intros Hsound Hend Hs e Hr. destruct (Hend e Hr) as [Ha Hp].
  split; [by eapply (kept_at_least u (e + 1) i _ (Query Pool (RevokeAllUserSessions u l)) s)|].
  apply pool_ok in Hs as (env & w & _ & Hst & _ & Hd & _ & Hborn). simpl in Hst. destruct Hst as [-> _].
  rewrite Hd. intros id r Hid Hu Hlive. destruct (unrevoked _ _ _ _ _ Hid Hu Hlive) as [Hid0 Hseen].
  right. destruct (Hp id r Hid0 Hu Hlive) as [?|(b & Hb & ?)]; [done|]. exists b. split; [|done].
  rewrite Hborn. simpl. by rewrite (left_id_L ∅ (∪)).
Qed.

(** A call on the pool after which [Q] holds where [P] held. *)
Lemma safe_pool i {A} (q : query A) (P : Sys → Prop) (Q : A → Sys → Prop) s :
  (∀ s, query_owes i Pool q s) → kept P → (∀ y, kept (Q y)) → P s →
  (∀ s1 y s2, sound s1 → sound s2 → P s1 → step i _ (Query Pool q) s1 (Ok y) s2 → Q y s2) →
  asafe i (db q) (λ x s, ∀ y, x = Ok y → Q y s) s.
Proof.
  intros Ho HP HQ Hs Hstep. apply (safe_op _ _ P); [by apply kept_stable|done| | |].
  - intros x. apply kept_stable, kept_forall. intros y. apply kept_impl, HQ.
  - intros s1 _ _. split; [apply Ho|done].
  - intros s1 x s2 ? ? ? Hst y ->. eauto.
Qed.

Lemma safe_RevokeAll i u l0 s :
  known u s → after l0 s →
  asafe i (RevokeAllUserSessionsIn Pool u) (λ r s, ∀ ids, r = Ok ids → ended_but [] u l0 s) s.
Proof.
  intros Hk Hl. unfold RevokeAllUserSessionsIn.
  assert (∀ (e : auth_error) s, asafe i (Ret (Err e)) (λ r s, ∀ ids : list uuid, r = Ok ids → ended_but [] u l0 s) s) as Herr.
  { intros e s0. apply safe_ret; [by intros ? ? _ _ ? ?|done]. }
  eapply safe_then.
  { apply (safe_pool _ (BumpUserAuthEpoch u) (λ s, known u s ∧ after l0 s) (λ _, bumped u l0)); try done.
    - apply kept_and; [apply kept_known|apply kept_after].
    - intros _. apply kept_bumped.
    - intros s1 y s2 ? [? _ _ _] [? ?]. by apply bump_pool. }
  intros [n|e] s1 Hb; [|done]. specialize (Hb n eq_refl).
  eapply (safe_seq _ _ _ _ _ _ _ (kept_bumped u l0) Hb); [apply safe_rest; harmless_go; done|].
  intros [ids|e] s2 _ Hb2; [|done].
  eapply (safe_then _ _ _ (λ r s, ∀ y, r = Ok y → ended_but [] u l0 s)).
  - unfold revoke_all. eapply safe_then.
    + apply (safe_pool _ (SeenSessions u) (bumped u l0) (λ l, ended_but l u l0)); try done.
      * apply kept_bumped.
      * intros l. apply kept_ended.
      * intros s3 y s4 ? _. apply seen_pool; [apply kept_bumped|done].
    + intros [l|e] s3 Hseen; [|by apply safe_ret; [intros ? ? _ _ ? ?|]].
      apply (safe_pool _ (RevokeAllUserSessions u l) (ended_but l u l0) (λ _, ended_but [] u l0)); try done.
      * apply kept_ended.
      * intros _. apply kept_ended.
      * by apply Hseen.
      * intros s4 y s5 ? _. by apply revoke_pool.
  - intros [y|e] s3 Hend; [|done]. specialize (Hend y eq_refl). apply safe_done; [|by intros].
    apply kept_forall. intros ids'. apply kept_impl, kept_ended.
Qed.

(** ** Ending every session in a transaction *)

(** The transaction has the account's row. *)
Definition holding (i : nat) (u : uuid) : Sys → Prop :=
  in_tx i (λ tx, is_Some (users (tx_rows tx) !! u)).

(** The transaction has the account past the epochs read in [l0], and the
    sessions it leaves are among [but]. *)
Definition closing (i : nat) (u : uuid) (l0 : list (nat * event Op)) (but : uuid → Prop) (s : Sys) : Prop :=
  ∀ tx, txs s !! i = Some tx →
    ∃ row, users (tx_rows tx) !! u = Some row ∧ (∀ e, has_read u e l0 → e < u_AuthEpoch row) ∧
      ∀ id r, sessions (written (tx_rows tx) (tables s)) !! id = Some r → s_UserID r = u →
              s_IsRevoked r = false → but id.

(** No other thread creates a session of the account meanwhile: it is locked. *)
Lemma stable_closing i u l0 but : astable i (closing i u l0 but).
Proof.
  intros s s' ([[Hb _ _ _] _] & _ & j & X & e & x & Hj & [Ho _] & Hs) H tx Htx.
  pose proof (step_move _ _ _ _ _ _ Hb Ho Hs) as Hm.
  destruct (txs_other _ _ _ _ _ _ _ Hj Hs) as [Heq|Heq]; rewrite Heq in Htx; [|done].
  destruct (H tx Htx) as (row & Hrow & Hepoch & Hlive). exists row. split_and!; [done..|].
  intros id r Hr Hu Hrev. rewrite written_session in Hr. destruct Hr as [Hr|[Hn Hr]].
  - eapply Hlive; [|done..]. apply written_session. by left.
  - destruct (committed_origin _ _ _ _ _ Hb Hm Hr) as [(r1 & Hr1 & Hu1 & Hrev1)|(_ & v & _ & _ & _ & Hun)].
    + eapply (Hlive id r1); [apply written_session; by right|congruence|].
      destruct (s_IsRevoked r1); [|done]. by rewrite Hrev1 in Hrev.
    + destruct (Hun i tx Htx) as [Hdis _]; [done|]. apply elem_of_dom_2 in Hrow. set_solver.
Qed.

(** What a statement of the transaction that answered did. *)
Lemma tx_ok i {A} (q : query A) s (y : A) s' :
  step i _ (Query Tx q) s (Ok y) s' →
  ∃ tx env w, txs s !! i = Some tx ∧ stmt q env (written (tx_rows tx) (tables s)) (Ok y) w ∧
    txs s' = <[i := tx_write q w tx]> (txs s) ∧ tables s' = tables s.
Proof.
  intros (s1 & Ha & ->). simpl in Ha. unfold tx_step in Ha.
  destruct (txs s !! i) as [tx|] eqn:Htx; [|by destruct Ha as [(? & ? & _) _]].
  destruct Ha as [[(? & ? & _) _]|(env & w & _ & _ & Hst & _ & ->)]; [done|]. by exists tx, env, w.
Qed.

Lemma bump_tx i u l0 s n s' :
  sound s → holding i u s → after l0 s →
  step i _ (Query Tx (BumpUserAuthEpoch u)) s (Ok n) s' → closing i u l0 (λ _, True) s'.
Proof.
  intros [_ _ He _] Hhold Hl0 Hs. apply tx_ok in Hs as (tx & env & w & Htx & Hst & Htx' & Hd).
  intros tx'. rewrite Htx', lookup_insert_eq. intros [= <-]. destruct (Hhold tx Htx) as [row0 Hrow0].
  cbn [stmt] in Hst. unfold bumpUserAuthEpoch in Hst.
  rewrite (proj2 (written_user _ _ u row0)) in Hst by by left.
  destruct (_ =? _); [done|]. destruct Hst as [-> _].
  exists (set_epoch (u_AuthEpoch row0 + 1) row0). split_and!; [|simpl|done].
  - unfold tx_write. cbn [tx_rows]. apply written_user. left. simpl. apply lookup_singleton_eq.
  - intros e Hr. destruct (reads_ok s He u e (after_read _ _ _ _ Hl0 Hr)) as [_ Hle].
    specialize (Hle (Some i) row0). simpl in Hle. rewrite Htx in Hle. specialize (Hle Hrow0). lia.
Qed.

(** The rows after a statement of the transaction, seen again. *)
Lemma written_assoc w1 w2 d : written (written w1 w2) d = written w1 (written w2 d).
Proof. unfold written. simpl. by rewrite !(assoc_L (∪)). Qed.

Lemma closing_written i u l0 (but but' : uuid → Prop) {A} (q : query A) s tx w s' :
  closing i u l0 but s → txs s !! i = Some tx → txs s' = <[i := tx_write q w tx]> (txs s) →
  tables s' = tables s → users w = ∅ →
  (∀ id r, sessions (written w (written (tx_rows tx) (tables s))) !! id = Some r → s_UserID r = u →
     s_IsRevoked r = false →
     (sessions (written (tx_rows tx) (tables s)) !! id = Some r → but id) → but' id) →
  closing i u l0 but' s'.
Proof.
  intros H Htx Htx' Hd Hw Hbut tx'. rewrite Htx', lookup_insert_eq. intros [= <-].
  destruct (H tx Htx) as (row & Hrow & Hepoch & Hlive). exists row. split_and!; [|done|].
  - unfold tx_write. cbn [tx_rows]. apply written_user. right. by rewrite Hw.
  - intros id r. rewrite Hd. unfold tx_write. cbn [tx_rows]. rewrite written_assoc. intros Hr Hu Hrev.
    apply (Hbut id r Hr Hu Hrev). intros Hr'. by eapply Hlive.
Qed.

Lemma list_tx i u l0 but s l s' :
  closing i u l0 but s → step i _ (Query Tx (ListUserSessions u)) s (Ok l) s' → closing i u l0 but s'.
Proof.
  intros H Hs. apply tx_ok in Hs as (tx & env & w & Htx & Hst & Htx' & Hd). cbn [stmt] in Hst.
  destruct Hst as [-> _]. eapply (closing_written i u l0 but but _ s tx no_rows); try done.
  intros id r. rewrite written_none. auto.
Qed.

Lemma seen_tx i u l0 s l s' :
  closing i u l0 (λ _, True) s → step i _ (Query Tx (SeenSessions u)) s (Ok l) s' →
  closing i u l0 (λ id, id ∈ l) s'.
Proof.
  intros H Hs. apply tx_ok in Hs as (tx & env & w & Htx & Hst & Htx' & Hd). cbn [stmt] in Hst.
  destruct Hst as [-> Hl]. injection Hl as ->.
  eapply (closing_written i u l0 (λ _, True) _ _ s tx no_rows); try done.
  intros id r. rewrite written_none. intros Hr Hu Hrev _. by eapply elem_of_seen.
Qed.

Lemma revoke_tx i u l0 l s y s' :
  closing i u l0 (λ id, id ∈ l) s → step i _ (Query Tx (RevokeAllUserSessions u l)) s (Ok y) s' →
  closing i u l0 (λ _, False) s'.
Proof.
  intros H Hs. apply tx_ok in Hs as (tx & env & w & Htx & Hst & Htx' & Hd). cbn [stmt] in Hst.
  destruct Hst as [-> _]. eapply (closing_written i u l0 _ _ _ s tx); [done..|].
  intros id r Hr Hu Hrev Hin. destruct (unrevoked _ _ _ _ _ Hr Hu Hrev) as [Hr0 Hno]. auto.
Qed.

(** A statement of the transaction after which [Q] holds where [P] held. *)
Lemma safe_tx i {A} (q : query A) (P : Sys → Prop) (Q : A → Sys → Prop) s :
  (∀ s, sound s → P s → query_owes i Tx q s) → astable i P → (∀ y, astable i (Q y)) → P s →
  (∀ s1 y s2, sound s1 → sound s2 → P s1 → step i _ (Query Tx q) s1 (Ok y) s2 → Q y s2) →
  asafe i (dbx Tx q) (λ x s, ∀ y, x = Ok y → Q y s) s.
Proof.
  intros Ho HP HQ Hs Hstep. apply (safe_op _ _ P); [done|done| | |].
  - intros x s0 s' Hoth H y ->. eapply HQ; [done|by apply H].
  - intros s1 ? ?. split; [by apply Ho|done].
  - intros s1 x s2 ? ? ? Hst y ->. eauto.
Qed.

Lemma safe_RevokeAll_tx i u l0 s :
  holding i u s → after l0 s →
  asafe i (RevokeAllUserSessionsIn Tx u) (λ r s, ∀ ids, r = Ok ids → closing i u l0 (λ _, False) s) s.
Proof.
  intros Hh Hl. unfold RevokeAllUserSessionsIn.
  assert (∀ (e : auth_error) s, asafe i (Ret (Err e))
    (λ r s, ∀ ids : list uuid, r = Ok ids → closing i u l0 (λ _, False) s) s) as Herr.
  { intros e s0. apply safe_ret; [by intros ? ? _ _ ? ?|done]. }
  eapply safe_then.
  { apply (safe_tx _ (BumpUserAuthEpoch u) (λ s, holding i u s ∧ after l0 s) (λ _, closing i u l0 (λ _, True)));
      try done.
    - apply stable_and; [apply stable_in_tx|apply kept_stable, kept_after].
    - intros _. apply stable_closing.
    - intros s1 y s2 ? _ [? ?]. by apply bump_tx. }
  intros [n|e] s1 Hb; [|done]. specialize (Hb n eq_refl).
  eapply safe_then.
  { apply (safe_tx _ (ListUserSessions u) (closing i u l0 (λ _, True)) (λ _, closing i u l0 (λ _, True))); try done.
    - apply stable_closing.
    - intros _. apply stable_closing.
    - intros s2 y s3 _ _. apply list_tx. }
  intros [ids|e] s2 Hb2; [|done]. specialize (Hb2 ids eq_refl).
  eapply (safe_then _ _ _ (λ r s, ∀ y, r = Ok y → closing i u l0 (λ _, False) s)).
  - unfold revoke_all. eapply safe_then.
    + apply (safe_tx _ (SeenSessions u) (closing i u l0 (λ _, True)) (λ l, closing i u l0 (λ id, id ∈ l))); try done.
      * apply stable_closing.
      * intros l. apply stable_closing.
      * intros s3 y s4 _ _. apply seen_tx.
    + intros [l|e] s3 Hseen; [|by apply safe_ret; [intros ? ? _ _ ? ?|]].
      apply (safe_tx _ (RevokeAllUserSessions u l) (closing i u l0 (λ id, id ∈ l))
        (λ _, closing i u l0 (λ _, False))); try done.
      * apply stable_closing.
      * intros _. apply stable_closing.
      * by apply Hseen.
      * intros s4 y s5 _ _. apply revoke_tx.
  - intros [y|e] s3 Hend; [|done]. specialize (Hend y eq_refl). apply safe_ret; [|by intros].
    intros s4 s5 Hoth H ids' Hids. eapply stable_closing; [done|by eapply H].
Qed.

(** When the transaction is committed, every session of the account is ended. *)
Lemma closing_landed i u l0 tx s s' :
  base s' → closing i u l0 (λ _, False) s → txs s !! i = Some tx →
  tables s' = written (tx_rows tx) (tables s) → ended_but [] u l0 s'.
Proof.
  intros Hb' H Htx Hd e Hr. destruct (H tx Htx) as (row & Hrow & Hepoch & Hlive). split.
  - eapply (at_least_mono _ _ (u_AuthEpoch row)); [specialize (Hepoch e Hr); lia|].
    apply at_least_committed; [done|]. rewrite Hd. apply written_user. by left.
  - intros id r Hid Hu Hrev. rewrite Hd in Hid. by destruct (Hlive id r Hid Hu Hrev).
Qed.

Lemma safe_commit_closing i u l0 s :
  closing i u l0 (λ _, False) s →
  asafe i (ask Commit) (λ x s, ∀ y, x = Ok y → ended_but [] u l0 s) s.
Proof.
  intros H. apply (safe_op _ _ (closing i u l0 (λ _, False))); [apply stable_closing|done| |by split|].
  - intros x. apply kept_stable, kept_forall. intros y. apply kept_impl, kept_ended.
  - intros s1 x s2 _ [Hb' _ _ _] Hc Hs y ->. destruct Hs as (s1' & Ha & ->). simpl in Ha. unfold commit_step in Ha.
    destruct (txs s1 !! i) as [tx|] eqn:Htx; [|by destruct Ha as [(? & ? & _) _]].
    destruct Ha as [[(? & ? & _) _]|[(_ & _ & ->)|(_ & ? & ? & _)]]; [done| |done].
    by eapply closing_landed.
Qed.

(** ** Deactivating an account *)

Lemma profile_holding i profile s y s' :
  step i _ (Query Tx (UpdateUserProfile profile)) s (Ok y) s' → holding i (uu_ID profile) s'.
Proof.
  intros Hs. apply tx_ok in Hs as (tx & env & w & Htx & Hst & Htx' & Hd). cbn [stmt] in Hst.
  intros tx'. rewrite Htx', lookup_insert_eq. intros [= <-]. unfold updateUserProfile in Hst.
  destruct (users _ !! _) as [u|]; [|by destruct Hst]. simpl in Hst. destruct Hst as [-> _].
  unfold tx_write. cbn [tx_rows]. simpl. apply lookup_union_is_Some. left. by rewrite lookup_singleton_eq.
Qed.

Lemma safe_deactivate_in_tx i profile l0 s :
  after l0 s →
  asafe i (deactivate_in_tx profile) (λ r s, ∀ x, r = Ok x → ended_but [] (uu_ID profile) l0 s) s.
Proof.
  intros Hl. unfold deactivate_in_tx.
  assert (∀ (e : response * bool) s, asafe i (Ret (Err e))
    (λ r s, ∀ x : User * list uuid, r = Ok x → ended_but [] (uu_ID profile) l0 s) s) as Herr.
  { intros e s0. apply safe_ret; [by intros ? ? _ _ ? ?|done]. }
  eapply (safe_seq _ _ _ _ _ _ _ (kept_after l0) Hl).
  { apply (safe_tx _ (UpdateUserProfile profile) (λ _, True) (λ _, holding i (uu_ID profile))); try done.
    - intros _. apply stable_in_tx.
    - intros s1 y s2 _ _ _. apply profile_holding. }
  intros [u|e] s1 Hh Hl1; [|done]. specialize (Hh u eq_refl).
  eapply safe_then; [by apply safe_RevokeAll_tx|]. intros [ids|e] s2 Hc; [|done]. specialize (Hc ids eq_refl).
  eapply safe_then; [by apply safe_commit_closing|]. intros [y|e] s3 Hend; [|done].
  apply safe_done; [|intros x _; by apply (Hend y)]. apply kept_forall. intros x. apply kept_impl, kept_ended.
Qed.

Definition ended_all (u : uuid) (l0 : list (nat * event Op)) (a : response) (s : Sys) : Prop :=
  r_Status a = 200 → ended_but [] u l0 s.

Lemma kept_ended_all u l0 a : kept (ended_all u l0 a).
Proof. apply kept_impl, kept_ended. Qed.

Lemma safe_not_ok i u l0 p s : harmless i p (λ a, r_Status a ≠ 200) → asafe i p (ended_all u l0) s.
Proof. apply safe_unless. by intros a s1 ? ?. Qed.

(** What is left of a request that has ended the sessions. *)
Lemma safe_after i u l0 p s :
  ended_but [] u l0 s → harmless i p (λ _, True) → asafe i p (ended_all u l0) s.
Proof.
  intros Hend Hp.
  eapply safe_mono; [|apply safe_frame; [apply kept_persistent, (kept_ended [] u l0)|done|by apply safe_harmless]].
  simpl. by intros a s' [_ ?] _.
Qed.

Lemma deactivation_failed e : r_Status (deactivationNotDone e) ≠ 200.
Proof. unfold deactivationNotDone. by destruct (isTransientDBError e). Qed.

Lemma harmless_deactivate_in_tx i profile :
  harmless i (deactivate_in_tx profile) (λ r, ∀ a b, r = Err (a, b) → r_Status a ≠ 200).
Proof.
  harmless_go; intros ? ? ?; simplify_eq; try apply deactivation_failed; repeat case_match; simplify_eq;
    try apply deactivation_failed; simpl; by destruct (isTransientDBError _).
Qed.

Lemma safe_deactivate i profile l0 s :
  after l0 s →
  asafe i (deactivate profile)
    (λ r s, (∀ x, r = Ok x → ended_but [] (uu_ID profile) l0 s) ∧ ∀ a b, r = Err (a, b) → r_Status a ≠ 200) s.
Proof.
  intros Hl. apply safe_and.
  - unfold deactivate. eapply (safe_seq _ _ _ _ _ _ _ (kept_after l0) Hl); [apply safe_rest; harmless_go; done|].
    intros [y|e] s1 _ Hl1; [|by apply safe_ret; [intros ? ? _ _ ? ?|]].
    apply safe_releasing; [|by apply safe_deactivate_in_tx].
    intros r. apply kept_forall. intros x. apply kept_impl, kept_ended.
  - apply (safe_harmless _ _ (λ r, ∀ a b, r = Err (a, b) → r_Status a ≠ 200)). unfold deactivate, releasing.
    apply harmless_bind, harmless_ask; [by split|]. intros [y|e] _.
    + apply harmless_bind. eapply harmless_mono; [|apply harmless_deactivate_in_tx].
      intros r Hr. harmless_go. done.
    + apply harmless_ret. intros a b [= <- _]. apply deactivation_failed.
Qed.

Lemma safe_Update i h profile l0 s :
  uu_IsActive profile = Some false → after l0 s →
  asafe i (Update h profile) (ended_all (uu_ID profile) l0) s.
Proof.
  intros Hact Hl. unfold Update.
  eapply (safe_seq _ _ _ _ _ _ _ (kept_after l0) Hl).
  { apply (safe_harmless _ _ (λ e, ∀ a, e = Some a → r_Status a ≠ 200)).
    harmless_go. intros a Ha. repeat case_match; by simplify_eq. }
  simpl. intros [a|] s1 Ha Hl1; [apply safe_not_ok, harmless_ret; by apply Ha|].
  case_bool_decide; [by apply safe_not_ok|].
  eapply (safe_seq _ _ _ _ _ _ _ (kept_after l0) Hl1); [apply safe_rest; harmless_go; done|].
  intros [u|e] s2 _ Hl2; [|apply safe_not_ok, harmless_ret; by destruct (de_NoRows e)].
  eapply (safe_seq _ _ _ _ _ _ _ (kept_after l0) Hl2).
  { apply (safe_harmless _ _ (λ e, ∀ a, e = Some a → r_Status a ≠ 200)).
    harmless_go; intros a ?; repeat case_match; by simplify_eq. }
  simpl. intros [a|] s3 Ha3 Hl3; [apply safe_not_ok, harmless_ret; by apply Ha3|].
  unfold update_account. rewrite bool_decide_eq_true_2 by done.
  eapply safe_then; [by apply safe_deactivate|]. intros [[u' ids]|[a b]] s4 [Hend Hne].
  - apply safe_after; [by eapply Hend|]. harmless_go; done.
  - apply safe_not_ok. specialize (Hne a b eq_refl). harmless_go; done.
Qed.

(** ** Changing the password *)

(** A password hash of the thread's own that is in no row of an account; then,
    in no row but of its own transaction. *)
Definition unwritten (i : nat) (h : string) (s : Sys) : Prop :=
  drew i h (log s) ∧ ∀ c id row, users (rows s c) !! id = Some row → u_PasswordHash row ≠ h.
Definition private (i : nat) (h : string) (s : Sys) : Prop :=
  drew i h (log s) ∧ ∀ c id row, c ≠ Some i → users (rows s c) !! id = Some row → u_PasswordHash row ≠ h.

Lemma not_own_password i j h s u :
  draws s → j ≠ i → drew i h (log s) → own_password j s u → u_PasswordHash u ≠ h.
Proof.
  intros Hd Hj Hh [->|Hown] <-.
  - by destruct (draw_drawn s Hd i _ Hh).
  - apply Hj. by eapply draw_own.
Qed.

Lemma stable_unwritten i h : astable i (unwritten i h).
Proof.
  intros s s' ([[Hb Hd _ _] _] & _ & j & X & e & x & Hj & [Ho _] & Hs) [Hh Hno].
  pose proof (step_move _ _ _ _ _ _ Hb Ho Hs) as Hm. split; [by eapply drew_grows|]. intros c id row Hrow.
  destruct (user_origin _ _ _ _ _ _ Hb Hm Hrow) as [_ [c0 u0 Hu0 _ [->|Hown]|_ _ _ Hown]].
  - by eapply Hno.
  - by eapply not_own_password.
  - by eapply not_own_password.
Qed.

(** A step of another thread that ends a transaction lands it only if its COMMIT
    was in doubt. *)
Lemma lands_other i j X (e : Op X) s x s' tx :
  j ≠ i → step j X e s x s' → txs s !! i = Some tx → txs s' !! i = None →
  tables s' = tables s ∨ (tx_doubt tx = true ∧ tables s' = written (tx_rows tx) (tables s)).
Proof.
  intros Hj (s1 & Ha & ->) Htx. simpl. destruct e; simpl in Ha; try (subst s1; by auto);
    try (destruct x; destruct_and?; subst s1; by auto);
    try (destruct_or?; destruct_and?; destruct_or?; subst s1; by auto).
  - destruct c.
    + destruct Ha as [[_ ->]|(? & ? & ? & _ & _ & _ & _ & ->)]; simpl; [by auto|congruence].
    + unfold tx_step in Ha. destruct (txs s !! j); [|destruct Ha as [_ ->]; by auto].
      destruct Ha as [[_ ->]|(? & ? & _ & _ & _ & _ & ->)]; by auto.
  - unfold commit_step in Ha. destruct (txs s !! j); [|destruct Ha as [_ ->]; by auto].
    destruct Ha as [[_ ->]|[(_ & _ & ->)|(_ & ? & _ & _ & _ & [-> | ->])]]; simpl;
      rewrite ?lookup_delete_ne by done; try congruence; by auto.
  - destruct Ha as [| |k tx' Hk Hf Hdoubt| | | | | |]; simpl; try congruence; auto.
    destruct (decide (k = i)) as [->|]; [|rewrite lookup_delete_ne by done; congruence].
    simplify_eq. auto.
Qed.

Lemma private_other i j X (e : Op X) h s x s' :
  sound s → j ≠ i → owes j e s → step j X e s x s' → private i h s →
  private i h s' ∨ ∃ tx, txs s !! i = Some tx ∧ tx_doubt tx = true ∧
                         tables s' = written (tx_rows tx) (tables s).
Proof.
  intros [Hb Hd _ _] Hj Ho Hs [Hh Hno]. pose proof (step_move _ _ _ _ _ _ Hb Ho Hs) as Hm.
  assert (drew i h (log s')) as Hh' by by eapply drew_grows.
  destruct Hm as [Hr|c w b l Hc Hfit _ _ Hr Hr'|k Hr Hr'|k Htab Hr Hr'|us ss _ Hu _ _ _ Hr].
  - left. split; [done|]. intros c id row Hc. rewrite Hr. by apply Hno.
  - left. split; [done|]. intros c' id row Hc'. destruct (decide (c' = c)) as [->|]; [|rewrite Hr' by done; by apply Hno].
    rewrite Hr, written_user. intros [Hw|[_ Hw]]; [|by eapply Hno].
    destruct (fit_user _ _ _ _ _ Hfit id row Hw) as (_ & [?|[?|(u0 & Hu0 & ->)]] & _).
    + eapply not_own_password; [done|exact Hj|done|by left].
    + eapply not_own_password; [done|exact Hj|done|by right].
    + apply view_user in Hu0 as [?|[_ ?]]; [by eapply Hno|by eapply (Hno None)].
  - left. split; [done|]. intros c id row Hc. destruct (decide (c = Some k)) as [->|]; [by rewrite Hr|].
    rewrite Hr' by done. by apply Hno.
  - destruct (decide (k = i)) as [->|Hk].
    + assert (rows s' None = tables s ∨ ∃ tx, txs s !! i = Some tx ∧ tx_doubt tx = true ∧
                tables s' = written (tx_rows tx) (tables s)) as [Hsame|?]; [| |by right].
      { destruct (txs s !! i) as [tx|] eqn:Htx; [|left; rewrite Htab; simpl; by rewrite Htx, written_none].
        destruct (txs_other _ _ _ _ _ _ _ Hj Hs) as [Heq|Heq].
        - left. rewrite Htab. simpl in Hr |- *. rewrite Heq, Htx in Hr. by rewrite Htx, Hr, written_none.
        - destruct (lands_other _ _ _ _ _ _ _ _ Hj Hs Htx Heq) as [?|[? ?]]; [by left|right; by exists tx]. }
      left. split; [done|]. intros [k|] id row Hc; [rewrite Hr' by congruence; by apply Hno|].
      rewrite Hsame. by apply (Hno None).
    + left. split; [done|]. intros [k'|] id row Hc.
      * destruct (decide (k' = k)) as [->|]; [by rewrite Hr|]. rewrite Hr' by congruence. by apply Hno.
      * rewrite Htab, written_user. intros [Hw|[_ Hw]]; [eapply (Hno (Some k)); [congruence|done]|by eapply (Hno None)].
  - left. split; [done|]. intros [k|] id row Hc; [rewrite Hr by done; by apply Hno|].
    intros Hrow%Hu. by eapply (Hno None).
Qed.

(** The hash is in no row but of the transaction, whose COMMIT is still to come. *)
Definition unlanded (i : nat) (h : string) (s : Sys) : Prop :=
  in_tx i (λ tx, tx_doubt tx = false) s ∧ private i h s.

Lemma stable_unlanded i h : astable i (unlanded i h).
Proof.
  intros s s' Hoth [Htx Hp]. split; [by eapply stable_in_tx|].
  destruct Hoth as ([Hsound _] & _ & j & X & e & x & Hj & [Ho _] & Hs).
  destruct (private_other _ _ _ _ _ _ _ _ Hsound Hj Ho Hs Hp) as [?|(tx & Htx' & Hd & _)]; [done|].
  by rewrite (Htx tx Htx') in Hd.
Qed.

(** The COMMIT is undecided: the sessions are ended, or the hash is not to be seen. *)
Definition settling (i : nat) (u : uuid) (h : string) (l0 : list (nat * event Op)) (s : Sys) : Prop :=
  ended_but [] u l0 s ∨ (closing i u l0 (λ _, False) s ∧ private i h s).

Lemma stable_settling i u h l0 : astable i (settling i u h l0).
Proof.
  intros s s' Hoth [Hend|[Hc Hp]]; [left; by eapply (kept_stable i _ (kept_ended [] u l0))|].
  pose proof (stable_closing i u l0 (λ _, False) s s' Hoth Hc) as Hc'.
  destruct Hoth as ([Hsound _] & [[Hb' _ _ _] _] & j & X & e & x & Hj & [Ho _] & Hs).
  destruct (private_other _ _ _ _ _ _ _ _ Hsound Hj Ho Hs Hp) as [?|(tx & Htx & _ & Hd)]; [by right|].
  left. exact (closing_landed i u l0 tx s s' Hb' Hc Htx Hd).
Qed.

(** A step of the thread that touches no row outside its transaction. *)
Lemma private_own i h s s' :
  (∀ c, c ≠ Some i → rows s' c = rows s c) → (∀ j g, drew j g (log s) → drew j g (log s')) →
  private i h s → private i h s'.
Proof. intros Hr Hl [Hh Hno]. split; [by apply Hl|]. intros c id row Hc. rewrite Hr by done. by apply Hno. Qed.

Lemma rows_own i {A} (q : query A) s x s' c :
  step i _ (Query Tx q) s x s' → c ≠ Some i → rows s' c = rows s c.
Proof.
  intros (s1 & Ha & ->) Hc. simpl in Ha. unfold tx_step in Ha.
  destruct (txs s !! i) as [tx|] eqn:Htx; [|by destruct Ha as [_ ->]].
  destruct c as [k|]; [|by destruct Ha as [[_ ->]|(? & ? & _ & _ & _ & _ & ->)]].
  destruct Ha as [[_ ->]|(? & ? & _ & _ & _ & _ & ->)]; simpl; rewrite lookup_insert_ne by congruence; done.
Qed.

Lemma unlanded_tx i h {A} (q : query A) s x s' :
  step i _ (Query Tx q) s x s' → unlanded i h s → unlanded i h s'.
Proof.
  intros Hs [Htx Hp]. split.
  - destruct Hs as (s1 & Ha & ->). simpl in Ha. unfold tx_step in Ha. intros tx'. simpl.
    destruct (txs s !! i) as [tx|] eqn:Htx0; [|destruct Ha as [_ ->]; congruence].
    destruct Ha as [[_ ->]|(? & ? & _ & _ & _ & _ & ->)]; simpl; rewrite lookup_insert_eq; intros [= <-];
      exact (Htx tx Htx0).
  - eapply private_own; [|intros j g; by eapply drew_grows|done]. intros c Hc. by eapply rows_own.
Qed.

Lemma safe_hash i password s :
  asafe i (ask (HashPassword password)) (λ x s, ∀ h, x = Ok h → unwritten i h s) s.
Proof.
  apply (safe_op _ _ (λ _, True)); [by apply kept_stable, kept_pure|done| |by split|].
  - intros x s0 s' Ho H h Hx. eapply stable_unwritten; [done|by apply H].
  - intros s1 x s2 [Hb _ _ _] _ _ Hs h ->. destruct (step_grows _ _ _ _ _ _ Hs) as (_ & _ & Hl).
    destruct Hs as (s1' & [Hfresh ->] & ->). split; [unfold drew; rewrite Hl; by left|].
    intros c id row Hrow Heq. apply Hfresh. rewrite <-Heq. by eapply (row_user s1 Hb c).
Qed.

Lemma safe_begin_unwritten i h s :
  unwritten i h s → asafe i (ask Begin) (λ x s, ∀ y, x = Ok y → in_tx i (λ tx, tx_doubt tx = false) s ∧ unwritten i h s) s.
Proof.
  intros H. apply (safe_op _ _ (unwritten i h)); [apply stable_unwritten|done| |by split|].
  - intros x s0 s' Ho H0 y Hx. destruct (H0 y Hx). split; [by eapply stable_in_tx|by eapply stable_unwritten].
  - intros s1 x s2 _ _ [Hh Hno] Hs y ->. pose proof (drew_grows i h _ _ _ _ _ _ Hs Hh) as Hh2.
    destruct Hs as (s1' & Ha & ->). simpl in Ha.
    destruct Ha as [[(? & ? & _) _]|(Htx & _ & ->)]; [done|]. split.
    + intros tx. simpl. rewrite lookup_insert_eq. by intros [= <-].
    + split; [done|]. intros [k|] id row; simpl; [|by apply (Hno None)].
      destruct (decide (k = i)) as [->|]; [by rewrite lookup_insert_eq|].
      rewrite lookup_insert_ne by done. by apply (Hno (Some k)).
Qed.

Lemma password_holding i arg s n s' :
  step i _ (Query Tx (UpdatePassword arg)) s (Ok n) s' → n ≠ 0 → holding i (up_ID arg) s'.
Proof.
  intros Hs Hn. apply tx_ok in Hs as (tx & env & w & Htx & Hst & Htx' & Hd). cbn [stmt] in Hst.
  intros tx'. rewrite Htx', lookup_insert_eq. intros [= <-]. destruct Hst as [-> Hx]. injection Hx as ->.
  unfold updatePassword in *. destruct (users _ !! _) as [u|]; [|done]. case_bool_decide; [|done].
  unfold tx_write. cbn [tx_rows]. simpl. apply lookup_union_is_Some. left. by rewrite lookup_singleton_eq.
Qed.

Lemma safe_update_password i arg s :
  in_tx i (λ tx, tx_doubt tx = false) s → unwritten i (up_PasswordHash arg) s →
  asafe i (dbx Tx (UpdatePassword arg))
    (λ x s, ∀ n, x = Ok n → n ≠ 0 → holding i (up_ID arg) s ∧ unlanded i (up_PasswordHash arg) s) s.
Proof.
  intros Htx Hun.
  apply (safe_tx _ (UpdatePassword arg)
    (λ s, in_tx i (λ tx, tx_doubt tx = false) s ∧ unwritten i (up_PasswordHash arg) s)
    (λ n s, n ≠ 0 → holding i (up_ID arg) s ∧ unlanded i (up_PasswordHash arg) s)).
  - intros s1 _ [_ [Hd _]]. exact Hd.
  - apply stable_and; [apply stable_in_tx|apply stable_unwritten].
  - intros n s0 s' Ho H Hn. destruct (H Hn). split; [by eapply stable_in_tx|by eapply stable_unlanded].
  - done.
  - intros s1 n s2 _ _ [Ht [Hd Hno]] Hs Hn. split; [by eapply password_holding|].
    eapply unlanded_tx; [done|]. split; [done|]. split; [done|]. intros c id row _. by apply Hno.
Qed.

Lemma harmless_tx_keep i h {A} (q : query A) (Q : result db_error A → Prop) :
  (∀ s, query_owes i Tx q s) → (∀ x, Q x) →
  calls_ok (λ X e, (∀ s, pre i X e s) ∧ ∀ s x s', step i X e s x s' → unlanded i h s → unlanded i h s') told
    (dbx Tx q) Q.
Proof.
  intros Ho HQ. apply (calls_call (λ X e, (∀ s, pre i X e s) ∧
    ∀ s x s', step i X e s x s' → unlanded i h s → unlanded i h s') told); [|done].
  split; [intros s; split; [apply Ho|done]|]. intros s x s'. apply unlanded_tx.
Qed.

Lemma safe_RevokeAll_unlanded i u h s :
  unlanded i h s → asafe i (RevokeAllUserSessionsIn Tx u) (λ _, unlanded i h) s.
Proof.
  intros H.
  eapply safe_mono; [|apply (safe_calls_keep _ _ _ told (unlanded i h) i _ (λ _, True));
    [apply stable_unlanded|intros X e s0 x s'; apply step_told| |done]]; [by intros a s' [_ ?]|].
  unfold RevokeAllUserSessionsIn, revoke_all.
  apply calls_bind, harmless_tx_keep; [done|]. intros [n|]; [|done].
  apply calls_bind, harmless_tx_keep; [done|]. intros [l|]; [|done].
  apply calls_bind, calls_bind, harmless_tx_keep; [done|]. intros [seen|]; [|done].
  apply harmless_tx_keep; [done|]. by intros [].
Qed.

Lemma safe_commit_settling i u h l0 s :
  closing i u l0 (λ _, False) s → unlanded i h s →
  asafe i (ask Commit) (λ x s, match x with Ok _ => ended_but [] u l0 s | Err _ => settling i u h l0 s end) s.
Proof.
  intros Hc Hun. apply (safe_op _ _ (λ s, closing i u l0 (λ _, False) s ∧ unlanded i h s)).
  - apply stable_and; [apply stable_closing|apply stable_unlanded].
  - done.
  - intros [y|e]; [apply kept_stable, kept_ended|apply stable_settling].
  - by split.
  - intros s1 x s2 _ [Hb' _ _ _] [Hc1 [_ Hp]] Hs.
    assert (∀ j g, drew j g (log s1) → drew j g (log s2)) as Hdrew by (intros j g; by eapply drew_grows).
    destruct Hs as (s1' & Ha & ->). simpl in Ha. unfold commit_step in Ha.
    destruct (txs s1 !! i) as [tx|] eqn:Htx.
    + destruct Ha as [[(e & -> & _) ->]|[(_ & -> & ->)|(_ & e & -> & _ & _ & [-> | ->])]].
      * right. split.
        -- intros tx'. simpl. by rewrite lookup_delete_eq.
        -- eapply private_own; [|done..]. intros [k|] Hk; simpl; [|done]. rewrite lookup_delete_ne; congruence.
      * by eapply (closing_landed i u l0 tx s1).
      * left. by eapply (closing_landed i u l0 tx s1).
      * right. split.
        -- intros tx'. simpl. rewrite lookup_insert_eq. intros [= <-]. exact (Hc1 tx Htx).
        -- eapply private_own; [|done..]. intros [k|] Hk; simpl; [|done]. rewrite lookup_insert_ne; congruence.
    + destruct Ha as [(e & -> & _) ->]. right. split; [exact Hc1|]. by apply (private_own i h s1).
Qed.

Lemma safe_settle i u h l0 s :
  settling i u h l0 s →
  asafe i (settleCommit u h) (λ o s, o = changeLanded → ended_but [] u l0 s) s.
Proof.
  intros H. unfold settleCommit.
  eapply (safe_then _ _ _ (λ x s, x = Ok h → ended_but [] u l0 s)).
  - apply (safe_op _ _ (settling i u h l0)); [apply stable_settling|done| |by split|].
    + intros x. apply kept_stable, kept_impl, kept_ended.
    + intros s1 x s2 Hsound _ Hset Hs ->.
      assert (ended_but [] u l0 s1) as Hend.
      { destruct Hset as [?|[_ [_ Hno]]]; [done|]. apply pool_ok in Hs as (env & w & _ & Hst & _).
        cbn [stmt] in Hst. apply one_ok in Hst as [_ Hst]. unfold getPasswordHashForSettle in Hst.
        apply list_elem_of_fmap in Hst as (row & Hh & Hrow).
        destruct (users (tables s1) !! u) as [row'|] eqn:Hu; [|set_solver].
        apply list_elem_of_singleton in Hrow as ->. by destruct (Hno None u row'). }
      by eapply (kept_ended [] u l0 i _ (Query Pool (GetPasswordHashForSettle u)) s1).
  - intros [stored|e] s1 Hend; (apply safe_done; [apply kept_impl, kept_ended|]).
    + case_bool_decide; [subst|done]. intros _. by apply Hend.
    + by destruct (de_NoRows e).
Qed.

Lemma password_failed e : r_Status (passwordNotChanged e) ≠ 200.
Proof. unfold passwordNotChanged. by destruct (isTransientDBError e). Qed.

Lemma password_unconfirmed e : r_Status (passwordCommitUnconfirmed e) ≠ 200.
Proof. unfold passwordCommitUnconfirmed. by destruct (isTransientDBError e). Qed.

(** The outcome of the transaction: the sessions ended, or a refusal. *)
Definition changed (u : uuid) (l0 : list (nat * event Op)) (r : result response (list uuid)) (s : Sys) : Prop :=
  match r with Ok _ => ended_but [] u l0 s | Err a => r_Status a ≠ 200 end.

Lemma kept_changed u l0 r : kept (changed u l0 r).
Proof. destruct r; [apply kept_ended|apply kept_pure]. Qed.

Lemma safe_change_in_tx i user h l0 s :
  after l0 s → in_tx i (λ tx, tx_doubt tx = false) s → unwritten i h s →
  asafe i (change_in_tx user h) (changed (u_ID user) l0) s.
Proof.
  intros Hl Htx Hun. unfold change_in_tx.
  assert (∀ a s, r_Status a ≠ 200 → asafe i (Ret (Err a)) (changed (u_ID user) l0) s) as Herr.
  { intros a s0 Ha. by apply safe_done; [apply kept_changed|]. }
  eapply (safe_seq _ _ _ _ _ _ _ (kept_after l0) Hl); [by apply safe_update_password|]. simpl.
  intros [n|e] s1 Hn Hl1; [|apply Herr, password_failed].
  destruct (Z.eqb_spec n 0); [by apply Herr|]. destruct (Hn n eq_refl) as [Hh Hu]; [done|].
  eapply safe_then; [apply safe_and; [by apply (safe_RevokeAll_tx i (u_ID user) l0)|by apply (safe_RevokeAll_unlanded i (u_ID user) h)]|].
  intros [ids|e] s2 [Hc Hu2]; [|apply Herr, password_failed].
  eapply safe_then; [by apply (safe_commit_settling i (u_ID user) h l0); [eapply Hc|]|].
  intros [y|e] s3 Hend; [by apply safe_done; [apply kept_changed|]|].
  destruct (negb _); [apply Herr, password_failed|].
  eapply safe_then; [by apply safe_settle|]. intros o s4 Ho.
  apply safe_done; [apply kept_changed|]. destruct o; simpl; [apply password_unconfirmed|by apply Ho|apply password_failed|done].
Qed.

Lemma safe_change_verified i user password l0 s :
  after l0 s → asafe i (change_verified user password) (changed (u_ID user) l0) s.
Proof.
  intros Hl. unfold change_verified.
  eapply (safe_seq _ _ _ _ _ _ _ (kept_after l0) Hl); [apply safe_hash|].
  intros [h|e] s1 Hh Hl1; [|by apply safe_done; [apply kept_changed|destruct e]].
  eapply (safe_seq _ _ _ _ _ _ _ (kept_after l0) Hl1); [by apply safe_begin_unwritten, Hh|].
  intros [y|e] s2 Htx Hl2; [|apply safe_done; [apply kept_changed|apply password_failed]].
  destruct (Htx y eq_refl). apply safe_releasing; [intros; apply kept_changed|]. by apply safe_change_in_tx.
Qed.

(** The account of an admitted attempt is the caller's. *)
Lemma safe_admit i u s :
  asafe i (admitPasswordAttempt u)
    (λ r _, match r with Ok (user, _) => u_ID user = u | Err a => r_Status a ≠ 200 end) s.
Proof.
  unfold admitPasswordAttempt. eapply safe_then; [apply safe_by_id|].
  intros [user|e] s1 Hu; [|apply safe_done; [apply kept_pure|apply password_failed]].
  specialize (Hu user eq_refl).
  apply (safe_harmless _ _ (λ r, match r with Ok (user, _) => u_ID user = u | Err a => r_Status a ≠ 200 end)).
  harmless_go; done.
Qed.

Lemma safe_ChangePassword i h old new u l0 s :
  h_User h = Some u → after l0 s → asafe i (ChangePassword h old new) (ended_all u l0) s.
Proof.
  intros Hu Hl. unfold ChangePassword. rewrite Hu.
  eapply (safe_seq _ _ _ _ _ _ _ (kept_after l0) Hl); [apply safe_admit|]. simpl.
  intros [[user attempt]|a] s1 Hr Hl1; [subst u|by apply safe_not_ok].
  case_match; [apply safe_not_ok; harmless_go; done|].
  eapply safe_then; [by apply safe_change_verified|]. intros [ids|a] s2 Hc; simpl in Hc.
  - apply safe_after; [done|]. harmless_go; done.
  - apply safe_not_ok. harmless_go; done.
Qed.

(** ** Signing out everywhere *)

Lemma safe_LogoutAll i h u l0 s :
  h_User h = Some u → known u s → after l0 s → asafe i (LogoutAll h) (ended_all u l0) s.
Proof.
  intros Hu Hk Hl. unfold LogoutAll. rewrite Hu.
  eapply (safe_seq _ _ _ _ _ _ _ (kept_and _ _ (kept_known u) (kept_after l0)) (conj Hk Hl));
    [apply safe_rest; harmless_go; done|].
  simpl. intros b s1 _ [Hk1 Hl1]. eapply safe_then; [by apply (safe_RevokeAll i u l0)|].
  intros [ids|e] s2 Hend; [|apply safe_not_ok, harmless_ret; by destruct (isTransientDBError _)].
  apply safe_after; [by eapply Hend|]. harmless_go; done.
Qed.
End final.
