(* ===== verification/AuthHistory.v ===== *)
(** * Any number of requests at once

    The requests of [AuthHandlers.serve] and everything else that happens, in any
    interleaving, from a state in which nobody is signed in ([histories]), and
    what holds of them. *)

From S2P Require Import Prelude GoStrings Effects AuthLockout AuthDb AuthOps AuthHandlers AuthInvariant AuthSafety.
From S2P Require Import AuthFinal.

Local Open Scope Z_scope.

(** A thread serves one request: its number is not used again. *)
Definition idle (i : nat) (s : Sys) : Prop := i ∉ (log s).*1.

Section history.
Context `{LIB : AuthLibrary} `{CFG : AuthConfig}.

Inductive entry : aprog unit → Prop :=
| entry_request h r : entry (serve h r)
| entry_elsewhere : entry (ask Elsewhere).

Definition histories (s0 s : Sys) : Prop :=
  ∃ ts, rtc (threads step idle entry) ([], s0) (ts, s).

(** What a handler's answer promises, once the log was [l0] at the request. *)
Definition promise (i : nat) (h : http) (r : request) (l0 : list (nat * event Op)) (a : response) (s : Sys) : Prop :=
  r_Status a = 200 →
  (∀ u, ends h r = Some u → ended_but [] u l0 s) ∧
  match r with
  | RefreshRequest t => (i, HashToken (presented h t)) ∈ spent s
  | RevokeSessionRequest id => dead id s
  | _ => True
  end.

Lemma kept_promise i h r l0 a : kept (promise i h r l0 a).
Proof.
  apply kept_impl, kept_and.
  - apply kept_forall. intros u. apply kept_impl, kept_ended.
  - destruct r; try apply kept_pure; [apply kept_spent|apply kept_dead].
Qed.

Lemma safe_received i h r s :
  asafe i (ask (Received h r))
    (λ _ s, (∃ l0, since i h r l0 (log s)) ∧ ∀ u, h_User h = Some u → known u s) s.
Proof.
  apply (safe_op _ _ (λ _, True)); [by apply kept_stable, kept_pure|done| |by split|].
  - intros x. apply kept_stable, kept_and.
    + intros j X e s1 y s2 ? ? Hs [l0 Hl]. exists l0. by eapply (kept_since i h r l0 j X e s1).
    + apply kept_forall. intros u. apply kept_impl, kept_known.
  - intros s1 [] s2 _ _ _ (s1' & [-> Hcaller] & ->). split; [by exists (log s1), []|].
    intros u Hu. destruct (Hcaller u Hu) as [He Hk]. split; [done|]. intros k row. simpl.
    destruct (txs s1 !! k) as [tx|] eqn:Htx; [|done]. intros Hrow.
    apply elem_of_dom. eapply Hk; [done|]. by eapply elem_of_dom_2.
Qed.

Lemma since_after i h r l0 s : since i h r l0 (log s) → after l0 s.
Proof. intros [l1 Hl]. exists (l1 ++ [(i, Ev (Received h r) tt)]). by rewrite Hl, <-(assoc_L (++)). Qed.

(** A handler whose requests promise nothing. *)
Lemma promise_none i h r l0 (p : aprog response) s :
  ends h r = None → (∀ s, match r with
    | RefreshRequest t => (i, HashToken (presented h t)) ∈ spent s
    | RevokeSessionRequest id => dead id s
    | _ => True end) →
  asafe i p (λ _ _, True) s → asafe i p (promise i h r l0) s.
Proof.
  intros He Hr Hp. eapply safe_mono; [|done]. intros a s' _ _. split; [|by apply Hr]. intros u. by rewrite He.
Qed.

Lemma safe_handle i h r l0 s :
  after l0 s → (∀ u, h_User h = Some u → known u s) → asafe i (handle h r) (promise i h r l0) s.
Proof.
  intros Hl Hk.
  destruct r as [email pw name|email pw|t code rc|auto info|code bound|t|t| |id|old new|profile]; simpl.
  - apply promise_none; [done..|]. apply safe_Register.
  - apply promise_none; [done..|]. apply safe_Login.
  - apply promise_none; [done..|]. apply safe_VerifyLogin.
  - apply promise_none; [done..|]. apply safe_callback.
  - apply promise_none; [done..|]. apply safe_OIDCTokenExchange.
  - eapply safe_mono; [|apply safe_Refresh]. intros a s' H Ha. split; [done|by apply H].
  - apply promise_none; [done..|]. apply safe_rest, harmless_logout.
  - destruct (h_User h) as [u|] eqn:Hu.
    + eapply safe_mono; [|by apply (safe_LogoutAll i h u l0 s Hu); [apply Hk|]].
      intros a s' H Ha. split; [|done]. simpl. rewrite Hu. intros u' [= <-]. by apply H.
    + apply promise_none; [done..|]. apply safe_rest. unfold LogoutAll. by rewrite Hu.
  - eapply safe_mono; [|apply safe_RevokeSessionByID]. intros a s' H Ha. split; [done|by apply H].
  - destruct (h_User h) as [u|] eqn:Hu.
    + eapply safe_mono; [|by apply (safe_ChangePassword i h old new u l0 s Hu)].
      intros a s' H Ha. split; [|done]. simpl. rewrite Hu. intros u' [= <-]. by apply H.
    + apply promise_none; [done..|]. apply safe_rest. unfold ChangePassword. by rewrite Hu.
  - destruct (decide (uu_IsActive profile = Some false)) as [Hact|Hact].
    + eapply safe_mono; [|by apply (safe_Update i h profile l0 s Hact)].
      intros a s' H Ha. split; [|done]. simpl. rewrite bool_decide_eq_true_2 by done.
      intros u' [= <-]. by apply H.
    + apply promise_none; [simpl; by rewrite bool_decide_eq_false_2|done|]. apply safe_rest.
      unfold Update, update_account, update_refused. rewrite (bool_decide_eq_false_2 _ Hact).
      harmless_go; done.
Qed.

Lemma safe_serve i h r s : asafe i (serve h r) (λ _ _, True) s.
Proof.
  unfold serve. eapply safe_then; [apply safe_received|]. simpl. intros _ s1 [[l0 Hl] Hk].
  eapply (safe_seq _ _ _ _ _ _ _ (kept_since i h r l0) Hl).
  { apply (safe_handle i h r l0); [by eapply since_after|done]. }
  simpl. intros a s2 Hp Hl2.
  apply (safe_op _ _ (λ s, promise i h r l0 a s ∧ since i h r l0 (log s))).
  - apply kept_stable, kept_and; [apply kept_promise|apply kept_since].
  - done.
  - intros _. by apply kept_stable, kept_pure.
  - intros s3 _ [Hp3 Hl3]. split; [done|]. intros Ha. destruct (Hp3 Ha) as [Hend Hrest].
    split; [|done]. intros u Hu. exists l0. split; [done|]. by apply Hend.
  - done.
Qed.

Lemma histories_inv s0 s : initial s0 → histories s0 s → Inv s.
Proof.
  intros Hinit [ts Hr].
  assert (all_safe step pre Inv (ts, s)) as [HI _]; [|done].
  eapply threads_safe; [| |exact Hr|].
  - intros i X e s1 x s2. apply Inv_step.
  - intros i p s1 [h r|] _ _; [apply safe_serve|]. apply safe_rest. harmless_go. done.
  - split; [|by split; constructor]. split; [by apply initial_sound|]. unfold answers. simpl.
    by rewrite (init_log s0 Hinit).
Qed.

Lemma answered_ok s0 s i h r a l1 l2 :
  initial s0 → histories s0 s → log s = l2 ++ (i, Ev (Respond h r a) tt) :: l1 → answer_ok i h r a l1 s.
Proof.
  intros Hinit Hh Hl. destruct (histories_inv _ _ Hinit Hh) as [_ Ha]. unfold answers in Ha.
  rewrite Hl in Ha. by apply ForallTail_at in Ha; apply Ha.
Qed.

(** C2: Ending every session is final, whatever runs at the same time. When a
    sign-out of all devices, a password change or the deactivation of an account
    has been answered 200, every session of the account that is not revoked, then
    or at any later time, was created on a credential check that was made after
    the request came in: the account's epoch it was created at had not been read
    by anyone until then. A login, a second-factor code, a single sign-on code or
    a refresh in flight cannot leave a session behind. *)
Theorem ending_is_final s0 s i h r a u l1 l2 :
  initial s0 → histories s0 s → log s = l2 ++ (i, Ev (Respond h r a) tt) :: l1 →
  ends h r = Some u → r_Status a = 200 →
  ∃ l3 l0, l1 = l3 ++ (i, Ev (Received h r) tt) :: l0 ∧
    ∀ id row, sessions (tables s) !! id = Some row → s_UserID row = u → s_IsRevoked row = false →
      ∃ e, born s !! id = Some e ∧ has_read u e (log s) ∧ ¬ has_read u e l0.
Proof.
  intros Hinit Hh Hl Hu Ha. destruct (answered_ok _ _ _ _ _ _ _ _ Hinit Hh Hl Ha) as [Hend _].
  destruct (Hend u Hu) as (l0 & [l3 Hl1] & Hended). exists l3, l0. split; [done|].
  intros id row Hrow Huser Hlive. destruct (histories_inv _ _ Hinit Hh) as [[_ _ He _] _].
  destruct (births_ok s He id row Hrow) as (b & Hb & Hread). exists b. subst u. split_and!; [done..|].
  intros Hbefore. destruct (Hended b Hbefore) as [_ Hp].
  destruct (Hp id row Hrow eq_refl Hlive) as [?|(b' & Hb' & ?)]; [set_solver|]. simplify_eq. lia.
Qed.

(** C3: A refresh token is exchanged at most once. Two refreshes that present the
    same token and are both answered 200 are the same request, whatever runs at
    the same time. *)
Theorem refresh_once s0 s i j h h' t t' a a' :
  initial s0 → histories s0 s →
  (i, Ev (Respond h (RefreshRequest t) a) tt) ∈ log s → (j, Ev (Respond h' (RefreshRequest t') a') tt) ∈ log s →
  r_Status a = 200 → r_Status a' = 200 →
  HashToken (presented h t) = HashToken (presented h' t') → i = j.
Proof.
  intros Hinit Hh [l1 [l2 Hl]]%list_elem_of_split [l1' [l2' Hl']]%list_elem_of_split Ha Ha' Heq.
  destruct (answered_ok _ _ _ _ _ _ _ _ Hinit Hh Hl Ha) as [_ Hs].
  destruct (answered_ok _ _ _ _ _ _ _ _ Hinit Hh Hl' Ha') as [_ Hs']. rewrite <-Heq in Hs'.
  destruct (histories_inv _ _ Hinit Hh) as [[_ _ _ Ht] _].
  apply list_elem_of_lookup in Hs as [n Hn], Hs' as [m Hm].
  assert (n = m) as ->; [|congruence].
  eapply NoDup_lookup; [apply (spent_once s Ht)|..]; rewrite list_lookup_fmap, ?Hn, ?Hm; done.
Qed.

(** A session revoked by its owner stays revoked. Once the revocation has
    been answered 200, the session is revoked or gone from then on: no refresh
    that was under way brings it back. *)
Theorem revoked_stays s0 s i h id a r :
  initial s0 → histories s0 s → (i, Ev (Respond h (RevokeSessionRequest id) a) tt) ∈ log s →
  r_Status a = 200 → sessions (tables s) !! id = Some r → s_IsRevoked r = true.
Proof.
  intros Hinit Hh [l1 [l2 Hl]]%list_elem_of_split Ha Hr.
  destruct (answered_ok _ _ _ _ _ _ _ _ Hinit Hh Hl Ha) as [_ [_ Hd]]. by apply Hd.
Qed.
End history.
