(* ===== verification/AuthExample.v ===== *)
(** * A history of signing in and out

    The outside as a function that answers each call in one way ([drive]), and a
    history run against it: a user signs in, refreshes, signs in again, revokes
    one session, signs out everywhere and signs in once more. *)

From S2P Require Import Prelude GoStrings Effects AuthLockout AuthDb AuthOps AuthHandlers AuthInvariant AuthSafety.
From S2P Require Import AuthFinal AuthHistory.

Local Open Scope Z_scope.

(** ** Answers *)

Definition pick {A} (l : list A) : option (result db_error A * Tables) :=
  Some (match l with [] => Err ErrNoRows | r :: _ => Ok r end, no_rows).

Definition back {A} (o : option (Tables * A)) : option (result db_error A * Tables) :=
  Some (match o with Some (w, a) => (Ok a, w) | None => (Err ErrNoRows, no_rows) end).

Definition answer_query {A} (q : query A) (env : Env) (d : Tables) : option (result db_error A * Tables) :=
  match q in query A return option (result db_error A * Tables) with
  | GetUserByID id => pick (getUserByID id d)
  | GetUserByEmail email => pick (getUserByEmail email d)
  | BumpUserAuthEpoch id => match bumpUserAuthEpoch id d with Some (w, n) => Some (Ok n, w) | None => None end
  | CreateSessionAtEpoch arg => back (createSessionAtEpoch arg (e_fresh env) (e_now env) d)
  | GetSessionByID id => pick (getSessionByID id d)
  | GetSessionByTokenHash h => pick (getSessionByTokenHash h d)
  | ListUserSessions id => Some (Ok (listUserSessions id (e_now env) d), no_rows)
  | RotateSessionToken arg =>
      let '(w, n) := rotateSessionToken arg (e_now env) (e_clock env) d in Some (Ok n, w)
  | RevokeSession id => Some (Ok tt, revokeSession id d)
  | SeenSessions id => Some (Ok (seen_sessions id d), no_rows)
  | RevokeAllUserSessions id seen => Some (Ok tt, revokeAllUserSessions id seen d)
  | _ => None
  end.

Lemma newest_first_weak l : strict_weak (λ a b, s_CreatedAt b <? s_CreatedAt a) l.
Proof. repeat split; intros; to_prop; lia. Qed.

Lemma answer_query_ok {A} (q : query A) env d x w : answer_query q env d = Some (x, w) → stmt q env d x w.
Proof.
  destruct q; simpl; try done.
  all: try (unfold pick; intros [= <- <-]; unfold one; split; [done|];
            match goal with |- context [match ?l with _ => _ end] => destruct l as [|r l'] end;
            [done|]; exists r; split; [left|done]).
  - destruct (bumpUserAuthEpoch id d) as [[? ?]|]; intros ?; by simplify_eq.
  - unfold back, returning. destruct (createSessionAtEpoch _ _ _ _) as [[? ?]|]; intros ?; by simplify_eq.
  - intros [= <- <-]. split; [done|]. eexists. split; [reflexivity|]. split; [|done].
    apply insertion_sort_ordered, newest_first_weak.
  - destruct (rotateSessionToken _ _ _ _) as [? ?] eqn:H. intros ?. by simplify_eq.
  - intros ?. by simplify_eq.
  - intros ?. by simplify_eq.
  - intros ?. by simplify_eq.
Qed.

(** ** Calls *)

Section drive.
Context `{LIB : AuthLibrary}.

(** The environment of a statement, if its fresh key is one. *)
Definition env_of (start : Z) (s : Sys) : option Env :=
  let fresh := Z.of_nat (length (log s)) + 1000 in
  if decide (fresh ∈ ever s) then None
  else Some {| e_now := start; e_clock := clock s; e_fresh := fresh |}.

Definition drive_pool {A} (q : query A) (s : Sys) : option (result db_error A * Sys) :=
  if Nat.eqb (size (txs s)) 0 then
    env ← env_of (clock s) s;
    '(x, w) ← answer_query q env (tables s);
    Some (x, set_tables (written w (tables s)) (recorded q w s))
  else None.

Definition drive_tx {A} (i : nat) (q : query A) (s : Sys) : option (result db_error A * Sys) :=
  if Nat.eqb (size (delete i (txs s))) 0 then
    tx ← txs s !! i;
    env ← env_of (tx_start tx) s;
    '(x, w) ← answer_query q env (written (tx_rows tx) (tables s));
    if tx_failed tx || tx_doubt tx then None
    else Some (x, set_txs (<[i := tx_write q w tx]> (txs s)) (recorded q w s))
  else None.

(** The token of the thread [i]. *)
Definition token_of (i : nat) : string := "token-" +:+ Itoa (Z.of_nat i).

Definition drive (i : nat) {X} (e : Op X) (s : Sys) : option (X * Sys) :=
  match e in Op X return option (X * Sys) with
  | Query Pool q => drive_pool q s
  | Query Tx q => drive_tx i q s
  | Begin => match txs s !! i with
             | None => Some (Ok tt, set_txs (<[i := new_tx (clock s)]> (txs s)) s)
             | Some _ => None
             end
  | Commit => match txs s !! i with
              | Some tx => if tx_failed tx || tx_doubt tx then None else Some (Ok tt, landed i tx s)
              | None => None
              end
  | Rollback => Some (tt, set_txs (delete i (txs s)) s)
  | Now => Some (clock s, s)
  | GenerateRefreshToken =>
      if decide (HashToken (token_of i) ∈ drawn s) then None
      else Some (Some (token_of i), draw (HashToken (token_of i)) s)
  | LoadPerms _ => Some (Ok tt, s)
  | AuditLogAs _ _ => Some (tt, s)
  | MirrorSession _ => Some (tt, s)
  | ForgetSessions _ => Some (tt, s)
  | Received h _ =>
      match h_User h with
      | None => Some (tt, s)
      | Some u => if Nat.eqb (size (txs s)) 0 && bool_decide (u ∈ ever s) then Some (tt, s) else None
      end
  | Respond _ _ _ => Some (tt, s)
  | _ => None
  end.

Lemma no_txs s : Nat.eqb (size (txs s)) 0 = true → txs s = ∅.
Proof. intros H. apply map_size_empty_iff. by apply Nat.eqb_eq. Qed.

Lemma env_of_ok start s env :
  env_of start s = Some env → (e_fresh env ∉ ever s) ∧ e_clock env = clock s ∧ e_now env = start.
Proof. unfold env_of. case_decide; [done|]. by intros [= <-]. Qed.

Lemma drive_pool_ok {A} (q : query A) s x s' : drive_pool q s = Some (x, s') → pool_step q s x s'.
Proof.
  unfold drive_pool. destruct (Nat.eqb _ _) eqn:Htx; [|done]. apply no_txs in Htx.
  rewrite bind_Some. intros (env & Henv & H). apply bind_Some in H as ([y w] & Hq & [= <- <-]).
  apply env_of_ok in Henv as (Hf & Hc & Hn). right. exists env, y, w. split_and!.
  - split_and!; [done..|lia|]. intros. lia.
  - by apply answer_query_ok.
  - intros j tx. by rewrite Htx.
  - by left.
  - done.
Qed.

Lemma drive_tx_ok i {A} (q : query A) s x s' : drive_tx i q s = Some (x, s') → tx_step i q s x s'.
Proof.
  unfold drive_tx, tx_step. destruct (Nat.eqb _ _) eqn:Hd; [|done].
  apply Nat.eqb_eq, map_size_empty_iff in Hd. destruct (txs s !! i) as [tx|] eqn:Htx; [simpl|done].
  rewrite bind_Some. intros (env & Henv & H). apply bind_Some in H as ([y w] & Hq & H).
  destruct (tx_failed tx) eqn:Hfail; [done|]. destruct (tx_doubt tx) eqn:Hdoubt; [done|]. simplify_eq/=.
  apply env_of_ok in Henv as (Hf & Hc & Hn). right. exists env, w. split_and!; try done.
  - by apply answer_query_ok.
  - intros j tx' Hj Hne. exfalso.
    assert (delete i (txs s) !! j = Some tx') as Hdel by (rewrite lookup_delete_ne; congruence).
    by rewrite Hd in Hdel.
Qed.

Lemma drive_ok i {X} (e : Op X) s x s' : drive i e s = Some (x, s') → may_answer i e s x s'.
Proof.
  destruct e; simpl; try done; try (intros ?; by simplify_eq).
  - destruct c; [apply drive_pool_ok|apply drive_tx_ok].
  - destruct (txs s !! i) eqn:Htx; [done|]. intros ?. simplify_eq. by right.
  - unfold commit_step. destruct (txs s !! i) as [tx|] eqn:Htx; [|done].
    destruct (tx_failed tx) eqn:Hf; [done|]. destruct (tx_doubt tx) eqn:Hd; [done|]. intros ?. simplify_eq/=.
    right. left. done.
  - intros ?. simplify_eq. by right.
  - case_decide; [done|]. intros ?. by simplify_eq.
  - destruct (h_User h) as [u|] eqn:Hu.
    + destruct (Nat.eqb _ _) eqn:Htx; [|done]. case_bool_decide; [|done]. intros ?. simplify_eq/=.
      apply no_txs in Htx. split; [done|]. intros u' ?. simplify_eq. split; [done|]. intros j tx. by rewrite Htx.
    + intros ?. simplify_eq. split; [done|]. intros u. by rewrite Hu.
Qed.

(** ** Requests *)

Fixpoint drive_prog (i : nat) {A} (p : aprog A) (s : Sys) : option (A * Sys) :=
  match p with
  | Ret a => Some (a, s)
  | Vis e k => '(x, s1) ← drive i e s; drive_prog i (k x) (logged i (Ev e x) s1)
  end.

Context `{CFG : AuthConfig}.

Lemma drive_threads i (p : aprog unit) s s' :
  drive_prog i p s = Some (tt, s') →
  rtc (threads step idle entry) ([(i, p)], s) ([(i, Ret tt)], s').
Proof.
  revert s. induction p as [[]|X e k IH]; intros s; simpl; [by intros [= <-]|].
  rewrite bind_Some. intros ([x s1] & He & Hk). apply drive_ok in He.
  eapply rtc_l; [|by apply IH]. apply (thread_call _ _ _ [] i X e k []). by exists s1.
Qed.

(** Requests one after the other, each in a thread of its own. *)
Fixpoint serve_all (i : nat) (rs : list (http * request)) (s : Sys) : option Sys :=
  match rs with
  | [] => Some s
  | (h, r) :: rs =>
      if decide (i ∈ (log s).*1) then None
      else '(_, s1) ← drive_prog i (serve h r) s; serve_all (S i) rs s1
  end.

Lemma serve_all_history i rs s s' :
  serve_all i rs s = Some s' → rtc (threads step idle entry) ([], s) ([], s').
Proof.
  revert i s. induction rs as [|[h r] rs IH]; intros i s; simpl; [by intros [= <-]|].
  case_decide as Hi; [done|]. rewrite bind_Some. intros ([[] s1] & Hp & Hrest).
  eapply rtc_l; [by apply (thread_start _ _ _ [] i (serve h r)); [set_solver|exact Hi|constructor]|].
  etransitivity; [by apply drive_threads|].
  eapply rtc_l; [apply (thread_stop _ _ _ [] i (Ret tt) [])|]. by eapply IH.
Qed.
End drive.

(** ** The history *)

Module Example.

(** A digest that is the token itself, and passwords kept as they are. *)
#[global] Instance example_library : AuthLibrary := {|
  Sum256 := bytes_of; CheckPassword := λ hash password, bool_decide (hash = password);
  ParseClaims := λ _, None; ParseAddress := λ _, true |}.
#[global] Instance example_config : AuthConfig := {|
  RefreshTokenTTL := 86400 * second; TOTPWired := false; OIDCWired := false |}.

Definition ann : User := {|
  u_ID := 7; u_Email := "ann"; u_PasswordHash := "secret"; u_DisplayName := "Ann"; u_IsActive := true;
  u_TotpSecret := None; u_CreatedAt := 0; u_UpdatedAt := 0; u_Role := "admin"; u_AuthSource := "local";
  u_AuthEpoch := 0 |}.

Definition start : Sys := {|
  tables := {| users := {[7 := ann]}; sessions := ∅ |}; txs := ∅; clock := 5000; pending := ∅;
  exchanges := ∅; drawn := {[""; "secret"]}; ever := {[7]}; log := []; born := ∅; spent := [] |}.

Definition browser (user : option uuid) : http := {|
  h_Cookie := ""; h_Cookies := 0; h_User := user; h_Role := ""; h_Authorization := ""; h_UserAgent := "";
  h_IP := ""; h_DeviceType := ""; h_DeviceName := ""; h_DeviceID := "" |}.

Definition requests : list (http * request) := [
  (browser None, LoginRequest "ann" "secret");
  (browser None, RefreshRequest "token-0");
  (browser (Some 7), RevokeSessionRequest 1004);
  (browser None, LoginRequest "ann" "secret");
  (browser (Some 7), LogoutAllRequest);
  (browser None, LoginRequest "ann" "secret")].

Definition finish : Sys := match serve_all 0 requests start with Some s => s | None => start end.

Lemma finish_history : histories start finish.
Proof. exists []. apply (serve_all_history 0 requests). vm_compute. reflexivity. Qed.

Lemma start_initial : initial start.
Proof.
  split; try done. intros id u. simpl. rewrite lookup_singleton_Some. intros [<- <-].
  split_and!; [done|set_solver|simpl; set_solver].
Qed.

Lemma split_at {A} (l : list A) (n : nat) x : l !! n = Some x → l = take n l ++ x :: drop (S n) l.
Proof. intros H. by rewrite take_drop_middle. Qed.

(** The session of the last login was created at an epoch nobody had read when
    the sign-out of all devices came in. *)
Lemma ending_is_final_witness :
  ∃ l0 e, born finish !! 1049 = Some e ∧ has_read 7 e (log finish) ∧ ¬ has_read 7 e l0.
Proof.
  destruct (ending_is_final start finish 4 (browser (Some 7)) LogoutAllRequest
    (answer 200 CookieCleared "All sessions revoked") 7 (drop 10 (log finish)) (take 9 (log finish))
    start_initial finish_history) as (l3 & l0 & _ & H).
  - apply (split_at _ 9). vm_compute. reflexivity.
  - reflexivity.
  - reflexivity.
  - exists l0. destruct (sessions (tables finish) !! 1049) as [row|] eqn:Hrow; [|vm_compute in Hrow; discriminate].
    apply (H 1049 row Hrow); vm_compute in Hrow; by injection Hrow as <-.
Defined.

Lemma refresh_once_witness :
  (1%nat, Ev (Respond (browser None) (RefreshRequest "token-0") (signed_in 200 "token-1" 7 1004)) tt) ∈ log finish ∧
  (1 = 1)%nat.
Proof.
  assert ((1%nat, Ev (Respond (browser None) (RefreshRequest "token-0") (signed_in 200 "token-1" 7 1004)) tt)
    ∈ log finish) as H by (apply (list_elem_of_lookup_2 _ 33); vm_compute; reflexivity).
  split; [exact H|].
  by apply (refresh_once start finish 1 1 (browser None) (browser None) "token-0" "token-0"
    (signed_in 200 "token-1" 7 1004) (signed_in 200 "token-1" 7 1004) start_initial finish_history H H).
Defined.

Lemma revoked_stays_witness :
  ∃ r, sessions (tables finish) !! 1004 = Some r ∧ s_IsRevoked r = true.
Proof.
  destruct (sessions (tables finish) !! 1004) as [r|] eqn:Hr; [|vm_compute in Hr; discriminate].
  exists r. split; [done|].
  apply (revoked_stays start finish 2 (browser (Some 7)) 1004 (refuse 200 "Session revoked") r
    start_initial finish_history); [|reflexivity|done].
  apply (list_elem_of_lookup_2 _ 26). vm_compute. reflexivity.
Defined.
End Example.
