(* ===== verification/RbacDb.v ===== *)
(** * Roles and permissions

    The rows of [db/generated/models.go] that permissions are read from ([Role],
    [Permission], [UserRole], the pairs of [role_permissions]), the queries of
    [db/generated/rbac.sql.go], [DeleteClusterAndScopedRoles] of [clusters.sql.go]
    and [CountUsers] and [CreateUser] of [users.sql.go] on them, each a function on the tables that answers as
    PostgreSQL does: a refusal ([db_refusal]) or the new tables and the rows. The
    constraints are those of the migrations 000016 and 000123. Of the accounts only
    the keys and the e-mail addresses matter here, of the clusters the keys. The order of rows that [ORDER BY]
    leaves open or that is by text is left open. *)

From S2P Require Import Prelude GoStrings.

Local Open Scope Z_scope.

(** [uuid.UUID.String] and [uuid.Parse] of google/uuid, and what the code relies
    on of them: the text of an identifier reads back, and is not empty. *)
Class UuidText := { uuid_String : uuid → string; uuid_Parse : string → option uuid }.
Class UuidTextLaws `{UuidText} := {
  uuid_Parse_String : ∀ u, uuid_Parse (uuid_String u) = Some u;
  uuid_Parse_empty : uuid_Parse "" = None }.

(** ** Rows *)

Record Role := { ro_ID : uuid; ro_Name : string; ro_Description : string; ro_IsBuiltin : bool }.

Record Permission := { pm_ID : uuid; pm_Action : string; pm_Resource : string; pm_Description : string }.

Record UserRole := {
  ur_ID : uuid; ur_UserID : uuid; ur_RoleID : uuid; ur_ScopeType : string; ur_ScopeID : option uuid }.

Record RbacTables := {
  roles : gmap uuid Role; permissions : gmap uuid Permission; role_permissions : gset (uuid * uuid);
  user_roles : gmap uuid UserRole; accounts : gmap uuid string; clusters : gset uuid }.

#[export] Instance Role_eq_dec : EqDecision Role.
Proof. solve_decision. Defined.
#[export] Instance UserRole_eq_dec : EqDecision UserRole.
Proof. solve_decision. Defined.

Definition set_roles (m : gmap uuid Role) (d : RbacTables) : RbacTables :=
  {| roles := m; permissions := permissions d; role_permissions := role_permissions d;
     user_roles := user_roles d; accounts := accounts d; clusters := clusters d |}.
Definition set_role_permissions (m : gset (uuid * uuid)) (d : RbacTables) : RbacTables :=
  {| roles := roles d; permissions := permissions d; role_permissions := m;
     user_roles := user_roles d; accounts := accounts d; clusters := clusters d |}.
Definition set_user_roles (m : gmap uuid UserRole) (d : RbacTables) : RbacTables :=
  {| roles := roles d; permissions := permissions d; role_permissions := role_permissions d;
     user_roles := m; accounts := accounts d; clusters := clusters d |}.
Definition set_accounts (m : gmap uuid string) (d : RbacTables) : RbacTables :=
  {| roles := roles d; permissions := permissions d; role_permissions := role_permissions d;
     user_roles := user_roles d; accounts := m; clusters := clusters d |}.
Definition set_clusters (m : gset uuid) (d : RbacTables) : RbacTables :=
  {| roles := roles d; permissions := permissions d; role_permissions := role_permissions d;
     user_roles := user_roles d; accounts := accounts d; clusters := m |}.

(** What the handlers ask of a database error: [errors.Is(err, pgx.ErrNoRows)],
    [isDuplicateKeyError], a foreign-key violation and its constraint. *)
Inductive db_refusal :=
| RNoRows
| RDuplicateKey
| RForeignKey (constraint : string)
| RCheckViolation
| ROther.

(** [auth.SystemUserID], the account that stands for the server. *)
Definition SystemUserID : uuid := 1.

Definition scopeClusterKey : string := "user_roles_scope_id_fkey".

(** ** Reading *)

(** The rows of [user_roles ur JOIN role_permissions rp JOIN permissions p] for a
    user. *)
Definition joined (userID : uuid) (d : RbacTables) : list (UserRole * Permission) :=
  ur ← List.filter (λ ur, ur_UserID ur =? userID) (map_to_list (user_roles d)).*2;
  rp ← List.filter (λ rp, rp.1 =? ur_RoleID ur) (elements (role_permissions d));
  p ← option_list (permissions d !! rp.2);
  [(ur, p)].

Record ScopedRow := {
  sr_Action : string; sr_Resource : string; sr_ScopeType : string; sr_ScopeID : option uuid }.

#[export] Instance ScopedRow_eq_dec : EqDecision ScopedRow.
Proof. solve_decision. Defined.

Definition scoped_row (x : UserRole * Permission) : ScopedRow :=
  {| sr_Action := pm_Action x.2; sr_Resource := pm_Resource x.2;
     sr_ScopeType := ur_ScopeType x.1; sr_ScopeID := ur_ScopeID x.1 |}.

Definition getUserScopedPermissions (userID : uuid) (d : RbacTables) : list ScopedRow :=
  remove_dups (scoped_row <$> joined userID d).

Definition getUserPermissions (userID : uuid) (d : RbacTables) : list (string * string) :=
  remove_dups ((λ x, (pm_Action x.2, pm_Resource x.2)) <$> joined userID d).

(** [ur.scope_id = $5]: NULL is equal to nothing. *)
Definition sql_eq (a b : option uuid) : bool :=
  match a, b with Some a, Some b => a =? b | _, _ => false end.

Definition checkUserPermission (userID : uuid) (action resource scopeType : string) (scopeID : option uuid)
    (d : RbacTables) : bool :=
  existsb (λ x, bool_decide (pm_Action x.2 = action) && bool_decide (pm_Resource x.2 = resource) &&
    (bool_decide (ur_ScopeType x.1 = "global") ||
     bool_decide (ur_ScopeType x.1 = scopeType) && sql_eq (ur_ScopeID x.1) scopeID)) (joined userID d).

Definition getRole (id : uuid) (d : RbacTables) : result db_refusal Role :=
  match roles d !! id with Some r => Ok r | None => Err RNoRows end.

Definition getCluster (id : uuid) (d : RbacTables) : result db_refusal unit :=
  if decide (id ∈ clusters d) then Ok tt else Err RNoRows.

Definition listRoles (d : RbacTables) : list Role := (map_to_list (roles d)).*2.

Definition listPermissions (d : RbacTables) : list Permission := (map_to_list (permissions d)).*2.

Definition listRolePermissions (roleID : uuid) (d : RbacTables) : list Permission :=
  rp ← List.filter (λ rp, rp.1 =? roleID) (elements (role_permissions d));
  option_list (permissions d !! rp.2).

Definition listUserIDsByRole (roleID : uuid) (d : RbacTables) : list uuid :=
  remove_dups (ur_UserID <$> List.filter (λ ur, ur_RoleID ur =? roleID) (map_to_list (user_roles d)).*2).

Definition listUserRoles (userID : uuid) (d : RbacTables) : list (UserRole * Role) :=
  ur ← List.filter (λ ur, ur_UserID ur =? userID) (map_to_list (user_roles d)).*2;
  r ← option_list (roles d !! ur_RoleID ur);
  [(ur, r)].

(** ** Writing *)

Definition name_taken (id : uuid) (name : string) (d : RbacTables) : bool :=
  existsb (λ kv, negb (kv.1 =? id) && bool_decide (ro_Name kv.2 = name)) (map_to_list (roles d)).

(** [fresh] is the key [gen_random_uuid()] hands out. *)
Definition createRole (name description : string) (fresh : uuid) (d : RbacTables) :
    result db_refusal (RbacTables * Role) :=
  if name_taken fresh name d then Err RDuplicateKey
  else let r := {| ro_ID := fresh; ro_Name := name; ro_Description := description; ro_IsBuiltin := false |} in
       Ok (set_roles (<[fresh := r]> (roles d)) d, r).

Definition updateRole (id : uuid) (name description : string) (d : RbacTables) :
    result db_refusal (RbacTables * Role) :=
  match roles d !! id with
  | None => Err RNoRows
  | Some r =>
      if ro_IsBuiltin r then Err RNoRows
      else if name_taken id name d then Err RDuplicateKey
      else let r := {| ro_ID := ro_ID r; ro_Name := name; ro_Description := description;
                       ro_IsBuiltin := ro_IsBuiltin r |} in
           Ok (set_roles (<[id := r]> (roles d)) d, r)
  end.

(** The role, and by [ON DELETE CASCADE] its permissions and its assignments. *)
Definition deleteRole (id : uuid) (d : RbacTables) : RbacTables :=
  match roles d !! id with
  | None => d
  | Some r =>
      if ro_IsBuiltin r then d
      else set_user_roles (filter (λ kv, ur_RoleID kv.2 ≠ id) (user_roles d))
             (set_role_permissions (filter (λ rp, rp.1 ≠ id) (role_permissions d))
                (set_roles (delete id (roles d)) d))
  end.

Definition addRolePermission (roleID permissionID : uuid) (d : RbacTables) : result db_refusal RbacTables :=
  if decide (is_Some (roles d !! roleID)) then
    if decide (is_Some (permissions d !! permissionID)) then
      Ok (set_role_permissions ({[(roleID, permissionID)]} ∪ role_permissions d) d)
    else Err (RForeignKey "role_permissions_permission_id_fkey")
  else Err (RForeignKey "role_permissions_role_id_fkey").

(** [SetRolePermissions], which only deletes. *)
Definition setRolePermissions (roleID : uuid) (d : RbacTables) : RbacTables :=
  set_role_permissions (filter (λ rp, rp.1 ≠ roleID) (role_permissions d)) d.

Record AssignUserRoleParams := {
  ar_UserID : uuid; ar_RoleID : uuid; ar_ScopeType : string; ar_ScopeID : option uuid }.

(** [user_roles_scope_check] and the [CHECK] on the scope type. *)
Definition scope_ok (scopeType : string) (scopeID : option uuid) : bool :=
  (bool_decide (scopeType = "global") || bool_decide (scopeType = "cluster")) &&
  Bool.eqb (bool_decide (scopeType = "cluster")) (bool_decide (is_Some scopeID)).

(** [uq_user_role_scope], with NULLs equal. *)
Definition assigned_already (arg : AssignUserRoleParams) (d : RbacTables) : bool :=
  existsb (λ kv, (ur_UserID kv.2 =? ar_UserID arg) && (ur_RoleID kv.2 =? ar_RoleID arg) &&
                 bool_decide (ur_ScopeType kv.2 = ar_ScopeType arg) &&
                 bool_decide (ur_ScopeID kv.2 = ar_ScopeID arg)) (map_to_list (user_roles d)).

Definition cluster_exists (id : option uuid) (d : RbacTables) : bool :=
  match id with Some c => bool_decide (c ∈ clusters d) | None => true end.

Definition assignUserRole (arg : AssignUserRoleParams) (fresh : uuid) (d : RbacTables) :
    result db_refusal (RbacTables * UserRole) :=
  if negb (scope_ok (ar_ScopeType arg) (ar_ScopeID arg)) then Err RCheckViolation
  else if assigned_already arg d then Err RDuplicateKey
  else if negb (bool_decide (is_Some (accounts d !! ar_UserID arg))) then Err (RForeignKey "user_roles_user_id_fkey")
  else if negb (bool_decide (is_Some (roles d !! ar_RoleID arg))) then Err (RForeignKey "user_roles_role_id_fkey")
  else if negb (cluster_exists (ar_ScopeID arg) d) then Err (RForeignKey scopeClusterKey)
  else let ur := {| ur_ID := fresh; ur_UserID := ar_UserID arg; ur_RoleID := ar_RoleID arg;
                    ur_ScopeType := ar_ScopeType arg; ur_ScopeID := ar_ScopeID arg |} in
       Ok (set_user_roles (<[fresh := ur]> (user_roles d)) d, ur).

Definition revokeUserRole (id userID : uuid) (d : RbacTables) : RbacTables :=
  match user_roles d !! id with
  | Some ur => if ur_UserID ur =? userID then set_user_roles (delete id (user_roles d)) d else d
  | None => d
  end.

Definition revokeAllUserRoles (userID : uuid) (d : RbacTables) : RbacTables :=
  set_user_roles (filter (λ kv, ur_UserID kv.2 ≠ userID) (user_roles d)) d.

Definition on_cluster (id : uuid) (ur : UserRole) : bool :=
  bool_decide (ur_ScopeType ur = "cluster") && sql_eq (ur_ScopeID ur) (Some id).

(** One user per assignment the statement deletes; any other that names the
    cluster goes by [ON DELETE CASCADE]. *)
Definition deleteClusterAndScopedRoles (id : uuid) (d : RbacTables) : RbacTables * list uuid :=
  (set_user_roles (filter (λ kv, ur_ScopeID kv.2 ≠ Some id) (user_roles d))
     (set_clusters (clusters d ∖ {[id]}) d),
   ur_UserID <$> List.filter (on_cluster id) (map_to_list (user_roles d)).*2).

(** ** Accounts *)

(** Every account but that of the server. *)
Definition countUsers (d : RbacTables) : Z :=
  Z.of_nat (length (List.filter (λ kv, negb (kv.1 =? SystemUserID)) (map_to_list (accounts d)))).

(** [users.email] is unique. *)
Definition createUser (email : string) (fresh : uuid) (d : RbacTables) : result db_refusal (RbacTables * uuid) :=
  if existsb (λ kv, bool_decide (kv.2 = email)) (map_to_list (accounts d)) then Err RDuplicateKey
  else Ok (set_accounts (<[fresh := email]> (accounts d)) d, fresh).
