(* ===== verification/RbacEngine.v ===== *)
(** * The permission engine and its gates

    [auth/rbac.go]: the permissions of a user, read from the database through a
    cache in Redis; [api/handlers/permission.go] and [permission_middleware.go]:
    the gates of a route and the clusters a caller may act on; and the handlers
    that change what they read ([api/handlers/rbac.go], [syncUserRoles] of
    [ldap.go] and [oidc.go], [forgetPermissions] of [clusters.go]), behind the
    gates [registry_rbac.go] declares for them.

    The engine, the gates and the handlers are programs that call the database,
    Redis and the clock ([ROp]). The bytes in Redis are left out: an entry holds
    the permissions [json.Marshal] wrote, and what [json.Unmarshal] does not read
    is a miss. A response body is its rows. *)

From S2P Require Import Prelude GoStrings Effects RbacDb.

Local Open Scope Z_scope.

Definition rbacCacheTTL : Z := 5 * minute.

Record ScopedPermission := {
  sp_Action : string; sp_Resource : string; sp_ScopeType : string; sp_ScopeID : string }.

#[export] Instance ScopedPermission_eq_dec : EqDecision ScopedPermission.
Proof. solve_decision. Defined.

Abbreviation UserPermissions := (list ScopedPermission).

(** ** Calls *)

Inductive rquery : Type → Type :=
| GetUserScopedPermissions (userID : uuid) : rquery (list ScopedRow)
| GetUserPermissions (userID : uuid) : rquery (list (string * string))
| CheckUserPermission (userID : uuid) (action resource scopeType : string) (scopeID : option uuid) : rquery bool
| GetRole (id : uuid) : rquery Role
| GetCluster (id : uuid) : rquery unit
| ListRoles : rquery (list Role)
| ListPermissions : rquery (list Permission)
| ListRolePermissions (roleID : uuid) : rquery (list Permission)
| ListUserIDsByRole (roleID : uuid) : rquery (list uuid)
| ListUserRoles (userID : uuid) : rquery (list (UserRole * Role))
| CreateRole (name description : string) : rquery Role
| UpdateRole (id : uuid) (name description : string) : rquery Role
| DeleteRole (id : uuid) : rquery unit
| AddRolePermission (roleID permissionID : uuid) : rquery unit
| SetRolePermissions (roleID : uuid) : rquery unit
| AssignUserRole (arg : AssignUserRoleParams) : rquery UserRole
| RevokeUserRole (id userID : uuid) : rquery unit
| RevokeAllUserRoles (userID : uuid) : rquery unit
| DeleteClusterAndScopedRoles (id : uuid) : rquery (list uuid)
| CountUsers : rquery Z
| CreateUser (email role : string) : rquery uuid.

Definition keeping {E A} (d : RbacTables) (r : result E A) : result E (RbacTables * A) :=
  match r with Ok a => Ok (d, a) | Err e => Err e end.
Definition and_unit {E} (r : result E RbacTables) : result E (RbacTables * unit) :=
  match r with Ok d => Ok (d, tt) | Err e => Err e end.

(** What a statement does. *)
Definition exec {A} (q : rquery A) (fresh : uuid) (d : RbacTables) : result db_refusal (RbacTables * A) :=
  match q in rquery A return result db_refusal (RbacTables * A) with
  | GetUserScopedPermissions u => Ok (d, getUserScopedPermissions u d)
  | GetUserPermissions u => Ok (d, getUserPermissions u d)
  | CheckUserPermission u a r st sid => Ok (d, checkUserPermission u a r st sid d)
  | GetRole id => keeping d (getRole id d)
  | GetCluster id => keeping d (getCluster id d)
  | ListRoles => Ok (d, listRoles d)
  | ListPermissions => Ok (d, listPermissions d)
  | ListRolePermissions id => Ok (d, listRolePermissions id d)
  | ListUserIDsByRole id => Ok (d, listUserIDsByRole id d)
  | ListUserRoles u => Ok (d, listUserRoles u d)
  | CreateRole name descr => createRole name descr fresh d
  | UpdateRole id name descr => updateRole id name descr d
  | DeleteRole id => Ok (deleteRole id d, tt)
  | AddRolePermission id p => and_unit (addRolePermission id p d)
  | SetRolePermissions id => Ok (setRolePermissions id d, tt)
  | AssignUserRole arg => assignUserRole arg fresh d
  | RevokeUserRole id u => Ok (revokeUserRole id u d, tt)
  | RevokeAllUserRoles u => Ok (revokeAllUserRoles u d, tt)
  | DeleteClusterAndScopedRoles id => Ok (deleteClusterAndScopedRoles id d)
  | CountUsers => Ok (d, countUsers d)
  | CreateUser email _ => createUser email fresh d
  end.

(** The order of a list of rows is open. *)
Definition same_answer {A} (q : rquery A) : A → A → Prop :=
  match q in rquery A return A → A → Prop with
  | GetUserScopedPermissions _ => λ x y, x ≡ₚ y
  | GetUserPermissions _ => λ x y, x ≡ₚ y
  | ListRoles => λ x y, x ≡ₚ y
  | ListPermissions => λ x y, x ≡ₚ y
  | ListRolePermissions _ => λ x y, x ≡ₚ y
  | ListUserIDsByRole _ => λ x y, x ≡ₚ y
  | ListUserRoles _ => λ x y, x ≡ₚ y
  | DeleteClusterAndScopedRoles _ => λ x y, x ≡ₚ y
  | _ => eq
  end.

(** What a route answers: a status with a message or rows. *)
Inductive body :=
| Message (m : string)
| NoBody
| RolesBody (l : list Role)
| RoleBody (r : Role) (perms : list Permission)
| PermissionsBody (l : list Permission)
| UserRolesBody (l : list (UserRole * Role))
| AssignmentBody (a : UserRole)
| MineBody (flat globals : list string) (l : list (UserRole * Role)).

Record reply := { rp_Status : Z; rp_Body : body }.

Definition fiber_error (status : Z) (message : string) : reply :=
  {| rp_Status := status; rp_Body := Message message |}.

(** [PermissionRef] *)
Record PermissionRef := { pr_Action : string; pr_Resource : string; pr_ClusterScoped : bool }.

(** A gate that is asked, and the requests of the role routes with the parameters
    they carry; an absent parameter is [None]. *)
Inductive rbac_request :=
| AnyOf (refs : list PermissionRef) (cluster_id id : string)
| AllOf (ref : PermissionRef) (refs : list PermissionRef) (cluster_id id : string)
| ListRolesRequest
| GetRoleRequest (id : string)
| CreateRoleRequest (name description : string) (permission_ids : list string)
| UpdateRoleRequest (id : string) (name description : option string) (permission_ids : option (list string))
| DeleteRoleRequest (id : string)
| ListPermissionsRequest
| ListUserRolesRequest (user_id : string)
| AssignUserRoleRequest (user_id role_id scope_type scope_id : string)
| RevokeUserRoleRequest (user_id id : string)
| MyPermissionsRequest.

(** The work of the server itself: a login that brings the roles of its user up to
    date with the groups of a directory, the removal of a cluster. *)
Inductive server_work :=
| LoginSync (userID : uuid) (groups : list string) (mapping : gmap string string) (defaultRoleID : option uuid)
| ClusterRemoval (id : uuid).

Inductive tx_call := TxBegin | TxLock | TxCommit | TxRollback.

(** [RInternal] marks the work of the server itself, [RRegistering] a request to
    create an account, with the role its caller's token names (the empty text where
    there is none). [RTx] is a call that opens, locks or ends the transaction of a
    registration. [RElsewhere] is whatever else happens meanwhile. *)
Inductive ROp : Type → Type :=
| RQuery {A} (q : rquery A) : ROp (result db_refusal A)
| RGet (userID : uuid) : ROp (option UserPermissions)
| RSet (userID : uuid) (perms : UserPermissions) (ttl : Z) : ROp unit
| RDel (userID : uuid) : ROp bool
| RAudit (action : string) : ROp unit
| RReceived (caller : option uuid) (r : rbac_request) : ROp unit
| RRespond (caller : option uuid) (r : rbac_request) (a : reply) : ROp unit
| RInternal (w : server_work) : ROp unit
| RRegistering (callerRole : string) : ROp unit
| RTx (c : tx_call) : ROp bool
| RElsewhere : ROp unit.

Abbreviation rprog := (prog ROp).

Definition rask {X} (e : ROp X) : rprog X := call e.
Definition rdb {A} (q : rquery A) : rprog (result db_refusal A) := rask (RQuery q).
Arguments rask {X} e : simpl never.
Arguments rdb {A} q : simpl never.

(** Whether the server runs with Redis. *)
Class RbacConfig := { RedisWired : bool }.

(** ** The engine *)

Section engine.
Context `{UuidText} `{RbacConfig}.

Definition to_scoped (r : ScopedRow) : ScopedPermission :=
  {| sp_Action := sr_Action r; sp_Resource := sr_Resource r; sp_ScopeType := sr_ScopeType r;
     sp_ScopeID := match sr_ScopeID r with Some sid => uuid_String sid | None => "" end |}.

Definition LoadUserPermissions (userID : uuid) : rprog (result db_refusal UserPermissions) :=
  let! cached := if RedisWired then rask (RGet userID) else Ret None in
  match cached with
  | Some perms => Ret (Ok perms)
  | None =>
      let! rows := rdb (GetUserScopedPermissions userID) in
      match rows with
      | Err e => Ret (Err e)
      | Ok rows =>
          let perms := to_scoped <$> rows in
          do! if RedisWired then rask (RSet userID perms rbacCacheTTL) else Ret tt in
          Ret (Ok perms)
      end
  end.

(** The loop of [HasPermission]. *)
Fixpoint has_permission (perms : UserPermissions) (action resource scopeType : string) (scopeID : uuid) : bool :=
  match perms with
  | [] => false
  | p :: perms =>
      if negb (bool_decide (sp_Action p = action)) || negb (bool_decide (sp_Resource p = resource))
      then has_permission perms action resource scopeType scopeID
      else if bool_decide (sp_ScopeType p = "global") then true
      else if bool_decide (sp_ScopeType p = scopeType) && bool_decide (sp_ScopeID p = uuid_String scopeID)
      then true
      else has_permission perms action resource scopeType scopeID
  end.

Definition HasPermission (userID : uuid) (action resource scopeType : string) (scopeID : uuid) :
    rprog (result db_refusal bool) :=
  let! perms := LoadUserPermissions userID in
  match perms with
  | Err e => Ret (Err e)
  | Ok perms =>
      Ret (Ok (has_permission perms action resource scopeType scopeID))
  end.

Definition HasGlobalPermission (userID : uuid) (action resource : string) : rprog (result db_refusal bool) :=
  HasPermission userID action resource "global" uuid_Nil.

Definition GetFlatPermissions (userID : uuid) : rprog (result db_refusal (list string)) :=
  let! rows := rdb (GetUserPermissions userID) in
  match rows with
  | Err e => Ret (Err e)
  | Ok rows => Ret (Ok ((λ r, r.1 +:+ ":" +:+ r.2) <$> rows))
  end.

Definition GetGlobalPermissions (userID : uuid) : rprog (result db_refusal (list string)) :=
  let! rows := rdb (GetUserScopedPermissions userID) in
  match rows with
  | Err e => Ret (Err e)
  | Ok rows =>
      Ret (Ok ((λ r, sr_Action r +:+ ":" +:+ sr_Resource r) <$>
               List.filter (λ r, bool_decide (sr_ScopeType r = "global")) rows))
  end.

Definition InvalidateUser (userID : uuid) : rprog unit :=
  if RedisWired then do! rask (RDel userID) in Ret tt else Ret tt.

Definition CheckPermissionDB (userID : uuid) (action resource scopeType : string) (scopeID : uuid) :
    rprog (result db_refusal bool) :=
  let pgScopeID := if scopeID =? uuid_Nil then None else Some scopeID in
  rdb (CheckUserPermission userID action resource scopeType pgScopeID).

(** ** The gates *)

Definition not_configured : reply := fiber_error 500 "RBAC engine not configured".
Definition check_failed : reply := fiber_error 500 "Permission check failed".
Definition insufficient : reply := fiber_error 403 "Insufficient permissions".

(** [caller] is the [user_id] the authentication left, with an engine beside it:
    [None] when either is missing or the id is the nil one. *)
Definition engineFromContext (caller : option uuid) : option uuid :=
  match caller with Some u => if u =? uuid_Nil then None else Some u | None => None end.

(** [eng.Has*Permission] as a gate: [None] passes. *)
Definition gated (check : uuid → rprog (result db_refusal bool)) (caller : option uuid) : rprog (option reply) :=
  match engineFromContext caller with
  | None => Ret (Some not_configured)
  | Some userID =>
      let! allowed := check userID in
      match allowed with
      | Err _ => Ret (Some check_failed)
      | Ok allowed => Ret (if negb allowed then Some insufficient else None)
      end
  end.

Definition requirePerm (caller : option uuid) (action resource : string) : rprog (option reply) :=
  gated (λ userID, HasGlobalPermission userID action resource) caller.

Definition requireClusterPerm (caller : option uuid) (action resource : string) (clusterID : uuid) :
    rprog (option reply) :=
  gated (λ userID, HasPermission userID action resource "cluster" clusterID) caller.

Definition asked (check : uuid → rprog (result db_refusal bool)) (caller : option uuid) :
    rprog (result reply bool) :=
  match engineFromContext caller with
  | None => Ret (Err not_configured)
  | Some userID =>
      let! allowed := check userID in
      match allowed with
      | Err _ => Ret (Err check_failed)
      | Ok allowed => Ret (Ok allowed)
      end
  end.

Definition hasClusterPerm (caller : option uuid) (action resource : string) (clusterID : uuid) :
    rprog (result reply bool) :=
  asked (λ userID, HasPermission userID action resource "cluster" clusterID) caller.

Definition hasGlobalPerm (caller : option uuid) (action resource : string) : rprog (result reply bool) :=
  asked (λ userID, HasGlobalPermission userID action resource) caller.

Definition clusterIDFromParam (cluster_id id : string) : result reply uuid :=
  let raw := if bool_decide (cluster_id = "") then id else cluster_id in
  match uuid_Parse raw with
  | None => Err (fiber_error 400 "Invalid cluster ID")
  | Some id => Ok id
  end.

(** The middlewares: [None] goes on to the handler ([c.Next()]). *)
Definition RequirePermission (caller : option uuid) (action resource : string) : rprog (option reply) :=
  requirePerm caller action resource.

Definition RequireClusterPermission (caller : option uuid) (action resource cluster_id id : string) :
    rprog (option reply) :=
  match clusterIDFromParam cluster_id id with
  | Err e => Ret (Some e)
  | Ok clusterID => requireClusterPerm caller action resource clusterID
  end.

Definition ref_name (r : PermissionRef) : string := pr_Action r +:+ ":" +:+ pr_Resource r.

Definition refNames (refs : list PermissionRef) : string := Join ", " (ref_name <$> refs).

Definition wantsCluster (refs : list PermissionRef) : bool := existsb pr_ClusterScoped refs.

(** The cluster of the path, when some requirement asks for it. *)
Definition resolved (refs : list PermissionRef) (cluster_id id : string) : result reply uuid :=
  if wantsCluster refs then clusterIDFromParam cluster_id id else Ok uuid_Nil.

Definition check_ref (caller : option uuid) (clusterID : uuid) (ref : PermissionRef) : rprog (result reply bool) :=
  if pr_ClusterScoped ref then hasClusterPerm caller (pr_Action ref) (pr_Resource ref) clusterID
  else hasGlobalPerm caller (pr_Action ref) (pr_Resource ref).

Fixpoint any_of (caller : option uuid) (clusterID : uuid) (names : string) (refs : list PermissionRef) :
    rprog (option reply) :=
  match refs with
  | [] => Ret (Some (fiber_error 403 ("Requires one of: " +:+ names)))
  | ref :: refs =>
      let! allowed := check_ref caller clusterID ref in
      match allowed with
      | Err e => Ret (Some e)
      | Ok true => Ret None
      | Ok false => any_of caller clusterID names refs
      end
  end.

Definition RequireAnyPermission (refs : list PermissionRef) (caller : option uuid) (cluster_id id : string) :
    rprog (option reply) :=
  match resolved refs cluster_id id with
  | Err e => Ret (Some e)
  | Ok clusterID => any_of caller clusterID (refNames refs) refs
  end.

Fixpoint all_of (caller : option uuid) (clusterID : uuid) (names : string) (refs : list PermissionRef) :
    rprog (option reply) :=
  match refs with
  | [] => Ret None
  | ref :: refs =>
      let! allowed := check_ref caller clusterID ref in
      match allowed with
      | Err e => Ret (Some e)
      | Ok false => Ret (Some (fiber_error 403 ("Requires all of: " +:+ names)))
      | Ok true => all_of caller clusterID names refs
      end
  end.

Definition all_gate (refs : list PermissionRef) (caller : option uuid) (cluster_id id : string) :
    rprog (option reply) :=
  match resolved refs cluster_id id with
  | Err e => Ret (Some e)
  | Ok clusterID => all_of caller clusterID (refNames refs) refs
  end.

(** [None]: the panic on no requirement. *)
Definition RequireAllPermissions (refs : list PermissionRef) :
    option (option uuid → string → string → rprog (option reply)) :=
  match refs with [] => None | _ => Some (all_gate refs) end.

(** ** The clusters a caller may act on *)

Record clusterAccess := { HasGlobal : bool; Allowed : gmap uuid bool }.

Definition PermitsCluster (a : clusterAccess) (id : uuid) : bool :=
  if HasGlobal a then true else default false (Allowed a !! id).

(** [None] is the nil slice, which pgx sends as NULL. *)
Definition ScopedIDs `{MapRange} (a : clusterAccess) : option (list uuid) :=
  if HasGlobal a then None
  else Some (List.filter (λ kv, kv.2) (go_range (Allowed a))).*1.

Definition clusterScopeFilter `{MapRange} (a : clusterAccess) : option (list uuid) * bool :=
  let ids := ScopedIDs a in
  (ids, HasGlobal a || negb (bool_decide (default [] ids = []))).

(** [$n::uuid[] IS NULL OR cluster_id = ANY($n::uuid[])], for a row whose cluster
    may be NULL. *)
Definition row_in_scope (ids : option (list uuid)) (cluster : option uuid) : bool :=
  match ids with
  | None => true
  | Some l => match cluster with Some c => contains l c | None => false end
  end.

(** The loop of [accessibleClusters]. *)
Fixpoint access_of (perms : UserPermissions) (action resource : string) (allowed : gmap uuid bool) : clusterAccess :=
  match perms with
  | [] => {| HasGlobal := false; Allowed := allowed |}
  | p :: perms =>
      if negb (bool_decide (sp_Action p = action)) || negb (bool_decide (sp_Resource p = resource))
      then access_of perms action resource allowed
      else if bool_decide (sp_ScopeType p = "global") then {| HasGlobal := true; Allowed := ∅ |}
      else access_of perms action resource
             (if bool_decide (sp_ScopeType p = "cluster") && negb (bool_decide (sp_ScopeID p = ""))
              then match uuid_Parse (sp_ScopeID p) with
                   | Some id => <[id := true]> allowed
                   | None => allowed
                   end
              else allowed)
  end.

Definition accessibleClusters (caller : option uuid) (action resource : string) :
    rprog (result reply clusterAccess) :=
  match engineFromContext caller with
  | None => Ret (Err not_configured)
  | Some userID =>
      let! perms := LoadUserPermissions userID in
      match perms with
      | Err _ => Ret (Err check_failed)
      | Ok perms => Ret (Ok (access_of perms action resource ∅))
      end
  end.
End engine.
