(* ===== verification/RbacHandlers.v ===== *)
(** * The routes that change roles

    The handlers of [api/handlers/rbac.go] behind the permission each route
    declares ([api/registry_rbac.go]), the role synchronisation at a directory or
    single sign-on login, the removal of a cluster's assignments, and the role that
    [Register] of [api/handlers/auth.go] gives a new account. The schema
    has checked the parameters before: what is left of that here is that a
    parameter that has to be an identifier may still fail to parse. *)

From S2P Require Import Prelude GoStrings Effects RbacDb RbacEngine.

Local Open Scope Z_scope.

Section handlers.
Context `{UuidText} `{RbacConfig}.

Definition parseParamUUID (value : string) : result reply uuid :=
  match uuid_Parse value with
  | None => Err (fiber_error 500 "Request validation failed")
  | Some id => Ok id
  end.

Fixpoint parseRolePermissionIDs (raw : list string) : result reply (list uuid) :=
  match raw with
  | [] => Ok []
  | s :: raw =>
      match uuid_Parse s with
      | None => Err (fiber_error 400 ("Invalid permission ID: " +:+ s))
      | Some id => let? rest := parseRolePermissionIDs raw in Ok (id :: rest)
      end
  end.

Definition invalidateRoleUsers (roleID : uuid) : rprog unit :=
  let! userIDs := rdb (ListUserIDsByRole roleID) in
  match userIDs with
  | Err _ => Ret tt
  | Ok userIDs => for_each userIDs InvalidateUser
  end.

Definition ListRoles_handler : rprog reply :=
  let! l := rdb ListRoles in
  match l with
  | Err _ => Ret (fiber_error 500 "Failed to list roles")
  | Ok l => Ret {| rp_Status := 200; rp_Body := RolesBody l |}
  end.

(** The role a route names, or the answer when there is none. *)
Definition find_role (id : uuid) : rprog (result reply Role) :=
  let! role := rdb (GetRole id) in
  match role with
  | Err RNoRows => Ret (Err (fiber_error 404 "Role not found"))
  | Err _ => Ret (Err (fiber_error 500 "Failed to get role"))
  | Ok role => Ret (Ok role)
  end.

Definition GetRole_handler (id : string) : rprog reply :=
  match parseParamUUID id with
  | Err e => Ret e
  | Ok id =>
      let! role := find_role id in
      match role with
      | Err e => Ret e
      | Ok role =>
          let! perms := rdb (ListRolePermissions id) in
          match perms with
          | Err _ => Ret (fiber_error 500 "Failed to list role permissions")
          | Ok perms => Ret {| rp_Status := 200; rp_Body := RoleBody role perms |}
          end
      end
  end.

(** [AddRolePermission] for each, up to the first that fails. *)
Fixpoint add_permissions (roleID : uuid) (ids : list uuid) : rprog (option reply) :=
  match ids with
  | [] => Ret None
  | pid :: ids =>
      let! r := rdb (AddRolePermission roleID pid) in
      match r with
      | Err _ => Ret (Some (fiber_error 400 ("Invalid permission ID: " +:+ uuid_String pid)))
      | Ok _ => add_permissions roleID ids
      end
  end.

Definition CreateRole_handler (name description : string) (permission_ids : list string) : rprog reply :=
  match parseRolePermissionIDs permission_ids with
  | Err e => Ret e
  | Ok permissionIDs =>
      let! role := rdb (CreateRole name description) in
      match role with
      | Err RDuplicateKey => Ret (fiber_error 409 "Role name already exists")
      | Err _ => Ret (fiber_error 500 "Failed to create role")
      | Ok role =>
          let! err := add_permissions (ro_ID role) permissionIDs in
          match err with
          | Some e => Ret e
          | None =>
              do! rask (RAudit "role_created") in
              Ret {| rp_Status := 201; rp_Body := RoleBody role [] |}
          end
      end
  end.

(** [p.Has("permission_ids")]: replacing the permissions of the role. *)
Definition replace_permissions (id : uuid) (supplied : bool) (permissionIDs : list uuid) : rprog (option reply) :=
  if supplied then
    let! r := rdb (SetRolePermissions id) in
    match r with
    | Err _ => Ret (Some (fiber_error 500 "Failed to clear role permissions"))
    | Ok _ => add_permissions id permissionIDs
    end
  else Ret None.

Definition UpdateRole_handler (id : string) (name description : option string)
    (permission_ids : option (list string)) : rprog reply :=
  match parseParamUUID id with
  | Err e => Ret e
  | Ok id =>
      let! existing := find_role id in
      match existing with
      | Err e => Ret e
      | Ok existing =>
          if ro_IsBuiltin existing then Ret (fiber_error 403 "Cannot modify built-in roles")
          else
            let name := default (ro_Name existing) name in
            let description := default (ro_Description existing) description in
            match parseRolePermissionIDs (default [] permission_ids) with
            | Err e => Ret e
            | Ok permissionIDs =>
                let! role := rdb (UpdateRole id name description) in
                match role with
                | Err RDuplicateKey => Ret (fiber_error 409 "Role name already exists")
                | Err _ => Ret (fiber_error 500 "Failed to update role")
                | Ok role =>
                    let! err := replace_permissions id (bool_decide (is_Some permission_ids)) permissionIDs in
                    match err with
                    | Some e => Ret e
                    | None =>
                        do! invalidateRoleUsers id in
                        do! rask (RAudit "role_updated") in
                        Ret {| rp_Status := 200; rp_Body := RoleBody role [] |}
                    end
                end
            end
      end
  end.

Definition DeleteRole_handler (id : string) : rprog reply :=
  match parseParamUUID id with
  | Err e => Ret e
  | Ok id =>
      let! role := find_role id in
      match role with
      | Err e => Ret e
      | Ok role =>
          if ro_IsBuiltin role then Ret (fiber_error 403 "Cannot delete built-in roles")
          else
            do! invalidateRoleUsers id in
            let! r := rdb (DeleteRole id) in
            match r with
            | Err _ => Ret (fiber_error 500 "Failed to delete role")
            | Ok _ =>
                do! rask (RAudit "role_deleted") in
                Ret {| rp_Status := 204; rp_Body := NoBody |}
            end
      end
  end.

Definition ListPermissions_handler : rprog reply :=
  let! l := rdb ListPermissions in
  match l with
  | Err _ => Ret (fiber_error 500 "Failed to list permissions")
  | Ok l => Ret {| rp_Status := 200; rp_Body := PermissionsBody l |}
  end.

Definition ListUserRoles_handler (user_id : string) : rprog reply :=
  match parseParamUUID user_id with
  | Err e => Ret e
  | Ok userID =>
      let! rows := rdb (ListUserRoles userID) in
      match rows with
      | Err _ => Ret (fiber_error 500 "Failed to list user roles")
      | Ok rows => Ret {| rp_Status := 200; rp_Body := UserRolesBody rows |}
      end
  end.

Definition errScopeClusterMissing : string := "scope_id must name an existing cluster".
Definition assign_failed : reply := fiber_error 500 "Failed to assign role".

(** The scope of an assignment: the cluster has to exist. *)
Definition assignment_scope (scopeType scope_id : string) : rprog (result reply (option uuid)) :=
  if bool_decide (scopeType = "cluster") then
    match uuid_Parse scope_id with
    | None => Ret (Err (fiber_error 400 "scope_id is required for cluster scope"))
    | Some sid =>
        let! found := rdb (GetCluster sid) in
        match found with
        | Err RNoRows => Ret (Err (fiber_error 400 errScopeClusterMissing))
        | Err _ => Ret (Err assign_failed)
        | Ok _ => Ret (Ok (Some sid))
        end
    end
  else Ret (Ok None).

Definition assign_error (e : db_refusal) : reply :=
  match e with
  | RDuplicateKey => fiber_error 409 "Role already assigned with this scope"
  | RForeignKey key =>
      if bool_decide (key = scopeClusterKey) then fiber_error 400 errScopeClusterMissing else assign_failed
  | _ => assign_failed
  end.

Definition AssignUserRole_handler (user_id role_id scopeType scope_id : string) : rprog reply :=
  match parseParamUUID user_id with
  | Err e => Ret e
  | Ok userID =>
      if userID =? SystemUserID then Ret (fiber_error 403 "Cannot modify the system account")
      else match uuid_Parse role_id with
      | None => Ret (fiber_error 400 "role_id is required")
      | Some roleID =>
          if roleID =? uuid_Nil then Ret (fiber_error 400 "role_id is required")
          else
            let! scopeID := assignment_scope scopeType scope_id in
            match scopeID with
            | Err e => Ret e
            | Ok scopeID =>
                let! assignment := rdb (AssignUserRole {| ar_UserID := userID; ar_RoleID := roleID;
                  ar_ScopeType := scopeType; ar_ScopeID := scopeID |}) in
                match assignment with
                | Err e => Ret (assign_error e)
                | Ok assignment =>
                    do! InvalidateUser userID in
                    do! rask (RAudit "role_assigned") in
                    Ret {| rp_Status := 201; rp_Body := AssignmentBody assignment |}
                end
            end
      end
  end.

Definition RevokeUserRole_handler (user_id id : string) : rprog reply :=
  match parseParamUUID user_id with
  | Err e => Ret e
  | Ok userID =>
      if userID =? SystemUserID then Ret (fiber_error 403 "Cannot modify the system account")
      else match parseParamUUID id with
      | Err e => Ret e
      | Ok assignmentID =>
          let! r := rdb (RevokeUserRole assignmentID userID) in
          match r with
          | Err _ => Ret (fiber_error 500 "Failed to revoke role")
          | Ok _ =>
              do! InvalidateUser userID in
              do! rask (RAudit "role_revoked") in
              Ret {| rp_Status := 204; rp_Body := NoBody |}
          end
      end
  end.

Definition MyPermissions_handler (caller : option uuid) : rprog reply :=
  match caller with
  | None => Ret (fiber_error 401 "Authentication required")
  | Some userID =>
      let! perms := GetFlatPermissions userID in
      match perms with
      | Err _ => Ret (fiber_error 500 "Failed to get permissions")
      | Ok perms =>
          let! globals := GetGlobalPermissions userID in
          match globals with
          | Err _ => Ret (fiber_error 500 "Failed to get permissions")
          | Ok globals =>
              let! rows := rdb (ListUserRoles userID) in
              match rows with
              | Err _ => Ret (fiber_error 500 "Failed to list roles")
              | Ok rows => Ret {| rp_Status := 200; rp_Body := MineBody perms globals rows |}
              end
          end
      end
  end.

(** ** Roles that follow a directory *)

Definition assign_global (userID roleID : uuid) : rprog unit :=
  do! rdb (AssignUserRole {| ar_UserID := userID; ar_RoleID := roleID; ar_ScopeType := "global";
                             ar_ScopeID := None |}) in
  Ret tt.

(** [syncUserRoles] of the LDAP and of the OIDC handler; [assigned] is whether a
    group has matched. *)
Fixpoint sync_groups (userID : uuid) (groups : list string) (mapping : gmap string string) (assigned : bool) :
    rprog bool :=
  match groups with
  | [] => Ret assigned
  | group :: groups =>
      match mapping !! group with
      | None => sync_groups userID groups mapping assigned
      | Some roleIDStr =>
          match uuid_Parse roleIDStr with
          | None => sync_groups userID groups mapping assigned
          | Some roleID =>
              do! assign_global userID roleID in sync_groups userID groups mapping true
          end
      end
  end.

Definition syncUserRoles (userID : uuid) (groups : list string) (mapping : gmap string string)
    (defaultRoleID : option uuid) : rprog unit :=
  do! rdb (RevokeAllUserRoles userID) in
  let! assigned := sync_groups userID groups mapping false in
  do! match assigned, defaultRoleID with
      | false, Some defID => assign_global userID defID
      | _, _ => Ret tt
      end in
  InvalidateUser userID.

(** ** Removing a cluster: its assignments, and the caches of their users *)

Fixpoint forget_each (users : list uuid) (cleared : gset uuid) : rprog unit :=
  match users with
  | [] => Ret tt
  | u :: users =>
      if decide (u ∈ cleared) then forget_each users cleared
      else do! InvalidateUser u in forget_each users ({[u]} ∪ cleared)
  end.

Definition forgetPermissions (users : list uuid) : rprog unit := forget_each users ∅.

Definition delete_cluster (id : uuid) : rprog bool :=
  let! revoked := rdb (DeleteClusterAndScopedRoles id) in
  match revoked with
  | Err _ => do! rask (RAudit "cluster_deleted") in Ret false
  | Ok revoked =>
      do! forgetPermissions revoked in
      do! rask (RAudit "cluster_deleted") in Ret true
  end.

Definition sync_login (userID : uuid) (groups : list string) (mapping : gmap string string)
    (defaultRoleID : option uuid) : rprog unit :=
  do! rask (RInternal (LoginSync userID groups mapping defaultRoleID)) in
  syncUserRoles userID groups mapping defaultRoleID.

Definition remove_cluster (id : uuid) : rprog unit :=
  do! rask (RInternal (ClusterRemoval id)) in do! delete_cluster id in Ret tt.

(** ** Creating an account *)

(** [a0000000-0000-0000-0000-000000000001] and [-000000000003]: the built-in roles
    a new account gets. *)
Definition AdminRoleID : uuid := 0xa0000000000000000000000000000001.
Definition ViewerRoleID : uuid := 0xa0000000000000000000000000000003.

(** Ends the transaction of a registration that is refused. *)
Definition rolled_back {A} (e : reply) : rprog (result reply A) := do! rask (RTx TxRollback) in Ret (Err e).

(** The transaction of [Register], once the request has been checked: the new
    account and whether it is the first. [hashFailure] is the answer where
    [auth.HashPassword] fails. A statement of it takes effect at once here, and what a rollback takes
    away goes by [RElsewhere]. *)
Definition registered (callerRole email : string) (hashFailure : option reply) : rprog (result reply (uuid * bool)) :=
  let! begun := rask (RTx TxBegin) in
  if negb begun then Ret (Err (fiber_error 500 "Failed to start transaction"))
  else
    let! locked := rask (RTx TxLock) in
    if negb locked then rolled_back (fiber_error 500 "Failed to acquire registration lock")
    else
      let! count := rdb CountUsers in
      match count with
      | Err _ => rolled_back (fiber_error 500 "Failed to check user count")
      | Ok count =>
          let firstUser := count =? 0 in
          let role := if firstUser then "admin" else "user" in
          if negb firstUser && negb (bool_decide (callerRole = "admin"))
          then rolled_back (fiber_error 403 "Only admins can register new users")
          else match hashFailure with
          | Some e => rolled_back e
          | None =>
            let! user := rdb (CreateUser email role) in
            match user with
            | Err RDuplicateKey => rolled_back (fiber_error 409 "Email already registered")
            | Err _ => rolled_back (fiber_error 500 "Failed to create user")
            | Ok user =>
                let! committed := rask (RTx TxCommit) in
                if committed then Ret (Ok (user, firstUser))
                else rolled_back (fiber_error 500 "Failed to commit registration")
            end
          end
      end.

(** [Register], up to the role of the new account. *)
Definition register (callerRole email : string) (hashFailure : option reply) : rprog unit :=
  do! rask (RRegistering callerRole) in
  let! r := registered callerRole email hashFailure in
  match r with
  | Err _ => Ret tt
  | Ok (user, firstUser) => assign_global user (if firstUser then AdminRoleID else ViewerRoleID)
  end.

(** ** The routes *)

(** The permission a route declares; [MyPermissions] is the caller's own. *)
Definition route_gate (caller : option uuid) (r : rbac_request) : rprog (option reply) :=
  match r with
  | AnyOf refs cluster_id id => RequireAnyPermission refs caller cluster_id id
  | AllOf ref refs cluster_id id => all_gate (ref :: refs) caller cluster_id id
  | ListRolesRequest | GetRoleRequest _ | ListPermissionsRequest | ListUserRolesRequest _ =>
      RequirePermission caller "view" "role"
  | CreateRoleRequest _ _ _ | UpdateRoleRequest _ _ _ _ | DeleteRoleRequest _
  | AssignUserRoleRequest _ _ _ _ | RevokeUserRoleRequest _ _ => RequirePermission caller "manage" "role"
  | MyPermissionsRequest => Ret None
  end.

Definition route_handler (caller : option uuid) (r : rbac_request) : rprog reply :=
  match r with
  | AnyOf _ _ _ | AllOf _ _ _ _ => Ret {| rp_Status := 200; rp_Body := NoBody |}
  | ListRolesRequest => ListRoles_handler
  | GetRoleRequest id => GetRole_handler id
  | CreateRoleRequest name descr ids => CreateRole_handler name descr ids
  | UpdateRoleRequest id name descr ids => UpdateRole_handler id name descr ids
  | DeleteRoleRequest id => DeleteRole_handler id
  | ListPermissionsRequest => ListPermissions_handler
  | ListUserRolesRequest u => ListUserRoles_handler u
  | AssignUserRoleRequest u role st sid => AssignUserRole_handler u role st sid
  | RevokeUserRoleRequest u id => RevokeUserRole_handler u id
  | MyPermissionsRequest => MyPermissions_handler caller
  end.

Definition serve_role (caller : option uuid) (r : rbac_request) : rprog unit :=
  do! rask (RReceived caller r) in
  let! refused := route_gate caller r in
  let! a := match refused with Some e => Ret e | None => route_handler caller r end in
  rask (RRespond caller r a).
End handlers.
