(* ===== verification/RbacGrants.v ===== *)
(** * What a grant permits, in every form the code asks it

    The permissions read from the tables decide in Go ([has_permission],
    [access_of]) what the SQL of [CheckUserPermission] decides on the tables, and
    the filter of a listing agrees with the check of a row. *)

From S2P Require Import Prelude GoStrings Effects RbacDb RbacEngine.

Local Open Scope Z_scope.

Section grants.
Context `{UT : UuidText} `{UL : !UuidTextLaws} `{MR : MapRange}.

(** The rows that decide: those for the action and the resource. *)
Definition matches (action resource : string) (p : ScopedPermission) : bool :=
  bool_decide (sp_Action p = action) && bool_decide (sp_Resource p = resource).

Definition covers (scopeType : string) (scopeID : uuid) (p : ScopedPermission) : bool :=
  bool_decide (sp_ScopeType p = "global") ||
  bool_decide (sp_ScopeType p = scopeType) && bool_decide (sp_ScopeID p = uuid_String scopeID).

Lemma not_matches action resource p :
  negb (bool_decide (sp_Action p = action)) || negb (bool_decide (sp_Resource p = resource)) =
  negb (matches action resource p).
Proof. unfold matches. by rewrite negb_andb. Qed.

Lemma has_permission_exists perms action resource scopeType scopeID :
  has_permission perms action resource scopeType scopeID =
  existsb (λ p, matches action resource p && covers scopeType scopeID p) perms.
Proof.
  induction perms as [|p perms IH]; simpl; [done|]. rewrite not_matches, IH.
  unfold covers. destruct (matches _ _ p), (bool_decide (sp_ScopeType p = "global")); simpl; [done| |done..].
  by destruct (bool_decide (sp_ScopeType p = scopeType)), (bool_decide (sp_ScopeID p = uuid_String scopeID)).
Qed.

Lemma uuid_String_inj u v : uuid_String u = uuid_String v → u = v.
Proof.
  intros Huv. pose proof (uuid_Parse_String u) as Hu. rewrite Huv, uuid_Parse_String in Hu. congruence.
Qed.

Lemma uuid_String_nonempty u : uuid_String u ≠ "".
Proof. intros Hu. pose proof (uuid_Parse_String u) as Hp. rewrite Hu, uuid_Parse_empty in Hp. done. Qed.

Lemma existsb_perm {A} (f : A → bool) l l' : l ≡ₚ l' → existsb f l = existsb f l'.
Proof.
  intros Hp. apply eq_bool_prop_intro. rewrite !Is_true_true, !existsb_elem_of. by setoid_rewrite Hp.
Qed.

Lemma existsb_fmap {A B} (f : B → bool) (g : A → B) l : existsb f (g <$> l) = existsb (λ x, f (g x)) l.
Proof. induction l as [|x l IH]; csimpl; [done|]. by rewrite IH. Qed.

Lemma existsb_remove_dups `{EqDecision A} (f : A → bool) l : existsb f (remove_dups l) = existsb f l.
Proof.
  apply eq_bool_prop_intro. rewrite !Is_true_true, !existsb_elem_of. by setoid_rewrite elem_of_remove_dups.
Qed.

(** The text of a scope is that of an identifier exactly when the column is. *)
Lemma scope_text (sid : option uuid) (c : uuid) :
  bool_decide (match sid with Some s => uuid_String s | None => "" end = uuid_String c) = sql_eq sid (Some c).
Proof.
  destruct sid as [s|]; simpl.
  - destruct (Z.eqb_spec s c) as [->|Hne]; [by apply bool_decide_eq_true_2|].
    apply bool_decide_eq_false_2. by intros ?%uuid_String_inj.
  - apply bool_decide_eq_false_2. intros Hc. by eapply uuid_String_nonempty.
Qed.

Lemma existsb_ext_in {A} (f g : A → bool) l : (∀ x, x ∈ l → f x = g x) → existsb f l = existsb g l.
Proof.
  intros Hfg. induction l as [|x l IH]; simpl; [done|].
  rewrite (Hfg x) by left. rewrite IH; [done|]. intros. apply Hfg. by right.
Qed.

Lemma check_is_loaded userID action resource scopeType c d rows :
  rows ≡ₚ getUserScopedPermissions userID d →
  has_permission (to_scoped <$> rows) action resource scopeType c =
  checkUserPermission userID action resource scopeType (Some c) d.
Proof.
  intros Hrows. rewrite has_permission_exists, existsb_fmap, (existsb_perm _ _ _ Hrows).
  unfold getUserScopedPermissions. rewrite existsb_remove_dups, existsb_fmap.
  apply existsb_ext_in. intros [ur p] _. unfold matches, covers, to_scoped. simpl. by rewrite scope_text.
Qed.

(** A global check does not look at the scope. *)
Lemma check_global userID action resource c d :
  checkUserPermission userID action resource "global" c d =
  checkUserPermission userID action resource "global" None d.
Proof.
  apply existsb_ext_in. intros [ur p] _. simpl. f_equal.
  by destruct (bool_decide (ur_ScopeType ur = "global")), (sql_eq (ur_ScopeID ur) c), (sql_eq (ur_ScopeID ur) None).
Qed.

(** ** The clusters a caller may act on *)

Definition is_global (action resource : string) (p : ScopedPermission) : bool :=
  matches action resource p && bool_decide (sp_ScopeType p = "global").

Lemma access_HasGlobal perms action resource allowed :
  HasGlobal (access_of perms action resource allowed) = existsb (is_global action resource) perms.
Proof.
  revert allowed. induction perms as [|p perms IH]; intros allowed; simpl; [done|].
  unfold is_global at 1. rewrite not_matches. destruct (matches _ _ p); simpl; [|apply IH].
  destruct (bool_decide (sp_ScopeType p = "global")); simpl; [done|apply IH].
Qed.

(** A grant on one cluster. *)
Definition on (action resource : string) (c : uuid) (p : ScopedPermission) : bool :=
  matches action resource p && bool_decide (sp_ScopeType p = "cluster") &&
  bool_decide (sp_ScopeID p = uuid_String c).

(** What the texts of the scopes have to be: that of an identifier, or none. *)
Definition scope_texts (perms : UserPermissions) : Prop :=
  ∀ p, p ∈ perms → sp_ScopeID p = "" ∨ ∃ s, sp_ScopeID p = uuid_String s.

Lemma access_Allowed perms action resource allowed c :
  scope_texts perms → existsb (is_global action resource) perms = false →
  default false (Allowed (access_of perms action resource allowed) !! c) =
  default false (allowed !! c) || existsb (on action resource c) perms.
Proof.
  revert allowed. induction perms as [|p perms IH]; intros allowed Hs Hg; simpl; [by rewrite orb_false_r|].
  simpl in Hg. apply orb_false_iff in Hg as [Hp Hg].
  assert (scope_texts perms) as Hs' by (intros q Hq; apply Hs; by right).
  unfold is_global in Hp. unfold on at 1. rewrite not_matches.
  destruct (matches action resource p); simpl in *; [|by apply IH]. rewrite Hp, IH by done.
  destruct (bool_decide (sp_ScopeType p = "cluster")); simpl; [|done].
  destruct (Hs p (list_elem_of_here _ _)) as [->|[s ->]].
  - rewrite bool_decide_eq_true_2 by done. simpl.
    rewrite bool_decide_eq_false_2; [done|]. intros Hc. by eapply uuid_String_nonempty.
  - rewrite (bool_decide_eq_false_2 (uuid_String s = "")) by apply uuid_String_nonempty. simpl.
    rewrite uuid_Parse_String. destruct (decide (s = c)) as [->|Hne].
    + rewrite lookup_insert_eq, bool_decide_eq_true_2 by done. simpl. by rewrite orb_true_r.
    + rewrite lookup_insert_ne by done. rewrite bool_decide_eq_false_2; [done|]. by intros ?%uuid_String_inj.
Qed.

Lemma to_scoped_texts rows : scope_texts (to_scoped <$> rows).
Proof.
  intros p (r & -> & _)%list_elem_of_fmap. simpl. destruct (sr_ScopeID r); [right; by eexists|by left].
Qed.

Lemma existsb_orb {A} (f g : A → bool) l : existsb (λ x, f x || g x) l = existsb f l || existsb g l.
Proof.
  induction l as [|x l IH]; simpl; [done|]. rewrite IH. by destruct (f x), (g x), (existsb f l).
Qed.

Lemma permits_is_checked perms action resource c :
  scope_texts perms →
  PermitsCluster (access_of perms action resource ∅) c = has_permission perms action resource "cluster" c.
Proof.
  intros Hs. rewrite has_permission_exists. unfold PermitsCluster. rewrite access_HasGlobal.
  rewrite (existsb_ext_in (λ p, matches action resource p && covers "cluster" c p)
             (λ p, is_global action resource p || on action resource c p)).
  { rewrite existsb_orb. destruct (existsb (is_global action resource) perms) eqn:Hg; [done|].
    rewrite access_Allowed by done. by rewrite lookup_empty. }
  intros p _. unfold covers, is_global, on. by destruct (matches action resource p).
Qed.

Lemma scoped_id a l c : ScopedIDs a = Some l → contains l c = PermitsCluster a c.
Proof.
  unfold ScopedIDs, PermitsCluster. destruct (HasGlobal a); [done|]. intros [= <-].
  apply eq_bool_prop_intro. rewrite !Is_true_true, contains_spec, list_elem_of_fmap. split.
  - intros ([k b] & -> & Hk). apply elem_of_bfilter in Hk as [Hk Hb]. simpl in *. subst b.
    apply elem_of_go_range in Hk. by rewrite Hk.
  - destruct (Allowed a !! c) as [[]|] eqn:Hc; simpl; [|done..]. intros _. exists (c, true). split; [done|].
    apply elem_of_bfilter. split; [by apply elem_of_go_range|done].
Qed.

(** The rows the database may answer with: in any order. *)
Definition rows_of (userID : uuid) (d : RbacTables) (rows : list ScopedRow) : Prop :=
  rows ≡ₚ getUserScopedPermissions userID d.

(** C9: One grant, one answer. On the permissions read from the tables, in
    whatever order the rows come: the check of a cluster and the global check
    answer what [CheckUserPermission] answers in SQL; the set of clusters a
    listing is narrowed to permits a cluster exactly when the check of that cluster
    does; the SQL filter made of the set shows a row exactly when the row's own
    check would, and a row of no cluster only to a holder of the global grant; and
    the listing is skipped exactly when the filter could show no row at all. *)
Theorem permissions_agree d userID action resource rows c :
  rows_of userID d rows →
  let perms := to_scoped <$> rows in
  let access := access_of perms action resource ∅ in
  let '(ids, query) := clusterScopeFilter access in
  has_permission perms action resource "cluster" c =
    checkUserPermission userID action resource "cluster" (Some c) d ∧
  has_permission perms action resource "global" uuid_Nil =
    checkUserPermission userID action resource "global" None d ∧
  PermitsCluster access c = has_permission perms action resource "cluster" c ∧
  row_in_scope ids (Some c) = has_permission perms action resource "cluster" c ∧
  row_in_scope ids None = has_permission perms action resource "global" uuid_Nil ∧
  (query = false ↔ ∀ cluster, row_in_scope ids cluster = false).
Proof.
  intros Hrows. simpl. set (perms := to_scoped <$> rows). set (access := access_of perms action resource ∅).
  assert (PermitsCluster access c = has_permission perms action resource "cluster" c) as Hpermits.
  { apply permits_is_checked, to_scoped_texts. }
  assert (HasGlobal access = has_permission perms action resource "global" uuid_Nil) as Hglobal.
  { unfold access. rewrite access_HasGlobal, has_permission_exists. apply existsb_ext_in.
    intros p _. unfold is_global, covers. by destruct (matches _ _ p), (bool_decide (sp_ScopeType p = "global")). }
  split_and!; [by apply check_is_loaded| |done| | |].
  - unfold perms. rewrite (check_is_loaded _ _ _ _ _ _ _ Hrows). apply check_global.
  - rewrite <-Hpermits. destruct (ScopedIDs access) as [l|] eqn:Hl; simpl; [by apply scoped_id|].
    unfold ScopedIDs in Hl. unfold PermitsCluster. by destruct (HasGlobal access).
  - rewrite <-Hglobal. unfold ScopedIDs. by destruct (HasGlobal access).
  - unfold ScopedIDs. destruct (HasGlobal access); simpl.
    + split; [done|]. intros Hall. by specialize (Hall None).
    + rewrite negb_false_iff, bool_decide_eq_true. split.
      * intros ->. by intros [?|].
      * intros Hall. apply elem_of_nil_inv. intros x Hx. specialize (Hall (Some x)). simpl in Hall.
        by apply contains_false in Hall.
Qed.
End grants.
