(* ===== verification/RbacHistory.v ===== *)
(** * Permissions while they change

    What PostgreSQL and Redis may answer ([step]), what a call owes the history so
    far ([pre]), the invariant ([RInv]), and that every request, login, removal of a
    cluster and registration keeps its part ([safe_serve_role], [safe_internal],
    [safe_register]), whatever runs at the same time.

    A statement runs on its own and takes effect at once or not at all; one that
    fails for another reason than a constraint may have taken effect. A Redis
    command takes effect, if it does, before its answer. An entry is gone from the
    time it expires, and may be gone before. *)

From S2P Require Import Prelude GoStrings Effects Logs RbacDb RbacEngine RbacHandlers RbacGrants.

Local Open Scope Z_scope.

(** ** The outside *)

(** One call: when, by which thread, the call and its answer, and the tables after
    it. *)
Record entry := En { en_time : Z; en_thread : nat; en_event : event ROp; en_tables : RbacTables }.

(** [r_log] is newest first. *)
Record RSys := {
  r_tables : RbacTables; r_cache : gmap uuid (UserPermissions * Z); r_clock : Z; r_log : list entry }.

Definition query_answer {A} (q : rquery A) (d : RbacTables) (x : result db_refusal A) (d' : RbacTables) : Prop :=
  ∃ fresh, roles d !! fresh = None ∧ user_roles d !! fresh = None ∧ accounts d !! fresh = None ∧
    match exec q fresh d with
    | Ok (d1, y) =>
        (∃ z, same_answer q z y ∧ x = Ok z ∧ d' = d1) ∨ (x = Err ROther ∧ (d' = d ∨ d' = d1))
    | Err e => d' = d ∧ (x = Err e ∨ x = Err ROther)
    end.

(** Whatever else the server does: accounts and clusters come and go, and with an
    account its assignments. *)
Definition elsewhere (d d' : RbacTables) : Prop :=
  roles d' = roles d ∧ permissions d' = permissions d ∧ role_permissions d' = role_permissions d ∧
  user_roles d' ⊆ user_roles d ∧
  ∀ id ur, user_roles d !! id = Some ur → user_roles d' !! id = None → accounts d' !! ur_UserID ur = None.

Definition may_answer {X} (e : ROp X) (t : Z) (s : RSys) (x : X) (d' : RbacTables)
    (c' : gmap uuid (UserPermissions * Z)) : Prop :=
  match e in ROp X return X → Prop with
  | RQuery q => λ x, query_answer q (r_tables s) x d' ∧ c' = r_cache s
  | RGet u => λ x, d' = r_tables s ∧ c' = r_cache s ∧
      (x = None ∨ ∃ perms ends, r_cache s !! u = Some (perms, ends) ∧ t < ends ∧ x = Some perms)
  | RSet u perms ttl => λ _, d' = r_tables s ∧
      (c' = r_cache s ∨ c' = <[u := (perms, t + ttl)]> (r_cache s))
  | RDel u => λ x, d' = r_tables s ∧ (c' = delete u (r_cache s) ∨ x = false ∧ c' = r_cache s)
  | RElsewhere => λ _, elsewhere (r_tables s) d' ∧ c' ⊆ r_cache s
  | _ => λ _, d' = r_tables s ∧ c' = r_cache s
  end x.

Definition step (i : nat) (X : Type) (e : ROp X) (s : RSys) (x : X) (s' : RSys) : Prop :=
  ∃ t d' c', r_clock s ≤ t ∧ may_answer e t s x d' c' ∧
    s' = {| r_tables := d'; r_cache := c'; r_clock := t; r_log := En t i (Ev e x) d' :: r_log s |}.

(** ** What the history says *)

(** The user whose cache entry Redis has acknowledged to have deleted. *)
Definition deletes (e : entry) : option uuid :=
  match en_event e with
  | @Ev _ X op x =>
      match op in ROp X return X → option uuid with
      | RDel u => λ b, if b then Some u else None
      | _ => λ _, None
      end x
  end.

(** The request a thread begins with. *)
Definition request_of (e : entry) : option (option uuid * rbac_request) :=
  match en_event e with
  | @Ev _ X op _ => match op with RReceived c r => Some (c, r) | _ => None end
  end.

(** The work of the server a thread does, and the role of the caller for whom it
    creates an account. *)
Definition internal_work (e : entry) : option server_work :=
  match en_event e with @Ev _ X op _ => match op with RInternal w => Some w | _ => None end end.

Definition registering (e : entry) : option string :=
  match en_event e with @Ev _ X op _ => match op with RRegistering r => Some r | _ => None end end.

(** The statements that change roles or assignments. *)
Definition writes {A} (q : rquery A) : bool :=
  match q with
  | CreateRole _ _ | UpdateRole _ _ _ | DeleteRole _ | AddRolePermission _ _ | SetRolePermissions _
  | AssignUserRole _ | RevokeUserRole _ _ | RevokeAllUserRoles _ | DeleteClusterAndScopedRoles _ => true
  | _ => false
  end.

Definition serves (i : nat) (c : option uuid) (r : rbac_request) (l : list entry) : Prop :=
  ∃ e, e ∈ l ∧ en_thread e = i ∧ request_of e = Some (c, r).

Definition works (i : nat) (w : server_work) (l : list entry) : Prop :=
  ∃ e, e ∈ l ∧ en_thread e = i ∧ internal_work e = Some w.

Definition registers (i : nat) (callerRole : string) (l : list entry) : Prop :=
  ∃ e, e ∈ l ∧ en_thread e = i ∧ registering e = Some callerRole.

(** Thread [i] made the call [op] and was answered [x]. *)
Definition answered (i : nat) {X} (op : ROp X) (x : X) (l : list entry) : Prop :=
  ∃ e, e ∈ l ∧ en_thread e = i ∧ en_event e = Ev op x.

Section history.
Context `{UT : UuidText} `{UL : !UuidTextLaws} `{CFG : RbacConfig}.

(** Thread [i] read the permissions of [u] from the tables [d]. *)
Definition read_rows (i : nat) (u : uuid) (perms : UserPermissions) (d : RbacTables) (e : entry) : Prop :=
  ∃ t rows, e = En t i (Ev (RQuery (GetUserScopedPermissions u)) (Ok rows)) d ∧
    rows ≡ₚ getUserScopedPermissions u d ∧ perms = to_scoped <$> rows.

(** Where the permissions thread [i] decides by come from. Either it read them
    itself, or a thread [j] read them and stored them, no deletion of the entry was
    acknowledged between then and the time thread [i] got them, and that was less
    than the life of an entry after they were stored. *)
Inductive from_tables (i : nat) (u : uuid) (perms : UserPermissions) (d : RbacTables) : list entry → Prop :=
| from_read la e lb : read_rows i u perms d e → from_tables i u perms d (la ++ e :: lb)
| from_cache la tg dg lx j t1 d1 lc e lb :
    read_rows j u perms d e →
    (∀ x, x ∈ lx → deletes x ≠ Some u) →
    tg < t1 + rbacCacheTTL →
    from_tables i u perms d
      (la ++ En tg i (Ev (RGet u) (Some perms)) dg ::
       lx ++ En t1 j (Ev (RSet u perms rbacCacheTTL) tt) d1 :: lc ++ e :: lb).

(** Thread [i] decided by permissions of [u] that were read when the tables
    granted [ref]. *)
Definition ref_backed (i : nat) (u clusterID : uuid) (ref : PermissionRef) (l : list entry) : Prop :=
  ∃ perms d, from_tables i u perms d l ∧
    checkUserPermission u (pr_Action ref) (pr_Resource ref)
      (if pr_ClusterScoped ref then "cluster" else "global")
      (if pr_ClusterScoped ref then Some clusterID else None) d = true.

Definition role_ref (action : string) : PermissionRef :=
  {| pr_Action := action; pr_Resource := "role"; pr_ClusterScoped := false |}.

(** What the gate of a request asks for: all of these. *)
Definition refs_of (r : rbac_request) : list PermissionRef :=
  match r with
  | AnyOf refs _ _ => refs
  | AllOf ref refs _ _ => ref :: refs
  | ListRolesRequest | GetRoleRequest _ | ListPermissionsRequest | ListUserRolesRequest _ => [role_ref "view"]
  | MyPermissionsRequest => []
  | _ => [role_ref "manage"]
  end.

Definition path_of (r : rbac_request) : string * string :=
  match r with AnyOf _ a b | AllOf _ _ a b => (a, b) | _ => ("", "") end.

(** The caller [c] was let through to what [r] asks for. *)
Definition backed (i : nat) (c : option uuid) (r : rbac_request) (l : list entry) : Prop :=
  r = MyPermissionsRequest ∨
  ∃ u clusterID, c = Some u ∧ resolved (refs_of r) (path_of r).1 (path_of r).2 = Ok clusterID ∧
    match r with
    | AnyOf refs _ _ => ∃ ref, ref ∈ refs ∧ ref_backed i u clusterID ref l
    | _ => ∀ ref, ref ∈ refs_of r → ref_backed i u clusterID ref l
    end.

(** A revocation that was answered: its statement, then the deletion of the cache
    entry, with the answer of Redis. *)
Definition revoked (k : nat) (id u : uuid) (b : bool) (l lb : list entry) : Prop :=
  ∃ la td dd lx tq dq, l = la ++ En td k (Ev (RDel u) b) dd ::
    lx ++ En tq k (Ev (RQuery (RevokeUserRole id u)) (Ok tt)) dq :: lb.

Definition revoke_promise (i : nat) (r : rbac_request) (l : list entry) : Prop :=
  match r with
  | RevokeUserRoleRequest su sid => RedisWired = true →
      ∃ u id b lb, uuid_Parse su = Some u ∧ uuid_Parse sid = Some id ∧ revoked i id u b l lb
  | _ => True
  end.

(** ** What a call owes, and the invariant *)

(** The statements on roles that belong to a work of the server. A login takes away
    all roles of its user and gives, everywhere, those that the mapping has for the
    groups of the user, or the default; a removal removes its cluster. *)
Definition does (w : server_work) {A} (q : rquery A) : Prop :=
  match w with
  | LoginSync u groups mapping dflt =>
      match q with
      | RevokeAllUserRoles v => v = u
      | AssignUserRole arg => ar_UserID arg = u ∧ ar_ScopeType arg = "global" ∧ ar_ScopeID arg = None ∧
          (dflt = Some (ar_RoleID arg) ∨
           ∃ g text, g ∈ groups ∧ mapping !! g = Some text ∧ uuid_Parse text = Some (ar_RoleID arg))
      | _ => False
      end
  | ClusterRemoval id => match q with DeleteClusterAndScopedRoles c => c = id | _ => False end
  end.

(** The role of an account that thread [i] has created: Admin, where it had counted
    no account before, or Viewer, for a caller who is an administrator. *)
Definition new_account_role (i : nat) {A} (q : rquery A) (l : list entry) : Prop :=
  match q with
  | AssignUserRole arg => ar_ScopeType arg = "global" ∧ ar_ScopeID arg = None ∧
      ∃ callerRole email role, registers i callerRole l ∧
        answered i (RQuery (CreateUser email role)) (Ok (ar_UserID arg)) l ∧
        (ar_RoleID arg = AdminRoleID ∧ answered i (RQuery CountUsers) (Ok 0) l ∨
         ar_RoleID arg = ViewerRoleID ∧ callerRole = "admin")
  | _ => False
  end.

(** The thread does work of the server that the statement belongs to, gives an
    account it has created its role, or serves a caller whose right to manage roles
    it has checked. *)
Definition manager (i : nat) (l : list entry) : Prop :=
  ∃ u r, serves i (Some u) r l ∧ ref_backed i u uuid_Nil (role_ref "manage") l.

Definition may_write (i : nat) {A} (q : rquery A) (l : list entry) : Prop :=
  (∃ w, works i w l ∧ does w q) ∨ new_account_role i q l ∨ manager i l.

Definition pre (i : nat) (X : Type) (e : ROp X) (s : RSys) : Prop :=
  match e with
  | RQuery q => writes q = true → may_write i q (r_log s)
  | RSet u perms ttl => ttl = rbacCacheTTL ∧ ∃ e0 d, e0 ∈ r_log s ∧ read_rows i u perms d e0
  | RReceived _ _ => i ∉ en_thread <$> r_log s
  | RRespond c r a => rp_Status a < 300 → backed i c r (r_log s) ∧ revoke_promise i r (r_log s)
  | _ => True
  end.

(** What is left of it in the history. *)
Definition entry_ok (e : entry) (l : list entry) : Prop :=
  match en_event e with
  | @Ev _ X op _ =>
      match op with
      | RQuery q => writes q = true → may_write (en_thread e) q l
      | RReceived _ _ => en_thread e ∉ en_thread <$> l
      | RRespond c r a => rp_Status a < 300 → backed (en_thread e) c r l ∧ revoke_promise (en_thread e) r l
      | _ => True
      end
  end.

(** An entry of the cache was stored by a thread that had read it, and no deletion
    of it was acknowledged since. *)
Definition cache_ok (s : RSys) : Prop :=
  ∀ u perms ends, r_cache s !! u = Some (perms, ends) →
    ∃ lx t1 j d1 lc e lb d, r_log s = lx ++ En t1 j (Ev (RSet u perms rbacCacheTTL) tt) d1 :: lc ++ e :: lb ∧
      read_rows j u perms d e ∧ (∀ x, x ∈ lx → deletes x ≠ Some u) ∧ ends = t1 + rbacCacheTTL.

Definition RInv (s : RSys) : Prop := ForallTail entry_ok (r_log s) ∧ cache_ok s.

Lemma cache_keep s t i ev d' (c' : gmap uuid (UserPermissions * Z)) :
  cache_ok s → c' ⊆ r_cache s → (∀ u, deletes (En t i ev d') = Some u → c' !! u = None) →
  cache_ok {| r_tables := d'; r_cache := c'; r_clock := t; r_log := En t i ev d' :: r_log s |}.
Proof.
  intros Hs Hc Hd u perms ends Hu. simpl in *.
  destruct (Hs u perms ends) as (lx & t1 & j & d1 & lc & e & lb & d & Hl & Hr & Hx & He).
  { by eapply lookup_weaken. }
  exists (En t i ev d' :: lx), t1, j, d1, lc, e, lb, d. rewrite Hl. split_and!; [done|done| |done].
  intros y [->|Hy]%elem_of_cons; [|by apply Hx]. intros Hdel. rewrite (Hd u Hdel) in Hu. done.
Qed.

Lemma cache_stored s t i u perms d' e0 d :
  cache_ok s → e0 ∈ r_log s → read_rows i u perms d e0 →
  cache_ok {| r_tables := d'; r_cache := <[u := (perms, t + rbacCacheTTL)]> (r_cache s); r_clock := t;
              r_log := En t i (Ev (RSet u perms rbacCacheTTL) tt) d' :: r_log s |}.
Proof.
  intros Hs He Hr v perms' ends Hv. simpl in *. destruct (decide (u = v)) as [<-|Hne].
  - rewrite lookup_insert_eq in Hv. injection Hv as <- <-.
    apply list_elem_of_split in He as (lc & lb & Hl).
    exists [], t, i, d', lc, e0, lb, d. rewrite Hl. split_and!; [done|done| |done]. by intros x ?%not_elem_of_nil.
  - rewrite lookup_insert_ne in Hv by done.
    destruct (Hs v perms' ends Hv) as (lx & t1 & j & d1 & lc & e & lb & d2 & Hl & Hr' & Hx & Hend).
    eexists (_ :: lx), t1, j, d1, lc, e, lb, d2. rewrite Hl. split_and!; [done|done| |done].
    by intros y [->|Hy]%elem_of_cons; [|apply Hx].
Qed.

Lemma RInv_step i X (e : ROp X) s x s' : RInv s → pre i X e s → step i X e s x s' → RInv s'.
Proof.
  intros [Hl Hc] Hp (t & d' & c' & _ & Ha & ->). split; simpl.
  { split; [|done]. unfold entry_ok. simpl. destruct e; simpl in *; auto. }
  destruct e; simpl in *; try (destruct Ha as [_ ->]; by apply cache_keep).
  - destruct Ha as (_ & -> & _). by apply cache_keep.
  - destruct Hp as (-> & e0 & d & He & Hr). destruct Ha as [_ [->| ->]]; [by apply cache_keep|].
    destruct x. by eapply cache_stored.
  - destruct Ha as [_ [->|[-> ->]]]; apply cache_keep; try done.
    + apply delete_subseteq.
    + unfold deletes. simpl. intros v. destruct x; [|done]. intros [= <-]. apply lookup_delete_eq.
  - destruct Ha as [_ Hsub]. by apply cache_keep.
Qed.

(** ** Facts the history keeps *)

Definition logged_entry (i : nat) (X : Type) (e : ROp X) (x : X) (s : RSys) : entry := En (r_clock s) i (Ev e x) (r_tables s).

Lemma step_log i X (e : ROp X) s x s' : step i X e s x s' → r_log s' = logged_entry i X e x s' :: r_log s.
Proof. by intros (t & d' & c' & _ & _ & ->). Qed.

Lemma log_stable i P : grows P → stable step pre RInv i (λ s, P (r_log s)).
Proof. apply (grows_stable _ _ _ _ _ step_log). Qed.

Lemma grows_from_tables i u perms d : grows (from_tables i u perms d).
Proof.
  intros e l []; [by apply (from_read _ _ _ _ (e :: la))|].
  by eapply (from_cache _ _ _ _ (e :: la)).
Qed.

Lemma grows_ref_backed i u c ref : grows (ref_backed i u c ref).
Proof.
  apply grows_exists. intros perms. apply grows_exists. intros d.
  apply grows_and; [apply grows_from_tables|apply grows_const].
Qed.

Lemma grows_backed i c r : grows (backed i c r).
Proof.
  intros e l [->|(u & cid & Hc & Hr & H)]; [by left|]. right. exists u, cid. split_and!; [done..|].
  destruct r; try (intros ref1 Href1; by apply grows_ref_backed, H).
  destruct H as (ref & ? & ?). exists ref. split; [done|]. by apply grows_ref_backed.
Qed.

Lemma grows_serves i c r : grows (serves i c r).
Proof. apply (grows_elem (λ e, en_thread e = i ∧ request_of e = Some (c, r))). Qed.

Lemma grows_works i w : grows (works i w).
Proof. apply (grows_elem (λ e, en_thread e = i ∧ internal_work e = Some w)). Qed.

Lemma grows_registers i r : grows (registers i r).
Proof. apply (grows_elem (λ e, en_thread e = i ∧ registering e = Some r)). Qed.

Lemma grows_answered i {X} (op : ROp X) x : grows (answered i op x).
Proof. apply (grows_elem (λ e, en_thread e = i ∧ en_event e = Ev op x)). Qed.

Lemma grows_new_account_role i {A} (q : rquery A) : grows (new_account_role i q).
Proof.
  intros e l Hl. destruct q; try done. destruct Hl as (? & ? & cr & em & ro & ? & ? & Hl).
  split_and!; [done..|]. exists cr, em, ro. split_and!; [by apply grows_registers|by apply grows_answered|].
  destruct Hl as [[? ?]|?]; [left; split; [done|by apply grows_answered]|by right].
Qed.

Lemma grows_manager i : grows (manager i).
Proof. intros e l (u & r & Hs & Hb). exists u, r. split; [by apply grows_serves|by apply grows_ref_backed]. Qed.

Lemma grows_may_write i {A} (q : rquery A) : grows (may_write i q).
Proof.
  intros e l [(w & H & Hd)|[H|H]].
  - left. exists w. split; [by apply grows_works|done].
  - right. left. by apply grows_new_account_role.
  - right. right. by apply grows_manager.
Qed.

Lemma grows_revoked k id u b lb : grows (λ l, revoked k id u b l lb).
Proof.
  intros e l (la & td & dd & lx & tq & dq & ->). by exists (e :: la), td, dd, lx, tq, dq.
Qed.

(** ** Verifying a thread *)

Abbreviation rsafe := (safe step pre RInv).

Lemma safe_rask i {X} (e : ROp X) (P : list entry → Prop) (Q : X → list entry → Prop) s :
  grows P → P (r_log s) → (∀ x, grows (Q x)) →
  (∀ s1, P (r_log s1) → pre i X e s1) →
  (∀ s1 x s2, RInv s1 → P (r_log s1) → step i X e s1 x s2 → Q x (r_log s2)) →
  rsafe i (rask e) (λ x s, Q x (r_log s)) s.
Proof.
  intros HP Hs HQ Hpre Hpost. apply (safe_call _ _ _ _ _ (λ s, P (r_log s))); [by apply log_stable|done| |auto|].
  - intros x. by apply (log_stable i (Q x)).
  - intros s1 x s2 HI Hl Hst _. by eapply Hpost.
Qed.

Lemma safe_next i {A B} (p : rprog A) (f : A → rprog B) R Q s :
  rsafe i p R s → (∀ a s', R a s' → rsafe i (f a) Q s') → rsafe i (bind p f) Q s.
Proof. apply lsafe_next. Qed.

Lemma safe_keep i {A} (p : rprog A) Q (P : list entry → Prop) s :
  grows P → P (r_log s) → rsafe i p Q s → rsafe i p (λ a s, Q a s ∧ P (r_log s)) s.
Proof.
  intros HP. apply (safe_frame _ _ _ i p Q (λ s, P (r_log s))).
  intros j X e s1 x s2 _ _ Hst Hl. rewrite (step_log _ _ _ _ _ _ Hst). by apply HP.
Qed.

(** A thread that may write all it writes. *)
Lemma safe_under i {A} (p : rprog A) (P : list entry → Prop) (Q : A → Prop) s :
  grows P → calls_ok (λ X e, ∀ s, P (r_log s) → pre i X e s) (λ _ _ _, True) p Q →
  P (r_log s) → rsafe i p (λ a s, Q a ∧ P (r_log s)) s.
Proof. apply (lsafe_under _ _ _ _ _ step_log). Qed.

(** ** The gates *)

Lemma from_tables_check i u perms d l action resource scopeType c :
  from_tables i u perms d l →
  has_permission perms action resource scopeType c = checkUserPermission u action resource scopeType (Some c) d.
Proof. intros [??? (? & ? & _ & ? & ->)|?????????? (? & ? & _ & ? & ->) _ _]; by apply check_is_loaded. Qed.

(** Nothing is known yet. *)
Definition nothing (l : list entry) : Prop := True.

Definition sourced (i : nat) (u : uuid) (perms : UserPermissions) (l : list entry) : Prop :=
  ∃ d, from_tables i u perms d l.

Lemma grows_sourced i u perms : grows (sourced i u perms).
Proof. apply grows_exists. intros d. apply grows_from_tables. Qed.

Lemma safe_RGet i u s :
  rsafe i (rask (RGet u)) (λ x s, ∀ perms, x = Some perms → sourced i u perms (r_log s)) s.
Proof.
  apply (safe_rask i (RGet u) nothing (λ x l, ∀ perms, x = Some perms → sourced i u perms l)); try done.
  { intros x. apply grows_forall. intros perms. apply grows_impl, grows_sourced. }
  intros s1 x s2 [_ Hc] _ (t & d' & c' & _ & (_ & _ & Hx) & ->) perms ->. simpl.
  destruct Hx as [|(perms' & ends & Hu & Ht & [= <-])]; [done|].
  destruct (Hc u perms ends Hu) as (lx & t1 & j & d1 & lc & e & lb & d & -> & Hr & Hx & ->).
  exists d. by eapply (from_cache _ _ _ _ []).
Qed.

Lemma safe_read_rows i u s :
  rsafe i (rdb (GetUserScopedPermissions u))
    (λ x s, ∀ rows, x = Ok rows → ∃ e d, e ∈ r_log s ∧ read_rows i u (to_scoped <$> rows) d e) s.
Proof.
  apply (safe_rask i (RQuery (GetUserScopedPermissions u)) nothing
    (λ x l, ∀ rows, x = Ok rows → ∃ e d, e ∈ l ∧ read_rows i u (to_scoped <$> rows) d e)); try done.
  { intros x e l Hl rows Hx. destruct (Hl rows Hx) as (e0 & d & ? & ?). exists e0, d. split; [by right|done]. }
  intros s1 x s2 _ _ (t & d' & c' & _ & [(fresh & _ & _ & _ & Hx) _] & ->) rows ->. simpl in *.
  destruct Hx as [(z & Hz & [= ->] & ->)|[? _]]; [|done].
  eexists _, _. split; [left|]. by exists t, z.
Qed.

Lemma safe_LoadUserPermissions i u s :
  rsafe i (LoadUserPermissions u) (λ x s, ∀ perms, x = Ok perms → sourced i u perms (r_log s)) s.
Proof.
  unfold LoadUserPermissions.
  apply (safe_next i _ _ (λ x s, ∀ perms, x = Some perms → sourced i u perms (r_log s))).
  { destruct RedisWired; [apply safe_RGet|]. by apply safe_ret; [intros ??|]. }
  intros [perms|] s1 Hc.
  { apply safe_ret; [|by intros perms' [= <-]; apply Hc].
    apply (log_stable i (λ l, ∀ perms', Ok perms = Ok perms' → sourced i u perms' l)).
    apply grows_forall. intros. apply grows_impl, grows_sourced. }
  eapply safe_next; [apply safe_read_rows|]. simpl. intros [rows|err] s2 Hr.
  2: { by apply safe_ret; [intros ??|]. }
  destruct (Hr rows eq_refl) as (e & d & He & Hread).
  apply (safe_next i _ _ (λ _ s, sourced i u (to_scoped <$> rows) (r_log s))).
  - destruct RedisWired.
    + apply (safe_rask i (RSet u (to_scoped <$> rows) rbacCacheTTL)
        (λ l, ∃ e, e ∈ l ∧ read_rows i u (to_scoped <$> rows) d e)
        (λ _ l, sourced i u (to_scoped <$> rows) l)).
      * apply grows_elem.
      * by exists e.
      * intros _. apply grows_sourced.
      * intros s3 (e3 & He3 & Hr3). split; [done|]. by exists e3, d.
      * intros s3 [] s4 _ (e3 & (la & lb & He3)%list_elem_of_split & Hr3) Hst.
        rewrite (step_log _ _ _ _ _ _ Hst). exists d. rewrite He3.
        by apply (from_read i u _ d (_ :: la)).
    + apply safe_ret; [apply (log_stable i (sourced i u _)), grows_sourced|].
      apply list_elem_of_split in He as (la & lb & ->). exists d. by apply from_read.
  - intros [] s3 Hs. apply safe_ret; [|by intros ? [= <-]].
    apply (log_stable i (λ l, ∀ perms, Ok (to_scoped <$> rows) = Ok perms → sourced i u perms l)).
    apply grows_forall. intros. apply grows_impl, grows_sourced.
Qed.

(** What a check that answers yes rests on. *)
Definition held (i : nat) (u : uuid) (action resource scopeType : string) (c : option uuid) (l : list entry) : Prop :=
  ∃ perms d, from_tables i u perms d l ∧ checkUserPermission u action resource scopeType c d = true.

Lemma grows_held i u action resource scopeType c : grows (held i u action resource scopeType c).
Proof.
  apply grows_exists. intros perms. apply grows_exists. intros d.
  apply grows_and; [apply grows_from_tables|apply grows_const].
Qed.

Lemma safe_HasPermission i u action resource scopeType c s :
  rsafe i (HasPermission u action resource scopeType c)
    (λ x s, x = Ok true → held i u action resource scopeType (Some c) (r_log s)) s.
Proof.
  eapply safe_next; [apply safe_LoadUserPermissions|]. simpl. intros [perms|err] s1 Hs.
  2: { by apply safe_ret; [intros ??|]. }
  apply safe_ret.
  - eapply (log_stable i (λ l, _ → held _ _ _ _ _ _ l)), grows_impl, grows_held.
  - intros [= Hh]. destruct (Hs perms eq_refl) as [d Hd]. exists perms, d. split; [done|].
    by rewrite <-(from_tables_check _ _ _ _ _ _ _ _ _ Hd).
Qed.

Lemma held_global i u action resource c l :
  held i u action resource "global" c l → held i u action resource "global" None l.
Proof. intros (perms & d & Hd & Hc). exists perms, d. split; [done|]. by rewrite check_global in Hc. Qed.

Lemma safe_HasGlobalPermission i u action resource s :
  rsafe i (HasGlobalPermission u action resource)
    (λ x s, x = Ok true → held i u action resource "global" None (r_log s)) s.
Proof.
  eapply safe_mono; [|apply safe_HasPermission]. simpl. intros x s' Hx Ht. by eapply held_global, Hx.
Qed.

(** A check of the caller, as the gates make it. *)
Lemma safe_asked i check c P s :
  (∀ u, grows (P u)) → (∀ u s, rsafe i (check u) (λ x s, x = Ok true → P u (r_log s)) s) →
  rsafe i (asked check c) (λ x s, x = Ok true → ∃ u, c = Some u ∧ P u (r_log s)) s.
Proof.
  intros HP Hcheck. unfold asked, engineFromContext.
  destruct c as [u|]; [|by apply safe_ret; [intros ??|]].
  destruct (u =? uuid_Nil); [by apply safe_ret; [intros ??|]|].
  eapply safe_next; [apply Hcheck|]. simpl. intros [[]|err] s1 Hs; try by apply safe_ret; [intros ??|].
  apply safe_ret; [|intros _; exists u; split; [done|by apply Hs]].
  apply (log_stable i (λ l, Ok true = Ok true → ∃ u0, Some u = Some u0 ∧ P u0 l)).
  apply grows_impl, grows_exists. intros u0. apply grows_and; [apply grows_const|apply HP].
Qed.

Lemma safe_gated i check c P s :
  (∀ u, grows (P u)) → (∀ u s, rsafe i (check u) (λ x s, x = Ok true → P u (r_log s)) s) →
  rsafe i (gated check c) (λ x s, x = None → ∃ u, c = Some u ∧ P u (r_log s)) s.
Proof.
  intros HP Hcheck. unfold gated, engineFromContext.
  destruct c as [u|]; [|by apply safe_ret; [intros ??|]].
  destruct (u =? uuid_Nil); [by apply safe_ret; [intros ??|]|].
  eapply safe_next; [apply Hcheck|]. simpl. intros [[]|err] s1 Hs; try by apply safe_ret; [intros ??|].
  apply safe_ret; [|intros _; exists u; split; [done|by apply Hs]].
  apply (log_stable i (λ l, None = None → ∃ u0, Some u = Some u0 ∧ P u0 l)).
  apply grows_impl, grows_exists. intros u0. apply grows_and; [apply grows_const|apply HP].
Qed.

(** A check that was answered yes backs what it was asked for. *)
Lemma held_backed i u c ref l :
  held i u (pr_Action ref) (pr_Resource ref) (if pr_ClusterScoped ref then "cluster" else "global")
    (if pr_ClusterScoped ref then Some c else None) l → ref_backed i u c ref l.
Proof. done. Qed.

Definition answers (i : nat) (c : option uuid) (clusterID : uuid) (ref : PermissionRef) (l : list entry) : Prop :=
  ∃ u, c = Some u ∧ ref_backed i u clusterID ref l.

Lemma grows_answers i c clusterID ref : grows (answers i c clusterID ref).
Proof. apply grows_exists. intros u. apply grows_and; [apply grows_const|apply grows_ref_backed]. Qed.

Lemma safe_check_ref i c clusterID ref s :
  rsafe i (check_ref c clusterID ref) (λ x s, x = Ok true → answers i c clusterID ref (r_log s)) s.
Proof.
  unfold check_ref, hasClusterPerm, hasGlobalPerm.
  destruct (pr_ClusterScoped ref) eqn:Hscope;
    (eapply safe_mono;
     [|apply (safe_asked i _ _ (λ u, ref_backed i u clusterID ref)); [intros; apply grows_ref_backed|]]; [done|]);
    intros u s1; (eapply safe_mono; [|apply safe_HasGlobalPermission || apply safe_HasPermission]);
    intros x s2 Hx Ht; apply held_backed; rewrite Hscope; by apply Hx.
Qed.

Lemma safe_any_of i c clusterID names refs s :
  rsafe i (any_of c clusterID names refs)
    (λ x s, x = None → ∃ ref, ref ∈ refs ∧ answers i c clusterID ref (r_log s)) s.
Proof.
  revert s. induction refs as [|ref refs IH]; intros s; simpl; [by apply safe_ret; [intros ??|]|].
  eapply safe_next; [apply safe_check_ref|]. simpl. intros [[]|err] s1 Hs.
  - apply safe_ret; [|intros _; exists ref; split; [left|by apply Hs]].
    apply (log_stable i (λ l, None = None → ∃ ref0, ref0 ∈ ref :: refs ∧ answers i c clusterID ref0 l)).
    apply grows_impl, grows_exists. intros ref0. apply grows_and; [apply grows_const|apply grows_answers].
  - eapply safe_mono; [|apply IH]. intros x s2 Hx Hn. destruct (Hx Hn) as (ref0 & ? & ?).
    exists ref0. split; [by right|done].
  - by apply safe_ret; [intros ??|].
Qed.

Lemma safe_all_of i c clusterID names refs s :
  rsafe i (all_of c clusterID names refs)
    (λ x s, x = None → ∀ ref, ref ∈ refs → answers i c clusterID ref (r_log s)) s.
Proof.
  revert s. induction refs as [|ref refs IH]; intros s; simpl.
  { apply safe_ret; [by intros s1 s2 _ _ _ ref ?%not_elem_of_nil|]. by intros _ ref ?%not_elem_of_nil. }
  eapply safe_next; [apply safe_check_ref|]. simpl. intros [[]|err] s1 Hs; try by apply safe_ret; [intros ??|].
  assert (answers i c clusterID ref (r_log s1)) as Ha by by apply Hs.
  eapply safe_mono; [|exact (safe_keep i _ _ _ s1 (grows_answers i c clusterID ref) Ha (IH s1))].
  intros x s2 [Hx Hr] Hn ref0 [->|Href]%elem_of_cons; [done|by apply Hx].
Qed.

Lemma safe_RequirePermission i c action s :
  rsafe i (RequirePermission c action "role") (λ x s, x = None → answers i c uuid_Nil (role_ref action) (r_log s)) s.
Proof.
  apply (safe_gated i _ _ (λ u, ref_backed i u uuid_Nil (role_ref action))); [intros; apply grows_ref_backed|].
  intros u s1. apply safe_HasGlobalPermission.
Qed.

Lemma safe_route_gate i c r s :
  rsafe i (route_gate c r) (λ x s, x = None → backed i c r (r_log s)) s.
Proof.
  assert (∀ action, refs_of r = [role_ref action] → (∀ refs a b, r ≠ AnyOf refs a b) →
    rsafe i (RequirePermission c action "role") (λ x s, x = None → backed i c r (r_log s)) s) as Hroute.
  { intros action Hrefs Hany. eapply safe_mono; [|apply safe_RequirePermission].
    intros x s1 Hx Hn. destruct (Hx Hn) as (u & Hc & Hb). right. exists u, uuid_Nil.
    rewrite Hrefs. split_and!; [done..|].
    destruct r; try (intros ref0 ->%list_elem_of_singleton; exact Hb). by destruct (Hany refs cluster_id id). }
  destruct r; simpl; try (by apply Hroute).
  - unfold RequireAnyPermission. destruct (resolved refs cluster_id id) as [cid|e] eqn:Hr.
    + eapply safe_mono; [|apply safe_any_of]. intros x s1 Hx Hn.
      destruct (Hx Hn) as (ref & Href & u & Hc & Hb). right. exists u, cid. split_and!; [done..|]. by exists ref.
    + by apply safe_ret; [intros ??|].
  - unfold all_gate. destruct (resolved (ref :: refs) cluster_id id) as [cid|e] eqn:Hr.
    + eapply safe_mono; [|apply safe_all_of]. intros x s1 Hx Hn. specialize (Hx Hn).
      destruct (Hx ref (list_elem_of_here _ _)) as (u & Hc & _). right. exists u, cid. split_and!; [done..|].
      intros ref0 Href0. destruct (Hx ref0 Href0) as (u0 & Hc0 & Hb). by simplify_eq.
    + by apply safe_ret; [intros ??|].
  - apply safe_ret; [|by intros _; left]. by intros s1 s2 _ _ _; left.
Qed.

End history.

Abbreviation rsafe := (safe step pre RInv).

(** ** The handlers *)

(** Calls that owe nothing but the right to write what they write ([w]). *)
Definition plain (w : ∀ A, rquery A → Prop) (X : Type) (e : ROp X) : Prop :=
  match e with
  | RQuery q => writes q = true → w _ q
  | RSet _ _ _ | RReceived _ _ | RRespond _ _ _ => False
  | _ => True
  end.

Abbreviation plainly w p := (calls_ok (plain w) (λ _ _ _, True) p (λ _, True)).

(** The right to write everything or nothing. *)
Definition allow (b : bool) (A : Type) (q : rquery A) : Prop := b = true.

Section plain.
Context `{UT : UuidText} `{CFG : RbacConfig}.

Lemma plain_pre i w X (e : ROp X) s : plain w X e → (∀ A q, w A q → may_write i q (r_log s)) → pre i X e s.
Proof. destruct e; simpl; naive_solver. Qed.

Lemma plain_rask w {X} (e : ROp X) : plain w X e → plainly w (rask e).
Proof. intros He. by apply calls_call. Qed.

Lemma plain_bind w {A B} (p : rprog A) (f : A → rprog B) :
  plainly w p → (∀ a, plainly w (f a)) → plainly w (bind p f).
Proof. intros Hp Hf. apply calls_bind. eapply calls_mono; [|done]. intros a _. apply Hf. Qed.

Lemma plain_InvalidateUser w u : plainly w (InvalidateUser u).
Proof. unfold InvalidateUser. destruct RedisWired; [|done]. apply plain_bind; [by apply plain_rask|done]. Qed.

Lemma plain_for_each w {A} (l : list A) body : (∀ a, plainly w (body a)) → plainly w (for_each l body).
Proof. intros Hb. by apply calls_for_each. Qed.
End plain.

#[export] Hint Resolve plain_InvalidateUser : nexara.

(** Goes through the calls of a handler. *)
Ltac plainly_go :=
  repeat first
    [ done
    | solve [eauto with nexara]
    | apply plain_bind; [|intros ?]
    | apply plain_rask
    | apply plain_for_each; intros ?
    | progress unfold rdb
    | match goal with |- calls_ok _ _ (match ?x with _ => _ end) _ => destruct x end ].

Section handlers.
Context `{UT : UuidText} `{UL : !UuidTextLaws} `{CFG : RbacConfig}.

Lemma plain_find_role w id : plainly w (find_role id).
Proof. unfold find_role. plainly_go. Qed.

Lemma plain_invalidateRoleUsers w id : plainly w (invalidateRoleUsers id).
Proof. unfold invalidateRoleUsers. plainly_go. Qed.

Lemma plain_add_permissions id ids : plainly (allow true) (add_permissions id ids).
Proof. induction ids as [|pid ids IH]; simpl; plainly_go. Qed.
#[local] Hint Resolve plain_find_role plain_invalidateRoleUsers plain_add_permissions : nexara.

Lemma plain_replace_permissions id b ids : plainly (allow true) (replace_permissions id b ids).
Proof. unfold replace_permissions. plainly_go. Qed.

Lemma plain_assignment_scope w st sid : plainly w (assignment_scope st sid).
Proof. unfold assignment_scope. plainly_go. Qed.
#[local] Hint Resolve plain_replace_permissions plain_assignment_scope : nexara.

Lemma plain_GetFlatPermissions w u : plainly w (GetFlatPermissions u).
Proof. unfold GetFlatPermissions. plainly_go. Qed.

Lemma plain_GetGlobalPermissions w u : plainly w (GetGlobalPermissions u).
Proof. unfold GetGlobalPermissions. plainly_go. Qed.
#[local] Hint Resolve plain_GetFlatPermissions plain_GetGlobalPermissions : nexara.

(** The routes that write are those that ask for manage:role. *)
Definition manages (r : rbac_request) : bool :=
  match r with
  | CreateRoleRequest _ _ _ | UpdateRoleRequest _ _ _ _ | DeleteRoleRequest _
  | AssignUserRoleRequest _ _ _ _ | RevokeUserRoleRequest _ _ => true
  | _ => false
  end.

Lemma plain_route_handler c r : plainly (allow (manages r)) (route_handler c r).
Proof.
  destruct r; simpl;
    unfold ListRoles_handler, GetRole_handler, CreateRole_handler, UpdateRole_handler, DeleteRole_handler,
      ListPermissions_handler, ListUserRoles_handler, AssignUserRole_handler, RevokeUserRole_handler,
      MyPermissions_handler; plainly_go.
Qed.

(** A login assigns what the mapping has for a group. *)
Lemma plain_sync_groups u all groups mapping dflt b :
  groups ⊆ all → plainly (@does _ (LoginSync u all mapping dflt)) (sync_groups u groups mapping b).
Proof.
  revert b. induction groups as [|g groups IH]; intros b Hall; simpl; [done|].
  assert (groups ⊆ all) by (intros x Hx; apply Hall; by right).
  destruct (mapping !! g) as [text|] eqn:Hg; [|by apply IH].
  destruct (uuid_Parse text) as [role|] eqn:Ht; [|by apply IH].
  apply plain_bind; [|intros []; by apply IH]. unfold assign_global, rdb.
  apply plain_bind; [|done]. apply plain_rask. intros _. simpl. split_and!; [done..|].
  right. exists g, text. split_and!; [|done..]. apply Hall. left.
Qed.

Lemma plain_syncUserRoles u groups mapping dflt :
  plainly (@does _ (LoginSync u groups mapping dflt)) (syncUserRoles u groups mapping dflt).
Proof.
  unfold syncUserRoles. apply plain_bind; [by apply plain_rask|]. intros _.
  apply plain_bind; [by apply plain_sync_groups|]. intros assigned.
  apply plain_bind; [|intros _; apply plain_InvalidateUser].
  destruct assigned, dflt; try done. unfold assign_global, rdb.
  apply plain_bind; [|done]. apply plain_rask. intros _. simpl. split_and!; [done..|]. by left.
Qed.

Lemma plain_forget_each w us cleared : plainly w (forget_each us cleared).
Proof. revert cleared. induction us as [|u us IH]; intros cleared; simpl; plainly_go. Qed.
#[local] Hint Resolve plain_forget_each : nexara.

Lemma plain_delete_cluster id : plainly (@does _ (ClusterRemoval id)) (delete_cluster id).
Proof. unfold delete_cluster, forgetPermissions. plainly_go. Qed.

(** ** A request *)

Lemma safe_plainly i w {A} (p : rprog A) s :
  plainly w p → (∀ A q, w A q → may_write i q (r_log s)) → rsafe i p (λ _ _, True) s.
Proof.
  intros Hp Hw.
  eapply safe_mono; [|apply (safe_under i p (λ l, ∀ A q, w A q → may_write i q l) (λ _, True)); [|clear Hw s|done]].
  - done.
  - apply grows_forall. intros B. apply grows_forall. intros q. apply grows_impl, grows_may_write.
  - induction p as [a|X e k IH]; [done|]. destruct Hp as [He Hk]. split.
    + intros s. by eapply plain_pre.
    + intros x _. by apply IH, Hk.
Qed.

(** What a program returns whatever it is answered, beside what [rsafe] says. *)
Lemma safe_also i {A} (p : rprog A) Q (R : A → Prop) s :
  calls_ok (λ _ _, True) (λ _ _ _, True) p R → rsafe i p Q s → rsafe i p (λ a s, Q a s ∧ R a) s.
Proof.
  revert s. induction p as [a|X e k IH]; intros s HR Hp; simpl.
  - intros s' Hr. split; [by apply Hp|done].
  - destruct HR as [_ HR]. intros s1 Hr HI. destruct (Hp s1 Hr HI) as [? Hk].
    split; [done|]. intros x s2 Hst HI2. apply IH; [by apply HR|by apply Hk].
Qed.

Definition is_error (a : option reply) : Prop := ∀ e, a = Some e → 300 ≤ rp_Status e.
Abbreviation ends_as p R := (calls_ok (λ _ _, True) (λ _ _ _, True) p R).

Lemma ends_bind {A B} (p : rprog A) (f : A → rprog B) R : (∀ a, ends_as (f a) R) → ends_as (bind p f) R.
Proof.
  intros Hf. apply calls_bind. eapply calls_mono; [intros a _; apply Hf|].
  assert (ends_as p (λ _, True)) as Hp; [|exact Hp]. clear Hf f. induction p as [a|X e k IH]; [done|].
  split; [done|]. intros x _. apply IH.
Qed.

Lemma error_check_ref c cid ref : ends_as (check_ref c cid ref) (λ x, ∀ e, x = Err e → 300 ≤ rp_Status e).
Proof.
  unfold check_ref, hasClusterPerm, hasGlobalPerm, asked.
  destruct (pr_ClusterScoped ref), (engineFromContext c); try (by intros e [= <-]);
    (apply ends_bind; intros [[]|err]; intros e Herr; [done|done|by injection Herr as <-]).
Qed.

Lemma error_ret e : 300 ≤ rp_Status e → ends_as (Ret (Some e) : rprog _) is_error.
Proof. by intros He e' [= <-]. Qed.

Lemma ends_next {A B} (p : rprog A) (f : A → rprog B) (T : A → Prop) R :
  ends_as p T → (∀ a, T a → ends_as (f a) R) → ends_as (bind p f) R.
Proof. intros Hp Hf. apply calls_bind. by eapply calls_mono. Qed.

Lemma error_any_of c cid names refs : ends_as (any_of c cid names refs) is_error.
Proof.
  induction refs as [|ref refs IH]; simpl; [by apply error_ret|].
  eapply ends_next; [apply error_check_ref|]. intros [[]|e] He; [done|done|by apply error_ret, He].
Qed.

Lemma error_all_of c cid names refs : ends_as (all_of c cid names refs) is_error.
Proof.
  induction refs as [|ref refs IH]; simpl; [done|].
  eapply ends_next; [apply error_check_ref|]. intros [[]|e] He; [done|by apply error_ret|by apply error_ret, He].
Qed.

Lemma error_resolved refs a b e : resolved refs a b = Err e → 300 ≤ rp_Status e.
Proof.
  unfold resolved, clusterIDFromParam. destruct (wantsCluster refs); [|done].
  by destruct (uuid_Parse _) as [u|]; [|intros [= <-]].
Qed.

Lemma error_RequirePermission c action resource : ends_as (RequirePermission c action resource) is_error.
Proof.
  unfold RequirePermission, requirePerm, gated. destruct (engineFromContext c); [|by apply error_ret].
  apply ends_bind. intros [[]|err]; [done|by apply error_ret..].
Qed.

Lemma error_route_gate c r : ends_as (route_gate c r) is_error.
Proof.
  destruct r; simpl; try apply error_RequirePermission; [..|done].
  - unfold RequireAnyPermission. destruct (resolved _ _ _) as [cid|e] eqn:Hr; [apply error_any_of|].
    by eapply error_ret, error_resolved.
  - unfold all_gate. destruct (resolved _ _ _) as [cid|e] eqn:Hr; [apply error_all_of|].
    by eapply error_ret, error_resolved.
Qed.

(** The revocation's statement and the deletion after it. *)
Lemma safe_revoke_statement i id u s :
  manager i (r_log s) →
  rsafe i (rdb (RevokeUserRole id u))
    (λ x s, x = Ok tt → ∃ t d la lb, r_log s = la ++ En t i (Ev (RQuery (RevokeUserRole id u)) (Ok tt)) d :: lb) s.
Proof.
  intros Hw.
  apply (safe_rask i (RQuery (RevokeUserRole id u)) (manager i)
    (λ x l, x = Ok tt → ∃ t d la lb, l = la ++ En t i (Ev (RQuery (RevokeUserRole id u)) (Ok tt)) d :: lb)).
  - apply grows_manager.
  - done.
  - intros x e l Hl Hx. destruct (Hl Hx) as (t & d & la & lb & ->). by exists t, d, (e :: la), lb.
  - intros s1 ? _. by right; right.
  - intros s1 x s2 _ _ (t & d & c' & _ & _ & ->) ->. by exists t, d, [], (r_log s1).
Qed.

Lemma safe_delete_after i id u t d la lb s :
  r_log s = la ++ En t i (Ev (RQuery (RevokeUserRole id u)) (Ok tt)) d :: lb →
  rsafe i (rask (RDel u)) (λ b s, revoked i id u b (r_log s) lb) s.
Proof.
  intros Hl.
  apply (safe_rask i (RDel u)
    (λ l, ∃ la, l = la ++ En t i (Ev (RQuery (RevokeUserRole id u)) (Ok tt)) d :: lb)
    (λ b l, revoked i id u b l lb)).
  - intros e l [la' ->]. by exists (e :: la').
  - by exists la.
  - intros b. apply grows_revoked.
  - done.
  - intros s1 b s2 _ [la1 Hl1] (t2 & d2 & c' & _ & _ & ->). simpl. rewrite Hl1.
    by exists [], t2, d2, la1, t, d.
Qed.

Definition promised (i : nat) (r : rbac_request) (a : reply) (l : list entry) : Prop :=
  rp_Status a < 300 → revoke_promise i r l.

Lemma grows_promised i r a : grows (promised i r a).
Proof.
  intros e l Hl Ha. specialize (Hl Ha). destruct r; try done. intros Hw.
  destruct (Hl Hw) as (u & x & b & lb & ? & ? & ?). exists u, x, b, lb.
  split_and!; [done..|]. by apply (grows_revoked i x u b lb).
Qed.

Lemma safe_promised i r (p : rprog reply) s :
  (∀ su sid, r ≠ RevokeUserRoleRequest su sid) → plainly (allow (manages r)) p →
  (manages r = true → manager i (r_log s)) →
  rsafe i p (λ a s, promised i r a (r_log s)) s.
Proof.
  intros Hr Hp Hw. eapply safe_mono; [|eapply safe_plainly; [done|]].
  2: { intros B q Hb. right. right. by apply Hw. }
  intros a s' _ _.
  destruct r; try done. by destruct (Hr user_id id).
Qed.

(** An answer that is an error promises nothing. *)
Lemma safe_error i r e s : 300 ≤ rp_Status e → rsafe i (Ret e) (λ a s, promised i r a (r_log s)) s.
Proof.
  intros He. apply safe_ret; [apply (log_stable i (promised i r e)), grows_promised|].
  unfold promised. lia.
Qed.

Lemma safe_RevokeUserRole i su sid s :
  manager i (r_log s) →
  rsafe i (RevokeUserRole_handler su sid) (λ a s, promised i (RevokeUserRoleRequest su sid) a (r_log s)) s.
Proof.
  intros Hw. unfold RevokeUserRole_handler, parseParamUUID.
  destruct (uuid_Parse su) as [u|] eqn:Hu; [|by apply safe_error].
  destruct (u =? SystemUserID); [by apply safe_error|].
  destruct (uuid_Parse sid) as [id|] eqn:Hid; [|by apply safe_error].
  eapply safe_next; [by apply safe_revoke_statement|]. simpl. intros [[]|err] s1 Hs; [|by apply safe_error].
  destruct (Hs eq_refl) as (t & d & la & lb & Hl).
  apply (safe_next i _ _ (λ _ s, RedisWired = true → ∃ b, revoked i id u b (r_log s) lb)).
  { unfold InvalidateUser. destruct RedisWired; [|by apply safe_ret; [intros ??|]].
    eapply safe_next; [by eapply safe_delete_after|]. simpl. intros b s2 Hb.
    apply safe_ret; [|by intros _; exists b].
    apply (log_stable i (λ l, true = true → ∃ b, revoked i id u b l lb)), grows_impl, grows_exists.
    intros b'. apply grows_revoked. }
  intros [] s2 Hr.
  assert (grows (λ l, RedisWired = true → ∃ b, revoked i id u b l lb)) as Hg.
  { apply grows_impl, grows_exists. intros b. apply grows_revoked. }
  apply (safe_next i _ _ (λ _ s, RedisWired = true → ∃ b, revoked i id u b (r_log s) lb)).
  { eapply safe_mono; [|apply (safe_under i _ _ (λ _, True) s2 Hg); [|done]]; [by intros ? ? [_ ?]|].
    by apply calls_call. }
  intros [] s3 Hr3. apply safe_ret; [apply (log_stable i (promised i _ _)), grows_promised|].
  intros _ Hwired. destruct (Hr3 Hwired) as [b Hb]. by exists u, id, b, lb.
Qed.

Lemma backed_manages i c r l : manages r = true → backed i c r l → serves i c r l → manager i l.
Proof.
  intros Hm [->|(u & cid & -> & Hr & Hb)] Hs; [done|]. exists u, r. split; [done|].
  destruct r; simpl in *; try discriminate; injection Hr as <-; apply (Hb (role_ref "manage")); left.
Qed.

Lemma safe_route_handler i c r s :
  (manages r = true → manager i (r_log s)) →
  rsafe i (route_handler c r) (λ a s, promised i r a (r_log s)) s.
Proof.
  intros Hw. destruct r; try (apply safe_promised; [done|apply plain_route_handler|done]).
  by apply safe_RevokeUserRole, Hw.
Qed.

Definition idle (i : nat) (s : RSys) : Prop := i ∉ en_thread <$> r_log s.

Lemma stable_idle i : stable step pre RInv i (idle i).
Proof.
  intros s s' (_ & _ & j & X & e & x & Hj & _ & Hst) Hi. unfold idle in *.
  rewrite (step_log _ _ _ _ _ _ Hst). csimpl. set_solver.
Qed.

(** The first call of a thread. *)
Lemma safe_first i {X} (e : ROp X) (Q : X → list entry → Prop) s :
  idle i s → (∀ x, grows (Q x)) → (∀ s, idle i s → pre i X e s) →
  (∀ s1 x s2, idle i s1 → step i X e s1 x s2 → Q x (r_log s2)) →
  rsafe i (rask e) (λ x s, Q x (r_log s)) s.
Proof.
  intros Hi HQ Hp Hpost. apply (safe_call _ _ _ _ _ (idle i)); [apply stable_idle|done| |auto|].
  - intros x. by apply (log_stable i (Q x)).
  - intros s1 x s2 _ Hi1 Hst _. by eapply Hpost.
Qed.

Lemma safe_serve_role i c r s : idle i s → rsafe i (serve_role c r) (λ _ _, True) s.
Proof.
  intros Hi. unfold serve_role. eapply safe_next.
  { apply (safe_first i (RReceived c r) (λ _, serves i c r)); [done|intros; apply grows_serves|done|].
    intros s1 [] s2 _ (t & d & c' & _ & _ & ->). eexists. by split; [left|]. }
  simpl. intros _ s1 Hs1. eapply safe_next.
  { eapply (safe_keep i _ _ (serves i c r)); [apply grows_serves|done|].
    apply safe_also; [apply error_route_gate|apply safe_route_gate]. }
  simpl. intros refused s2 [[Hb He] Hs2].
  apply (safe_next i _ _ (λ a s, (rp_Status a < 300 → backed i c r (r_log s)) ∧ promised i r a (r_log s))).
  - destruct refused as [e|].
    + specialize (He e eq_refl). apply safe_ret; [|unfold promised; split; intros; lia].
      apply (log_stable i (λ l, (rp_Status e < 300 → backed i c r l) ∧ promised i r e l)).
      apply grows_and; [apply grows_impl, grows_backed|apply grows_promised].
    + specialize (Hb eq_refl).
      eapply safe_mono; [|eapply (safe_keep i _ _ (backed i c r)); [apply grows_backed|done|]].
      2: { apply safe_route_handler. intros Hm. by apply (backed_manages i c r). }
      by intros a s3 [? ?].
  - intros a s3 Ha.
    apply (safe_rask i (RRespond c r a)
      (λ l, (rp_Status a < 300 → backed i c r l) ∧ promised i r a l) (λ _ _, True)).
    + apply grows_and; [apply grows_impl, grows_backed|apply grows_promised].
    + done.
    + by intros _ ??.
    + intros s4 [Hb4 Hp4] Hst. split; auto.
    + done.
Qed.

Lemma safe_internal i w (p : rprog unit) s :
  idle i s → plainly (@does _ w) p → rsafe i (do! rask (RInternal w) in p) (λ _ _, True) s.
Proof.
  intros Hi Hp. eapply safe_next.
  { apply (safe_first i (RInternal w) (λ _, works i w)); [done|intros; apply grows_works|done|].
    intros s1 [] s2 _ (t & d & c' & _ & _ & ->). eexists. by split; [left|]. }
  simpl. intros _ s1 Hs1. eapply safe_mono; [|apply (safe_plainly i (@does _ w)); [done|]]; [done|].
  intros A q Hq. left. by exists w.
Qed.

(** ** A registration *)

(** A call that owes nothing, and its answer. *)
Lemma safe_answered i {X} (e : ROp X) (P : list entry → Prop) s :
  grows P → P (r_log s) → (∀ s, pre i X e s) →
  rsafe i (rask e) (λ x s, answered i e x (r_log s) ∧ P (r_log s)) s.
Proof.
  intros HP Hs Hpre. apply (safe_rask i e P (λ x l, answered i e x l ∧ P l)); try done.
  - intros x. apply grows_and; [apply grows_answered|done].
  - intros s1 x s2 _ Hl Hst. rewrite (step_log _ _ _ _ _ _ Hst). split; [|by apply HP].
    eexists. by split; [left|].
Qed.

(** What the transaction of a registration leaves behind. *)
Definition allowed_account (i : nat) (callerRole : string) (u : uuid) (first : bool) (l : list entry) : Prop :=
  (∃ email role, answered i (RQuery (CreateUser email role)) (Ok u) l) ∧
  (if first then answered i (RQuery CountUsers) (Ok 0) l else callerRole = "admin").

Lemma grows_allowed_account i callerRole u first : grows (allowed_account i callerRole u first).
Proof.
  apply grows_and.
  - apply grows_exists. intros email. apply grows_exists. intros role. apply grows_answered.
  - destruct first; [apply grows_answered|apply grows_const].
Qed.

Lemma safe_rolled_back i {A} e (Q : result reply A → RSys → Prop) s :
  (∀ s, Q (Err e) s) → rsafe i (rolled_back e) Q s.
Proof.
  intros HQ. eapply safe_next; [by apply (safe_answered i (RTx TxRollback) nothing)|]. simpl.
  intros _ s1 _. apply safe_ret; [by intros ??|done].
Qed.

Lemma safe_registered i callerRole email hashFailure s :
  rsafe i (registered callerRole email hashFailure)
    (λ x s, ∀ u first, x = Ok (u, first) → allowed_account i callerRole u first (r_log s)) s.
Proof.
  unfold registered, rdb.
  eapply safe_next; [by apply (safe_answered i (RTx TxBegin) nothing)|]. simpl. intros [] s1 _.
  2: { by apply safe_ret; [intros ??|]. }
  eapply safe_next; [by apply (safe_answered i (RTx TxLock) nothing)|]. simpl. intros [] s2 _.
  2: { by apply safe_rolled_back. }
  eapply safe_next; [by apply (safe_answered i (RQuery CountUsers) nothing)|]. simpl.
  intros [n|err] s3 [Hn _]; [|by apply safe_rolled_back].
  destruct (negb (n =? 0) && negb (bool_decide (callerRole = "admin"))) eqn:Hgate; [by apply safe_rolled_back|].
  destruct hashFailure; [by apply safe_rolled_back|].
  set (role := if n =? 0 then "admin" else "user").
  eapply safe_next.
  { apply (safe_answered i (RQuery (CreateUser email role)) (answered i (RQuery CountUsers) (Ok n)));
      [apply grows_answered|done|done]. }
  simpl. intros [u|err] s4 [Hu Hn4]; [|by destruct err; apply safe_rolled_back].
  assert (allowed_account i callerRole u (n =? 0) (r_log s4)) as Hall.
  { split; [by exists email, role|]. destruct (Z.eqb_spec n 0) as [->|_]; [done|].
    simpl in Hgate. apply negb_false_iff, bool_decide_eq_true in Hgate. done. }
  eapply safe_next.
  { by apply (safe_answered i (RTx TxCommit) (allowed_account i callerRole u (n =? 0))); [apply grows_allowed_account| |]. }
  simpl. intros [] s5 [_ Hs5]; [|by apply safe_rolled_back].
  apply safe_ret; [|by intros ? ? [= <- <-]].
  apply (log_stable i (λ l, ∀ u0 first, Ok (u, n =? 0) = Ok (u0, first) → allowed_account i callerRole u0 first l)).
  apply grows_forall. intros u0. apply grows_forall. intros first. apply grows_impl, grows_allowed_account.
Qed.

Lemma safe_register i callerRole email hashFailure s :
  idle i s → rsafe i (register callerRole email hashFailure) (λ _ _, True) s.
Proof.
  intros Hi. unfold register. eapply safe_next.
  { apply (safe_first i (RRegistering callerRole) (λ _, registers i callerRole)); [done|intros; apply grows_registers|done|].
    intros s1 [] s2 _ (t & d & c' & _ & _ & ->). eexists. by split; [left|]. }
  simpl. intros _ s1 Hs1. eapply safe_next.
  { eapply (safe_keep i _ _ (registers i callerRole)); [apply grows_registers|done|apply safe_registered]. }
  simpl. intros [[u first]|e] s2 [Ha Hr]; [|by apply safe_ret; [intros ??|]].
  destruct (Ha u first eq_refl) as [(em & ro & Hu) Hfirst].
  set (arg := {| ar_UserID := u; ar_RoleID := if first then AdminRoleID else ViewerRoleID;
                 ar_ScopeType := "global"; ar_ScopeID := None |}).
  apply (safe_plainly i (λ A q, new_account_role i q (r_log s2))); [|by intros A q Hq; right; left].
  apply plain_bind; [|done]. apply plain_rask. intros _. split_and!; [done..|].
  exists callerRole, em, ro. split_and!; [done..|]. by destruct first; [left|right].
Qed.
End handlers.
