(* ===== verification/RbacSafety.v ===== *)
(** * What holds of permissions in every history

    Any number of requests, logins, registrations and removals of clusters at once,
    one call at a time ([rbac_histories]): who was let through held the permission
    when the tables were last read for them ([admitted_means_granted]), the tables
    of roles and assignments change only by statements that are authorised or with
    the account they belong to ([role_changes_authorised]), and a revocation is seen
    by every later request whose permissions were not in flight while it happened
    ([revocation_takes_effect]). *)

From S2P Require Import Prelude GoStrings Effects RbacDb RbacEngine RbacHandlers RbacGrants RbacHistory.

Local Open Scope Z_scope.

(** ** Two places in one history *)

Lemma split_cases {A} (l1 l2 m1 m2 : list A) x y :
  l1 ++ x :: l2 = m1 ++ y :: m2 →
  (l1 = m1 ∧ x = y ∧ l2 = m2) ∨
  (∃ k, m1 = l1 ++ x :: k ∧ l2 = k ++ y :: m2) ∨
  (∃ k, l1 = m1 ++ y :: k ∧ m2 = k ++ x :: l2).
Proof.
  revert m1. induction l1 as [|a l1 IH]; intros [|b m1] Heq; simpl in Heq; injection Heq as Ha Hb; subst; [by left|..].
  - right. left. by exists m1.
  - right. right. by exists l1.
  - destruct (IH _ Hb) as [(-> & -> & ->)|[(k & -> & ->)|(k & -> & ->)]];
      [by left|right; left; by exists k|right; right; by exists k].
Qed.

(** Whether a call is a read of permissions. *)
Definition is_read (e : entry) : bool :=
  match en_event e with
  | @Ev _ X op _ =>
      match op with RQuery q => match q with GetUserScopedPermissions _ => true | _ => false end | _ => false end
  end.

Section theorems.
Context `{UT : UuidText} `{UL : !UuidTextLaws} `{CFG : RbacConfig}.

(** ** Histories *)

Inductive starts : rprog unit → Prop :=
| starts_request c r : starts (serve_role c r)
| starts_login u groups mapping dflt : starts (sync_login u groups mapping dflt)
| starts_removal id : starts (remove_cluster id)
| starts_registration callerRole email hashFailure : starts (register callerRole email hashFailure)
| starts_elsewhere : starts (rask RElsewhere).

Definition at_start (s : RSys) : Prop := r_log s = [] ∧ r_cache s = ∅.

Definition rbac_histories (s0 s : RSys) : Prop := ∃ ts, rtc (threads step idle starts) ([], s0) (ts, s).

Lemma histories_keep s0 s : at_start s0 → rbac_histories s0 s → RInv s.
Proof.
  intros [Hl Hc] [ts Hr]. assert (all_safe step pre RInv (ts, s)) as [HI _]; [|done].
  eapply threads_safe; [| |exact Hr|].
  - intros i X e s1 x s2. apply RInv_step.
  - intros i p s1 [c r|u groups mapping dflt|id|cr em hf|] Hi _.
    + by apply safe_serve_role.
    + apply safe_internal; [done|apply plain_syncUserRoles].
    + apply safe_internal; [done|]. apply plain_bind; [apply plain_delete_cluster|done].
    + by apply safe_register.
    + by apply (safe_rask i RElsewhere (λ _, True) (λ _ _, True)).
  - split; [|by split; constructor]. simpl. unfold RInv, cache_ok. rewrite Hl, Hc. split; [done|].
    intros u perms ends. by rewrite lookup_empty.
Qed.

Lemma read_is_read i u perms d e : read_rows i u perms d e → is_read e = true ∧ en_thread e = i.
Proof. by intros (t & rows & -> & _). Qed.

(** C6: Who is let through held the permission. Whatever changes at the same time,
    a request that is answered with a success was made by a caller who held what
    its route asks for (one of the alternatives, or every requirement; a global
    grant or one on the cluster of the path) in the tables as they were read by the
    request itself, or by another that stored them less than five minutes before
    this request took them from the cache, with no deletion of the entry between
    the two. *)
Theorem admitted_means_granted s0 s i c r a t d l1 l2 :
  at_start s0 → rbac_histories s0 s → r_log s = l2 ++ En t i (Ev (RRespond c r a) tt) d :: l1 →
  rp_Status a < 300 → backed i c r l1.
Proof.
  intros H0 Hh Hl Ha. destruct (histories_keep _ _ H0 Hh) as [Hok _]. rewrite Hl in Hok.
  by apply ForallTail_at, (λ H, H Ha) in Hok as [? _].
Qed.

(** ** What changes the tables of roles *)

(** Roles, permissions, the permissions of roles, assignments. *)
Definition role_data (d : RbacTables) := (roles d, permissions d, role_permissions d, user_roles d).

(** The tables when the first of [l] had not been called yet. *)
Definition tables_before (s0 : RSys) (l : list entry) : RbacTables :=
  match l with [] => r_tables s0 | e :: _ => en_tables e end.

(** What a call can do to them: a statement that is not a write, or a call that is
    no statement, leaves them as they are. *)
Definition moves_tables (e : entry) (d : RbacTables) : Prop :=
  role_data (en_tables e) = role_data d ∨
  match en_event e with
  | @Ev _ X op _ =>
      match op with
      | RQuery q => writes q = true
      | RElsewhere => elsewhere d (en_tables e)
      | _ => False
      end
  end.

Lemma reads_keep {A} (q : rquery A) fresh d d' y :
  writes q = false → exec q fresh d = Ok (d', y) → role_data d' = role_data d.
Proof.
  unfold keeping, createUser.
  destruct q; simpl; try discriminate; unfold keeping, createUser; intros _ H; repeat case_match; by simplify_eq.
Qed.

Lemma step_moves i X (e : ROp X) s x s' :
  step i X e s x s' → ∃ y, r_log s' = y :: r_log s ∧ r_tables s' = en_tables y ∧ moves_tables y (r_tables s).
Proof.
  intros (t & d' & c' & _ & Ha & ->). eexists. split_and!; [done..|]. unfold moves_tables. simpl.
  destruct e; simpl in Ha; try (left; by destruct Ha as [-> _]).
  - destruct (writes q) eqn:Hw; [by right|]. left. destruct Ha as [(fresh & _ & _ & _ & Hx) _].
    destruct (exec q fresh (r_tables s)) as [[d1 y]|err] eqn:He.
    + apply reads_keep in He; [|done]. by destruct Hx as [(z & _ & _ & ->)|[_ [->| ->]]].
    + by destruct Hx as [-> _].
  - right. by destruct Ha.
Qed.

Definition chained (s0 s : RSys) : Prop :=
  r_tables s = tables_before s0 (r_log s) ∧ ForallTail (λ e l, moves_tables e (tables_before s0 l)) (r_log s).

Lemma thread_chained s0 c c' : threads step idle starts c c' → chained s0 c.2 → chained s0 c'.2.
Proof.
  intros [before i X e k after s1 x s2 Hst|ts1 i p s1 _ _ _|before i p after s1]; [|done..].
  intros [Ht Hf]. simpl in *. destruct (step_moves _ _ _ _ _ _ Hst) as (y & Hl & Hy & Hm).
  unfold chained. rewrite Hl, Hy. rewrite Ht in Hm. by split.
Qed.

Lemma tables_chained s0 s : at_start s0 → rbac_histories s0 s → chained s0 s.
Proof.
  intros [Hl _] [ts Hr]. assert (chained s0 s0) as Hs by (unfold chained; by rewrite Hl).
  change (chained s0 ([] : list (nat * rprog unit), s0).2) in Hs. change (chained s0 (ts, s).2).
  induction Hr; [done|]. by eauto using thread_chained.
Qed.

(** C8: Every change of the roles, of their permissions or of the assignments is
    authorised. Whatever runs at the same time, wherever the tables of roles,
    permissions, role permissions and assignments differ before and after a call,
    the call either removed only assignments whose account is gone with it, or it
    is a statement of a thread that
    - brings the roles of a user up to date at a login, and the statement takes the
      roles of that user or gives that user, everywhere, the default role or one the
      mapping has for a group of the user; or removes a cluster, and the statement is
      the removal of that cluster;
    - gives an account it has created itself the Admin role, after it had counted no
      account, or the Viewer role, for a caller whose token names the role admin; or
    - serves a caller whose right to manage roles was checked in that request and
      held in the tables the check rested on. *)
Theorem role_changes_authorised s0 s e l1 l2 :
  at_start s0 → rbac_histories s0 s → r_log s = l2 ++ e :: l1 →
  role_data (en_tables e) ≠ role_data (tables_before s0 l1) →
  elsewhere (tables_before s0 l1) (en_tables e) ∨
  ∃ A (q : rquery A) x, en_event e = Ev (RQuery q) x ∧
    ((∃ w, works (en_thread e) w l1 ∧ does w q) ∨
     new_account_role (en_thread e) q l1 ∨
     ∃ u r, serves (en_thread e) (Some u) r l1 ∧ ref_backed (en_thread e) u uuid_Nil (role_ref "manage") l1).
Proof.
  intros H0 Hh Hl Hne. destruct (histories_keep _ _ H0 Hh) as [Hok _].
  destruct (tables_chained _ _ H0 Hh) as [_ Hm]. rewrite Hl in Hok, Hm.
  apply ForallTail_at in Hok. apply ForallTail_at in Hm as [?|Hm]; [done|].
  unfold entry_ok in Hok. destruct (en_event e) as [X op x]. destruct op; try done; [|by left].
  right. exists A, q, x. split; [done|]. by apply Hok.
Qed.

(** The calls of a thread come after its request. *)
Lemma after_request s e la lb la' e' lb' :
  RInv s → r_log s = la ++ e :: lb → is_Some (request_of e) →
  r_log s = la' ++ e' :: lb' → en_thread e' = en_thread e → ∃ k, lb' = k ++ lb ∧ la ++ [e] = la' ++ e' :: k.
Proof.
  intros [Hok _] Hl Hr Hl' Hth. rewrite Hl in Hok, Hl'. apply ForallTail_at in Hok.
  destruct (split_cases _ _ _ _ _ _ Hl') as [(-> & -> & ->)|[(k & -> & ->)|(k & -> & ->)]].
  - by exists [].
  - exfalso. unfold entry_ok, request_of in *. destruct (en_event e) as [X op x]. destruct op; try by destruct Hr.
    apply Hok. rewrite fmap_app, fmap_cons, Hth. set_solver.
  - exists (k ++ [e]). by rewrite <-!(assoc_L (++)).
Qed.

(** Permissions that come through the cache past an acknowledged deletion were
    read after it, or read before it and stored after it. *)
Lemma past_deletion u perms d j t1 d1 lx lc e lb Y td k dd Z :
  read_rows j u perms d e → (∀ x, x ∈ lx → deletes x ≠ Some u) →
  lx ++ En t1 j (Ev (RSet u perms rbacCacheTTL) tt) d1 :: lc ++ e :: lb =
    Y ++ En td k (Ev (RDel u) true) dd :: Z →
  e ∈ Y ∨ e ∈ Z ∧ En t1 j (Ev (RSet u perms rbacCacheTTL) tt) d1 ∈ Y.
Proof.
  intros He Hx Heq.
  destruct (split_cases _ _ _ _ _ _ Heq) as [(_ & Habs & _)|[(m & HY & Hm)|(m & Hlx & _)]].
  - apply (f_equal deletes) in Habs. discriminate.
  - assert (En t1 j (Ev (RSet u perms rbacCacheTTL) tt) d1 ∈ Y) as Hset by (rewrite HY; set_solver).
    destruct (split_cases _ _ _ _ _ _ Hm) as [(_ & -> & _)|[(m' & -> & _)|(m' & _ & ->)]].
    + by apply read_is_read in He as [? _].
    + left. rewrite HY. set_solver.
    + right. set_solver.
  - exfalso. apply (Hx (En td k (Ev (RDel u) true) dd)); [rewrite Hlx; set_solver|done].
Qed.

(** C7: A revocation takes effect. When the revocation of a role assignment is
    answered with a success, its statement has been carried out and the user's
    cached permissions have been deleted after it, or Redis did not acknowledge
    that. When it did, no request received later decides by permissions of that
    user from before the revocation: the tables were read after the statement, or
    the read was in flight, made before the statement and stored in the cache only
    after the deletion. *)
Theorem revocation_takes_effect s0 s k c su sid a t d l1 l2 :
  at_start s0 → rbac_histories s0 s → RedisWired = true →
  r_log s = l2 ++ En t k (Ev (RRespond c (RevokeUserRoleRequest su sid) a) tt) d :: l1 → rp_Status a < 300 →
  ∃ u id acked la td dd lx tq dq lb,
    uuid_Parse su = Some u ∧ uuid_Parse sid = Some id ∧
    l1 = la ++ En td k (Ev (RDel u) acked) dd ::
         lx ++ En tq k (Ev (RQuery (RevokeUserRole id u)) (Ok tt)) dq :: lb ∧
    (acked = true → ∀ e i perms d0, e ∈ l2 → en_thread e = i → is_Some (request_of e) →
       from_tables i u perms d0 (r_log s) →
       ∃ j er, read_rows j u perms d0 er ∧
         ((∃ y, r_log s = y ++ En tq k (Ev (RQuery (RevokeUserRole id u)) (Ok tt)) dq :: lb ∧ er ∈ y) ∨
          er ∈ lb ∧ ∃ t1 d1, En t1 j (Ev (RSet u perms rbacCacheTTL) tt) d1 ∈ l2 ++
            En t k (Ev (RRespond c (RevokeUserRoleRequest su sid) a) tt) d :: la)).
Proof.
  intros H0 Hh Hw Hl Ha. pose proof (histories_keep _ _ H0 Hh) as HI. pose proof HI as [Hok _].
  rewrite Hl in Hok. apply ForallTail_at, (λ H, H Ha) in Hok as [_ Hp]. simpl in Hp.
  destruct (Hp Hw) as (u & id & acked & lb & Hu & Hid & la & td & dd & lx & tq & dq & Hl1).
  exists u, id, acked, la, td, dd, lx, tq, dq, lb. split_and!; [done..|]. intros -> e i perms d0 He <- Hr Hft.
  apply list_elem_of_split in He as (m1 & m2 & ->).
  set (resp := En t k (Ev (RRespond c (RevokeUserRoleRequest su sid) a) tt) d) in *.
  set (stmt := En tq k (Ev (RQuery (RevokeUserRole id u)) (Ok tt)) dq) in *.
  set (del := En td k (Ev (RDel u) true) dd) in *.
  assert (r_log s = m1 ++ e :: (m2 ++ resp :: l1)) as Hsplit by (rewrite Hl, <-(assoc_L (++)); done).
  assert (r_log s = (m1 ++ e :: m2 ++ resp :: la ++ del :: lx) ++ stmt :: lb) as Hy.
  { rewrite Hsplit, Hl1. by simplify_list_eq. }
  remember (r_log s) as l eqn:Hs. destruct Hft as [la' er lb' Hread|la' tg dg lx' j t1 d1 lc er lb' Hread Hx Htg].
  - exists (en_thread e), er. split; [done|]. left. exists (m1 ++ e :: m2 ++ resp :: la ++ del :: lx).
    split; [done|]. destruct (read_is_read _ _ _ _ _ Hread) as [_ Hth]. rewrite Hs in Hsplit.
    destruct (after_request s e m1 _ la' er lb' HI Hsplit Hr (eq_sym Hs) Hth) as (k' & _ & Hk).
    assert (er ∈ m1 ++ [e]) by (rewrite Hk; set_solver). set_solver.
  - exists j, er. split; [done|]. rewrite Hs in Hsplit.
    destruct (after_request s e m1 _ la' _ _ HI Hsplit Hr (eq_sym Hs) eq_refl) as (k' & Htail & Hk).
    assert (k' ++ m2 ++ resp :: l1 = (k' ++ m2 ++ resp :: la) ++ del :: (lx ++ stmt :: lb)) as Hl2.
    { rewrite Hl1. by simplify_list_eq. }
    rewrite Hl2 in Htail.
    destruct (past_deletion _ _ _ _ _ _ _ _ _ _ _ _ _ _ _ Hread Hx Htail) as [Her|[Her Hset]].
    all: assert (k' ⊆ m1 ++ [e]) as Hk' by (rewrite Hk; set_solver).
    + left. exists (m1 ++ e :: m2 ++ resp :: la ++ del :: lx). split; [done|]. set_solver.
    + apply elem_of_app in Her as [Her|[->|Her]%elem_of_cons].
      * left. exists (m1 ++ e :: m2 ++ resp :: la ++ del :: lx). split; [done|]. set_solver.
      * by apply read_is_read in Hread as [? _].
      * right. split; [done|]. exists t1, d1. set_solver.
Qed.
End theorems.
