(* ===== verification/RbacExample.v ===== *)
(** * Histories of permissions

    An outside that answers each call in one way, for the histories of [Logs]. With the witnesses of [RbacSafety] and [RbacGrants], and two histories in which the
    cache gives a permission that the tables have not granted since before the
    request: the deletion of a role deletes the caches before the role, and an
    update of a role that fails half way does not delete them at all. *)

From S2P Require Import Prelude GoStrings Effects Logs RbacDb RbacEngine RbacHandlers RbacGrants RbacHistory RbacSafety.

Local Open Scope Z_scope.

(** ** Playing *)

Abbreviation move := (turn ROp Z).

Section play.
Context `{UT : UuidText} `{CFG : RbacConfig}.

Definition fresh_key (s : RSys) : uuid := 1000 + Z.of_nat (length (r_log s)).

Definition answer_call {X} (e : ROp X) (t : Z) (s : RSys) :
    option (X * RbacTables * gmap uuid (UserPermissions * Z)) :=
  match e in ROp X return option (X * RbacTables * gmap uuid (UserPermissions * Z)) with
  | RQuery q =>
      match roles (r_tables s) !! fresh_key s, user_roles (r_tables s) !! fresh_key s,
            accounts (r_tables s) !! fresh_key s with
      | None, None, None =>
          match exec q (fresh_key s) (r_tables s) with
          | Ok (d, y) => Some (Ok y, d, r_cache s)
          | Err r => Some (Err r, r_tables s, r_cache s)
          end
      | _, _, _ => None
      end
  | RGet u =>
      let x := match r_cache s !! u with
               | Some (perms, ends) => if t <? ends then Some perms else None
               | None => None
               end in
      Some (x, r_tables s, r_cache s)
  | RSet u perms ttl => Some (tt, r_tables s, <[u := (perms, t + ttl)]> (r_cache s))
  | RDel u => Some (true, r_tables s, delete u (r_cache s))
  | RAudit _ => Some (tt, r_tables s, r_cache s)
  | RReceived _ _ => Some (tt, r_tables s, r_cache s)
  | RRespond _ _ _ => Some (tt, r_tables s, r_cache s)
  | RInternal _ => Some (tt, r_tables s, r_cache s)
  | RRegistering _ => Some (tt, r_tables s, r_cache s)
  | RTx _ => Some (true, r_tables s, r_cache s)
  | RElsewhere => Some (tt, r_tables s, r_cache s)
  end.

Lemma same_answer_refl {A} (q : rquery A) y : same_answer q y y.
Proof. by destruct q. Qed.

Lemma answer_call_ok {X} (e : ROp X) t s x d c : answer_call e t s = Some (x, d, c) → may_answer e t s x d c.
Proof.
  destruct e; simpl; try (intros ?; by simplify_eq).
  - destruct (roles (r_tables s) !! _) eqn:Hr; [done|]. destruct (user_roles (r_tables s) !! _) eqn:Hu; [done|].
    destruct (accounts (r_tables s) !! _) eqn:Hac; [done|].
    intros H. split; [exists (fresh_key s); split_and!; [done..|]|];
      destruct (exec q (fresh_key s) (r_tables s)) as [[d1 y]|r]; simplify_eq; [|by auto|done..].
    left. exists y. split_and!; [apply same_answer_refl|done..].
  - intros ?. simplify_eq. split_and!; [done..|]. destruct (r_cache s !! userID) as [[perms ends]|]; [|by left].
    destruct (Z.ltb_spec t ends); [right; by eauto|by left].
  - intros ?. simplify_eq. split; [done|]. by right.
  - intros ?. simplify_eq. split; [done|]. by left.
  - intros ?. simplify_eq. repeat split; try done. congruence.
Qed.

(** At the time [t]. *)
Definition answer_at (t : Z) (i : nat) (X : Type) (e : ROp X) (s : RSys) : option (X * RSys) :=
  if t <? r_clock s then None
  else '(x, d, c) ← answer_call e t s;
       Some (x, {| r_tables := d; r_cache := c; r_clock := t; r_log := En t i (Ev e x) d :: r_log s |}).

Lemma answer_at_step t i X (e : ROp X) s x s' : answer_at t i X e s = Some (x, s') → step i X e s x s'.
Proof.
  unfold answer_at. destruct (Z.ltb_spec t (r_clock s)); [done|]. intros ([[x1 d] c] & Ha & [= <- <-])%bind_Some.
  exists t, d, c. split_and!; [done| |done]. by apply answer_call_ok.
Qed.

Definition idleb (i : nat) (s : RSys) : bool := bool_decide (i ∉ en_thread <$> r_log s).

Lemma idleb_idle i s : idleb i s = true → idle i s.
Proof. apply bool_decide_eq_true. Qed.

Definition play (ms : list move) : RSys → option RSys := take_turns answer_at idleb ms [].

Lemma played_history ms s s' : Forall (turn_ok starts) ms → play ms s = Some s' → rbac_histories s s'.
Proof. by apply (take_turns_threads step idle starts answer_at idleb answer_at_step idleb_idle). Qed.
End play.

(** ** An install *)

Module RbacCase.

(** A text for an identifier that reads back. *)
Fixpoint bits (p : positive) : string :=
  match p with xH => "" | xO p => String "0" (bits p) | xI p => String "1" (bits p) end.
Fixpoint unbits (s : string) : positive :=
  match s with
  | EmptyString => xH
  | String c s => if ascii_dec c "0" then xO (unbits s) else xI (unbits s)
  end.

Definition text (u : uuid) : string :=
  match u with Z0 => "0" | Zpos p => String "p" (bits p) | Zneg p => String "n" (bits p) end.
Definition untext (s : string) : option uuid :=
  match s with
  | EmptyString => None
  | String c s => if ascii_dec c "p" then Some (Zpos (unbits s))
                  else if ascii_dec c "n" then Some (Zneg (unbits s)) else Some 0
  end.

Lemma unbits_bits p : unbits (bits p) = p.
Proof. induction p as [p IH|p IH|]; simpl; by rewrite ?IH. Qed.

#[global] Instance case_text : UuidText := {| uuid_String := text; uuid_Parse := untext |}.
#[global] Instance case_laws : UuidTextLaws.
Proof. split; [|done]. intros []; simpl; by rewrite ?unbits_bits. Qed.
#[global] Instance case_config : RbacConfig := {| RedisWired := true |}.

Definition permission (id : uuid) (action resource : string) : uuid * Permission :=
  (id, {| pm_ID := id; pm_Action := action; pm_Resource := resource; pm_Description := "" |}).
Definition assignment (id user role : uuid) (st : string) (sid : option uuid) : uuid * UserRole :=
  (id, {| ur_ID := id; ur_UserID := user; ur_RoleID := role; ur_ScopeType := st; ur_ScopeID := sid |}).

(** User 7 manages roles; user 8 holds the role 20, which sees guests, on the
    cluster 100. *)
Definition install : RbacTables := {|
  roles := list_to_map [
    (10, {| ro_ID := 10; ro_Name := "Admin"; ro_Description := ""; ro_IsBuiltin := true |});
    (20, {| ro_ID := 20; ro_Name := "Guests"; ro_Description := ""; ro_IsBuiltin := false |})];
  permissions := list_to_map [permission 31 "manage" "role"; permission 32 "view" "vm"];
  role_permissions := {[(10, 31); (20, 32)]};
  user_roles := list_to_map [
    assignment 41 7 10 "global" None; assignment 42 8 20 "cluster" (Some 100)];
  accounts := {[7 := "a@nexara"; 8 := "b@nexara"]}; clusters := {[100]} |}.

Definition opening : RSys := {| r_tables := install; r_cache := ∅; r_clock := 0; r_log := [] |}.

Lemma opening_start : at_start opening.
Proof. done. Qed.

Definition sees : PermissionRef := {| pr_Action := "view"; pr_Resource := "vm"; pr_ClusterScoped := true |}.
Definition look : rbac_request := AnyOf [sees] (text 100) "".
Definition revoke : rbac_request := RevokeUserRoleRequest (text 8) (text 42).

Definition ok (status : Z) : reply := {| rp_Status := status; rp_Body := NoBody |}.

(** User 8 looks at the guests, has the role revoked, and looks again. *)
Definition revoking : list move := [
  Start 0 (serve_role (Some 8) look); Calls 0 9 0;
  Start 1 (serve_role (Some 7) revoke); Calls 1 20 second;
  Start 2 (serve_role (Some 8) look); Calls 2 9 (2 * second)].

Definition after (ms : list move) : RSys := match play ms opening with Some s => s | None => opening end.

Lemma revoking_history : rbac_histories opening (after revoking).
Proof. apply (played_history revoking); [repeat constructor|vm_compute; reflexivity]. Qed.

Lemma log_at {A} (l : list A) (n : nat) x : l !! n = Some x → l = take n l ++ x :: drop (S n) l.
Proof. intros Hn. by rewrite take_drop_middle. Qed.

Lemma admitted_means_granted_witness : backed 0 (Some 8) look (drop 14 (r_log (after revoking))).
Proof.
  apply (admitted_means_granted opening (after revoking) 0 (Some 8) look (ok 200) 0 install
    (drop 14 (r_log (after revoking))) (take 13 (r_log (after revoking))) opening_start revoking_history).
  - apply (log_at _ 13). vm_compute. reflexivity.
  - reflexivity.
Defined.

Lemma role_changes_authorised_witness :
  elsewhere install (revokeUserRole 42 8 install) ∨
  ∃ A (q : rquery A) x, Ev (RQuery (RevokeUserRole 42 8)) (Ok tt) = Ev (RQuery q) x ∧
    let l1 := drop 9 (r_log (after revoking)) in
    ((∃ w, works 1 w l1 ∧ does w q) ∨ new_account_role 1 q l1 ∨
     ∃ u r, serves 1 (Some u) r l1 ∧ ref_backed 1 u uuid_Nil (role_ref "manage") l1).
Proof.
  apply (role_changes_authorised opening (after revoking)
    (En second 1 (Ev (RQuery (RevokeUserRole 42 8)) (Ok tt)) (revokeUserRole 42 8 install))
    (drop 9 (r_log (after revoking))) (take 8 (r_log (after revoking))) opening_start revoking_history).
  - apply (log_at _ 8). vm_compute. reflexivity.
  - intros Heq%(f_equal (λ x, x.2 !! 42)). vm_compute in Heq. discriminate.
Defined.

(** On an install with no account but the server's, the first registration makes an
    administrator, and the second one, for a caller with no token, is refused. *)
Definition bare : RbacTables := {|
  roles := list_to_map [
    (AdminRoleID, {| ro_ID := AdminRoleID; ro_Name := "Admin"; ro_Description := ""; ro_IsBuiltin := true |})];
  permissions := ∅; role_permissions := ∅; user_roles := ∅; accounts := {[SystemUserID := "system"]};
  clusters := ∅ |}.

Definition unpacked : RSys := {| r_tables := bare; r_cache := ∅; r_clock := 0; r_log := [] |}.

Definition registering_twice : list move := [
  Start 0 (register "" "first@nexara" None); Calls 0 9 0;
  Start 1 (register "" "second@nexara" None); Calls 1 9 second].

Example first_is_admin :
  ∃ s, play registering_twice unpacked = Some s ∧
    (map_to_list (user_roles (r_tables s))).*2 =
      [{| ur_ID := 1006; ur_UserID := 1004; ur_RoleID := AdminRoleID; ur_ScopeType := "global"; ur_ScopeID := None |}] ∧
    dom (accounts (r_tables s)) = {[SystemUserID; 1004]}.
Proof. eexists. split_and!; [vm_compute; reflexivity..|]. apply set_eq. vm_compute. naive_solver. Qed.

Lemma revocation_takes_effect_witness :
  ∃ u id, uuid_Parse (text 8) = Some u ∧ uuid_Parse (text 42) = Some id ∧ u = 8 ∧ id = 42.
Proof.
  destruct (revocation_takes_effect opening (after revoking) 1 (Some 7) (text 8) (text 42) (ok 204) second
    (revokeUserRole 42 8 install) (drop 6 (r_log (after revoking))) (take 5 (r_log (after revoking)))
    opening_start revoking_history) as (u & id & acked & la & td & dd & lx & tq & dq & lb & Hu & Hid & _).
  - reflexivity.
  - apply (log_at _ 5). vm_compute. reflexivity.
  - reflexivity.
  - exists u, id. split; [exact Hu|]. split; [exact Hid|]. split; [by injection Hu|by injection Hid].
Defined.

Lemma permissions_agree_witness :
  let rows := getUserScopedPermissions 8 install in
  has_permission (to_scoped <$> rows) "view" "vm" "cluster" 100 =
    checkUserPermission 8 "view" "vm" "cluster" (Some 100) install ∧
  checkUserPermission 8 "view" "vm" "cluster" (Some 100) install = true.
Proof.
  split; [|reflexivity].
  exact (proj1 (permissions_agree (MR := map_to_list_range) install 8 "view" "vm"
    (getUserScopedPermissions 8 install) 100 (reflexivity (getUserScopedPermissions 8 install)))).
Defined.

(** ** Two histories the cache spoils *)

(** The deletion of a role deletes the caches of its users and then the role. User
    8 looks between the two. *)
Definition deleting : list move := [
  Start 0 (serve_role (Some 7) (DeleteRoleRequest (text 20))); Calls 0 7 0;
  Start 1 (serve_role (Some 8) look); Calls 1 9 second;
  Calls 0 9 (2 * second);
  Start 2 (serve_role (Some 8) look); Calls 2 9 (3 * second)].

(** A request received after the deletion was answered is let through, though the
    tables grant nothing since before it came in. *)
Example deleted_role_admits :
  rbac_histories opening (after deleting) ∧
  checkUserPermission 8 "view" "vm" "cluster" (Some 100) (r_tables (after deleting)) = false ∧
  r_log (after deleting) !! 0%nat =
    Some (En (3 * second) 2 (Ev (RRespond (Some 8) look (ok 200)) tt) (r_tables (after deleting))) ∧
  r_log (after deleting) !! 2%nat =
    Some (En (3 * second) 2 (Ev (RReceived (Some 8) look) tt) (r_tables (after deleting))) ∧
  r_log (after deleting) !! 3%nat =
    Some (En (2 * second) 0 (Ev (RRespond (Some 7) (DeleteRoleRequest (text 20)) (ok 204)) tt)
            (r_tables (after deleting))).
Proof.
  split; [apply (played_history deleting); [repeat constructor|]|split_and!]; vm_compute; reflexivity.
Qed.

(** User 8 looks; an update replaces the permissions of the role by one that does
    not exist; user 8 looks again. *)
Definition half_updating : list move := [
  Start 0 (serve_role (Some 8) look); Calls 0 9 0;
  Start 1 (serve_role (Some 7) (UpdateRoleRequest (text 20) None None (Some [text 99]))); Calls 1 20 second;
  Start 2 (serve_role (Some 8) look); Calls 2 9 (2 * second)].

(** The update has taken the permission away and is answered with an error, and
    the request after it is let through. *)
Example half_update_admits :
  rbac_histories opening (after half_updating) ∧
  checkUserPermission 8 "view" "vm" "cluster" (Some 100) (r_tables (after half_updating)) = false ∧
  r_log (after half_updating) !! 0%nat =
    Some (En (2 * second) 2 (Ev (RRespond (Some 8) look (ok 200)) tt) (r_tables (after half_updating))) ∧
  r_log (after half_updating) !! 3%nat =
    Some (En second 1 (Ev (RRespond (Some 7) (UpdateRoleRequest (text 20) None None (Some [text 99]))
      (fiber_error 400 ("Invalid permission ID: " +:+ text 99))) tt) (r_tables (after half_updating))).
Proof.
  split; [apply (played_history half_updating); [repeat constructor|]|split_and!]; vm_compute; reflexivity.
Qed.
End RbacCase.
