(* ===== verification/MigrationOps.v ===== *)
(** * Migrations: data and calls

    The migration job ([db/generated/models.go]) and the queries of
    [db/generated/migrations.sql.go] on it, the parameters of the Proxmox requests
    a migration makes ([proxmox/types.go], [proxmox/diskmove.go]), the constants of
    [migration/types.go], and the calls of the orchestrator as the constructors of
    [MOp].

    The error of a call is its text. A JSONB column of a job is the map it decodes
    to. The details of an audit entry are its fields, not their rendering. Log
    lines are left out. [RequirePerm] and [Accessible] are [requireClusterPerm] and
    [accessibleClusters] of [RbacEngine], by their answers; [AuditLogAs] is the
    handlers' audit, which answers nothing. *)

From S2P Require Import Prelude GoFloat GoStrings ProxmoxApi Effects Crs DrsRules DrsPlanner DrsExecutor RbacEngine.

Local Open Scope Z_scope.

(** ** Vocabulary (migration/types.go) *)

Definition StatusPending : string := "pending".
Definition StatusChecking : string := "checking".
Definition StatusMigrating : string := "migrating".
Definition StatusCompleted : string := "completed".
Definition StatusFailed : string := "failed".
Definition StatusCancelled : string := "cancelled".

Definition TypeIntraCluster : string := "intra-cluster".
Definition TypeCrossCluster : string := "cross-cluster".

Definition VMTypeQEMU : string := "qemu".
Definition VMTypeLXC : string := "lxc".

Definition ModeLive : string := "live".
Definition ModeStorage : string := "storage".
Definition ModeBoth : string := "both".

Inductive CheckSeverity := SeverityPass | SeverityWarn | SeverityFail.

#[export] Instance CheckSeverity_eq_dec : EqDecision CheckSeverity.
Proof. solve_decision. Defined.

Record CheckResult := { ck_Name : string; ck_Severity : CheckSeverity; ck_Message : string }.

Record PreFlightReport := { pf_Checks : list CheckResult; pf_Passed : bool }.

(** ** The job *)

Record MigrationJob := {
  mj_ID : uuid; mj_SourceClusterID : uuid; mj_TargetClusterID : uuid; mj_SourceNode : string;
  mj_TargetNode : string; mj_Vmid : Z; mj_VmType : string; mj_MigrationType : string;
  mj_StorageMap : gmap string string; mj_NetworkMap : gmap string string; mj_Online : bool;
  mj_BwlimitKib : Z; mj_DeleteSource : bool; mj_TargetVmid : Z; mj_Status : string; mj_Upid : string;
  mj_Progress : float64; mj_CheckResults : option PreFlightReport; mj_ErrorMessage : string;
  mj_CreatedBy : option uuid; mj_StartedAt : option Z; mj_CompletedAt : option Z;
  mj_MigrationMode : string; mj_TargetStorage : string; mj_DiskFormat : string }.

(** The columns an update writes. *)
Definition set_job (status upid : string) (progress : float64) (checks : option PreFlightReport)
    (error : string) (started completed : option Z) (j : MigrationJob) : MigrationJob := {|
  mj_ID := mj_ID j; mj_SourceClusterID := mj_SourceClusterID j; mj_TargetClusterID := mj_TargetClusterID j;
  mj_SourceNode := mj_SourceNode j; mj_TargetNode := mj_TargetNode j; mj_Vmid := mj_Vmid j;
  mj_VmType := mj_VmType j; mj_MigrationType := mj_MigrationType j; mj_StorageMap := mj_StorageMap j;
  mj_NetworkMap := mj_NetworkMap j; mj_Online := mj_Online j; mj_BwlimitKib := mj_BwlimitKib j;
  mj_DeleteSource := mj_DeleteSource j; mj_TargetVmid := mj_TargetVmid j; mj_Status := status; mj_Upid := upid;
  mj_Progress := progress; mj_CheckResults := checks; mj_ErrorMessage := error; mj_CreatedBy := mj_CreatedBy j;
  mj_StartedAt := started; mj_CompletedAt := completed; mj_MigrationMode := mj_MigrationMode j;
  mj_TargetStorage := mj_TargetStorage j; mj_DiskFormat := mj_DiskFormat j |}.

Abbreviation jobs := (gmap uuid MigrationJob).

Definition cancelMigrationJob (id : uuid) : jobs → jobs :=
  alter (λ j, if bool_decide (mj_Status j = StatusPending ∨ mj_Status j = StatusChecking)
              then set_job StatusCancelled (mj_Upid j) (mj_Progress j) (mj_CheckResults j) (mj_ErrorMessage j)
                     (mj_StartedAt j) (mj_CompletedAt j) j
              else j) id.

Definition completeMigrationJob (id : uuid) (status : string) (completedAt : Z) (error : string) : jobs → jobs :=
  alter (λ j, set_job status (mj_Upid j) (mj_Progress j) (mj_CheckResults j) error (mj_StartedAt j)
                (Some completedAt) j) id.

Definition setMigrationJobStarted (id : uuid) (startedAt : Z) (upid : string) : jobs → jobs :=
  alter (λ j, set_job StatusMigrating upid (mj_Progress j) (mj_CheckResults j) (mj_ErrorMessage j)
                (Some startedAt) (mj_CompletedAt j) j) id.

Definition updateMigrationJobChecks (id : uuid) (report : PreFlightReport) (status : string) : jobs → jobs :=
  alter (λ j, set_job status (mj_Upid j) (mj_Progress j) (Some report) (mj_ErrorMessage j) (mj_StartedAt j)
                (mj_CompletedAt j) j) id.

Definition updateMigrationJobProgress (id : uuid) (progress : float64) (upid : string) : jobs → jobs :=
  alter (λ j, set_job (mj_Status j) upid progress (mj_CheckResults j) (mj_ErrorMessage j) (mj_StartedAt j)
                (mj_CompletedAt j) j) id.

Definition updateMigrationJobStatus (id : uuid) (status error : string) : jobs → jobs :=
  alter (λ j, set_job status (mj_Upid j) (mj_Progress j) (mj_CheckResults j) error (mj_StartedAt j)
                (mj_CompletedAt j) j) id.

(** ** What Proxmox is asked *)

Record MigrateParams := { mp_Target : string; mp_Online : bool; mp_BWLimit : Z }.

Record TargetEndpoint := { te_Host : string; te_APIToken : string; te_Fingerprint : string }.

(** [RemoteMigrateVMParams] and [RemoteMigrateCTParams]; [rm_Online] is the
    latter's [Restart]. *)
Record RemoteMigrateParams := {
  rm_TargetBridge : string; rm_TargetStorage : string; rm_TargetVMID : Z; rm_TargetEndpoint : TargetEndpoint;
  rm_BWLimit : Z; rm_Online : bool; rm_Delete : bool }.

Record DiskMoveParams := {
  dm_Disk : string; dm_Storage : string; dm_Format : string; dm_Delete : bool; dm_BWLimit : Z }.

Record CTVolumeMoveParams := { cv_Volume : string; cv_Storage : string; cv_Delete : bool; cv_BWLimit : Z }.

Record NodeStatusInfo := { ns_PVEVersion : string; ns_CPUModel : string; ns_CPUFlags : string }.

Record ClusterResource := { cr_VMID : Z; cr_Type : string; cr_Node : string }.

Record StoragePool := { sp_Storage : string; sp_Active : Z; sp_Enabled : Z }.

(** A guest's configuration: a value is a string, or something else ([None]). *)
Abbreviation GuestConfig := (gmap string (option string)).

Inductive mrequest : Type → Type :=
| GetNodes : mrequest (list (string * string))
| GetNodeStatus (node : string) : mrequest NodeStatusInfo
| GetClusterResources (kind : string) : mrequest (list ClusterResource)
| GetStoragePools (node : string) : mrequest (list StoragePool)
| GetNetworkBridges (node : string) : mrequest (list string)
| GetVMConfig (node : string) (vmid : Z) : mrequest GuestConfig
| GetCTConfig (node : string) (vmid : Z) : mrequest GuestConfig
| MigrateVM (node : string) (vmid : Z) (params : MigrateParams) : mrequest string
| MigrateCT (node : string) (vmid : Z) (params : MigrateParams) : mrequest string
| RemoteMigrateVM (node : string) (vmid : Z) (params : RemoteMigrateParams) : mrequest string
| RemoteMigrateCT (node : string) (vmid : Z) (params : RemoteMigrateParams) : mrequest string
| MoveDisk (node : string) (vmid : Z) (params : DiskMoveParams) : mrequest string
| MoveCTVolume (node : string) (vmid : Z) (params : CTVolumeMoveParams) : mrequest string
| GetTaskStatus (node upid : string) : mrequest TaskStatus.

(** The row of a cluster, as far as a migration reads it. *)
Record Cluster := {
  cl_ID : uuid; cl_Name : string; cl_ApiUrl : string; cl_TokenID : string; cl_TokenSecretEncrypted : string;
  cl_TlsFingerprint : string }.

(** ** Calls *)

(** The context a write is made with: the orchestrator's own, which ends at
    shutdown, or one that [cleanupCtxFor] makes sure is alive. *)
Inductive write_ctx := OwnCtx | CleanupCtx.

(** What the [select] of a polling loop finds. *)
Inductive wake := Done | Ticked.

Inductive detail := DText (s : string) | DInt (z : Z) | DBool (b : bool).

Record CreateMigrationJobParams := {
  cm_SourceClusterID : uuid; cm_TargetClusterID : uuid; cm_SourceNode : string; cm_TargetNode : string;
  cm_Vmid : Z; cm_VmType : string; cm_MigrationType : string; cm_StorageMap : gmap string string;
  cm_NetworkMap : gmap string string; cm_Online : bool; cm_BwlimitKib : Z; cm_DeleteSource : bool;
  cm_TargetVmid : Z; cm_CreatedBy : option uuid; cm_MigrationMode : string; cm_TargetStorage : string;
  cm_DiskFormat : string }.

Inductive MOp : Type → Type :=
| GetMigrationJob (id : uuid) : MOp (result string MigrationJob)
| CreateMigrationJob (arg : CreateMigrationJobParams) : MOp (result string MigrationJob)
| UpdateMigrationJobStatus (id : uuid) (status : string) : MOp (option string)
| UpdateMigrationJobChecks (id : uuid) (report : PreFlightReport) (status : string) : MOp (option string)
| SetMigrationJobStarted (id : uuid) (startedAt : Z) (upid : string) : MOp (option string)
| UpdateMigrationJobProgress (id : uuid) (progress : float64) (upid : string) : MOp (option string)
| CompleteMigrationJob (c : write_ctx) (id : uuid) (status : string) (completedAt : Z) (error : string) :
    MOp (option string)
| CancelMigrationJob (id : uuid) : MOp (option string)
| ReconcileTaskHistory (c : write_ctx) (upid status exitStatus : string) (finishedAt : Z) : MOp unit
| InsertTaskHistory (cluster user : uuid) (upid description status node taskType : string) : MOp unit
| InsertAuditLog (c : write_ctx) (cluster user : uuid) (resourceType : string) (resource : option uuid)
    (action : string) (details : list (string * detail)) : MOp unit
| GetVMByClusterAndVmid (cluster : uuid) (vmid : Z) : MOp (option (uuid * string))
| GetNodeByClusterAndName (cluster : uuid) (node : string) : MOp (option bool)
| GetCluster (id : uuid) : MOp (result string Cluster)
| CacheGet (id : uuid) : MOp bool
| NewClient (c : Cluster) (tokenSecret : string) : MOp (option string)
| Pve {A} (cluster : uuid) (r : mrequest A) : MOp (result string A)
| Publish (cluster : uuid) (kind resourceType action : string) : MOp unit
| Now : MOp Z
| Select : MOp wake
| RequirePerm (action resource : string) (cluster : uuid) : MOp (option reply)
| Accessible (action resource : string) : MOp (result reply clusterAccess)
| ListMigrationJobs (limit offset : Z) (scope : option (list uuid)) : MOp (result string (list MigrationJob))
| ListMigrationJobsByCluster (cluster : uuid) (limit offset : Z) : MOp (result string (list MigrationJob))
| AuditLogAs (actor cluster : uuid) (resourceType : string) (resource : uuid) (action : string)
    (details : list (string * detail)) : MOp unit
| TakeSlot : MOp bool
| SpawnExecute (jobID userID : uuid) : MOp unit
| ReleaseSlot : MOp unit.

Abbreviation mprog := (prog MOp).
Definition mask {X} (e : MOp X) : mprog X := call e.
Definition pve {A} (cluster : uuid) (r : mrequest A) : mprog (result string A) := mask (Pve cluster r).
Arguments mask {X} e : simpl never.
Arguments pve {A} cluster r : simpl never.

(** ** What a program makes *)

(** Every call is one of [P], whatever is answered. *)
Abbreviation makes P p := (calls_ok P (λ _ _ _, True) p (λ _, True)).

Lemma makes_bind (P : ∀ X, MOp X → Prop) {A B} (p : mprog A) (f : A → mprog B) :
  makes P p → (∀ a, makes P (f a)) → makes P (bind p f).
Proof. intros Hp Hf. apply calls_bind. eapply calls_mono; [|exact Hp]. auto. Qed.

Lemma makes_mask (P : ∀ X, MOp X → Prop) {X} (e : MOp X) : P X e → makes P (mask e).
Proof. intros He. by apply calls_call. Qed.

Create HintDb makes.

(** Through a program: [t] on each call, the hints on each part. *)
Tactic Notation "makes_go" tactic3(t) := repeat
  match goal with
  | |- calls_ok _ _ (bind _ _) _ => apply makes_bind; [|intros]
  | |- calls_ok _ _ (mask _) _ => apply makes_mask; t
  | |- calls_ok _ _ (pve _ _) _ => apply makes_mask; t
  | |- calls_ok _ _ (Ret _) _ => done
  | |- calls_ok _ _ (match ?x with _ => _ end) _ => destruct x
  | |- calls_ok _ _ _ _ => by eauto with makes
  end.
