(* ===== verification/MigrationChecks.v ===== *)
(** * Pre-flight checks of a migration

    [migration/checks.go]. Each check asks Proxmox and gives a verdict; the report
    passes exactly when none of them fails ([preflight_verdict]). *)

From S2P Require Import Prelude GoFloat GoStrings ProxmoxApi Effects Crs DrsRules DrsPlanner DrsExecutor MigrationOps.

Local Open Scope Z_scope.

Definition check (name : string) (severity : CheckSeverity) (message : string) : CheckResult :=
  {| ck_Name := name; ck_Severity := severity; ck_Message := message |}.

(** [addCheck] *)
Definition addCheck (r : PreFlightReport) (c : CheckResult) : PreFlightReport :=
  {| pf_Checks := pf_Checks r ++ [c];
     pf_Passed := if bool_decide (ck_Severity c = SeverityFail) then false else pf_Passed r |}.

Definition slash : ascii := Ascii.ascii_of_nat 47.
Definition dot : ascii := Ascii.ascii_of_nat 46.

(** [strings.SplitN(ver, "/", 3)[1]], when there is one. *)
Definition version_part (ver : string) : option string := Split slash ver !! 1%nat.

(** [strings.SplitN(part, ".", 2)[0]] *)
Definition major_of (part : string) : string := hd "" (Split dot part).

(** [major >= "7"], on the bytes of the strings. *)
Definition major_supported (major : string) : bool := String.leb "7" major.

Definition version_verdict (node ver : string) : CheckResult :=
  if bool_decide (ver = "") then check "pve_version" SeverityWarn ("Could not determine PVE version for " +:+ node)
  else match version_part ver with
       | Some part =>
           if major_supported (major_of part)
           then check "pve_version" SeverityPass
                  ("PVE version " +:+ part +:+ " on " +:+ node +:+ " supports remote migration")
           else check "pve_version" SeverityFail
                  ("PVE version " +:+ part +:+ " on " +:+ node +:+ " does not support remote migration (requires >= 7.0)")
       | None =>
           check "pve_version" SeverityWarn ("Could not parse PVE version " +:+ Quote ver +:+ " for " +:+ node)
       end.

Definition checkPVEVersion (client : uuid) (node : string) : mprog CheckResult :=
  let! status := pve client (GetNodeStatus node) in
  match status with
  | Err e => Ret (check "pve_version" SeverityFail ("Failed to get node status for " +:+ node +:+ ": " +:+ e))
  | Ok status => Ret (version_verdict node (ns_PVEVersion status))
  end.

Definition parseFlags (flagStr : string) : list string := Fields flagStr.

Definition criticalFlags : list string := ["vmx"; "svm"].

Definition missing_flags (src tgt : NodeStatusInfo) : list string :=
  List.filter (λ flag, contains (parseFlags (ns_CPUFlags src)) flag &&
                       negb (contains (parseFlags (ns_CPUFlags tgt)) flag)) criticalFlags.

Definition checkCPUCompatibility (srcClient tgtClient : uuid) (srcNode tgtNode : string) : mprog CheckResult :=
  let! src := pve srcClient (GetNodeStatus srcNode) in
  match src with
  | Err e => Ret (check "cpu_compatibility" SeverityWarn ("Could not get source node CPU info: " +:+ e))
  | Ok src =>
      let! tgt := pve tgtClient (GetNodeStatus tgtNode) in
      match tgt with
      | Err e => Ret (check "cpu_compatibility" SeverityWarn ("Could not get target node CPU info: " +:+ e))
      | Ok tgt =>
          let missing := missing_flags src tgt in
          if negb (bool_decide (missing = []))
          then Ret (check "cpu_compatibility" SeverityWarn
                      ("Target node " +:+ tgtNode +:+ " missing CPU flags: " +:+ Join ", " missing))
          else Ret (check "cpu_compatibility" SeverityPass
                      ("CPU compatibility OK (source: " +:+ ns_CPUModel src +:+ ", target: " +:+
                       ns_CPUModel tgt +:+ ")"))
      end
  end.

(** The loop over the nodes. *)
Fixpoint node_verdict (node : string) (nodes : list (string * string)) : CheckResult :=
  match nodes with
  | [] => check "target_node_online" SeverityFail ("Target node " +:+ node +:+ " not found in cluster")
  | (n, status) :: nodes =>
      if bool_decide (n = node) then
        if bool_decide (status = "online")
        then check "target_node_online" SeverityPass ("Target node " +:+ node +:+ " is online")
        else check "target_node_online" SeverityFail ("Target node " +:+ node +:+ " is " +:+ status)
      else node_verdict node nodes
  end.

Definition checkTargetNodeOnline (client : uuid) (node : string) : mprog CheckResult :=
  let! nodes := pve client GetNodes in
  match nodes with
  | Err e => Ret (check "target_node_online" SeverityFail ("Failed to list nodes: " +:+ e))
  | Ok nodes => Ret (node_verdict node nodes)
  end.

Definition is_guest (vmid : Z) (r : ClusterResource) : bool :=
  (cr_VMID r =? vmid) && (bool_decide (cr_Type r = "qemu") || bool_decide (cr_Type r = "lxc")).

Definition checkTargetVMIDAvailable (client : uuid) (vmid : Z) : mprog CheckResult :=
  if vmid <=? 0
  then Ret (check "target_vmid" SeverityPass "No target VMID specified; Proxmox will auto-assign")
  else
    let! resources := pve client (GetClusterResources "") in
    match resources with
    | Err e => Ret (check "target_vmid" SeverityWarn ("Could not check target VMID availability: " +:+ e))
    | Ok resources =>
        match find (is_guest vmid) resources with
        | Some r => Ret (check "target_vmid" SeverityFail
            ("VMID " +:+ Itoa vmid +:+ " already exists on target cluster (type: " +:+ cr_Type r +:+
             ", node: " +:+ cr_Node r +:+ ")"))
        | None => Ret (check "target_vmid" SeverityPass
            ("VMID " +:+ Itoa vmid +:+ " is available on target cluster"))
        end
    end.

Section mappings.
Context `{MR : MapRange}.

(** The targets of a mapping that are not among [known], in the order of the
    range. *)
Definition missing_targets (known : list string) (m : gmap string string) : list string :=
  List.filter (λ t, negb (contains known t)) (go_range m).*2.

Definition usable_pools (pools : list StoragePool) : list string :=
  sp_Storage <$> List.filter (λ p, (sp_Active p =? 1) && (sp_Enabled p =? 1)) pools.

Definition checkStorageMappings (client : uuid) (node : string) (storageMap : gmap string string) :
    mprog CheckResult :=
  if Nat.eqb (size storageMap) 0
  then Ret (check "storage_mappings" SeverityPass "No storage mappings (Proxmox will use default)")
  else
    let! pools := pve client (GetStoragePools node) in
    match pools with
    | Err e => Ret (check "storage_mappings" SeverityWarn ("Could not verify target storage pools: " +:+ e))
    | Ok pools =>
        let missing := missing_targets (usable_pools pools) storageMap in
        if negb (bool_decide (missing = []))
        then Ret (check "storage_mappings" SeverityFail
                    ("Target storage pools not found or inactive: " +:+ Join ", " missing))
        else Ret (check "storage_mappings" SeverityPass
                    ("All " +:+ Itoa (Z.of_nat (size storageMap)) +:+ " storage mappings verified"))
    end.

Definition checkNetworkMappings (client : uuid) (node : string) (networkMap : gmap string string) :
    mprog CheckResult :=
  if Nat.eqb (size networkMap) 0
  then Ret (check "network_mappings" SeverityPass "No network mappings (Proxmox will use default)")
  else
    let! bridges := pve client (GetNetworkBridges node) in
    match bridges with
    | Err e => Ret (check "network_mappings" SeverityWarn ("Could not verify target bridges: " +:+ e))
    | Ok bridges =>
        let missing := missing_targets bridges networkMap in
        if negb (bool_decide (missing = []))
        then Ret (check "network_mappings" SeverityFail ("Target bridges not found: " +:+ Join ", " missing))
        else Ret (check "network_mappings" SeverityPass
                    ("All " +:+ Itoa (Z.of_nat (size networkMap)) +:+ " network mappings verified"))
    end.

Definition RunPreFlightChecks (sourceClient targetClient : uuid) (sourceNode targetNode migrationType : string)
    (storageMap networkMap : gmap string string) (targetVMID : Z) : mprog PreFlightReport :=
  let report := {| pf_Checks := []; pf_Passed := true |} in
  if bool_decide (migrationType = TypeIntraCluster) then
    let! c1 := checkTargetNodeOnline sourceClient targetNode in
    let! c2 := checkTargetVMIDAvailable targetClient targetVMID in
    Ret (addCheck (addCheck report c1) c2)
  else
    let! c1 := checkPVEVersion sourceClient sourceNode in
    let! c2 := checkPVEVersion targetClient targetNode in
    let! c3 := checkCPUCompatibility sourceClient targetClient sourceNode targetNode in
    let! c4 := checkTargetNodeOnline targetClient targetNode in
    let report := addCheck (addCheck (addCheck (addCheck report c1) c2) c3) c4 in
    let! report := if 0 <? targetVMID
                   then let! c5 := checkTargetVMIDAvailable targetClient targetVMID in Ret (addCheck report c5)
                   else Ret report in
    let! c6 := checkStorageMappings targetClient targetNode storageMap in
    let! c7 := checkNetworkMappings targetClient targetNode networkMap in
    Ret (addCheck (addCheck report c6) c7).
End mappings.

(** ** The verdict *)

Definition no_failure (r : PreFlightReport) : bool :=
  forallb (λ c, negb (bool_decide (ck_Severity c = SeverityFail))) (pf_Checks r).

Lemma addCheck_sound r c : pf_Passed r = no_failure r → pf_Passed (addCheck r c) = no_failure (addCheck r c).
Proof.
  intros Hr. unfold no_failure in *. simpl. rewrite forallb_app, <-Hr. simpl.
  case_bool_decide; simpl; [by rewrite andb_false_r|by rewrite andb_true_r].
Qed.

Section verdicts.
Context `{MR : MapRange}.

(** The checks end in a report that passes exactly when no check of it failed,
    whatever is answered. *)
Theorem preflight_verdict src tgt srcNode tgtNode type storageMap networkMap vmid t report :
  returns (RunPreFlightChecks src tgt srcNode tgtNode type storageMap networkMap vmid) t report →
  pf_Passed report = no_failure report.
Proof.
  intros Ht. eapply (keeps_returns (λ _, True) _ (λ r _, pf_Passed r = no_failure r) []); [|exact Ht].
  assert (∀ {A} (p : mprog A) (f : A → mprog PreFlightReport) l,
    (∀ a l', keeps_log (λ _, True) (f a) (λ r _, pf_Passed r = no_failure r) l') →
    keeps_log (λ _, True) (bind p f) (λ r _, pf_Passed r = no_failure r) l) as Hany.
  { intros A p f l Hf. apply keeps_bind. revert l. induction p as [a|X e k IH]; intros l; [by apply keeps_ret|].
    intros l1 <- x l2 ->. split; [done|]. apply IH. }
  unfold RunPreFlightChecks. case_bool_decide.
  - do 2 (apply Hany; intros ? ?). apply keeps_ret. by do 2 apply addCheck_sound.
  - do 4 (apply Hany; intros ? ?). apply keeps_bind.
    eapply (keeps_mono _ _ (λ r _, pf_Passed r = no_failure r)).
    + intros r l Hr. do 2 (apply Hany; intros ? ?). apply keeps_ret. by do 2 apply addCheck_sound.
    + case_match; [apply Hany; intros ? ?|]; apply keeps_ret; by repeat apply addCheck_sound.
Qed.
End verdicts.
