(* ===== verification/MigrationRun.v ===== *)
(** * The migration orchestrator

    [migration/orchestrator.go]: the pre-flight, the execution of a job in each of
    its modes, the polling of its tasks and the record it leaves. A polling loop
    takes the number of wake-ups it is given; a program that has used them up
    returns [None] or [Waiting], and a theorem about a run holds for every number.

    The scrubber of a migration context is the secret it removes. *)

From S2P Require Import Prelude GoFloat GoStrings ProxmoxApi Effects Crs DrsRules DrsPlanner DrsExecutor MigrationOps.
From S2P Require Import MigrationChecks.

Local Open Scope Z_scope.

(** [crypto.Decrypt] with the server's key, and the text of a UUID. *)
Class MigrationLibrary := { Decrypt : string → result string string; uuid_text : uuid → string }.

(** Whether the orchestrator has the client cache. *)
Class MigrationConfig := { CacheWired : bool }.

Definition defaultPollStaleGrace : Z := 24 * 3600 * second.

(** ** Secrets *)

Fixpoint replace_go (fuel : nat) (s old new : string) : string :=
  match fuel, s with
  | S fuel, String c s' =>
      if HasPrefix s old then new +:+ replace_go fuel (sdrop (slen old) s) old new
      else String c (replace_go fuel s' old new)
  | _, _ => s
  end.

(** [strings.ReplaceAll(s, old, new)] for an [old] that is not empty. *)
Definition ReplaceAll (s old new : string) : string := replace_go (slen s) s old new.

Definition redactedTokenSecret : string := "REDACTED".

Definition scrubSecret (s secret : string) : string :=
  if bool_decide (secret = "") then s else ReplaceAll s secret redactedTokenSecret.

Definition endpointTokenSecret (apiToken : string) : string :=
  let '(_, secret, ok) := Cut equals apiToken in if ok then secret else apiToken.

(** [scrubEndpointSecret], on the text of the error. *)
Definition scrubEndpointSecret (msg apiToken : string) : string := scrubSecret msg (endpointTokenSecret apiToken).

Record migrationContext := {
  mc_job : MigrationJob; mc_vmDBID : option uuid; mc_vmName : string; mc_vmLabel : string; mc_userID : uuid;
  mc_scrubber : option string }.

Definition scrub (mc : option migrationContext) (s : string) : string :=
  match mc with
  | None => s
  | Some mc => match mc_scrubber mc with None => s | Some secret => scrubSecret s secret end
  end.

Definition armEndpointScrubber (mc : migrationContext) (apiToken : string) : migrationContext :=
  let secret := endpointTokenSecret apiToken in
  if bool_decide (secret = "") then mc
  else {| mc_job := mc_job mc; mc_vmDBID := mc_vmDBID mc; mc_vmName := mc_vmName mc; mc_vmLabel := mc_vmLabel mc;
          mc_userID := mc_userID mc; mc_scrubber := Some secret |}.

Definition typeLabel (vmType : string) : string := if bool_decide (vmType = VMTypeLXC) then "CT" else "VM".

(** ** Disks *)

Record DiskMoveSpec := {
  ds_Disk : string; ds_TargetStorage : string; ds_Format : string; ds_DeleteSource : bool; ds_BWLimitKiB : Z;
  ds_FromStorage : string }.

Definition VMParams (s : DiskMoveSpec) : DiskMoveParams :=
  {| dm_Disk := ds_Disk s; dm_Storage := ds_TargetStorage s; dm_Format := ds_Format s;
     dm_Delete := ds_DeleteSource s; dm_BWLimit := ds_BWLimitKiB s |}.

Definition CTParams (s : DiskMoveSpec) : CTVolumeMoveParams :=
  {| cv_Volume := ds_Disk s; cv_Storage := ds_TargetStorage s; cv_Delete := ds_DeleteSource s;
     cv_BWLimit := ds_BWLimitKiB s |}.

Definition Summary (s : DiskMoveSpec) : string :=
  ds_Disk s +:+ " → " +:+ ds_TargetStorage s +:+
  (if bool_decide (ds_Format s = "") then "" else " (" +:+ ds_Format s +:+ ")").

Definition VolumeStorage (val : string) : string :=
  let '(first, _, _) := Cut comma val in
  let '(storage, _, found) := Cut colon first in
  if negb found || Contains storage "/" then "" else storage.

Record movableDisk := { md_Key : string; md_Storage : string }.

Record diskMove := { mv_Disk : string; mv_Target : string; mv_Source : string }.

Definition diskMoveSpec (job : MigrationJob) (m : diskMove) : DiskMoveSpec :=
  {| ds_Disk := mv_Disk m; ds_TargetStorage := mv_Target m; ds_Format := mj_DiskFormat job;
     ds_DeleteSource := mj_DeleteSource job; ds_BWLimitKiB := mj_BwlimitKib job; ds_FromStorage := mv_Source m |}.

Fixpoint resolveDiskTargets (disks : list movableDisk) (storageMap : gmap string string) (fallback : string) :
    list diskMove :=
  match disks with
  | [] => []
  | d :: disks =>
      let perDisk := negb (Nat.eqb (size storageMap) 0) in
      let target := if perDisk then default "" (storageMap !! md_Key d) else fallback in
      let rest := resolveDiskTargets disks storageMap fallback in
      if bool_decide (target = "") || bool_decide (target = md_Storage d) then rest
      else {| mv_Disk := md_Key d; mv_Target := target; mv_Source := md_Storage d |} :: rest
  end.

Definition isQEMUDiskKey (key : string) : bool :=
  existsb (HasPrefix key) ["scsi"; "virtio"; "sata"; "ide"; "efidisk"].

Definition qemu_disk (kv : string * option string) : option movableDisk :=
  match kv with
  | (key, Some s) =>
      if negb (isQEMUDiskKey key) then None
      else if Contains s "media=cdrom" || Contains s "cloudinit" then None
      else if bool_decide (key = "efidisk0") then None
      else if negb (Contains s ":") then None
      else Some {| md_Key := key; md_Storage := VolumeStorage s |}
  | (_, None) => None
  end.

Definition lxc_volume (kv : string * option string) : option movableDisk :=
  match kv with
  | (key, Some s) =>
      if bool_decide (key = "rootfs") || HasPrefix key "mp" then
        if negb (Contains s ":") then None else Some {| md_Key := key; md_Storage := VolumeStorage s |}
      else None
  | (_, None) => None
  end.

(** The bridges a [net*] value names. *)
Definition net_bridges (s : string) : list string :=
  omap (λ part, if HasPrefix part "bridge="
                then let b := TrimPrefix part "bridge=" in if bool_decide (b = "") then None else Some b
                else None) (Split comma s).

(** Each name once, where it comes first; [seen] are the ones already listed. *)
Fixpoint distinct (seen l : list string) : list string :=
  match l with
  | [] => []
  | b :: l => if contains seen b then distinct seen l else b :: distinct (b :: seen) l
  end.

(** The loop of [findFreeVMID] from [id] on. *)
Fixpoint scan_vmids (fuel : nat) (used : list Z) (id : Z) : Z :=
  match fuel with
  | O => 0
  | S fuel => if contains used id then scan_vmids fuel used (id + 1) else id
  end.

Definition free_vmid (used : list Z) (preferred : Z) : Z :=
  if (0 <? preferred) && negb (contains used preferred) then preferred
  else scan_vmids (Z.to_nat (1000000 - 100)) used 100.

Section orchestrator.
Context `{MR : MapRange} `{UP : UrlParser} `{LIB : MigrationLibrary} `{CFG : MigrationConfig}.

(** ** Clients and nodes *)

Definition clientForCluster (clusterID : uuid) : mprog (result string Cluster) :=
  let! cluster := mask (GetCluster clusterID) in
  match cluster with
  | Err e => Ret (Err ("get cluster " +:+ uuid_text clusterID +:+ ": " +:+ e))
  | Ok cluster =>
      let! cached := if CacheWired then mask (CacheGet clusterID) else Ret false in
      if (cached : bool) then Ret (Ok cluster)
      else match Decrypt (cl_TokenSecretEncrypted cluster) with
           | Err e => Ret (Err ("decrypt cluster credentials: " +:+ e))
           | Ok tokenSecret =>
               let! err := mask (NewClient cluster tokenSecret) in
               match err with
               | Some e => Ret (Err ("create proxmox client for cluster " +:+ cl_Name cluster +:+ ": " +:+ e))
               | None => Ret (Ok cluster)
               end
           end
  end.

(** [nodemember.Require], its error as its text. *)
Definition Require_member (clusterID : uuid) (node : string) : mprog (option string) :=
  let! member := mask (GetNodeByClusterAndName clusterID node) in
  match member with
  | None => Ret (Some ("could not confirm node " +:+ Quote node +:+
                       " is one of this cluster's nodes; it was not contacted"))
  | Some false => Ret (Some ("node " +:+ Quote node +:+ " is not one of this cluster's nodes; it was not contacted"))
  | Some true => Ret None
  end.

Fixpoint require_nodes (l : list (uuid * string)) : mprog (option string) :=
  match l with
  | [] => Ret None
  | (cluster, node) :: l =>
      if bool_decide (node = "") then require_nodes l
      else
        let! err := Require_member cluster node in
        match err with
        | Some e => Ret (Some e)
        | None => require_nodes l
        end
  end.

Definition requireJobNodes (job : MigrationJob) : mprog (option string) :=
  require_nodes [(mj_SourceClusterID job, mj_SourceNode job); (mj_TargetClusterID job, mj_TargetNode job)].

(** ** The record *)

Definition auditLog (c : write_ctx) (mc : migrationContext) (action : string) (details : list (string * detail)) :
    mprog unit :=
  if mc_userID mc =? uuid_Nil then Ret tt
  else
    let '(resourceType, resource) :=
      match mc_vmDBID mc with
      | Some id => ("vm", Some id)
      | None => ("migration", Some (mj_ID (mc_job mc)))
      end in
    do! mask (InsertAuditLog c (mj_SourceClusterID (mc_job mc)) (mc_userID mc) resourceType resource action details) in
    mask (Publish (mj_SourceClusterID (mc_job mc)) "audit_entry" resourceType action).

Definition failJob (jobID : uuid) (errMsg : string) (mc : option migrationContext) : mprog unit :=
  let errMsg := scrub mc errMsg in
  let! now := mask Now in
  do! mask (CompleteMigrationJob CleanupCtx jobID StatusFailed now errMsg) in
  match mc with
  | None => Ret tt
  | Some mc =>
      let job := mc_job mc in
      let actionPrefix := if bool_decide (mj_MigrationType job = TypeCrossCluster)
                          then "cross_cluster_migrate" else "migrate" in
      auditLog CleanupCtx mc (actionPrefix +:+ "_failed")
        [("vmid", DInt (mj_Vmid job)); ("vm_type", DText (typeLabel (mj_VmType job)));
         ("source_node", DText (mj_SourceNode job)); ("target_node", DText (mj_TargetNode job));
         ("migration_type", DText (mj_MigrationType job)); ("error", DText errMsg)]
  end.

Definition resolveMigrationContext (job : MigrationJob) (userID : uuid) : mprog migrationContext :=
  let label := typeLabel (mj_VmType job) in
  let! vm := mask (GetVMByClusterAndVmid (mj_SourceClusterID job) (mj_Vmid job)) in
  match vm with
  | Some (id, name) => Ret {| mc_job := job; mc_vmDBID := Some id; mc_vmName := name;
      mc_vmLabel := label +:+ " " +:+ Itoa (mj_Vmid job) +:+ " (" +:+ name +:+ ")"; mc_userID := userID;
      mc_scrubber := None |}
  | None => Ret {| mc_job := job; mc_vmDBID := None; mc_vmName := "";
      mc_vmLabel := label +:+ " " +:+ Itoa (mj_Vmid job); mc_userID := userID; mc_scrubber := None |}
  end.

Definition recordDiskMove (mc : migrationContext) (node : string) (spec : DiskMoveSpec) (upid : string)
    (index total : Z) : mprog unit :=
  let job := mc_job mc in
  do! auditLog OwnCtx mc "disk_move_running"
    [("upid", DText upid); ("vmid", DInt (mj_Vmid job)); ("vm_type", DText (typeLabel (mj_VmType job)));
     ("node", DText node); ("disk", DText (ds_Disk spec)); ("target_storage", DText (ds_TargetStorage spec));
     ("from_storage", DText (ds_FromStorage spec)); ("format", DText (ds_Format spec));
     ("delete_source", DBool (ds_DeleteSource spec)); ("bwlimit_kib", DInt (ds_BWLimitKiB spec));
     ("disk_index", DInt index); ("disk_total", DInt total)] in
  let description := "Move disk " +:+ Summary spec +:+ " (" +:+ mc_vmLabel mc +:+ ", " +:+ Itoa index +:+ "/" +:+
                     Itoa total +:+ ")" in
  do! mask (InsertTaskHistory (mj_SourceClusterID job) (mc_userID mc) upid description "running" node "move_disk") in
  mask (Publish (mj_SourceClusterID job) "task_created" "task" "move_disk").

(** ** Polling *)

Definition abandonTaskRow (upid exitStatus : string) : mprog unit :=
  let! now := mask Now in
  mask (ReconcileTaskHistory CleanupCtx upid "failed" exitStatus now).

(** What [pollTaskStatus] does with a task that is no longer running. *)
Definition finish_task (upid : string) (jobID : uuid) (mc : migrationContext) (status : TaskStatus) : mprog unit :=
  let! now := mask Now in
  let ok := TaskSucceeded (ts_ExitStatus status) in
  do! mask (ReconcileTaskHistory OwnCtx upid (if ok then "completed" else "failed")
              (scrub (Some mc) (ts_ExitStatus status)) now) in
  let cluster := mj_SourceClusterID (mc_job mc) in
  if ok then
    do! mask (CompleteMigrationJob OwnCtx jobID StatusCompleted now "") in
    do! mask (Publish cluster "migration_update" "migration" "completed") in
    do! mask (Publish cluster "task_update" "task" "completed") in
    mask (Publish cluster "inventory_change" "vm" "migrated")
  else
    let errMsg := scrub (Some mc) ("Task exit status: " +:+ ts_ExitStatus status) in
    do! mask (CompleteMigrationJob OwnCtx jobID StatusFailed now errMsg) in
    do! mask (Publish cluster "migration_update" "migration" "failed") in
    mask (Publish cluster "task_update" "task" "failed").

(** [since] is [unreachableSince]; the result says whether the loop has ended. *)
Fixpoint pollTaskStatus (n : nat) (client : uuid) (node upid : string) (jobID : uuid) (mc : migrationContext)
    (since : option Z) : mprog bool :=
  match n with
  | O => Ret false
  | S n =>
      let! w := mask Select in
      match w with
      | Done =>
          do! abandonTaskRow upid "interrupted" in
          do! failJob jobID "context cancelled" (Some mc) in
          Ret true
      | Ticked =>
          let! status := pve client (GetTaskStatus node upid) in
          match status with
          | Err _ =>
              let! now := mask Now in
              match since with
              | None => pollTaskStatus n client node upid jobID mc (Some now)
              | Some t =>
                  if defaultPollStaleGrace <? Sub now t then
                    do! abandonTaskRow upid "vanished" in
                    do! failJob jobID "task status unavailable past the stale grace" (Some mc) in
                    Ret true
                  else pollTaskStatus n client node upid jobID mc since
              end
          | Ok status =>
              if bool_decide (ts_Status status = "running") then
                do! mask (UpdateMigrationJobProgress jobID (f_lit 5 1) upid) in
                pollTaskStatus n client node upid jobID mc None
              else do! finish_task upid jobID mc status in Ret true
          end
      end
  end.

(** [None]: still waiting; [Some None]: the task succeeded. *)
Fixpoint waitForTask (n : nat) (client : uuid) (node upid : string) : mprog (option (option string)) :=
  match n with
  | O => Ret None
  | S n =>
      let! w := mask Select in
      match w with
      | Done => Ret (Some (Some "context cancelled"))
      | Ticked =>
          let! status := pve client (GetTaskStatus node upid) in
          match status with
          | Err _ => waitForTask n client node upid
          | Ok status =>
              if bool_decide (ts_Status status = "running") then waitForTask n client node upid
              else if TaskSucceeded (ts_ExitStatus status) then Ret (Some None)
              else Ret (Some (Some ("task exit status: " +:+ ts_ExitStatus status)))
          end
      end
  end.

(** ** Within a cluster *)

Definition executeIntraCluster (client : uuid) (job : MigrationJob) : mprog (result string string) :=
  let params := {| mp_Target := mj_TargetNode job; mp_Online := mj_Online job;
                   mp_BWLimit := if 0 <? mj_BwlimitKib job then mj_BwlimitKib job else 0 |} in
  if bool_decide (mj_VmType job = VMTypeQEMU)
  then pve client (MigrateVM (mj_SourceNode job) (mj_Vmid job) params)
  else if bool_decide (mj_VmType job = VMTypeLXC)
  then pve client (MigrateCT (mj_SourceNode job) (mj_Vmid job) params)
  else Ret (Err ("unsupported VM type: " +:+ mj_VmType job)).

Definition discoverDisks (client : uuid) (node : string) (vmid : Z) (vmType : string) :
    mprog (result string (list movableDisk)) :=
  if bool_decide (vmType = VMTypeQEMU) then
    let! cfg := pve client (GetVMConfig node vmid) in
    Ret (result_map (λ cfg, omap qemu_disk (go_range cfg)) cfg)
  else if bool_decide (vmType = VMTypeLXC) then
    let! cfg := pve client (GetCTConfig node vmid) in
    Ret (result_map (λ cfg, omap lxc_volume (go_range cfg)) cfg)
  else Ret (Err ("unsupported VM type: " +:+ vmType)).

(** How a loop over the disks ends: all moved, with the first and the last task;
    the job failed; out of wake-ups. *)
Inductive moved := AllMoved (first last : string) | JobFailed | Waiting.

(** [None]: an unsupported type of guest. *)
Definition move_disk (client : uuid) (node : string) (job : MigrationJob) (spec : DiskMoveSpec) :
    option (mprog (result string string)) :=
  if bool_decide (mj_VmType job = VMTypeQEMU) then Some (pve client (MoveDisk node (mj_Vmid job) (VMParams spec)))
  else if bool_decide (mj_VmType job = VMTypeLXC)
  then Some (pve client (MoveCTVolume node (mj_Vmid job) (CTParams spec)))
  else None.

Definition progress_of (i total : Z) : float64 := fdiv (f_of_Z i) (f_of_Z total).

Definition started_first (i : Z) (jobID : uuid) (upid : string) : mprog unit :=
  if i =? 0 then let! now := mask Now in do! mask (SetMigrationJobStarted jobID now upid) in Ret tt else Ret tt.

Fixpoint storage_loop (n : nat) (client : uuid) (job : MigrationJob) (jobID : uuid) (mc : migrationContext)
    (total i : Z) (first last : string) (moves : list diskMove) : mprog moved :=
  match moves with
  | [] => Ret (AllMoved first last)
  | m :: moves =>
      let spec := diskMoveSpec job m in
      match move_disk client (mj_SourceNode job) job spec with
      | None => do! failJob jobID ("unsupported VM type: " +:+ mj_VmType job) (Some mc) in Ret JobFailed
      | Some move =>
          let! upid := move in
          match upid with
          | Err e =>
              do! failJob jobID ("failed to move disk " +:+ mv_Disk m +:+ ": " +:+ e) (Some mc) in Ret JobFailed
          | Ok upid =>
              do! recordDiskMove mc (mj_SourceNode job) spec upid (i + 1) total in
              do! mask (UpdateMigrationJobProgress jobID (progress_of i total) upid) in
              do! started_first i jobID upid in
              let! r := waitForTask n client (mj_SourceNode job) upid in
              match r with
              | None => Ret Waiting
              | Some (Some e) =>
                  do! failJob jobID ("disk " +:+ mv_Disk m +:+ " move failed: " +:+ e) (Some mc) in Ret JobFailed
              | Some None =>
                  storage_loop n client job jobID mc total (i + 1) (if i =? 0 then upid else first) upid moves
              end
          end
      end
  end.

(** The result of an execution: whether it has returned. *)
Definition executeStorageMigration (n : nat) (client : uuid) (job : MigrationJob) (jobID : uuid)
    (mc : migrationContext) : mprog bool :=
  let cluster := mj_SourceClusterID job in
  let! disks := discoverDisks client (mj_SourceNode job) (mj_Vmid job) (mj_VmType job) in
  match disks with
  | Err e => do! failJob jobID ("failed to discover disks: " +:+ e) (Some mc) in Ret true
  | Ok [] => do! failJob jobID "no movable disks found on VM" (Some mc) in Ret true
  | Ok disks =>
      match resolveDiskTargets disks (mj_StorageMap job) (mj_TargetStorage job) with
      | [] =>
          do! failJob jobID "no disks to move — every selected disk is already on its target storage" (Some mc) in
          Ret true
      | moves =>
          do! mask (Publish cluster "migration_update" "migration" "migrating") in
          let! r := storage_loop n client job jobID mc (Z.of_nat (length moves)) 0 "" "" moves in
          match r with
          | Waiting => Ret false
          | JobFailed => Ret true
          | AllMoved _ _ =>
              let! now := mask Now in
              do! mask (CompleteMigrationJob OwnCtx jobID StatusCompleted now "") in
              do! mask (Publish cluster "migration_update" "migration" "completed") in
              do! mask (Publish cluster "task_update" "task" "completed") in
              do! mask (Publish cluster "vm_state_change" "vm" "storage_migrated") in
              Ret true
          end
      end
  end.

(** The move of one disk after the live phase; another type of guest than the two
    sends nothing, and has no error. *)
Definition move_on_target (client : uuid) (job : MigrationJob) (spec : DiskMoveSpec) : mprog (result string string) :=
  match move_disk client (mj_TargetNode job) job spec with
  | Some move => move
  | None => Ret (Ok "")
  end.

Fixpoint both_loop (n : nat) (client : uuid) (job : MigrationJob) (jobID : uuid) (mc : migrationContext)
    (total i : Z) (last : string) (moves : list diskMove) : mprog moved :=
  match moves with
  | [] => Ret (AllMoved "" last)
  | m :: moves =>
      let spec := diskMoveSpec job m in
      let! upid := move_on_target client job spec in
      match upid with
      | Err e =>
          do! failJob jobID ("failed to move disk " +:+ mv_Disk m +:+ " on target node: " +:+ e) (Some mc) in
          Ret JobFailed
      | Ok upid =>
          do! recordDiskMove mc (mj_TargetNode job) spec upid (i + 1) total in
          do! mask (UpdateMigrationJobProgress jobID
                      (fadd (f_lit 5 1) (fmul (progress_of i total) (f_lit 5 1))) upid) in
          let! r := waitForTask n client (mj_TargetNode job) upid in
          match r with
          | None => Ret Waiting
          | Some (Some e) =>
              do! failJob jobID ("disk " +:+ mv_Disk m +:+ " move failed on target node: " +:+ e) (Some mc) in
              Ret JobFailed
          | Some None => both_loop n client job jobID mc total (i + 1) upid moves
          end
      end
  end.

Definition mark_migrating (job : MigrationJob) (jobID : uuid) (upid : string) : mprog unit :=
  let! now := mask Now in
  do! mask (SetMigrationJobStarted jobID now upid) in
  do! mask (Publish (mj_SourceClusterID job) "migration_update" "migration" "migrating") in
  mask (Publish (mj_SourceClusterID job) "task_created" "task" "migrate").

Definition running_details (job : MigrationJob) (upid migrationType : string) : list (string * detail) :=
  [("upid", DText upid); ("vmid", DInt (mj_Vmid job)); ("vm_type", DText (typeLabel (mj_VmType job)));
   ("node", DText (mj_SourceNode job)); ("source_node", DText (mj_SourceNode job));
   ("target_node", DText (mj_TargetNode job)); ("migration_type", DText migrationType)].

Definition both_done (job : MigrationJob) (jobID : uuid) : mprog unit :=
  let! now := mask Now in
  do! mask (CompleteMigrationJob OwnCtx jobID StatusCompleted now "") in
  mask (Publish (mj_SourceClusterID job) "migration_update" "migration" "completed").

(** After the live phase: the disks. *)
Definition both_disks (n : nat) (client : uuid) (job : MigrationJob) (jobID : uuid) (mc : migrationContext) :
    mprog bool :=
  let cluster := mj_SourceClusterID job in
  let! disks := discoverDisks client (mj_TargetNode job) (mj_Vmid job) (mj_VmType job) in
  match disks with
  | Err e => do! failJob jobID ("failed to discover disks on target node: " +:+ e) (Some mc) in Ret true
  | Ok disks =>
      match resolveDiskTargets disks (mj_StorageMap job) (mj_TargetStorage job) with
      | [] =>
          do! both_done job jobID in
          do! mask (Publish cluster "inventory_change" "vm" "migrated") in
          Ret true
      | moves =>
          let! r := both_loop n client job jobID mc (Z.of_nat (length moves)) 0 "" moves in
          match r with
          | Waiting => Ret false
          | JobFailed => Ret true
          | AllMoved _ _ =>
              do! both_done job jobID in
              do! mask (Publish cluster "task_update" "task" "completed") in
              do! mask (Publish cluster "inventory_change" "vm" "migrated") in
              Ret true
          end
      end
  end.

Definition executeBothMigration (n : nat) (client : uuid) (job : MigrationJob) (jobID userID : uuid)
    (mc : migrationContext) : mprog bool :=
  let cluster := mj_SourceClusterID job in
  let! upid := executeIntraCluster client job in
  match upid with
  | Err e => do! failJob jobID ("live migration phase failed: " +:+ e) (Some mc) in Ret true
  | Ok upid =>
      do! mark_migrating job jobID upid in
      do! auditLog OwnCtx mc "migrate_running" (running_details job upid "both") in
      do! mask (InsertTaskHistory cluster userID upid
                  ("Migrate " +:+ mc_vmLabel mc +:+ ": " +:+ mj_SourceNode job +:+ " → " +:+ mj_TargetNode job +:+
                   " (phase 1: live)") "running" (mj_SourceNode job) "migrate") in
      let! r := waitForTask n client (mj_SourceNode job) upid in
      match r with
      | None => Ret false
      | Some (Some e) =>
          let! now := mask Now in
          do! mask (ReconcileTaskHistory OwnCtx upid "failed" e now) in
          do! failJob jobID ("live migration phase failed: " +:+ e) (Some mc) in
          Ret true
      | Some None =>
          let! now := mask Now in
          do! mask (ReconcileTaskHistory OwnCtx upid "completed" "OK" now) in
          do! mask (Publish cluster "task_update" "task" "completed") in
          do! mask (UpdateMigrationJobProgress jobID (f_lit 5 1) upid) in
          both_disks n client job jobID mc
      end
  end.

(** ** Between clusters *)

Definition detectBridges (client : uuid) (node : string) (vmid : Z) (vmType : string) : mprog (list string) :=
  let found cfg := distinct [] (kv ← go_range cfg;
    if HasPrefix kv.1 "net" then match kv.2 with Some s => net_bridges s | None => [] end else []) in
  if bool_decide (vmType = VMTypeQEMU) then
    let! cfg := pve client (GetVMConfig node vmid) in
    Ret (match cfg with Ok cfg => found cfg | Err _ => [] end)
  else if bool_decide (vmType = VMTypeLXC) then
    let! cfg := pve client (GetCTConfig node vmid) in
    Ret (match cfg with Ok cfg => found cfg | Err _ => [] end)
  else Ret [].

Definition formatMapping (m : gmap string string) : string :=
  Join "," ((λ kv, kv.1 +:+ ":" +:+ kv.2) <$> go_range m).

Definition findFreeVMID (client : uuid) (preferred : Z) : mprog Z :=
  let! resources := pve client (GetClusterResources "vm") in
  match resources with
  | Err _ => Ret 0
  | Ok resources => Ret (free_vmid (cr_VMID <$> resources) preferred)
  end.

Definition target_host (apiUrl : string) : string :=
  match url_Parse apiUrl with
  | Some u => if bool_decide (u_Hostname u = "") then apiUrl else u_Hostname u
  | None => apiUrl
  end.

Definition endpoint_for (tgt : Cluster) (secret : string) : TargetEndpoint :=
  {| te_Host := target_host (cl_ApiUrl tgt); te_APIToken := cl_TokenID tgt +:+ "=" +:+ secret;
     te_Fingerprint := cl_TlsFingerprint tgt |}.

(** The bridges: the ones given, or each the guest uses onto itself. *)
Definition bridge_map (srcClient : uuid) (job : MigrationJob) : mprog (gmap string string) :=
  if Nat.eqb (size (mj_NetworkMap job)) 0 then
    let! bridges := detectBridges srcClient (mj_SourceNode job) (mj_Vmid job) (mj_VmType job) in
    Ret (list_to_map ((λ b, (b, b)) <$> bridges))
  else Ret (mj_NetworkMap job).

Definition target_vmid (job : MigrationJob) : mprog Z :=
  if mj_TargetVmid job <=? 0 then
    let! client := clientForCluster (mj_TargetClusterID job) in
    match client with
    | Err _ => Ret (mj_TargetVmid job)
    | Ok _ => findFreeVMID (mj_TargetClusterID job) (mj_Vmid job)
    end
  else Ret (mj_TargetVmid job).

Definition remote_params (job : MigrationJob) (endpoint : TargetEndpoint) (bridges : string) (vmid : Z) :
    RemoteMigrateParams :=
  {| rm_TargetBridge := bridges;
     rm_TargetStorage := if Nat.eqb (size (mj_StorageMap job)) 0 then "" else formatMapping (mj_StorageMap job);
     rm_TargetVMID := if 0 <? vmid then vmid else 0; rm_TargetEndpoint := endpoint;
     rm_BWLimit := if 0 <? mj_BwlimitKib job then mj_BwlimitKib job else 0;
     rm_Online := mj_Online job; rm_Delete := mj_DeleteSource job |}.

Definition remote_migrate (srcClient : uuid) (job : MigrationJob) (params : RemoteMigrateParams) :
    option (mprog (result string string)) :=
  if bool_decide (mj_VmType job = VMTypeQEMU)
  then Some (pve srcClient (RemoteMigrateVM (mj_SourceNode job) (mj_Vmid job) params))
  else if bool_decide (mj_VmType job = VMTypeLXC)
  then Some (pve srcClient (RemoteMigrateCT (mj_SourceNode job) (mj_Vmid job) params))
  else None.

(** With the context as the call leaves it. *)
Definition executeCrossCluster (srcClient : uuid) (job : MigrationJob) (mc : migrationContext) :
    mprog (result string string * migrationContext) :=
  let! tgt := clientForCluster (mj_TargetClusterID job) in
  match tgt with
  | Err e => Ret (Err ("target cluster client: " +:+ e), mc)
  | Ok tgt =>
      match Decrypt (cl_TokenSecretEncrypted tgt) with
      | Err e => Ret (Err ("decrypt target credentials: " +:+ e), mc)
      | Ok secret =>
          let endpoint := endpoint_for tgt secret in
          let mc := armEndpointScrubber mc (te_APIToken endpoint) in
          let! networkMap := bridge_map srcClient job in
          let! vmid := target_vmid job in
          match remote_migrate srcClient job (remote_params job endpoint (formatMapping networkMap) vmid) with
          | None => Ret (Err ("unsupported VM type: " +:+ mj_VmType job), mc)
          | Some migrate =>
              let! upid := migrate in
              match upid with
              | Err e => Ret (Err (scrubEndpointSecret e (te_APIToken endpoint)), mc)
              | Ok upid => Ret (Ok upid, mc)
              end
          end
      end
  end.

(** ** A job *)

Definition startAndPollMigration (n : nat) (client : uuid) (job : MigrationJob) (jobID userID : uuid)
    (upid : string) (mc : migrationContext) : mprog bool :=
  do! mark_migrating job jobID upid in
  do! auditLog OwnCtx mc "migrate_running" (running_details job upid (mj_MigrationType job)) in
  do! mask (InsertTaskHistory (mj_SourceClusterID job) userID upid
              ("Migrate " +:+ mc_vmLabel mc +:+ ": " +:+ mj_SourceNode job +:+ " → " +:+ mj_TargetNode job)
              "running" (mj_SourceNode job) "migrate") in
  pollTaskStatus n client (mj_SourceNode job) upid jobID mc None.

Definition dispatched (n : nat) (client : uuid) (job : MigrationJob) (jobID userID : uuid)
    (r : result string string) (mc : migrationContext) : mprog bool :=
  match r with
  | Err e => do! failJob jobID e (Some mc) in Ret true
  | Ok upid => startAndPollMigration n client job jobID userID upid mc
  end.

Definition execute_job (n : nat) (job : MigrationJob) (jobID userID : uuid) (mc : migrationContext) : mprog bool :=
  let client := mj_SourceClusterID job in
  if bool_decide (mj_MigrationType job = TypeIntraCluster) && bool_decide (mj_MigrationMode job = ModeStorage)
  then executeStorageMigration n client job jobID mc
  else if bool_decide (mj_MigrationType job = TypeIntraCluster) && bool_decide (mj_MigrationMode job = ModeBoth)
  then executeBothMigration n client job jobID userID mc
  else if bool_decide (mj_MigrationType job = TypeIntraCluster) then
    let! r := executeIntraCluster client job in
    dispatched n client job jobID userID r mc
  else if bool_decide (mj_MigrationType job = TypeCrossCluster) then
    let! (r, mc) := executeCrossCluster client job mc in
    dispatched n client job jobID userID r mc
  else do! failJob jobID ("unknown migration type: " +:+ mj_MigrationType job) (Some mc) in Ret true.

Definition Execute (n : nat) (jobID userID : uuid) : mprog bool :=
  let! job := mask (GetMigrationJob jobID) in
  match job with
  | Err e => do! failJob jobID ("get migration job: " +:+ e) None in Ret true
  | Ok job =>
      let! mc := resolveMigrationContext job userID in
      let! err := requireJobNodes job in
      match err with
      | Some e => do! failJob jobID e (Some mc) in Ret true
      | None =>
          let! src := clientForCluster (mj_SourceClusterID job) in
          match src with
          | Err e => do! failJob jobID ("source cluster client: " +:+ e) (Some mc) in Ret true
          | Ok _ => execute_job n job jobID userID mc
          end
      end
  end.

(** ** Pre-flight *)

Definition saveCheckResults (jobID : uuid) (report : PreFlightReport) : mprog (result string PreFlightReport) :=
  let status := if pf_Passed report then StatusPending else StatusFailed in
  let! err := mask (UpdateMigrationJobChecks jobID report status) in
  match err with
  | Some e => Ret (Err ("save check results: " +:+ e))
  | None => Ret (Ok report)
  end.

Definition preflight_clients (job : MigrationJob) : mprog (option string) :=
  let! src := clientForCluster (mj_SourceClusterID job) in
  match src with
  | Err e => Ret (Some ("source cluster client: " +:+ e))
  | Ok _ =>
      if bool_decide (mj_MigrationType job = TypeCrossCluster) then
        let! tgt := clientForCluster (mj_TargetClusterID job) in
        match tgt with
        | Err e => Ret (Some ("target cluster client: " +:+ e))
        | Ok _ => Ret None
        end
      else Ret None
  end.

Definition RunPreFlight (jobID : uuid) : mprog (result string PreFlightReport) :=
  let! job := mask (GetMigrationJob jobID) in
  match job with
  | Err e => Ret (Err ("get migration job: " +:+ e))
  | Ok job =>
      let! err := mask (UpdateMigrationJobStatus jobID StatusChecking) in
      match err with
      | Some e => Ret (Err ("update job status: " +:+ e))
      | None =>
          let! err := requireJobNodes job in
          match err with
          | Some e =>
              saveCheckResults jobID
                {| pf_Checks := [check "node_membership" SeverityFail e]; pf_Passed := false |}
          | None =>
              let! err := preflight_clients job in
              match err with
              | Some e => Ret (Err e)
              | None =>
                  let tgt := if bool_decide (mj_MigrationType job = TypeCrossCluster)
                             then mj_TargetClusterID job else mj_SourceClusterID job in
                  let! report := RunPreFlightChecks (mj_SourceClusterID job) tgt (mj_SourceNode job)
                    (mj_TargetNode job) (mj_MigrationType job) (mj_StorageMap job) (mj_NetworkMap job)
                    (mj_TargetVmid job) in
                  saveCheckResults jobID report
              end
          end
      end
  end.

Definition Cancel (jobID : uuid) : mprog (option string) := mask (CancelMigrationJob jobID).
End orchestrator.
