(* ===== verification/MigrationHandlers.v ===== *)
(** * The migration routes

    [api/handlers/migrations.go]: [Create], [List], [Get], [RunCheck], [Execute],
    [Cancel] and [ListByCluster]. A request is the validated parameters of its
    route; an identifier that does not parse is [None]. The goroutine that
    [Execute] starts is [background]. *)

From S2P Require Import Prelude GoFloat GoStrings ProxmoxApi Effects Crs DrsRules DrsPlanner DrsExecutor RbacEngine.
From S2P Require Import MigrationOps MigrationChecks MigrationRun.

Local Open Scope Z_scope.

Definition MigrationConcurrencyLimit : Z := 4.

(** A value of an object parameter; a number is its text. *)
Inductive json_value := JString (s : string) | JNumber (text : string) | JBool (b : bool) | JNull | JNested.

Definition scalarText (v : json_value) : option string :=
  match v with
  | JString s => Some s
  | JNumber text => Some text
  | JBool b => Some (if b then "true" else "false")
  | JNull => Some ""
  | JNested => None
  end.

Record CreateRequest := {
  rq_source_cluster_id : option uuid; rq_target_cluster_id : option uuid; rq_source_node : string;
  rq_target_node : string; rq_vmid : Z; rq_vm_type : string; rq_migration_type : string;
  rq_migration_mode : string; rq_storage_map : gmap string json_value; rq_network_map : gmap string json_value;
  rq_online : bool; rq_bwlimit_kib : Z; rq_delete_source : bool; rq_target_vmid : Z; rq_target_storage : string;
  rq_disk_format : string }.

(** What a route answers; [Failed] is a [fiber.Error]. *)
Inductive mreply :=
| Failed (e : reply)
| Job (status : Z) (job : MigrationJob)
| Items (l : list MigrationJob)
| Report (r : PreFlightReport)
| Started (id : uuid)
| Cancelled.

Definition refused (status : Z) (message : string) : mreply := Failed (fiber_error status message).

Definition invalid_param : mreply := refused 500 "Request validation failed".

Definition ImageFormats : list string := ["qcow2"; "raw"; "vmdk"].

Definition ValidImageFormat (f : string) : bool := bool_decide (f = "") || contains ImageFormats f.

(** The cross-field rules of [Create], in their order. *)
Definition refused_by_rules (q : CreateRequest) (src tgt : uuid) (storageMap : gmap string string) : option mreply :=
  let mode := rq_migration_mode q in
  let moves := bool_decide (mode = ModeStorage) || bool_decide (mode = ModeBoth) in
  let hasStorageMapEntries := existsb (λ v, negb (bool_decide (v = ""))) (map_to_list storageMap).*2 in
  if bool_decide (rq_migration_type q = TypeCrossCluster) && negb (bool_decide (mode = ModeLive)) then
    Some (refused 400 "migration_mode 'storage' and 'both' are only supported for intra-cluster migrations")
  else if moves && bool_decide (rq_target_storage q = "") && negb hasStorageMapEntries then
    Some (refused 400 "target_storage or a per-disk storage_map is required for storage and both migration modes")
  else if negb (ValidImageFormat (rq_disk_format q)) then
    Some (refused 400 "disk_format must be one of: raw, qcow2, vmdk")
  else if negb (bool_decide (rq_disk_format q = "")) && bool_decide (rq_vm_type q = VMTypeLXC) then
    Some (refused 400 "disk_format is not supported for containers")
  else if negb (bool_decide (rq_disk_format q = "")) && negb moves then
    Some (refused 400 "disk_format only applies to storage and both migration modes")
  else if bool_decide (rq_migration_type q = TypeIntraCluster) then
    if negb (src =? tgt) then
      Some (refused 400 "For intra-cluster migration, source and target cluster must be the same")
    else if bool_decide (mode = ModeStorage) then None
    else if bool_decide (rq_target_node q = "") then
      Some (refused 400 "target_node is required for intra-cluster live migration")
    else None
  else None.

(** The target node a job is stored with. *)
Definition stored_target (q : CreateRequest) : string :=
  if bool_decide (rq_migration_type q = TypeIntraCluster) && bool_decide (rq_migration_mode q = ModeStorage) &&
     bool_decide (rq_target_node q = "")
  then rq_source_node q else rq_target_node q.

Definition create_params (q : CreateRequest) (src tgt : uuid) (caller : option uuid)
    (storageMap networkMap : gmap string string) : CreateMigrationJobParams := {|
  cm_SourceClusterID := src; cm_TargetClusterID := tgt; cm_SourceNode := rq_source_node q;
  cm_TargetNode := stored_target q; cm_Vmid := Int32 (rq_vmid q); cm_VmType := rq_vm_type q;
  cm_MigrationType := rq_migration_type q; cm_StorageMap := storageMap; cm_NetworkMap := networkMap;
  cm_Online := rq_online q; cm_BwlimitKib := Int32 (rq_bwlimit_kib q); cm_DeleteSource := rq_delete_source q;
  cm_TargetVmid := Int32 (rq_target_vmid q); cm_CreatedBy := caller; cm_MigrationMode := rq_migration_mode q;
  cm_TargetStorage := rq_target_storage q; cm_DiskFormat := rq_disk_format q |}.

Definition created_details (q : CreateRequest) : list (string * detail) :=
  [("vmid", DInt (Int32 (rq_vmid q))); ("vm_type", DText (typeLabel (rq_vm_type q)));
   ("migration_type", DText (rq_migration_type q)); ("source_node", DText (rq_source_node q));
   ("target_node", DText (stored_target q)); ("online", DBool (rq_online q))].

Section handlers.
Context `{MR : MapRange} `{UP : UrlParser} `{LIB : MigrationLibrary} `{CFG : MigrationConfig}.

(** The range of [stringMap] from an entry on. *)
Fixpoint string_entries (field : string) (l : list (string * json_value)) (out : gmap string string) :
    result mreply (gmap string string) :=
  match l with
  | [] => Ok out
  | (key, raw) :: l =>
      match scalarText raw with
      | None => Err (refused 400 (field +:+ "." +:+ key +:+
                     ": expected a string or a number, not a nested object or array"))
      | Some text => string_entries field l (<[key := text]> out)
      end
  end.

Definition stringMap (field : string) (m : gmap string json_value) : result mreply (gmap string string) :=
  string_entries field (go_range m) ∅.

Definition requireNodeInCluster (cluster : uuid) (node : string) : mprog (option mreply) :=
  if bool_decide (node = "") then Ret None
  else
    let! member := mask (GetNodeByClusterAndName cluster node) in
    match member with
    | None => Ret (Some (refused 500 "Failed to look up the node"))
    | Some false => Ret (Some (refused 404 "Node not found in this cluster"))
    | Some true => Ret None
    end.

(** [manage:migration] on both clusters. *)
Definition requireBoth (src tgt : uuid) : mprog (option mreply) :=
  let! err := mask (RequirePerm "manage" "migration" src) in
  match err with
  | Some e => Ret (Some (Failed e))
  | None =>
      if src =? tgt then Ret None
      else
        let! err := mask (RequirePerm "manage" "migration" tgt) in
        Ret (Failed <$> err)
  end.

(** [AuditLog] on the guest of a job, or on the job where the guest is not known. *)
Definition audit_job (caller : option uuid) (cluster : uuid) (vmid : Z) (job : uuid) (action : string)
    (details : list (string * detail)) : mprog unit :=
  let! vm := mask (GetVMByClusterAndVmid cluster vmid) in
  match caller with
  | None => Ret tt
  | Some actor =>
      mask (AuditLogAs actor cluster "vm" (match vm with Some (id, _) => id | None => job end) action details)
  end.

(** The insert of a job, once everything is checked. *)
Definition insert_job (caller : option uuid) (q : CreateRequest) (src tgt : uuid)
    (storageMap networkMap : gmap string string) : mprog mreply :=
  let! job := mask (CreateMigrationJob (create_params q src tgt caller storageMap networkMap)) in
  match job with
  | Err _ => Ret (refused 500 "Failed to create migration job")
  | Ok job =>
      do! audit_job caller src (Int32 (rq_vmid q)) (mj_ID job) "migrate_created" (created_details q) in
      Ret (Job 201 job)
  end.

Definition create_checked (caller : option uuid) (q : CreateRequest) (src tgt : uuid)
    (storageMap networkMap : gmap string string) : mprog mreply :=
  let! err := requireNodeInCluster src (rq_source_node q) in
  match err with
  | Some e => Ret e
  | None =>
      let! err := requireNodeInCluster tgt (rq_target_node q) in
      match err with
      | Some e => Ret e
      | None =>
          match refused_by_rules q src tgt storageMap with
          | Some e => Ret e
          | None => insert_job caller q src tgt storageMap networkMap
          end
      end
  end.

Definition Create (caller : option uuid) (q : CreateRequest) : mprog mreply :=
  match rq_source_cluster_id q, rq_target_cluster_id q with
  | Some src, Some tgt =>
      let! err := requireBoth src tgt in
      match err with
      | Some e => Ret e
      | None =>
          match stringMap "storage_map" (rq_storage_map q), stringMap "network_map" (rq_network_map q) with
          | Err e, _ => Ret e
          | _, Err e => Ret e
          | Ok storageMap, Ok networkMap => create_checked caller q src tgt storageMap networkMap
          end
      end
  | _, _ => Ret invalid_param
  end.

Definition List_jobs (limit offset : Z) : mprog mreply :=
  let! access := mask (Accessible "view" "migration") in
  match access with
  | Err e => Ret (Failed e)
  | Ok access =>
      let '(scope, query) := clusterScopeFilter access in
      if negb query then Ret (Items [])
      else
        let! jobs := mask (ListMigrationJobs (Int32 limit) (Int32 offset) scope) in
        match jobs with
        | Err _ => Ret (refused 500 "Failed to list migration jobs")
        | Ok jobs => Ret (Items (List.filter (λ j, PermitsCluster access (mj_SourceClusterID j) ||
                                                   PermitsCluster access (mj_TargetClusterID j)) jobs))
        end
  end.

Definition ListByCluster (cluster : option uuid) (limit offset : Z) : mprog mreply :=
  match cluster with
  | None => Ret invalid_param
  | Some cluster =>
      let! jobs := mask (ListMigrationJobsByCluster cluster (Int32 limit) (Int32 offset)) in
      match jobs with
      | Err _ => Ret (refused 500 "Failed to list migration jobs")
      | Ok jobs => Ret (Items jobs)
      end
  end.

(** The job a route names, or the refusal. *)
Definition with_job (id : option uuid) (k : uuid → MigrationJob → mprog mreply) : mprog mreply :=
  match id with
  | None => Ret invalid_param
  | Some jobID =>
      let! job := mask (GetMigrationJob jobID) in
      match job with
      | Err _ => Ret (refused 404 "Migration job not found")
      | Ok job => k jobID job
      end
  end.

(** The same where the caller manages both its clusters. *)
Definition with_managed_job (id : option uuid) (k : uuid → MigrationJob → mprog mreply) : mprog mreply :=
  with_job id (λ jobID job,
    let! err := requireBoth (mj_SourceClusterID job) (mj_TargetClusterID job) in
    match err with
    | Some e => Ret e
    | None => k jobID job
    end).

Definition Get (id : option uuid) : mprog mreply :=
  with_job id (λ jobID job,
    let! err := mask (RequirePerm "view" "migration" (mj_SourceClusterID job)) in
    match err with
    | None => Ret (Job 200 job)
    | Some e =>
        let! errTgt := mask (RequirePerm "view" "migration" (mj_TargetClusterID job)) in
        match errTgt with
        | Some _ => Ret (Failed e)
        | None => Ret (Job 200 job)
        end
    end).

Definition RunCheck (id : option uuid) : mprog mreply :=
  with_managed_job id (λ jobID job,
    let! report := RunPreFlight jobID in
    match report with
    | Err _ => Ret (refused 500 "Pre-flight check failed")
    | Ok report => Ret (Report report)
    end).

Definition executable (status : string) : bool :=
  bool_decide (status = StatusPending) || bool_decide (status = StatusChecking).

Definition Execute_route (caller : option uuid) (id : option uuid) : mprog mreply :=
  with_managed_job id (λ jobID job,
    if negb (executable (mj_Status job)) then
      Ret (refused 409 ("Job is not in a state that can be executed (status: " +:+ mj_Status job +:+ ")"))
    else
      let userID := default uuid_Nil caller in
      let! reserved := mask TakeSlot in
      if negb reserved then
        Ret (refused 429 ("too many migrations in flight (max " +:+ Itoa MigrationConcurrencyLimit +:+
                          "); wait for one to finish before starting another"))
      else
        do! mask (SpawnExecute jobID userID) in
        do! mask (Publish (mj_SourceClusterID job) "migration_update" "migration" "started") in
        do! audit_job caller (mj_SourceClusterID job) (mj_Vmid job) jobID "migrate_started" [] in
        Ret (Started jobID)).

Definition Cancel_route (caller : option uuid) (id : option uuid) : mprog mreply :=
  with_managed_job id (λ jobID job,
    let! err := Cancel jobID in
    match err with
    | Some _ => Ret (refused 500 "Failed to cancel migration job")
    | None =>
        do! audit_job caller (mj_SourceClusterID job) (mj_Vmid job) jobID "migrate_cancelled" [] in
        Ret Cancelled
    end).

(** The goroutine of [Execute], with [n] wake-ups in each of its waits. *)
Definition background (n : nat) (jobID userID : uuid) : mprog unit :=
  let! ended := Execute n jobID userID in
  if (ended : bool) then mask ReleaseSlot else Ret tt.
End handlers.
