(* ===== verification/MigrationHistory.v ===== *)
(** * Histories of migrations

    The routes and the goroutines they start, several at a time, over the table of
    jobs ([step]): what is asked and answered is in the history, newest first,
    under the number of its thread. A write that is answered with an error may
    have been made; what else the outside answers is free.

    - [migration_contacts_confirmed]: a request to Proxmox names only nodes that
      were looked up in the cluster it goes to.
    - [migration_changes_authorised]: a job is recorded, checked, started or
      cancelled by a thread that was told the caller manages both its clusters.

    Rows are never deleted: the removal of a cluster is left out. *)

From S2P Require Import Prelude GoFloat GoStrings ProxmoxApi Effects Crs DrsRules DrsPlanner DrsExecutor RbacEngine.
From S2P Require Import MigrationOps MigrationChecks MigrationRun MigrationHandlers.

Local Open Scope Z_scope.

(** ** The system *)

Record mentry := Men { me_thread : nat; me_event : event MOp }.

Record MSys := { m_jobs : jobs; m_slots : Z; m_log : list mentry }.

(** A row as [createMigrationJob] inserts it, with the defaults of the other
    columns. *)
Definition createMigrationJob (id : uuid) (a : CreateMigrationJobParams) : MigrationJob := {|
  mj_ID := id; mj_SourceClusterID := cm_SourceClusterID a; mj_TargetClusterID := cm_TargetClusterID a;
  mj_SourceNode := cm_SourceNode a; mj_TargetNode := cm_TargetNode a; mj_Vmid := cm_Vmid a;
  mj_VmType := cm_VmType a; mj_MigrationType := cm_MigrationType a; mj_StorageMap := cm_StorageMap a;
  mj_NetworkMap := cm_NetworkMap a; mj_Online := cm_Online a; mj_BwlimitKib := cm_BwlimitKib a;
  mj_DeleteSource := cm_DeleteSource a; mj_TargetVmid := cm_TargetVmid a; mj_Status := StatusPending;
  mj_Upid := ""; mj_Progress := f_lit 0 0; mj_CheckResults := None; mj_ErrorMessage := "";
  mj_CreatedBy := cm_CreatedBy a; mj_StartedAt := None; mj_CompletedAt := None;
  mj_MigrationMode := cm_MigrationMode a; mj_TargetStorage := cm_TargetStorage a; mj_DiskFormat := cm_DiskFormat a |}.

(** [source_cluster_id = ANY(scope) OR target_cluster_id = ANY(scope)], or no scope. *)
Definition listed (scope : option (list uuid)) (j : MigrationJob) : bool :=
  row_in_scope scope (Some (mj_SourceClusterID j)) || row_in_scope scope (Some (mj_TargetClusterID j)).

Definition rows_from (d : jobs) (keep : MigrationJob → bool) (x : result string (list MigrationJob)) : Prop :=
  ∀ l, x = Ok l → Forall (λ j, keep j = true ∧ ∃ id, d !! id = Some j) l.

(** A statement [f] that was answered with [x]. *)
Definition written (f : jobs → jobs) (d : jobs) (x : option string) (d' : jobs) : Prop :=
  d' = f d ∨ (x ≠ None ∧ d' = d).

Definition inserted (arg : CreateMigrationJobParams) (d : jobs) (x : result string MigrationJob) (d' : jobs) : Prop :=
  match x with
  | Ok j => ∃ id, d !! id = None ∧ j = createMigrationJob id arg ∧ d' = <[id := j]> d
  | Err _ => d' = d ∨ ∃ id, d !! id = None ∧ d' = <[id := createMigrationJob id arg]> d
  end.

(** How the outside may answer, with the rows and the slots it leaves. *)
Definition may_answer {X} (e : MOp X) (d : jobs) (slots : Z) : X → jobs → Z → Prop :=
  match e in MOp X return X → jobs → Z → Prop with
  | GetMigrationJob id => λ x d' n, d' = d ∧ n = slots ∧ ∀ j, x = Ok j → d !! id = Some j
  | CreateMigrationJob arg => λ x d' n, n = slots ∧ inserted arg d x d'
  | UpdateMigrationJobStatus id status => λ x d' n, n = slots ∧ written (updateMigrationJobStatus id status "") d x d'
  | UpdateMigrationJobChecks id report status =>
      λ x d' n, n = slots ∧ written (updateMigrationJobChecks id report status) d x d'
  | SetMigrationJobStarted id at_ upid => λ x d' n, n = slots ∧ written (setMigrationJobStarted id at_ upid) d x d'
  | UpdateMigrationJobProgress id p upid => λ x d' n, n = slots ∧ written (updateMigrationJobProgress id p upid) d x d'
  | CompleteMigrationJob _ id status at_ error =>
      λ x d' n, n = slots ∧ written (completeMigrationJob id status at_ error) d x d'
  | CancelMigrationJob id => λ x d' n, n = slots ∧ written (cancelMigrationJob id) d x d'
  | ListMigrationJobs _ _ scope => λ x d' n, d' = d ∧ n = slots ∧ rows_from d (listed scope) x
  | ListMigrationJobsByCluster c _ _ => λ x d' n, d' = d ∧ n = slots ∧ rows_from d (listed (Some [c])) x
  | TakeSlot => λ x d' n, d' = d ∧
      if x : bool then slots < MigrationConcurrencyLimit ∧ n = slots + 1
      else MigrationConcurrencyLimit ≤ slots ∧ n = slots
  | ReleaseSlot => λ _ d' n, d' = d ∧ n = slots - 1
  | _ => λ _ d' n, d' = d ∧ n = slots
  end.

Definition step (i : nat) (X : Type) (e : MOp X) (s : MSys) (x : X) (s' : MSys) : Prop :=
  ∃ d n, may_answer e (m_jobs s) (m_slots s) x d n ∧
    s' = {| m_jobs := d; m_slots := n; m_log := Men i (Ev e x) :: m_log s |}.

(** ** What a history says *)

(** The nodes a request names. *)
Definition named {A} (r : mrequest A) : list string :=
  match r with
  | GetNodes | GetClusterResources _ => []
  | GetNodeStatus node | GetStoragePools node | GetNetworkBridges node => [node]
  | GetVMConfig node _ | GetCTConfig node _ | GetTaskStatus node _ => [node]
  | MigrateVM node _ p | MigrateCT node _ p => [node; mp_Target p]
  | RemoteMigrateVM node _ _ | RemoteMigrateCT node _ _ => [node]
  | MoveDisk node _ _ | MoveCTVolume node _ _ => [node]
  end.

(** The nodes a call contacts, with the cluster it goes to. *)
Definition contacted (e : mentry) : list (uuid * string) :=
  match me_event e with
  | @Ev _ _ op _ => match op with Pve cluster r => (λ n, (cluster, n)) <$> named r | _ => [] end
  end.

(** The node a lookup confirmed. *)
Definition confirms (e : mentry) : option (uuid * string) :=
  match me_event e with
  | @Ev _ X op x =>
      match op in MOp X return X → option (uuid * string) with
      | GetNodeByClusterAndName cluster node =>
          λ x, match x with Some true => Some (cluster, node) | _ => None end
      | _ => λ _, None
      end x
  end.

(** The cluster whose migrations the caller was said to manage. *)
Definition approves (e : mentry) : option (string * string * uuid) :=
  match me_event e with
  | @Ev _ X op x =>
      match op in MOp X return X → option (string * string * uuid) with
      | RequirePerm action resource cluster =>
          λ x, match x with None => Some (action, resource, cluster) | Some _ => None end
      | _ => λ _, None
      end x
  end.

(** The job a thread was answered with. *)
Definition read_job (e : mentry) : option (uuid * MigrationJob) :=
  match me_event e with
  | @Ev _ X op x =>
      match op in MOp X return X → option (uuid * MigrationJob) with
      | GetMigrationJob id => λ x, match x with Ok j => Some (id, j) | Err _ => None end
      | _ => λ _, None
      end x
  end.

(** What a route does to jobs. *)
Inductive change := NewJob (arg : CreateMigrationJobParams) | OldJob (id : uuid).

Definition change_of {X} (op : MOp X) : option change :=
  match op with
  | CreateMigrationJob arg => Some (NewJob arg)
  | UpdateMigrationJobStatus id _ | UpdateMigrationJobChecks id _ _ => Some (OldJob id)
  | CancelMigrationJob id | SpawnExecute id _ => Some (OldJob id)
  | _ => None
  end.

Definition changes (e : mentry) : option change :=
  match me_event e with @Ev _ _ op _ => change_of op end.

Definition confirmed (cluster : uuid) (node : string) (l : list mentry) : Prop :=
  ∃ e, e ∈ l ∧ confirms e = Some (cluster, node).

(** A node that may be named: one that was confirmed, or none. *)
Definition known (cluster : uuid) (node : string) (l : list mentry) : Prop :=
  node = "" ∨ confirmed cluster node l.

Definition managed (i : nat) (cluster : uuid) (l : list mentry) : Prop :=
  ∃ e, e ∈ l ∧ me_thread e = i ∧ approves e = Some ("manage", "migration", cluster).

Definition read_by (i : nat) (id : uuid) (j : MigrationJob) (l : list mentry) : Prop :=
  ∃ e, e ∈ l ∧ me_thread e = i ∧ read_job e = Some (id, j).

Definition may_change (i : nat) (c : change) (l : list mentry) : Prop :=
  match c with
  | NewJob arg => managed i (cm_SourceClusterID arg) l ∧ managed i (cm_TargetClusterID arg) l
  | OldJob id => ∃ j, read_by i id j l ∧ managed i (mj_SourceClusterID j) l ∧ managed i (mj_TargetClusterID j) l
  end.

(** ** What a call owes, and the invariant *)

(** A job the routes record: of a known type, and of one cluster where it stays in
    its cluster. *)
Definition well_typed (migrationType : string) (src tgt : uuid) : Prop :=
  migrationType ∈ [TypeIntraCluster; TypeCrossCluster] ∧ (migrationType = TypeIntraCluster → src = tgt).

Definition job_ok (j : MigrationJob) : Prop :=
  well_typed (mj_MigrationType j) (mj_SourceClusterID j) (mj_TargetClusterID j).

Definition owes (i : nat) {X} (op : MOp X) (l : list mentry) : Prop :=
  (∀ c, change_of op = Some c → may_change i c l) ∧
  match op with
  | Pve cluster r => Forall (λ n, known cluster n l) (named r)
  | CreateMigrationJob arg => well_typed (cm_MigrationType arg) (cm_SourceClusterID arg) (cm_TargetClusterID arg)
  | _ => True
  end.

Definition pre (i : nat) (X : Type) (e : MOp X) (s : MSys) : Prop := owes i e (m_log s).

Definition entry_ok (e : mentry) (l : list mentry) : Prop :=
  match me_event e with @Ev _ _ op _ => owes (me_thread e) op l end.

Definition MInv (s : MSys) : Prop :=
  ForallTail entry_ok (m_log s) ∧ ∀ id j, m_jobs s !! id = Some j → job_ok j.

Lemma alter_ok (f : MigrationJob → MigrationJob) id (d : jobs) :
  (∀ j, job_ok j → job_ok (f j)) → (∀ id j, d !! id = Some j → job_ok j) →
  ∀ id' j, alter f id d !! id' = Some j → job_ok j.
Proof.
  intros Hf Hd id' j. destruct (decide (id = id')) as [<-|Hne].
  - rewrite lookup_alter_eq. intros (j0 & Hj & ->)%fmap_Some. eauto.
  - rewrite lookup_alter_ne by done. apply Hd.
Qed.

Lemma written_ok f d x d' :
  written f d x d' → (∀ id j, f d !! id = Some j → job_ok j) →
  (∀ id j, d !! id = Some j → job_ok j) → ∀ id j, d' !! id = Some j → job_ok j.
Proof. by intros [->|[_ ->]]. Qed.

Lemma insert_ok arg (d : jobs) id :
  well_typed (cm_MigrationType arg) (cm_SourceClusterID arg) (cm_TargetClusterID arg) →
  (∀ id j, d !! id = Some j → job_ok j) →
  ∀ id' j, <[id := createMigrationJob id arg]> d !! id' = Some j → job_ok j.
Proof. intros Ha Hd id' j [[_ <-]|[_ Hj]]%lookup_insert_Some; [done|eauto]. Qed.

Lemma MInv_step i X (e : MOp X) s x s' : MInv s → pre i X e s → step i X e s x s' → MInv s'.
Proof.
  intros [Hl Hd] Hp (d & n & Ha & ->). split; simpl; [by split|]. destruct Hp as [_ Hp].
  destruct e; simpl in *; try (destruct Ha as (-> & _); done);
    try (destruct Ha as [_ Ha]; eapply written_ok; [exact Ha| |done]; apply alter_ok; [|done];
         intros j Hj; try case_match; exact Hj).
  destruct Ha as [_ Ha]. destruct x as [j|err]; simpl in Ha.
  - destruct Ha as (id & _ & -> & ->). by apply insert_ok.
  - destruct Ha as [->|(id & _ & ->)]; [done|]. by apply insert_ok.
Qed.

(** ** Facts the history keeps *)

Definition mgrows (P : list mentry → Prop) : Prop := ∀ e l, P l → P (e :: l).

Create HintDb migration.

Lemma mgrows_elem (P : mentry → Prop) : mgrows (λ l, ∃ e, e ∈ l ∧ P e).
Proof. intros e l (e0 & He & HP). exists e0. split; [by right|done]. Qed.

Lemma mgrows_and P Q : mgrows P → mgrows Q → mgrows (λ l, P l ∧ Q l).
Proof. intros HP HQ e l [? ?]. split; auto. Qed.

Lemma mgrows_const (P : Prop) : mgrows (λ _, P).
Proof. by intros e l. Qed.

Lemma mgrows_impl (P : Prop) Q : mgrows Q → mgrows (λ l, P → Q l).
Proof. intros HQ e l Hl Hp. by apply HQ, Hl. Qed.

Lemma mgrows_forall {A} (P : A → list mentry → Prop) : (∀ a, mgrows (P a)) → mgrows (λ l, ∀ a, P a l).
Proof. intros HP e l Hl a. apply HP, Hl. Qed.

Lemma mgrows_known cluster node : mgrows (known cluster node).
Proof. intros e l [->|H]; [by left|right]. by apply (mgrows_elem (λ e, confirms e = Some (cluster, node))). Qed.

Lemma mgrows_managed i cluster : mgrows (managed i cluster).
Proof. apply (mgrows_elem (λ e, me_thread e = i ∧ approves e = Some ("manage", "migration", cluster))). Qed.

Lemma mgrows_read i id j : mgrows (read_by i id j).
Proof. apply (mgrows_elem (λ e, me_thread e = i ∧ read_job e = Some (id, j))). Qed.

#[export] Hint Resolve mgrows_and mgrows_const mgrows_impl mgrows_forall mgrows_known mgrows_managed mgrows_read : migration.

Abbreviation msafe := (safe step pre MInv).

Lemma mstep_grows i X (e : MOp X) s x s' : step i X e s x s' → m_log s' = Men i (Ev e x) :: m_log s.
Proof. by intros (d & n & _ & ->). Qed.

Lemma mgrows_stable i P : mgrows P → stable step pre MInv i (λ s, P (m_log s)).
Proof.
  intros HP s s' (_ & _ & j & X & e & x & _ & _ & Hs) Hl. rewrite (mstep_grows _ _ _ _ _ _ Hs). by apply HP.
Qed.

Lemma msafe_next i {A B} (p : mprog A) (f : A → mprog B) R Q s :
  msafe i p R s → (∀ a s', R a s' → msafe i (f a) Q s') → msafe i (bind p f) Q s.
Proof. intros Hp Hf. apply safe_bind. by eapply safe_mono. Qed.

Lemma msafe_ret i {A} (a : A) (Q : A → list mentry → Prop) s :
  mgrows (Q a) → Q a (m_log s) → msafe i (Ret a) (λ a s, Q a (m_log s)) s.
Proof. intros HQ Hs. apply safe_ret; [by apply (mgrows_stable i (Q a))|done]. Qed.

(** A call made where [P] holds, and what its answer adds to the history. *)
Lemma msafe_ask i {X} (e : MOp X) (P : list mentry → Prop) (Q : X → list mentry → Prop) s :
  mgrows P → P (m_log s) → (∀ x, mgrows (Q x)) → (∀ l, P l → owes i e l) →
  (∀ d n x d' n' l, (∀ id j, d !! id = Some j → job_ok j) → may_answer e d n x d' n' → P l →
    Q x (Men i (Ev e x) :: l)) →
  msafe i (mask e) (λ x s, Q x (m_log s)) s.
Proof.
  intros HP Hs HQ Hpre Hpost. apply (safe_call _ _ _ _ _ (λ s, P (m_log s))); [by apply mgrows_stable|done| | |].
  - intros x. by apply (mgrows_stable i (Q x)).
  - intros s1 _ Hl. by apply Hpre.
  - intros s1 x s2 [_ HJ] Hl (d & n & Ha & ->) _. by eapply Hpost.
Qed.

(** What a part of a program calls where nothing it does depends on its answers. *)
Lemma msafe_under i {A} (p : mprog A) (P : list mentry → Prop) (Q : A → Prop) s :
  mgrows P → calls_ok (λ X e, ∀ l, P l → owes i e l) (λ _ _ _, True) p Q → P (m_log s) →
  msafe i p (λ a s, Q a ∧ P (m_log s)) s.
Proof.
  intros HP. revert s. induction p as [a|X e k IH]; simpl; intros s Hp Hs.
  - apply (msafe_ret i a (λ a l, Q a ∧ P l)); [|done]. by apply mgrows_and; [apply mgrows_const|].
  - destruct Hp as [He Hk]. intros s1 Hr _.
    assert (P (m_log s1)) by by eapply (stable_rtc _ _ _ i (λ s, P (m_log s))); [apply mgrows_stable| |].
    split; [by apply He|]. intros x s2 Hst _. apply IH; [by apply Hk|].
    rewrite (mstep_grows _ _ _ _ _ _ Hst). by apply HP.
Qed.

(** ** Programs that change no job and name only the nodes of [ok] *)

Definition within (ok : uuid → string → Prop) (X : Type) (e : MOp X) : Prop :=
  change_of e = None ∧ match e with Pve cluster r => Forall (ok cluster) (named r) | _ => True end.

Abbreviation stays ok p := (makes (within ok) p).

Lemma within_owes i ok X (e : MOp X) (P : list mentry → Prop) :
  within ok X e → (∀ c n l, ok c n → P l → known c n l) → ∀ l, P l → owes i e l.
Proof.
  intros [Hc He] Hok l Hl. split; [intros c Hc'; congruence|].
  destruct e; try done. eapply Forall_impl; [exact He|]. intros node Hn. by eapply Hok.
Qed.

Lemma msafe_stays i {A} ok (P : list mentry → Prop) (p : mprog A) s :
  stays ok p → mgrows P → (∀ c n l, ok c n → P l → known c n l) → P (m_log s) →
  msafe i p (λ _ s, P (m_log s)) s.
Proof.
  intros Hp HP Hok Hs. apply (safe_mono _ _ _ _ _ (λ a s, True ∧ P (m_log s))); [by intros a s' [_ ?]|].
  apply msafe_under; [done| |done]. revert Hp. clear Hs.
  induction p as [a|X e k IH]; [done|]. intros [He Hk]. split; [by eapply within_owes|]. intros x Hx. by apply IH, Hk.
Qed.

Ltac stays_go := makes_go (split; [done|simpl; repeat constructor; by auto]).

Section parts.
Context `{MR : MapRange} `{UP : UrlParser} `{LIB : MigrationLibrary} `{CFG : MigrationConfig}.
Variable ok : uuid → string → Prop.

Lemma stays_client c : stays ok (clientForCluster c).
Proof. unfold clientForCluster. stays_go. Qed.
Hint Resolve stays_client : makes.

Lemma stays_audit c mc action details : stays ok (auditLog c mc action details).
Proof. unfold auditLog. stays_go. Qed.
Hint Resolve stays_audit : makes.

Lemma stays_failJob id msg mc : stays ok (failJob id msg mc).
Proof. unfold failJob. stays_go. Qed.
Hint Resolve stays_failJob : makes.

Lemma stays_recordDiskMove mc node spec upid i total : stays ok (recordDiskMove mc node spec upid i total).
Proof. unfold recordDiskMove. stays_go. Qed.
Hint Resolve stays_recordDiskMove : makes.

Lemma stays_poll n client node upid jobID mc since :
  ok client node → stays ok (pollTaskStatus n client node upid jobID mc since).
Proof.
  intros Hok. revert since. induction n as [|n IH]; intros since; simpl; [done|].
  unfold abandonTaskRow, finish_task. stays_go.
Qed.

Lemma stays_wait n client node upid : ok client node → stays ok (waitForTask n client node upid).
Proof. intros Hok. induction n as [|n IH]; simpl; [done|]. stays_go. Qed.

Lemma stays_intra client job :
  ok client (mj_SourceNode job) → ok client (mj_TargetNode job) → stays ok (executeIntraCluster client job).
Proof. intros ??. unfold executeIntraCluster. stays_go. Qed.

Lemma stays_discover client node vmid vmType : ok client node → stays ok (discoverDisks client node vmid vmType).
Proof. intros ?. unfold discoverDisks. stays_go. Qed.

Lemma stays_move client node job spec p :
  ok client node → move_disk client node job spec = Some p → stays ok p.
Proof. unfold move_disk. intros ?. repeat case_bool_decide; intros [= <-]; stays_go. Qed.

Lemma stays_storage n client job jobID mc total i first last moves :
  ok client (mj_SourceNode job) → stays ok (storage_loop n client job jobID mc total i first last moves).
Proof.
  intros Hok. revert i first last. induction moves as [|m moves IH]; intros i first last; simpl; [done|].
  destruct (move_disk _ _ _ _) as [p|] eqn:Hp; [|stays_go].
  apply makes_bind; [by eapply stays_move|]. intros [upid|e]; [|stays_go].
  unfold started_first. stays_go; by apply stays_wait.
Qed.

Lemma stays_both_loop n client job jobID mc total i last moves :
  ok client (mj_TargetNode job) → stays ok (both_loop n client job jobID mc total i last moves).
Proof.
  intros Hok. revert i last. induction moves as [|m moves IH]; intros i last; simpl; [done|].
  apply makes_bind.
  { unfold move_on_target. destruct (move_disk _ _ _ _) as [p|] eqn:Hp; [by eapply stays_move|done]. }
  intros [upid|e]; stays_go; by apply stays_wait.
Qed.

Lemma stays_mark job jobID upid : stays ok (mark_migrating job jobID upid).
Proof. unfold mark_migrating. stays_go. Qed.
Hint Resolve stays_mark stays_wait stays_poll stays_discover stays_intra stays_storage stays_both_loop : makes.

Lemma stays_start n client job jobID userID upid mc :
  ok client (mj_SourceNode job) → stays ok (startAndPollMigration n client job jobID userID upid mc).
Proof. intros ?. unfold startAndPollMigration. stays_go. Qed.
Hint Resolve stays_start : makes.

Lemma stays_executeStorage n client job jobID mc :
  ok client (mj_SourceNode job) → stays ok (executeStorageMigration n client job jobID mc).
Proof. intros ?. unfold executeStorageMigration. stays_go. Qed.

Lemma stays_executeBoth n client job jobID userID mc :
  ok client (mj_SourceNode job) → ok client (mj_TargetNode job) →
  stays ok (executeBothMigration n client job jobID userID mc).
Proof. intros ??. unfold executeBothMigration, both_disks, both_done. stays_go. Qed.

Lemma stays_bridges client job :
  ok client (mj_SourceNode job) → stays ok (bridge_map client job).
Proof. intros ?. unfold bridge_map, detectBridges. stays_go. Qed.
Hint Resolve stays_bridges : makes.

Lemma stays_target_vmid job : stays ok (target_vmid job).
Proof. unfold target_vmid, findFreeVMID. stays_go. Qed.
Hint Resolve stays_target_vmid : makes.

Lemma stays_remote client job params p :
  ok client (mj_SourceNode job) → remote_migrate client job params = Some p → stays ok p.
Proof. intros ?. unfold remote_migrate. repeat case_bool_decide; intros [= <-]; stays_go. Qed.

Lemma stays_cross client job mc :
  ok client (mj_SourceNode job) → stays ok (executeCrossCluster client job mc).
Proof.
  intros ?. unfold executeCrossCluster. apply makes_bind; [stays_go|]. intros [tgt|e]; [|done].
  destruct (Decrypt _) as [secret|e]; [|done]. apply makes_bind; [stays_go|]. intros networkMap.
  apply makes_bind; [stays_go|]. intros vmid.
  match goal with |- context [remote_migrate ?c ?j ?p] => destruct (remote_migrate c j p) as [m|] eqn:Hm end; [|done].
  apply makes_bind; [by eapply stays_remote|]. by intros [upid|e].
Qed.
Hint Resolve stays_executeStorage stays_executeBoth stays_cross : makes.

Lemma stays_execute_job n job jobID userID mc :
  ok (mj_SourceClusterID job) (mj_SourceNode job) →
  (mj_MigrationType job = TypeIntraCluster → ok (mj_SourceClusterID job) (mj_TargetNode job)) →
  stays ok (execute_job n job jobID userID mc).
Proof.
  intros Hs Ht. unfold execute_job, dispatched.
  destruct (decide (mj_MigrationType job = TypeIntraCluster)) as [Hi|Hi].
  - specialize (Ht Hi). rewrite bool_decide_true by done. simpl. stays_go.
  - rewrite (bool_decide_false (mj_MigrationType job = TypeIntraCluster)) by done. simpl. stays_go.
Qed.

Lemma stays_resolve job userID : stays ok (resolveMigrationContext job userID).
Proof. unfold resolveMigrationContext. stays_go. Qed.

Lemma stays_checks src tgt srcNode tgtNode type storageMap networkMap vmid :
  ok src srcNode → ok tgt tgtNode → (type = TypeIntraCluster → src = tgt) →
  stays ok (RunPreFlightChecks src tgt srcNode tgtNode type storageMap networkMap vmid).
Proof.
  intros ???. unfold RunPreFlightChecks, checkTargetNodeOnline, checkTargetVMIDAvailable, checkPVEVersion,
    checkCPUCompatibility, checkStorageMappings, checkNetworkMappings. stays_go.
Qed.
End parts.
#[export] Hint Resolve stays_client stays_audit stays_failJob stays_resolve stays_checks : makes.

(** ** Threads *)

Lemma safe_confirm i c node P s :
  mgrows P → P (m_log s) →
  msafe i (mask (GetNodeByClusterAndName c node)) (λ x s, (x = Some true → known c node (m_log s)) ∧ P (m_log s)) s.
Proof.
  intros HP Hs. apply (msafe_ask i _ P (λ x l, (x = Some true → known c node l) ∧ P l)); [done..| | |].
  - intros x. auto with migration.
  - by intros l _.
  - intros d n x d' n' l _ _ Hl. split; [|by apply HP]. intros ->. right. eexists. split; [left|done].
Qed.

Lemma safe_require i l P s :
  mgrows P → P (m_log s) →
  msafe i (require_nodes l)
    (λ x s, (x = None → Forall (λ p, known p.1 p.2 (m_log s)) l) ∧ P (m_log s)) s.
Proof.
  intros HP. revert P HP s. induction l as [|[c node] l IH]; intros P HP s Hs; simpl.
  { apply (msafe_ret i None (λ x l, (x = None → Forall (λ p, known p.1 p.2 l) []) ∧ P l)); [|by split].
    apply mgrows_and; [|done]. apply mgrows_impl. intros e l' _. by constructor. }
  case_bool_decide as Hn.
  - eapply safe_mono; [|by apply (IH P)]. intros x s' [Hx ?]. split; [|done]. intros Hx'.
    constructor; [by left|by apply Hx].
  - unfold Require_member. apply (msafe_next i _ _ (λ x s, (x = None → known c node (m_log s)) ∧ P (m_log s))).
    + eapply msafe_next; [by apply (safe_confirm i c node P)|]. intros [[]|] s1 [Hk HP1]; simpl.
      * apply (msafe_ret i None (λ x l, (x = None → known c node l) ∧ P l)); [auto with migration|].
        split; [|done]. intros _. by apply Hk.
      * by apply (msafe_ret i (Some _) (λ x l, (x = None → known c node l) ∧ P l)); [auto with migration|].
      * by apply (msafe_ret i (Some _) (λ x l, (x = None → known c node l) ∧ P l)); [auto with migration|].
    + intros [e|] s1 [Hk HP1].
      * apply (msafe_ret i (Some e) (λ x l', (x = None → Forall (λ p, known p.1 p.2 l') ((c, node) :: l)) ∧ P l')); [|done].
        apply mgrows_and; [|done]. by intros ? ? _ ?.
      * eapply safe_mono; [|apply (IH (λ l, known c node l ∧ P l)); [auto with migration|]].
        { intros x s' (Hx & Hkn & ?). split; [|done]. intros Hx'. constructor; [done|by apply Hx]. }
        split; [by apply Hk|done].
Qed.

Lemma safe_get i id s :
  msafe i (mask (GetMigrationJob id)) (λ x s, ∀ j, x = Ok j → job_ok j ∧ read_by i id j (m_log s)) s.
Proof.
  apply (msafe_ask i _ (λ _, True) (λ x l, ∀ j, x = Ok j → job_ok j ∧ read_by i id j l)); try done.
  - intros x. auto with migration.
  - intros d n x d' n' l Hd (_ & _ & Hx) _ j ->. split; [by apply (Hd id), Hx|]. eexists. split; [left|done].
Qed.

Section threads.
Context `{MR : MapRange} `{UP : UrlParser} `{LIB : MigrationLibrary} `{CFG : MigrationConfig}.

Definition of_job (job : MigrationJob) (c : uuid) (n : string) : Prop :=
  (c = mj_SourceClusterID job ∧ n = mj_SourceNode job) ∨ (c = mj_TargetClusterID job ∧ n = mj_TargetNode job).

Lemma of_job_known job c n l :
  of_job job c n →
  Forall (λ p, known p.1 p.2 l)
    [(mj_SourceClusterID job, mj_SourceNode job); (mj_TargetClusterID job, mj_TargetNode job)] → known c n l.
Proof. rewrite !Forall_cons. by intros [[-> ->]|[-> ->]] (? & ? & _). Qed.

Lemma mgrows_nodes (l : list (uuid * string)) : mgrows (λ h, Forall (λ p, known p.1 p.2 h) l).
Proof. intros e h Hl. eapply Forall_impl; [exact Hl|]. intros [c n]. apply mgrows_known. Qed.

(** A part of a program that names no node and changes no job. *)
Lemma safe_plain i {A} (p : mprog A) (P : list mentry → Prop) s :
  stays (λ _ _, False) p → mgrows P → P (m_log s) → msafe i p (λ _ s, P (m_log s)) s.
Proof. intros Hp HP Hs. by apply (msafe_stays i (λ _ _, False)). Qed.

Lemma safe_Execute i n id user s : msafe i (Execute n id user) (λ _ _, True) s.
Proof.
  unfold Execute. eapply msafe_next; [apply safe_get|]. intros [job|e] s1 Hj.
  2: { eapply safe_mono; [|apply (safe_plain i _ (λ _, True)); [|done..]]; [done|]. stays_go. }
  destruct (Hj job eq_refl) as [Hok _].
  eapply msafe_next; [apply (safe_plain i _ (λ _, True)); [apply stays_resolve|done..]|]. intros mc s2 _.
  eapply msafe_next; [by apply (safe_require i _ (λ _, True))|]. intros [e|] s3 [Hk _].
  { eapply safe_mono; [|apply (safe_plain i _ (λ _, True)); [|done..]]; [done|]. stays_go. }
  eapply safe_mono; [|apply (msafe_stays i (of_job job)
    (λ l, Forall (λ p, known p.1 p.2 l)
      [(mj_SourceClusterID job, mj_SourceNode job); (mj_TargetClusterID job, mj_TargetNode job)]))];
    [done| |apply mgrows_nodes|by intros; eapply of_job_known|by apply Hk].
  apply makes_bind; [apply stays_client|]. intros [src|e].
  - apply stays_execute_job; [by left|]. intros Hi. right. split; [by apply Hok|done].
  - apply makes_bind; [apply stays_failJob|]. by intros.
Qed.

Lemma safe_background i n id user s : msafe i (background n id user) (λ _ _, True) s.
Proof.
  unfold background. eapply msafe_next; [apply safe_Execute|]. intros ended s1 _.
  eapply safe_mono; [|apply (safe_plain i _ (λ _, True)); [|done..]]; [done|]. stays_go.
Qed.

Lemma safe_perm i action resource c P s :
  mgrows P → P (m_log s) →
  msafe i (mask (RequirePerm action resource c))
    (λ x s, (x = None → ∃ e, e ∈ m_log s ∧ me_thread e = i ∧ approves e = Some (action, resource, c)) ∧ P (m_log s)) s.
Proof.
  intros HP Hs. apply (msafe_ask i _ P (λ x l, (x = None → ∃ e, e ∈ l ∧ me_thread e = i ∧
    approves e = Some (action, resource, c)) ∧ P l)); [done..| | |].
  - intros x. apply mgrows_and; [|done]. apply mgrows_impl.
    apply (mgrows_elem (λ e, me_thread e = i ∧ approves e = Some (action, resource, c))).
  - by intros l _.
  - intros d n x d' n' l _ _ Hl. split; [|by apply HP]. intros ->. eexists. split; [left|done].
Qed.

Lemma safe_both i src tgt P s :
  mgrows P → P (m_log s) →
  msafe i (requireBoth src tgt)
    (λ x s, (x = None → managed i src (m_log s) ∧ managed i tgt (m_log s)) ∧ P (m_log s)) s.
Proof.
  intros HP Hs. unfold requireBoth.
  assert (∀ x : option mreply, mgrows (λ l, (x = None → managed i src l ∧ managed i tgt l) ∧ P l)) as Hg.
  { intros x. auto 6 with migration. }
  eapply msafe_next; [by apply (safe_perm i _ _ _ P)|]. intros [e|] s1 [Hm HP1].
  { apply (msafe_ret i (Some (Failed e)) (λ x l, (x = None → managed i src l ∧ managed i tgt l) ∧ P l)); [apply Hg|done]. }
  assert (managed i src (m_log s1)) as Hsrc by by apply Hm. destruct (Z.eqb_spec src tgt) as [<-|Hne].
  { by apply (msafe_ret i None (λ x l, (x = None → managed i src l ∧ managed i src l) ∧ P l)); [apply Hg|]. }
  eapply msafe_next; [apply (safe_perm i _ _ _ (λ l, managed i src l ∧ P l)); [auto with migration|done]|].
  intros err s2 (Ht & ? & ?).
  apply (msafe_ret i (Failed <$> err) (λ x l, (x = None → managed i src l ∧ managed i tgt l) ∧ P l)); [apply Hg|].
  split; [|done]. intros Hn%fmap_None. split; [done|by apply Ht].
Qed.

Lemma safe_managed i id (k : uuid → MigrationJob → mprog mreply) s :
  (∀ jobID job s, job_ok job → may_change i (OldJob jobID) (m_log s) → msafe i (k jobID job) (λ _ _, True) s) →
  msafe i (with_managed_job id k) (λ _ _, True) s.
Proof.
  intros Hk. unfold with_managed_job, with_job. destruct id as [jobID|]; [|by apply safe_ret].
  eapply msafe_next; [apply safe_get|]. intros [job|e] s1 Hj; [|by apply safe_ret].
  destruct (Hj job eq_refl) as [Hok Hr].
  eapply msafe_next; [apply (safe_both i _ _ (read_by i jobID job)); [auto with migration|done]|].
  intros [e|] s2 [Hm Hr2]; [by apply safe_ret|]. apply Hk; [done|]. exists job. split; [done|by apply Hm].
Qed.

Lemma mgrows_may_change i c : mgrows (may_change i c).
Proof.
  intros e l. destruct c as [arg|id]; simpl.
  - intros [? ?]. split; by apply mgrows_managed.
  - intros (j & ? & ? & ?). exists j. split_and!; [by apply mgrows_read|by apply mgrows_managed..].
Qed.
Hint Resolve mgrows_may_change : migration.

(** A write to a job the thread may change. *)
Lemma safe_change i {X} (e : MOp X) c (P : list mentry → Prop) s :
  change_of e = Some c → mgrows P → (∀ l, P l → may_change i c l) → P (m_log s) →
  match e with CreateMigrationJob arg => well_typed (cm_MigrationType arg) (cm_SourceClusterID arg) (cm_TargetClusterID arg)
             | _ => True end →
  msafe i (mask e) (λ _ s, P (m_log s)) s.
Proof.
  intros Hc HP Hm Hs Hw. apply (msafe_ask i e P (λ _ l, P l)); [done..| |].
  - intros l Hl. split; [intros c' Hc'; simplify_eq; by apply Hm|]. by destruct e.
  - intros. by apply HP.
Qed.

Lemma safe_saveCheckResults i jobID report s :
  may_change i (OldJob jobID) (m_log s) → msafe i (saveCheckResults jobID report) (λ _ _, True) s.
Proof.
  intros Hs. unfold saveCheckResults.
  eapply msafe_next; [by apply (safe_change i _ (OldJob jobID) (may_change i (OldJob jobID))); auto with migration|].
  intros [e|] s1 _; by apply safe_ret.
Qed.

Lemma safe_RunPreFlight i jobID s :
  may_change i (OldJob jobID) (m_log s) → msafe i (RunPreFlight jobID) (λ _ _, True) s.
Proof.
  intros Hs. unfold RunPreFlight. set (P := may_change i (OldJob jobID)).
  assert (mgrows P) as HP by (unfold P; auto with migration).
  eapply msafe_next; [apply (safe_and _ _ _ _ _ (λ x s, ∀ j, x = Ok j → job_ok j ∧ read_by i jobID j (m_log s))
    (λ _ s, P (m_log s))); [apply safe_get|by apply safe_plain; [stays_go|..]]|].
  intros [job|e] s1 [Hj Hs1]; [|by apply safe_ret]. destruct (Hj job eq_refl) as [[Hty Hsame] _].
  eapply msafe_next; [by apply (safe_change i _ (OldJob jobID) P)|]. intros [e|] s2 Hs2; [by apply safe_ret|].
  eapply msafe_next; [by apply (safe_require i _ P)|]. intros [e|] s3 [Hk Hs3]; [by apply safe_saveCheckResults|].
  set (N := λ l, P l ∧ Forall (λ p, known p.1 p.2 l)
    [(mj_SourceClusterID job, mj_SourceNode job); (mj_TargetClusterID job, mj_TargetNode job)]).
  assert (mgrows N) as HN by (apply mgrows_and; [done|apply mgrows_nodes]).
  assert (N (m_log s3)) as HN3 by (split; [done|by apply Hk]).
  eapply msafe_next; [apply (safe_plain i _ N); [|done..]; unfold preflight_clients; stays_go|].
  intros [e|] s4 HN4; [by apply safe_ret|].
  eapply msafe_next; [apply (msafe_stays i (of_job job) N); [|done| |done]|].
  - apply elem_of_cons in Hty as [Hi|Hc%list_elem_of_singleton].
    + rewrite bool_decide_false by (rewrite Hi; done). rewrite (Hsame Hi). apply stays_checks; [|by right|done].
      left. by rewrite (Hsame Hi).
    + rewrite bool_decide_true by done. apply stays_checks; [by left|by right|]. by rewrite Hc.
  - intros c n l Hc [_ Hn]. by eapply of_job_known.
  - intros report s5 [HP5 _]. by apply safe_saveCheckResults.
Qed.

Lemma stays_audit_job ok caller c vmid job action details : stays ok (audit_job caller c vmid job action details).
Proof. unfold audit_job. stays_go. Qed.
Hint Resolve stays_audit_job : makes.

Lemma stays_node_in_cluster ok c node : stays ok (requireNodeInCluster c node).
Proof. unfold requireNodeInCluster. stays_go. Qed.

Lemma msafe_rest i {A} (p : mprog A) s : stays (λ _ _, False) p → msafe i p (λ _ _, True) s.
Proof. intros Hp. eapply safe_mono; [|by apply (safe_plain i p (λ _, True))]. done. Qed.

Lemma rules_well_typed q src tgt m :
  rq_migration_type q ∈ [TypeIntraCluster; TypeCrossCluster] → refused_by_rules q src tgt m = None →
  well_typed (rq_migration_type q) src tgt.
Proof.
  intros Hty Hr. split; [done|]. intros Hi. revert Hr. unfold refused_by_rules.
  rewrite (bool_decide_true (rq_migration_type q = TypeIntraCluster)) by done.
  destruct (Z.eqb_spec src tgt) as [|Hne]; [done|]. simpl. by repeat case_match.
Qed.

Lemma safe_Create i caller q s :
  rq_migration_type q ∈ [TypeIntraCluster; TypeCrossCluster] → msafe i (Create caller q) (λ _ _, True) s.
Proof.
  intros Hty. unfold Create. destruct (rq_source_cluster_id q) as [src|]; [|by apply safe_ret].
  destruct (rq_target_cluster_id q) as [tgt|]; [|by apply safe_ret].
  eapply msafe_next; [by apply (safe_both i src tgt (λ _, True))|]. intros [e|] s1 [Hm _]; [by apply safe_ret|].
  destruct (stringMap "storage_map" _) as [storageMap|]; [|by apply safe_ret].
  destruct (stringMap "network_map" _) as [networkMap|]; [|by apply safe_ret].
  set (P := may_change i (NewJob (create_params q src tgt caller storageMap networkMap))).
  assert (mgrows P) as HP by (unfold P; auto with migration).
  assert (P (m_log s1)) as HP1 by by apply Hm.
  unfold create_checked. eapply msafe_next; [by apply (safe_plain i _ P); [apply stays_node_in_cluster|..]|].
  intros [e|] s2 Hs2; [by apply safe_ret|].
  eapply msafe_next; [by apply (safe_plain i _ P); [apply stays_node_in_cluster|..]|].
  intros [e|] s3 Hs3; [by apply safe_ret|]. destruct (refused_by_rules _ _ _ _) as [e|] eqn:Hr; [by apply safe_ret|].
  unfold insert_job. eapply msafe_next; [eapply (safe_change i _ _ P); [done|done|done|done|]|].
  - by eapply rules_well_typed.
  - intros [job|e] s4 _; [|by apply safe_ret]. apply msafe_rest. stays_go.
Qed.

(** The programs of the API and their goroutines; the schema lets a type of
    migration through only if it is one of the two. *)
Inductive migration_program : mprog unit → Prop :=
| creates caller q : rq_migration_type q ∈ [TypeIntraCluster; TypeCrossCluster] →
    migration_program (do! Create caller q in Ret tt)
| lists limit offset : migration_program (do! List_jobs limit offset in Ret tt)
| lists_by_cluster c limit offset : migration_program (do! ListByCluster c limit offset in Ret tt)
| gets id : migration_program (do! Get id in Ret tt)
| checks id : migration_program (do! RunCheck id in Ret tt)
| executes caller id : migration_program (do! Execute_route caller id in Ret tt)
| cancels caller id : migration_program (do! Cancel_route caller id in Ret tt)
| goes_on n id user : migration_program (background n id user).

Lemma safe_program i p s : migration_program p → msafe i p (λ _ _, True) s.
Proof.
  assert (∀ {A} (p : mprog A), msafe i p (λ _ _, True) s → msafe i (do! p in Ret tt) (λ _ _, True) s) as Hdo.
  { intros A q Hq. eapply msafe_next; [exact Hq|]. intros. by apply safe_ret. }
  intros [caller q Hq|limit offset|c limit offset|id|id|caller id|caller id|n id user]; try apply Hdo.
  - by apply safe_Create.
  - unfold List_jobs. apply msafe_rest. stays_go.
  - unfold ListByCluster. apply msafe_rest. stays_go.
  - unfold Get, with_job. apply msafe_rest. stays_go.
  - apply safe_managed. intros jobID job s1 _ Hc. eapply msafe_next; [by apply safe_RunPreFlight|].
    intros [report|e] s2 _; by apply safe_ret.
  - apply safe_managed. intros jobID job s1 _ Hc. destruct (executable _); simpl; [|by apply safe_ret].
    eapply msafe_next; [by apply (safe_plain i _ (may_change i (OldJob jobID))); [stays_go|auto with migration|]|].
    intros [] s2 Hs2; simpl; [|by apply safe_ret].
    eapply msafe_next; [by apply (safe_change i _ (OldJob jobID) (may_change i (OldJob jobID))); auto with migration|].
    intros _ s3 _. apply msafe_rest. stays_go.
  - apply safe_managed. intros jobID job s1 _ Hc. unfold Cancel.
    eapply msafe_next; [by apply (safe_change i _ (OldJob jobID) (may_change i (OldJob jobID))); auto with migration|].
    intros [e|] s2 _; [by apply safe_ret|]. apply msafe_rest. stays_go.
  - apply safe_background.
Qed.

(** A thread that has not called anything. *)
Definition idle (i : nat) (s : MSys) : Prop := i ∉ me_thread <$> m_log s.

Definition migration_history (s s' : MSys) : Prop :=
  ∃ ts, rtc (threads step idle migration_program) ([], s) (ts, s').

(** Before anything was asked, on rows the routes recorded. *)
Definition untouched (s : MSys) : Prop := m_log s = [] ∧ ∀ id j, m_jobs s !! id = Some j → job_ok j.

Lemma history_keeps s s' : untouched s → migration_history s s' → ForallTail entry_ok (m_log s').
Proof.
  intros [Hl Hd] [ts Hr].
  apply (threads_safe step pre MInv idle migration_program) in Hr; simpl.
  - by destruct Hr as [[? _] _].
  - apply MInv_step.
  - intros. by apply safe_program.
  - split_and!; simpl; [split; [by rewrite Hl|done]|constructor..].
Qed.
End threads.

(** C22: Only nodes of the cluster are contacted. Over any history of the routes and
    the goroutines they start, a request to Proxmox names, in its path or as the
    node a guest is migrated to, only nodes that the nodes table was asked about
    before, for the cluster the request goes to, and was found to hold; the only
    other name is the empty one, which is a request that is given no node. *)
Theorem migration_contacts_confirmed `{MapRange, UrlParser, MigrationLibrary, MigrationConfig} s0 s later e earlier c node :
  untouched s0 → migration_history s0 s → m_log s = later ++ e :: earlier →
  (c, node) ∈ contacted e → node = "" ∨ ∃ e', e' ∈ earlier ∧ confirms e' = Some (c, node).
Proof.
  intros Hs0 Hs Hl Hc. pose proof (history_keeps _ _ Hs0 Hs) as Hk. rewrite Hl in Hk.
  apply ForallTail_at in Hk. destruct e as [i [X op x]]. destruct op; simpl in *; try (by apply elem_of_nil in Hc).
  destruct Hk as [_ Hk]. apply list_elem_of_fmap in Hc as (n & [= -> ->] & Hn).
  rewrite Forall_forall in Hk. by apply Hk.
Qed.

(** Only who manages both clusters changes a job. Over any history, a thread
    that records a job, runs its checks, starts it or cancels it was told before
    that the caller manages the migrations of the job's source cluster, and of its
    target cluster; where the job is an old one, they are the clusters of the row
    the thread itself had read. *)
Theorem migration_changes_authorised `{MapRange, UrlParser, MigrationLibrary, MigrationConfig} s0 s later e earlier ch :
  untouched s0 → migration_history s0 s → m_log s = later ++ e :: earlier → changes e = Some ch →
  may_change (me_thread e) ch earlier.
Proof.
  intros Hs0 Hs Hl Hc. pose proof (history_keeps _ _ Hs0 Hs) as Hk. rewrite Hl in Hk.
  apply ForallTail_at in Hk. destruct e as [i [X op x]]. by apply Hk.
Qed.
