(* ===== verification/MigrationSafety.v ===== *)
(** * What a migration leaves behind

    Theorems about one execution of a job, by its calls and answers.

    - [secret_not_persisted]: the token secret of the target cluster does not reach
      the database, once Proxmox has been given it and can quote it.

    [ReplaceAll] is shown to remove what it replaces ([replaced_gone]). *)

From S2P Require Import Prelude GoFloat GoStrings ProxmoxApi Effects Crs DrsRules DrsPlanner DrsExecutor RbacEngine.
From S2P Require Import MigrationOps MigrationChecks MigrationRun.

Local Open Scope Z_scope.

(** ** Replacing *)

(** No byte of [old] is one of [new]. *)
Definition apart (old new : string) : Prop := ∀ c, c ∈ bytes_of old → c ∉ bytes_of new.

Lemma HasPrefix_apart new p s : new ≠ "" → apart p new → HasPrefix (new +:+ s) p = true → p = "".
Proof.
  intros Hnew Hp. destruct new as [|b new]; [done|]. rewrite app_string_cons. destruct p as [|a p]; [done|]. simpl.
  intros [->%ascii_eqb_eq _]%andb_true_iff. exfalso. apply (Hp b); by left.
Qed.

Lemma sdrop_length n s : (slen (sdrop n s) = slen s - n)%nat.
Proof. revert s. induction n as [|n IH]; intros [|c s]; simpl; try done. Qed.

(** A text free of the bytes of [new] that starts what was replaced started the
    original. *)
Lemma prefix_of_replaced old new fuel s p :
  old ≠ "" → new ≠ "" → apart p new → (slen s ≤ fuel)%nat →
  HasPrefix (replace_go fuel s old new) p = true → HasPrefix s p = true.
Proof.
  intros Hold Hnew. revert s p. induction fuel as [|fuel IH]; intros s p Hp Hlen.
  { by destruct s. }
  destruct s as [|c s]; [done|]. cbn [replace_go]. destruct (HasPrefix (String c s) old) eqn:Ho.
  - intros Hpre. apply HasPrefix_apart in Hpre as ->; done.
  - destruct p as [|a p]; [done|]. simpl. intros [Hac Hpre]%andb_true_iff. rewrite Hac. simpl.
    apply IH; [|simpl in Hlen; lia|done]. intros x Hx. apply Hp. by right.
Qed.

Lemma Contains_app_apart new old s :
  old ≠ "" → apart old new → Contains (new +:+ s) old = true → Contains s old = true.
Proof.
  intros Hold. induction new as [|b new IH]; intros Ha; [done|]. rewrite app_string_cons.
  change (Contains (String b (new +:+ s)) old) with
    (HasPrefix (String b new +:+ s) old || Contains (new +:+ s) old).
  intros [Hp|Hc]%orb_true_iff; [by apply HasPrefix_apart in Hp|]. apply IH; [|done].
  intros c Hc' Hn. apply (Ha c Hc'). by right.
Qed.

Lemma replace_go_gone old new fuel s :
  old ≠ "" → new ≠ "" → apart old new → (slen s ≤ fuel)%nat → Contains (replace_go fuel s old new) old = false.
Proof.
  intros Hold Hnew Ha. revert s. induction fuel as [|fuel IH]; intros s Hlen.
  { destruct s; [|simpl in Hlen; lia]. by destruct old. }
  destruct s as [|c s]; [by destruct old|]. cbn [replace_go]. destruct (HasPrefix (String c s) old) eqn:Ho.
  - apply not_true_iff_false. intros Hc. apply Contains_app_apart in Hc; [|done..].
    rewrite IH in Hc; [done|]. rewrite sdrop_length. destruct old; [done|]. simpl in *. lia.
  - simpl. apply orb_false_iff. split; [|apply IH; simpl in Hlen; lia].
    apply not_true_iff_false. intros Hp. rewrite <-not_true_iff_false in Ho. apply Ho. destruct old as [|a old]; [done|].
    simpl in Hp |- *. apply andb_true_iff in Hp as [Hac Hp]. rewrite Hac. simpl.
    eapply (prefix_of_replaced (String a old) new fuel); [done|done| |simpl in Hlen; lia|exact Hp]. intros x Hx. apply Ha. by right.
Qed.

(** A text that shares no byte with its replacement is gone. *)
Lemma replaced_gone s old new : old ≠ "" → new ≠ "" → apart old new → Contains (ReplaceAll s old new) old = false.
Proof. intros. by apply replace_go_gone. Qed.

Lemma Contains_longer s sub : (slen s < slen sub)%nat → Contains s sub = false.
Proof.
  induction s as [|c s IH]; intros Hlen; cbn [Contains].
  - by destruct sub; [simpl in Hlen; lia|].
  - cbn [String.length] in Hlen. rewrite IH by lia. rewrite orb_false_r. apply not_true_iff_false. intros [t Ht]%HasPrefix_spec.
    assert (slen (String c s) = slen (sub +:+ t)) as Heq by by rewrite Ht. rewrite slen_app in Heq. simpl in Heq. lia.
Qed.

(** ** Secrets *)

(** The token a request carries. *)
Definition token_of {X} (op : MOp X) : option string :=
  match op with
  | Pve _ r =>
      match r with
      | RemoteMigrateVM _ _ p | RemoteMigrateCT _ _ p => Some (te_APIToken (rm_TargetEndpoint p))
      | _ => None
      end
  | _ => None
  end.

(** The texts of errors a call writes: the error of a job, the exit status of a
    task, the error of an audit entry. *)
Definition error_texts {X} (op : MOp X) : list string :=
  match op with
  | CompleteMigrationJob _ _ _ _ error => [error]
  | ReconcileTaskHistory _ _ _ exitStatus _ => [exitStatus]
  | InsertAuditLog _ _ _ _ _ _ details =>
      omap (λ d, match d with (k, DText s) => if bool_decide (k = "error") then Some s else None | _ => None end) details
  | _ => []
  end.

(** A secret as Proxmox makes them, as far as it matters: longer than the words
    the orchestrator itself writes as an exit status, and of bytes that are not in
    the word that replaces it. A UUID in lower case is one. *)
Definition plain_secret (secret : string) : Prop :=
  (11 < slen secret)%nat ∧ apart secret redactedTokenSecret.

(** What the token [t] says of a text: its secret is not in it. *)
Definition hides (t s : string) : Prop :=
  ∀ id secret, t = id +:+ "=" +:+ secret → equals ∉ bytes_of id → plain_secret secret → Contains s secret = false.

Lemma token_secret id secret : equals ∉ bytes_of id → endpointTokenSecret (id +:+ "=" +:+ secret) = secret.
Proof. intros Hid. unfold endpointTokenSecret. change ("=" +:+ secret) with (String equals secret). by rewrite Cut_at. Qed.

Lemma hides_scrubbed t s : hides t (scrubSecret s (endpointTokenSecret t)).
Proof.
  intros id secret -> Hid [Hlen Hap]. rewrite token_secret by done. unfold scrubSecret.
  destruct secret as [|c secret]; [simpl in Hlen; lia|]. rewrite bool_decide_false by done. by apply replaced_gone.
Qed.

Lemma hides_short t s : (slen s ≤ 11)%nat → hides t s.
Proof. intros Hs id secret _ _ [Hlen _]. apply Contains_longer. lia. Qed.

(** Where the token [T] may have been sent, a call sends no other and hides the
    secret of this one. *)
Definition guarded (T : option string) (X : Type) (e : MOp X) : Prop :=
  token_of e = None ∧ ∀ t, T = Some t → Forall (hides t) (error_texts e).

(** A context that scrubs the secret of [T]. *)
Definition armed (T : option string) (mc : migrationContext) : Prop :=
  ∀ t, T = Some t → endpointTokenSecret t = "" ∨ mc_scrubber mc = Some (endpointTokenSecret t).

Lemma armed_hides T mc t s : armed T mc → T = Some t → hides t (scrub (Some mc) s).
Proof.
  intros Hm Ht. destruct (Hm t Ht) as [He|Hs]; simpl.
  - intros id secret -> Hid [Hlen _]. rewrite token_secret in He by done. subst secret. simpl in Hlen. lia.
  - rewrite Hs. apply hides_scrubbed.
Qed.

Lemma armed_arm mc t : armed (Some t) (armEndpointScrubber mc t).
Proof. intros ? [= <-]. unfold armEndpointScrubber. case_bool_decide; [by left|by right]. Qed.

Lemma armed_none mc : armed None mc.
Proof. by intros t. Qed.

Create HintDb guarded.
#[export] Hint Resolve armed_hides armed_none : guarded.
#[export] Hint Extern 1 (hides _ _) => apply hides_short; simpl; lia : guarded.
Ltac guarded_go := makes_go (split; [done|intros; simpl; repeat constructor; by eauto with guarded]).

Section guarded.
Context `{MR : MapRange} `{UP : UrlParser} `{LIB : MigrationLibrary} `{CFG : MigrationConfig}.
Variable T : option string.

Lemma guarded_client c : makes (guarded T) (clientForCluster c).
Proof. unfold clientForCluster. guarded_go. Qed.

Lemma guarded_resolve job userID : makes (guarded T) (resolveMigrationContext job userID).
Proof. unfold resolveMigrationContext. guarded_go. Qed.

Lemma guarded_require l : makes (guarded T) (require_nodes l).
Proof. induction l as [|[c n] l IH]; simpl; [done|]. unfold Require_member. guarded_go. Qed.

(** The details of an entry that is not of a failure. *)
Lemma guarded_audit c mc action details :
  Forall (λ d, d.1 ≠ "error") details → makes (guarded T) (auditLog c mc action details).
Proof.
  intros Hd. unfold auditLog. case_match; [done|]. case_match; simplify_eq.
  apply makes_bind; [|intros; guarded_go]. apply makes_mask. split; [done|]. intros t _. simpl.
  replace (omap _ details) with (@nil string); [constructor|].
  induction Hd as [|[k [txt|z|b]] details Hk _ IH]; simpl in *; [done| |done..]. by rewrite bool_decide_false.
Qed.

Lemma guarded_failJob id msg mc : armed T mc → makes (guarded T) (failJob id msg (Some mc)).
Proof.
  intros Hm. unfold failJob, auditLog. do 2 (apply makes_bind; [guarded_go|intros]).
  case_match; [done|]. case_match. guarded_go.
Qed.

Lemma guarded_poll n client node upid jobID mc since :
  armed T mc → makes (guarded T) (pollTaskStatus n client node upid jobID mc since).
Proof.
  intros Hm. pose proof (guarded_failJob jobID) as Hf. revert since.
  induction n as [|n IH]; intros since; simpl; [done|]. unfold abandonTaskRow, finish_task. guarded_go.
Qed.

Lemma guarded_start n client job jobID userID upid mc :
  armed T mc → makes (guarded T) (startAndPollMigration n client job jobID userID upid mc).
Proof.
  intros Hm. unfold startAndPollMigration, mark_migrating. apply makes_bind; [guarded_go|intros].
  apply makes_bind; [apply guarded_audit; by repeat constructor|intros].
  apply makes_bind; [guarded_go|intros]. by apply guarded_poll.
Qed.

Lemma guarded_dispatched n client job jobID userID r mc :
  armed T mc → makes (guarded T) (dispatched n client job jobID userID r mc).
Proof.
  intros Hm. unfold dispatched. destruct r; [by apply guarded_start|].
  apply makes_bind; [by apply guarded_failJob|done].
Qed.

Lemma guarded_bridges client job : makes (guarded T) (bridge_map client job).
Proof. unfold bridge_map, detectBridges. guarded_go. Qed.

Lemma guarded_target_vmid job : makes (guarded T) (target_vmid job).
Proof. pose proof guarded_client. unfold target_vmid, findFreeVMID. guarded_go. Qed.
End guarded.

(** A program that is given no token to send. *)
Section tokenless.
Context `{MR : MapRange} `{UP : UrlParser} `{LIB : MigrationLibrary} `{CFG : MigrationConfig}.

Lemma tokenless_wait n client node upid : makes (guarded None) (waitForTask n client node upid).
Proof. induction n as [|n IH]; simpl; [done|]. guarded_go. Qed.

Lemma tokenless_failJob id msg mc : makes (guarded None) (failJob id msg mc).
Proof. unfold failJob, auditLog. guarded_go. Qed.

Lemma tokenless_recordDiskMove mc node spec upid i total :
  makes (guarded None) (recordDiskMove mc node spec upid i total).
Proof. unfold recordDiskMove, auditLog. guarded_go. Qed.
Hint Resolve tokenless_wait tokenless_failJob tokenless_recordDiskMove : makes.

Lemma tokenless_move client node job spec p : move_disk client node job spec = Some p → makes (guarded None) p.
Proof. unfold move_disk. repeat case_bool_decide; intros [= <-]; guarded_go. Qed.

Lemma tokenless_storage n client job jobID mc total i first last moves :
  makes (guarded None) (storage_loop n client job jobID mc total i first last moves).
Proof.
  revert i first last. induction moves as [|m moves IH]; intros i first last; simpl; [done|].
  destruct (move_disk _ _ _ _) as [p|] eqn:Hp; [|guarded_go].
  apply makes_bind; [by eapply tokenless_move|]. intros [upid|e]; [|guarded_go]. unfold started_first. guarded_go.
Qed.

Lemma tokenless_both n client job jobID mc total i last moves :
  makes (guarded None) (both_loop n client job jobID mc total i last moves).
Proof.
  revert i last. induction moves as [|m moves IH]; intros i last; simpl; [done|]. apply makes_bind.
  { unfold move_on_target. destruct (move_disk _ _ _ _) as [p|] eqn:Hp; [by eapply tokenless_move|done]. }
  intros [upid|e]; guarded_go.
Qed.
Hint Resolve tokenless_storage tokenless_both : makes.

Lemma tokenless_discover client node vmid vmType : makes (guarded None) (discoverDisks client node vmid vmType).
Proof. unfold discoverDisks. guarded_go. Qed.

Lemma tokenless_intra client job : makes (guarded None) (executeIntraCluster client job).
Proof. unfold executeIntraCluster. guarded_go. Qed.
Hint Resolve tokenless_discover tokenless_intra guarded_dispatched : makes.

Lemma tokenless_executeStorage n client job jobID mc :
  makes (guarded None) (executeStorageMigration n client job jobID mc).
Proof. unfold executeStorageMigration. guarded_go. Qed.

Lemma tokenless_executeBoth n client job jobID userID mc :
  makes (guarded None) (executeBothMigration n client job jobID userID mc).
Proof. unfold executeBothMigration, mark_migrating, auditLog, both_disks, both_done. guarded_go. Qed.
End tokenless.

(** ** The log of an execution *)

Definition ev_token (ev : event MOp) : option string := match ev with @Ev _ _ op _ => token_of op end.
Definition ev_errors (ev : event MOp) : list string := match ev with @Ev _ _ op _ => error_texts op end.

(** Every text of an error hides the tokens sent before it. *)
Definition all_hidden (l : list (event MOp)) : Prop :=
  ForallTail (λ ev earlier, ∀ ev' t, ev' ∈ earlier → ev_token ev' = Some t → Forall (hides t) (ev_errors ev)) l.

Lemma all_hidden_quiet ev l : ev_errors ev = [] → all_hidden l → all_hidden (ev :: l).
Proof. intros He Hl. split; [|done]. intros ev' t _ _. rewrite He. constructor. Qed.

Definition sent (T : option string) (l : list (event MOp)) : Prop := ∀ ev t, ev ∈ l → ev_token ev = Some t → T = Some t.

Lemma keeps_guarded T {A} (p : mprog A) l :
  makes (guarded T) p → all_hidden l → sent T l → keeps_log all_hidden p (λ _ l', all_hidden l' ∧ sent T l') l.
Proof.
  revert l. induction p as [a|X e k IH]; intros l Hp Hl Hs.
  { by apply keeps_ret. }
  destruct Hp as [[He Ht] Hk]. intros l1 <- x l2 ->.
  assert (all_hidden (Ev e x :: l)) as Hl'.
  { split; [|done]. intros ev' t Hev Htok. apply Ht. by eapply Hs. }
  split; [done|]. apply IH; [by apply Hk|done|].
  intros ev t [->|Hev]%elem_of_cons Htok; [simpl in Htok; congruence|by eapply Hs].
Qed.

Section executions.
Context `{MR : MapRange} `{UP : UrlParser} `{LIB : MigrationLibrary} `{CFG : MigrationConfig}.

Abbreviation keeps := (keeps_log all_hidden).

Lemma keeps_next {A B} (p : mprog A) (f : A → mprog B) Q R l :
  keeps p R l → (∀ a l', R a l' → keeps (f a) Q l') → keeps (bind p f) Q l.
Proof. intros Hp Hf. apply keeps_bind. by eapply keeps_mono. Qed.

(** Where what was sent is scrubbed. *)
Definition covered (mc : migrationContext) (l : list (event MOp)) : Prop :=
  all_hidden l ∧ ∃ T, sent T l ∧ armed T mc.

Lemma keeps_remote client job params p l :
  remote_migrate client job params = Some p → all_hidden l → sent None l →
  keeps p (λ _ l', all_hidden l' ∧ sent (Some (te_APIToken (rm_TargetEndpoint params))) l') l.
Proof.
  intros Hp Hl Hs. unfold remote_migrate in Hp. repeat case_bool_decide; simplify_eq; apply keeps_call; intros x;
    (split; [by apply all_hidden_quiet|]); (split; [by apply all_hidden_quiet|]);
    (intros ev t [->|Hev]%elem_of_cons Ht; [done|by specialize (Hs ev t Hev Ht)]).
Qed.

Lemma keeps_cross client job mc l :
  all_hidden l → sent None l →
  keeps (executeCrossCluster client job mc) (λ r l', covered r.2 l') l.
Proof.
  intros Hl Hs. unfold executeCrossCluster.
  assert (∀ l mc, all_hidden l → sent None l → covered mc l) as Hcov.
  { intros l' mc' ??. split; [done|]. exists None. split; [done|apply armed_none]. }
  eapply keeps_next; [by apply (keeps_guarded None); [apply guarded_client|..]|]. intros [tgt|e] l1 [Hl1 Hs1].
  2: { apply keeps_ret. by apply Hcov. }
  destruct (Decrypt _) as [secret|e]; [|apply keeps_ret; by apply Hcov].
  eapply keeps_next; [by apply (keeps_guarded None); [apply guarded_bridges|..]|]. intros networkMap l2 [Hl2 Hs2].
  eapply keeps_next; [by apply (keeps_guarded None); [apply guarded_target_vmid|..]|]. intros vmid l3 [Hl3 Hs3].
  match goal with |- context [remote_migrate ?c ?j ?p] => destruct (remote_migrate c j p) as [m|] eqn:Hm end.
  2: { apply keeps_ret. by apply Hcov. }
  eapply keeps_next; [by eapply keeps_remote|]. intros upid l4 [Hl4 Hs4].
  destruct upid as [upid|e]; apply keeps_ret; simpl; (split; [done|]); eexists; (split; [exact Hs4|apply armed_arm]).
Qed.

Lemma keeps_Execute n jobID userID : keeps (Execute n jobID userID) (λ _ _, True) [].
Proof.
  assert (∀ {A} (p : mprog A) l, makes (guarded None) p → all_hidden l → sent None l → keeps p (λ _ _, True) l) as Hplain.
  { intros A p l Hp Hl Hs. eapply keeps_mono; [|by apply (keeps_guarded None)]. done. }
  assert (sent None []) as Hn by by intros ev t ?%elem_of_nil.
  unfold Execute. eapply keeps_next; [by apply (keeps_guarded None); [guarded_go|..]|]. intros [job|e] l1 [Hl1 Hs1].
  2: { apply Hplain; [|done..]. apply makes_bind; [apply tokenless_failJob|done]. }
  eapply keeps_next; [by apply (keeps_guarded None); [apply guarded_resolve|..]|]. intros mc l2 [Hl2 Hs2].
  eapply keeps_next; [by apply (keeps_guarded None); [apply guarded_require|..]|]. intros [e|] l3 [Hl3 Hs3].
  { apply Hplain; [|done..]. apply makes_bind; [apply tokenless_failJob|done]. }
  eapply keeps_next; [by apply (keeps_guarded None); [apply guarded_client|..]|]. intros [src|e] l4 [Hl4 Hs4].
  2: { apply Hplain; [|done..]. apply makes_bind; [apply tokenless_failJob|done]. }
  unfold execute_job. case_match; [apply Hplain; [apply tokenless_executeStorage|done..]|].
  case_match; [apply Hplain; [apply tokenless_executeBoth|done..]|].
  case_match.
  { apply Hplain; [|done..]. apply makes_bind; [apply tokenless_intra|]. intros r. apply guarded_dispatched, armed_none. }
  case_match.
  - eapply keeps_next; [by apply keeps_cross|]. intros [r mc'] l5 [Hl5 (T & Hs5 & Hm)]. simpl in Hm.
    eapply keeps_mono; [|apply (keeps_guarded T); [by apply guarded_dispatched|done..]]. done.
  - apply Hplain; [|done..]. apply makes_bind; [apply tokenless_failJob|done].
Qed.
End executions.

(** C21: The target's token does not reach the database. In every execution of a job
    (cut off at any point), once Proxmox has been sent the token [id=secret] of the
    target cluster, no text of an error that is written, the error of the job, the
    exit status of its task or the error of its audit entry, has the secret in it,
    whatever Proxmox answers: for a token whose name has no equals sign and a
    secret that is longer than 11 bytes and shares none with the word put in its
    place, as the lower-case UUIDs Proxmox makes. *)
Theorem secret_not_persisted `{MapRange, UrlParser, MigrationLibrary, MigrationConfig} n jobID userID
    before sending between writing after id secret text :
  trace (Execute n jobID userID) (before ++ sending :: between ++ writing :: after) →
  ev_token sending = Some (id +:+ "=" +:+ secret) → equals ∉ bytes_of id → plain_secret secret →
  text ∈ ev_errors writing → Contains text secret = false.
Proof.
  intros Ht Htok Hid Hsec Htext.
  pose proof (keeps_trace _ _ _ _ _ (keeps_Execute n jobID userID) I Ht) as Hl. rewrite app_nil_r in Hl.
  rewrite !rev_app_distr in Hl. simpl in Hl. rewrite rev_app_distr in Hl. simpl in Hl.
  rewrite <-!(assoc_L (++)) in Hl. simpl in Hl. apply ForallTail_at in Hl.
  assert (Forall (hides (id +:+ "=" +:+ secret)) (ev_errors writing)) as Hw.
  { eapply Hl; [|exact Htok]. apply elem_of_app. right. left. }
  rewrite Forall_forall in Hw. by apply (Hw text Htext id secret).
Qed.
