(* ===== verification/MigrationRecord.v ===== *)
(** * The record of a migration

    What an execution of a job writes about it, against what Proxmox was asked and
    answered.

    - [execution_recorded]: an execution that returns has closed its job, once.
    - [completed_means_moved]: a job is closed as completed only after every task it
      started was seen to succeed, and a disk is moved only after the tasks before
      it were.

    The log is newest first. *)

From S2P Require Import Prelude GoFloat GoStrings ProxmoxApi Effects Crs DrsRules DrsPlanner DrsExecutor RbacEngine.
From S2P Require Import MigrationOps MigrationChecks MigrationRun MigrationHandlers.

Local Open Scope Z_scope.

Abbreviation mlog := (list (event MOp)).

(** ** What a log says *)

(** How a call closes the job: with which context, which job, as what. *)
Definition closing {X} (op : MOp X) : option (write_ctx * uuid * string) :=
  match op with CompleteMigrationJob c id status _ _ => Some (c, id, status) | _ => None end.

Definition closes (ev : event MOp) : option (write_ctx * uuid * string) := match ev with @Ev _ _ op _ => closing op end.

(** A request that moves a guest or a disk. *)
Definition move_request {A} (r : mrequest A) : bool :=
  match r with
  | MigrateVM _ _ _ | MigrateCT _ _ _ | RemoteMigrateVM _ _ _ | RemoteMigrateCT _ _ _ => true
  | MoveDisk _ _ _ | MoveCTVolume _ _ _ => true
  | _ => false
  end.

Definition moving {X} (op : MOp X) : bool := match op with Pve _ r => move_request r | _ => false end.

Definition moves (ev : event MOp) : bool := match ev with @Ev _ _ op _ => moving op end.

(** The task a request that was accepted started. *)
Definition task_of {A} (r : mrequest A) : result string A → option string :=
  match r in mrequest A return result string A → option string with
  | MigrateVM _ _ _ | MigrateCT _ _ _ | RemoteMigrateVM _ _ _ | RemoteMigrateCT _ _ _ | MoveDisk _ _ _
  | MoveCTVolume _ _ _ => λ x, match x with Ok upid => Some upid | Err _ => None end
  | _ => λ _, None
  end.

Definition started_task (ev : event MOp) : option string :=
  match ev with
  | @Ev _ X op x =>
      match op in MOp X return X → option string with Pve _ r => task_of r | _ => λ _, None end x
  end.

(** The task a poll found ended, and ended well. *)
Definition success_of {A} (r : mrequest A) : result string A → option string :=
  match r in mrequest A return result string A → option string with
  | GetTaskStatus _ upid => λ x,
      match x with
      | Ok status => if negb (bool_decide (ts_Status status = "running")) && TaskSucceeded (ts_ExitStatus status)
                     then Some upid else None
      | Err _ => None
      end
  | _ => λ _, None
  end.

Definition seen_to_succeed (ev : event MOp) : option string :=
  match ev with
  | @Ev _ X op x =>
      match op in MOp X return X → option string with Pve _ r => success_of r | _ => λ _, None end x
  end.

(** The shutdown was noticed. *)
Definition shutdown (ev : event MOp) : bool :=
  match ev with
  | @Ev _ X op x =>
      match op in MOp X return X → bool with Select => λ w, match w with Done => true | Ticked => false end | _ => λ _, false end x
  end.

Definition closings (l : mlog) : list (write_ctx * uuid * string) := omap closes l.
Definition interrupted (l : mlog) : Prop := ∃ ev, ev ∈ l ∧ shutdown ev = true.
Definition succeeded (upid : string) (l : mlog) : Prop := ∃ ev, ev ∈ l ∧ seen_to_succeed ev = Some upid.
Definition began (l : mlog) : Prop := ∃ ev upid, ev ∈ l ∧ started_task ev = Some upid.

(** Every task that was started, but perhaps [u], was seen to succeed. *)
Definition done_but (u : option string) (l : mlog) : Prop :=
  ∀ ev upid, ev ∈ l → started_task ev = Some upid → u = Some upid ∨ succeeded upid l.

(** What may follow a log. *)
Definition in_order (ev : event MOp) (earlier : mlog) : Prop :=
  (moves ev = true → done_but None earlier) ∧
  (∀ c id, closes ev = Some (c, id, StatusCompleted) → began earlier ∧ done_but None earlier).

Definition orderly (l : mlog) : Prop := ForallTail in_order l.

(** ** States of an execution *)

(** The job is open and nothing is awaited ([None]) or the task [u] is; [b]: a task was started. *)
Definition open_at (u : option string) (b : bool) (l : mlog) : Prop :=
  orderly l ∧ closings l = [] ∧ (interrupted l → False) ∧ (b = true → began l) ∧ done_but u l.

(** The job is open. *)
Definition open (l : mlog) : Prop := orderly l ∧ closings l = [].

(** The job [id] is closed: completed or failed, and by a write that a shutdown
    does not lose if one was noticed. *)
Definition closed (id : uuid) (l : mlog) : Prop :=
  orderly l ∧ ∃ c status, closings l = [(c, id, status)] ∧ status ∈ [StatusCompleted; StatusFailed] ∧
    (interrupted l → c = CleanupCtx).

(** ** Calls that change none of it *)

Definition silent (X : Type) (op : MOp X) : Prop :=
  closing op = None ∧ moving op = false ∧ match op with Select => False | _ => True end.

Lemma silent_quiet X (op : MOp X) x :
  silent X op → closes (Ev op x) = None ∧ moves (Ev op x) = false ∧ shutdown (Ev op x) = false ∧
    started_task (Ev op x) = None.
Proof.
  intros (Hc & Hm & Hs). split_and!; [done|done|by destruct op|].
  destruct op; try done. by destruct r.
Qed.

Lemma succeeded_cons upid ev l : succeeded upid l → succeeded upid (ev :: l).
Proof. intros (e & He & Hs). exists e. split; [by right|done]. Qed.

Lemma done_but_cons u ev l : done_but u l → started_task ev = None → done_but u (ev :: l).
Proof.
  intros Hd Hn e upid [->|He]%elem_of_cons Hs; [congruence|].
  destruct (Hd e upid He Hs); [by left|right]. by apply succeeded_cons.
Qed.

Lemma began_cons ev l : began l → began (ev :: l).
Proof. intros (e & upid & He & Hs). exists e, upid. split; [by right|done]. Qed.

Lemma interrupted_cons ev l : interrupted (ev :: l) ↔ shutdown ev = true ∨ interrupted l.
Proof.
  unfold interrupted. split.
  - intros (e & [->|He]%elem_of_cons & Hs); [by left|right]. by exists e.
  - intros [Hs|(e & He & Hs)]; [exists ev; split; [left|done]|exists e; split; [by right|done]].
Qed.

Lemma orderly_silent X (op : MOp X) x l : silent X op → orderly l → orderly (Ev op x :: l).
Proof.
  intros Hop Hl. destruct (silent_quiet X op x Hop) as (Hc & Hm & _ & _).
  split; [split|done]; intros; congruence.
Qed.

(** A state of the log that silent calls leave. *)
Definition kept (F : mlog → Prop) : Prop :=
  ∀ X (op : MOp X) x l, silent X op → F l → orderly (Ev op x :: l) ∧ F (Ev op x :: l).

Lemma kept_open : kept open.
Proof.
  intros X op x l Hop [Ho Hc]. destruct (silent_quiet X op x Hop) as (Hn & _).
  split; [by apply orderly_silent|]. split; [by apply orderly_silent|]. unfold closings in *. simpl in *. by rewrite Hn.
Qed.

Lemma kept_open_at u b : kept (open_at u b).
Proof.
  intros X op x l Hop (Ho & Hc & Hi & Hb & Hd). destruct (silent_quiet X op x Hop) as (Hn & _ & Hs & Ht).
  destruct (kept_open X op x l Hop (conj Ho Hc)) as [? [? ?]]. split; [done|]. split_and!; [done..| | |by apply done_but_cons].
  - rewrite interrupted_cons. intros [?|?]; [congruence|done].
  - intros ?. by apply began_cons, Hb.
Qed.

Lemma kept_closed id : kept (closed id).
Proof.
  intros X op x l Hop (Ho & c & status & Hc & Hst & Hi). destruct (silent_quiet X op x Hop) as (Hn & _ & Hs & _).
  split; [by apply orderly_silent|]. split; [by apply orderly_silent|]. exists c, status. split_and!; [|done|].
  - unfold closings in *. simpl in *. by rewrite Hn.
  - rewrite interrupted_cons. intros [?|?]; [congruence|by apply Hi].
Qed.

Lemma open_at_open u b l : open_at u b l → open l.
Proof. by intros (? & ? & _). Qed.

(** ** Programs *)

Abbreviation logs := (keeps_log orderly).

Lemma logs_next {A B} (p : mprog A) (f : A → mprog B) Q R l :
  logs p R l → (∀ a l', R a l' → logs (f a) Q l') → logs (bind p f) Q l.
Proof. intros Hp Hf. apply keeps_bind. by eapply keeps_mono. Qed.

Lemma logs_silent {A} (p : mprog A) (F : mlog → Prop) l : kept F → makes silent p → F l → logs p (λ _, F) l.
Proof.
  intros HF. revert l. induction p as [a|X e k IH]; intros l Hp Hl; [by apply keeps_ret|].
  destruct Hp as [He Hk]. intros l1 <- x l2 ->. destruct (HF _ _ x _ He Hl). split; [done|]. apply IH; [by apply Hk|done].
Qed.

Ltac silent_go := makes_go (split_and!; done).
Ltac tail_go := repeat (apply calls_bind, calls_call; [done|intros]); done.

Section programs.
Context `{MR : MapRange} `{UP : UrlParser} `{LIB : MigrationLibrary} `{CFG : MigrationConfig}.

Lemma silent_client c : makes silent (clientForCluster c).
Proof. unfold clientForCluster. silent_go. Qed.
Lemma silent_audit c mc action details : makes silent (auditLog c mc action details).
Proof. unfold auditLog. silent_go. Qed.
Hint Resolve silent_client silent_audit : makes.
Lemma silent_recordDiskMove mc node spec upid i total : makes silent (recordDiskMove mc node spec upid i total).
Proof. unfold recordDiskMove. silent_go. Qed.
Lemma silent_mark job jobID upid : makes silent (mark_migrating job jobID upid).
Proof. unfold mark_migrating. silent_go. Qed.
Lemma silent_discover client node vmid vmType : makes silent (discoverDisks client node vmid vmType).
Proof. unfold discoverDisks. silent_go. Qed.
Lemma silent_bridges client job : makes silent (bridge_map client job).
Proof. unfold bridge_map, detectBridges. silent_go. Qed.
Lemma silent_target_vmid job : makes silent (target_vmid job).
Proof. unfold target_vmid, findFreeVMID. silent_go. Qed.
Lemma silent_resolve job userID : makes silent (resolveMigrationContext job userID).
Proof. unfold resolveMigrationContext. silent_go. Qed.
Lemma silent_require l : makes silent (require_nodes l).
Proof. induction l as [|[c n] l IH]; simpl; [done|]. unfold Require_member. silent_go. Qed.
Hint Resolve silent_recordDiskMove silent_mark silent_discover silent_bridges silent_target_vmid silent_resolve
  silent_require : makes.

(** The write that closes the job. *)
Lemma logs_close c id status at_ error l :
  open l → status ∈ [StatusCompleted; StatusFailed] →
  (status = StatusCompleted → began l ∧ done_but None l) → (interrupted l → c = CleanupCtx) →
  logs (mask (CompleteMigrationJob c id status at_ error)) (λ _, closed id) l.
Proof.
  intros [Ho Hc] Hst Hd Hi. apply keeps_call. intros x.
  assert (orderly (Ev (CompleteMigrationJob c id status at_ error) x :: l)) as Ho'.
  { split; [|done]. split; [done|]. intros c' id' [= -> -> ->]. by apply Hd. }
  split; [done|]. split; [done|].
  exists c, status. split_and!; [|done|].
  - transitivity ((c, id, status) :: closings l); [done|]. by rewrite Hc.
  - rewrite interrupted_cons. intros [?|?]; [done|by apply Hi].
Qed.

Lemma logs_failJob id msg mc l : open l → logs (failJob id msg mc) (λ _, closed id) l.
Proof.
  intros Hl. unfold failJob. eapply logs_next; [apply logs_silent; [apply kept_open|silent_go|done]|].
  intros now l1 Hl1. eapply logs_next; [apply logs_close; [done|right; left|done|done]|]. intros ? l2 Hl2.
  destruct mc; [|by apply keeps_ret]. apply logs_silent; [apply kept_closed|silent_go|done].
Qed.

(** An end by [failJob]. *)
Lemma logs_fail {A} (a : A) id msg mc (Q : A → mlog → Prop) l :
  open l → (∀ l', closed id l' → Q a l') → logs (do! failJob id msg mc in Ret a) Q l.
Proof. intros Hl HQ. eapply logs_next; [by apply logs_failJob|]. intros ? l' Hl'. by apply keeps_ret, HQ. Qed.

Lemma orderly_select w l : orderly l → orderly (Ev Select w :: l).
Proof. by intros Hl. Qed.

Lemma open_select u b l : open_at u b l → open_at u b (Ev Select Ticked :: l).
Proof.
  intros (Ho & Hc & Hi & Hb & Hd). split_and!.
  - by split.
  - done.
  - rewrite interrupted_cons. by intros [?|?].
  - intros ?. by apply began_cons, Hb.
  - by apply done_but_cons.
Qed.

(** A request that starts a task. *)
Lemma logs_move client (r : mrequest string) b l :
  (∀ x, task_of r x = match x with Ok upid => Some upid | Err _ => None end) → open_at None b l →
  logs (pve client r) (λ x l', match x with Ok upid => open_at (Some upid) true l' | Err _ => open_at None b l' end) l.
Proof.
  intros Ht (Ho & Hc & Hi & Hb & Hd). apply keeps_call. intros x.
  assert (orderly (Ev (Pve client r) x :: l)) as Ho' by (split; [split|done]; by intros). split; [done|].
  assert (closings (Ev (Pve client r) x :: l) = []) as Hc' by done.
  assert (interrupted (Ev (Pve client r) x :: l) → False) as Hi' by (rewrite interrupted_cons; by intros [?|?]).
  destruct x as [upid|e].
  - split_and!; [done..| |].
    + intros _. exists (Ev (Pve client r) (Ok upid)), upid. split; [left|apply Ht].
    + intros ev u [->|He]%elem_of_cons Hs; [left; simpl in Hs; by rewrite Ht in Hs|]. destruct (Hd ev u He Hs); [done|right].
      by apply succeeded_cons.
  - split_and!; [done..| |apply done_but_cons; [done|apply Ht]]. intros ?. by apply began_cons, Hb.
Qed.

(** A poll that finds the task ended well. *)
Lemma open_succeeded client node upid status l :
  ts_Status status ≠ "running" → TaskSucceeded (ts_ExitStatus status) = true → open_at (Some upid) true l →
  open_at None true (Ev (Pve client (GetTaskStatus node upid)) (Ok status) :: l).
Proof.
  intros Hr Hs Hl. destruct (kept_open_at _ _ _ (Pve client (GetTaskStatus node upid)) (Ok status) l (conj eq_refl (conj eq_refl I)) Hl)
    as (_ & Ho & Hc & Hi & Hb & Hd). split_and!; [done..|]. intros ev u He Ht.
  destruct (Hd ev u He Ht) as [[= <-]|]; [|by right]. right. eexists. split; [left|]. simpl.
  rewrite bool_decide_false by done. by rewrite Hs.
Qed.

Lemma logs_wait n client node upid l :
  open_at (Some upid) true l →
  logs (waitForTask n client node upid) (λ r l',
    match r with Some None => open_at None true l' | _ => open l' end) l.
Proof.
  revert l. induction n as [|n IH]; intros l Hl; simpl.
  { apply keeps_ret. by eapply open_at_open. }
  apply keeps_bind, keeps_call. intros w. split; [by destruct Hl|]. destruct w.
  { apply keeps_ret. destruct Hl as (Ho & Hc & _). by split. }
  apply open_select in Hl. apply keeps_bind, keeps_call. intros x.
  destruct (kept_open_at _ _ _ (Pve client (GetTaskStatus node upid)) x _ (conj eq_refl (conj eq_refl I)) Hl) as [Ho1 Hl1].
  split; [done|]. destruct x as [status|e].
  - case_bool_decide as Hrun; [by apply IH|]. case_match; apply keeps_ret.
    + by apply open_succeeded.
    + by eapply open_at_open.
  - by apply IH.
Qed.

(** The end of a polling loop. *)
Definition ended_or_open (id : uuid) (ended : bool) (l : mlog) : Prop := if ended then closed id l else open l.

Lemma logs_finish upid id mc status u l :
  open_at u true l → (TaskSucceeded (ts_ExitStatus status) = true → u = None) →
  logs (finish_task upid id mc status) (λ _, closed id) l.
Proof.
  intros Hl Hu. unfold finish_task. pose proof (kept_open_at u true) as Hk.
  eapply logs_next; [apply (logs_silent _ _ _ Hk); [silent_go|done]|]. intros now l1 Hl1.
  eapply logs_next; [apply (logs_silent _ _ _ Hk); [silent_go|done]|]. intros ? l2 Hl2.
  destruct Hl2 as (Ho & Hc & Hi & Hb & Hd). case_match.
  - eapply logs_next; [apply logs_close; [done|left| |done]|].
    + intros _. split; [by apply Hb|]. by rewrite <-Hu.
    + intros ? l3 Hl3. apply logs_silent; [apply kept_closed|silent_go|done].
  - eapply logs_next; [apply logs_close; [done|right; left|done|done]|].
    intros ? l3 Hl3. apply logs_silent; [apply kept_closed|silent_go|done].
Qed.

Lemma logs_abandon upid why id msg mc l :
  open l → logs (do! abandonTaskRow upid why in do! failJob id msg (Some mc) in Ret true) (ended_or_open id) l.
Proof.
  intros Hl. eapply logs_next; [apply logs_silent; [apply kept_open|unfold abandonTaskRow; silent_go|done]|].
  intros ? l1 Hl1. by apply logs_fail.
Qed.

Lemma logs_poll n client node upid id mc since l :
  open_at (Some upid) true l →
  logs (pollTaskStatus n client node upid id mc since) (ended_or_open id) l.
Proof.
  revert since l. induction n as [|n IH]; intros since l Hl; simpl.
  { apply keeps_ret. by eapply open_at_open. }
  apply keeps_bind, keeps_call. intros w. split; [by destruct Hl|]. destruct w.
  { apply logs_abandon. destruct Hl as (Ho & Hc & _). by split. }
  apply open_select in Hl. apply keeps_bind, keeps_call. intros x.
  destruct (kept_open_at _ _ _ (Pve client (GetTaskStatus node upid)) x _ (conj eq_refl (conj eq_refl I)) Hl) as [Ho1 Hl1].
  split; [done|]. destruct x as [status|e].
  - case_bool_decide as Hrun.
    { eapply logs_next; [apply logs_silent; [apply (kept_open_at (Some upid) true)|silent_go|done]|].
      intros ? l2 Hl2. by apply IH. }
    apply (logs_next _ _ _ (λ _, closed id)); [|intros ???; by apply keeps_ret].
    destruct (TaskSucceeded (ts_ExitStatus status)) eqn:Hs.
    + eapply logs_finish; [by apply open_succeeded|done].
    + eapply logs_finish; [done|]. by rewrite Hs.
  - eapply logs_next; [apply logs_silent; [apply (kept_open_at (Some upid) true)|silent_go|done]|].
    intros now l2 Hl2. destruct since as [t|]; [|by apply IH]. case_match; [|by apply IH].
    apply logs_abandon. exact (open_at_open _ _ _ Hl2).
Qed.

(** ** The modes *)

Definition moved_or_closed (id : uuid) (r : moved) (l : mlog) : Prop :=
  match r with AllMoved _ _ => open_at None true l | JobFailed => closed id l | Waiting => open l end.

Lemma logs_move_disk client node job spec p b l :
  move_disk client node job spec = Some p → open_at None b l →
  logs p (λ x l', match x with Ok upid => open_at (Some upid) true l' | Err _ => open_at None b l' end) l.
Proof.
  intros Hp Hl. unfold move_disk in Hp. repeat case_bool_decide; simplify_eq; by apply logs_move.
Qed.

Lemma logs_storage n client job id mc total i first last moves b l :
  moves ≠ [] ∨ b = true → open_at None b l →
  logs (storage_loop n client job id mc total i first last moves) (moved_or_closed id) l.
Proof.
  revert i first last b l. induction moves as [|m moves IH]; intros i first last b l Hb Hl; simpl.
  { apply keeps_ret. by destruct Hb as [?| ->]. }
  destruct (move_disk _ _ _ _) as [p|] eqn:Hp.
  2: { apply logs_fail; [by eapply open_at_open|done]. }
  eapply logs_next; [by eapply logs_move_disk|]. intros [upid|e] l1 Hl1; simpl in Hl1.
  2: { apply logs_fail; [by eapply open_at_open|done]. }
  pose proof (kept_open_at (Some upid) true) as Hk.
  do 3 (eapply logs_next; [apply (logs_silent _ _ _ Hk); [unfold started_first; silent_go|done]|]; intros ? ? ?).
  eapply logs_next; [by apply logs_wait|]. intros [[e|]|] l2 Hl2.
  - by apply logs_fail.
  - by eapply IH; [right|].
  - by apply keeps_ret.
Qed.

Definition supported (job : MigrationJob) : Prop := mj_VmType job = VMTypeQEMU ∨ mj_VmType job = VMTypeLXC.

Lemma logs_both_loop n client job id mc total i last moves l :
  supported job → open_at None true l →
  logs (both_loop n client job id mc total i last moves) (moved_or_closed id) l.
Proof.
  intros Hty. revert i last l. induction moves as [|m moves IH]; intros i last l Hl; simpl.
  { by apply keeps_ret. }
  unfold move_on_target. destruct (move_disk client (mj_TargetNode job) job (diskMoveSpec job m)) as [p|] eqn:Hp.
  2: { unfold move_disk in Hp. repeat case_bool_decide; try done. by destruct Hty. }
  eapply logs_next; [by eapply logs_move_disk|]. intros [upid|e] l1 Hl1; simpl in Hl1.
  2: { apply logs_fail; [by eapply open_at_open|done]. }
  pose proof (kept_open_at (Some upid) true) as Hk.
  do 2 (eapply logs_next; [apply (logs_silent _ _ _ Hk); [silent_go|done]|]; intros ? ? ?).
  eapply logs_next; [by apply logs_wait|]. intros [[e|]|] l2 Hl2.
  - by apply logs_fail.
  - by apply IH.
  - by apply keeps_ret.
Qed.

(** What is left once the job is closed. *)
Lemma logs_tail id (p : mprog bool) l :
  calls_ok silent (λ _ _ _, True) p (λ ended, ended = true) → closed id l → logs p (ended_or_open id) l.
Proof.
  revert l. induction p as [ended|X e k IH]; intros l Hp Hl.
  { apply keeps_ret. by replace ended with true. }
  destruct Hp as [He Hk]. intros l1 <- x l2 ->. destruct (kept_closed id _ _ x _ He Hl). split; [done|].
  apply IH; [by apply Hk|done].
Qed.

(** The job is closed as completed. *)
Lemma logs_complete id (k : mprog bool) l :
  open_at None true l → calls_ok silent (λ _ _ _, True) k (λ ended, ended = true) →
  logs (let! now := mask Now in do! mask (CompleteMigrationJob OwnCtx id StatusCompleted now "") in k)
    (ended_or_open id) l.
Proof.
  intros Hl Hk. eapply logs_next; [apply logs_silent; [apply (kept_open_at None true)|silent_go|done]|].
  intros now l1 (Ho & Hc & Hi & Hb & Hd). eapply logs_next; [apply logs_close; [done|left|by auto|done]|].
  intros ? l2 Hl2. by apply logs_tail.
Qed.

Lemma logs_intra client job l :
  open_at None false l →
  logs (executeIntraCluster client job) (λ x l',
    match x with Ok upid => supported job ∧ open_at (Some upid) true l' | Err _ => open_at None false l' end) l.
Proof.
  intros Hl. unfold executeIntraCluster. repeat case_bool_decide.
  - eapply keeps_mono; [|by apply logs_move]. intros [upid|e] l' H'; [|done]. split; [by left|done].
  - eapply keeps_mono; [|by apply logs_move]. intros [upid|e] l' H'; [|done]. split; [by right|done].
  - by apply keeps_ret.
Qed.

Lemma logs_executeStorage n client job id mc l :
  open_at None false l → logs (executeStorageMigration n client job id mc) (ended_or_open id) l.
Proof.
  intros Hl. unfold executeStorageMigration. pose proof (kept_open_at None false) as Hk.
  eapply logs_next; [apply (logs_silent _ _ _ Hk); [silent_go|done]|]. intros [[|d disks]|e] l1 Hl1;
    try (apply logs_fail; [exact (open_at_open _ _ _ Hl1)|done]).
  destruct (resolveDiskTargets _ _ _) as [|m moves]; [apply logs_fail; [exact (open_at_open _ _ _ Hl1)|done]|].
  eapply logs_next; [apply (logs_silent _ _ _ Hk); [silent_go|done]|]. intros ? l2 Hl2.
  eapply logs_next; [by apply (logs_storage _ _ _ _ _ _ _ _ _ (m :: moves) false); [left|]|].
  intros [first last| |] l3 Hl3; [|by apply keeps_ret..].
  apply logs_complete; [done|tail_go].
Qed.

Lemma both_done_then job id (k : mprog bool) l :
  open_at None true l → calls_ok silent (λ _ _ _, True) k (λ ended, ended = true) →
  logs (do! both_done job id in k) (ended_or_open id) l.
Proof.
  intros Hl Hk. apply (logs_complete id (do! mask (Publish (mj_SourceClusterID job) "migration_update" "migration" "completed") in k));
    [done|]. apply calls_bind, calls_call; [done|]. by intros.
Qed.

Lemma logs_executeBoth n client job id userID mc l :
  open_at None false l → logs (executeBothMigration n client job id userID mc) (ended_or_open id) l.
Proof.
  intros Hl. unfold executeBothMigration. eapply logs_next; [by apply logs_intra|]. intros [upid|e] l1 Hl1.
  2: { apply logs_fail; [by eapply open_at_open|done]. }
  destruct Hl1 as [Hty Hl1]. pose proof (kept_open_at (Some upid) true) as Hk. pose proof (kept_open_at None true) as Hn.
  do 3 (eapply logs_next; [apply (logs_silent _ _ _ Hk); [silent_go|done]|]; intros ? ? ?).
  eapply logs_next; [by apply logs_wait|]. intros [[e|]|] l2 Hl2; [| |by apply keeps_ret].
  { do 2 (eapply logs_next; [apply (logs_silent _ _ _ kept_open); [silent_go|done]|]; intros ? ? ?). by apply logs_fail. }
  do 4 (eapply logs_next; [apply (logs_silent _ _ _ Hn); [silent_go|done]|]; intros ? ? ?).
  unfold both_disks. eapply logs_next; [apply (logs_silent _ _ _ Hn); [silent_go|done]|]. intros [disks|e] l3 Hl3.
  2: { apply logs_fail; [exact (open_at_open _ _ _ Hl3)|done]. }
  destruct (resolveDiskTargets _ _ _) as [|m moves]; [by apply both_done_then; [|tail_go]|].
  eapply logs_next; [by apply (logs_both_loop _ _ _ _ _ _ _ _ (m :: moves))|].
  intros [first last| |] l4 Hl4; [|by apply keeps_ret..]. by apply both_done_then; [|tail_go].
Qed.

Lemma logs_remote client job params p l :
  remote_migrate client job params = Some p → open_at None false l →
  logs p (λ x l', match x with Ok upid => open_at (Some upid) true l' | Err _ => open_at None false l' end) l.
Proof. intros Hp Hl. unfold remote_migrate in Hp. repeat case_bool_decide; simplify_eq; by apply logs_move. Qed.

Lemma logs_cross client job mc l :
  open_at None false l →
  logs (executeCrossCluster client job mc) (λ r l',
    match r.1 with Ok upid => open_at (Some upid) true l' | Err _ => open_at None false l' end) l.
Proof.
  intros Hl. unfold executeCrossCluster. pose proof (kept_open_at None false) as Hk.
  eapply logs_next; [apply (logs_silent _ _ _ Hk); [silent_go|done]|]. intros [tgt|e] l1 Hl1; [|by apply keeps_ret].
  destruct (Decrypt _) as [secret|e]; [|by apply keeps_ret].
  do 2 (eapply logs_next; [apply (logs_silent _ _ _ Hk); [silent_go|done]|]; intros ? ? ?).
  match goal with |- context [remote_migrate ?c ?j ?p] => destruct (remote_migrate c j p) as [m|] eqn:Hm end;
    [|by apply keeps_ret].
  eapply logs_next; [by eapply logs_remote|]. intros [upid|e] l2 Hl2; by apply keeps_ret.
Qed.

Lemma logs_dispatched n client job id userID r mc l :
  match r with Ok upid => open_at (Some upid) true l | Err _ => open_at None false l end →
  logs (dispatched n client job id userID r mc) (ended_or_open id) l.
Proof.
  intros Hl. unfold dispatched. destruct r as [upid|e].
  2: { apply logs_fail; [by eapply open_at_open|done]. }
  unfold startAndPollMigration. pose proof (kept_open_at (Some upid) true) as Hk.
  do 3 (eapply logs_next; [apply (logs_silent _ _ _ Hk); [silent_go|done]|]; intros ? ? ?). by apply logs_poll.
Qed.

Lemma logs_Execute n id userID : logs (Execute n id userID) (ended_or_open id) [].
Proof.
  assert (open_at None false []) as Hl.
  { split_and!; try done; [by intros (ev & ?%elem_of_nil & _)|by intros ev u ?%elem_of_nil]. }
  pose proof (kept_open_at None false) as Hk. unfold Execute.
  eapply logs_next; [apply (logs_silent _ _ _ Hk); [silent_go|done]|]. intros [job|e] l1 Hl1.
  2: { apply logs_fail; [exact (open_at_open _ _ _ Hl1)|done]. }
  eapply logs_next; [apply (logs_silent _ _ _ Hk); [silent_go|done]|]. intros mc l2 Hl2.
  eapply logs_next; [apply (logs_silent _ _ _ Hk); [apply silent_require|done]|]. intros [e|] l3 Hl3.
  { apply logs_fail; [exact (open_at_open _ _ _ Hl3)|done]. }
  eapply logs_next; [apply (logs_silent _ _ _ Hk); [silent_go|done]|]. intros [src|e] l4 Hl4.
  2: { apply logs_fail; [exact (open_at_open _ _ _ Hl4)|done]. }
  unfold execute_job. case_match; [by apply logs_executeStorage|]. case_match; [by apply logs_executeBoth|].
  case_match.
  { eapply logs_next; [by apply logs_intra|]. intros [upid|e] l5 Hl5; apply logs_dispatched; [by destruct Hl5|done]. }
  case_match.
  - eapply logs_next; [by apply logs_cross|]. intros [r mc'] l5 Hl5. by apply logs_dispatched.
  - apply logs_fail; [exact (open_at_open _ _ _ Hl4)|done].
Qed.
End programs.

(** C23: Every job that is run is closed, once. An execution that has returned has
    written the end of its own job exactly once, as completed or as failed; if a
    shutdown was noticed, with the context that outlives it. One that has not
    returned has not written it. *)
Theorem execution_recorded `{MapRange, UrlParser, MigrationLibrary, MigrationConfig} n jobID userID t ended :
  returns (Execute n jobID userID) t ended →
  if ended
  then ∃ c status, closings t = [(c, jobID, status)] ∧ status ∈ [StatusCompleted; StatusFailed] ∧
         (interrupted t → c = CleanupCtx)
  else closings t = [].
Proof.
  intros Ht. pose proof (keeps_returns _ _ _ _ _ _ (logs_Execute n jobID userID) Ht) as Hl. rewrite app_nil_r in Hl.
  assert (∀ x, closings (rev t) = x → closings t = rev x) as Hrev.
  { intros x <-. unfold closings. clear. induction t as [|ev t IH]; simpl; [done|].
    rewrite omap_app, rev_app_distr, <-IH. simpl. by destruct (closes ev). }
  destruct ended; [|destruct Hl as [_ Hc]; by apply (Hrev [])].
  destruct Hl as (_ & c & status & Hc & Hst & Hi). exists c, status. split_and!; [by apply (Hrev _ Hc)|done|].
  intros (ev & Hev & Hs). apply Hi. exists ev. split; [|done].
  apply list_elem_of_In. apply ->in_rev. by apply list_elem_of_In.
Qed.

(** C20: Completed means moved. In every execution of a job (cut off at any point), a
    request that moves the guest or one of its disks is sent only when every task
    the execution started before was polled and found ended with success; and the
    job is closed as completed only when at least one task was started and all of
    them were found so. *)
Theorem completed_means_moved `{MapRange, UrlParser, MigrationLibrary, MigrationConfig} n jobID userID before ev after :
  trace (Execute n jobID userID) (before ++ ev :: after) →
  (moves ev = true → ∀ ev' upid, ev' ∈ before → started_task ev' = Some upid → succeeded upid before) ∧
  (∀ c, closes ev = Some (c, jobID, StatusCompleted) →
    began before ∧ ∀ ev' upid, ev' ∈ before → started_task ev' = Some upid → succeeded upid before).
Proof.
  intros Ht. assert (orderly []) as Hnil by done.
  pose proof (keeps_trace _ _ _ _ _ (logs_Execute n jobID userID) Hnil Ht) as Hl. rewrite app_nil_r in Hl.
  rewrite rev_app_distr in Hl. simpl in Hl. rewrite <-(assoc_L (++)) in Hl. apply ForallTail_at in Hl.
  assert (∀ e, e ∈ rev before ↔ e ∈ before) as Hrev.
  { intros e. rewrite !list_elem_of_In. by rewrite <-in_rev. }
  assert (done_but None (rev before) → ∀ ev' upid, ev' ∈ before → started_task ev' = Some upid → succeeded upid before) as Hd.
  { intros Hd ev' upid He Hs. destruct (Hd ev' upid) as [?|(e & He' & Hs')]; [by apply Hrev|done|done|].
    exists e. split; [by apply Hrev|done]. }
  destruct Hl as [Hm Hc]. split; [intros Hmv; by apply Hd, Hm|]. intros c Hcl. destruct (Hc c jobID Hcl) as [(e & upid & He & Hs) Hdone].
  split; [exists e, upid; split; [by apply Hrev|done]|by apply Hd].
Qed.
