(* ===== verification/MigrationExample.v ===== *)
(** * Migrations, played

    An outside that answers every call in one way ([answer]), the histories of
    threads against it, the witnesses of the theorems on migrations, and what a
    migration does that it does not mean to:

    - [cancelled_job_runs]: a job that was cancelled, and answered so, runs to its
      end all the same;
    - [job_run_twice]: two requests start one job twice;
    - [completed_job_runs_again]: the pre-flight of a finished job opens it again;
    - [wait_never_ends]: the wait for the move of a disk has no limit, unlike the
      wait for a migration;
    - [version_ten_refused]: a release is compared as text;
    - [token_name_with_equals]: a token whose name has an equals sign. *)

From S2P Require Import Prelude GoFloat GoStrings ProxmoxApi Effects Logs Crs DrsRules DrsPlanner DrsExecutor.
From S2P Require Import RbacEngine MigrationOps MigrationChecks MigrationRun MigrationHandlers MigrationHistory.
From S2P Require Import MigrationSafety MigrationRecord.

Local Open Scope Z_scope.

Module MigrationCase.

Definition secret : string := "0f1e2d3c-4b5a-6978-8796-a5b4c3d2e1f0".

#[local] Instance case_range : MapRange := map_to_list_range.
#[local] Instance case_urls : UrlParser := λ _, None.
#[local] Instance case_library : MigrationLibrary :=
  {| Decrypt := λ _, Ok secret; uuid_text := λ u, Itoa u |}.
#[local] Instance case_config : MigrationConfig := {| CacheWired := true |}.

(** ** The outside *)

Abbreviation mturn := (turn MOp unit).

Definition cluster_row (id : uuid) : Cluster := {|
  cl_ID := id; cl_Name := "lab"; cl_ApiUrl := "https://pve2:8006"; cl_TokenID := "root@pam!nexara";
  cl_TokenSecretEncrypted := "enc"; cl_TlsFingerprint := "AA:BB" |}.

Section answers.
(** How tasks end. *)
Variable exit : string.

Definition pve_answer {A} (r : mrequest A) : result string A :=
  match r in mrequest A return result string A with
  | GetNodes => Ok [("pve1", "online"); ("pve2", "online")]
  | GetNodeStatus _ => Ok {| ns_PVEVersion := "pve-manager/8.2.4/faa83925"; ns_CPUModel := "Xeon"; ns_CPUFlags := "vmx" |}
  | GetClusterResources _ => Ok []
  | GetStoragePools _ => Ok []
  | GetNetworkBridges _ => Ok ["vmbr0"]
  | GetVMConfig _ _ => Ok {[ "net0" := Some "virtio=AA:BB:CC:DD:EE:FF,bridge=vmbr0";
                             "scsi0" := Some "local-lvm:vm-101-disk-0,size=32G";
                             "scsi1" := Some "local-lvm:vm-101-disk-1,size=64G" ]}
  | GetCTConfig _ _ => Ok ∅
  | MigrateVM _ _ _ => Ok "UPID:pve1:1"
  | MigrateCT _ _ _ => Ok "UPID:pve1:2"
  | RemoteMigrateVM _ _ _ => Ok "UPID:pve1:3"
  | RemoteMigrateCT _ _ _ => Ok "UPID:pve1:4"
  | MoveDisk _ _ p => Ok ("UPID:pve1:move:" +:+ dm_Disk p)
  | MoveCTVolume _ _ p => Ok ("UPID:pve1:move:" +:+ cv_Volume p)
  | GetTaskStatus _ _ => Ok {| ts_Status := "stopped"; ts_ExitStatus := exit |}
  end.

Definition fresh (d : jobs) : uuid := 1000 + Z.of_nat (size d).

Definition answer {X} (e : MOp X) (d : jobs) (n : Z) : option (X * jobs * Z) :=
  match e in MOp X return option (X * jobs * Z) with
  | GetMigrationJob id => Some (match d !! id with Some j => Ok j | None => Err "no rows in result set" end, d, n)
  | CreateMigrationJob arg =>
      match d !! fresh d with
      | None => let j := createMigrationJob (fresh d) arg in Some (Ok j, <[fresh d := j]> d, n)
      | Some _ => None
      end
  | UpdateMigrationJobStatus id status => Some (None, updateMigrationJobStatus id status "" d, n)
  | UpdateMigrationJobChecks id report status => Some (None, updateMigrationJobChecks id report status d, n)
  | SetMigrationJobStarted id at_ upid => Some (None, setMigrationJobStarted id at_ upid d, n)
  | UpdateMigrationJobProgress id p upid => Some (None, updateMigrationJobProgress id p upid d, n)
  | CompleteMigrationJob _ id status at_ error => Some (None, completeMigrationJob id status at_ error d, n)
  | CancelMigrationJob id => Some (None, cancelMigrationJob id d, n)
  | ReconcileTaskHistory _ _ _ _ _ => Some (tt, d, n)
  | InsertTaskHistory _ _ _ _ _ _ _ => Some (tt, d, n)
  | InsertAuditLog _ _ _ _ _ _ _ => Some (tt, d, n)
  | GetVMByClusterAndVmid _ _ => Some (Some (77, "web"), d, n)
  | GetNodeByClusterAndName _ _ => Some (Some true, d, n)
  | GetCluster id => Some (Ok (cluster_row id), d, n)
  | CacheGet _ => Some (true, d, n)
  | NewClient _ _ => Some (None, d, n)
  | Pve _ r => Some (pve_answer r, d, n)
  | Publish _ _ _ _ => Some (tt, d, n)
  | Now => Some (1000, d, n)
  | Select => Some (Ticked, d, n)
  | RequirePerm _ _ _ => Some (None, d, n)
  | Accessible _ _ => Some (Ok {| HasGlobal := true; Allowed := ∅ |}, d, n)
  | ListMigrationJobs _ _ scope => Some (Ok [], d, n)
  | ListMigrationJobsByCluster _ _ _ => Some (Ok [], d, n)
  | AuditLogAs _ _ _ _ _ _ => Some (tt, d, n)
  | TakeSlot => if n <? MigrationConcurrencyLimit then Some (true, d, n + 1) else Some (false, d, n)
  | SpawnExecute _ _ => Some (tt, d, n)
  | ReleaseSlot => Some (tt, d, n - 1)
  end.

Lemma answer_may {X} (e : MOp X) d n x d' n' : answer e d n = Some (x, d', n') → may_answer e d n x d' n'.
Proof.
  destruct e; simpl; try (intros [= <- <- <-]; try (split; [done|by left]); try done).
  - split_and!; [done..|]. intros j. destruct (d !! id); [|done]. by intros [= ->].
  - destruct (d !! fresh d) eqn:Hf; [done|]. intros [= <- <- <-]. split; [done|]. by exists (fresh d).
  - split_and!; [done..|]. by intros l [= <-].
  - split_and!; [done..|]. by intros l [= <-].
  - destruct (Z.ltb_spec n MigrationConcurrencyLimit); intros [= <- <- <-]; done.
Qed.

(** ** Playing *)

Definition answer_it (_ : unit) (i : nat) (X : Type) (e : MOp X) (s : MSys) : option (X * MSys) :=
  '(x, d, n) ← answer e (m_jobs s) (m_slots s);
  Some (x, {| m_jobs := d; m_slots := n; m_log := Men i (Ev e x) :: m_log s |}).

Lemma answer_it_step o i X (e : MOp X) s x s' : answer_it o i X e s = Some (x, s') → step i X e s x s'.
Proof.
  intros ([[x1 d] n] & Ha & [= <- <-])%bind_Some. exists d, n. split; [|done]. by apply answer_may.
Qed.

Definition idleb (i : nat) (s : MSys) : bool := bool_decide (i ∉ me_thread <$> m_log s).

Lemma idleb_ok i s : idleb i s = true → idle i s.
Proof. apply bool_decide_eq_true. Qed.

Definition play (turns : list mturn) : MSys → option MSys := take_turns answer_it idleb turns [].

Lemma played turns s s' : Forall (turn_ok migration_program) turns → play turns s = Some s' → migration_history s s'.
Proof. by apply (take_turns_threads step idle migration_program answer_it idleb answer_it_step idleb_ok). Qed.
End answers.

(** ** Jobs *)

Definition a_job (type mode : string) (tgt : uuid) (status : string) : MigrationJob := {|
  mj_ID := 5; mj_SourceClusterID := 1; mj_TargetClusterID := tgt; mj_SourceNode := "pve1"; mj_TargetNode := "pve2";
  mj_Vmid := 101; mj_VmType := VMTypeQEMU; mj_MigrationType := type; mj_StorageMap := ∅; mj_NetworkMap := ∅;
  mj_Online := true; mj_BwlimitKib := 0; mj_DeleteSource := true; mj_TargetVmid := 0; mj_Status := status;
  mj_Upid := ""; mj_Progress := f_lit 0 0; mj_CheckResults := None; mj_ErrorMessage := ""; mj_CreatedBy := Some 9;
  mj_StartedAt := None; mj_CompletedAt := None; mj_MigrationMode := mode; mj_TargetStorage := "ceph";
  mj_DiskFormat := "" |}.

Definition with_job_row (j : MigrationJob) : MSys := {| m_jobs := {[ 5 := j ]}; m_slots := 0; m_log := [] |}.

Definition live_job : MigrationJob := a_job TypeIntraCluster ModeLive 1 StatusPending.
Definition storage_job : MigrationJob := a_job TypeIntraCluster ModeStorage 1 StatusPending.
Definition remote_job : MigrationJob := a_job TypeCrossCluster ModeLive 2 StatusPending.

Lemma untouched_row j : job_ok j → untouched (with_job_row j).
Proof. intros Hj. split; [done|]. intros id j' Hl. simpl in Hl. by apply lookup_singleton_Some in Hl as [_ <-]. Qed.

Lemma live_ok : job_ok live_job.
Proof. split; [left|done]. Qed.

(** The routes, as threads. *)
Definition run_it (i : nat) : mturn := Start i (do! Execute_route (Some 9) (Some 5) in Ret tt).
Definition cancel_it (i : nat) : mturn := Start i (do! Cancel_route (Some 9) (Some 5) in Ret tt).
Definition check_it (i : nat) : mturn := Start i (do! RunCheck (Some 5) in Ret tt).
Definition goroutine (i : nat) : mturn := Start i (background 3 5 9).

Ltac turns_go := repeat first
  [apply Forall_nil; exact I
  |apply Forall_cons; split; [first [apply executes|apply cancels|apply checks|apply goes_on|exact I]|]].

(** The rows and the log after the turns. *)
Definition after (turns : list mturn) (s : MSys) : MSys := default s (play "OK" turns s).

Lemma after_history turns s : Forall (turn_ok migration_program) turns → migration_history s (after turns s).
Proof.
  intros Ht. unfold after. destruct (play "OK" turns s) as [s'|] eqn:Hp; simpl; [by eapply played|].
  by exists [].
Qed.

Definition status_of (s : MSys) : option string := mj_Status <$> m_jobs s !! 5.

(** How often Proxmox was asked to move the guest or a disk. *)
Definition moves_sent (s : MSys) : nat := length (List.filter (λ e, MigrationRecord.moves (me_event e)) (m_log s)).

(** ** A cancelled job that runs

    The operator starts the job, and cancels it before its goroutine has read it. *)
Definition cancelling : list mturn :=
  [run_it 0; Calls 0 20 tt; cancel_it 1; Calls 1 20 tt; goroutine 2; Calls 2 60 tt].

Example cancelled_job_runs :
  migration_history (with_job_row live_job) (after cancelling (with_job_row live_job)) ∧
  (status_of (after (take 4 cancelling) (with_job_row live_job)), status_of (after cancelling (with_job_row live_job)),
   moves_sent (after cancelling (with_job_row live_job))) =
  (Some StatusCancelled, Some StatusCompleted, 1%nat).
Proof. split; [apply after_history; by turns_go|by vm_compute]. Qed.

(** ** One job, run twice

    Two requests to start it read the row before either goroutine has marked it. *)
Definition twice : list mturn :=
  [run_it 0; Calls 0 20 tt; run_it 1; Calls 1 20 tt; goroutine 2; Calls 2 60 tt; goroutine 3; Calls 3 60 tt].

Example job_run_twice :
  migration_history (with_job_row live_job) (after twice (with_job_row live_job)) ∧
  (status_of (after twice (with_job_row live_job)), moves_sent (after twice (with_job_row live_job))) =
  (Some StatusCompleted, 2%nat).
Proof. split; [apply after_history; by turns_go|by vm_compute]. Qed.

(** ** A finished job that runs again

    Its pre-flight passes and leaves it pending. *)
Definition again : list mturn :=
  [run_it 0; Calls 0 20 tt; goroutine 1; Calls 1 60 tt; check_it 2; Calls 2 40 tt; run_it 3; Calls 3 20 tt; goroutine 4; Calls 4 60 tt].

Example completed_job_runs_again :
  migration_history (with_job_row live_job) (after again (with_job_row live_job)) ∧
  (status_of (after (take 4 again) (with_job_row live_job)), status_of (after (take 6 again) (with_job_row live_job)),
   moves_sent (after again (with_job_row live_job))) =
  (Some StatusCompleted, Some StatusPending, 2%nat).
Proof. split; [apply after_history; by turns_go|by vm_compute]. Qed.

(** ** Waiting for a disk

    However often the wait for a disk is woken, it goes on for as long as the task
    cannot be read. *)
Lemma wait_never_ends n client node upid e :
  returns (waitForTask n client node upid)
    (concat (repeat [Ev Select Ticked; Ev (Pve client (GetTaskStatus node upid)) (Err e)] n)) None.
Proof. induction n as [|n IH]; simpl; [constructor|]. do 2 constructor. exact IH. Qed.

(** ** Versions and tokens *)

Example version_ten_refused :
  (ck_Severity (version_verdict "pve1" "pve-manager/9.0.3/abc"), ck_Severity (version_verdict "pve1" "pve-manager/10.0.1/abc")) =
  (SeverityPass, SeverityFail).
Proof. by vm_compute. Qed.

Example token_name_with_equals :
  (endpointTokenSecret ("root@pam!a=b=" +:+ secret), Contains (scrubEndpointSecret ("401 for " +:+ secret) ("root@pam!a=b=" +:+ secret)) secret) =
  ("b=" +:+ secret, true).
Proof. by vm_compute. Qed.

(** ** Witnesses *)

Definition ran : MSys := after (take 4 again) (with_job_row live_job).
Definition stopped : MSys := after (take 4 cancelling) (with_job_row live_job).

Definition no_entry : mentry := Men 0 (Ev Now 0).

Lemma at_index {A} (l : list A) (k : nat) (a : A) : l !! k = Some a → l = take k l ++ a :: drop (S k) l.
Proof. intros Hk. by rewrite take_drop_middle. Qed.

Lemma migration_contacts_confirmed_witness :
  "pve2" = "" ∨ ∃ e', e' ∈ drop 17 (m_log ran) ∧ confirms e' = Some (1, "pve2").
Proof.
  apply (migration_contacts_confirmed (with_job_row live_job) ran (take 16 (m_log ran)) (nth 16 (m_log ran) no_entry)
    (drop 17 (m_log ran)) 1 "pve2").
  - apply untouched_row, live_ok.
  - apply after_history. by turns_go.
  - apply at_index. by vm_compute.
  - apply (list_elem_of_lookup_2 _ 1). by vm_compute.
Defined.

Lemma migration_changes_authorised_witness : may_change 1 (OldJob 5) (drop 3 (m_log stopped)).
Proof.
  apply (migration_changes_authorised (with_job_row live_job) stopped (take 2 (m_log stopped)) (nth 2 (m_log stopped) no_entry)
    (drop 3 (m_log stopped)) (OldJob 5)).
  - apply untouched_row, live_ok.
  - apply after_history. by turns_go.
  - apply at_index. by vm_compute.
  - by vm_compute.
Defined.

(** One execution alone, its tasks ending with [exit]. *)
Definition execution (exit : string) (j : MigrationJob) : option (mprog bool * MSys) :=
  make_calls (answer_it exit) 0 100 tt (Execute 3 5 9) (with_job_row j).

Definition events_of (exit : string) (j : MigrationJob) : list (event MOp) :=
  match execution exit j with Some (_, s) => rev (me_event <$> m_log s) | None => [] end.

Lemma execution_returns exit j : (∃ s, execution exit j = Some (Ret true, s)) →
  returns (Execute 3 5 9) (events_of exit j) true ∧ trace (Execute 3 5 9) (events_of exit j).
Proof.
  intros [s Hs]. unfold events_of. rewrite Hs.
  destruct (make_calls_trace step (answer_it exit) (answer_it_step exit) m_log me_event 0 100 tt (Execute 3 5 9) (Ret true)
    (with_job_row j) s) as (t & l & Ht & Hl & Hev & Hret); [|done|].
  { intros i X e s1 x s2 (d & n & _ & ->). by eexists. }
  simpl in Hl. rewrite app_nil_r in Hl. rewrite Hl, Hev, rev_involutive. by split; [apply Hret|].
Qed.

Lemma storage_returns : ∃ s, execution "OK" storage_job = Some (Ret true, s).
Proof. eexists. by vm_compute. Qed.

Lemma remote_returns : ∃ s, execution ("die " +:+ secret) remote_job = Some (Ret true, s).
Proof. eexists. by vm_compute. Qed.

Definition stored : list (event MOp) := events_of "OK" storage_job.
Definition sent_away : list (event MOp) := events_of ("die " +:+ secret) remote_job.
Definition no_event : event MOp := Ev Now 0.

Lemma execution_recorded_witness :
  ∃ c status, closings stored = [(c, 5, status)] ∧ status ∈ [StatusCompleted; StatusFailed] ∧
    (interrupted stored → c = CleanupCtx).
Proof. exact (execution_recorded 3 5 9 stored true (proj1 (execution_returns _ _ storage_returns))). Defined.

Lemma completed_means_moved_witness :
  began (take 27 stored) ∧
  ∀ ev' upid, ev' ∈ take 27 stored → started_task ev' = Some upid → succeeded upid (take 27 stored).
Proof.
  refine (proj2 (completed_means_moved 3 5 9 (take 27 stored) (nth 27 stored no_event) (drop 28 stored) _) OwnCtx _).
  - rewrite <-(at_index stored 27 (nth 27 stored no_event)) by by vm_compute.
    apply (execution_returns _ _ storage_returns).
  - by vm_compute.
Defined.

Lemma secret_not_persisted_witness : Contains "Task exit status: die REDACTED" secret = false.
Proof.
  apply (secret_not_persisted 3 5 9 (take 12 sent_away) (nth 12 sent_away no_event) (take 11 (drop 13 sent_away))
    (nth 24 sent_away no_event) (drop 12 (drop 13 sent_away)) "root@pam!nexara").
  - rewrite <-(at_index (drop 13 sent_away) 11 (nth 24 sent_away no_event)) by by vm_compute.
    rewrite <-(at_index sent_away 12 (nth 12 sent_away no_event)) by by vm_compute.
    apply (execution_returns _ _ remote_returns).
  - by vm_compute.
  - by apply contains_false.
  - split; [by apply Nat.ltb_lt|]. intros c Hc Hr. revert c Hc Hr.
    apply (Forall_forall (λ c, c ∉ bytes_of redactedTokenSecret)).
    apply (bool_decide_unpack _). by vm_compute.
  - apply (list_elem_of_lookup_2 _ 0). by vm_compute.
Defined.
End MigrationCase.
