(* ===== verification/WsMessage.v ===== *)
(** * WebSocket channels and messages

    [ws/message.go]: the names of channels, what they are called on Redis, and the
    messages sent to a client, as the record that is marshalled; and the
    permission a channel takes ([canSubscribe] of [ws/client.go]).

    - [channel_bijection]: each room is fed by one Redis channel.

    The regular expression of a channel is the function [ValidateChannel]. *)

From S2P Require Import Prelude GoStrings.

Definition MsgTypeSubscribe : string := "subscribe".
Definition MsgTypeUnsubscribe : string := "unsubscribe".
Definition MsgTypePing : string := "ping".
Definition MsgTypeWelcome : string := "welcome".
Definition MsgTypeSubscribed : string := "subscribed".
Definition MsgTypeData : string := "data".
Definition MsgTypeError : string := "error".
Definition MsgTypePong : string := "pong".

Definition SystemEventsChannel : string := "system:events".
Definition SystemAuditChannel : string := "system:audit".
Definition AuditChannelKind : string := "audit".

(** [events.SystemRedisChannel] and [events.SystemAuditRedisChannel] *)
Definition SystemRedisChannel : string := "nexara:events:system".
Definition SystemAuditRedisChannel : string := "nexara:events:system-audit".

Definition dash : ascii := Ascii.ascii_of_nat 45.

(** [[0-9a-f]] *)
Definition is_hex (c : ascii) : bool :=
  let n := byte_val c in
  (Nat.leb 48 n && Nat.leb n 57) || (Nat.leb 97 n && Nat.leb n 102).

Definition hex_group (n : nat) (s : string) : bool := Nat.eqb (slen s) n && forallb is_hex (bytes_of s).

(** [[0-9a-f]{8}-[0-9a-f]{4}-[0-9a-f]{4}-[0-9a-f]{4}-[0-9a-f]{12}] *)
Definition is_uuid (s : string) : bool :=
  match Split dash s with
  | [a; b; c; d; e] => hex_group 8 a && hex_group 4 b && hex_group 4 c && hex_group 4 d && hex_group 12 e
  | _ => false
  end.

Definition channelKinds : list string := ["metrics"; "alerts"; "events"; "audit"].

(** [channelPattern.MatchString(ch)] *)
Definition ValidateChannel (ch : string) : bool :=
  match Split colon ch with
  | [p; id; kind] => bool_decide (p = "cluster") && is_uuid id && contains channelKinds kind
  | [p; kind] => bool_decide (p = "system") && contains ["events"; "audit"] kind
  | _ => false
  end.

(** [strings.SplitN(s, ":", 2)] where there are two parts. *)
Definition SplitN2 (s : string) : option (string * string) :=
  let '(a, b, found) := Cut colon s in if found then Some (a, b) else None.

(** [strings.SplitN(s, ":", 3)] where there are three. *)
Definition SplitN3 (s : string) : option (string * string * string) :=
  match SplitN2 s with
  | Some (a, rest) => match SplitN2 rest with Some (b, c) => Some (a, b, c) | None => None end
  | None => None
  end.

Definition ChannelKind (ch : string) : string :=
  if negb (HasPrefix ch "cluster:") then ""
  else match SplitN3 ch with Some (_, _, kind) => kind | None => "" end.

Definition ChannelClusterID (ch : string) : option string :=
  if negb (HasPrefix ch "cluster:") then None
  else match SplitN3 ch with Some (_, id, _) => Some id | None => None end.

Definition ClientChannelToRedis (ch : string) : result string string :=
  if negb (ValidateChannel ch) then Err ("invalid channel format: " +:+ ch)
  else if bool_decide (ch = SystemEventsChannel) then Ok SystemRedisChannel
  else if bool_decide (ch = SystemAuditChannel) then Ok SystemAuditRedisChannel
  else match SplitN3 ch with
       | Some (_, id, kind) => Ok ("nexara:" +:+ kind +:+ ":" +:+ id)
       | None => Err "index out of range"
       end.

Definition RedisChannelToClient (ch : string) : result string string :=
  if negb (HasPrefix ch "nexara:") then Err ("unknown Redis channel: " +:+ ch)
  else match SplitN2 (TrimPrefix ch "nexara:") with
       | None => Err ("malformed Redis channel: " +:+ ch)
       | Some (kind, identifier) =>
           if bool_decide (kind = "metrics") || bool_decide (kind = "alerts")
           then Ok ("cluster:" +:+ identifier +:+ ":" +:+ kind)
           else if bool_decide (kind = "audit") then Ok ("cluster:" +:+ identifier +:+ ":audit")
           else if bool_decide (kind = "events") then
             if bool_decide (identifier = "system") then Ok SystemEventsChannel
             else if bool_decide (identifier = "system-audit") then Ok SystemAuditChannel
             else Ok ("cluster:" +:+ identifier +:+ ":events")
           else Err ("unknown channel kind: " +:+ kind)
       end.

Record IncomingMessage := { im_Type : string; im_Channels : list string }.

(** A payload is its JSON text. *)
Record OutgoingMessage := { om_Type : string; om_Channel : string; om_Message : string; om_Payload : string }.

Definition newWelcomeMsg : OutgoingMessage :=
  {| om_Type := MsgTypeWelcome; om_Channel := ""; om_Message := "connected"; om_Payload := "" |}.
Definition newSubscribedMsg (channel : string) : OutgoingMessage :=
  {| om_Type := MsgTypeSubscribed; om_Channel := channel; om_Message := ""; om_Payload := "" |}.
Definition newDataMsg (channel payload : string) : OutgoingMessage :=
  {| om_Type := MsgTypeData; om_Channel := channel; om_Message := ""; om_Payload := payload |}.
Definition newErrorMsg (msg : string) : OutgoingMessage :=
  {| om_Type := MsgTypeError; om_Channel := ""; om_Message := msg; om_Payload := "" |}.
Definition newPongMsg : OutgoingMessage :=
  {| om_Type := MsgTypePong; om_Channel := ""; om_Message := ""; om_Payload := "" |}.

(** ** What a channel takes *)

(** [uuid.Parse] *)
Class UuidParser := parse_uuid : string → option Z.

(** A question to the permission engine: action, resource, scope. *)
Record Question := { q_Action : string; q_Resource : string; q_ScopeType : string; q_ScopeID : Z }.

#[export] Instance Question_eq_dec : EqDecision Question.
Proof. solve_decision. Defined.

(** What [canSubscribe] decides by: at once, or by the answer to a question. *)
Inductive gate := Open | Closed | Asks (q : Question).

Definition channel_gate `{UuidParser} (channel : string) : gate :=
  match ChannelClusterID channel with
  | None =>
      if bool_decide (channel = SystemEventsChannel) then Open
      else if bool_decide (channel = SystemAuditChannel)
      then Asks {| q_Action := "view"; q_Resource := "audit"; q_ScopeType := "global"; q_ScopeID := 0 |}
      else Closed
  | Some clusterID =>
      match parse_uuid clusterID with
      | None => Closed
      | Some id =>
          Asks {| q_Action := "view";
                  q_Resource := if bool_decide (ChannelKind channel = AuditChannelKind) then "audit" else "cluster";
                  q_ScopeType := "cluster"; q_ScopeID := id |}
      end
  end.

(** [canSubscribe]; [check] is [checkPermission], or [None] where there is none, and
    an answer that is an error is [None]. *)
Definition canSubscribe `{UuidParser} (check : option (Question → option bool)) (channel : string) : bool :=
  match channel_gate channel with
  | Open => true
  | Closed => false
  | Asks q => match check with None => false | Some check => default false (check q) end
  end.

(** ** Each room has its own name on Redis *)

Lemma SplitN2_app (a b : string) : colon ∉ bytes_of a → SplitN2 (a +:+ ":" +:+ b) = Some (a, b).
Proof.
  intros Ha. unfold SplitN2. change (":" +:+ b) with (String colon b). by rewrite Cut_at.
Qed.

Lemma SplitN2_Some s a b : SplitN2 s = Some (a, b) → s = a +:+ ":" +:+ b ∧ colon ∉ bytes_of a.
Proof.
  unfold SplitN2. destruct (Cut colon s) as [[x y] []] eqn:Hc; [|done]. intros [= -> ->]. by apply Cut_found.
Qed.

(** The two shapes of a valid channel. *)
Lemma valid_channel ch :
  ValidateChannel ch = true →
  ch = SystemEventsChannel ∨ ch = SystemAuditChannel ∨
  ∃ id kind, ch = "cluster:" +:+ id +:+ ":" +:+ kind ∧ is_uuid id = true ∧ kind ∈ channelKinds ∧ colon ∉ bytes_of id.
Proof.
  unfold ValidateChannel. intros Hv. pose proof (Join_Split colon ch) as Hj.
  pose proof (Split_parts colon ch) as Hp. destruct (Split colon ch) as [|p [|id [|kind [|]]]]; try done.
  - apply andb_true_iff in Hv as [->%bool_decide_eq_true Hk%contains_spec]. simpl in Hj.
    apply elem_of_cons in Hk as [->| ->%list_elem_of_singleton]; [by left|by right; left].
  - apply andb_true_iff in Hv as [[->%bool_decide_eq_true Hid]%andb_true_iff Hk%contains_spec].
    right; right. exists id, kind. split_and!; [by rewrite <-Hj|done|done|]. apply Hp. right. left.
Qed.

Lemma hex_groups s : is_uuid s = true → s ≠ "system" ∧ s ≠ "system-audit".
Proof. intros Hs. split; intros ->; by vm_compute in Hs. Qed.

(** The prefix of a Redis channel. *)
Lemma TrimPrefix_nexara s : TrimPrefix ("nexara:" +:+ s) "nexara:" = s.
Proof. unfold TrimPrefix. rewrite HasPrefix_app. by destruct s. Qed.

Lemma kind_plain kind : kind ∈ channelKinds → colon ∉ bytes_of kind.
Proof.
  intros Hk. apply contains_false. unfold channelKinds in Hk.
  repeat (apply elem_of_cons in Hk as [->|Hk]; [by vm_compute|]). by apply elem_of_nil in Hk.
Qed.

Lemma SplitN3_channel id kind :
  colon ∉ bytes_of id → SplitN3 ("cluster:" +:+ id +:+ ":" +:+ kind) = Some ("cluster", id, kind).
Proof.
  intros Hid. unfold SplitN3. change ("cluster:" +:+ id +:+ ":" +:+ kind) with ("cluster" +:+ ":" +:+ id +:+ ":" +:+ kind).
  rewrite SplitN2_app by by apply contains_false. by rewrite SplitN2_app.
Qed.

Lemma gate_cluster `{UuidParser} id kind :
  colon ∉ bytes_of id →
  channel_gate ("cluster:" +:+ id +:+ ":" +:+ kind) =
  match parse_uuid id with
  | None => Closed
  | Some u => Asks {| q_Action := "view"; q_Resource := if bool_decide (kind = "audit") then "audit" else "cluster";
                      q_ScopeType := "cluster"; q_ScopeID := u |}
  end.
Proof. intros Hid. unfold channel_gate, ChannelClusterID, ChannelKind. by rewrite HasPrefix_app, SplitN3_channel by done. Qed.

Lemma cluster_not_system id kind :
  "cluster:" +:+ id +:+ ":" +:+ kind ≠ SystemEventsChannel ∧ "cluster:" +:+ id +:+ ":" +:+ kind ≠ SystemAuditChannel.
Proof. by split. Qed.

(** The name on Redis of a room of a cluster. *)
Lemma to_redis_cluster id kind :
  is_uuid id = true → kind ∈ channelKinds → colon ∉ bytes_of id →
  ClientChannelToRedis ("cluster:" +:+ id +:+ ":" +:+ kind) = Ok ("nexara:" +:+ kind +:+ ":" +:+ id).
Proof.
  intros Hid Hk Hc. unfold ClientChannelToRedis.
  assert (ValidateChannel ("cluster:" +:+ id +:+ ":" +:+ kind) = true) as ->.
  { unfold ValidateChannel. change ("cluster:" +:+ id +:+ ":" +:+ kind) with ("cluster" +:+ String colon (id +:+ String colon kind)).
    rewrite Split_app by by apply contains_false. rewrite Split_app by done. rewrite Split_free by by apply kind_plain.
    simpl. rewrite Hid. by apply contains_spec. }
  destruct (cluster_not_system id kind). simpl negb. rewrite !bool_decide_false by done. by rewrite SplitN3_channel.
Qed.

Lemma of_redis_cluster id kind :
  is_uuid id = true → kind ∈ channelKinds →
  RedisChannelToClient ("nexara:" +:+ kind +:+ ":" +:+ id) = Ok ("cluster:" +:+ id +:+ ":" +:+ kind).
Proof.
  intros Hid Hk. destruct (hex_groups id Hid) as [Hs Ha]. unfold RedisChannelToClient.
  rewrite HasPrefix_app, TrimPrefix_nexara. simpl negb. rewrite SplitN2_app by by apply kind_plain.
  rewrite (bool_decide_false (id = "system")), (bool_decide_false (id = "system-audit")) by done.
  unfold channelKinds in Hk. repeat (apply elem_of_cons in Hk as [->|Hk]; [done|]). by apply elem_of_nil in Hk.
Qed.

Lemma Split_app_r c a s : c ∉ bytes_of s → Split c (a +:+ String c s) = Split c a ++ [s].
Proof.
  intros Hs. induction a as [|x a IH].
  - rewrite app_string_nil_l. simpl. rewrite ascii_eqb_refl. by rewrite Split_free.
  - rewrite app_string_cons. simpl. rewrite IH. destruct (ascii_eqb c x); [done|].
    destruct (Split c a) as [|h t] eqn:Ha; [by destruct (Split_not_nil c a)|done].
Qed.

(** A room of a cluster is of one cluster and of one kind. *)
Lemma cluster_channel_inj id kind id' kind' :
  colon ∉ bytes_of id → kind ∈ channelKinds → kind' ∈ channelKinds →
  "cluster:" +:+ id' +:+ ":" +:+ kind' = "cluster:" +:+ id +:+ ":" +:+ kind → id' = id ∧ kind' = kind.
Proof.
  intros Hid Hk Hk' Heq.
  assert (id' +:+ String colon kind' = id +:+ String colon kind) as Heq' by by simplify_eq.
  assert (Split colon (id' +:+ String colon kind') = [id; kind]) as Hs.
  { rewrite Heq', Split_app by done. by rewrite Split_free by by apply kind_plain. }
  rewrite Split_app_r in Hs by by apply kind_plain. pose proof (Join_Split colon id') as Hj.
  destruct (Split colon id') as [|h [|h' t]]; simplify_list_eq; [by split|by destruct t].
Qed.

Lemma of_redis_inv r ch :
  RedisChannelToClient r = Ok ch →
  (r = SystemRedisChannel ∧ ch = SystemEventsChannel) ∨ (r = SystemAuditRedisChannel ∧ ch = SystemAuditChannel) ∨
  ∃ kind id, kind ∈ channelKinds ∧ r = "nexara:" +:+ kind +:+ ":" +:+ id ∧ ch = "cluster:" +:+ id +:+ ":" +:+ kind.
Proof.
  unfold RedisChannelToClient. destruct (HasPrefix r "nexara:") eqn:Hp; [|done]. simpl negb.
  apply HasPrefix_spec in Hp as [rest ->]. rewrite TrimPrefix_nexara.
  destruct (SplitN2 rest) as [[kind id]|] eqn:Hs; [|done]. apply SplitN2_Some in Hs as [-> _].
  assert (∀ k, k ∈ channelKinds → kind = k → ch = "cluster:" +:+ id +:+ ":" +:+ k →
    ∃ kind0 id0, kind0 ∈ channelKinds ∧ "nexara:" +:+ kind +:+ ":" +:+ id = "nexara:" +:+ kind0 +:+ ":" +:+ id0 ∧
      ch = "cluster:" +:+ id0 +:+ ":" +:+ kind0) as Hcl.
  { intros k Hk -> ->. by exists k, id. }
  destruct (bool_decide_reflect (kind = "metrics")) as [->|].
  { intros [= <-]. right; right. apply (Hcl "metrics"); [left|done..]. }
  destruct (bool_decide_reflect (kind = "alerts")) as [->|].
  { intros [= <-]. right; right. apply (Hcl "alerts"); [right; left|done..]. }
  simpl. destruct (bool_decide_reflect (kind = "audit")) as [->|].
  { intros [= <-]. right; right. apply (Hcl "audit"); [do 3 right; left|done..]. }
  destruct (bool_decide_reflect (kind = "events")) as [->|]; [|done].
  destruct (bool_decide_reflect (id = "system")) as [->|]; [intros [= <-]; by left|].
  destruct (bool_decide_reflect (id = "system-audit")) as [->|]; [intros [= <-]; by right; left|].
  intros [= <-]. right; right. apply (Hcl "events"); [do 2 right; left|done..].
Qed.

(** Each room is fed by one Redis channel. A channel a client may name has a
    name on Redis; what is published under that name reaches that channel, and
    nothing published under another name does. *)
Theorem channel_bijection ch :
  ValidateChannel ch = true →
  ∃ r, ClientChannelToRedis ch = Ok r ∧ ∀ r', RedisChannelToClient r' = Ok ch ↔ r' = r.
Proof.
  intros Hv. destruct (valid_channel ch Hv) as [->|[->|(id & kind & -> & Hid & Hk & Hc)]].
  - exists SystemRedisChannel. split; [done|]. intros r'. split; [|by intros ->].
    by intros [[-> _]|[[_ ?]|(? & ? & _ & _ & ?)]]%of_redis_inv.
  - exists SystemAuditRedisChannel. split; [done|]. intros r'. split; [|by intros ->].
    by intros [[_ ?]|[[-> _]|(? & ? & _ & _ & ?)]]%of_redis_inv.
  - exists ("nexara:" +:+ kind +:+ ":" +:+ id). split; [by apply to_redis_cluster|]. intros r'. split.
    + intros [[_ ?]|[[_ ?]|(kind' & id' & Hk' & -> & Heq)]]%of_redis_inv; [done|done|].
      symmetry in Heq. by apply cluster_channel_inj in Heq as [-> ->].
    + intros ->. by apply of_redis_cluster.
Qed.

Lemma channel_bijection_witness :
  ∃ r, ClientChannelToRedis "cluster:0f1e2d3c-4b5a-6978-8796-a5b4c3d2e1f0:events" = Ok r ∧
    ∀ r', RedisChannelToClient r' = Ok "cluster:0f1e2d3c-4b5a-6978-8796-a5b4c3d2e1f0:events" ↔ r' = r.
Proof. apply channel_bijection. by vm_compute. Defined.
