(* ===== verification/WsHub.v ===== *)
(** * The WebSocket hub

    [ws/hub.go], the clients around it ([ws/client.go]) and the subscriber that
    feeds it ([ws/subscriber.go]). The hub is one goroutine that owns the rooms and
    takes from five channels, in no fixed order between them; a client has a
    buffer of messages that its writer drains. [do_move] is one step of any of
    them; [moves] are their histories.

    - [hub_consistent]: the books of the hub agree with one another.
    - [only_approved_receive]: a client is sent the data of a room only after the
      permission engine has said its user may see it.
    - [no_silent_gap]: a message to a room is put in the buffer of every client in
      it, or the client is cut off.
    - [channel_bijection]: each room is fed by one Redis channel.
    - [leaked_for_good], [connection_leaked] and [limit_passed]: two orders in which the hub keeps a
      client that is gone, and lets in more than its limit.

    A client is its number. A set that the source ranges over is ranged over in an
    unspecified order ([MapRange]). Deadlines, pings and the framing of the
    connection are left out: a connection may end at any time ([Leave]), and its
    writer may stop. *)

From S2P Require Import Prelude GoStrings Effects WsMessage.

Abbreviation cid := nat.

Definition clientSendBuffer : nat := 256.

(** The capacity of the channels of requests, and of the one of broadcasts. *)
Definition requestBuffer : nat := 64.
Definition broadcastBuffer : nat := 256.

Record hubState := {
  clients : gset cid; rooms : gmap string (gset cid); clientRooms : gmap cid (gset string);
  lastMsg : gmap string OutgoingMessage }.

(** The hub with what it shares with the clients: their buffers, and which were
    told to close. *)
Record wsState := { hub : hubState; sends : gmap cid (list OutgoingMessage); closing : gset cid }.

Definition buffer (c : cid) (s : wsState) : list OutgoingMessage := default [] (sends s !! c).

Definition with_hub (s : wsState) (h : hubState) : wsState := {| hub := h; sends := sends s; closing := closing s |}.

Definition push (c : cid) (m : OutgoingMessage) (s : wsState) : wsState :=
  {| hub := hub s; sends := <[c := buffer c s ++ [m]]> (sends s); closing := closing s |}.

Definition closeSend (c : cid) (s : wsState) : wsState :=
  {| hub := hub s; sends := sends s; closing := closing s ∪ {[c]} |}.

(** Out of one room; a room without members goes. *)
Definition leave_room (c : cid) (room : string) (r : gmap string (gset cid)) : gmap string (gset cid) :=
  match r !! room with
  | None => r
  | Some members =>
      let members := members ∖ {[c]} in
      if bool_decide (members = ∅) then delete room r else <[room := members]> r
  end.

Definition removeClient (c : cid) (s : wsState) : wsState :=
  let h := hub s in
  if bool_decide (c ∈ clients h) then
    closeSend c (with_hub s {|
      clients := clients h ∖ {[c]};
      rooms := foldr (leave_room c) (rooms h) (elements (default ∅ (clientRooms h !! c)));
      clientRooms := delete c (clientRooms h);
      lastMsg := lastMsg h |})
  else s.

Definition trySendOrEvict (c : cid) (data : OutgoingMessage) (s : wsState) : wsState :=
  if bool_decide (c ∈ clients (hub s)) then
    if Nat.ltb (length (buffer c s)) clientSendBuffer then push c data s else removeClient c s
  else s.

(** [trySend]; where the client is closing too, [dropped] is which of the two cases
    that are ready is taken. *)
Definition trySend (c : cid) (data : OutgoingMessage) (dropped : bool) (s : wsState) : wsState :=
  if bool_decide (c ∈ closing s) && dropped then s
  else if Nat.ltb (length (buffer c s)) clientSendBuffer then push c data s else s.

(** ** The cases of [run] *)

Definition on_register (maxConnections : Z) (c : cid) (s : wsState) : wsState :=
  let h := hub s in
  if (0 <? maxConnections)%Z && (maxConnections <=? Z.of_nat (size (clients h)))%Z then closeSend c s
  else with_hub s {| clients := clients h ∪ {[c]}; rooms := rooms h; clientRooms := clientRooms h; lastMsg := lastMsg h |}.

Definition join (c : cid) (channel : string) (h : hubState) : hubState := {|
  clients := clients h ∪ {[c]};
  rooms := <[channel := default ∅ (rooms h !! channel) ∪ {[c]}]> (rooms h);
  clientRooms := <[c := default ∅ (clientRooms h !! c) ∪ {[channel]}]> (clientRooms h);
  lastMsg := lastMsg h |}.

Definition on_subscribe (c : cid) (channel : string) (s : wsState) : wsState :=
  let s := with_hub s (join c channel (hub s)) in
  let s := trySendOrEvict c (newSubscribedMsg channel) s in
  match lastMsg (hub s) !! channel with
  | Some cached => trySendOrEvict c cached s
  | None => s
  end.

Definition on_unsubscribe (c : cid) (channel : string) (s : wsState) : wsState :=
  let h := hub s in
  with_hub s {| clients := clients h; rooms := leave_room c channel (rooms h);
                clientRooms := alter (λ subs, subs ∖ {[channel]}) c (clientRooms h); lastMsg := lastMsg h |}.

Section range.
Context `{MR : MapRange}.

(** The members of a set in the order of a range. *)
Definition ranged (x : gset cid) : list cid := (go_range (gset_to_gmap tt x)).*1.

Definition on_broadcast (room payload : string) (s : wsState) : wsState :=
  let h := hub s in
  let data := newDataMsg room payload in
  let s := with_hub s {| clients := clients h; rooms := rooms h; clientRooms := clientRooms h;
                         lastMsg := <[room := data]> (lastMsg h) |} in
  match rooms h !! room with
  | None => s
  | Some members => foldl (λ s c, trySendOrEvict c data s) s (ranged members)
  end.

Definition on_stop (s : wsState) : wsState := foldl (λ s c, removeClient c s) s (ranged (clients (hub s))).
End range.

(** ** The whole *)

(** What is seen from outside: an answer of the permission engine about the user
    of a client, a message its writer wrote, and a message that came from Redis and
    was passed on. *)
Inductive wevent :=
| Answered (c : cid) (q : Question) (yes : bool)
| Wrote (c : cid) (m : OutgoingMessage)
| Received (channel payload : string).

Record WSys := {
  w_state : wsState; q_register : list cid; q_unregister : list cid; q_subscribe : list (cid * string);
  q_unsub : list (cid * string); q_broadcast : list (string * string); connected : gset cid; known : gset cid;
  stopped : bool; w_log : list wevent }.

Inductive wmove :=
| Connect (c : cid)
| SubscribeMsg (c : cid) (channel : string) (check : option (Question → option bool))
| UnsubscribeMsg (c : cid) (channel : string)
| Reply (c : cid) (m : OutgoingMessage) (dropped : bool)
| Leave (c : cid)
| FromRedis (channel payload : string) (valid : bool)
| HubRegister | HubUnregister | HubSubscribe | HubUnsubscribe | HubBroadcast | HubStop
| Write (c : cid).

Section moves.
Context `{MR : MapRange} `{UP : UuidParser}.
Variable maxConnections : Z.

Definition set_state (s : WSys) (st : wsState) : WSys := {|
  w_state := st; q_register := q_register s; q_unregister := q_unregister s; q_subscribe := q_subscribe s;
  q_unsub := q_unsub s; q_broadcast := q_broadcast s; connected := connected s; known := known s;
  stopped := stopped s; w_log := w_log s |}.

(** What [canSubscribe] asks and is answered, if it asks. *)
Definition asked (c : cid) (channel : string) (check : option (Question → option bool)) : list wevent :=
  match channel_gate channel, check with
  | Asks q, Some check => [Answered c q (default false (check q))]
  | _, _ => []
  end.

(** A message that the client sends itself: never the data of a room. *)
Definition own_reply (m : OutgoingMessage) : bool :=
  bool_decide (om_Type m = MsgTypeWelcome) || bool_decide (om_Type m = MsgTypePong) || bool_decide (om_Type m = MsgTypeError).

(** [None]: the move is not possible. *)
Definition do_move (m : wmove) (s : WSys) : option WSys :=
  match m with
  | Connect c =>
      if bool_decide (c ∈ known s) || Nat.leb requestBuffer (length (q_register s)) then None
      else Some {| w_state := w_state s; q_register := q_register s ++ [c]; q_unregister := q_unregister s;
                   q_subscribe := q_subscribe s; q_unsub := q_unsub s; q_broadcast := q_broadcast s;
                   connected := connected s ∪ {[c]}; known := known s ∪ {[c]}; stopped := stopped s; w_log := w_log s |}
  | SubscribeMsg c channel check =>
      if negb (bool_decide (c ∈ connected s)) then None
      else if negb (ValidateChannel channel) then Some s
      else
        let log := asked c channel check ++ w_log s in
        if canSubscribe check channel then
          if Nat.leb requestBuffer (length (q_subscribe s)) then None
          else Some {| w_state := w_state s; q_register := q_register s; q_unregister := q_unregister s;
                       q_subscribe := q_subscribe s ++ [(c, channel)]; q_unsub := q_unsub s;
                       q_broadcast := q_broadcast s; connected := connected s; known := known s;
                       stopped := stopped s; w_log := log |}
        else Some {| w_state := w_state s; q_register := q_register s; q_unregister := q_unregister s;
                     q_subscribe := q_subscribe s; q_unsub := q_unsub s; q_broadcast := q_broadcast s;
                     connected := connected s; known := known s; stopped := stopped s; w_log := log |}
  | UnsubscribeMsg c channel =>
      if negb (bool_decide (c ∈ connected s)) || Nat.leb requestBuffer (length (q_unsub s)) then None
      else Some {| w_state := w_state s; q_register := q_register s; q_unregister := q_unregister s;
                   q_subscribe := q_subscribe s; q_unsub := q_unsub s ++ [(c, channel)];
                   q_broadcast := q_broadcast s; connected := connected s; known := known s;
                   stopped := stopped s; w_log := w_log s |}
  | Reply c m dropped =>
      if negb (bool_decide (c ∈ connected s)) || negb (own_reply m) then None
      else Some (set_state s (trySend c m dropped (w_state s)))
  | Leave c =>
      if negb (bool_decide (c ∈ connected s)) || Nat.leb requestBuffer (length (q_unregister s)) then None
      else Some {| w_state := w_state s; q_register := q_register s; q_unregister := q_unregister s ++ [c];
                   q_subscribe := q_subscribe s; q_unsub := q_unsub s; q_broadcast := q_broadcast s;
                   connected := connected s ∖ {[c]}; known := known s; stopped := stopped s; w_log := w_log s |}
  | FromRedis channel payload valid =>
      match RedisChannelToClient channel with
      | Err _ => Some s
      | Ok room =>
          if negb valid then Some s
          else if Nat.leb broadcastBuffer (length (q_broadcast s)) then None
          else Some {| w_state := w_state s; q_register := q_register s; q_unregister := q_unregister s;
                       q_subscribe := q_subscribe s; q_unsub := q_unsub s;
                       q_broadcast := q_broadcast s ++ [(room, payload)]; connected := connected s; known := known s;
                       stopped := stopped s; w_log := Received channel payload :: w_log s |}
      end
  | HubRegister =>
      match stopped s, q_register s with
      | false, c :: q =>
          Some {| w_state := on_register maxConnections c (w_state s); q_register := q;
                  q_unregister := q_unregister s; q_subscribe := q_subscribe s; q_unsub := q_unsub s;
                  q_broadcast := q_broadcast s; connected := connected s; known := known s; stopped := false;
                  w_log := w_log s |}
      | _, _ => None
      end
  | HubUnregister =>
      match stopped s, q_unregister s with
      | false, c :: q =>
          Some {| w_state := removeClient c (w_state s); q_register := q_register s; q_unregister := q;
                  q_subscribe := q_subscribe s; q_unsub := q_unsub s; q_broadcast := q_broadcast s;
                  connected := connected s; known := known s; stopped := false; w_log := w_log s |}
      | _, _ => None
      end
  | HubSubscribe =>
      match stopped s, q_subscribe s with
      | false, (c, channel) :: q =>
          Some {| w_state := on_subscribe c channel (w_state s); q_register := q_register s;
                  q_unregister := q_unregister s; q_subscribe := q; q_unsub := q_unsub s;
                  q_broadcast := q_broadcast s; connected := connected s; known := known s; stopped := false;
                  w_log := w_log s |}
      | _, _ => None
      end
  | HubUnsubscribe =>
      match stopped s, q_unsub s with
      | false, (c, channel) :: q =>
          Some {| w_state := on_unsubscribe c channel (w_state s); q_register := q_register s;
                  q_unregister := q_unregister s; q_subscribe := q_subscribe s; q_unsub := q;
                  q_broadcast := q_broadcast s; connected := connected s; known := known s; stopped := false;
                  w_log := w_log s |}
      | _, _ => None
      end
  | HubBroadcast =>
      match stopped s, q_broadcast s with
      | false, (room, payload) :: q =>
          Some {| w_state := on_broadcast room payload (w_state s); q_register := q_register s;
                  q_unregister := q_unregister s; q_subscribe := q_subscribe s; q_unsub := q_unsub s;
                  q_broadcast := q; connected := connected s; known := known s; stopped := false;
                  w_log := w_log s |}
      | _, _ => None
      end
  | HubStop =>
      if stopped s then None
      else Some {| w_state := on_stop (w_state s); q_register := q_register s; q_unregister := q_unregister s;
                   q_subscribe := q_subscribe s; q_unsub := q_unsub s; q_broadcast := q_broadcast s;
                   connected := connected s; known := known s; stopped := true; w_log := w_log s |}
  | Write c =>
      match buffer c (w_state s) with
      | [] => None
      | m :: rest =>
          Some {| w_state := {| hub := hub (w_state s); sends := <[c := rest]> (sends (w_state s));
                                closing := closing (w_state s) |};
                  q_register := q_register s; q_unregister := q_unregister s; q_subscribe := q_subscribe s;
                  q_unsub := q_unsub s; q_broadcast := q_broadcast s; connected := connected s; known := known s;
                  stopped := stopped s; w_log := Wrote c m :: w_log s |}
      end
  end.

(** What a message from the peer makes the client do, in this order; [checks] are
    the answers while it handles each of the channels. A reply is not dropped here,
    so that it is found in the buffer where there is room. *)
Definition handleMessage (c : cid) (checks : nat → option (Question → option bool)) (msg : IncomingMessage) : list wmove :=
  if bool_decide (im_Type msg = MsgTypePing) then [Reply c newPongMsg false]
  else if bool_decide (im_Type msg = MsgTypeSubscribe) then
    concat (imap (λ i ch,
      SubscribeMsg c ch (checks i) ::
      (if negb (ValidateChannel ch) then [Reply c (newErrorMsg "invalid channel format") false]
       else if negb (canSubscribe (checks i) ch) then [Reply c (newErrorMsg "forbidden") false] else []))
      (im_Channels msg))
  else if bool_decide (im_Type msg = MsgTypeUnsubscribe) then (λ ch, UnsubscribeMsg c ch) <$> im_Channels msg
  else [Reply c (newErrorMsg "unknown message type") false].

Definition step (s s' : WSys) : Prop := ∃ m, do_move m s = Some s'.

Definition moves : WSys → WSys → Prop := rtc step.

Fixpoint play (ms : list wmove) (s : WSys) : option WSys :=
  match ms with
  | [] => Some s
  | m :: ms => s ← do_move m s; play ms s
  end.

Lemma moves_keep (P : WSys → Prop) s s' :
  (∀ s m s', P s → do_move m s = Some s' → P s') → P s → moves s s' → P s'.
Proof. intros HP Hs Hm. induction Hm as [|s1 s2 s3 [m Hm] _ IH]; [done|]. eauto. Qed.

Lemma play_moves ms s s' : play ms s = Some s' → moves s s'.
Proof.
  revert s. induction ms as [|m ms IH]; intros s; simpl; [by intros [= ->]|].
  intros (s1 & Hm & Hp)%bind_Some. eapply rtc_l; [by exists m|by apply IH].
Qed.
End moves.

Definition empty_hub : hubState := {| clients := ∅; rooms := ∅; clientRooms := ∅; lastMsg := ∅ |}.

(** A server that has just started. *)
Definition fresh_server : WSys := {|
  w_state := {| hub := empty_hub; sends := ∅; closing := ∅ |}; q_register := []; q_unregister := []; q_subscribe := [];
  q_unsub := []; q_broadcast := []; connected := ∅; known := ∅; stopped := false; w_log := [] |}.

(** ** The books agree *)

Definition in_room (c : cid) (ch : string) (h : hubState) : Prop := ∃ members, rooms h !! ch = Some members ∧ c ∈ members.
Definition lists_room (c : cid) (ch : string) (h : hubState) : Prop :=
  ∃ subs, clientRooms h !! c = Some subs ∧ ch ∈ subs.

(** A room lists a client exactly when the client lists the room, no room is
    empty, only registered clients have rooms, and a cached message is the data of
    its room. *)
Definition consistent (h : hubState) : Prop :=
  (∀ c ch, in_room c ch h ↔ lists_room c ch h) ∧
  (∀ ch members, rooms h !! ch = Some members → members ≠ ∅) ∧
  (∀ c, is_Some (clientRooms h !! c) → c ∈ clients h) ∧
  (∀ ch m, lastMsg h !! ch = Some m → om_Type m = MsgTypeData ∧ om_Channel m = ch).

Lemma leave_room_lookup c room r ch members :
  leave_room c room r !! ch = Some members →
  (ch = room → ∃ before, r !! room = Some before ∧ members = before ∖ {[c]} ∧ members ≠ ∅) ∧
  (ch ≠ room → r !! ch = Some members).
Proof.
  unfold leave_room. destruct (r !! room) as [before|] eqn:Hr.
  - case_bool_decide as He.
    + intros [Hne Hl]%lookup_delete_Some. split; [by intros ->|done].
    + intros [[<- <-]|[Hne Hl]]%lookup_insert_Some; (split; [|done]); intros; simplify_eq; by eauto.
  - intros Hl. split; [|done]. intros ->. congruence.
Qed.

Lemma leave_room_in c room r ch c' :
  (∃ members, leave_room c room r !! ch = Some members ∧ c' ∈ members) ↔
  (∃ members, r !! ch = Some members ∧ c' ∈ members) ∧ ¬ (c' = c ∧ ch = room).
Proof.
  split.
  - intros (members & Hl & Hc). apply leave_room_lookup in Hl as [Heq Hne].
    destruct (decide (ch = room)) as [->|Hn].
    + destruct (Heq eq_refl) as (before & Hr & -> & _). apply elem_of_difference in Hc as [? Hc].
      split; [by eauto|]. intros [-> _]. apply Hc. by apply elem_of_singleton.
    + split; [by eauto|]. by intros [_ ?].
  - intros [(members & Hl & Hc) Hn]. unfold leave_room. destruct (decide (ch = room)) as [->|Hne].
    + rewrite Hl. assert (c' ∈ members ∖ {[c]}) as Hin by set_solver.
      rewrite bool_decide_false by set_solver. rewrite lookup_insert_eq. by eauto.
    + destruct (r !! room) as [before|]; [|by eauto].
      case_bool_decide; [rewrite lookup_delete_ne by done|rewrite lookup_insert_ne by done]; by eauto.
Qed.

Lemma leave_room_full c room r :
  (∀ ch members, r !! ch = Some members → members ≠ ∅) →
  ∀ ch members, leave_room c room r !! ch = Some members → members ≠ ∅.
Proof.
  intros Hr ch members Hl. apply leave_room_lookup in Hl as [Heq Hne].
  destruct (decide (ch = room)) as [->|Hn]; [by destruct (Heq eq_refl) as (? & _ & _ & ?)|]. eauto.
Qed.

Lemma leave_rooms_in c l r ch c' :
  (∃ members, foldr (leave_room c) r l !! ch = Some members ∧ c' ∈ members) ↔
  (∃ members, r !! ch = Some members ∧ c' ∈ members) ∧ ¬ (c' = c ∧ ch ∈ l).
Proof.
  induction l as [|room l IH]; simpl.
  - split; [|by intros [? _]]. intros ?. split; [done|]. by intros [_ ?%elem_of_nil].
  - rewrite leave_room_in, IH, elem_of_cons. tauto.
Qed.

Lemma leave_rooms_full c l r :
  (∀ ch members, r !! ch = Some members → members ≠ ∅) →
  ∀ ch members, foldr (leave_room c) r l !! ch = Some members → members ≠ ∅.
Proof. intros Hr. induction l as [|room l IH]; simpl; [done|]. by apply leave_room_full. Qed.

Lemma lists_elements c ch h : lists_room c ch h ↔ ch ∈ elements (default ∅ (clientRooms h !! c)).
Proof.
  rewrite elem_of_elements. unfold lists_room. destruct (clientRooms h !! c) as [subs|]; simpl.
  - split; [by intros (? & [= <-] & ?)|by eauto].
  - split; [by intros (? & ? & ?)|by intros ?%elem_of_empty].
Qed.

Lemma consistent_remove c s : consistent (hub s) → consistent (hub (removeClient c s)).
Proof.
  intros (Hiff & Hfull & Hreg & Hlast). unfold removeClient. case_bool_decide as Hc; [|done]. simpl.
  split_and!; simpl; [|by apply leave_rooms_full| |done].
  - intros c' ch. unfold in_room at 1. simpl. rewrite leave_rooms_in, <-lists_elements, <-Hiff.
    unfold lists_room. simpl. split.
    + intros [Hin Hn]. assert (c' ≠ c) as Hne by (intros ->; by apply Hn).
      rewrite lookup_delete_ne by done. apply (proj1 (Hiff c' ch)) in Hin. exact Hin.
    + intros (subs & [Hne Hl]%lookup_delete_Some & Hs). split; [|by intros [-> _]]. apply Hiff. by exists subs.
  - intros c' [subs [Hne Hl]%lookup_delete_Some]. apply elem_of_difference. split; [by apply Hreg|set_solver].
Qed.

Lemma consistent_send c m s : consistent (hub s) → consistent (hub (trySendOrEvict c m s)).
Proof.
  intros Hs. unfold trySendOrEvict. case_bool_decide; [|done]. destruct (Nat.ltb _ _); [done|]. by apply consistent_remove.
Qed.

Lemma consistent_join c ch h : consistent h → consistent (join c ch h).
Proof.
  intros (Hiff & Hfull & Hreg & Hlast). split_and!; simpl; [| | |done].
  - intros c' ch'. specialize (Hiff c' ch'). unfold in_room, lists_room in *. simpl.
    destruct (decide (ch' = ch)) as [->|Hch], (decide (c' = c)) as [->|Hcc].
    + rewrite !lookup_insert_eq. split; intros _; eexists; (split; [done|set_solver]).
    + rewrite lookup_insert_eq, lookup_insert_ne by done. rewrite <-Hiff. split.
      * intros (members & [= <-] & Hin). destruct (rooms h !! ch) as [members|]; simpl in *; [|set_solver].
        exists members. set_solver.
      * intros (members & -> & Hin). eexists. split; [done|]. simpl. set_solver.
    + rewrite lookup_insert_eq, lookup_insert_ne by done. rewrite Hiff. split.
      * intros (subs & -> & Hin). eexists. split; [done|]. simpl. set_solver.
      * intros (subs & [= <-] & Hin). destruct (clientRooms h !! c) as [subs|]; simpl in *; [|set_solver].
        exists subs. set_solver.
    + by rewrite !lookup_insert_ne by done.
  - intros ch' members [[<- <-]|[_ Hl]]%lookup_insert_Some; [set_solver|by eapply Hfull].
  - intros c' [subs [[<- _]|[_ Hl]]%lookup_insert_Some]; [set_solver|]. apply elem_of_union_l, Hreg. by exists subs.
Qed.

Lemma consistent_subscribe c ch s : consistent (hub s) → consistent (hub (on_subscribe c ch s)).
Proof.
  intros Hs. unfold on_subscribe. assert (consistent (hub (with_hub s (join c ch (hub s))))) as Hj by by apply consistent_join.
  case_match; [apply consistent_send|]; by apply consistent_send.
Qed.

Lemma consistent_unsubscribe c ch s : consistent (hub s) → consistent (hub (on_unsubscribe c ch s)).
Proof.
  intros (Hiff & Hfull & Hreg & Hlast). split_and!; simpl; [|by apply leave_room_full| |done].
  - intros c' ch'. unfold in_room. simpl. rewrite leave_room_in. specialize (Hiff c' ch').
    unfold in_room, lists_room in *. simpl. rewrite Hiff. destruct (decide (c' = c)) as [->|Hne].
    + rewrite lookup_alter_eq. split.
      * intros [(subs & Hl & Hin) Hn]. exists (subs ∖ {[ch]}). rewrite Hl. split; [done|]. set_solver.
      * intros (subs & (subs' & Hl & ->)%fmap_Some & Hin). split; [exists subs'; split; [done|set_solver]|set_solver].
    + rewrite lookup_alter_ne by done. naive_solver.
  - intros c' Hl. apply Hreg. destruct (decide (c' = c)) as [->|Hne].
    + rewrite lookup_alter_eq in Hl. by apply fmap_is_Some in Hl.
    + by rewrite lookup_alter_ne in Hl by done.
Qed.

Lemma foldl_keeps {A} (P : wsState → Prop) (f : wsState → A → wsState) l s :
  (∀ s a, a ∈ l → P s → P (f s a)) → P s → P (foldl f s l).
Proof.
  revert s. induction l as [|a l IH]; intros s Hf Hs; simpl; [done|].
  apply IH; [intros s' a' Ha; apply Hf; by right|]. apply Hf; [left|done].
Qed.

(** The hub after a message was cached. *)
Definition cached (room payload : string) (h : hubState) : hubState :=
  {| clients := clients h; rooms := rooms h; clientRooms := clientRooms h;
     lastMsg := <[room := newDataMsg room payload]> (lastMsg h) |}.

Lemma consistent_cached room payload h : consistent h → consistent (cached room payload h).
Proof.
  intros (Hiff & Hfull & Hreg & Hlast). split_and!; try done. simpl.
  intros ch m [[<- <-]|[_ Hl]]%lookup_insert_Some; [done|by apply Hlast].
Qed.

Lemma hub_trySend c m dropped s : hub (trySend c m dropped s) = hub s.
Proof. unfold trySend. case_match; [done|]. by case_match. Qed.

Lemma consistent_empty : consistent empty_hub.
Proof.
  split_and!; simpl.
  - intros c ch. unfold in_room, lists_room. simpl. split; intros (? & Hl & _); by rewrite lookup_empty in Hl.
  - intros ch members. by rewrite lookup_empty.
  - intros c. rewrite lookup_empty. by intros [? ?].
  - intros ch m. by rewrite lookup_empty.
Qed.

Section consistency.
Context `{MR : MapRange} `{UP : UuidParser}.
Variable maxConnections : Z.

Lemma consistent_broadcast room payload s : consistent (hub s) → consistent (hub (on_broadcast room payload s)).
Proof.
  intros Hs. assert (consistent (hub (with_hub s (cached room payload (hub s))))) as Hc by by apply consistent_cached.
  unfold on_broadcast. case_match; [|done]. apply (foldl_keeps (λ s, consistent (hub s))); [|done].
  intros. by apply consistent_send.
Qed.

Lemma consistent_register c s : consistent (hub s) → consistent (hub (on_register maxConnections c s)).
Proof.
  intros Hs. unfold on_register. case_match; [exact Hs|]. destruct Hs as (Hiff & Hfull & Hreg & Hlast).
  split_and!; try done. simpl. intros c' Hc. apply elem_of_union_l. by apply Hreg.
Qed.

Lemma consistent_move m s s' :
  do_move maxConnections m s = Some s' → consistent (hub (w_state s)) → consistent (hub (w_state s')).
Proof.
  intros Hm Hs. destruct m; unfold do_move in Hm; repeat case_match; simplify_eq; cbn [w_state set_state hub push]; try done.
  - by rewrite hub_trySend.
  - by apply consistent_register.
  - by apply consistent_remove.
  - by apply consistent_subscribe.
  - by apply consistent_unsubscribe.
  - by apply consistent_broadcast.
  - apply (foldl_keeps (λ s, consistent (hub s))); [|done]. intros. by apply consistent_remove.
Qed.

(** The books of the hub agree. Whatever the clients, Redis and the hub do, in
    any order: a room lists a client exactly when the client's own list has the
    room, no room is kept empty, only registered clients are in rooms, and the
    message kept for a room is its data. *)
Theorem hub_consistent s : moves maxConnections fresh_server s → consistent (hub (w_state s)).
Proof.
  apply (moves_keep maxConnections (λ s, consistent (hub (w_state s)))); [|apply consistent_empty].
  intros s1 m s2 H1 Hm. by eapply consistent_move.
Qed.
End consistency.

Section ranged.
Context `{MR : MapRange}.

Lemma ranged_perm x : ranged x ≡ₚ elements x.
Proof.
  unfold ranged. rewrite (go_range_perm (gset_to_gmap tt x)). apply NoDup_Permutation.
  - apply NoDup_fst_map_to_list.
  - apply NoDup_elements.
  - intros c. rewrite elem_of_elements, list_elem_of_fmap. split.
    + intros ([c' []] & -> & Hc%elem_of_map_to_list). by apply lookup_gset_to_gmap_Some in Hc as [? _].
    + intros Hc. exists (c, tt). split; [done|]. apply elem_of_map_to_list. by apply lookup_gset_to_gmap_Some.
Qed.

Lemma elem_of_ranged c x : c ∈ ranged x ↔ c ∈ x.
Proof. by rewrite ranged_perm, elem_of_elements. Qed.

Lemma NoDup_ranged x : NoDup (ranged x).
Proof. rewrite ranged_perm. apply NoDup_elements. Qed.
End ranged.

(** ** Who is sent what *)

Section approval.
Context `{MR : MapRange} `{UP : UuidParser}.
Variable maxConnections : Z.

(** [ch] is a channel, and the permission engine has said that the user of [c] may
    see it, where it has to be asked. *)
Definition approved (c : cid) (ch : string) (l : list wevent) : Prop :=
  ValidateChannel ch = true ∧
  match channel_gate ch with
  | Open => True
  | Closed => False
  | Asks q => Answered c q true ∈ l
  end.

Definition data_of (m : OutgoingMessage) (c : cid) (l : list wevent) : Prop :=
  om_Type m = MsgTypeData → approved c (om_Channel m) l.

Definition rooms_approved (l : list wevent) (s : wsState) : Prop :=
  (∀ c ch, in_room c ch (hub s) → approved c ch l) ∧ ∀ c m, m ∈ buffer c s → data_of m c l.

Lemma approved_more c ch l l' : (∀ e, e ∈ l → e ∈ l') → approved c ch l → approved c ch l'.
Proof. intros Hl [Hv Ha]. split; [done|]. case_match; auto. Qed.

Lemma rooms_approved_more l l' s : (∀ e, e ∈ l → e ∈ l') → rooms_approved l s → rooms_approved l' s.
Proof.
  intros Hl [Hr Hb]. split; [intros; by eapply approved_more, Hr|].
  intros c m Hm Ht. eapply approved_more, Hb; done.
Qed.

Lemma in_room_removed c c' ch s : in_room c' ch (hub (removeClient c s)) → in_room c' ch (hub s).
Proof.
  unfold removeClient. case_bool_decide; [|done]. intros Hin.
  apply (proj1 (leave_rooms_in c _ (rooms (hub s)) ch c')) in Hin. by destruct Hin.
Qed.

Lemma buffer_removed c s : sends (removeClient c s) = sends s.
Proof. unfold removeClient. by case_bool_decide. Qed.

Lemma approved_remove l c s : rooms_approved l s → rooms_approved l (removeClient c s).
Proof.
  intros [Hr Hb]. split; [intros c' ch Hin; by eapply Hr, in_room_removed|].
  intros c' m. unfold buffer. rewrite buffer_removed. apply Hb.
Qed.

Lemma buffer_push c m c' s : buffer c' (push c m s) = if decide (c' = c) then buffer c s ++ [m] else buffer c' s.
Proof.
  unfold buffer at 1. simpl. case_decide as Hc; [subst; by rewrite lookup_insert_eq|by rewrite lookup_insert_ne].
Qed.

Lemma approved_push l c m s : rooms_approved l s → data_of m c l → rooms_approved l (push c m s).
Proof.
  intros [Hr Hb] Hm. split; [done|]. intros c' m'. rewrite buffer_push. case_decide; [subst|apply Hb].
  intros [?| ->%list_elem_of_singleton]%elem_of_app; [by apply Hb|done].
Qed.

Lemma approved_send l c m s : rooms_approved l s → data_of m c l → rooms_approved l (trySendOrEvict c m s).
Proof.
  intros Hs Hm. unfold trySendOrEvict. case_bool_decide; [|done].
  destruct (Nat.ltb _ _); [by apply approved_push|by apply approved_remove].
Qed.

Lemma approved_subscribe l c ch s :
  consistent (hub s) → rooms_approved l s → approved c ch l → rooms_approved l (on_subscribe c ch s).
Proof.
  intros Hc Hs Ha. unfold on_subscribe.
  assert (rooms_approved l (with_hub s (join c ch (hub s)))) as Hj.
  { destruct Hs as [Hr Hb]. split; [|done]. intros c' ch' (members & Hl & Hin). simpl in Hl.
    apply lookup_insert_Some in Hl as [[<- <-]|[_ Hl]]; [|by apply Hr; exists members].
    apply elem_of_union in Hin as [Hin| ->%elem_of_singleton]; [|done]. apply Hr.
    destruct (rooms (hub s) !! ch) as [members|] eqn:Hm; [by exists members|set_solver]. }
  assert (rooms_approved l (trySendOrEvict c (newSubscribedMsg ch) (with_hub s (join c ch (hub s))))) as H1
    by by apply approved_send.
  assert (consistent (hub (trySendOrEvict c (newSubscribedMsg ch) (with_hub s (join c ch (hub s)))))) as (_ & _ & _ & Hlast)
    by by apply consistent_send, consistent_join.
  case_match eqn:Hm; [|done]. apply approved_send; [done|]. intros _. apply Hlast in Hm as [_ ->]. done.
Qed.

Lemma approved_unsubscribe l c ch s : rooms_approved l s → rooms_approved l (on_unsubscribe c ch s).
Proof.
  intros [Hr Hb]. split; [|done]. intros c' ch' Hin. apply Hr.
  apply (proj1 (leave_room_in c ch (rooms (hub s)) ch' c')) in Hin. by destruct Hin.
Qed.

Lemma approved_broadcast l room payload s : rooms_approved l s → rooms_approved l (on_broadcast room payload s).
Proof.
  intros Hs. unfold on_broadcast. case_match eqn:Hm; [|done].
  apply (foldl_keeps (rooms_approved l)); [|done]. intros s' c Hc Hs'. apply approved_send; [done|]. intros _.
  apply elem_of_ranged in Hc. destruct Hs as [Hr _]. apply Hr. by eexists.
Qed.

Lemma approved_stop l s : rooms_approved l s → rooms_approved l (on_stop s).
Proof. intros Hs. apply (foldl_keeps (rooms_approved l)); [|done]. intros. by apply approved_remove. Qed.

(** ** The invariant *)

Definition wrote_ok (e : wevent) (earlier : list wevent) : Prop :=
  match e with Wrote c m => data_of m c earlier | _ => True end.

Definition WInv (s : WSys) : Prop :=
  consistent (hub (w_state s)) ∧ rooms_approved (w_log s) (w_state s) ∧
  (∀ c ch, (c, ch) ∈ q_subscribe s → approved c ch (w_log s)) ∧ ForallTail wrote_ok (w_log s).

Lemma asked_approved c ch check l :
  ValidateChannel ch = true → canSubscribe check ch = true → approved c ch (asked c ch check ++ l).
Proof.
  intros Hv. split; [done|]. revert H. unfold canSubscribe, asked. destruct (channel_gate ch); [done|done|]. destruct check as [check|]; [|done].
  intros ->. left.
Qed.

Lemma asked_more c ch check l : ForallTail wrote_ok l → ForallTail wrote_ok (asked c ch check ++ l).
Proof. intros Hl. unfold asked. destruct (channel_gate ch), check; done. Qed.

Lemma own_reply_data m c l : own_reply m = true → data_of m c l.
Proof.
  unfold own_reply, data_of. intros Ho Ht. rewrite Ht in Ho. done.
Qed.

Lemma approved_trySend l c m dropped s : rooms_approved l s → data_of m c l → rooms_approved l (trySend c m dropped s).
Proof. intros Hs Hm. unfold trySend. case_match; [done|]. case_match; [by apply approved_push|done]. Qed.

Lemma approved_register l c s : rooms_approved l s → rooms_approved l (on_register maxConnections c s).
Proof. intros Hs. unfold on_register. by case_match. Qed.

Lemma WInv_move m s s' : WInv s → do_move maxConnections m s = Some s' → WInv s'.
Proof.
  intros (Hc & Ha & Hq & Hl) Hm. pose proof (consistent_move _ _ _ _ Hm Hc) as Hc'.
  destruct m; unfold do_move in Hm; repeat case_match; simplify_eq; (split; [done|]); cbn [w_state set_state w_log q_subscribe];
    try (split_and!; done).
  - assert (∀ e, e ∈ w_log s → e ∈ asked c channel check ++ w_log s) as Hmore by (intros; apply elem_of_app; by right).
    split_and!; [by eapply rooms_approved_more| |by apply asked_more].
    intros c' ch [Hin|[= -> ->]%list_elem_of_singleton]%elem_of_app; [by eapply approved_more, Hq|].
    apply asked_approved; [by apply negb_false_iff|done].
  - assert (∀ e, e ∈ w_log s → e ∈ asked c channel check ++ w_log s) as Hmore by (intros; apply elem_of_app; by right).
    split_and!; [by eapply rooms_approved_more| |by apply asked_more]. intros c' ch Hin. by eapply approved_more, Hq.
  - apply orb_false_iff in H as [_ Ho%negb_false_iff].
    split_and!; [by apply approved_trySend, own_reply_data|done..].
  - assert (∀ e, e ∈ w_log s → e ∈ Received channel payload :: w_log s) as Hmore by (intros; by right).
    split_and!; [by eapply rooms_approved_more|intros c ch Hin; by eapply approved_more, Hq|by split].
  - split_and!; [by apply approved_register|done..].
  - split_and!; [by apply approved_remove|done..].
  - split_and!; [|intros c' ch Hin; apply Hq; by right|done]. apply approved_subscribe; [done..|]. apply Hq. left.
  - split_and!; [by apply approved_unsubscribe|done..].
  - split_and!; [by apply approved_broadcast|done..].
  - split_and!; [by apply approved_stop|done..].
  - destruct Ha as [Hr Hb]. assert (∀ e, e ∈ w_log s → e ∈ Wrote c o :: w_log s) as Hmore by (intros; by right).
    assert (data_of o c (w_log s)) as Ho by (apply Hb; rewrite H; left).
    split_and!; [|intros c' ch Hin; by eapply approved_more, Hq|by split].
    split; [intros c' ch Hin; by eapply approved_more, Hr|]. intros c' m'. unfold buffer at 1. cbn [sends].
    destruct (decide (c' = c)) as [->|Hne]; [rewrite lookup_insert_eq|rewrite lookup_insert_ne by done]; cbn [default].
    + intros Hin Ht. eapply approved_more, (Hb c m'); [done| |done]. rewrite H. by right.
    + intros Hin Ht. by eapply approved_more, (Hb c' m').
Qed.

Lemma WInv_fresh : WInv fresh_server.
Proof.
  split_and!; [apply consistent_empty| |intros c ch Hin; by apply elem_of_nil in Hin|done]. split.
  - intros c ch (members & Hl & _). cbn [fresh_server w_state hub empty_hub rooms] in Hl. by rewrite lookup_empty in Hl.
  - intros c m Hin. unfold buffer in Hin. cbn [fresh_server w_state sends] in Hin. rewrite lookup_empty in Hin.
    by apply elem_of_nil in Hin.
Qed.

Lemma wrote_approved s newer older c m :
  moves maxConnections fresh_server s → w_log s = newer ++ Wrote c m :: older → om_Type m = MsgTypeData →
  approved c (om_Channel m) older.
Proof.
  intros Hm Hlog Ht. assert (WInv s) as (_ & _ & _ & Hl).
  { apply (moves_keep maxConnections WInv fresh_server); [|apply WInv_fresh|done]. intros. by eapply WInv_move. }
  rewrite Hlog in Hl. by apply (ForallTail_at _ _ _ _ Hl).
Qed.

(** The question a channel takes, spelled out. *)
Lemma approved_spelled c ch l :
  approved c ch l →
  ch = SystemEventsChannel ∨
  (ch = SystemAuditChannel ∧
   Answered c {| q_Action := "view"; q_Resource := "audit"; q_ScopeType := "global"; q_ScopeID := 0 |} true ∈ l) ∨
  ∃ id kind u, ch = "cluster:" +:+ id +:+ ":" +:+ kind ∧ kind ∈ channelKinds ∧ is_uuid id = true ∧ parse_uuid id = Some u ∧
    Answered c {| q_Action := "view"; q_Resource := if bool_decide (kind = "audit") then "audit" else "cluster";
                  q_ScopeType := "cluster"; q_ScopeID := u |} true ∈ l.
Proof.
  intros [Hv Ha]. destruct (valid_channel ch Hv) as [->|[->|(id & kind & -> & Hid & Hk & Hc)]]; [left; reflexivity|right; left; split; [reflexivity|exact Ha]|].
  right; right. rewrite gate_cluster in Ha by done. destruct (parse_uuid id) as [u|] eqn:Hu; [|done].
  by exists id, kind, u.
Qed.

(** Nobody is sent the data of a room without having been allowed to see it.
    Whatever the clients, Redis and the hub do, in any order, a data message that
    was written to a client was written after the permission engine had said yes,
    for the user of that very client: to view the cluster the room is of, or its
    audit log where the room carries that, or the global audit log; only
    [system:events] takes no question. The message kept for a room and sent to
    whoever joins it later is covered too. *)
Theorem only_approved_receive s newer older c m :
  moves maxConnections fresh_server s →
  w_log s = newer ++ Wrote c m :: older →
  om_Type m = MsgTypeData →
  om_Channel m = SystemEventsChannel ∨
  (om_Channel m = SystemAuditChannel ∧
   Answered c {| q_Action := "view"; q_Resource := "audit"; q_ScopeType := "global"; q_ScopeID := 0 |} true ∈ older) ∨
  ∃ id kind u, om_Channel m = "cluster:" +:+ id +:+ ":" +:+ kind ∧ kind ∈ channelKinds ∧ is_uuid id = true ∧
    parse_uuid id = Some u ∧
    Answered c {| q_Action := "view"; q_Resource := if bool_decide (kind = "audit") then "audit" else "cluster";
                  q_ScopeType := "cluster"; q_ScopeID := u |} true ∈ older.
Proof.
  intros Hm Hlog Ht. by eapply approved_spelled, wrote_approved.
Qed.
End approval.

(** ** What a message to a room does *)

(** [c] sees no difference between the two states. *)
Definition same_for (c : cid) (s s' : wsState) : Prop :=
  buffer c s' = buffer c s ∧ (c ∈ clients (hub s') ↔ c ∈ clients (hub s)) ∧ (c ∈ closing s' ↔ c ∈ closing s) ∧
  ∀ ch, in_room c ch (hub s') ↔ in_room c ch (hub s).

(** [c] was sent [m]: it is at the end of its buffer, or, the buffer being full, [c]
    was put out of the hub and told to close. *)
Definition sent_or_out (c : cid) (m : OutgoingMessage) (s s' : wsState) : Prop :=
  (length (buffer c s) < clientSendBuffer ∧ buffer c s' = buffer c s ++ [m] ∧ c ∈ clients (hub s')) ∨
  (clientSendBuffer ≤ length (buffer c s) ∧ buffer c s' = buffer c s ∧ (c ∉ clients (hub s')) ∧ c ∈ closing s' ∧
   ∀ ch, ¬ in_room c ch (hub s')).

#[export] Instance same_for_preorder c : PreOrder (same_for c).
Proof.
  split; [intros s; by split_and!|]. intros s1 s2 s3 (Hb & Hc & Hd & Hr) (Hb' & Hc' & Hd' & Hr').
  split_and!; [by rewrite Hb'|by rewrite Hc'|by rewrite Hd'|intros ch; by rewrite Hr'].
Qed.

Lemma remove_same c c' s : c' ≠ c → same_for c' s (removeClient c s).
Proof.
  intros Hne. unfold removeClient. case_bool_decide; [|reflexivity]. split_and!; [done|simpl; set_solver..|].
  intros ch. etransitivity; [apply (leave_rooms_in c _ (rooms (hub s)) ch c')|]. unfold in_room. naive_solver.
Qed.

Lemma send_same c c' m s : c' ≠ c → same_for c' s (trySendOrEvict c m s).
Proof.
  intros Hne. unfold trySendOrEvict. case_bool_decide; [|reflexivity].
  destruct (Nat.ltb _ _); [|by apply remove_same]. split_and!; [|done..]. rewrite buffer_push. by rewrite decide_False.
Qed.

(** Where the books agree, a client that is put out is out of every room. *)
Lemma remove_out c s : consistent (hub s) → c ∈ clients (hub s) →
  let s' := removeClient c s in
  buffer c s' = buffer c s ∧ (c ∉ clients (hub s')) ∧ c ∈ closing s' ∧ ∀ ch, ¬ in_room c ch (hub s').
Proof.
  intros (Hiff & _) Hc s'. subst s'. unfold removeClient. rewrite bool_decide_true by done.
  split_and!; [done|simpl; set_solver..|]. intros ch Hin.
  apply (proj1 (leave_rooms_in c _ (rooms (hub s)) ch c)) in Hin as [Hin Hn]. apply Hn. split; [done|].
  by apply lists_elements, Hiff.
Qed.

Lemma send_spec c m s : consistent (hub s) → c ∈ clients (hub s) → sent_or_out c m s (trySendOrEvict c m s).
Proof.
  intros Hs Hc. unfold trySendOrEvict. rewrite bool_decide_true by done. destruct (Nat.ltb_spec (length (buffer c s)) clientSendBuffer).
  - left. split_and!; [done| |done]. rewrite buffer_push. by rewrite decide_True.
  - right. split; [done|]. by apply remove_out.
Qed.

(** To each of [l] in turn. *)
Lemma send_each m l s c :
  consistent (hub s) → NoDup l → (∀ c, c ∈ l → c ∈ clients (hub s)) →
  let s' := foldl (λ s c, trySendOrEvict c m s) s l in
  (c ∈ l → sent_or_out c m s s') ∧ (c ∉ l → same_for c s s').
Proof.
  revert s. induction l as [|c' l IH]; intros s Hs Hd Hl; simpl.
  { split; [by intros ?%elem_of_nil|reflexivity]. }
  apply NoDup_cons in Hd as [Hn Hd]. assert (∀ a, a ∈ l → a ∈ clients (hub (trySendOrEvict c' m s))) as Hl'.
  { intros a Ha. assert (a ≠ c') as Hne by (by intros ->). apply (send_same c' a m s Hne). apply Hl. by right. }
  specialize (IH _ (consistent_send c' m s Hs) Hd Hl') as [Hin Hout]. split.
  - intros [->|Hc]%elem_of_cons.
    + specialize (Hout Hn) as (Hb & Hcl & Hcg & Hr). assert (c' ∈ clients (hub s)) as Hc' by (apply Hl; left).
      destruct (send_spec c' m s Hs Hc') as [(Hlt & Hb' & Hcl')|(Hge & Hb' & Hcl' & Hcg' & Hr')].
      * left. rewrite Hb, Hcl. done.
      * right. rewrite Hb, Hcl, Hcg. split_and!; [done..|]. intros ch. by rewrite Hr.
    + assert (c ≠ c') as Hne by (by intros ->). destruct (send_same c' c m s Hne) as (Hb & _).
      specialize (Hin Hc). unfold sent_or_out in *. by rewrite Hb in Hin.
  - intros [Hne Hc]%not_elem_of_cons. etransitivity; [by apply send_same|by apply Hout].
Qed.

Section gaps.
Context `{MR : MapRange} `{UP : UuidParser}.
Variable maxConnections : Z.

Lemma in_room_registered c ch h : consistent h → in_room c ch h → c ∈ clients h.
Proof. intros (Hiff & _ & Hreg & _) Hin. apply Hreg. apply Hiff in Hin as (subs & Hl & _). by exists subs. Qed.

(** No client misses a message and stays. In any state the server can be in,
    when the hub takes a message for a room, each client in the room finds it at the
    end of its buffer, after all it had before; only a client whose buffer of 256 is
    full does not, and that client is taken out of the hub and every room and told
    to close. Every other client is left as it was, and whoever joins the room
    next is sent this message. *)
Theorem no_silent_gap s s' room payload rest :
  moves maxConnections fresh_server s →
  q_broadcast s = (room, payload) :: rest →
  do_move maxConnections HubBroadcast s = Some s' →
  (∀ c, in_room c room (hub (w_state s)) → sent_or_out c (newDataMsg room payload) (w_state s) (w_state s')) ∧
  (∀ c, ¬ in_room c room (hub (w_state s)) → same_for c (w_state s) (w_state s')) ∧
  lastMsg (hub (w_state s')) !! room = Some (newDataMsg room payload).
Proof.
  intros Hm Hq Hs'. assert (consistent (hub (w_state s))) as Hc.
  { apply (moves_keep maxConnections (λ s, consistent (hub (w_state s))) fresh_server); [|apply consistent_empty|done].
    intros s1 m s2 H1 Hmv. by eapply consistent_move. }
  unfold do_move in Hs'. rewrite Hq in Hs'. destruct (stopped s); [done|]. injection Hs' as <-. cbn [w_state].
  pose proof (consistent_cached room payload _ Hc) as Hk. unfold on_broadcast. fold (cached room payload (hub (w_state s))).
  destruct (rooms (hub (w_state s)) !! room) as [members|] eqn:Hr.
  - assert (∀ c, in_room c room (hub (w_state s)) ↔ c ∈ ranged members) as Hin.
    { intros c. rewrite elem_of_ranged. split; [by intros (? & ? & ?); simplify_eq|by exists members]. }
    assert (∀ c, c ∈ ranged members → c ∈ clients (cached room payload (hub (w_state s)))) as Hreg.
    { intros c Hcm%Hin. by eapply in_room_registered in Hcm. }
    pose proof (send_each (newDataMsg room payload) (ranged members) (with_hub (w_state s) (cached room payload (hub (w_state s)))))
      as Hsend.
    split_and!; [intros c Hcm; rewrite Hin in Hcm..|].
    + by apply Hsend; [|apply NoDup_ranged| |].
    + by apply Hsend; [|apply NoDup_ranged| |].
    + apply (foldl_keeps (λ s, lastMsg (hub s) !! room = Some (newDataMsg room payload))); [|apply lookup_insert_eq].
      intros s' c _ Hl. unfold trySendOrEvict, removeClient. by repeat case_match.
  - split_and!; [intros c (members & Hl & _); congruence|intros c _; by split_and!|apply lookup_insert_eq].
Qed.
End gaps.

(** ** Clients that are gone *)

Section leaks.
Context `{MR : MapRange} `{UP : UuidParser}.
Variable maxConnections : Z.

(** [c] is still registered and still in no room. *)
Definition idle (c : cid) (st : wsState) : Prop := c ∈ clients (hub st) ∧ ∀ ch, ¬ in_room c ch (hub st).

(** [c] has left and the hub still has it, with nothing pending that would take it
    out. *)
Definition leaked (c : cid) (s : WSys) : Prop :=
  idle c (w_state s) ∧ c ∈ known s ∧ (c ∉ connected s) ∧ (c ∉ q_unregister s) ∧
  (∀ ch, (c, ch) ∉ q_subscribe s) ∧ consistent (hub (w_state s)).

(** What one of the cases of [run] does to [c], where it is about another client. *)
Lemma subscribe_same c c' ch s : c' ≠ c → same_for c' s (on_subscribe c ch s).
Proof.
  intros Hne. assert (same_for c' s (with_hub s (join c ch (hub s)))) as Hj.
  { split_and!; [done|simpl; set_solver|done|]. intros ch'. unfold in_room. simpl.
    destruct (decide (ch' = ch)) as [->|Hch]; [rewrite lookup_insert_eq|by rewrite lookup_insert_ne].
    split.
    - intros (members & [= <-] & [Hin| ->%elem_of_singleton]%elem_of_union); [|done].
      destruct (rooms (hub s) !! ch) as [members|]; [by exists members|set_solver].
    - intros (members & -> & Hin). eexists. split; [done|]. simpl. set_solver. }
  unfold on_subscribe. etransitivity; [exact Hj|]. etransitivity; [by apply (send_same c c' (newSubscribedMsg ch))|].
  case_match; [by apply send_same|reflexivity].
Qed.

Lemma in_room_unsubscribed c ch c' ch' s : in_room c' ch' (hub (on_unsubscribe c ch s)) → in_room c' ch' (hub s).
Proof. intros Hin. by apply (proj1 (leave_room_in c ch (rooms (hub s)) ch' c')) in Hin as [? _]. Qed.

Lemma broadcast_same c room payload s : consistent (hub s) → ¬ in_room c room (hub s) → same_for c s (on_broadcast room payload s).
Proof.
  intros Hc Hn. unfold on_broadcast. case_match eqn:Hr; [|unfold same_for; by split_and!].
  apply (foldl_keeps (same_for c s)); [|unfold same_for; by split_and!]. intros s' c' Hc' Hs. etransitivity; [exact Hs|].
  apply send_same. intros <-. apply Hn. apply elem_of_ranged in Hc'. by eexists.
Qed.

Lemma idle_same c st st' : same_for c st st' → idle c st → idle c st'.
Proof. intros (_ & Hcl & _ & Hr) [Hc Hn]. split; [by apply Hcl|]. intros ch. by rewrite Hr. Qed.

Lemma idle_register c c' st : idle c st → idle c (on_register maxConnections c' st).
Proof. intros [Hc Hn]. unfold on_register. case_match; [done|]. split; [simpl; by apply elem_of_union_l|done]. Qed.

Lemma idle_unsubscribe c c' ch st : idle c st → idle c (on_unsubscribe c' ch st).
Proof. intros [Hc Hn]. split; [done|]. intros ch' Hin. by eapply Hn, in_room_unsubscribed. Qed.

(** Such a client is kept for as long as the hub runs. *)
Lemma leaked_move c m s s' : do_move maxConnections m s = Some s' → m ≠ HubStop → leaked c s → leaked c s'.
Proof.
  intros Hm Hst (Hi & Hk & Hcn & Hun & Hsub & Hcons). pose proof (consistent_move _ _ _ _ Hm Hcons) as Hcons'.
  destruct m; unfold do_move in Hm; repeat case_match; simplify_eq;
    repeat match goal with H : _ || _ = false |- _ => apply orb_false_iff in H as [? ?]
      | H : negb (bool_decide _) = false |- _ => apply negb_false_iff, bool_decide_eq_true in H
      | H : bool_decide _ = false |- _ => apply bool_decide_eq_false in H end;
    (split_and!; cbn [w_state set_state known connected q_unregister q_subscribe] in *; try done).
  - by apply elem_of_union_l.
  - intros [?| ->%elem_of_singleton]%elem_of_union; done.
  - intros ch [Hin|[= <- <-]%list_elem_of_singleton]%elem_of_app; [by eapply Hsub|done].
  - unfold idle. by rewrite hub_trySend.
  - by intros [? _]%elem_of_difference.
  - intros [?| ->%list_elem_of_singleton]%elem_of_app; done.
  - by apply idle_register.
  - apply (idle_same c (w_state s)); [|done]. apply remove_same. intros ->. apply Hun. left.
  - intros Hin. apply Hun. by right.
  - apply (idle_same c (w_state s)); [|done]. apply subscribe_same. intros ->. apply (Hsub s0). left.
  - intros ch Hin. apply (Hsub ch). by right.
  - by apply idle_unsubscribe.
  - apply (idle_same c (w_state s)); [|done]. apply broadcast_same; [done|]. apply Hi.
Qed.

(** A client that has left and was not taken out is counted until the server
    stops. *)
Theorem leaked_for_good c s s' :
  leaked c s → rtc (λ a b, ∃ m, m ≠ HubStop ∧ do_move maxConnections m a = Some b) s s' → c ∈ clients (hub (w_state s')).
Proof.
  intros Hl Hr. enough (leaked c s') as [[? _] _] by done.
  induction Hr as [|s1 s2 s3 (m & Hm & Hs) _ IH]; [done|]. apply IH. by eapply leaked_move.
Qed.
End leaks.

(** ** Histories *)

Module WsCase.
#[local] Instance case_range : MapRange := map_to_list_range.

(** A parser for the one id that is used here. *)
#[local] Instance case_uuid : UuidParser :=
  λ s, if bool_decide (s = "0f1e2d3c-4b5a-6978-8796-a5b4c3d2e1f0") then Some 7%Z else None.

Definition room : string := "cluster:0f1e2d3c-4b5a-6978-8796-a5b4c3d2e1f0:events".

(** The engine says yes to viewing cluster 7, and to nothing else. *)
Definition may_view (q : Question) : option bool := Some (bool_decide (q_Resource q = "cluster") && (q_ScopeID q =? 7)%Z).

Definition subscribe (channel : string) : IncomingMessage := {| im_Type := MsgTypeSubscribe; im_Channels := [channel] |}.

(** One client subscribes, and a message arrives. *)
Definition joined : list wmove :=
  [Connect 1; HubRegister] ++ handleMessage 1 (λ _, Some may_view) (subscribe room) ++
  [HubSubscribe; FromRedis "nexara:events:0f1e2d3c-4b5a-6978-8796-a5b4c3d2e1f0" "{}" true].

(** It is written, after the note that the room was joined. *)
Definition served : list wmove := joined ++ [HubBroadcast; Write 1; Write 1].

Definition after (n : Z) (ms : list wmove) : WSys := default fresh_server (play n ms fresh_server).

Definition possible (n : Z) (ms : list wmove) : bool := match play n ms fresh_server with Some _ => true | None => false end.

Lemma after_moves n ms : possible n ms = true → moves n fresh_server (after n ms).
Proof. unfold possible, after. destruct (play n ms fresh_server) as [s|] eqn:Hp; [|done]. intros _. by eapply play_moves. Qed.

Lemma hub_consistent_witness : moves 0 fresh_server (after 0 served) ∧ consistent (hub (w_state (after 0 served))).
Proof.
  assert (moves 0 fresh_server (after 0 served)) as Hm by (apply after_moves; by vm_compute).
  split; [exact Hm|]. by apply (hub_consistent 0).
Defined.

Definition question : Question := {| q_Action := "view"; q_Resource := "cluster"; q_ScopeType := "cluster"; q_ScopeID := 7 |}.

Definition received : wevent := Received "nexara:events:0f1e2d3c-4b5a-6978-8796-a5b4c3d2e1f0" "{}".

Lemma only_approved_receive_witness :
  w_log (after 0 served) = [Wrote 1 (newDataMsg room "{}"); Wrote 1 (newSubscribedMsg room); received; Answered 1 question true] ∧
  (room = SystemEventsChannel ∨
   (room = SystemAuditChannel ∧
    Answered 1 {| q_Action := "view"; q_Resource := "audit"; q_ScopeType := "global"; q_ScopeID := 0 |} true
      ∈ [Wrote 1 (newSubscribedMsg room); received; Answered 1 question true]) ∨
   ∃ id kind u, room = "cluster:" +:+ id +:+ ":" +:+ kind ∧ kind ∈ channelKinds ∧ is_uuid id = true ∧
     parse_uuid id = Some u ∧
     Answered 1 {| q_Action := "view"; q_Resource := if bool_decide (kind = "audit") then "audit" else "cluster";
                   q_ScopeType := "cluster"; q_ScopeID := u |} true
       ∈ [Wrote 1 (newSubscribedMsg room); received; Answered 1 question true]).
Proof.
  assert (w_log (after 0 served) = [Wrote 1 (newDataMsg room "{}"); Wrote 1 (newSubscribedMsg room); received; Answered 1 question true]) as Hl
    by by vm_compute.
  split; [exact Hl|].
  apply (only_approved_receive 0 (after 0 served) [] _ 1 (newDataMsg room "{}")); [apply after_moves; by vm_compute|exact Hl|done].
Defined.

Lemma no_silent_gap_witness :
  ∃ s', do_move 0 HubBroadcast (after 0 joined) = Some s' ∧
  (∀ c, in_room c room (hub (w_state (after 0 joined))) → sent_or_out c (newDataMsg room "{}") (w_state (after 0 joined)) (w_state s')) ∧
  (∀ c, ¬ in_room c room (hub (w_state (after 0 joined))) → same_for c (w_state (after 0 joined)) (w_state s')) ∧
  lastMsg (hub (w_state s')) !! room = Some (newDataMsg room "{}").
Proof.
  destruct (do_move 0 HubBroadcast (after 0 joined)) as [s'|] eqn:Hs.
  - exists s'. split; [reflexivity|]. apply (no_silent_gap 0 (after 0 joined) s' room "{}" []); [|by vm_compute|exact Hs].
    apply after_moves. by vm_compute.
  - exfalso. enough (match do_move 0 HubBroadcast (after 0 joined) with Some _ => true | None => false end = true) as He by by rewrite Hs in He.
    by vm_compute.
Defined.

(** The client is in the room there. *)
Example one_in_room : bool_decide (1 ∈ default ∅ (rooms (hub (w_state (after 0 joined))) !! room)) = true.
Proof. by vm_compute. Qed.

(** A client that leaves at once: the hub takes what was queued for it out of
    order, its end before its start, and keeps it; with a limit of one nobody else
    is let in. *)
Definition left_first : list wmove := [Connect 1; Leave 1; HubUnregister; HubRegister; Connect 2; HubRegister].

Example connection_leaked :
  possible 1 left_first = true ∧ leaked 1 (after 1 left_first) ∧
  bool_decide (2 ∈ clients (hub (w_state (after 1 left_first)))) = false ∧
  bool_decide (2 ∈ closing (w_state (after 1 left_first))) = true.
Proof.
  split; [by vm_compute|]. split; [|split; by vm_compute].
  assert (consistent (hub (w_state (after 1 left_first)))) as Hc.
  { apply (moves_keep 1 (λ s, consistent (hub (w_state s))) fresh_server); [|apply consistent_empty|].
    - intros s m s' Hs Hm. by eapply consistent_move.
    - apply after_moves. by vm_compute. }
  unfold leaked. split_and!; [|by apply (bool_decide_unpack _); vm_compute|..|exact Hc].
  - split; [by apply (bool_decide_unpack _); vm_compute|]. intros ch (members & Hl & _).
    replace (rooms (hub (w_state (after 1 left_first)))) with (∅ : gmap string (gset cid)) in Hl by by vm_compute.
    by rewrite lookup_empty in Hl.
  - by apply (bool_decide_unpack _); vm_compute.
  - by apply (bool_decide_unpack _); vm_compute.
  - intros ch. replace (q_subscribe (after 1 left_first)) with ([] : list (cid * string)) by by vm_compute. apply not_elem_of_nil.
Qed.

(** A client that was refused for the limit is let in by its first subscription. *)
Definition refused_joins : list wmove :=
  [Connect 1; HubRegister; Connect 2; HubRegister] ++ handleMessage 2 (λ _, None) (subscribe SystemEventsChannel) ++ [HubSubscribe].

Example limit_passed :
  possible 1 refused_joins = true ∧ size (clients (hub (w_state (after 1 refused_joins)))) = 2 ∧
  bool_decide (2 ∈ closing (w_state (after 1 refused_joins))) = true.
Proof. split_and!; by vm_compute. Qed.
End WsCase.
