(* ===== verification/WsEvents.v ===== *)
(** * Events, from publication to the browser

    [events/publisher.go]: which Redis channel an event is published on, and with
    the hub ([WsHub]) who can be sent it.

    - [events_confined]: an event is written only to clients whose user was allowed
      to see the log it belongs to.

    The payload of a message is the text the event is marshalled to; [made_from] is
    the event that a text was made from, if it was. *)

From S2P Require Import Prelude GoStrings Effects WsMessage WsHub.

Definition KindAuditEntry : string := "audit_entry".

Record Event := {
  ev_Kind : string; ev_ClusterID : string; ev_ResourceType : string; ev_ResourceID : string; ev_Action : string;
  ev_Error : string; ev_Timestamp : string }.

(** [uuid.Nil.String()] *)
Definition nil_uuid : string := "00000000-0000-0000-0000-000000000000".

(** The cluster an event is of; the nil id is no cluster. *)
Definition cluster_of (e : Event) : string := if bool_decide (ev_ClusterID e = nil_uuid) then "" else ev_ClusterID e.

Definition is_audit (e : Event) : bool := bool_decide (ev_Kind e = KindAuditEntry).

Definition publishChannel (e : Event) : string :=
  let clusterID := cluster_of e in
  if negb (bool_decide (clusterID = "")) && is_audit e then "nexara:audit:" +:+ clusterID
  else if negb (bool_decide (clusterID = "")) then "nexara:events:" +:+ clusterID
  else if is_audit e then SystemAuditRedisChannel
  else SystemRedisChannel.

Definition maxEventErrorLength : nat := 512.

Definition ClusterEvent (clusterID kind resourceType resourceID action : string) : Event := {|
  ev_Kind := kind; ev_ClusterID := clusterID; ev_ResourceType := resourceType; ev_ResourceID := resourceID;
  ev_Action := action; ev_Error := ""; ev_Timestamp := "" |}.

Definition ClusterEventWithError (clusterID kind resourceType resourceID action errMsg : string) : Event := {|
  ev_Kind := kind; ev_ClusterID := clusterID; ev_ResourceType := resourceType; ev_ResourceID := resourceID;
  ev_Action := action;
  ev_Error := if Nat.ltb maxEventErrorLength (slen errMsg) then (String.substring 0 maxEventErrorLength errMsg) +:+ "..." else errMsg;
  ev_Timestamp := "" |}.

Definition SystemEvent (kind action : string) : Event := {|
  ev_Kind := kind; ev_ClusterID := ""; ev_ResourceType := ""; ev_ResourceID := ""; ev_Action := action; ev_Error := "";
  ev_Timestamp := "" |}.

(** [Publish]: the channel and the text, where there is a client; [now] is the time. *)
Definition Publish (marshal : Event → option string) (now : string) (connected : bool) (e : Event) : option (string * string) :=
  if negb connected then None
  else
    let e := if bool_decide (ev_Timestamp e = "") then
               {| ev_Kind := ev_Kind e; ev_ClusterID := ev_ClusterID e; ev_ResourceType := ev_ResourceType e;
                  ev_ResourceID := ev_ResourceID e; ev_Action := ev_Action e; ev_Error := ev_Error e; ev_Timestamp := now |}
             else e in
    data ← marshal e; Some (publishChannel e, data).

(** ** Where a message came from *)

(** A room's message came from Redis, on the channel of that room. *)
Definition fed (l : list wevent) (room payload : string) : Prop :=
  ∃ r, Received r payload ∈ l ∧ RedisChannelToClient r = Ok room.

Definition msg_fed (l : list wevent) (m : OutgoingMessage) : Prop :=
  om_Type m = MsgTypeData → fed l (om_Channel m) (om_Payload m).

Definition all_fed (l : list wevent) (s : wsState) : Prop :=
  (∀ ch m, lastMsg (hub s) !! ch = Some m → msg_fed l m) ∧ ∀ c m, m ∈ buffer c s → msg_fed l m.

Lemma msg_fed_more l l' m : (∀ e, e ∈ l → e ∈ l') → msg_fed l m → msg_fed l' m.
Proof. intros Hl Hm Ht. destruct (Hm Ht) as (r & Hr & Hc). exists r. auto. Qed.

Lemma all_fed_more l l' s : (∀ e, e ∈ l → e ∈ l') → all_fed l s → all_fed l' s.
Proof. intros Hl [Hm Hb]. split; intros; eapply msg_fed_more; eauto. Qed.

Lemma fed_remove l c s : all_fed l s → all_fed l (removeClient c s).
Proof. intros [Hm Hb]. unfold removeClient. case_bool_decide; split; done. Qed.

Lemma fed_push l c m s : all_fed l s → msg_fed l m → all_fed l (push c m s).
Proof.
  intros [Hm Hb] Hf. split; [done|]. intros c' m'. rewrite buffer_push. case_decide; [subst|apply Hb].
  intros [?| ->%list_elem_of_singleton]%elem_of_app; [by eapply Hb|done].
Qed.

Lemma fed_send l c m s : all_fed l s → msg_fed l m → all_fed l (trySendOrEvict c m s).
Proof.
  intros Hs Hm. unfold trySendOrEvict. case_bool_decide; [|done].
  destruct (Nat.ltb _ _); [by apply fed_push|by apply fed_remove].
Qed.

Lemma fed_trySend l c m dropped s : all_fed l s → msg_fed l m → all_fed l (trySend c m dropped s).
Proof. intros Hs Hm. unfold trySend. case_match; [done|]. case_match; [by apply fed_push|done]. Qed.

Lemma fed_subscribe l c ch s : all_fed l s → all_fed l (on_subscribe c ch s).
Proof.
  intros Hs. unfold on_subscribe.
  assert (all_fed l (trySendOrEvict c (newSubscribedMsg ch) (with_hub s (join c ch (hub s))))) as H1 by by apply fed_send.
  case_match eqn:Hm; [|done]. apply fed_send; [done|]. by eapply (proj1 H1).
Qed.

Section fed.
Context `{MR : MapRange} `{UP : UuidParser}.
Variable maxConnections : Z.

Lemma fed_broadcast l room payload s : all_fed l s → fed l room payload → all_fed l (on_broadcast room payload s).
Proof.
  intros [Hm Hb] Hf. unfold on_broadcast. fold (cached room payload (hub s)).
  assert (all_fed l (with_hub s (cached room payload (hub s)))) as Hc.
  { split; [|done]. cbn [with_hub hub cached lastMsg].
    intros ch m [[_ <-]|[_ Hl]]%lookup_insert_Some; [by intros _|by eapply Hm]. }
  case_match; [|done]. apply (foldl_keeps (all_fed l)); [|done]. intros s' c _ Hs'. apply fed_send; [done|by intros _].
Qed.

Lemma fed_stop l s : all_fed l s → all_fed l (on_stop s).
Proof. intros Hs. apply (foldl_keeps (all_fed l)); [|done]. intros. by apply fed_remove. Qed.

Definition wrote_fed (e : wevent) (earlier : list wevent) : Prop :=
  match e with Wrote _ m => msg_fed earlier m | _ => True end.

Definition FedInv (s : WSys) : Prop :=
  all_fed (w_log s) (w_state s) ∧ (∀ room payload, (room, payload) ∈ q_broadcast s → fed (w_log s) room payload) ∧
  ForallTail wrote_fed (w_log s).

Lemma fed_asked l c ch check : ForallTail wrote_fed l → ForallTail wrote_fed (asked c ch check ++ l).
Proof. intros Hl. unfold asked. destruct (channel_gate ch), check; done. Qed.

Lemma own_reply_fed m l : own_reply m = true → msg_fed l m.
Proof. unfold own_reply, msg_fed. intros Ho Ht. by rewrite Ht in Ho. Qed.

Definition set_log (l : list wevent) (s : WSys) : WSys := {|
  w_state := w_state s; q_register := q_register s; q_unregister := q_unregister s; q_subscribe := q_subscribe s;
  q_unsub := q_unsub s; q_broadcast := q_broadcast s; connected := connected s; known := known s;
  stopped := stopped s; w_log := l |}.

(** More was logged, and nothing was written. *)
Lemma FedInv_more l s s' :
  FedInv s → w_log s' = l ++ w_log s → w_state s' = w_state s → q_broadcast s' = q_broadcast s →
  ForallTail wrote_fed (l ++ w_log s) → FedInv s'.
Proof.
  intros (Ha & Hq & Hl) Hlog Hst Hqq Hl'. unfold FedInv. rewrite Hlog, Hst, Hqq.
  assert (∀ e, e ∈ w_log s → e ∈ l ++ w_log s) as Hmore by (intros; apply elem_of_app; by right).
  split_and!; [by eapply all_fed_more| |done]. intros room payload Hin. destruct (Hq _ _ Hin) as (r & Hr & Hc).
  exists r. auto.
Qed.

Lemma FedInv_write c m rest s s' :
  FedInv s → buffer c (w_state s) = m :: rest → do_move maxConnections (Write c) s = Some s' → FedInv s'.
Proof.
  intros (Ha & Hq & Hl) Hb Hs. unfold do_move in Hs. rewrite Hb in Hs. injection Hs as <-.
  assert (msg_fed (w_log s) m) as Hm by (apply (proj2 Ha c); rewrite Hb; left).
  assert (∀ e, e ∈ w_log s → e ∈ Wrote c m :: w_log s) as Hmore by (intros; by right).
  split_and!; cbn [w_state w_log q_broadcast].
  - apply (all_fed_more (w_log s)); [done|]. split; [by apply Ha|]. intros c' m'. unfold buffer. cbn [sends].
    destruct (decide (c' = c)) as [->|Hne]; [rewrite lookup_insert_eq|rewrite lookup_insert_ne by done; apply Ha].
    cbn [default]. intros Hin. apply (proj2 Ha c). rewrite Hb. by right.
  - intros room payload Hin. destruct (Hq _ _ Hin) as (r & Hr & Hc). exists r. auto.
  - by split.
Qed.

Lemma FedInv_move m s s' : FedInv s → do_move maxConnections m s = Some s' → FedInv s'.
Proof.
  intros HI Hm. pose proof HI as (Ha & Hq & Hl).
  destruct m; unfold do_move in Hm; repeat case_match; simplify_eq; try done.
  - eapply (FedInv_more (asked c channel check) s); try done. by apply fed_asked.
  - eapply (FedInv_more (asked c channel check) s); try done. by apply fed_asked.
  - apply orb_false_iff in H as [_ Ho%negb_false_iff]. split_and!; [by apply fed_trySend, own_reply_fed|done..].
  - assert (FedInv (set_log (Received channel payload :: w_log s) s)) as (Ha' & Hq' & Hl')
      by by apply (FedInv_more [Received channel payload] s).
    split_and!; [exact Ha'| |exact Hl']. cbn [q_broadcast w_log].
    intros room p [Hin|[= -> ->]%list_elem_of_singleton]%elem_of_app; [by apply Hq'|]. exists channel. split; [left|done].
  - split_and!; [|done..]. cbn [w_state]. unfold on_register. by case_match.
  - split_and!; [by apply fed_remove|done..].
  - split_and!; [by apply fed_subscribe|done..].
  - split_and!; [|cbn [q_broadcast w_log]; intros; apply Hq; by right|done]. apply fed_broadcast; [done|]. apply Hq. left.
  - split_and!; [by apply fed_stop|done..].
  - eapply FedInv_write; [done..|]. unfold do_move. by rewrite H.
Qed.

Lemma FedInv_fresh : FedInv fresh_server.
Proof.
  split_and!; [|intros ? ? Hin; by apply elem_of_nil in Hin|done]. split.
  - intros ch m. cbn [fresh_server w_state hub empty_hub lastMsg]. by rewrite lookup_empty.
  - intros c m. unfold buffer. cbn [fresh_server w_state sends]. rewrite lookup_empty. by intros ?%elem_of_nil.
Qed.

Lemma wrote_was_fed s newer older c m :
  moves maxConnections fresh_server s → w_log s = newer ++ Wrote c m :: older → msg_fed older m.
Proof.
  intros Hm Hlog. assert (FedInv s) as (_ & _ & Hl).
  { apply (moves_keep maxConnections FedInv fresh_server); [|apply FedInv_fresh|done]. intros. by eapply FedInv_move. }
  rewrite Hlog in Hl. by apply (ForallTail_at _ _ _ _ Hl).
Qed.

(** ** Who may see an event *)

(** What the audit and cluster pages ask for the same thing, [None] where any
    session may see it. *)
Definition required (e : Event) : option Question :=
  if bool_decide (cluster_of e = "") then
    if is_audit e then Some {| q_Action := "view"; q_Resource := "audit"; q_ScopeType := "global"; q_ScopeID := 0 |} else None
  else
    u ← parse_uuid (cluster_of e);
    Some {| q_Action := "view"; q_Resource := if is_audit e then "audit" else "cluster"; q_ScopeType := "cluster"; q_ScopeID := u |}.

(** The room an event ends up in. *)
Lemma event_room e :
  ev_ClusterID e = "" ∨ is_uuid (ev_ClusterID e) = true →
  RedisChannelToClient (publishChannel e) =
  Ok (if bool_decide (cluster_of e = "") then if is_audit e then SystemAuditChannel else SystemEventsChannel
      else "cluster:" +:+ cluster_of e +:+ ":" +:+ (if is_audit e then "audit" else "events")).
Proof.
  intros Hid. unfold publishChannel. case_bool_decide as He; cbn [negb andb]; [by destruct (is_audit e)|].
  assert (is_uuid (cluster_of e) = true) as Hu.
  { unfold cluster_of in *. case_bool_decide; [done|]. by destruct Hid. }
  destruct (is_audit e).
  - apply (of_redis_cluster (cluster_of e) "audit"); [done|]. by apply contains_spec.
  - apply (of_redis_cluster (cluster_of e) "events"); [done|]. by apply contains_spec.
Qed.

(** C24: An event is written only to those who may see it. Let the texts on Redis
    that were made from an event have been published by [Publish], with a cluster
    id or none. Whatever the clients, Redis and the hub do, in any order, where the
    text of an event was written to a client the permission engine had said before,
    for the user of that client, that it may see what the event is about: an audit
    entry of a cluster takes the view of the audit log of that cluster, another
    audit entry the view of the global audit log, any other event of a cluster the
    view of the cluster. *)
Theorem events_confined (made_from : string → option Event) s newer older c m e q :
  (∀ r payload e, Received r payload ∈ w_log s → made_from payload = Some e →
     r = publishChannel e ∧ (ev_ClusterID e = "" ∨ is_uuid (ev_ClusterID e) = true)) →
  moves maxConnections fresh_server s →
  w_log s = newer ++ Wrote c m :: older →
  om_Type m = MsgTypeData → made_from (om_Payload m) = Some e → required e = Some q →
  Answered c q true ∈ older.
Proof.
  intros Hpub Hm Hlog Ht He Hq. destruct (wrote_was_fed s newer older c m Hm Hlog Ht) as (r & Hr & Hroom).
  destruct (Hpub r (om_Payload m) e) as [-> Hid]; [rewrite Hlog; apply elem_of_app; right; by right|done|].
  rewrite event_room in Hroom by done. injection Hroom as Hroom.
  pose proof (wrote_approved maxConnections s newer older c m Hm Hlog Ht) as Ha. rewrite <-Hroom in Ha.
  unfold required in Hq. case_bool_decide as Hc.
  - destruct (is_audit e); [|done]. injection Hq as <-. by destruct Ha.
  - apply bind_Some in Hq as (u & Hu & [= <-]). assert (colon ∉ bytes_of (cluster_of e)) as Hcol.
    { destruct Ha as [Hv _]. destruct (valid_channel _ Hv) as [?|[?|(id & kind & Heq & _ & Hk & Hfree)]];
        [by destruct (is_audit e)..|].
      apply cluster_channel_inj in Heq as [-> _]; [done|done|done|]. destruct (is_audit e); by apply contains_spec. }
    destruct Ha as [_ Ha]. rewrite gate_cluster, Hu in Ha by done. by destruct (is_audit e).
Qed.
End fed.

(** ** A history *)

Module EventCase.
#[local] Existing Instances WsCase.case_range WsCase.case_uuid.

Definition started : Event := ClusterEvent "0f1e2d3c-4b5a-6978-8796-a5b4c3d2e1f0" "vm_state_change" "vm" "100" "start".

Definition made_from (payload : string) : option Event := if bool_decide (payload = "{}") then Some started else None.

Lemma events_confined_witness :
  w_log (WsCase.after 0 WsCase.served) =
    [Wrote 1 (newDataMsg WsCase.room "{}"); Wrote 1 (newSubscribedMsg WsCase.room); WsCase.received;
     Answered 1 WsCase.question true] ∧
  required started = Some WsCase.question ∧
  Answered 1 WsCase.question true ∈ [Wrote 1 (newSubscribedMsg WsCase.room); WsCase.received; Answered 1 WsCase.question true].
Proof.
  assert (w_log (WsCase.after 0 WsCase.served) =
    [Wrote 1 (newDataMsg WsCase.room "{}"); Wrote 1 (newSubscribedMsg WsCase.room); WsCase.received;
     Answered 1 WsCase.question true]) as Hl by by vm_compute.
  split; [exact Hl|]. split; [reflexivity|].
  apply (events_confined 0 made_from (WsCase.after 0 WsCase.served) [] _ 1 (newDataMsg WsCase.room "{}") started).
  - intros r payload e Hr Hm. rewrite Hl in Hr. unfold made_from in Hm. case_bool_decide; [|done]. injection Hm as <-.
    clear Hl. repeat (apply elem_of_cons in Hr as [Hr|Hr]; [try discriminate Hr|]); [|by apply elem_of_nil in Hr].
    injection Hr as -> _. split; [vm_compute; reflexivity|right; vm_compute; reflexivity].
  - apply WsCase.after_moves. by vm_compute.
  - exact Hl.
  - reflexivity.
  - reflexivity.
  - reflexivity.
Defined.

(** An audit entry of the same cluster, and one of none. *)
Example audit_rooms :
  publishChannel (ClusterEvent "0f1e2d3c-4b5a-6978-8796-a5b4c3d2e1f0" KindAuditEntry "vm" "100" "start") =
    "nexara:audit:0f1e2d3c-4b5a-6978-8796-a5b4c3d2e1f0" ∧
  publishChannel (ClusterEvent nil_uuid KindAuditEntry "user" "7" "delete") = SystemAuditRedisChannel.
Proof. split; by vm_compute. Qed.
End EventCase.
