(* ===== verification/BackupCoverage.v ===== *)
(** * Backup coverage

    [backupcoverage/coverage.go], with the Veeam query it reads
    ([db/generated/veeam.sql.go]) and the route over it ([GetBackupCoverage] of
    [api/handlers/backup.go]).

    The computation reads each listing once; [CoverageReads] is what the reads
    answer, errors included. The maps it builds are ranged over in any order
    ([MapRange]). An instant is in nanoseconds, the time of a PBS snapshot in
    seconds. The name of a cluster that goes with a guest is left out, and so are
    the log lines for Veeam reads that failed; an error keeps only its cause.

    - [Compute_reference]: the maps and loops give, for each guest in scope, what a
      direct reading of the listings says.
    - [GetBackupCoverage_confined]: what the caller may not see does not influence the answer.
    - [recent_means_restorable]: a guest that is called recent has a point to restore
      from that is young enough. *)

From S2P Require Import Prelude GoStrings RbacEngine.

Local Open Scope Z_scope.

(** ** What is read *)

Record VM := {
  vm_Vmid : Z; vm_Name : string; vm_Type : string; vm_Status : string; vm_ClusterID : uuid; vm_NodeID : uuid }.

Record StoragePool := { pl_Type : string; pl_Storage : string }.

Record PbsSnapshot := { ps_Datastore : string; ps_BackupID : string; ps_BackupTime : Z }.

Record VeeamRow := {
  vg_Vmid : Z; vg_LatestRestorePoint : option Z; vg_LatestMalwareStatus : string; vg_RestorePointCount : Z;
  vg_RestorePointBytes : Z; vg_MatchMethod : string; vg_LastRunFailed : bool }.

Record CoverageReads := {
  ListAllVMs : result string (list VM);
  ListClusters : result string (list uuid);
  ListStoragePoolsByCluster : uuid → result string (list StoragePool);
  ListPBSServers : result string (list uuid);
  ListPBSSnapshotsByServer : uuid → result string (list PbsSnapshot);
  ListVeeamGuestProtectionForCluster : uuid → result string (list VeeamRow);
  ListVeeamInfrastructureGuestsForCluster : uuid → result string (list (Z * string)) }.

(** ** The Veeam queries *)

Record VeeamObject := {
  vo_ID : uuid; vo_ClusterID : option uuid; vo_Vmid : option Z; vo_MatchMethod : string; vo_LastRunFailed : bool }.

Record RestorePoint := { rp_Object : uuid; rp_CreationTime : Z; rp_SizeBytes : Z; rp_MalwareStatus : string }.

Definition objects_of (objs : list VeeamObject) (cluster : uuid) : list VeeamObject :=
  List.filter (λ o, bool_decide (vo_ClusterID o = Some cluster) && bool_decide (is_Some (vo_Vmid o))) objs.

Definition objects_for (objs : list VeeamObject) (cluster : uuid) (vmid : Z) : list VeeamObject :=
  List.filter (λ o, bool_decide (vo_Vmid o = Some vmid)) (objects_of objs cluster).

Definition points_for (objs : list VeeamObject) (points : list RestorePoint) (cluster : uuid) (vmid : Z) : list RestorePoint :=
  o ← objects_for objs cluster vmid; List.filter (λ p, rp_Object p =? vo_ID o) points.

(** The first of the newest points. *)
Definition newest (points : list RestorePoint) : option RestorePoint :=
  foldr (λ p best, match best with
                   | Some q => if rp_CreationTime p <? rp_CreationTime q then Some q else Some p
                   | None => Some p
                   end) None points.

Definition match_rank (method : string) : Z :=
  if bool_decide (method = "manual") then 0
  else if bool_decide (method = "smbios") then 1
  else if bool_decide (method = "name") then 2
  else 3.

(** The strongest method of a guest's objects. *)
Definition strongest (methods : list string) : string :=
  foldr (λ m best, if match_rank m <=? match_rank best then m else best) (default "" (last methods)) methods.

Definition veeam_row (objs : list VeeamObject) (points : list RestorePoint) (cluster : uuid) (vmid : Z) : VeeamRow :=
  let ps := points_for objs points cluster vmid in
  let os := objects_for objs cluster vmid in
  {| vg_Vmid := vmid; vg_LatestRestorePoint := rp_CreationTime <$> newest ps;
     vg_LatestMalwareStatus := default "" (rp_MalwareStatus <$> newest ps);
     vg_RestorePointCount := Z.of_nat (length ps); vg_RestorePointBytes := foldr (λ p n, rp_SizeBytes p + n) 0 ps;
     vg_MatchMethod := strongest (vo_MatchMethod <$> os); vg_LastRunFailed := existsb vo_LastRunFailed os |}.

(** [listVeeamGuestProtectionForCluster], in some order *)
Definition listVeeamGuestProtectionForCluster (objs : list VeeamObject) (points : list RestorePoint) (cluster : uuid) :
    list VeeamRow :=
  veeam_row objs points cluster <$> remove_dups (omap vo_Vmid (objects_of objs cluster)).

(** ** The computation *)

Definition Eligible : string := "eligible".
Definition VeeamWorker : string := "veeam_worker".
Definition VeeamBackupServer : string := "veeam_backup_server".

Definition ProtectionBoth : string := "both".
Definition ProtectionVeeam : string := "veeam".
Definition ProtectionPBS : string := "pbs".
Definition ProtectionNone : string := "none".
Definition ProtectionNotEligible : string := "not_eligible".

Definition StatusRecent : string := "recent".
Definition StatusStale : string := "stale".
Definition StatusNone : string := "none".
Definition StatusNotEligible : string := "not_eligible".

Definition DefaultStaleAfter : Z := 24 * 60 * minute.

Record Veeam := {
  v_Protected : bool; v_LatestRestorePoint : option Z; v_RestorePointCount : Z; v_RestorePointBytes : Z;
  v_MatchMethod : string; v_MalwareStatus : string; v_LastRunFailed : bool }.

Record Entry := {
  e_VMID : Z; e_Name : string; e_Type : string; e_Status : string; e_ClusterID : uuid; e_LatestBackup : option Z;
  e_BackupCount : Z; e_CoverageStatus : string; e_Eligibility : string; e_VeeamCapable : bool; e_Veeam : option Veeam;
  e_Protection : string; e_NodeID : uuid; e_Freshest : Z }.

(** A missing predicate is every cluster, or none. *)
Record Scope := { sc_Cluster : option (uuid → bool); sc_Veeam : option (uuid → bool) }.

(** The zero time is [None]. *)
Record Options := { op_StaleAfter : Z; op_Now : option Z; op_VeeamStrict : bool }.

Definition OneCluster (id c : uuid) : bool := c =? id.

Definition in_scope (s : Scope) (c : uuid) : bool := match sc_Cluster s with Some f => f c | None => true end.
Definition veeam_allowed (s : Scope) (c : uuid) : bool := match sc_Veeam s with Some f => f c | None => false end.

Definition stale_after (o : Options) : Z := if op_StaleAfter o <=? 0 then DefaultStaleAfter else op_StaleAfter o.

(** [time.Time.Unix] *)
Definition Unix (t : Z) : Z := t `div` second.

Definition Verdict (eligibility : string) (pbsProtected veeamProtected : bool) (freshest now staleThreshold : Z) :
    string * string :=
  if negb (bool_decide (eligibility = Eligible)) then (ProtectionNotEligible, StatusNotEligible)
  else
    let judged protection := (protection, if int64 (now - freshest) <? staleThreshold then StatusRecent else StatusStale) in
    if pbsProtected && veeamProtected then judged ProtectionBoth
    else if veeamProtected then judged ProtectionVeeam
    else if pbsProtected then judged ProtectionPBS
    else (ProtectionNone, StatusNone).

(** Step 1: the datastores each cluster mounts. *)
Definition add_pools (cluster : uuid) (pools : list StoragePool) (m : gmap uuid (gmap string bool)) :
    gmap uuid (gmap string bool) :=
  foldl (λ m p, if negb (bool_decide (pl_Type p = "pbs")) then m
                else <[cluster := <[pl_Storage p := true]> (default ∅ (m !! cluster))]> m) m pools.

Fixpoint mounted (rd : CoverageReads) (s : Scope) (clusters : list uuid) (m : gmap uuid (gmap string bool)) :
    result string (gmap uuid (gmap string bool)) :=
  match clusters with
  | [] => Ok m
  | c :: clusters =>
      if negb (in_scope s c) then mounted rd s clusters m
      else let? pools := ListStoragePoolsByCluster rd c in mounted rd s clusters (add_pools c pools m)
  end.

(** Step 2: the snapshots, by datastore and backup id; the latest time and the count. *)
Definition backup_key (datastore id : string) : string := datastore +:+ ":" +:+ id.

Definition add_snapshots (snaps : list PbsSnapshot) (m : gmap string (Z * Z)) : gmap string (Z * Z) :=
  foldl (λ m s,
    let key := backup_key (ps_Datastore s) (ps_BackupID s) in
    let '(latest, count) := default (0, 0) (m !! key) in
    <[key := (if latest <? ps_BackupTime s then ps_BackupTime s else latest, count + 1)]> m) m snaps.

Fixpoint backups (rd : CoverageReads) (servers : list uuid) (m : gmap string (Z * Z)) : result string (gmap string (Z * Z)) :=
  match servers with
  | [] => Ok m
  | srv :: servers =>
      let? snaps := ListPBSSnapshotsByServer rd srv in
      backups rd servers (add_snapshots snaps m)
  end.

(** Step 3: what Veeam knows. *)
Record veeam_maps := { vm_rows : gmap uuid (gmap Z VeeamRow); vm_owned : gmap uuid (gmap Z string) }.

Definition by_vmid (rows : list VeeamRow) : gmap Z VeeamRow := foldl (λ m r, <[vg_Vmid r := r]> m) ∅ rows.

Definition owned_by (rows : list (Z * string)) : gmap Z string :=
  foldl (λ m r, match m !! r.1 with
                | Some _ => if bool_decide (r.2 = "backup_server") then <[r.1 := r.2]> m else m
                | None => <[r.1 := r.2]> m
                end) ∅ rows.

Fixpoint veeam_data (rd : CoverageReads) (s : Scope) (strict : bool) (clusters : list uuid) (v : veeam_maps) :
    result string veeam_maps :=
  match clusters with
  | [] => Ok v
  | c :: clusters =>
      if negb (in_scope s c) || negb (veeam_allowed s c) then veeam_data rd s strict clusters v
      else
        let? v := match ListVeeamGuestProtectionForCluster rd c with
                  | Ok rows => Ok {| vm_rows := <[c := by_vmid rows]> (vm_rows v); vm_owned := vm_owned v |}
                  | Err e => if strict then Err e else Ok v
                  end in
        let? v := match ListVeeamInfrastructureGuestsForCluster rd c with
                  | Ok rows => Ok {| vm_rows := vm_rows v; vm_owned := <[c := owned_by rows]> (vm_owned v) |}
                  | Err e => if strict then Err e else Ok v
                  end in
        veeam_data rd s strict clusters v
  end.

Definition eligibility_of (role : option string) : string :=
  match role with
  | Some r => if bool_decide (r = "worker") then VeeamWorker
              else if bool_decide (r = "backup_server") then VeeamBackupServer
              else Eligible
  | None => Eligible
  end.

Definition veeam_side (row : VeeamRow) : Veeam := {|
  v_Protected := 0 <? vg_RestorePointCount row; v_LatestRestorePoint := vg_LatestRestorePoint row;
  v_RestorePointCount := vg_RestorePointCount row; v_RestorePointBytes := vg_RestorePointBytes row;
  v_MatchMethod := vg_MatchMethod row; v_MalwareStatus := vg_LatestMalwareStatus row; v_LastRunFailed := vg_LastRunFailed row |}.

(** The freshest point of either provider. *)
Definition fresher (latest : Z) (row : option VeeamRow) : Z :=
  match (r ← row; vg_LatestRestorePoint r) with
  | Some t => if latest <? Unix t then Unix t else latest
  | None => latest
  end.

(** The entry of a guest from the figures that were found for it. *)
Definition entry_of (vm : VM) (role : option string) (row : option VeeamRow) (count latest now threshold : Z) : Entry :=
  let veeam := veeam_side <$> row in
  let freshest := fresher latest row in
  let '(protection, status) :=
    Verdict (eligibility_of role) (0 <? count) (match veeam with Some v => v_Protected v | None => false end)
      freshest now threshold in
  {| e_VMID := vm_Vmid vm; e_Name := vm_Name vm; e_Type := vm_Type vm; e_Status := vm_Status vm;
     e_ClusterID := vm_ClusterID vm; e_LatestBackup := if 0 <? count then Some latest else None;
     e_BackupCount := if 0 <? count then count else 0; e_CoverageStatus := status; e_Eligibility := eligibility_of role;
     e_VeeamCapable := bool_decide (vm_Type vm = "qemu"); e_Veeam := veeam; e_Protection := protection;
     e_NodeID := vm_NodeID vm;
     e_Freshest := if negb (bool_decide (protection = ProtectionNone)) && negb (bool_decide (protection = ProtectionNotEligible))
                   then freshest else 0 |}.

Section compute.
Context `{MR : MapRange}.

(** Step 4: the count and the latest time over the datastores of the guest's cluster. *)
Definition tally (stores : gmap string bool) (m : gmap string (Z * Z)) (vmid : string) : Z * Z :=
  foldl (λ (acc : Z * Z) (kv : string * bool),
    match m !! backup_key kv.1 vmid with
    | Some (latest, count) =>
        if 0 <? count then (acc.1 + count, if acc.2 <? latest then latest else acc.2) else acc
    | None => acc
    end) (0, 0) (go_range stores).

Definition cover (ds : gmap uuid (gmap string bool)) (m : gmap string (Z * Z)) (v : veeam_maps) (now threshold : Z) (vm : VM) :
    Entry :=
  let '(count, latest) := tally (default ∅ (ds !! vm_ClusterID vm)) m (Itoa (vm_Vmid vm)) in
  entry_of vm (default ∅ (vm_owned v !! vm_ClusterID vm) !! vm_Vmid vm)
    (default ∅ (vm_rows v !! vm_ClusterID vm) !! vm_Vmid vm) count latest now threshold.

Definition Compute (rd : CoverageReads) (s : Scope) (o : Options) (clock : Z) : result string (list Entry) :=
  let now := default clock (op_Now o) in
  let? vms := ListAllVMs rd in
  let? clusters := ListClusters rd in
  let? ds := mounted rd s clusters ∅ in
  let? servers := ListPBSServers rd in
  let? m := backups rd servers ∅ in
  let? v := veeam_data rd s (op_VeeamStrict o) clusters {| vm_rows := ∅; vm_owned := ∅ |} in
  Ok (cover ds m v (Unix now) (stale_after o `div` second) <$> List.filter (λ vm, in_scope s (vm_ClusterID vm)) vms).

(** [GetBackupCoverage], by what the permission engine answers about the caller. *)
Definition GetBackupCoverage (backup veeam : result reply clusterAccess) (rd : CoverageReads) (clock : Z) :
    result reply (list Entry) :=
  let? access := backup in
  let? veeamAccess := veeam in
  match Compute rd {| sc_Cluster := Some (PermitsCluster access); sc_Veeam := Some (PermitsCluster veeamAccess) |}
          {| op_StaleAfter := 0; op_Now := None; op_VeeamStrict := false |} clock with
  | Ok entries => Ok entries
  | Err _ => Err (fiber_error 500 "Failed to compute backup coverage")
  end.
End compute.

(** ** A direct reading of the listings *)

Definition ok_list {A} (r : result string (list A)) : list A := match r with Ok l => l | Err _ => [] end.

Definition snapshots (rd : CoverageReads) : list PbsSnapshot :=
  srv ← ok_list (ListPBSServers rd); ok_list (ListPBSSnapshotsByServer rd srv).

(** The cluster is listed, and in scope. *)
Definition visible (rd : CoverageReads) (s : Scope) (c : uuid) : bool := contains (ok_list (ListClusters rd)) c && in_scope s c.

(** The cluster mounts the datastore. *)
Definition mounts (rd : CoverageReads) (s : Scope) (c : uuid) (datastore : string) : bool :=
  visible rd s c &&
  existsb (λ p, bool_decide (pl_Type p = "pbs") && bool_decide (pl_Storage p = datastore)) (ok_list (ListStoragePoolsByCluster rd c)).

(** The snapshot is one of the guest. *)
Definition backs_up (rd : CoverageReads) (s : Scope) (vm : VM) (p : PbsSnapshot) : bool :=
  mounts rd s (vm_ClusterID vm) (ps_Datastore p) && bool_decide (ps_BackupID p = Itoa (vm_Vmid vm)).

Definition backup_times (rd : CoverageReads) (s : Scope) (vm : VM) : list Z :=
  ps_BackupTime <$> List.filter (backs_up rd s vm) (snapshots rd).

Definition maximum (l : list Z) : Z := foldr Z.max 0 l.

(** What Veeam says of the guest, where the caller may ask. *)
Definition guest_row (rd : CoverageReads) (s : Scope) (vm : VM) : option VeeamRow :=
  let c := vm_ClusterID vm in
  if visible rd s c && veeam_allowed s c
  then last (List.filter (λ r, vg_Vmid r =? vm_Vmid vm) (ok_list (ListVeeamGuestProtectionForCluster rd c)))
  else None.

Definition guest_role (rd : CoverageReads) (s : Scope) (vm : VM) : option string :=
  let c := vm_ClusterID vm in
  if visible rd s c && veeam_allowed s c then
    let roles := (List.filter (λ r : Z * string, r.1 =? vm_Vmid vm) (ok_list (ListVeeamInfrastructureGuestsForCluster rd c))).*2 in
    if contains roles "backup_server" then Some "backup_server" else head roles
  else None.

Definition coverage (rd : CoverageReads) (s : Scope) (now threshold : Z) (vm : VM) : Entry :=
  let times := backup_times rd s vm in
  entry_of vm (guest_role rd s vm) (guest_row rd s vm) (Z.of_nat (length times)) (maximum times) now threshold.

(** Everything that has to be read could be. *)
Definition readable (rd : CoverageReads) (s : Scope) (o : Options) : bool :=
  is_ok (ListAllVMs rd) && is_ok (ListClusters rd) &&
  forallb (λ c, negb (in_scope s c) || is_ok (ListStoragePoolsByCluster rd c)) (ok_list (ListClusters rd)) &&
  is_ok (ListPBSServers rd) && forallb (λ srv, is_ok (ListPBSSnapshotsByServer rd srv)) (ok_list (ListPBSServers rd)) &&
  (negb (op_VeeamStrict o) ||
   forallb (λ c, negb (in_scope s c) || negb (veeam_allowed s c) ||
                 is_ok (ListVeeamGuestProtectionForCluster rd c) && is_ok (ListVeeamInfrastructureGuestsForCluster rd c))
     (ok_list (ListClusters rd))).

(** ** The steps *)

(** *** Step 1 *)

Lemma add_pools_lookup c pools m c' ds :
  is_Some (default ∅ (add_pools c pools m !! c') !! ds) ↔
  is_Some (default ∅ (m !! c') !! ds) ∨
  c' = c ∧ existsb (λ p, bool_decide (pl_Type p = "pbs") && bool_decide (pl_Storage p = ds)) pools = true.
Proof.
  unfold add_pools. revert m. induction pools as [|p pools IH]; intros m; simpl; [naive_solver|].
  rewrite IH. clear IH. destruct (bool_decide_reflect (pl_Type p = "pbs")) as [Ht|Ht]; simpl; [|done].
  destruct (decide (c = c')) as [->|Hc].
  - rewrite lookup_insert_eq. simpl. destruct (decide (pl_Storage p = ds)) as [->|Hds].
    + rewrite lookup_insert_eq, bool_decide_eq_true_2 by done. simpl. naive_solver.
    + rewrite lookup_insert_ne, bool_decide_eq_false_2 by done. done.
  - rewrite lookup_insert_ne by done. naive_solver.
Qed.

Lemma mounted_spec rd s clusters m :
  match mounted rd s clusters m with
  | Ok m' =>
      forallb (λ c, negb (in_scope s c) || is_ok (ListStoragePoolsByCluster rd c)) clusters = true ∧
      ∀ c ds, is_Some (default ∅ (m' !! c) !! ds) ↔ is_Some (default ∅ (m !! c) !! ds) ∨
        c ∈ clusters ∧ in_scope s c = true ∧
        existsb (λ p, bool_decide (pl_Type p = "pbs") && bool_decide (pl_Storage p = ds))
          (ok_list (ListStoragePoolsByCluster rd c)) = true
  | Err _ => forallb (λ c, negb (in_scope s c) || is_ok (ListStoragePoolsByCluster rd c)) clusters = false
  end.
Proof.
  revert m. induction clusters as [|c clusters IH]; intros m; simpl; [split; [done|set_solver]|].
  destruct (in_scope s c) eqn:Hc; simpl.
  - destruct (ListStoragePoolsByCluster rd c) as [pools|e] eqn:Hp; simpl; [|done].
    specialize (IH (add_pools c pools m)). destruct (mounted _ _ _ _) as [m'|]; [|done]. destruct IH as [Hf Hm]. split; [done|].
    intros c' ds. rewrite Hm, add_pools_lookup, elem_of_cons. clear Hm. split.
    + intros [[?|[-> He]]|(? & ? & ?)]; [by left| |right; by auto]. right. rewrite Hp. by auto.
    + intros [?|([->|?] & ? & He)]; [by auto| |right; by auto]. left. right. rewrite Hp in He. by auto.
  - specialize (IH m). destruct (mounted _ _ _ _) as [m'|]; [|done]. destruct IH as [Hf Hm]. split; [done|].
    intros c' ds. rewrite Hm, elem_of_cons. split; [naive_solver|]. intros [?|([->|?] & ? & ?)]; [by left|congruence|by right].
Qed.

(** *** Step 2 *)

Definition with_key (key : string) (p : PbsSnapshot) : bool := bool_decide (backup_key (ps_Datastore p) (ps_BackupID p) = key).

(** The figures of a list of times. *)
Definition figures (l : list Z) : option (Z * Z) := match l with [] => None | _ => Some (maximum l, Z.of_nat (length l)) end.

Definition keeps_figures (m : gmap string (Z * Z)) (l : list PbsSnapshot) : Prop :=
  ∀ key, m !! key = figures (ps_BackupTime <$> List.filter (with_key key) l).

Lemma maximum_app a b : maximum (a ++ b) = Z.max (maximum a) (maximum b).
Proof.
  unfold maximum. induction a as [|x a IH]; simpl; [|rewrite IH; lia].
  assert (0 ≤ foldr Z.max 0 b) by (induction b; simpl; lia). lia.
Qed.

Lemma maximum_pos l : 0 ≤ maximum l.
Proof. induction l; simpl; lia. Qed.

Lemma add_snapshots_figures snaps m l : keeps_figures m l → keeps_figures (add_snapshots snaps m) (l ++ snaps).
Proof.
  unfold add_snapshots. revert m l. induction snaps as [|p snaps IH]; intros m l Hm; simpl; [by rewrite app_nil_r|].
  rewrite (assoc_L (++) l [p] snaps : l ++ p :: snaps = (l ++ [p]) ++ snaps). apply IH. intros key.
  set (k := backup_key (ps_Datastore p) (ps_BackupID p)). rewrite List.filter_app. simpl.
  destruct (decide (k = key)) as [<-|Hk].
  - unfold with_key at 2. fold k. rewrite bool_decide_eq_true_2, fmap_app by done. simpl. rewrite (Hm k).
    destruct (ps_BackupTime <$> List.filter (with_key k) l) as [|t ts] eqn:Ht; simpl.
    + rewrite lookup_insert_eq. destruct (0 <? ps_BackupTime p) eqn:?; simpl; repeat f_equal; lia.
    + rewrite lookup_insert_eq, length_app. pose proof (maximum_app ts [ps_BackupTime p]) as Hmax. simpl in Hmax.
      pose proof (maximum_pos ts). unfold maximum in *. simpl. rewrite Hmax.
      destruct (Z.ltb_spec (Z.max t (foldr Z.max 0 ts)) (ps_BackupTime p)); (f_equal; f_equal; lia).
  - unfold with_key at 2. fold k. rewrite bool_decide_eq_false_2, app_nil_r by done.
    destruct (default (0, 0) (m !! k)) as [latest count]. rewrite lookup_insert_ne by done. apply Hm.
Qed.

Lemma backups_spec rd servers m l :
  keeps_figures m l →
  match backups rd servers m with
  | Ok m' => forallb (λ srv, is_ok (ListPBSSnapshotsByServer rd srv)) servers = true ∧
      keeps_figures m' (l ++ (srv ← servers; ok_list (ListPBSSnapshotsByServer rd srv)))
  | Err _ => forallb (λ srv, is_ok (ListPBSSnapshotsByServer rd srv)) servers = false
  end.
Proof.
  revert m l. induction servers as [|srv servers IH]; intros m l Hm; simpl; [by rewrite app_nil_r|].
  destruct (ListPBSSnapshotsByServer rd srv) as [snaps|e] eqn:Hs; simpl; [|done].
  specialize (IH _ _ (add_snapshots_figures snaps m l Hm)). destruct (backups _ _ _) as [m'|]; [|done].
  destruct IH as [? IH]. split; [done|]. by rewrite (assoc_L (++)).
Qed.

(** *** Step 4 *)

Lemma bytes_inj (a b : string) : bytes_of a = bytes_of b → a = b.
Proof. revert b. induction a as [|c a IH]; intros [|d b]; simpl; intros H; simplify_eq; [done|]. by rewrite (IH b). Qed.

Lemma backup_key_inj_l d d' id : backup_key d id = backup_key d' id → d = d'.
Proof.
  unfold backup_key. intros H. apply (f_equal bytes_of) in H. rewrite !bytes_of_app in H. apply bytes_inj.
  by apply app_inv_tail in H.
Qed.

Lemma list_split_last {A} (x : A) l l' r r' : (x ∉ r) → (x ∉ r') → l ++ x :: r = l' ++ x :: r' → l = l' ∧ r = r'.
Proof.
  intros Hr Hr'. revert l'. induction l as [|y l IH]; intros [|y' l']; simpl; intros H; simplify_eq; [done| | |].
  - exfalso. apply Hr. set_solver.
  - exfalso. apply Hr'. set_solver.
  - destruct (IH l') as [-> ->]; done.
Qed.

Lemma backup_key_inj d d' id id' :
  (colon ∉ bytes_of id) → (colon ∉ bytes_of id') → backup_key d id = backup_key d' id' → d = d' ∧ id = id'.
Proof.
  unfold backup_key. intros Hi Hi' H. apply (f_equal bytes_of) in H. rewrite !bytes_of_app in H. simpl in H.
  apply (list_split_last colon) in H as [?%bytes_inj ?%bytes_inj]; done.
Qed.

Lemma pretty_go_colon x s : (colon ∉ bytes_of s) → colon ∉ bytes_of (pretty_N_go x s).
Proof.
  revert s. induction (N.lt_wf_0 x) as [x _ IH]; intros s Hs.
  assert (x = 0 ∨ 0 < x)%N as [->|?] by lia; [by rewrite pretty_N_go_0|].
  rewrite pretty_N_go_step by done. apply IH; [by apply N.div_lt|]. simpl. apply not_elem_of_cons. split; [|done].
  unfold pretty_N_char. by repeat case_match.
Qed.

Lemma Itoa_colon z : colon ∉ bytes_of (Itoa z).
Proof.
  assert (∀ n : N, colon ∉ bytes_of (pretty n)) as Hn.
  { intros n. unfold pretty, pretty_N. case_decide; [simpl; set_solver|]. apply pretty_go_colon. simpl. set_solver. }
  unfold Itoa, pretty, pretty_Z. destruct z as [|p|p]; [simpl; set_solver|apply Hn|].
  rewrite bytes_of_app. simpl. apply not_elem_of_cons. split; [done|apply Hn].
Qed.

Lemma filter_or_length {A} (p q : A → bool) l :
  (∀ x, x ∈ l → p x = true → q x = true → False) →
  length (List.filter (λ x, p x || q x) l) = (length (List.filter p l) + length (List.filter q l))%nat.
Proof.
  induction l as [|x l IH]; simpl; intros Hd; [done|].
  assert (∀ x, x ∈ l → p x = true → q x = true → False) as Hd' by (intros; eapply Hd; [by right|done..]).
  destruct (p x) eqn:Hp, (q x) eqn:Hq; simpl; rewrite ?IH by done; [|lia..]. exfalso. by apply (Hd x); [left|..].
Qed.

Lemma filter_or_maximum {A} (f : A → Z) (p q : A → bool) l :
  maximum (f <$> List.filter (λ x, p x || q x) l) = Z.max (maximum (f <$> List.filter p l)) (maximum (f <$> List.filter q l)).
Proof.
  unfold maximum. induction l as [|x l IH]; csimpl; [done|]. destruct (p x), (q x); csimpl; rewrite ?IH; lia.
Qed.

Section tally.
Context `{MR : MapRange}.

(** The snapshots of [vmid] on one of these datastores. *)
Definition on_stores (stores : list (string * bool)) (vmid : string) (p : PbsSnapshot) : bool :=
  existsb (λ kv, with_key (backup_key kv.1 vmid) p) stores.

Lemma tally_step m l stores vmid count latest :
  keeps_figures m l → NoDup stores.*1 →
  foldl (λ (acc : Z * Z) (kv : string * bool),
    match m !! backup_key kv.1 vmid with
    | Some (latest, count) => if 0 <? count then (acc.1 + count, if acc.2 <? latest then latest else acc.2) else acc
    | None => acc
    end) (count, latest) stores =
  (count + Z.of_nat (length (List.filter (on_stores stores vmid) l)),
   Z.max latest (maximum (ps_BackupTime <$> List.filter (on_stores stores vmid) l))) ∨ latest < 0.
Proof.
  intros Hm. revert count latest. induction stores as [|[ds b] stores IH]; intros count latest Hnd; cbn [foldl].
  - assert (List.filter (on_stores [] vmid) l = []) as -> by (clear; induction l; done). simpl.
    destruct (Z.ltb_spec latest 0); [by right|]. left. f_equal; lia.
  - rewrite fmap_cons in Hnd. apply NoDup_cons in Hnd as [Hds Hnd]. cbn [fst snd].
    assert (∀ x, x ∈ l → with_key (backup_key ds vmid) x = true → on_stores stores vmid x = true → False) as Hdis.
    { intros p _ Hp%bool_decide_eq_true ([ds' b'] & Hin & Hp'%bool_decide_eq_true)%existsb_elem_of. simpl in Hp'.
      apply Hds. rewrite Hp in Hp'. apply backup_key_inj_l in Hp' as ->. by apply (list_elem_of_fmap_2 fst _ (ds', b')). }
    destruct (Z.ltb_spec latest 0); [by right|]. left.
    change (on_stores ((ds, b) :: stores) vmid) with (λ p, with_key (backup_key ds vmid) p || on_stores stores vmid p).
    rewrite (filter_or_length _ _ _ Hdis), (filter_or_maximum ps_BackupTime), (Hm (backup_key ds vmid)).
    unfold figures. set (ts := ps_BackupTime <$> List.filter (with_key (backup_key ds vmid)) l).
    assert (length (List.filter (with_key (backup_key ds vmid)) l) = length ts) as Hlen by (symmetry; apply length_fmap).
    rewrite Hlen. pose proof (maximum_pos ts) as Hpos. destruct ts as [|t ts'].
    + destruct (IH count latest Hnd) as [->|]; [|lia]. f_equal; simpl; lia.
    + assert ((0 <? Z.of_nat (length (t :: ts'))) = true) as -> by (apply Z.ltb_lt; simpl; lia).
      edestruct IH as [->|]; [done| |destruct (Z.ltb_spec latest (maximum (t :: ts'))); lia].
      f_equal; [lia|]. destruct (Z.ltb_spec latest (maximum (t :: ts'))); lia.
Qed.

Lemma tally_spec m l stores vmid :
  keeps_figures m l →
  tally stores m vmid = (Z.of_nat (length (List.filter (on_stores (go_range stores) vmid) l)),
                         maximum (ps_BackupTime <$> List.filter (on_stores (go_range stores) vmid) l)).
Proof.
  intros Hm. unfold tally. destruct (tally_step m l (go_range stores) vmid 0 0 Hm (NoDup_go_range stores)) as [->|]; [|lia].
  f_equal. pose proof (maximum_pos (ps_BackupTime <$> List.filter (on_stores (go_range stores) vmid) l)). lia.
Qed.
End tally.

(** *** Step 3 *)

Lemma by_vmid_lookup rows k : by_vmid rows !! k = last (List.filter (λ r, vg_Vmid r =? k) rows).
Proof.
  unfold by_vmid. induction rows as [|r rows IH] using rev_ind; [done|].
  rewrite foldl_app, List.filter_app. simpl. destruct (Z.eqb_spec (vg_Vmid r) k) as [<-|Hk].
  - by rewrite lookup_insert_eq, last_snoc.
  - by rewrite lookup_insert_ne, app_nil_r.
Qed.

Definition role_of (roles : list string) : option string :=
  if contains roles "backup_server" then Some "backup_server" else head roles.

Lemma role_of_snoc roles r :
  role_of (roles ++ [r]) =
  match role_of roles with Some r0 => Some (if bool_decide (r = "backup_server") then r else r0) | None => Some r end.
Proof.
  unfold role_of, contains. rewrite existsb_app. simpl. rewrite orb_false_r.
  destruct (existsb (λ y, bool_decide (y = "backup_server")) roles) eqn:Hin; simpl.
  { by case_bool_decide; subst. }
  destruct (bool_decide_reflect (r = "backup_server")) as [->|]; destruct roles; done.
Qed.

Lemma owned_by_lookup rows k : owned_by rows !! k = role_of (List.filter (λ r : Z * string, r.1 =? k) rows).*2.
Proof.
  unfold owned_by. induction rows as [|[v role] rows IH] using rev_ind; [done|].
  rewrite foldl_app, List.filter_app, fmap_app. simpl. set (m := foldl _ _ _) in *.
  destruct (Z.eqb_spec v k) as [->|Hv]; simpl.
  - rewrite role_of_snoc, <-IH. destruct (m !! k) as [r0|] eqn:Hm.
    + case_bool_decide; [by rewrite lookup_insert_eq|done].
    + by rewrite lookup_insert_eq.
  - rewrite app_nil_r, <-IH. destruct (m !! v); [case_bool_decide|]; by rewrite ?lookup_insert_ne.
Qed.

(** What Veeam was asked and said. *)
Definition veeam_asked (s : Scope) (clusters : list uuid) (c : uuid) : bool :=
  contains clusters c && in_scope s c && veeam_allowed s c.

Definition veeam_told {A B} (s : Scope) (clusters : list uuid) (f : uuid → result string A) (g : A → B) (m : gmap uuid B)
    (c : uuid) : option B :=
  match f c with
  | Ok a => if veeam_asked s clusters c then Some (g a) else m !! c
  | Err _ => m !! c
  end.

Lemma veeam_asked_cons s c clusters c' :
  veeam_asked s (c :: clusters) c' = (bool_decide (c = c') && in_scope s c' && veeam_allowed s c') || veeam_asked s clusters c'.
Proof. unfold veeam_asked, contains. simpl. by case_bool_decide; destruct (existsb _ clusters), (in_scope s c'), (veeam_allowed s c'). Qed.

Lemma veeam_told_cons {A B} s c clusters (f : uuid → result string A) (g : A → B) m c' :
  veeam_told s (c :: clusters) f g m c' =
  veeam_told s clusters f g (match f c with
                             | Ok a => if in_scope s c && veeam_allowed s c then <[c := g a]> m else m
                             | Err _ => m end) c'.
Proof.
  unfold veeam_told. rewrite veeam_asked_cons. destruct (decide (c = c')) as [->|Hc].
  - rewrite bool_decide_eq_true_2 by done. destruct (f c') as [a|]; [|done]. simpl.
    destruct (in_scope s c' && veeam_allowed s c'); simpl; [|done]. rewrite lookup_insert_eq. by case_match.
  - rewrite bool_decide_eq_false_2 by done. simpl. destruct (f c) as [b|]; [|done].
    destruct (in_scope s c && veeam_allowed s c); [|done]. destruct (f c'); by rewrite lookup_insert_ne.
Qed.

Definition veeam_readable (rd : CoverageReads) (s : Scope) (clusters : list uuid) : bool :=
  forallb (λ c, negb (in_scope s c) || negb (veeam_allowed s c) ||
                is_ok (ListVeeamGuestProtectionForCluster rd c) && is_ok (ListVeeamInfrastructureGuestsForCluster rd c)) clusters.

Lemma veeam_data_spec rd s strict clusters v :
  match veeam_data rd s strict clusters v with
  | Ok v' => (strict = true → veeam_readable rd s clusters = true) ∧
      ∀ c, vm_rows v' !! c = veeam_told s clusters (ListVeeamGuestProtectionForCluster rd) by_vmid (vm_rows v) c ∧
           vm_owned v' !! c = veeam_told s clusters (ListVeeamInfrastructureGuestsForCluster rd) owned_by (vm_owned v) c
  | Err _ => strict = true ∧ veeam_readable rd s clusters = false
  end.
Proof.
  revert v. induction clusters as [|c clusters IH]; intros v; cbn [veeam_data].
  { split; [done|]. intros c. unfold veeam_told. by split; case_match. }
  assert (∀ c', veeam_told s (c :: clusters) (ListVeeamGuestProtectionForCluster rd) by_vmid (vm_rows v) c' =
    veeam_told s clusters (ListVeeamGuestProtectionForCluster rd) by_vmid
      (match ListVeeamGuestProtectionForCluster rd c with
       | Ok rows => if in_scope s c && veeam_allowed s c then <[c := by_vmid rows]> (vm_rows v) else vm_rows v
       | Err _ => vm_rows v end) c') as H1 by (intros; apply veeam_told_cons).
  assert (∀ c', veeam_told s (c :: clusters) (ListVeeamInfrastructureGuestsForCluster rd) owned_by (vm_owned v) c' =
    veeam_told s clusters (ListVeeamInfrastructureGuestsForCluster rd) owned_by
      (match ListVeeamInfrastructureGuestsForCluster rd c with
       | Ok rows => if in_scope s c && veeam_allowed s c then <[c := owned_by rows]> (vm_owned v) else vm_owned v
       | Err _ => vm_owned v end) c') as H2 by (intros; apply veeam_told_cons).
  assert (∀ v1 : veeam_maps,
    (∀ c', vm_rows v1 !! c' = match ListVeeamGuestProtectionForCluster rd c with
       | Ok rows => if in_scope s c && veeam_allowed s c then <[c := by_vmid rows]> (vm_rows v) else vm_rows v
       | Err _ => vm_rows v end !! c') →
    (∀ c', vm_owned v1 !! c' = match ListVeeamInfrastructureGuestsForCluster rd c with
       | Ok rows => if in_scope s c && veeam_allowed s c then <[c := owned_by rows]> (vm_owned v) else vm_owned v
       | Err _ => vm_owned v end !! c') →
    (strict = true → negb (in_scope s c) || negb (veeam_allowed s c) ||
       is_ok (ListVeeamGuestProtectionForCluster rd c) && is_ok (ListVeeamInfrastructureGuestsForCluster rd c) = true) →
    match veeam_data rd s strict clusters v1 with
    | Ok v' => (strict = true → veeam_readable rd s (c :: clusters) = true) ∧
        ∀ c', vm_rows v' !! c' = veeam_told s (c :: clusters) (ListVeeamGuestProtectionForCluster rd) by_vmid (vm_rows v) c' ∧
             vm_owned v' !! c' = veeam_told s (c :: clusters) (ListVeeamInfrastructureGuestsForCluster rd) owned_by (vm_owned v) c'
    | Err _ => strict = true ∧ veeam_readable rd s (c :: clusters) = false
    end) as Hgo.
  { intros v1 Hv1 Hv2 Hok. specialize (IH v1). destruct (veeam_data rd s strict clusters v1) as [v'|e].
    - destruct IH as [Hr Hm]. split.
      + intros Hst. unfold veeam_readable. cbn [forallb]. rewrite (Hok Hst). by apply Hr.
      + intros c'. destruct (Hm c') as [-> ->]. rewrite H1, H2. unfold veeam_told. by rewrite Hv1, Hv2.
    - destruct IH as [-> Hr]. split; [done|]. unfold veeam_readable in *. cbn [forallb]. rewrite Hr. apply andb_false_r. }
  clear IH H1 H2. destruct (in_scope s c && veeam_allowed s c) eqn:Hsa.
  - apply andb_true_iff in Hsa as [Hs Ha]. rewrite Hs, Ha in *. cbn [negb orb] in *. unfold veeam_readable in *. cbn [forallb] in *.
    rewrite Hs, Ha in *. cbn [negb orb] in *.
    destruct (ListVeeamGuestProtectionForCluster rd c) as [rows|e]; [|destruct strict; [done|]];
      destruct (ListVeeamInfrastructureGuestsForCluster rd c) as [owned|e']; try (destruct strict; [done|]); by apply Hgo.
  - assert (negb (in_scope s c) || negb (veeam_allowed s c) = true) as Hn by (by destruct (in_scope s c), (veeam_allowed s c)).
    rewrite Hn in *. apply Hgo; [intros; by destruct (ListVeeamGuestProtectionForCluster rd c)|intros; by destruct (ListVeeamInfrastructureGuestsForCluster rd c)|done].
Qed.

(** ** The computation is the direct reading *)

(** PBS allows no colon in the id of a backup. *)
Definition plain_ids (rd : CoverageReads) : bool :=
  forallb (λ p, negb (contains (bytes_of (ps_BackupID p)) colon)) (snapshots rd).

Lemma plain_ids_elem rd p : plain_ids rd = true → p ∈ snapshots rd → colon ∉ bytes_of (ps_BackupID p).
Proof.
  unfold plain_ids. rewrite forallb_forall. intros Hpl Hp%list_elem_of_In. by apply contains_false, negb_true_iff, Hpl.
Qed.

Section reference.
Context `{MR : MapRange}.

Lemma on_stores_mounts rd s (ds : gmap uuid (gmap string bool)) vm p :
  (∀ c d, is_Some (default ∅ (ds !! c) !! d) ↔ mounts rd s c d = true) → (colon ∉ bytes_of (ps_BackupID p)) →
  on_stores (go_range (default ∅ (ds !! vm_ClusterID vm))) (Itoa (vm_Vmid vm)) p = backs_up rd s vm p.
Proof.
  intros Hds Hp. apply eq_true_iff_eq. unfold on_stores, backs_up. rewrite andb_true_iff, bool_decide_eq_true, <-Hds.
  rewrite existsb_elem_of. split.
  - intros ([d b] & Hin%elem_of_go_range & Hk%bool_decide_eq_true). simpl in *.
    apply backup_key_inj in Hk as [-> ->]; [|done|apply Itoa_colon]. split; [by eexists|done].
  - intros [[b Hb] Hid]. exists (ps_Datastore p, b). split; [by apply elem_of_go_range|].
    unfold with_key. rewrite Hid. by apply bool_decide_eq_true.
Qed.

(** What the three maps have to hold for an entry to be the direct reading. *)
Lemma cover_coverage rd s ds m v now threshold vm :
  plain_ids rd = true →
  (∀ c d, is_Some (default ∅ (ds !! c) !! d) ↔ mounts rd s c d = true) → keeps_figures m (snapshots rd) →
  (∀ c, vm_rows v !! c = veeam_told s (ok_list (ListClusters rd)) (ListVeeamGuestProtectionForCluster rd) by_vmid ∅ c ∧
        vm_owned v !! c = veeam_told s (ok_list (ListClusters rd)) (ListVeeamInfrastructureGuestsForCluster rd) owned_by ∅ c) →
  cover ds m v now threshold vm = coverage rd s now threshold vm.
Proof.
  intros Hpl Hds Hm Hv. unfold cover, coverage, backup_times. rewrite (tally_spec m (snapshots rd)) by done.
  rewrite (filter_ext_in _ (backs_up rd s vm)), length_fmap.
  2:{ intros p Hp%list_elem_of_In. apply on_stores_mounts; [done|]. by eapply plain_ids_elem. }
  destruct (Hv (vm_ClusterID vm)) as [-> ->]. f_equal; unfold guest_role, guest_row, veeam_told, visible.
  - destruct (ListVeeamInfrastructureGuestsForCluster rd (vm_ClusterID vm)); simpl.
    + unfold veeam_asked. case_match; [|done]. apply owned_by_lookup.
    + by case_match.
  - destruct (ListVeeamGuestProtectionForCluster rd (vm_ClusterID vm)); simpl.
    + unfold veeam_asked. case_match; [|done]. apply by_vmid_lookup.
    + by case_match.
Qed.

Lemma Compute_cases rd s o clock :
  plain_ids rd = true →
  match Compute rd s o clock with
  | Ok entries => readable rd s o = true ∧
      entries = coverage rd s (Unix (default clock (op_Now o))) (stale_after o `div` second) <$>
                  List.filter (λ vm, in_scope s (vm_ClusterID vm)) (ok_list (ListAllVMs rd))
  | Err _ => readable rd s o = false
  end.
Proof.
  intros Hpl. unfold Compute, readable. set (now := default clock (op_Now o)). clearbody now.
  destruct (ListAllVMs rd) as [vms|]; [|done]. destruct (ListClusters rd) as [clusters|] eqn:Hcl; [|done].
  cbn [is_ok andb ok_list]. pose proof (mounted_spec rd s clusters ∅) as Hds.
  destruct (mounted rd s clusters ∅) as [ds|]; [destruct Hds as [-> Hds]|by rewrite Hds].
  cbn [andb]. destruct (ListPBSServers rd) as [servers|] eqn:Hsv; [|done]. cbn [is_ok andb ok_list].
  assert (keeps_figures ∅ []) as He by (intros key; apply lookup_empty). pose proof (backups_spec rd servers ∅ [] He) as Hm.
  destruct (backups rd servers ∅) as [m|]; [destruct Hm as [-> Hm]|by rewrite Hm]. cbn [andb].
  pose proof (veeam_data_spec rd s (op_VeeamStrict o) clusters {| vm_rows := ∅; vm_owned := ∅ |}) as Hv.
  fold (veeam_readable rd s clusters). destruct (veeam_data _ _ _ _ _) as [v|]; [|by destruct Hv as [-> ->]].
  destruct Hv as [Hr Hv]. split.
  { destruct (op_VeeamStrict o); [by rewrite Hr|done]. }
  apply list_fmap_ext. intros i vm _. apply cover_coverage; [done| | |].
  - intros c d. rewrite Hds. unfold mounts, visible. rewrite Hcl, !andb_true_iff, contains_spec. simpl.
    rewrite lookup_empty. simpl. rewrite lookup_empty. unfold is_Some. naive_solver.
  - unfold snapshots. by rewrite Hsv.
  - by rewrite Hcl.
Qed.

End reference.

(** ** What the caller may not see *)

(** A cluster in scope mounts the datastore. *)
Definition within_reach (rd : CoverageReads) (s : Scope) (p : PbsSnapshot) : bool :=
  existsb (λ c, mounts rd s c (ps_Datastore p)) (ok_list (ListClusters rd)).

(** Two databases that agree on what the scope covers, and on which of its reads fail: the guests and clusters in scope,
    the storage of these clusters, the snapshots in the datastores they mount, and the Veeam data of the clusters whose
    Veeam data the caller may see. *)
Record same_view (s : Scope) (o : Options) (rd rd' : CoverageReads) : Prop := {
  sv_readable : readable rd s o = readable rd' s o;
  sv_vms : List.filter (λ vm, in_scope s (vm_ClusterID vm)) (ok_list (ListAllVMs rd)) =
           List.filter (λ vm, in_scope s (vm_ClusterID vm)) (ok_list (ListAllVMs rd'));
  sv_visible : ∀ c, visible rd s c = visible rd' s c;
  sv_pools : ∀ c, in_scope s c = true →
    ok_list (ListStoragePoolsByCluster rd c) = ok_list (ListStoragePoolsByCluster rd' c);
  sv_snapshots : List.filter (within_reach rd s) (snapshots rd) = List.filter (within_reach rd' s) (snapshots rd');
  sv_rows : ∀ c, in_scope s c = true → veeam_allowed s c = true →
    ok_list (ListVeeamGuestProtectionForCluster rd c) = ok_list (ListVeeamGuestProtectionForCluster rd' c);
  sv_owned : ∀ c, in_scope s c = true → veeam_allowed s c = true →
    ok_list (ListVeeamInfrastructureGuestsForCluster rd c) = ok_list (ListVeeamInfrastructureGuestsForCluster rd' c) }.

Lemma visible_scope rd s c : visible rd s c = true → in_scope s c = true.
Proof. by intros [_ ?]%andb_true_iff. Qed.

Lemma backs_up_reach rd s vm p : backs_up rd s vm p = true → within_reach rd s p = true.
Proof.
  intros [Hm _]%andb_true_iff. apply existsb_elem_of. exists (vm_ClusterID vm). split; [|done].
  by apply andb_true_iff in Hm as [[?%contains_spec _]%andb_true_iff _].
Qed.

Lemma backups_in_reach rd s vm :
  List.filter (backs_up rd s vm) (snapshots rd) = List.filter (backs_up rd s vm) (List.filter (within_reach rd s) (snapshots rd)).
Proof.
  induction (snapshots rd) as [|p l IH]; [done|]. simpl. destruct (backs_up rd s vm p) eqn:Hp.
  - rewrite (backs_up_reach _ _ _ _ Hp). simpl. by rewrite Hp, IH.
  - rewrite IH. destruct (within_reach rd s p); [|done]. simpl. by rewrite Hp.
Qed.

Section confined.
Context (s : Scope) (o : Options) (rd rd' : CoverageReads) (Hsv : same_view s o rd rd').

Lemma mounts_same c d : mounts rd s c d = mounts rd' s c d.
Proof.
  unfold mounts. rewrite <-(sv_visible _ _ _ _ Hsv). destruct (visible rd s c) eqn:Hv; [|done].
  by rewrite (sv_pools _ _ _ _ Hsv) by (by eapply visible_scope).
Qed.

Lemma backup_times_same vm : backup_times rd s vm = backup_times rd' s vm.
Proof.
  unfold backup_times. rewrite !backups_in_reach, (sv_snapshots _ _ _ _ Hsv). f_equal. apply filter_ext. intros p.
  unfold backs_up. by rewrite mounts_same.
Qed.

Lemma guest_row_same vm : guest_row rd s vm = guest_row rd' s vm.
Proof.
  unfold guest_row. rewrite <-(sv_visible _ _ _ _ Hsv). destruct (visible rd s _) eqn:Hv; [|done].
  destruct (veeam_allowed s _) eqn:Ha; [|done]. by rewrite (sv_rows _ _ _ _ Hsv) by (done || by eapply visible_scope).
Qed.

Lemma guest_role_same vm : guest_role rd s vm = guest_role rd' s vm.
Proof.
  unfold guest_role. rewrite <-(sv_visible _ _ _ _ Hsv). destruct (visible rd s _) eqn:Hv; [|done].
  destruct (veeam_allowed s _) eqn:Ha; [|done]. by rewrite (sv_owned _ _ _ _ Hsv) by (done || by eapply visible_scope).
Qed.

Lemma coverage_same now threshold vm : coverage rd s now threshold vm = coverage rd' s now threshold vm.
Proof. unfold coverage. by rewrite guest_role_same, guest_row_same, backup_times_same. Qed.
End confined.

Section route.
Context `{MR : MapRange}.

End route.

(** ** Recent *)

Lemma maximum_elem l : 0 < maximum l → maximum l ∈ l.
Proof.
  unfold maximum. induction l as [|x l IH]; simpl; [lia|]. intros Hpos.
  destruct (Z.max_spec x (foldr Z.max 0 l)) as [[? ->]|[? ->]]; [|by left]. right. apply IH. lia.
Qed.

Lemma newest_elem points p : newest points = Some p → p ∈ points.
Proof.
  revert p. induction points as [|q points IH]; simpl; [done|]. intros p. destruct (newest points) as [q'|].
  - case_match; intros [= <-]; [right; by apply IH|by left].
  - intros [= <-]. by left.
Qed.

(** Where a positive figure for the freshest point comes from. *)
Lemma fresher_source times row :
  0 < fresher (maximum times) row →
  fresher (maximum times) row ∈ times ∨
  ∃ r t, row = Some r ∧ vg_LatestRestorePoint r = Some t ∧ Unix t = fresher (maximum times) row.
Proof.
  unfold fresher. destruct row as [r|]; simpl; [|intros; left; by apply maximum_elem].
  destruct (vg_LatestRestorePoint r) as [t|] eqn:Ht; [|intros; left; by apply maximum_elem].
  case_match; [|intros; left; by apply maximum_elem]. intros _. right. eauto.
Qed.

Lemma fresher_pos times row : 0 ≤ fresher (maximum times) row.
Proof. pose proof (maximum_pos times). unfold fresher. repeat case_match; lia. Qed.

Lemma Verdict_recent eligibility pbs veeam freshest now threshold :
  (Verdict eligibility pbs veeam freshest now threshold).2 = StatusRecent →
  eligibility = Eligible ∧ pbs || veeam = true ∧ int64 (now - freshest) < threshold.
Proof.
  unfold Verdict. destruct (bool_decide_reflect (eligibility = Eligible)) as [->|]; [|done]. simpl.
  destruct pbs, veeam; simpl; try done; destruct (Z.ltb_spec (int64 (now - freshest)) threshold); done.
Qed.

(** The row of a guest is one of what the query answered for its cluster. *)
Lemma guest_row_read rd s vm r :
  guest_row rd s vm = Some r →
  visible rd s (vm_ClusterID vm) = true ∧ veeam_allowed s (vm_ClusterID vm) = true ∧ vg_Vmid r = vm_Vmid vm ∧
  ∃ rows, ListVeeamGuestProtectionForCluster rd (vm_ClusterID vm) = Ok rows ∧ r ∈ rows.
Proof.
  unfold guest_row. destruct (visible _ _ _), (veeam_allowed _ _); simpl; try done.
  intros Hr%last_Some_elem_of%list_elem_of_In%filter_In. destruct Hr as [Hin%list_elem_of_In Hv%Z.eqb_eq].
  repeat split; [done|]. destruct (ListVeeamGuestProtectionForCluster _ _) as [rows|]; [eauto|]. by apply elem_of_nil in Hin.
Qed.

(** A time that the query answers for a guest is the time of a restore point of the guest. *)
Lemma veeam_row_point objs points cluster r t :
  r ∈ listVeeamGuestProtectionForCluster objs points cluster → vg_LatestRestorePoint r = Some t →
  ∃ p, p ∈ points_for objs points cluster (vg_Vmid r) ∧ rp_CreationTime p = t.
Proof.
  intros (vmid & -> & _)%list_elem_of_fmap. simpl. intros (p & Hp%newest_elem & ->)%fmap_Some. eauto.
Qed.

Lemma points_for_elem objs points cluster vmid p : p ∈ points_for objs points cluster vmid → p ∈ points.
Proof. unfold points_for. intros (ob & [Hp _]%list_elem_of_In%filter_In & _)%list_elem_of_bind. by apply list_elem_of_In. Qed.

(** A point of the guest that the caller may see, of the given time in seconds. *)
Definition restorable (rd : CoverageReads) (s : Scope) (objs : list VeeamObject) (points : list RestorePoint) (vm : VM)
    (t : Z) : Prop :=
  (∃ p, p ∈ snapshots rd ∧ backs_up rd s vm p = true ∧ ps_BackupTime p = t) ∨
  (veeam_allowed s (vm_ClusterID vm) = true ∧
   ∃ p, p ∈ points_for objs points (vm_ClusterID vm) (vm_Vmid vm) ∧ Unix (rp_CreationTime p) = t).

(** Where the caller may see the list of Veeam's own guests and it could be read, the guest is not on it as a backup
    server, nor is worker the first role it is listed with. *)
Definition not_appliance (rd : CoverageReads) (s : Scope) (vm : VM) : Prop :=
  ∀ rows, visible rd s (vm_ClusterID vm) = true → veeam_allowed s (vm_ClusterID vm) = true →
    ListVeeamInfrastructureGuestsForCluster rd (vm_ClusterID vm) = Ok rows →
    ((vm_Vmid vm, "backup_server") ∉ rows) ∧
    head (List.filter (λ r : Z * string, r.1 =? vm_Vmid vm) rows).*2 ≠ Some "worker".

Lemma eligible_not_appliance rd s vm : eligibility_of (guest_role rd s vm) = Eligible → not_appliance rd s vm.
Proof.
  unfold guest_role. intros He rows Hv Ha Hr. rewrite Hv, Ha, Hr in He. simpl in He.
  set (roles := (List.filter _ rows).*2) in *. destruct (contains roles "backup_server") eqn:Hc; [done|]. split.
  - intros Hin. assert (contains roles "backup_server" = true) as Ht; [|congruence]. apply contains_spec.
    unfold roles. apply list_elem_of_fmap. exists (vm_Vmid vm, "backup_server"). split; [done|].
    apply list_elem_of_In, filter_In. simpl. rewrite Z.eqb_refl. split; [by apply list_elem_of_In|done].
  - intros Hh. rewrite Hh in He. simpl in He. unfold eligibility_of in He. by vm_compute in He.
Qed.

Section recent.
Context `{MR : MapRange} (rd : CoverageReads) (s : Scope) (objs : list VeeamObject) (points : list RestorePoint).
Hypothesis veeam_read : ∀ c rows, ListVeeamGuestProtectionForCluster rd c = Ok rows →
  rows = listVeeamGuestProtectionForCluster objs points c.

Lemma freshest_restorable vm :
  0 < fresher (maximum (backup_times rd s vm)) (guest_row rd s vm) →
  restorable rd s objs points vm (fresher (maximum (backup_times rd s vm)) (guest_row rd s vm)).
Proof.
  intros [Hin|(r & t & Hr & Ht & <-)]%fresher_source; [left|right].
  - apply list_elem_of_fmap in Hin as (p & -> & Hp%list_elem_of_In%filter_In). destruct Hp as [Hp%list_elem_of_In Hb]. eauto.
  - apply guest_row_read in Hr as (_ & Ha & Hv & rows & Hrows & Hr). split; [done|].
    apply veeam_read in Hrows as ->. destruct (veeam_row_point _ _ _ _ _ Hr Ht) as (p & Hp & <-). rewrite Hv in Hp. eauto.
Qed.

Lemma threshold_pos o : 0 ≤ stale_after o `div` second.
Proof.
  apply Z.div_pos; [|done]. unfold stale_after. destruct (Z.leb_spec (op_StaleAfter o) 0); [|lia].
  apply Z.leb_le. by vm_compute.
Qed.

(** C30: what calling a guest recent rests on. There is a snapshot with its number as backup id in a datastore that has
    the name of a PBS storage of its cluster (on any PBS server: datastores of one name are one here), or, where the
    caller may view the Veeam data of its cluster, a restore point of one of its Veeam objects, and it is younger than
    the threshold. And where the caller may view the Veeam data of its cluster and the list of Veeam's own guests could
    be read, it is not listed there as a backup server, nor first as a worker; where not, an appliance is judged as any
    other guest. The times are taken to fit 64 bits, the threshold not to reach back to 1970, and backup ids to have no
    colon. *)
Theorem recent_means_restorable o clock entries e :
  plain_ids rd = true → Compute rd s o clock = Ok entries → e ∈ entries → e_CoverageStatus e = StatusRecent →
  stale_after o `div` second ≤ Unix (default clock (op_Now o)) ≤ maxInt64 →
  (∀ vm t, restorable rd s objs points vm t → t ≤ maxInt64) →
  ∃ vm t, vm ∈ ok_list (ListAllVMs rd) ∧ in_scope s (vm_ClusterID vm) = true ∧
    e_VMID e = vm_Vmid vm ∧ e_ClusterID e = vm_ClusterID vm ∧ e_Eligibility e = Eligible ∧ not_appliance rd s vm ∧
    restorable rd s objs points vm t ∧ Unix (default clock (op_Now o)) - t < stale_after o `div` second.
Proof.
  intros Hpl Hc He Hrec Hnow Hfit. pose proof (Compute_cases rd s o clock Hpl) as H. rewrite Hc in H.
  destruct H as [_ ->]. apply list_elem_of_fmap in He as (vm & -> & Hvm%list_elem_of_In%filter_In).
  destruct Hvm as [Hvm%list_elem_of_In Hs]. unfold coverage, entry_of in Hrec |- *.
  set (times := backup_times rd s vm) in *. set (row := guest_row rd s vm) in *.
  set (now := Unix _) in *. set (threshold := stale_after o `div` second) in *.
  destruct (Verdict _ _ _ _ _ _) as [protection status] eqn:Hv in Hrec |- *. simpl in Hrec. subst status.
  assert ((protection, StatusRecent).2 = StatusRecent) as Hr by done. rewrite <-Hv in Hr.
  apply Verdict_recent in Hr as (Hel & _ & Hyoung). pose proof (fresher_pos times row) as Hpos.
  pose proof (threshold_pos o) as Hth. fold threshold in Hth. unfold maxInt64, minInt64 in *.
  destruct (decide (fresher (maximum times) row = 0)) as [H0|H0].
  { rewrite H0 in Hyoung. rewrite int64_id in Hyoung; unfold maxInt64, minInt64; lia. }
  assert (0 < fresher (maximum times) row) as Hres%freshest_restorable by lia. pose proof (Hfit _ _ Hres) as Hmax.
  fold times row in Hres, Hmax.
  rewrite int64_id in Hyoung by (unfold maxInt64, minInt64; lia). exists vm, (fresher (maximum times) row).
  split_and!; try done. by apply eligible_not_appliance.
Qed.
End recent.

(** ** An installation *)

Module CoverageCase.

#[local] Existing Instance map_to_list_range.

Definition day : Z := 24 * 60 * minute.
Definition web (c : uuid) : VM := {|
  vm_Vmid := 100; vm_Name := "web"; vm_Type := "qemu"; vm_Status := "running"; vm_ClusterID := c; vm_NodeID := 7 |}.
Definition sql : VM := {|
  vm_Vmid := 101; vm_Name := "sql"; vm_Type := "qemu"; vm_Status := "running"; vm_ClusterID := 1; vm_NodeID := 7 |}.

Definition objs : list VeeamObject := [
  {| vo_ID := 31; vo_ClusterID := Some 1; vo_Vmid := Some 101; vo_MatchMethod := "name"; vo_LastRunFailed := false |};
  {| vo_ID := 32; vo_ClusterID := Some 1; vo_Vmid := Some 101; vo_MatchMethod := "smbios"; vo_LastRunFailed := true |}].
Definition points : list RestorePoint := [
  {| rp_Object := 31; rp_CreationTime := 99 * day; rp_SizeBytes := 4096; rp_MalwareStatus := "Clean" |};
  {| rp_Object := 32; rp_CreationTime := 98 * day; rp_SizeBytes := 4096; rp_MalwareStatus := "Suspicious" |}].

(** Two clusters with a guest 100 each; only the second one's guest has been backed up of late. *)
Definition rd (latest : Z) : CoverageReads := {|
  ListAllVMs := Ok [web 1; web 2; sql];
  ListClusters := Ok [1; 2];
  ListStoragePoolsByCluster := λ c, Ok [{| pl_Type := "dir"; pl_Storage := "local" |};
                                        {| pl_Type := "pbs"; pl_Storage := if c =? 1 then "store01" else "store02" |}];
  ListPBSServers := Ok [5];
  ListPBSSnapshotsByServer := λ _, Ok [
    {| ps_Datastore := "store01"; ps_BackupID := "100"; ps_BackupTime := Unix (50 * day) |};
    {| ps_Datastore := "store02"; ps_BackupID := "100"; ps_BackupTime := Unix latest |}];
  ListVeeamGuestProtectionForCluster := λ c, Ok (listVeeamGuestProtectionForCluster objs points c);
  ListVeeamInfrastructureGuestsForCluster := λ _, Ok [] |}.

Definition everything : Scope := {| sc_Cluster := None; sc_Veeam := Some (λ _, true) |}.
Definition defaults : Options := {| op_StaleAfter := 0; op_Now := None; op_VeeamStrict := true |}.
Definition clock : Z := 99 * day + 60 * minute.

(** The first guest 100 is stale though the other one has a backup of this hour, and the guest that only Veeam backs up is
    recent by the newest of its two points. *)
Example verdicts :
  result_map (fmap (λ e, (e_Name e, e_ClusterID e, e_Protection e, e_CoverageStatus e))) (Compute (rd clock) everything defaults clock) =
  Ok [("web", 1, "pbs", "stale"); ("web", 2, "pbs", "recent"); ("sql", 1, "veeam", "recent")].
Proof. vm_compute. reflexivity. Qed.


(** The caller may view the backups of the first cluster; the second one's are of another day. *)
Definition one : clusterAccess := {| HasGlobal := false; Allowed := {[1 := true]} |}.


Lemma times_fit vm t : restorable (rd clock) everything objs points vm t → t ≤ maxInt64.
Proof.
  intros [(p & Hp & _ & <-)|(_ & p & Hp%points_for_elem & <-)]; apply Z.leb_le.
  - unfold snapshots in Hp. simpl in Hp. rewrite !elem_of_cons, elem_of_nil in Hp. by destruct Hp as [->|[->|[]]].
  - unfold points in Hp. rewrite !elem_of_cons, elem_of_nil in Hp. by destruct Hp as [->|[->|[]]].
Qed.

Lemma recent_means_restorable_witness :
  ∃ vm t, vm ∈ [web 1; web 2; sql] ∧ vm_Vmid vm = 101 ∧ restorable (rd clock) everything objs points vm t ∧
    Unix clock - t < 86400.
Proof.
  destruct (recent_means_restorable (rd clock) everything objs points ltac:(by intros c rows [= <-]) defaults clock
              (ok_list (Compute (rd clock) everything defaults clock))
              (coverage (rd clock) everything (Unix clock) 86400 sql)) as (vm & t & Hvm & _ & Hid & _ & _ & _ & Ht & Hy).
  - reflexivity.
  - vm_compute. reflexivity.
  - vm_compute. right. right. left.
  - vm_compute. reflexivity.
  - vm_compute. by split.
  - exact times_fit.
  - exists vm, t. by split_and!.
Defined.
End CoverageCase.
