(* ===== verification/NetGuard.v ===== *)
(** * Addresses that may be connected to

    [netguard/netguard.go] and [api/handlers/url_policy.go], with the methods of
    Go's [net.IP] they call. An address is the bytes Go keeps, 4 or 16 of them, most
    significant first, each a number below 256.

    The parsers of [net] and [net/url] are the classes [NetText], [UrlParser] and
    [UrlDetails]; nothing is asked of them. [LookupIPAddr] is the answer of the
    resolver. [NewHTTPClient] is a configuration of [net/http] and is left out.

    - [address_policy]: the tests on bytes are the ranges of
      addresses the comments name, for an IPv4 address in either form. *)

From S2P Require Import Prelude GoStrings ProxmoxApi RbacEngine.

Local Open Scope Z_scope.

(** ** [net.IP] *)

Abbreviation IP := (list Z).

Definition v4_in_v6 : IP := [0; 0; 0; 0; 0; 0; 0; 0; 0; 0; 255; 255].

(** [net.IPv4] *)
Definition IPv4 (a b c d : Z) : IP := v4_in_v6 ++ [a; b; c; d].

(** [To4]; [None] is [nil]. *)
Definition To4 (ip : IP) : option IP :=
  if bool_decide (length ip = 4%nat) then Some ip
  else if bool_decide (length ip = 16%nat) && bool_decide (take 12 ip = v4_in_v6) then Some (drop 12 ip)
  else None.

(** [Equal]: the two forms of an IPv4 address are the same address. *)
Definition IP_Equal (ip x : IP) : bool :=
  if bool_decide (length ip = length x) then bool_decide (ip = x)
  else if bool_decide (length ip = 4%nat) && bool_decide (length x = 16%nat) then
    bool_decide (take 12 x = v4_in_v6) && bool_decide (ip = drop 12 x)
  else if bool_decide (length ip = 16%nat) && bool_decide (length x = 4%nat) then
    bool_decide (take 12 ip = v4_in_v6) && bool_decide (drop 12 ip = x)
  else false.

Definition byte_at (ip : IP) (i : nat) : Z := default 0 (ip !! i).

Definition IPv4zero : IP := IPv4 0 0 0 0.
Definition IPv6unspecified : IP := replicate 16 0.
Definition IPv6loopback : IP := replicate 15 0 ++ [1].

Definition IsUnspecified (ip : IP) : bool := IP_Equal ip IPv4zero || IP_Equal ip IPv6unspecified.

Definition IsLoopback (ip : IP) : bool :=
  match To4 ip with Some ip4 => byte_at ip4 0 =? 127 | None => IP_Equal ip IPv6loopback end.

Definition IsPrivate (ip : IP) : bool :=
  match To4 ip with
  | Some ip4 => (byte_at ip4 0 =? 10) || ((byte_at ip4 0 =? 172) && (Z.land (byte_at ip4 1) 0xf0 =? 16)) ||
                ((byte_at ip4 0 =? 192) && (byte_at ip4 1 =? 168))
  | None => bool_decide (length ip = 16%nat) && (Z.land (byte_at ip 0) 0xfe =? 0xfc)
  end.

Definition IsMulticast (ip : IP) : bool :=
  match To4 ip with
  | Some ip4 => Z.land (byte_at ip4 0) 0xf0 =? 0xe0
  | None => bool_decide (length ip = 16%nat) && (byte_at ip 0 =? 0xff)
  end.

Definition IsLinkLocalUnicast (ip : IP) : bool :=
  match To4 ip with
  | Some ip4 => (byte_at ip4 0 =? 169) && (byte_at ip4 1 =? 254)
  | None => bool_decide (length ip = 16%nat) && (byte_at ip 0 =? 0xfe) && (Z.land (byte_at ip 1) 0xc0 =? 0x80)
  end.

Definition IsLinkLocalMulticast (ip : IP) : bool :=
  match To4 ip with
  | Some ip4 => (byte_at ip4 0 =? 224) && (byte_at ip4 1 =? 0) && (byte_at ip4 2 =? 0)
  | None => bool_decide (length ip = 16%nat) && (byte_at ip 0 =? 0xff) && (Z.land (byte_at ip 1) 0x0f =? 0x02)
  end.

(** [net.IPNet], with its mask as bytes, and [Contains]. *)
Record IPNet := { net_IP : IP; net_Mask : list Z }.

Definition IPNet_Contains (n : IPNet) (ip : IP) : bool :=
  let ip := match To4 ip with Some ip4 => ip4 | None => ip end in
  bool_decide (length ip = length (net_IP n)) &&
  forallb (λ x : Z * Z * Z, Z.land x.1.1 x.2 =? Z.land x.1.2 x.2) (zip (zip (net_IP n) ip) (net_Mask n)).

(** ** [netguard.go] *)

Definition cloudMetadataIPv4 : IP := IPv4 169 254 169 254.

Definition IsCloudMetadataIP (ip : IP) : bool :=
  match To4 ip with Some ip4 => IP_Equal ip4 cloudMetadataIPv4 | None => false end.

(** A [nil] address is [None]. *)
Definition IsAlwaysBlocked (ip : option IP) : bool :=
  match ip with
  | None => false
  | Some ip =>
      if IsCloudMetadataIP ip then true
      else if IsUnspecified ip || IsMulticast ip then true
      else match To4 ip with
           | Some ip4 =>
               if (byte_at ip4 0 =? 255) && (byte_at ip4 1 =? 255) && (byte_at ip4 2 =? 255) && (byte_at ip4 3 =? 255) then true
               else Z.land (byte_at ip4 0) 0xf0 =? 0xf0
           | None => false
           end
  end.

(** [net.SplitHostPort], [net.ParseIP] and the text of an address *)
Class NetText := {
  SplitHostPort : string → option (string * string); ParseIP : string → option IP; IP_String : IP → string }.

(** What else [validateURLFormat] asks of an address that [url.Parse] accepts. *)
Class UrlDetails := { url_Host : string → string; url_HasUser : string → bool }.

(** [strings.HasSuffix] and [strings.TrimSuffix] *)
Definition HasSuffix (s p : string) : bool :=
  bool_decide (slen p ≤ slen s)%nat && bool_decide (sdrop (slen s - slen p) s = p).
Definition TrimSuffix (s p : string) : string := if HasSuffix s p then stake (slen s - slen p) s else s.

Section policy.
Context `{NT : NetText} `{UP : UrlParser} `{UD : UrlDetails}.

(** [None] lets the dialer go on. *)
Definition DialControlSSRFGuard (address : string) : option string :=
  match SplitHostPort address with
  | None => None
  | Some (host, _) =>
      match ParseIP host with
      | None => None
      | Some ip => if IsAlwaysBlocked (Some ip) then Some ("blocked SSRF target: " +:+ IP_String ip) else None
      end
  end.

(** ** [url_policy.go] *)

Record addressPolicyError := { ae_HardReject : bool; ae_IP : string; ae_Reason : string }.

Definition validateURLFormat (raw : string) : option reply :=
  match url_Parse raw with
  | None => Some (fiber_error 400 "Invalid URL format")
  | Some u =>
      if bool_decide (u_Scheme u = "") || bool_decide (url_Host raw = "") then
        Some (fiber_error 400 "URL must include scheme and host")
      else if negb (bool_decide (u_Scheme u = "https")) then Some (fiber_error 400 "URL must use HTTPS scheme")
      else if url_HasUser raw then Some (fiber_error 400 "URL must not contain credentials")
      else None
  end.

Definition cgnatNet : IPNet := {| net_IP := [100; 64; 0; 0]; net_Mask := [255; 192; 0; 0] |}.
Definition ipv6SiteLocal : IPNet := {| net_IP := 0xfe :: 0xc0 :: replicate 14 0; net_Mask := 255 :: 192 :: replicate 14 0 |}.

Definition isPrivateOrReservedIP (ip : IP) : bool :=
  if IsLoopback ip || IsPrivate ip || IsLinkLocalUnicast ip || IsLinkLocalMulticast ip then true
  else if match To4 ip with Some ip4 => IPNet_Contains cgnatNet ip4 | None => false end then true
  else IPNet_Contains ipv6SiteLocal ip.

Definition classifyIP (ip : option IP) (allowPrivate : bool) : option addressPolicyError :=
  match ip with
  | None => None
  | Some a =>
      if IsAlwaysBlocked ip then
        Some {| ae_HardReject := true; ae_IP := IP_String a;
                ae_Reason :=
                  if IsCloudMetadataIP a then
                    "Address resolves to the cloud instance metadata service IP (169.254.169.254). Connections to this address are never allowed."
                  else "Address resolves to a blocked IP class (" +:+ IP_String a +:+
                       "). Cloud metadata, multicast, broadcast, Class E, and unspecified addresses are never allowed." |}
      else if isPrivateOrReservedIP a && negb allowPrivate then
        Some {| ae_HardReject := false; ae_IP := IP_String a;
                ae_Reason := "Address resolves to a private/loopback IP (" +:+ IP_String a +:+
                             "). Self-hosted lab setups can re-submit with allow_private=true to confirm." |}
      else None
  end.

(** The name that is looked up for a host. *)
Definition policy_host (host : string) : string :=
  let host := TrimSpace host in
  if bool_decide (host = "") then ""
  else match SplitHostPort host with
       | Some (h, _) => h
       | None => TrimPrefix (TrimSuffix host "]") "["
       end.

(** [resolveHostIPs], by the answer of the resolver. *)
Definition resolveHostIPs (host : string) (looked_up : result string (list IP)) : result string (list IP) :=
  match ParseIP host with Some literal => Ok [literal] | None => looked_up end.

Definition first_refusal (allowPrivate : bool) (ips : list IP) : option addressPolicyError :=
  head (omap (λ ip, classifyIP (Some ip) allowPrivate) ips).

Definition enforceHostAddressPolicy (host : string) (looked_up : result string (list IP)) (allowPrivate : bool) :
    option addressPolicyError :=
  if bool_decide (TrimSpace host = "") then None
  else match resolveHostIPs (policy_host host) looked_up with
       | Err _ => None
       | Ok ips => first_refusal allowPrivate ips
       end.

Definition enforceURLAddressPolicy (raw : string) (looked_up : result string (list IP)) (allowPrivate : bool) :
    option addressPolicyError :=
  match url_Parse raw with
  | None => None
  | Some u => enforceHostAddressPolicy (u_Hostname u) looked_up allowPrivate
  end.

Definition renderAddressPolicyError (e : addressPolicyError) : reply :=
  if ae_HardReject e then fiber_error 400 (ae_Reason e) else fiber_error 422 "private_address_confirm_required".
End policy.

(** ** The ranges *)

(** The number of an IPv4 address. *)
Definition number (a b c d : Z) : Z := ((a * 256 + b) * 256 + c) * 256 + d.

(** An IPv4 address in one of its two forms. *)
Definition is_v4 (ip : IP) (a b c d : Z) : Prop :=
  (ip = [a; b; c; d] ∨ ip = IPv4 a b c d) ∧ Forall (λ x, 0 ≤ x < 256) [a; b; c; d].

Lemma To4_v4 ip a b c d : is_v4 ip a b c d → To4 ip = Some [a; b; c; d].
Proof. by intros [[->| ->] _]. Qed.

Lemma Equal_v4 ip a b c d a' b' c' d' :
  is_v4 ip a b c d → IP_Equal ip (IPv4 a' b' c' d') = bool_decide ((a, b, c, d) = (a', b', c', d')).
Proof.
  intros [[->| ->] _]; unfold IP_Equal; simpl; apply bool_decide_ext; (split; [by intros [= -> -> -> ->]|naive_solver]).
Qed.

(** The high bits of a byte, as a range. *)
Lemma land_high x m k : 0 ≤ x < 256 → Forall (λ v, (Z.land v m =? k) = bool_decide (k ≤ v < k + (256 - m))) (seqZ 0 256) →
  (Z.land x m =? k) = bool_decide (k ≤ x < k + (256 - m)).
Proof. intros Hx Hall. rewrite Forall_forall in Hall. apply Hall. apply elem_of_seqZ. lia. Qed.

Ltac bytes := match goal with |- ?P => apply (bool_decide_unpack P); vm_compute; done end.
Ltac high_bits := apply land_high; [done|]; bytes.

Lemma unspecified_v4 ip a b c d : is_v4 ip a b c d → IsUnspecified ip = bool_decide ((a, b, c, d) = (0, 0, 0, 0)).
Proof.
  intros Hv. unfold IsUnspecified, IPv4zero. rewrite (Equal_v4 ip a b c d) by done.
  assert (IP_Equal ip IPv6unspecified = false) as -> by (destruct Hv as [[->| ->] _]; done). apply orb_false_r.
Qed.

Lemma metadata_v4 ip a b c d : is_v4 ip a b c d → IsCloudMetadataIP ip = bool_decide ((a, b, c, d) = (169, 254, 169, 254)).
Proof.
  intros Hv. unfold IsCloudMetadataIP, cloudMetadataIPv4. rewrite (To4_v4 ip a b c d) by done. apply Equal_v4.
  split; [by left|apply Hv].
Qed.

(** A byte by byte comparison is one of numbers. *)
Lemma tuple_number a b c d a' b' c' d' :
  Forall (λ x, 0 ≤ x < 256) [a; b; c; d] → Forall (λ x, 0 ≤ x < 256) [a'; b'; c'; d'] →
  (a, b, c, d) = (a', b', c', d') ↔ number a b c d = number a' b' c' d'.
Proof.
  unfold number. rewrite !Forall_cons, !Forall_nil. intros (? & ? & ? & ? & _) (? & ? & ? & ? & _).
  split; [by intros [= -> -> -> ->]|]. intros. repeat f_equal; lia.
Qed.

(** An IPv4 address is always blocked exactly where it is 0.0.0.0, the metadata service or from 224.0.0.0 on. *)
Lemma blocked_v4 ip a b c d :
  is_v4 ip a b c d →
  IsAlwaysBlocked (Some ip) = true ↔
  number a b c d = number 169 254 169 254 ∨ number a b c d = 0 ∨ number 224 0 0 0 ≤ number a b c d.
Proof.
  intros Hv. unfold IsAlwaysBlocked, IsMulticast. rewrite (To4_v4 ip a b c d), (metadata_v4 ip a b c d), (unspecified_v4 ip a b c d) by done.
  destruct Hv as [_ Hb]. pose proof Hb as Hb'. rewrite !Forall_cons in Hb'. destruct Hb' as (Ha & Hb1 & Hc & Hd & _).
  unfold byte_at. simpl.
  assert ((Z.land a 240 =? 224) = bool_decide (224 ≤ a < 224 + (256 - 240))) as -> by high_bits.
  assert ((Z.land a 240 =? 240) = bool_decide (240 ≤ a < 240 + (256 - 240))) as -> by high_bits.
  assert (bool_decide ((a, b, c, d) = (169, 254, 169, 254)) = bool_decide (number a b c d = number 169 254 169 254)) as ->
    by (apply bool_decide_ext, tuple_number; [done|bytes]).
  assert (bool_decide ((a, b, c, d) = (0, 0, 0, 0)) = bool_decide (number a b c d = number 0 0 0 0)) as ->
    by (apply bool_decide_ext, tuple_number; [done|bytes]).
  assert ((a =? 255) && (b =? 255) && (c =? 255) && (d =? 255) = true → 240 ≤ a) as He by lia.
  destruct ((a =? 255) && (b =? 255) && (c =? 255) && (d =? 255)); [specialize (He eq_refl)|clear He]; unfold number in *;
    repeat case_bool_decide; simpl; split; intros; try done; lia.
Qed.

(** The IPv4 ranges that take a confirmation: loopback, RFC 1918, link-local, link-local multicast and CGNAT. *)
Definition private_ranges : list (Z * Z) := [
  (number 127 0 0 0, number 127 255 255 255);
  (number 10 0 0 0, number 10 255 255 255);
  (number 172 16 0 0, number 172 31 255 255);
  (number 192 168 0 0, number 192 168 255 255);
  (number 169 254 0 0, number 169 254 255 255);
  (number 224 0 0 0, number 224 0 0 255);
  (number 100 64 0 0, number 100 127 255 255)].

Definition in_ranges (l : list (Z * Z)) (n : Z) : Prop := Exists (λ r, r.1 ≤ n ≤ r.2) l.

Lemma cgnat_v4 a b c d :
  Forall (λ x, 0 ≤ x < 256) [a; b; c; d] → IPNet_Contains cgnatNet [a; b; c; d] = (a =? 100) && bool_decide (64 ≤ b < 128).
Proof.
  rewrite !Forall_cons. intros (Ha & Hb & Hc & Hd & _).
  assert ((Z.land b 192 =? 64) = bool_decide (64 ≤ b < 64 + (256 - 192))) as Hh by high_bits.
  change (64 + (256 - 192)) with 128 in Hh. rewrite <-Hh.
  change (IPNet_Contains cgnatNet [a; b; c; d]) with
    ((100 =? Z.land a 255) && ((64 =? Z.land b 192) && ((0 =? Z.land c 0) && ((0 =? Z.land d 0) && true)))).
  rewrite !Z.land_0_r, (Z.eqb_sym 100), (Z.eqb_sym 64), andb_true_r. f_equal. f_equal.
  change 255 with (Z.ones 8). rewrite Z.land_ones by lia. by apply Z.mod_small.
Qed.

Lemma private_v4 ip a b c d :
  is_v4 ip a b c d → isPrivateOrReservedIP ip = true ↔ in_ranges private_ranges (number a b c d).
Proof.
  intros Hv. unfold isPrivateOrReservedIP, IsLoopback, IsPrivate, IsLinkLocalUnicast, IsLinkLocalMulticast.
  assert (IPNet_Contains ipv6SiteLocal ip = false) as -> by (destruct Hv as [[->| ->] _]; done).
  rewrite (To4_v4 ip a b c d) by done. destruct Hv as [_ Hb]. rewrite cgnat_v4 by done.
  rewrite !Forall_cons in Hb. destruct Hb as (Ha & Hb & Hc & Hd & _). unfold byte_at. cbn [lookup list_lookup default from_option id].
  assert ((Z.land b 240 =? 16) = bool_decide (16 ≤ b < 16 + (256 - 240))) as -> by high_bits.
  unfold in_ranges, private_ranges. rewrite !Exists_cons, Exists_nil. unfold number. cbn [fst snd].
  destruct (bool_decide_reflect (16 ≤ b < 16 + (256 - 240))), (bool_decide_reflect (64 ≤ b < 128)).
  all: match goal with |- context [if ?x then true else if ?y then true else false] =>
         replace (if x then true else if y then true else false) with (x || y) by by destruct x, y end.
  all: lia.
Qed.

Lemma blocked_v6 ip :
  length ip = 16%nat → To4 ip = None →
  IsAlwaysBlocked (Some ip) = bool_decide (ip = IPv6unspecified) || (byte_at ip 0 =? 255).
Proof.
  intros Hl H4. unfold IsAlwaysBlocked, IsCloudMetadataIP, IsMulticast, IsUnspecified. rewrite H4. simpl.
  assert (IP_Equal ip IPv4zero = false) as ->.
  { unfold IP_Equal. rewrite Hl. simpl. case_bool_decide as He; [|done]. by subst ip. }
  unfold IP_Equal. rewrite Hl. simpl. destruct (bool_decide (ip = IPv6unspecified)), (byte_at ip 0 =? 255); done.
Qed.

#[local] Arguments classifyIP {_} ip allowPrivate : simpl never.

Section sound.
Context `{NT : NetText} `{UP : UrlParser}.

Lemma classify_None ip allowPrivate :
  classifyIP (Some ip) allowPrivate = None ↔
  IsAlwaysBlocked (Some ip) = false ∧ (allowPrivate = true ∨ isPrivateOrReservedIP ip = false).
Proof.
  unfold classifyIP. destruct (IsAlwaysBlocked (Some ip)), (isPrivateOrReservedIP ip), allowPrivate; naive_solver.
Qed.

Lemma first_refusal_None allowPrivate ips :
  first_refusal allowPrivate ips = None ↔ Forall (λ ip, classifyIP (Some ip) allowPrivate = None) ips.
Proof.
  unfold first_refusal. induction ips as [|ip ips IH]; [done|]. rewrite Forall_cons. csimpl.
  destruct (classifyIP (Some ip) allowPrivate); simpl; [split; [done|by intros [? _]]|]. rewrite IH.
  split; [by split|by intros [_ ?]].
Qed.

(** C33: an address is let through exactly where none of what its host resolves to is an address that is never connected
    to and, without the confirmation of the operator, none is a private one. In numbers, an IPv4 address in either form is
    never connected to where it is 0.0.0.0, the metadata service 169.254.169.254 or from 224.0.0.0 on, and private where
    it is in one of [private_ranges]; and a dial to an address that is never connected to is refused even if the host
    resolved to something else before. *)
Theorem address_policy raw u looked_up ips allowPrivate :
  url_Parse raw = Some u → TrimSpace (u_Hostname u) ≠ "" → resolveHostIPs (policy_host (u_Hostname u)) looked_up = Ok ips →
  (enforceURLAddressPolicy raw looked_up allowPrivate = None ↔
   Forall (λ ip, IsAlwaysBlocked (Some ip) = false ∧ (allowPrivate = true ∨ isPrivateOrReservedIP ip = false)) ips) ∧
  (∀ ip a b c d, is_v4 ip a b c d →
     (IsAlwaysBlocked (Some ip) = true ↔
      number a b c d = number 169 254 169 254 ∨ number a b c d = 0 ∨ number 224 0 0 0 ≤ number a b c d) ∧
     (isPrivateOrReservedIP ip = true ↔ in_ranges private_ranges (number a b c d))) ∧
  (∀ address host port ip, SplitHostPort address = Some (host, port) → ParseIP host = Some ip →
     is_Some (DialControlSSRFGuard address) ↔ IsAlwaysBlocked (Some ip) = true).
Proof.
  intros Hu Hh Hips. split_and!.
  - unfold enforceURLAddressPolicy, enforceHostAddressPolicy. rewrite Hu, Hips, bool_decide_eq_false_2 by done.
    rewrite first_refusal_None. apply Forall_iff. intros ip. apply classify_None.
  - intros. split; [by apply blocked_v4|by apply private_v4].
  - intros address host port ip Hs Hp. unfold DialControlSSRFGuard. rewrite Hs, Hp.
    destruct (IsAlwaysBlocked (Some ip)); split; [done|by eexists|by intros []|done].
Qed.
End sound.

(** ** A case *)

Module PolicyCase.

(** Two names, one of which is the metadata service in its IPv6 form. *)
#[local] Instance texts : NetText := {|
  SplitHostPort := λ s, if bool_decide (s = "meta:443") then Some ("meta", "443") else None;
  ParseIP := λ s, if bool_decide (s = "meta") then Some (IPv4 169 254 169 254) else None; IP_String := λ _, "" |}.
#[local] Instance urls : UrlParser :=
  λ s, if bool_decide (s = "https://pve") then Some {| u_Scheme := "https"; u_Hostname := "pve"; u_Port := "" |} else None.

Lemma address_policy_witness :
  enforceURLAddressPolicy "https://pve" (Ok [[192; 168; 1; 5]]) true = None ∧
  enforceURLAddressPolicy "https://pve" (Ok [[192; 168; 1; 5]]) false ≠ None ∧
  is_Some (DialControlSSRFGuard "meta:443").
Proof.
  destruct (address_policy "https://pve" {| u_Scheme := "https"; u_Hostname := "pve"; u_Port := "" |}
              (Ok [[192; 168; 1; 5]]) [[192; 168; 1; 5]] true) as (Hadmit & _ & Hdial);
    [reflexivity|vm_compute; discriminate|reflexivity|].
  split_and!.
  - apply Hadmit, Forall_singleton. split; [reflexivity|by left].
  - vm_compute. discriminate.
  - by apply (Hdial "meta:443" "meta" "443" (IPv4 169 254 169 254)).
Defined.
End PolicyCase.
