(* ===== verification/CredsOps.v ===== *)
(** * Stored credentials: rows, clients and calls

    What a cluster or PBS server is stored as, the queries on those tables, the
    clients that are built from a row, the encryption of its secret, and the calls of
    the cluster routes, the PBS routes and the client cache as the constructors of
    [COp].

    AES-GCM and base64 are the class [Aead], with the key and whether it is one. A
    cached client is one value whoever holds it. The two client types of the source
    are one record with their kind. The error of a call is its text, except where
    the code asks more of it: [GetCluster] and the like answer whether there was no
    row, [PveError] what class it is of.

    The process of a call is its first argument where the call is to the memory of the
    process. [Respond] is what a route answers. [Declared permissions], the parsing of
    parameters and the body of a successful answer are left out, and so are log lines. *)

From S2P Require Import Prelude GoStrings ProxmoxApi Effects RbacEngine NetGuard.

Local Open Scope Z_scope.

(** ** Encryption *)

Class Aead := {
  key_valid : bool; b64_encode : string → string; b64_decode : string → option string;
  gcm_Seal : string → string → string; gcm_Open : string → string → option string }.

(** What AES-GCM and base64 are relied on for. *)
Class AeadLaws `{A : Aead} := {
  b64_roundtrip : ∀ s, b64_decode (b64_encode s) = Some s;
  b64_empty : b64_decode "" = Some "";
  gcm_roundtrip : ∀ nonce s, gcm_Open nonce (gcm_Seal nonce s) = Some s }.

Definition NonceSize : nat := 12.

Section crypto.
Context `{A : Aead}.

(** [crypto.Encrypt], by the nonce that was drawn. *)
Definition Encrypt (nonce plaintext : string) : string := b64_encode (nonce +:+ gcm_Seal nonce plaintext).

Definition Decrypt (encoded : string) : option string :=
  if negb key_valid then None
  else match b64_decode encoded with
       | None => None
       | Some data =>
           if (slen data <? NonceSize)%nat then None
           else gcm_Open (stake NonceSize data) (sdrop NonceSize data)
       end.
End crypto.

(** ** Rows *)

Record Cluster := {
  cl_ID : uuid; cl_Name : string; cl_ApiUrl : string; cl_TokenID : string; cl_TokenSecretEncrypted : string;
  cl_TlsFingerprint : string; cl_SyncIntervalSeconds : Z; cl_IsActive : bool; cl_CredentialSource : string;
  cl_BootstrapUserID : string; cl_BootstrapTokenName : string; cl_BootstrapCreatedUser : bool;
  cl_BootstrapCreatedAcl : bool }.

Record PbsServer := {
  pb_ID : uuid; pb_Name : string; pb_ApiUrl : string; pb_TokenID : string; pb_TokenSecretEncrypted : string;
  pb_ClusterID : option uuid; pb_TlsFingerprint : string }.

#[export] Instance Cluster_eq_dec : EqDecision Cluster.
Proof. solve_decision. Defined.
#[export] Instance PbsServer_eq_dec : EqDecision PbsServer.
Proof. solve_decision. Defined.

Record SshCredential := {
  sh_Username : string; sh_Port : Z; sh_AuthType : string; sh_EncryptedPassword : string;
  sh_EncryptedPrivateKey : string }.

Record UpdateClusterParams := {
  uc_Name : string; uc_ApiUrl : string; uc_TokenID : string; uc_TokenSecretEncrypted : string;
  uc_TlsFingerprint : string; uc_SyncIntervalSeconds : Z; uc_IsActive : bool }.

Definition createCluster (id : uuid) (p : UpdateClusterParams) (source userID tokenName : string) (createdUser createdAcl : bool) :
    Cluster := {|
  cl_ID := id; cl_Name := uc_Name p; cl_ApiUrl := uc_ApiUrl p; cl_TokenID := uc_TokenID p;
  cl_TokenSecretEncrypted := uc_TokenSecretEncrypted p; cl_TlsFingerprint := uc_TlsFingerprint p;
  cl_SyncIntervalSeconds := uc_SyncIntervalSeconds p; cl_IsActive := uc_IsActive p; cl_CredentialSource := source;
  cl_BootstrapUserID := userID; cl_BootstrapTokenName := tokenName; cl_BootstrapCreatedUser := createdUser;
  cl_BootstrapCreatedAcl := createdAcl |}.

Definition updated (p : UpdateClusterParams) (r : Cluster) : Cluster :=
  createCluster (cl_ID r) p (cl_CredentialSource r) (cl_BootstrapUserID r) (cl_BootstrapTokenName r)
    (cl_BootstrapCreatedUser r) (cl_BootstrapCreatedAcl r).

Definition pinned (fp : string) (r : Cluster) : Cluster := {|
  cl_ID := cl_ID r; cl_Name := cl_Name r; cl_ApiUrl := cl_ApiUrl r; cl_TokenID := cl_TokenID r;
  cl_TokenSecretEncrypted := cl_TokenSecretEncrypted r; cl_TlsFingerprint := fp;
  cl_SyncIntervalSeconds := cl_SyncIntervalSeconds r; cl_IsActive := cl_IsActive r;
  cl_CredentialSource := cl_CredentialSource r; cl_BootstrapUserID := cl_BootstrapUserID r;
  cl_BootstrapTokenName := cl_BootstrapTokenName r; cl_BootstrapCreatedUser := cl_BootstrapCreatedUser r;
  cl_BootstrapCreatedAcl := cl_BootstrapCreatedAcl r |}.

Definition unprovenanced (r : Cluster) : Cluster := {|
  cl_ID := cl_ID r; cl_Name := cl_Name r; cl_ApiUrl := cl_ApiUrl r; cl_TokenID := cl_TokenID r;
  cl_TokenSecretEncrypted := cl_TokenSecretEncrypted r; cl_TlsFingerprint := cl_TlsFingerprint r;
  cl_SyncIntervalSeconds := cl_SyncIntervalSeconds r; cl_IsActive := cl_IsActive r; cl_CredentialSource := "manual";
  cl_BootstrapUserID := ""; cl_BootstrapTokenName := ""; cl_BootstrapCreatedUser := false;
  cl_BootstrapCreatedAcl := false |}.

Record PbsParams := {
  pp_Name : string; pp_ApiUrl : string; pp_TokenID : string; pp_TokenSecretEncrypted : string;
  pp_ClusterID : option uuid; pp_TlsFingerprint : string }.

(** [createPBSServer], and [updatePBSServer], which sets the same columns *)
Definition pbs_row (id : uuid) (p : PbsParams) : PbsServer := {|
  pb_ID := id; pb_Name := pp_Name p; pb_ApiUrl := pp_ApiUrl p; pb_TokenID := pp_TokenID p;
  pb_TokenSecretEncrypted := pp_TokenSecretEncrypted p; pb_ClusterID := pp_ClusterID p;
  pb_TlsFingerprint := pp_TlsFingerprint p |}.

(** ** Clients *)

Inductive CacheKind := CacheKindPVE | CacheKindPBS | CacheKindAll.

#[export] Instance CacheKind_eq_dec : EqDecision CacheKind.
Proof. solve_decision. Defined.
#[export] Instance CacheKind_countable : Countable CacheKind.
Proof.
  refine (inj_countable' (λ k, match k with CacheKindPVE => 0 | CacheKindPBS => 1 | CacheKindAll => 2 end)%nat
            (λ n, match n with 0 => CacheKindPVE | 1 => CacheKindPBS | _ => CacheKindAll end)%nat _).
  by intros [].
Defined.

Record Client := {
  c_Kind : CacheKind; c_BaseURL : string; c_TokenID : string; c_TokenSecret : string; c_TLSFingerprint : string }.

(** [newAPIClient], for [NewClient] and [NewPBSClient] *)
Definition newAPIClient (kind : CacheKind) (url tokenID tokenSecret fp : string) : result string Client :=
  if bool_decide (url = "") then Err "proxmox: BaseURL is required"
  else if bool_decide (tokenID = "") then Err "proxmox: TokenID is required"
  else if bool_decide (tokenSecret = "") then Err "proxmox: TokenSecret is required"
  else Ok {| c_Kind := kind; c_BaseURL := TrimRight url ["/"%char]; c_TokenID := tokenID; c_TokenSecret := tokenSecret;
             c_TLSFingerprint := fp |}.

Record cacheEntry := { en_client : Client; en_builtAt : Z }.

(** A failed lookup keeps whether there was no row. *)
Inductive cache_error := NoSuchRow | BuildFailed (text : string).

(** [invalidateMessage] *)
Record invalidateMessage := { im_Kind : string; im_ID : string }.

(** ** What Proxmox is asked *)

Inductive pve_error := Forbidden | Mismatch | Unreachable | OtherError (text : string).

(** What onboarding mints with the password of the operator. *)
Record bootstrapRequest := {
  br_Username : string; br_Password : string; br_OTP : string; br_UserID : string; br_TokenName : string }.

Record clusterCredential := {
  cc_TokenID : string; cc_Secret : string; cc_Source : string; cc_UserID : string; cc_TokenName : string;
  cc_CreatedUser : bool; cc_CreatedACL : bool }.

Record StatusEntry := { se_Type : string; se_Name : string; se_IP : string }.

Inductive crequest : Type → Type :=
| GetClusterStatus : crequest (list StatusEntry)
| GetAccessUserTokens (user : string) : crequest (list string)
| DeleteAccessUser (user : string) : crequest unit
| DeleteAdministratorACL (user : string) : crequest unit
| DeleteAccessUserToken (user token : string) : crequest unit
| GetNodes : crequest (list string)
| FirstRequest (kind : CacheKind) (id : uuid) : crequest unit.

(** ** Calls *)

Inductive COp : Type → Type :=
| GetCluster (id : uuid) : COp (result bool Cluster)
| CreateCluster (p : UpdateClusterParams) (source userID tokenName : string) (createdUser createdAcl : bool) :
    COp (result string Cluster)
| UpdateCluster (id : uuid) (p : UpdateClusterParams) : COp (result string Cluster)
| UpdateClusterTLSFingerprint (id : uuid) (fp url : string) : COp (result string Z)
| ClearClusterCredentialProvenance (id : uuid) : COp (option string)
| DeleteCluster (id : uuid) : COp (result string (list uuid))
| CountClustersSharingBootstrapUser (id : uuid) (user : string) : COp (result string Z)
| ListActiveClusters : COp (result string (list Cluster))
| ListNodeEndpoints (id : uuid) : COp (result string (list NodeEndpoint))
| ListNodesByCluster (id : uuid) : COp (result string (list NodeEndpoint))
| UpsertNode (id : uuid) (name : string) : COp (option string)
| UpdateNodeAddress (id : uuid) (name address : string) : COp (option string)
| HasRunningJobForCluster (id : uuid) : COp (result string bool)
| ListCleanupPendingJobsForCluster (id : uuid) : COp (result string (list uuid))
| HasClusterSSHCredentials (id : uuid) : COp (result string bool)
| GetClusterSSHCredentials (id : uuid) : COp (result bool SshCredential)
| UpsertClusterSSHCredentials (id : uuid) (c : SshCredential) : COp (option string)
| DeleteClusterSSHCredentials (id : uuid) : COp (option string)
| ListSSHKnownHosts (id : uuid) : COp (result string (list string))
| DeleteSSHKnownHostsForCluster (id : uuid) : COp (option string)
| GetPBSServer (id : uuid) : COp (result bool PbsServer)
| CreatePBSServer (p : PbsParams) : COp (result string PbsServer)
| UpdatePBSServer (id : uuid) (p : PbsParams) : COp (result string PbsServer)
| DeletePBSServer (id : uuid) : COp (option string)
| ListActivePBSServers : COp (result string (list PbsServer))
| EncryptSecret (plaintext : string) : COp (result string string)
| LookupIPAddr (host : string) : COp (result string (list IP))
| DialLeaf (url : string) : COp (result reply string)
| Mint (url fp : string) (b : bootstrapRequest) : COp (result reply clusterCredential)
| RollbackMint (url : string) (c : clusterCredential) : COp (bool * bool)
| CPve {A} (c : Client) (r : crequest A) : COp (result pve_error A)
| CacheRead (process : nat) (kind : CacheKind) (id : uuid) : COp (option cacheEntry)
| CacheWrite (process : nat) (kind : CacheKind) (id : uuid) (e : cacheEntry) : COp unit
| CacheDrop (process : nat) (kind : CacheKind) (id : uuid) : COp unit
| FlightJoin (process : nat) (kind : CacheKind) (id : uuid) : COp bool
| FlightLand (process : nat) (kind : CacheKind) (id : uuid) (r : result cache_error Client) : COp unit
| FlightWait (process : nat) (kind : CacheKind) (id : uuid) : COp (result cache_error Client)
| Publish (m : invalidateMessage) : COp unit
| Receive (process : nat) : COp (option invalidateMessage)
| RequirePerm (action resource : string) (cluster : option uuid) : COp (option reply)
| InvalidateUser (user : uuid) : COp unit
| Audit (cluster : option uuid) (action : string) : COp unit
| TimeNow : COp Z
| Respond (r : reply) : COp unit.

Abbreviation cprog := (prog COp).
Definition cask {X} (e : COp X) : cprog X := call e.
Arguments cask {X} e : simpl never.
