(* ===== verification/ClientCache.v ===== *)
(** * The client cache

    [proxmox/cache.go], and every way to a client of a stored row: the routes
    ([api/handlers/common.go], [backup.go]), the engines, the consoles ([ws/]), the
    migrations, the collector and the rolling updates, the last two with their
    failover to other members.

    Programs over the calls of [COp]. The lock is held for one call at a time, which
    reads or writes an entry, and a flight of [singleflight] is joined, landed and
    waited for by calls of its own. The signature of an entry is left out: nothing
    reads it. [CacheConfig] is how the process is wired; without Redis nothing is
    published. The subscriber is given the number of times it is woken. Whoever has a
    client is followed to its first request ([FirstRequest], labelled with the cluster
    or PBS server it is for), the probes before it included; the waits between the tries of a rolling update and what a pass of the
    collector reports about its endpoint are left out. Of the
    goroutines that collect from the clusters of one listing, each is a thread that has
    read the listing itself ([SyncAll]). *)

From S2P Require Import Prelude GoStrings ProxmoxApi Effects RbacDb RbacEngine NetGuard CredsOps.

Local Open Scope Z_scope.

Definition cacheTTL : Z := 10 * minute.

Definition CacheKind_string (k : CacheKind) : string :=
  match k with CacheKindPVE => "pve" | CacheKindPBS => "pbs" | CacheKindAll => "all" end.

Class CacheConfig := { CacheWired : bool; RedisUp : bool }.

Section cache.
Context `{A : Aead} `{UP : UrlParser} `{UT : UuidText} `{CC : CacheConfig}.

(** ** Building a client *)

Definition clusterEndpoint (cluster : Cluster) : cprog ClusterEndpoint :=
  let! rows := cask (ListNodeEndpoints (cl_ID cluster)) in
  match rows with
  | Err _ => Ret {| ce_BaseURL := cl_ApiUrl cluster; ce_TLSFingerprint := cl_TlsFingerprint cluster; ce_ViaNode := "" |}
  | Ok endpoints => Ret (SelectClusterEndpoint (cl_ApiUrl cluster) (cl_TlsFingerprint cluster) endpoints)
  end.

Definition newClientForClusterRow (cluster : Cluster) (endpoint : ClusterEndpoint) : result string Client :=
  match Decrypt (cl_TokenSecretEncrypted cluster) with
  | None => Err "decrypt cluster credentials"
  | Some tokenSecret =>
      newAPIClient CacheKindPVE (ce_BaseURL endpoint) (cl_TokenID cluster) tokenSecret (ce_TLSFingerprint endpoint)
  end.

Definition row_client (cluster : Cluster) : cprog (result cache_error Client) :=
  let! endpoint := clusterEndpoint cluster in
  match newClientForClusterRow cluster endpoint with
  | Err e => Ret (Err (BuildFailed e))
  | Ok client => Ret (Ok client)
  end.

Definition row_error (none : bool) : cache_error := if none then NoSuchRow else BuildFailed "get cluster".

(** The uncached path. *)
Definition NewClientForCluster (clusterID : uuid) : cprog (result cache_error Client) :=
  let! cluster := cask (GetCluster clusterID) in
  match cluster with
  | Err none => Ret (Err (row_error none))
  | Ok cluster => row_client cluster
  end.

(** The build of a PBS client from its row. *)
Definition pbs_client (server : PbsServer) : result cache_error Client :=
  match Decrypt (pb_TokenSecretEncrypted server) with
  | None => Err (BuildFailed "decrypt pbs server credentials")
  | Some tokenSecret =>
      match newAPIClient CacheKindPBS (pb_ApiUrl server) (pb_TokenID server) tokenSecret (pb_TlsFingerprint server) with
      | Err e => Err (BuildFailed e)
      | Ok client => Ok client
      end
  end.

Definition build_pbs (pbsID : uuid) : cprog (result cache_error Client) :=
  let! server := cask (GetPBSServer pbsID) in
  Ret (match server with Err none => Err (row_error none) | Ok server => pbs_client server end).

(** ** Get *)

(** The entry, where there is one that is not too old. *)
Definition cached (p : nat) (kind : CacheKind) (id : uuid) : cprog (option Client) :=
  let! entry := cask (CacheRead p kind id) in
  match entry with
  | None => Ret None
  | Some entry =>
      let! now := cask TimeNow in
      Ret (if now - en_builtAt entry <? cacheTTL then Some (en_client entry) else None)
  end.

(** What the leader of a flight does. *)
Definition fill (p : nat) (kind : CacheKind) (id : uuid) (build : cprog (result cache_error Client)) :
    cprog (result cache_error Client) :=
  let! hit := cached p kind id in
  match hit with
  | Some client => Ret (Ok client)
  | None =>
      let! built := build in
      match built with
      | Err e => Ret (Err e)
      | Ok client =>
          let! now := cask TimeNow in
          do! cask (CacheWrite p kind id {| en_client := client; en_builtAt := now |}) in
          Ret (Ok client)
      end
  end.

Definition get (p : nat) (kind : CacheKind) (id : uuid) (build : cprog (result cache_error Client)) :
    cprog (result cache_error Client) :=
  let! hit := cached p kind id in
  match hit with
  | Some client => Ret (Ok client)
  | None =>
      let! lead := cask (FlightJoin p kind id) in
      if lead then
        let! r := fill p kind id build in
        do! cask (FlightLand p kind id r) in
        Ret r
      else cask (FlightWait p kind id)
  end.

Definition Get (p : nat) (clusterID : uuid) : cprog (result cache_error Client) :=
  get p CacheKindPVE clusterID (NewClientForCluster clusterID).

Definition GetPBS (p : nat) (pbsID : uuid) : cprog (result cache_error Client) :=
  get p CacheKindPBS pbsID (build_pbs pbsID).

(** ** Invalidation *)

Definition Invalidate (p : nat) (clusterID : uuid) : cprog unit := cask (CacheDrop p CacheKindPVE clusterID).
Definition InvalidatePBS (p : nat) (pbsID : uuid) : cprog unit := cask (CacheDrop p CacheKindPBS pbsID).
Definition InvalidateAll (p : nat) : cprog unit := cask (CacheDrop p CacheKindAll uuid_Nil).

Definition PublishInvalidation (p : nat) (kind : CacheKind) (id : uuid) : cprog unit :=
  do! match kind with
      | CacheKindPVE => Invalidate p id
      | CacheKindPBS => InvalidatePBS p id
      | CacheKindAll => InvalidateAll p
      end in
  if RedisUp then cask (Publish {| im_Kind := CacheKind_string kind; im_ID := uuid_String id |}) else Ret tt.

(** The payload as [json.Unmarshal] reads it. *)
Definition handleInvalidation (p : nat) (m : option invalidateMessage) : cprog unit :=
  match m with
  | None => Ret tt
  | Some m =>
      if bool_decide (im_Kind m = "all") then InvalidateAll p
      else if bool_decide (im_Kind m = "pve") || bool_decide (im_Kind m = "pbs") then
        match uuid_Parse (im_ID m) with
        | None => Ret tt
        | Some id => if bool_decide (im_Kind m = "pve") then Invalidate p id else InvalidatePBS p id
        end
      else Ret tt
  end.

Fixpoint runSubscriber (n : nat) (p : nat) : cprog unit :=
  match n with
  | O => Ret tt
  | S n => let! m := cask (Receive p) in do! handleInvalidation p m in runSubscriber n p
  end.

(** ** [CreateProxmoxClient] *)

Definition CreateProxmoxClient (p : nat) (clusterID : uuid) : cprog (result reply Client) :=
  if CacheWired then
    let! r := Get p clusterID in
    Ret (match r with
         | Ok client => Ok client
         | Err NoSuchRow => Err (fiber_error 404 "Cluster not found")
         | Err _ => Err (fiber_error 500 "Failed to create Proxmox client")
         end)
  else
    let! cluster := cask (GetCluster clusterID) in
    match cluster with
    | Err true => Ret (Err (fiber_error 404 "Cluster not found"))
    | Err false => Ret (Err (fiber_error 500 "Failed to get cluster"))
    | Ok cluster =>
        match Decrypt (cl_TokenSecretEncrypted cluster) with
        | None => Ret (Err (fiber_error 500 "Failed to decrypt cluster credentials"))
        | Some tokenSecret =>
            match newAPIClient CacheKindPVE (cl_ApiUrl cluster) (cl_TokenID cluster) tokenSecret (cl_TlsFingerprint cluster) with
            | Err _ => Ret (Err (fiber_error 500 "Failed to create Proxmox client"))
            | Ok client => Ret (Ok client)
            end
        end
    end.

(** [createPBSClient] of the backup routes *)
Definition createPBSClient (p : nat) (pbsID : uuid) : cprog (result reply Client) :=
  if CacheWired then
    let! r := GetPBS p pbsID in
    Ret (match r with
         | Ok client => Ok client
         | Err NoSuchRow => Err (fiber_error 404 "PBS server not found")
         | Err _ => Err (fiber_error 500 "Failed to create PBS client")
         end)
  else
    let! server := cask (GetPBSServer pbsID) in
    match server with
    | Err true => Ret (Err (fiber_error 404 "PBS server not found"))
    | Err false => Ret (Err (fiber_error 500 "Failed to get PBS server"))
    | Ok server =>
        match Decrypt (pb_TokenSecretEncrypted server) with
        | None => Ret (Err (fiber_error 500 "Failed to decrypt PBS credentials"))
        | Some tokenSecret =>
            match newAPIClient CacheKindPBS (pb_ApiUrl server) (pb_TokenID server) tokenSecret (pb_TlsFingerprint server) with
            | Err _ => Ret (Err (fiber_error 500 "Failed to create PBS client"))
            | Ok client => Ret (Ok client)
            end
        end
    end.

(** [createClient] of the engines, which fall back to a client of their own *)
Definition createClient (p : nat) (clusterID : uuid) : cprog (result cache_error Client) :=
  let! hit := (if CacheWired then Get p clusterID else Ret (Err NoSuchRow)) in
  match hit with
  | Ok client => Ret (Ok client)
  | Err _ => NewClientForCluster clusterID
  end.

(** *** Consoles and migrations *)

(** [errors.Is(err, ErrConnectionFailed)], which a wrong certificate is too *)
Definition connection_failed (e : pve_error) : bool := match e with Unreachable | Mismatch => true | _ => false end.

(** A client for the address of a row. *)
Definition direct_client (cluster : Cluster) : result cache_error Client :=
  match Decrypt (cl_TokenSecretEncrypted cluster) with
  | None => Err (BuildFailed "decrypt cluster credentials")
  | Some tokenSecret =>
      match newAPIClient CacheKindPVE (cl_ApiUrl cluster) (cl_TokenID cluster) tokenSecret (cl_TlsFingerprint cluster) with
      | Err e => Err (BuildFailed e)
      | Ok client => Ok client
      end
  end.

Definition proxmoxClientFor (p : nat) (clusterID : uuid) (cluster : Cluster) : cprog (result cache_error Client) :=
  let! hit := (if CacheWired then Get p clusterID else Ret (Err NoSuchRow)) in
  match hit with
  | Ok client => Ret (Ok client)
  | Err _ => Ret (direct_client cluster)
  end.

Definition clientForCluster (p : nat) (clusterID : uuid) : cprog (result cache_error Client) :=
  let! cluster := cask (GetCluster clusterID) in
  match cluster with
  | Err none => Ret (Err (row_error none))
  | Ok cluster => proxmoxClientFor p clusterID cluster
  end.

(** *** Failover *)

(** The address and certificate of every other member that has both. *)
Definition failoverTargets (cluster : Cluster) (endpoints : list NodeEndpoint) : list (string * string) :=
  omap (λ ep,
    if bool_decide (ep_Address ep = "") || bool_decide (ep_Address ep = APIURLHost (cl_ApiUrl cluster)) ||
       bool_decide (ep_SSLFingerprint ep = "") then None
    else Some (FailoverBaseURL (cl_ApiUrl cluster) (ep_Address ep), ep_SSLFingerprint ep)) endpoints.

(** The first of them that answers. *)
Fixpoint try_targets (cluster : Cluster) (tokenSecret : string) (targets : list (string * string)) : cprog (option Client) :=
  match targets with
  | [] => Ret None
  | (url, fp) :: targets =>
      match newAPIClient CacheKindPVE url (cl_TokenID cluster) tokenSecret fp with
      | Err _ => try_targets cluster tokenSecret targets
      | Ok client =>
          let! nodes := cask (CPve client GetNodes) in
          match nodes with
          | Ok _ => Ret (Some client)
          | Err _ => try_targets cluster tokenSecret targets
          end
      end
  end.

(** *** The collector *)

Definition failoverCluster (cluster : Cluster) (primaryErr : pve_error) : cprog (option Client) :=
  if negb (connection_failed primaryErr) then Ret None
  else
    let! nodes := cask (ListNodesByCluster (cl_ID cluster)) in
    match nodes with
    | Err _ => Ret None
    | Ok nodes =>
        match Decrypt (cl_TokenSecretEncrypted cluster) with
        | None => Ret None
        | Some tokenSecret => try_targets cluster tokenSecret (failoverTargets cluster nodes)
        end
    end.

(** The client of a pass over a cluster. *)
Definition SyncCluster (p : nat) (cluster : Cluster) : cprog (result cache_error Client) :=
  let! client := proxmoxClientFor p (cl_ID cluster) cluster in
  match client with
  | Err e => Ret (Err e)
  | Ok client =>
      let! nodes := cask (CPve client GetNodes) in
      match nodes with
      | Ok _ => Ret (Ok client)
      | Err e =>
          let! alternate := failoverCluster cluster e in
          Ret (match alternate with Some client => Ok client | None => Err (BuildFailed "get nodes") end)
      end
  end.

(** A route or an engine that talks to Proxmox, up to its first request. *)
Definition use_client (kind : CacheKind) (id : uuid) {E} (client : cprog (result E Client)) : cprog unit :=
  let! client := client in
  match client with
  | Err _ => Ret tt
  | Ok client => let! _ := cask (CPve client (FirstRequest kind id)) in Ret tt
  end.

(** The goroutine for the [n]th cluster that is listed. *)
Definition SyncAll (p n : nat) : cprog unit :=
  let! clusters := cask ListActiveClusters in
  match clusters with
  | Err _ => Ret tt
  | Ok clusters =>
      match clusters !! n with
      | Some cluster => use_client CacheKindPVE (cl_ID cluster) (SyncCluster p cluster)
      | None => Ret tt
      end
  end.

Definition pbsProxmoxClient (p : nat) (server : PbsServer) : cprog (result cache_error Client) :=
  let! hit := (if CacheWired then GetPBS p (pb_ID server) else Ret (Err NoSuchRow)) in
  match hit with
  | Ok client => Ret (Ok client)
  | Err _ => Ret (pbs_client server)
  end.

Definition SyncAllPBS (p : nat) : cprog unit :=
  let! servers := cask ListActivePBSServers in
  match servers with
  | Err _ => Ret tt
  | Ok servers => for_each servers (λ server, use_client CacheKindPBS (pb_ID server) (pbsProxmoxClient p server))
  end.

(** *** Rolling updates *)

(** The alternates of a client for the address of the row, which may have failed to answer or to be built. *)
Definition with_failover (clusterID : uuid) (cluster : Cluster) (tokenSecret : string) (primary : result string Client) :
    cprog (result cache_error Client) :=
  let! endpoints := cask (ListNodeEndpoints clusterID) in
  let! alternate := try_targets cluster tokenSecret
                      (failoverTargets cluster (match endpoints with Ok l => l | Err _ => [] end)) in
  Ret (match alternate with
       | Some client => Ok client
       | None => match primary with Ok client => Ok client | Err e => Err (BuildFailed e) end
       end).

Definition build_client (clusterID : uuid) : cprog (result cache_error Client) :=
  let! cluster := cask (GetCluster clusterID) in
  match cluster with
  | Err none => Ret (Err (row_error none))
  | Ok cluster =>
      match Decrypt (cl_TokenSecretEncrypted cluster) with
      | None => Ret (Err (BuildFailed "decrypt token"))
      | Some tokenSecret =>
          let primary := newAPIClient CacheKindPVE (cl_ApiUrl cluster) (cl_TokenID cluster) tokenSecret (cl_TlsFingerprint cluster) in
          match primary with
          | Err _ => with_failover clusterID cluster tokenSecret primary
          | Ok client =>
              let! nodes := cask (CPve client GetNodes) in
              match nodes with
              | Ok _ => Ret (Ok client)
              | Err e => if negb (connection_failed e) then Ret (Ok client) else with_failover clusterID cluster tokenSecret primary
              end
          end
      end
  end.

(** [Orchestrator.createClient] *)
Definition rollingClient (p : nat) (clusterID : uuid) : cprog (result cache_error Client) :=
  let! hit := (if CacheWired then Get p clusterID else Ret (Err NoSuchRow)) in
  match hit with
  | Err _ => build_client clusterID
  | Ok client =>
      let! nodes := cask (CPve client GetNodes) in
      match nodes with
      | Ok _ => Ret (Ok client)
      | Err _ => build_client clusterID
      end
  end.

Definition target_clients (cluster : Cluster) (tokenSecret : string) (targets : list (string * string)) : list Client :=
  omap (λ t : string * string,
    match newAPIClient CacheKindPVE t.1 (cl_TokenID cluster) tokenSecret t.2 with Ok client => Some client | Err _ => None end) targets.

Definition buildFailoverClients (clusterID : uuid) : cprog (list Client) :=
  let! cluster := cask (GetCluster clusterID) in
  match cluster with
  | Err _ => Ret []
  | Ok cluster =>
      match Decrypt (cl_TokenSecretEncrypted cluster) with
      | None => Ret []
      | Some tokenSecret =>
          let! endpoints := cask (ListNodeEndpoints clusterID) in
          Ret (target_clients cluster tokenSecret (failoverTargets cluster (match endpoints with Ok l => l | Err _ => [] end)))
      end
  end.

(** A request that is tried again while the connection fails. *)
Fixpoint tries (clusterID : uuid) (n : nat) (client : Client) (last : pve_error) : cprog (result pve_error unit) :=
  match n with
  | O => Ret (Err last)
  | S n =>
      let! r := cask (CPve client (FirstRequest CacheKindPVE clusterID)) in
      match r with
      | Ok _ => Ret (Ok tt)
      | Err e => if connection_failed e then tries clusterID n client e else Ret (Err e)
      end
  end.

Fixpoint fallbacks (clusterID : uuid) (clients : list Client) (err : pve_error) : cprog (result pve_error unit) :=
  match clients with
  | [] => Ret (Err err)
  | client :: clients =>
      let! r := cask (CPve client (FirstRequest CacheKindPVE clusterID)) in
      match r with
      | Ok _ => Ret (Ok tt)
      | Err e => if connection_failed e then fallbacks clusterID clients err else Ret (Err e)
      end
  end.

Definition callWithRetryFailover (clusterID : uuid) (primary : Client) : cprog (result pve_error unit) :=
  let! r := tries clusterID 3 primary (OtherError "") in
  match r with
  | Ok _ => Ret (Ok tt)
  | Err e =>
      if connection_failed e then let! clients := buildFailoverClients clusterID in fallbacks clusterID clients e
      else Ret (Err e)
  end.

(** A part of a tick that talks to the cluster. *)
Definition rolling_request (p : nat) (clusterID : uuid) : cprog unit :=
  let! client := rollingClient p clusterID in
  match client with
  | Err _ => Ret tt
  | Ok client => let! _ := callWithRetryFailover clusterID client in Ret tt
  end.
End cache.
