(* ===== verification/CredsRoutes.v ===== *)
(** * The routes that store credentials

    [Create], [Update], [Delete] and [VerifyCertificate] of
    [api/handlers/clusters.go], with the revocation of [clusters_bootstrap.go], the
    routes of [pbs_servers.go] that write, [credential_redirect.go], and the two
    routes of [rolling_update.go] that store and remove the SSH credential of a
    cluster.

    A request is its parameters, [None] for one that was not sent, and the process
    that serves it. [Mint] is [runClusterBootstrap] with what [renderBootstrapError]
    makes of its error, [DialLeaf] is [dialLeafFingerprint] with its own; the names of
    what a failed onboarding or an audit leaves on record are left out. *)

From S2P Require Import Prelude GoStrings ProxmoxApi Effects RbacDb RbacEngine NetGuard CredsOps ClientCache.

Local Open Scope Z_scope.

Definition credentialSourceManual : string := "manual".
Definition credentialSourceBootstrap : string := "bootstrap".
Definition defaultBootstrapUserID : string := "nexara@pve".
Definition defaultBootstrapTokenName : string := "nexara".

Definition credentialRedirected (newAddress existingAddress storedSecret suppliedSecret : string) : bool :=
  negb (bool_decide (newAddress = existingAddress)) && bool_decide (suppliedSecret = "") &&
  negb (bool_decide (storedSecret = "")).

Definition errCredentialRedirect (addressNoun credentialNoun : string) : reply :=
  fiber_error 400 ("Changing the " +:+ addressNoun +:+ " requires re-entering the " +:+ credentialNoun +:+ ". " +:+
                   "The stored credential is only ever sent to the address it was saved for.").

Definition done_with (status : Z) : reply := {| rp_Status := status; rp_Body := NoBody |}.

(** ** Requests *)

Record createClusterRequest := {
  cr_Name : string; cr_APIURL : string; cr_TokenID : string; cr_TokenSecret : string; cr_TLSFingerprint : string;
  cr_SyncIntervalSeconds : Z; cr_AllowPrivateAddress : bool; cr_Bootstrap : option bootstrapRequest }.

Record updateClusterRequest := {
  ur_Name : option string; ur_APIURL : option string; ur_TokenID : option string; ur_TokenSecret : option string;
  ur_TLSFingerprint : option string; ur_SyncIntervalSeconds : option Z; ur_IsActive : option bool;
  ur_AllowPrivateAddress : bool; ur_AcknowledgeSSHTrustReset : bool }.

Record pbsRequest := {
  pr_Name : option string; pr_APIURL : option string; pr_TokenID : option string; pr_TokenSecret : option string;
  pr_Attached : option uuid; pr_TLSFingerprint : option string; pr_AllowPrivateAddress : bool }.

Section routes.
Context `{AE : Aead} `{UP : UrlParser} `{UD : UrlDetails} `{NT : NetText} `{UT : UuidText} `{CC : CacheConfig}.

(** [validateURLFormat] and [enforceURLAddressPolicy] together: [Some] is the refusal. *)
Definition checked_url (url : string) (allowPrivate : bool) : cprog (option reply) :=
  match validateURLFormat url with
  | Some r => Ret (Some r)
  | None =>
      let host := match url_Parse url with Some u => u_Hostname u | None => "" end in
      let! looked_up := (if bool_decide (TrimSpace host = "") then Ret (Ok [])
                         else if bool_decide (is_Some (ParseIP (policy_host host))) then Ret (Ok [])
                         else cask (LookupIPAddr (policy_host host))) in
      Ret (renderAddressPolicyError <$> enforceURLAddressPolicy url looked_up allowPrivate)
  end.

(** A refusal ends a handler. *)
Definition unless_refused (r : option reply) (k : cprog reply) : cprog reply :=
  match r with Some r => Ret r | None => k end.

(** [testClusterConnectivity]: the entries of the cluster, where it was reached. *)
Definition testClusterConnectivity (url tokenID tokenSecret fp : string) : cprog (option (list StatusEntry)) :=
  match newAPIClient CacheKindPVE url tokenID tokenSecret fp with
  | Err _ => Ret None
  | Ok client =>
      let! r := cask (CPve client GetClusterStatus) in
      Ret (match r with Ok entries => Some entries | Err _ => None end)
  end.

(** ** [ClusterHandler.Create] *)

Definition validate_bootstrap (b : bootstrapRequest) : result reply bootstrapRequest :=
  if bool_decide (br_Username b = "") || bool_decide (br_Password b = "") then
    Err (fiber_error 400 "bootstrap.username and bootstrap.password are required")
  else
    let userID := if bool_decide (br_UserID b = "") then defaultBootstrapUserID else br_UserID b in
    let tokenName := if bool_decide (br_TokenName b = "") then defaultBootstrapTokenName else br_TokenName b in
    if HasSuffix userID "@pam" then
      Err (fiber_error 400 "bootstrap.user_id must not be a @pam account — that realm maps to real shell users on the node. Use a PVE-realm id such as nexara@pve.")
    else Ok {| br_Username := br_Username b; br_Password := br_Password b; br_OTP := br_OTP b; br_UserID := userID;
               br_TokenName := tokenName |}.

(** The switch at its start. *)
Definition checked_create (req : createClusterRequest) : result reply (option bootstrapRequest) :=
  match cr_Bootstrap req with
  | Some b =>
      if negb (bool_decide (cr_TokenID req = "")) || negb (bool_decide (cr_TokenSecret req = "")) then
        Err (fiber_error 400 "Supply either token_id and token_secret, or a bootstrap block — not both")
      else match validate_bootstrap b with Err r => Err r | Ok b => Ok (Some b) end
  | None =>
      if bool_decide (cr_TokenID req = "") || bool_decide (cr_TokenSecret req = "") then
        Err (fiber_error 400 "token_id and token_secret are required, unless a bootstrap block is sent instead")
      else Ok None
  end.

(** The credential, supplied or minted. *)
Definition resolve_credential (req : createClusterRequest) (b : option bootstrapRequest) : cprog (result reply clusterCredential) :=
  match b with
  | None => Ret (Ok {| cc_TokenID := cr_TokenID req; cc_Secret := cr_TokenSecret req; cc_Source := credentialSourceManual;
                       cc_UserID := ""; cc_TokenName := ""; cc_CreatedUser := false; cc_CreatedACL := false |})
  | Some b =>
      let! minted := cask (Mint (cr_APIURL req) (cr_TLSFingerprint req) b) in
      match minted with
      | Ok cred => Ret (Ok cred)
      | Err r => do! cask (Audit None "cluster_bootstrap_failed") in Ret (Err r)
      end
  end.

(** The insert failed: a token that was minted is taken back. *)
Definition create_failed (req : createClusterRequest) (b : option bootstrapRequest) (cred : clusterCredential) : cprog reply :=
  match b with
  | None => Ret (fiber_error 500 "Failed to create cluster")
  | Some _ =>
      let! rb := cask (RollbackMint (cr_APIURL req) cred) in
      do! cask (Audit None "cluster_bootstrap_failed") in
      let '(remainingUser, remainingACL) := rb in
      if remainingUser || remainingACL then
        Ret (fiber_error 500 ("Failed to create the cluster, and the Proxmox objects created for it could not all be removed. Check " +:+
                              cc_UserID cred +:+ " in Proxmox before retrying."))
      else Ret (fiber_error 500 "Failed to create cluster")
  end.

(** The nodes a new cluster reports. *)
Definition prefill_node (id : uuid) (entry : StatusEntry) : cprog unit :=
  if negb (bool_decide (se_Type entry = "node")) || bool_decide (se_Name entry = "") then Ret tt
  else
    let! err := cask (UpsertNode id (se_Name entry)) in
    match err with
    | None =>
        if bool_decide (se_IP entry = "") then Ret tt
        else let! _ := cask (UpdateNodeAddress id (se_Name entry) (se_IP entry)) in Ret tt
    | Some _ => Ret tt
    end.

Definition Create (req : createClusterRequest) : cprog reply :=
  match checked_create req with
  | Err r => Ret r
  | Ok b =>
      let! refused := checked_url (cr_APIURL req) (cr_AllowPrivateAddress req) in
      unless_refused refused (
      let! cred := resolve_credential req b in
      match cred with
      | Err r => Ret r
      | Ok cred =>
          let! encrypted := cask (EncryptSecret (cc_Secret cred)) in
          match encrypted with
          | Err _ => Ret (fiber_error 500 "Failed to encrypt token secret")
          | Ok encrypted =>
              let! cluster := cask (CreateCluster
                {| uc_Name := cr_Name req; uc_ApiUrl := cr_APIURL req; uc_TokenID := cc_TokenID cred;
                   uc_TokenSecretEncrypted := encrypted; uc_TlsFingerprint := cr_TLSFingerprint req;
                   uc_SyncIntervalSeconds := cr_SyncIntervalSeconds req; uc_IsActive := true |}
                (cc_Source cred) (cc_UserID cred) (cc_TokenName cred) (cc_CreatedUser cred) (cc_CreatedACL cred)) in
              match cluster with
              | Err _ => create_failed req b cred
              | Ok cluster =>
                  do! cask (Audit (Some (cl_ID cluster)) "cluster_created") in
                  let! entries := testClusterConnectivity (cr_APIURL req) (cc_TokenID cred) (cc_Secret cred) (cr_TLSFingerprint req) in
                  do! for_each (default [] entries) (prefill_node (cl_ID cluster)) in
                  Ret (done_with 201)
              end
          end
      end)
  end.

(** ** [ClusterHandler.Update] *)

Definition merged (req : updateClusterRequest) (existing : Cluster) (encrypted : string) : UpdateClusterParams := {|
  uc_Name := default (cl_Name existing) (ur_Name req); uc_ApiUrl := default (cl_ApiUrl existing) (ur_APIURL req);
  uc_TokenID := default (cl_TokenID existing) (ur_TokenID req); uc_TokenSecretEncrypted := encrypted;
  uc_TlsFingerprint := default (cl_TlsFingerprint existing) (ur_TLSFingerprint req);
  uc_SyncIntervalSeconds := default (cl_SyncIntervalSeconds existing) (ur_SyncIntervalSeconds req);
  uc_IsActive := default (cl_IsActive existing) (ur_IsActive req) |}.

Definition requireSSHTrustResetAck (id : uuid) (acknowledged : bool) : cprog (option reply) :=
  if acknowledged then Ret None
  else
    let! hasCreds := cask (HasClusterSSHCredentials id) in
    match hasCreds with
    | Err _ => Ret (Some (fiber_error 500 "Failed to check for SSH credentials"))
    | Ok hasCreds =>
        let! pins := cask (ListSSHKnownHosts id) in
        match pins with
        | Err _ => Ret (Some (fiber_error 500 "Failed to read pinned SSH host keys"))
        | Ok pins =>
            if negb hasCreds && bool_decide (pins = []) then Ret None
            else Ret (Some (fiber_error 422 "ssh_trust_reset_confirm_required"))
        end
    end.

(** The two deletions of a reset, with the error that ends it. *)
Definition clear_ssh (id : uuid) (hadCreds : bool) (pins : list string) : cprog (option reply) :=
  let! failure := (if hadCreds then
                     let! err := cask (DeleteClusterSSHCredentials id) in
                     Ret (match err with Some _ => Some (fiber_error 500 "Failed to clear cluster SSH credentials") | None => None end)
                   else Ret None) in
  match failure with
  | Some r => Ret (Some r)
  | None =>
      if bool_decide (pins = []) then Ret None
      else
        let! err := cask (DeleteSSHKnownHostsForCluster id) in
        Ret (match err with Some _ => Some (fiber_error 500 "Failed to clear pinned SSH host keys") | None => None end)
  end.

Definition resetClusterSSHTrust (id : uuid) : cprog (option reply) :=
  let! creds := cask (GetClusterSSHCredentials id) in
  match creds with
  | Err false => Ret (Some (fiber_error 500 "Failed to read cluster SSH credentials"))
  | _ =>
      let hadCreds := is_ok creds in
      let! pins := cask (ListSSHKnownHosts id) in
      match pins with
      | Err _ => Ret (Some (fiber_error 500 "Failed to read pinned SSH host keys"))
      | Ok pins =>
          if negb hadCreds && bool_decide (pins = []) then Ret None
          else
            let! failure := clear_ssh id hadCreds pins in
            do! cask (Audit (Some id) "cluster_ssh_trust_reset") in
            Ret failure
      end
  end.

(** What moving the address asks for first. *)
Definition rehome (id : uuid) (acknowledged : bool) : cprog (option reply) :=
  let! busy := cask (HasRunningJobForCluster id) in
  match busy with
  | Err _ => Ret (Some (fiber_error 500 "Failed to check for active rolling update jobs"))
  | Ok true => Ret (Some (fiber_error 409 "Cluster has an active rolling update job, and moving the API address re-homes the node addresses it is working through. Cancel or finish the job first."))
  | Ok false =>
      let! pending := cask (ListCleanupPendingJobsForCluster id) in
      match pending with
      | Err _ => Ret (Some (fiber_error 500 "Failed to check for pending rolling-update cleanup"))
      | Ok (_ :: _) => Ret (Some (fiber_error 409 "Cluster has rolling-update state that has not been released yet (CRS pause / HA-rule disables). Moving the API address would aim that cleanup at the new address. Wait for the cleanup sweep to finish, then retry."))
      | Ok [] =>
          let! refused := requireSSHTrustResetAck id acknowledged in
          match refused with
          | Some r => Ret (Some r)
          | None => resetClusterSSHTrust id
          end
      end
  end.

(** The provenance of a minted credential is forgotten where the row points elsewhere. *)
Definition clear_provenance (id : uuid) (existing : Cluster) (params : UpdateClusterParams) : cprog (option reply) :=
  if (negb (bool_decide (uc_ApiUrl params = cl_ApiUrl existing)) || negb (bool_decide (uc_TokenID params = cl_TokenID existing))) &&
     bool_decide (cl_CredentialSource existing = credentialSourceBootstrap) then
    let! err := cask (ClearClusterCredentialProvenance id) in
    match err with
    | Some _ => Ret (Some (fiber_error 500 "Failed to update cluster credential provenance"))
    | None => do! cask (Audit (Some id) "cluster_credential_provenance_cleared") in Ret None
    end
  else Ret None.

(** The write and what follows it. *)
Definition write_cluster (p : nat) (id : uuid) (req : updateClusterRequest) (existing : Cluster) (params : UpdateClusterParams) :
    cprog reply :=
  let! cluster := cask (UpdateCluster id params) in
  match cluster with
  | Err _ => Ret (fiber_error 500 "Failed to update cluster")
  | Ok cluster =>
      let! refused := clear_provenance id existing params in
      unless_refused refused (
      do! (if CacheWired then PublishInvalidation p CacheKindPVE (cl_ID cluster) else Ret tt) in
      do! cask (Audit (Some (cl_ID cluster)) "cluster_updated") in
      let tokenSecret := match ur_TokenSecret req with
                         | Some secret => secret
                         | None => default "" (Decrypt (cl_TokenSecretEncrypted existing))
                         end in
      let! _ := testClusterConnectivity (uc_ApiUrl params) (uc_TokenID params) tokenSecret (uc_TlsFingerprint params) in
      Ret (done_with 200))
  end.

Definition Update (p : nat) (id : uuid) (req : updateClusterRequest) : cprog reply :=
  if bool_decide (ur_TokenSecret req = Some "") then
    Ret (fiber_error 400 "token_secret must not be empty — omit the field to keep the stored secret")
  else
    let! existing := cask (GetCluster id) in
    match existing with
    | Err true => Ret (fiber_error 404 "Cluster not found")
    | Err false => Ret (fiber_error 500 "Failed to get cluster")
    | Ok existing =>
        let! refused := match ur_APIURL req with
                        | Some url => checked_url url (ur_AllowPrivateAddress req)
                        | None => Ret None
                        end in
        unless_refused refused (
        let! encrypted := match ur_TokenSecret req with
                          | Some secret => cask (EncryptSecret secret)
                          | None => Ret (Ok (cl_TokenSecretEncrypted existing))
                          end in
        match encrypted with
        | Err _ => Ret (fiber_error 500 "Failed to encrypt token secret")
        | Ok encrypted =>
            let params := merged req existing encrypted in
            if credentialRedirected (uc_ApiUrl params) (cl_ApiUrl existing) (cl_TokenSecretEncrypted existing)
                 (default "" (ur_TokenSecret req)) then
              do! cask (Audit (Some id) "cluster_credential_redirect_refused") in
              Ret (errCredentialRedirect "cluster API URL" "API token secret")
            else
              let! refused := (if bool_decide (uc_ApiUrl params = cl_ApiUrl existing) then Ret None
                               else rehome id (ur_AcknowledgeSSHTrustReset req)) in
              unless_refused refused (write_cluster p id req existing params)
        end)
    end.

(** ** [ClusterHandler.Delete] *)

(** [accountHasOtherDependents] *)
Definition accountHasOtherDependents (client : Client) (cluster : Cluster) (shared : bool) : cprog bool :=
  if shared then Ret true
  else
    let! tokens := cask (CPve client (GetAccessUserTokens (cl_BootstrapUserID cluster))) in
    Ret (match tokens with
         | Err _ => true
         | Ok tokens => existsb (λ t, negb (bool_decide (t = cl_BootstrapTokenName cluster))) tokens
         end).

Definition revokeOwnToken (client : Client) (cluster : Cluster) : cprog unit :=
  if bool_decide (cl_BootstrapTokenName cluster = "") then Ret tt
  else let! _ := cask (CPve client (DeleteAccessUserToken (cl_BootstrapUserID cluster) (cl_BootstrapTokenName cluster))) in Ret tt.

Definition revokeBootstrapCredentials (cluster : Cluster) (tokenSecret : string) (shared : bool) : cprog unit :=
  if negb (bool_decide (cl_CredentialSource cluster = credentialSourceBootstrap)) || bool_decide (cl_BootstrapUserID cluster = "")
  then Ret tt
  else
    match newAPIClient CacheKindPVE (cl_ApiUrl cluster) (cl_TokenID cluster) tokenSecret (cl_TlsFingerprint cluster) with
    | Err _ => Ret tt
    | Ok client =>
        let! dependents := accountHasOtherDependents client cluster shared in
        if dependents then revokeOwnToken client cluster
        else if cl_BootstrapCreatedUser cluster then
          let! _ := cask (CPve client (DeleteAccessUser (cl_BootstrapUserID cluster))) in Ret tt
        else
          do! (if cl_BootstrapCreatedAcl cluster then
                 let! _ := cask (CPve client (DeleteAdministratorACL (cl_BootstrapUserID cluster))) in Ret tt
               else Ret tt) in
          revokeOwnToken client cluster
    end.

Definition revocationOutcome (cluster : Cluster) : cprog unit :=
  match Decrypt (cl_TokenSecretEncrypted cluster) with
  | None => Ret tt
  | Some secret =>
      let! shared := (if bool_decide (cl_BootstrapUserID cluster = "") then Ret true
                      else
                        let! n := cask (CountClustersSharingBootstrapUser (cl_ID cluster) (cl_BootstrapUserID cluster)) in
                        Ret (match n with Err _ => true | Ok n => 0 <? n end)) in
      revokeBootstrapCredentials cluster secret shared
  end.

Definition wantsCredentialRevocation (value : string) : bool := contains ["1"; "true"; "yes"] value.

(** [forgetPermissions]: each user once. *)
Definition forgetPermissions (users : list uuid) : cprog unit :=
  for_each (foldl (λ seen u, if contains seen u then seen else seen ++ [u]) [] users) (λ u, cask (InvalidateUser u)).

Definition Delete (p : nat) (id : uuid) (revoke confirm : string) : cprog reply :=
  let! cluster := cask (GetCluster id) in
  match cluster with
  | Err true => Ret (fiber_error 404 "Cluster not found")
  | Err false => Ret (fiber_error 500 "Failed to get cluster")
  | Ok cluster =>
      let! busy := cask (HasRunningJobForCluster id) in
      match busy with
      | Err _ => Ret (fiber_error 500 "Failed to check for active rolling update jobs")
      | Ok true => Ret (fiber_error 409 "Cluster has an active rolling update job. Cancel it before deleting the cluster.")
      | Ok false =>
          let revoke := wantsCredentialRevocation revoke in
          let! refused := (if revoke then cask (RequirePerm "manage" "cluster" None) else Ret None) in
          unless_refused refused (
          if negb (bool_decide (confirm = cl_Name cluster)) then
            Ret (fiber_error 400 "confirm: must be the cluster's current name; send confirm=<the cluster's name> to delete a cluster")
          else
            let! _ := cask (ListCleanupPendingJobsForCluster id) in
            let! revoked := cask (DeleteCluster id) in
            match revoked with
            | Err _ =>
                do! cask (Audit (Some id) "cluster_deleted") in
                Ret (fiber_error 500 "Failed to delete cluster")
            | Ok revoked =>
                do! forgetPermissions revoked in
                do! (if revoke then revocationOutcome cluster else Ret tt) in
                do! cask (Audit (Some id) "cluster_deleted") in
                do! (if CacheWired then PublishInvalidation p CacheKindPVE id else Ret tt) in
                Ret (done_with 204)
            end)
      end
  end.

(** ** [ClusterHandler.VerifyCertificate] *)

Inductive certVerifyOutcome :=
| certVerifyAccept
| certVerifyUnchanged
| certVerifyRefuseUnattested
| certVerifyRefuseMismatch.

Definition decideCertificateVerify (pinned live attested : string) : certVerifyOutcome :=
  if bool_decide (attested = "") || bool_decide (live = "") then certVerifyRefuseUnattested
  else if EndpointCertificateChanged attested live then certVerifyRefuseMismatch
  else if negb (bool_decide (pinned = "")) && negb (EndpointCertificateChanged pinned live) then certVerifyUnchanged
  else certVerifyAccept.

(** The fingerprint on record for the node at the address. *)
Definition attested_in (url : string) (endpoints : list NodeEndpoint) : string :=
  match List.find (λ e, EqualFold (ep_Address e) (APIURLHost url) && negb (bool_decide (ep_SSLFingerprint e = ""))) endpoints with
  | Some e => ep_SSLFingerprint e
  | None => ""
  end.

Definition attestedFingerprint (cluster : Cluster) : cprog (result reply string) :=
  let! endpoints := cask (ListNodeEndpoints (cl_ID cluster)) in
  match endpoints with
  | Err _ => Ret (Err (fiber_error 500 "Failed to list cluster nodes"))
  | Ok endpoints =>
      if negb (APIURLIsDirectToPVEProxy (cl_ApiUrl cluster)) then Ret (Ok "")
      else Ret (Ok (attested_in (cl_ApiUrl cluster) endpoints))
  end.

(** The re-pinning of an accepted certificate. *)
Definition repin (p : nat) (id : uuid) (url live : string) : cprog reply :=
  let! rows := cask (UpdateClusterTLSFingerprint id live url) in
  match rows with
  | Err _ => Ret (fiber_error 500 "Failed to update cluster fingerprint")
  | Ok rows =>
      if rows =? 0 then Ret (fiber_error 409 "The cluster's address changed while its certificate was being verified. Try again.")
      else
        do! cask (Audit (Some id) "tls_fingerprint_verified") in
        do! (if CacheWired then PublishInvalidation p CacheKindPVE id else Ret tt) in
        Ret (done_with 200)
  end.

Definition VerifyCertificate (p : nat) (id : uuid) : cprog reply :=
  let! cluster := cask (GetCluster id) in
  match cluster with
  | Err true => Ret (fiber_error 404 "Cluster not found")
  | Err false => Ret (fiber_error 500 "Failed to get cluster")
  | Ok cluster =>
      let! refused := checked_url (cl_ApiUrl cluster) true in
      unless_refused refused (
      let! live := cask (DialLeaf (cl_ApiUrl cluster)) in
      match live with
      | Err r => Ret r
      | Ok live =>
          let! attested := attestedFingerprint cluster in
          match attested with
          | Err r => Ret r
          | Ok attested =>
              match decideCertificateVerify (cl_TlsFingerprint cluster) live attested with
              | certVerifyRefuseUnattested => Ret (fiber_error 409 "Nexara has no independently observed certificate for this endpoint to check against, so it cannot verify one automatically. Set the fingerprint through Edit Cluster after confirming it on the node itself.")
              | certVerifyRefuseMismatch => Ret (fiber_error 409 "The certificate served by this endpoint does not match what the cluster reports for that node. Nexara will not pin it. Check the endpoint before retrying.")
              | certVerifyUnchanged => Ret (done_with 200)
              | certVerifyAccept => repin p id (cl_ApiUrl cluster) live
              end
          end
      end)
  end.

(** ** PBS servers *)

(** The permission on the cluster a server belongs to, or on all of them. *)
Definition require_pbs (action : string) (cluster : option uuid) : cprog (option reply) :=
  cask (RequirePerm action "pbs" cluster).

Definition CreatePBS (req : pbsRequest) : cprog reply :=
  let! refused := require_pbs "manage" (pr_Attached req) in
  unless_refused refused (
  let url := default "" (pr_APIURL req) in
  let! refused := checked_url url (pr_AllowPrivateAddress req) in
  unless_refused refused (
  let! encrypted := cask (EncryptSecret (default "" (pr_TokenSecret req))) in
  match encrypted with
  | Err _ => Ret (fiber_error 500 "Failed to encrypt token secret")
  | Ok encrypted =>
      let! pbs := cask (CreatePBSServer
        {| pp_Name := default "" (pr_Name req); pp_ApiUrl := url; pp_TokenID := default "" (pr_TokenID req);
           pp_TokenSecretEncrypted := encrypted; pp_ClusterID := pr_Attached req;
           pp_TlsFingerprint := default "" (pr_TLSFingerprint req) |}) in
      match pbs with
      | Err _ => Ret (fiber_error 500 "Failed to create PBS server")
      | Ok pbs => do! cask (Audit (pb_ClusterID pbs) "pbs_created") in Ret (done_with 201)
      end
  end)).

Definition merged_pbs (req : pbsRequest) (existing : PbsServer) (encrypted : string) : PbsParams := {|
  pp_Name := default (pb_Name existing) (pr_Name req); pp_ApiUrl := default (pb_ApiUrl existing) (pr_APIURL req);
  pp_TokenID := default (pb_TokenID existing) (pr_TokenID req); pp_TokenSecretEncrypted := encrypted;
  pp_ClusterID := match pr_Attached req with Some c => Some c | None => pb_ClusterID existing end;
  pp_TlsFingerprint := default (pb_TlsFingerprint existing) (pr_TLSFingerprint req) |}.

Definition UpdatePBS (p : nat) (id : uuid) (req : pbsRequest) : cprog reply :=
  if bool_decide (pr_TokenSecret req = Some "") then
    Ret (fiber_error 400 "token_secret must not be empty — omit the field to keep the stored secret")
  else
    let! existing := cask (GetPBSServer id) in
    match existing with
    | Err true => Ret (fiber_error 404 "PBS server not found")
    | Err false => Ret (fiber_error 500 "Failed to get PBS server")
    | Ok existing =>
        let! refused := require_pbs "manage" (pb_ClusterID existing) in
        unless_refused refused (
        let! refused := match pr_Attached req with Some c => require_pbs "manage" (Some c) | None => Ret None end in
        unless_refused refused (
        let! refused := match pr_APIURL req with
                        | Some url => checked_url url (pr_AllowPrivateAddress req)
                        | None => Ret None
                        end in
        unless_refused refused (
        let! encrypted := match pr_TokenSecret req with
                          | Some secret => cask (EncryptSecret secret)
                          | None => Ret (Ok (pb_TokenSecretEncrypted existing))
                          end in
        match encrypted with
        | Err _ => Ret (fiber_error 500 "Failed to encrypt token secret")
        | Ok encrypted =>
            let params := merged_pbs req existing encrypted in
            if credentialRedirected (pp_ApiUrl params) (pb_ApiUrl existing) (pb_TokenSecretEncrypted existing)
                 (default "" (pr_TokenSecret req)) then
              do! cask (Audit (pb_ClusterID existing) "pbs_credential_redirect_refused") in
              Ret (errCredentialRedirect "server API URL" "API token secret")
            else
              let! pbs := cask (UpdatePBSServer id params) in
              match pbs with
              | Err _ => Ret (fiber_error 500 "Failed to update PBS server")
              | Ok pbs =>
                  do! (if CacheWired then PublishInvalidation p CacheKindPBS (pb_ID pbs) else Ret tt) in
                  do! cask (Audit (pb_ClusterID pbs) "pbs_updated") in
                  Ret (done_with 200)
              end
        end)))
    end.

Definition DeletePBS (p : nat) (id : uuid) : cprog reply :=
  let! existing := cask (GetPBSServer id) in
  match existing with
  | Err true => Ret (fiber_error 404 "PBS server not found")
  | Err false => Ret (fiber_error 500 "Failed to get PBS server")
  | Ok existing =>
      let! refused := require_pbs "delete" (pb_ClusterID existing) in
      unless_refused refused (
      do! cask (Audit (pb_ClusterID existing) "pbs_deleted") in
      let! err := cask (DeletePBSServer id) in
      match err with
      | Some _ => Ret (fiber_error 500 "Failed to delete PBS server")
      | None =>
          do! (if CacheWired then PublishInvalidation p CacheKindPBS id else Ret tt) in
          Ret (done_with 204)
      end)
  end.

(** ** The SSH credential of a cluster *)

Definition UpsertSSHCredentials (id : uuid) (username : string) (port : Z) (authType password privateKey : string) : cprog reply :=
  if bool_decide (authType = "password") && bool_decide (password = "") then
    Ret (fiber_error 400 "Password is required for password auth")
  else if bool_decide (authType = "key") && bool_decide (privateKey = "") then
    Ret (fiber_error 400 "Private key is required for key auth")
  else
    let! encPassword := (if bool_decide (password = "") then Ret (Ok "") else cask (EncryptSecret password)) in
    match encPassword with
    | Err _ => Ret (fiber_error 500 "Failed to encrypt credentials")
    | Ok encPassword =>
        let! encKey := (if bool_decide (privateKey = "") then Ret (Ok "") else cask (EncryptSecret privateKey)) in
        match encKey with
        | Err _ => Ret (fiber_error 500 "Failed to encrypt credentials")
        | Ok encKey =>
            let! err := cask (UpsertClusterSSHCredentials id
              {| sh_Username := if bool_decide (username = "") then "root" else username;
                 sh_Port := if Int32 port <=? 0 then 22 else Int32 port; sh_AuthType := authType;
                 sh_EncryptedPassword := encPassword; sh_EncryptedPrivateKey := encKey |}) in
            match err with
            | Some _ => Ret (fiber_error 500 "Failed to save SSH credentials")
            | None => do! cask (Audit (Some id) "ssh_credentials_updated") in Ret (done_with 200)
            end
        end
    end.

Definition DeleteSSHCredentials (id : uuid) : cprog reply :=
  let! err := cask (DeleteClusterSSHCredentials id) in
  match err with
  | Some _ => Ret (fiber_error 500 "Failed to delete SSH credentials")
  | None => do! cask (Audit (Some id) "ssh_credentials_deleted") in Ret (done_with 200)
  end.

(** A route, up to its answer. *)
Definition serve (route : cprog reply) : cprog unit := let! r := route in cask (Respond r).
End routes.
