(* ===== verification/CredsHistory.v ===== *)
(** * Histories of stored credentials

    The routes, the caches of any number of processes, their subscribers and the
    engines, any number at a time, over the tables ([step]): every call is one
    statement or one access to the memory of a process, and what is asked and answered
    is on the log, newest first, with its thread and time. A statement that is answered
    with an error may have been made. What Proxmox, DNS and the tables of other parts
    answer is anything, and so is what Redis delivers: a published message may be
    lost, late or repeated.

    The rows of a PBS server outlive its cluster. The id of a new row was never in use.
    All clocks show one time, as [time.Since] does within a process.

    - [pre]: what a call owes the log so far; [CInv]: what holds of rows, cached clients
      and the log at any time; [CInv_step]: calls that owe nothing more keep it. *)

From S2P Require Import Prelude GoStrings ProxmoxApi Effects Logs RbacDb RbacEngine NetGuard CredsOps ClientCache.
From S2P Require Import CredsRoutes.

Local Open Scope Z_scope.

(** ** The system *)

Record CDb := {
  d_clusters : gmap uuid Cluster; d_pbs : gmap uuid PbsServer; d_ssh : gmap uuid SshCredential; d_used : gset uuid }.

Abbreviation slot := (nat * CacheKind * uuid)%type.

(** The memory of the processes: their caches, the flights in the air, each with a
    number of its own for its slot, the results of those that have landed, and which
    flight a thread has joined. *)
Record CMem := {
  m_cache : gmap slot cacheEntry; m_air : gmap slot nat; m_landed : gmap (slot * nat) (result cache_error Client);
  m_joined : gmap nat (slot * nat) }.

Record centry := Cen { cn_thread : nat; cn_time : Z; cn_event : event COp }.

Record CSys := { y_db : CDb; y_mem : CMem; y_now : Z; y_log : list centry }.

Definition set_clusters (f : gmap uuid Cluster → gmap uuid Cluster) (d : CDb) : CDb :=
  {| d_clusters := f (d_clusters d); d_pbs := d_pbs d; d_ssh := d_ssh d; d_used := d_used d |}.
Definition set_pbs (f : gmap uuid PbsServer → gmap uuid PbsServer) (d : CDb) : CDb :=
  {| d_clusters := d_clusters d; d_pbs := f (d_pbs d); d_ssh := d_ssh d; d_used := d_used d |}.
Definition set_ssh (f : gmap uuid SshCredential → gmap uuid SshCredential) (d : CDb) : CDb :=
  {| d_clusters := d_clusters d; d_pbs := d_pbs d; d_ssh := f (d_ssh d); d_used := d_used d |}.

Definition add_cluster (r : Cluster) (d : CDb) : CDb :=
  {| d_clusters := <[cl_ID r := r]> (d_clusters d); d_pbs := d_pbs d; d_ssh := d_ssh d; d_used := d_used d ∪ {[cl_ID r]} |}.
Definition add_pbs (r : PbsServer) (d : CDb) : CDb :=
  {| d_clusters := d_clusters d; d_pbs := <[pb_ID r := r]> (d_pbs d); d_ssh := d_ssh d; d_used := d_used d ∪ {[pb_ID r]} |}.

(** The removal of a cluster takes its SSH credential with it and detaches its PBS
    servers. *)
Definition detached (id : uuid) (r : PbsServer) : PbsServer :=
  if bool_decide (pb_ClusterID r = Some id) then
    {| pb_ID := pb_ID r; pb_Name := pb_Name r; pb_ApiUrl := pb_ApiUrl r; pb_TokenID := pb_TokenID r;
       pb_TokenSecretEncrypted := pb_TokenSecretEncrypted r; pb_ClusterID := None; pb_TlsFingerprint := pb_TlsFingerprint r |}
  else r.

Definition deleteCluster (id : uuid) (d : CDb) : CDb :=
  {| d_clusters := delete id (d_clusters d); d_pbs := detached id <$> d_pbs d; d_ssh := delete id (d_ssh d);
     d_used := d_used d |}.

(** [updateClusterTLSFingerprint]: only where the address is still the one that was dialled *)
Definition repinned (fp url : string) (r : Cluster) : Cluster := if bool_decide (cl_ApiUrl r = url) then pinned fp r else r.

Definition repinned_rows (id : uuid) (url : string) (d : CDb) : Z :=
  match d_clusters d !! id with Some r => if bool_decide (cl_ApiUrl r = url) then 1 else 0 | None => 0 end.

(** A statement [f] that was answered with [x]. *)
Definition written (f : CDb → CDb) (d : CDb) (x : option string) (d' : CDb) : Prop := d' = f d ∨ (x ≠ None ∧ d' = d).

Definition set_cache (f : gmap slot cacheEntry → gmap slot cacheEntry) (m : CMem) : CMem :=
  {| m_cache := f (m_cache m); m_air := m_air m; m_landed := m_landed m; m_joined := m_joined m |}.

(** What an invalidation leaves. *)
Definition dropped (p : nat) (kind : CacheKind) (id : uuid) (c : gmap slot cacheEntry) : gmap slot cacheEntry :=
  match kind with
  | CacheKindAll => filter (λ kv, kv.1.1.1 ≠ p) c
  | _ => delete (p, kind, id) c
  end.

Definition join (i : nat) (k : slot) (m : CMem) (x : bool) (m' : CMem) : Prop :=
  match m_air m !! k with
  | Some n => x = false ∧
      m' = {| m_cache := m_cache m; m_air := m_air m; m_landed := m_landed m; m_joined := <[i := (k, n)]> (m_joined m) |}
  | None => x = true ∧ ∃ n, m_landed m !! (k, n) = None ∧
      m' = {| m_cache := m_cache m; m_air := <[k := n]> (m_air m); m_landed := m_landed m;
              m_joined := <[i := (k, n)]> (m_joined m) |}
  end.

(** The flight the thread has joined lands, and leaves the air where it is still the
    one of its slot. *)
Definition landed_air (f : slot * nat) (air : gmap slot nat) : gmap slot nat :=
  if bool_decide (air !! f.1 = Some f.2) then delete f.1 air else air.

Definition land (i : nat) (k : slot) (r : result cache_error Client) (m : CMem) (m' : CMem) : Prop :=
  ∃ n, m_joined m !! i = Some (k, n) ∧
    m' = {| m_cache := m_cache m; m_air := landed_air (k, n) (m_air m); m_landed := <[(k, n) := r]> (m_landed m);
            m_joined := m_joined m |}.

Section system.
Context `{A : Aead}.

(** How the tables may answer, and what they are after it. *)
Definition db_answer {X} (e : COp X) (d : CDb) : X → CDb → Prop :=
  match e in COp X return X → CDb → Prop with
  | GetCluster id => λ x d', d' = d ∧
      match x with Ok r => d_clusters d !! id = Some r | Err none => none = true → d_clusters d !! id = None end
  | CreateCluster p source userID tokenName createdUser createdAcl => λ x d',
      (∃ id, (id ∉ d_used d) ∧
         let r := createCluster id p source userID tokenName createdUser createdAcl in
         d' = add_cluster r d ∧ match x with Ok r' => r' = r | Err _ => True end) ∨
      (is_ok x = false ∧ d' = d)
  | UpdateCluster id p => λ x d',
      match d_clusters d !! id with
      | None => is_ok x = false ∧ d' = d
      | Some r =>
          (d' = set_clusters <[id := updated p r]> d ∧ match x with Ok r' => r' = updated p r | Err _ => True end) ∨
          (is_ok x = false ∧ d' = d)
      end
  | UpdateClusterTLSFingerprint id fp url => λ x d',
      match x with
      | Ok n => n = repinned_rows id url d ∧ d' = set_clusters (alter (repinned fp url) id) d
      | Err _ => d' = set_clusters (alter (repinned fp url) id) d ∨ d' = d
      end
  | ClearClusterCredentialProvenance id => written (set_clusters (alter unprovenanced id)) d
  | DeleteCluster id => λ x d', d' = deleteCluster id d ∨ (is_ok x = false ∧ d' = d)
  | HasClusterSSHCredentials id => λ x d', d' = d ∧ ∀ b, x = Ok b → b = bool_decide (is_Some (d_ssh d !! id))
  | GetClusterSSHCredentials id => λ x d', d' = d ∧
      match x with Ok c => d_ssh d !! id = Some c | Err none => none = true → d_ssh d !! id = None end
  | UpsertClusterSSHCredentials id c => λ x d',
      if bool_decide (is_Some (d_clusters d !! id)) then written (set_ssh <[id := c]>) d x d' else x ≠ None ∧ d' = d
  | DeleteClusterSSHCredentials id => written (set_ssh (delete id)) d
  | GetPBSServer id => λ x d', d' = d ∧
      match x with Ok r => d_pbs d !! id = Some r | Err none => none = true → d_pbs d !! id = None end
  | CreatePBSServer p => λ x d',
      (∃ id, (id ∉ d_used d) ∧ d' = add_pbs (pbs_row id p) d ∧ match x with Ok r => r = pbs_row id p | Err _ => True end) ∨
      (is_ok x = false ∧ d' = d)
  | UpdatePBSServer id p => λ x d',
      match d_pbs d !! id with
      | None => is_ok x = false ∧ d' = d
      | Some _ =>
          (d' = set_pbs <[id := pbs_row id p]> d ∧ match x with Ok r => r = pbs_row id p | Err _ => True end) ∨
          (is_ok x = false ∧ d' = d)
      end
  | DeletePBSServer id => written (set_pbs (delete id)) d
  | ListActiveClusters => λ x d', d' = d ∧
      ∀ rows, x = Ok rows → Forall (λ r, d_clusters d !! cl_ID r = Some r ∧ cl_IsActive r = true) rows
  | ListActivePBSServers => λ x d', d' = d ∧ ∀ rows, x = Ok rows → Forall (λ r, d_pbs d !! pb_ID r = Some r) rows
  | EncryptSecret s => λ x d', d' = d ∧
      ∀ c, x = Ok c → key_valid = true ∧ ∃ nonce, slen nonce = NonceSize ∧ c = Encrypt nonce s
  | _ => λ _ d', d' = d
  end.

(** The same of the memory of the processes. *)
Definition mem_answer (i : nat) {X} (e : COp X) (m : CMem) : X → CMem → Prop :=
  match e in COp X return X → CMem → Prop with
  | CacheRead p kind id => λ x m', m' = m ∧ x = m_cache m !! (p, kind, id)
  | CacheWrite p kind id en => λ _ m', m' = set_cache <[(p, kind, id) := en]> m
  | CacheDrop p kind id => λ _ m', m' = set_cache (dropped p kind id) m
  | FlightJoin p kind id => join i (p, kind, id) m
  | FlightLand p kind id r => λ _, land i (p, kind, id) r m
  | FlightWait p kind id => λ x m', m' = m ∧ ∃ n, m_joined m !! i = Some (p, kind, id, n) ∧ m_landed m !! (p, kind, id, n) = Some x
  | _ => λ _ m', m' = m
  end.

Definition time_answer {X} (e : COp X) (now : Z) : X → Prop :=
  match e in COp X return X → Prop with TimeNow => λ x, x = now | _ => λ _, True end.

Definition step (i : nat) (X : Type) (e : COp X) (s : CSys) (x : X) (s' : CSys) : Prop :=
  ∃ now d m, y_now s ≤ now ∧ db_answer e (y_db s) x d ∧ mem_answer i e (y_mem s) x m ∧ time_answer e now x ∧
    s' = {| y_db := d; y_mem := m; y_now := now; y_log := Cen i now (Ev e x) :: y_log s |}.

Lemma creds_log i X (e : COp X) s x s' : step i X e s x s' → y_log s' = Cen i (y_now s') (Ev e x) :: y_log s.
Proof. by intros (now & d & m & _ & _ & _ & _ & ->). Qed.
End system.

(** ** What a log says *)

(** The address and the ciphertext that a statement stores together. *)
Definition stored_of (ev : event COp) : option (CacheKind * string * string) :=
  match ev with
  | @Ev _ X op x =>
      match op with
      | CreateCluster p _ _ _ _ _ => Some (CacheKindPVE, uc_ApiUrl p, uc_TokenSecretEncrypted p)
      | UpdateCluster _ p => Some (CacheKindPVE, uc_ApiUrl p, uc_TokenSecretEncrypted p)
      | CreatePBSServer p => Some (CacheKindPBS, pp_ApiUrl p, pp_TokenSecretEncrypted p)
      | UpdatePBSServer _ p => Some (CacheKindPBS, pp_ApiUrl p, pp_TokenSecretEncrypted p)
      | _ => None
      end
  end.

(** A secret that was encrypted, and what it was encrypted to. *)
Definition encrypted_of (ev : event COp) : option (string * string) :=
  match ev with
  | @Ev _ X op x =>
      match op in COp X return X → option (string * string) with
      | EncryptSecret s => λ x, match x with Ok c => Some (s, c) | Err _ => None end
      | _ => λ _, None
      end x
  end.

(** The client a request is sent with. *)
Definition sent_of (ev : event COp) : option Client :=
  match ev with @Ev _ X op x => match op with CPve c _ => Some c | _ => None end end.

(** The client of a request to Proxmox that a route or an engine has the client for, and the cluster or server it is for. *)
Definition used_of (ev : event COp) : option (CacheKind * uuid * Client) :=
  match ev with
  | @Ev _ X op x =>
      match op with CPve c r => match r with FirstRequest kind id => Some (kind, id, c) | _ => None end | _ => None end
  end.

(** The nodes that were listed for a cluster. *)
Definition listed_of (ev : event COp) : option (uuid * list NodeEndpoint) :=
  match ev with
  | @Ev _ X op x =>
      match op in COp X return X → option (uuid * list NodeEndpoint) with
      | ListNodeEndpoints id => λ x, match x with Ok l => Some (id, l) | Err _ => None end
      | ListNodesByCluster id => λ x, match x with Ok l => Some (id, l) | Err _ => None end
      | _ => λ _, None
      end x
  end.

(** Thread [i] encrypted [secret] to [c]. *)
Definition encrypted_by (i : nat) (secret c : string) (l : list centry) : Prop :=
  ∃ e, e ∈ l ∧ cn_thread e = i ∧ encrypted_of (cn_event e) = Some (secret, c).

(** A request that supplied [secret] stored it, as [c], for the address [url]. *)
Definition saved (kind : CacheKind) (url c secret : string) (l : list centry) : Prop :=
  ∃ later e earlier, l = later ++ e :: earlier ∧ stored_of (cn_event e) = Some (kind, url, c) ∧
    encrypted_by (cn_thread e) secret c earlier.

Definition row_saved (kind : CacheKind) (url c : string) (l : list centry) : Prop := ∃ secret, saved kind url c secret l.

(** The rows that were read: what each is, its address, its token and the ciphertext of its secret. *)
Abbreviation row_read := (CacheKind * uuid * string * string * string)%type.

Definition cluster_row (id : uuid) (r : Cluster) : row_read :=
  (CacheKindPVE, id, cl_ApiUrl r, cl_TokenID r, cl_TokenSecretEncrypted r).
Definition pbs_row_read (id : uuid) (r : PbsServer) : row_read :=
  (CacheKindPBS, id, pb_ApiUrl r, pb_TokenID r, pb_TokenSecretEncrypted r).

Definition rows_of (ev : event COp) : list row_read :=
  match ev with
  | @Ev _ X op x =>
      match op in COp X return X → list row_read with
      | GetCluster id => λ x, match x with Ok r => [cluster_row id r] | Err _ => [] end
      | GetPBSServer id => λ x, match x with Ok r => [pbs_row_read id r] | Err _ => [] end
      | ListActiveClusters => λ x, match x with Ok rows => (λ r, cluster_row (cl_ID r) r) <$> rows | Err _ => [] end
      | ListActivePBSServers => λ x, match x with Ok rows => (λ r, pbs_row_read (pb_ID r) r) <$> rows | Err _ => [] end
      | _ => λ _, []
      end x
  end.

(** The entry that was found in a cache, and the one that was put there. *)
Definition found_of (ev : event COp) : option (slot * cacheEntry) :=
  match ev with
  | @Ev _ X op x =>
      match op in COp X return X → option (slot * cacheEntry) with
      | CacheRead p kind id => λ x, match x with Some en => Some (p, kind, id, en) | None => None end
      | _ => λ _, None
      end x
  end.

Definition put_of (ev : event COp) : option (slot * cacheEntry) :=
  match ev with @Ev _ X op x => match op with CacheWrite p kind id en => Some (p, kind, id, en) | _ => None end end.

(** The entry of a slot is dropped. *)
Definition drops (k : slot) (ev : event COp) : bool :=
  match ev with
  | @Ev _ X op x =>
      match op with
      | CacheDrop p CacheKindAll _ => bool_decide (k.1.1 = p)
      | CacheDrop p kind id => bool_decide (k = (p, kind, id))
      | _ => false
      end
  end.

(** The entry was put in the slot, and not dropped since. *)
Definition put_before (k : slot) (en : cacheEntry) (l : list centry) : Prop :=
  ∃ newer w older, l = newer ++ w :: older ∧ put_of (cn_event w) = Some (k, en) ∧
    Forall (λ e, drops k (cn_event e) = false) newer.

(** Thread [i] made the client of a row of this cluster or server, which it had read by [t]. *)
Definition made_by `{Aead} (i : nat) (kind : CacheKind) (id : uuid) (c : Client) (t : option Z) (l : list centry) : Prop :=
  ∃ e url cipher, e ∈ l ∧ cn_thread e = i ∧ (kind, id, url, c_TokenID c, cipher) ∈ rows_of (cn_event e) ∧ c_Kind c = kind ∧
    Decrypt cipher = Some (c_TokenSecret c) ∧ match t with Some t => cn_time e ≤ t | None => True end.

(** Thread [i] found the client in the entry of this cluster or server in the cache of a process, and then read from the
    clock that the entry was built less than ten minutes before. *)
Definition found_by (i : nat) (kind : CacheKind) (id : uuid) (c : Client) (l : list centry) : Prop :=
  ∃ newer t between tr p en older,
    l = newer ++ Cen i t (Ev TimeNow t) :: between ++ Cen i tr (Ev (CacheRead p kind id) (Some en)) :: older ∧
    en_client en = c ∧ t - en_builtAt en < 10 * minute.

(** Thread [i] made the client or found it. *)
Definition obtained `{Aead} (i : nat) (kind : CacheKind) (id : uuid) (c : Client) (l : list centry) : Prop :=
  made_by i kind id c None l ∨ found_by i kind id c l.

(** Thread [i] was handed the client by the flight of this cluster or server it had joined in its process: another thread
    landed it after that, and had made the client or found it itself. *)
Definition handed `{Aead} (i : nat) (kind : CacheKind) (id : uuid) (c : Client) (l : list centry) : Prop :=
  ∃ newer j tl p between ti x older,
    l = newer ++ Cen j tl (Ev (FlightLand p kind id (Ok c)) tt) ::
        between ++ Cen i ti (Ev (FlightJoin p kind id) x) :: older ∧
    obtained j kind id c (between ++ Cen i ti (Ev (FlightJoin p kind id) x) :: older).

(** The client that thread [i] has for this cluster or server. *)
Definition current `{Aead} (i : nat) (kind : CacheKind) (id : uuid) (c : Client) (l : list centry) : Prop :=
  obtained i kind id c l ∨ handed i kind id c l.

Lemma grows_made_by `{Aead} i kind id c t : grows (made_by i kind id c t).
Proof. intros e l (e0 & url & cipher & He & H0). exists e0, url, cipher. split; [by right|done]. Qed.

Lemma grows_found_by i kind id c : grows (found_by i kind id c).
Proof. intros e l (newer & t & bt & tr & p & en & older & -> & H). by exists (e :: newer), t, bt, tr, p, en, older. Qed.

Lemma grows_obtained `{Aead} i kind id c : grows (obtained i kind id c).
Proof. intros e l [?|?]; [left; by apply grows_made_by|right; by apply grows_found_by]. Qed.

Lemma grows_handed `{Aead} i kind id c : grows (handed i kind id c).
Proof.
  intros e l (newer & j & tl & p & bt & ti & x & older & -> & H1). by exists (e :: newer), j, tl, p, bt, ti, x, older.
Qed.

Lemma grows_current `{Aead} i kind id c : grows (current i kind id c).
Proof. intros e l [?|?]; [left; by apply grows_obtained|right; by apply grows_handed]. Qed.

Section trust.
Context `{UP : UrlParser} `{A : Aead}.

(** The client stands in for the member at [url]: a row of a cluster with this address, the client's token and the
    ciphertext [cipher] was read, and the client talks to another member that was listed for that cluster with a
    certificate on record, and accepts only that certificate. *)
Definition stands_in (url cipher : string) (c : Client) (l : list centry) : Prop :=
  ∃ e0 e id endpoints alt, e0 ∈ l ∧ (CacheKindPVE, id, url, c_TokenID c, cipher) ∈ rows_of (cn_event e0) ∧
    e ∈ l ∧ listed_of (cn_event e) = Some (id, endpoints) ∧ alt ∈ endpoints ∧
    ep_Address alt ≠ "" ∧ ep_SSLFingerprint alt ≠ "" ∧
    c_BaseURL c = TrimRight (FailoverBaseURL url (ep_Address alt)) ["/"%char] ∧ c_TLSFingerprint c = ep_SSLFingerprint alt.

(** The secret of the client was saved for the address it talks to. *)
Definition trusted (c : Client) (l : list centry) : Prop :=
  ∃ url cipher, saved (c_Kind c) url cipher (c_TokenSecret c) l ∧
    (c_BaseURL c = TrimRight url ["/"%char] ∨ c_Kind c = CacheKindPVE ∧ stands_in url cipher c l).

(** A client that thread [i] may use for a cluster or server. *)
Definition sound (i : nat) (kind : CacheKind) (id : uuid) (c : Client) (l : list centry) : Prop :=
  trusted c l ∧ current i kind id c l.

Definition result_sound {E} (i : nat) (kind : CacheKind) (id : uuid) (r : result E Client) (l : list centry) : Prop :=
  ∀ c, r = Ok c → sound i kind id c l.

(** What a thread may hand to those who wait for it. *)
Definition result_obtained {E} (i : nat) (kind : CacheKind) (id : uuid) (r : result E Client) (l : list centry) : Prop :=
  ∀ c, r = Ok c → trusted c l ∧ obtained i kind id c l.

Lemma grows_encrypted_by i secret c : grows (encrypted_by i secret c).
Proof. apply (grows_elem (λ e, cn_thread e = i ∧ encrypted_of (cn_event e) = Some (secret, c))). Qed.

Lemma grows_saved kind url c secret : grows (saved kind url c secret).
Proof. intros e l (later & e0 & earlier & -> & H). exists (e :: later), e0, earlier. by split. Qed.

Lemma grows_row_saved kind url c : grows (row_saved kind url c).
Proof. apply grows_exists. intros. apply grows_saved. Qed.

Lemma grows_stands_in url cipher c : grows (stands_in url cipher c).
Proof.
  intros e l (e0 & e1 & id & eps & alt & H0 & Hr & He & H). exists e0, e1, id, eps, alt. split_and!; [by right|done|by right|apply H..].
Qed.

Lemma grows_trusted c : grows (trusted c).
Proof.
  intros e l (url & cipher & Hs & H). exists url, cipher. split; [by apply grows_saved|].
  destruct H as [?|[? ?]]; [by left|right]. split; [done|]. by apply grows_stands_in.
Qed.

Lemma grows_sound i kind id c : grows (sound i kind id c).
Proof. apply grows_and; [apply grows_trusted|apply grows_current]. Qed.

Lemma grows_result_sound {E} i kind id (r : result E Client) : grows (result_sound i kind id r).
Proof. apply grows_forall. intros c. apply grows_impl, grows_sound. Qed.

Lemma grows_result_obtained {E} i kind id (r : result E Client) : grows (result_obtained i kind id r).
Proof. apply grows_forall. intros c. apply grows_impl, grows_and; [apply grows_trusted|apply grows_obtained]. Qed.
End trust.
#[export] Hint Resolve grows_encrypted_by grows_saved grows_row_saved grows_stands_in grows_trusted grows_sound grows_result_sound grows_result_obtained : nexara.

(** *** The address of a row *)

(** Thread [i] had a call answered with what satisfies [P]. *)
Definition heard (i : nat) (P : event COp → Prop) (l : list centry) : Prop := ∃ e, e ∈ l ∧ cn_thread e = i ∧ P (cn_event e).

Lemma grows_heard i P : grows (heard i P).
Proof. apply (grows_elem (λ e, cn_thread e = i ∧ P (cn_event e))). Qed.
#[export] Hint Resolve grows_heard : nexara.

(** Nothing of a rolling update is under way, and neither an SSH credential nor a pinned host key is left. *)
Definition move_cleared (i : nat) (id : uuid) (l : list centry) : Prop :=
  heard i (λ ev, ev = Ev (HasRunningJobForCluster id) (Ok false)) l ∧
  heard i (λ ev, ev = Ev (ListCleanupPendingJobsForCluster id) (Ok [])) l ∧
  heard i (λ ev, ev = Ev (GetClusterSSHCredentials id) (Err true) ∨ ev = Ev (DeleteClusterSSHCredentials id) None) l ∧
  heard i (λ ev, ev = Ev (ListSSHKnownHosts id) (Ok []) ∨ ev = Ev (DeleteSSHKnownHostsForCluster id) None) l.

(** The thread may store the address: it is the one it read, or it has cleared the way. *)
Definition may_move (i : nat) (id : uuid) (url : string) (l : list centry) : Prop :=
  ∃ r, heard i (λ ev, ev = Ev (GetCluster id) (Ok r)) l ∧ (cl_ApiUrl r = url ∨ move_cleared i id l).

(** The certificate was served at the address, and is on record for the node there. *)
Definition attested_by `{UrlParser} (i : nat) (id : uuid) (fp url : string) (l : list centry) : Prop :=
  heard i (λ ev, ev = Ev (DialLeaf url) (Ok fp)) l ∧
  ∃ endpoints node, heard i (λ ev, ev = Ev (ListNodeEndpoints id) (Ok endpoints)) l ∧ node ∈ endpoints ∧
    APIURLIsDirectToPVEProxy url = true ∧ EqualFold (ep_Address node) (APIURLHost url) = true ∧
    ep_SSLFingerprint node ≠ "" ∧ NormalizeFingerprint (ep_SSLFingerprint node) = NormalizeFingerprint fp.

Lemma grows_may_move i id url : grows (may_move i id url).
Proof.
  apply grows_exists. intros r. apply grows_and; [apply grows_heard|]. intros e l [?|(? & ? & ? & ?)]; [by left|right].
  split_and!; by apply grows_heard.
Qed.
#[export] Hint Resolve grows_may_move : nexara.

(** ** What a call owes *)

(** What may be stored together: what was saved before, or a secret that this thread has encrypted. *)
Definition may_store (i : nat) (kind : CacheKind) (url c : string) (l : list centry) : Prop :=
  row_saved kind url c l ∨ ∃ secret, encrypted_by i secret c l.

Section owed.
Context `{UP : UrlParser} `{A : Aead}.

Definition owes {X} (i : nat) (e : COp X) (l : list centry) : Prop :=
  match e with
  | CreateCluster p _ _ _ _ _ => may_store i CacheKindPVE (uc_ApiUrl p) (uc_TokenSecretEncrypted p) l
  | UpdateCluster id p =>
      may_store i CacheKindPVE (uc_ApiUrl p) (uc_TokenSecretEncrypted p) l ∧ may_move i id (uc_ApiUrl p) l
  | CreatePBSServer p => may_store i CacheKindPBS (pp_ApiUrl p) (pp_TokenSecretEncrypted p) l
  | UpdatePBSServer _ p => may_store i CacheKindPBS (pp_ApiUrl p) (pp_TokenSecretEncrypted p) l
  | UpdateClusterTLSFingerprint id fp url => attested_by i id fp url l
  | CPve c r => match r with FirstRequest kind id => sound i kind id c l | _ => trusted c l end
  | CacheWrite _ kind id en => trusted (en_client en) l ∧ made_by i kind id (en_client en) (Some (en_builtAt en)) l
  | FlightLand _ kind id r => result_obtained i kind id r l
  | _ => True
  end.

Definition pre (i : nat) (X : Type) (e : COp X) (s : CSys) : Prop := owes i e (y_log s).

Definition paid (e : centry) (earlier : list centry) : Prop :=
  match cn_event e with Ev op _ => owes (cn_thread e) op earlier end.

(** ** The invariant *)

Context `{AL : !AeadLaws}.

(** What is found in a cache was put there. *)
Definition found_ok (e : centry) (earlier : list centry) : Prop :=
  ∀ k en, found_of (cn_event e) = Some (k, en) → put_before k en earlier.

(** A thread that has joined a flight is handed what lands after that. *)
Definition waits_ok (s : CSys) : Prop :=
  ∀ i k n, m_joined (y_mem s) !! i = Some (k, n) →
    ∃ newer t x older, y_log s = newer ++ Cen i t (Ev (FlightJoin k.1.1 k.1.2 k.2) x) :: older ∧
      ∀ c, m_landed (y_mem s) !! (k, n) = Some (Ok c) → trusted c (y_log s) ∧ handed i k.1.2 k.2 c (y_log s).

Record CInv (s : CSys) : Prop := {
  ci_ids : ∀ id r, d_clusters (y_db s) !! id = Some r → cl_ID r = id;
  ci_clusters : ∀ id r, d_clusters (y_db s) !! id = Some r →
    row_saved CacheKindPVE (cl_ApiUrl r) (cl_TokenSecretEncrypted r) (y_log s);
  ci_pbs : ∀ id r, d_pbs (y_db s) !! id = Some r →
    row_saved CacheKindPBS (pb_ApiUrl r) (pb_TokenSecretEncrypted r) (y_log s);
  ci_cache : ∀ k en, m_cache (y_mem s) !! k = Some en → trusted (en_client en) (y_log s);
  ci_put : ∀ k en, m_cache (y_mem s) !! k = Some en → put_before k en (y_log s);
  ci_air : ∀ k n, m_air (y_mem s) !! k = Some n → m_landed (y_mem s) !! (k, n) = None;
  ci_waits : waits_ok s;
  ci_times : Forall (λ e, cn_time e ≤ y_now s) (y_log s);
  ci_found : ForallTail found_ok (y_log s);
  ci_encrypted : ∀ e secret c, e ∈ y_log s → encrypted_of (cn_event e) = Some (secret, c) → Decrypt c = Some secret;
  ci_paid : ForallTail paid (y_log s) }.

(** *** Encryption *)

Lemma stake_sdrop_app a b : stake (slen a) (a +:+ b) = a ∧ sdrop (slen a) (a +:+ b) = b.
Proof. induction a as [|c a [IH1 IH2]]; simpl; [by destruct b|]. by rewrite IH1. Qed.

Lemma Decrypt_Encrypt nonce s : key_valid = true → slen nonce = NonceSize → Decrypt (Encrypt nonce s) = Some s.
Proof.
  intros Hk Hn. unfold Decrypt, Encrypt. rewrite Hk, b64_roundtrip. cbn [negb].
  destruct (stake_sdrop_app nonce (gcm_Seal nonce s)) as [H1 H2]. rewrite Hn in H1, H2.
  assert ((slen (nonce +:+ gcm_Seal nonce s) <? NonceSize)%nat = false) as ->.
  { apply Nat.ltb_ge. rewrite <-Hn. generalize (gcm_Seal nonce s). clear. intros b. induction nonce; simpl; lia. }
  rewrite H1, H2. apply gcm_roundtrip.
Qed.

(** *** Rows *)

(** A row after a call is one of before with the same address and ciphertext, or what the call stores. *)
Lemma cluster_after {X} (e : COp X) d x d' id r :
  db_answer e d x d' → d_clusters d' !! id = Some r →
  (∃ r0, d_clusters d !! id = Some r0 ∧ cl_ApiUrl r = cl_ApiUrl r0 ∧ cl_TokenSecretEncrypted r = cl_TokenSecretEncrypted r0) ∨
  stored_of (Ev e x) = Some (CacheKindPVE, cl_ApiUrl r, cl_TokenSecretEncrypted r).
Proof.
  assert (d_clusters d !! id = Some r → ∃ r0, d_clusters d !! id = Some r0 ∧ cl_ApiUrl r = cl_ApiUrl r0 ∧
    cl_TokenSecretEncrypted r = cl_TokenSecretEncrypted r0) as Hsame by eauto.
  assert (∀ f k, d_clusters (set_clusters (alter f k) d) !! id = Some r →
    (∀ r, cl_ApiUrl (f r) = cl_ApiUrl r ∧ cl_TokenSecretEncrypted (f r) = cl_TokenSecretEncrypted r) →
    ∃ r0, d_clusters d !! id = Some r0 ∧ cl_ApiUrl r = cl_ApiUrl r0 ∧
      cl_TokenSecretEncrypted r = cl_TokenSecretEncrypted r0) as Halter.
  { intros f k Hl Hf. simpl in Hl. apply lookup_alter_Some in Hl as [(-> & r0 & H0 & ->)|[_ Hl]]; [|by eauto].
    destruct (Hf r0). eauto. }
  assert (∀ fp url r, cl_ApiUrl (repinned fp url r) = cl_ApiUrl r ∧
            cl_TokenSecretEncrypted (repinned fp url r) = cl_TokenSecretEncrypted r) as Hpin.
  { intros. unfold repinned. by case_match. }
  intros Ha Hl. destruct e; simpl in Ha;
    first [subst d'; by left; eauto|destruct Ha as [-> _]; by left; eauto|idtac].
  - destruct Ha as [(id0 & _ & -> & _)|[_ ->]]; [|by left; eauto]. simpl in Hl.
    apply lookup_insert_Some in Hl as [[<- <-]|[_ Hl]]; [by right|by left; eauto].
  - destruct (d_clusters d !! id0) as [r0|] eqn:H0; [|destruct Ha as [_ ->]; by left; eauto].
    destruct Ha as [[-> _]|[_ ->]]; [|by left; eauto]. simpl in Hl.
    apply lookup_insert_Some in Hl as [[<- <-]|[_ Hl]]; [by right|by left; eauto].
  - left. destruct x; [destruct Ha as [_ ->]|destruct Ha as [->| ->]]; eauto.
  - left. destruct Ha as [->|[_ ->]]; eauto.
  - left. destruct Ha as [->|[_ ->]]; [|by eauto]. simpl in Hl. apply lookup_delete_Some in Hl as [_ ?]. eauto.
  - left. case_bool_decide; [destruct Ha as [->|[_ ->]]|destruct Ha as [_ ->]]; eauto.
  - left. destruct Ha as [->|[_ ->]]; eauto.
  - left. destruct Ha as [(id0 & _ & -> & _)|[_ ->]]; eauto.
  - left. destruct (d_pbs d !! id0); [destruct Ha as [[-> _]|[_ ->]]|destruct Ha as [_ ->]]; eauto.
  - left. destruct Ha as [->|[_ ->]]; eauto.
Qed.

Lemma cluster_id_after {X} (e : COp X) d x d' :
  db_answer e d x d' → (∀ id r, d_clusters d !! id = Some r → cl_ID r = id) → ∀ id r, d_clusters d' !! id = Some r → cl_ID r = id.
Proof.
  assert (∀ f k id r, d_clusters (set_clusters (alter f k) d) !! id = Some r → (∀ r, cl_ID (f r) = cl_ID r) →
    (∀ id r, d_clusters d !! id = Some r → cl_ID r = id) → cl_ID r = id) as Halter.
  { intros f k id r Hl Hf Hd. simpl in Hl. apply lookup_alter_Some in Hl as [(-> & r0 & H0 & ->)|[_ Hl]]; [|by eauto].
    rewrite Hf. eauto. }
  assert (∀ fp url r, cl_ID (repinned fp url r) = cl_ID r) as Hpin by (intros; unfold repinned; by case_match).
  intros Ha Hd id r Hl. destruct e; simpl in Ha; first [subst d'; by eauto|destruct Ha as [-> _]; by eauto|idtac].
  - destruct Ha as [(id0 & _ & -> & _)|[_ ->]]; [|by eauto]. simpl in Hl.
    apply lookup_insert_Some in Hl as [[<- <-]|[_ Hl]]; [done|by eauto].
  - destruct (d_clusters d !! id0) as [r0|] eqn:H0; [|destruct Ha as [_ ->]; by eauto].
    destruct Ha as [[-> _]|[_ ->]]; [|by eauto]. simpl in Hl.
    apply lookup_insert_Some in Hl as [[<- <-]|[_ Hl]]; [exact (Hd _ _ H0)|by eauto].
  - destruct x; [destruct Ha as [_ ->]|destruct Ha as [->| ->]]; eauto.
  - destruct Ha as [->|[_ ->]]; eauto.
  - destruct Ha as [->|[_ ->]]; [|by eauto]. simpl in Hl. apply lookup_delete_Some in Hl as [_ ?]. eauto.
  - case_bool_decide; [destruct Ha as [->|[_ ->]]|destruct Ha as [_ ->]]; eauto.
  - destruct Ha as [->|[_ ->]]; eauto.
  - destruct Ha as [(id0 & _ & -> & _)|[_ ->]]; eauto.
  - destruct (d_pbs d !! id0); [destruct Ha as [[-> _]|[_ ->]]|destruct Ha as [_ ->]]; eauto.
  - destruct Ha as [->|[_ ->]]; eauto.
Qed.

Lemma pbs_after {X} (e : COp X) d x d' id r :
  db_answer e d x d' → d_pbs d' !! id = Some r →
  (∃ r0, d_pbs d !! id = Some r0 ∧ pb_ApiUrl r = pb_ApiUrl r0 ∧ pb_TokenSecretEncrypted r = pb_TokenSecretEncrypted r0) ∨
  stored_of (Ev e x) = Some (CacheKindPBS, pb_ApiUrl r, pb_TokenSecretEncrypted r).
Proof.
  intros Ha Hl. destruct e; simpl in Ha;
    first [subst d'; by left; eauto|destruct Ha as [-> _]; by left; eauto|idtac].
  - destruct Ha as [(id0 & _ & -> & _)|[_ ->]]; by left; eauto.
  - destruct (d_clusters d !! id0); [destruct Ha as [[-> _]|[_ ->]]|destruct Ha as [_ ->]]; by left; eauto.
  - left. destruct x; [destruct Ha as [_ ->]|destruct Ha as [->| ->]]; eauto.
  - left. destruct Ha as [->|[_ ->]]; eauto.
  - left. destruct Ha as [->|[_ ->]]; [|by eauto]. simpl in Hl. apply lookup_fmap_Some in Hl as (r0 & <- & H0).
    exists r0. unfold detached. by case_match.
  - left. case_bool_decide; [destruct Ha as [->|[_ ->]]|destruct Ha as [_ ->]]; eauto.
  - left. destruct Ha as [->|[_ ->]]; eauto.
  - destruct Ha as [(id0 & _ & -> & _)|[_ ->]]; [|by left; eauto]. simpl in Hl.
    apply lookup_insert_Some in Hl as [[<- <-]|[_ Hl]]; [by right|by left; eauto].
  - destruct (d_pbs d !! id0) as [r0|] eqn:H0; [|destruct Ha as [_ ->]; by left; eauto].
    destruct Ha as [[-> _]|[_ ->]]; [|by left; eauto]. simpl in Hl.
    apply lookup_insert_Some in Hl as [[<- <-]|[_ Hl]]; [by right|by left; eauto].
  - left. destruct Ha as [->|[_ ->]]; [|by eauto]. simpl in Hl. apply lookup_delete_Some in Hl as [_ ?]. eauto.
Qed.

(** What is stored together is saved once it is stored. *)
Lemma stored_saved i {X} (e : COp X) x now l kind url c :
  owes i e l → stored_of (Ev e x) = Some (kind, url, c) → row_saved kind url c (Cen i now (Ev e x) :: l).
Proof.
  intros Ho Hs.
  assert (may_store i kind url c l) as [Hr|[secret Hsec]].
  { destruct e; simplify_eq/=; try done. by destruct Ho. }
  - by apply grows_row_saved.
  - exists secret, [], (Cen i now (Ev e x)), l. by split.
Qed.

(** *** Memory *)

Lemma cache_after i {X} (e : COp X) m x m' (k : slot) en :
  mem_answer i e m x m' → m_cache m' !! k = Some en →
  m_cache m !! k = Some en ∧ drops k (Ev e x) = false ∨
  put_of (Ev e x) = Some (k, en) ∧ ∀ l, owes i e l → trusted (en_client en) l.
Proof.
  intros Ha Hl. destruct e; simpl in Ha; first [subst m'; by left|by destruct Ha as [-> ->]; left|by destruct Ha as [-> ?]; left|idtac].
  - subst m'. simpl in Hl. apply lookup_insert_Some in Hl as [[<- <-]|[_ ?]]; [right|by left].
    split; [done|]. by intros l [? _].
  - subst m'. simpl in Hl. left. unfold dropped in Hl. simpl.
    destruct kind; [apply lookup_delete_Some in Hl as [? ?]..|apply map_lookup_filter_Some in Hl as [? ?]];
      (split; [done|]); apply bool_decide_eq_false; simpl in *; naive_solver.
  - left. unfold join in Ha. destruct (m_air m !! _); [by destruct Ha as [_ ->]|]. by destruct Ha as (_ & n & _ & ->).
  - left. by destruct Ha as (n & _ & ->).
Qed.

Lemma found_answer i {X} (e : COp X) m x m' k en :
  mem_answer i e m x m' → found_of (Ev e x) = Some (k, en) → m_cache m !! k = Some en.
Proof. intros Ha Hf. destruct e; simpl in Ha, Hf; try done. destruct x; [|done]. injection Hf as <- <-. by destruct Ha. Qed.

(** Flights: a call joins one that has not landed, lands the one its thread has joined, or leaves them all. *)
Lemma flights_after i {X} (e : COp X) m x m' :
  mem_answer i e m x m' → (∀ k n, m_air m !! k = Some n → m_landed m !! (k, n) = None) →
  (∀ k n, m_air m' !! k = Some n → m_landed m' !! (k, n) = None) ∧
  ((m_landed m' = m_landed m ∧ m_joined m' = m_joined m) ∨
   (∃ k n y, m_landed m' = m_landed m ∧ m_joined m' = <[i := (k, n)]> (m_joined m) ∧ m_landed m !! (k, n) = None ∧
      Ev e x = Ev (FlightJoin k.1.1 k.1.2 k.2) y) ∨
   (∃ k n r, m_landed m' = <[(k, n) := r]> (m_landed m) ∧ m_joined m' = m_joined m ∧
      (∀ l, owes i e l → result_obtained i k.1.2 k.2 r l) ∧ Ev e x = Ev (FlightLand k.1.1 k.1.2 k.2 r) tt)).
Proof.
  intros Ha Hair. destruct e; simpl in Ha;
    first [subst m'; split; [done|by left]|destruct Ha as [-> _]; split; [done|by left]|idtac].
  - unfold join in Ha. destruct (m_air m !! (process, kind, id)) as [n|] eqn:Hn.
    + destruct Ha as [-> ->]. split; [done|]. right. left. exists (process, kind, id), n, false. by split_and!; [..|apply Hair|].
    + destruct Ha as (-> & n & Hl & ->). split.
      * simpl. intros k n' [[<- <-]|[_ Hk]]%lookup_insert_Some; [done|by apply Hair].
      * right. left. by exists (process, kind, id), n, true.
  - destruct Ha as (n & Hj & ->). destruct x. split.
    + simpl. unfold landed_air. simpl. intros k n' Hk.
      destruct (decide ((process, kind, id, n) = (k, n'))) as [[= <- <-]|Hne].
      * exfalso. case_bool_decide as Hb; [by rewrite lookup_delete_eq in Hk|done].
      * rewrite lookup_insert_ne by done. apply Hair. case_bool_decide; [|done]. by apply lookup_delete_Some in Hk as [_ ?].
    + right. right. by exists (process, kind, id), n, r.
Qed.

Lemma waits_after i {X} (e : COp X) s x now d m :
  mem_answer i e (y_mem s) x m → (∀ k n, m_air (y_mem s) !! k = Some n → m_landed (y_mem s) !! (k, n) = None) →
  owes i e (y_log s) → waits_ok s →
  waits_ok {| y_db := d; y_mem := m; y_now := now; y_log := Cen i now (Ev e x) :: y_log s |}.
Proof.
  intros Hm Hair Ho Hw. destruct (flights_after i e _ x m Hm Hair) as [_ Hf]. clear Hm. intros j k n Hj. simpl in *.
  assert (m_joined (y_mem s) !! j = Some (k, n) → (∀ c, m_landed m !! (k, n) = Some (Ok c) →
      m_landed (y_mem s) !! (k, n) = Some (Ok c)) →
    ∃ newer t y older, Cen i now (Ev e x) :: y_log s = newer ++ Cen j t (Ev (FlightJoin k.1.1 k.1.2 k.2) y) :: older ∧
      ∀ c, m_landed m !! (k, n) = Some (Ok c) → trusted c (Cen i now (Ev e x) :: y_log s) ∧
        handed j k.1.2 k.2 c (Cen i now (Ev e x) :: y_log s)) as Hkeep.
  { intros Hj0 Hl. destruct (Hw j k n Hj0) as (newer & t & y & older & Hlog & Hc). rewrite Hlog.
    exists (Cen i now (Ev e x) :: newer), t, y, older. split; [done|]. intros c Hcl.
    destruct (Hc c (Hl c Hcl)). rewrite <-Hlog. split; [by apply grows_trusted|by apply grows_handed]. }
  destruct Hf as [[Hl Hjn]|[(k0 & n0 & y & Hl & Hjn & Hnone & Hev)|(k0 & n0 & r & Hl & Hjn & Hr & Hev)]].
  - rewrite Hjn in Hj. apply Hkeep; [done|]. by rewrite Hl.
  - rewrite Hjn in Hj. apply lookup_insert_Some in Hj as [[<- [= -> ->]]|[_ Hj]].
    + rewrite Hev. exists [], now, y, (y_log s). split; [done|]. intros c. by rewrite Hl, Hnone.
    + apply Hkeep; [done|]. by rewrite Hl.
  - rewrite Hjn in Hj. destruct (decide ((k0, n0) = (k, n))) as [[= -> ->]|Hne].
    + destruct (Hw j k n Hj) as (newer & t & y & older & Hlog & _). specialize (Hr _ Ho). rewrite Hev.
      exists (Cen i now (Ev (FlightLand k.1.1 k.1.2 k.2 r) tt) :: newer), t, y, older. split; [by rewrite Hlog|].
      intros c Hc. rewrite Hl, lookup_insert_eq in Hc. injection Hc as ->. destruct (Hr c eq_refl) as [Ht Hob].
      split; [by apply grows_trusted|]. rewrite Hlog in Hob |- *. by exists [], i, now, k.1.1, newer, t, y, older.
    + apply Hkeep; [done|]. intros c. by rewrite Hl, lookup_insert_ne by done.
Qed.

Lemma encrypted_answer {X} (e : COp X) d x d' secret c :
  db_answer e d x d' → encrypted_of (Ev e x) = Some (secret, c) → Decrypt c = Some secret.
Proof.
  intros Ha He. destruct e; simpl in Ha, He; try done. destruct x as [c'|]; [|done]. injection He as <- <-.
  destruct Ha as [_ Ha]. destruct (Ha c' eq_refl) as (Hk & nonce & Hn & ->). by apply Decrypt_Encrypt.
Qed.

Lemma CInv_step i X (e : COp X) s x s' : CInv s → pre i X e s → step i X e s x s' → CInv s'.
Proof.
  intros [Hid Hc Hp Hca Hput Hair Hw Ht Hf He Hpaid] Hpre (now & d & m & Hnow & Hd & Hm & _ & ->). unfold pre in Hpre. split; simpl.
  - by eapply cluster_id_after.
  - intros id r Hr. destruct (cluster_after e _ x d id r Hd Hr) as [(r0 & H0 & -> & ->)|Hst].
    + apply grows_row_saved. by eapply Hc.
    + by apply stored_saved.
  - intros id r Hr. destruct (pbs_after e _ x d id r Hd Hr) as [(r0 & H0 & -> & ->)|Hst].
    + apply grows_row_saved. by eapply Hp.
    + by apply stored_saved.
  - intros k en Hk. apply grows_trusted.
    destruct (cache_after i e _ x m k en Hm Hk) as [[? _]|[_ Ho]]; [by eapply Hca|by apply Ho].
  - intros k en Hk. destruct (cache_after i e _ x m k en Hm Hk) as [[H0 Hdr]|[Hwr _]].
    + destruct (Hput k en H0) as (newer & w & older & -> & Hwr & Hn). exists (Cen i now (Ev e x) :: newer), w, older.
      split_and!; [done|done|]. by constructor.
    + exists [], (Cen i now (Ev e x)), (y_log s). by split_and!.
  - by apply (flights_after i e (y_mem s) x m).
  - by apply waits_after.
  - constructor; [done|]. eapply Forall_impl; [exact Ht|]. simpl. lia.
  - split; [|done]. intros k en Hfd. apply Hput. by eapply found_answer.
  - intros e0 secret c [->|He0]%elem_of_cons Hs; [by eapply encrypted_answer|by eapply He].
  - by split.
Qed.
End owed.
