(* ===== verification/CredsSafety.v ===== *)
(** * Where stored secrets go

    That every program of the cluster and PBS routes, the caches and the engines pays
    what its calls owe ([cred_safe_entry]), whatever runs at the same time, and what follows
    for any history.

    - [secret_stays_home]: a secret is the credential only of requests to the address it
      was saved for, or to a listed member of that cluster whose certificate is pinned.
    - [pin_attested]: a certificate is pinned without an operator naming it only where
      the address serves it and the cluster has it on record.
    - [clients_are_current]: a thread has made the client of its request of a row it read,
      or found it in a cache where nothing had invalidated it, not older than ten minutes,
      or was handed it by another that had.
    - [move_clears_trust]: an address is moved only with no rolling update under way and
      the SSH credential and host keys of the cluster gone. *)

From S2P Require Import Prelude GoStrings ProxmoxApi Effects Logs RbacDb RbacEngine NetGuard CredsOps ClientCache.
From S2P Require Import CredsRoutes CredsHistory.

Local Open Scope Z_scope.

Section safety.
Context `{UP : UrlParser} `{A : Aead} `{AL : !AeadLaws} `{UD : UrlDetails} `{NT : NetText} `{UT : UuidText} `{CC : CacheConfig}.

Abbreviation csafe := (safe step pre CInv).
Abbreviation cfree := (free pre).

(** ** Rules *)

(** A part of a program that is safe, with a fact that is carried past it. *)
Lemma csafe_step i {B C} (p : cprog B) (f : B → cprog C) (R : B → list centry → Prop) (P : list centry → Prop) Q s :
  grows P → P (y_log s) → csafe i p (λ b s, R b (y_log s)) s →
  (∀ b s', R b (y_log s') → P (y_log s') → csafe i (f b) Q s') → csafe i (bind p f) Q s.
Proof.
  intros HP Hs Hp Hf. eapply lsafe_next; [|intros b s' H; exact (Hf b s' (proj1 H) (proj2 H))].
  apply (safe_frame step pre CInv i p (λ b s, R b (y_log s)) (λ s, P (y_log s))); [|done|done].
  intros j X e s1 x s2 _ _ Hst Hl. rewrite (creds_log _ _ _ _ _ _ Hst). by apply HP.
Qed.

Lemma csafe_free i {B C} (p : cprog B) (f : B → cprog C) (P : list centry → Prop) Q s :
  grows P → P (y_log s) → cfree p → (∀ b s', P (y_log s') → csafe i (f b) Q s') → csafe i (bind p f) Q s.
Proof.
  intros HP Hs Hp Hf. eapply lsafe_next; [|intros b s' H; exact (Hf b s' H)].
  by apply (lsafe_free _ _ _ _ _ creds_log).
Qed.

Lemma csafe_ret i {B} (b : B) (R : B → list centry → Prop) s :
  grows (R b) → R b (y_log s) → csafe i (Ret b) (λ b s, R b (y_log s)) s.
Proof. apply (lsafe_ret _ _ _ _ _ creds_log). Qed.

(** A call that owes what [P] gives, and what its answer adds. *)
Lemma csafe_ask i {X} (e : COp X) (P : list centry → Prop) (R : X → list centry → Prop) s :
  grows P → P (y_log s) → (∀ x, grows (R x)) → (∀ l, P l → owes i e l) →
  (∀ s x now d m, CInv s → P (y_log s) → db_answer e (y_db s) x d → mem_answer i e (y_mem s) x m →
     R x (Cen i now (Ev e x) :: y_log s)) →
  csafe i (cask e) (λ x s, R x (y_log s)) s.
Proof.
  intros HP Hs HR Ho Ha. apply (lsafe_ask _ _ _ _ _ creds_log i e P R s HP Hs HR).
  - intros s1 _ H1. by apply Ho.
  - intros s1 x s2 HI H1 (now & d & m & _ & Hd & Hm & _ & ->) _. by eapply Ha.
Qed.

(** The time a program reads is not before anything on the log. *)
Lemma csafe_now i (P : list centry → Prop) (R : Z → list centry → Prop) s :
  grows P → P (y_log s) → (∀ t, grows (R t)) →
  (∀ t l, P l → Forall (λ e, cn_time e ≤ t) l → R t (Cen i t (Ev TimeNow t) :: l)) →
  csafe i (cask TimeNow) (λ t s, R t (y_log s)) s.
Proof.
  intros HP Hs HR Ha. apply (lsafe_ask _ _ _ _ _ creds_log i TimeNow P R s HP Hs HR); [done|].
  intros s1 t s2 HI H1 (now & d & m & Hnow & _ & _ & -> & ->) _. apply Ha; [done|].
  eapply Forall_impl; [apply (ci_times _ HI)|]. simpl. lia.
Qed.

(** One whose answer does not matter, followed by the rest. *)
Lemma csafe_pay i {X B} (e : COp X) (f : X → cprog B) (P : list centry → Prop) Q s :
  grows P → P (y_log s) → (∀ l, P l → owes i e l) → (∀ x s', P (y_log s') → csafe i (f x) Q s') →
  csafe i (bind (cask e) f) Q s.
Proof.
  intros HP Hs Ho Hf. apply (csafe_step i _ _ (λ _ _, True) P); [done|done| |by intros; apply Hf].
  by apply (csafe_ask i e P (λ _ _, True)).
Qed.

Lemma csafe_true i {B} (p : cprog B) s : cfree p → csafe i p (λ _ _, True) s.
Proof. intros Hp. by apply (lsafe_free _ _ _ _ _ creds_log i p (λ _, True)). Qed.

(** Steps through a program that owes nothing. *)
Ltac go_free := repeat
  match goal with
  | |- free _ (bind _ _) => apply free_bind; [|intros ?]
  | |- free _ (cask _) => apply free_call; intros ? ?; done
  | |- free _ (Ret _) => apply free_ret
  | |- free _ (for_each _ _) => apply free_each; intros ?
  | |- free _ (match bool_decide ?P with _ => _ end) => destruct (bool_decide_reflect P)
  | |- free _ (match ?x with _ => _ end) => destruct x eqn:?
  | |- free _ _ => by eauto with nexara
  end.

Lemma free_checked_url url allow : cfree (checked_url url allow).
Proof. unfold checked_url. go_free. Qed.

Lemma free_Publish p kind id : cfree (PublishInvalidation p kind id).
Proof. unfold PublishInvalidation, Invalidate, InvalidatePBS, InvalidateAll. go_free. Qed.

Lemma free_handleInvalidation p m : cfree (handleInvalidation p m).
Proof. unfold handleInvalidation, Invalidate, InvalidatePBS, InvalidateAll. go_free. Qed.

Lemma free_runSubscriber n p : cfree (runSubscriber n p).
Proof. induction n as [|n IH]; simpl; [done|]. pose proof (free_handleInvalidation p). go_free; done. Qed.

Lemma free_clear_provenance id existing params : cfree (clear_provenance id existing params).
Proof. unfold clear_provenance. go_free. Qed.

Lemma free_prefill id entry : cfree (prefill_node id entry).
Proof. unfold prefill_node. go_free. Qed.

Lemma free_forget users : cfree (forgetPermissions users).
Proof. unfold forgetPermissions. go_free. Qed.
#[local] Hint Resolve free_checked_url free_Publish free_clear_provenance free_prefill free_forget : nexara.

(** ** What reads and writes leave on the log *)

(** What is stored as [c] was saved for [url], whatever it decrypts to. *)
Definition known (kind : CacheKind) (url c : string) (l : list centry) : Prop :=
  (row_saved kind url c l ∧ c ≠ "") ∧ ∀ secret, Decrypt c = Some secret → saved kind url c secret l.

Lemma grows_known kind url c : grows (known kind url c).
Proof.
  apply grows_and; [apply grows_and; [apply grows_row_saved|apply grows_const]|]. apply grows_forall. intros.
  apply grows_impl, grows_saved.
Qed.

Lemma Decrypt_empty : Decrypt "" = None.
Proof. unfold Decrypt. rewrite b64_empty. by destruct key_valid. Qed.
#[local] Hint Resolve grows_known grows_and grows_const grows_forall grows_impl grows_exists : nexara.

Lemma row_known kind url c s : CInv s → row_saved kind url c (y_log s) → known kind url c (y_log s).
Proof.
  intros HI [secret Hs]. pose proof Hs as (later & e & earlier & Hl & _ & e0 & He0 & _ & Henc).
  assert (Decrypt c = Some secret) as Hd.
  { eapply (ci_encrypted _ HI); [|exact Henc]. rewrite Hl. apply elem_of_app. right. by right. }
  split; [split; [by exists secret|]|].
  - intros ->. by rewrite Decrypt_empty in Hd.
  - intros secret' Hd'. congruence.
Qed.

Definition read_cluster (i : nat) (id : uuid) (x : result bool Cluster) (l : list centry) : Prop :=
  ∀ r, x = Ok r → cl_ID r = id ∧ known CacheKindPVE (cl_ApiUrl r) (cl_TokenSecretEncrypted r) l ∧
    heard i (λ ev, ev = Ev (GetCluster id) (Ok r)) l.

Lemma grows_read_cluster i id x : grows (read_cluster i id x).
Proof. apply grows_forall. intros r. apply grows_impl, grows_and; [apply grows_const|]. apply grows_and; [apply grows_known|apply grows_heard]. Qed.

Lemma heard_now i now (P : event COp → Prop) ev l : P ev → heard i P (Cen i now ev :: l).
Proof. intros HP. exists (Cen i now ev). split; [by left|done]. Qed.

Lemma heard_impl i (P P' : event COp → Prop) l : (∀ ev, P ev → P' ev) → heard i P l → heard i P' l.
Proof. intros HP (e & ? & ? & ?). exists e. auto. Qed.

Lemma safe_GetCluster i id s : csafe i (cask (GetCluster id)) (λ x s, read_cluster i id x (y_log s)) s.
Proof.
  apply (csafe_ask i (GetCluster id) (λ _, True)); [done..|apply grows_read_cluster|done|].
  intros s1 x now d m HI _ [_ Hx] _ r ->. split_and!; [by apply (ci_ids _ HI)| |by apply heard_now].
  apply grows_known, row_known; [done|]. by apply (ci_clusters _ HI id).
Qed.

Definition read_pbs (i : nat) (id : uuid) (x : result bool PbsServer) (l : list centry) : Prop :=
  ∀ r, x = Ok r → known CacheKindPBS (pb_ApiUrl r) (pb_TokenSecretEncrypted r) l ∧
    heard i (λ ev, ev = Ev (GetPBSServer id) (Ok r)) l.

Lemma grows_read_pbs i id x : grows (read_pbs i id x).
Proof. apply grows_forall. intros r. apply grows_impl, grows_and; [apply grows_known|apply grows_heard]. Qed.

Lemma safe_GetPBSServer i id s : csafe i (cask (GetPBSServer id)) (λ x s, read_pbs i id x (y_log s)) s.
Proof.
  apply (csafe_ask i (GetPBSServer id) (λ _, True)); [done..|apply grows_read_pbs|done|].
  intros s1 x now d m HI _ [_ Hx] _ r ->. split; [|by apply heard_now].
  apply grows_known, row_known; [done|]. by apply (ci_pbs _ HI id).
Qed.

Definition encrypts (i : nat) (secret : string) (x : result string string) (l : list centry) : Prop :=
  ∀ c, x = Ok c → encrypted_by i secret c l.

Lemma grows_encrypts i secret x : grows (encrypts i secret x).
Proof. apply grows_forall. intros c. apply grows_impl, grows_encrypted_by. Qed.

Lemma safe_Encrypt i secret s : csafe i (cask (EncryptSecret secret)) (λ x s, encrypts i secret x (y_log s)) s.
Proof.
  apply (csafe_ask i (EncryptSecret secret) (λ _, True)); [done..|apply grows_encrypts|done|].
  intros s1 x now d m _ _ _ _ c ->. eexists. split; [by left|done].
Qed.
#[local] Hint Resolve grows_read_cluster grows_read_pbs grows_encrypts : nexara.

(** *** Clients *)

Lemma newAPIClient_Ok kind url tok secret fp c :
  newAPIClient kind url tok secret fp = Ok c →
  secret ≠ "" ∧ c_Kind c = kind ∧ c_BaseURL c = TrimRight url ["/"%char] ∧ c_TokenSecret c = secret ∧ c_TLSFingerprint c = fp ∧
  c_TokenID c = tok.
Proof. unfold newAPIClient. repeat case_bool_decide; try done. by intros [= <-]. Qed.

Lemma client_trusted kind url tok secret fp c cipher l :
  newAPIClient kind url tok secret fp = Ok c → saved kind url cipher secret l → trusted c l.
Proof.
  intros (_ & <- & Hb & <- & _ & _)%newAPIClient_Ok Hs. exists url, cipher. split; [done|by left].
Qed.

(** A request with a client that may be used for it. *)
Lemma grows_usable i {B} c (r : crequest B) : grows (owes i (CPve c r)).
Proof. destruct r; first [exact (grows_sound _ _ _ c)|exact (grows_trusted c)]. Qed.

Lemma safe_pve i {B C} (c : Client) (r : crequest B) (f : result pve_error B → cprog C) P Q s :
  grows P → P (y_log s) → owes i (CPve c r) (y_log s) → (∀ x s', P (y_log s') → csafe i (f x) Q s') →
  csafe i (bind (cask (CPve c r)) f) Q s.
Proof.
  intros HP Hs Hc Hf. apply (csafe_pay i _ _ (λ l, P l ∧ owes i (CPve c r) l)); [|done|by intros l [_ ?]|naive_solver].
  apply grows_and; [done|apply grows_usable].
Qed.

Lemma safe_test i url tok secret fp P s :
  grows P → P (y_log s) → (secret ≠ "" → ∃ c, saved CacheKindPVE url c secret (y_log s)) →
  csafe i (testClusterConnectivity url tok secret fp) (λ _ s, P (y_log s)) s.
Proof.
  intros HP Hs Hsec. unfold testClusterConnectivity.
  destruct (newAPIClient CacheKindPVE url tok secret fp) as [c|] eqn:Hc; [|by apply (csafe_ret i None (λ _, P))].
  destruct Hsec as [cipher Hsec]; [by apply newAPIClient_Ok in Hc as [? _]|].
  apply (safe_pve i c _ _ P); [done|done|by eapply client_trusted|].
  intros x s' Hs'. by apply (csafe_ret i _ (λ _, P)).
Qed.

(** ** The cache *)

(** An endpoint for a cluster: its address, or a member that may stand in. *)
Definition member_ok (cluster : Cluster) (url fp : string) (l : list centry) : Prop :=
  ∃ e endpoints alt, e ∈ l ∧ listed_of (cn_event e) = Some (cl_ID cluster, endpoints) ∧ alt ∈ endpoints ∧
    ep_Address alt ≠ "" ∧ ep_SSLFingerprint alt ≠ "" ∧
    url = FailoverBaseURL (cl_ApiUrl cluster) (ep_Address alt) ∧ fp = ep_SSLFingerprint alt.

Definition address_ok (cluster : Cluster) (url fp : string) (l : list centry) : Prop :=
  url = cl_ApiUrl cluster ∨ member_ok cluster url fp l.

Lemma grows_member_ok cluster url fp : grows (member_ok cluster url fp).
Proof. intros e l (e0 & eps & alt & He & H). exists e0, eps, alt. split; [by right|done]. Qed.

Lemma grows_address_ok cluster url fp : grows (address_ok cluster url fp).
Proof. intros e l [?|Hm]; [by left|right; by apply grows_member_ok]. Qed.

Abbreviation endpoint_ok cluster ep := (address_ok cluster (ce_BaseURL ep) (ce_TLSFingerprint ep)).

Definition lists (id : uuid) (x : result string (list NodeEndpoint)) (l : list centry) : Prop :=
  ∀ eps, x = Ok eps → ∃ e, e ∈ l ∧ listed_of (cn_event e) = Some (id, eps).

Lemma grows_lists id x : grows (lists id x).
Proof. apply grows_forall. intros eps. apply grows_impl. apply (grows_elem (λ e, listed_of (cn_event e) = Some (id, eps))). Qed.

Lemma safe_lists i (e : COp (result string (list NodeEndpoint))) id s :
  (∀ eps, listed_of (Ev e (Ok eps)) = Some (id, eps)) → (∀ l, owes i e l) → csafe i (cask e) (λ x s, lists id x (y_log s)) s.
Proof.
  intros Hl Ho. apply (csafe_ask i e (λ _, True)); [done..|apply grows_lists|done|].
  intros s1 x now d m _ _ _ _ eps ->. eexists. split; [by left|apply Hl].
Qed.

Lemma safe_clusterEndpoint i cluster s :
  csafe i (clusterEndpoint cluster) (λ ep s, endpoint_ok cluster ep (y_log s)) s.
Proof.
  unfold clusterEndpoint. apply (csafe_step i _ _ (lists (cl_ID cluster)) (λ _, True)); [done..|by apply safe_lists|].
  - intros [eps|] s' Hl _; apply (csafe_ret i _ (λ ep, endpoint_ok cluster ep)); try apply grows_address_ok; [|by left].
    destruct (SelectClusterEndpoint_spec (cl_ApiUrl cluster) (cl_TlsFingerprint cluster) eps)
      as [->|(primary & alt & _ & Ha & _ & _ & _ & _ & Had & _ & Hfp & ->)]; [by left|].
    right. destruct (Hl eps eq_refl) as (e & He & Hle). exists e, eps, alt. by split_and!.
Qed.

(** The thread has read the row, and its secret was saved for its address. *)
Definition has_read (i : nat) (id : uuid) (r : Cluster) (l : list centry) : Prop :=
  cl_ID r = id ∧ known CacheKindPVE (cl_ApiUrl r) (cl_TokenSecretEncrypted r) l ∧
  heard i (λ ev, cluster_row id r ∈ rows_of ev) l.

Definition has_read_pbs (i : nat) (id : uuid) (r : PbsServer) (l : list centry) : Prop :=
  known CacheKindPBS (pb_ApiUrl r) (pb_TokenSecretEncrypted r) l ∧ heard i (λ ev, pbs_row_read id r ∈ rows_of ev) l.

Lemma grows_has_read i id r : grows (has_read i id r).
Proof. apply grows_and; [apply grows_const|]. apply grows_and; [apply grows_known|apply grows_heard]. Qed.

Lemma grows_has_read_pbs i id r : grows (has_read_pbs i id r).
Proof. apply grows_and; [apply grows_known|apply grows_heard]. Qed.

(** A client of a row that was read, for its address or a member. *)
Lemma client_made i id r url fp secret c l :
  has_read i id r l → address_ok r url fp l → Decrypt (cl_TokenSecretEncrypted r) = Some secret →
  newAPIClient CacheKindPVE url (cl_TokenID r) secret fp = Ok c → trusted c l ∧ made_by i CacheKindPVE id c None l.
Proof.
  intros (Hid & [_ Hk] & (e & He & Hi & Hrow)) Ha Hd (_ & Hkind & Hb & Hsec & Hfp & Htok)%newAPIClient_Ok. split.
  - exists (cl_ApiUrl r), (cl_TokenSecretEncrypted r). rewrite Hkind, Hsec. split; [by apply Hk|].
    destruct Ha as [->|(e' & eps & alt & He' & Hl & Hin & Had & Hf & Hu & Hfp')]; [by left|right]. split; [done|].
    rewrite Hid in Hl. exists e, e', id, eps, alt. rewrite Htok. split_and!; try done; [by rewrite Hb, Hu|by rewrite Hfp].
  - exists e, (cl_ApiUrl r), (cl_TokenSecretEncrypted r). rewrite Hkind, Hsec, Htok. by split_and!.
Qed.

(** What a build leaves: a client that is trusted and made of the row the thread has read. *)
Definition made {F} (i : nat) (kind : CacheKind) (id : uuid) (r : result F Client) (l : list centry) : Prop :=
  ∀ c, r = Ok c → trusted c l ∧ made_by i kind id c None l.

Lemma grows_made {F} i kind id (r : result F Client) : grows (made i kind id r).
Proof. apply grows_forall. intros c. apply grows_impl, grows_and; [apply grows_trusted|apply grows_made_by]. Qed.

Abbreviation makes i kind id p s := (csafe i p (λ r s, made i kind id r (y_log s)) s).
Abbreviation builds i kind id p s := (csafe i p (λ r s, result_sound i kind id r (y_log s)) s).

Lemma makes_Err i kind id {F} (e : F) s : makes i kind id (Ret (Err e)) s.
Proof. apply (csafe_ret i (Err e) (made i kind id)); [apply grows_made|done]. Qed.

Lemma makes_Ok i kind id F c s :
  trusted c (y_log s) → made_by i kind id c None (y_log s) → makes i kind id (Ret (Ok c : result F Client)) s.
Proof. intros. apply (csafe_ret i (Ok c : result F Client) (made i kind id)); [apply grows_made|]. by intros ? [= <-]. Qed.

Lemma builds_Err i kind id {F} (e : F) s : builds i kind id (Ret (Err e)) s.
Proof. apply (csafe_ret i (Err e) (result_sound i kind id)); [apply grows_result_sound|done]. Qed.

Lemma builds_Ok i kind id F c s : sound i kind id c (y_log s) → builds i kind id (Ret (Ok c : result F Client)) s.
Proof.
  intros Hc. apply (csafe_ret i (Ok c : result F Client) (result_sound i kind id)); [apply grows_result_sound|].
  by intros ? [= <-].
Qed.

Lemma made_sound i kind id c l : trusted c l ∧ made_by i kind id c None l → sound i kind id c l.
Proof. intros [Ht Hm]. split; [done|]. by left; left. Qed.

Lemma makes_builds i kind id {F} (p : cprog (result F Client)) s : makes i kind id p s → builds i kind id p s.
Proof. apply safe_mono. intros r s' Hm c Hc. apply made_sound. by apply Hm. Qed.

Lemma safe_row_client i id cluster s : has_read i id cluster (y_log s) → makes i CacheKindPVE id (row_client cluster) s.
Proof.
  intros Hk. unfold row_client.
  apply (csafe_step i _ _ (λ ep, endpoint_ok cluster ep) (has_read i id cluster)); [apply grows_has_read|done|apply safe_clusterEndpoint|].
  intros ep s' Hep Hk'. unfold newClientForClusterRow. destruct (Decrypt _) as [secret|] eqn:Hd; [|apply makes_Err].
  destruct (newAPIClient _ _ _ _ _) eqn:Hc; [|apply makes_Err].
  destruct (client_made i id cluster _ _ secret _ _ Hk' Hep Hd Hc). by apply makes_Ok.
Qed.

Lemma read_has_read i id x r l : read_cluster i id x l → x = Ok r → has_read i id r l.
Proof.
  intros Hr Hx. destruct (Hr r Hx) as (Hid & Hk & Hh). split_and!; [done..|]. eapply heard_impl; [|exact Hh].
  intros ev ->. by left.
Qed.

Lemma read_has_read_pbs i id x r l : read_pbs i id x l → x = Ok r → has_read_pbs i id r l.
Proof.
  intros Hr Hx. destruct (Hr r Hx) as [Hk Hh]. split; [done|]. eapply heard_impl; [|exact Hh]. intros ev ->. by left.
Qed.

Lemma makes_NewClientForCluster i id s : makes i CacheKindPVE id (NewClientForCluster id) s.
Proof.
  unfold NewClientForCluster. apply (csafe_step i _ _ (read_cluster i id) (λ _, True)); [done..|apply safe_GetCluster|].
  intros [r|none] s' Hr _; [|apply makes_Err]. apply safe_row_client. by eapply read_has_read.
Qed.

Lemma pbs_made i id r secret c l :
  has_read_pbs i id r l → Decrypt (pb_TokenSecretEncrypted r) = Some secret →
  newAPIClient CacheKindPBS (pb_ApiUrl r) (pb_TokenID r) secret (pb_TlsFingerprint r) = Ok c →
  trusted c l ∧ made_by i CacheKindPBS id c None l.
Proof.
  intros [[_ Hk] (e & He & Hi & Hrow)] Hd Hc. split; [eapply client_trusted; [done|by apply Hk]|].
  apply newAPIClient_Ok in Hc as (_ & Hkind & _ & Hsec & _ & Htok). exists e, (pb_ApiUrl r), (pb_TokenSecretEncrypted r).
  rewrite Hkind, Hsec, Htok. by split_and!.
Qed.

Lemma pbs_client_made i id r c l :
  has_read_pbs i id r l → pbs_client r = Ok c → trusted c l ∧ made_by i CacheKindPBS id c None l.
Proof.
  intros Hk. unfold pbs_client. destruct (Decrypt _) as [secret|] eqn:Hd; [|done].
  destruct (newAPIClient _ _ _ _ _) eqn:Hc; [|done]. intros [= ->]. by apply (pbs_made i id r secret).
Qed.

Lemma makes_build_pbs i id s : makes i CacheKindPBS id (build_pbs id) s.
Proof.
  unfold build_pbs. apply (csafe_step i _ _ (read_pbs i id) (λ _, True)); [done..|apply safe_GetPBSServer|].
  intros [r|none] s' Hr _; [|apply makes_Err]. destruct (pbs_client r) as [c|] eqn:Hc; [|apply makes_Err].
  destruct (pbs_client_made i id r c (y_log s')) as [? ?]; [by eapply read_has_read_pbs|done|]. by apply makes_Ok.
Qed.

(** An entry that is read was trusted when it was written. *)
Definition entry_read (i p : nat) (kind : CacheKind) (id : uuid) (en : cacheEntry) (l : list centry) : Prop :=
  ∃ newer t older, l = newer ++ Cen i t (Ev (CacheRead p kind id) (Some en)) :: older.
Definition entry_trusted (i p : nat) (kind : CacheKind) (id : uuid) (x : option cacheEntry) (l : list centry) : Prop :=
  ∀ en, x = Some en → trusted (en_client en) l ∧ entry_read i p kind id en l.

Lemma grows_entry_read i p kind id en : grows (entry_read i p kind id en).
Proof. intros e l (newer & t & older & ->). by exists (e :: newer), t, older. Qed.

Lemma grows_entry_trusted i p kind id x : grows (entry_trusted i p kind id x).
Proof. apply grows_forall. intros en. apply grows_impl, grows_and; [apply grows_trusted|apply grows_entry_read]. Qed.

(** A client that was found or made by the thread itself. *)
Definition hit_obtained (i : nat) (kind : CacheKind) (id : uuid) (x : option Client) (l : list centry) : Prop :=
  ∀ c, x = Some c → trusted c l ∧ obtained i kind id c l.
Definition hit_sound (i : nat) (kind : CacheKind) (id : uuid) (x : option Client) (l : list centry) : Prop :=
  ∀ c, x = Some c → sound i kind id c l.

Lemma grows_hit_obtained i kind id x : grows (hit_obtained i kind id x).
Proof. apply grows_forall. intros c. apply grows_impl, grows_and; [apply grows_trusted|apply grows_obtained]. Qed.

Lemma grows_hit_sound i kind id x : grows (hit_sound i kind id x).
Proof. apply grows_forall. intros c. apply grows_impl, grows_sound. Qed.

Lemma safe_cached i p kind id s : csafe i (cached p kind id) (λ hit s, hit_obtained i kind id hit (y_log s)) s.
Proof.
  unfold cached. apply (csafe_step i _ _ (entry_trusted i p kind id) (λ _, True)); [done..| |].
  - apply (csafe_ask i (CacheRead p kind id) (λ _, True) (entry_trusted i p kind id)); [done..|apply grows_entry_trusted|done|].
    intros s1 x now d m HI _ _ [_ Hx] en ->. split; [|by exists [], now, (y_log s1)].
    apply grows_trusted. by apply (ci_cache _ HI (p, kind, id)).
  - intros [en|] s' Hen _; [|by apply (csafe_ret i None (hit_obtained i kind id)); [apply grows_hit_obtained|]].
    destruct (Hen en eq_refl) as [Ht Hrd].
    apply (csafe_step i _ _ (λ t l, t - en_builtAt en < cacheTTL → found_by i kind id (en_client en) l) (trusted (en_client en)));
      [apply grows_trusted|done| |].
    + apply (csafe_now i (entry_read i p kind id en) (λ t l, t - en_builtAt en < cacheTTL → found_by i kind id (en_client en) l));
        [apply grows_entry_read|done|intros; apply grows_impl, grows_found_by|].
      intros t l (newer & tr & older & ->) _ Hage. by exists [], t, newer, tr, p, en, older.
    + intros t s2 Hfb Ht2. apply (csafe_ret i _ (hit_obtained i kind id)); [apply grows_hit_obtained|].
      destruct (Z.ltb_spec (t - en_builtAt en) cacheTTL); [|done]. intros ? [= <-]. split; [done|]. right. by apply Hfb.
Qed.

Lemma obtains_Err i kind id (e : cache_error) s :
  csafe i (Ret (Err e)) (λ r s, result_obtained i kind id r (y_log s)) s.
Proof. apply (csafe_ret i (Err e) (result_obtained i kind id)); [apply grows_result_obtained|done]. Qed.

Lemma obtains_Ok i kind id c s :
  trusted c (y_log s) → obtained i kind id c (y_log s) →
  csafe i (Ret (Ok c : result cache_error Client)) (λ r s, result_obtained i kind id r (y_log s)) s.
Proof.
  intros Ht Hc. apply (csafe_ret i (Ok c : result cache_error Client) (result_obtained i kind id)); [apply grows_result_obtained|].
  by intros ? [= <-].
Qed.

Lemma safe_fill i p kind id build s :
  (∀ s, makes i kind id build s) → csafe i (fill p kind id build) (λ r s, result_obtained i kind id r (y_log s)) s.
Proof.
  intros Hb. unfold fill. apply (csafe_step i _ _ (hit_obtained i kind id) (λ _, True)); [done..|apply safe_cached|].
  intros [c|] s1 Hhit _; [destruct (Hhit c eq_refl); by apply obtains_Ok|].
  apply (csafe_step i _ _ (made i kind id) (λ _, True)); [done..|apply Hb|]. intros [c|e] s2 Hc _; [|apply obtains_Err].
  destruct (Hc c eq_refl) as [Ht Hm].
  apply (csafe_step i _ _ (λ t, made_by i kind id c (Some t)) (λ l, trusted c l ∧ made_by i kind id c None l));
    [apply grows_and; [apply grows_trusted|apply grows_made_by]|done| |].
  - apply (csafe_now i (made_by i kind id c None) (λ t, made_by i kind id c (Some t))); [apply grows_made_by|done|intros; apply grows_made_by|].
    intros t l (e & url & cipher & He & ? & ? & ? & ? & _) Hl. apply grows_made_by. rewrite Forall_forall in Hl.
    exists e, url, cipher. split_and!; try done. by apply Hl.
  - intros t s3 Hmt [Ht3 Hm3]. apply (csafe_pay i _ _ (λ l, trusted c l ∧ made_by i kind id c (Some t) l));
      [apply grows_and; [apply grows_trusted|apply grows_made_by]|done|done|].
    intros _ s4 [Ht4 (e & url & cipher & He & ? & ? & ? & ? & _)]. apply obtains_Ok; [done|]. left. exists e, url, cipher.
    by split_and!.
Qed.

Lemma obtained_sound {F} i kind id (r : result F Client) l : result_obtained i kind id r l → result_sound i kind id r l.
Proof. intros Hr c Hc. destruct (Hr c Hc). split; [done|by left]. Qed.

Lemma cred_safe_get i p kind id build s : (∀ s, makes i kind id build s) → builds i kind id (get p kind id build) s.
Proof.
  intros Hb. unfold get. apply (csafe_step i _ _ (hit_obtained i kind id) (λ _, True)); [done..|apply safe_cached|].
  intros [c|] s1 Hhit _; [destruct (Hhit c eq_refl); apply builds_Ok; by split; [|left]|].
  apply (csafe_free i _ _ (λ _, True)); [done..|go_free|]. intros [] s2 _.
  - apply (csafe_step i _ _ (result_obtained i kind id) (λ _, True)); [done..|by apply safe_fill|]. intros r s3 Hr _.
    apply (csafe_pay i _ _ (result_obtained i kind id r)); [apply grows_result_obtained|done|done|].
    intros _ s4 Hr4. apply (csafe_ret i r (result_sound i kind id)); [apply grows_result_sound|by apply obtained_sound].
  - apply (csafe_ask i (FlightWait p kind id) (λ _, True) (result_sound i kind id)); [done..|intros; apply grows_result_sound|done|].
    intros s3 x now d m HI _ _ (_ & n & Hj & Hn) c ->. apply grows_sound.
    destruct (ci_waits _ HI i (p, kind, id) n Hj) as (newer & t & y & older & _ & Hc). destruct (Hc c Hn). split; [done|by right].
Qed.

Lemma safe_Get i p id s : builds i CacheKindPVE id (Get p id) s.
Proof. apply cred_safe_get. intros. apply makes_NewClientForCluster. Qed.

Lemma safe_GetPBS i p id s : builds i CacheKindPBS id (GetPBS p id) s.
Proof. apply cred_safe_get. intros. apply makes_build_pbs. Qed.

(** The error of a build is answered in some other way. *)
Lemma builds_map i kind id {F G} (p : cprog (result F Client)) (f : result F Client → result G Client) s :
  (∀ r c, f r = Ok c → r = Ok c) → builds i kind id p s → builds i kind id (bind p (λ r, Ret (f r))) s.
Proof.
  intros Hf Hp. apply (csafe_step i _ _ (result_sound i kind id) (λ _, True)); [done..|]. intros r s' Hr _.
  apply (csafe_ret i _ (result_sound i kind id)); [apply grows_result_sound|]. intros c Hc%Hf. by apply Hr.
Qed.

Lemma safe_CreateProxmoxClient i p id s : builds i CacheKindPVE id (CreateProxmoxClient p id) s.
Proof.
  unfold CreateProxmoxClient. destruct CacheWired.
  - apply builds_map; [|apply safe_Get]. intros [c|[|]] ?; by intros [= <-].
  - apply (makes_builds i CacheKindPVE id).
    apply (csafe_step i _ _ (read_cluster i id) (λ _, True)); [done..|apply safe_GetCluster|].
    intros [r|[]] s' Hr _; [|apply makes_Err..]. destruct (Decrypt _) as [secret|] eqn:Hd; [|apply makes_Err].
    destruct (newAPIClient _ _ _ _ _) as [c|] eqn:Hc; [|apply makes_Err].
    destruct (client_made i id r (cl_ApiUrl r) (cl_TlsFingerprint r) secret c (y_log s')) as [? ?];
      [by eapply read_has_read|by left|done|done|]. by apply makes_Ok.
Qed.

Lemma safe_createPBSClient i p id s : builds i CacheKindPBS id (createPBSClient p id) s.
Proof.
  unfold createPBSClient. destruct CacheWired.
  - apply builds_map; [|apply safe_GetPBS]. intros [c|[|]] ?; by intros [= <-].
  - apply (makes_builds i CacheKindPBS id).
    apply (csafe_step i _ _ (read_pbs i id) (λ _, True)); [done..|apply safe_GetPBSServer|].
    intros [r|[]] s' Hr _; [|apply makes_Err..]. destruct (Decrypt _) as [secret|] eqn:Hd; [|apply makes_Err].
    destruct (newAPIClient _ _ _ _ _) as [c|] eqn:Hc; [|apply makes_Err].
    destruct (pbs_made i id r secret c (y_log s')) as [? ?]; [by eapply read_has_read_pbs|done|done|]. by apply makes_Ok.
Qed.

Lemma safe_createClient i p id s : builds i CacheKindPVE id (createClient p id) s.
Proof.
  unfold createClient. apply (csafe_step i _ _ (result_sound i CacheKindPVE id) (λ _, True)); [done..| |].
  - destruct CacheWired; [apply safe_Get|apply builds_Err].
  - intros [c|e] s' Hc _; [by apply builds_Ok, Hc|]. apply (makes_builds i CacheKindPVE id), makes_NewClientForCluster.
Qed.

(** *** Every other way to a client *)

Lemma safe_hit i p id s : builds i CacheKindPVE id (if CacheWired then Get p id else Ret (Err NoSuchRow)) s.
Proof. destruct CacheWired; [apply safe_Get|apply builds_Err]. Qed.

Lemma safe_proxmoxClientFor i p id r s : has_read i id r (y_log s) → builds i CacheKindPVE id (proxmoxClientFor p id r) s.
Proof.
  intros Hr. unfold proxmoxClientFor.
  apply (csafe_step i _ _ (result_sound i CacheKindPVE id) (has_read i id r)); [apply grows_has_read|done|apply safe_hit|].
  intros [c|e] s' Hc Hr'; [by apply builds_Ok, Hc|]. unfold direct_client.
  destruct (Decrypt _) as [secret|] eqn:Hd; [|apply builds_Err].
  destruct (newAPIClient _ _ _ _ _) eqn:Hc'; [|apply builds_Err].
  apply builds_Ok, (made_sound i CacheKindPVE id). eapply (client_made i id r); [done|by left|done|done].
Qed.

Lemma safe_clientForCluster i p id s : builds i CacheKindPVE id (clientForCluster p id) s.
Proof.
  unfold clientForCluster. apply (csafe_step i _ _ (read_cluster i id) (λ _, True)); [done..|apply safe_GetCluster|].
  intros [r|none] s' Hr _; [|apply builds_Err]. apply safe_proxmoxClientFor. by eapply read_has_read.
Qed.

Lemma targets_ok cluster eps id l :
  cl_ID cluster = id → lists id (Ok eps) l → Forall (λ t : string * string, member_ok cluster t.1 t.2 l) (failoverTargets cluster eps).
Proof.
  intros <- Hl. destruct (Hl eps eq_refl) as (e & He & Hle). apply Forall_forall. intros t Ht.
  apply list_elem_of_omap in Ht as (alt & Hin & Ht). revert Ht.
  destruct (bool_decide_reflect (ep_Address alt = "")); [done|]. destruct (bool_decide (_ = APIURLHost _)); [done|].
  destruct (bool_decide_reflect (ep_SSLFingerprint alt = "")); [done|]. intros [= <-]. exists e, eps, alt. by split_and!.
Qed.

(** What a failover goes by. *)
Definition may_fail_over (i : nat) (id : uuid) (r : Cluster) (targets : list (string * string)) (l : list centry) : Prop :=
  has_read i id r l ∧ Forall (λ t : string * string, member_ok r t.1 t.2 l) targets.

Lemma grows_may_fail_over i id r targets : grows (may_fail_over i id r targets).
Proof. apply grows_and; [apply grows_has_read|]. apply (grows_Forall (λ t : string * string, member_ok r t.1 t.2)). intros. apply grows_member_ok. Qed.

Lemma safe_try i id r secret targets s :
  may_fail_over i id r targets (y_log s) → Decrypt (cl_TokenSecretEncrypted r) = Some secret →
  csafe i (try_targets r secret targets) (λ x s, hit_sound i CacheKindPVE id x (y_log s)) s.
Proof.
  intros Hf Hd. revert s Hf. induction targets as [|[url fp] targets IH]; intros s Hf; simpl.
  { by apply (csafe_ret i None (hit_sound i CacheKindPVE id)); [apply grows_hit_sound|]. }
  assert (may_fail_over i id r targets (y_log s)) as Ht by (destruct Hf as [? [_ ?]%Forall_cons]; by split).
  destruct (newAPIClient _ _ _ _ _) as [c|] eqn:Hc; [|by apply IH].
  assert (sound i CacheKindPVE id c (y_log s)) as Hs.
  { destruct Hf as [Hr [Hm _]%Forall_cons]. apply (made_sound i CacheKindPVE id). eapply (client_made i id r); [done|by right|done|done]. }
  apply (safe_pve i c GetNodes _ (λ l, may_fail_over i id r targets l ∧ sound i CacheKindPVE id c l)).
  - apply grows_and; [apply grows_may_fail_over|apply grows_sound].
  - done.
  - apply Hs.
  - intros [nodes|e] s' [Ht' Hs']; [|by apply IH]. apply (csafe_ret i _ (hit_sound i CacheKindPVE id)); [apply grows_hit_sound|]. by intros ? [= <-].
Qed.

Lemma safe_failoverCluster i r e s :
  has_read i (cl_ID r) r (y_log s) → csafe i (failoverCluster r e) (λ x s, hit_sound i CacheKindPVE (cl_ID r) x (y_log s)) s.
Proof.
  intros Hr. unfold failoverCluster.
  assert (∀ s, csafe i (Ret None) (λ x s, hit_sound i CacheKindPVE (cl_ID r) x (y_log s)) s) as Hno.
  { intros s'. by apply (csafe_ret i None (hit_sound i CacheKindPVE (cl_ID r))); [apply grows_hit_sound|]. }
  destruct (negb (connection_failed e)); [done|].
  apply (csafe_step i _ _ (lists (cl_ID r)) (has_read i (cl_ID r) r)); [apply grows_has_read|done|by apply safe_lists|].
  intros [nodes|] s' Hl Hr'; [|done]. destruct (Decrypt _) as [secret|] eqn:Hd; [|done].
  apply (safe_try i (cl_ID r)); [|done]. split; [done|]. by eapply (targets_ok _ _ (cl_ID r)).
Qed.

Lemma safe_SyncCluster i p r s : has_read i (cl_ID r) r (y_log s) → builds i CacheKindPVE (cl_ID r) (SyncCluster p r) s.
Proof.
  intros Hr. unfold SyncCluster.
  apply (csafe_step i _ _ (result_sound i CacheKindPVE (cl_ID r)) (has_read i (cl_ID r) r)); [apply grows_has_read|done|by apply safe_proxmoxClientFor|].
  intros [c|e] s1 Hc Hr1; [|apply builds_Err]. pose proof (Hc c eq_refl) as Hs. clear Hc.
  apply (safe_pve i c GetNodes _ (λ l, has_read i (cl_ID r) r l ∧ sound i CacheKindPVE (cl_ID r) c l)); [|done|apply Hs|].
  { apply grows_and; [apply grows_has_read|apply grows_sound]. }
  intros [nodes|e] s2 [Hr2 Hs2]; [by apply builds_Ok|].
  apply (csafe_step i _ _ (hit_sound i CacheKindPVE (cl_ID r)) (λ _, True)); [done..|by apply safe_failoverCluster|].
  intros [alt|] s3 Ha _; [by apply builds_Ok, Ha|apply builds_Err].
Qed.

Lemma safe_with_failover i id r secret primary s :
  has_read i id r (y_log s) → Decrypt (cl_TokenSecretEncrypted r) = Some secret → result_sound i CacheKindPVE id primary (y_log s) →
  builds i CacheKindPVE id (with_failover id r secret primary) s.
Proof.
  intros Hr Hd Hp. unfold with_failover.
  set (K := λ l, has_read i id r l ∧ result_sound i CacheKindPVE id primary l).
  assert (grows K) as HK by (apply grows_and; [apply grows_has_read|apply grows_result_sound]).
  apply (csafe_step i _ _ (lists id) K); [done|done|by apply safe_lists|]. intros eps s1 Hl [Hr1 Hp1].
  apply (csafe_step i _ _ (hit_sound i CacheKindPVE id) K); [done|done| |].
  - apply (safe_try i id); [|done]. split; [done|]. destruct eps; [|constructor]. eapply (targets_ok _ _ id); [|done]. by apply Hr1.
  - intros [alt|] s2 Ha [_ Hp2]; [by apply builds_Ok, Ha|]. destruct primary as [c|e]; [by apply builds_Ok, Hp2|apply builds_Err].
Qed.

Lemma safe_build_client i id s : builds i CacheKindPVE id (build_client id) s.
Proof.
  unfold build_client. apply (csafe_step i _ _ (read_cluster i id) (λ _, True)); [done..|apply safe_GetCluster|].
  intros [r|none] s1 Hr _; [|apply builds_Err]. assert (has_read i id r (y_log s1)) as Hr1 by by eapply read_has_read.
  destruct (Decrypt _) as [secret|] eqn:Hd; [|apply builds_Err].
  destruct (newAPIClient _ _ _ _ _) as [c|] eqn:Hc; [|by apply safe_with_failover].
  assert (sound i CacheKindPVE id c (y_log s1)) as Hs.
  { apply (made_sound i CacheKindPVE id). eapply (client_made i id r); [done|by left|done|done]. }
  apply (safe_pve i c GetNodes _ (λ l, has_read i id r l ∧ sound i CacheKindPVE id c l)); [|done|apply Hs|].
  { apply grows_and; [apply grows_has_read|apply grows_sound]. }
  intros [nodes|e] s2 [Hr2 Hs2]; [by apply builds_Ok|]. destruct (negb (connection_failed e)); [by apply builds_Ok|].
  apply safe_with_failover; [done|done|]. by intros ? [= <-].
Qed.

Lemma safe_rollingClient i p id s : builds i CacheKindPVE id (rollingClient p id) s.
Proof.
  unfold rollingClient. apply (csafe_step i _ _ (result_sound i CacheKindPVE id) (λ _, True)); [done..|apply safe_hit|].
  intros [c|e] s1 Hc _; [|apply safe_build_client]. pose proof (Hc c eq_refl) as Hs.
  apply (safe_pve i c GetNodes _ (sound i CacheKindPVE id c)); [apply grows_sound|done|apply Hs|].
  intros [nodes|e] s2 Hs2; [by apply builds_Ok|apply safe_build_client].
Qed.

Lemma target_clients_sound i id r secret targets l :
  may_fail_over i id r targets l → Decrypt (cl_TokenSecretEncrypted r) = Some secret →
  Forall (λ c, sound i CacheKindPVE id c l) (target_clients r secret targets).
Proof.
  intros [Hr Ht] Hd. apply Forall_forall. intros c Hc. apply list_elem_of_omap in Hc as ([url fp] & Hin & Hc).
  rewrite Forall_forall in Ht. specialize (Ht _ Hin). simpl in Hc.
  destruct (newAPIClient _ _ _ _ _) as [c'|] eqn:Hn; [|done]. injection Hc as <-.
  apply (made_sound i CacheKindPVE id). eapply (client_made i id r); [done|by right|done|done].
Qed.

Definition all_sound (i : nat) (id : uuid) (clients : list Client) (l : list centry) : Prop := Forall (λ c, sound i CacheKindPVE id c l) clients.

Lemma grows_all_sound i id clients : grows (all_sound i id clients).
Proof. apply (grows_Forall (sound i CacheKindPVE id)). intros. apply grows_sound. Qed.

Lemma safe_buildFailoverClients i id s : csafe i (buildFailoverClients id) (λ cs s, all_sound i id cs (y_log s)) s.
Proof.
  unfold buildFailoverClients. apply (csafe_step i _ _ (read_cluster i id) (λ _, True)); [done..|apply safe_GetCluster|].
  assert (∀ s, csafe i (Ret []) (λ cs s, all_sound i id cs (y_log s)) s) as Hno.
  { intros s'. apply (csafe_ret i [] (all_sound i id)); [apply grows_all_sound|constructor]. }
  intros [r|none] s1 Hr _; [|done]. destruct (Decrypt _) as [secret|] eqn:Hd; [|done].
  apply (csafe_step i _ _ (lists id) (has_read i id r)); [apply grows_has_read|by eapply read_has_read|by apply safe_lists|].
  intros eps s2 Hl Hr2. apply (csafe_ret i _ (all_sound i id)); [apply grows_all_sound|].
  apply (target_clients_sound i id); [|done]. split; [done|]. destruct eps; [|constructor]. eapply (targets_ok _ _ id); [|done]. by apply Hr2.
Qed.

Lemma safe_tries i id n c last s : sound i CacheKindPVE id c (y_log s) → csafe i (tries id n c last) (λ _ _, True) s.
Proof.
  revert last s. induction n as [|n IH]; intros last s Hs; simpl; [by apply csafe_true|].
  apply (safe_pve i c (FirstRequest CacheKindPVE id) _ (sound i CacheKindPVE id c)); [apply grows_sound|done|done|]. intros [u|e] s' Hs'; [by apply csafe_true|].
  destruct (connection_failed e); [by apply IH|by apply csafe_true].
Qed.

Lemma safe_fallbacks i id clients err s : all_sound i id clients (y_log s) → csafe i (fallbacks id clients err) (λ _ _, True) s.
Proof.
  revert s. induction clients as [|c clients IH]; intros s Hs; simpl; [by apply csafe_true|]. apply Forall_cons in Hs as [Hc Hs].
  apply (safe_pve i c (FirstRequest CacheKindPVE id) _ (all_sound i id clients)); [apply grows_all_sound|done|done|].
  intros [u|e] s' Hs'; [by apply csafe_true|]. destruct (connection_failed e); [by apply IH|by apply csafe_true].
Qed.

Lemma safe_rolling_request i p id s : csafe i (rolling_request p id) (λ _ _, True) s.
Proof.
  unfold rolling_request. apply (csafe_step i _ _ (result_sound i CacheKindPVE id) (λ _, True)); [done..|apply safe_rollingClient|].
  intros [c|e] s1 Hc _; [|by apply csafe_true]. pose proof (Hc c eq_refl) as Hs.
  apply (csafe_step i _ _ (λ _ _, True) (λ _, True)); [done..| |by intros; apply csafe_true]. unfold callWithRetryFailover.
  apply (csafe_step i _ _ (λ _ _, True) (λ _, True)); [done..|by apply safe_tries|].
  intros [u|e] s2 _ _; [by apply csafe_true|]. destruct (connection_failed e); [|by apply csafe_true].
  apply (csafe_step i _ _ (all_sound i id) (λ _, True)); [done..|apply safe_buildFailoverClients|].
  intros clients s3 Hcs _. by apply safe_fallbacks.
Qed.

Lemma safe_use_client i kind id {F} (p : cprog (result F Client)) s :
  builds i kind id p s → csafe i (use_client kind id p) (λ _ _, True) s.
Proof.
  intros Hp. unfold use_client. apply (csafe_step i _ _ (result_sound i kind id) (λ _, True)); [done..|]. intros [c|e] s' Hc _.
  - apply (safe_pve i c _ _ (λ _, True)); [done..|by apply Hc|]. intros. by apply csafe_true.
  - by apply csafe_true.
Qed.

(** What a listing of rows leaves. *)
Definition lists_clusters (i : nat) (x : result string (list Cluster)) (l : list centry) : Prop :=
  ∀ rows r, x = Ok rows → r ∈ rows → has_read i (cl_ID r) r l.

Definition lists_pbs (i : nat) (x : result string (list PbsServer)) (l : list centry) : Prop :=
  ∀ rows r, x = Ok rows → r ∈ rows → has_read_pbs i (pb_ID r) r l.

Lemma grows_lists_clusters i x : grows (lists_clusters i x).
Proof. apply grows_forall. intros rows. apply grows_forall. intros r. apply grows_impl, grows_impl, grows_has_read. Qed.

Lemma grows_lists_pbs i x : grows (lists_pbs i x).
Proof. apply grows_forall. intros rows. apply grows_forall. intros r. apply grows_impl, grows_impl, grows_has_read_pbs. Qed.

Lemma safe_SyncAll i p n s : csafe i (SyncAll p n) (λ _ _, True) s.
Proof.
  unfold SyncAll. apply (csafe_step i _ _ (lists_clusters i) (λ _, True)); [done..| |].
  - apply (csafe_ask i ListActiveClusters (λ _, True)); [done..|apply grows_lists_clusters|done|].
    intros s1 x now d m HI _ [_ Hx] _ rows r -> Hin. specialize (Hx rows eq_refl). rewrite Forall_forall in Hx.
    destruct (Hx r Hin) as [Hr _]. split_and!; [done|apply grows_known, row_known; [done|by apply (ci_clusters _ HI (cl_ID r))]|].
    apply heard_now. simpl. apply list_elem_of_fmap. by exists r.
  - intros [rows|e] s' Hl _; [|by apply csafe_true]. destruct (rows !! n) as [r|] eqn:Hr; [|by apply csafe_true].
    apply safe_use_client, safe_SyncCluster. apply (Hl rows r eq_refl). by eapply list_elem_of_lookup_2.
Qed.

Lemma safe_pbsProxmoxClient i p r s : has_read_pbs i (pb_ID r) r (y_log s) → builds i CacheKindPBS (pb_ID r) (pbsProxmoxClient p r) s.
Proof.
  intros Hr. unfold pbsProxmoxClient.
  apply (csafe_step i _ _ (result_sound i CacheKindPBS (pb_ID r)) (has_read_pbs i (pb_ID r) r)); [apply grows_has_read_pbs|done| |].
  { destruct CacheWired; [apply safe_GetPBS|apply builds_Err]. }
  intros [c|e] s' Hc Hr'; [by apply builds_Ok, Hc|]. destruct (pbs_client r) eqn:Hp; [|apply builds_Err].
  apply builds_Ok, (made_sound i CacheKindPBS (pb_ID r)). by eapply pbs_client_made.
Qed.

Lemma safe_SyncAllPBS i p s : csafe i (SyncAllPBS p) (λ _ _, True) s.
Proof.
  unfold SyncAllPBS. apply (csafe_step i _ _ (lists_pbs i) (λ _, True)); [done..| |].
  - apply (csafe_ask i ListActivePBSServers (λ _, True)); [done..|apply grows_lists_pbs|done|].
    intros s1 x now d m HI _ [_ Hx] _ rows r -> Hin. specialize (Hx rows eq_refl). rewrite Forall_forall in Hx.
    split; [apply grows_known, row_known; [done|by apply (ci_pbs _ HI (pb_ID r)), Hx]|].
    apply heard_now. simpl. apply list_elem_of_fmap. by exists r.
  - intros [rows|e] s' Hl _; [|by apply csafe_true].
    eapply safe_mono; [|apply (lsafe_each _ _ _ _ _ creds_log i rows _ (lists_pbs i (Ok rows))); [apply grows_lists_pbs| |done]]; [done|].
    intros r s1 Hin Hl1. apply safe_use_client, safe_pbsProxmoxClient. by apply (Hl1 rows r eq_refl).
Qed.

(** ** The routes *)

(** A part that may refuse, and the rest where it does not. *)
Lemma csafe_refuse i (p : cprog (option reply)) (k : cprog reply) (P : list centry → Prop) s :
  grows P → P (y_log s) → cfree p → (∀ s', P (y_log s') → csafe i k (λ _ _, True) s') →
  csafe i (bind p (λ refused, unless_refused refused k)) (λ _ _, True) s.
Proof.
  intros HP Hs Hp Hk. apply (csafe_free i _ _ P); [done..|]. intros [r|] s' Hs'; simpl; [by apply csafe_true|by apply Hk].
Qed.

(** What a write that was answered leaves: what was stored is saved with the secret that was encrypted. *)
Lemma saved_now i now {X} (e : COp X) x l kind url c secret :
  stored_of (Ev e x) = Some (kind, url, c) → encrypted_by i secret c l → saved kind url c secret (Cen i now (Ev e x) :: l).
Proof. intros Hs He. exists [], (Cen i now (Ev e x)), l. by split. Qed.

Lemma safe_resolve i req b s : csafe i (resolve_credential req b) (λ _ _, True) s.
Proof. apply csafe_true. unfold resolve_credential. go_free. Qed.

Lemma cred_safe_Create i req s : csafe i (Create req) (λ _ _, True) s.
Proof.
  unfold Create. destruct (checked_create req) as [b|r]; [|by apply csafe_true].
  apply (csafe_refuse i _ _ (λ _, True)); [done..|go_free|]. intros s1 _.
  apply (csafe_step i _ _ (λ _ _, True) (λ _, True)); [done..|apply safe_resolve|]. intros [cred|r] s2 _ _; [|by apply csafe_true].
  apply (csafe_step i _ _ (encrypts i (cc_Secret cred)) (λ _, True)); [done..|apply safe_Encrypt|].
  intros [c|e] s3 Henc _; [|by apply csafe_true].
  set (p := {| uc_Name := _; uc_ApiUrl := cr_APIURL req; uc_TokenID := _; uc_TokenSecretEncrypted := c; uc_TlsFingerprint := _;
               uc_SyncIntervalSeconds := _; uc_IsActive := _ |}).
  apply (csafe_step i _ _ (λ _, saved CacheKindPVE (cr_APIURL req) c (cc_Secret cred)) (λ _, True)); [done..| |].
  { apply (csafe_ask i (CreateCluster p _ _ _ _ _) (encrypted_by i (cc_Secret cred) c) (λ _, saved CacheKindPVE (cr_APIURL req) c (cc_Secret cred))).
    - apply grows_encrypted_by.
    - by apply Henc.
    - intros. apply grows_saved.
    - intros l Hl. right. by exists (cc_Secret cred).
    - intros s4 x now d m _ Hl _ _. by apply (saved_now i now (CreateCluster p _ _ _ _ _)). }
  intros [r|e] s4 Hsv _; [|apply csafe_true; unfold create_failed; go_free].
  apply (csafe_free i _ _ (saved CacheKindPVE (cr_APIURL req) c (cc_Secret cred))); [apply grows_saved|done|go_free|]. intros _ s5 Hs5.
  apply (csafe_step i _ _ (λ _ _, True) (λ _, True)); [done..|apply (safe_test i _ _ _ _ (λ _, True)); [done..|by eauto]|].
  intros entries s6 _ _. apply csafe_true. go_free.
Qed.

(** *** Deleting *)

Lemma cred_safe_revoke i cluster secret shared s :
  saved CacheKindPVE (cl_ApiUrl cluster) (cl_TokenSecretEncrypted cluster) secret (y_log s) →
  csafe i (revokeBootstrapCredentials cluster secret shared) (λ _ _, True) s.
Proof.
  intros Hs. unfold revokeBootstrapCredentials. case_match; [by apply csafe_true|].
  destruct (newAPIClient _ _ _ _ _) as [c|] eqn:Hc; [|by apply csafe_true].
  assert (trusted c (y_log s)) as Ht by by eapply client_trusted.
  assert (∀ s, trusted c (y_log s) → csafe i (revokeOwnToken c cluster) (λ _ _, True) s) as Hown.
  { intros s1 H1. unfold revokeOwnToken. case_match; [by apply csafe_true|].
    apply (safe_pve i c _ _ (λ _, True)); [done..|]. intros. by apply csafe_true. }
  apply (csafe_step i _ _ (λ _ _, True) (trusted c)); [apply grows_trusted|done| |].
  { unfold accountHasOtherDependents. destruct shared; [by apply csafe_true|].
    apply (safe_pve i c _ _ (λ _, True)); [done..|]. intros. by apply csafe_true. }
  intros [] s1 _ H1; [by apply Hown|]. destruct (cl_BootstrapCreatedUser cluster).
  { apply (safe_pve i c _ _ (λ _, True)); [done..|]. intros. by apply csafe_true. }
  apply (csafe_step i _ _ (λ _ _, True) (trusted c)); [apply grows_trusted|done| |by intros _ s2 _ H2; apply Hown].
  destruct (cl_BootstrapCreatedAcl cluster); [|by apply csafe_true].
  apply (safe_pve i c _ _ (λ _, True)); [done..|]. intros. by apply csafe_true.
Qed.

Lemma safe_revocation i cluster s :
  known CacheKindPVE (cl_ApiUrl cluster) (cl_TokenSecretEncrypted cluster) (y_log s) →
  csafe i (revocationOutcome cluster) (λ _ _, True) s.
Proof.
  intros [_ Hk]. unfold revocationOutcome. destruct (Decrypt _) as [secret|]; [|by apply csafe_true].
  apply (csafe_free i _ _ (saved CacheKindPVE (cl_ApiUrl cluster) (cl_TokenSecretEncrypted cluster) secret));
    [apply grows_saved|by apply Hk|go_free|]. intros shared s1 H1. by apply cred_safe_revoke.
Qed.

Lemma safe_Delete i p id revoke confirm s : csafe i (Delete p id revoke confirm) (λ _ _, True) s.
Proof.
  unfold Delete. apply (csafe_step i _ _ (read_cluster i id) (λ _, True)); [done..|apply safe_GetCluster|].
  intros [r|[]] s1 Hr _; [|by apply csafe_true..]. destruct (Hr r eq_refl) as (_ & Hk & _). clear Hr.
  set (K := known CacheKindPVE (cl_ApiUrl r) (cl_TokenSecretEncrypted r)) in *.
  assert (grows K) as HK by apply grows_known.
  apply (csafe_free i _ _ K); [done|done|go_free|]. intros [[]|] s2 H2; [by apply csafe_true| |by apply csafe_true].
  apply (csafe_refuse i _ _ K); [done|done|go_free|]. intros s3 H3. case_match; [by apply csafe_true|].
  apply (csafe_free i _ _ K); [done|done|go_free|]. intros _ s4 H4.
  apply (csafe_free i _ _ K); [done|done|go_free|]. intros [users|e] s5 H5; [|apply csafe_true; go_free].
  apply (csafe_free i _ _ K); [done|done|go_free|]. intros _ s6 H6.
  apply (csafe_step i _ _ (λ _ _, True) (λ _, True)); [done..| |intros _ s7 _ _; apply csafe_true; go_free].
  destruct (wantsCredentialRevocation revoke); [by apply safe_revocation|by apply csafe_true].
Qed.

(** *** Updating *)

(** A call that owes nothing, and that it was made. *)
Lemma safe_hear i {X} (e : COp X) s :
  (∀ l, owes i e l) → csafe i (cask e) (λ x s, heard i (λ ev, ev = Ev e x) (y_log s)) s.
Proof.
  intros Ho. apply (csafe_ask i e (λ _, True) (λ x, heard i (λ ev, ev = Ev e x))); [done..| |done|].
  - intros x. apply grows_heard.
  - intros s1 x now d m _ _ _ _. by apply heard_now.
Qed.

(** A hearing with facts carried past it. *)
Lemma csafe_hear i {X C} (e : COp X) (f : X → cprog C) (P : list centry → Prop) Q s :
  grows P → P (y_log s) → (∀ l, owes i e l) →
  (∀ x s', P (y_log s') → heard i (λ ev, ev = Ev e x) (y_log s') → csafe i (f x) Q s') → csafe i (bind (cask e) f) Q s.
Proof.
  intros HP Hs Ho Hf. apply (csafe_step i _ _ (λ x, heard i (λ ev, ev = Ev e x)) P); [done|done|by apply safe_hear|].
  intros x s' Hh Hp. by apply Hf.
Qed.

Definition ssh_gone (i : nat) (id : uuid) (l : list centry) : Prop :=
  heard i (λ ev, ev = Ev (GetClusterSSHCredentials id) (Err true) ∨ ev = Ev (DeleteClusterSSHCredentials id) None) l ∧
  heard i (λ ev, ev = Ev (ListSSHKnownHosts id) (Ok []) ∨ ev = Ev (DeleteSSHKnownHostsForCluster id) None) l.

Lemma grows_ssh_gone i id : grows (ssh_gone i id).
Proof. apply grows_and; apply grows_heard. Qed.

Definition if_none (P : list centry → Prop) (x : option reply) (l : list centry) : Prop := x = None → P l.

Lemma grows_if_none P x : grows P → grows (if_none P x).
Proof. apply grows_impl. Qed.

Lemma if_none_Some i P r s : grows P → csafe i (Ret (Some r)) (λ x s, if_none P x (y_log s)) s.
Proof. intros HP. apply (csafe_ret i _ (if_none P)); [by apply grows_if_none|done]. Qed.

Lemma if_none_None i (P : list centry → Prop) s : grows P → P (y_log s) → csafe i (Ret None) (λ x s, if_none P x (y_log s)) s.
Proof. intros HP Hs. apply (csafe_ret i None (if_none P)); [by apply grows_if_none|by intros _]. Qed.

Lemma safe_clear_ssh i id hadCreds pins s :
  (hadCreds = false → heard i (λ ev, ev = Ev (GetClusterSSHCredentials id) (Err true)) (y_log s)) →
  (pins = [] → heard i (λ ev, ev = Ev (ListSSHKnownHosts id) (Ok [])) (y_log s)) →
  csafe i (clear_ssh id hadCreds pins) (λ x s, if_none (ssh_gone i id) x (y_log s)) s.
Proof.
  intros Hcreds Hpins. unfold clear_ssh.
  set (C := heard i (λ ev, ev = Ev (GetClusterSSHCredentials id) (Err true) ∨ ev = Ev (DeleteClusterSSHCredentials id) None)).
  set (L := λ l : list centry, pins = [] → heard i (λ ev, ev = Ev (ListSSHKnownHosts id) (Ok [])) l).
  assert (grows C) as HC by apply grows_heard. assert (grows L) as HL by apply grows_impl, grows_heard.
  apply (csafe_step i _ _ (if_none C) L); [done|done| |].
  - destruct hadCreds.
    + apply (csafe_hear i _ _ (λ _, True)); [done..|]. intros [err|] s1 _ Hh; [by apply if_none_Some|].
      apply if_none_None; [done|]. eapply heard_impl; [|exact Hh]. by right.
    + apply if_none_None; [done|]. eapply heard_impl; [|by apply Hcreds]. by left.
  - intros [r|] s1 H1 HL1; [by apply if_none_Some, grows_ssh_gone|]. specialize (H1 eq_refl).
    case_bool_decide as Hp.
    + apply if_none_None; [apply grows_ssh_gone|]. split; [done|]. eapply heard_impl; [|by apply HL1]. by left.
    + apply (csafe_hear i _ _ C); [done..|]. intros [err|] s2 H2 Hh; [by apply if_none_Some, grows_ssh_gone|].
      apply if_none_None; [apply grows_ssh_gone|]. split; [done|]. eapply heard_impl; [|exact Hh]. by right.
Qed.

Lemma safe_reset i id s : csafe i (resetClusterSSHTrust id) (λ x s, if_none (ssh_gone i id) x (y_log s)) s.
Proof.
  unfold resetClusterSSHTrust. pose proof (grows_ssh_gone i id) as HG.
  apply (csafe_hear i _ _ (λ _, True)); [done..|]. intros creds s1 _ Hcreds.
  set (K := λ l : list centry, is_ok creds = false → heard i (λ ev, ev = Ev (GetClusterSSHCredentials id) (Err true)) l).
  assert (grows K) as HK by apply grows_impl, grows_heard.
  assert (creds = Err false ∨ K (y_log s1)) as [->|HK1].
  { destruct creds as [c|[]]; [right|right|by left]; [done|]. by intros _. }
  { by apply if_none_Some. }
  destruct creds as [c|[]]; [| |by apply if_none_Some].
  all: apply (csafe_hear i _ _ K); [done..|]; intros [pins|e] s2 H2 Hpins; [|by apply if_none_Some].
  all: cbn [is_ok negb andb]; try case_bool_decide as Hp.
  2: { apply if_none_None; [done|]. subst pins. split.
       - eapply heard_impl; [|by apply H2]. by left.
       - eapply heard_impl; [|exact Hpins]. by left. }
  all: apply (csafe_step i _ _ (if_none (ssh_gone i id)) (λ _, True)); [done..| |].
  all: try (intros failure s3 Hf _; apply (csafe_free i _ _ (if_none (ssh_gone i id) failure)); [by apply grows_if_none|done|go_free|];
            intros _ s4 H4; by apply (csafe_ret i _ (if_none (ssh_gone i id))); [apply grows_if_none|]).
  all: apply safe_clear_ssh; [done||by intros _; apply H2|by intros ->].
Qed.

Lemma safe_rehome i id ack s : csafe i (rehome id ack) (λ x s, if_none (move_cleared i id) x (y_log s)) s.
Proof.
  unfold rehome.
  assert (grows (move_cleared i id)) as HM by (repeat apply grows_and; apply grows_heard).
  apply (csafe_hear i _ _ (λ _, True)); [done..|]. intros [[]|e] s1 _ Hbusy; [by apply if_none_Some| |by apply if_none_Some].
  set (B := heard i (λ ev, ev = Ev (HasRunningJobForCluster id) (Ok false))) in *. assert (grows B) as HB by apply grows_heard.
  apply (csafe_hear i _ _ B); [done..|]. intros [[|j jobs]|e] s2 H2 Hpend; [|by apply if_none_Some..].
  set (C := heard i (λ ev, ev = Ev (ListCleanupPendingJobsForCluster id) (Ok []))) in *. assert (grows C) as HC by apply grows_heard.
  apply (csafe_free i _ _ (λ l, B l ∧ C l)); [by apply grows_and|done|unfold requireSSHTrustResetAck; go_free|].
  intros [r|] s3 [HB3 HC3]; [by apply if_none_Some|].
  eapply safe_mono; [|apply (safe_frame step pre CInv i _ (λ x s, if_none (ssh_gone i id) x (y_log s)) (λ s, B (y_log s) ∧ C (y_log s)));
    [|done|apply safe_reset]].
  - intros x s4 [Hx [? ?]] Hn. destruct (Hx Hn). by split_and!.
  - intros j X e s4 x s5 _ _ Hst [? ?]. rewrite (creds_log _ _ _ _ _ _ Hst). split; [by apply HB|by apply HC].
Qed.

(** What may be tested with: a secret that was saved for the address. *)
Definition testable (url secret : string) (l : list centry) : Prop := secret ≠ "" → ∃ c, saved CacheKindPVE url c secret l.

Lemma grows_testable url secret : grows (testable url secret).
Proof. apply grows_impl, grows_exists. intros. apply grows_saved. Qed.

(** The secret that an update leaves, for the address it leaves. *)
Definition kept_or_new (i : nat) (req : updateClusterRequest) (existing : Cluster) (url c : string) (l : list centry) : Prop :=
  match ur_TokenSecret req with
  | Some secret => encrypted_by i secret c l
  | None => c = cl_TokenSecretEncrypted existing ∧ url = cl_ApiUrl existing ∧
            known CacheKindPVE (cl_ApiUrl existing) (cl_TokenSecretEncrypted existing) l
  end.

Lemma grows_kept i req existing url c : grows (kept_or_new i req existing url c).
Proof. unfold kept_or_new. destruct (ur_TokenSecret req); auto with nexara. Qed.

Lemma kept_may_store i req existing url c l : kept_or_new i req existing url c l → may_store i CacheKindPVE url c l.
Proof.
  unfold kept_or_new. destruct (ur_TokenSecret req) as [secret|].
  - intros. right. by exists secret.
  - intros (-> & -> & [[? _] _]). by left.
Qed.

Lemma safe_write i p id req existing params s :
  kept_or_new i req existing (uc_ApiUrl params) (uc_TokenSecretEncrypted params) (y_log s) →
  may_move i id (uc_ApiUrl params) (y_log s) →
  csafe i (write_cluster p id req existing params) (λ _ _, True) s.
Proof.
  intros Hk Hm. unfold write_cluster.
  set (secret := match ur_TokenSecret req with Some secret => secret | None => default "" (Decrypt (cl_TokenSecretEncrypted existing)) end).
  set (K := kept_or_new i req existing (uc_ApiUrl params) (uc_TokenSecretEncrypted params)) in *.
  set (T := testable (uc_ApiUrl params) secret). assert (grows T) as HT by apply grows_testable.
  apply (csafe_step i _ _ (λ _, T) (λ _, True)); [done..| |].
  { apply (csafe_ask i (UpdateCluster id params) (λ l, K l ∧ may_move i id (uc_ApiUrl params) l) (λ _, T)); [|done|done| |].
    - apply grows_and; [apply grows_kept|apply grows_may_move].
    - intros l [Hl ?]. split; [by eapply kept_may_store|done].
    - intros s1 x now d m _ [Hl _] _ _ Hne. unfold K, kept_or_new in Hl. unfold secret in *.
      destruct (ur_TokenSecret req) as [sec|].
      + exists (uc_TokenSecretEncrypted params). by apply (saved_now i now (UpdateCluster id params)).
      + destruct Hl as (Hc & Hu & [_ Hdec]). exists (cl_TokenSecretEncrypted existing). rewrite Hu. apply grows_saved, Hdec.
        destruct (Decrypt _); [done|]. by destruct Hne. }
  intros [cluster|e] s1 HT1 _; [|by apply csafe_true].
  apply (csafe_refuse i _ _ T); [done|done|go_free|]. intros s2 HT2.
  apply (csafe_free i _ _ T); [done|done|go_free|]. intros _ s3 HT3.
  apply (csafe_free i _ _ T); [done|done|go_free|]. intros _ s4 HT4.
  apply (csafe_step i _ _ (λ _ _, True) (λ _, True)); [done..|by apply (safe_test i _ _ _ _ (λ _, True))|].
  intros. by apply csafe_true.
Qed.

(** A secret that is stored anew or kept, by what the request supplied. *)
Lemma safe_supplied i (supplied : option string) (stored : string) (P : list centry → Prop) s :
  grows P → P (y_log s) →
  csafe i (match supplied with Some secret => cask (EncryptSecret secret) | None => Ret (Ok stored) end)
    (λ x s, (∀ c, x = Ok c → match supplied with Some secret => encrypted_by i secret c (y_log s) | None => c = stored end)) s.
Proof.
  intros HP Hs. destruct supplied as [secret|].
  - eapply safe_mono; [|apply safe_Encrypt]. done.
  - apply (csafe_ret i (Ok stored : result string string) (λ x _, ∀ c, x = Ok c → c = stored)); [by intros ? ?|].
    by intros ? [= <-].
Qed.

Lemma not_redirected url existing stored supplied :
  credentialRedirected url existing stored supplied = false → supplied = "" → stored ≠ "" → url = existing.
Proof. unfold credentialRedirected. intros H -> Hs. repeat case_bool_decide; done. Qed.

Lemma cred_safe_Update i p id req s : csafe i (Update p id req) (λ _ _, True) s.
Proof.
  unfold Update. case_bool_decide as Hempty; [by apply csafe_true|].
  apply (csafe_step i _ _ (read_cluster i id) (λ _, True)); [done..|apply safe_GetCluster|].
  intros [r|[]] s1 Hr _; [|by apply csafe_true..].
  set (K := λ l, known CacheKindPVE (cl_ApiUrl r) (cl_TokenSecretEncrypted r) l ∧ heard i (λ ev, ev = Ev (GetCluster id) (Ok r)) l).
  assert (grows K) as HK by (apply grows_and; [apply grows_known|apply grows_heard]).
  destruct (Hr r eq_refl) as [_ Hr1]. change (K (y_log s1)) in Hr1.
  apply (csafe_refuse i _ _ K); [done|done|go_free|]. intros s2 H2.
  apply (csafe_step i _ _ (λ x l, ∀ c, x = Ok c → match ur_TokenSecret req with
            Some secret => encrypted_by i secret c l | None => c = cl_TokenSecretEncrypted r end) K);
    [done|done|by apply (safe_supplied i _ _ K)|].
  intros [c|e] s3 Henc H3; [|by apply csafe_true]. specialize (Henc c eq_refl).
  destruct (credentialRedirected _ _ _ _) eqn:Hred; [apply csafe_true; go_free|].
  assert (kept_or_new i req r (uc_ApiUrl (merged req r c)) c (y_log s3)) as Hkept.
  { unfold kept_or_new. destruct (ur_TokenSecret req) as [secret|]; [done|]. split_and!; [done| |apply H3].
    eapply not_redirected; [exact Hred|done|]. by destruct H3 as [[[_ ?] _] _]. }
  set (P := λ l, kept_or_new i req r (uc_ApiUrl (merged req r c)) c l ∧ K l).
  assert (grows P) as HP by (by apply grows_and; [apply grows_kept|]).
  apply (csafe_step i _ _ (if_none (may_move i id (uc_ApiUrl (merged req r c)))) P); [done|by split| |].
  - case_bool_decide as Hu.
    + apply if_none_None; [apply grows_may_move|]. exists r. split; [apply H3|by left].
    + eapply safe_mono; [|apply (safe_frame step pre CInv i _ (λ x s, if_none (move_cleared i id) x (y_log s)) (λ s, K (y_log s)));
        [|done|apply safe_rehome]].
      * intros x s4 [Hx [_ Hh]] Hn. exists r. split; [done|right]. by apply Hx.
      * intros j X e s4 x s5 _ _ Hst ?. rewrite (creds_log _ _ _ _ _ _ Hst). by apply HK.
  - intros [rf|] s4 Hm [Hk4 _]; simpl; [by apply csafe_true|]. apply safe_write; [done|by apply Hm].
Qed.

(** *** Verifying a certificate *)

Lemma certificate_same pinned observed :
  pinned ≠ "" → observed ≠ "" → EndpointCertificateChanged pinned observed = false →
  NormalizeFingerprint pinned = NormalizeFingerprint observed.
Proof. unfold EndpointCertificateChanged. intros. repeat case_bool_decide; done. Qed.

Lemma attested_in_spec url endpoints :
  attested_in url endpoints ≠ "" →
  ∃ node, node ∈ endpoints ∧ ep_SSLFingerprint node = attested_in url endpoints ∧
    EqualFold (ep_Address node) (APIURLHost url) = true.
Proof.
  unfold attested_in. destruct (List.find _ endpoints) as [e|] eqn:Hf; [|done]. intros _.
  apply find_some in Hf as [Hin [Heq _]%andb_true_iff]. exists e. split_and!; [by apply list_elem_of_In|done|done].
Qed.

(** What an accepted certificate was compared with. *)
Definition attests (i : nat) (cluster : Cluster) (x : result reply string) (l : list centry) : Prop :=
  ∀ fp, x = Ok fp → fp ≠ "" → ∃ endpoints node,
    heard i (λ ev, ev = Ev (ListNodeEndpoints (cl_ID cluster)) (Ok endpoints)) l ∧ node ∈ endpoints ∧
    APIURLIsDirectToPVEProxy (cl_ApiUrl cluster) = true ∧ EqualFold (ep_Address node) (APIURLHost (cl_ApiUrl cluster)) = true ∧
    ep_SSLFingerprint node = fp.

Lemma grows_attests i cluster x : grows (attests i cluster x).
Proof.
  apply grows_forall. intros fp. apply grows_impl, grows_impl, grows_exists. intros eps. apply grows_exists. intros node.
  apply grows_and; [apply grows_heard|apply grows_const].
Qed.

Lemma safe_attested i cluster s : csafe i (attestedFingerprint cluster) (λ x s, attests i cluster x (y_log s)) s.
Proof.
  unfold attestedFingerprint. apply (csafe_hear i _ _ (λ _, True)); [done..|]. intros [eps|e] s1 _ Hh.
  - destruct (APIURLIsDirectToPVEProxy (cl_ApiUrl cluster)) eqn:Hd; simpl;
      apply (csafe_ret i _ (attests i cluster)); try apply grows_attests.
    + intros fp [= <-] Hne. destruct (attested_in_spec _ _ Hne) as (node & Hin & Hfp & Heq). exists eps, node. by split_and!.
    + by intros fp [= <-].
  - by apply (csafe_ret i _ (attests i cluster)); [apply grows_attests|].
Qed.

Lemma safe_Verify i p id s : csafe i (VerifyCertificate p id) (λ _ _, True) s.
Proof.
  unfold VerifyCertificate. apply (csafe_step i _ _ (read_cluster i id) (λ _, True)); [done..|apply safe_GetCluster|].
  intros [r|[]] s1 Hr _; [|by apply csafe_true..]. destruct (Hr r eq_refl) as (Hid & _ & _). clear Hr.
  apply (csafe_refuse i _ _ (λ _, True)); [done..|go_free|]. intros s2 _.
  apply (csafe_hear i _ _ (λ _, True)); [done..|]. intros [live|rf] s3 _ Hlive; [|by apply csafe_true].
  apply (csafe_step i _ _ (attests i r) (heard i (λ ev, ev = Ev (DialLeaf (cl_ApiUrl r)) (Ok live))));
    [apply grows_heard|done|apply safe_attested|].
  intros [fp|rf] s4 Hat Hl4; [|by apply csafe_true]. unfold decideCertificateVerify.
  case_bool_decide as Hfp; simpl; [by apply csafe_true|]. case_bool_decide as Hlv; simpl; [by apply csafe_true|].
  destruct (EndpointCertificateChanged fp live) eqn:Hch; [by apply csafe_true|].
  destruct (negb (bool_decide (cl_TlsFingerprint r = "")) && _); [by apply csafe_true|]. unfold repin.
  apply (csafe_pay i _ _ (attested_by i id live (cl_ApiUrl r))).
  - apply grows_and; [apply grows_heard|]. apply grows_exists. intros eps. apply grows_exists. intros node.
    apply grows_and; [apply grows_heard|apply grows_const].
  - destruct (Hat fp eq_refl Hfp) as (eps & node & Hh & Hin & Hd & Heq & <-). rewrite Hid in Hh. split; [done|].
    exists eps, node. split_and!; [done..|]. by apply certificate_same.
  - done.
  - intros x s5 _. apply csafe_true. go_free.
Qed.

(** *** PBS servers *)

Lemma safe_CreatePBS i req s : csafe i (CreatePBS req) (λ _ _, True) s.
Proof.
  unfold CreatePBS, require_pbs. apply (csafe_refuse i _ _ (λ _, True)); [done..|go_free|]. intros s1 _.
  apply (csafe_refuse i _ _ (λ _, True)); [done..|go_free|]. intros s2 _.
  apply (csafe_step i _ _ (encrypts i (default "" (pr_TokenSecret req))) (λ _, True)); [done..|apply safe_Encrypt|].
  intros [c|e] s3 Henc _; [|by apply csafe_true].
  apply (csafe_pay i _ _ (encrypted_by i (default "" (pr_TokenSecret req)) c)); [apply grows_encrypted_by|by apply Henc| |].
  - intros l Hl. right. eauto.
  - intros x s4 _. apply csafe_true. go_free.
Qed.

Lemma safe_UpdatePBS i p id req s : csafe i (UpdatePBS p id req) (λ _ _, True) s.
Proof.
  unfold UpdatePBS, require_pbs. case_bool_decide as Hempty; [by apply csafe_true|].
  apply (csafe_step i _ _ (read_pbs i id) (λ _, True)); [done..|apply safe_GetPBSServer|].
  intros [r|[]] s1 Hr0 _; [|by apply csafe_true..]. destruct (Hr0 r eq_refl) as [Hr _].
  set (K := known CacheKindPBS (pb_ApiUrl r) (pb_TokenSecretEncrypted r)) in *. assert (grows K) as HK by apply grows_known.
  apply (csafe_refuse i _ _ K); [done|done|go_free|]. intros s2 H2.
  apply (csafe_refuse i _ _ K); [done|done|go_free|]. intros s3 H3.
  apply (csafe_refuse i _ _ K); [done|done|go_free|]. intros s4 H4.
  apply (csafe_step i _ _ (λ x l, ∀ c, x = Ok c → match pr_TokenSecret req with
            Some secret => encrypted_by i secret c l | None => c = pb_TokenSecretEncrypted r end) K);
    [done|done|by apply (safe_supplied i _ _ K)|].
  intros [c|e] s5 Henc H5; [|by apply csafe_true]. specialize (Henc c eq_refl).
  destruct (credentialRedirected _ _ _ _) eqn:Hred; [apply csafe_true; go_free|].
  apply (csafe_pay i _ _ (may_store i CacheKindPBS (pp_ApiUrl (merged_pbs req r c)) c)).
  - intros e l [?|[secret ?]]; [left; by apply grows_row_saved|right; exists secret; by apply grows_encrypted_by].
  - destruct (pr_TokenSecret req) as [secret|] eqn:Hsec; [right; eauto|]. subst c. left.
    destruct H5 as [[Hrow Hne] _]. by rewrite (not_redirected _ _ _ _ Hred eq_refl Hne).
  - done.
  - intros x s6 _. apply csafe_true. go_free.
Qed.

Lemma free_DeletePBS p id : cfree (DeletePBS p id).
Proof. unfold DeletePBS, require_pbs, unless_refused. go_free. Qed.

Lemma free_UpsertSSH id username port authType password privateKey :
  cfree (UpsertSSHCredentials id username port authType password privateKey).
Proof. unfold UpsertSSHCredentials. go_free. Qed.

Lemma free_DeleteSSH id : cfree (DeleteSSHCredentials id).
Proof. unfold DeleteSSHCredentials. go_free. Qed.

(** ** Histories *)

(** What runs: the routes that store credentials, whatever talks to Proxmox with them (routes, engines, consoles and
    migrations, the collector, rolling updates), and the subscribers of the caches. *)
Inductive credential_work : cprog unit → Prop :=
| work_create req : credential_work (serve (Create req))
| work_update p id req : credential_work (serve (Update p id req))
| work_delete p id revoke confirm : credential_work (serve (Delete p id revoke confirm))
| work_verify p id : credential_work (serve (VerifyCertificate p id))
| work_create_pbs req : credential_work (serve (CreatePBS req))
| work_update_pbs p id req : credential_work (serve (UpdatePBS p id req))
| work_delete_pbs p id : credential_work (serve (DeletePBS p id))
| work_upsert_ssh id username port authType password privateKey :
    credential_work (serve (UpsertSSHCredentials id username port authType password privateKey))
| work_delete_ssh id : credential_work (serve (DeleteSSHCredentials id))
| work_route p id : credential_work (use_client CacheKindPVE id (CreateProxmoxClient p id))
| work_pbs_route p id : credential_work (use_client CacheKindPBS id (createPBSClient p id))
| work_engine p id : credential_work (use_client CacheKindPVE id (createClient p id))
| work_console p id : credential_work (use_client CacheKindPVE id (clientForCluster p id))
| work_collect p n : credential_work (SyncAll p n)
| work_collect_pbs p : credential_work (SyncAllPBS p)
| work_rolling p id : credential_work (rolling_request p id)
| work_subscriber n p : credential_work (runSubscriber n p).

Lemma cred_safe_serve i (route : cprog reply) s : csafe i route (λ _ _, True) s → csafe i (serve route) (λ _ _, True) s.
Proof. intros Hr. apply (csafe_step i _ _ (λ _ _, True) (λ _, True)); [done..|]. intros r s' _ _. by apply csafe_true, free_call. Qed.

Lemma cred_safe_entry i p s : credential_work p → csafe i p (λ _ _, True) s.
Proof.
  intros [req|q id req|q id revoke confirm|q id|req|q id req|q id|id u po a pw k|id|q id|q id|q id|q id|q n|q|q id|n q].
  - apply cred_safe_serve, cred_safe_Create.
  - apply cred_safe_serve, cred_safe_Update.
  - apply cred_safe_serve, safe_Delete.
  - apply cred_safe_serve, safe_Verify.
  - apply cred_safe_serve, safe_CreatePBS.
  - apply cred_safe_serve, safe_UpdatePBS.
  - apply cred_safe_serve, csafe_true, free_DeletePBS.
  - apply cred_safe_serve, csafe_true, free_UpsertSSH.
  - apply cred_safe_serve, csafe_true, free_DeleteSSH.
  - apply safe_use_client, safe_CreateProxmoxClient.
  - apply safe_use_client, safe_createPBSClient.
  - apply safe_use_client, safe_createClient.
  - apply safe_use_client, safe_clientForCluster.
  - apply safe_SyncAll.
  - apply safe_SyncAllPBS.
  - apply safe_rolling_request.
  - apply csafe_true, free_runSubscriber.
Qed.

(** An installation in which nothing is stored yet. *)
Definition initial (s : CSys) : Prop :=
  y_log s = [] ∧ d_clusters (y_db s) = ∅ ∧ d_pbs (y_db s) = ∅ ∧ m_cache (y_mem s) = ∅ ∧ m_air (y_mem s) = ∅ ∧
  m_joined (y_mem s) = ∅.

(** A thread has a number of its own. *)
Definition unheard (i : nat) (s : CSys) : Prop := Forall (λ e, cn_thread e ≠ i) (y_log s).

Abbreviation histories := (rtc (threads step unheard credential_work)).

Lemma initial_CInv s : initial s → CInv s.
Proof.
  intros (Hl & Hc & Hp & Hm & Ha & Hf). split; rewrite ?Hl, ?Hc, ?Hp, ?Hm, ?Ha; try done; intros *; try by rewrite lookup_empty.
  - intros k n. by rewrite Hf, lookup_empty.
  - intros He. by apply not_elem_of_nil in He.
Qed.

Lemma history_CInv s ts s' : initial s → histories ([], s) (ts, s') → CInv s'.
Proof.
  intros Hi Hr. assert (all_safe step pre CInv (ts, s')) as [HI _]; [|done].
  eapply (threads_safe step pre CInv unheard credential_work); [apply CInv_step| |exact Hr|].
  - intros i p s1 Hp _ _. by apply cred_safe_entry.
  - split_and!; [by apply initial_CInv|constructor|constructor].
Qed.

Lemma history_paid s ts s' later e earlier :
  initial s → histories ([], s) (ts, s') → y_log s' = later ++ e :: earlier → paid e earlier.
Proof. intros Hi Hr Hl. pose proof (ci_paid _ (history_CInv s ts s' Hi Hr)) as Hp. rewrite Hl in Hp. by apply ForallTail_at in Hp. Qed.

Lemma sent_trusted i {X} (op : COp X) x c l : sent_of (Ev op x) = Some c → owes i op l → trusted c l.
Proof.
  destruct op as []; try done. intros [= <-]. match goal with r : crequest _ |- _ => destruct r end; [done..|]. by intros [? _].
Qed.

Lemma used_current i {X} (op : COp X) x kind id c l :
  used_of (Ev op x) = Some (kind, id, c) → owes i op l → current i kind id c l.
Proof.
  destruct op as []; try done. simpl. match goal with r : crequest _ |- _ => destruct r end; try done. intros [= <- <- <-].
  by intros [_ ?].
Qed.

Lemma put_made i {X} (op : COp X) x p kind id en l :
  put_of (Ev op x) = Some (p, kind, id, en) → owes i op l → made_by i kind id (en_client en) (Some (en_builtAt en)) l.
Proof. destruct op; try done. intros [= <- <- <- <-]. by intros [_ ?]. Qed.

(** C10: whatever runs at the same time, the stored secret of a cluster or PBS server is the credential only of requests
    to the address it was saved for: some request supplied that secret and stored it together with that address. The one
    other place is, for a cluster, a member that was listed, with a certificate on record on which the client insists, for
    the very cluster of which a row with that address, that token and that secret was read. *)
Theorem secret_stays_home s ts s' :
  initial s → histories ([], s) (ts, s') →
  ForallTail (λ e earlier, ∀ c, sent_of (cn_event e) = Some c → trusted c earlier) (y_log s').
Proof.
  intros Hi Hr. apply ForallTail_intro. intros later e earlier Hl c Hc.
  pose proof (history_paid s ts s' later e earlier Hi Hr Hl) as Hp. unfold paid in Hp.
  destruct (cn_event e) as [X op x]. by apply (sent_trusted (cn_thread e) op x).
Qed.

(** C13: whatever runs at the same time, a certificate is re-pinned without the operator naming it only where the request
    had seen the address serve it and a node of the cluster, at that address and on the port of the Proxmox API, had the
    same certificate on record. *)
Theorem pin_attested s ts s' later e earlier id fp url x :
  initial s → histories ([], s) (ts, s') → y_log s' = later ++ e :: earlier →
  cn_event e = Ev (UpdateClusterTLSFingerprint id fp url) x → attested_by (cn_thread e) id fp url earlier.
Proof.
  intros Hi Hr Hl He. pose proof (history_paid s ts s' later e earlier Hi Hr Hl) as Hp. unfold paid in Hp. by rewrite He in Hp.
Qed.

(** C12: whatever runs at the same time, an update of a cluster stores an address other than the one it read only after it
    was told that no rolling update is running or has anything left to clean up, and after it found or made sure that
    neither an SSH credential nor a pinned host key of the cluster is left. *)
Theorem move_clears_trust s ts s' later e earlier id params x :
  initial s → histories ([], s) (ts, s') → y_log s' = later ++ e :: earlier →
  cn_event e = Ev (UpdateCluster id params) x → may_move (cn_thread e) id (uc_ApiUrl params) earlier.
Proof.
  intros Hi Hr Hl He. pose proof (history_paid s ts s' later e earlier Hi Hr Hl) as Hp. unfold paid in Hp.
  rewrite He in Hp. apply Hp.
Qed.

End safety.
