(* ===== verification/CredsExample.v ===== *)
(** * Histories of stored credentials, played

    The witnesses of [CredsSafety], and three histories that the code allows:

    - [stale_fill]: a build that had read a row before it was changed stores its client
      after the invalidation, and the cache serves it until it is ten minutes old.
    - [lost_move]: an update that had read the row before the address was moved moves it
      back, and the SSH credential stored for the new address stays.
    - [unannounced_change]: an update whose last statement fails leaves the row changed
      and the cache as it was. *)

From S2P Require Import Prelude GoStrings ProxmoxApi Effects Logs RbacDb RbacEngine NetGuard CredsOps ClientCache.
From S2P Require Import CredsRoutes CredsHistory CredsSafety.

Local Open Scope Z_scope.

Module CredsCase.

(** ** An outside *)

(** Encryption that hides nothing, with the nonce in front. *)
#[local] Instance plain : Aead := {|
  key_valid := true; b64_encode := λ s, s; b64_decode := Some; gcm_Seal := λ _ s, s; gcm_Open := λ _ s, Some s |}.
#[local] Instance plain_laws : AeadLaws.
Proof. by split. Qed.

#[local] Instance urls : UrlParser := λ s,
  if bool_decide (s = "https://pve1:8006") then Some {| u_Scheme := "https"; u_Hostname := "pve1"; u_Port := "8006" |}
  else if bool_decide (s = "https://pve2:8006") then Some {| u_Scheme := "https"; u_Hostname := "pve2"; u_Port := "8006" |}
  else None.
#[local] Instance details : UrlDetails := {| url_Host := λ s, s; url_HasUser := λ _, false |}.
#[local] Instance names : NetText := {| SplitHostPort := λ _, None; ParseIP := λ _, None; IP_String := λ _, "" |}.
#[local] Instance ids : UuidText := {| uuid_String := Itoa; uuid_Parse := λ s, List.find (λ u, bool_decide (Itoa u = s)) [1002] |}.
#[local] Instance wired : CacheConfig := {| CacheWired := true; RedisUp := true |}.

(** The time, whether the provenance of a credential cannot be cleared, and whether the first node is down. *)
Record outside := { o_now : Z; o_fails : bool; o_down : bool }.

Definition at_time (now : Z) : outside := {| o_now := now; o_fails := false; o_down := false |}.
Definition down_at (now : Z) : outside := {| o_now := now; o_fails := false; o_down := true |}.

Definition leaf : string := "AA:BB".

Definition members : list NodeEndpoint := [
  {| ep_Name := "pve1"; ep_Address := "pve1"; ep_SSLFingerprint := "aabb"; ep_Status := "online" |};
  {| ep_Name := "pve2"; ep_Address := "pve2"; ep_SSLFingerprint := "aabb"; ep_Status := "online" |}].

Definition minted : clusterCredential := {|
  cc_TokenID := "nexara@pve!nexara"; cc_Secret := "s0"; cc_Source := "bootstrap"; cc_UserID := "nexara@pve"; cc_TokenName := "nexara";
  cc_CreatedUser := true; cc_CreatedACL := true |}.

Definition pve_answer {A} (r : crequest A) : result pve_error A :=
  match r with
  | GetClusterStatus => Ok [{| se_Type := "node"; se_Name := "pve1"; se_IP := "192.0.2.1" |}]
  | GetAccessUserTokens _ => Ok ["nexara"]
  | DeleteAccessUser _ => Ok tt
  | DeleteAdministratorACL _ => Ok tt
  | DeleteAccessUserToken _ _ => Ok tt
  | GetNodes => Ok ["pve1"; "pve2"]
  | FirstRequest _ _ => Ok tt
  end.

(** The statements, the [n]th call giving a new row its id. *)
Definition answer_db {X} (o : outside) (n : nat) (e : COp X) (d : CDb) : option (X * CDb) :=
  let id := 1000 + Z.of_nat n in
  match e in COp X return option (X * CDb) with
  | GetCluster id => Some (match d_clusters d !! id with Some r => Ok r | None => Err true end, d)
  | CreateCluster p source userID tokenName createdUser createdAcl =>
      let r := createCluster id p source userID tokenName createdUser createdAcl in
      if decide (id ∈ d_used d) then None else Some (Ok r, add_cluster r d)
  | UpdateCluster id p =>
      match d_clusters d !! id with
      | None => Some (Err "no rows", d)
      | Some r => Some (Ok (updated p r), set_clusters <[id := updated p r]> d)
      end
  | UpdateClusterTLSFingerprint id fp url => Some (Ok (repinned_rows id url d), set_clusters (alter (repinned fp url) id) d)
  | ClearClusterCredentialProvenance id =>
      if o_fails o then Some (Some "connection lost", d) else Some (None, set_clusters (alter unprovenanced id) d)
  | DeleteCluster id => Some (Ok [], deleteCluster id d)
  | CountClustersSharingBootstrapUser _ _ => Some (Ok 0, d)
  | ListActiveClusters =>
      Some (Ok (filter (λ r, d_clusters d !! cl_ID r = Some r ∧ cl_IsActive r = true) (map_to_list (d_clusters d)).*2), d)
  | ListNodeEndpoints _ => Some (Ok members, d)
  | ListNodesByCluster _ => Some (Ok members, d)
  | UpsertNode _ _ => Some (None, d)
  | UpdateNodeAddress _ _ _ => Some (None, d)
  | HasRunningJobForCluster _ => Some (Ok false, d)
  | ListCleanupPendingJobsForCluster _ => Some (Ok [], d)
  | HasClusterSSHCredentials id => Some (Ok (bool_decide (is_Some (d_ssh d !! id))), d)
  | GetClusterSSHCredentials id => Some (match d_ssh d !! id with Some c => Ok c | None => Err true end, d)
  | UpsertClusterSSHCredentials id c =>
      if bool_decide (is_Some (d_clusters d !! id)) then Some (None, set_ssh <[id := c]> d) else Some (Some "no such cluster", d)
  | DeleteClusterSSHCredentials id => Some (None, set_ssh (delete id) d)
  | ListSSHKnownHosts _ => Some (Ok [], d)
  | DeleteSSHKnownHostsForCluster _ => Some (None, d)
  | GetPBSServer id => Some (match d_pbs d !! id with Some r => Ok r | None => Err true end, d)
  | CreatePBSServer p => if decide (id ∈ d_used d) then None else Some (Ok (pbs_row id p), add_pbs (pbs_row id p) d)
  | UpdatePBSServer id p =>
      match d_pbs d !! id with
      | None => Some (Err "no rows", d)
      | Some _ => Some (Ok (pbs_row id p), set_pbs <[id := pbs_row id p]> d)
      end
  | DeletePBSServer id => Some (None, set_pbs (delete id) d)
  | ListActivePBSServers => Some (Ok (filter (λ r, d_pbs d !! pb_ID r = Some r) (map_to_list (d_pbs d)).*2), d)
  | EncryptSecret s => Some (Ok (Encrypt "000000000000" s), d)
  | LookupIPAddr _ => Some (Ok [[203; 0; 113; 5]], d)
  | DialLeaf _ => Some (Ok leaf, d)
  | Mint _ _ _ => Some (Ok minted, d)
  | RollbackMint _ _ => Some ((false, false), d)
  | CPve c r => Some (if o_down o && bool_decide (c_BaseURL c = "https://pve1:8006") then Err Unreachable else pve_answer r, d)
  | Publish _ => Some (tt, d)
  | Receive _ => Some (None, d)
  | RequirePerm _ _ _ => Some (None, d)
  | InvalidateUser _ => Some (tt, d)
  | Audit _ _ => Some (tt, d)
  | TimeNow => Some (o_now o, d)
  | Respond _ => Some (tt, d)
  | _ => None
  end.

(** The calls to the memory of a process. *)
Definition answer_mem {X} (n i : nat) (e : COp X) (m : CMem) : option (X * CMem) :=
  match e in COp X return option (X * CMem) with
  | CacheRead p kind id => Some (m_cache m !! (p, kind, id), m)
  | CacheWrite p kind id en => Some (tt, set_cache <[(p, kind, id) := en]> m)
  | CacheDrop p kind id => Some (tt, set_cache (dropped p kind id) m)
  | FlightJoin p kind id =>
      match m_air m !! (p, kind, id) with
      | Some f => Some (false, {| m_cache := m_cache m; m_air := m_air m; m_landed := m_landed m; m_joined := <[i := (p, kind, id, f)]> (m_joined m) |})
      | None =>
          if decide (m_landed m !! (p, kind, id, n) = None) then
            Some (true, {| m_cache := m_cache m; m_air := <[(p, kind, id) := n]> (m_air m); m_landed := m_landed m;
                           m_joined := <[i := (p, kind, id, n)]> (m_joined m) |})
          else None
      end
  | FlightLand p kind id r =>
      '(k, f) ← m_joined m !! i;
      if decide (k = (p, kind, id)) then
        Some (tt, {| m_cache := m_cache m; m_air := landed_air (k, f) (m_air m); m_landed := <[(k, f) := r]> (m_landed m);
                     m_joined := m_joined m |})
      else None
  | FlightWait p kind id =>
      '(k, f) ← m_joined m !! i;
      if decide (k = (p, kind, id)) then r ← m_landed m !! (k, f); Some (r, m) else None
  | _ => None
  end.

Lemma answer_db_ok {X} o n i (e : COp X) d x d' m :
  answer_db o n e d = Some (x, d') → db_answer e d x d' ∧ mem_answer i e m x m ∧ time_answer e (o_now o) x.
Proof.
  destruct e; simpl; try done; try (by intros [= <- <-]); try (by intros [= <- <-]; split; [left|]).
  - intros [= <- <-]. split; [|done]. split; [done|]. by destruct (d_clusters d !! id).
  - case_decide; [done|]. intros [= <- <-]. split; [|done]. left. by eexists.
  - destruct (d_clusters d !! id); intros [= <- <-]; split; try done. by left.
  - destruct (o_fails o); intros [= <- <-]; split; try done; [by right|by left].
  - intros [= <- <-]. split; [|done]. split; [done|]. intros rows [= <-]. apply Forall_forall. by intros r [? _]%list_elem_of_filter.
  - intros [= <- <-]. split; [|done]. split; [done|]. by intros b [= <-].
  - intros [= <- <-]. split; [|done]. split; [done|]. by destruct (d_ssh d !! id).
  - case_bool_decide; intros [= <- <-]; split; try done. by left.
  - intros [= <- <-]. split; [|done]. split; [done|]. by destruct (d_pbs d !! id).
  - case_decide; [done|]. intros [= <- <-]. split; [|done]. left. by eexists.
  - destruct (d_pbs d !! id); intros [= <- <-]; split; try done. by left.
  - intros [= <- <-]. split; [|done]. split; [done|]. intros rows [= <-]. apply Forall_forall. by intros r [? _]%list_elem_of_filter.
  - intros [= <- <-]. split; [|done]. split; [done|]. intros c [= <-]. split; [done|]. by exists "000000000000".
Qed.

Lemma answer_mem_ok {X} o n i (e : COp X) d x m m' :
  answer_mem n i e m = Some (x, m') → db_answer e d x d ∧ mem_answer i e m x m' ∧ time_answer e (o_now o) x.
Proof.
  destruct e; simpl; try done; try (by intros [= <- <-]).
  - unfold join. destruct (m_air m !! _) as [f|]; [by intros [= <- <-]|]. case_decide as Hn; [|done]. intros [= <- <-].
    split_and!; [done|done| |done]. by exists n.
  - intros ([k f] & Hj & Hl)%bind_Some. case_decide as Hk; [|done]. injection Hl as <- <-. subst k.
    split_and!; [done| |done]. by exists f.
  - intros ([k f] & Hj & Hl)%bind_Some. case_decide as Hk; [|done]. subst k.
    apply bind_Some in Hl as (r & Hr & [= <- <-]). split_and!; [done|done| |done]. by exists f.
Qed.

Definition answer (o : outside) (i : nat) (X : Type) (e : COp X) (s : CSys) : option (X * CSys) :=
  let n := length (y_log s) in
  if o_now o <? y_now s then None
  else
    '(x, d, m) ← match answer_db o n e (y_db s) with
                 | Some (x, d) => Some (x, d, y_mem s)
                 | None => '(x, m) ← answer_mem n i e (y_mem s); Some (x, y_db s, m)
                 end;
    Some (x, {| y_db := d; y_mem := m; y_now := o_now o; y_log := Cen i (o_now o) (Ev e x) :: y_log s |}).

Lemma cred_answer_steps o i X (e : COp X) s x s' : answer o i X e s = Some (x, s') → step i X e s x s'.
Proof.
  unfold answer. destruct (Z.ltb_spec (o_now o) (y_now s)); [done|]. intros ([[x1 d] m] & Ha & [= <- <-])%bind_Some.
  exists (o_now o), d, m. split; [done|].
  destruct (answer_db o (length (y_log s)) e (y_db s)) as [[x2 d2]|] eqn:Hd.
  - injection Ha as <- <- <-. by destruct (answer_db_ok o _ i e _ _ _ (y_mem s) Hd) as (? & ? & ?).
  - apply bind_Some in Ha as ([x2 m2] & Hm & [= <- <- <-]).
    by destruct (answer_mem_ok o _ i e (y_db s) _ _ _ Hm) as (? & ? & ?).
Qed.

Definition unheardb (i : nat) (s : CSys) : bool := forallb (λ e, negb (bool_decide (cn_thread e = i))) (y_log s).

Lemma unheardb_ok i s : unheardb i s = true → unheard i s.
Proof.
  unfold unheardb, unheard. rewrite forallb_forall, Forall_forall. intros H e He%list_elem_of_In Heq.
  specialize (H e He). by rewrite bool_decide_eq_true_2 in H.
Qed.

(** ** Histories *)

Definition empty_system : CSys := {|
  y_db := {| d_clusters := ∅; d_pbs := ∅; d_ssh := ∅; d_used := ∅ |};
  y_mem := {| m_cache := ∅; m_air := ∅; m_landed := ∅; m_joined := ∅ |}; y_now := 0; y_log := [] |}.

Lemma empty_initial : initial empty_system.
Proof. done. Qed.

Definition after (turns : list (turn COp outside)) : CSys := default empty_system (take_turns answer unheardb turns [] empty_system).

Lemma creds_played turns : Forall (turn_ok credential_work) turns → ∃ ts, rtc (threads step unheard credential_work) ([], empty_system) (ts, after turns).
Proof.
  intros Ht. unfold after. destruct (take_turns answer unheardb turns [] empty_system) as [s|] eqn:Hp; simpl;
    [|exists []; apply rtc_refl].
  by apply (take_turns_threads step unheard credential_work answer unheardb cred_answer_steps unheardb_ok turns).
Qed.

Ltac turns_ok := repeat (apply Forall_cons; split; [constructor|]); apply Forall_nil; done.

(** Requests. *)
Definition onboard : createClusterRequest := {|
  cr_Name := "lab"; cr_APIURL := "https://pve1:8006"; cr_TokenID := "root@pam!t"; cr_TokenSecret := "s0"; cr_TLSFingerprint := "";
  cr_SyncIntervalSeconds := 60; cr_AllowPrivateAddress := false; cr_Bootstrap := None |}.

Definition onboard_minted : createClusterRequest := {|
  cr_Name := "lab"; cr_APIURL := "https://pve1:8006"; cr_TokenID := ""; cr_TokenSecret := ""; cr_TLSFingerprint := "";
  cr_SyncIntervalSeconds := 60; cr_AllowPrivateAddress := false;
  cr_Bootstrap := Some {| br_Username := "root@pam"; br_Password := "pw"; br_OTP := ""; br_UserID := ""; br_TokenName := "" |} |}.

Definition change (name url tokenID secret : option string) : updateClusterRequest := {|
  ur_Name := name; ur_APIURL := url; ur_TokenID := tokenID; ur_TokenSecret := secret; ur_TLSFingerprint := None;
  ur_SyncIntervalSeconds := None; ur_IsActive := None; ur_AllowPrivateAddress := false; ur_AcknowledgeSSHTrustReset := true |}.

Definition move : updateClusterRequest := change None (Some "https://pve2:8006") None (Some "s1").
Definition rotate : updateClusterRequest := change None None None (Some "s1").
Definition rename : updateClusterRequest := change (Some "lab2") None None None.

(** The id the cluster is given. *)
Definition lab : uuid := 1002.

Definition run (i : nat) (p : cprog unit) (now : Z) : list (turn COp outside) := [Start i p; Calls i 60 (at_time now)].

(** A cluster is added, talked to twice, collected from and updated by another process while its first node is down, its
    certificate verified, and its address moved. *)
Definition ordinary : list (turn COp outside) :=
  run 0 (serve (Create onboard)) 0 ++ run 1 (use_client CacheKindPVE lab (CreateProxmoxClient 0 lab)) (60 * second) ++
  run 2 (use_client CacheKindPVE lab (createClient 0 lab)) (120 * second) ++
  [Start 7 (SyncAll 1 0); Calls 7 60 (down_at (130 * second)); Start 8 (rolling_request 1 lab); Calls 8 60 (down_at (140 * second))] ++
  run 3 (serve (VerifyCertificate 0 lab)) (180 * second) ++
  run 4 (serve (UpsertSSHCredentials lab "" 0 "password" "pw" "")) (180 * second) ++
  run 5 (serve (Update 0 lab move)) (240 * second) ++ run 6 (use_client CacheKindPVE lab (CreateProxmoxClient 0 lab)) (300 * second).

(** The secrets that were sent, to where and by which thread, latest first. *)
Definition secrets_sent (s : CSys) : list (nat * string * string) :=
  omap (λ e, match sent_of (cn_event e) with Some c => Some (cn_thread e, c_BaseURL c, c_TokenSecret c) | None => None end) (y_log s).

(** A build reads the row, the secret is rotated, and the build goes on. *)
Definition stale : list (turn COp outside) :=
  run 0 (serve (Create onboard)) 0 ++
  [Start 1 (use_client CacheKindPVE lab (CreateProxmoxClient 0 lab)); Calls 1 4 (at_time (60 * second))] ++
  run 2 (serve (Update 0 lab rotate)) (61 * second) ++ [Calls 1 60 (at_time (62 * second))] ++
  run 3 (use_client CacheKindPVE lab (CreateProxmoxClient 0 lab)) (9 * minute).

(** A renaming reads the row; the address is moved and an SSH credential stored for it; the renaming goes on. *)
Definition crossing : list (turn COp outside) :=
  run 0 (serve (Create onboard)) 0 ++ [Start 1 (serve (Update 0 lab rename)); Calls 1 1 (at_time (60 * second))] ++
  run 2 (serve (Update 0 lab move)) (61 * second) ++
  run 3 (serve (UpsertSSHCredentials lab "" 0 "password" "pw2" "")) (62 * second) ++ [Calls 1 60 (at_time (63 * second))].

(** The provenance of a minted credential cannot be cleared. *)
Definition minted_lab : uuid := 1003.

Definition half_done : list (turn COp outside) :=
  run 0 (serve (Create onboard_minted)) 0 ++ run 1 (use_client CacheKindPVE minted_lab (CreateProxmoxClient 0 minted_lab)) (60 * second) ++
  [Start 2 (serve (Update 0 minted_lab (change None None (Some "root@pam!t") (Some "s1"))));
   Calls 2 60 {| o_now := 120 * second; o_fails := true; o_down := false |}] ++
  run 3 (use_client CacheKindPVE minted_lab (CreateProxmoxClient 0 minted_lab)) (9 * minute).

(** The address of a row and the secret in it. *)
Definition row_at (id : uuid) (s : CSys) : option (string * option string) :=
  r ← d_clusters (y_db s) !! id; Some (cl_ApiUrl r, Decrypt (cl_TokenSecretEncrypted r)).

(** The password of the SSH credential of a cluster. *)
Definition ssh_at (id : uuid) (s : CSys) : option (option string) := c ← d_ssh (y_db s) !! id; Some (Decrypt (sh_EncryptedPassword c)).

(** The statuses that were answered, latest first. *)
Definition statuses (s : CSys) : list (nat * Z) :=
  omap (λ e, match cn_event e with @Ev _ _ (Respond r) _ => Some (cn_thread e, rp_Status r) | _ => None end) (y_log s).

(** Two requests miss the cache; the second joins the flight of the first and is handed its client. A third, ten minutes
    later, finds the entry too old and reads the row itself. *)
Definition sharing : list (turn COp outside) :=
  run 0 (serve (Create onboard)) 0 ++
  [Start 1 (use_client CacheKindPVE lab (CreateProxmoxClient 0 lab)); Calls 1 2 (at_time (60 * second));
   Start 2 (use_client CacheKindPVE lab (CreateProxmoxClient 0 lab)); Calls 2 2 (at_time (60 * second));
   Calls 1 60 (at_time (61 * second)); Calls 2 60 (at_time (62 * second))] ++
  run 3 (use_client CacheKindPVE lab (CreateProxmoxClient 0 lab)) (661 * second).

(** The threads that read the row of a cluster, latest first. *)
Definition readers (s : CSys) : list nat :=
  omap (λ e, if bool_decide (rows_of (cn_event e) = []) then None else Some (cn_thread e)) (y_log s).

Example shared_flight :
  (∃ ts, rtc (threads step unheard credential_work) ([], empty_system) (ts, after sharing)) ∧
  secrets_sent (after sharing) =
    [(3%nat, "https://pve1:8006", "s0"); (2%nat, "https://pve1:8006", "s0"); (1%nat, "https://pve1:8006", "s0");
     (0%nat, "https://pve1:8006", "s0")] ∧
  readers (after sharing) = [3%nat; 1%nat].
Proof. split; [apply creds_played; by turns_ok|by vm_compute]. Qed.

(** ** What the code allows *)

Example stale_fill :
  (∃ ts, rtc (threads step unheard credential_work) ([], empty_system) (ts, after stale)) ∧
  row_at lab (after stale) = Some ("https://pve1:8006", Some "s1") ∧ statuses (after stale) = [(2%nat, 200); (0%nat, 201)] ∧
  take 1 (secrets_sent (after stale)) = [(3%nat, "https://pve1:8006", "s0")].
Proof. split; [apply creds_played; by turns_ok|by vm_compute]. Qed.

Example lost_move :
  (∃ ts, rtc (threads step unheard credential_work) ([], empty_system) (ts, after crossing)) ∧
  statuses (after crossing) = [(1%nat, 200); (3%nat, 200); (2%nat, 200); (0%nat, 201)] ∧
  row_at lab (after crossing) = Some ("https://pve1:8006", Some "s0") ∧ ssh_at lab (after crossing) = Some (Some "pw2").
Proof. split; [apply creds_played; by turns_ok|by vm_compute]. Qed.

Example unannounced_change :
  (∃ ts, rtc (threads step unheard credential_work) ([], empty_system) (ts, after half_done)) ∧
  row_at minted_lab (after half_done) = Some ("https://pve1:8006", Some "s1") ∧ statuses (after half_done) = [(2%nat, 500); (0%nat, 201)] ∧
  take 1 (secrets_sent (after half_done)) = [(3%nat, "https://pve1:8006", "s0")].
Proof. split; [apply creds_played; by turns_ok|by vm_compute]. Qed.

(** ** Witnesses *)

Definition no_entry : centry := Cen 0 0 (Ev TimeNow 0).
Definition ordinary_log : list centry := y_log (after ordinary).

Lemma secret_stays_home_witness :
  secrets_sent (after ordinary) =
    [(6%nat, "https://pve2:8006", "s1"); (5%nat, "https://pve2:8006", "s1"); (8%nat, "https://pve2:8006", "s0");
     (8%nat, "https://pve2:8006", "s0"); (8%nat, "https://pve1:8006", "s0"); (8%nat, "https://pve1:8006", "s0");
     (7%nat, "https://pve2:8006", "s0"); (7%nat, "https://pve2:8006", "s0"); (7%nat, "https://pve1:8006", "s0");
     (2%nat, "https://pve1:8006", "s0"); (1%nat, "https://pve1:8006", "s0"); (0%nat, "https://pve1:8006", "s0")] ∧
  ForallTail (λ e earlier, ∀ c, sent_of (cn_event e) = Some c → trusted c earlier) ordinary_log.
Proof.
  destruct (creds_played ordinary) as [ts Hts]; [by turns_ok|]. split; [by vm_compute|].
  apply (secret_stays_home empty_system ts (after ordinary)); [apply empty_initial|exact Hts].
Defined.

(** The entries that were found in the cache, by which thread. *)
Definition found_at (s : CSys) : list (nat * string) :=
  omap (λ e, match found_of (cn_event e) with Some (_, en) => Some (cn_thread e, c_TokenSecret (en_client en)) | None => None end) (y_log s).


Lemma pin_attested_witness : attested_by 3 lab leaf "https://pve1:8006" (drop 33 ordinary_log).
Proof.
  destruct (creds_played ordinary) as [ts Hts]; [by turns_ok|].
  apply (pin_attested empty_system ts (after ordinary) (take 32 ordinary_log) (nth 32 ordinary_log no_entry)
           (drop 33 ordinary_log) lab leaf "https://pve1:8006" (Ok 1)).
  - apply empty_initial.
  - exact Hts.
  - by vm_compute.
  - by vm_compute.
Defined.

Definition moved : UpdateClusterParams := {|
  uc_Name := "lab"; uc_ApiUrl := "https://pve2:8006"; uc_TokenID := "root@pam!t"; uc_TokenSecretEncrypted := "000000000000s1";
  uc_TlsFingerprint := leaf; uc_SyncIntervalSeconds := 60; uc_IsActive := true |}.

Lemma move_clears_trust_witness : may_move 5 lab "https://pve2:8006" (drop 15 ordinary_log).
Proof.
  destruct (creds_played ordinary) as [ts Hts]; [by turns_ok|].
  apply (move_clears_trust empty_system ts (after ordinary) (take 14 ordinary_log) (nth 14 ordinary_log no_entry)
           (drop 15 ordinary_log) lab moved (Ok (createCluster lab moved "manual" "" "" false false))).
  - apply empty_initial.
  - exact Hts.
  - by vm_compute.
  - by vm_compute.
Defined.
End CredsCase.
