(* ===== verification/SchedDb.v ===== *)
(** * Scheduled tasks and the task history: tables and queries

    The rows of [scheduled_tasks] and [task_history] ([db/generated/models.go]) and
    the statements of [db/generated/scheduled_tasks.sql.go], [tasks.sql.go] and
    [proxmox_task_sync.sql.go] on them.

    A table is a map from its key; the unique key of the task history is the UPID.
    The parameters of a schedule are what the column decodes to, or the error of the
    decoder. The columns that only say when a row was written, the progress of a
    task and its guest number are left out; so are the archive and the status
    changes that the pruning of the history moves rows to. *)

From S2P Require Import Prelude GoStrings GoFloat ProxmoxApi Effects RbacEngine.

Local Open Scope Z_scope.

(** ** Rows *)

(** What the action of a schedule reads from its parameters. *)
Record snapshotParams := { sp_SnapName : string; sp_Description : string; sp_VMState : bool }.

Record ScheduledTask := {
  st_ID : uuid; st_ClusterID : uuid; st_ResourceType : string; st_ResourceID : string; st_Node : string;
  st_Action : string; st_Schedule : string; st_Params : result string snapshotParams; st_Enabled : bool;
  st_LastRunAt : option Z; st_NextRunAt : option Z; st_LastStatus : option string; st_LastError : option string;
  st_LastUpid : option string }.

Record TaskHistory := {
  th_ClusterID : uuid; th_UserID : uuid; th_Upid : string; th_Description : string; th_Status : string;
  th_ExitStatus : string; th_Node : string; th_TaskType : string; th_StartedAt : Z; th_FinishedAt : option Z;
  th_Source : string }.

Abbreviation schedules := (gmap uuid ScheduledTask).
Abbreviation history := (gmap string TaskHistory).

(** The columns a run writes. *)
Definition set_run (enabled : bool) (runAt nextAt : option Z) (status error upid : option string) (r : ScheduledTask) :
    ScheduledTask := {|
  st_ID := st_ID r; st_ClusterID := st_ClusterID r; st_ResourceType := st_ResourceType r;
  st_ResourceID := st_ResourceID r; st_Node := st_Node r; st_Action := st_Action r; st_Schedule := st_Schedule r;
  st_Params := st_Params r; st_Enabled := enabled; st_LastRunAt := runAt; st_NextRunAt := nextAt;
  st_LastStatus := status; st_LastError := error; st_LastUpid := upid |}.

(** ** Scheduled tasks *)

(** [last_status IS DISTINCT FROM 'running' OR last_run_at IS NULL OR last_run_at <
    now() - stale]: nobody is starting the run. *)
Definition unclaimed (now stale : Z) (r : ScheduledTask) : bool :=
  negb (bool_decide (st_LastStatus r = Some "running")) ||
  match st_LastRunAt r with None => true | Some t => t <? now - stale end.

Definition due (now stale : Z) (r : ScheduledTask) : bool :=
  st_Enabled r && match st_NextRunAt r with None => true | Some t => t <=? now end && unclaimed now stale r.

Definition claimed (now guard : Z) : ScheduledTask → ScheduledTask :=
  λ r, set_run (st_Enabled r) (Some now) (Some (now + guard)) (Some "running") None None r.

(** [claimDueTasks], where the rows [ids] were not locked by another. *)
Definition claimDueTasks (now guard : Z) (ids : list uuid) : schedules → schedules :=
  λ d, foldr (λ id, alter (claimed now guard) id) d ids.

Record RunRecord := {
  rr_ID : uuid; rr_LastRunAt : Z; rr_NextRunAt : Z; rr_LastStatus : string; rr_LastError : option string;
  rr_LastUpid : option string }.

Definition recorded (a : RunRecord) : ScheduledTask → ScheduledTask :=
  λ r, set_run (st_Enabled r) (Some (rr_LastRunAt a)) (Some (rr_NextRunAt a)) (Some (rr_LastStatus a)) (rr_LastError a)
         (rr_LastUpid a) r.

Definition updateTaskLastRun (a : RunRecord) : schedules → schedules := alter (recorded a) (rr_ID a).

Record ParkRecord := {
  pk_ID : uuid; pk_LastStatus : option string; pk_LastError : option string; pk_LastUpid : option string }.

Definition parked (now : Z) (a : ParkRecord) : ScheduledTask → ScheduledTask :=
  set_run false (Some now) None (pk_LastStatus a) (pk_LastError a) (pk_LastUpid a).

Definition disableScheduledTaskForBadSchedule (now : Z) (a : ParkRecord) : schedules → schedules :=
  alter (parked now a) (pk_ID a).

(** The words a failed task leaves on its schedule. *)
Definition exit_message (exit : string) : string :=
  if bool_decide (exit = "vanished")
  then "Proxmox never reported how this task ended; Nexara stopped following it after 24 hours"
  else if bool_decide (exit = "") then "Proxmox task failed"
  else exit.

(** [concat_ws('; ', message, last_error)] *)
Definition concat_ws (message : string) (rest : option string) : string :=
  match rest with None => message | Some r => message +:+ "; " +:+ r end.

(** The finished task of a dispatched run. *)
Definition finished_run (dispatched : string) (d : history) (r : ScheduledTask) : option TaskHistory :=
  if negb (bool_decide (st_LastStatus r = Some dispatched)) then None
  else
    upid ← st_LastUpid r;
    th ← d !! upid;
    if bool_decide (th_ClusterID th = st_ClusterID r) && bool_decide (th_Status th ∈ ["completed"; "failed"])
    then Some th else None.

Definition settle (succeeded failed dispatched : string) (d : history) (r : ScheduledTask) : ScheduledTask :=
  match finished_run dispatched d r with
  | None => r
  | Some th =>
      set_run (st_Enabled r) (st_LastRunAt r) (st_NextRunAt r)
        (Some (if bool_decide (th_Status th = "completed") then succeeded else failed))
        (if bool_decide (th_Status th = "failed") then Some (concat_ws (exit_message (th_ExitStatus th)) (st_LastError r))
         else st_LastError r)
        (st_LastUpid r) r
  end.

(** [reconcileDispatchedScheduledTasks] *)
Definition reconcileDispatchedScheduledTasks (succeeded failed dispatched : string) (d : history) : schedules → schedules :=
  fmap (settle succeeded failed dispatched d).

Record InsertScheduledTaskParams := {
  is_ClusterID : uuid; is_ResourceType : string; is_ResourceID : string; is_Node : string; is_Action : string;
  is_Schedule : string; is_Params : result string snapshotParams; is_Enabled : bool; is_NextRunAt : option Z }.

Definition insertScheduledTask (id : uuid) (a : InsertScheduledTaskParams) : ScheduledTask := {|
  st_ID := id; st_ClusterID := is_ClusterID a; st_ResourceType := is_ResourceType a; st_ResourceID := is_ResourceID a;
  st_Node := is_Node a; st_Action := is_Action a; st_Schedule := is_Schedule a; st_Params := is_Params a;
  st_Enabled := is_Enabled a; st_LastRunAt := None; st_NextRunAt := is_NextRunAt a; st_LastStatus := None;
  st_LastError := None; st_LastUpid := None |}.

Record UpdateScheduledTaskParams := {
  us_Schedule : string; us_Params : result string snapshotParams; us_Enabled : bool; us_ID : uuid; us_ClusterID : uuid }.

Definition in_cluster (cluster : uuid) (r : ScheduledTask) : bool := st_ClusterID r =? cluster.

Definition edited (a : UpdateScheduledTaskParams) (r : ScheduledTask) : ScheduledTask := {|
  st_ID := st_ID r; st_ClusterID := st_ClusterID r; st_ResourceType := st_ResourceType r;
  st_ResourceID := st_ResourceID r; st_Node := st_Node r; st_Action := st_Action r; st_Schedule := us_Schedule a;
  st_Params := us_Params a; st_Enabled := us_Enabled a; st_LastRunAt := st_LastRunAt r;
  st_NextRunAt := st_NextRunAt r; st_LastStatus := st_LastStatus r; st_LastError := st_LastError r;
  st_LastUpid := st_LastUpid r |}.

Definition updateScheduledTask (a : UpdateScheduledTaskParams) : schedules → schedules :=
  alter (λ r, if in_cluster (us_ClusterID a) r then edited a r else r) (us_ID a).

Definition deleteScheduledTask (id cluster : uuid) : schedules → schedules :=
  λ d, match d !! id with
       | Some r => if in_cluster cluster r then delete id d else d
       | None => d
       end.

(** The rows an update or a delete by id and cluster touches. *)
Definition rows_affected (id cluster : uuid) (d : schedules) : Z :=
  match d !! id with Some r => if in_cluster cluster r then 1 else 0 | None => 0 end.

(** ** The task history *)

(** [insertTaskHistory]: a task Nexara started; nothing where the UPID is on record. *)
Definition insertTaskHistory (now : Z) (cluster user : uuid) (upid description status node taskType : string)
    (d : history) : option history :=
  match d !! upid with
  | Some _ => None
  | None => Some (<[upid := {|
      th_ClusterID := cluster; th_UserID := user; th_Upid := upid; th_Description := description; th_Status := status;
      th_ExitStatus := ""; th_Node := node; th_TaskType := taskType; th_StartedAt := now; th_FinishedAt := None;
      th_Source := "nexara" |}]> d)
  end.

(** [insertExternalTaskHistory] *)
Definition insertExternalTaskHistory (row : TaskHistory) (d : history) : history :=
  match d !! th_Upid row with Some _ => d | None => <[th_Upid row := row]> d end.

Definition set_task (status exit : string) (finished : option Z) (r : TaskHistory) : TaskHistory := {|
  th_ClusterID := th_ClusterID r; th_UserID := th_UserID r; th_Upid := th_Upid r; th_Description := th_Description r;
  th_Status := status; th_ExitStatus := exit; th_Node := th_Node r; th_TaskType := th_TaskType r;
  th_StartedAt := th_StartedAt r; th_FinishedAt := finished; th_Source := th_Source r |}.

Definition is_running (r : TaskHistory) : bool := bool_decide (th_Status r = "running").

(** [reconcileTaskHistory] *)
Definition reconcileTaskHistory (upid status exit : string) (finished : Z) : history → history :=
  alter (λ r, if is_running r then set_task status exit (Some finished) r else r) upid.

(** [updateTaskHistory], less the progress *)
Definition updateTaskHistory (upid status exit : string) (finished : option Z) : history → history :=
  alter (λ r, if is_running r && negb (bool_decide (th_Source r = "proxmox")) then set_task status exit finished r else r)
    upid.

(** [status != 'running' AND COALESCE(finished_at, started_at) < cutoff] *)
Definition pruned (cutoff : Z) (r : TaskHistory) : bool :=
  negb (is_running r) && (default (th_StartedAt r) (th_FinishedAt r) <? cutoff).

(** [deleteCompletedTasks] *)
Definition deleteCompletedTasks (cutoff : Z) (d : history) : history := filter (λ kv, pruned cutoff kv.2 = false) d.

(** ** The migration jobs the collector asks about *)

(** A job, as far as these queries read it: its type and its UPID. *)
Record JobUpid := { ju_Type : string; ju_Upid : string }.

Abbreviation job_upids := (gmap uuid JobUpid).

(** [migration_type = 'cross-cluster' AND upid <> '' AND upid = $1] *)
Definition names_cross_cluster (upid : string) (j : JobUpid) : bool :=
  bool_decide (ju_Type j = "cross-cluster") && negb (bool_decide (ju_Upid j = "")) && bool_decide (ju_Upid j = upid).

(** A cross-cluster migration holds the UPID. *)
Definition cross_cluster (jobs : job_upids) (upid : string) : bool :=
  existsb (λ kv, names_cross_cluster upid kv.2) (map_to_list jobs).

(** [listRunningTaskHistoryByCluster] selects the row. *)
Definition followed (jobs : job_upids) (cluster : uuid) (r : TaskHistory) : bool :=
  (th_ClusterID r =? cluster) && is_running r && negb (cross_cluster jobs (th_Upid r)).

(** * Scheduled tasks: cron specifications and calls

    [cronspec/cron.go], the Proxmox requests of the scheduler and of the task
    collector, and their calls as the constructors of [SOp].

    The parser of cron expressions is a library: [CronLibrary] is what it answers,
    with nothing assumed about it. The error of a call is its text. [RequirePerm]
    is the declared permission of a route or [requireClusterPerm], by its answer,
    on a cluster or globally; [ReadTask] is [proxmoxTaskStatus] with the reply its
    error becomes; [AuditLogAs] is the handlers' audit, which answers nothing and
    whose entries name no UPID under [upid]. Log lines are left out, and so are
    panics: the [recover] of a tick has nothing to catch here. *)

(** ** Cron specifications *)

(** [cronParser.Parse], with [Next] of the schedule it gives. *)
Class CronLibrary := cron_parse : string → result string (Z → Z).

Inductive cron_error := CronSyntax (text : string) | CronNever (schedule : string).

Definition cron_text (e : cron_error) : string :=
  match e with
  | CronSyntax text => text
  | CronNever schedule => "cron expression never comes round: " +:+ Quote schedule
  end.

Definition NextRunTime `{CronLibrary} (schedule : string) (from : Z) : result cron_error Z :=
  match cron_parse schedule with
  | Err e => Err (CronSyntax ("parse cron " +:+ Quote schedule +:+ ": " +:+ e))
  | Ok next => if from <? next from then Ok (next from) else Err (CronNever schedule)
  end.

(** [NextValidRun], its error as its text *)
Definition NextValidRun `{CronLibrary} (schedule : string) (from : Z) : result string Z :=
  match NextRunTime schedule from with
  | Ok next => Ok next
  | Err (CronNever _) =>
      Err ("cron expression " +:+ Quote schedule +:+ " never comes round — check the day of month against the month " +:+
           "(April, June, September and November have no 31st; February has no 30th)")
  | Err (CronSyntax text) => Err text
  end.

(** ** What Proxmox is asked *)

Record SnapshotParams := { sn_SnapName : string; sn_Description : string; sn_VMState : bool }.

Record NodeTask := {
  nt_UPID : string; nt_Node : string; nt_StartTime : Z; nt_EndTime : Z; nt_Type : string; nt_ID : string;
  nt_User : string; nt_TokenID : string; nt_Status : string }.

(** [TaskStatus] *)
Record TaskReport := { tr_Status : string; tr_ExitStatus : string; tr_Type : string }.

Inductive srequest : Type → Type :=
| CreateVMSnapshot (node : string) (vmid : Z) (p : SnapshotParams) : srequest string
| CreateCTSnapshot (node : string) (vmid : Z) (p : SnapshotParams) : srequest string
| RebootVM (node : string) (vmid : Z) : srequest string
| RebootCT (node : string) (vmid : Z) : srequest string
| GetNodes : srequest (list (string * string))
| GetNodeTasks (node : string) (since limit : Z) : srequest (list NodeTask)
| GetTaskStatus (node upid : string) : srequest TaskReport.

(** ** Calls *)

(** What an event or an audit entry is about. *)
Inductive subject := SId (u : uuid) | SText (s : string).

(** A row [reconcileDispatchedScheduledTasks] returns. *)
Record SettledRow := { sr_ID : uuid; sr_ClusterID : uuid; sr_LastStatus : option string; sr_LastError : option string }.

Inductive SOp : Type → Type :=
| ReconcileDispatchedScheduledTasks (succeeded failed dispatched : string) : SOp (result string (list SettledRow))
| ClaimDueTasks (guard stale : Z) : SOp (result string (list ScheduledTask))
| UpdateTaskLastRun (a : RunRecord) : SOp (option string)
| DisableScheduledTaskForBadSchedule (a : ParkRecord) : SOp (option string)
| InsertScheduledTask (a : InsertScheduledTaskParams) : SOp (result string ScheduledTask)
| GetScheduledTask (id : uuid) : SOp (result bool ScheduledTask)
| ListScheduledTasksByCluster (cluster : uuid) : SOp (result string (list ScheduledTask))
| UpdateScheduledTask (a : UpdateScheduledTaskParams) : SOp (result string Z)
| DeleteScheduledTask (id cluster : uuid) : SOp (result string Z)
| InsertTaskHistory (cluster user : uuid) (upid description status node taskType : string) : SOp (result bool unit)
| InsertExternalTaskHistory (row : TaskHistory) : SOp (option string)
| ListExistingTaskHistoryUPIDs (upids : list string) : SOp (result string (list string))
| ListExistingAuditLogUPIDs (cluster : uuid) (upids : list string) : SOp (result string (list string))
| ListCrossClusterMigrationUPIDs (upids : list string) : SOp (result string (list string))
| ListRunningTaskHistoryByCluster (cluster : uuid) : SOp (result string (list TaskHistory))
| ReconcileTaskHistory (upid status exit : string) (finished : Z) : SOp (result string Z)
| GetTaskByUpid (upid : string) : SOp (option TaskHistory)
| UpdateTaskHistory (upid status exit : string) : SOp (result string Z)
| TaskUPIDOnRecord (upid : string) : SOp (result string bool)
| DeleteCompletedTasks (cutoff : Z) : SOp (option string)
| GetTaskSyncState (cluster : uuid) : SOp (option Z)
| UpsertTaskSyncState (cluster : uuid) (at_ : Z) : SOp (option string)
| LinkSDNApplyNodeTasks (cluster : uuid) (since : Z) : SOp (option string)
| InsertAuditLog (cluster : uuid) (resourceType : string) (resource : subject) (action : string) (upid : option string) :
    SOp (option string)
| GetVMByClusterAndVmid (cluster : uuid) (vmid : Z) : SOp (option string)
| GetNodeByClusterAndName (cluster : uuid) (node : string) : SOp (option bool)
| RequirePerm (action resource : string) (cluster : option uuid) : SOp (option reply)
| ReadTask (cluster : uuid) (node upid : string) : SOp (result reply TaskReport)
| AuditLogAs (cluster : option uuid) (resourceType : string) (resource : subject) (action : string) : SOp unit
| CacheGet (cluster : uuid) : SOp (option string)
| NewClientForCluster (cluster : uuid) : SOp (option string)
| SPve {A} (cluster : uuid) (r : srequest A) : SOp (result string A)
| Publish (cluster : uuid) (kind resourceType : string) (resource : subject) (action : string) : SOp unit
| SystemEvent (kind action : string) : SOp unit
| SetJobUpid (job : uuid) (upid : string) : SOp (option string)
| TimeNow : SOp Z.

Abbreviation sprog := (prog SOp).
Definition sask {X} (e : SOp X) : sprog X := call e.
Definition spve {A} (cluster : uuid) (r : srequest A) : sprog (result string A) := sask (SPve cluster r).
Arguments sask {X} e : simpl never.
Arguments spve {A} cluster r : simpl never.

(** [nodemember.Require]: [None] for a member, or whether the database could not
    say, with the text. *)
Definition Require_node (cluster : uuid) (node : string) : sprog (option (bool * string)) :=
  let! member := sask (GetNodeByClusterAndName cluster node) in
  match member with
  | None => Ret (Some (true, "could not confirm node " +:+ Quote node +:+
                       " is one of this cluster's nodes; it was not contacted"))
  | Some false => Ret (Some (false, "node " +:+ Quote node +:+ " is not one of this cluster's nodes; it was not contacted"))
  | Some true => Ret None
  end.
