(* ===== verification/SchedRun.v ===== *)
(** * The scheduler of scheduled tasks

    [scheduler/scheduler.go], as far as it runs scheduled tasks: the claim, the
    dispatch of a snapshot or a reboot, the record of a run, the settling of a
    dispatched run from the task history, and the pruning of that history. *)

From S2P Require Import Prelude GoFloat GoStrings ProxmoxApi Effects RbacEngine SchedDb.

Local Open Scope Z_scope.

Definition taskClaimGuardSeconds : Z := 600.
Definition taskClaimStaleSeconds : Z := 600.

Definition runStatusClaimed : string := "running".
Definition runStatusDispatched : string := "dispatched".
Definition runStatusSucceeded : string := "success".
Definition runStatusFailed : string := "failed".

Definition noTaskIDError : string :=
  "Proxmox returned no task ID for this run, so how it ended cannot be followed".

(** [auth.SystemUserID] *)
Definition SystemUserID : uuid := 1.

(** ** Settling *)

Definition settleDispatchedRunsWith : sprog (option string) :=
  let! r := sask (ReconcileDispatchedScheduledTasks runStatusSucceeded runStatusFailed runStatusDispatched) in
  match r with
  | Err e => Ret (Some e)
  | Ok rows =>
      do! for_each rows (λ r, sask (Publish (sr_ClusterID r) "schedule_change" "schedule" (SId (sr_ID r))
                                      (default "" (sr_LastStatus r)))) in
      Ret None
  end.

Definition RunScheduledTaskReconcile : sprog unit := do! settleDispatchedRunsWith in Ret tt.

(** ** The record of a run *)

Record runOutcome := { ro_status : string; ro_err : string; ro_upid : string }.

(** An empty text is no value. *)
Definition text (s : string) : option string := if bool_decide (s = "") then None else Some s.

(** The answer of a dispatch: the UPID, or the error. *)
Definition dispatchOutcome (r : result string string) : runOutcome :=
  match r with
  | Err e => {| ro_status := runStatusFailed; ro_err := e; ro_upid := "" |}
  | Ok upid =>
      if bool_decide (upid = "") then {| ro_status := runStatusFailed; ro_err := noTaskIDError; ro_upid := "" |}
      else {| ro_status := runStatusDispatched; ro_err := ""; ro_upid := upid |}
  end.

Definition parkUnschedulableTask (task : ScheduledTask) (cronErr : cron_error) (run : runOutcome) : sprog unit :=
  let msg := "disabled: " +:+ cron_text cronErr in
  let msg := if bool_decide (ro_err run = "") then msg else ro_err run +:+ "; " +:+ msg in
  do! sask (DisableScheduledTaskForBadSchedule {|
         pk_ID := st_ID task; pk_LastStatus := text (ro_status run); pk_LastError := Some msg;
         pk_LastUpid := text (ro_upid run) |}) in
  Ret tt.

(** ** Names of snapshots *)

Definition SnapshotMaxNameLen : nat := 40.

(** 40, less the dash and the fifteen characters of the time *)
Definition SnapshotNamePrefixMaxLen : nat := SnapshotMaxNameLen - (1 + 15).

(** [at.UTC().Format("20060102-150405")]: the date of a day counted from 1970, by
    the 400-year cycle of the calendar, whose years start in March. *)
Definition civil (days : Z) : Z * Z * Z :=
  let z := days + 719468 in
  let era := z `div` 146097 in
  let doe := z `mod` 146097 in
  let yoe := (doe - doe `div` 1460 + doe `div` 36524 - doe `div` 146096) `div` 365 in
  let doy := doe - (365 * yoe + yoe `div` 4 - yoe `div` 100) in
  let mp := (5 * doy + 2) `div` 153 in
  let d := doy - (153 * mp + 2) `div` 5 + 1 in
  let m := if mp <? 10 then mp + 3 else mp - 9 in
  let y := yoe + era * 400 + (if m <=? 2 then 1 else 0) in
  (y, m, d).

Definition pad2 (z : Z) : string := if z <? 10 then "0" +:+ Itoa z else Itoa z.
Definition pad4 (z : Z) : string :=
  if z <? 10 then "000" +:+ Itoa z else if z <? 100 then "00" +:+ Itoa z else if z <? 1000 then "0" +:+ Itoa z else Itoa z.

Definition snapshot_stamp (at_ : Z) : string :=
  let secs := at_ `div` second in
  let '(y, m, d) := civil (secs `div` 86400) in
  let r := secs `mod` 86400 in
  pad4 y +:+ pad2 m +:+ pad2 d +:+ "-" +:+ pad2 (r `div` 3600) +:+ pad2 ((r `mod` 3600) `div` 60) +:+ pad2 (r `mod` 60).

Definition TimestampedSnapshotName (prefix : string) (at_ : Z) : string := prefix +:+ "-" +:+ snapshot_stamp at_.

Definition autoSnapshotPrefix : string := "auto".

Definition scheduledSnapshotName (stored : string) (now : Z) : string :=
  let prefix := if bool_decide (stored = "") then autoSnapshotPrefix else stored in
  TimestampedSnapshotName (stake SnapshotNamePrefixMaxLen prefix) now.

(** ** Dispatch *)

Inductive scheduledGuestFamily := guestFamilyVM | guestFamilyCT.

Definition scheduledResourceTypes (resourceType : string) : option scheduledGuestFamily :=
  if bool_decide (resourceType = "vm") then Some guestFamilyVM
  else if bool_decide (resourceType = "ct") then Some guestFamilyCT
  else None.

(** [mustAtoi], on the bytes: a byte of a longer rune is no digit either. *)
Fixpoint atoi_from (n : Z) (s : string) : Z :=
  match s with
  | EmptyString => n
  | String c s => match digit c with None => n | Some d => atoi_from (int64 (n * 10 + d)) s end
  end.
Definition mustAtoi (s : string) : Z := atoi_from 0 s.

(** [trackTask] with what [scheduledTask] gives it. *)
Definition trackTask (task : ScheduledTask) (upid taskType description : string) : sprog unit :=
  if bool_decide (upid = "") then Ret tt
  else
    let! r := sask (InsertTaskHistory (st_ClusterID task) SystemUserID upid description "running" (st_Node task) taskType) in
    match r with
    | Err _ => Ret tt
    | Ok _ =>
        do! sask (InsertAuditLog (st_ClusterID task) (st_ResourceType task) (SText (st_ResourceID task)) taskType (Some upid)) in
        do! sask (Publish (st_ClusterID task) "task_created" "task" (SText upid) taskType) in
        sask (Publish (st_ClusterID task) "audit_entry" (st_ResourceType task) (SText (st_ResourceID task)) taskType)
    end.

Definition executeSnapshot (task : ScheduledTask) (now : Z) : sprog (result string string) :=
  match st_Params task with
  | Err e => Ret (Err ("unmarshal snapshot params: " +:+ e))
  | Ok params =>
      let snapName := scheduledSnapshotName (sp_SnapName params) now in
      let sp := {| sn_SnapName := snapName; sn_Description := sp_Description params; sn_VMState := sp_VMState params |} in
      let vmid := mustAtoi (st_ResourceID task) in
      let after (r : result string string) :=
        match r with
        | Err e => Ret (Err e)
        | Ok upid =>
            do! trackTask task upid "scheduled_snapshot"
                  ("Scheduled snapshot " +:+ snapName +:+ " — " +:+ st_ResourceType task +:+ " " +:+ st_ResourceID task) in
            Ret (Ok upid)
        end in
      match scheduledResourceTypes (st_ResourceType task) with
      | Some guestFamilyVM => let! r := spve (st_ClusterID task) (CreateVMSnapshot (st_Node task) vmid sp) in after r
      | Some guestFamilyCT => let! r := spve (st_ClusterID task) (CreateCTSnapshot (st_Node task) vmid sp) in after r
      | None => Ret (Err ("unsupported resource type for snapshot: " +:+ st_ResourceType task))
      end
  end.

Definition executeReboot (task : ScheduledTask) : sprog (result string string) :=
  let vmid := mustAtoi (st_ResourceID task) in
  let after (r : result string string) :=
    match r with
    | Err e => Ret (Err e)
    | Ok upid =>
        do! trackTask task upid "scheduled_reboot"
              ("Scheduled reboot — " +:+ st_ResourceType task +:+ " " +:+ st_ResourceID task) in
        Ret (Ok upid)
    end in
  match scheduledResourceTypes (st_ResourceType task) with
  | Some guestFamilyVM => let! r := spve (st_ClusterID task) (RebootVM (st_Node task) vmid) in after r
  | Some guestFamilyCT => let! r := spve (st_ClusterID task) (RebootCT (st_Node task) vmid) in after r
  | None => Ret (Err ("unsupported resource type for reboot: " +:+ st_ResourceType task))
  end.

(** Whether the client cache is there, and how long finished tasks are kept. *)
Class SchedConfig := { sc_cache : bool; sc_retention : Z }.

Section scheduler.
Context `{CL : CronLibrary} `{MR : MapRange} `{CFG : SchedConfig}.

Definition finishTaskRun (task : ScheduledTask) (now : Z) (run : runOutcome) : sprog unit :=
  match NextRunTime (st_Schedule task) now with
  | Err cronErr => parkUnschedulableTask task cronErr run
  | Ok nextRun =>
      do! sask (UpdateTaskLastRun {|
             rr_ID := st_ID task; rr_LastRunAt := now; rr_NextRunAt := nextRun; rr_LastStatus := ro_status run;
             rr_LastError := text (ro_err run); rr_LastUpid := text (ro_upid run) |}) in
      Ret tt
  end.

Definition dispatch (task : ScheduledTask) (now : Z) : sprog (result string string) :=
  let! member := Require_node (st_ClusterID task) (st_Node task) in
  match member with
  | Some (_, e) => Ret (Err e)
  | None =>
      if bool_decide (st_Action task = "snapshot") then executeSnapshot task now
      else if bool_decide (st_Action task = "reboot") then executeReboot task
      else Ret (Err ("unsupported action: " +:+ st_Action task))
  end.

Definition executeTask (task : ScheduledTask) : sprog unit :=
  let! now := sask TimeNow in
  let! r := dispatch task now in
  finishTaskRun task now (dispatchOutcome r).

Definition markFailed (task : ScheduledTask) (errMsg : string) : sprog unit :=
  let! now := sask TimeNow in
  finishTaskRun task now {| ro_status := runStatusFailed; ro_err := errMsg; ro_upid := "" |}.

Definition createClient (cluster : uuid) : sprog (option string) :=
  if sc_cache then
    let! e := sask (CacheGet cluster) in
    match e with
    | None => Ret None
    | Some _ => sask (NewClientForCluster cluster)
    end
  else sask (NewClientForCluster cluster).

Definition by_cluster (tasks : list ScheduledTask) : gmap uuid (list ScheduledTask) :=
  foldl (λ m t, <[st_ClusterID t := default [] (m !! st_ClusterID t) ++ [t]]> m) ∅ tasks.

Definition run_cluster (cluster : uuid) (tasks : list ScheduledTask) : sprog unit :=
  let! err := createClient cluster in
  match err with
  | Some e => for_each tasks (λ t, markFailed t ("create client: " +:+ e))
  | None => for_each tasks executeTask
  end.

Definition Run : sprog unit :=
  do! RunScheduledTaskReconcile in
  let! r := sask (ClaimDueTasks (taskClaimGuardSeconds * second) (taskClaimStaleSeconds * second)) in
  match r with
  | Err _ => Ret tt
  | Ok tasks => for_each (go_range (by_cluster tasks)) (λ kv, run_cluster kv.1 kv.2)
  end.

Definition RunTaskRetention : sprog unit :=
  let! now := sask TimeNow in
  do! sask (DeleteCompletedTasks (now - sc_retention)) in
  Ret tt.
End scheduler.

Example stamp_2026 : snapshot_stamp (1790388000 * second) = "20260926-020000".
Proof. by vm_compute. Qed.
