(* ===== verification/SchedCollect.v ===== *)
(** * The collector's passes over the tasks of a cluster

    [collector/task_ingest.go], [collector/task_mapping.go] and
    [collector/task_reconcile.go]: the tasks that the nodes list are recorded in the
    task history, and the running ones of the history are followed to their end.
    [ValidID] is of [auditkey].

    A set of strings that the source keeps in a map is a list here where it is only
    asked for membership. *)

From S2P Require Import Prelude GoFloat GoStrings ProxmoxApi Effects DrsExecutor RbacEngine SchedDb SchedRun.

Local Open Scope Z_scope.

(** ** Text *)

(** The runes of a string; a byte that starts none is U+FFFD. *)
Definition rune_error : Z := 65533.

Definition rune_value (l : list ascii) : Z :=
  let v (n : Z) (c : ascii) := Z.of_nat (byte_val c) `mod` 2 ^ n in
  match l with
  | [a] => if Nat.ltb (byte_val a) 128 then Z.of_nat (byte_val a) else rune_error
  | [a; b] => v 5 a * 64 + v 6 b
  | [a; b; c] => (v 4 a * 64 + v 6 b) * 64 + v 6 c
  | [a; b; c; d] => ((v 3 a * 64 + v 6 b) * 64 + v 6 c) * 64 + v 6 d
  | _ => rune_error
  end.

Fixpoint runes_from (fuel : nat) (l : list ascii) : list Z :=
  match fuel, l with
  | S fuel, _ :: _ => rune_value (take (rune_width l) l) :: runes_from fuel (drop (rune_width l) l)
  | _, _ => []
  end.
Definition runes (s : string) : list Z := runes_from (slen s) (bytes_of s).

Definition byte_of (z : Z) : ascii := Ascii.ascii_of_nat (Z.to_nat z).

Definition encode_rune (r : Z) : list ascii :=
  if r <? 128 then [byte_of r]
  else if r <? 2048 then [byte_of (192 + r `div` 64); byte_of (128 + r `mod` 64)]
  else if r <? 65536 then [byte_of (224 + r `div` 4096); byte_of (128 + (r `div` 64) `mod` 64); byte_of (128 + r `mod` 64)]
  else [byte_of (240 + r `div` 262144); byte_of (128 + (r `div` 4096) `mod` 64); byte_of (128 + (r `div` 64) `mod` 64);
        byte_of (128 + r `mod` 64)].

Definition of_runes (l : list Z) : string := of_bytes (concat (encode_rune <$> l)).

(** [unicode.IsControl] *)
Definition IsControl (r : Z) : bool := (r <? 32) || ((127 <=? r) && (r <? 160)).

(** The ranges of [unicode.Cf]. *)
Definition Cf : list (Z * Z) :=
  [(173, 173); (1536, 1541); (1564, 1564); (1757, 1757); (1807, 1807); (2192, 2193); (2274, 2274); (6158, 6158);
   (8203, 8207); (8234, 8238); (8288, 8292); (8294, 8303); (65279, 65279); (65529, 65531); (69821, 69821);
   (69837, 69837); (78896, 78911); (113824, 113827); (119155, 119162); (917505, 917505); (917536, 917631)].

Definition IsFormat (r : Z) : bool := existsb (λ p, (p.1 <=? r) && (r <=? p.2)) Cf.

Definition MaxIDLen : nat := 256.

Definition ValidID (id : string) : bool :=
  negb (bool_decide (id = "")) && negb (Nat.ltb MaxIDLen (slen id)) &&
  forallb (λ r, negb (IsControl r || IsFormat r)) (runes id).

Definition cleanTaskText (s : string) : string :=
  of_runes ((λ c, if IsControl c then 63 else c) <$> take MaxIDLen (runes s)).

(** ** What a task is filed under *)

Record taskMapping := {
  tm_ResourceType : string; tm_Action : string; tm_Fixed : string; tm_OnNode : bool; tm_Describe : string;
  tm_StripPrefix : string; tm_Object : bool; tm_IDPattern : option (string → bool); tm_StorageID : bool }.

(** A mapping with only its type and action. *)
Definition mapping (resourceType action : string) : taskMapping := {|
  tm_ResourceType := resourceType; tm_Action := action; tm_Fixed := ""; tm_OnNode := false; tm_Describe := "";
  tm_StripPrefix := ""; tm_Object := false; tm_IDPattern := None; tm_StorageID := false |}.

(** An object of the cluster page, described, keyed by its id. *)
Definition object_mapping (resourceType action strip describe : string) (pattern : option (string → bool)) : taskMapping := {|
  tm_ResourceType := resourceType; tm_Action := action; tm_Fixed := ""; tm_OnNode := false; tm_Describe := describe;
  tm_StripPrefix := strip; tm_Object := true; tm_IDPattern := pattern; tm_StorageID := false |}.

Definition on_node (resourceType action describe : string) : taskMapping := {|
  tm_ResourceType := resourceType; tm_Action := action; tm_Fixed := ""; tm_OnNode := true; tm_Describe := describe;
  tm_StripPrefix := ""; tm_Object := false; tm_IDPattern := None; tm_StorageID := false |}.

Definition of_storage (action : string) : taskMapping := {|
  tm_ResourceType := "storage"; tm_Action := action; tm_Fixed := ""; tm_OnNode := false; tm_Describe := "";
  tm_StripPrefix := ""; tm_Object := true; tm_IDPattern := None; tm_StorageID := true |}.

Definition is_alnum (c : ascii) : bool := in_range 48 57 c || in_range 65 90 c || in_range 97 122 c.

(** [^\d{1,9}$] *)
Definition cephOSDNumber (s : string) : bool :=
  Nat.leb 1 (slen s) && Nat.leb (slen s) 9 && forallb (in_range 48 57) (bytes_of s).

(** [^[a-zA-Z0-9]([a-zA-Z0-9-]*[a-zA-Z0-9])?$] *)
Definition cephDaemonID (s : string) : bool :=
  match bytes_of s with
  | [] => false
  | c :: rest =>
      is_alnum c && forallb (λ c, is_alnum c || ascii_eqb c "-") rest &&
      match last rest with None => true | Some c => is_alnum c end
  end.

(** [^[^:/\s]+$] *)
Definition cephObjectName (s : string) : bool :=
  negb (bool_decide (s = "")) &&
  forallb (λ c, negb (ascii_eqb c ":" || ascii_eqb c "/" || contains [tab; newline; Ascii.ascii_of_nat 12; cr; space] c))
    (bytes_of s).

Definition idOK (m : taskMapping) (id : string) : bool :=
  ValidID id && match tm_IDPattern m with None => true | Some p => p id end.

Definition proxmoxTaskMap : gmap string taskMapping := list_to_map [
  ("qmstart", mapping "vm" "start"); ("qmstop", mapping "vm" "stop"); ("qmshutdown", mapping "vm" "shutdown");
  ("qmreboot", mapping "vm" "reboot"); ("qmreset", mapping "vm" "reset"); ("qmsuspend", mapping "vm" "suspend");
  ("qmresume", mapping "vm" "resume"); ("qmclone", mapping "vm" "clone"); ("qmdestroy", mapping "vm" "destroy");
  ("qmcreate", mapping "vm" "create"); ("qmmigrate", mapping "vm" "migrate"); ("qmigrate", mapping "vm" "migrate");
  ("qmmove", mapping "vm" "move_disk"); ("qmconfig", mapping "vm" "config_change");
  ("qmtemplate", mapping "vm" "convert_template"); ("qmsnapshot", mapping "vm" "snapshot");
  ("qmrollback", mapping "vm" "rollback");
  ("vzcreate", mapping "container" "create"); ("vzstart", mapping "container" "start");
  ("vzstop", mapping "container" "stop"); ("vzshutdown", mapping "container" "shutdown");
  ("vzreboot", mapping "container" "reboot"); ("vzdestroy", mapping "container" "destroy");
  ("vzmigrate", mapping "container" "migrate"); ("vzclone", mapping "container" "clone");
  ("vzdump", mapping "backup" "backup");
  ("startall", mapping "node" "start_all"); ("stopall", mapping "node" "stop_all"); ("aptupdate", mapping "node" "apt_update");
  ("imgdel", of_storage "delete_content"); ("prunebackups", of_storage "prune_backups");
  ("download", on_node "node" "download" ""); ("imgcopy", on_node "node" "image_copy" "");
  ("srvreload", mapping "node" "service_reload");
  ("acmenewcert", on_node "certificate" "ordered" "Order certificate for");
  ("acmerenew", on_node "certificate" "renewed" "Renew certificate for");
  ("acmerevoke", on_node "certificate" "revoked" "Revoke certificate for");
  ("acmeregister", mapping "node" "acme_register");
  ("reloadnetworkall", {|
     tm_ResourceType := "sdn"; tm_Action := "sdn_applied"; tm_Fixed := "cluster"; tm_OnNode := false;
     tm_Describe := "Apply SDN configuration"; tm_StripPrefix := ""; tm_Object := false; tm_IDPattern := None;
     tm_StorageID := false |});
  ("cephcreateosd", object_mapping "ceph_osd" "osd_create" "" "Create Ceph OSD" None);
  ("cephdestroyosd", object_mapping "ceph_osd" "osd_destroy" "osd." "Destroy Ceph OSD" (Some cephOSDNumber));
  ("cephcreatemon", object_mapping "ceph_mon" "mon_create" "mon." "Create Ceph monitor" (Some cephDaemonID));
  ("cephdestroymon", object_mapping "ceph_mon" "mon_destroy" "mon." "Destroy Ceph monitor" (Some cephDaemonID));
  ("cephcreatemgr", object_mapping "ceph_mgr" "mgr_create" "mgr." "Create Ceph manager" (Some cephDaemonID));
  ("cephdestroymgr", object_mapping "ceph_mgr" "mgr_destroy" "mgr." "Destroy Ceph manager" (Some cephDaemonID));
  ("cephcreatemds", object_mapping "ceph_mds" "mds_create" "mds." "Create Ceph metadata server" (Some cephDaemonID));
  ("cephdestroymds", object_mapping "ceph_mds" "mds_destroy" "mds." "Destroy Ceph metadata server" (Some cephDaemonID));
  ("cephfscreate", object_mapping "ceph_fs" "fs_create" "" "Create CephFS" (Some cephObjectName));
  ("cephdestroyfs", object_mapping "ceph_fs" "fs_destroy" "" "Destroy CephFS" (Some cephObjectName));
  ("cephcreatepool", object_mapping "ceph_pool" "create" "" "Create Ceph pool" (Some cephObjectName));
  ("cephdestroypool", object_mapping "ceph_pool" "delete" "" "Destroy Ceph pool" (Some cephObjectName));
  ("cephsetpool", object_mapping "ceph_pool" "update" "" "Update Ceph pool" (Some cephObjectName)) ].

(** The prefix of a daemon's service name, with its type and the shape of its id;
    an id starts with at most one of them. *)
Definition cephDaemonKinds : list (string * (string * (string → bool))) :=
  [("osd.", ("ceph_osd", cephOSDNumber)); ("mon.", ("ceph_mon", cephDaemonID)); ("mgr.", ("ceph_mgr", cephDaemonID));
   ("mds.", ("ceph_mds", cephDaemonID))].

Definition serviceTaskVerbs (taskType : string) : option string :=
  if bool_decide (taskType = "srvstart") then Some "start"
  else if bool_decide (taskType = "srvstop") then Some "stop"
  else if bool_decide (taskType = "srvrestart") then Some "restart"
  else None.

(** A daemon of Ceph that a service task names. *)
Definition daemon_task (verb taskID : string) : option (taskMapping * string) :=
  head (omap (λ k : string * (string * (string → bool)),
    let '(rest, found) := CutPrefix taskID k.1 in
    if found && ValidID rest && k.2.2 rest then
      let name := stake 3 k.1 in
      Some ({| tm_ResourceType := k.2.1; tm_Action := name +:+ "_" +:+ verb; tm_Fixed := ""; tm_OnNode := false;
               tm_Describe := ToUpper (stake 1 verb) +:+ sdrop 1 verb +:+ " Ceph " +:+ ToUpper name;
               tm_StripPrefix := ""; tm_Object := false; tm_IDPattern := None; tm_StorageID := false |}, rest)
    else None) cephDaemonKinds).

(** What follows the last at-sign, or all of it. *)
Definition after_at (s : string) : string := List.last (Split (Ascii.ascii_of_nat 64) s) "".

Definition as_node (m : taskMapping) : taskMapping := {|
  tm_ResourceType := "node"; tm_Action := tm_Action m; tm_Fixed := tm_Fixed m; tm_OnNode := tm_OnNode m;
  tm_Describe := tm_Describe m; tm_StripPrefix := tm_StripPrefix m; tm_Object := false;
  tm_IDPattern := tm_IDPattern m; tm_StorageID := tm_StorageID m |}.

Definition mapTask (taskType taskID node : string) : option (taskMapping * string) :=
  match (verb ← serviceTaskVerbs taskType; daemon_task verb taskID) with
  | Some r => Some r
  | None =>
      if bool_decide (taskType = "srvreload") && bool_decide (taskID = "networking") then
        Some ({| tm_ResourceType := "network"; tm_Action := "network_applied"; tm_Fixed := ""; tm_OnNode := false;
                 tm_Describe := "Apply network configuration on"; tm_StripPrefix := ""; tm_Object := false;
                 tm_IDPattern := None; tm_StorageID := false |}, node)
      else
        match proxmoxTaskMap !! taskType with
        | None => None
        | Some m =>
            let '(m, resourceID) :=
              if negb (bool_decide (tm_Fixed m = "")) then (m, tm_Fixed m)
              else if tm_OnNode m then (m, node)
              else if tm_StorageID m then
                (if bool_decide (after_at taskID = "") then (as_node m, node) else (m, after_at taskID))
              else if bool_decide (taskID = "") && negb (tm_Object m) then (m, node)
              else (m, TrimPrefix taskID (tm_StripPrefix m)) in
            if tm_Object m && negb (idOK m resourceID) then None else Some (m, resourceID)
        end
  end.

Definition skipTaskTypes (taskType : string) : bool :=
  contains ["vncproxy"; "vncshell"; "qmmonitor"; "spiceproxy"; "login"] taskType.

Definition isGuestTaskType (taskType : string) : bool :=
  contains ["resize"; "move_volume"] taskType || existsb (HasPrefix taskType) ["qm"; "vz"; "ha"].

(** The type and id a UPID carries. *)
Definition upidTypeAndID (upid : string) : option (string * string) :=
  let parts := Split colon upid in
  if Nat.ltb (length parts) 8 || negb (bool_decide (parts !! 0%nat = Some "UPID")) then None
  else taskType ← parts !! 5%nat; id ← parts !! 6%nat; Some (taskType, id).

Definition upidAgrees (task : NodeTask) : bool :=
  match upidTypeAndID (nt_UPID task) with
  | None => true
  | Some (taskType, id) => bool_decide (taskType = nt_Type task) && bool_decide (id = nt_ID task)
  end.

Definition describeTask (m : taskMapping) (resourceID resourceName taskID : string) : string :=
  let description := if bool_decide (tm_Describe m = "") then tm_Action m else tm_Describe m in
  if negb (bool_decide (resourceName = "")) then description +:+ " " +:+ resourceName
  else if negb (bool_decide (tm_Describe m = "")) && bool_decide (tm_Fixed m = "")
  then description +:+ " " +:+ cleanTaskText resourceID
  else if bool_decide (tm_Describe m = "") && negb (bool_decide (taskID = ""))
  then description +:+ " " +:+ cleanTaskText taskID
  else description.

(** ** A pass over the lists of the nodes *)

(** [classifyTaskExit] *)
Definition classifyTaskExit (exitStatus : string) : string * string :=
  if TaskSucceeded exitStatus then ("completed", exitStatus) else ("failed", exitStatus).

(** [strconv.ParseInt(s, 10, 32)] where it has no error. *)
Definition parse_int32 (s : string) : option Z :=
  match Atoi s with
  | (z, None) => if (minInt32 <=? z) && (z <=? maxInt32) then Some z else None
  | _ => None
  end.

Definition seenTaskUPIDs (cluster : uuid) (upids : list string) : sprog (result string (list string)) :=
  match upids with
  | [] => Ret (Ok [])
  | _ =>
      let! th := sask (ListExistingTaskHistoryUPIDs upids) in
      match th with
      | Err e => Ret (Err e)
      | Ok th =>
          let! al := sask (ListExistingAuditLogUPIDs cluster upids) in
          match al with
          | Err e => Ret (Err e)
          | Ok al =>
              let! mj := sask (ListCrossClusterMigrationUPIDs upids) in
              match mj with
              | Err e => Ret (Err e)
              | Ok mj => Ret (Ok (th ++ al ++ mj))
              end
          end
      end
  end.

(** The type and id a task is filed by: its own, or those of its UPID where the two
    disagree. *)
Definition filed_as (task : NodeTask) : string * string :=
  if upidAgrees task then (nt_Type task, nt_ID task) else default ("", "") (upidTypeAndID (nt_UPID task)).

(** The mapping and the resource id of a task. *)
Definition identity_of (task : NodeTask) (node : string) : taskMapping * string :=
  let '(taskType, id) := filed_as task in
  match (if upidAgrees task then mapTask taskType id node else None) with
  | Some r => r
  | None => (mapping "proxmox_task" taskType, if ValidID id then id else node)
  end.

(** The row a task is recorded as. *)
Definition external_row (cluster : uuid) (node : string) (task : NodeTask) (name : string) : TaskHistory :=
  let '(taskType, id) := filed_as task in
  let '(m, resourceID) := identity_of task node in
  let finished := 0 <? nt_EndTime task in
  {| th_ClusterID := cluster; th_UserID := SystemUserID; th_Upid := nt_UPID task;
     th_Description := describeTask m resourceID name id;
     th_Status := if finished then (classifyTaskExit (nt_Status task)).1 else "running";
     th_ExitStatus := if finished then (classifyTaskExit (nt_Status task)).2 else "";
     th_Node := node; th_TaskType := taskType; th_StartedAt := nt_StartTime task * second;
     th_FinishedAt := if finished then Some (nt_EndTime task * second) else None; th_Source := "proxmox" |}.

Definition guest_name (cluster : uuid) (task : NodeTask) : sprog string :=
  let '(taskType, id) := filed_as task in
  match (if upidAgrees task && isGuestTaskType taskType then parse_int32 id else None) with
  | None => Ret ""
  | Some vmid =>
      let! vm := sask (GetVMByClusterAndVmid cluster vmid) in
      Ret (default "" vm)
  end.

Definition ingestTask (cluster : uuid) (node : string) (task : NodeTask) (seen : list string) : sprog (option string) :=
  if skipTaskTypes (nt_Type task) then Ret None
  else if contains seen (nt_UPID task) then Ret None
  else
    let! name := guest_name cluster task in
    let row := external_row cluster node task name in
    let '(m, resourceID) := identity_of task node in
    let! e := sask (InsertExternalTaskHistory row) in
    match e with
    | Some e => Ret (Some ("insert external task_history: " +:+ e))
    | None =>
        let! e := sask (InsertAuditLog cluster (tm_ResourceType m) (SText resourceID) (tm_Action m) (Some (nt_UPID task))) in
        match e with
        | Some e => Ret (Some ("insert audit log: " +:+ e))
        | None =>
            do! sask (Publish cluster "task_created" "task" (SText (nt_UPID task)) (th_TaskType row)) in
            do! sask (Publish cluster "audit_entry" (tm_ResourceType m) (SText resourceID) (tm_Action m)) in
            Ret None
        end
    end.

(** What a pass has found so far. *)
Record pass := { ps_max : Z; ps_dedupFailed : bool; ps_fetchFailed : bool; ps_listed : list string; ps_offline : list string }.

Definition first_pass : pass :=
  {| ps_max := 0; ps_dedupFailed := false; ps_fetchFailed := false; ps_listed := []; ps_offline := [] |}.

Definition max_start (tasks : list NodeTask) (m : Z) : Z :=
  foldl (λ m t, if m <? nt_StartTime t then nt_StartTime t else m) m tasks.

(** The UPIDs of a list that are asked about. *)
Definition candidates (tasks : list NodeTask) : list string :=
  nt_UPID <$> filter (λ t, skipTaskTypes (nt_Type t) = false) tasks.

Definition taskListLimit : Z := 500.

Definition sync_node (cluster : uuid) (since : Z) (p : pass) (node : string * string) : sprog pass :=
  let! r := spve cluster (GetNodeTasks node.1 since taskListLimit) in
  match r with
  | Err _ => Ret {|
      ps_max := ps_max p; ps_dedupFailed := ps_dedupFailed p; ps_fetchFailed := true; ps_listed := ps_listed p;
      ps_offline := if bool_decide (node.2 = "offline") then ps_offline p ++ [node.1] else ps_offline p |}
  | Ok tasks =>
      let! seen := seenTaskUPIDs cluster (candidates tasks) in
      match seen with
      | Err _ => Ret {|
          ps_max := ps_max p; ps_dedupFailed := true; ps_fetchFailed := ps_fetchFailed p; ps_listed := ps_listed p;
          ps_offline := ps_offline p |}
      | Ok seen =>
          do! for_each tasks (λ t, do! ingestTask cluster node.1 t seen in Ret tt) in
          Ret {| ps_max := max_start tasks (ps_max p); ps_dedupFailed := ps_dedupFailed p;
                 ps_fetchFailed := ps_fetchFailed p; ps_listed := ps_listed p ++ [node.1]; ps_offline := ps_offline p |}
      end
  end.

Fixpoint sync_nodes (cluster : uuid) (since : Z) (nodes : list (string * string)) (p : pass) : sprog pass :=
  match nodes with
  | [] => Ret p
  | node :: nodes =>
      let! p := sync_node cluster since p node in
      sync_nodes cluster since nodes p
  end.

Definition sdnApplyLinkWindow : Z := 24 * 60 * minute.

Definition linkSDNApplyTasks (cluster : uuid) : sprog unit :=
  let! now := sask TimeNow in
  do! sask (LinkSDNApplyNodeTasks cluster (now - sdnApplyLinkWindow)) in
  Ret tt.

(** The high-water mark, a day ago where there is none. *)
Definition sync_since (cluster : uuid) : sprog Z :=
  let! since := sask (GetTaskSyncState cluster) in
  match since with
  | Some s => Ret s
  | None =>
      let! now := sask TimeNow in
      Ret ((now - 24 * 60 * minute) `div` second)
  end.

Definition syncTasks (cluster : uuid) : sprog (list string * list string) :=
  let! since := sync_since cluster in
  let! nodes := spve cluster GetNodes in
  match nodes with
  | Err _ => Ret ([], [])
  | Ok nodes =>
      let! p := sync_nodes cluster since nodes first_pass in
      do! linkSDNApplyTasks cluster in
      do! (if negb (ps_dedupFailed p) && negb (ps_fetchFailed p) && (since <? ps_max p)
           then do! sask (UpsertTaskSyncState cluster (ps_max p)) in Ret tt
           else Ret tt) in
      Ret (ps_listed p, ps_offline p)
  end.

(** ** A pass over the running tasks *)

Definition staleTaskGrace : Z := 24 * 60 * minute.
Definition vanishedExitStatus : string := "vanished".

Definition finalizeTask (cluster : uuid) (upid status exit : string) : sprog unit :=
  let! now := sask TimeNow in
  let! n := sask (ReconcileTaskHistory upid status exit now) in
  match n with
  | Err _ => Ret tt
  | Ok n => if 0 <? n then sask (Publish cluster "task_update" "task" (SText upid) status) else Ret tt
  end.

(** A task whose status could not be read. *)
Definition lost_task (cluster : uuid) (row : TaskHistory) : sprog unit :=
  let! now := sask TimeNow in
  if staleTaskGrace <? Sub now (th_StartedAt row) then finalizeTask cluster (th_Upid row) "failed" vanishedExitStatus
  else Ret tt.

Definition reconcile_row (cluster : uuid) (row : TaskHistory) : sprog unit :=
  let! member := Require_node cluster (th_Node row) in
  match member with
  | Some (true, _) => Ret tt
  | Some (false, _) => lost_task cluster row
  | None =>
      let! st := spve cluster (GetTaskStatus (th_Node row) (th_Upid row)) in
      match st with
      | Err _ => lost_task cluster row
      | Ok st =>
          if negb (bool_decide (tr_Status st = "stopped")) then Ret tt
          else
            let '(status, exit) := classifyTaskExit (tr_ExitStatus st) in
            finalizeTask cluster (th_Upid row) status exit
      end
  end.

Definition reconcileRunningTasks (cluster : uuid) : sprog unit :=
  let! rows := sask (ListRunningTaskHistoryByCluster cluster) in
  match rows with
  | Err _ => Ret tt
  | Ok rows => for_each rows (reconcile_row cluster)
  end.

Example clean_text : cleanTaskText ("a" +:+ String newline "" +:+ "—") = "a?—".
Proof. by vm_compute. Qed.

Example osd_task : mapTask "srvstart" "osd.12" "pve1" =
  Some ({| tm_ResourceType := "ceph_osd"; tm_Action := "osd_start"; tm_Fixed := ""; tm_OnNode := false;
           tm_Describe := "Start Ceph OSD"; tm_StripPrefix := ""; tm_Object := false; tm_IDPattern := None;
           tm_StorageID := false |}, "12").
Proof. by vm_compute. Qed.
