(* ===== verification/SchedRoutes.v ===== *)
(** * The routes of schedules and of the task history

    [api/handlers/schedules.go] and the writing routes of [api/handlers/tasks.go],
    each with the permission its declaration asks for first
    ([api/registry_schedules.go], [api/registry_tasks.go]). A uuid of a request that
    does not parse is [None]; the UPID of a path is taken as decoded, and the parameters
    of a schedule as what they decode to. What a route answers is its status and
    message; the rendering of a row is left out, and the event of a task that was filed
    names its UPID here, where the code names its row. *)

From S2P Require Import Prelude GoFloat GoStrings ProxmoxApi Effects DrsExecutor RbacEngine SchedDb SchedRun.
From S2P Require Import SchedCollect.

Local Open Scope Z_scope.

(** ** Names of snapshots *)

(** [^[A-Za-z][A-Za-z0-9_-]{1,39}$] *)
Definition snapshotNameRE (s : string) : bool :=
  match bytes_of s with
  | [] => false
  | c :: rest =>
      (in_range 65 90 c || in_range 97 122 c) && Nat.leb 1 (length rest) && Nat.leb (length rest) (SnapshotMaxNameLen - 1) &&
      forallb (λ c, is_alnum c || ascii_eqb c "_" || ascii_eqb c "-") rest
  end.

(** [ReservedSnapshotName] *)
Definition ReservedSnapshotName (kind : scheduledGuestFamily) (name : string) : bool :=
  match kind with
  | guestFamilyVM => bool_decide (name = "current") || EqualFold name "pending"
  | guestFamilyCT => bool_decide (name = "current") || bool_decide (name = "vzdump")
  end.

Definition ValidateSnapshotName (kind : scheduledGuestFamily) (name : string) : bool :=
  negb (bool_decide (name = "")) && negb (ReservedSnapshotName kind name) && snapshotNameRE name.

(** The zero time is the first second of the year 1. *)
Definition time_zero : Z := -62135596800 * second.

Definition ValidateSnapshotNamePrefix (kind : scheduledGuestFamily) (prefix : string) : option string :=
  if ValidateSnapshotName kind (TimestampedSnapshotName prefix time_zero) then None
  else Some ("invalid input: snap_name is a prefix, and each run adds -YYYYMMDD-HHMMSS to it, so it must " +:+
             "start with a letter, contain only letters, digits, '-' and '_' (no spaces), and be at most " +:+
             Itoa (Z.of_nat SnapshotNamePrefixMaxLen) +:+ " characters").

(** [validateSnapshotScheduleParams] *)
Definition validateSnapshotScheduleParams (action resourceType : string) (params : result string snapshotParams) :
    option reply :=
  if negb (bool_decide (action = "snapshot")) then None
  else match scheduledResourceTypes resourceType with
       | None => None
       | Some kind =>
           match params with
           | Err _ => Some (fiber_error 400 "Invalid params: snap_name must be a string")
           | Ok sp =>
               if bool_decide (sp_SnapName sp = "") then None
               else fiber_error 400 <$> ValidateSnapshotNamePrefix kind (sp_SnapName sp)
           end
       end.

(** ** Schedules *)

Record ScheduleRequest := {
  sq_cluster_id : option uuid; sq_id : option uuid; sq_resource_type : string; sq_resource_id : string; sq_node : string;
  sq_action : string; sq_schedule : string; sq_params : result string snapshotParams; sq_enabled : bool }.

Definition bad_id : reply := fiber_error 400 "Invalid ID".
Definition done_reply : reply := fiber_error 200 "ok".
Definition not_found : reply := fiber_error 404 "Schedule not found".

(** The declared permission, before the handler. *)
Definition declared (action resource : string) (cluster : option uuid) (k : uuid → sprog reply) : sprog reply :=
  match cluster with
  | None => Ret bad_id
  | Some c =>
      let! err := sask (RequirePerm action resource (Some c)) in
      match err with Some e => Ret e | None => k c end
  end.

(** The check of a declared node parameter. *)
Definition requireNode (cluster : uuid) (node : string) : sprog (option reply) :=
  if bool_decide (node = "") then Ret None
  else
    let! member := sask (GetNodeByClusterAndName cluster node) in
    match member with
    | None => Ret (Some (fiber_error 500 "Failed to look up the node"))
    | Some false => Ret (Some (fiber_error 404 "Node not found in this cluster"))
    | Some true => Ret None
    end.

Section routes.
Context `{CL : CronLibrary} `{CFG : SchedConfig}.

Definition CreateSchedule (q : ScheduleRequest) : sprog reply :=
  declared "manage" "schedule" (sq_cluster_id q) (λ c,
    let! err := requireNode c (sq_node q) in
    match err with
    | Some e => Ret e
    | None =>
        let! now := sask TimeNow in
        match NextValidRun (sq_schedule q) now with
        | Err e => Ret (fiber_error 400 e)
        | Ok nextRun =>
            match validateSnapshotScheduleParams (sq_action q) (sq_resource_type q) (sq_params q) with
            | Some e => Ret e
            | None =>
                let! r := sask (InsertScheduledTask {|
                  is_ClusterID := c; is_ResourceType := sq_resource_type q; is_ResourceID := sq_resource_id q;
                  is_Node := sq_node q; is_Action := sq_action q; is_Schedule := sq_schedule q;
                  is_Params := sq_params q; is_Enabled := sq_enabled q; is_NextRunAt := Some nextRun |}) in
                match r with
                | Err _ => Ret (fiber_error 500 "Failed to create schedule")
                | Ok task =>
                    do! sask (AuditLogAs (Some c) "schedule" (SId (st_ID task)) "schedule_created") in
                    Ret (fiber_error 201 "created")
                end
            end
        end
    end).

Definition ListSchedules (cluster : option uuid) : sprog reply :=
  declared "view" "schedule" cluster (λ c,
    let! r := sask (ListScheduledTasksByCluster c) in
    match r with
    | Err _ => Ret (fiber_error 500 "Failed to list schedules")
    | Ok _ => Ret done_reply
    end).

(** [taskInCluster]; the error of the query says whether there is no such row. *)
Definition taskInCluster (id cluster : uuid) : sprog (result reply ScheduledTask) :=
  let! r := sask (GetScheduledTask id) in
  match r with
  | Err true => Ret (Err not_found)
  | Err false => Ret (Err (fiber_error 500 "Failed to get schedule"))
  | Ok task => if st_ClusterID task =? cluster then Ret (Ok task) else Ret (Err not_found)
  end.

Definition UpdateSchedule (q : ScheduleRequest) : sprog reply :=
  declared "manage" "schedule" (sq_cluster_id q) (λ c,
    match sq_id q with
    | None => Ret bad_id
    | Some id =>
        let! t := taskInCluster id c in
        match t with
        | Err e => Ret e
        | Ok task =>
            let! now := sask TimeNow in
            match NextValidRun (sq_schedule q) now with
            | Err e => Ret (fiber_error 400 e)
            | Ok _ =>
                match validateSnapshotScheduleParams (st_Action task) (st_ResourceType task) (sq_params q) with
                | Some e => Ret e
                | None =>
                    let! n := sask (UpdateScheduledTask {|
                      us_Schedule := sq_schedule q; us_Params := sq_params q; us_Enabled := sq_enabled q; us_ID := id;
                      us_ClusterID := c |}) in
                    match n with
                    | Err _ => Ret (fiber_error 500 "Failed to update schedule")
                    | Ok n =>
                        if n =? 0 then Ret not_found
                        else
                          do! sask (AuditLogAs (Some c) "schedule" (SId id) "schedule_updated") in
                          Ret done_reply
                    end
                end
            end
        end
    end).

Definition DeleteSchedule (cluster id : option uuid) : sprog reply :=
  declared "manage" "schedule" cluster (λ c,
    match id with
    | None => Ret bad_id
    | Some id =>
        let! t := taskInCluster id c in
        match t with
        | Err e => Ret e
        | Ok _ =>
            let! n := sask (DeleteScheduledTask id c) in
            match n with
            | Err _ => Ret (fiber_error 500 "Failed to delete schedule")
            | Ok n =>
                if n =? 0 then Ret not_found
                else
                  do! sask (AuditLogAs (Some c) "schedule" (SId id) "schedule_deleted") in
                  Ret done_reply
            end
        end
    end).

(** ** The task history *)

Record TaskRequest := {
  tq_user : option uuid; tq_cluster_id : option uuid; tq_upid : string; tq_node : string; tq_status : string;
  tq_exit_status : string; tq_has_finished_at : bool; tq_description : string }.

(** The part of a UPID after its first colon, up to the next. *)
Definition extractNodeFromUPID (upid : string) : string := default "" (Split colon upid !! 1%nat).

Definition or_running (status : string) : string := if bool_decide (status = "") then "running" else status.

Definition CreateTask (q : TaskRequest) : sprog reply :=
  match tq_user q with
  | None => Ret (fiber_error 401 "Invalid user")
  | Some user =>
      match tq_cluster_id q with
      | None => Ret bad_id
      | Some c =>
          let! err := sask (RequirePerm "manage" "task" (Some c)) in
          match err with
          | Some e => Ret e
          | None =>
              let upidNode := extractNodeFromUPID (tq_upid q) in
              if bool_decide (upidNode = "") then Ret (fiber_error 400 "The UPID names no node")
              else if negb (bool_decide (tq_node q = "")) && negb (bool_decide (upidNode = tq_node q))
              then Ret (fiber_error 400 "node does not match the node the UPID names")
              else
                let! err := requireNode c upidNode in
                match err with
                | Some e => Ret e
                | None =>
                    if negb (bool_decide (or_running (tq_status q) = "running"))
                    then Ret (fiber_error 400 "A task is recorded as running; how it ends is the collector's")
                    else
                      let! reported := sask (ReadTask c upidNode (tq_upid q)) in
                      match reported with
                      | Err e => Ret e
                      | Ok reported =>
                          let! onRecord := sask (TaskUPIDOnRecord (tq_upid q)) in
                          match onRecord with
                          | Err _ => Ret (fiber_error 500 "Failed to create task record")
                          | Ok true => Ret (fiber_error 409 "The task is already on record")
                          | Ok false =>
                              let! r := sask (InsertTaskHistory c user (tq_upid q) "" (or_running (tq_status q)) upidNode
                                                (tr_Type reported)) in
                              match r with
                              | Err true => Ret (fiber_error 409 "The task is already on record")
                              | Err false => Ret (fiber_error 500 "Failed to create task record")
                              | Ok _ =>
                                  do! sask (AuditLogAs (Some c) "task" (SText (tq_upid q)) "task_recorded") in
                                  do! sask (Publish c "task_created" "task" (SText (tq_upid q)) "create") in
                                  Ret (fiber_error 201 "created")
                              end
                          end
                      end
                end
          end
      end
  end.

Definition UpdateTask (q : TaskRequest) : sprog reply :=
  let! t := sask (GetTaskByUpid (tq_upid q)) in
  match t with
  | None => Ret (fiber_error 404 "Task not found")
  | Some task =>
      let! err := sask (RequirePerm "manage" "task" (Some (th_ClusterID task))) in
      match err with
      | Some e => Ret e
      | None =>
          if negb (is_running task) || bool_decide (th_Source task = "proxmox")
          then Ret (fiber_error 409 "Only a running task that Nexara recorded can be updated")
          else if negb (bool_decide (or_running (tq_status q) = "running")) || tq_has_finished_at q
          then Ret (fiber_error 400 "A task stays running here; how it ends is the collector's")
          else
            let! n := sask (UpdateTaskHistory (tq_upid q) (or_running (tq_status q)) (tq_exit_status q)) in
            match n with
            | Err _ => Ret (fiber_error 500 "Failed to update task")
            | Ok n =>
                if n =? 0 then Ret (fiber_error 409 "The task finished before it could be updated")
                else
                  do! sask (SystemEvent "task_update" (or_running (tq_status q))) in
                  Ret done_reply
            end
      end
  end.

Definition ClearCompleted : sprog reply :=
  let! err := sask (RequirePerm "manage" "task" None) in
  match err with
  | Some e => Ret e
  | None =>
      let! now := sask TimeNow in
      let! e := sask (DeleteCompletedTasks (now - sc_retention)) in
      match e with
      | Some _ => Ret (fiber_error 500 "Failed to clear tasks")
      | None =>
          do! sask (AuditLogAs None "task" (SText "all") "clear_completed") in
          do! sask (SystemEvent "task_update" "clear_completed") in
          Ret done_reply
      end
  end.
End routes.
