(* ===== verification/SchedHistory.v ===== *)
(** * Histories of scheduled tasks

    The schedulers, the collector, the routes and the pruning, any number at a time,
    over the tables ([step]): every call is one statement, and what is asked and
    answered is on the log, newest first, with its thread and the time of the
    database. A statement that is answered with an error may have been made. The
    times of the programs are answers like any other: their clocks may be wrong.

    - [claims_exclusive]: the claim keeps a schedule from being run twice within ten
      minutes, whatever schedulers overlap, unless a run was recorded in between.

    Several statements of the source write at once in one transaction of their own;
    none spans more than one statement. The id of a new row was never in use. The
    removal of a cluster is left out. *)

From S2P Require Import Prelude GoFloat GoStrings ProxmoxApi Effects Logs DrsExecutor RbacEngine SchedDb SchedRun.
From S2P Require Import SchedCollect SchedRoutes.

Local Open Scope Z_scope.

(** ** The system *)

Record SDb := {
  d_sched : schedules; d_used : gset uuid; d_hist : history; d_marks : gmap uuid Z; d_audit : gset (uuid * string);
  d_jobs : job_upids }.

Record sentry := Sen { se_thread : nat; se_time : Z; se_event : event SOp }.

Record SSys := { s_db : SDb; s_now : Z; s_log : list sentry }.

Definition set_sched (f : schedules → schedules) (d : SDb) : SDb :=
  {| d_sched := f (d_sched d); d_used := d_used d; d_hist := d_hist d; d_marks := d_marks d; d_audit := d_audit d;
     d_jobs := d_jobs d |}.

Definition set_hist (f : history → history) (d : SDb) : SDb :=
  {| d_sched := d_sched d; d_used := d_used d; d_hist := f (d_hist d); d_marks := d_marks d; d_audit := d_audit d;
     d_jobs := d_jobs d |}.

Definition add_schedule (id : uuid) (r : ScheduledTask) (d : SDb) : SDb :=
  {| d_sched := <[id := r]> (d_sched d); d_used := d_used d ∪ {[id]}; d_hist := d_hist d; d_marks := d_marks d;
     d_audit := d_audit d; d_jobs := d_jobs d |}.

Definition add_audit (cluster : uuid) (upid : option string) (d : SDb) : SDb :=
  match upid with
  | None => d
  | Some u => {| d_sched := d_sched d; d_used := d_used d; d_hist := d_hist d; d_marks := d_marks d;
                 d_audit := d_audit d ∪ {[(cluster, u)]}; d_jobs := d_jobs d |}
  end.

Definition set_mark (cluster : uuid) (m : Z) (d : SDb) : SDb :=
  {| d_sched := d_sched d; d_used := d_used d; d_hist := d_hist d; d_marks := <[cluster := m]> (d_marks d);
     d_audit := d_audit d; d_jobs := d_jobs d |}.

Definition set_upid (job : uuid) (upid : string) (d : SDb) : SDb :=
  {| d_sched := d_sched d; d_used := d_used d; d_hist := d_hist d; d_marks := d_marks d; d_audit := d_audit d;
     d_jobs := alter (λ j, {| ju_Type := ju_Type j; ju_Upid := upid |}) job (d_jobs d) |}.

(** The rows a settling returns. *)
Definition settled_row (su fa di : string) (h : history) (r : ScheduledTask) : option SettledRow :=
  match finished_run di h r with
  | None => None
  | Some _ =>
      let r := settle su fa di h r in
      Some {| sr_ID := st_ID r; sr_ClusterID := st_ClusterID r; sr_LastStatus := st_LastStatus r;
              sr_LastError := st_LastError r |}
  end.

Definition settled_rows (su fa di : string) (d : SDb) : list SettledRow :=
  omap (λ kv : uuid * ScheduledTask, settled_row su fa di (d_hist d) kv.2) (map_to_list (d_sched d)).

(** A statement [f] that was answered with [x]. *)
Definition written (f : SDb → SDb) (d : SDb) (x : option string) (d' : SDb) : Prop :=
  d' = f d ∨ (x ≠ None ∧ d' = d).

(** One that returns how many rows it changed. *)
Definition counted (f : SDb → SDb) (n : Z) (d : SDb) (x : result string Z) (d' : SDb) : Prop :=
  match x with Ok m => m = n ∧ d' = f d | Err _ => d' = f d ∨ d' = d end.

Definition claim_answer (now guard stale : Z) (d : SDb) (x : result string (list ScheduledTask)) (d' : SDb) : Prop :=
  ∃ ids, NoDup ids ∧ (∀ id, id ∈ ids → ∃ r, d_sched d !! id = Some r ∧ due now stale r = true) ∧
  match x with
  | Ok rows => d' = set_sched (claimDueTasks now guard ids) d ∧
      Forall2 (λ id r', ∃ r, d_sched d !! id = Some r ∧ r' = claimed now guard r) ids rows
  | Err _ => d' = d ∨ d' = set_sched (claimDueTasks now guard ids) d
  end.

Definition task_rows (h : history) (upid : string) : Z :=
  match h !! upid with Some r => if is_running r then 1 else 0 | None => 0 end.

Definition own_rows (h : history) (upid : string) : Z :=
  match h !! upid with
  | Some r => if is_running r && negb (bool_decide (th_Source r = "proxmox")) then 1 else 0
  | None => 0
  end.

(** How the outside may answer at a time, with the tables it leaves. *)
Definition may_answer {X} (e : SOp X) (now : Z) (d : SDb) : X → SDb → Prop :=
  match e in SOp X return X → SDb → Prop with
  | ReconcileDispatchedScheduledTasks su fa di => λ x d',
      let f := set_sched (reconcileDispatchedScheduledTasks su fa di (d_hist d)) in
      match x with
      | Ok rows => d' = f d ∧ rows ≡ₚ settled_rows su fa di d
      | Err _ => d' = f d ∨ d' = d
      end
  | ClaimDueTasks guard stale => claim_answer now guard stale d
  | UpdateTaskLastRun a => written (set_sched (updateTaskLastRun a)) d
  | DisableScheduledTaskForBadSchedule a => written (set_sched (disableScheduledTaskForBadSchedule now a)) d
  | InsertScheduledTask a => λ x d',
      match x with
      | Ok r => ∃ id, (id ∉ d_used d) ∧ r = insertScheduledTask id a ∧ d' = add_schedule id r d
      | Err _ => d' = d ∨ ∃ id, (id ∉ d_used d) ∧ d' = add_schedule id (insertScheduledTask id a) d
      end
  | GetScheduledTask id => λ x d', d' = d ∧
      match x with
      | Ok r => d_sched d !! id = Some r
      | Err none => none = true → d_sched d !! id = None
      end
  | ListScheduledTasksByCluster c => λ x d', d' = d ∧
      ∀ l, x = Ok l → Forall (λ r, in_cluster c r = true ∧ ∃ id, d_sched d !! id = Some r) l
  | UpdateScheduledTask a =>
      counted (set_sched (updateScheduledTask a)) (rows_affected (us_ID a) (us_ClusterID a) (d_sched d)) d
  | DeleteScheduledTask id c => counted (set_sched (deleteScheduledTask id c)) (rows_affected id c (d_sched d)) d
  | InsertTaskHistory c u upid desc status node ty => λ x d',
      match insertTaskHistory now c u upid desc status node ty (d_hist d) with
      | None => d' = d ∧ (x = Err true ∨ x = Err false)
      | Some h => (x = Ok tt ∧ d' = set_hist (λ _, h) d) ∨ (x = Err false ∧ (d' = d ∨ d' = set_hist (λ _, h) d))
      end
  | InsertExternalTaskHistory row => written (set_hist (insertExternalTaskHistory row)) d
  | ListExistingTaskHistoryUPIDs upids => λ x d', d' = d ∧
      ∀ l, x = Ok l → ∀ u, u ∈ l ↔ u ∈ upids ∧ is_Some (d_hist d !! u)
  | ListExistingAuditLogUPIDs c upids => λ x d', d' = d ∧ ∀ l, x = Ok l → ∀ u, u ∈ l ↔ u ∈ upids ∧ (c, u) ∈ d_audit d
  | ListCrossClusterMigrationUPIDs upids => λ x d', d' = d ∧
      ∀ l, x = Ok l → ∀ u, u ∈ l ↔ u ∈ upids ∧ cross_cluster (d_jobs d) u = true
  | ListRunningTaskHistoryByCluster c => λ x d', d' = d ∧
      ∀ l, x = Ok l → ∀ r, r ∈ l ↔ d_hist d !! th_Upid r = Some r ∧ followed (d_jobs d) c r = true
  | ReconcileTaskHistory upid status exit finished =>
      counted (set_hist (reconcileTaskHistory upid status exit finished)) (task_rows (d_hist d) upid) d
  | GetTaskByUpid upid => λ x d', d' = d ∧ ∀ r, x = Some r → d_hist d !! upid = Some r
  | UpdateTaskHistory upid status exit =>
      counted (set_hist (updateTaskHistory upid status exit None)) (own_rows (d_hist d) upid) d
  | DeleteCompletedTasks cutoff => written (set_hist (deleteCompletedTasks cutoff)) d
  | GetTaskSyncState c => λ x d', d' = d ∧ ∀ m, x = Some m → d_marks d !! c = Some m
  | UpsertTaskSyncState c m => written (set_mark c m) d
  | InsertAuditLog c _ _ _ upid => written (add_audit c upid) d
  | SetJobUpid job upid => written (set_upid job upid) d
  | _ => λ _ d', d' = d
  end.

Definition step (i : nat) (X : Type) (e : SOp X) (s : SSys) (x : X) (s' : SSys) : Prop :=
  ∃ now d, s_now s ≤ now ∧ may_answer e now (s_db s) x d ∧
    s' = {| s_db := d; s_now := now; s_log := Sen i now (Ev e x) :: s_log s |}.

Lemma sched_log i X (e : SOp X) s x s' : step i X e s x s' → s_log s' = Sen i (s_now s') (Ev e x) :: s_log s.
Proof. by intros (now & d & _ & _ & ->). Qed.

(** ** What a log says *)

(** The rows a claim was answered with. *)
Definition event_rows (ev : event SOp) : list ScheduledTask :=
  match ev with
  | @Ev _ X op x =>
      match op in SOp X return X → list ScheduledTask with
      | ClaimDueTasks _ _ => λ x, match x with Ok rows => rows | Err _ => [] end
      | _ => λ _, []
      end x
  end.
Definition claim_rows (e : sentry) : list ScheduledTask := event_rows (se_event e).

(** The schedule whose run was recorded as over. *)
Definition event_ended (ev : event SOp) : option uuid :=
  match ev with
  | @Ev _ _ op _ =>
      match op with
      | UpdateTaskLastRun a => Some (rr_ID a)
      | DisableScheduledTaskForBadSchedule a => Some (pk_ID a)
      | _ => None
      end
  end.
Definition ended_run (e : sentry) : option uuid := event_ended (se_event e).

Definition claims (id : uuid) (e : sentry) : Prop := id ∈ st_ID <$> claim_rows e.

#[export] Instance claims_dec id e : Decision (claims id e).
Proof. unfold claims. apply _. Defined.

(** The time of the last claim of [id] after which no run of it was recorded. *)
Fixpoint open_claim (l : list sentry) (id : uuid) : option Z :=
  match l with
  | [] => None
  | e :: l =>
      if bool_decide (ended_run e = Some id) then None
      else if bool_decide (claims id e) then Some (se_time e)
      else open_claim l id
  end.

(** ** The rows *)

(** What a schedule is about never changes. *)
Definition same_task (r r' : ScheduledTask) : Prop :=
  st_ID r = st_ID r' ∧ st_ClusterID r = st_ClusterID r' ∧ st_ResourceType r = st_ResourceType r' ∧
  st_ResourceID r = st_ResourceID r' ∧ st_Node r = st_Node r' ∧ st_Action r = st_Action r'.

#[export] Instance same_task_equiv : Equivalence same_task.
Proof. split; [by intros r|by intros r r' (? & ? & ? & ? & ? & ?)|]. intros r r' r'' (?&?&?&?&?&?) (?&?&?&?&?&?). repeat split; congruence. Qed.

Lemma set_run_same e a n st er u r : same_task (set_run e a n st er u r) r.
Proof. done. Qed.

Lemma claimed_lookup now guard ids d id r :
  NoDup ids → claimDueTasks now guard ids d !! id = Some r →
  (id ∈ ids ∧ ∃ r0, d !! id = Some r0 ∧ r = claimed now guard r0) ∨ ((id ∉ ids) ∧ d !! id = Some r).
Proof.
  intros Hnd. revert r. induction ids as [|a ids IH]; intros r; simpl.
  { intros Hl. right. split; [apply not_elem_of_nil|done]. }
  apply NoDup_cons in Hnd as [Ha Hnd]. destruct (decide (a = id)) as [->|Hne].
  - rewrite lookup_alter_eq. intros (r1 & H1 & ->)%fmap_Some. left. split; [left|].
    destruct (IH Hnd r1 H1) as [[Hin _]|[_ Hl]]; [done|]. by exists r1.
  - rewrite lookup_alter_ne by done. intros Hl. destruct (IH Hnd r Hl) as [[Hin Hr]|[Hn Hr]].
    + left. split; [by right|done].
    + right. split; [|done]. by intros [->|?]%elem_of_cons.
Qed.

Lemma alter_lookup (f : ScheduledTask → ScheduledTask) k (d : schedules) id r :
  alter f k d !! id = Some r →
  (id = k ∧ ∃ r0, d !! id = Some r0 ∧ r = f r0) ∨ (id ≠ k ∧ d !! id = Some r).
Proof.
  destruct (decide (k = id)) as [->|Hne].
  - rewrite lookup_alter_eq. intros (r0 & H0 & ->)%fmap_Some. left. by eauto.
  - rewrite lookup_alter_ne by done. right. by split.
Qed.

(** What a call may do to a row. *)
Definition row_step {X} (e : SOp X) (now : Z) (h : history) (id : uuid) (r r' : ScheduledTask) : Prop :=
  r' = r ∨
  match e with
  | ClaimDueTasks guard stale => due now stale r = true ∧ r' = claimed now guard r
  | UpdateTaskLastRun a => rr_ID a = id ∧ r' = recorded a r
  | DisableScheduledTaskForBadSchedule a => pk_ID a = id ∧ r' = parked now a r
  | ReconcileDispatchedScheduledTasks su fa di => r' = settle su fa di h r
  | UpdateScheduledTask a => us_ID a = id ∧ r' = edited a r
  | _ => False
  end.

(** The calls that may write schedules. *)
Definition writes_schedules {X} (e : SOp X) : bool :=
  match e with
  | ReconcileDispatchedScheduledTasks _ _ _ | ClaimDueTasks _ _ | UpdateTaskLastRun _
  | DisableScheduledTaskForBadSchedule _ | InsertScheduledTask _ | UpdateScheduledTask _ | DeleteScheduledTask _ _ => true
  | _ => false
  end.

Lemma written_sched f d x d' : (∀ d, d_sched (f d) = d_sched d ∧ d_used (f d) = d_used d) →
  written f d x d' → d_sched d' = d_sched d ∧ d_used d' = d_used d.
Proof. intros Hf [->|[_ ->]]; auto. Qed.

Lemma counted_sched f n d x d' : (∀ d, d_sched (f d) = d_sched d ∧ d_used (f d) = d_used d) →
  counted f n d x d' → d_sched d' = d_sched d ∧ d_used d' = d_used d.
Proof. intros Hf. destruct x; [intros [_ ->]|intros [->| ->]]; auto. Qed.

Lemma sched_same {X} (e : SOp X) now d x d' :
  may_answer e now d x d' → writes_schedules e = false → d_sched d' = d_sched d ∧ d_used d' = d_used d.
Proof.
  intros Ha He. destruct e; try discriminate He; simpl in Ha;
    first [by subst d'|by destruct Ha as [-> _]|by eapply written_sched; [|exact Ha]|by eapply counted_sched; [|exact Ha]|idtac].
  - unfold insertTaskHistory in Ha. destruct (d_hist d !! upid); naive_solver.
  - eapply written_sched; [|exact Ha]. intros d0. by destruct upid.
Qed.

(** A row after a call: an old one, or a new one under an id that was not in use. *)
Lemma row_after {X} (e : SOp X) now d x d' id r' :
  may_answer e now d x d' → d_sched d' !! id = Some r' →
  (∃ r, d_sched d !! id = Some r ∧ row_step e now (d_hist d) id r r') ∨
  ((id ∉ d_used d) ∧ id ∈ d_used d' ∧ ∃ a, r' = insertScheduledTask id a).
Proof.
  assert (d_sched d !! id = Some r' → ∃ r, d_sched d !! id = Some r ∧ row_step e now (d_hist d) id r r') as Hsame.
  { intros Hl. exists r'. split; [done|by left]. }
  intros Ha Hl. destruct (writes_schedules e) eqn:He.
  2: { left. apply Hsame. destruct (sched_same e now d x d' Ha He) as [<- _]. done. }
  destruct e; try discriminate He; clear He; simpl in Ha.
  - assert (d' = set_sched (reconcileDispatchedScheduledTasks succeeded failed dispatched (d_hist d)) d ∨ d' = d)
      as [->| ->] by (destruct x; naive_solver); left; [|by apply Hsame].
    simpl in Hl. unfold reconcileDispatchedScheduledTasks in Hl. apply lookup_fmap_Some in Hl as (r & <- & Hr). exists r. split; [done|by right].
  - destruct Ha as (ids & Hnd & Hdue & Ha). left.
    assert (d' = set_sched (claimDueTasks now guard ids) d ∨ d' = d) as [->| ->] by (destruct x; naive_solver); [|by apply Hsame].
    simpl in Hl. destruct (claimed_lookup now guard ids _ id r' Hnd Hl) as [[Hin (r & Hr & ->)]|[_ Hr]]; [|by apply Hsame].
    exists r. split; [done|]. right. split; [|done]. destruct (Hdue id Hin) as (r1 & ? & ?). by simplify_eq.
  - left. destruct Ha as [->|[_ ->]]; [|by apply Hsame]. simpl in Hl.
    apply alter_lookup in Hl as [(-> & r & Hr & ->)|[_ Hr]]; [|by apply Hsame]. exists r. split; [done|by right].
  - left. destruct Ha as [->|[_ ->]]; [|by apply Hsame]. simpl in Hl.
    apply alter_lookup in Hl as [(-> & r & Hr & ->)|[_ Hr]]; [|by apply Hsame]. exists r. split; [done|by right].
  - assert (d' = d ∨ ∃ id0, (id0 ∉ d_used d) ∧ d' = add_schedule id0 (insertScheduledTask id0 a) d)
      as [->|(id0 & Hid & ->)] by (destruct x; naive_solver); [left; by apply Hsame|].
    simpl in Hl. apply lookup_insert_Some in Hl as [[<- <-]|[_ Hl]]; [right|left; by apply Hsame].
    split_and!; [done|simpl; set_solver|by eauto].
  - left. assert (d' = set_sched (updateScheduledTask a) d ∨ d' = d) as [->| ->] by (destruct x; naive_solver); [|by apply Hsame].
    simpl in Hl. apply alter_lookup in Hl as [(-> & r & Hr & ->)|[_ Hr]]; [|by apply Hsame].
    exists r. split; [done|]. destruct (in_cluster _ r); [by right|by left].
  - left. apply Hsame. assert (d' = set_sched (deleteScheduledTask id0 cluster) d ∨ d' = d) as [->| ->] by (destruct x; naive_solver);
      [|done].
    simpl in Hl. unfold deleteScheduledTask in Hl. repeat case_match; [|done..]. by apply lookup_delete_Some in Hl as [_ ?].
Qed.
