(* ===== verification/SchedSafety.v ===== *)
(** * What holds of scheduled tasks at any time

    What a call owes the log so far ([pre]), the invariant ([SInv]), and that every
    program of the scheduler, the collector and the routes keeps its part
    ([safe_entry]), whatever runs at the same time.

    - [claims_exclusive]: the claim keeps a schedule from being started twice within
      ten minutes, whatever schedulers overlap, unless a run was recorded in between.
    - [success_is_reported]: a schedule says that its run succeeded only where a
      scheduler had claimed it, Proxmox had answered the request of that very schedule
      with a task, and had reported that task to have ended well. *)

From S2P Require Import Prelude GoFloat GoStrings ProxmoxApi Effects Logs DrsExecutor RbacEngine SchedDb SchedRun.
From S2P Require Import SchedCollect SchedRoutes SchedHistory.

Local Open Scope Z_scope.

(** ** What the log says of a run *)

(** What a schedule asks of Proxmox. *)
Record guest_run := { gr_cluster : uuid; gr_node : string; gr_vmid : Z; gr_family : scheduledGuestFamily; gr_action : string }.

Definition run_of (r : ScheduledTask) : option guest_run :=
  family ← scheduledResourceTypes (st_ResourceType r);
  if bool_decide (st_Action r ∈ ["snapshot"; "reboot"]) then
    Some {| gr_cluster := st_ClusterID r; gr_node := st_Node r; gr_vmid := mustAtoi (st_ResourceID r); gr_family := family;
            gr_action := st_Action r |}
  else None.

(** What a request asks for, with the task it was answered with. *)
Definition asked_run {A} (cluster : uuid) (q : srequest A) : result string A → option (guest_run * result string string) :=
  let run node vmid family action (x : result string string) :=
    Some ({| gr_cluster := cluster; gr_node := node; gr_vmid := vmid; gr_family := family; gr_action := action |}, x) in
  match q with
  | CreateVMSnapshot node vmid _ => run node vmid guestFamilyVM "snapshot"
  | CreateCTSnapshot node vmid _ => run node vmid guestFamilyCT "snapshot"
  | RebootVM node vmid => run node vmid guestFamilyVM "reboot"
  | RebootCT node vmid => run node vmid guestFamilyCT "reboot"
  | _ => λ _, None
  end.

Definition requested (ev : event SOp) : option (guest_run * result string string) :=
  match ev with
  | @Ev _ X op x =>
      match op in SOp X return X → option (guest_run * result string string) with
      | SPve cluster q => asked_run cluster q
      | _ => λ _, None
      end x
  end.

(** Whether an answer of Proxmox says that the task [u] ended well. *)
Definition report_of {A} (q : srequest A) (u : string) : result string A → bool :=
  match q with
  | GetTaskStatus _ upid => λ x,
      match x with
      | Ok st => bool_decide (upid = u) && bool_decide (tr_Status st = "stopped") && TaskSucceeded (tr_ExitStatus st)
      | Err _ => false
      end
  | GetNodeTasks _ _ _ => λ x,
      match x with
      | Ok tasks => existsb (λ t, bool_decide (nt_UPID t = u) && (0 <? nt_EndTime t) && TaskSucceeded (nt_Status t)) tasks
      | Err _ => false
      end
  | _ => λ _, false
  end.

Definition reports_success (u : string) (e : sentry) : bool :=
  match se_event e with
  | @Ev _ X op x =>
      match op in SOp X return X → bool with
      | SPve _ q => report_of q u
      | _ => λ _, false
      end x
  end.

Definition ended_well (u : string) (l : list sentry) : Prop := ∃ e, e ∈ l ∧ reports_success u e = true.

(** Thread [i] has claimed the row [r]. *)
Definition claimed_by (i : nat) (r : ScheduledTask) (l : list sentry) : Prop :=
  ∃ e, e ∈ l ∧ se_thread e = i ∧ r ∈ claim_rows e.

(** After that, Proxmox answered its request for what [r] asks with the task [u]. *)
Definition ran (i : nat) (r : ScheduledTask) (u : string) (l : list sentry) : Prop :=
  ∃ later e earlier g, l = later ++ e :: earlier ∧ se_thread e = i ∧ run_of r = Some g ∧
    requested (se_event e) = Some (g, Ok u) ∧ claimed_by i r earlier.

(** A run of this very schedule was given the task [u]. *)
Definition started (r : ScheduledTask) (u : string) (l : list sentry) : Prop :=
  ∃ i r0, same_task r0 r ∧ ran i r0 u l.

(** ** What a call owes *)

(** A record of a run may say that a task was started, where it was; that it ended
    well is not for the record to say. *)
Definition may_record (i : nat) (id : uuid) (status upid : option string) (l : list sentry) : Prop :=
  status ≠ Some runStatusSucceeded ∧
  (status = Some runStatusDispatched → ∃ r u, st_ID r = id ∧ upid = Some u ∧ ran i r u l).

Definition pre (i : nat) (X : Type) (e : SOp X) (s : SSys) : Prop :=
  match e with
  | ReconcileDispatchedScheduledTasks su fa di =>
      su = runStatusSucceeded ∧ fa = runStatusFailed ∧ di = runStatusDispatched
  | ClaimDueTasks guard stale => guard = taskClaimGuardSeconds * second
  | UpdateTaskLastRun a => may_record i (rr_ID a) (Some (rr_LastStatus a)) (rr_LastUpid a) (s_log s)
  | DisableScheduledTaskForBadSchedule a => may_record i (pk_ID a) (pk_LastStatus a) (pk_LastUpid a) (s_log s)
  | InsertTaskHistory _ _ _ _ status _ _ => status ≠ "completed"
  | UpdateTaskHistory _ status _ => status ≠ "completed"
  | InsertExternalTaskHistory row => th_Status row = "completed" → ended_well (th_Upid row) (s_log s)
  | ReconcileTaskHistory upid status _ _ => status = "completed" → ended_well upid (s_log s)
  | _ => True
  end.

(** ** The invariant *)

(** A row of the schedules. *)
Definition row_ok (l : list sentry) (r : ScheduledTask) : Prop :=
  (st_LastStatus r = Some runStatusDispatched → ∃ u, st_LastUpid r = Some u ∧ started r u l) ∧
  (st_LastStatus r = Some runStatusSucceeded → ∃ u, st_LastUpid r = Some u ∧ started r u l ∧ ended_well u l).

Definition rows_ok (s : SSys) : Prop :=
  ∀ id r, d_sched (s_db s) !! id = Some r → st_ID r = id ∧ id ∈ d_used (s_db s) ∧ row_ok (s_log s) r.

(** A row of the history. *)
Definition tasks_ok (s : SSys) : Prop :=
  ∀ u th, d_hist (s_db s) !! u = Some th → th_Status th = "completed" → ended_well u (s_log s).

(** A row that was claimed is still about the same, or gone for good. *)
Definition claims_known (s : SSys) : Prop :=
  ∀ e r0, e ∈ s_log s → r0 ∈ claim_rows e →
    st_ID r0 ∈ d_used (s_db s) ∧ ∀ r, d_sched (s_db s) !! st_ID r0 = Some r → same_task r0 r.

(** A claim after which no run was recorded holds the next run back. *)
Definition held_back (s : SSys) : Prop :=
  ∀ id t0 r, open_claim (s_log s) id = Some t0 → d_sched (s_db s) !! id = Some r →
    ∃ t, st_NextRunAt r = Some t ∧ t0 + taskClaimGuardSeconds * second ≤ t.

Definition apart_from (e : sentry) (l : list sentry) : Prop :=
  ∀ id t0, claims id e → open_claim l id = Some t0 → t0 + taskClaimGuardSeconds * second ≤ se_time e.

(** The log, by time. *)
Definition in_time (e : sentry) (l : list sentry) : Prop := Forall (λ e0, se_time e0 ≤ se_time e) l.

Definition SInv (s : SSys) : Prop :=
  rows_ok s ∧ tasks_ok s ∧ claims_known s ∧ held_back s ∧ ForallTail apart_from (s_log s) ∧
  ForallTail in_time (s_log s) ∧ Forall (λ e, se_time e ≤ s_now s) (s_log s).

(** ** More entries *)

Lemma grows_ended_well u : grows (ended_well u).
Proof. apply (grows_elem (λ e, reports_success u e = true)). Qed.

Lemma grows_claimed_by i r : grows (claimed_by i r).
Proof. apply (grows_elem (λ e, se_thread e = i ∧ r ∈ claim_rows e)). Qed.

Lemma grows_ran i r u : grows (ran i r u).
Proof. intros e l (la & e0 & lb & g & -> & H). by exists (e :: la), e0, lb, g. Qed.

Lemma grows_started r u : grows (started r u).
Proof. intros e l (i & r0 & ? & ?). exists i, r0. split; [done|by apply grows_ran]. Qed.

Lemma grows_row_ok r : grows (λ l, row_ok l r).
Proof.
  intros e l [Hd Hs]. split.
  - intros (u & ? & ?)%Hd. exists u. split; [done|by apply grows_started].
  - intros (u & ? & ? & ?)%Hs. exists u. split_and!; [done|by apply grows_started|by apply grows_ended_well].
Qed.
#[export] Hint Resolve grows_ended_well grows_claimed_by grows_ran grows_started grows_row_ok : nexara.

Lemma started_same r r' u l : same_task r r' → started r u l → started r' u l.
Proof. intros Hr (i & r0 & ? & ?). exists i, r0. split; [by etransitivity|done]. Qed.

Lemma row_ok_same r r' l :
  same_task r r' → st_LastStatus r' = st_LastStatus r → st_LastUpid r' = st_LastUpid r → row_ok l r → row_ok l r'.
Proof.
  intros Hr Hs Hu [H1 H2]. split; rewrite Hs, Hu.
  - intros (u & ? & ?)%H1. exists u. split; [done|by eapply started_same].
  - intros (u & ? & ? & ?)%H2. exists u. split_and!; [done|by eapply started_same|done].
Qed.

Lemma row_ok_other r l :
  st_LastStatus r ≠ Some runStatusDispatched → st_LastStatus r ≠ Some runStatusSucceeded → row_ok l r.
Proof. by split. Qed.

(** ** A call keeps the invariant *)

Lemma used_after {X} (e : SOp X) now d x d' : may_answer e now d x d' → d_used d ⊆ d_used d'.
Proof.
  intros Ha. destruct (writes_schedules e) eqn:He; [|by destruct (sched_same e now d x d' Ha He) as [_ ->]].
  destruct e; try discriminate He; simpl in Ha;
    try (by destruct Ha as [->|[_ ->]]); try (destruct x; naive_solver).
  - destruct Ha as (ids & _ & _ & Ha). destruct x; naive_solver.
  - destruct x as [r|]; [destruct Ha as (id & _ & _ & ->)|destruct Ha as [->|(id & _ & ->)]]; simpl; set_solver.
Qed.

(** What a call leaves of a row that was fine. *)
Lemma row_ok_step {X} i (e : SOp X) s now id r r' :
  pre i X e s → tasks_ok s → claims_known s → d_sched (s_db s) !! id = Some r → st_ID r = id →
  row_ok (s_log s) r → row_step e now (d_hist (s_db s)) id r r' → same_task r r' ∧ row_ok (s_log s) r'.
Proof.
  intros Hpre Ht Hk Hl Hid Hr [->|Hs]; [done|].
  assert (∀ status upid r', may_record i id status upid (s_log s) → same_task r r' → st_LastStatus r' = status →
            st_LastUpid r' = upid → row_ok (s_log s) r') as Hrec.
  { intros status upid r1 [Hn Hd] Hsame Hst Hu. split; intros Hst'; [|by rewrite Hst in Hst'].
    destruct Hd as (r0 & u & Hid0 & Hu0 & Hran); [congruence|]. exists u. split; [congruence|].
    exists i, r0. split; [|done]. transitivity r; [|done].
    destruct Hran as (la & e0 & lb & g & Hlog & _ & _ & _ & (e1 & He1 & _ & Hin)).
    destruct (Hk e1 r0) as [_ Hsame0]; [rewrite Hlog; set_solver|done|]. apply Hsame0. by rewrite Hid0. }
  destruct e; simpl in Hs, Hpre; try done.
  - destruct Hpre as (-> & -> & ->). subst r'. unfold settle, finished_run.
    case_bool_decide as Hdi; simpl; [|done]. destruct (st_LastUpid r) as [u|] eqn:Hu; simpl; [|done].
    destruct (d_hist (s_db s) !! u) as [th|] eqn:Hth; simpl; [|done].
    case_match eqn:Ht0; [|done]. assert (t = th) as -> by by case_match; simplify_eq. split; [done|].
    destruct Hr as [Hd _]. destruct (Hd Hdi) as (u0 & Hu0 & Hst). simplify_eq.
    destruct (bool_decide_reflect (th_Status th = "completed")) as [Hc|Hc]; [|by apply row_ok_other].
    split; [done|]. intros _. exists u. split_and!; [done|by eapply started_same|]. by eapply Ht.
  - destruct Hs as [_ ->]. split; [done|]. by apply row_ok_other.
  - destruct Hs as [<- ->]. split; [done|]. by eapply Hrec.
  - destruct Hs as [<- ->]. split; [done|]. by eapply Hrec.
  - destruct Hs as [_ ->]. split; [done|]. by apply (row_ok_same r).
Qed.

(** The calls that may write the history. *)
Definition writes_history {X} (e : SOp X) : bool :=
  match e with
  | InsertTaskHistory _ _ _ _ _ _ _ | InsertExternalTaskHistory _ | ReconcileTaskHistory _ _ _ _
  | UpdateTaskHistory _ _ _ | DeleteCompletedTasks _ => true
  | _ => false
  end.

Lemma hist_same {X} (e : SOp X) now d x d' :
  may_answer e now d x d' → writes_history e = false → d_hist d' = d_hist d.
Proof.
  intros Ha He. destruct e; try discriminate He; simpl in Ha;
    try (by subst d'); try (by destruct Ha as [-> _]); try (by destruct Ha as [->|[_ ->]]); try (by destruct x; naive_solver).
  - destruct Ha as (ids & _ & _ & Ha). destruct x; naive_solver.
  - destruct Ha as [->|[_ ->]]; [by destruct upid|done].
Qed.

(** A completed task after a call. *)
Lemma task_after {X} i (e : SOp X) s now x d' u th :
  pre i X e s → tasks_ok s → may_answer e now (s_db s) x d' → d_hist d' !! u = Some th → th_Status th = "completed" →
  ended_well u (s_log s).
Proof.
  intros Hpre Ht Ha Hu Hc. destruct (writes_history e) eqn:He.
  2: { rewrite (hist_same e now _ x d' Ha He) in Hu. by eapply Ht. }
  destruct e; try discriminate He; simpl in Ha, Hpre.
  - unfold insertTaskHistory in Ha. destruct (d_hist (s_db s) !! upid) eqn:Hd; [destruct Ha as [-> _]; by eapply Ht|].
    assert (d' = s_db s ∨ d_hist d' = <[upid := _]> (d_hist (s_db s))) as [->|Heq] by naive_solver; [by eapply Ht|].
    rewrite Heq in Hu. apply lookup_insert_Some in Hu as [[<- <-]|[_ Hu]]; [done|by eapply Ht].
  - destruct Ha as [->|[_ ->]]; [|by eapply Ht]. simpl in Hu. unfold insertExternalTaskHistory in Hu.
    case_match; [by eapply Ht|]. apply lookup_insert_Some in Hu as [[<- <-]|[_ Hu]]; [by apply Hpre|by eapply Ht].
  - assert (d' = set_hist (reconcileTaskHistory upid status exit finished) (s_db s) ∨ d' = s_db s) as [->| ->]
      by (destruct x; naive_solver); [|by eapply Ht].
    simpl in Hu. unfold reconcileTaskHistory, updateTaskHistory in Hu.
    apply lookup_alter_Some in Hu as [(<- & th0 & H0 & ->)|[_ Hu]]; [|by eapply Ht].
    destruct (is_running th0); [by apply Hpre|by eapply Ht].
  - assert (d' = set_hist (updateTaskHistory upid status exit None) (s_db s) ∨ d' = s_db s) as [->| ->]
      by (destruct x; naive_solver); [|by eapply Ht].
    simpl in Hu. unfold reconcileTaskHistory, updateTaskHistory in Hu.
    apply lookup_alter_Some in Hu as [(<- & th0 & H0 & ->)|[_ Hu]]; [|by eapply Ht].
    destruct (_ && _); [done|by eapply Ht].
  - destruct Ha as [->|[_ ->]]; [|by eapply Ht]. simpl in Hu. unfold deleteCompletedTasks in Hu.
    apply map_lookup_filter_Some in Hu as [Hu _]. by eapply Ht.
Qed.

(** The rows a claim is answered with are those it leaves. *)
Lemma claimed_rows_after i {X} (e : SOp X) now d x d' r :
  may_answer e now d x d' → r ∈ claim_rows (Sen i now (Ev e x)) →
  ∃ id r0 guard stale, d_sched d !! id = Some r0 ∧ due now stale r0 = true ∧ r = claimed now guard r0.
Proof.
  intros Ha Hr. unfold claim_rows, event_rows in Hr. simpl in Hr. destruct e; try (by apply not_elem_of_nil in Hr).
  destruct x as [rows|]; [|by apply not_elem_of_nil in Hr]. destruct Ha as (ids & _ & Hdue & _ & Hrows).
  apply list_elem_of_lookup in Hr as [k Hk]. destruct (Forall2_lookup_r _ _ _ _ _ Hrows Hk) as (id & Hid & r0 & H0 & ->).
  destruct (Hdue id) as (r1 & ? & ?); [by eapply list_elem_of_lookup_2|]. simplify_eq. by exists id, r0, guard, stale.
Qed.

(** What holds the next run of a schedule back is left by every call but a record. *)
Lemma held_step {X} i (e : SOp X) s now x id r r' t0 :
  pre i X e s → t0 ≤ now → ended_run (Sen i now (Ev e x)) ≠ Some id →
  (∃ t, st_NextRunAt r = Some t ∧ t0 + taskClaimGuardSeconds * second ≤ t) →
  row_step e now (d_hist (s_db s)) id r r' →
  ∃ t, st_NextRunAt r' = Some t ∧ t0 + taskClaimGuardSeconds * second ≤ t.
Proof.
  intros Hpre Ht0 He Hr [->|Hs]; [done|]. destruct e; simpl in Hs, Hpre; try done.
  - subst r'. unfold settle. by case_match.
  - destruct Hs as [_ ->]. subst guard. simpl. eexists. split; [done|]. lia.
  - destruct Hs as [<- _]. by destruct He.
  - destruct Hs as [<- _]. by destruct He.
  - by destruct Hs as [_ ->].
Qed.

Lemma open_claim_time l id t0 : open_claim l id = Some t0 → ∃ e, e ∈ l ∧ se_time e = t0 ∧ claims id e.
Proof.
  induction l as [|e l IH]; simpl; [done|]. repeat case_bool_decide; [done| |].
  - intros [= <-]. exists e. by split; [left|].
  - intros (e0 & ? & ?)%IH. exists e0. by split; [right|].
Qed.

Lemma step_now i X (e : SOp X) s x s' : step i X e s x s' → s_now s ≤ s_now s'.
Proof. by intros (now & d & ? & _ & ->). Qed.

Lemma step_row i X (e : SOp X) s x s' id r' :
  step i X e s x s' → pre i X e s → rows_ok s → tasks_ok s → claims_known s → d_sched (s_db s') !! id = Some r' →
  (∃ r, d_sched (s_db s) !! id = Some r ∧ row_step e (s_now s') (d_hist (s_db s)) id r r' ∧ same_task r r' ∧
        row_ok (s_log s) r') ∨
  ((id ∉ d_used (s_db s)) ∧ id ∈ d_used (s_db s') ∧ ∃ a, r' = insertScheduledTask id a).
Proof.
  intros (now & d & _ & Ha & ->) Hpre Hro Hta Hk Hl. simpl in *.
  destruct (row_after e now _ x d id r' Ha Hl) as [(r & Hr & Hs)|Hn]; [left|by right].
  destruct (Hro id r Hr) as (Hid & _ & Hok). destruct (row_ok_step i e s now id r r' Hpre Hta Hk Hr Hid Hok Hs) as [Hsame Hok'].
  by exists r.
Qed.

Lemma rows_ok_step i X (e : SOp X) s x s' :
  step i X e s x s' → pre i X e s → rows_ok s → tasks_ok s → claims_known s → rows_ok s'.
Proof.
  intros Hst Hpre Hro Hta Hk id r' Hl.
  destruct (step_row i X e s x s' id r' Hst Hpre Hro Hta Hk Hl) as [(r & Hr & _ & Hsame & Hok)|(_ & Hin & a & ->)].
  - destruct (Hro id r Hr) as (Hid & Hu & _). split_and!.
    + by destruct Hsame as [<- _].
    + destruct Hst as (now & d & _ & Ha & ->). by apply (used_after _ _ _ _ _ Ha).
    + rewrite (sched_log _ _ _ _ _ _ Hst). by apply grows_row_ok.
  - split_and!; [done|done|by apply row_ok_other].
Qed.

Lemma tasks_ok_step i X (e : SOp X) s x s' : step i X e s x s' → pre i X e s → tasks_ok s → tasks_ok s'.
Proof.
  intros Hst Hpre Hta u th Hu Hc. rewrite (sched_log _ _ _ _ _ _ Hst). apply grows_ended_well.
  destruct Hst as (now & d & _ & Ha & ->). by eapply task_after.
Qed.

Lemma claims_known_step i X (e : SOp X) s x s' :
  step i X e s x s' → pre i X e s → rows_ok s → tasks_ok s → claims_known s → claims_known s'.
Proof.
  intros Hst Hpre Hro Hta Hk e0 r0 He0 Hr0.
  assert (st_ID r0 ∈ d_used (s_db s) ∧ ∀ r, d_sched (s_db s) !! st_ID r0 = Some r → same_task r0 r) as [Hin Hsame].
  { rewrite (sched_log _ _ _ _ _ _ Hst) in He0. apply elem_of_cons in He0 as [->|He0]; [|by eapply Hk].
    destruct Hst as (now & d & _ & Ha & ->).
    destruct (claimed_rows_after i e now _ x d r0 Ha Hr0) as (id & r1 & guard & stale & H1 & _ & ->).
    destruct (Hro id r1 H1) as (Hid & Hu & _). simpl. rewrite Hid. split; [done|]. intros r Hr. by simplify_eq. }
  split; [destruct Hst as (now & d & _ & Ha & ->); by apply (used_after _ _ _ _ _ Ha)|].
  intros r Hr. destruct (step_row i X e s x s' _ r Hst Hpre Hro Hta Hk Hr) as [(r1 & H1 & _ & Hs & _)|(Hn & _)]; [|done].
  transitivity r1; [by apply Hsame|done].
Qed.

Lemma claims_claimed i {X} (e : SOp X) s now x d id :
  may_answer e now (s_db s) x d → pre i X e s → rows_ok s → claims id (Sen i now (Ev e x)) →
  ∃ r0 stale, d_sched (s_db s) !! id = Some r0 ∧ due now stale r0 = true ∧
    ∀ r', d_sched d !! id = Some r' → st_NextRunAt r' = Some (now + taskClaimGuardSeconds * second).
Proof.
  intros Ha Hpre Hro Hc. unfold claims in Hc. apply list_elem_of_fmap in Hc as (r & Hid & Hr).
  unfold claim_rows, event_rows in Hr. simpl in Hr. destruct e; try (by apply not_elem_of_nil in Hr).
  destruct x as [rows|]; [|by apply not_elem_of_nil in Hr]. destruct Ha as (ids & Hnd & Hdue & -> & Hrows).
  apply list_elem_of_lookup in Hr as [k Hk]. destruct (Forall2_lookup_r _ _ _ _ _ Hrows Hk) as (id1 & Hid1 & r0 & H0 & ->).
  apply list_elem_of_lookup_2 in Hid1. destruct (Hro id1 r0 H0) as [Heq _]. simpl in Hid. rewrite Heq in Hid. subst id1.
  destruct (Hdue id Hid1) as (r1 & H1 & Hdue1). exists r1, stale. split_and!; [done..|]. simpl in Hpre. subst guard.
  intros r' Hr'. simpl in Hr'. destruct (claimed_lookup _ _ _ _ _ _ Hnd Hr') as [[_ (r2 & _ & ->)]|[Hn _]]; done.
Qed.

Lemma held_back_step i X (e : SOp X) s x s' :
  step i X e s x s' → pre i X e s → SInv s → held_back s'.
Proof.
  intros Hst Hpre (Hro & Hta & Hk & Hh & _ & _ & Hnow) id t0 r' Ho Hl.
  destruct (step_row i X e s x s' id r' Hst Hpre Hro Hta Hk Hl) as [(r & Hr & Hs & _ & _)|(Hn & _ & _)].
  - pose proof (step_now _ _ _ _ _ _ Hst) as Hle. rewrite (sched_log _ _ _ _ _ _ Hst) in Ho. simpl in Ho.
    case_bool_decide as He; [done|]. case_bool_decide as Hc.
    + injection Ho as <-. destruct Hst as (now & d & _ & Ha & ->). simpl in *.
      destruct (claims_claimed i e s now x d id Ha Hpre Hro Hc) as (r0 & stale & _ & _ & Hnext).
      exists (now + taskClaimGuardSeconds * second). split; [by apply Hnext|lia].
    + apply (held_step i e s (s_now s') x id r r' t0); try done.
      * destruct (open_claim_time _ _ _ Ho) as (e0 & He0 & <- & _). rewrite Forall_forall in Hnow.
        etransitivity; [by apply Hnow|done].
      * by apply (Hh id).
  - exfalso. rewrite (sched_log _ _ _ _ _ _ Hst) in Ho. simpl in Ho. apply Hn.
    case_bool_decide as He; [done|]. case_bool_decide as Hc.
    + destruct Hst as (now & d & _ & Ha & ->). destruct (claims_claimed i e s now x d id Ha Hpre Hro Hc) as (r0 & ? & H0 & _).
      by destruct (Hro id r0 H0) as (_ & ? & _).
    + destruct (open_claim_time _ _ _ Ho) as (e0 & He0 & _ & (r0 & -> & Hr0)%list_elem_of_fmap).
      by destruct (Hk e0 r0 He0 Hr0) as [? _].
Qed.

Lemma apart_step i X (e : SOp X) s x s' :
  step i X e s x s' → pre i X e s → SInv s → ForallTail apart_from (s_log s').
Proof.
  intros Hst Hpre (Hro & Hta & Hk & Hh & Hap & _ & _). rewrite (sched_log _ _ _ _ _ _ Hst). split; [|done].
  intros id t0 Hc Ho. destruct Hst as (now & d & _ & Ha & ->). simpl in *.
  destruct (claims_claimed i e s now x d id Ha Hpre Hro Hc) as (r0 & stale & H0 & Hdue & _).
  destruct (Hh id t0 r0 Ho H0) as (t & Ht & Hle). unfold due in Hdue. rewrite Ht in Hdue. to_prop. lia.
Qed.

Lemma SInv_step i X (e : SOp X) s x s' : SInv s → pre i X e s → step i X e s x s' → SInv s'.
Proof.
  intros HI Hpre Hst. pose proof HI as (Hro & Hta & Hk & Hh & Hap & Hin & Hnow). pose proof (step_now _ _ _ _ _ _ Hst) as Hle.
  assert (Forall (λ e0, se_time e0 ≤ s_now s') (s_log s)).
  { eapply Forall_impl; [exact Hnow|]. simpl. lia. }
  split_and!.
  - by eapply rows_ok_step.
  - by eapply tasks_ok_step.
  - by eapply claims_known_step.
  - by eapply held_back_step.
  - by eapply apart_step.
  - rewrite (sched_log _ _ _ _ _ _ Hst). by split.
  - rewrite (sched_log _ _ _ _ _ _ Hst). by constructor.
Qed.

(** ** Verifying a thread *)

Abbreviation ssafe := (safe step pre SInv).

Lemma slog_stable i P : grows P → stable step pre SInv i (λ s, P (s_log s)).
Proof. apply (grows_stable _ _ _ _ _ sched_log). Qed.

(** A program that owes nothing. *)
Abbreviation owes_nothing p := (calls_ok (λ X e, ∀ i s, pre i X e s) (λ _ _ _, True) p (λ _, True)).

Lemma owes_bind {A B} (p : sprog A) (f : A → sprog B) : owes_nothing p → (∀ a, owes_nothing (f a)) → owes_nothing (bind p f).
Proof. intros Hp Hf. apply calls_bind. eapply calls_mono; [|exact Hp]. auto. Qed.

Lemma owes_sask {X} (e : SOp X) : (∀ i s, pre i X e s) → owes_nothing (sask e).
Proof. intros He. by apply calls_call. Qed.

(** Steps through such a program. *)
Ltac owes_go := repeat
  match goal with
  | |- calls_ok _ _ (bind _ _) _ => apply owes_bind; [|intros ?]
  | |- calls_ok _ _ (sask _) _ => apply owes_sask; intros ? ?; simpl; try done
  | |- calls_ok _ _ (spve _ _) _ => by apply owes_sask
  | |- calls_ok _ _ (for_each _ _) _ => apply calls_for_each; [done|intros ? ?]
  | |- calls_ok _ _ (Ret _) _ => done
  | |- calls_ok _ _ (match bool_decide ?P with _ => _ end) _ => destruct (bool_decide_reflect P)
  | |- calls_ok _ _ (match ?x with _ => _ end) _ => destruct x eqn:?
  | |- calls_ok _ _ _ _ => by eauto with nexara
  end.

Lemma safe_owes i {A} (p : sprog A) (P : list sentry → Prop) s :
  grows P → owes_nothing p → P (s_log s) → ssafe i p (λ _ s, P (s_log s)) s.
Proof.
  intros HP Hp Hs. eapply safe_mono; [|apply (lsafe_under _ _ _ _ _ sched_log i p P (λ _, True)); [done| |done]].
  - by intros a s' [_ ?].
  - clear -Hp. induction p as [a|X e k IH]; [done|]. destruct Hp as [He Hk]. split; [by intros|]. intros x Hx. apply IH, Hk, Hx.
Qed.

Lemma safe_true i {A} (p : sprog A) s : owes_nothing p → ssafe i p (λ _ _, True) s.
Proof. intros Hp. by apply (safe_owes i p (λ _, True)). Qed.

Lemma owes_Require_node cluster node : owes_nothing (Require_node cluster node).
Proof. unfold Require_node. owes_go. Qed.

Lemma owes_trackTask r u ty de : owes_nothing (trackTask r u ty de).
Proof. unfold trackTask. owes_go. Qed.

Lemma owes_settle : owes_nothing settleDispatchedRunsWith.
Proof. unfold settleDispatchedRunsWith. owes_go. Qed.
#[export] Hint Resolve owes_Require_node owes_trackTask owes_settle : nexara.

(** *** The scheduler *)

(** What a dispatch that was answered with a task has left on the log. *)
Definition dispatched_ok (i : nat) (r : ScheduledTask) (x : result string string) (l : list sentry) : Prop :=
  ∀ u, x = Ok u → ran i r u l.

Lemma grows_dispatched i r x : grows (dispatched_ok i r x).
Proof. apply grows_forall. intros u. apply grows_impl, grows_ran. Qed.

Lemma safe_request i cluster (q : srequest string) r g s :
  run_of r = Some g → (∀ x, asked_run cluster q x = Some (g, x)) → claimed_by i r (s_log s) →
  ssafe i (spve cluster q) (λ x s, dispatched_ok i r x (s_log s)) s.
Proof.
  intros Hg Hq Hs. apply (lsafe_ask _ _ _ _ _ sched_log i (SPve cluster q) (claimed_by i r) (dispatched_ok i r)); try done.
  - apply grows_claimed_by.
  - apply grows_dispatched.
  - intros s1 x s2 _ Hc Hst _ u ->. rewrite (sched_log _ _ _ _ _ _ Hst). 
    exists [], (Sen i (s_now s2) (Ev (SPve cluster q) (Ok u))), (s_log s1), g.
    split_and!; [done|done|done| |done]. apply (Hq (Ok u)).
Qed.

Lemma safe_tracked i r (x : result string string) ty de s :
  dispatched_ok i r x (s_log s) →
  ssafe i (match x with Err e => Ret (Err e) | Ok upid => do! trackTask r upid ty de in Ret (Ok upid) end)
    (λ x s, dispatched_ok i r x (s_log s)) s.
Proof.
  intros Hx. destruct x as [u|e].
  - eapply lsafe_next; [apply (safe_owes i _ (dispatched_ok i r (Ok u))); [apply grows_dispatched| |done]; auto with nexara|].
    intros [] s1 H1. apply (lsafe_ret _ _ _ _ _ sched_log i (Ok u) (dispatched_ok i r)); [apply grows_dispatched|done].
  - apply (lsafe_ret _ _ _ _ _ sched_log i (Err e) (dispatched_ok i r)); [apply grows_dispatched|done].
Qed.

Lemma safe_refused i r e s : ssafe i (Ret (Err e)) (λ x s, dispatched_ok i r x (s_log s)) s.
Proof. apply (lsafe_ret _ _ _ _ _ sched_log i (Err e) (dispatched_ok i r)); [apply grows_dispatched|done]. Qed.

Lemma run_of_eq r family :
  scheduledResourceTypes (st_ResourceType r) = Some family → st_Action r ∈ ["snapshot"; "reboot"] →
  run_of r = Some {| gr_cluster := st_ClusterID r; gr_node := st_Node r; gr_vmid := mustAtoi (st_ResourceID r);
                     gr_family := family; gr_action := st_Action r |}.
Proof. intros Hf Ha. unfold run_of. rewrite Hf. simpl. by rewrite bool_decide_eq_true_2. Qed.

Lemma safe_executeSnapshot i r now s :
  st_Action r = "snapshot" → claimed_by i r (s_log s) →
  ssafe i (executeSnapshot r now) (λ x s, dispatched_ok i r x (s_log s)) s.
Proof.
  intros Ha Hs. unfold executeSnapshot. destruct (st_Params r) as [params|]; [|apply safe_refused].
  destruct (scheduledResourceTypes (st_ResourceType r)) as [[]|] eqn:Hf; [| |apply safe_refused];
    (eapply lsafe_next; [eapply safe_request; [apply (run_of_eq r _ Hf); rewrite Ha; set_solver|by rewrite Ha|done]|];
     intros x s1; apply safe_tracked).
Qed.

Lemma safe_executeReboot i r s :
  st_Action r = "reboot" → claimed_by i r (s_log s) →
  ssafe i (executeReboot r) (λ x s, dispatched_ok i r x (s_log s)) s.
Proof.
  intros Ha Hs. unfold executeReboot.
  destruct (scheduledResourceTypes (st_ResourceType r)) as [[]|] eqn:Hf; [| |apply safe_refused];
    (eapply lsafe_next; [eapply safe_request; [apply (run_of_eq r _ Hf); rewrite Ha; set_solver|by rewrite Ha|done]|];
     intros x s1; apply safe_tracked).
Qed.

Lemma safe_dispatch i r now s :
  claimed_by i r (s_log s) → ssafe i (dispatch r now) (λ x s, dispatched_ok i r x (s_log s)) s.
Proof.
  intros Hs. unfold dispatch. eapply lsafe_next; [apply (safe_owes i _ (claimed_by i r)); auto with nexara|].
  intros [[b e]|] s1 H1; [apply safe_refused|].
  case_bool_decide; [by apply safe_executeSnapshot|]. case_bool_decide; [by apply safe_executeReboot|]. apply safe_refused.
Qed.

Section programs.
Context `{CL : CronLibrary} `{MR : MapRange} `{CFG : SchedConfig}.

(** A record that says no more than the dispatch was answered. *)
Lemma safe_finishTaskRun i r now (x : result string string) s :
  dispatched_ok i r x (s_log s) → ssafe i (finishTaskRun r now (dispatchOutcome x)) (λ _ _, True) s.
Proof.
  intros Hx.
  assert (∀ l, dispatched_ok i r x l →
    may_record i (st_ID r) (Some (ro_status (dispatchOutcome x))) (text (ro_upid (dispatchOutcome x))) l) as Hrec.
  { intros l Hl. unfold dispatchOutcome. destruct x as [u|e]; [|by split].
    destruct (bool_decide_reflect (u = "")) as [->|Hu]; [by split|]. split; [done|]. intros _. simpl. exists r, u. split; [done|].
    unfold text. rewrite bool_decide_eq_false_2 by done. split; [done|]. by apply Hl. }
  assert (text (ro_status (dispatchOutcome x)) = Some (ro_status (dispatchOutcome x))) as Htext.
  { unfold dispatchOutcome. destruct x; [case_bool_decide|]; done. }
  eapply safe_mono; [|apply (lsafe_under _ _ _ _ _ sched_log i _ (dispatched_ok i r x) (λ _, True));
    [apply grows_dispatched| |done]]; [done|].
  unfold finishTaskRun. destruct (NextRunTime (st_Schedule r) now) as [next|err]; [|unfold parkUnschedulableTask];
    apply calls_bind, calls_call; try done; intros s0 Hs0; simpl; rewrite ?Htext; by apply Hrec.
Qed.

Lemma safe_executeTask i r s : claimed_by i r (s_log s) → ssafe i (executeTask r) (λ _ _, True) s.
Proof.
  intros Hs. unfold executeTask.
  eapply lsafe_next; [apply (safe_owes i (sask TimeNow) (claimed_by i r)); [auto with nexara|by owes_go|done]|].
  intros now s1 H1. eapply lsafe_next; [by apply safe_dispatch|]. intros x s2. apply safe_finishTaskRun.
Qed.

Lemma safe_markFailed i r e s : ssafe i (markFailed r e) (λ _ _, True) s.
Proof.
  unfold markFailed. eapply lsafe_next; [apply (safe_true i (sask TimeNow)); by owes_go|]. intros now s1 _.
  apply (safe_finishTaskRun i r now (Err e)). done.
Qed.

Lemma owes_createClient cluster : owes_nothing (createClient cluster).
Proof. unfold createClient. owes_go. Qed.

Lemma by_cluster_elem tasks c l r : by_cluster tasks !! c = Some l → r ∈ l → r ∈ tasks ∧ st_ClusterID r = c.
Proof.
  unfold by_cluster. revert c l r. induction tasks as [|t tasks IH] using rev_ind; intros c l r; [by simplify_map_eq|].
  rewrite foldl_app. simpl. set (m := foldl _ _ _) in *. intros [[<- <-]|[_ Hl]]%lookup_insert_Some Hr.
  - apply elem_of_app in Hr as [Hr|[->|[]%not_elem_of_nil]%elem_of_cons]; [|by split; [set_solver|]].
    destruct (m !! st_ClusterID t) as [l|] eqn:Hm; [|by apply not_elem_of_nil in Hr].
    destruct (IH _ _ _ Hm Hr). by split; [set_solver|].
  - destruct (IH _ _ _ Hl Hr). by split; [set_solver|].
Qed.

Lemma safe_run_cluster i c l s :
  (∀ r, r ∈ l → claimed_by i r (s_log s)) → ssafe i (run_cluster c l) (λ _ _, True) s.
Proof.
  intros Hl. unfold run_cluster. set (P := λ log, Forall (λ r, claimed_by i r log) l).
  assert (grows P) as HP by (apply grows_Forall; intros; apply grows_claimed_by).
  eapply lsafe_next; [apply (safe_owes i _ P); [done|apply owes_createClient|by apply Forall_forall]|].
  intros [e|] s1 H1.
  - eapply safe_mono; [|apply (lsafe_each _ _ _ _ _ sched_log i l _ (λ _, True)); [done| |done]]; [done|].
    intros. apply safe_markFailed.
  - eapply safe_mono; [|apply (lsafe_each _ _ _ _ _ sched_log i l _ P); [done| |done]]; [done|].
    intros r s2 Hr H2. apply safe_executeTask. unfold P in H2. rewrite Forall_forall in H2. by apply H2.
Qed.

Lemma safe_Run i s : ssafe i Run (λ _ _, True) s.
Proof.
  unfold Run, RunScheduledTaskReconcile. eapply lsafe_next; [apply safe_true; owes_go|]. intros [] s1 _.
  apply (lsafe_next _ _ _ i _ _ (λ x s, ∀ rows, x = Ok rows → ∀ r, r ∈ rows → claimed_by i r (s_log s))).
  { apply (lsafe_ask _ _ _ _ _ sched_log i (ClaimDueTasks _ _) (λ _, True)
      (λ x l, ∀ rows, x = Ok rows → ∀ r, r ∈ rows → claimed_by i r l)); try done.
    - intros x. apply grows_forall. intros rows. apply grows_impl, grows_forall. intros r. apply grows_impl, grows_claimed_by.
    - intros s2 x s3 _ _ Hst _ rows -> r Hr. rewrite (sched_log _ _ _ _ _ _ Hst). eexists. by split; [left|]. }
  intros [rows|e] s2 H2; [|by apply safe_true].
  set (P := λ log, Forall (λ r, claimed_by i r log) rows).
  assert (grows P) as HP by (apply grows_Forall; intros; apply grows_claimed_by).
  eapply safe_mono; [|apply (lsafe_each _ _ _ _ _ sched_log i _ _ P); [done| |]]; [done| |].
  - intros [c l] s3 Hkv H3. apply elem_of_go_range in Hkv. apply safe_run_cluster. intros r Hr. unfold P in H3.
    rewrite Forall_forall in H3. apply H3. by eapply by_cluster_elem.
  - apply Forall_forall. by apply H2.
Qed.

(** *** The collector *)

(** The tasks of a list that ended well were reported so. *)
Definition listed_ok (tasks : list NodeTask) (l : list sentry) : Prop :=
  ∀ t, t ∈ tasks → 0 < nt_EndTime t → TaskSucceeded (nt_Status t) = true → ended_well (nt_UPID t) l.

Lemma grows_listed tasks : grows (listed_ok tasks).
Proof. intros e l Hl t ???. by apply grows_ended_well, Hl. Qed.

Lemma external_row_completed cluster node t name :
  th_Status (external_row cluster node t name) = "completed" → 0 < nt_EndTime t ∧ TaskSucceeded (nt_Status t) = true.
Proof.
  unfold external_row. destruct (filed_as t), (identity_of t node). simpl. destruct (0 <? nt_EndTime t) eqn:He; [|done].
  unfold classifyTaskExit. destruct (TaskSucceeded _) eqn:Ht; [|done]. intros _. split; [lia|done].
Qed.

Lemma external_row_upid cluster node t name : th_Upid (external_row cluster node t name) = nt_UPID t.
Proof. unfold external_row. by destruct (filed_as t), (identity_of t node). Qed.

Lemma owes_guest_name cluster t : owes_nothing (guest_name cluster t).
Proof. unfold guest_name. owes_go. Qed.

Lemma safe_ingestTask i cluster node t seen tasks s :
  t ∈ tasks → listed_ok tasks (s_log s) → ssafe i (ingestTask cluster node t seen) (λ _ _, True) s.
Proof.
  intros Ht Hs. unfold ingestTask. destruct (skipTaskTypes _); [by apply safe_true|]. destruct (contains seen _); [by apply safe_true|].
  eapply lsafe_next; [apply (safe_owes i _ (listed_ok tasks)); [apply grows_listed|apply owes_guest_name|done]|].
  intros name s1 H1. destruct (identity_of t node) as [m id].
  apply (lsafe_next _ _ _ i _ _ (λ _ _, True)).
  - apply (lsafe_ask _ _ _ _ _ sched_log i _ (listed_ok tasks) (λ _ _, True)); try done; [apply grows_listed|].
    intros s2 _ H2 [Hend Hok]%external_row_completed. rewrite external_row_upid. by apply H2.
  - intros x s2 _. apply safe_true. owes_go.
Qed.

Lemma owes_seen cluster upids : owes_nothing (seenTaskUPIDs cluster upids).
Proof. unfold seenTaskUPIDs. owes_go. Qed.

Lemma safe_listing i cluster node since s :
  ssafe i (spve cluster (GetNodeTasks node since taskListLimit))
    (λ x s, ∀ tasks, x = Ok tasks → listed_ok tasks (s_log s)) s.
Proof.
  apply (lsafe_ask _ _ _ _ _ sched_log i (SPve cluster (GetNodeTasks node since taskListLimit)) (λ _, True)
    (λ x l, ∀ tasks, x = Ok tasks → listed_ok tasks l)); try done.
  - intros x. apply grows_forall. intros tasks. apply grows_impl, grows_listed.
  - intros s1 x s2 _ _ Hst _ tasks -> t Ht Hend Hok. rewrite (sched_log _ _ _ _ _ _ Hst).
    eexists. split; [left|]. simpl. unfold reports_success. simpl. apply existsb_exists. exists t.
    split; [by apply list_elem_of_In|]. rewrite Hok, bool_decide_eq_true_2 by done.
    rewrite (proj2 (Z.ltb_lt _ _) Hend). done.
Qed.

Lemma safe_sync_node i cluster since p node s : ssafe i (sync_node cluster since p node) (λ _ _, True) s.
Proof.
  unfold sync_node. eapply lsafe_next; [apply safe_listing|]. intros [tasks|e] s1 H1; [|by apply safe_true].
  specialize (H1 tasks eq_refl).
  eapply lsafe_next; [apply (safe_owes i _ (listed_ok tasks)); [apply grows_listed|apply owes_seen|done]|].
  intros [seen|e] s2 H2; [|by apply safe_true].
  eapply lsafe_next; [|intros; by apply safe_true].
  apply (lsafe_each _ _ _ _ _ sched_log i tasks _ (listed_ok tasks)); [apply grows_listed| |done].
  intros t s3 Ht H3. eapply lsafe_next; [by apply (safe_ingestTask i cluster node.1 t seen tasks)|]. intros. by apply safe_true.
Qed.

Lemma safe_sync_nodes i cluster since nodes p s : ssafe i (sync_nodes cluster since nodes p) (λ _ _, True) s.
Proof.
  revert p s. induction nodes as [|node nodes IH]; intros p s; simpl; [by apply safe_true|].
  eapply lsafe_next; [apply safe_sync_node|]. intros p' s' _. apply IH.
Qed.

Lemma safe_syncTasks i cluster s : ssafe i (syncTasks cluster) (λ _ _, True) s.
Proof.
  unfold syncTasks, sync_since. eapply lsafe_next; [apply safe_true; owes_go|]. intros since s1 _.
  eapply lsafe_next; [apply safe_true; owes_go|]. intros [nodes|e] s2 _; [|by apply safe_true].
  eapply lsafe_next; [apply safe_sync_nodes|]. intros p s3 _. apply safe_true. unfold linkSDNApplyTasks. owes_go.
Qed.

Lemma safe_finalizeTask i cluster upid status exit s :
  (status = "completed" → ended_well upid (s_log s)) → ssafe i (finalizeTask cluster upid status exit) (λ _ _, True) s.
Proof.
  intros Hs. unfold finalizeTask. set (P := λ l, status = "completed" → ended_well upid l).
  assert (grows P) as HP by apply grows_impl, grows_ended_well.
  eapply lsafe_next; [apply (safe_owes i (sask TimeNow) P); [done|by owes_go|done]|]. intros now s1 H1.
  apply (lsafe_next _ _ _ i _ _ (λ _ _, True)).
  - by apply (lsafe_ask _ _ _ _ _ sched_log i _ P (λ _ _, True)).
  - intros x s2 _. apply safe_true. owes_go.
Qed.

Lemma safe_lost_task i cluster row s : ssafe i (lost_task cluster row) (λ _ _, True) s.
Proof.
  unfold lost_task. eapply lsafe_next; [apply (safe_true i (sask TimeNow)); by owes_go|]. intros now s1 _.
  destruct (_ <? _); [by apply safe_finalizeTask|by apply safe_true].
Qed.

Lemma safe_reconcile_row i cluster row s : ssafe i (reconcile_row cluster row) (λ _ _, True) s.
Proof.
  unfold reconcile_row. eapply lsafe_next; [apply safe_true, owes_Require_node|].
  intros [[[] ?]|] s1 _; [by apply safe_true|apply safe_lost_task|].
  apply (lsafe_next _ _ _ i _ _ (λ x s, ∀ st, x = Ok st → tr_Status st = "stopped" →
    TaskSucceeded (tr_ExitStatus st) = true → ended_well (th_Upid row) (s_log s))).
  { apply (lsafe_ask _ _ _ _ _ sched_log i (SPve cluster (GetTaskStatus (th_Node row) (th_Upid row))) (λ _, True)
      (λ x l, ∀ st, x = Ok st → tr_Status st = "stopped" → TaskSucceeded (tr_ExitStatus st) = true → ended_well (th_Upid row) l));
      try done.
    - intros x. apply grows_forall. intros st. do 3 apply grows_impl. apply grows_ended_well.
    - intros s2 x s3 _ _ Hst _ st -> Hstop Hok. rewrite (sched_log _ _ _ _ _ _ Hst). eexists. split; [left|].
      unfold reports_success. simpl. by rewrite Hstop, Hok, !bool_decide_eq_true_2. }
  intros [st|e] s2 H2; [|apply safe_lost_task]. destruct (bool_decide_reflect (tr_Status st = "stopped")); [|by apply safe_true].
  simpl. unfold classifyTaskExit. destruct (TaskSucceeded (tr_ExitStatus st)) eqn:Hok.
  - apply safe_finalizeTask. intros _. by eapply H2.
  - by apply safe_finalizeTask.
Qed.

Lemma safe_reconcileRunningTasks i cluster s : ssafe i (reconcileRunningTasks cluster) (λ _ _, True) s.
Proof.
  unfold reconcileRunningTasks. eapply lsafe_next; [apply (safe_true i (sask _)); by owes_go|].
  intros [rows|e] s1 _; [|by apply safe_true].
  apply (lsafe_each _ _ _ _ _ sched_log i rows _ (λ _, True)); [done| |done]. intros. apply safe_reconcile_row.
Qed.

(** *** The routes *)

Lemma owes_declared action resource cluster k :
  (∀ c, owes_nothing (k c)) → owes_nothing (declared action resource cluster k).
Proof. intros. unfold declared. owes_go. Qed.

Lemma owes_requireNode cluster node : owes_nothing (requireNode cluster node).
Proof. unfold requireNode. owes_go. Qed.

Lemma owes_taskInCluster id cluster : owes_nothing (taskInCluster id cluster).
Proof. unfold taskInCluster. owes_go. Qed.
#[local] Hint Resolve owes_requireNode owes_taskInCluster : nexara.

Lemma owes_CreateSchedule q : owes_nothing (CreateSchedule q).
Proof. apply owes_declared. intros c. owes_go. Qed.

Lemma owes_UpdateSchedule q : owes_nothing (UpdateSchedule q).
Proof. apply owes_declared. intros c. owes_go. Qed.

Lemma owes_DeleteSchedule c id : owes_nothing (DeleteSchedule c id).
Proof. apply owes_declared. intros c0. owes_go. Qed.

Lemma owes_ListSchedules c : owes_nothing (ListSchedules c).
Proof. apply owes_declared. intros c0. owes_go. Qed.

Lemma still_running status : negb (bool_decide (status = "running")) = false → status ≠ "completed".
Proof. by intros ->%negb_false_iff%bool_decide_eq_true. Qed.

Lemma owes_CreateTask q : owes_nothing (CreateTask q).
Proof. unfold CreateTask. owes_go. by apply still_running. Qed.

Lemma owes_UpdateTask q : owes_nothing (UpdateTask q).
Proof. unfold UpdateTask. owes_go. apply still_running. by destruct (negb (bool_decide (or_running _ = _))). Qed.

Lemma owes_ClearCompleted : owes_nothing ClearCompleted.
Proof. unfold ClearCompleted. owes_go. Qed.

Lemma owes_RunTaskRetention : owes_nothing RunTaskRetention.
Proof. unfold RunTaskRetention. owes_go. Qed.
End programs.

(** ** Histories *)

Section histories.
Context `{CL : CronLibrary} `{MR : MapRange} `{CFG : SchedConfig}.

(** What the server runs: the jobs of the scheduler, the passes of the collector, the
    routes, and the other places that record a task they have started. *)
Inductive sched_entry : sprog unit → Prop :=
| entry_Run : sched_entry Run
| entry_reconcile : sched_entry RunScheduledTaskReconcile
| entry_retention : sched_entry RunTaskRetention
| entry_sync cluster : sched_entry (do! syncTasks cluster in Ret tt)
| entry_running cluster : sched_entry (reconcileRunningTasks cluster)
| entry_CreateSchedule q : sched_entry (do! CreateSchedule q in Ret tt)
| entry_UpdateSchedule q : sched_entry (do! UpdateSchedule q in Ret tt)
| entry_DeleteSchedule cluster id : sched_entry (do! DeleteSchedule cluster id in Ret tt)
| entry_ListSchedules cluster : sched_entry (do! ListSchedules cluster in Ret tt)
| entry_CreateTask q : sched_entry (do! CreateTask q in Ret tt)
| entry_UpdateTask q : sched_entry (do! UpdateTask q in Ret tt)
| entry_ClearCompleted : sched_entry (do! ClearCompleted in Ret tt)
| entry_elsewhere cluster user upid description node taskType :
    sched_entry (do! sask (InsertTaskHistory cluster user upid description "running" node taskType) in Ret tt)
| entry_audited cluster resourceType resource action upid :
    sched_entry (do! sask (InsertAuditLog cluster resourceType resource action upid) in Ret tt)
| entry_job job upid : sched_entry (do! sask (SetJobUpid job upid) in Ret tt).

(** A number is used once. *)
Definition unused (i : nat) (s : SSys) : Prop := i ∉ se_thread <$> s_log s.

(** From empty tables; the migration jobs and the time are whatever they are. *)
Definition fresh_start (s : SSys) : Prop :=
  d_sched (s_db s) = ∅ ∧ d_hist (s_db s) = ∅ ∧ s_log s = [].

Definition history_of (s0 : SSys) (ts : list (nat * sprog unit)) (s : SSys) : Prop :=
  rtc (threads step unused sched_entry) ([], s0) (ts, s).

Lemma safe_ignored i {A} (p : sprog A) s : ssafe i p (λ _ _, True) s → ssafe i (do! p in Ret tt) (λ _ _, True) s.
Proof. intros Hp. eapply lsafe_next; [exact Hp|]. intros. by apply safe_true. Qed.

Lemma safe_entry i p s : sched_entry p → ssafe i p (λ _ _, True) s.
Proof.
  destruct 1.
  - apply safe_Run.
  - apply safe_ignored, safe_true, owes_settle.
  - apply safe_true, owes_RunTaskRetention.
  - apply safe_ignored, safe_syncTasks.
  - apply safe_reconcileRunningTasks.
  - apply safe_ignored, safe_true, owes_CreateSchedule.
  - apply safe_ignored, safe_true, owes_UpdateSchedule.
  - apply safe_ignored, safe_true, owes_DeleteSchedule.
  - apply safe_ignored, safe_true, owes_ListSchedules.
  - apply safe_ignored, safe_true, owes_CreateTask.
  - apply safe_ignored, safe_true, owes_UpdateTask.
  - apply safe_ignored, safe_true, owes_ClearCompleted.
  - by apply safe_ignored, safe_true, owes_sask.
  - by apply safe_ignored, safe_true, owes_sask.
  - by apply safe_ignored, safe_true, owes_sask.
Qed.

Lemma fresh_SInv s : fresh_start s → SInv s.
Proof.
  intros (Hs & Hh & Hl). unfold SInv, rows_ok, tasks_ok, claims_known, held_back. rewrite Hs, Hh, Hl. split_and!; try done.
  - intros e r0 He. by apply not_elem_of_nil in He.
Qed.

Lemma history_SInv s0 ts s : fresh_start s0 → history_of s0 ts s → SInv s.
Proof.
  intros H0 Hh. apply (threads_safe step pre SInv unused sched_entry ([], s0) (ts, s)) in Hh as [? _]; [done| | |].
  - intros. by eapply SInv_step.
  - intros. by apply safe_entry.
  - split; [by apply fresh_SInv|]. split; [apply NoDup_nil_2|done].
Qed.

(** A claim that no record followed is open since then, or since a later claim. *)
Lemma open_since id between e1 earlier :
  claims id e1 → (∀ e, e ∈ between → ended_run e ≠ Some id) → ForallTail in_time (between ++ e1 :: earlier) →
  ∃ t0, open_claim (between ++ e1 :: earlier) id = Some t0 ∧ se_time e1 ≤ t0.
Proof.
  intros H1. induction between as [|e between IH]; intros Hb Hin; simpl.
  - rewrite bool_decide_eq_false_2, bool_decide_eq_true_2; [by exists (se_time e1)|done|].
    intros He. unfold claims, claim_rows, event_rows in H1. destruct e1 as [i t [X op x]]. unfold ended_run, event_ended in He. simpl in *.
    destruct op; try done; by apply not_elem_of_nil in H1.
  - rewrite bool_decide_eq_false_2 by (apply Hb; left). destruct Hin as [He Hin]. case_bool_decide.
    + exists (se_time e). split; [done|]. unfold in_time in He. rewrite Forall_forall in He. apply He. set_solver.
    + apply IH; [|done]. intros e0 He0. apply Hb. by right.
Qed.

(** C26: two claims of the same schedule, with no record of a run between them, are at
    least ten minutes apart, by the clock of the database, whatever schedulers,
    routes and collectors run at the same time and whatever they are answered. *)
Theorem claims_exclusive s0 ts s later e2 between e1 earlier id :
  fresh_start s0 → history_of s0 ts s → s_log s = later ++ e2 :: between ++ e1 :: earlier →
  claims id e1 → claims id e2 → (∀ e, e ∈ between → ended_run e ≠ Some id) →
  se_time e1 + taskClaimGuardSeconds * second ≤ se_time e2.
Proof.
  intros H0 Hh Hlog H1 H2 Hb. destruct (history_SInv s0 ts s H0 Hh) as (_ & _ & _ & _ & Hap & Hin & _).
  rewrite Hlog in Hap, Hin. apply ForallTail_at in Hap. apply ForallTail_app in Hin as [_ Hin].
  destruct (open_since id between e1 earlier H1 Hb Hin) as (t0 & Ht0 & Hle). specialize (Hap id t0 H2 Ht0). lia.
Qed.

(** C25: a schedule whose last run is said to have succeeded names a task that was
    started for it: a scheduler had claimed a row about the same guest and action,
    Proxmox then answered its request for just that with this task, and later said
    that the task had stopped and ended well. *)
Theorem success_is_reported s0 ts s id r :
  fresh_start s0 → history_of s0 ts s → d_sched (s_db s) !! id = Some r → st_LastStatus r = Some runStatusSucceeded →
  ∃ u, st_LastUpid r = Some u ∧ started r u (s_log s) ∧ ended_well u (s_log s).
Proof.
  intros H0 Hh Hl Hs. destruct (history_SInv s0 ts s H0 Hh) as (Hro & _). destruct (Hro id r Hl) as (_ & _ & _ & Hok). auto.
Qed.
End histories.
