(* ===== verification/SchedTraces.v ===== *)
(** * One run of the scheduler

    What one [Run] asks and writes, by its calls and answers, on the log of the
    program alone, newest first.

    - [Run_at_most_once]: wherever it is cut off, Proxmox has been asked at most once
      for each row that was claimed, for what that row says, on a node that the
      inventory had confirmed.
    - [Run_records_each]: when it returns, every claimed row was recorded once. *)

From S2P Require Import Prelude GoFloat GoStrings ProxmoxApi Effects Logs DrsExecutor RbacEngine SchedDb SchedRun.
From S2P Require Import SchedCollect SchedRoutes SchedHistory SchedSafety.

Local Open Scope Z_scope.

Abbreviation slog := (list (event SOp)).

(** The rows that were claimed. *)
Definition rows_of (l : slog) : list ScheduledTask := concat (event_rows <$> l).

(** What Proxmox was asked to do. *)
Definition requests (l : slog) : list guest_run := omap (λ ev, fst <$> requested ev) l.

(** The schedules whose run was recorded. *)
Definition records (l : slog) : list uuid := omap event_ended l.

(** The node of a request was confirmed to be one of its cluster before. *)
Definition confirmed (ev : event SOp) (l : slog) : Prop :=
  ∀ g x, requested ev = Some (g, x) → Ev (GetNodeByClusterAndName (gr_cluster g) (gr_node g)) (Some true) ∈ l.

(** A record names a next run after the run. *)
Definition runs_later (ev : event SOp) : Prop :=
  match ev with
  | @Ev _ _ op _ => match op with UpdateTaskLastRun a => rr_LastRunAt a < rr_NextRunAt a | _ => True end
  end.

(** At any time. *)
Definition run_inv (l : slog) : Prop :=
  requests l ⊆+ omap run_of (rows_of l) ∧ ForallTail confirmed l ∧ Forall runs_later l.

(** With the rows [asks] still to be asked for and [recs] to be recorded. *)
Definition pending (asks recs : list ScheduledTask) (l : slog) : Prop :=
  requests l ++ omap run_of asks ⊆+ omap run_of (rows_of l) ∧ records l ++ (st_ID <$> recs) ≡ₚ st_ID <$> rows_of l ∧
  ForallTail confirmed l ∧ Forall runs_later l.

Lemma pending_inv asks recs l : pending asks recs l → run_inv l.
Proof. intros (Hr & _ & ? & ?). split_and!; [|done..]. etransitivity; [|exact Hr]. by apply submseteq_inserts_r. Qed.

Lemma pending_perm asks asks' l : asks ≡ₚ asks' → pending asks asks l → pending asks' asks' l.
Proof. intros Hp (Hr & He & ? & ?). split_and!; [by rewrite <-Hp|by rewrite <-Hp|done..]. Qed.

(** A row that is not asked for is passed over. *)
Lemma pending_skip r asks recs l : pending (r :: asks) recs l → pending asks recs l.
Proof.
  intros (Hr & H). split; [|done]. etransitivity; [|exact Hr]. apply submseteq_skips_l. simpl. destruct (run_of r); [|done].
  by apply submseteq_cons.
Qed.

(** A call that neither claims, asks nor records. *)
Definition quiet (ev : event SOp) : Prop :=
  event_rows ev = [] ∧ requested ev = None ∧ event_ended ev = None ∧ runs_later ev.

Lemma pending_quiet asks recs ev l : quiet ev → pending asks recs l → pending asks recs (ev :: l).
Proof.
  intros (Hr & Hq & He & Hl) (H1 & H2 & H3 & H4).
  unfold pending, requests, records, rows_of in *. rewrite !fmap_cons. simpl. rewrite Hr, Hq, He. simpl.
  split_and!; [done|done| |done|by constructor]. intros g x. by rewrite Hq.
Qed.

(** The request of a row. *)
Lemma pending_asked r asks recs cluster (q : srequest string) g x l :
  run_of r = Some g → asked_run cluster q x = Some (g, x) →
  Ev (GetNodeByClusterAndName (gr_cluster g) (gr_node g)) (Some true) ∈ l →
  pending (r :: asks) recs l → pending asks recs (Ev (SPve cluster q) x :: l).
Proof.
  intros Hg Hq Hn (H1 & H2 & H3 & H4).
  unfold pending, requests, records, rows_of in *. rewrite !fmap_cons. simpl in *. rewrite Hq. simpl. rewrite Hg in H1.
  split_and!; [|done| |done|by constructor].
  - by rewrite Permutation_middle.
  - intros g' x' Hr. simpl in Hr. rewrite Hq in Hr. by simplify_eq.
Qed.

(** The record of a row. *)
Lemma pending_recorded r asks recs ev l :
  event_rows ev = [] → requested ev = None → event_ended ev = Some (st_ID r) → runs_later ev →
  pending asks (r :: recs) l → pending asks recs (ev :: l).
Proof.
  intros Hr Hq He Hl (H1 & H2 & H3 & H4).
  unfold pending, requests, records, rows_of in *. rewrite !fmap_cons in *. simpl. rewrite Hr, Hq, He. simpl.
  split_and!; [done| | |done|by constructor].
  - by rewrite Permutation_middle.
  - intros g x. by rewrite Hq.
Qed.

Abbreviation skeeps := (keeps_log run_inv).

(** A call whose answers are all quiet. *)
Definition quiet_call (X : Type) (e : SOp X) : Prop := ∀ x, quiet (Ev e x).

Lemma skeeps_quiet {A} (p : sprog A) asks recs l :
  calls_ok quiet_call (λ _ _ _, True) p (λ _, True) → pending asks recs l → skeeps p (λ _, pending asks recs) l.
Proof.
  revert l. induction p as [a|X e k IH]; intros l Hp Hl; [by apply keeps_ret|].
  destruct Hp as [He Hk]. intros l1 <- x l2 ->. assert (pending asks recs (Ev e x :: l)) by by apply pending_quiet; [apply He|].
  split; [by eapply pending_inv|]. by apply IH; [apply Hk|].
Qed.

(** The calls of a part that is quiet. *)
Ltac quiet_go := repeat
  match goal with
  | |- calls_ok _ _ (bind _ _) _ => apply calls_bind
  | |- calls_ok _ _ (sask _) _ => apply calls_call; [by intros ?|intros ? _; try done]
  | |- calls_ok _ _ (spve _ _) _ => apply calls_call; [by intros ?|intros ? _; try done]
  | |- calls_ok _ _ (for_each _ _) _ => apply calls_for_each; [done|intros ? ?]
  | |- calls_ok _ _ (Ret _) _ => done
  | |- calls_ok _ _ (match ?x with _ => _ end) _ => destruct x
  end.

Lemma quiet_trackTask r u ty de : calls_ok quiet_call (λ _ _ _, True) (trackTask r u ty de) (λ _, True).
Proof. unfold trackTask. quiet_go. Qed.

Lemma keeps_Require_node r asks recs l :
  pending asks recs l →
  skeeps (Require_node (st_ClusterID r) (st_Node r))
    (λ x l, pending asks recs l ∧
       (x = None → Ev (GetNodeByClusterAndName (st_ClusterID r) (st_Node r)) (Some true) ∈ l)) l.
Proof.
  intros Hl. unfold Require_node. apply keeps_bind, keeps_call. intros x.
  assert (pending asks recs (Ev (GetNodeByClusterAndName (st_ClusterID r) (st_Node r)) x :: l)) by by apply pending_quiet.
  split; [by eapply pending_inv|]. destruct x as [[]|]; apply keeps_ret; (split; [done|]); try done. intros _. by left.
Qed.

Lemma keeps_request r asks recs cluster (q : srequest string) g ty de l :
  run_of r = Some g → (∀ x, asked_run cluster q x = Some (g, x)) →
  Ev (GetNodeByClusterAndName (gr_cluster g) (gr_node g)) (Some true) ∈ l → pending (r :: asks) recs l →
  skeeps (let! x := spve cluster q in
          match x with Err e => Ret (Err e) | Ok upid => do! trackTask r upid ty de in Ret (Ok upid) end)
    (λ _, pending asks recs) l.
Proof.
  intros Hg Hq Hn Hl. apply keeps_bind, keeps_call. intros x.
  assert (pending asks recs (Ev (SPve cluster q) x :: l)) by by eapply pending_asked.
  split; [by eapply pending_inv|]. destruct x as [u|e]; [|by apply keeps_ret].
  apply keeps_bind. eapply keeps_mono; [|by apply skeeps_quiet; [apply quiet_trackTask|]]. intros [] l' Hl'. by apply keeps_ret.
Qed.

Section run.
Context `{CL : CronLibrary} `{MR : MapRange} `{CFG : SchedConfig}.

Lemma keeps_dispatch r now asks recs l :
  pending (r :: asks) recs l → skeeps (dispatch r now) (λ _, pending asks recs) l.
Proof.
  intros Hl. unfold dispatch. apply keeps_bind. eapply keeps_mono; [|by apply (keeps_Require_node r (r :: asks) recs)].
  intros [[b e]|] l1 [H1 Hn]; [apply keeps_ret; by eapply pending_skip|]. specialize (Hn eq_refl).
  assert (∀ e, skeeps (Ret (Err e)) (λ _ : result string string, pending asks recs) l1) as Hret.
  { intros e. apply keeps_ret. by eapply pending_skip. }
  destruct (bool_decide_reflect (st_Action r = "snapshot")) as [Ha|_].
  - unfold executeSnapshot. destruct (st_Params r); [|apply Hret].
    destruct (scheduledResourceTypes (st_ResourceType r)) as [[]|] eqn:Hf; [| |apply Hret];
      (eapply (keeps_request r); [apply (run_of_eq r _ Hf); rewrite Ha; set_solver|by rewrite Ha|done|done]).
  - destruct (bool_decide_reflect (st_Action r = "reboot")) as [Ha|_]; [|apply Hret]. unfold executeReboot.
    destruct (scheduledResourceTypes (st_ResourceType r)) as [[]|] eqn:Hf; [| |apply Hret];
      (eapply (keeps_request r); [apply (run_of_eq r _ Hf); rewrite Ha; set_solver|by rewrite Ha|done|done]).
Qed.

Lemma NextRunTime_later schedule from next : NextRunTime schedule from = Ok next → from < next.
Proof. unfold NextRunTime. destruct (cron_parse schedule) as [f|]; [|done]. case_match eqn:H; [|done]. intros [= <-]. lia. Qed.

Lemma keeps_finishTaskRun r now run asks recs l :
  pending asks (r :: recs) l → skeeps (finishTaskRun r now run) (λ _, pending asks recs) l.
Proof.
  intros Hl. unfold finishTaskRun. destruct (NextRunTime (st_Schedule r) now) as [next|err] eqn:Hn;
    [apply NextRunTime_later in Hn|unfold parkUnschedulableTask];
    (apply keeps_bind, keeps_call; intros x; split; [eapply (pending_inv asks recs)|apply keeps_ret]; by apply (pending_recorded r)).
Qed.

Lemma keeps_executeTask r rest l :
  pending (r :: rest) (r :: rest) l → skeeps (executeTask r) (λ _, pending rest rest) l.
Proof.
  intros Hl. unfold executeTask. apply keeps_bind.
  eapply keeps_mono; [|apply (skeeps_quiet (sask TimeNow)); [by quiet_go|exact Hl]]. intros now l1 H1.
  apply keeps_bind. eapply keeps_mono; [|apply (keeps_dispatch r now rest (r :: rest)); exact H1]. intros x l2. apply keeps_finishTaskRun.
Qed.

Lemma keeps_markFailed r e rest l :
  pending (r :: rest) (r :: rest) l → skeeps (markFailed r e) (λ _, pending rest rest) l.
Proof.
  intros Hl. unfold markFailed. apply keeps_bind.
  eapply keeps_mono; [|apply (skeeps_quiet (sask TimeNow)); [by quiet_go|exact (pending_skip _ _ _ _ Hl)]].
  intros now l1. apply keeps_finishTaskRun.
Qed.

Lemma keeps_run_cluster c rows rest l :
  pending (rows ++ rest) (rows ++ rest) l → skeeps (run_cluster c rows) (λ _, pending rest rest) l.
Proof.
  intros Hl. unfold run_cluster. apply keeps_bind.
  eapply keeps_mono; [|apply skeeps_quiet; [|exact Hl]]; [|unfold createClient; quiet_go].
  intros [e|] l1 H1; apply (keeps_each run_inv rows _ (λ rows, pending (rows ++ rest) (rows ++ rest))); try done; intros r rows' l2.
  - apply keeps_markFailed.
  - apply keeps_executeTask.
Qed.

(** The rows by cluster are the rows. *)
Lemma by_cluster_rows rows : concat ((map_to_list (by_cluster rows)).*2) ≡ₚ rows.
Proof.
  unfold by_cluster. induction rows as [|t rows IH] using rev_ind; [done|].
  rewrite foldl_app. simpl. set (m := foldl _ _ _) in *. destruct (m !! st_ClusterID t) as [ts|] eqn:Hm; simpl.
  - rewrite <-insert_delete_eq, map_to_list_insert by apply lookup_delete_eq. simpl.
    rewrite <-(map_to_list_delete m (st_ClusterID t) ts Hm) in IH. simpl in IH. rewrite <-IH.
    rewrite <-!(assoc_L (++)). apply Permutation_app_head, Permutation_app_comm.
  - rewrite map_to_list_insert by done. simpl. rewrite IH. apply (Permutation_app_comm [t]).
Qed.

Lemma keeps_Run : skeeps Run (λ _, pending [] []) [].
Proof.
  unfold Run, RunScheduledTaskReconcile, settleDispatchedRunsWith.
  assert (pending [] [] []) as H0 by by split_and!.
  apply keeps_bind. eapply keeps_mono; [|apply skeeps_quiet; [|exact H0]]; [|quiet_go].
  intros [] l1 H1. apply keeps_bind, keeps_call. intros [rows|e].
  - assert (pending rows rows (Ev (ClaimDueTasks (taskClaimGuardSeconds * second) (taskClaimStaleSeconds * second)) (Ok rows) :: l1))
      as H2.
    { destruct H1 as (Hr & He & ? & ?). unfold pending, requests, records, rows_of in *. rewrite !fmap_cons. simpl in *.
      rewrite !app_nil_r in *. split_and!; [|..|done|by constructor]; [| |by intros ??].
      - rewrite omap_app, (comm (++) (omap run_of rows)). by apply submseteq_skips_r.
      - rewrite He, <-fmap_app. by rewrite (comm (++)). }
    split; [by eapply pending_inv|].
    eapply keeps_mono; [|apply (keeps_each run_inv _ _ (λ kvs, pending (concat kvs.*2) (concat kvs.*2)))]; [done| |].
    + intros [c rows'] kvs l2. simpl. apply keeps_run_cluster.
    + eapply pending_perm; [|exact H2]. by rewrite go_range_perm, by_cluster_rows.
  - assert (pending [] [] (Ev (ClaimDueTasks (taskClaimGuardSeconds * second) (taskClaimStaleSeconds * second)) (Err e) :: l1))
      by by apply pending_quiet.
    split; [by eapply pending_inv|]. by apply keeps_ret.
Qed.

(** C27: at any point of a run, finished or cut off, Proxmox has been asked at most
    once for each row the run has claimed, to do what that row says to the guest it
    names, and each time on a node that the inventory had just confirmed to be one of
    the cluster. *)
Theorem Run_at_most_once t :
  trace Run t →
  requests t ⊆+ omap run_of (rows_of t) ∧
  ∀ t1 ev t2 g x, t = t1 ++ ev :: t2 → requested ev = Some (g, x) →
    Ev (GetNodeByClusterAndName (gr_cluster g) (gr_node g)) (Some true) ∈ t1.
Proof.
  intros Ht. assert (run_inv []) as H0 by by split_and!. pose proof (keeps_trace _ _ _ _ _ keeps_Run H0 Ht) as (Hr & Hc & _).
  rewrite app_nil_r in Hr, Hc. split.
  - unfold requests, rows_of in *. by rewrite (Permutation_rev t).
  - intros t1 ev t2 g x -> Hq. rewrite rev_app_distr in Hc. simpl in Hc. rewrite <-(assoc_L (++)) in Hc.
    apply ForallTail_at in Hc. apply list_elem_of_In, in_rev, list_elem_of_In. by apply (Hc g x).
Qed.

(** A run that returns has recorded each row it claimed exactly once, and each
    record names a next run after the run or disables the schedule. *)
Theorem Run_records_each t :
  returns Run t tt → records t ≡ₚ st_ID <$> rows_of t ∧ Forall runs_later t.
Proof.
  intros Ht. pose proof (keeps_returns _ _ _ _ _ _ keeps_Run Ht) as (_ & Hr & _ & Hl). simpl in Hr.
  rewrite !app_nil_r in Hr, Hl. split.
  - unfold records, rows_of in *. rewrite !app_nil_r in Hr. by rewrite (Permutation_rev t).
  - by rewrite (Permutation_rev t).
Qed.
End run.
