(* ===== verification/SchedSync.v ===== *)
(** * One pass of the task collector

    What one [syncTasks] writes, by its calls and answers, on the log of the program
    alone, newest first.

    - [ingested_once_new]: a task is recorded only where a node listed it and all
      three lookups had said that its UPID is not on record, not audited and not the
      one of a migration between clusters.
    - [mark_covers]: the high-water mark moves only after every node listed its tasks,
      to no less than the start of any of them, each of them recorded, known or of a
      kind that is skipped. *)

From S2P Require Import Prelude GoFloat GoStrings ProxmoxApi Effects Logs DrsExecutor RbacEngine SchedDb SchedRun.
From S2P Require Import SchedCollect SchedHistory SchedTraces.

Local Open Scope Z_scope.

(** The node listed these tasks. *)
Definition listed (c : uuid) (node : string) (since : Z) (tasks : list NodeTask) (l : slog) : Prop :=
  Ev (SPve c (GetNodeTasks node since taskListLimit)) (Ok tasks) ∈ l.

(** The three lookups were asked about [u]; [P] holds of their answers. *)
Definition looked_up (c : uuid) (u : string) (P : list string → list string → list string → Prop) (l : slog) : Prop :=
  ∃ upids th al mj, u ∈ upids ∧ Ev (ListExistingTaskHistoryUPIDs upids) (Ok th) ∈ l ∧
    Ev (ListExistingAuditLogUPIDs c upids) (Ok al) ∈ l ∧ Ev (ListCrossClusterMigrationUPIDs upids) (Ok mj) ∈ l ∧ P th al mj.

Definition is_new (c : uuid) (u : string) : slog → Prop :=
  looked_up c u (λ th al mj, (u ∉ th) ∧ (u ∉ al) ∧ u ∉ mj).

Definition is_known (c : uuid) (u : string) : slog → Prop :=
  looked_up c u (λ th al mj, u ∈ th ∨ u ∈ al ∨ u ∈ mj).

(** A listed task was dealt with. *)
Definition accounted (c : uuid) (node : string) (l : slog) (t : NodeTask) : Prop :=
  skipTaskTypes (nt_Type t) = true ∨ is_known c (nt_UPID t) l ∨
  ∃ name x, Ev (InsertExternalTaskHistory (external_row c node t name)) x ∈ l.

(** All that a node listed was dealt with, up to the time [m]. *)
Definition node_done (c : uuid) (since m : Z) (l : slog) (node : string) : Prop :=
  ∃ tasks, listed c node since tasks l ∧ ∀ t, t ∈ tasks → nt_StartTime t ≤ m ∧ accounted c node l t.

(** The mark that was read, or a day before the time that was. *)
Definition from_mark (c : uuid) (since : Z) (l : slog) : Prop :=
  Ev (GetTaskSyncState c) (Some since) ∈ l ∨
  Ev (GetTaskSyncState c) None ∈ l ∧ ∃ now, Ev TimeNow now ∈ l ∧ since = (now - 24 * 60 * minute) `div` second.

(** What a write owes the log before it. *)
Definition write_ok (c : uuid) (ev : event SOp) (l : slog) : Prop :=
  match ev with
  | @Ev _ _ op _ =>
      match op with
      | InsertExternalTaskHistory row =>
          ∃ node since tasks t name, row = external_row c node t name ∧ listed c node since tasks l ∧ t ∈ tasks ∧
            skipTaskTypes (nt_Type t) = false ∧ is_new c (nt_UPID t) l
      | UpsertTaskSyncState c' m => c' = c ∧ ∃ since nodes, from_mark c since l ∧ since < m ∧
          Ev (SPve c GetNodes) (Ok nodes) ∈ l ∧ Forall (node_done c since m l) nodes.*1
      | _ => True
      end
  end.

Definition writes_ok (c : uuid) (l : slog) : Prop := ForallTail (write_ok c) l.

(** ** More entries *)

(** Facts by membership only. *)
Definition upclosed (P : slog → Prop) : Prop := ∀ l l', l ⊆ l' → P l → P l'.

Lemma upclosed_grows P : upclosed P → grows P.
Proof. intros HP ev l. apply HP. by right. Qed.

Lemma up_listed c node since tasks : upclosed (listed c node since tasks).
Proof. intros l l' Hsub. apply Hsub. Qed.

Lemma up_looked_up c u P : upclosed (looked_up c u P).
Proof. intros l l' Hsub (upids & th & al & mj & ? & ? & ? & ? & ?). exists upids, th, al, mj. split_and!; auto. Qed.

Lemma up_accounted c node t : upclosed (λ l, accounted c node l t).
Proof.
  intros l l' Hsub [?|[?|(name & x & ?)]]; [by left|right; left; by eapply up_looked_up|].
  right. right. exists name, x. auto.
Qed.

Lemma up_node_done c since m node : upclosed (λ l, node_done c since m l node).
Proof.
  intros l l' Hsub (tasks & Hl & Ht). exists tasks. split; [by apply Hsub|].
  intros t Hin. destruct (Ht t Hin). split; [done|by eapply up_accounted].
Qed.

Lemma up_from_mark c since : upclosed (from_mark c since).
Proof. intros l l' Hsub [?|(? & now & ? & ?)]; [left; auto|right]. split; [auto|]. exists now. auto. Qed.

Lemma up_write_ok c ev : upclosed (write_ok c ev).
Proof.
  intros l l' Hsub. destruct ev as [X op x]. destruct op; simpl; try done.
  - intros (node & since & tasks & t & name & ? & ? & ? & ? & ?). exists node, since, tasks, t, name.
    split_and!; try done; [by eapply up_listed|by eapply up_looked_up].
  - intros (? & since & nodes & ? & ? & ? & Hn). split; [done|]. exists since, nodes. split_and!; auto.
    + by eapply up_from_mark.
    + eapply Forall_impl; [exact Hn|]. intros node. by apply up_node_done.
Qed.

Lemma grows_node_done c since m node : grows (λ l, node_done c since m l node).
Proof. apply upclosed_grows, up_node_done. Qed.

Lemma node_done_later c since m m' l node : m ≤ m' → node_done c since m l node → node_done c since m' l node.
Proof. intros Hm (tasks & ? & Ht). exists tasks. split; [done|]. intros t [? ?]%Ht. split; [lia|done]. Qed.

Lemma max_start_le tasks m : m ≤ max_start tasks m ∧ ∀ t, t ∈ tasks → nt_StartTime t ≤ max_start tasks m.
Proof.
  unfold max_start. revert m. induction tasks as [|t tasks IH]; intros m; simpl; [split; [done|by intros ? []%not_elem_of_nil]|].
  destruct (IH (if m <? nt_StartTime t then nt_StartTime t else m)) as [Hm Ht].
  split; [destruct (m <? nt_StartTime t) eqn:?; lia|].
  intros t' [->|Hin]%elem_of_cons; [|by apply Ht]. destruct (m <? nt_StartTime t) eqn:?; lia.
Qed.

(** ** The parts of a pass *)

Section pass.
Variable c : uuid.

Abbreviation ckeeps := (keeps_log (writes_ok c)).

(** A call that writes neither tasks nor the mark. *)
Definition free_call (X : Type) (e : SOp X) : Prop := ∀ x l, write_ok c (Ev e x) l.

Lemma ckeeps_free {A} (p : sprog A) (P : slog → Prop) l :
  grows P → calls_ok free_call (λ _ _ _, True) p (λ _, True) → writes_ok c l → P l → ckeeps p (λ _ l, writes_ok c l ∧ P l) l.
Proof.
  intros HP. revert l. induction p as [a|X e k IH]; intros l Hp Hl HPl; [by apply keeps_ret|].
  destruct Hp as [He Hk]. intros l1 <- x l2 ->. assert (writes_ok c (Ev e x :: l)) by by split; [apply He|].
  split; [done|]. by apply IH; [apply Hk| |apply HP].
Qed.

Lemma ckeeps_ask {X} (e : SOp X) (Q : X → slog → Prop) l :
  free_call X e → writes_ok c l → (∀ x, Q x (Ev e x :: l)) → ckeeps (sask e) (λ x l, writes_ok c l ∧ Q x l) l.
Proof. intros He Hl HQ. apply keeps_call. intros x. assert (writes_ok c (Ev e x :: l)) by by split; [apply He|]. auto. Qed.

(** What [seenTaskUPIDs] answers rests on. *)
Definition seen_ok (tasks : list NodeTask) (seen : list string) (l : slog) : Prop :=
  candidates tasks = [] ∨ ∃ th al mj, seen = th ++ al ++ mj ∧ Ev (ListExistingTaskHistoryUPIDs (candidates tasks)) (Ok th) ∈ l ∧
    Ev (ListExistingAuditLogUPIDs c (candidates tasks)) (Ok al) ∈ l ∧
    Ev (ListCrossClusterMigrationUPIDs (candidates tasks)) (Ok mj) ∈ l.

Lemma grows_seen_ok tasks seen : grows (seen_ok tasks seen).
Proof.
  intros ev l [?|(th & al & mj & ? & ? & ? & ?)]; [by left|right]. exists th, al, mj. split_and!; [done|by right..].
Qed.

Lemma is_candidate t tasks : t ∈ tasks → skipTaskTypes (nt_Type t) = false → nt_UPID t ∈ candidates tasks.
Proof. intros Ht Hs. apply list_elem_of_fmap. exists t. split; [done|]. by apply list_elem_of_filter. Qed.

Lemma seen_lookup tasks seen t l :
  seen_ok tasks seen l → t ∈ tasks → skipTaskTypes (nt_Type t) = false →
  if contains seen (nt_UPID t) then is_known c (nt_UPID t) l else is_new c (nt_UPID t) l.
Proof.
  intros Hseen Ht Hs. pose proof (is_candidate t tasks Ht Hs) as Hc.
  destruct Hseen as [He|(th & al & mj & -> & ? & ? & ?)]; [rewrite He in Hc; by apply not_elem_of_nil in Hc|].
  destruct (contains _ _) eqn:Hin; exists (candidates tasks), th, al, mj; split_and!; try done.
  - apply contains_spec in Hin. by rewrite !elem_of_app in Hin.
  - apply contains_false in Hin. set_solver.
  - apply contains_false in Hin. set_solver.
  - apply contains_false in Hin. set_solver.
Qed.

Lemma keeps_seen tasks P l :
  grows P → writes_ok c l → P l →
  ckeeps (seenTaskUPIDs c (candidates tasks))
    (λ x l, writes_ok c l ∧ P l ∧ ∀ seen, x = Ok seen → seen_ok tasks seen l) l.
Proof.
  intros HP Hl HPl. unfold seenTaskUPIDs. destruct (candidates tasks) as [|u us] eqn:Hc.
  { apply keeps_ret. split_and!; [done..|]. intros seen [= <-]. by left. }
  rewrite <-Hc. clear Hc.
  apply keeps_bind, keeps_call. intros [th|e]; (split; [by split|]); [|apply keeps_ret; split_and!; [by split|by apply HP|done]].
  apply keeps_bind, keeps_call.
  intros [al|e]; (split; [by split|]); [|apply keeps_ret; split_and!; [by split|by do 2 apply HP|done]].
  apply keeps_bind, keeps_call.
  intros [mj|e]; (split; [by split|]); (apply keeps_ret; split_and!; [by split|by do 3 apply HP|]); [|done].
  intros seen [= <-]. right. exists th, al, mj. split_and!; [done|right; right; left|right; left|left].
Qed.

Lemma keeps_ingestTask node since t tasks seen P l :
  grows P → t ∈ tasks → writes_ok c l → P l → listed c node since tasks l → seen_ok tasks seen l →
  ckeeps (ingestTask c node t seen) (λ _ l, writes_ok c l ∧ P l ∧ listed c node since tasks l ∧ seen_ok tasks seen l ∧
    accounted c node l t) l.
Proof.
  intros HP Ht Hl HPl Hlist Hseen. unfold ingestTask.
  destruct (skipTaskTypes (nt_Type t)) eqn:Hskip; [apply keeps_ret; split_and!; try done; by left|].
  pose proof (seen_lookup tasks seen t l Hseen Ht Hskip) as Hlook.
  destruct (contains seen (nt_UPID t)); [apply keeps_ret; split_and!; try done; by right; left|].
  set (K := λ l, P l ∧ listed c node since tasks l ∧ seen_ok tasks seen l ∧ is_new c (nt_UPID t) l).
  assert (grows K) as HK.
  { repeat apply grows_and; [done|apply upclosed_grows, up_listed|apply grows_seen_ok|apply upclosed_grows, up_looked_up]. }
  apply keeps_bind. eapply keeps_mono; [|apply (ckeeps_free (guest_name c t) K); [done| |done|by unfold K]].
  2: { unfold guest_name. destruct (filed_as t) as [ty id]. case_match; [|done].
       apply calls_bind, calls_call; [by intros ??|done]. }
  intros name l1 [H1 K1]. destruct (identity_of t node) as [m id].
  set (row := external_row c node t name). apply keeps_bind, keeps_call. intros x.
  assert (writes_ok c (Ev (InsertExternalTaskHistory row) x :: l1)) as H2.
  { split; [|done]. destruct K1 as (_ & ? & _ & ?). by exists node, since, tasks, t, name. }
  split; [done|].
  assert (K (Ev (InsertExternalTaskHistory row) x :: l1) ∧ accounted c node (Ev (InsertExternalTaskHistory row) x :: l1) t) as K2.
  { split; [by apply HK|]. right. right. exists name, x. by left. }
  eapply keeps_mono; [|apply (ckeeps_free _ (λ l, K l ∧ accounted c node l t)); [|clear|done|exact K2]].
  - intros _ l2 (? & (? & ? & ? & _) & ?). by split_and!.
  - apply grows_and; [done|apply upclosed_grows, up_accounted].
  - destruct x; [done|]. repeat (apply calls_bind, calls_call; [by intros ??|intros ? _]). destruct x; [done|].
    repeat (apply calls_bind, calls_call; [by intros ??|intros ? _]). done.
Qed.

Lemma keeps_ingest_all node since tasks seen P l :
  grows P → writes_ok c l → P l → listed c node since tasks l → seen_ok tasks seen l →
  ckeeps (for_each tasks (λ t, do! ingestTask c node t seen in Ret tt))
    (λ _ l, writes_ok c l ∧ P l ∧ listed c node since tasks l ∧ ∀ t, t ∈ tasks → accounted c node l t) l.
Proof.
  intros HP Hl HPl Hlist Hseen.
  set (J := λ rest l, writes_ok c l ∧ P l ∧ listed c node since tasks l ∧ seen_ok tasks seen l ∧
    rest ⊆ tasks ∧ ∀ t, t ∈ tasks → t ∈ rest ∨ accounted c node l t).
  eapply keeps_mono; [|apply (keeps_each (writes_ok c) tasks _ J)].
  - intros [] l' (? & ? & ? & _ & _ & Ha). split_and!; [done..|]. intros t [Hn|?]%Ha; [by apply not_elem_of_nil in Hn|done].
  - intros t rest l1 (H1 & HP1 & Hl1 & Hs1 & Hsub & Ha). apply keeps_bind.
    set (K := λ l, P l ∧ ∀ t', t' ∈ tasks → t' ∈ t :: rest ∨ accounted c node l t').
    assert (grows K) as HK.
    { apply grows_and; [done|]. intros ev l2 Hk t' [?|?]%Hk; [by left|right; by apply (upclosed_grows _ (up_accounted c node t'))]. }
    eapply keeps_mono; [|apply (keeps_ingestTask node since t tasks seen K); try done; apply Hsub; by left].
    intros e l2 (H2 & [HP2 Ha2] & ? & ? & Hacc). apply keeps_ret. unfold J. split_and!; try done; [set_solver|].
    intros t' [[->|?]%elem_of_cons|?]%Ha2; [by right|by left|by right].
  - unfold J. split_and!; try done. by left.
Qed.

(** What a pass has found is what it has been told. *)
Definition pass_ok (since : Z) (p : pass) (nodes : list string) (l : slog) : Prop :=
  ps_dedupFailed p = false → ps_fetchFailed p = false → Forall (node_done c since (ps_max p) l) nodes.

Lemma grows_pass_ok since p nodes : grows (pass_ok since p nodes).
Proof. apply grows_impl, grows_impl, grows_Forall. intros. apply grows_node_done. Qed.

Lemma keeps_sync_node since p node nodes P l :
  grows P → writes_ok c l → P l → pass_ok since p nodes l →
  ckeeps (sync_node c since p node) (λ p l, writes_ok c l ∧ P l ∧ pass_ok since p (nodes ++ [node.1]) l) l.
Proof.
  intros HP Hl HPl Hp. unfold sync_node. apply keeps_bind, keeps_call. intros [tasks|e]; (split; [by split|]).
  2: { apply keeps_ret. split_and!; [by split|by apply HP|done]. }
  set (l1 := Ev (SPve c (GetNodeTasks node.1 since taskListLimit)) (Ok tasks) :: l).
  set (K := λ l, P l ∧ listed c node.1 since tasks l ∧ pass_ok since p nodes l).
  assert (grows K) as HK by (repeat apply grows_and; [done|apply upclosed_grows, up_listed|apply grows_pass_ok]).
  assert (writes_ok c l1 ∧ K l1) as [H1 K1].
  { split; [by split|]. split_and!; [by apply HP|by left|by apply grows_pass_ok]. }
  apply keeps_bind. eapply keeps_mono; [|by apply (keeps_seen tasks K)].
  intros [seen|e] l2 (H2 & K2 & Hseen); [|apply keeps_ret; split_and!; [done|apply K2|done]].
  apply keeps_bind. eapply keeps_mono; [|apply (keeps_ingest_all node.1 since tasks seen K); [done|done|done|apply K2|by apply Hseen]].
  intros [] l3 (H3 & (? & Hlist & Hpass) & _ & Ha). apply keeps_ret. split_and!; [done..|]. intros Hd Hf. simpl in *.
  destruct (max_start_le tasks (ps_max p)) as [Hm Ht]. apply Forall_app. split.
  - eapply Forall_impl; [by apply Hpass|]. intros n. by apply node_done_later.
  - apply Forall_singleton. exists tasks. split; [done|]. intros t Hin. split; [by apply Ht|by apply Ha].
Qed.

Lemma keeps_sync_nodes since nodes p dn P l :
  grows P → writes_ok c l → P l → pass_ok since p dn l →
  ckeeps (sync_nodes c since nodes p) (λ p l, writes_ok c l ∧ P l ∧ pass_ok since p (dn ++ nodes.*1) l) l.
Proof.
  intros HP. revert p dn l. induction nodes as [|node nodes IH]; intros p dn l Hl HPl Hp; simpl.
  { rewrite app_nil_r. by apply keeps_ret. }
  apply keeps_bind. eapply keeps_mono; [|by apply (keeps_sync_node since p node dn P)].
  intros p1 l1 (H1 & HP1 & Hp1). eapply keeps_mono; [|by apply (IH p1 (dn ++ [node.1]))].
  intros p2 l2. by rewrite <-(assoc_L (++)).
Qed.

Lemma keeps_sync_since l :
  writes_ok c l → ckeeps (sync_since c) (λ since l, writes_ok c l ∧ from_mark c since l) l.
Proof.
  intros Hl. unfold sync_since. apply keeps_bind, keeps_call. intros [m|]; (split; [by split|]).
  - apply keeps_ret. split; [by split|]. left. by left.
  - apply keeps_bind, keeps_call. intros now. split; [by split|]. apply keeps_ret. split; [by split|].
    right. split; [right; by left|]. exists now. split; [by left|done].
Qed.

Lemma keeps_syncTasks : ckeeps (syncTasks c) (λ _ _, True) [].
Proof.
  unfold syncTasks. apply keeps_bind. eapply keeps_mono; [|by apply keeps_sync_since]. intros since l1 [H1 Hs].
  apply keeps_bind, keeps_call. intros [nodes|e]; (split; [by split|]); [|by apply keeps_ret].
  set (P := λ l, from_mark c since l ∧ Ev (SPve c GetNodes) (Ok nodes) ∈ l).
  assert (grows P) as HP by (apply grows_and; [apply upclosed_grows, up_from_mark|by intros ev l; right]).
  apply keeps_bind. eapply keeps_mono; [|apply (keeps_sync_nodes since nodes first_pass [] P); [done|by split| |by intros _ _; constructor]].
  2: { split; [by apply (upclosed_grows _ (up_from_mark c since))|by left]. }
  intros p l2 (H2 & HP2 & Hp2). apply keeps_bind.
  set (K := λ l, P l ∧ pass_ok since p nodes.*1 l).
  assert (grows K) as HK by (apply grows_and; [done|apply grows_pass_ok]).
  eapply keeps_mono; [|apply (ckeeps_free (linkSDNApplyTasks c) K); [done| |done|done]].
  2: { unfold linkSDNApplyTasks. repeat (apply calls_bind, calls_call; [by intros ??|intros ? _]). done. }
  intros [] l3 [H3 [[Hfrom Hn] Hpass]]. apply keeps_bind. destruct (_ && _) eqn:Hb; [|by do 2 apply keeps_ret].
  to_prop. apply keeps_bind, keeps_call. intros x. split; [|by do 2 apply keeps_ret].
  split; [|done]. split; [done|]. exists since, nodes. split_and!; [done|lia|done|]. by apply Hpass.
Qed.

Lemma keeps_at t1 ev t2 : trace (syncTasks c) (t1 ++ ev :: t2) → write_ok c ev t1.
Proof.
  intros Ht. assert (writes_ok c []) as H0 by done. pose proof (keeps_trace _ _ _ _ _ keeps_syncTasks H0 Ht) as Hl.
  unfold writes_ok in Hl. rewrite app_nil_r, rev_app_distr in Hl. simpl in Hl. rewrite <-(assoc_L (++)) in Hl.
  apply ForallTail_at in Hl. eapply up_write_ok; [|exact Hl]. intros e He. by rewrite <-Permutation_rev in He.
Qed.

(** C28: a pass records a task of Proxmox only where a node listed it and each of the
    three lookups that follow had been answered that its UPID is not in the task
    history, not in the audit log of the cluster, and not the one of a migration
    between clusters. *)
Theorem ingested_once_new t t1 row x t2 :
  trace (syncTasks c) t → t = t1 ++ Ev (InsertExternalTaskHistory row) x :: t2 →
  ∃ node since tasks nt name, row = external_row c node nt name ∧ listed c node since tasks t1 ∧ nt ∈ tasks ∧
    skipTaskTypes (nt_Type nt) = false ∧ is_new c (nt_UPID nt) t1.
Proof. intros Ht ->. apply (keeps_at _ (Ev (InsertExternalTaskHistory row) x) _ Ht). Qed.

(** C29: a pass moves the high-water mark of a cluster only forward, and only after
    each of its nodes has listed its tasks since the old mark: none of them started
    after the new one, and each is of a kind that is skipped, was said to be known, or
    was handed to the database. *)
Theorem mark_covers t t1 c' m x t2 :
  trace (syncTasks c) t → t = t1 ++ Ev (UpsertTaskSyncState c' m) x :: t2 →
  c' = c ∧ ∃ since nodes, from_mark c since t1 ∧ since < m ∧ Ev (SPve c GetNodes) (Ok nodes) ∈ t1 ∧
    Forall (node_done c since m t1) nodes.*1.
Proof. intros Ht ->. apply (keeps_at _ (Ev (UpsertTaskSyncState c' m) x) _ Ht). Qed.
End pass.
