(* ===== verification/SchedExample.v ===== *)
(** * Histories of scheduled tasks, played

    The witnesses of [SchedSafety], [SchedTraces] and [SchedSync], and three
    histories that the code allows:

    - [claimed_batch_runs_twice]: a scheduler claims all that is due at once, and
      nothing renews the claim of a row it has not come to; another may claim that row
      ten minutes later, and both run it.
    - [lost_record_runs_again]: a run whose record fails is run again after ten
      minutes, though its task was started.
    - [mark_passes_failed_insert]: the high-water mark moves past a task whose row
      could not be written. *)

From S2P Require Import Prelude GoFloat GoStrings ProxmoxApi Effects Logs DrsExecutor RbacEngine SchedDb SchedRun.
From S2P Require Import SchedCollect SchedRoutes SchedHistory SchedSafety SchedTraces SchedSync.

Local Open Scope Z_scope.

Module SchedCase.

(** ** An outside *)

(** The time, whether tasks have ended, and which writes fail. *)
Record outside := { o_now : Z; o_ended : bool; o_record_fails : bool; o_insert_fails : bool }.

Definition at_time (now : Z) : outside :=
  {| o_now := now; o_ended := true; o_record_fails := false; o_insert_fails := false |}.

(** Every cron expression is due a day later. *)
#[global] Instance case_cron : CronLibrary := λ _, Ok (λ from, from + 24 * 60 * minute).
#[global] Instance case_config : SchedConfig := {| sc_cache := true; sc_retention := 24 * 60 * minute |}.
#[global] Existing Instance map_to_list_range.

Definition a_task (upid : string) (start : Z) : NodeTask := {|
  nt_UPID := upid; nt_Node := "pve1"; nt_StartTime := start; nt_EndTime := start + 5; nt_Type := "qmstart"; nt_ID := "101";
  nt_User := "root@pam"; nt_TokenID := ""; nt_Status := "OK" |}.

(** The tasks that the node lists, the older one last. *)
Definition node_tasks : list NodeTask := [a_task "UPID:pve1:b" 200; a_task "UPID:pve1:a" 100].

Definition new_upid (n : nat) : string := "UPID:pve1:" +:+ Itoa (Z.of_nat n).

Definition pve_answer {A} (o : outside) (n : nat) (q : srequest A) : result string A :=
  match q with
  | CreateVMSnapshot _ _ _ => Ok (new_upid n)
  | CreateCTSnapshot _ _ _ => Ok (new_upid n)
  | RebootVM _ _ => Ok (new_upid n)
  | RebootCT _ _ => Ok (new_upid n)
  | GetNodes => Ok [("pve1", "online")]
  | GetNodeTasks _ _ _ => Ok node_tasks
  | GetTaskStatus _ _ =>
      Ok {| tr_Status := if o_ended o then "stopped" else "running"; tr_ExitStatus := "OK"; tr_Type := "qmsnapshot" |}
  end.

Definition due_ids (now stale : Z) (d : schedules) : list uuid :=
  (filter (λ kv : uuid * ScheduledTask, due now stale kv.2 = true) (map_to_list d)).*1.

(** A statement that succeeds, or fails without effect. *)
Definition writing (fails : bool) (f : SDb → SDb) (d : SDb) : option (option string * SDb) :=
  if fails then Some (Some "connection lost", d) else Some (None, f d).

Definition answer_op {X} (o : outside) (n : nat) (e : SOp X) (d : SDb) : option (X * SDb) :=
  match e in SOp X return option (X * SDb) with
  | ReconcileDispatchedScheduledTasks su fa di =>
      Some (Ok (settled_rows su fa di d), set_sched (reconcileDispatchedScheduledTasks su fa di (d_hist d)) d)
  | ClaimDueTasks guard stale =>
      let ids := due_ids (o_now o) stale (d_sched d) in
      Some (Ok (omap (λ id, claimed (o_now o) guard <$> d_sched d !! id) ids), set_sched (claimDueTasks (o_now o) guard ids) d)
  | UpdateTaskLastRun a => writing (o_record_fails o) (set_sched (updateTaskLastRun a)) d
  | DisableScheduledTaskForBadSchedule a => writing (o_record_fails o) (set_sched (disableScheduledTaskForBadSchedule (o_now o) a)) d
  | InsertScheduledTask a =>
      let id := 1000 + Z.of_nat n in
      if decide (id ∈ d_used d) then None
      else Some (Ok (insertScheduledTask id a), add_schedule id (insertScheduledTask id a) d)
  | GetScheduledTask id => Some (match d_sched d !! id with Some r => Ok r | None => Err true end, d)
  | ListScheduledTasksByCluster c => Some (Ok [], d)
  | UpdateScheduledTask a =>
      Some (Ok (rows_affected (us_ID a) (us_ClusterID a) (d_sched d)), set_sched (updateScheduledTask a) d)
  | DeleteScheduledTask id c => Some (Ok (rows_affected id c (d_sched d)), set_sched (deleteScheduledTask id c) d)
  | InsertTaskHistory c u upid desc status node ty =>
      match insertTaskHistory (o_now o) c u upid desc status node ty (d_hist d) with
      | None => Some (Err true, d)
      | Some h => Some (Ok tt, set_hist (λ _, h) d)
      end
  | InsertExternalTaskHistory row =>
      writing (o_insert_fails o && bool_decide (th_Upid row = "UPID:pve1:a")) (set_hist (insertExternalTaskHistory row)) d
  | ListExistingTaskHistoryUPIDs upids => Some (Ok (filter (λ u, is_Some (d_hist d !! u)) upids), d)
  | ListExistingAuditLogUPIDs c upids => Some (Ok (filter (λ u, (c, u) ∈ d_audit d) upids), d)
  | ListCrossClusterMigrationUPIDs upids => Some (Ok (filter (λ u, cross_cluster (d_jobs d) u = true) upids), d)
  | ListRunningTaskHistoryByCluster c =>
      Some (Ok ((filter (λ kv : string * TaskHistory, kv.1 = th_Upid kv.2 ∧ followed (d_jobs d) c kv.2 = true)
                   (map_to_list (d_hist d))).*2), d)
  | ReconcileTaskHistory upid status exit finished =>
      Some (Ok (task_rows (d_hist d) upid), set_hist (reconcileTaskHistory upid status exit finished) d)
  | GetTaskByUpid upid => Some (d_hist d !! upid, d)
  | UpdateTaskHistory upid status exit =>
      Some (Ok (own_rows (d_hist d) upid), set_hist (updateTaskHistory upid status exit None) d)
  | TaskUPIDOnRecord _ => Some (Ok false, d)
  | DeleteCompletedTasks cutoff => writing false (set_hist (deleteCompletedTasks cutoff)) d
  | GetTaskSyncState c => Some (d_marks d !! c, d)
  | UpsertTaskSyncState c m => writing false (set_mark c m) d
  | LinkSDNApplyNodeTasks _ _ => Some (None, d)
  | InsertAuditLog c _ _ _ upid => writing false (add_audit c upid) d
  | GetVMByClusterAndVmid _ _ => Some (Some "web", d)
  | GetNodeByClusterAndName _ _ => Some (Some true, d)
  | RequirePerm _ _ _ => Some (None, d)
  | ReadTask _ _ _ => Some (Ok {| tr_Status := "running"; tr_ExitStatus := ""; tr_Type := "qmstart" |}, d)
  | AuditLogAs _ _ _ _ => Some (tt, d)
  | CacheGet _ => Some (None, d)
  | NewClientForCluster _ => Some (None, d)
  | SPve _ q => Some (pve_answer o n q, d)
  | Publish _ _ _ _ _ => Some (tt, d)
  | SystemEvent _ _ => Some (tt, d)
  | SetJobUpid job upid => writing false (set_upid job upid) d
  | TimeNow => Some (o_now o, d)
  end.

Lemma writing_ok fails f d x d' : writing fails f d = Some (x, d') → written f d x d'.
Proof. unfold writing. destruct fails; intros [= <- <-]; [by right|by left]. Qed.

Lemma NoDup_filter_fst {A B} (P : A * B → Prop) `{∀ x, Decision (P x)} (l : list (A * B)) : NoDup l.*1 → NoDup (filter P l).*1.
Proof.
  induction l as [|[a b] l IH]; [done|]. rewrite fmap_cons, NoDup_cons. simpl. intros [Ha Hl]. rewrite filter_cons.
  case_decide; [|by apply IH]. rewrite fmap_cons, NoDup_cons. split; [|by apply IH]. simpl. contradict Ha.
  apply list_elem_of_fmap in Ha as (x & -> & [_ Hx]%list_elem_of_filter). by apply list_elem_of_fmap_2.
Qed.

Lemma claim_ok now guard stale d :
  claim_answer now guard stale d
    (Ok (omap (λ id, claimed now guard <$> d_sched d !! id) (due_ids now stale (d_sched d))))
    (set_sched (claimDueTasks now guard (due_ids now stale (d_sched d))) d).
Proof.
  exists (due_ids now stale (d_sched d)).
  assert (∀ id, id ∈ due_ids now stale (d_sched d) → ∃ r, d_sched d !! id = Some r ∧ due now stale r = true) as Hdue.
  { intros id ([k r] & -> & [Hd Hin]%list_elem_of_filter)%list_elem_of_fmap. exists r.
    split; [by apply elem_of_map_to_list|done]. }
  split_and!; [|done|done|].
  - apply NoDup_filter_fst, NoDup_fst_map_to_list.
  - induction (due_ids now stale (d_sched d)) as [|id ids IH]; [constructor|].
    destruct (Hdue id) as (r & Hr & _); [by left|]. simpl. rewrite Hr. simpl. constructor; [by exists r|].
    apply IH. intros. apply Hdue. by right.
Qed.

Lemma answer_op_ok {X} o n (e : SOp X) d x d' : answer_op o n e d = Some (x, d') → may_answer e (o_now o) d x d'.
Proof.
  destruct e; simpl; try (by intros [= <- <-]); try (by apply writing_ok); try (by apply (writing_ok false)).
  - intros [= <- <-]. apply claim_ok.
  - case_decide; [done|]. intros [= <- <-]. by eexists.
  - intros [= <- <-]. split; [done|]. by destruct (d_sched d !! id).
  - intros [= <- <-]. split; [done|]. by intros l [= <-].
  - destruct (insertTaskHistory _ _ _ _ _ _ _ _ _); intros [= <- <-]; [by left|]. split; [done|by left].
  - intros [= <- <-]. split; [done|]. intros l [= <-] u. rewrite list_elem_of_filter. tauto.
  - intros [= <- <-]. split; [done|]. intros l [= <-] u. rewrite list_elem_of_filter. tauto.
  - intros [= <- <-]. split; [done|]. intros l [= <-] u. rewrite list_elem_of_filter. tauto.
  - intros [= <- <-]. split; [done|]. intros l [= <-] r. rewrite list_elem_of_fmap. split.
    + intros ([u r'] & -> & [[Hu Hf] Hin]%list_elem_of_filter). apply elem_of_map_to_list in Hin. simpl in *. by subst u.
    + intros [Hr Hf]. exists (th_Upid r, r). split; [done|]. apply list_elem_of_filter. split; [done|]. by apply elem_of_map_to_list.
Qed.

Definition answer (o : outside) (i : nat) (X : Type) (e : SOp X) (s : SSys) : option (X * SSys) :=
  if o_now o <? s_now s then None
  else '(x, d) ← answer_op o (length (s_log s)) e (s_db s);
       Some (x, {| s_db := d; s_now := o_now o; s_log := Sen i (o_now o) (Ev e x) :: s_log s |}).

Lemma answer_steps o i X (e : SOp X) s x s' : answer o i X e s = Some (x, s') → step i X e s x s'.
Proof.
  unfold answer. destruct (Z.ltb_spec (o_now o) (s_now s)); [done|]. intros ([x1 d] & Ha & [= <- <-])%bind_Some.
  exists (o_now o), d. split_and!; [done| |done]. by eapply answer_op_ok.
Qed.

Definition unusedb (i : nat) (s : SSys) : bool := bool_decide (i ∉ se_thread <$> s_log s).

Lemma unusedb_ok i s : unusedb i s = true → unused i s.
Proof. apply bool_decide_eq_true. Qed.

(** ** Histories *)

Definition no_rows : SSys := {|
  s_db := {| d_sched := ∅; d_used := ∅; d_hist := ∅; d_marks := ∅; d_audit := ∅; d_jobs := ∅ |}; s_now := 0; s_log := [] |}.

Lemma no_rows_fresh : fresh_start no_rows.
Proof. done. Qed.

Definition after (turns : list (turn SOp outside)) : SSys := default no_rows (take_turns answer unusedb turns [] no_rows).

Lemma sched_played turns : Forall (turn_ok sched_entry) turns → ∃ ts, history_of no_rows ts (after turns).
Proof.
  intros Ht. unfold after. destruct (take_turns answer unusedb turns [] no_rows) as [s|] eqn:Hp; simpl; [|exists []; apply rtc_refl].
  by apply (take_turns_threads step unused sched_entry answer unusedb answer_steps unusedb_ok turns).
Qed.

Definition snapshot_of (vmid : string) : ScheduleRequest := {|
  sq_cluster_id := Some 1; sq_id := None; sq_resource_type := "vm"; sq_resource_id := vmid; sq_node := "pve1";
  sq_action := "snapshot"; sq_schedule := "0 2 * * *";
  sq_params := Ok {| sp_SnapName := "nightly"; sp_Description := ""; sp_VMState := false |}; sq_enabled := true |}.

Definition create (i : nat) (vmid : string) : list (turn SOp outside) :=
  [Start i (do! CreateSchedule (snapshot_of vmid) in Ret tt); Calls i 20 (at_time 0)].

Definition day : Z := 24 * 60 * minute.

(** A snapshot is scheduled, started, followed to its end and settled. *)
Definition succeeding : list (turn SOp outside) :=
  create 0 "101" ++
  [Start 1 Run; Calls 1 40 (at_time (day + 60 * second));
   Start 2 (reconcileRunningTasks 1); Calls 2 20 (at_time (day + 120 * second));
   Start 3 RunScheduledTaskReconcile; Calls 3 10 (at_time (day + 120 * second))].

(** Two schedulers: the first claims both rows and comes to the second one only after
    ten minutes, when the other has claimed and run it. *)
Definition overlapping : list (turn SOp outside) :=
  create 0 "101" ++ create 1 "102" ++
  [Start 2 Run; Calls 2 11 (at_time (day + 60 * second));
   Start 3 Run; Calls 3 40 (at_time (day + 661 * second));
   Calls 2 40 (at_time (day + 662 * second))].

(** The record of the run fails, and the row is claimed again. *)
Definition unrecorded : list (turn SOp outside) :=
  create 0 "101" ++
  [Start 1 Run;
   Calls 1 40 {| o_now := day + 60 * second; o_ended := true; o_record_fails := true; o_insert_fails := false |};
   Start 2 Run; Calls 2 40 (at_time (day + 661 * second))].

(** A pass over the tasks of the node, of which one cannot be written. *)
Definition syncing (fails : bool) : list (turn SOp outside) :=
  [Start 0 (do! syncTasks 1 in Ret tt);
   Calls 0 60 {| o_now := day; o_ended := true; o_record_fails := false; o_insert_fails := fails |}].

Ltac turns_ok := repeat (apply Forall_cons; split; [constructor|]); apply Forall_nil; done.

Definition status_of (id : uuid) (s : SSys) : option string := r ← d_sched (s_db s) !! id; st_LastStatus r.

(** What Proxmox was asked to do to a guest, by which thread and when. *)
Definition asked_for (vmid : Z) (s : SSys) : list (nat * Z) :=
  omap (λ e, match requested (se_event e) with
             | Some (g, _) => if gr_vmid g =? vmid then Some (se_thread e, se_time e) else None
             | None => None
             end) (s_log s).

(** ** What the code allows *)

Example claimed_batch_runs_twice :
  (∃ ts, history_of no_rows ts (after overlapping)) ∧
  asked_for 102 (after overlapping) = [(2%nat, day + 662 * second); (3%nat, day + 661 * second)].
Proof. split; [apply sched_played; by turns_ok|by vm_compute]. Qed.

Example lost_record_runs_again :
  (∃ ts, history_of no_rows ts (after unrecorded)) ∧
  asked_for 101 (after unrecorded) = [(2%nat, day + 661 * second); (1%nat, day + 60 * second)].
Proof. split; [apply sched_played; by turns_ok|by vm_compute]. Qed.

Example mark_passes_failed_insert :
  (∃ ts, history_of no_rows ts (after (syncing true))) ∧
  (d_marks (s_db (after (syncing true))) !! 1, d_hist (s_db (after (syncing true))) !! "UPID:pve1:a") = (Some 200, None).
Proof. split; [apply sched_played; by turns_ok|by vm_compute]. Qed.

(** ** Witnesses *)

Definition no_entry : sentry := Sen 0 0 (Ev TimeNow 0).
Definition no_row : ScheduledTask := insertScheduledTask 0 {|
  is_ClusterID := 0; is_ResourceType := ""; is_ResourceID := ""; is_Node := ""; is_Action := ""; is_Schedule := "";
  is_Params := Err ""; is_Enabled := false; is_NextRunAt := None |}.

Definition snapshot_row : ScheduledTask := default no_row (d_sched (s_db (after succeeding)) !! 1003).

Lemma success_is_reported_witness :
  ∃ u, st_LastUpid snapshot_row = Some u ∧ started snapshot_row u (s_log (after succeeding)) ∧
    ended_well u (s_log (after succeeding)).
Proof.
  destruct (sched_played succeeding) as [ts Hts]; [by turns_ok|].
  apply (success_is_reported no_rows ts (after succeeding) 1003 snapshot_row); [done|done|by vm_compute|by vm_compute].
Defined.

(** A scheduler claims the row and is cut off; another claims it later. *)
Definition claimed_twice : list (turn SOp outside) :=
  create 0 "101" ++
  [Start 1 Run; Calls 1 2 (at_time (day + 60 * second)); Stop 1; Start 2 Run; Calls 2 2 (at_time (day + 661 * second))].

Definition claim_log : list sentry := s_log (after claimed_twice).

Lemma claims_exclusive_witness :
  se_time (nth 2 claim_log no_entry) + taskClaimGuardSeconds * second ≤ se_time (nth 0 claim_log no_entry).
Proof.
  destruct (sched_played claimed_twice) as [ts Hts]; [by turns_ok|].
  apply (claims_exclusive no_rows ts (after claimed_twice) [] (nth 0 claim_log no_entry) [nth 1 claim_log no_entry]
    (nth 2 claim_log no_entry) (drop 3 claim_log) 1003).
  - done.
  - done.
  - by vm_compute.
  - apply (bool_decide_unpack _). by vm_compute.
  - apply (bool_decide_unpack _). by vm_compute.
  - intros e He. apply list_elem_of_singleton in He as ->. by vm_compute.
Defined.

(** The calls of one program alone, oldest first. *)
Definition events_of (s : SSys) {A} (p : sprog A) : slog :=
  match make_calls answer 9 100 (at_time (day + 60 * second)) p s with
  | Some (_, s') => rev (se_event <$> take (length (s_log s') - length (s_log s)) (s_log s'))
  | None => []
  end.

Lemma events_of_returns s {A} (p : sprog A) a :
  (fst <$> make_calls answer 9 100 (at_time (day + 60 * second)) p s) = Some (Ret a) →
  returns p (events_of s p) a ∧ trace p (events_of s p).
Proof.
  intros ([p' s'] & Hm & Hp)%fmap_Some. simpl in Hp. unfold events_of. rewrite Hm.
  destruct (make_calls_trace step answer answer_steps s_log se_event 9 100 (at_time (day + 60 * second)) p p' s s')
    as (t & l & Ht & Hl & Hev & Hret); [|done|].
  { intros i X e s1 x s2 Hst. eexists. split; [by apply sched_log|done]. }
  rewrite Hl, length_app, Nat.add_sub, take_app_length, Hev, rev_involutive. split; [by apply Hret; rewrite Hp|done].
Qed.

Definition scheduled : SSys := after (create 0 "101").
Definition run_events : slog := events_of scheduled Run.
Definition sync_events : slog := events_of no_rows (syncTasks 1).

Lemma run_events_returns : returns Run run_events tt ∧ trace Run run_events.
Proof. apply events_of_returns. by vm_compute. Qed.

Lemma Run_at_most_once_witness :
  length (requests run_events) = 1%nat ∧ requests run_events ⊆+ omap run_of (rows_of run_events).
Proof. split; [by vm_compute|]. apply (Run_at_most_once run_events), run_events_returns. Defined.

Lemma Run_records_each_witness :
  records run_events = [1003] ∧ records run_events ≡ₚ st_ID <$> rows_of run_events.
Proof. split; [by vm_compute|]. apply (Run_records_each run_events), run_events_returns. Defined.

Lemma sync_events_trace : trace (syncTasks 1) sync_events.
Proof. eapply proj2, events_of_returns. by vm_compute. Qed.

Definition no_event : event SOp := Ev TimeNow 0.

(** The row written first. *)
Definition first_row : TaskHistory := external_row 1 "pve1" (a_task "UPID:pve1:b" 200) "web".

Lemma ingested_once_new_witness :
  ∃ node since tasks nt name, first_row = external_row 1 node nt name ∧ listed 1 node since tasks (take 8 sync_events) ∧
    nt ∈ tasks ∧ skipTaskTypes (nt_Type nt) = false ∧ is_new 1 (nt_UPID nt) (take 8 sync_events).
Proof.
  apply (ingested_once_new 1 sync_events (take 8 sync_events) first_row None (drop 9 sync_events)).
  - apply sync_events_trace.
  - by vm_compute.
Defined.

Lemma mark_covers_witness :
  1 = 1 ∧ ∃ since nodes, from_mark 1 since (take 19 sync_events) ∧ since < 200 ∧
    Ev (SPve 1 GetNodes) (Ok nodes) ∈ take 19 sync_events ∧ Forall (node_done 1 since 200 (take 19 sync_events)) nodes.*1.
Proof.
  apply (mark_covers 1 sync_events (take 19 sync_events) 1 200 None []).
  - apply sync_events_trace.
  - by vm_compute.
Defined.
End SchedCase.
